(* ===== verification/_CoqProject ===== *)
-Q . S2P
Prelude.v
Int128.v
Algo.v
Queue.v
LinkedList.v
KeyIndex.v
Hashmap.v
BinaryHeap.v
Num.v
Calendar.v
Interval.v
Scheduler.v
NextCheck.v
Base64.v
PpQueue.v
PpInv.v
PpOps.v
PpManager.v
PpSystem.v
PpRun.v
EvalParse.v
EvalSyntax.v
Variant.v
EvalExec.v
Memory.v
Shmem.v
ShmemLayout.v
ShmemArena.v
ShmemFree.v
ShmemRealloc.v
ShmemSegment.v
ShmemClient.v
ShmemRun.v
JsonString.v
JsonParse.v
JsonGrammar.v
JsonWriter.v
JsonBuffer.v
JsonSession.v
JsonRun.v
JsonRead.v
JsonScan.v
JsonReadRun.v
VcHistory.v
VcSql.v
VcDb.v
VcChunk.v
VcStore.v
VcAdd.v
VcInsert.v
VcItem.v
VcInv.v
VcGet.v
VcRun.v
VcRefine.v
VcCache.v
PbBuffer.v
PbExport.v
PbSystem.v
PbInv.v
PbHandles.v
PbSafe.v
PbDelivery.v
PbRun.v
PbPacket.v
ExprScan.v
ExprKey.v
ExprKeyGrammar.v
ExprKeyParse.v
ExprParam.v
ExprParamValue.v
ExprReplace.v
ExprSubst.v
IpRange.v
IpPath.v
IpIter.v
IpUniq.v
IpParse.v
IpText.v
IpPorts.v
