(* ===== verification/Prelude.v ===== *)
(** * A verification of the core of the Zabbix server

    The repository is a Zabbix 7.0 source tree: a server, a proxy and agents in
    C (src/src), an agent in Go and a web frontend in PHP.  The server's
    processes share data in a shared memory segment, take values from pollers,
    preprocess them, store them, and evaluate trigger expressions on them;
    everything it exchanges with proxies, agents and the frontend is JSON.
    This development models the libraries that have the algorithms of the
    server, in C terms: machine integers with their wrap-around, strings that
    end in a NUL, pointers into shared objects, buffers with bounds.

    ** The parts

    Containers and arithmetic (src/src/libs/zbxalgo)
    - Int128: int128.c, 128-bit words as pairs of 64-bit words.
    - Algo: algodefs.c, the primes that size hash tables, square root, hashes.
    - Queue: queue.c, the ring buffer of pointers, refined to a FIFO.
    - LinkedList: linked_list.c, lists and iterators over a store of items.
    - Hashmap: hashmap.c, chains in arrays, growth and rehash in place.
    - KeyIndex: the interface between the heap and its index, a class with laws.
    - BinaryHeap: binaryheap.c, proved against KeyIndex, which Hashmap satisfies.

    Numbers, time and schedules (zbxnum, zbxtime, zbxexpr)
    - Num: num.c, integer and decimal parsers.
    - Calendar: time.c, calendar arithmetic, ISO weeks, suffixes, stamps.
    - Interval: interval.c, the parsers of update intervals and time periods.
    - Scheduler, NextCheck: interval.c, when an item is next checked.

    Encoding (zbxcrypto, zbxjson)
    - Base64: base64.c.
    - JsonString, JsonParse, JsonGrammar: json_parser.c, jsonobj.c and the
      string functions of json.c; the grammar and the parser for it.
    - JsonWriter, JsonBuffer, JsonSession, JsonRun: struct zbx_json of json.c,
      the buffer it writes, and whole sessions of writer calls.
    - JsonRead, JsonScan, JsonReadRun: the readers in place of json.c.

    Preprocessing (zbxpreproc)
    - PpQueue: pp_queue.c and pp_task.c, tasks on a heap, shared by address.
    - PpInv, PpOps: the invariant of the queue and that the operations keep it.
    - PpManager, PpSystem: the handlers of pp_manager.c and pp_worker.c.
    - PpRun: manager, workers and queue as a machine of interleaved steps.

    Expressions (zbxeval, zbxvariant)
    - EvalParse, EvalSyntax: parse.c, infix tokens to a postfix stack.
    - Variant: variant.c, values, their conversion to double and their order.
    - EvalExec: execute.c, the stack machine.

    Shared memory (zbxshmem)
    - Memory: word memory and a total weakest precondition in Iris.
    - Shmem: memalloc.c, every operation on the raw words.
    - ShmemLayout, ShmemArena, ShmemFree, ShmemRealloc, ShmemSegment: the
      chunks, their representation in memory and a specification per operation.
    - ShmemClient, ShmemRun: the allocator as an abstract machine for callers.

    Value cache and history (zbxcachevalue, zbxhistory)
    - VcHistory: records, their order, the table of an item as a sorted list,
      the answer the table gives to a request, the interface of a storage.
    - VcSql: history_sql.c, reading by time and by count, an instance of it.
    - VcDb: valuecache.c, the reads from the storage (its vc_db functions).
    - VcChunk, VcItem: valuecache.c, an item as a list of chunks of slots, the
      operations on chunks (vch_item functions) and the filling of an item.
    - VcStore, VcAdd, VcInsert, VcInv, VcGet: what the slots hold, and that
      each operation keeps a cached item equal to the newest part of its table.
    - VcRun, VcRefine: the public calls (zbx_vc functions) over tables and cache, runs
      of calls, and the same runs on the tables alone.
    - VcCache: the two put together, and the requests outside the conditions.

    Proxy buffer (zbxproxybuffer)
    - PbBuffer: proxybuffer.c and what pb_history.c, pb_discovery.c and
      pb_autoreg.c have alike, written once over the kind of row: rows in
      memory ([rows] of a [chan]), rows of the tables ([database]), the four
      states, adding, discarding, expiring and flushing rows, handles.
    - PbExport: taking rows for an upload, from memory or by selects, as calls
      of the JSON writer.
    - PbSystem: writers with handles, the sender and the server (proxy.c of
      zbxdbwrap: items looked up, duplicates, validation) as a machine whose
      steps are critical sections, transactions and messages.
    - PbInv, PbHandles, PbSafe, PbDelivery: what each operation and each step
      changes, the count of handles, the invariant [safe] on the history of
      the rows, and that every step keeps it.
    - PbRun: runs from a start; PbPacket: the text of a packet.

    Item keys (zbxexpr, zbxparam, zbxsysinfo, zbxcacheconfig, lld_macro.c)
    - ExprScan: loops over a text that end with a result, by steps and by runs.
    - ExprKey: expr.c, param.c, sysinfo.c and key.c: parsing a key, taking,
      quoting and replacing its parameters.
    - ExprKeyGrammar: the grammar of keys and a machine that accepts it;
      ExprKeyParse: zbx_parse_key and zbx_num_param are that machine.
    - ExprParam, ExprParamValue: measuring, taking and quoting parameters.
    - ExprReplace, ExprSubst: replacing parameters in place, and the callbacks
      that expand macros in them.

    IP ranges (zbxip)
    - IpRange: iprange.c, and ip.c in part: parsing, walking through, counting,
      testing and writing addresses and ranges of addresses and ports.
    - IpPath: walks that a function takes from one element to the next, with
      and without leaving elements out.
    - IpIter, IpUniq, IpPorts: the walk through one range, through several,
      and through ranges of ports.
    - IpParse, IpText: masks, what the parser accepts, and texts of addresses
      and blocks.

    Prelude has what they share: outcomes of C code, words, bounded loops.

    ** How the code is modelled

    A C function is a function of the same name.  One that can go wrong returns
    in [res]: [Ret], [Exit] for exit(EXIT_FAILURE), [Undef] for undefined
    behaviour, [NoFuel] for a loop bound of the model that ran out.  State is
    passed explicitly: records for structs, finite maps for hash sets and for
    heaps of shared objects, where an object freed is an object deleted and its
    use is [Undef].  A [char *] into a text is the rest of the text, or an
    offset where the code computes with offsets; [[]] is at the NUL.  Integers
    are Z; u64 and its kind wrap, [c_int] makes signed overflow undefined.

    Loops.  A loop whose bound is in the code is a Fixpoint on it.  The others
    have fuel: the length of the text plus one for scans (each round takes a
    character; twice that where a round may look at the character again), and for the rest [while k], 2^k rounds, where k is the width of
    the quantity that decreases; FIT_BOUND, 64, is that k for the walks along a
    free list of the allocator.  The depth check of the JSON parser bounds its
    recursion (66 calls).  In the value cache the search in a chunk has [while 16]
    and the shift of newer values [while 32], chunks and items being smaller;
    the reads by count have the number of periods plus one.  The walks through
    n ranges have [while (128 + n)] for addresses and [while (16 + n)] for
    ports, the widths of an address and of a port; the parser of IPv6 has nine
    rounds, one more than there are groups.  Every fuelled function that has a theorem is proved never to
    give [NoFuel] under the theorem's hypotheses: its statement says that the
    result is [Ret].

    Concurrency.  The preprocessing queue is behind a mutex.  A step of PpRun is
    a critical section of a thread, or the processing of a task a worker owns;
    a run is any sequence of steps.  That a mutex makes critical sections
    atomic is taken from pthreads.

    The value cache is behind a lock, and its calls are taken as one step each;
    the code gives the lock up while it reads the database, and what other
    processes may do then is not modelled, except that the item may be new.
    Which allocations fail, what was evicted to make room (vc_release_space)
    and whether the cache went into low memory mode is a plan given with each
    call, over which the theorems quantify.

    In the proxy buffer a step is what is done under its lock, one transaction
    with its outcome, one select, or one upload with what became of it; a run
    is any sequence of steps.  The theorems on runs ask for tables with
    different positive ids ([stored_ok]) and for an [orderly] run: ids do not
    run out, and no handle opened to the database takes ids while rows with
    ids wait in memory behind the table, which the code does not ensure
    (PbRun.race_loses_row).  Freeing memory and storing a row have as fuel the
    number of rows in memory plus two, since each round but the last drops one.
    The flush of a fall back is made again while the database is down, under
    the lock: its loop runs over a list of outcomes of commits, and a list
    without an answer is NoFuel, the one way in which a step does not come to
    an end.  A [ledger] beside the state records which rows need not reach the
    server, each with a [reason] that is tested when it is noted; no operation
    reads it.

    Parameters.  The rows a query returns, in an order the database chooses.
    The C library and the system: strtod, atof, mktime and
    localtime, malloc that fails (LinkedList), the printing of doubles, the
    address at which a segment is attached.  Callbacks: comparison functions,
    hash functions, built-in expression functions, what replaces a parameter of
    an item key and what expands the macros of a text.  What a theorem needs of
    them is a named hypothesis or the law of a class.

    Choices.  The shared memory model has 64-bit little endian words at aligned
    addresses; its description strings are lengths; log messages are left out.
    zbx_localtime_now, localtime with a cache of one entry, is localtime.
    zbx_malloc and zbx_realloc succeed, since they exit otherwise.  Texts are
    shorter than 2^31 characters where the code counts them in int.

    ** What is proved

    - Refinement.  The ring buffer is a FIFO as long as its int fields do not
      overflow; the hashmap is a finite map; the
      allocator is a machine on chunks and block contents; parsing and then
      executing an expression gives the value of its tree; a session of the
      JSON writer leaves the text of the document its calls describe, and
      reading it gives the tree back; over any sequence of calls that meet
      the stated conditions the value cache answers what the history tables alone would answer.
    - Safety and invariants.  No step of the preprocessing system uses a freed
      task; its counters are exact; values keep their order; live blocks of the
      allocator never overlap and nothing leaks.
    - Delivery.  In an orderly run no value disappears between a writer of the
      proxy and the server without one of the stated reasons, and none is
      handed on twice or out of order; the state of the buffer tells where
      values are; open handles are counted; a writer with the lock waits for
      nothing but the database; a packet of history whose rows fit the reserve
      is the JSON of its rows and stays within the size the server takes.
    - Liveness.  While a task is left, some step of the system is enabled.
    - Exactness.  Parsers accept exactly the texts of a stated grammar: JSON,
      Base64, numbers, time suffixes, intervals, infix expressions, item keys.
    - Keys.  A key splits into its name and the values of its parameters; what
      is measured for a parameter is what is written; and the value of a macro
      put into a parameter cannot change the structure of the key.
    - Addresses.  A range is walked through without leaving an address out or
      visiting one twice, several ranges as well; the number of addresses is
      their count; what the parser accepts is in order and within its bits.
    - Arithmetic.  128-bit division and multiplication are exact; UTC time is
      the count of seconds; ISO weeks are those of the standard; the search of
      a scheduling interval ends with a later moment of its hours, minutes,
      seconds and days (the step of week days aside when they are combined
      with month days); the next check of an item is the next moment of the
      phase of the delay that is then in force.
    - Round trips.  Base64, time periods, JSON, quoted parameters of keys,
      addresses and blocks of addresses.
    - Bounds.  Writes stay in their buffers and overflow is excluded, with the
      hypotheses that this takes, or shown by an example where it is not.

    The examples at the end of files show behaviour that is not what the code
    means to do: EvalSyntax.stray_comma_accepted and unmatched_close_accepted,
    ShmemRun.create_smallest_overruns, JsonRun.limit_cut_at_start,
    init_with_newline, clone_unterminated and nesting_limit,
    JsonReadRun.blank_array_counts_one, and the five of VcCache, requests to
    the value cache that return less than the tables hold; PbRun.race_loses_row,
    a race that makes the server drop a value; IpRange.fill_out_of_bounds,
    read_past_end, trailing_groups_ignored, uniq_restarts, kinds_not_compared
    and octet_overflows; Scheduler.wday_test_ignores_step; and
    Queue.reserve_overflows.

    ** Not modelled

    - Doubles in Num, opening by JSONPath and conversion of trees to text in
      the JSON library, characters of tokens in the expression parser, and the
      built-in functions of expressions.
    - The preprocessing steps themselves: regular expressions, XPath,
      JavaScript and Prometheus are calls into libraries.
    - In the value cache: the reference counts of its string pool, the choice
      of what to evict, statistics reports, and the Elasticsearch storage.
    - In the proxy buffer: selects that fail, the sender of discovery and
      autoregistration as steps, the flush at shutdown, memory statistics.
    - Tests for IPv6 addresses and host names with ports (ip.c); what a range
      that is refused leaves in its structure.
    - SNMP OIDs with parameters, the scanners of macros and of function calls.
    - The history cache, the configuration cache, the database layer, LLD,
      escalations: their state is in database tables and their logic largely
      in SQL.
    - Pollers, trappers, agents, TLS, system information: input and output.
    - Third-party code (duktape), Go, Java and PHP. *)

From stdpp Require Import base list numbers strings option.
From Stdlib Require Import ZArith Lia.

Open Scope Z_scope.

(* ------------------------------------------------------------------ *)
(** ** Outcomes of C code *)

(** [Ret] is a normal return, [Exit] a call to exit(EXIT_FAILURE), [Undef] an
    undefined behaviour of C (out of bounds access, division by zero, shift by
    the word size or more), [NoFuel] an exhausted loop bound of the model. *)
Inductive res (A : Type) : Type :=
| Ret (a : A)
| Exit
| Undef
| NoFuel.
Arguments Ret {A} _.
Arguments Exit {A}.
Arguments Undef {A}.
Arguments NoFuel {A}.

(** The error monad of the model; the notation is stdpp's. *)
#[export] Instance res_ret : MRet res := fun A a => Ret a.
#[export] Instance res_bind : MBind res := fun A B k m =>
  match m with
  | Ret a => k a
  | Exit => Exit
  | Undef => Undef
  | NoFuel => NoFuel
  end.

Lemma res_bind_Ret {A B : Type} (m : res A) (k : A -> res B) (b : B) :
  m ≫= k = Ret b -> exists a, m = Ret a /\ k a = Ret b.
Proof. destruct m; simpl; try discriminate. eauto. Qed.

Lemma bind_ret {A B : Type} (a : A) (k : A -> res B) : Ret a ≫= k = k a.
Proof. reflexivity. Qed.

(** One or more binds on a known result; the binds that are still stuck are
    left folded, which keeps the kernel's conversion checks small. *)
Ltac run := rewrite ?bind_ret; cbv beta iota.

Lemma Ret_inj {A : Type} (a b : A) : Ret a = Ret b -> a = b.
Proof. by injection 1. Qed.

Ltac inv_res :=
  repeat match goal with
  | H : mbind _ _ = Ret _ |- _ =>
      apply res_bind_Ret in H; destruct H as (? & ? & ?)
  | H : Ret _ = Ret _ |- _ => apply Ret_inj in H; simplify_eq
  | H : _ = Ret _ |- _ => discriminate H
  end.

(* ------------------------------------------------------------------ *)
(** ** Machine words *)

Definition u8 (z : Z) : Z := z mod 2 ^ 8.
Definition u16 (z : Z) : Z := z mod 2 ^ 16.
Definition u32 (z : Z) : Z := z mod 2 ^ 32.
Definition u64 (z : Z) : Z := z mod 2 ^ 64.

Definition ZBX_MAX_UINT64 : Z := 2 ^ 64 - 1.

Definition is_u8 (z : Z) : Prop := 0 <= z < 256.
Definition is_u64 (z : Z) : Prop := 0 <= z < 2 ^ 64.

(** Linear arithmetic with [/] and [mod] by constants. *)
Ltac zlia := Z.to_euclidean_division_equations; lia.

Lemma u64_range (z : Z) : 0 <= u64 z < 2 ^ 64.
Proof. apply Z.mod_pos_bound; lia. Qed.
Lemma u32_range (z : Z) : 0 <= u32 z < 2 ^ 32.
Proof. apply Z.mod_pos_bound; lia. Qed.
Lemma u8_range (z : Z) : 0 <= u8 z < 2 ^ 8.
Proof. apply Z.mod_pos_bound; lia. Qed.

Lemma u64_small (z : Z) : 0 <= z < 2 ^ 64 -> u64 z = z.
Proof. apply Z.mod_small. Qed.
Lemma u32_small (z : Z) : 0 <= z < 2 ^ 32 -> u32 z = z.
Proof. apply Z.mod_small. Qed.
Lemma u8_small (z : Z) : 0 <= z < 2 ^ 8 -> u8 z = z.
Proof. apply Z.mod_small. Qed.

Create HintDb word.
Create Rewrite HintDb word.
#[export] Hint Resolve u64_range u32_range u8_range : word.
#[export] Hint Rewrite u64_small u32_small u8_small using lia : word.

(** Signed arithmetic on type int: an overflow is undefined behaviour. *)
Definition c_int (z : Z) : res Z :=
  if (- 2 ^ 31 <=? z) && (z <? 2 ^ 31) then Ret z else Undef.

Lemma c_int_small (z : Z) : - 2 ^ 31 <= z < 2 ^ 31 -> c_int z = Ret z.
Proof.
  intros Hz. unfold c_int. destruct (Z.leb_spec (- 2 ^ 31) z), (Z.ltb_spec z (2 ^ 31)); simpl; done || lia.
Qed.

Lemma pow2_pred (k : Z) : 0 < k -> 2 ^ k = 2 ^ (k - 1) * 2.
Proof.
  intros. replace k with (Z.succ (k - 1)) at 1 by lia. rewrite Z.pow_succ_r by lia. lia.
Qed.

(** Bits of disjoint words add up: the high part is a multiple of the power
    of two that bounds the low part. *)
Lemma lor_disjoint_add (a b n : Z) :
  0 <= n -> 0 <= a < 2 ^ n -> Z.lor a (b * 2 ^ n) = a + b * 2 ^ n.
Proof.
  intros Hn Ha.
  assert (Hland : Z.land a (b * 2 ^ n) = 0).
  { apply Z.bits_inj'. intros i Hi. rewrite Z.land_spec, Z.bits_0.
    destruct (Z.lt_ge_cases i n) as [Hlt | Hge].
    - rewrite Z.mul_pow2_bits_low by lia. apply andb_false_r.
    - destruct (decide (a = 0)) as [-> | Hne]; [by rewrite Z.bits_0|].
      rewrite (Z.bits_above_log2 a i); [done|lia|].
      apply Z.log2_lt_pow2; [lia|].
      eapply Z.lt_le_trans; [apply Ha|]. apply Z.pow_le_mono_r; lia. }
  rewrite <- Z.lxor_lor by done. by rewrite Z.add_nocarry_lxor.
Qed.

Lemma lor_disjoint_add_r (a b n : Z) :
  0 <= n -> 0 <= a < 2 ^ n -> Z.lor (b * 2 ^ n) a = b * 2 ^ n + a.
Proof. intros. rewrite Z.lor_comm, Z.add_comm. by apply lor_disjoint_add. Qed.

Lemma land_ones_mod (a n : Z) : 0 <= n -> Z.land a (2 ^ n - 1) = a mod 2 ^ n.
Proof. intros. rewrite <- Z.land_ones by lia. f_equal. by rewrite Z.ones_equiv, Z.sub_1_r. Qed.

(* ------------------------------------------------------------------ *)
(** ** Byte strings *)

(** A NUL-terminated C string is the list of its bytes before the NUL. *)
Fixpoint bytes_of (s : string) : list Z :=
  match s with
  | EmptyString => []
  | String c s' => Z.of_nat (Ascii.nat_of_ascii c) :: bytes_of s'
  end.

(** [chr s i] is the byte read at offset [i] of a C string, the NUL included. *)
Definition chr (s : list Z) (i : nat) : Z := nth i s 0.

(** Character constants of C: 'x' is [ch "x"], the number itself. *)
Definition char_of (s : string) : Z :=
  match s with
  | String c EmptyString => Z.of_nat (Ascii.nat_of_ascii c)
  | _ => -1
  end.
Arguments char_of _%_string.

Module CharConst.
Notation "'ch' s" := ltac:(let v := eval vm_compute in (char_of s) in exact v)
  (at level 1, s constr at level 0, only parsing) : Z_scope.
End CharConst.

Definition isdigit (c : Z) : bool := (48 <=? c) && (c <=? 57).
Definition isupper (c : Z) : bool := (65 <=? c) && (c <=? 90).
Definition islower (c : Z) : bool := (97 <=? c) && (c <=? 122).
Definition isalnum (c : Z) : bool := isdigit c || isupper c || islower c.
Definition isxdigit (c : Z) : bool :=
  isdigit c || ((65 <=? c) && (c <=? 70)) || ((97 <=? c) && (c <=? 102)).

(** strchr: offset of the first [c] at or after offset [from]; the
    terminating NUL counts as part of the string. *)
Fixpoint find_from (c : Z) (s : list Z) : option nat :=
  match s with
  | [] => if c =? 0 then Some 0%nat else None
  | x :: s' => if x =? c then Some 0%nat else S <$> find_from c s'
  end.

Definition strchr (s : list Z) (from : nat) (c : Z) : option nat :=
  Nat.add from <$> find_from c (drop from s).

Lemma find_from_spec (c : Z) (s : list Z) (k : nat) :
  c <> 0 -> find_from c s = Some k -> (k < length s)%nat /\ s !! k = Some c.
Proof.
  intros Hc. revert k. induction s as [|x s IH]; intros k; simpl.
  - destruct (Z.eqb_spec c 0); [lia|discriminate].
  - destruct (Z.eqb_spec x c) as [-> | Hne].
    + intros [= <-]. split; [lia|done].
    + destruct (find_from c s) as [j|]; simpl; [|discriminate].
      intros [= <-]. destruct (IH j eq_refl). split; [lia|done].
Qed.

(* ------------------------------------------------------------------ *)
(** ** Bounded loops *)

(** [while k body s] runs [body] at most 2^k times: [inl] is the next state,
    [inr] the value the loop leaves with.  [while_spec] turns a C termination
    argument (an invariant and a decreasing measure) into a proof that the
    bound is never the reason the loop stops. *)
Fixpoint while_pow {S R : Type} (k : nat) (body : S -> res (S + R)) (s : S) : res (S + R) :=
  match k with
  | O => body s
  | Datatypes.S k' =>
      r ← while_pow k' body s;
      match r with
      | inl s' => while_pow k' body s'
      | inr v => Ret (inr v)
      end
  end.

Definition while {S R : Type} (k : nat) (body : S -> res (S + R)) (s : S) : res R :=
  r ← while_pow k body s;
  match r with
  | inl _ => NoFuel
  | inr v => Ret v
  end.

Section While.
  Context {S R : Type} (body : S -> res (S + R)).

  (** [J n s]: the invariant holds and at most [n] more rounds continue. *)
  Context (J : Z -> S -> Prop) (Q : R -> Prop).
  Hypothesis body_ok : forall n s, J n s ->
    (exists s' n', body s = Ret (inl s') /\ J n' s' /\ 0 <= n' < n) \/
    (exists v, body s = Ret (inr v) /\ Q v).

Lemma while_pow_rank (k : nat) (n : Z) (s : S) :
  J n s ->
  (exists s' n', while_pow k body s = Ret (inl s') /\ J n' s' /\ 0 <= n' /\
     n' + 2 ^ Z.of_nat k <= n) \/
  (exists v, while_pow k body s = Ret (inr v) /\ Q v).
Proof.
  revert n s. induction k as [|k IH]; intros n s Hs; cbn [while_pow].
  - change (2 ^ Z.of_nat 0) with 1.
    destruct (body_ok n s Hs) as [(s' & n' & E & Hs' & Hm) | (v & E & Hv)]; [left | right].
    + exists s', n'. split_and!; done || lia.
    + eauto.
  - destruct (IH n s Hs) as [(s1 & n1 & E1 & Hs1 & Hm1 & Hk1) | (v & E & Hv)].
    + rewrite E1. cbn [mbind res_bind].
      destruct (IH n1 s1 Hs1) as [(s2 & n2 & E2 & Hs2 & Hm2 & Hk2) | (v & E & Hv)];
        [left | right; eauto].
      exists s2, n2. split_and!; try done.
      rewrite Nat2Z.inj_succ, Z.pow_succ_r by lia. lia.
    + right. exists v. by rewrite E.
Qed.

Lemma while_rank (k : nat) (n : Z) (s : S) :
  J n s -> n < 2 ^ Z.of_nat k -> exists v, while k body s = Ret v /\ Q v.
Proof.
  intros Hs Hm. unfold while.
  destruct (while_pow_rank k n s Hs) as [(s' & n' & E & _ & H0 & Hk) | (v & E & Hv)].
  - exfalso. lia.
  - rewrite E. simpl. eauto.
Qed.
End While.

(** The usual form: an invariant and a measure on the state. *)
Lemma while_spec {S R : Type} (body : S -> res (S + R)) (I : S -> Prop) (Q : R -> Prop)
    (m : S -> Z) (k : nat) (s : S) :
  (forall s, I s ->
    (exists s', body s = Ret (inl s') /\ I s' /\ 0 <= m s' < m s) \/
    (exists v, body s = Ret (inr v) /\ Q v)) ->
  I s -> m s < 2 ^ Z.of_nat k -> exists v, while k body s = Ret v /\ Q v.
Proof.
  intros Hb Hs Hm. apply (while_rank body (fun n s => I s /\ m s = n) Q) with (n := m s); [|done|done].
  intros n s' [Hs' <-]. destruct (Hb s' Hs') as [(s'' & E & Hs'' & Hm'') | Hv]; [left | by right].
  exists s'', (m s''). split_and!; done || lia.
Qed.


(* ------------------------------------------------------------------ *)
(** ** Lists *)

Lemma list_lookup_split {A : Type} (l1 l2 : list A) (x : A) :
  (l1 ++ x :: l2) !! length l1 = Some x.
Proof. by apply list_lookup_middle. Qed.

Lemma list_insert_split {A : Type} (l1 l2 : list A) (x y : A) :
  <[length l1 := y]> (l1 ++ x :: l2) = l1 ++ y :: l2.
Proof. rewrite <- (Nat.add_0_r (length l1)). by rewrite insert_app_r. Qed.

(** Overwriting position [i] with the last element and dropping the last. *)
Lemma swap_remove_perm {A : Type} (l : list A) (i : nat) (e x : A) :
  l !! i = Some e -> l !! (length l - 1)%nat = Some x ->
  l ≡ₚ e :: take (length l - 1) (<[i := x]> l).
Proof.
  intros Hi Hx. destruct l as [|y l _] using rev_ind; [done|].
  rewrite length_app in *. simpl in *. replace (length l + 1 - 1)%nat with (length l) in * by lia.
  rewrite lookup_app_r, Nat.sub_diag in Hx by lia. simplify_eq/=.
  destruct (decide (i = length l)) as [-> | Hne].
  - rewrite lookup_app_r, Nat.sub_diag in Hi by lia. simplify_eq/=.
    rewrite list_insert_split, take_app_length. by rewrite Permutation_app_comm.
  - pose proof (lookup_lt_Some _ _ _ Hi) as Hlt. rewrite length_app in Hlt. simpl in Hlt.
    rewrite lookup_app_l in Hi by lia.
    rewrite insert_app_l by lia. rewrite take_app_le by (rewrite length_insert; lia).
    rewrite take_ge by (rewrite length_insert; lia).
    destruct (list_elem_of_split_length _ _ _ Hi) as (l1 & l2 & -> & ->).
    rewrite list_insert_split. rewrite <- app_assoc. simpl. solve_Permutation.
Qed.
