(* ===== verification/Int128.v ===== *)
(** 128-bit unsigned arithmetic: src/src/libs/zbxalgo/int128.c. *)

From stdpp Require Import base numbers.
From Stdlib Require Import ZArith Lia.
From S2P Require Import Prelude.

Open Scope Z_scope.

(** struct zbx_uint128_t *)
Record uint128 : Type := mk128 { hi : Z; lo : Z }.

Definition val (x : uint128) : Z := hi x * 2 ^ 64 + lo x.
Definition wf128 (x : uint128) : Prop := is_u64 (hi x) /\ is_u64 (lo x).

Definition UINT64_BIT_COUNT : Z := 64.
Definition UINT32_BIT_COUNT : Z := 32.
Definition UINT32_BIT_MASK : Z := 2 ^ 32 - 1.

Definition shr64 (x n : Z) : Z := Z.shiftr x n.
Definition shl64 (x n : Z) : Z := u64 (Z.shiftl x n).

Definition udec128_128 (base value : uint128) : uint128 :=
  let l := lo base in
  let lo' := u64 (lo base - lo value) in
  let hi' := if l <? lo' then u64 (hi base - 1) else hi base in
  mk128 (u64 (hi' - hi value)) lo'.

Definition ushiftr128 (base : uint128) (bits : Z) : uint128 :=
  if 0 =? bits then base
  else if UINT64_BIT_COUNT <=? bits then
    mk128 0 (shr64 (hi base) (bits - UINT64_BIT_COUNT))
  else
    mk128 (shr64 (hi base) bits)
          (Z.lor (shr64 (lo base) bits) (shl64 (hi base) (UINT64_BIT_COUNT - bits))).

Definition ushiftl128 (base : uint128) (bits : Z) : uint128 :=
  if 0 =? bits then base
  else if UINT64_BIT_COUNT <=? bits then
    mk128 (shl64 (lo base) (bits - UINT64_BIT_COUNT)) 0
  else
    mk128 (Z.lor (shl64 (hi base) bits) (shr64 (lo base) (UINT64_BIT_COUNT - bits)))
          (shl64 (lo base) bits).

Definition ucmp128_128 (value1 value2 : uint128) : Z :=
  if negb (hi value1 =? hi value2) then
    (if hi value1 <? hi value2 then -1 else 1)
  else if lo value1 =? lo value2 then 0
  else if lo value1 <? lo value2 then -1 else 1.

Definition zbx_uinc128_64 (base : uint128) (value : Z) : uint128 :=
  let low := lo base in
  let lo' := u64 (lo base + value) in
  mk128 (if lo' <? low then u64 (hi base + 1) else hi base) lo'.

Definition zbx_uinc128_128 (base value : uint128) : uint128 :=
  let low := lo base in
  let lo' := u64 (lo base + lo value) in
  let hi' := if lo' <? low then u64 (hi base + 1) else hi base in
  mk128 (u64 (hi' + hi value)) lo'.

Definition umul64_32_shift (base : uint128) (value factor shift : Z) : uint128 :=
  let buffer := mk128 0 (u64 (Z.land value UINT32_BIT_MASK * factor)) in
  let base1 := zbx_uinc128_128 base (ushiftl128 buffer shift) in
  let buffer2 := mk128 0 (u64 (shr64 value UINT32_BIT_COUNT * factor)) in
  zbx_uinc128_128 base1 (ushiftl128 buffer2 (UINT32_BIT_COUNT + shift)).

Definition zbx_umul64_64 (value factor : Z) : uint128 :=
  let result := mk128 0 0 in
  let result1 := umul64_32_shift result value (Z.land factor UINT32_BIT_MASK) 0 in
  umul64_32_shift result1 value (shr64 factor UINT32_BIT_COUNT) UINT32_BIT_COUNT.

(** The inner loop of zbx_udiv128_64: shift the divisor and the result mask
    right while the reminder is less than the divisor. *)
Fixpoint udiv_align (fuel : nat) (reminder divisor : uint128) (result_mask : Z)
  : res (uint128 * Z) :=
  match fuel with
  | O => NoFuel
  | S fuel' =>
      if ucmp128_128 reminder divisor <? 0 then
        udiv_align fuel' reminder (ushiftr128 divisor 1) (shr64 result_mask 1)
      else Ret (divisor, result_mask)
  end.

(** The outer loop: runs while the high word of the reminder is not zero. *)
Fixpoint udiv_loop (fuel : nat) (reminder divisor : uint128) (result_mask result_lo : Z)
  : res (uint128 * Z) :=
  if hi reminder =? 0 then Ret (reminder, result_lo)
  else
    match fuel with
    | O => NoFuel
    | S fuel' =>
        '(divisor', mask') ← udiv_align 66 reminder divisor result_mask;
        udiv_loop fuel' (udec128_128 reminder divisor') divisor' mask'
                  (Z.lor result_lo mask')
    end.

Definition zbx_udiv128_64 (dividend : uint128) (value : Z) : res uint128 :=
  let result_mask := shl64 1 (UINT64_BIT_COUNT - 1) in
  if value =? 0 then Undef
  else if 0 =? hi dividend then Ret (mk128 0 (lo dividend / value))
  else
    let result_hi := if value <=? hi dividend then hi dividend / value else 0 in
    let reminder_hi :=
      if value <=? hi dividend then u64 (hi dividend - u64 (result_hi * value)) else hi dividend in
    let divisor := ushiftr128 (mk128 value 0) 1 in
    '(reminder, result_lo) ←
       udiv_loop 66 (mk128 reminder_hi (lo dividend)) divisor result_mask 0;
    Ret (mk128 result_hi (Z.lor result_lo (lo reminder / value))).

(* ------------------------------------------------------------------ *)
(** ** Values *)

Lemma shr64_div (x n : Z) : 0 <= n -> shr64 x n = x / 2 ^ n.
Proof. intros. unfold shr64. by rewrite Z.shiftr_div_pow2. Qed.

Lemma shl64_mul (x n : Z) : 0 <= n -> shl64 x n = u64 (x * 2 ^ n).
Proof. intros. unfold shl64. by rewrite Z.shiftl_mul_pow2. Qed.

(** Multiplying by 2^n modulo 2^64 keeps the low 64-n bits, moved up. *)
Lemma u64_mul_pow2 (x n : Z) : 0 <= n <= 64 -> u64 (x * 2 ^ n) = x mod 2 ^ (64 - n) * 2 ^ n.
Proof.
  intros Hn. unfold u64. replace (2 ^ 64) with (2 ^ (64 - n) * 2 ^ n).
  - rewrite Z.mul_mod_distr_r; [done| |]; apply Z.pow_nonzero; lia.
  - rewrite <- Z.pow_add_r by lia. f_equal. lia.
Qed.

Lemma pow_split (n : Z) : 0 <= n <= 64 -> 2 ^ (64 - n) * 2 ^ n = 2 ^ 64.
Proof. intros. rewrite <- Z.pow_add_r by lia. f_equal. lia. Qed.

Lemma wf128_val (x : uint128) : wf128 x -> 0 <= val x < 2 ^ 128.
Proof. unfold wf128, is_u64, val. change (2 ^ 128) with (2 ^ 64 * 2 ^ 64). nia. Qed.

Lemma val_inj (x y : uint128) : wf128 x -> wf128 y -> val x = val y -> x = y.
Proof.
  destruct x, y. unfold wf128, is_u64, val. simpl. intros. f_equal; lia.
Qed.

Lemma uinc128_val (x y : uint128) :
  wf128 x -> wf128 y ->
  val (zbx_uinc128_128 x y) = (val x + val y) mod 2 ^ 128 /\ wf128 (zbx_uinc128_128 x y).
Proof.
  unfold wf128, is_u64, val, zbx_uinc128_128, u64. destruct x as [xh xl], y as [yh yl]. cbn -[Z.pow].
  intros [Hxh Hxl] [Hyh Hyl]. split; [|split; apply Z.mod_pos_bound; lia].
  destruct (Z.ltb_spec ((xl + yl) mod 2 ^ 64) xl); zlia.
Qed.

Lemma udec128_val (x y : uint128) :
  wf128 x -> wf128 y ->
  val (udec128_128 x y) = (val x - val y) mod 2 ^ 128 /\ wf128 (udec128_128 x y).
Proof.
  unfold wf128, is_u64, val, udec128_128, u64. destruct x as [xh xl], y as [yh yl]. cbn -[Z.pow].
  intros [Hxh Hxl] [Hyh Hyl]. split; [|split; apply Z.mod_pos_bound; lia].
  destruct (Z.ltb_spec xl ((xl - yl) mod 2 ^ 64)); zlia.
Qed.

Lemma uinc64_val (x : uint128) (v : Z) :
  wf128 x -> is_u64 v ->
  val (zbx_uinc128_64 x v) = (val x + v) mod 2 ^ 128 /\ wf128 (zbx_uinc128_64 x v).
Proof.
  unfold wf128, is_u64, val, zbx_uinc128_64, u64. destruct x as [xh xl]. cbn -[Z.pow].
  intros [Hxh Hxl] Hv.
  destruct (Z.ltb_spec ((xl + v) mod 2 ^ 64) xl); (split; [|split]); try apply Z.mod_pos_bound; zlia.
Qed.

Lemma ushiftr128_val (x : uint128) (n : Z) :
  wf128 x -> 0 <= n < 128 ->
  val (ushiftr128 x n) = val x / 2 ^ n /\ wf128 (ushiftr128 x n).
Proof.
  destruct x as [h l]. unfold wf128, is_u64, val, ushiftr128, UINT64_BIT_COUNT. cbn [hi lo].
  intros [Hh Hl] Hn. destruct (Z.eqb_spec 0 n) as [<- | Hn0].
  { cbn -[Z.pow]. change (2 ^ 0) with 1. rewrite Z.div_1_r. lia. }
  destruct (Z.leb_spec 64 n); cbn -[Z.pow].
  - rewrite shr64_div by lia.
    replace (2 ^ n) with (2 ^ 64 * 2 ^ (n - 64)) by (rewrite <- Z.pow_add_r by lia; f_equal; lia).
    rewrite <- Z.div_div by (try apply Z.pow_nonzero; try apply Z.pow_pos_nonneg; lia).
    replace ((h * 2 ^ 64 + l) / 2 ^ 64) with h by zlia.
    pose proof (Z.pow_pos_nonneg 2 (n - 64)).
    assert (0 <= h / 2 ^ (n - 64) <= h) by (split; [apply Z.div_pos | apply Z.div_le_upper_bound]; nia).
    split; lia.
  - rewrite !shr64_div, shl64_mul by lia. rewrite u64_mul_pow2 by lia.
    replace (64 - (64 - n)) with n by lia.
    pose proof (pow_split n ltac:(lia)) as Hs.
    pose proof (Z.pow_pos_nonneg 2 n ltac:(lia) ltac:(lia)) as Hp.
    pose proof (Z.pow_pos_nonneg 2 (64 - n) ltac:(lia) ltac:(lia)) as Hq.
    set (p := 2 ^ n) in *. set (q := 2 ^ (64 - n)) in *.
    assert (0 <= l / p < q) by (split; [apply Z.div_pos | apply Z.div_lt_upper_bound]; nia).
    pose proof (Z.mod_pos_bound h p Hp). pose proof (Z.div_mod h p ltac:(lia)).
    pose proof (lor_disjoint_add (l / p) (h mod p) (64 - n) ltac:(lia)) as Hlor. fold q in Hlor.
    rewrite Hlor by lia.
    assert (Hval : (h * 2 ^ 64 + l) / p = h / p * 2 ^ 64 + h mod p * q + l / p).
    { symmetry. apply Z.div_unique_pos with (r := l mod p).
      - apply Z.mod_pos_bound; lia.
      - rewrite <- Hs. pose proof (Z.div_mod l p ltac:(lia)). nia. }
    rewrite Hval. split; [lia|]. split; [|nia].
    split; [apply Z.div_pos; lia|]. apply Z.div_lt_upper_bound; nia.
Qed.

Lemma ushiftl128_val (x : uint128) (n : Z) :
  wf128 x -> 0 <= n < 128 ->
  val (ushiftl128 x n) = (val x * 2 ^ n) mod 2 ^ 128 /\ wf128 (ushiftl128 x n).
Proof.
  destruct x as [h l]. unfold wf128, is_u64, val, ushiftl128, UINT64_BIT_COUNT. cbn [hi lo].
  intros [Hh Hl] Hn. destruct (Z.eqb_spec 0 n) as [<- | Hn0].
  { cbn -[Z.pow]. change (2 ^ 0) with 1. rewrite Z.mul_1_r, Z.mod_small; lia. }
  destruct (Z.leb_spec 64 n); cbn -[Z.pow].
  - rewrite shl64_mul by lia. split; [|split; [apply u64_range|lia]].
    replace (2 ^ n) with (2 ^ 64 * 2 ^ (n - 64)) by (rewrite <- Z.pow_add_r by lia; f_equal; lia).
    unfold u64. change (2 ^ 128) with (2 ^ 64 * 2 ^ 64).
    rewrite Z.add_0_r. rewrite <- Z.mul_mod_distr_r by lia.
    replace ((h * 2 ^ 64 + l) * (2 ^ 64 * 2 ^ (n - 64)))
      with (l * 2 ^ (n - 64) * 2 ^ 64 + h * 2 ^ (n - 64) * (2 ^ 64 * 2 ^ 64)) by ring.
    by rewrite Z.mod_add by lia.
  - rewrite !shr64_div, !shl64_mul by lia. rewrite !u64_mul_pow2 by lia.
    pose proof (pow_split n ltac:(lia)) as Hs.
    pose proof (Z.pow_pos_nonneg 2 n ltac:(lia) ltac:(lia)) as Hp.
    pose proof (Z.pow_pos_nonneg 2 (64 - n) ltac:(lia) ltac:(lia)) as Hq.
    set (p := 2 ^ n) in *. set (q := 2 ^ (64 - n)) in *.
    assert (0 <= l / q < p) by (split; [apply Z.div_pos | apply Z.div_lt_upper_bound]; nia).
    pose proof (Z.mod_pos_bound h q Hq). pose proof (Z.div_mod h q ltac:(lia)).
    pose proof (Z.mod_pos_bound l q Hq). pose proof (Z.div_mod l q ltac:(lia)).
    pose proof (lor_disjoint_add (l / q) (h mod q) n ltac:(lia)) as Hlor. fold p in Hlor.
    rewrite Z.lor_comm, Hlor by lia.
    split; [|split; nia].
    replace ((h * 2 ^ 64 + l) * p)
      with ((l / q + h mod q * p) * 2 ^ 64 + l mod q * p + h / q * 2 ^ 128)
      by (change (2 ^ 128) with (2 ^ 64 * 2 ^ 64); rewrite <- Hs; nia).
    rewrite Z.mod_add by lia. symmetry. apply Z.mod_small.
    change (2 ^ 128) with (2 ^ 64 * 2 ^ 64). nia.
Qed.

Lemma ucmp128_lt (x y : uint128) :
  wf128 x -> wf128 y -> (ucmp128_128 x y <? 0) = (val x <? val y).
Proof.
  destruct x as [xh xl], y as [yh yl]. unfold wf128, is_u64, val, ucmp128_128. cbn -[Z.pow].
  intros [] []. destruct (Z.eqb_spec xh yh); simpl;
    repeat (case_match; simpl in *); lia.
Qed.

(* ------------------------------------------------------------------ *)
(** ** Multiplication *)

Lemma wf_mk_lo (v : Z) : wf128 (mk128 0 (u64 v)).
Proof. split; cbn [hi lo]; [unfold is_u64; lia | apply u64_range]. Qed.

(** Adding a 64-bit product shifted left, as both halves of umul64_32_shift do. *)
Lemma add_shifted_val (base : uint128) (v n : Z) :
  wf128 base -> 0 <= v < 2 ^ 64 -> 0 <= n < 128 ->
  let r := zbx_uinc128_128 base (ushiftl128 (mk128 0 (u64 v)) n) in
  val r = (val base + v * 2 ^ n) mod 2 ^ 128 /\ wf128 r.
Proof.
  intros Hb Hv Hn r. destruct (ushiftl128_val (mk128 0 (u64 v)) n (wf_mk_lo v) Hn) as [Hs Hws].
  destruct (uinc128_val base _ Hb Hws) as [Ha Hwa]. split; [|exact Hwa].
  subst r. rewrite Ha, Hs. unfold val at 2. cbn [hi lo]. rewrite u64_small by done.
  rewrite Zplus_mod_idemp_r. f_equal.
Qed.

Lemma umul64_32_shift_val (base : uint128) (value factor shift : Z) :
  wf128 base -> is_u64 value -> 0 <= factor < 2 ^ 32 -> 0 <= shift < 64 ->
  val (umul64_32_shift base value factor shift)
    = (val base + value * factor * 2 ^ shift) mod 2 ^ 128 /\
  wf128 (umul64_32_shift base value factor shift).
Proof.
  unfold is_u64. intros Hb Hv Hf Hs. unfold umul64_32_shift, UINT32_BIT_MASK, UINT32_BIT_COUNT.
  rewrite land_ones_mod, shr64_div by lia.
  pose proof (Z.mod_pos_bound value (2 ^ 32)). pose proof (Z.div_mod value (2 ^ 32)).
  assert (0 <= value / 2 ^ 32 < 2 ^ 32) by zlia.
  destruct (add_shifted_val base (value mod 2 ^ 32 * factor) shift) as [E1 W1];
    [done | nia | lia |].
  edestruct (add_shifted_val _ (value / 2 ^ 32 * factor) (32 + shift) W1) as [E2 W2];
    [nia | lia |].
  split; [|done]. rewrite E2, E1, Zplus_mod_idemp_l. f_equal.
  rewrite Z.pow_add_r by lia. nia.
Qed.

(** zbx_umul64_64 computes the exact 128-bit product of two 64-bit words:
    no carry is lost in any of its four partial products. *)
Theorem zbx_umul64_64_exact (value factor : Z) :
  is_u64 value -> is_u64 factor ->
  val (zbx_umul64_64 value factor) = value * factor /\ wf128 (zbx_umul64_64 value factor).
Proof.
  intros Hv Hf. unfold zbx_umul64_64. unfold is_u64 in *.
  unfold UINT32_BIT_MASK, UINT32_BIT_COUNT. rewrite land_ones_mod, shr64_div by lia.
  pose proof (Z.mod_pos_bound factor (2 ^ 32)). pose proof (Z.div_mod factor (2 ^ 32)).
  assert (0 <= factor / 2 ^ 32 < 2 ^ 32) by zlia.
  destruct (umul64_32_shift_val (mk128 0 0) value (factor mod 2 ^ 32) 0) as [E1 W1];
    [by repeat split | done | lia | lia |].
  edestruct (umul64_32_shift_val _ value (factor / 2 ^ 32) 32 W1) as [E2 W2];
    [done | lia | lia |].
  split; [|done]. rewrite E2, E1, Zplus_mod_idemp_l.
  change (val (mk128 0 0)) with 0. change (2 ^ 0) with 1. rewrite Z.mod_small; [nia|].
  change (2 ^ 128) with (2 ^ 64 * 2 ^ 64). nia.
Qed.

Lemma zbx_umul64_64_exact_witness :
  val (zbx_umul64_64 (2 ^ 64 - 1) (2 ^ 64 - 1)) = (2 ^ 64 - 1) * (2 ^ 64 - 1).
Proof. apply zbx_umul64_64_exact; unfold is_u64; lia. Defined.

(* ------------------------------------------------------------------ *)
(** ** Division *)

(** The inner loop: the divisor is value * 2^k with mask 2^k; it stops at the
    largest k' <= k whose multiple fits in the reminder. *)
Lemma udiv_align_spec (fuel : nat) (R d : uint128) (value k : Z) :
  wf128 R -> wf128 d -> 0 < value < 2 ^ 64 -> 0 <= k < 64 -> val d = value * 2 ^ k ->
  2 ^ 64 <= val R -> val R < value * 2 ^ (k + 1) -> (Z.to_nat k < fuel)%nat ->
  exists d' k', udiv_align fuel R d (2 ^ k) = Ret (d', 2 ^ k') /\
    wf128 d' /\ val d' = value * 2 ^ k' /\ 0 <= k' <= k /\
    value * 2 ^ k' <= val R < value * 2 ^ (k' + 1).
Proof.
  intros HR. revert d k. induction fuel as [|fuel IH]; intros d k Hd Hv Hk Hdv Hlo Hhi Hf; [lia|].
  cbn [udiv_align]. rewrite ucmp128_lt by done.
  destruct (Z.ltb_spec (val R) (val d)) as [Hlt | Hge].
  - assert (k <> 0) by (intros ->; change (2 ^ 0) with 1 in *; lia).
    destruct (ushiftr128_val d 1 Hd) as [Hs Hws]; [lia|].
    assert (Hp : 2 ^ k = 2 ^ (k - 1) * 2) by (apply pow2_pred; lia).
    assert (Hsk : shr64 (2 ^ k) 1 = 2 ^ (k - 1)).
    { rewrite shr64_div, Hp by lia. apply Z.div_mul. lia. }
    rewrite Hsk. destruct (IH (ushiftr128 d 1) (k - 1)) as (d' & k' & E & W & V & K & B);
      try done; try lia.
    + rewrite Hs, Hdv, Hp, Z.mul_assoc. by rewrite Z.div_mul.
    + replace (k - 1 + 1) with k by lia. lia.
    + exists d', k'. split_and!; try done; lia.
  - exists d, k. split_and!; try done; lia.
Qed.

(** The outer loop: [m] bounds the bits still to be produced. *)
Lemma udiv_loop_spec (fuel : nat) (R d : uint128) (value m k q : Z) :
  wf128 R -> wf128 d -> 0 < value < 2 ^ 64 ->
  0 <= m <= 64 -> 0 <= k < 64 -> (k = m \/ k = m - 1) ->
  val d = value * 2 ^ k -> val R < value * 2 ^ m -> (Z.to_nat m < fuel)%nat ->
  exists R' q', udiv_loop fuel R d (2 ^ k) (q * 2 ^ m) = Ret (R', q') /\
    wf128 R' /\ hi R' = 0 /\
    exists m' p, 0 <= m' <= m /\ q' = p * 2 ^ m' /\ val R' < value * 2 ^ m' /\
      p * 2 ^ m' * value + val R' = q * 2 ^ m * value + val R.
Proof.
  revert R d m k q. induction fuel as [|fuel IH]; intros R d m k q HR Hd Hv Hm Hk Hmk Hdv Hlt Hf; [lia|].
  cbn [udiv_loop]. destruct (Z.eqb_spec (hi R) 0) as [H0 | H0].
  { exists R, (q * 2 ^ m). split_and!; try done. exists m, q. split_and!; done || lia. }
  assert (2 ^ 64 <= val R) by (destruct HR as [[] []]; unfold val; nia).
  destruct (udiv_align_spec 66 R d value k) as (d' & k' & E & W & V & K & B); try done; try lia.
  { assert (2 ^ m <= 2 ^ (k + 1)) by (apply Z.pow_le_mono_r; lia). nia. }
  rewrite E. cbn [mbind res_bind].
  assert (Hk'm : k' < m) by (assert (2 ^ k' < 2 ^ m) by nia; by apply (Z.pow_lt_mono_r_iff 2); lia).
  destruct (udec128_val R d' HR W) as [Hs Hws].
  assert (Hval : val (udec128_128 R d') = val R - value * 2 ^ k').
  { rewrite Hs, V. apply Z.mod_small. pose proof (wf128_val R HR). nia. }
  assert (Hm' : 2 ^ m = 2 ^ (m - (k' + 1)) * 2 * 2 ^ k').
  { rewrite (Z.mul_comm _ 2), <- Z.pow_succ_r, <- Z.pow_add_r by lia. f_equal. lia. }
  assert (Hlor : Z.lor (q * 2 ^ m) (2 ^ k') = (q * 2 ^ (m - (k' + 1)) * 2 + 1) * 2 ^ k').
  { replace (q * 2 ^ m) with (q * 2 ^ (m - (k' + 1)) * 2 ^ (k' + 1))
      by (rewrite Hm', Z.pow_add_r by lia; change (2 ^ 1) with 2; ring).
    rewrite lor_disjoint_add_r by (try lia; rewrite Z.pow_add_r by lia; lia).
    rewrite Z.pow_add_r by lia. change (2 ^ 1) with 2. ring. }
  rewrite Hlor.
  destruct (IH (udec128_128 R d') d' k' k' (q * 2 ^ (m - (k' + 1)) * 2 + 1))
    as (R' & q' & E' & W' & H0' & m' & p & Hm2 & Hq' & HR' & Hsum); try done; try lia.
  { rewrite Hval. rewrite Z.pow_add_r in B by lia. change (2 ^ 1) with 2 in B. nia. }
  exists R', q'. split_and!; try done. exists m', p. split_and!; try done; try lia.
Qed.

(** C40: zbx_udiv128_64 terminates for every non-zero divisor and returns the
    exact 128-bit quotient of the dividend. *)
Theorem zbx_udiv128_64_correct (dividend : uint128) (value : Z) :
  wf128 dividend -> 0 < value < 2 ^ 64 ->
  exists result, zbx_udiv128_64 dividend value = Ret result /\
    val result = val dividend / value /\ wf128 result.
Proof.
  intros Hd Hv. unfold zbx_udiv128_64. pose proof Hd as [[Hh0 Hh] [Hl0 Hl]].
  destruct (Z.eqb_spec value 0); [lia|]. destruct (Z.eqb_spec 0 (hi dividend)) as [H0 | H0].
  { eexists. split; [done|]. unfold wf128, is_u64, val. cbn -[Z.pow]. rewrite <- H0.
    assert (lo dividend / value <= lo dividend) by (apply Z.div_le_upper_bound; nia).
    pose proof (Z.div_pos (lo dividend) value). split; [done|lia]. }
  set (qh := if value <=? hi dividend then hi dividend / value else 0).
  set (rh := if value <=? hi dividend then u64 (hi dividend - u64 (qh * value)) else hi dividend).
  assert (Hdiv : hi dividend = qh * value + rh /\ 0 <= rh < value /\ 0 <= qh < 2 ^ 64).
  { pose proof (Z.div_mod (hi dividend) value ltac:(lia)) as Hdm. rewrite (Z.mul_comm value) in Hdm.
    pose proof (Z.mod_pos_bound (hi dividend) value ltac:(lia)).
    assert (0 <= hi dividend / value <= hi dividend)
      by (split; [apply Z.div_pos | apply Z.div_le_upper_bound]; nia).
    subst rh qh. destruct (Z.leb_spec value (hi dividend)) as [Hle | Hlt]; [|clear - Hlt Hh0; lia].
    rewrite (u64_small (_ * _)), u64_small by lia. lia. }
  destruct Hdiv as (Hdiv & Hrh & Hqh).
  destruct (ushiftr128_val (mk128 value 0) 1) as [Hs Hws]; [unfold wf128, is_u64; cbn [hi lo]; lia | lia |].
  destruct (udiv_loop_spec 66 (mk128 rh (lo dividend)) (ushiftr128 (mk128 value 0) 1) value 64 63 0)
    as (R & q & E & W & HR0 & m & p & Hm & Hq & HR & Hsum); try done; try lia.
  { unfold wf128, is_u64; cbn [hi lo]; lia. }
  { rewrite Hs. unfold val. cbn [hi lo]. replace (value * 2 ^ 64 + 0) with (value * 2 ^ 63 * 2) by lia.
    change (2 ^ 1) with 2. by rewrite Z.div_mul. }
  { unfold val. cbn [hi lo]. nia. }
  change (shl64 1 (UINT64_BIT_COUNT - 1)) with (2 ^ 63). rewrite Z.mul_0_l in E.
  rewrite E. cbn [mbind res_bind]. eexists. split; [done|].
  assert (HRlo : val R = lo R) by (unfold val; rewrite HR0; lia).
  rewrite HRlo in *. destruct W as [_ [HloR _]].
  assert (Hql : 0 <= lo R / value < 2 ^ m)
    by (split; [apply Z.div_pos | apply Z.div_lt_upper_bound]; nia).
  rewrite Hq. rewrite lor_disjoint_add_r by lia.
  unfold val in Hsum. cbn [hi lo] in Hsum.
  pose proof (Z.div_mod (lo R) value ltac:(lia)). pose proof (Z.mod_pos_bound (lo R) value ltac:(lia)).
  assert (Hlow : (p * 2 ^ m + lo R / value) * value + lo R mod value = rh * 2 ^ 64 + lo dividend) by nia.
  assert (0 <= p) by (assert (0 <= 2 ^ m) by lia; nia).
  unfold wf128, is_u64, val. cbn [hi lo]. split; [|split; [lia|nia]].
  apply Z.div_unique_pos with (r := lo R mod value); [lia|]. nia.
Qed.

Lemma zbx_udiv128_64_correct_witness :
  exists result, zbx_udiv128_64 (mk128 5 7) 3 = Ret result /\
    val result = val (mk128 5 7) / 3 /\ wf128 result.
Proof. apply zbx_udiv128_64_correct; unfold wf128, is_u64; cbn [hi lo]; lia. Defined.

Example udiv_example : zbx_udiv128_64 (mk128 5 7) 3 = Ret (mk128 1 12297829382473034413).
Proof. reflexivity. Qed.
