(* ===== verification/Algo.v ===== *)
(** Numeric helpers of the container library: src/src/libs/zbxalgo/algodefs.c
    (primality, next prime, integer square root, hash functions). *)

From stdpp Require Import base list numbers.
From Stdlib Require Import ZArith Lia Znumtheory.
From S2P Require Import Prelude.

Open Scope Z_scope.

Definition INT_MAX : Z := 2 ^ 31 - 1.

(** The trial division loop; i * i is computed in int. *)
Definition is_prime_body (n i : Z) : res (Z + bool) :=
  if INT_MAX <? i * i then Undef
  else if i * i <=? n then
    if Z.rem n i =? 0 then Ret (inr false) else Ret (inl (i + 2))
  else Ret (inr true).

Definition is_prime (n : Z) : res bool :=
  if n <=? 1 then Ret false
  else if n =? 2 then Ret true
  else if Z.rem n 2 =? 0 then Ret false
  else while 31 (is_prime_body n) 3.

Definition next_prime_body (n : Z) : res (Z + Z) :=
  p ← is_prime n;
  Ret (if p : bool then inr n else inl (n + 1)).

Definition next_prime (n : Z) : res Z := while 32 next_prime_body n.

(** One round of zbx_isqrt32: (remainder, result, value). *)
Definition isqrt32_step (s : Z * Z * Z) : Z * Z * Z :=
  let '(remainder, result, value) := s in
  let result := u32 (Z.shiftl result 1) in
  let remainder := u32 (u32 (Z.shiftl remainder 2) + Z.shiftr value 30) in
  let value := u32 (Z.shiftl value 2) in
  let p := Z.lor (u32 (Z.shiftl result 1)) 1 in
  if p <=? remainder then (u32 (remainder - p), Z.lor result 1, value)
  else (remainder, result, value).

Definition zbx_isqrt32 (value : Z) : Z :=
  let '(_, result, _) := Nat.iter 16 isqrt32_step (0, 0, value) in result.

(** Modified FNV hash over bytes, in 32-bit arithmetic. *)
Definition modfnv_byte (hash b : Z) : Z := u32 (Z.lxor hash b * 16777619).

Definition zbx_hash_modfnv (data : list Z) (seed : Z) : Z :=
  let hash := fold_left modfnv_byte data (Z.lxor 2166136261 seed) in
  let hash := u32 (hash + u32 (Z.shiftl hash 13)) in
  let hash := Z.lxor hash (Z.shiftr hash 7) in
  let hash := u32 (hash + u32 (Z.shiftl hash 3)) in
  let hash := Z.lxor hash (Z.shiftr hash 17) in
  u32 (hash + u32 (Z.shiftl hash 5)).

(** splitmix64 finalizer folded to 32 bits. *)
Definition zbx_hash_splittable64 (value : Z) : Z :=
  let value := Z.lxor value (Z.shiftr value 30) in
  let value := u64 (value * 0xbf58476d1ce4e5b9) in
  let value := Z.lxor value (Z.shiftr value 27) in
  let value := u64 (value * 0x94d049bb133111eb) in
  let value := Z.lxor value (Z.shiftr value 31) in
  u32 (Z.lxor (u32 value) (Z.shiftr value 32)).

(* ------------------------------------------------------------------ *)
(** ** Primality *)

(** No divisor of n below i was found so far. *)
Definition no_odd_divisor (n i : Z) : Prop :=
  forall d, 1 < d < i -> ~ (d | n).

Lemma not_prime_divides (n d : Z) : 1 < d < n -> (d | n) -> ~ prime n.
Proof. intros Hd Hn Hp. destruct (prime_divisors n Hp d Hn) as [|[|[|]]]; lia. Qed.

Lemma sqrt_bound_prime (n i : Z) :
  1 < n -> no_odd_divisor n i -> 0 <= i -> n < i * i -> prime n.
Proof.
  intros Hn Hno Hi Hlt. destruct (prime_dec n) as [|Hnp]; [done|exfalso].
  destruct (not_prime_divide n Hn Hnp) as (d & Hd & [e He]).
  assert (1 < e < n) by nia.
  destruct (Z.lt_ge_cases d i) as [Hdi | Hdi].
  - apply (Hno d); [lia|]. by exists e.
  - apply (Hno e); [nia|]. exists d. lia.
Qed.

Lemma is_prime_loop (n i : Z) :
  3 <= n < 46339 * 46339 -> Z.odd n = true -> 3 <= i <= 46339 -> Z.odd i = true ->
  no_odd_divisor n i ->
  exists b, while 31 (is_prime_body n) i = Ret b /\ (b = true <-> prime n).
Proof.
  intros Hn Hnodd Hi Hiodd Hno.
  apply (while_spec (is_prime_body n)
    (fun i => 3 <= i <= 46339 /\ Z.odd i = true /\ no_odd_divisor n i)
    (fun b => b = true <-> prime n) (fun i => 46339 - i)); [|done|lia].
  clear i Hi Hiodd Hno. intros i (Hi & Hiodd & Hno). unfold is_prime_body, INT_MAX.
  destruct (Z.ltb_spec (2 ^ 31 - 1) (i * i)); [nia|].
  destruct (Z.leb_spec (i * i) n) as [Hle | Hgt].
  - rewrite Z.rem_mod_nonneg by lia.
    destruct (Z.eqb_spec (n mod i) 0) as [Hz | Hnz].
    + right. eexists. split; [done|]. split; [discriminate|]. intros Hp. exfalso.
      apply (not_prime_divides n i); [nia| |done]. by apply Z.mod_divide; [lia|].
    + left. exists (i + 2). assert (Hi2 : i + 2 <= 46339).
      { assert (i < 46339) by nia. apply Zodd_bool_iff, Zodd_ex in Hiodd. destruct Hiodd. lia. }
      split; [done|]. split; [|lia]. split_and!; try lia.
      * by rewrite Z.odd_add, Hiodd.
      * intros d Hd Hdn. destruct (decide (d < i)); [by apply (Hno d); [lia|]|].
        destruct (decide (d = i)) as [-> | ]; [by apply Hnz, Z.mod_divide; [lia|]|].
        assert (d = i + 1) as -> by lia. destruct Hdn as [e He].
        assert (Z.odd (e * (i + 1)) = true) as Ho by congruence.
        rewrite Z.odd_mul, Z.odd_add, Hiodd in Ho. simpl in Ho. by rewrite andb_false_r in Ho.
  - right. eexists. split; [done|]. split; [intros _|done].
    apply (sqrt_bound_prime n i); done || lia.
Qed.

(** is_prime decides primality for every int below 46339^2 (the range
    where its test i * i <= n does not overflow), and terminates. *)
Lemma is_prime_correct (n : Z) :
  0 <= n < 46339 * 46339 -> exists b, is_prime n = Ret b /\ (b = true <-> prime n).
Proof.
  intros Hn. unfold is_prime.
  destruct (Z.leb_spec n 1) as [H1 | H1].
  { eexists. split; [done|]. split; [done|]. intros [Hp _]. lia. }
  destruct (Z.eqb_spec n 2) as [-> | H2].
  { eexists. split; [done|]. split; [intros _; apply prime_2 | done]. }
  rewrite Z.rem_mod_nonneg by lia. destruct (Z.eqb_spec (n mod 2) 0) as [H0 | H0].
  { eexists. split; [done|]. split; [done|]. intros Hp. exfalso.
    apply (not_prime_divides n 2); [lia| |done]. by apply Z.mod_divide. }
  assert (Hodd : Z.odd n = true) by (rewrite Zmod_odd in H0; by destruct (Z.odd n)).
  apply is_prime_loop; try done; try lia.
  intros d Hd [e He]. assert (d = 2) as -> by lia.
  rewrite He, Z.odd_mul in Hodd. simpl in Hodd. by rewrite andb_false_r in Hodd.
Qed.

(** The overflow of i * i is reached for the largest prime of type int. *)
Example is_prime_overflow : is_prime 2147483647 = Undef.
Proof. vm_compute. reflexivity. Qed.

(** The largest prime below 46339^2. *)
Definition prime_bound : Z := 2147302891.

Lemma prime_bound_prime : prime prime_bound.
Proof.
  destruct (is_prime_correct prime_bound) as (b & E & Hb); [unfold prime_bound; lia|].
  apply Hb. assert (H : is_prime prime_bound = Ret true) by (vm_compute; reflexivity).
  rewrite H in E. by apply Ret_inj in E.
Qed.

Lemma next_prime_spec (n : Z) :
  0 <= n <= prime_bound ->
  exists r, next_prime n = Ret r /\ prime r /\ n <= r <= prime_bound /\
    forall p, prime p -> n <= p -> r <= p.
Proof.
  intros Hn. unfold next_prime.
  apply (while_spec next_prime_body
    (fun m => n <= m <= prime_bound /\ forall p, prime p -> n <= p -> m <= p)
    (fun r => prime r /\ n <= r <= prime_bound /\ forall p, prime p -> n <= p -> r <= p)
    (fun m => prime_bound - m)).
  - intros m [Hm Hleast]. unfold next_prime_body, prime_bound in *.
    destruct (is_prime_correct m) as (b & -> & Hb); [lia|]. cbn [mbind res_bind].
    destruct b.
    + right. eexists. split; [done|]. split; [by apply Hb|]. done.
    + left. eexists. split; [done|].
      assert (Hmp : ~ prime m) by (intros Hp; apply Hb in Hp; discriminate).
      assert (m <> 2147302891) by (intros ->; apply Hmp, prime_bound_prime).
      split; [|lia]. split; [lia|]. intros p Hp Hnp. specialize (Hleast p Hp Hnp).
      assert (m <> p) by (intros ->; done). lia.
  - split; [lia|done].
  - unfold prime_bound. lia.
Qed.

(** next_prime terminates and returns the least prime not below its
    argument, for every size the containers can ask for. *)
Theorem next_prime_least (n : Z) :
  0 <= n <= prime_bound ->
  exists r, next_prime n = Ret r /\ prime r /\ n <= r <= prime_bound /\
    forall p, prime p -> n <= p -> r <= p.
Proof.
  intros Hn. destruct (next_prime_spec n Hn) as (r & E & Hp & Hr & Hleast). by exists r.
Qed.

Lemma next_prime_least_witness :
  exists r, next_prime 15 = Ret r /\ prime r /\ 15 <= r <= prime_bound /\
    forall p, prime p -> 15 <= p -> r <= p.
Proof. apply next_prime_least. unfold prime_bound. lia. Defined.

Example next_prime_default_slots : next_prime 10 = Ret 11.
Proof. reflexivity. Qed.

(** What the containers rely on. *)
Lemma next_prime_pos (n : Z) :
  0 <= n <= prime_bound -> exists r, next_prime n = Ret r /\ n <= r /\ 2 <= r <= prime_bound.
Proof.
  intros Hn. destruct (next_prime_spec n Hn) as (r & E & Hr & Hle & _).
  exists r. split; [done|]. destruct Hr. lia.
Qed.

(* ------------------------------------------------------------------ *)
(** ** Integer square root *)

(** After i rounds the state holds the root of the top 2*i bits of [v],
    what is left of them, and the bits still to be brought down. *)
Definition isqrt_inv (v i : Z) (s : Z * Z * Z) : Prop :=
  let '(remainder, result, value) := s in
  0 <= result < 2 ^ i /\ 0 <= remainder <= 2 * result /\
  v / 2 ^ (32 - 2 * i) = result * result + remainder /\
  value = (v * 2 ^ (2 * i)) mod 2 ^ 32.

(** Two more bits of v come from the top of the shifted value. *)
Lemma isqrt_bring_down (v i : Z) :
  0 <= v < 2 ^ 32 -> 0 <= i < 16 ->
  v / 2 ^ (32 - 2 * (i + 1)) =
    4 * (v / 2 ^ (32 - 2 * i)) + ((v * 2 ^ (2 * i)) mod 2 ^ 32) / 2 ^ 30.
Proof.
  intros Hv Hi. replace (32 - 2 * (i + 1)) with (30 - 2 * i) by lia.
  pose proof (Z.pow_pos_nonneg 2 (30 - 2 * i) ltac:(lia) ltac:(lia)) as Hq.
  pose proof (Z.pow_pos_nonneg 2 (2 * i) ltac:(lia) ltac:(lia)) as Hp.
  assert (E32 : 2 ^ 32 = 4 * 2 ^ (30 - 2 * i) * 2 ^ (2 * i)).
  { change 4 with (2 ^ 2). rewrite <- !Z.pow_add_r by lia. f_equal. lia. }
  assert (E30 : 2 ^ 30 = 2 ^ (30 - 2 * i) * 2 ^ (2 * i)).
  { rewrite <- Z.pow_add_r by lia. f_equal. lia. }
  assert (Ei : 2 ^ (32 - 2 * i) = 4 * 2 ^ (30 - 2 * i)).
  { change 4 with (2 ^ 2). rewrite <- Z.pow_add_r by lia. f_equal. lia. }
  rewrite E32, E30, Ei. set (q := 2 ^ (30 - 2 * i)) in *. set (p := 2 ^ (2 * i)) in *.
  rewrite Z.mul_mod_distr_r, Z.div_mul_cancel_r by lia.
  pose proof (Z.div_mod v (4 * q) ltac:(lia)). pose proof (Z.mod_pos_bound v (4 * q) ltac:(lia)).
  symmetry. apply Z.div_unique_pos with (r := (v mod (4 * q)) mod q).
  - apply Z.mod_pos_bound; lia.
  - pose proof (Z.div_mod (v mod (4 * q)) q ltac:(lia)). lia.
Qed.

Lemma isqrt32_step_inv (v i : Z) (s : Z * Z * Z) :
  0 <= v < 2 ^ 32 -> 0 <= i < 16 -> isqrt_inv v i s -> isqrt_inv v (i + 1) (isqrt32_step s).
Proof.
  intros Hv Hi. destruct s as [[rem r] value]. unfold isqrt_inv, isqrt32_step.
  intros (Hr & Hrem & HV & Hval).
  rewrite !Z.shiftl_mul_pow2, Z.shiftr_div_pow2 by lia.
  change (2 ^ 1) with 2. change (2 ^ 2) with 4.
  assert (2 ^ i <= 2 ^ 15) by (apply Z.pow_le_mono_r; lia).
  assert (Ei : 2 ^ (i + 1) = 2 * 2 ^ i) by (rewrite Z.pow_add_r by lia; lia).
  assert (Hvb : 0 <= value < 2 ^ 32) by (rewrite Hval; apply Z.mod_pos_bound; lia).
  assert (Htop : 0 <= value / 2 ^ 30 < 4) by zlia.
  rewrite (u32_small (r * 2)), (u32_small (rem * 4)) by lia.
  rewrite (u32_small (r * 2 * 2)), (u32_small (rem * 4 + _)) by lia.
  assert (Hlor : Z.lor (r * 2 * 2) 1 = r * 2 * 2 + 1) by (apply (lor_disjoint_add_r 1 (r * 2) 1); lia).
  assert (Hlor1 : Z.lor (r * 2) 1 = r * 2 + 1) by (apply (lor_disjoint_add_r 1 r 1); lia).
  rewrite Hlor, Hlor1.
  assert (Hnext : u32 (value * 4) = (v * 2 ^ (2 * (i + 1))) mod 2 ^ 32).
  { unfold u32. rewrite Hval, Zmult_mod_idemp_l. f_equal.
    replace (2 * (i + 1)) with (2 * i + 2) by lia. rewrite (Z.pow_add_r 2 (2 * i) 2) by lia.
    change (2 ^ 2) with 4. lia. }
  assert (HVn : v / 2 ^ (32 - 2 * (i + 1)) = 4 * (r * r + rem) + value / 2 ^ 30).
  { rewrite isqrt_bring_down by lia. by rewrite HV, <- Hval. }
  rewrite HVn, Hnext.
  destruct (Z.leb_spec (r * 2 * 2 + 1) (rem * 4 + value / 2 ^ 30)) as [Hle | Hgt];
    [rewrite u32_small by lia|]; split_and!; try done; try lia.
Qed.

(** zbx_isqrt32 returns the integer part of the square root of every
    32-bit value, its 32-bit shifts never losing a bit. *)
Theorem zbx_isqrt32_correct (v : Z) : 0 <= v < 2 ^ 32 -> zbx_isqrt32 v = Z.sqrt v.
Proof.
  intros Hv.
  assert (Hinv : forall n : nat, (n <= 16)%nat -> isqrt_inv v (Z.of_nat n) (Nat.iter n isqrt32_step (0, 0, v))).
  { induction n as [|n IH]; intros Hn.
    - change (Nat.iter 0 isqrt32_step (0, 0, v)) with (0, 0, v). unfold isqrt_inv. change (Z.of_nat 0) with 0. change (2 ^ (32 - 2 * 0)) with (2 ^ 32).
      change (2 ^ (2 * 0)) with 1. rewrite Z.mul_1_r, Z.div_small, Z.mod_small by lia. lia.
    - rewrite Nat2Z.inj_succ, <- Z.add_1_r. simpl. apply isqrt32_step_inv; [lia | lia |].
      apply IH. lia. }
  specialize (Hinv 16%nat ltac:(lia)). unfold zbx_isqrt32.
  destruct (Nat.iter 16 isqrt32_step (0, 0, v)) as [[rem r] value].
  destruct Hinv as (Hr & Hrem & HV & _). change (2 ^ (32 - 2 * Z.of_nat 16)) with 1 in HV.
  rewrite Z.div_1_r in HV. symmetry. apply Z.sqrt_unique. lia.
Qed.

Lemma zbx_isqrt32_correct_witness : zbx_isqrt32 4294967295 = Z.sqrt 4294967295.
Proof. apply zbx_isqrt32_correct. lia. Defined.

(* ------------------------------------------------------------------ *)
(** ** Hash values *)

Lemma zbx_hash_modfnv_range (data : list Z) (seed : Z) : 0 <= zbx_hash_modfnv data seed < 2 ^ 32.
Proof. apply u32_range. Qed.

Lemma zbx_hash_splittable64_range (value : Z) : 0 <= zbx_hash_splittable64 value < 2 ^ 32.
Proof. apply u32_range. Qed.
