(* ===== verification/Queue.v ===== *)
(** The pointer queue (a growing ring buffer): src/src/libs/zbxalgo/queue.c. *)

From stdpp Require Import base sets list numbers.
From Stdlib Require Import ZArith Lia.
From S2P Require Import Prelude.

Open Scope nat_scope.

(** struct zbx_queue_ptr_t.  A cell is [None] while realloc has left it
    uninitialised; pointers are opaque addresses.  The fields of type int are
    never negative; what is computed from them is checked to fit ([fits_int]). *)
Record queue_ptr : Type := mkQueue {
  values : list (option Z);
  alloc_num : nat;
  head_pos : nat;
  tail_pos : nat
}.

(** A sum of type int is the number [n]. *)
Definition fits_int (n : nat) : res unit := _ ← c_int (Z.of_nat n); Ret tt.

(** Checked accesses of values[]: an index out of range or the read of an
    uninitialised cell is undefined behaviour. *)
Definition cell_read (l : list (option Z)) (i : nat) : res Z :=
  match l !! i with
  | Some (Some v) => Ret v
  | _ => Undef
  end.

Definition cell_write (l : list (option Z)) (i : nat) (v : Z) : res (list (option Z)) :=
  if i <? length l then Ret (<[i := Some v]> l) else Undef.

Definition memmove (l : list (option Z)) (dst src n : nat) : res (list (option Z)) :=
  if (dst + n <=? length l) && (src + n <=? length l) then
    Ret (take dst l ++ take n (drop src l) ++ drop (dst + n) l)
  else Undef.

Definition realloc (l : list (option Z)) (n : nat) : list (option Z) :=
  take n l ++ replicate (n - length l) None.

Definition zbx_queue_ptr_create : queue_ptr := mkQueue [] 0 0 0.

(** The difference of two positions, and it plus alloc_num when it is negative,
    are in the range of int. *)
Definition zbx_queue_ptr_values_num (q : queue_ptr) : Z :=
  let values_num := (Z.of_nat (head_pos q) - Z.of_nat (tail_pos q))%Z in
  if (0 >? values_num)%Z then (values_num + Z.of_nat (alloc_num q))%Z else values_num.

(** [num] is an int. *)
Definition zbx_queue_ptr_reserve (q : queue_ptr) (num : Z) : res queue_ptr :=
  let values_num := zbx_queue_ptr_values_num q in
  needed ← c_int (values_num + num);
  needed ← c_int (needed + 1);
  if (needed <=? Z.of_nat (alloc_num q))%Z then Ret q
  else
    more ← c_int (num + 1);
    size ← c_int (Z.of_nat (alloc_num q) + Z.max more (Z.of_nat (alloc_num q) / 2));
    let alloc_num' := Z.to_nat size in
    let values' := realloc (values q) alloc_num' in
    if head_pos q <? tail_pos q then
      let resize_num := alloc_num' - alloc_num q in
      values'' ← memmove values' (tail_pos q + resize_num) (tail_pos q)
                         (alloc_num q - tail_pos q);
      _ ← fits_int (tail_pos q + resize_num);
      Ret (mkQueue values'' alloc_num' (head_pos q) (tail_pos q + resize_num))
    else Ret (mkQueue values' alloc_num' (head_pos q) (tail_pos q)).

Definition zbx_queue_ptr_compact (q : queue_ptr) : res queue_ptr :=
  let values_num := Z.to_nat (zbx_queue_ptr_values_num q) in
  _ ← fits_int (values_num + 1);
  let alloc_num' := values_num + 1 in
  if alloc_num' =? alloc_num q then Ret q
  else
    '(values', head', tail') ←
      (if negb (0 =? tail_pos q) then
         if head_pos q <? tail_pos q then
           l ← memmove (values q) (head_pos q + 1) (tail_pos q) (alloc_num q - tail_pos q);
           _ ← fits_int (head_pos q + 1);
           Ret (l, head_pos q, head_pos q + 1)
         else
           l ← memmove (values q) 0 (tail_pos q) values_num;
           Ret (l, values_num, 0)
       else Ret (values q, head_pos q, tail_pos q));
    Ret (mkQueue (realloc values' alloc_num') alloc_num' head' tail').

Definition zbx_queue_ptr_push (q : queue_ptr) (value : Z) : res queue_ptr :=
  q ← zbx_queue_ptr_reserve q 1;
  values' ← cell_write (values q) (head_pos q) value;
  _ ← fits_int (head_pos q + 1);
  let head := head_pos q + 1 in
  Ret (mkQueue values' (alloc_num q) (if head =? alloc_num q then 0 else head) (tail_pos q)).

(** NULL is returned as [None]. *)
Definition zbx_queue_ptr_pop (q : queue_ptr) : res (option Z * queue_ptr) :=
  if tail_pos q =? head_pos q then Ret (None, q)
  else
    value ← cell_read (values q) (tail_pos q);
    _ ← fits_int (tail_pos q + 1);
    let tail := tail_pos q + 1 in
    let tail := if tail =? alloc_num q then 0 else tail in
    let head := if head_pos q =? alloc_num q then 0 else head_pos q in
    Ret (Some value, mkQueue (values q) (alloc_num q) head tail).

(** The scanning loops of zbx_queue_ptr_remove_value, with the number of
    iterations left, whose counters stay between the positions; [None] when the value is not met. *)
Fixpoint scan_up (l : list (option Z)) (value : Z) (n i : nat) : res (option nat) :=
  match n with
  | O => Ret None
  | S n' =>
      c ← cell_read l i;
      if decide (c = value) then Ret (Some i) else scan_up l value n' (S i)
  end.

Fixpoint scan_down (l : list (option Z)) (value : Z) (n i : nat) : res (option nat) :=
  match n with
  | O => Ret None
  | S n' =>
      c ← cell_read l i;
      if decide (c = value) then Ret (Some i) else scan_down l value n' (i - 1)
  end.

(** The closing loops: cells move one place down (up) over the removed one. *)
Fixpoint close_down (l : list (option Z)) (n i : nat) : res (list (option Z)) :=
  match n with
  | O => Ret l
  | S n' =>
      c ← cell_read l (i + 1);
      l' ← cell_write l i c;
      close_down l' n' (S i)
  end.

Fixpoint close_up (l : list (option Z)) (n i : nat) : res (list (option Z)) :=
  match n with
  | O => Ret l
  | S n' =>
      c ← cell_read l (i - 1);
      l' ← cell_write l i c;
      close_up l' n' (i - 1)
  end.

Definition zbx_queue_ptr_remove_value (q : queue_ptr) (value : Z) : res queue_ptr :=
  if tail_pos q =? head_pos q then Ret q
  else
    let start_pos := if tail_pos q <? head_pos q then tail_pos q else 0 in
    found ← scan_up (values q) value (head_pos q - start_pos) start_pos;
    match found with
    | Some i =>
        l ← close_down (values q) (head_pos q - 1 - i) i;
        Ret (mkQueue l (alloc_num q) (head_pos q - 1) (tail_pos q))
    | None =>
        if tail_pos q <=? head_pos q then Ret q
        else
          found ← scan_down (values q) value (alloc_num q - tail_pos q) (alloc_num q - 1);
          match found with
          | Some i =>
              l ← close_up (values q) (i - tail_pos q) i;
              _ ← fits_int (tail_pos q + 1);
              let tail := tail_pos q + 1 in
              Ret (mkQueue l (alloc_num q) (head_pos q)
                           (if tail =? alloc_num q then 0 else tail))
          | None => Ret q
          end
    end.

(* ------------------------------------------------------------------ *)
(** ** Representation *)

(** [repr q xs]: the ring holds the values [xs], oldest first, either as one
    linear segment or wrapped around the end of the array.  One cell is always
    free, so that head_pos = tail_pos means empty. *)
Inductive repr : queue_ptr -> list Z -> Prop :=
| repr_null : repr (mkQueue [] 0 0 0) []
| repr_lin q a xs b :
    b <> [] ->
    values q = a ++ (Some <$> xs) ++ b ->
    alloc_num q = length a + length xs + length b ->
    head_pos q = length a + length xs -> tail_pos q = length a ->
    repr q xs
| repr_wrap q ys m zs :
    m <> [] -> zs <> [] ->
    values q = (Some <$> ys) ++ m ++ (Some <$> zs) ->
    alloc_num q = length ys + length m + length zs ->
    head_pos q = length ys -> tail_pos q = length ys + length m ->
    repr q (zs ++ ys).

Lemma values_num_repr (q : queue_ptr) (xs : list Z) :
  repr q xs -> zbx_queue_ptr_values_num q = Z.of_nat (length xs).
Proof.
  unfold zbx_queue_ptr_values_num.
  destruct 1 as [|q a xs b Hb Hv Ha Hh Ht|q ys m zs Hm Hz Hv Ha Hh Ht]; [done| |]; rewrite Ha, Hh, Ht.
  - rewrite Z.gtb_ltb. destruct (Z.ltb_spec (Z.of_nat (length a + length xs) - Z.of_nat (length a)) 0); lia.
  - rewrite Z.gtb_ltb, length_app. destruct m; [done|]. simpl.
    destruct (Z.ltb_spec (Z.of_nat (length ys) - Z.of_nat (length ys + S (length m))) 0); lia.
Qed.

Lemma repr_head_tail (q : queue_ptr) (xs : list Z) :
  repr q xs -> (tail_pos q = head_pos q <-> xs = []).
Proof.
  destruct 1 as [|q a xs b Hb Hv Ha Hh Ht|q ys m zs Hm Hz Hv Ha Hh Ht]; [done| |]; rewrite Hh, Ht.
  - destruct xs; simpl; split; done || lia.
  - destruct m, zs; simpl; split; done || lia.
Qed.

(** *** Array primitives on split arrays *)

Lemma cell_read_app (p r : list (option Z)) (x : Z) :
  cell_read (p ++ Some x :: r) (length p) = Ret x.
Proof. unfold cell_read. by rewrite list_lookup_split. Qed.

Lemma cell_write_app (p r : list (option Z)) (c : option Z) (x : Z) :
  cell_write (p ++ c :: r) (length p) x = Ret (p ++ Some x :: r).
Proof.
  unfold cell_write. rewrite length_app. simpl.
  rewrite (proj2 (Nat.ltb_lt _ _)) by lia. by rewrite list_insert_split.
Qed.

Lemma cell_read_fmap (ys : list Z) (r : list (option Z)) (x : Z) :
  cell_read ((Some <$> ys) ++ Some x :: r) (length ys) = Ret x.
Proof. rewrite <- (length_fmap Some ys). apply cell_read_app. Qed.

Lemma cell_write_fmap (ys : list Z) (r : list (option Z)) (c : option Z) (x : Z) :
  cell_write ((Some <$> ys) ++ c :: r) (length ys) x = Ret ((Some <$> ys) ++ Some x :: r).
Proof. rewrite <- (length_fmap Some ys) at 1. apply cell_write_app. Qed.

Lemma memmove_split (l a d s : list (option Z)) (dst src n : nat) :
  take dst l = a -> take n (drop src l) = s -> drop (dst + n) l = d ->
  dst + n <= length l -> src + n <= length l ->
  memmove l dst src n = Ret (a ++ s ++ d).
Proof.
  intros <- <- <- H1 H2. unfold memmove.
  by rewrite (proj2 (Nat.leb_le _ _) H1), (proj2 (Nat.leb_le _ _) H2).
Qed.

Lemma realloc_grow (l : list (option Z)) (n : nat) :
  length l <= n -> realloc l n = l ++ replicate (n - length l) None.
Proof. intros. unfold realloc. by rewrite take_ge. Qed.

Lemma realloc_shrink (l : list (option Z)) (n : nat) : n <= length l -> realloc l n = take n l.
Proof. intros. unfold realloc. replace (n - length l) with 0 by lia. apply app_nil_r. Qed.

(** *** Reserve, push, pop, compact *)

Lemma fits_int_ok (n : nat) : (Z.of_nat n < 2 ^ 31)%Z -> fits_int n = Ret tt.
Proof. intros Hn. unfold fits_int. by rewrite c_int_small by lia. Qed.

(** All allocations so far were for less than [cap] values. *)
Definition within (cap : Z) (q : queue_ptr) : Prop := (Z.of_nat (alloc_num q) <= 2 * cap)%Z.

Lemma repr_positions (q : queue_ptr) (xs : list Z) :
  repr q xs -> length xs <= alloc_num q /\ (xs <> [] -> head_pos q < alloc_num q /\ tail_pos q < alloc_num q).
Proof.
  destruct 1 as [|q a xs b Hb Hv Ha Hh Ht|q ys m zs Hm Hz Hv Ha Hh Ht]; [done| |].
  - destruct b; [done|]. cbn [length] in *. lia.
  - destruct zs; [done|]. rewrite length_app. cbn [length] in *. lia.
Qed.

Lemma reserve_repr (q : queue_ptr) (xs : list Z) (num cap : Z) :
  repr q xs -> within cap q -> (- 2 ^ 31 <= num)%Z -> (Z.of_nat (length xs) + num + 1 <= cap)%Z -> (0 <= cap < 2 ^ 30)%Z ->
  exists q', zbx_queue_ptr_reserve q num = Ret q' /\ repr q' xs /\ within cap q' /\
             (Z.of_nat (length xs) + num + 1 <= Z.of_nat (alloc_num q'))%Z.
Proof.
  intros Hr Hcap Hneg Hnum Hbig. unfold within in *. unfold zbx_queue_ptr_reserve. rewrite (values_num_repr _ _ Hr).
  destruct (repr_positions _ _ Hr) as [Hlx _]. rewrite (c_int_small (_ + num)) by lia. cbn [mbind res_bind].
  rewrite (c_int_small (_ + num + 1)) by lia. cbn [mbind res_bind].
  destruct (Z.leb_spec (Z.of_nat (length xs) + num + 1) (Z.of_nat (alloc_num q))) as [Hle|Hlt].
  { exists q. split_and!; [done|done|done|lia]. }
  assert (Hhalf : (0 <= Z.of_nat (alloc_num q) / 2 /\ 2 * (Z.of_nat (alloc_num q) / 2) <= Z.of_nat (alloc_num q))%Z)
    by (pose proof (Z.mul_div_le (Z.of_nat (alloc_num q)) 2); pose proof (Z.div_pos (Z.of_nat (alloc_num q)) 2); lia).
  rewrite (c_int_small (num + 1)) by lia. cbn [mbind res_bind].
  rewrite (c_int_small (_ + _ `max` _)) by lia. cbn [mbind res_bind].
  set (size := (Z.of_nat (alloc_num q) + Z.max (num + 1) (Z.of_nat (alloc_num q) / 2))%Z).
  set (n := Z.to_nat size).
  assert (Hsize : (Z.of_nat n <= 2 * cap)%Z) by (unfold n, size; lia).
  assert (Hn : (Z.of_nat (alloc_num q) + num + 1 <= Z.of_nat n)%Z /\ alloc_num q < n) by (unfold n, size; lia).
  clearbody n. clear size Hhalf.
  destruct Hr as [|q a xs b Hb Hv Ha Hh Ht|q ys m zs Hm Hz Hv Ha Hh Ht].
  - simpl in *. eexists. split; [done|]. simpl. split; [|lia].
    apply (repr_lin _ [] [] (replicate n None)); simpl; try done.
    + destruct n; [lia|done].
    + unfold realloc. by rewrite take_nil, Nat.sub_0_r.
    + by rewrite length_replicate.
  - rewrite Hh, Ht. rewrite (proj2 (Nat.ltb_ge _ _)) by lia.
    assert (Hlen : length (values q) = alloc_num q) by (rewrite Hv, !length_app, length_fmap; lia).
    eexists. split; [done|]. simpl. split; [|lia].
    apply (repr_lin _ a xs (b ++ replicate (n - alloc_num q) None)); simpl; try done.
    + by destruct b.
    + rewrite realloc_grow, Hlen, Hv by lia. by rewrite <- !app_assoc.
    + rewrite length_app, length_replicate. lia.
  - rewrite Hh, Ht. assert (0 < length m) by (destruct m; simpl; [done|lia]).
    rewrite (proj2 (Nat.ltb_lt _ _)) by lia.
    assert (Hlen : length (values q) = alloc_num q) by (rewrite Hv, !length_app, !length_fmap; lia).
    rewrite length_app in Hlt. set (k := n - alloc_num q).
    rewrite realloc_grow, Hlen by lia. fold k.
    set (Y := Some <$> ys) in *. set (Z' := Some <$> zs) in *.
    assert (HY : length Y = length ys) by apply length_fmap.
    assert (HZ : length Z' = length zs) by apply length_fmap.
    rewrite (memmove_split _ (Y ++ m ++ take k (Z' ++ replicate k None)) [] Z').
    + cbn [mbind res_bind]. rewrite fits_int_ok by (unfold k; lia). cbn [mbind res_bind].
      eexists. split; [done|]. simpl. rewrite length_app. split; [|lia].
      apply (repr_wrap _ ys (m ++ take k (Z' ++ replicate k None)) zs); simpl; try done.
      * by destruct m.
      * by rewrite app_nil_r, <- !app_assoc.
      * rewrite !length_app, length_take, length_app, length_replicate. lia.
      * rewrite !length_app, length_take, length_app, length_replicate. lia.
    + rewrite Hv, <- !app_assoc, (app_assoc Y m).
      rewrite <- HY, <- length_app, take_app_add, <- app_assoc. done.
    + rewrite Hv, <- !app_assoc, (app_assoc Y m).
      rewrite <- HY, <- length_app, drop_app_length.
      rewrite length_app. replace (alloc_num q - (length Y + length m)) with (length Z') by lia.
      by rewrite take_app_length.
    + apply drop_ge. rewrite length_app, length_replicate, Hlen. lia.
    + rewrite length_app, length_replicate, Hlen. lia.
    + rewrite length_app, length_replicate, Hlen. lia.
Qed.

Lemma push_repr (q : queue_ptr) (xs : list Z) (v cap : Z) :
  repr q xs -> within cap q -> (Z.of_nat (length xs) + 2 <= cap < 2 ^ 30)%Z ->
  exists q', zbx_queue_ptr_push q v = Ret q' /\ within cap q' /\ repr q' (xs ++ [v]).
Proof.
  intros Hr Hcap Hbig. unfold zbx_queue_ptr_push.
  destruct (reserve_repr q xs 1 cap Hr Hcap) as (q1 & -> & Hr1 & Hcap1 & Hn); [lia..|]. cbn [mbind res_bind].
  assert (Hfit : forall n, n <= alloc_num q1 -> fits_int n = Ret tt)
    by (intros n Hle; apply fits_int_ok; unfold within in Hcap1; lia).
  destruct Hr1 as [|q1 a xs b Hb Hv Ha Hh Ht|q1 ys m zs Hm Hz Hv Ha Hh Ht]; [simpl in Hn; lia| |].
  - destruct b as [|c b]; [done|]. simpl in Ha.
    rewrite Hv, app_assoc. rewrite Hh. replace (length a + length xs) with (length (a ++ (Some <$> xs)))
      by (by rewrite length_app, length_fmap).
    rewrite cell_write_app. cbn [mbind res_bind].
    rewrite Hfit by (rewrite Ha, length_app, length_fmap; cbn [length]; lia). cbn [mbind res_bind].
    eexists. split; [done|]. split; [done|].
    rewrite length_app, length_fmap. destruct b as [|d b].
    + simpl in Ha. rewrite (proj2 (Nat.eqb_eq _ _)) by lia.
      change (xs ++ [v]) with (xs ++ [v]). rewrite <- (app_nil_r (xs ++ [v])).
      apply (repr_wrap _ [] a (xs ++ [v])); simpl; try done.
      * destruct a; [simpl in *; lia|done].
      * by destruct xs.
      * by rewrite fmap_app, <- app_assoc.
      * rewrite length_app. simpl. lia.
    + simpl in Ha. rewrite (proj2 (Nat.eqb_neq _ _)) by lia.
      apply (repr_lin _ a (xs ++ [v]) (d :: b)); simpl; try done.
      * by rewrite fmap_app, <- !app_assoc.
      * rewrite length_app. simpl. lia.
      * rewrite length_app. simpl. lia.
  - destruct m as [|c m]; [done|]. rewrite length_app in Hn. simpl in Ha.
    rewrite Hv, Hh. simpl. rewrite cell_write_fmap. cbn [mbind res_bind].
    rewrite Hfit by lia. cbn [mbind res_bind]. eexists. split; [done|]. split; [done|].
    rewrite (proj2 (Nat.eqb_neq _ _)) by lia. rewrite <- app_assoc.
    apply (repr_wrap _ (ys ++ [v]) m zs); simpl; try done.
    + destruct m; [simpl in *; lia|done].
    + by rewrite fmap_app, <- !app_assoc.
    + rewrite length_app. simpl. lia.
    + rewrite length_app. simpl. lia.
    + rewrite length_app, Ht. simpl. lia.
Qed.

Lemma pop_repr (q : queue_ptr) (xs : list Z) (cap : Z) :
  repr q xs -> within cap q -> (cap < 2 ^ 30)%Z ->
  match xs with
  | [] => zbx_queue_ptr_pop q = Ret (None, q)
  | x :: xs' => exists q', zbx_queue_ptr_pop q = Ret (Some x, q') /\ within cap q' /\ repr q' xs'
  end.
Proof.
  intros Hr Hcap Hbig. pose proof (repr_head_tail q xs Hr) as Hht. pose proof (repr_positions q xs Hr) as [_ Hpos]. unfold zbx_queue_ptr_pop.
  destruct xs as [|x xs'].
  { by rewrite (proj2 (Nat.eqb_eq _ _)) by (by apply Hht). }
  rewrite (proj2 (Nat.eqb_neq _ _)) by (intros E; by apply Hht in E). clear Hht.
  assert (Hfit : fits_int (tail_pos q + 1) = Ret tt)
    by (destruct Hpos; [done|]; apply fits_int_ok; unfold within in Hcap; lia).
  inversion Hr as [|q1 a xs b Hb Hv Ha Hh Ht|q1 ys m zs Hm Hz Hv Ha Hh Ht]; subst q1; subst.
  - simpl in *. rewrite Hv, Ht. simpl. rewrite cell_read_app. cbn [mbind res_bind].
    destruct b as [|c b]; [done|]. simpl in *.
    rewrite <- Ht, Hfit, Ht. cbn [mbind res_bind].
    rewrite !(proj2 (Nat.eqb_neq _ _)) by lia. eexists. split; [done|]. split; [done|].
    apply (repr_lin _ (a ++ [Some x]) xs' (c :: b)); simpl; try done; rewrite ?length_app; simpl; try lia.
    by rewrite <- app_assoc.
  - destruct zs as [|z zs]; [done|]. simpl in *. simplify_eq.
    rewrite Hv, Ht, app_assoc. simpl.
    replace (length ys + length m) with (length ((Some <$> ys) ++ m)) by (by rewrite length_app, length_fmap).
    rewrite cell_read_app. cbn [mbind res_bind]. rewrite length_app, length_fmap.
    rewrite <- Ht, Hfit, Ht. cbn [mbind res_bind].
    destruct m as [|c m]; [done|]. simpl in *. rewrite (proj2 (Nat.eqb_neq (head_pos q) _)) by lia.
    eexists. split; [done|]. split; [done|]. destruct zs as [|z' zs]; simpl in *.
    + rewrite (proj2 (Nat.eqb_eq _ _)) by lia.
      apply (repr_lin _ [] ys (c :: m ++ [Some x])); simpl; try done; rewrite ?length_app; simpl; try lia.
      by rewrite <- app_assoc.
    + rewrite (proj2 (Nat.eqb_neq _ _)) by lia.
      apply (repr_wrap _ ys (c :: m ++ [Some x]) (z' :: zs)); simpl; try done; rewrite ?length_app; simpl; try lia.
      rewrite <- app_assoc. simpl. by rewrite <- app_assoc.
Qed.

Lemma compact_repr (q : queue_ptr) (xs : list Z) (cap : Z) :
  repr q xs -> within cap q -> (Z.of_nat (length xs) + 1 <= cap < 2 ^ 30)%Z ->
  exists q', zbx_queue_ptr_compact q = Ret q' /\ repr q' xs /\ alloc_num q' = length xs + 1.
Proof.
  intros Hr Hcap Hbig. unfold within in Hcap. unfold zbx_queue_ptr_compact. rewrite (values_num_repr _ _ Hr), Nat2Z.id.
  rewrite (fits_int_ok (length xs + 1)) by lia. cbn [mbind res_bind].
  destruct (Nat.eqb_spec (length xs + 1) (alloc_num q)) as [He | Hne].
  { exists q. by rewrite He. }
  destruct Hr as [|q a xs b Hb Hv Ha Hh Ht|q ys m zs Hm Hz Hv Ha Hh Ht].
  - eexists. split; [done|]. split; [|done]. by apply (repr_lin _ [] [] [None]).
  - set (X := Some <$> xs) in *. assert (HX : length X = length xs) by apply length_fmap.
    assert (Hbl : 0 < length b) by (destruct b; simpl; [done|lia]).
    rewrite Hh, Ht, Hv. destruct a as [|c a].
    + simpl. eexists. split; [done|]. split; [|done].
      apply (repr_lin _ [] xs (take 1 b)); simpl; try done; rewrite ?length_take; try lia.
      * by destruct b.
      * rewrite realloc_shrink by (rewrite length_app; lia). by rewrite <- HX, take_app_add.
    + set (n := length (c :: a)). rewrite (proj2 (Nat.eqb_neq 0 n)) by (unfold n; simpl; lia).
      cbn [negb]. rewrite (proj2 (Nat.ltb_ge (n + _) n)) by lia.
      rewrite (memmove_split _ [] (drop (length xs) ((c :: a) ++ X ++ b)) X);
        [| done | | done | rewrite !length_app; lia | rewrite !length_app; unfold n; lia].
      * cbn [mbind res_bind]. eexists. split; [done|]. split; [|done].
        assert (Hlen : length (drop (length xs) ((c :: a) ++ X ++ b)) >= 1)
          by (rewrite length_drop, !length_app; lia).
        apply (repr_lin _ [] xs (take 1 (drop (length xs) ((c :: a) ++ X ++ b))));
          cbn [values alloc_num head_pos tail_pos]; try done.
        -- intros E. apply (f_equal length) in E. rewrite length_take in E. cbn [length] in E. lia.
        -- rewrite !app_nil_l, realloc_shrink by (rewrite length_app; lia). by rewrite <- HX at 1; rewrite take_app_add.
        -- rewrite length_take. cbn [length]. lia.
      * unfold n. rewrite drop_app_length, <- HX. apply take_app_length.
  - assert (0 < length m) by (destruct m; simpl; [done|lia]).
    set (Y := Some <$> ys) in *. set (Z' := Some <$> zs) in *.
    assert (HY : length Y = length ys) by apply length_fmap.
    assert (HZ : length Z' = length zs) by apply length_fmap.
    assert (0 < length zs) by (destruct zs; simpl; [done|lia]).
    rewrite length_app in *. rewrite Hh, Ht, Hv.
    rewrite (proj2 (Nat.eqb_neq 0 _)), (proj2 (Nat.ltb_lt _ _)) by lia. cbn [negb].
    destruct m as [|c m]; [done|]. cbn [length] in *.
    rewrite (memmove_split _ (Y ++ [c]) (drop (length ys + 1 + length zs) (Y ++ (c :: m) ++ Z')) Z');
      [| | | f_equal; lia | rewrite !length_app; cbn [length]; lia | rewrite !length_app; cbn [length]; lia].
    + cbn [mbind res_bind]. rewrite fits_int_ok by lia. cbn [mbind res_bind].
      eexists. split; [done|]. split; [|cbn [alloc_num]; lia].
      apply (repr_wrap _ ys [c] zs); cbn [values alloc_num head_pos tail_pos length]; try done; try lia.
      rewrite realloc_shrink by (rewrite !length_app; cbn [length]; lia).
      rewrite <- !app_assoc, (app_assoc [c]), (app_assoc Y). fold Y Z'. apply take_app_length'.
      rewrite !length_app. cbn [length]. lia.
    + rewrite <- HY. by rewrite take_app_add.
    + replace (length ys + S (length m)) with (length (Y ++ c :: m)) by (rewrite length_app; cbn [length]; lia).
      rewrite app_assoc, drop_app_length.
      apply take_ge. rewrite length_app. cbn [length]. lia.
Qed.

(** *** Removal by value *)

Lemma scan_up_spec (v : Z) (xs : list Z) (p r : list (option Z)) :
  ((v ∉ xs) /\ scan_up (p ++ (Some <$> xs) ++ r) v (length xs) (length p) = Ret None) \/
  (exists x1 x2, xs = x1 ++ v :: x2 /\ (v ∉ x1) /\
     scan_up (p ++ (Some <$> xs) ++ r) v (length xs) (length p) = Ret (Some (length p + length x1))).
Proof.
  revert p. induction xs as [|x xs IH]; intros p; [left; split; [set_solver|done]|].
  rewrite fmap_cons. cbn [app length scan_up]. rewrite cell_read_app. cbn [mbind res_bind].
  case_decide as Hx.
  - subst. right. exists [], xs. split_and!; [done | set_solver | simpl; do 2 f_equal; lia].
  - rewrite (cons_middle (Some x) p), (app_assoc p).
    replace (S (length p)) with (length (p ++ [Some x])) by (rewrite length_app; simpl; lia).
    destruct (IH (p ++ [Some x])) as [[Hn E] | (x1 & x2 & -> & Hn & E)]; rewrite E.
    + left. split; [set_solver|done].
    + right. exists (x :: x1), x2. split_and!; [done | set_solver |].
      rewrite length_app. simpl. do 2 f_equal. lia.
Qed.

Lemma scan_down_spec (v : Z) (xs : list Z) (p r : list (option Z)) :
  ((v ∉ xs) /\
     scan_down (p ++ (Some <$> xs) ++ r) v (length xs) (length p + length xs - 1) = Ret None) \/
  (exists x1 x2, xs = x1 ++ v :: x2 /\ (v ∉ x2) /\
     scan_down (p ++ (Some <$> xs) ++ r) v (length xs) (length p + length xs - 1)
       = Ret (Some (length p + length x1))).
Proof.
  revert r. induction xs as [|x xs IH] using rev_ind; intros r; [left; split; [set_solver|done]|].
  rewrite length_app, Nat.add_1_r. cbn [length scan_down].
  replace (p ++ (Some <$> xs ++ [x]) ++ r) with ((p ++ (Some <$> xs)) ++ Some x :: r)
    by (by rewrite fmap_app, <- !app_assoc).
  replace (length p + S (length xs) - 1) with (length (p ++ (Some <$> xs)))
    by (rewrite length_app, length_fmap; lia).
  rewrite cell_read_app. cbn [mbind res_bind]. case_decide as Hx.
  - subst. right. exists xs, []. split_and!; [done | set_solver |].
    by rewrite length_app, length_fmap.
  - rewrite <- app_assoc, length_app, length_fmap.
    destruct (IH (Some x :: r)) as [[Hn E] | (x1 & x2 & -> & Hn & E)]; rewrite E.
    + left. split; [set_solver|done].
    + right. exists x1, (x2 ++ [x]). split_and!; [by rewrite <- app_assoc | set_solver | done].
Qed.

(** The same with the positions as the caller computes them. *)
Lemma scan_down_at (v : Z) (xs : list Z) (p l : list (option Z)) (n i : nat) :
  l = p ++ (Some <$> xs) -> n = length xs -> i = length p + length xs - 1 ->
  ((v ∉ xs) /\ scan_down l v n i = Ret None) \/
  (exists x1 x2, xs = x1 ++ v :: x2 /\ (v ∉ x2) /\
     scan_down l v n i = Ret (Some (length p + length x1))).
Proof. intros -> -> ->. rewrite <- (app_nil_r (Some <$> xs)). apply scan_down_spec. Qed.

Lemma close_down_spec (xs : list Z) (p r : list (option Z)) (c : option Z) :
  exists d, close_down (p ++ c :: (Some <$> xs) ++ r) (length xs) (length p)
            = Ret (p ++ (Some <$> xs) ++ d :: r).
Proof.
  revert p c. induction xs as [|x xs IH]; intros p c; [by exists c|].
  rewrite fmap_cons. cbn [app length close_down].
  replace (cell_read _ _) with (Ret x).
  2: { rewrite (cons_middle c p), (app_assoc p).
       replace (length p + 1) with (length (p ++ [c])) by (by rewrite length_app).
       by rewrite cell_read_app. }
  cbn [mbind res_bind]. rewrite cell_write_app. cbn [mbind res_bind].
  destruct (IH (p ++ [Some x]) (Some x)) as [d Hd]. exists d.
  rewrite length_app, Nat.add_1_r, <- !app_assoc in Hd. exact Hd.
Qed.

Lemma close_up_spec (xs : list Z) (p r : list (option Z)) (c : option Z) :
  exists d, close_up (p ++ (Some <$> xs) ++ c :: r) (length xs) (length p + length xs)
            = Ret (p ++ d :: (Some <$> xs) ++ r).
Proof.
  revert r c. induction xs as [|x xs IH] using rev_ind; intros r c; [by exists c|].
  rewrite length_app, Nat.add_1_r. cbn [length close_up].
  replace (p ++ (Some <$> xs ++ [x]) ++ c :: r) with ((p ++ (Some <$> xs)) ++ Some x :: c :: r)
    by (by rewrite fmap_app, <- !app_assoc).
  replace (length p + S (length xs) - 1) with (length (p ++ (Some <$> xs)))
    by (rewrite length_app, length_fmap; lia).
  rewrite cell_read_app. cbn [mbind res_bind].
  replace ((p ++ (Some <$> xs)) ++ Some x :: c :: r) with ((p ++ (Some <$> xs) ++ [Some x]) ++ c :: r)
    by (by rewrite <- !app_assoc).
  replace (length p + S (length xs)) with (length (p ++ (Some <$> xs) ++ [Some x]))
    by (rewrite !length_app, length_fmap; simpl; lia).
  rewrite cell_write_app. cbn [mbind res_bind].
  destruct (IH (Some x :: r) (Some x)) as [d Hd]. exists d.
  rewrite length_app, length_fmap. rewrite <- !app_assoc. simpl. rewrite Hd.
  by rewrite fmap_app, <- !app_assoc.
Qed.

(** One occurrence of the value is gone, the others keep their order. *)
Definition removed_one (v : Z) (xs xs' : list Z) : Prop :=
  ((v ∉ xs) /\ xs' = xs) \/ (exists x1 x2, xs = x1 ++ v :: x2 /\ xs' = x1 ++ x2).

Lemma remove_value_lin (q : queue_ptr) (a b : list (option Z)) (xs : list Z) (v : Z) :
  b <> [] -> values q = a ++ (Some <$> xs) ++ b ->
  alloc_num q = length a + length xs + length b ->
  head_pos q = length a + length xs -> tail_pos q = length a -> xs <> [] ->
  exists q' xs', zbx_queue_ptr_remove_value q v = Ret q' /\ repr q' xs' /\ alloc_num q' = alloc_num q /\ removed_one v xs xs'.
Proof.
  intros Hb Hv Ha Hh Ht Hne. unfold zbx_queue_ptr_remove_value. rewrite Hh, Ht.
  assert (0 < length xs) by (destruct xs; simpl; [done|lia]).
  rewrite (proj2 (Nat.eqb_neq _ _)), (proj2 (Nat.ltb_lt _ _)) by lia.
  replace (length a + length xs - length a) with (length xs) by lia. rewrite Hv.
  destruct (scan_up_spec v xs a b) as [[Hn E] | (x1 & x2 & -> & Hn & E)]; rewrite E; cbn [mbind res_bind].
  - rewrite (proj2 (Nat.leb_le _ _)) by lia. exists q, xs. split_and!; [done | | done | by left].
    by apply (repr_lin _ a xs b).
  - rewrite length_app. cbn [length].
    replace (length a + (length x1 + S (length x2)) - 1 - (length a + length x1)) with (length x2) by lia.
    destruct (close_down_spec x2 (a ++ (Some <$> x1)) b (Some v)) as [d Hd].
    rewrite length_app, length_fmap in Hd. rewrite fmap_app, fmap_cons.
    rewrite <- !app_assoc in *. simpl in *. rewrite Hd. cbn [mbind res_bind].
    eexists _, (x1 ++ x2). split_and!; [done | | done | right; by exists x1, x2].
    apply (repr_lin _ a (x1 ++ x2) (d :: b)); simpl; try done; rewrite ?length_app; simpl; try lia.
    by rewrite fmap_app, <- !app_assoc.
    rewrite Ha, length_app. simpl. lia.
Qed.

Lemma remove_value_wrap (q : queue_ptr) (ys zs : list Z) (m : list (option Z)) (v : Z) :
  m <> [] -> zs <> [] -> values q = (Some <$> ys) ++ m ++ (Some <$> zs) ->
  alloc_num q = length ys + length m + length zs ->
  head_pos q = length ys -> tail_pos q = length ys + length m -> (Z.of_nat (alloc_num q) < 2 ^ 31)%Z ->
  exists q' xs', zbx_queue_ptr_remove_value q v = Ret q' /\ repr q' xs' /\ alloc_num q' = alloc_num q /\
    removed_one v (zs ++ ys) xs'.
Proof.
  intros Hm Hz Hv Ha Hh Ht Hfit. unfold zbx_queue_ptr_remove_value. rewrite Hh, Ht.
  assert (0 < length m) by (destruct m; simpl; [done|lia]).
  assert (0 < length zs) by (destruct zs; simpl; [done|lia]).
  rewrite (proj2 (Nat.eqb_neq _ _)), (proj2 (Nat.ltb_ge _ _)), Nat.sub_0_r, Hv by lia.
  destruct (scan_up_spec v ys [] (m ++ (Some <$> zs))) as [[Hn E] | (y1 & y2 & -> & Hn & E)];
    simpl in E; rewrite E; cbn [mbind res_bind].
  - rewrite (proj2 (Nat.leb_gt _ _)), Ha by lia.
    destruct (scan_down_at v zs ((Some <$> ys) ++ m) ((Some <$> ys) ++ m ++ (Some <$> zs))
      (length ys + length m + length zs - (length ys + length m))
      (length ys + length m + length zs - 1)) as [[Hn' E'] | (z1 & z2 & -> & Hn' & E')];
      [by rewrite app_assoc | lia | rewrite length_app, length_fmap; lia | |]; rewrite E';
      cbn [mbind res_bind].
    + exists q, (zs ++ ys). split_and!; [done | | done | left; split; [set_solver|done]].
      by apply (repr_wrap _ ys m zs).
    + assert (HL : length ((Some <$> ys) ++ m) = length ys + length m)
        by (by rewrite length_app, length_fmap).
      rewrite HL. replace (length ys + length m + length z1 - (length ys + length m)) with (length z1) by lia.
      destruct (close_up_spec z1 ((Some <$> ys) ++ m) (Some <$> z2) (Some v)) as [d Hd].
      rewrite HL in Hd. rewrite fmap_app, fmap_cons.
      rewrite <- !app_assoc in Hd. simpl in Hd. rewrite Hd. cbn [mbind res_bind].
      rewrite length_app in *. cbn [length] in *. rewrite fits_int_ok by lia. cbn [mbind res_bind].
      eexists _, ((z1 ++ z2) ++ ys). split_and!;
        [done | | done | right; exists z1, (z2 ++ ys); by rewrite <- !app_assoc].
      destruct (decide (z1 ++ z2 = [])) as [Hz12 | Hz12].
      * apply app_eq_nil in Hz12 as [-> ->]. simpl in *. rewrite (proj2 (Nat.eqb_eq _ _)) by lia.
        apply (repr_lin _ [] ys (m ++ [d])); simpl; try done; rewrite ?length_app; simpl; try lia.
        by destruct m.
      * assert (0 < length (z1 ++ z2)) as Hl by (destruct (z1 ++ z2); simpl; [done|lia]).
        rewrite length_app in Hl. rewrite (proj2 (Nat.eqb_neq _ _)) by lia.
        apply (repr_wrap _ ys (m ++ [d]) (z1 ++ z2)); simpl; try done; rewrite ?length_app; simpl; try lia.
        -- by destruct m.
        -- by rewrite fmap_app, <- !app_assoc.
  - rewrite length_app in *. cbn [length] in *.
    replace (length y1 + S (length y2) - 1 - length y1) with (length y2) by lia.
    destruct (close_down_spec y2 (Some <$> y1) (m ++ (Some <$> zs)) (Some v)) as [d Hd].
    rewrite length_fmap in Hd. rewrite fmap_app, fmap_cons.
    rewrite <- app_assoc. simpl. rewrite Hd. cbn [mbind res_bind].
    eexists _, (zs ++ y1 ++ y2). split_and!; [done | | done |].
    + apply (repr_wrap _ (y1 ++ y2) (d :: m) zs); simpl; try done; rewrite ?length_app; simpl; try lia.
      by rewrite fmap_app, <- !app_assoc.
    + right. exists (zs ++ y1), y2. by rewrite <- !app_assoc.
Qed.

Lemma remove_value_repr (q : queue_ptr) (xs : list Z) (v : Z) :
  repr q xs -> (Z.of_nat (alloc_num q) < 2 ^ 31)%Z ->
  exists q' xs', zbx_queue_ptr_remove_value q v = Ret q' /\ repr q' xs' /\ alloc_num q' = alloc_num q /\ removed_one v xs xs'.
Proof.
  intros Hr Hfit. destruct (decide (xs = [])) as [-> | Hne].
  { exists q, []. split_and!; [|done|done|left; split; [set_solver|done]].
    unfold zbx_queue_ptr_remove_value.
    by rewrite (proj2 (Nat.eqb_eq _ _)) by (by apply (repr_head_tail q [])). }
  destruct Hr as [|q a xs b Hb Hv Ha Hh Ht|q ys m zs Hm Hz Hv Ha Hh Ht]; [done| |].
  - by apply (remove_value_lin q a b).
  - by apply (remove_value_wrap q ys zs m).
Qed.

(* ------------------------------------------------------------------ *)
(** ** Refinement of an abstract FIFO *)

Inductive qop : Type :=
| QPush (v : Z)
| QPop
| QReserve (num : Z)
| QCompact
| QRemove (v : Z).

Definition run_op (q : queue_ptr) (o : qop) : res (option Z * queue_ptr) :=
  match o with
  | QPush v => q' ← zbx_queue_ptr_push q v; Ret (None, q')
  | QPop => zbx_queue_ptr_pop q
  | QReserve num => q' ← zbx_queue_ptr_reserve q num; Ret (None, q')
  | QCompact => q' ← zbx_queue_ptr_compact q; Ret (None, q')
  | QRemove v => q' ← zbx_queue_ptr_remove_value q v; Ret (None, q')
  end.

Fixpoint run_ops (q : queue_ptr) (ops : list qop) : res (list (option Z) * queue_ptr) :=
  match ops with
  | [] => Ret ([], q)
  | o :: ops' =>
      '(out, q1) ← run_op q o;
      '(outs, q2) ← run_ops q1 ops';
      Ret (out :: outs, q2)
  end.

(** The abstract queue: push at the back, pop at the front, storage
    management invisible, removal of one occurrence. *)
Inductive fifo_step : list Z -> qop -> option Z -> list Z -> Prop :=
| fifo_push xs v : fifo_step xs (QPush v) None (xs ++ [v])
| fifo_pop_empty : fifo_step [] QPop None []
| fifo_pop x xs : fifo_step (x :: xs) QPop (Some x) xs
| fifo_reserve xs num : fifo_step xs (QReserve num) None xs
| fifo_compact xs : fifo_step xs QCompact None xs
| fifo_remove xs v xs' : removed_one v xs xs' -> fifo_step xs (QRemove v) None xs'.

Inductive fifo_steps : list Z -> list qop -> list (option Z) -> list Z -> Prop :=
| fifo_done xs : fifo_steps xs [] [] xs
| fifo_more xs o out xs1 ops outs xs2 :
    fifo_step xs o out xs1 -> fifo_steps xs1 ops outs xs2 ->
    fifo_steps xs (o :: ops) (out :: outs) xs2.

Create HintDb queue.
#[export] Hint Constructors fifo_step fifo_steps repr : queue.

(** The sequence of operations never has the ring hold more than 2^30 - 3
    values, with what it reserves for; [n] bounds the values in the ring. *)
Fixpoint room_for (n : Z) (ops : list qop) : Prop :=
  match ops with
  | [] => True
  | QPush _ :: ops => (n + 2 < 2 ^ 30)%Z /\ room_for (n + 1) ops
  | QPop :: ops => room_for (Z.max 0 (n - 1)) ops
  | QReserve num :: ops => (- 2 ^ 31 <= num /\ n + num + 1 < 2 ^ 30)%Z /\ room_for n ops
  | _ :: ops => room_for n ops
  end.

Lemma removed_length (v : Z) (xs xs' : list Z) : removed_one v xs xs' -> length xs' <= length xs.
Proof. intros [[_ ->] | (x1 & x2 & -> & ->)]; [done|]. rewrite !length_app. cbn [length]. lia. Qed.

(** One operation, in a ring that has room for it. *)
Lemma run_op_refines (q : queue_ptr) (xs : list Z) (n : Z) (o : qop) (ops : list qop) :
  repr q xs -> within (2 ^ 30 - 1) q -> (Z.of_nat (length xs) <= n < 2 ^ 30 - 1)%Z -> room_for n (o :: ops) ->
  exists out q' xs' n', run_op q o = Ret (out, q') /\ fifo_step xs o out xs' /\ repr q' xs' /\
    within (2 ^ 30 - 1) q' /\ (Z.of_nat (length xs') <= n' < 2 ^ 30 - 1)%Z /\ room_for n' ops.
Proof.
  intros Hr Hw Hn Hroom. destruct o; simpl in *.
  - destruct Hroom as [Hnum Hroom].
    destruct (push_repr q xs v _ Hr Hw) as (q' & -> & Hw' & Hr'); [lia|].
    exists None, q', (xs ++ [v]), (n + 1)%Z. rewrite length_app. cbn [length]. split_and!; eauto with queue; lia.
  - pose proof (pop_repr q xs _ Hr Hw ltac:(lia)) as Hp. destruct xs as [|x xs].
    + rewrite Hp. exists None, q, [], (Z.max 0 (n - 1)). cbn [length] in *. split_and!; eauto with queue; lia.
    + destruct Hp as (q' & -> & Hw' & Hr'). exists (Some x), q', xs, (Z.max 0 (n - 1)). cbn [length] in *.
      split_and!; eauto with queue; lia.
  - destruct Hroom as [[Hneg Hnum] Hroom].
    destruct (reserve_repr q xs num _ Hr Hw) as (q' & -> & Hr' & Hw' & _); [lia..|].
    exists None, q', xs, n. split_and!; eauto with queue; lia.
  - destruct (compact_repr q xs _ Hr Hw) as (q' & -> & Hr' & Ha); [lia|].
    exists None, q', xs, n. unfold within. rewrite Ha. split_and!; eauto with queue; lia.
  - destruct (remove_value_repr q xs v Hr) as (q' & xs' & -> & Hr' & Ha & Hrm); [unfold within in Hw; lia|].
    pose proof (removed_length _ _ _ Hrm). exists None, q', xs', n. unfold within. rewrite Ha.
    split_and!; eauto with queue; lia.
Qed.

Lemma run_ops_refines (ops : list qop) (q : queue_ptr) (xs : list Z) (n : Z) :
  repr q xs -> within (2 ^ 30 - 1) q -> (Z.of_nat (length xs) <= n < 2 ^ 30 - 1)%Z -> room_for n ops ->
  exists outs q' xs', run_ops q ops = Ret (outs, q') /\ fifo_steps xs ops outs xs' /\ repr q' xs'.
Proof.
  revert q xs n. induction ops as [|o ops IH]; intros q xs n Hr Hw Hn Hroom; simpl; [eauto 8 with queue|].
  destruct (run_op_refines q xs n o ops Hr Hw Hn Hroom) as (out & q1 & xs1 & n1 & -> & Hs & Hr1 & Hw1 & Hn1 & Hroom1).
  cbn [mbind res_bind]. destruct (IH q1 xs1 n1 Hr1 Hw1 Hn1 Hroom1) as (outs & q2 & xs2 & -> & Hss & Hr2).
  cbn [mbind res_bind]. eauto 10 with queue.
Qed.

(** C26: Every sequence of pushes, pops, reservations, compactions and removals
    on a new ring buffer that keeps the ring, with what is reserved for, below
    2^30 values runs without an overflow of the int fields and without an
    out-of-range or uninitialised access, and returns what an abstract FIFO
    returns, whose contents the ring holds.  (Without the bound the sums of
    zbx_queue_ptr_reserve overflow, as the example reserve_overflows shows.) *)
Theorem queue_refines_fifo (ops : list qop) :
  room_for 0 ops ->
  exists outs q xs,
    run_ops zbx_queue_ptr_create ops = Ret (outs, q) /\ fifo_steps [] ops outs xs /\ repr q xs.
Proof. intros Hroom. by apply (run_ops_refines _ _ _ 0); [apply repr_null|..]. Qed.

Lemma queue_refines_fifo_witness :
  let ops := [QPush 1; QReserve 1000; QPush 2; QPop; QCompact; QRemove 2; QPop]%Z in
  room_for 0 ops /\
  exists outs q xs,
    run_ops zbx_queue_ptr_create ops = Ret (outs, q) /\ fifo_steps [] ops outs xs /\ repr q xs.
Proof.
  intros ops. assert (H : room_for 0 ops) by (subst ops; cbn [room_for]; lia).
  split; [exact H|exact (queue_refines_fifo ops H)].
Defined.

(** The sizes are added in int. *)
Example reserve_overflows : zbx_queue_ptr_reserve zbx_queue_ptr_create (2 ^ 31 - 1) = Undef.
Proof. reflexivity. Qed.

Example queue_wraps :
  (fst <$> match run_ops zbx_queue_ptr_create
     [QPush 1; QPush 2; QPop; QPush 3; QPush 4; QRemove 3; QPop; QCompact; QPop; QPop]%Z
   with Ret r => Some r | _ => None end)
  = Some [None; None; Some 1; None; None; None; Some 2; None; Some 4; None]%Z.
Proof. reflexivity. Qed.
