(* ===== verification/LinkedList.v ===== *)
(** The singly linked list and its iterator: src/src/libs/zbxalgo/linked_list.c.
    Items live in an explicit store, so that the aliasing between a list, its
    tail pointer and its iterators is the one of the code. *)

From stdpp Require Import base gmap list numbers sets.
From Stdlib Require Import ZArith Lia.
From S2P Require Import Prelude.

Open Scope Z_scope.

(** struct list_item; pointers are store addresses, NULL is [None]. *)
Record list_item : Type := mkItem { next : option Z; data : Z }.

(** struct zbx_list_t; [self] is the address of the structure itself and
    [mem_malloc_func] the allocation callback (NULL result: [None]). *)
Record zbx_list : Type := mkList {
  self : Z;
  head : option Z;
  tail : option Z;
  mem_malloc_func : gmap Z list_item -> option Z
}.

(** struct zbx_list_iterator_t; [ilist] is the list pointer. *)
Record zbx_list_iterator : Type := mkIter {
  ilist : option Z;
  current : option Z;
  inext : option Z
}.

(** Reading through NULL or a dangling pointer is undefined behaviour. *)
Definition deref (h : gmap Z list_item) (p : option Z) : res list_item :=
  match p with
  | Some a => match h !! a with Some i => Ret i | None => Undef end
  | None => Undef
  end.

Definition set_next (h : gmap Z list_item) (p : option Z) (n : option Z)
  : res (gmap Z list_item) :=
  match p with
  | Some a => match h !! a with Some i => Ret (<[a := mkItem n (data i)]> h) | None => Undef end
  | None => Undef
  end.

Definition set_head (l : zbx_list) (p : option Z) : zbx_list :=
  mkList (self l) p (tail l) (mem_malloc_func l).
Definition set_tail (l : zbx_list) (p : option Z) : zbx_list :=
  mkList (self l) (head l) p (mem_malloc_func l).

Definition zbx_list_create_ext (addr : Z) (malloc_func : gmap Z list_item -> option Z) : zbx_list :=
  mkList addr None None malloc_func.

Definition list_create_item (h : gmap Z list_item) (l : zbx_list) (value : Z)
  : option Z * gmap Z list_item :=
  match mem_malloc_func l h with
  | Some a => (Some a, <[a := mkItem None value]> h)
  | None => (None, h)
  end.

(** The result is the inserted item, [None] standing for FAIL. *)
Definition zbx_list_insert_after (h : gmap Z list_item) (l : zbx_list) (after : option Z) (value : Z)
  : res (option Z * gmap Z list_item * zbx_list) :=
  let '(item, h) := list_create_item h l value in
  match item with
  | None => Ret (None, h, l)
  | Some _ =>
      let after := match after with None => tail l | Some _ => after end in
      '(h, l') ←
        match after with
        | Some _ =>
            i ← deref h after;
            h ← set_next h item (next i);
            h ← set_next h after item;
            Ret (h, l)
        | None => Ret (h, set_head l item)
        end;
      let l' := if decide (after = tail l') then set_tail l' item else l' in
      Ret (item, h, l')
  end.

Definition zbx_list_append (h : gmap Z list_item) (l : zbx_list) (value : Z) :=
  zbx_list_insert_after h l None value.

Definition zbx_list_prepend (h : gmap Z list_item) (l : zbx_list) (value : Z)
  : res (option Z * gmap Z list_item * zbx_list) :=
  let '(item, h) := list_create_item h l value in
  match item with
  | None => Ret (None, h, l)
  | Some _ =>
      h ← set_next h item (head l);
      let l' := set_head l item in
      let l' := match tail l' with None => set_tail l' item | Some _ => l' end in
      Ret (item, h, l')
  end.

(** [None] stands for FAIL (empty list). *)
Definition zbx_list_pop (h : gmap Z list_item) (l : zbx_list)
  : res (option Z * gmap Z list_item * zbx_list) :=
  match head l with
  | None => Ret (None, h, l)
  | Some a =>
      i ← deref h (Some a);
      let l' := set_head l (next i) in
      let h' := delete a h in
      let l' := match head l' with None => set_tail l' None | Some _ => l' end in
      Ret (Some (data i), h', l')
  end.

(** The loop of zbx_list_destroy, at most 2^64 items. *)
Definition destroy_body (s : gmap Z list_item * zbx_list)
  : res (gmap Z list_item * zbx_list + gmap Z list_item * zbx_list) :=
  '(v, h, l) ← zbx_list_pop s.1 s.2;
  Ret (match v with Some _ => inl (h, l) | None => inr (h, l) end).

Definition zbx_list_destroy (h : gmap Z list_item) (l : zbx_list)
  : res (gmap Z list_item * zbx_list) := while 64 destroy_body (h, l).

Definition zbx_list_peek (h : gmap Z list_item) (l : zbx_list) : res (option Z) :=
  match head l with
  | None => Ret None
  | Some a => i ← deref h (Some a); Ret (Some (data i))
  end.

Definition zbx_list_iterator_init (l : zbx_list) : zbx_list_iterator :=
  mkIter (Some (self l)) None (head l).

(** [true] is SUCCEED. *)
Definition zbx_list_iterator_next (h : gmap Z list_item) (it : zbx_list_iterator)
  : res (bool * zbx_list_iterator) :=
  match inext it with
  | Some a =>
      i ← deref h (Some a);
      Ret (true, mkIter (ilist it) (Some a) (next i))
  | None => Ret (false, mkIter (ilist it) None None)
  end.

Definition zbx_list_iterator_init_with (h : gmap Z list_item) (l : zbx_list) (nxt : option Z)
  : res (bool * zbx_list_iterator) :=
  match nxt with
  | None => zbx_list_iterator_next h (zbx_list_iterator_init l)
  | Some a =>
      i ← deref h nxt;
      Ret (true, mkIter (Some (self l)) nxt (next i))
  end.

Definition zbx_list_iterator_peek (h : gmap Z list_item) (it : zbx_list_iterator) : res (option Z) :=
  match current it with
  | Some a => i ← deref h (Some a); Ret (Some (data i))
  | None => Ret None
  end.

Definition zbx_list_iterator_clear : zbx_list_iterator := mkIter None None None.

Definition zbx_list_iterator_equal (it1 it2 : zbx_list_iterator) : bool :=
  bool_decide (ilist it1 = ilist it2) && bool_decide (current it1 = current it2).

Definition zbx_list_iterator_isset (it : zbx_list_iterator) : bool :=
  negb (bool_decide (ilist it = None)).

Definition zbx_list_iterator_update (h : gmap Z list_item) (it : zbx_list_iterator)
  : res zbx_list_iterator :=
  match current it with
  | Some a => i ← deref h (Some a); Ret (mkIter (ilist it) (current it) (next i))
  | None => Ret it
  end.

(** [l] is the list the iterator points to; NULL is returned as [None]. *)
Definition zbx_list_iterator_remove_next (h : gmap Z list_item) (l : zbx_list) (it : zbx_list_iterator)
  : res (option Z * gmap Z list_item * zbx_list * zbx_list_iterator) :=
  match current it, inext it with
  | Some c, Some n =>
      i ← deref h (Some n);
      let l' := if decide (tail l = Some n) then set_tail l (Some c) else l in
      h ← set_next h (Some c) (next i);
      Ret (Some (data i), delete n h, l', mkIter (ilist it) (current it) (next i))
  | _, _ => Ret (None, h, l, it)
  end.

(* ------------------------------------------------------------------ *)
(** ** Representation *)

(** [lseg h p xs q]: from [p] the store links the items [xs] (address and
    data), the last of them pointing to [q]. *)
Fixpoint lseg (h : gmap Z list_item) (p : option Z) (xs : list (Z * Z)) (q : option Z) : Prop :=
  match xs with
  | [] => p = q
  | (a, d) :: xs' => p = Some a /\ exists n, h !! a = Some (mkItem n d) /\ lseg h n xs' q
  end.

Definition list_repr (h : gmap Z list_item) (l : zbx_list) (xs : list (Z * Z)) : Prop :=
  lseg h (head l) xs None /\ NoDup xs.*1 /\ tail l = last xs.*1.

(** The store outside the list's own items is untouched. *)
Definition frame (own : list Z) (h h' : gmap Z list_item) : Prop :=
  forall a, a ∉ own -> h' !! a = h !! a.

Lemma lseg_app (h : gmap Z list_item) (p q : option Z) (xs ys : list (Z * Z)) :
  lseg h p (xs ++ ys) q <-> exists r, lseg h p xs r /\ lseg h r ys q.
Proof.
  revert p. induction xs as [|[a d] xs IH]; intros p; simpl.
  - split; [intros; by exists p | by intros (r & -> & ?)].
  - split.
    + intros (-> & n & Ha & (r & H1 & H2)%IH). exists r. eauto.
    + intros (r & (-> & n & Ha & H1) & H2). split; [done|]. exists n. split; [done|]. apply IH. eauto.
Qed.

Lemma lseg_frame (h h' : gmap Z list_item) (p q : option Z) (xs : list (Z * Z)) :
  (forall a, a ∈ xs.*1 -> h' !! a = h !! a) -> lseg h p xs q -> lseg h' p xs q.
Proof.
  revert p. induction xs as [|[a d] xs IH]; intros p Hf; simpl; [done|].
  intros (-> & n & Ha & Hs). split; [done|]. exists n. split.
  - rewrite Hf; [done|set_solver].
  - apply IH; [set_solver|done].
Qed.

Lemma lseg_lookup (h : gmap Z list_item) (p q : option Z) (xs : list (Z * Z)) (a : Z) :
  lseg h p xs q -> a ∈ xs.*1 -> is_Some (h !! a).
Proof.
  revert p. induction xs as [|[b d] xs IH]; intros p; simpl; [set_solver|].
  intros (-> & n & Hb & Hs) [-> | Hin]%elem_of_cons; eauto.
Qed.

(** A disjoint list is not affected by what an operation does to its own. *)
Lemma list_repr_frame (h h' : gmap Z list_item) (l : zbx_list) (own : list Z) (ys : list (Z * Z)) :
  frame own h h' -> (forall a, a ∈ ys.*1 -> a ∉ own) -> list_repr h l ys -> list_repr h' l ys.
Proof.
  intros Hf Hd (Hs & Hn & Ht). split; [|done]. eapply lseg_frame; [|done]. eauto.
Qed.

Lemma lseg_None (h : gmap Z list_item) (xs : list (Z * Z)) : lseg h None xs None -> xs = [].
Proof. destruct xs as [|[a d] xs]; [done|]. by intros [? _]. Qed.

(** Removing from or adding to the store a cell outside the segment. *)
Lemma lseg_delete (h : gmap Z list_item) (p q : option Z) (xs : list (Z * Z)) (a : Z) :
  a ∉ xs.*1 -> lseg h p xs q -> lseg (delete a h) p xs q.
Proof.
  intros Ha. apply lseg_frame. intros b Hb. apply lookup_delete_ne. by intros ->.
Qed.

Lemma lseg_insert (h : gmap Z list_item) (p q : option Z) (xs : list (Z * Z)) (a : Z) (i : list_item) :
  a ∉ xs.*1 -> lseg h p xs q -> lseg (<[a := i]> h) p xs q.
Proof.
  intros Ha. apply lseg_frame. intros b Hb. apply lookup_insert_ne. by intros ->.
Qed.

Create HintDb llist.
#[export] Hint Resolve lseg_insert lseg_delete : llist.

(* ------------------------------------------------------------------ *)
(** ** Operations *)

(** A malloc callback returns an address not in use. *)
Definition malloc_ok (l : zbx_list) : Prop :=
  forall h a, mem_malloc_func l h = Some a -> h !! a = None.

Lemma repr_fresh (h : gmap Z list_item) (l : zbx_list) (xs : list (Z * Z)) (a : Z) :
  list_repr h l xs -> h !! a = None -> a ∉ xs.*1.
Proof.
  intros (Hs & _ & _) Ha Hin. destruct (lseg_lookup _ _ _ _ _ Hs Hin) as [? E]. congruence.
Qed.

Lemma insert_after_node (h : gmap Z list_item) (l : zbx_list) (x1 x2 : list (Z * Z)) (p d a v : Z) :
  malloc_ok l -> list_repr h l (x1 ++ (p, d) :: x2) -> mem_malloc_func l h = Some a ->
  exists h' l', zbx_list_insert_after h l (Some p) v = Ret (Some a, h', l') /\
    list_repr h' l' (x1 ++ (p, d) :: (a, v) :: x2) /\ frame [p; a] h h' /\
    mem_malloc_func l' = mem_malloc_func l.
Proof.
  intros Hm Hr Ha. pose proof (Hm _ _ Ha) as Hnone. pose proof (repr_fresh _ _ _ _ Hr Hnone) as Hfresh.
  destruct Hr as (Hs & Hn & Ht). rewrite fmap_app, fmap_cons in *. simpl in *.
  apply lseg_app in Hs as (r & Hs1 & -> & n & Hp & Hs2).
  assert (Hpa : p <> a) by set_solver.
  unfold zbx_list_insert_after, list_create_item. rewrite Ha. simpl.
  rewrite (lookup_insert_ne h a p), Hp by congruence. cbn [mbind res_bind set_next next].
  rewrite lookup_insert_eq. cbn [mbind res_bind set_next data].
  rewrite !(lookup_insert_ne _ a p), Hp by congruence. cbn [mbind res_bind data].
  apply NoDup_app in Hn as (Hn1 & Hdisj & Hn2). apply NoDup_cons in Hn2 as [Hpx Hn2].
  eexists _, _. split; [done|]. split_and!.
  - assert (Hseg : lseg (<[p:=mkItem (Some a) d]> (<[a:=mkItem n v]> (<[a:=mkItem None v]> h))) (head l)
                     (x1 ++ (p, d) :: (a, v) :: x2) None).
    { apply lseg_app. exists (Some p). split; [by repeat apply lseg_insert; try set_solver|].
      simpl. split; [done|]. exists (Some a). split; [apply lookup_insert_eq|]. split; [done|].
      exists n. rewrite lookup_insert_ne, lookup_insert_eq by congruence. split; [done|].
      repeat apply lseg_insert; set_solver. }
    assert (Hnd : NoDup (x1 ++ (p, d) :: (a, v) :: x2).*1).
    { rewrite fmap_app, !fmap_cons. simpl. apply NoDup_app. split_and!; [done | set_solver |].
      apply NoDup_cons. split; [set_solver|]. apply NoDup_cons. set_solver. }
    case_decide as Htl; (split; [exact Hseg | split; [exact Hnd|]]);
      rewrite fmap_app, !fmap_cons, last_app_cons; simpl; rewrite Ht, last_app_cons in Htl.
    + simpl in Htl. destruct x2 as [|[b e] x2]; [done|]. exfalso. apply Hpx.
      change (Some p = last ((b, e) :: x2).*1) in Htl. symmetry in Htl. apply last_Some_elem_of in Htl. exact Htl.
    + rewrite Ht, last_app_cons. destruct x2; [done|]. done.
  - intros b Hb. rewrite !lookup_insert_ne by set_solver. done.
  - by case_decide.
Qed.

Lemma insert_after_tail (h : gmap Z list_item) (l : zbx_list) (p v : Z) :
  tail l = Some p -> zbx_list_insert_after h l None v = zbx_list_insert_after h l (Some p) v.
Proof.
  intros Ht. unfold zbx_list_insert_after. destruct (list_create_item h l v) as [[a|] h']; [|done].
  by rewrite Ht.
Qed.

Lemma append_repr (h : gmap Z list_item) (l : zbx_list) (xs : list (Z * Z)) (a v : Z) :
  malloc_ok l -> list_repr h l xs -> mem_malloc_func l h = Some a ->
  exists h' l', zbx_list_append h l v = Ret (Some a, h', l') /\
    list_repr h' l' (xs ++ [(a, v)]) /\ frame (a :: xs.*1) h h' /\
    mem_malloc_func l' = mem_malloc_func l.
Proof.
  intros Hm Hr Ha. unfold zbx_list_append.
  destruct xs as [|[p d] x1 _] using rev_ind.
  - destruct Hr as (Hs & Hn & Ht). simpl in *.
    unfold zbx_list_insert_after, list_create_item. rewrite Ha, Ht. cbn [mbind res_bind].
    cbn [tail set_head]. rewrite Ht. rewrite decide_True by done.
    eexists _, _. split; [done|]. split_and!; [|intros b Hb; by rewrite lookup_insert_ne by set_solver|done].
    split; [|split; [repeat constructor; set_solver|done]]. simpl. split; [done|].
    exists None. by rewrite lookup_insert_eq.
  - assert (Ht : tail l = Some p).
    { destruct Hr as (_ & _ & ->). by rewrite fmap_app, fmap_cons, last_app_cons. }
    rewrite (insert_after_tail h l p v Ht).
    destruct (insert_after_node h l x1 [] p d a v Hm Hr Ha) as (h' & l' & E & Hr' & Hf & Hm').
    exists h', l'. rewrite <- app_assoc. split_and!; try done.
    intros b Hb. apply Hf. rewrite fmap_app in Hb. set_solver.
Qed.

Lemma prepend_repr (h : gmap Z list_item) (l : zbx_list) (xs : list (Z * Z)) (a v : Z) :
  malloc_ok l -> list_repr h l xs -> mem_malloc_func l h = Some a ->
  exists h' l', zbx_list_prepend h l v = Ret (Some a, h', l') /\
    list_repr h' l' ((a, v) :: xs) /\ frame [a] h h'.
Proof.
  intros Hm Hr Ha. pose proof (Hm _ _ Ha) as Hnone. pose proof (repr_fresh _ _ _ _ Hr Hnone) as Hfresh.
  destruct Hr as (Hs & Hn & Ht). unfold zbx_list_prepend, list_create_item. rewrite Ha.
  cbn [set_next]. rewrite lookup_insert_eq. cbn [mbind res_bind data].
  eexists _, _. split; [done|]. split; [|intros b Hb; by rewrite !lookup_insert_ne by set_solver].
  assert (Hseg : lseg (<[a:=mkItem (head l) v]> (<[a:=mkItem None v]> h)) (Some a) ((a, v) :: xs) None).
  { simpl. split; [done|]. exists (head l). rewrite lookup_insert_eq. split; [done|].
    by repeat apply lseg_insert. }
  assert (Hnd : NoDup ((a, v) :: xs).*1) by (rewrite fmap_cons; apply NoDup_cons; done).
  cbn [tail set_head]. destruct (tail l) as [t|] eqn:Etl; (split; [exact Hseg | split; [exact Hnd|]]);
    rewrite fmap_cons, last_cons; cbn [tail set_tail set_head]; rewrite <- Ht, ?Etl; done.
Qed.

(** The three ways the functions report an allocation failure: nothing changes. *)
Lemma malloc_failure (h : gmap Z list_item) (l : zbx_list) (after : option Z) (v : Z) :
  mem_malloc_func l h = None ->
  zbx_list_insert_after h l after v = Ret (None, h, l) /\
  zbx_list_append h l v = Ret (None, h, l) /\ zbx_list_prepend h l v = Ret (None, h, l).
Proof.
  intros Hnone. unfold zbx_list_append, zbx_list_prepend, zbx_list_insert_after, list_create_item.
  by rewrite Hnone.
Qed.

Lemma pop_list_repr (h : gmap Z list_item) (l : zbx_list) (xs : list (Z * Z)) :
  list_repr h l xs ->
  match xs with
  | [] => zbx_list_pop h l = Ret (None, h, l)
  | (a, d) :: xs' => exists l', zbx_list_pop h l = Ret (Some d, delete a h, l') /\
                      list_repr (delete a h) l' xs' /\ mem_malloc_func l' = mem_malloc_func l
  end.
Proof.
  intros (Hs & Hn & Ht). unfold zbx_list_pop. destruct xs as [|[a d] xs]; simpl in *; [by rewrite Hs|].
  destruct Hs as (-> & n & Ha & Hs). apply NoDup_cons in Hn as [Hax Hn].
  rewrite Ha. cbn [mbind res_bind data next head set_head].
  eexists. split; [done|]. split; [|by destruct n].
  assert (Hseg : lseg (delete a h) n xs None) by eauto with llist.
  destruct n as [n|]; (split; [done|]; split; [done|]); cbn [tail set_head set_tail].
  - rewrite Ht. destruct xs as [|[b e] xs]; [simpl in Hs; discriminate|]. done.
  - apply lseg_None in Hs as ->. done.
Qed.

(** zbx_list_insert_after puts the value right after the given item (at
    the end when the position is NULL), keeps head and tail consistent,
    touches no other item, and changes nothing when allocation fails. *)
Theorem list_insert_after_correct (h : gmap Z list_item) (l : zbx_list)
    (x1 x2 : list (Z * Z)) (p d v : Z) :
  malloc_ok l -> list_repr h l (x1 ++ (p, d) :: x2) ->
  match mem_malloc_func l h with
  | Some a =>
      (exists h' l', zbx_list_insert_after h l (Some p) v = Ret (Some a, h', l') /\
         list_repr h' l' (x1 ++ (p, d) :: (a, v) :: x2) /\ frame [p; a] h h') /\
      (exists h' l', zbx_list_insert_after h l None v = Ret (Some a, h', l') /\
         list_repr h' l' ((x1 ++ (p, d) :: x2) ++ [(a, v)]))
  | None => zbx_list_insert_after h l (Some p) v = Ret (None, h, l) /\
            zbx_list_insert_after h l None v = Ret (None, h, l)
  end.
Proof.
  intros Hm Hr. destruct (mem_malloc_func l h) as [a|] eqn:Ha.
  - split.
    + destruct (insert_after_node h l x1 x2 p d a v Hm Hr Ha) as (h' & l' & E & Hr' & Hf & _). by exists h', l'.
    + destruct (append_repr h l _ a v Hm Hr Ha) as (h' & l' & E & Hr' & _). by exists h', l'.
  - destruct (malloc_failure h l (Some p) v Ha) as (E & _). destruct (malloc_failure h l None v Ha) as (E' & _). done.
Qed.

(** An allocator for concrete runs: the least address above all used ones. *)
Definition bump (h : gmap Z list_item) : option Z :=
  Some (1 + map_fold (fun a _ m => Z.max a m) 0 h).

Lemma bump_ok (addr : Z) (hd tl : option Z) : malloc_ok (mkList addr hd tl bump).
Proof.
  intros h a [= <-]. apply not_elem_of_dom. intros Hin.
  assert (Hmax : forall a, a ∈ dom h -> a <= map_fold (fun a _ m => Z.max a m) 0 h).
  { clear Hin. induction h as [|i x h Hi Hfold IH] using map_first_key_ind; [set_solver|].
    intros a. rewrite dom_insert, elem_of_union, elem_of_singleton.
    rewrite map_fold_insert_first_key by done. intros [-> | Ha]; [lia|]. specialize (IH a Ha). lia. }
  specialize (Hmax _ Hin). lia.
Qed.

Definition demo_heap : gmap Z list_item :=
  {[ 1 := mkItem (Some 2) 10; 2 := mkItem None 20 ]}.
Definition demo_list : zbx_list := mkList 100 (Some 1) (Some 2) bump.

Lemma demo_repr : list_repr demo_heap demo_list [(1, 10); (2, 20)].
Proof. split_and!; [by repeat (split; [done|]; eexists; split; [reflexivity|]) | | done].
  repeat constructor; set_solver. Qed.

Lemma list_insert_after_correct_witness :
  exists h' l', zbx_list_insert_after demo_heap demo_list (Some 1) 15 = Ret (Some 3, h', l') /\
    list_repr h' l' [(1, 10); (3, 15); (2, 20)].
Proof.
  pose proof (list_insert_after_correct demo_heap demo_list [] [(2, 20)] 1 10 15
    (bump_ok 100 _ _) demo_repr) as H.
  change (mem_malloc_func demo_list demo_heap) with (Some 3) in H. cbn iota in H.
  destruct H as [(h' & l' & E & Hr & _) _]. exists h', l'. split; [exact E | exact Hr].
Defined.

(* ------------------------------------------------------------------ *)
(** ** Destruction *)

(** zbx_list_destroy terminates, leaves the list empty and frees exactly
    the items of the list: every other address keeps its contents. *)
Theorem list_destroy_frees (h : gmap Z list_item) (l : zbx_list) (xs : list (Z * Z)) :
  Z.of_nat (length xs) < 2 ^ 64 -> list_repr h l xs ->
  exists h' l', zbx_list_destroy h l = Ret (h', l') /\ list_repr h' l' [] /\
    forall a, h' !! a = if decide (a ∈ xs.*1) then None else h !! a.
Proof.
  intros Hlen Hr. set (freed (ys : list (Z * Z)) (h' : gmap Z list_item) :=
    forall a, h' !! a = if decide (a ∈ ys.*1) then None else h !! a).
  enough (exists r, zbx_list_destroy h l = Ret r /\ list_repr r.1 r.2 [] /\ freed xs r.1)
    as ([h' l'] & E & Hr' & Hf) by (exists h', l'; done).
  unfold zbx_list_destroy.
  apply (while_rank destroy_body (fun n s => exists ys zs, xs = ys ++ zs /\
      n = Z.of_nat (length zs) /\ list_repr s.1 s.2 zs /\ freed ys s.1)) with (n := Z.of_nat (length xs)).
  - intros n [h1 l1] (ys & zs & -> & -> & Hr1 & Hf). unfold destroy_body. cbn [fst snd] in *.
    pose proof (pop_list_repr h1 l1 zs Hr1) as Hp. destruct zs as [|[a d] zs].
    + right. rewrite Hp. cbn [mbind res_bind]. eexists. split; [done|]. cbn [fst snd].
      by rewrite app_nil_r.
    + left. destruct Hp as (l2 & -> & Hr2 & _). cbn [mbind res_bind].
      exists (delete a h1, l2), (Z.of_nat (length zs)). split; [done|]. split; [|simpl; lia].
      exists (ys ++ [(a, d)]), zs. split_and!; [by rewrite <- app_assoc | done | done |].
      intros b. cbn [fst]. rewrite fmap_app, fmap_cons. cbn [fst fmap list_fmap].
      destruct (decide (b = a)) as [-> | Hne].
      * rewrite lookup_delete_eq, decide_True by set_solver. done.
      * rewrite lookup_delete_ne, (Hf b) by congruence. apply decide_ext. set_solver.
  - exists [], xs. split_and!; done.
  - done.
Qed.

Lemma list_destroy_frees_witness :
  exists h' l', zbx_list_destroy demo_heap demo_list = Ret (h', l') /\ list_repr h' l' [] /\
    forall a, h' !! a = if decide (a ∈ [1; 2]) then None else demo_heap !! a.
Proof. apply (list_destroy_frees demo_heap demo_list [(1, 10); (2, 20)]); [done | apply demo_repr]. Defined.

(* ------------------------------------------------------------------ *)
(** ** Iteration *)

(** The iterator stands on the item before [x2], i.e. after [x1]. *)
Definition iter_at (l : zbx_list) (it : zbx_list_iterator) (x1 x2 : list (Z * Z)) : Prop :=
  ilist it = Some (self l) /\ current it = last x1.*1 /\ inext it = fst <$> list.head x2.

Lemma lseg_head (h : gmap Z list_item) (p : option Z) (xs : list (Z * Z)) :
  lseg h p xs None -> p = fst <$> list.head xs.
Proof. destruct xs as [|[a d] xs]; [done|]. by intros [-> _]. Qed.

Lemma repr_node (h : gmap Z list_item) (l : zbx_list) (x1 x2 : list (Z * Z)) (a d : Z) :
  list_repr h l (x1 ++ (a, d) :: x2) -> h !! a = Some (mkItem (fst <$> list.head x2) d).
Proof.
  intros (Hs & _ & _). apply lseg_app in Hs as (r & _ & -> & n & Ha & Hs).
  by rewrite Ha, (lseg_head _ _ _ Hs).
Qed.

Lemma iterator_init_at (h : gmap Z list_item) (l : zbx_list) (xs : list (Z * Z)) :
  list_repr h l xs -> iter_at l (zbx_list_iterator_init l) [] xs.
Proof. intros (Hs & _ & _). split_and!; try done. simpl. by apply lseg_head in Hs. Qed.

Lemma iterator_next_at (h : gmap Z list_item) (l : zbx_list) (it : zbx_list_iterator)
    (x1 x2 : list (Z * Z)) (a d : Z) :
  list_repr h l (x1 ++ (a, d) :: x2) -> iter_at l it x1 ((a, d) :: x2) ->
  exists it', zbx_list_iterator_next h it = Ret (true, it') /\ iter_at l it' (x1 ++ [(a, d)]) x2 /\
    zbx_list_iterator_peek h it' = Ret (Some d).
Proof.
  intros Hr (Hi & Hc & Hn). simpl in Hn. pose proof (repr_node _ _ _ _ _ _ Hr) as Ha.
  unfold zbx_list_iterator_next. rewrite Hn. simpl. rewrite Ha. cbn [mbind res_bind next].
  eexists. split; [done|]. split.
  - split_and!; simpl; [done | | done]. rewrite fmap_app. symmetry. apply last_snoc.
  - unfold zbx_list_iterator_peek. simpl. by rewrite Ha.
Qed.

(** The loop every user of the iterator runs: peek after each successful next. *)
Definition collect_body (h : gmap Z list_item) (s : zbx_list_iterator * list Z)
  : res (zbx_list_iterator * list Z + list Z) :=
  '(more, it) ← zbx_list_iterator_next h s.1;
  if more : bool then
    v ← zbx_list_iterator_peek h it;
    match v with Some d => Ret (inl (it, s.2 ++ [d])) | None => Undef end
  else Ret (inr s.2).

(** an iterator started on a list visits every item exactly once, in list
    order, and then reports the end. *)
Theorem list_iteration_complete (h : gmap Z list_item) (l : zbx_list) (xs : list (Z * Z)) :
  Z.of_nat (length xs) < 2 ^ 64 -> list_repr h l xs ->
  while 64 (collect_body h) (zbx_list_iterator_init l, []) = Ret xs.*2.
Proof.
  intros Hlen Hr.
  destruct (while_rank (collect_body h) (fun n s => exists x1 x2, xs = x1 ++ x2 /\
      n = Z.of_nat (length x2) /\ iter_at l s.1 x1 x2 /\ s.2 = x1.*2) (fun r => r = xs.*2))
    with (k := 64%nat) (n := Z.of_nat (length xs)) (s := (zbx_list_iterator_init l, [] : list Z))
    as (r & E & ->); [| |done|done].
  - intros n [it acc] (x1 & x2 & -> & -> & Hi & Hacc). unfold collect_body. cbn [fst snd] in *.
    destruct x2 as [|[a d] x2].
    + right. destruct Hi as (_ & _ & Hn). simpl in Hn. unfold zbx_list_iterator_next. rewrite Hn.
      cbn [mbind res_bind]. eexists. split; [done|]. by rewrite app_nil_r.
    + left. destruct (iterator_next_at h l it x1 x2 a d Hr Hi) as (it' & -> & Hi' & Hpk).
      cbn [mbind res_bind]. rewrite Hpk. cbn [mbind res_bind].
      exists (it', acc ++ [d]), (Z.of_nat (length x2)). split; [done|]. split; [|simpl; lia].
      exists (x1 ++ [(a, d)]), x2. rewrite <- app_assoc, fmap_app, Hacc. done.
  - exists [], xs. split_and!; try done. by apply (iterator_init_at h).
Qed.

Lemma list_iteration_complete_witness :
  while 64 (collect_body demo_heap) (zbx_list_iterator_init demo_list, []) = Ret [10; 20].
Proof. apply (list_iteration_complete demo_heap demo_list [(1, 10); (2, 20)]); [done | apply demo_repr]. Defined.

(** zbx_list_iterator_remove_next unlinks and frees the item after the
    current one, moves the tail back when it was the last, and leaves the
    iterator on the current item; at the end of the list it does nothing. *)
Theorem iterator_remove_next_correct (h : gmap Z list_item) (l : zbx_list) (it : zbx_list_iterator)
    (x1 x2 : list (Z * Z)) (c d : Z) :
  list_repr h l (x1 ++ (c, d) :: x2) -> iter_at l it (x1 ++ [(c, d)]) x2 ->
  match x2 with
  | [] => zbx_list_iterator_remove_next h l it = Ret (None, h, l, it)
  | (n, e) :: x3 =>
      exists h' l' it', zbx_list_iterator_remove_next h l it = Ret (Some e, h', l', it') /\
        list_repr h' l' (x1 ++ (c, d) :: x3) /\ iter_at l' it' (x1 ++ [(c, d)]) x3 /\
        h' !! n = None
  end.
Proof.
  intros Hr Hit. destruct Hit as (Hi & Hc & Hn). rewrite fmap_app, fmap_cons, last_app_cons in Hc.
  simpl in Hc. unfold zbx_list_iterator_remove_next. rewrite Hc, Hn.
  destruct x2 as [|[n e] x3]; [done|]. simpl.
  pose proof (repr_node _ _ _ _ _ _ Hr) as Hhc.
  rewrite cons_middle, app_assoc in Hr. pose proof (repr_node _ _ _ _ _ _ Hr) as Hhn.
  rewrite <- app_assoc in Hr. rewrite Hhn. cbn [mbind res_bind next data set_next].
  rewrite Hhc. cbn [mbind res_bind data].
  destruct Hr as (Hs & Hnd & Htl). rewrite !fmap_app, !fmap_cons in Hnd. simpl in Hnd.
  apply NoDup_app in Hnd as (Hn1 & Hd1 & Hn2). apply NoDup_cons in Hn2 as [Hcn Hn2].
  apply NoDup_cons in Hn2 as [Hnx Hn2].
  apply lseg_app in Hs as (r & Hs1 & Hs2). simpl in Hs2.
  destruct Hs2 as (-> & n1 & Hc1 & -> & n2 & Hn2' & Hs3).
  rewrite Hhn in Hn2'. injection Hn2' as <-.
  eexists _, _, _. split; [done|]. rewrite lookup_delete_eq.
  assert (Hseg : lseg (delete n (<[c:=mkItem (fst <$> list.head x3) d]> h)) (head l) (x1 ++ (c, d) :: x3) None).
  { apply lseg_app. exists (Some c). split.
    - apply lseg_delete; [set_solver|]. apply lseg_insert; [set_solver|done].
    - simpl. split; [done|]. exists (fst <$> list.head x3). split.
      + rewrite lookup_delete_ne, lookup_insert_eq by set_solver. done.
      + apply lseg_delete; [set_solver|]. apply lseg_insert; [set_solver|done]. }
  assert (Hnd : NoDup (x1 ++ (c, d) :: x3).*1).
  { rewrite fmap_app, fmap_cons. simpl. apply NoDup_app. split_and!; [done | set_solver |].
    apply NoDup_cons. set_solver. }
  split; [|split; [|done]].
  - change (tail l = last (x1 ++ (c, d) :: (n, e) :: x3).*1) in Htl. rewrite fmap_app, !fmap_cons, last_app_cons in Htl. simpl in Htl.
    case_decide as Ht; (split; [exact Hseg | split; [exact Hnd|]]);
      rewrite fmap_app, fmap_cons, last_app_cons; cbn [tail set_tail].
    + rewrite Htl in Ht. destruct x3 as [|[b f] x3]; [done|]. exfalso. apply Hnx.
      change (last ((b, f) :: x3).*1 = Some n) in Ht. by apply last_Some_elem_of in Ht.
    + rewrite Htl. destruct x3 as [|[b f] x3]; [|done]. by rewrite Htl in Ht.
  - split_and!; [by case_decide | | done]. cbn [current].
    by rewrite fmap_app, fmap_cons, last_app_cons.
Qed.

Lemma iterator_remove_next_correct_witness :
  exists h' l' it', zbx_list_iterator_remove_next demo_heap demo_list (mkIter (Some 100) (Some 1) (Some 2))
      = Ret (Some 20, h', l', it') /\
    list_repr h' l' [(1, 10)] /\ iter_at l' it' [(1, 10)] [] /\ h' !! 2 = None.
Proof.
  apply (iterator_remove_next_correct demo_heap demo_list _ [] [(2, 20)] 1 10 demo_repr). done.
Defined.
