(* ===== verification/KeyIndex.v ===== *)
(** The interface between the indexed binary heap and the hashmap that
    remembers where each key sits: the operations of zbx_hashmap_t used by
    src/src/libs/zbxalgo/binaryheap.c and the laws the heap relies on. *)

From stdpp Require Import base gmap numbers.
From Stdlib Require Import ZArith Lia.
From S2P Require Import Prelude.

Open Scope Z_scope.

(** SUCCEED and FAIL of the code. *)
Definition SUCCEED : Z := 0.
Definition FAIL : Z := -1.

(** Operations on an index from 64-bit keys to int values. *)
Class KeyIndexOps (I : Type) : Type := {
  ki_create : Z -> res I;
  ki_get : I -> Z -> res Z;
  ki_set : I -> Z -> Z -> res I;
  ki_remove : I -> Z -> res I;
  ki_clear : I -> res I
}.

(** [ki_repr i m]: the index [i] holds exactly the bindings of [m];
    [ki_room i]: one more key can be added without an int overflow. *)
Class KeyIndex (I : Type) `{KeyIndexOps I} : Type := {
  ki_repr : I -> gmap Z Z -> Prop;
  ki_room : I -> Prop;
  ki_create_ok : forall n, 0 <= n <= 2 ^ 30 -> exists i, ki_create n = Ret i /\ ki_repr i ∅;
  ki_get_ok : forall i m k, ki_repr i m -> ki_get i k = Ret (default FAIL (m !! k));
  ki_update_ok : forall i m k v, ki_repr i m -> is_Some (m !! k) ->
    exists i', ki_set i k v = Ret i' /\ ki_repr i' (<[k := v]> m) /\ (ki_room i -> ki_room i');
  ki_add_ok : forall i m k v, ki_repr i m -> ki_room i -> m !! k = None ->
    exists i', ki_set i k v = Ret i' /\ ki_repr i' (<[k := v]> m);
  ki_remove_ok : forall i m k, ki_repr i m ->
    exists i', ki_remove i k = Ret i' /\ ki_repr i' (delete k m);
  ki_clear_ok : forall i m, ki_repr i m -> exists i', ki_clear i = Ret i' /\ ki_repr i' ∅
}.
