(* ===== verification/Hashmap.v ===== *)
(** The hashmap from 64-bit keys to ints: src/src/libs/zbxalgo/hashmap.c.
    Chains are arrays that grow by doubling, removal moves the last entry of
    the chain, and the rehash moves entries between chains in place. *)

From stdpp Require Import base gmap list numbers sets.
From Stdlib Require Import ZArith Lia.
From S2P Require Import Prelude Algo KeyIndex.

Open Scope Z_scope.

(** ZBX_HASHMAP_SLOT_T: [entries] are the first [entries_num] cells of an
    array of [entries_alloc] (0 for the NULL array). *)
Record slot : Type := mkSlot { entries : list (Z * Z); entries_alloc : nat }.

(** zbx_hashmap_t; num_slots is the length of the slot array. *)
Record hashmap : Type := mkHashmap { slots : list slot; num_data : Z }.

Definition entries_num (sl : slot) : nat := length (entries sl).
Definition num_slots (hm : hashmap) : Z := Z.of_nat (length (slots hm)).

(** The cleared slot the memset of a fresh array leaves. *)
Definition empty_slot : slot := mkSlot [] 0.

Definition ZBX_HASHMAP_DEFAULT_SLOTS : Z := 10.

Section Hashmap.
(** The hash callback of the map (hash_func of zbx_hashmap_t); keys are
    compared with the default comparison of 64-bit integers. *)
Context (hash_func : Z -> Z).

Definition __hashmap_ensure_free_entry (sl : slot) : slot :=
  if (entries_alloc sl =? 0)%nat then mkSlot [] 6
  else if (entries_num sl =? entries_alloc sl)%nat then mkSlot (entries sl) (entries_alloc sl * 2)
  else sl.

(** slot->entries[slot->entries_num] = e; slot->entries_num++. *)
Definition slot_append (sl : slot) (e : Z * Z) : res slot :=
  if (entries_num sl <? entries_alloc sl)%nat
  then Ret (mkSlot (entries sl ++ [e]) (entries_alloc sl)) else Undef.

(** slot->entries[i] = slot->entries[slot->entries_num - 1]; slot->entries_num--. *)
Definition slot_remove (sl : slot) (i : nat) : res slot :=
  match entries sl !! (entries_num sl - 1)%nat with
  | Some e => Ret (mkSlot (take (entries_num sl - 1) (<[i := e]> (entries sl))) (entries_alloc sl))
  | None => Undef
  end.

Definition slot_at (sls : list slot) (j : Z) : res slot :=
  match sls !! Z.to_nat j with Some sl => Ret sl | None => Undef end.

Definition zbx_hashmap_init_slots (init_size : Z) : res hashmap :=
  if 0 <? init_size then
    n ← next_prime init_size;
    Ret (mkHashmap (replicate (Z.to_nat n) empty_slot) 0)
  else Ret (mkHashmap [] 0).

Definition zbx_hashmap_create_ext (init_size : Z) : res hashmap :=
  zbx_hashmap_init_slots init_size.

Definition zbx_hashmap_destroy (hm : hashmap) : hashmap := mkHashmap [] 0.

(** The scan of a chain: offset of the first entry with the key. *)
Fixpoint find_entry (l : list (Z * Z)) (key : Z) : option nat :=
  match l with
  | [] => None
  | e :: l' => if e.1 =? key then Some 0%nat else S <$> find_entry l' key
  end.

Definition zbx_hashmap_get (hm : hashmap) (key : Z) : res Z :=
  if num_slots hm =? 0 then Ret FAIL else
  sl ← slot_at (slots hm) (hash_func key mod num_slots hm);
  Ret (match find_entry (entries sl) key with
       | Some i => match entries sl !! i with Some e => e.2 | None => FAIL end
       | None => FAIL
       end).

(** The inner loop of the rehash over chain [s] from position [i]. *)
Fixpoint rehash_slot (fuel : nat) (sls : list slot) (inc_slots : Z) (s i : nat) : res (list slot) :=
  sl ← slot_at sls (Z.of_nat s);
  match entries sl !! i with
  | None => Ret sls
  | Some e =>
      match fuel with
      | O => NoFuel
      | S fuel =>
          let t := Z.to_nat (hash_func e.1 mod inc_slots) in
          if (s =? t)%nat then rehash_slot fuel sls inc_slots s (S i) else
          new_slot ← slot_at sls (Z.of_nat t);
          new_slot ← slot_append (__hashmap_ensure_free_entry new_slot) e;
          sl ← slot_remove sl i;
          rehash_slot fuel (<[s := sl]> (<[t := new_slot]> sls)) inc_slots s i
      end
  end.

(** The outer loop: chains [s], [s+1], ... of the [n] old ones that are left. *)
Fixpoint rehash_slots (n : nat) (sls : list slot) (inc_slots : Z) (s : nat) : res (list slot) :=
  match n with
  | O => Ret sls
  | S n =>
      sl ← slot_at sls (Z.of_nat s);
      sls ← rehash_slot (entries_num sl) sls inc_slots s 0;
      rehash_slots n sls inc_slots (S s)
  end.

Definition zbx_hashmap_set (hm : hashmap) (key value : Z) : res hashmap :=
  hm ← (if num_slots hm =? 0 then zbx_hashmap_init_slots ZBX_HASHMAP_DEFAULT_SLOTS else Ret hm);
  let h := hash_func key mod num_slots hm in
  sl ← slot_at (slots hm) h;
  match find_entry (entries sl) key with
  | Some i =>
      let sl := mkSlot (alter (fun e => (e.1, value)) i (entries sl)) (entries_alloc sl) in
      Ret (mkHashmap (<[Z.to_nat h := sl]> (slots hm)) (num_data hm))
  | None =>
      sl ← slot_append (__hashmap_ensure_free_entry sl) (key, value);
      let sls := <[Z.to_nat h := sl]> (slots hm) in
      num ← c_int (num_data hm + 1);
      limit ← c_int (num_slots hm * 5);
      if limit / 1 <=? num then
        grown ← c_int (num_slots hm * 3);
        inc_slots ← next_prime (grown / 2);
        let sls := sls ++ replicate (Z.to_nat inc_slots - length sls) empty_slot in
        sls ← rehash_slots (length (slots hm)) sls inc_slots 0;
        Ret (mkHashmap sls num)
      else Ret (mkHashmap sls num)
  end.

Definition zbx_hashmap_remove (hm : hashmap) (key : Z) : res hashmap :=
  if num_slots hm =? 0 then Ret hm else
  let h := hash_func key mod num_slots hm in
  sl ← slot_at (slots hm) h;
  match find_entry (entries sl) key with
  | Some i =>
      sl ← slot_remove sl i;
      Ret (mkHashmap (<[Z.to_nat h := sl]> (slots hm)) (num_data hm - 1))
  | None => Ret hm
  end.

Definition zbx_hashmap_clear (hm : hashmap) : hashmap :=
  mkHashmap ((fun sl => mkSlot [] (entries_alloc sl)) <$> slots hm) 0.

(* ------------------------------------------------------------------ *)
(** ** Representation *)

Definition all_entries (sls : list slot) : list (Z * Z) := concat (entries <$> sls).

(** An array is allocated and not overrun. *)
Definition slot_ok (sl : slot) : Prop := (entries_num sl <= entries_alloc sl)%nat.

(** Chain [j] of [n] holds keys that hash to [j]. *)
Definition placed (n : Z) (j : nat) (sl : slot) : Prop :=
  slot_ok sl /\ Forall (fun e => Z.to_nat (hash_func e.1 mod n) = j) (entries sl).

Definition slots_ok (n : Z) (sls : list slot) : Prop :=
  forall j sl, sls !! j = Some sl -> placed n j sl.

(** The map holds the bindings of [m], each in its chain, and is loaded with
    less than five entries per chain. *)
Record hm_repr (hm : hashmap) (m : gmap Z Z) : Prop := {
  repr_slots : slots_ok (num_slots hm) (slots hm);
  repr_perm : all_entries (slots hm) ≡ₚ map_to_list m;
  repr_data : num_data hm = Z.of_nat (size m);
  repr_load : (num_slots hm = 0 /\ m = ∅) \/ (2 <= num_slots hm /\ num_data hm < 5 * num_slots hm);
  repr_bound : num_slots hm <= prime_bound
}.

(** Room for one more key without overflowing num_slots * 5. *)
Definition hm_room (hm : hashmap) : Prop := num_slots hm * 5 < 2 ^ 31.

(* ------------------------------------------------------------------ *)
(** ** Chains *)

Lemma all_entries_split (sls : list slot) (j : nat) (sl : slot) :
  sls !! j = Some sl ->
  exists rest, all_entries sls ≡ₚ entries sl ++ rest /\
    forall sl', all_entries (<[j := sl']> sls) ≡ₚ entries sl' ++ rest.
Proof.
  intros Hj. destruct (list_elem_of_split_length _ _ _ Hj) as (l1 & l2 & -> & ->).
  exists (all_entries l1 ++ all_entries l2). unfold all_entries. split; [|intros sl'; rewrite list_insert_split];
    rewrite fmap_app, fmap_cons, concat_app; cbn [concat]; apply Permutation_app_swap_app.
Qed.

Lemma all_entries_app (l1 l2 : list slot) : all_entries (l1 ++ l2) = all_entries l1 ++ all_entries l2.
Proof. unfold all_entries. by rewrite fmap_app, concat_app. Qed.

Lemma all_entries_empty (n : nat) : all_entries (replicate n empty_slot) = [].
Proof. induction n; [done|]. simpl. done. Qed.

Lemma ensure_free_ok (sl : slot) :
  slot_ok sl ->
  entries (__hashmap_ensure_free_entry sl) = entries sl /\
  (entries_num sl < entries_alloc (__hashmap_ensure_free_entry sl))%nat.
Proof.
  unfold slot_ok, __hashmap_ensure_free_entry, entries_num. intros Hok. destruct sl as [es al]. simpl in *.
  destruct (Nat.eqb_spec al 0) as [-> | Hal].
  - destruct es; simpl in *; [split; [done|lia]|lia].
  - destruct (Nat.eqb_spec (length es) al); simpl; split; done || lia.
Qed.

Lemma append_ok (sl : slot) (e : Z * Z) :
  slot_ok sl ->
  exists sl', slot_append (__hashmap_ensure_free_entry sl) e = Ret sl' /\
    entries sl' = entries sl ++ [e] /\ slot_ok sl'.
Proof.
  intros Hok. destruct (ensure_free_ok sl Hok) as [He Hlt]. unfold slot_append, entries_num in *.
  rewrite He. destruct (Nat.ltb_spec (length (entries sl)) (entries_alloc (__hashmap_ensure_free_entry sl))); [|lia].
  eexists. split_and!; [done|done|]. unfold slot_ok, entries_num. simpl. rewrite length_app. simpl. lia.
Qed.

Lemma remove_ok (sl : slot) (i : nat) (e : Z * Z) :
  slot_ok sl -> entries sl !! i = Some e ->
  exists sl', slot_remove sl i = Ret sl' /\ entries sl ≡ₚ e :: entries sl' /\ slot_ok sl' /\
    S (entries_num sl') = entries_num sl /\ take i (entries sl') = take i (entries sl).
Proof.
  intros Hok Hi. unfold slot_remove, slot_ok, entries_num in *.
  pose proof (lookup_lt_Some _ _ _ Hi) as Hlt.
  destruct (lookup_lt_is_Some_2 (entries sl) (length (entries sl) - 1)) as [x Hx]; [lia|].
  rewrite Hx. eexists. split; [done|]. cbn [entries entries_alloc].
  assert (Hl : length (take (length (entries sl) - 1) (<[i:=x]> (entries sl))) = (length (entries sl) - 1)%nat)
    by (rewrite length_take, length_insert; lia).
  split_and!; [by apply swap_remove_perm | lia | lia |].
  rewrite take_take, Nat.min_l by lia. by rewrite take_insert_ge.
Qed.

Lemma find_entry_spec (l : list (Z * Z)) (key : Z) :
  match find_entry l key with
  | Some i => exists v, l !! i = Some (key, v)
  | None => key ∉ l.*1
  end.
Proof.
  induction l as [|[k v] l IH]; simpl; [set_solver|].
  destruct (Z.eqb_spec k key) as [-> | Hne]; [by exists v|].
  destruct (find_entry l key) as [i|]; simpl; [done|]. apply not_elem_of_cons. auto.
Qed.

(* ------------------------------------------------------------------ *)
(** ** Rehash *)

Definition at_home (n : Z) (j : nat) (e : Z * Z) : Prop := Z.to_nat (hash_func e.1 mod n) = j.

(** Arrays are sound and the chains in [done] only hold keys that are home. *)
Definition rehash_inv (n : Z) (done : nat -> Prop) (sls : list slot) : Prop :=
  Z.of_nat (length sls) = n /\
  forall j sl, sls !! j = Some sl -> slot_ok sl /\ (done j -> Forall (at_home n j) (entries sl)).

Lemma slot_at_Some (sls : list slot) (j : nat) (sl : slot) :
  sls !! j = Some sl -> slot_at sls (Z.of_nat j) = Ret sl.
Proof. intros Hj. unfold slot_at. by rewrite Nat2Z.id, Hj. Qed.

Lemma rehash_move (n : Z) (done : nat -> Prop) (sls : list slot) (s i t : nat) (sl : slot) (e : Z * Z) :
  0 < n -> rehash_inv n done sls -> ~ done s -> sls !! s = Some sl -> entries sl !! i = Some e ->
  Forall (at_home n s) (take i (entries sl)) ->
  t = Z.to_nat (hash_func e.1 mod n) -> s <> t ->
  exists new new' sl', sls !! t = Some new /\
    slot_append (__hashmap_ensure_free_entry new) e = Ret new' /\ slot_remove sl i = Ret sl' /\
    let sls' := <[s := sl']> (<[t := new']> sls) in
    rehash_inv n done sls' /\ sls' !! s = Some sl' /\ all_entries sls' ≡ₚ all_entries sls /\
    S (entries_num sl') = entries_num sl /\ Forall (at_home n s) (take i (entries sl')).
Proof.
  intros Hn (Hlen & Hinv) Hnd Hs Hi Hhome Ht Hst.
  pose proof (Z.mod_pos_bound (hash_func e.1) n Hn).
  destruct (lookup_lt_is_Some_2 sls t) as [new Hnew]; [lia|].
  destruct (Hinv _ _ Hnew) as [Hok Hd]. destruct (Hinv _ _ Hs) as [Hoks _].
  destruct (append_ok new e Hok) as (new' & Ea & Hes & Hok').
  destruct (remove_ok sl i e Hoks Hi) as (sl' & Er & Hp & Hok'' & Hl & Htake).
  exists new, new', sl'. split_and!; try done; cbn zeta.
  assert (Hss : <[t:=new']> sls !! s = Some sl) by (by rewrite list_lookup_insert_ne).
  split_and!.
  - split; [by rewrite !length_insert|]. intros j slj. rewrite list_lookup_insert_Some.
    intros [(<- & <- & _) | [Hne Hj]]; [split; [done|by intros ?]|].
    apply list_lookup_insert_Some in Hj as [(<- & <- & _) | [Hne' Hj]]; [|by apply Hinv].
    split; [done|]. intros D. rewrite Hes. apply Forall_app. split; [by apply Hd|]. by repeat constructor.
  - apply list_lookup_insert_eq. rewrite length_insert. by eapply lookup_lt_Some.
  - destruct (all_entries_split _ _ _ Hss) as (r1 & H1 & H1').
    destruct (all_entries_split _ _ _ Hnew) as (r2 & H2 & H2').
    rewrite H1'. rewrite H2' in H1. rewrite Hes in H1. rewrite H2.
    rewrite Hp in H1. rewrite <- app_assoc in H1. simpl in H1.
    rewrite <- Permutation_middle in H1. simpl in H1. by apply Permutation_cons_inv in H1.
  - done.
  - by rewrite Htake.
Qed.

Lemma rehash_slot_ok (n : Z) (done : nat -> Prop) (s : nat) (fuel : nat) :
  0 < n -> ~ done s -> forall sls i sl,
  rehash_inv n done sls -> sls !! s = Some sl ->
  Forall (at_home n s) (take i (entries sl)) -> (entries_num sl <= i + fuel)%nat ->
  exists sls', rehash_slot fuel sls n s i = Ret sls' /\
    rehash_inv n (fun j => done j \/ j = s) sls' /\ all_entries sls' ≡ₚ all_entries sls.
Proof.
  intros Hn Hnd. induction fuel as [|fuel IH]; intros sls i sl Hinv Hs Hhome Hf;
    cbn [rehash_slot]; rewrite (slot_at_Some _ _ _ Hs); run.
  all: destruct (entries sl !! i) as [e|] eqn:Hi; cycle 1.
  1, 3: exists sls; split_and!; try done; split; [apply Hinv|]; intros j slj Hj;
    destruct (proj2 Hinv _ _ Hj) as [Hok Hd]; (split; [done|]); intros [D | ->]; [by apply Hd|];
    simplify_eq; rewrite take_ge in Hhome by (by apply lookup_ge_None); done.
  - destruct (Nat.eqb_spec s (Z.to_nat (hash_func e.1 mod n))) as [Heq | Hne].
    + apply (IH sls (S i) sl); try done; [|lia].
      rewrite (take_S_r _ _ e) by done. apply Forall_app. split; [done|]. by repeat constructor.
    + destruct (rehash_move n done sls s i _ sl e Hn Hinv Hnd Hs Hi Hhome eq_refl Hne)
        as (new & new' & sl' & E1 & E2 & E3 & Hinv' & Hs' & Hp & Hl & Hh).
      rewrite (slot_at_Some _ _ _ E1); run. rewrite E2; run.
      rewrite E3; run.
      destruct (IH _ i sl' Hinv' Hs' Hh ltac:(lia)) as (sls' & E & Hi' & Hp').
      exists sls'. split_and!; [done|done|]. by rewrite Hp', Hp.
  - apply lookup_lt_Some in Hi. unfold entries_num in Hf. lia.
Qed.

Lemma rehash_slots_ok (n : Z) (old k : nat) (sls : list slot) :
  0 < n -> (old <= length sls)%nat -> (k <= old)%nat ->
  rehash_inv n (fun j => (j < old - k)%nat \/ (old <= j)%nat) sls ->
  exists sls', rehash_slots k sls n (old - k) = Ret sls' /\
    rehash_inv n (fun _ => True) sls' /\ all_entries sls' ≡ₚ all_entries sls.
Proof.
  intros Hn. revert sls. induction k as [|k IH]; intros sls Hold Hk Hinv; cbn [rehash_slots].
  - exists sls. split_and!; try done. split; [apply Hinv|]. intros j sl Hj.
    destruct (proj2 Hinv j sl Hj) as [? Hd]. split; [done|]. intros _. apply Hd. lia.
  - destruct (lookup_lt_is_Some_2 sls (old - S k)) as [sl Hs]; [lia|].
    rewrite (slot_at_Some _ _ _ Hs); run.
    destruct (rehash_slot_ok n (fun j => (j < old - S k)%nat \/ (old <= j)%nat) (old - S k)%nat (entries_num sl) Hn ltac:(cbn beta; lia) sls 0 sl Hinv Hs)
      as (sls1 & E & Hinv1 & Hp1); [constructor|lia|].
    rewrite E; run.
    assert (Hlen : length sls1 = length sls) by (destruct Hinv, Hinv1; lia).
    replace (S (old - S k)) with (old - k)%nat by lia.
    destruct (IH sls1) as (sls' & E' & Hinv' & Hp'); [lia|lia| |].
    + split; [apply Hinv1|]. intros j slj Hj. destruct (proj2 Hinv1 j slj Hj) as [? Hd].
      split; [done|]. intros D. apply Hd. lia.
    + exists sls'. split_and!; [done|done|]. by rewrite Hp', Hp1.
Qed.

(* ------------------------------------------------------------------ *)
(** ** Operations *)

Lemma perm_lookup (l : list (Z * Z)) (m : gmap Z Z) (k v : Z) :
  l ≡ₚ map_to_list m -> (k, v) ∈ l <-> m !! k = Some v.
Proof. intros Hp. rewrite Hp. by rewrite elem_of_map_to_list. Qed.

Lemma perm_NoDup (l : list (Z * Z)) (m : gmap Z Z) : l ≡ₚ map_to_list m -> NoDup l.*1.
Proof. intros Hp. rewrite Hp. apply NoDup_fst_map_to_list. Qed.

(** The chain of a key, and what the scan of it finds. *)
Lemma chain_of (hm : hashmap) (m : gmap Z Z) (k : Z) :
  hm_repr hm m -> 0 < num_slots hm ->
  exists sl, let h := hash_func k mod num_slots hm in
    slots hm !! Z.to_nat h = Some sl /\ slot_at (slots hm) h = Ret sl /\ slot_ok sl /\
    Forall (at_home (num_slots hm) (Z.to_nat h)) (entries sl) /\
    match find_entry (entries sl) k with
    | Some i => exists v, entries sl !! i = Some (k, v) /\ m !! k = Some v
    | None => m !! k = None
    end.
Proof.
  intros [Hsl Hp _ _ _] Hpos.
  pose proof (Z.mod_pos_bound (hash_func k) (num_slots hm) Hpos) as Hb.
  destruct (lookup_lt_is_Some_2 (slots hm) (Z.to_nat (hash_func k mod num_slots hm))) as [sl Hs];
    [unfold num_slots in *; lia|].
  exists sl. cbn zeta. destruct (Hsl _ _ Hs) as [Hok Hhome].
  split_and!; [done|by unfold slot_at; rewrite Hs|done|done|].
  pose proof (find_entry_spec (entries sl) k) as Hf.
  destruct (find_entry (entries sl) k) as [i|].
  - destruct Hf as [v Hv]. exists v. split; [done|]. eapply (perm_lookup _ _ _ _ Hp).
    destruct (all_entries_split _ _ _ Hs) as (rest & -> & _). apply elem_of_app. left.
    by eapply list_elem_of_lookup_2.
  - destruct (m !! k) as [v|] eqn:Hm; [exfalso | done].
    apply (perm_lookup _ _ _ _ Hp) in Hm. unfold all_entries in Hm.
    apply list_elem_of_In, in_concat in Hm as (es & Hes & Hin).
    apply list_elem_of_In, list_elem_of_fmap in Hes as (sl' & -> & [j Hj]%list_elem_of_lookup_1).
    destruct (Hsl _ _ Hj) as [_ Hhome']. apply list_elem_of_In in Hin.
    rewrite Forall_forall in Hhome'. specialize (Hhome' _ Hin). simpl in Hhome'.
    rewrite <- Hhome' in Hj. simplify_eq. apply Hf. apply list_elem_of_fmap. by exists (k, v).
Qed.

Lemma init_slots_ok (n : Z) :
  0 <= n <= 2 ^ 30 ->
  exists hm, zbx_hashmap_init_slots n = Ret hm /\ hm_repr hm ∅ /\
    (0 < n -> 2 <= num_slots hm /\ next_prime n = Ret (num_slots hm)).
Proof.
  intros Hn. unfold zbx_hashmap_init_slots. destruct (Z.ltb_spec 0 n) as [Hpos | H0].
  - destruct (next_prime_pos n) as (r & E & Hr & Hb); [unfold prime_bound; lia|].
    rewrite E. run. eexists. split; [done|].
    assert (Hl : num_slots (mkHashmap (replicate (Z.to_nat r) empty_slot) 0) = r)
      by (unfold num_slots; simpl; rewrite length_replicate; lia).
    split; [|intros _; rewrite Hl; split; [lia|done]]. split; rewrite ?Hl; simpl.
    + intros j sl [-> _]%lookup_replicate. split; [unfold slot_ok, entries_num; simpl; lia | constructor].
    + by rewrite all_entries_empty, map_to_list_empty.
    + done.
    + right. lia.
    + lia.
  - exists (mkHashmap [] 0). split; [done|]. split; [|lia].
    split; simpl; try done; by left.
Qed.

Lemma get_ok (hm : hashmap) (m : gmap Z Z) (k : Z) :
  hm_repr hm m -> zbx_hashmap_get hm k = Ret (default FAIL (m !! k)).
Proof.
  intros Hr. unfold zbx_hashmap_get. destruct (Z.eqb_spec (num_slots hm) 0) as [H0 | H0].
  - destruct (repr_load _ _ Hr) as [[_ ->] | ]; [done|lia].
  - destruct (chain_of hm m k Hr) as (sl & _ & -> & _ & _ & Hf); [unfold num_slots in *; lia|].
    run. destruct (find_entry (entries sl) k) as [i|].
    + destruct Hf as (v & -> & ->). done.
    + by rewrite Hf.
Qed.

Lemma clear_ok (hm : hashmap) (m : gmap Z Z) :
  hm_repr hm m -> hm_repr (zbx_hashmap_clear hm) ∅.
Proof.
  intros Hr. unfold zbx_hashmap_clear.
  assert (Hn : num_slots (mkHashmap ((fun sl => mkSlot [] (entries_alloc sl)) <$> slots hm) 0) = num_slots hm)
    by (unfold num_slots; simpl; by rewrite length_fmap).
  split; rewrite ?Hn; simpl.
  - intros j sl. rewrite list_lookup_fmap. intros (sl' & _ & ->)%fmap_Some.
    split; [unfold slot_ok, entries_num; simpl; lia | constructor].
  - rewrite map_to_list_empty. clear. induction (slots hm); simpl; [done|]. done.
  - done.
  - destruct (repr_load _ _ Hr) as [[? _] | ]; [by left | right; lia].
  - apply Hr.
Qed.

Lemma remove_key_ok (hm : hashmap) (m : gmap Z Z) (k : Z) :
  hm_repr hm m ->
  exists hm', zbx_hashmap_remove hm k = Ret hm' /\ hm_repr hm' (delete k m).
Proof.
  intros Hr. unfold zbx_hashmap_remove. destruct (Z.eqb_spec (num_slots hm) 0) as [H0 | H0].
  - exists hm. split; [done|]. destruct (repr_load _ _ Hr) as [[_ ->] | ]; [|lia].
    by rewrite delete_empty.
  - destruct (chain_of hm m k Hr) as (sl & Hs & -> & Hok & Hhome & Hf); [unfold num_slots in *; lia|].
    run. destruct (find_entry (entries sl) k) as [i|].
    + destruct Hf as (v & Hi & Hm). destruct (remove_ok sl i (k, v) Hok Hi) as (sl' & -> & Hp & Hok' & _).
      run. eexists. split; [done|]. destruct Hr as [R1 R2 R3 R4 R5].
      set (h := Z.to_nat (hash_func k mod num_slots hm)) in *.
      assert (Hn : num_slots (mkHashmap (<[h:=sl']> (slots hm)) (num_data hm - 1)) = num_slots hm)
        by (unfold num_slots; simpl; by rewrite length_insert).
      split; rewrite ?Hn; simpl.
      * intros j slj. rewrite list_lookup_insert_Some. intros [(<- & <- & _) | [_ Hj]]; [|by apply R1].
        split; [done|]. rewrite Hp in Hhome. by inversion Hhome.
      * destruct (all_entries_split _ _ _ Hs) as (rest & Ha & Ha'). rewrite Ha'.
        rewrite Ha, Hp in R2. apply (Permutation_cons_inv (a := (k, v))). rewrite <- map_to_list_insert.
        -- rewrite insert_delete_id by done. done.
        -- apply lookup_delete_eq.
      * rewrite R3, map_size_delete_Some by eauto. assert (size m <> 0%nat) by (apply map_size_ne_0_lookup; eauto). lia.
      * right. destruct R4 as [[? _] | ]; [lia|]. lia.
      * done.
    + exists hm. split; [done|]. by rewrite delete_id.
Qed.

(** Growing: the chains of a map with [n] of them are rehashed into [n']. *)
Lemma grow_ok (sls : list slot) (n n' : Z) :
  slots_ok n sls -> Z.of_nat (length sls) = n -> 0 < n < n' ->
  exists sls', rehash_slots (length sls) (sls ++ replicate (Z.to_nat n' - length sls) empty_slot) n' 0 = Ret sls' /\
    Z.of_nat (length sls') = n' /\ slots_ok n' sls' /\ all_entries sls' ≡ₚ all_entries sls.
Proof.
  intros Hok Hlen Hn. set (ext := sls ++ _).
  destruct (rehash_slots_ok n' (length sls) (length sls) ext) as (sls' & E & [Hlen' Hall] & Hp).
  - lia.
  - unfold ext. rewrite length_app. lia.
  - lia.
  - split; [unfold ext; rewrite length_app, length_replicate; lia|].
    intros j slj. unfold ext. rewrite lookup_app_Some. intros [Hj | [Hge [-> _]%lookup_replicate]].
    + destruct (Hok _ _ Hj) as [Hokj _]. split; [done|]. intros [?|Hj']; [lia|].
      apply lookup_lt_Some in Hj. lia.
    + split; [unfold slot_ok, entries_num; simpl; lia | intros _; constructor].
  - rewrite Nat.sub_diag in E. exists sls'. split_and!; [done|done| |].
    + intros j slj Hj. destruct (Hall j slj Hj) as [? Hh]. split; [done|]. by apply Hh.
    + unfold ext in Hp. by rewrite Hp, all_entries_app, all_entries_empty, app_nil_r.
Qed.

(** The chains after the new entry is appended to its own. *)
Lemma append_entry_repr (hm : hashmap) (m : gmap Z Z) (k v : Z) (sl sl' : slot) :
  let h := Z.to_nat (hash_func k mod num_slots hm) in
  hm_repr hm m -> m !! k = None -> slots hm !! h = Some sl ->
  Forall (at_home (num_slots hm) h) (entries sl) -> entries sl' = entries sl ++ [(k, v)] -> slot_ok sl' ->
  all_entries (<[h:=sl']> (slots hm)) ≡ₚ map_to_list (<[k:=v]> m) /\
  slots_ok (num_slots hm) (<[h:=sl']> (slots hm)) /\
  num_data hm + 1 = Z.of_nat (size (<[k:=v]> m)).
Proof.
  cbn zeta. intros [R1 R2 R3 R4 R5] Hm Hs Hhome Hes Hok. split_and!.
  - destruct (all_entries_split _ _ _ Hs) as (rest & Ha & Ha').
    rewrite Ha', Hes, map_to_list_insert, <- R2, Ha by done. solve_Permutation.
  - intros j slj. rewrite list_lookup_insert_Some. intros [(<- & <- & _) | [_ Hj]]; [|by apply R1].
    split; [done|]. rewrite Hes. apply Forall_app. split; [done|]. by repeat constructor.
  - rewrite map_size_insert_None by done. lia.
Qed.

(** Insertion of a new key: append to its chain, then grow when the load
    reaches five entries per chain. *)
Lemma add_key_ok (hm : hashmap) (m : gmap Z Z) (k v : Z) :
  hm_repr hm m -> 0 < num_slots hm -> hm_room hm -> m !! k = None ->
  exists hm', zbx_hashmap_set hm k v = Ret hm' /\ hm_repr hm' (<[k := v]> m).
Proof.
  intros Hr Hpos Hroom Hm. unfold zbx_hashmap_set, hm_room in *.
  destruct (Z.eqb_spec (num_slots hm) 0) as [|_]; [lia|]. run.
  destruct (chain_of hm m k Hr Hpos) as (sl & Hs & -> & Hok & Hhome & Hf). run.
  destruct (find_entry (entries sl) k) as [i|]; [destruct Hf as (? & _ & ?); congruence|].
  destruct (append_ok sl (k, v) Hok) as (sl' & -> & Hes & Hok'). run.
  destruct (append_entry_repr hm m k v sl sl' Hr Hm Hs Hhome Hes Hok') as (Hperm & Hinv & Hsize).
  destruct Hr as [_ _ _ R4 R5]. destruct R4 as [[? _] | [H2 Hload]]; [lia|].
  set (sls := <[Z.to_nat _ := sl']> (slots hm)) in *.
  assert (Hlen : length sls = length (slots hm)) by apply length_insert. clearbody sls.
  rewrite !c_int_small by lia. run. rewrite Z.div_1_r.
  destruct (Z.leb_spec (num_slots hm * 5) (num_data hm + 1)) as [Hgrow | Hno].
  - destruct (next_prime_pos (num_slots hm * 3 / 2)) as (n & En & Hn & Hb);
      [unfold prime_bound; split; [apply Z.div_pos; lia | zlia]|].
    rewrite En. run.
    destruct (grow_ok sls (num_slots hm) n Hinv) as (sls' & E & Hlen' & Hok'' & Hp);
      [unfold num_slots; lia | zlia|].
    rewrite Hlen in E. rewrite Hlen, E. run. eexists. split; [reflexivity|].
    split; unfold num_slots; cbn [slots num_data]; rewrite ?Hlen'; [done|by rewrite Hp|done| |lia].
    right. zlia.
  - eexists. split; [reflexivity|].
    split; unfold num_slots in *; cbn [slots num_data]; rewrite ?Hlen; try done. right. lia.
Qed.

Lemma update_key_ok (hm : hashmap) (m : gmap Z Z) (k v : Z) :
  hm_repr hm m -> is_Some (m !! k) ->
  exists hm', zbx_hashmap_set hm k v = Ret hm' /\ hm_repr hm' (<[k := v]> m) /\
    num_slots hm' = num_slots hm.
Proof.
  intros Hr [w Hm]. unfold zbx_hashmap_set.
  assert (Hpos : 0 < num_slots hm).
  { destruct (repr_load _ _ Hr) as [[_ ->] | ]; [done|lia]. }
  destruct (Z.eqb_spec (num_slots hm) 0) as [|_]; [lia|]. run.
  destruct (chain_of hm m k Hr Hpos) as (sl & Hs & -> & Hok & Hhome & Hf). run.
  destruct (find_entry (entries sl) k) as [i|]; [|congruence]. destruct Hf as (w' & Hi & Hm').
  destruct Hr as [R1 R2 R3 R4 R5]. eexists. split; [done|].
  set (h := Z.to_nat (hash_func k mod num_slots hm)) in *.
  set (sl' := mkSlot _ _).
  assert (Hns : num_slots (mkHashmap (<[h:=sl']> (slots hm)) (num_data hm)) = num_slots hm)
    by (unfold num_slots; simpl; by rewrite length_insert).
  assert (Hal : entries sl' ≡ₚ (k, v) :: delete i (entries sl)).
  { unfold sl'. simpl. destruct (list_elem_of_split_length _ _ _ Hi) as (l1 & l2 & -> & ->).
    rewrite delete_middle. replace (length l1) with (length l1 + 0)%nat by lia. rewrite alter_app_r. simpl. solve_Permutation. }
  assert (Hold : entries sl ≡ₚ (k, w') :: delete i (entries sl)) by (by apply delete_Permutation).
  split; [|done]. split; rewrite ?Hns; simpl.
  - intros j slj. rewrite list_lookup_insert_Some. intros [(<- & <- & _) | [_ Hj]]; [|by apply R1].
    split; [unfold slot_ok, entries_num, sl' in *; simpl; by rewrite length_alter|].
    rewrite Hal. rewrite Hold in Hhome. inversion Hhome as [|? ? Hh Hrest]; subst. by constructor.
  - destruct (all_entries_split _ _ _ Hs) as (rest & Ha & Ha'). rewrite Ha', Hal. simpl.
    rewrite Ha, Hold in R2. simpl in R2.
    rewrite <- insert_delete_eq, map_to_list_insert by apply lookup_delete_eq. constructor.
    apply (Permutation_cons_inv (a := (k, w'))). rewrite R2.
    rewrite <- map_to_list_insert by apply lookup_delete_eq. by rewrite insert_delete_id.
  - rewrite R3. by rewrite map_size_insert_Some by eauto.
  - destruct R4 as [[? _] | ]; [lia|]. by right.
  - done.
Qed.

Lemma set_unallocated (hm hm1 : hashmap) (k v : Z) :
  num_slots hm = 0 -> num_slots hm1 <> 0 -> zbx_hashmap_init_slots ZBX_HASHMAP_DEFAULT_SLOTS = Ret hm1 ->
  zbx_hashmap_set hm k v = zbx_hashmap_set hm1 k v.
Proof.
  intros H0 H1 E. unfold zbx_hashmap_set at 1. rewrite H0, E.
  change (0 =? 0) with true. run. unfold zbx_hashmap_set.
  destruct (Z.eqb_spec (num_slots hm1) 0); [done|]. reflexivity.
Qed.

Lemma set_ok (hm : hashmap) (m : gmap Z Z) (k v : Z) :
  hm_repr hm m -> hm_room hm ->
  exists hm', zbx_hashmap_set hm k v = Ret hm' /\ hm_repr hm' (<[k := v]> m).
Proof.
  intros Hr Hroom. destruct (m !! k) as [w|] eqn:Hm.
  { destruct (update_key_ok hm m k v Hr) as (hm' & ? & ? & _); eauto. }
  destruct (decide (num_slots hm = 0)) as [H0 | H0].
  - destruct (repr_load _ _ Hr) as [[_ ->] | ]; [|lia].
    destruct (init_slots_ok ZBX_HASHMAP_DEFAULT_SLOTS) as (hm1 & E1 & Hr1 & Hn1); [unfold ZBX_HASHMAP_DEFAULT_SLOTS; lia|].
    destruct (Hn1 ltac:(unfold ZBX_HASHMAP_DEFAULT_SLOTS; lia)) as [Hn2 Hn3].
    unfold ZBX_HASHMAP_DEFAULT_SLOTS in Hn3. rewrite next_prime_default_slots in Hn3. apply Ret_inj in Hn3.
    rewrite (set_unallocated hm hm1) by (done || lia).
    apply add_key_ok; [done|lia|unfold hm_room; lia|done].
  - apply add_key_ok; [done|unfold num_slots in *; lia|done|done].
Qed.

End Hashmap.

(** zbx_hashmap_create: the default hash of 64-bit keys. *)
Definition zbx_hashmap_create (init_size : Z) : res hashmap := zbx_hashmap_create_ext init_size.

(** The hashmap with the default hash implements the index interface. *)
#[export] Instance hashmap_ops : KeyIndexOps hashmap := {
  ki_create := zbx_hashmap_create;
  ki_get := zbx_hashmap_get zbx_hash_splittable64;
  ki_set := zbx_hashmap_set zbx_hash_splittable64;
  ki_remove := zbx_hashmap_remove zbx_hash_splittable64;
  ki_clear := fun hm => Ret (zbx_hashmap_clear hm)
}.

#[export] Program Instance hashmap_key_index : KeyIndex hashmap := {
  ki_repr := hm_repr zbx_hash_splittable64;
  ki_room := hm_room
}.
Next Obligation. intros n Hn. destruct (init_slots_ok zbx_hash_splittable64 n Hn) as (i & ? & ? & _). by exists i. Qed.
Next Obligation. intros i m k. apply get_ok. Qed.
Next Obligation.
  intros i m k v Hr Hk. destruct (update_key_ok _ i m k v Hr Hk) as (i' & ? & ? & Hn).
  exists i'. unfold hm_room. by rewrite Hn.
Qed.
Next Obligation. intros i m k v Hr Hroom _. by apply set_ok. Qed.
Next Obligation. intros i m k. apply remove_key_ok. Qed.
Next Obligation. intros i m Hr. eexists. split; [done|]. by eapply clear_ok. Qed.

(** C31: zbx_hashmap_set never fails on a well-formed map whose slot count can
    still be multiplied by five: the new map is well-formed (each key once, in
    its chain, load below five per chain, in-place rehash included) and
    represents the old bindings with the new one; every get sees exactly that. *)
Theorem hashmap_set_correct (hash_func : Z -> Z) (hm : hashmap) (m : gmap Z Z) (k v : Z) :
  hm_repr hash_func hm m -> hm_room hm ->
  exists hm', zbx_hashmap_set hash_func hm k v = Ret hm' /\
    hm_repr hash_func hm' (<[k := v]> m) /\
    forall k', zbx_hashmap_get hash_func hm' k' = Ret (if decide (k' = k) then v else default FAIL (m !! k')).
Proof.
  intros Hr Hroom. destruct (set_ok hash_func hm m k v Hr Hroom) as (hm' & E & Hr').
  exists hm'. split_and!; [done|done|]. intros k'. rewrite (get_ok hash_func _ _ k' Hr').
  destruct (decide (k' = k)) as [-> | Hne]; [by rewrite lookup_insert_eq | by rewrite lookup_insert_ne].
Qed.

Lemma hashmap_set_correct_witness :
  exists hm', zbx_hashmap_set (fun k => k) (mkHashmap [] 0) 7 70 = Ret hm' /\
    hm_repr (fun k => k) hm' (<[7 := 70]> ∅) /\
    forall k', zbx_hashmap_get (fun k => k) hm' k' = Ret (if decide (k' = 7) then 70 else default FAIL ((∅ : gmap Z Z) !! k')).
Proof.
  apply hashmap_set_correct; [|unfold hm_room, num_slots; simpl; lia].
  split; simpl; try done; by left.
Defined.

(** C32: zbx_hashmap_remove never fails on a well-formed map, leaves a
    well-formed map without the key and with every other binding, and
    zbx_hashmap_clear empties it. *)
Theorem hashmap_remove_correct (hash_func : Z -> Z) (hm : hashmap) (m : gmap Z Z) (k : Z) :
  hm_repr hash_func hm m ->
  hm_repr hash_func (zbx_hashmap_clear hm) ∅ /\
  exists hm', zbx_hashmap_remove hash_func hm k = Ret hm' /\
    hm_repr hash_func hm' (delete k m) /\
    forall k', zbx_hashmap_get hash_func hm' k' = Ret (if decide (k' = k) then FAIL else default FAIL (m !! k')).
Proof.
  intros Hr. split; [by eapply clear_ok|].
  destruct (remove_key_ok hash_func hm m k Hr) as (hm' & E & Hr').
  exists hm'. split_and!; [done|done|]. intros k'. rewrite (get_ok hash_func _ _ k' Hr').
  destruct (decide (k' = k)) as [-> | Hne]; [by rewrite lookup_delete_eq | by rewrite lookup_delete_ne].
Qed.

Lemma hashmap_remove_correct_witness :
  exists hm, hm_repr (fun k => k) (zbx_hashmap_clear hm) ∅ /\
  exists hm', zbx_hashmap_remove (fun k => k) hm 5 = Ret hm' /\
    hm_repr (fun k => k) hm' (delete 5 (<[5 := 50]> ∅)) /\
    forall k', zbx_hashmap_get (fun k => k) hm' k' =
      Ret (if decide (k' = 5) then FAIL else default FAIL ((<[5 := 50]> ∅ : gmap Z Z) !! k')).
Proof.
  exists (mkHashmap [empty_slot; empty_slot; mkSlot [(5, 50)] 6] 1).
  apply hashmap_remove_correct. split; simpl.
  - intros [|[|[|j]]] sl; simpl; intros Hsl; simplify_eq;
      split; try (unfold slot_ok, entries_num; simpl; lia); repeat constructor.
  - by rewrite insert_empty, map_to_list_singleton.
  - by rewrite insert_empty, map_size_singleton.
  - right. unfold num_slots. simpl. lia.
  - unfold num_slots, prime_bound. simpl. lia.
Defined.

(** The rehash runs: ten keys in the two chains of a small map. *)
Definition demo_set (r : res hashmap) (k : Z) : res hashmap :=
  hm ← r; zbx_hashmap_set (fun k => k) hm k (k * 10).

Example hashmap_growth :
  (num_slots <$> (match foldl demo_set (zbx_hashmap_create 2) [1;2;3;4;5;6;7;8;9] with Ret h => Some h | _ => None end),
   num_slots <$> (match foldl demo_set (zbx_hashmap_create 2) [1;2;3;4;5;6;7;8;9;10] with Ret h => Some h | _ => None end))
  = (Some 2, Some 3).
Proof. vm_compute. reflexivity. Qed.
