(* ===== verification/BinaryHeap.v ===== *)
(** The binary heap with an optional index of its keys:
    src/src/libs/zbxalgo/binaryheap.c, over any implementation of the index
    interface of KeyIndex.v. *)

From stdpp Require Import base gmap list numbers sets.
From Stdlib Require Import ZArith Lia.
From S2P Require Import Prelude KeyIndex Algo Hashmap.

Open Scope Z_scope.

(** zbx_binary_heap_elem_t. *)
Record heap_elem : Type := mkElem { key : Z; data : Z }.

Definition ZBX_BINARY_HEAP_OPTION_EMPTY : Z := 0.
Definition ZBX_BINARY_HEAP_OPTION_DIRECT : Z := 1.

(** zbx_binary_heap_t: [elems] are the first elems_num cells of an array of
    [elems_alloc] (0 for NULL); a NULL key_index is [None]. *)
Record heap (I : Type) : Type := mkHeap {
  elems : list heap_elem;
  elems_alloc : Z;
  options : Z;
  key_index : option I
}.
Arguments mkHeap {I} _ _ _ _.
Arguments elems {I} _.
Arguments elems_alloc {I} _.
Arguments options {I} _.
Arguments key_index {I} _.

Section BinaryHeap.
Context {I : Type} `{KeyIndex I}.
(** compare_func of the heap, and whether the realloc callback succeeds for a
    number of elements. *)
Context (compare_func : heap_elem -> heap_elem -> Z) (realloc_ok : Z -> bool).

Definition HAS_DIRECT_OPTION (h : heap I) : bool :=
  negb (Z.land (options h) ZBX_BINARY_HEAP_OPTION_DIRECT =? 0).

Definition with_elems (h : heap I) (l : list heap_elem) : heap I :=
  mkHeap l (elems_alloc h) (options h) (key_index h).
Definition with_index (h : heap I) (i : I) : heap I :=
  mkHeap (elems h) (elems_alloc h) (options h) (Some i).

(** The index behind heap->key_index; NULL is undefined behaviour. *)
Definition the_index (h : heap I) : res I :=
  match key_index h with Some i => Ret i | None => Undef end.

Definition elem_at (h : heap I) (i : nat) : res heap_elem :=
  match elems h !! i with Some e => Ret e | None => Undef end.

(** zbx_hashmap_set(heap->key_index, key, index). *)
Definition index_set (h : heap I) (k : Z) (index : nat) : res (heap I) :=
  i ← the_index h; i ← ki_set i k (Z.of_nat index); Ret (with_index h i).

Definition swap (h : heap I) (index_1 index_2 : nat) : res (heap I) :=
  e1 ← elem_at h index_1;
  e2 ← elem_at h index_2;
  let h := with_elems h (<[index_2 := e1]> (<[index_1 := e2]> (elems h))) in
  if HAS_DIRECT_OPTION h then
    h ← index_set h (key e2) index_1;
    index_set h (key e1) index_2
  else Ret h.

Definition __binary_heap_ensure_free_space (h : heap I) : res (heap I) :=
  tmp_elems_alloc ←
    (if elems_alloc h =? 0 then Ret 32
     else if Z.of_nat (length (elems h)) =? elems_alloc h then
       grown ← c_int (elems_alloc h * 3);
       Ret (Z.max (elems_alloc h + 1) (grown / 2))
     else Ret (elems_alloc h));
  if elems_alloc h =? tmp_elems_alloc then Ret h
  else if realloc_ok tmp_elems_alloc
  then Ret (mkHeap (elems h) tmp_elems_alloc (options h) (key_index h)) else Exit.

(** The index strictly decreases, so [fuel] = index rounds are enough. *)
Fixpoint __binary_heap_bubble_up (fuel : nat) (h : heap I) (index : nat) : res (heap I * nat) :=
  if (index =? 0)%nat then Ret (h, index) else
  match fuel with
  | O => NoFuel
  | S fuel =>
      let parent := ((index - 1) / 2)%nat in
      p ← elem_at h parent;
      e ← elem_at h index;
      if compare_func p e <=? 0 then Ret (h, index) else
      h ← swap h parent index;
      __binary_heap_bubble_up fuel h parent
  end.

(** The index strictly increases: [fuel] = elems_num rounds are enough. *)
Fixpoint __binary_heap_bubble_down (fuel : nat) (h : heap I) (index : nat) : res (heap I * nat) :=
  match fuel with
  | O => NoFuel
  | S fuel =>
      let left := (2 * index + 1)%nat in
      let right := (2 * index + 2)%nat in
      if (length (elems h) <=? left)%nat then Ret (h, index) else
      e ← elem_at h index;
      l ← elem_at h left;
      if (length (elems h) <=? right)%nat then
        if 0 <? compare_func e l then h ← swap h index left; Ret (h, left) else Ret (h, index)
      else
        r ← elem_at h right;
        if compare_func l r <=? 0 then
          if 0 <? compare_func e l
          then h ← swap h index left; __binary_heap_bubble_down fuel h left
          else Ret (h, index)
        else
          if 0 <? compare_func e r
          then h ← swap h index right; __binary_heap_bubble_down fuel h right
          else Ret (h, index)
  end.

Definition bubble_up (h : heap I) (index : nat) := __binary_heap_bubble_up index h index.
Definition bubble_down (h : heap I) (index : nat) :=
  __binary_heap_bubble_down (S (length (elems h))) h index.

Definition zbx_binary_heap_create_ext (options : Z) : res (heap I) :=
  if negb (Z.land options ZBX_BINARY_HEAP_OPTION_DIRECT =? 0)
  then i ← ki_create 512; Ret (mkHeap [] 0 options (Some i))
  else Ret (mkHeap [] 0 options None).

Definition zbx_binary_heap_destroy (h : heap I) : heap I :=
  mkHeap [] 0 (if HAS_DIRECT_OPTION h then 0 else options h) None.

(** [true] is SUCCEED. *)
Definition zbx_binary_heap_empty (h : heap I) : bool := (length (elems h) =? 0)%nat.

Definition zbx_binary_heap_find_min (h : heap I) : res heap_elem :=
  if (length (elems h) =? 0)%nat then Exit else elem_at h 0.

Definition zbx_binary_heap_insert (h : heap I) (elem : heap_elem) : res (heap I) :=
  dup ← (if HAS_DIRECT_OPTION h then i ← the_index h; v ← ki_get i (key elem); Ret (negb (v =? FAIL))
         else Ret false);
  if (dup : bool) then Exit else
  h ← __binary_heap_ensure_free_space h;
  let index := length (elems h) in
  if elems_alloc h <=? Z.of_nat index then Undef else
  let h := with_elems h (elems h ++ [elem]) in
  '(h, index) ← bubble_up h index;
  if HAS_DIRECT_OPTION h && (index =? length (elems h) - 1)%nat
  then index_set h (key elem) index else Ret h.

(** heap->elems[index] = elem. *)
Definition elem_write (h : heap I) (index : nat) (e : heap_elem) : res (heap I) :=
  if (index <? length (elems h))%nat then Ret (with_elems h (<[index := e]> (elems h))) else Undef.

Definition zbx_binary_heap_update_direct (h : heap I) (elem : heap_elem) : res (heap I) :=
  if negb (HAS_DIRECT_OPTION h) then Exit else
  i ← the_index h;
  v ← ki_get i (key elem);
  if v =? FAIL then Exit else
  let index := Z.to_nat v in
  h ← elem_write h index elem;
  '(h, index') ← bubble_up h index;
  if (index =? index')%nat then '(h, _) ← bubble_down h index; Ret h else Ret h.

(** The heap without its last element. *)
Definition pop_elem (h : heap I) : heap I := with_elems h (take (length (elems h) - 1) (elems h)).

Definition zbx_binary_heap_remove_min (h : heap I) : res (heap I) :=
  if (length (elems h) =? 0)%nat then Exit else
  h ← (if HAS_DIRECT_OPTION h then
         i ← the_index h; e ← elem_at h 0; i ← ki_remove i (key e); Ret (with_index h i)
       else Ret h);
  last ← elem_at h (length (elems h) - 1);
  let h := pop_elem h in
  if (length (elems h) =? 0)%nat then Ret h else
  h ← elem_write h 0 last;
  '(h, index) ← bubble_down h 0;
  if HAS_DIRECT_OPTION h && (index =? 0)%nat then
    e ← elem_at h index; index_set h (key e) index
  else Ret h.

Definition zbx_binary_heap_remove_direct (h : heap I) (k : Z) : res (heap I) :=
  if negb (HAS_DIRECT_OPTION h) then Exit else
  i ← the_index h;
  v ← ki_get i k;
  if v =? FAIL then Exit else
  let index := Z.to_nat v in
  i ← ki_remove i k;
  let h := with_index h i in
  last ← elem_at h (length (elems h) - 1);
  let h := pop_elem h in
  if (index =? length (elems h))%nat then Ret h else
  h ← elem_write h index last;
  '(h, index') ← bubble_up h index;
  if (index =? index')%nat then
    '(h, index') ← bubble_down h index;
    if (index =? index')%nat then
      e ← elem_at h index; index_set h (key e) index
    else Ret h
  else Ret h.

Definition zbx_binary_heap_clear (h : heap I) : res (heap I) :=
  let h := with_elems h [] in
  if HAS_DIRECT_OPTION h then i ← the_index h; i ← ki_clear i; Ret (with_index h i) else Ret h.

(* ------------------------------------------------------------------ *)
(** ** The order of the array *)

(** The callback compares by a total preorder. *)
Definition le (a b : heap_elem) : Prop := compare_func a b <= 0.
Definition total_preorder : Prop :=
  (forall a b, le a b \/ le b a) /\ (forall a b c, le a b -> le b c -> le a c).

Definition par (i : nat) : nat := ((i - 1) / 2)%nat.

(** The edge from [i] to its parent respects the order. *)
Definition edge (l : list heap_elem) (p i : nat) : Prop :=
  forall x y, l !! p = Some x -> l !! i = Some y -> le x y.

Definition heap_ordered (l : list heap_elem) : Prop :=
  forall i, (0 < i)%nat -> edge l (par i) i.

(** Only the edges at [i] may be wrong, and the parent of [i] could stand
    above its children. *)
Definition ordered_but (l : list heap_elem) (i : nat) : Prop :=
  (forall j, (0 < j)%nat -> j <> i -> par j <> i -> edge l (par j) j) /\
  (forall c, (0 < i)%nat -> (0 < c)%nat -> par c = i -> edge l (par i) c).
Definition kids_ok (l : list heap_elem) (i : nat) : Prop :=
  forall c, (0 < c)%nat -> par c = i -> edge l i c.
Definition up_ok (l : list heap_elem) (i : nat) : Prop := (0 < i)%nat -> edge l (par i) i.

Lemma par_lt (i : nat) : (0 < i)%nat -> (par i < i)%nat.
Proof. unfold par. intros Hi. apply Nat.Div0.div_lt_upper_bound; lia. Qed.
Lemma par_kid (c i : nat) : (0 < c)%nat -> par c = i <-> c = (2 * i + 1)%nat \/ c = (2 * i + 2)%nat.
Proof.
  unfold par. intros Hc. pose proof (Nat.div_mod_eq (c - 1) 2). pose proof (Nat.mod_upper_bound (c - 1) 2).
  split; intros Hp; [lia|]. symmetry. apply (Nat.div_unique _ _ _ (c - 1 - 2 * i)); lia.
Qed.

Lemma ordered_intro (l : list heap_elem) (i : nat) :
  ordered_but l i -> kids_ok l i -> up_ok l i -> heap_ordered l.
Proof.
  intros (H1 & _) H2 H3 j Hj. destruct (decide (j = i)) as [-> | Hne]; [by apply H3|].
  destruct (decide (par j = i)) as [E | Hp]; [rewrite E; by apply H2 | by apply H1].
Qed.

Definition exchange (l : list heap_elem) (p i : nat) (x y : heap_elem) : list heap_elem :=
  <[i := x]> (<[p := y]> l).

Lemma exchange_lookup (l : list heap_elem) (p i j : nat) (x y : heap_elem) :
  l !! p = Some x -> l !! i = Some y -> p <> i ->
  exchange l p i x y !! j = if decide (j = i) then Some x else if decide (j = p) then Some y else l !! j.
Proof.
  intros Hp Hi Hne. unfold exchange.
  pose proof (lookup_lt_Some _ _ _ Hp). pose proof (lookup_lt_Some _ _ _ Hi).
  destruct (decide (j = i)) as [-> | ?].
  { apply list_lookup_insert_eq. by rewrite length_insert. }
  rewrite list_lookup_insert_ne by done. destruct (decide (j = p)) as [-> | ?].
  { by apply list_lookup_insert_eq. }
  by rewrite list_lookup_insert_ne.
Qed.

Lemma exchange_perm (l : list heap_elem) (p i : nat) (x y : heap_elem) :
  l !! p = Some x -> l !! i = Some y -> exchange l p i x y ≡ₚ l.
Proof.
  intros Hp Hi. symmetry. destruct (decide (p = i)) as [-> | Hne].
  - simplify_eq. unfold exchange. rewrite list_insert_insert_eq. by rewrite list_insert_id.
  - apply Permutation_inj. split; [unfold exchange; by rewrite !length_insert|].
    exists (fun j => if decide (j = i) then p else if decide (j = p) then i else j). split.
    + intros a b. repeat case_decide; lia.
    + intros j. rewrite (exchange_lookup _ _ _ _ _ _ Hp Hi Hne). by repeat case_decide; subst.
Qed.

Section Order.
Context (tp : total_preorder).

Lemma le_refl (a : heap_elem) : le a a.
Proof. by destruct (proj1 tp a a). Qed.
Lemma le_trans (a b c : heap_elem) : le a b -> le b c -> le a c.
Proof. apply tp. Qed.
Lemma nle_le (a b : heap_elem) : ~ le a b -> le b a.
Proof. by destruct (proj1 tp a b). Qed.

(** One round of bubble up: the smaller element moves to the parent. *)
Lemma up_step (l : list heap_elem) (i : nat) (x y : heap_elem) :
  (0 < i)%nat -> l !! par i = Some x -> l !! i = Some y -> ~ le x y -> ordered_but l i ->
  ordered_but (exchange l (par i) i x y) (par i) /\ kids_ok (exchange l (par i) i x y) (par i).
Proof.
  intros Hi Hx Hy Hn [H1 H2]. apply nle_le in Hn. pose proof (par_lt i Hi) as Hlt.
  assert (Hl := fun j => exchange_lookup l (par i) i j x y Hx Hy ltac:(lia)).
  split; [split|].
  - intros j Hj Hne Hpj a b. rewrite !Hl. pose proof (par_lt j Hj).
    rewrite (decide_False (P := j = par i)), (decide_False (P := par j = par i)) by done.
    rewrite (decide_False (P := j = i)) by congruence.
    destruct (decide (par j = i)) as [E | E]; intros Ha Hb.
    + injection Ha as <-. by apply (H2 j Hi Hj E).
    + by apply (H1 j Hj ltac:(congruence) E).
  - intros c Hp Hc Hpc a b. rewrite !Hl. pose proof (par_lt (par i) Hp). pose proof (par_lt c Hc).
    rewrite (decide_False (P := par (par i) = i)), (decide_False (P := par (par i) = par i)),
      (decide_False (P := c = par i)) by lia.
    assert (Hpx : forall a, l !! par (par i) = Some a -> le a x).
    { intros a' Ha'. by apply (H1 (par i) Hp ltac:(lia) ltac:(lia)). }
    destruct (decide (c = i)) as [-> | E]; intros Ha Hb.
    + injection Hb as <-. by apply Hpx.
    + apply (le_trans _ x); [by apply Hpx|]. by apply (H1 c Hc E ltac:(lia)); [rewrite Hpc|].
  - intros c Hc Hpc a b. rewrite !Hl. pose proof (par_lt c Hc).
    rewrite (decide_False (P := par i = i)), (decide_True (P := par i = par i)),
      (decide_False (P := c = par i)) by lia.
    intros [= <-]. destruct (decide (c = i)) as [-> | E]; intros Hb.
    + injection Hb as <-. done.
    + apply (le_trans _ x); [done|]. by apply (H1 c Hc E ltac:(lia)); [rewrite Hpc|].
Qed.

(** One round of bubble down: the smaller child moves up. *)
Lemma down_step (l : list heap_elem) (i c : nat) (x y : heap_elem) :
  (0 < c)%nat -> par c = i -> l !! i = Some x -> l !! c = Some y -> ~ le x y ->
  (forall s z, (0 < s)%nat -> par s = i -> l !! s = Some z -> le y z) ->
  ordered_but l i ->
  ordered_but (exchange l i c x y) c /\ up_ok (exchange l i c x y) c.
Proof.
  intros Hc Hpc Hx Hy Hn Hmin [H1 H2]. apply nle_le in Hn. pose proof (par_lt c Hc) as Hlt.
  assert (Hl := fun j => exchange_lookup l i c j x y Hx Hy ltac:(lia)).
  split; [split|].
  - intros j Hj Hne Hpj a b. rewrite !Hl. pose proof (par_lt j Hj).
    rewrite (decide_False (P := j = c)), (decide_False (P := par j = c)) by done.
    destruct (decide (par j = i)) as [E | E]; [|destruct (decide (j = i)) as [-> | E']]; intros Ha Hb.
    + injection Ha as <-. rewrite decide_False in Hb by lia. by apply (Hmin j).
    + injection Hb as <-. by apply (H2 c Hj Hc Hpc).
    + by apply (H1 j Hj).
  - intros k _ Hk Hpk a b. rewrite !Hl. pose proof (par_lt k Hk).
    rewrite (decide_False (P := par c = c)), (decide_True (P := par c = i)),
      (decide_False (P := k = c)), (decide_False (P := k = i)) by lia.
    intros [= <-] Hb. by apply (H1 k Hk ltac:(lia) ltac:(lia)); [rewrite Hpk|].
  - intros _ a b. rewrite !Hl.
    rewrite (decide_False (P := par c = c)), (decide_True (P := par c = i)), (decide_True (P := c = c)) by lia.
    by intros [= <-] [= <-].
Qed.

End Order.

(* ------------------------------------------------------------------ *)
(** ** The index of keys *)

(** What the index of an array should hold: the position of every key. *)
Definition index_of (l : list heap_elem) : gmap Z Z :=
  list_to_map (imap (fun j e => (key e, Z.of_nat j)) l).

Lemma imap_keys (l : list heap_elem) : (imap (fun j e => (key e, Z.of_nat j)) l).*1 = key <$> l.
Proof.
  apply list_eq. intros j. rewrite list_lookup_fmap, list_lookup_imap, list_lookup_fmap.
  by destruct (l !! j).
Qed.

Lemma index_of_Some (l : list heap_elem) (k v : Z) :
  NoDup (key <$> l) ->
  index_of l !! k = Some v <-> exists j e, l !! j = Some e /\ key e = k /\ v = Z.of_nat j.
Proof.
  intros Hnd. unfold index_of. rewrite <- elem_of_list_to_map by (by rewrite imap_keys).
  rewrite elem_of_lookup_imap. split.
  - intros (j & e & [= -> ->] & He). eauto.
  - intros (j & e & He & <- & ->). eauto.
Qed.

Lemma index_of_elem (l : list heap_elem) (j : nat) (e : heap_elem) :
  NoDup (key <$> l) -> l !! j = Some e -> index_of l !! key e = Some (Z.of_nat j).
Proof. intros Hnd He. apply index_of_Some; [done|]. eauto. Qed.

Lemma index_of_None (l : list heap_elem) (k : Z) :
  index_of l !! k = None <-> k ∉ key <$> l.
Proof. unfold index_of. rewrite <- not_elem_of_list_to_map. by rewrite imap_keys. Qed.

(** Two arrays with the same element of key [k] index it alike. *)
Lemma index_of_ext (l l' : list heap_elem) (k : Z) :
  NoDup (key <$> l) -> NoDup (key <$> l') ->
  (forall j e, key e = k -> l !! j = Some e <-> l' !! j = Some e) -> index_of l !! k = index_of l' !! k.
Proof.
  intros H1 H2 Hext. apply option_eq. intros v. rewrite !index_of_Some by done.
  split; intros (j & e & Hj & Hk & ->); exists j, e; (split_and!; [by apply (Hext j e Hk)|done|done]).
Qed.

(** The index agrees with the array except at the key of the hole, and there
    is room to add that key when it is missing. *)
Definition index_rel (ix : I) (l : list heap_elem) (hole : option Z) : Prop :=
  exists m, ki_repr ix m /\
    (forall k, Some k <> hole -> m !! k = index_of l !! k) /\
    (forall k, hole = Some k -> m !! k = None -> ki_room ix).

Definition good (h : heap I) (hole : option Z) : Prop :=
  HAS_DIRECT_OPTION h = true ->
  NoDup (key <$> elems h) /\ exists ix, key_index h = Some ix /\ index_rel ix (elems h) hole.

Definition same_frame (h h' : heap I) : Prop :=
  elems_alloc h' = elems_alloc h /\ options h' = options h.

Lemma same_direct (h h' : heap I) : options h' = options h -> HAS_DIRECT_OPTION h' = HAS_DIRECT_OPTION h.
Proof. unfold HAS_DIRECT_OPTION. by intros ->. Qed.

(** Setting the key of the hole to its position closes the hole. *)
Lemma index_set_ok (ix : I) (m : gmap Z Z) (k v : Z) :
  ki_repr ix m -> (m !! k = None -> ki_room ix) ->
  exists ix', ki_set ix k v = Ret ix' /\ ki_repr ix' (<[k := v]> m) /\
    (is_Some (m !! k) -> ki_room ix -> ki_room ix').
Proof.
  intros Hr Hroom. destruct (m !! k) as [w|] eqn:Hm.
  - destruct (ki_update_ok ix m k v Hr) as (ix' & E & Hr' & Hro); [by eauto|].
    exists ix'. split_and!; done || by intros _.
  - destruct (ki_add_ok ix m k v Hr (Hroom eq_refl) Hm) as (ix' & E & Hr').
    exists ix'. split_and!; [done|done|]. by intros [? ?].
Qed.

Lemma close_hole (h : heap I) (j : nat) (e : heap_elem) :
  HAS_DIRECT_OPTION h = true -> good h (Some (key e)) -> elems h !! j = Some e ->
  exists h', index_set h (key e) j = Ret h' /\ elems h' = elems h /\ good h' None /\ same_frame h h'.
Proof.
  intros Hd Hg He. destruct (Hg Hd) as (Hnd & ix & Hix & m & Hr & Hag & Hroom).
  destruct (index_set_ok ix m (key e) (Z.of_nat j) Hr) as (ix' & E & Hr' & _).
  { by apply Hroom. }
  unfold index_set, the_index. rewrite Hix. run. rewrite E. run.
  eexists. split; [reflexivity|]. split_and!; [done| |done].
  intros _. split; [done|]. exists ix'. split; [done|]. exists (<[key e := Z.of_nat j]> m). split_and!; [done| |done].
  intros k _. destruct (decide (k = key e)) as [-> | Hne].
  - rewrite lookup_insert_eq. symmetry. by apply index_of_elem.
  - rewrite lookup_insert_ne by done. apply Hag. congruence.
Qed.

Lemma exchange_keys (l : list heap_elem) (p i : nat) (x y : heap_elem) :
  l !! p = Some x -> l !! i = Some y -> NoDup (key <$> l) -> NoDup (key <$> exchange l p i x y).
Proof. intros Hp Hi. by rewrite (exchange_perm l p i x y Hp Hi). Qed.

Lemma keys_inj (l : list heap_elem) (i j : nat) (x y : heap_elem) :
  NoDup (key <$> l) -> l !! i = Some x -> l !! j = Some y -> key x = key y -> i = j.
Proof.
  intros Hnd Hx Hy Hk. eapply NoDup_lookup; [exact Hnd| |].
  - rewrite list_lookup_fmap, Hx. reflexivity.
  - rewrite list_lookup_fmap, Hy. simpl. by rewrite Hk.
Qed.

Lemma index_of_exchange (l : list heap_elem) (p i : nat) (x y : heap_elem) (k : Z) :
  NoDup (key <$> l) -> l !! p = Some x -> l !! i = Some y -> p <> i ->
  k <> key x -> k <> key y -> index_of l !! k = index_of (exchange l p i x y) !! k.
Proof.
  intros Hnd Hp Hi Hne Hx Hy. apply index_of_ext; [done|by apply exchange_keys|].
  intros j e <-. rewrite (exchange_lookup _ _ _ _ _ _ Hp Hi Hne).
  destruct (decide (j = i)) as [-> | ?]; [split; congruence|].
  destruct (decide (j = p)) as [-> | ?]; [split; congruence|]. done.
Qed.

(** A swap exchanges the elements and repairs the index: whichever of the two
    elements was the hole, no hole is left. *)
Lemma swap_ok (h : heap I) (p i : nat) (x y : heap_elem) (k : Z) :
  elems h !! p = Some x -> elems h !! i = Some y -> p <> i -> k = key x \/ k = key y ->
  good h (Some k) ->
  exists h', swap h p i = Ret h' /\ elems h' = exchange (elems h) p i x y /\ good h' None /\
    same_frame h h'.
Proof.
  intros Hp Hi Hne Hk Hg. unfold swap, elem_at. rewrite Hp, Hi. run.
  change (<[i:=x]> (<[p:=y]> (elems h))) with (exchange (elems h) p i x y).
  change (HAS_DIRECT_OPTION (with_elems h (exchange (elems h) p i x y))) with (HAS_DIRECT_OPTION h).
  destruct (HAS_DIRECT_OPTION h) eqn:Hd; cycle 1.
  { eexists. split; [reflexivity|]. split_and!; [done| |done]. intros Hd'.
    change (HAS_DIRECT_OPTION h = true) in Hd'. congruence. }
  destruct (Hg Hd) as (Hnd & ix & Hix & m & Hr & Hag & Hroom).
  assert (Hxy : key x <> key y) by (intros E; by apply Hne, (keys_inj _ _ _ x y Hnd)).
  assert (Hin : forall e j, elems h !! j = Some e -> key e <> k -> is_Some (m !! key e)).
  { intros e j He Hek. rewrite Hag by congruence. rewrite (index_of_elem _ _ _ Hnd He). eauto. }
  destruct (index_set_ok ix m (key y) (Z.of_nat p) Hr) as (ix1 & E1 & Hr1 & Hro1).
  { intros Hm. destruct (decide (key y = k)) as [E | E]; [apply (Hroom k); congruence|].
    destruct (Hin y i Hi E). congruence. }
  destruct (index_set_ok ix1 _ (key x) (Z.of_nat i) Hr1) as (ix2 & E2 & Hr2 & _).
  { rewrite lookup_insert_ne by congruence. intros Hm.
    destruct (decide (key x = k)) as [E | E]; [|destruct (Hin x p Hp E); congruence].
    apply Hro1; [apply (Hin y i Hi); congruence | apply (Hroom k); congruence]. }
  unfold index_set, the_index, with_elems. cbn [key_index]. rewrite Hix. run. rewrite E1. run.
  unfold with_index. cbn [key_index elems elems_alloc options]. run. rewrite E2. run.
  eexists. split; [reflexivity|]. split_and!; [done| |done].
  intros _. cbn [elems key_index]. split; [by apply exchange_keys|].
  exists ix2. split; [done|]. eexists. split_and!; [exact Hr2| |done].
  intros k' _.
  assert (Hnd' := exchange_keys _ _ _ _ _ Hp Hi Hnd).
  destruct (decide (k' = key x)) as [-> | Hx]; [|destruct (decide (k' = key y)) as [-> | Hy]].
  - rewrite lookup_insert_eq. symmetry. apply index_of_elem; [done|].
    rewrite (exchange_lookup _ _ _ _ _ _ Hp Hi Hne). by rewrite decide_True.
  - rewrite lookup_insert_ne, lookup_insert_eq by congruence. symmetry. apply index_of_elem; [done|].
    rewrite (exchange_lookup _ _ _ _ _ _ Hp Hi Hne). by rewrite decide_False, decide_True.
  - rewrite !lookup_insert_ne by congruence. rewrite <- index_of_exchange by done.
    apply Hag. intros [= ->]. destruct Hk; congruence.
Qed.

Lemma good_None (h : heap I) (k : Z) (j : nat) (e : heap_elem) :
  elems h !! j = Some e -> key e = k -> good h None -> good h (Some k).
Proof.
  intros He Hk Hg Hd. destruct (Hg Hd) as (Hnd & ix & Hix & m & Hr & Hag & _).
  split; [done|]. exists ix. split; [done|]. exists m. split_and!; [done| |].
  - intros k' _. by apply Hag.
  - intros k' [= <-] Hm. rewrite Hag in Hm by done.
    rewrite <- Hk, (index_of_elem _ _ _ Hnd He) in Hm. discriminate.
Qed.

Lemma exchange_length (l : list heap_elem) (p i : nat) (x y : heap_elem) :
  length (exchange l p i x y) = length l.
Proof. unfold exchange. by rewrite !length_insert. Qed.

Section Bubble.
Context (tp : total_preorder).

Lemma leb_le (x y : heap_elem) : (compare_func x y <=? 0) = true <-> le x y.
Proof. apply Z.leb_le. Qed.

(** Bubble up either leaves an element that is not below its parent, or
    restores the order, its index and the positions of all keys. *)
Lemma bubble_up_ok (fuel : nat) (h : heap I) (i : nat) (y : heap_elem) :
  (i <= fuel)%nat -> elems h !! i = Some y -> ordered_but (elems h) i -> good h (Some (key y)) ->
  exists h' j, __binary_heap_bubble_up fuel h i = Ret (h', j) /\
    elems h' ≡ₚ elems h /\ same_frame h h' /\
    ((j = i /\ h' = h /\ up_ok (elems h) i) \/
     ((j < i)%nat /\ heap_ordered (elems h') /\ good h' None)).
Proof.
  revert h i y. induction fuel as [|fuel IH]; intros h i y Hf Hy Hob Hg.
  - assert (i = 0)%nat as -> by lia. exists h, 0%nat. split_and!; try done. left. split_and!; try done.
    intros ?. lia.
  - cbn [__binary_heap_bubble_up]. destruct (Nat.eqb_spec i 0) as [-> | Hi].
    { exists h, 0%nat. split_and!; try done. left. split_and!; try done. intros ?. lia. }
    fold (par i). pose proof (par_lt i ltac:(lia)) as Hlt.
    destruct (lookup_lt_is_Some_2 (elems h) (par i)) as [x Hx]; [apply lookup_lt_Some in Hy; lia|].
    unfold elem_at. rewrite Hx, Hy. run. destruct (compare_func x y <=? 0) eqn:Hc.
    { exists h, i. split_and!; try done. left. split_and!; try done. intros _ a b Ha Hb. simplify_eq. by apply leb_le. }
    assert (Hnle : ~ le x y) by (rewrite <- leb_le; congruence).
    destruct (swap_ok h (par i) i x y (key y) Hx Hy ltac:(lia)) as (h1 & E & Hel & Hg1 & Hs1); [by right|done|].
    rewrite E. run. destruct (up_step tp (elems h) i x y ltac:(lia) Hx Hy Hnle Hob) as [Hob1 Hk1].
    rewrite <- Hel in Hob1, Hk1.
    assert (Hy1 : elems h1 !! par i = Some y).
    { rewrite Hel, (exchange_lookup _ _ _ _ _ _ Hx Hy) by lia. rewrite decide_False, decide_True by lia. done. }
    destruct (IH h1 (par i) y ltac:(lia) Hy1 Hob1) as (h' & j & E' & Hp & Hs & Hcase); [by eapply good_None|].
    exists h', j. split_and!; [done| | |].
    + by rewrite Hp, Hel, exchange_perm.
    + destruct Hs, Hs1. split; congruence.
    + right. destruct Hcase as [(-> & -> & Hup) | (Hj & Ho & Hg')]; [|split_and!; done || lia].
      split_and!; [lia| |done]. by apply (ordered_intro _ (par i)).
Qed.

(** Bubble down from the position of [x] with its chosen child [c]. *)
Lemma down_move (h : heap I) (i c : nat) (x y : heap_elem) :
  (0 < c)%nat -> par c = i -> elems h !! i = Some x -> elems h !! c = Some y -> ~ le x y ->
  (forall s z, (0 < s)%nat -> par s = i -> elems h !! s = Some z -> le y z) ->
  ordered_but (elems h) i -> good h (Some (key x)) ->
  exists h1, swap h i c = Ret h1 /\ elems h1 !! c = Some x /\ length (elems h1) = length (elems h) /\
    elems h1 ≡ₚ elems h /\ same_frame h h1 /\ ordered_but (elems h1) c /\ up_ok (elems h1) c /\
    good h1 None.
Proof.
  intros Hc Hpc Hx Hy Hn Hmin Hob Hg. pose proof (par_lt c Hc) as Hlt. rewrite Hpc in Hlt.
  destruct (swap_ok h i c x y (key x) Hx Hy ltac:(lia)) as (h1 & E & Hel & Hg1 & Hs1); [by left|done|].
  destruct (down_step tp (elems h) i c x y Hc Hpc Hx Hy Hn Hmin Hob) as [Hob1 Hup1].
  exists h1. split_and!; try done; rewrite ?Hel; try done.
  - by rewrite (exchange_lookup _ _ _ _ _ _ Hx Hy), decide_True by lia.
  - apply exchange_length.
  - by rewrite exchange_perm.
Qed.

Lemma kids_ok_leaf (l : list heap_elem) (i : nat) : (length l <= 2 * i + 1)%nat -> kids_ok l i.
Proof.
  intros Hl c Hc Hp x y _ Hy. apply par_kid in Hp; [|done]. apply lookup_lt_Some in Hy. lia.
Qed.

Lemma kids_ok_two (l : list heap_elem) (i : nat) (x : heap_elem) :
  l !! i = Some x -> (forall s z, (0 < s)%nat -> par s = i -> l !! s = Some z -> le x z) -> kids_ok l i.
Proof. intros Hx Hmin c Hc Hp a b Ha Hb. simplify_eq. by apply (Hmin c). Qed.

Lemma gtb_nle (x y : heap_elem) : (0 <? compare_func x y) = true <-> ~ le x y.
Proof. unfold le. rewrite Z.ltb_lt. lia. Qed.
Lemma gtb_le (x y : heap_elem) : (0 <? compare_func x y) = false <-> le x y.
Proof. unfold le. rewrite Z.ltb_ge. lia. Qed.

(** Bubble down restores the order below [i]; when it moves the element, the
    positions of all keys are in the index again. *)
Definition down_post (h : heap I) (i : nat) (r : res (heap I * nat)) : Prop :=
  exists h' j, r = Ret (h', j) /\ elems h' ≡ₚ elems h /\ same_frame h h' /\ heap_ordered (elems h') /\
    ((j = i /\ h' = h) \/ ((i < j)%nat /\ good h' None)).

Lemma down_post_stay (h : heap I) (i : nat) :
  heap_ordered (elems h) -> down_post h i (Ret (h, i)).
Proof. intros Ho. exists h, i. split_and!; try done. by left. Qed.

Lemma down_post_trans (h h1 : heap I) (i c : nat) (r : res (heap I * nat)) :
  (i < c)%nat -> elems h1 ≡ₚ elems h -> same_frame h h1 -> good h1 None ->
  down_post h1 c r -> down_post h i r.
Proof.
  intros Hc Hp [Hs1 Hs2] Hg (h' & j & -> & Hp' & [Hs1' Hs2'] & Ho & Hcase).
  exists h', j. split_and!; try done; [by rewrite Hp'|split; congruence|].
  right. destruct Hcase as [[-> ->] | [? ?]]; split; done || lia.
Qed.

Lemma bubble_down_ok (fuel : nat) (h : heap I) (i : nat) (x : heap_elem) :
  (length (elems h) < i + fuel)%nat -> elems h !! i = Some x -> ordered_but (elems h) i ->
  up_ok (elems h) i -> good h (Some (key x)) ->
  down_post h i (__binary_heap_bubble_down fuel h i).
Proof.
  revert h i x. induction fuel as [|fuel IH]; intros h i x Hf Hx Hob Hup Hg.
  { apply lookup_lt_Some in Hx. lia. }
  cbn [__binary_heap_bubble_down]. destruct (Nat.leb_spec (length (elems h)) (2 * i + 1)) as [Hleaf | Hl].
  { apply down_post_stay. apply (ordered_intro _ i); [done|by apply kids_ok_leaf|done]. }
  destruct (lookup_lt_is_Some_2 (elems h) (2 * i + 1)) as [l El]; [lia|].
  unfold elem_at. rewrite Hx, El. run.
  assert (Hpl : par (2 * i + 1) = i) by (apply par_kid; lia).
  assert (Hpr : par (2 * i + 2) = i) by (apply par_kid; lia).
  assert (Hgo : forall c y, c = (2 * i + 1)%nat \/ c = (2 * i + 2)%nat -> elems h !! c = Some y -> ~ le x y ->
    (forall s z, (0 < s)%nat -> par s = i -> elems h !! s = Some z -> le y z) ->
    forall k, (forall h1, elems h1 !! c = Some x -> length (elems h1) = length (elems h) ->
       ordered_but (elems h1) c -> up_ok (elems h1) c -> good h1 None -> down_post h1 c (k h1)) ->
    down_post h i (h1 ← swap h i c; k h1)).
  { intros c y Hc Hy Hn Hmin k Hk.
    destruct (down_move h i c x y) as (h1 & E & Hc1 & Hl1 & Hp1 & Hs1 & Hob1 & Hup1 & Hg1); try done; [lia|by destruct Hc as [-> | ->]|].
    rewrite E. run. apply (down_post_trans h h1 i c); try done; [lia|]. by apply Hk. }
  assert (Hrec : forall c h1, (i < c)%nat -> elems h1 !! c = Some x -> length (elems h1) = length (elems h) ->
       ordered_but (elems h1) c -> up_ok (elems h1) c -> good h1 None ->
       down_post h1 c (__binary_heap_bubble_down fuel h1 c)).
  { intros c h1 Hc Hc1 Hl1 Hob1 Hup1 Hg1. apply (IH h1 c x); try done; [lia|]. by eapply good_None. }
  destruct (Nat.leb_spec (length (elems h)) (2 * i + 2)) as [Hone | Htwo].
  - assert (Hmin : forall s z, (0 < s)%nat -> par s = i -> elems h !! s = Some z -> z = l).
    { intros s z Hs Hps Hz. apply par_kid in Hps as [-> | ->]; [congruence| |done].
      apply lookup_lt_Some in Hz. lia. }
    destruct (0 <? compare_func x l) eqn:Hc.
    + apply (Hgo _ l); [by left|done|by apply gtb_nle| |].
      * intros s z Hs Hps Hz. rewrite (Hmin s z) by done. by apply le_refl.
      * intros h1 Hc1 Hl1 Hob1 Hup1 Hg1. apply down_post_stay.
        apply (ordered_intro _ (2 * i + 1)); [done| |done]. apply kids_ok_leaf. lia.
    + apply down_post_stay. apply (ordered_intro _ i); [done| |done].
      apply (kids_ok_two _ _ x); [done|]. intros s z Hs Hps Hz. rewrite (Hmin s z) by done. by apply gtb_le.
  - destruct (lookup_lt_is_Some_2 (elems h) (2 * i + 2)) as [r Er]; [lia|].
    rewrite Er. run.
    assert (Hkid : forall (P : heap_elem -> Prop), P l -> P r ->
      forall s z, (0 < s)%nat -> par s = i -> elems h !! s = Some z -> P z).
    { intros P Pl Pr s z Hs Hps Hz. apply par_kid in Hps as [-> | ->]; congruence. }
    assert (Hstay : le x l -> le x r -> down_post h i (Ret (h, i))).
    { intros H1 H2. apply down_post_stay. apply (ordered_intro _ i); [done| |done].
      apply (kids_ok_two _ _ x); [done|]. by apply Hkid. }
    destruct (compare_func l r <=? 0) eqn:Hlr; [apply leb_le in Hlr | assert (Hrl : le r l)].
    + destruct (0 <? compare_func x l) eqn:Hc.
      * apply (Hgo _ l); [by left|done|by apply gtb_nle|apply Hkid; [by apply le_refl|done]|].
        intros h1 ?????. apply Hrec; done || lia.
      * apply gtb_le in Hc. apply Hstay; [done|by apply (le_trans tp _ l)].
    + apply (nle_le tp). rewrite <- leb_le. congruence.
    + destruct (0 <? compare_func x r) eqn:Hc.
      * apply (Hgo _ r); [by right|done|by apply gtb_nle|apply Hkid; [done|by apply le_refl]|].
        intros h1 ?????. apply Hrec; done || lia.
      * apply gtb_le in Hc. apply Hstay; [by apply (le_trans tp _ r)|done].
Qed.

End Bubble.

(* ------------------------------------------------------------------ *)
(** ** Operations *)

(** A heap between operations: ordered, indexed, inside its allocation. *)
Record heap_wf (h : heap I) : Prop := {
  wf_order : heap_ordered (elems h);
  wf_index : good h None;
  wf_alloc : Z.of_nat (length (elems h)) <= elems_alloc h
}.

(** The index of a direct heap can take one more key. *)
Definition heap_room (h : heap I) : Prop :=
  HAS_DIRECT_OPTION h = true -> forall ix, key_index h = Some ix -> ki_room ix.

Lemma ordered_sub (l l' : list heap_elem) :
  (forall j x, l' !! j = Some x -> l !! j = Some x) -> heap_ordered l -> heap_ordered l'.
Proof. intros Hs Ho j Hj x y Hx Hy. eapply Ho; eauto. Qed.

Lemma ordered_but_append (l : list heap_elem) (e : heap_elem) :
  heap_ordered l -> ordered_but (l ++ [e]) (length l) /\ kids_ok (l ++ [e]) (length l).
Proof.
  intros Ho.
  assert (Hold : forall j x, j <> length l -> (l ++ [e]) !! j = Some x -> l !! j = Some x).
  { intros j x Hne [Hx | [Hge Hx]]%lookup_app_Some; [done|].
    apply list_lookup_singleton_Some in Hx as [? _]. lia. }
  assert (Hkid : kids_ok (l ++ [e]) (length l)) by (apply kids_ok_leaf; rewrite length_app; simpl; lia).
  split; [split|done].
  - intros j Hj Hne Hp x y Hx Hy. apply (Ho j Hj); by apply Hold.
  - intros c Hc0 Hc Hpc x y _ Hy. apply par_kid in Hpc; [|done].
    apply lookup_lt_Some in Hy. rewrite length_app in Hy. simpl in Hy. lia.
Qed.

Lemma ordered_but_write (l : list heap_elem) (i : nat) (e : heap_elem) :
  total_preorder -> (i < length l)%nat -> heap_ordered l -> ordered_but (<[i := e]> l) i.
Proof.
  intros tp Hi Ho. destruct (lookup_lt_is_Some_2 l i Hi) as [o Hio]. split.
  - intros j Hj Hne Hp x y. rewrite !list_lookup_insert_ne by congruence. by apply Ho.
  - intros c Hi0 Hc Hpc x y. pose proof (par_lt i Hi0). pose proof (par_lt c Hc).
    rewrite !list_lookup_insert_ne by lia. intros Hx Hy.
    apply (le_trans tp _ o); [by apply (Ho i Hi0)|]. apply (Ho c Hc); [by rewrite Hpc|done].
Qed.

Lemma ensure_space_ok (h : heap I) :
  (forall n, realloc_ok n = true) -> elems_alloc h * 3 < 2 ^ 31 -> Z.of_nat (length (elems h)) <= elems_alloc h ->
  exists alloc, __binary_heap_ensure_free_space h = Ret (mkHeap (elems h) alloc (options h) (key_index h)) /\
    Z.of_nat (length (elems h)) < alloc.
Proof.
  intros Hre Hb Hl. unfold __binary_heap_ensure_free_space.
  destruct (Z.eqb_spec (elems_alloc h) 0) as [E | E]; [|destruct (Z.eqb_spec (Z.of_nat (length (elems h))) (elems_alloc h)) as [E' | E']].
  - run. destruct (Z.eqb_spec (elems_alloc h) 32); [lia|]. rewrite Hre. exists 32. split; [done|lia].
  - rewrite c_int_small by lia. run.
    destruct (Z.eqb_spec (elems_alloc h) (Z.max (elems_alloc h + 1) (elems_alloc h * 3 / 2))); [lia|].
    rewrite Hre. eexists. split; [done|lia].
  - run. rewrite Z.eqb_refl. exists (elems_alloc h). split; [by destruct h|lia].
Qed.

Lemma insert_ok (h : heap I) (e : heap_elem) :
  total_preorder -> heap_wf h -> (forall n, realloc_ok n = true) -> elems_alloc h * 3 < 2 ^ 31 ->
  heap_room h -> (HAS_DIRECT_OPTION h = true -> key e ∉ key <$> elems h) ->
  exists h', zbx_binary_heap_insert h e = Ret h' /\ heap_wf h' /\ elems h' ≡ₚ e :: elems h /\
    options h' = options h.
Proof.
  intros tp [Ho Hg Hl] Hre Hb Hroom Hnew. unfold zbx_binary_heap_insert.
  assert (Hdup : (if HAS_DIRECT_OPTION h then i ← the_index h; v ← ki_get i (key e); Ret (negb (v =? FAIL))
         else Ret false) = Ret false).
  { destruct (HAS_DIRECT_OPTION h) eqn:Hd; [|done].
    destruct (Hg Hd) as (Hnd & ix & Hix & m & Hr & Hag & _). unfold the_index. rewrite Hix. run.
    rewrite (ki_get_ok _ _ _ Hr), (Hag (key e)) by done.
    apply index_of_None in Hnew as ->; [|done]. done. }
  rewrite Hdup. run. destruct (ensure_space_ok h Hre Hb Hl) as (alloc & -> & Hal). run. cbn [elems elems_alloc].
  destruct (Z.leb_spec alloc (Z.of_nat (length (elems h)))); [lia|].
  unfold with_elems. cbn [elems elems_alloc options key_index].
  set (h1 := mkHeap _ alloc _ _). destruct (ordered_but_append (elems h) e Ho) as [Hob Hkid].
  assert (Hg1 : good h1 (Some (key e))).
  { intros Hd. destruct (Hg Hd) as (Hnd & ix & Hix & m & Hr & Hag & _). specialize (Hnew Hd).
    assert (Hnd' : NoDup (key <$> elems h ++ [e])).
    { rewrite fmap_app. apply NoDup_app. split_and!; [done| |apply NoDup_singleton].
      intros k Hk ->%list_elem_of_singleton. done. }
    split; [done|]. exists ix. split; [done|]. exists m. split_and!; [done| |].
    - intros k Hk. rewrite (Hag k) by done. apply index_of_ext; try done.
      intros j x <-. change (elems h1) with (elems h ++ [e]). rewrite lookup_app_Some. split; [by left|]. intros [? | [_ Hx]]; [done|].
      apply list_lookup_singleton_Some in Hx as [_ <-]. congruence.
    - intros k _ _. by apply (Hroom Hd). }
  destruct (bubble_up_ok tp (length (elems h)) h1 (length (elems h)) e) as (h' & j & E & Hp & [Hs1 Hs2] & Hcase); try done.
  { exact (list_lookup_split (elems h) [] e). }
  unfold bubble_up. rewrite E. run.
  assert (Hlen : length (elems h') = S (length (elems h))) by (rewrite Hp; simpl; rewrite length_app; simpl; lia).
  rewrite (same_direct h1 h' Hs2). change (HAS_DIRECT_OPTION h1) with (HAS_DIRECT_OPTION h).
  assert (Hpe : elems h' ≡ₚ e :: elems h) by (rewrite Hp; simpl; by rewrite Permutation_app_comm).
  rewrite Hlen. destruct Hcase as [(-> & -> & Hup) | (Hj & Ho' & Hg')].
  - assert (Ho1 : heap_ordered (elems h1)) by (by apply (ordered_intro _ (length (elems h)))).
    replace (length (elems h) =? S (length (elems h)) - 1)%nat with true by (symmetry; apply Nat.eqb_eq; lia).
    destruct (HAS_DIRECT_OPTION h) eqn:Hd; cbn [andb].
    + destruct (close_hole h1 (length (elems h)) e) as (h2 & -> & Hel & Hg2 & [Ha2 Ho2]); try done.
      { exact (list_lookup_split (elems h) [] e). }
      exists h2. split_and!; [done| |by rewrite Hel|exact Ho2].
      split; [by rewrite Hel|done|]. rewrite Hel, Ha2. simpl. rewrite length_app. simpl. lia.
    + exists h1. split_and!; try done. split; [done| |simpl; rewrite length_app; simpl; lia].
      intros Hd'. change (HAS_DIRECT_OPTION h = true) in Hd'. congruence.
  - replace (j =? S (length (elems h)) - 1)%nat with false by (symmetry; apply Nat.eqb_neq; lia).
    rewrite andb_false_r. exists h'. split_and!; try done. split; [done|done|]. rewrite Hlen, Hs1. simpl. lia.
Qed.

Lemma find_min_ok (h : heap I) (e : heap_elem) :
  total_preorder -> heap_ordered (elems h) -> elems h !! 0%nat = Some e ->
  forall x, x ∈ elems h -> le e x.
Proof.
  intros tp Ho He x [j Hj]%list_elem_of_lookup. revert x Hj.
  induction (Nat.lt_wf_0 j) as [j _ IH]. intros x Hx.
  destruct (decide (j = 0)%nat) as [-> | Hne]; [simplify_eq; by apply le_refl|].
  pose proof (par_lt j ltac:(lia)) as Hlt.
  destruct (lookup_lt_is_Some_2 (elems h) (par j)) as [p Hp]; [apply lookup_lt_Some in Hx; lia|].
  apply (le_trans tp _ p); [by apply (IH (par j))|]. by apply (Ho j); [lia|..].
Qed.

(** The bubbles of an element that may be wrong in both directions, followed
    by the index update that remove_direct does when it has not moved. *)
Lemma settle_ok (h : heap I) (i : nat) (e : heap_elem) :
  total_preorder -> elems h !! i = Some e -> ordered_but (elems h) i -> good h (Some (key e)) ->
  exists h1 j, bubble_up h i = Ret (h1, j) /\ elems h1 ≡ₚ elems h /\ same_frame h h1 /\
    (((j < i)%nat /\ heap_ordered (elems h1) /\ good h1 None) \/
     (j = i /\ h1 = h /\ down_post h i (bubble_down h i))).
Proof.
  intros tp He Hob Hg.
  destruct (bubble_up_ok tp i h i e ltac:(lia) He Hob Hg) as (h1 & j & E & Hp & Hs & Hcase).
  exists h1, j. split_and!; try done. destruct Hcase as [(-> & -> & Hup) | Hc]; [right | by left].
  split_and!; try done. apply (bubble_down_ok tp _ h i e); try done. lia.
Qed.

Lemma index_lookup (h : heap I) (j : nat) (e : heap_elem) :
  HAS_DIRECT_OPTION h = true -> good h None -> elems h !! j = Some e ->
  exists ix m, key_index h = Some ix /\ ki_repr ix m /\ NoDup (key <$> elems h) /\
    (forall k, m !! k = index_of (elems h) !! k) /\ ki_get ix (key e) = Ret (Z.of_nat j).
Proof.
  intros Hd Hg He. destruct (Hg Hd) as (Hnd & ix & Hix & m & Hr & Hag & _).
  exists ix, m. split_and!; try done; [intros k; by apply Hag|].
  rewrite (ki_get_ok _ _ _ Hr), (Hag (key e)) by done. by rewrite (index_of_elem _ _ _ Hnd He).
Qed.

(** Overwriting an element with one of the same key keeps the index. *)
Lemma good_write_same (h : heap I) (j : nat) (o e : heap_elem) :
  elems h !! j = Some o -> key o = key e -> good h None -> good (with_elems h (<[j := e]> (elems h))) None.
Proof.
  intros Ho Hk Hg Hd. destruct (Hg Hd) as (Hnd & ix & Hix & m & Hr & Hag & Hroom).
  assert (Hkeys : key <$> <[j := e]> (elems h) = key <$> elems h).
  { rewrite list_fmap_insert. apply list_insert_id. by rewrite list_lookup_fmap, Ho, <- Hk. }
  split; [change (NoDup (key <$> <[j := e]> (elems h))); by rewrite Hkeys|]. exists ix. split; [done|]. exists m. split_and!; [done| |done].
  intros k _. rewrite Hag by done. apply option_eq. intros v.
  assert (Hnd' : NoDup (key <$> <[j := e]> (elems h))) by (by rewrite Hkeys).
  cbn [elems with_elems]. rewrite !index_of_Some by done. split; intros (j' & x & Hx & <- & ->).
  - destruct (decide (j' = j)) as [-> | Hne].
    + exists j, e. rewrite list_lookup_insert_eq by (by eapply lookup_lt_Some). split_and!; congruence || done.
    + exists j', x. by rewrite list_lookup_insert_ne.
  - apply list_lookup_insert_Some in Hx as [(-> & -> & _) | [_ Hx]]; [exists j', o | exists j', x]; done.
Qed.

Lemma down_ok (h h1 : heap I) (i : nat) (e : heap_elem) (r : res (heap I * nat)) :
  elems h !! i = Some e -> good h (Some (key e)) -> down_post h i r ->
  exists h' j, r = Ret (h', j) /\ elems h' ≡ₚ elems h /\ same_frame h h' /\ heap_ordered (elems h') /\
    good h' (Some (key e)) /\ (j <> i -> good h' None) /\ (j = i -> elems h' !! i = Some e).
Proof.
  intros He Hg (h' & j & E & Hp & Hs & Ho & Hcase). exists h', j. split_and!; try done.
  - destruct Hcase as [[-> ->] | [_ Hg']]; [done|].
    assert (Hin : e ∈ elems h') by (rewrite Hp; by eapply list_elem_of_lookup_2).
    apply list_elem_of_lookup in Hin as [j' Hj']. by eapply good_None.
  - destruct Hcase as [[-> ->] | [? Hg']]; done.
  - destruct Hcase as [[-> ->] | [? Hg']]; [done|lia].
Qed.

Lemma update_direct_ok (h : heap I) (j : nat) (o e : heap_elem) :
  total_preorder -> heap_wf h -> HAS_DIRECT_OPTION h = true -> elems h !! j = Some o -> key o = key e ->
  exists h', zbx_binary_heap_update_direct h e = Ret h' /\ heap_wf h' /\
    elems h' ≡ₚ <[j := e]> (elems h) /\ options h' = options h.
Proof.
  intros tp [Ho Hg Hl] Hd Hj Hk. unfold zbx_binary_heap_update_direct. rewrite Hd. cbn [negb].
  destruct (index_lookup h j o Hd Hg Hj) as (ix & m & Hix & _ & _ & _ & Hget).
  unfold the_index. rewrite Hix. run. rewrite <- Hk, Hget. run.
  destruct (Z.eqb_spec (Z.of_nat j) FAIL) as [E | _]; [unfold FAIL in E; lia|]. rewrite Nat2Z.id.
  pose proof (lookup_lt_Some _ _ _ Hj) as Hlt. unfold elem_write.
  destruct (Nat.ltb_spec j (length (elems h))); [|lia]. run.
  pose proof (good_write_same h j o e Hj Hk Hg) as Hg1. set (h1 := with_elems h (<[j:=e]> (elems h))) in *.
  assert (He1 : elems h1 !! j = Some e) by (by apply list_lookup_insert_eq).
  destruct (settle_ok h1 j e tp He1) as (h2 & j2 & E2 & Hp2 & [Ha2 Hs2] & Hcase).
  { by apply ordered_but_write. } { by eapply good_None. }
  assert (Hlen1 : length (elems h1) = length (elems h)) by apply length_insert.
  rewrite E2. run. destruct Hcase as [(Hlt2 & Ho2 & Hg2) | (-> & -> & Hdown)].
  - destruct (Nat.eqb_spec j j2); [lia|]. exists h2. split_and!; try done.
    split; try done. rewrite Hp2, Ha2, Hlen1. done.
  - rewrite Nat.eqb_refl. destruct Hdown as (h3 & j3 & -> & Hp3 & [Ha3 Hs3] & Ho3 & Hc3). run.
    exists h3. split_and!; try done. split; [done| |rewrite Hp3, Ha3, Hlen1; done].
    destruct Hc3 as [[-> ->] | [_ ?]]; done.
Qed.

(** The array after the element at [j] is replaced by the last one (nothing
    is replaced when [j] was the last). *)
Definition drop_at (l : list heap_elem) (j : nat) (last : heap_elem) : list heap_elem :=
  <[j := last]> (take (length l - 1) l).

Lemma drop_at_perm (l : list heap_elem) (j : nat) (o last : heap_elem) :
  l !! j = Some o -> l !! (length l - 1)%nat = Some last -> l ≡ₚ o :: drop_at l j last.
Proof.
  intros Hj Hl. unfold drop_at.
  destruct (decide (j < length l - 1)%nat) as [Hlt | Hge].
  - rewrite <- take_insert_lt by done. by apply swap_remove_perm.
  - rewrite list_insert_ge by (rewrite length_take; lia).
    rewrite <- (take_insert_ge l (length l - 1) j last) by lia. by apply swap_remove_perm.
Qed.

Lemma index_of_drop (l : list heap_elem) (j : nat) (o last : heap_elem) (k : Z) :
  NoDup (key <$> l) -> l !! j = Some o -> l !! (length l - 1)%nat = Some last ->
  k <> key last \/ j = (length l - 1)%nat ->
  delete (key o) (index_of l) !! k = index_of (drop_at l j last) !! k.
Proof.
  intros Hnd Hj Hl Hk. pose proof (drop_at_perm l j o last Hj Hl) as Hp.
  assert (Hnd' : NoDup (key <$> o :: drop_at l j last)) by (by rewrite <- Hp).
  rewrite fmap_cons in Hnd'. apply NoDup_cons in Hnd' as [Ho Hnd'].
  destruct (decide (k = key o)) as [-> | Hne].
  { rewrite lookup_delete_eq. symmetry. by apply index_of_None. }
  rewrite lookup_delete_ne by done. apply index_of_ext; try done.
  assert (Hkl : k <> key last) by (destruct Hk as [|E]; congruence).
  intros j' x <-. unfold drop_at. rewrite list_lookup_insert_Some, lookup_take_Some. split.
  - intros Hx. right. split; [congruence|]. split; [done|].
    pose proof (lookup_lt_Some _ _ _ Hx). destruct (decide (j' = length l - 1)%nat) as [-> | ?]; [congruence|lia].
  - intros [(-> & -> & _) | (_ & Hx & _)]; done.
Qed.

(** The state after the key was removed from the index and the array shrunk. *)
Lemma drop_good (h : heap I) (ix ix' : I) (m : gmap Z Z) (j : nat) (o last : heap_elem) :
  HAS_DIRECT_OPTION h = true -> good h None -> elems h !! j = Some o ->
  elems h !! (length (elems h) - 1)%nat = Some last ->
  (forall k, m !! k = index_of (elems h) !! k) -> ki_repr ix' (delete (key o) m) ->
  let h1 := with_elems (with_index h ix') (drop_at (elems h) j last) in
  good h1 (if decide (j = length (elems h) - 1)%nat then None else Some (key last)).
Proof.
  intros Hd Hg Hj Hl Hag Hr. destruct (Hg Hd) as (Hnd & _). intros h1 _.
  split.
  { change (NoDup (key <$> drop_at (elems h) j last)).
    assert (Hnd' : NoDup (key <$> o :: drop_at (elems h) j last)) by (by rewrite <- (drop_at_perm _ j o last)).
    rewrite fmap_cons in Hnd'. by apply NoDup_cons in Hnd' as [_ ?]. }
  exists ix'. split; [done|]. exists (delete (key o) m).
  assert (Hm : m = index_of (elems h)) by (by apply map_eq). split_and!; [done| |].
  - intros k Hk. rewrite Hm. change (elems h1) with (drop_at (elems h) j last).
    apply index_of_drop; try done. case_decide as Hc; [by right|]. left. congruence.
  - intros k Hk Hnone. case_decide as Hc; [done|]. injection Hk as <-. exfalso.
    assert (Hne : key o <> key last) by (intros E; by apply Hc, (keys_inj _ _ _ o last Hnd)).
    rewrite lookup_delete_ne, Hm, (index_of_elem _ _ _ Hnd Hl) in Hnone by done. discriminate.
Qed.

Lemma drop_at_length (l : list heap_elem) (j : nat) (x : heap_elem) : length (drop_at l j x) = (length l - 1)%nat.
Proof. unfold drop_at. rewrite length_insert, length_take. lia. Qed.

Lemma take_ordered (l : list heap_elem) (k : nat) : heap_ordered l -> heap_ordered (take k l).
Proof. apply ordered_sub. intros j x [? _]%lookup_take_Some. done. Qed.

(** The last element of a non-empty heap. *)
Lemma last_elem (h : heap I) :
  (0 < length (elems h))%nat -> exists last, elems h !! (length (elems h) - 1)%nat = Some last.
Proof. intros Hn. apply lookup_lt_is_Some_2. lia. Qed.

(** What is left of a removal once the array has shrunk: bubble down, and set
    the key again when the element has not moved. *)
Lemma finish_down (h : heap I) (i : nat) (e : heap_elem) (r : res (heap I * nat)) :
  elems h !! i = Some e -> good h (Some (key e)) -> down_post h i r ->
  exists h1 j, r = Ret (h1, j) /\ HAS_DIRECT_OPTION h1 = HAS_DIRECT_OPTION h /\
    exists h', (if HAS_DIRECT_OPTION h && (i =? j)%nat then x ← elem_at h1 j; index_set h1 (key x) j else Ret h1) = Ret h' /\
    elems h' ≡ₚ elems h /\ same_frame h h' /\ heap_ordered (elems h') /\ good h' None.
Proof.
  intros He Hg Hd. destruct (down_ok h h i e r He Hg Hd) as (h1 & j & -> & Hp & [Ha Hs] & Ho & Hg1 & Hmoved & Hsame).
  exists h1, j. pose proof (same_direct h h1 Hs) as Hdir1. split_and!; [done|done|].
  destruct (HAS_DIRECT_OPTION h) eqn:Hdir; cbn [andb].
  - destruct (Nat.eqb_spec i j) as [<- | Hne].
    + unfold elem_at. rewrite Hsame by done. run.
      destruct (close_hole h1 i e) as (h2 & -> & Hel & Hg2 & [Ha2 Hs2]); try done; [by apply Hsame|].
      exists h2. rewrite Hel. split_and!; try done. split; congruence.
    + exists h1. split_and!; try done. by apply Hmoved.
  - exists h1. split_and!; try done. intros Hd1. congruence.
Qed.

(** Both removals drop the element at [j]; [h0] is the heap whose index has
    already lost the key. *)
Lemma remove_min_ok (h : heap I) (o : heap_elem) :
  total_preorder -> heap_wf h -> elems h !! 0%nat = Some o ->
  exists h', zbx_binary_heap_remove_min h = Ret h' /\ heap_wf h' /\ elems h ≡ₚ o :: elems h' /\
    options h' = options h.
Proof.
  intros tp [Ho Hg Hl] Hroot. pose proof (lookup_lt_Some _ _ _ Hroot) as Hlen.
  destruct (last_elem h Hlen) as [last Hlast].
  unfold zbx_binary_heap_remove_min. destruct (Nat.eqb_spec (length (elems h)) 0) as [|_]; [lia|].
  set (P := fun h0 : heap I => elems h0 = elems h /\ elems_alloc h0 = elems_alloc h /\ options h0 = options h /\
    good (with_elems h0 (drop_at (elems h) 0 last))
         (if decide (0 = length (elems h) - 1)%nat then None else Some (key last))).
  assert (Hidx : exists h0, (if HAS_DIRECT_OPTION h then i ← the_index h; e ← elem_at h 0;
      i ← ki_remove i (key e); Ret (with_index h i) else Ret h) = Ret h0 /\ P h0).
  { destruct (HAS_DIRECT_OPTION h) eqn:Hd.
    - destruct (index_lookup h 0 o Hd Hg Hroot) as (ix & m & Hix & Hr & Hnd & Hag & _).
      destruct (ki_remove_ok ix m (key o) Hr) as (ix' & E & Hr').
      unfold the_index, elem_at. rewrite Hix, Hroot. run. rewrite E. run. eexists. split; [reflexivity|].
      split_and!; try done. by apply (drop_good h ix ix' m 0 o last).
    - exists h. split; [done|]. split_and!; try done. intros Hd'. change (HAS_DIRECT_OPTION h = true) in Hd'. congruence. }
  destruct Hidx as (h0 & -> & He0 & Ha0 & Hs0 & Hg1). run.
  assert (Hel : elem_at h0 (length (elems h0) - 1) = Ret last) by (unfold elem_at; by rewrite He0, Hlast).
  rewrite Hel. run. unfold pop_elem. rewrite He0.
  pose proof (drop_at_perm (elems h) 0 o last Hroot Hlast) as Hperm.
  assert (Hl1 : length (take (length (elems h) - 1) (elems h)) = (length (elems h) - 1)%nat) by (rewrite length_take; lia).
  unfold with_elems at 1. cbn [elems]. rewrite Hl1.
  destruct (Nat.eqb_spec (length (elems h) - 1) 0) as [E | E].
  - assert (Hd0 : drop_at (elems h) 0 last = take (length (elems h) - 1) (elems h)).
    { unfold drop_at. apply list_insert_ge. rewrite Hl1. lia. }
    rewrite decide_True in Hg1 by lia. rewrite Hd0 in Hg1, Hperm.
    eexists. split; [reflexivity|]. split_and!; [|done|done].
    split; [by apply take_ordered|done|]. cbn [elems elems_alloc with_elems]. rewrite Hl1, Ha0. lia.
  - unfold elem_write. unfold with_elems at 1. cbn [elems]. rewrite Hl1.
    destruct (Nat.ltb_spec 0 (length (elems h) - 1)); [|lia]. run.
    change (with_elems (with_elems h0 (take (length (elems h) - 1) (elems h)))
       (<[0%nat:=last]> (elems (with_elems h0 (take (length (elems h) - 1) (elems h))))))
      with (with_elems h0 (drop_at (elems h) 0 last)).
    set (h1 := with_elems h0 _) in *. rewrite decide_False in Hg1 by lia.
    assert (Hlen1 : length (elems h1) = (length (elems h) - 1)%nat) by apply drop_at_length.
    assert (He1 : elems h1 !! 0%nat = Some last) by (apply list_lookup_insert_eq; lia).
    destruct (finish_down h1 0 last (bubble_down h1 0)) as (h2 & j & E2 & Hdir2 & h' & Eh' & Hp & [Ha Hs] & Ho' & Hg'); try done.
    { apply (bubble_down_ok tp _ h1 0 last); try done; [lia| |intros ?; lia].
      apply ordered_but_write; [done|lia|]. by apply take_ordered. }
    rewrite E2. run. rewrite Hdir2, Nat.eqb_sym. exists h'. split; [exact Eh'|]. split_and!.
    + split; [done|done|]. rewrite Hp, Hlen1, Ha. change (elems_alloc h1) with (elems_alloc h0). lia.
    + by rewrite Hp.
    + by rewrite Hs.
Qed.

Lemma remove_direct_ok (h : heap I) (j : nat) (o : heap_elem) :
  total_preorder -> heap_wf h -> HAS_DIRECT_OPTION h = true -> elems h !! j = Some o ->
  exists h', zbx_binary_heap_remove_direct h (key o) = Ret h' /\ heap_wf h' /\ elems h ≡ₚ o :: elems h' /\
    options h' = options h.
Proof.
  intros tp [Ho Hg Hl] Hd Hj. pose proof (lookup_lt_Some _ _ _ Hj) as Hlen.
  destruct (last_elem h ltac:(lia)) as [last Hlast].
  unfold zbx_binary_heap_remove_direct. rewrite Hd. cbn [negb].
  destruct (index_lookup h j o Hd Hg Hj) as (ix & m & Hix & Hr & Hnd & Hag & Hget).
  destruct (ki_remove_ok ix m (key o) Hr) as (ix' & E & Hr').
  unfold the_index. rewrite Hix. run. rewrite Hget. run.
  destruct (Z.eqb_spec (Z.of_nat j) FAIL) as [F | _]; [unfold FAIL in F; lia|]. rewrite Nat2Z.id, E. run.
  assert (Hel : elem_at (with_index h ix') (length (elems (with_index h ix')) - 1) = Ret last)
    by (unfold elem_at; cbn [elems with_index]; by rewrite Hlast).
  rewrite Hel. run.
  pose proof (drop_good h ix ix' m j o last Hd Hg Hj Hlast Hag Hr') as Hg1. cbn zeta in Hg1.
  pose proof (drop_at_perm (elems h) j o last Hj Hlast) as Hperm.
  assert (Hl1 : length (take (length (elems h) - 1) (elems h)) = (length (elems h) - 1)%nat) by (rewrite length_take; lia).
  unfold pop_elem. cbn [elems with_index with_elems]. rewrite Hl1.
  destruct (Nat.eqb_spec j (length (elems h) - 1)) as [F | F].
  - assert (Hd0 : drop_at (elems h) j last = take (length (elems h) - 1) (elems h)).
    { unfold drop_at. apply list_insert_ge. rewrite Hl1. lia. }
    rewrite decide_True in Hg1 by lia. rewrite Hd0 in Hg1, Hperm.
    eexists. split; [reflexivity|]. split_and!; [|done|done].
    split; [by apply take_ordered|done|]. cbn [elems elems_alloc with_elems with_index]. rewrite Hl1. lia.
  - unfold elem_write. cbn [elems with_elems]. rewrite Hl1.
    destruct (Nat.ltb_spec j (length (elems h) - 1)); [|lia]. run.
    change (with_elems (with_elems (with_index h ix') (take (length (elems h) - 1) (elems h)))
       (<[j:=last]> (take (length (elems h) - 1) (elems h))))
      with (with_elems (with_index h ix') (drop_at (elems h) j last)).
    set (h1 := with_elems (with_index h ix') _) in *. rewrite decide_False in Hg1 by lia.
    assert (Hlen1 : length (elems h1) = (length (elems h) - 1)%nat) by apply drop_at_length.
    assert (He1 : elems h1 !! j = Some last) by (apply list_lookup_insert_eq; lia).
    destruct (settle_ok h1 j last tp He1) as (h2 & j2 & E2 & Hp2 & [Ha2 Hs2] & Hcase); [|done|].
    { apply ordered_but_write; [done|lia|]. by apply take_ordered. }
    rewrite E2. run. destruct Hcase as [(Hlt2 & Ho2 & Hg2) | (-> & -> & Hdown)].
    + destruct (Nat.eqb_spec j j2); [lia|]. exists h2. split_and!; [done| |by rewrite Hp2|done].
      split; [done|done|]. rewrite Hp2, Hlen1, Ha2. change (elems_alloc h1) with (elems_alloc h). lia.
    + rewrite Nat.eqb_refl.
      destruct (finish_down h1 j last (bubble_down h1 j)) as (h3 & j3 & E3 & Hdir3 & h' & Eh' & Hp & [Ha Hs] & Ho' & Hg'); try done.
      rewrite E3. run. change (HAS_DIRECT_OPTION h1) with (HAS_DIRECT_OPTION h) in Eh'. rewrite Hd in Eh'. cbn [andb] in Eh'.
      exists h'. split; [destruct (Nat.eqb_spec j j3) as [<- |]; exact Eh'|]. split_and!; [|by rewrite Hp|by rewrite Hs].
      split; [done|done|]. rewrite Hp, Hlen1, Ha. change (elems_alloc h1) with (elems_alloc h). lia.
Qed.

End BinaryHeap.

(** C34: zbx_binary_heap_insert on a well-formed heap (ordered by the callback,
    every key of a direct heap indexed at its position) exits on a key that a
    direct heap already holds, and otherwise returns a well-formed heap with
    the same elements and the new one. *)
Theorem heap_insert_correct {I : Type} `{KeyIndex I} (compare_func : heap_elem -> heap_elem -> Z)
    (realloc_ok : Z -> bool) (h : heap I) (e : heap_elem) :
  total_preorder compare_func -> heap_wf compare_func h -> (forall n, realloc_ok n = true) ->
  elems_alloc h * 3 < 2 ^ 31 -> heap_room h ->
  if HAS_DIRECT_OPTION h && bool_decide (key e ∈ key <$> elems h)
  then zbx_binary_heap_insert compare_func realloc_ok h e = Exit
  else exists h', zbx_binary_heap_insert compare_func realloc_ok h e = Ret h' /\
         heap_wf compare_func h' /\ elems h' ≡ₚ e :: elems h /\ options h' = options h.
Proof.
  intros tp Hwf Hre Hb Hroom. destruct (HAS_DIRECT_OPTION h && bool_decide (key e ∈ key <$> elems h)) eqn:Hc.
  - apply andb_true_iff in Hc as [Hd Hin%bool_decide_eq_true].
    apply list_elem_of_fmap in Hin as (o & Hk & [j Hj]%list_elem_of_lookup).
    destruct (index_lookup h j o Hd (wf_index _ _ Hwf) Hj) as (ix & m & Hix & _ & _ & _ & Hget).
    unfold zbx_binary_heap_insert. rewrite Hd. unfold the_index. rewrite Hix. run. rewrite Hk, Hget. run.
    destruct (Z.eqb_spec (Z.of_nat j) FAIL) as [F | _]; [unfold FAIL in F; lia|]. done.
  - apply insert_ok; try done. intros Hd Hin. rewrite Hd in Hc. cbn [andb] in Hc.
    by apply bool_decide_eq_false in Hc.
Qed.

(** C33: zbx_binary_heap_find_min returns an element not above any other, and
    zbx_binary_heap_remove_min removes exactly that element and keeps the heap
    well-formed; on an empty heap both exit. *)
Theorem heap_min_correct {I : Type} `{KeyIndex I} (compare_func : heap_elem -> heap_elem -> Z) (h : heap I) :
  total_preorder compare_func -> heap_wf compare_func h ->
  match elems h with
  | [] => zbx_binary_heap_find_min h = Exit /\ zbx_binary_heap_remove_min compare_func h = Exit
  | e :: _ =>
      zbx_binary_heap_find_min h = Ret e /\ (forall x, x ∈ elems h -> compare_func e x <= 0) /\
      exists h', zbx_binary_heap_remove_min compare_func h = Ret h' /\ heap_wf compare_func h' /\
        elems h ≡ₚ e :: elems h' /\ options h' = options h
  end.
Proof.
  intros tp Hwf. destruct (elems h) as [|e l] eqn:He.
  - unfold zbx_binary_heap_find_min, zbx_binary_heap_remove_min. by rewrite He.
  - assert (Hroot : elems h !! 0%nat = Some e) by (by rewrite He). split_and!.
    + unfold zbx_binary_heap_find_min, elem_at. by rewrite He.
    + rewrite <- He. by apply find_min_ok; [|apply Hwf|].
    + rewrite <- He. by apply remove_min_ok.
Qed.

(** zbx_binary_heap_update_direct and zbx_binary_heap_remove_direct find
    the element of a key wherever it is: they replace, respectively remove, it
    and nothing else, keep the heap well-formed, and exit on an unknown key. *)
Theorem heap_direct_correct {I : Type} `{KeyIndex I} (compare_func : heap_elem -> heap_elem -> Z)
    (h : heap I) (e : heap_elem) :
  total_preorder compare_func -> heap_wf compare_func h -> HAS_DIRECT_OPTION h = true ->
  (forall j o, elems h !! j = Some o -> key o = key e ->
     (exists h', zbx_binary_heap_update_direct compare_func h e = Ret h' /\ heap_wf compare_func h' /\
        elems h' ≡ₚ <[j := e]> (elems h)) /\
     (exists h', zbx_binary_heap_remove_direct compare_func h (key e) = Ret h' /\ heap_wf compare_func h' /\
        elems h ≡ₚ o :: elems h')) /\
  (key e ∉ key <$> elems h ->
     zbx_binary_heap_update_direct compare_func h e = Exit /\
     zbx_binary_heap_remove_direct compare_func h (key e) = Exit).
Proof.
  intros tp Hwf Hd. split.
  - intros j o Hj Hk. split.
    + destruct (update_direct_ok compare_func h j o e tp Hwf Hd Hj Hk) as (h' & ? & ? & ? & _). by exists h'.
    + rewrite <- Hk. destruct (remove_direct_ok compare_func h j o tp Hwf Hd Hj) as (h' & ? & ? & ? & _). by exists h'.
  - intros Hno. destruct (wf_index _ _ Hwf Hd) as (Hnd & ix & Hix & m & Hr & Hag & _).
    assert (Hget : ki_get ix (key e) = Ret FAIL).
    { rewrite (ki_get_ok _ _ _ Hr), (Hag (key e)) by done. by apply index_of_None in Hno as ->. }
    unfold zbx_binary_heap_update_direct, zbx_binary_heap_remove_direct, the_index.
    rewrite Hd, Hix. run. rewrite Hget. done.
Qed.

(* ------------------------------------------------------------------ *)
(** ** Concrete runs, with the hashmap as the index *)

Definition by_data (a b : heap_elem) : Z := data a - data b.

Lemma by_data_total : total_preorder by_data.
Proof. unfold total_preorder, le, by_data. split; lia. Qed.

Definition always (n : Z) : bool := true.

(** The empty direct heap before its index allocates any chain. *)
Definition heap0 : heap hashmap := mkHeap [] 0 ZBX_BINARY_HEAP_OPTION_DIRECT (Some (mkHashmap [] 0)).

Lemma hm_empty : hm_repr zbx_hash_splittable64 (mkHashmap [] 0) ∅.
Proof. split; simpl; try done; by left. Qed.

Lemma heap0_wf : heap_wf by_data heap0.
Proof.
  split; [by intros [|?] ? | | done]. intros _. split; [constructor|].
  exists (mkHashmap [] 0). split; [done|]. exists ∅. split_and!; [apply hm_empty|done|done].
Qed.

Lemma heap0_room : heap_room heap0.
Proof. intros _ ix [= <-]. unfold ki_room, hashmap_key_index, hm_room, num_slots. simpl. lia. Qed.

Lemma heap_insert_correct_witness :
  exists h', zbx_binary_heap_insert by_data always heap0 (mkElem 7 30) = Ret h' /\
    heap_wf by_data h' /\ elems h' ≡ₚ [mkElem 7 30] /\ options h' = 1.
Proof.
  pose proof (heap_insert_correct by_data always heap0 (mkElem 7 30) by_data_total heap0_wf
    ltac:(done) ltac:(simpl; lia) heap0_room) as Hi.
  destruct (HAS_DIRECT_OPTION heap0 && bool_decide (key (mkElem 7 30) ∈ key <$> elems heap0)) eqn:E in Hi; [discriminate E|].
  exact Hi.
Defined.

Lemma heap1 : exists h : heap hashmap, heap_wf by_data h /\ elems h ≡ₚ [mkElem 7 30] /\ options h = 1.
Proof.
  destruct (insert_ok by_data always heap0 (mkElem 7 30)) as (h & _ & Hwf & Hp & Ho);
    [apply by_data_total|apply heap0_wf|done|simpl; lia|apply heap0_room| |by exists h].
  intros _. simpl. by apply not_elem_of_nil.
Qed.

Lemma heap_min_correct_witness :
  exists h : heap hashmap, elems h = [mkElem 7 30] /\
    zbx_binary_heap_find_min h = Ret (mkElem 7 30) /\
    exists h', zbx_binary_heap_remove_min by_data h = Ret h' /\ elems h' = [].
Proof.
  destruct heap1 as (h & Hwf & Hp%Permutation_singleton_r & Ho). exists h. split; [exact Hp|].
  pose proof (heap_min_correct by_data h by_data_total Hwf) as Hm. rewrite Hp in Hm.
  destruct Hm as (Hf & _ & h' & Er & _ & Hp' & _). split; [exact Hf|]. exists h'. split; [exact Er|].
  symmetry in Hp'. apply Permutation_singleton_r in Hp'. by injection Hp'.
Defined.

Lemma heap_direct_correct_witness :
  exists h : heap hashmap, elems h = [mkElem 7 30] /\
    (exists h', zbx_binary_heap_update_direct by_data h (mkElem 7 5) = Ret h' /\ elems h' = [mkElem 7 5]) /\
    zbx_binary_heap_remove_direct by_data h 8 = Exit.
Proof.
  destruct heap1 as (h & Hwf & Hp%Permutation_singleton_r & Ho). exists h. split; [exact Hp|].
  assert (Hd : HAS_DIRECT_OPTION h = true) by (unfold HAS_DIRECT_OPTION; by rewrite Ho). split.
  - destruct (heap_direct_correct by_data h (mkElem 7 5) by_data_total Hwf Hd) as [Hin _].
    destruct (Hin 0%nat (mkElem 7 30)) as [(h' & E & _ & Hp') _]; [by rewrite Hp|done|].
    exists h'. split; [exact E|]. rewrite Hp in Hp'. by apply Permutation_singleton_r in Hp'.
  - destruct (heap_direct_correct by_data h (mkElem 8 0) by_data_total Hwf Hd) as [_ Hout].
    apply Hout. rewrite Hp. simpl. intros Hi%list_elem_of_singleton. discriminate.
Defined.

(** A run of the whole component: ten inserts, then the keys leave in order
    of their data. *)
Definition fill (ks : list Z) : res (heap hashmap) :=
  foldl (fun r k => h ← r; zbx_binary_heap_insert by_data always h (mkElem k ((k * 7) mod 11)))
    (zbx_binary_heap_create_ext ZBX_BINARY_HEAP_OPTION_DIRECT) ks.

Fixpoint drain (n : nat) (h : heap hashmap) : res (list Z) :=
  match n with
  | O => Ret []
  | S n => e ← zbx_binary_heap_find_min h; h ← zbx_binary_heap_remove_min by_data h;
           ds ← drain n h; Ret (data e :: ds)
  end.

Example drain_sorted : (h ← fill [1;2;3;4;5;6;7;8;9;10]; drain 10 h) = Ret [1;2;3;4;5;6;7;8;9;10].
Proof. vm_compute. reflexivity. Qed.
