(* ===== verification/Num.v ===== *)
(** Numeric parsers and the number trimmer: src/src/libs/zbxnum/num.c (and
    suffix2factor of src/src/libs/zbxcommon/misc.c).  A [char *] is the list of
    the bytes before the terminating NUL; a pointer into it is a suffix. *)

From stdpp Require Import base list numbers strings.
From Stdlib Require Import ZArith Lia.
From S2P Require Import Prelude.

Open Scope Z_scope.

(** *str, the NUL included. *)
Definition hd0 (s : list Z) : Z := match s with [] => 0 | c :: _ => c end.

(** The digit loop of zbx_is_uint_n_range: [None] is the early FAIL. *)
Fixpoint uint_loop (s : list Z) (n : nat) (value : Z) : option Z :=
  match s, n with
  | [], _ | _, O => Some value
  | ch :: s, S n =>
      if negb (isdigit ch) then None else
      let c := u8 (ch - 48) in
      if (ZBX_MAX_UINT64 - c) / 10 <? value then None
      else uint_loop s n (value * 10 + c)
  end.

(** The [size] low bytes of the result that memcpy stores. *)
Definition store_bytes (size value : Z) : Z := value mod 2 ^ (8 * size).

(** [want] tells whether the output pointer is not NULL; [Some v] is SUCCEED
    with [v] the stored value (0 when nothing is stored). *)
Definition zbx_is_uint_n_range (str : option (list Z)) (n : nat) (want : bool) (size min max : Z)
  : option Z :=
  match str with
  | None => None
  | Some s =>
      if (hd0 s =? 0) || (n =? 0)%nat || (8 <? size) || ((size =? 0) && want) then None else
      match uint_loop s n 0 with
      | None => None
      | Some value =>
          if (value <? min) || (max <? value) then None
          else Some (if want then store_bytes size value else 0)
      end
  end.

Definition hex_digit (ch : Z) : option Z :=
  if (48 <=? ch) && (ch <=? 57) then Some (ch - 48)
  else if (97 <=? ch) && (ch <=? 102) then Some (10 + (ch - 97))
  else if (65 <=? ch) && (ch <=? 70) then Some (10 + (ch - 65))
  else None.

Fixpoint hex_loop (s : list Z) (n : nat) (len value : Z) : option Z :=
  match s, n with
  | [], _ | _, O => Some value
  | ch :: s, S n =>
      match hex_digit ch with
      | None => None
      | Some c =>
          let len := len + 1 in
          if (16 <? len) && (Z.shiftr ZBX_MAX_UINT64 4 <? value) then None
          else hex_loop s n len (u64 (Z.shiftl value 4 + c))
      end
  end.

Definition zbx_is_hex_n_range (s : list Z) (n : nat) (want : bool) (size min max : Z) : option Z :=
  if (hd0 s =? 0) || (n =? 0)%nat || (8 <? size) || ((size =? 0) && want) then None else
  match hex_loop s n 0 0 with
  | None => None
  | Some value =>
      if (value <? min) || (max <? value) then None
      else Some (if want then store_bytes size value else 0)
  end.

(** ZBX_SIZE_T_MAX characters: the whole string. *)
Definition zbx_is_uint31 (s : list Z) : option Z :=
  zbx_is_uint_n_range (Some s) (S (length s)) true 4 0 (2 ^ 31 - 1).

Definition zbx_is_uint64_n (s : list Z) (n : nat) : option Z :=
  zbx_is_uint_n_range (Some s) n true 8 0 ZBX_MAX_UINT64.

Definition suffix2factor (c : Z) : Z :=
  if c =? 75 (* K *) then 1024
  else if c =? 77 (* M *) then 1024 * 1024
  else if c =? 71 (* G *) then 1024 * 1024 * 1024
  else if c =? 84 (* T *) then 1024 * 1024 * 1024 * 1024
  else if c =? 115 (* s *) then 1
  else if c =? 109 (* m *) then 60
  else if c =? 104 (* h *) then 3600
  else if c =? 100 (* d *) then 86400
  else if c =? 119 (* w *) then 7 * 86400
  else 1.

(** The last character of the empty string is read before the buffer. *)
Definition zbx_str2uint64 (str suffixes : list Z) : res (option Z) :=
  let sz := length str in
  match last str with
  | None => Undef
  | Some p =>
      let '(factor, sz) :=
        match strchr suffixes 0 p with
        | Some _ => (suffix2factor p, (sz - 1)%nat)
        | None => (1, sz)
        end in
      Ret ((fun v => u64 (v * factor)) <$> zbx_is_uint64_n str sz)
  end.

(** number[*len], [number] being the whole string. *)
Fixpoint skip_digits (fuel : nat) (number : list Z) (len : nat) : res nat :=
  if isdigit (chr number len) then
    match fuel with O => NoFuel | S fuel => skip_digits fuel number (S len) end
  else Ret len.

Definition is_e (c : Z) : bool := (c =? 101) || (c =? 69).

(** [Some len] is SUCCEED; every round consumes a character of the string. *)
Fixpoint number_loop (fuel : nat) (number : list Z) (len : nat) (digits dots : Z) : res (option nat) :=
  match fuel with
  | O => NoFuel
  | S fuel =>
      let c := chr number len in
      if isdigit c then number_loop fuel number (S len) (digits + 1) dots
      else if c =? 46 then number_loop fuel number (S len) digits (dots + 1)
      else
        let finish len := Ret (if (digits <? 1) || (1 <? dots) then None else Some len) in
        if is_e c then
          let len := S len in
          let len := if (chr number len =? 45) || (chr number len =? 43) then S len else len in
          if negb (isdigit (chr number len)) then Ret None else
          len ← skip_digits fuel number (S len);
          if (chr number len =? 46) || is_e (chr number len) then Ret None else finish len
        else finish len
  end.

Definition zbx_number_parse (number : list Z) : res (option nat) :=
  number_loop (length number + 2) number 0 0 0.

Definition is_double_valid_syntax (str : list Z) : res bool :=
  let s := if (hd0 str =? 45) || (hd0 str =? 43) then tail str else str in
  r ← zbx_number_parse s;
  Ret (match r with Some len => chr s len =? 0 | None => false end).

(** zbx_trim_number works in place between [left] and [right]; the new string
    is what lies between them. *)
Fixpoint skip_left (s : list Z) (left : nat) (fuel : nat) : nat :=
  match fuel with
  | O => left
  | S fuel => if chr s left =? 32 then skip_left s (S left) fuel else left
  end.

Fixpoint skip_right (s : list Z) (left right : nat) : nat :=
  match right with
  | O => right
  | S right' => if (chr s right =? 32) && (left <? right)%nat then skip_right s left right' else right
  end.

Definition zbx_trim_number (str : list Z) (strip_plus_sign : bool) : list Z :=
  match length str with
  | O => str
  | S last =>
      let l := skip_left str 0 (length str) in
      let r := skip_right str l last in
      let quoted := (chr str l =? 34) && (chr str r =? 34) && (l <? r)%nat in
      let l := if quoted then S l else l in
      let r := if quoted then (r - 1)%nat else r in
      let l := if strip_plus_sign && (chr str l =? 43) then S l else l in
      if (r <? l)%nat then [] else take (r - l + 1) (drop l str)
  end.

Definition zbx_trim_integer (str : list Z) : list Z := zbx_trim_number str true.
Definition zbx_trim_float (str : list Z) : list Z := zbx_trim_number str false.

(** Groups of three characters; [true] is SUCCEED. *)
Fixpoint hex_string_loop (s : list Z) : bool :=
  match s with
  | [] => true
  | c0 :: s0 =>
      if negb (isxdigit c0) then false else
      match s0 with
      | [] => false
      | c1 :: s1 =>
          if negb (isxdigit c1) then false else
          match s1 with
          | [] => true
          | c2 :: s2 => if negb (c2 =? 32) && negb (c2 =? 10) then false else hex_string_loop s2
          end
      end
  end.

Definition zbx_is_hex_string (str : list Z) : bool :=
  if hd0 str =? 0 then false else hex_string_loop str.

Definition zbx_is_int (str : list Z) : option Z :=
  let '(ptr, sign) := if hd0 str =? 45 then (tail str, -1) else (str, 1) in
  (fun v => v * sign) <$> zbx_is_uint31 ptr.

(* ------------------------------------------------------------------ *)
(** ** Unsigned parsers *)

(** Value of a digit string in a base. *)
Definition digits_value (base : Z) (ds : list Z) : Z := foldl (fun v d => v * base + d) 0 ds.

Definition dec_digits (s : list Z) : list Z := (fun ch => ch - 48) <$> s.

Lemma digits_value_app (base : Z) (ds es : list Z) :
  digits_value base (ds ++ es) = foldl (fun v d => v * base + d) (digits_value base ds) es.
Proof. unfold digits_value. by rewrite foldl_app. Qed.

Lemma foldl_ge (base v : Z) (ds : list Z) :
  1 <= base -> 0 <= v -> Forall (fun d => 0 <= d) ds -> v <= foldl (fun v d => v * base + d) v ds.
Proof.
  intros Hb. revert v. induction ds as [|d ds IH]; intros v Hv Hd; simpl; [lia|].
  inversion_clear Hd as [|? ? Hd0 Hds]. specialize (IH (v * base + d) ltac:(nia) Hds). nia.
Qed.

Lemma isdigit_range (ch : Z) : isdigit ch = true <-> 48 <= ch <= 57.
Proof. unfold isdigit. rewrite andb_true_iff, !Z.leb_le. lia. Qed.

(** The loop accepts exactly the digit strings whose value fits in 64 bits. *)
Lemma uint_loop_spec (s : list Z) (n : nat) (v w : Z) :
  0 <= v <= ZBX_MAX_UINT64 ->
  uint_loop s n v = Some w <->
  Forall (fun ch => isdigit ch = true) (take n s) /\
  foldl (fun v d => v * 10 + d) v (dec_digits (take n s)) = w /\ w <= ZBX_MAX_UINT64.
Proof.
  revert n v. induction s as [|ch s IH]; intros n v Hv.
  - rewrite take_nil. destruct n; simpl; (split; [intros [= <-]; split_and!; [constructor|done|lia] | by intros (_ & -> & _)]).
  - destruct n as [|n]; simpl; [split; [intros [= <-]; split_and!; [constructor|done|lia] | by intros (_ & -> & _)]|].
    destruct (isdigit ch) eqn:Hd; cbn [negb]; cycle 1.
    { split; [discriminate|]. intros (Hf & _). inversion Hf. congruence. }
    apply isdigit_range in Hd as Hr. rewrite u8_small by lia.
    destruct (Z.ltb_spec ((ZBX_MAX_UINT64 - (ch - 48)) / 10) v) as [Hlt | Hle].
    + split; [discriminate|]. intros (Hf & E & Hw). inversion_clear Hf as [|? ? _ Hf'].
      assert (Hge : v * 10 + (ch - 48) <= w).
      { rewrite <- E. apply foldl_ge; [lia|lia|]. unfold dec_digits. apply Forall_fmap.
        eapply Forall_impl; [exact Hf'|]. intros x Hx%isdigit_range. simpl. lia. }
      unfold ZBX_MAX_UINT64 in *. zlia.
    + rewrite IH by (unfold ZBX_MAX_UINT64 in *; zlia).
      rewrite Forall_cons. naive_solver.
Qed.

Lemma hd0_nonempty (s : list Z) : Forall (fun c => c <> 0) s -> (hd0 s =? 0) = match s with [] => true | _ => false end.
Proof.
  intros Hs. destruct s as [|c s]; simpl; [done|]. inversion_clear Hs.
  by destruct (Z.eqb_spec c 0).
Qed.

Lemma digits_nonzero (s : list Z) : Forall (fun ch => isdigit ch = true) s -> Forall (fun c => c <> 0) s.
Proof. intros Hs. eapply Forall_impl; [exact Hs|]. intros c Hc%isdigit_range. lia. Qed.

(** The value of a parse: the first [n] characters, read as a decimal. *)
Lemma uint_range_spec (s : list Z) (n : nat) (want : bool) (size min max v : Z) :
  Forall (fun c => c <> 0) s -> 0 < size <= 8 -> max <= ZBX_MAX_UINT64 ->
  zbx_is_uint_n_range (Some s) n want size min max = Some v <->
  let ds := take n s in
  ds <> [] /\ Forall (fun ch => isdigit ch = true) ds /\
  min <= digits_value 10 (dec_digits ds) <= max /\
  v = if want then store_bytes size (digits_value 10 (dec_digits ds)) else 0.
Proof.
  intros Hs Hsize Hmax. unfold zbx_is_uint_n_range. rewrite (hd0_nonempty s Hs). cbn zeta.
  destruct (Z.ltb_spec 8 size); [lia|]. destruct (Z.eqb_spec size 0); [lia|]. cbn [andb]. rewrite !orb_false_r.
  destruct s as [|ch s']; [cbn [orb]; rewrite take_nil; split; [discriminate | by intros (? & _)]|].
  cbn [orb]. set (s := ch :: s') in *.
  destruct (Nat.eqb_spec n 0) as [-> | Hn].
  { split; [discriminate | by intros (? & _)]. }
  assert (Hne : take n s <> []) by (by destruct n).
  assert (H0 : 0 <= 0 <= ZBX_MAX_UINT64) by (unfold ZBX_MAX_UINT64; lia).
  destruct (uint_loop s n 0) as [w|] eqn:E.
  - apply uint_loop_spec in E as (Hf & Ew & Hw); [|done]. unfold digits_value. rewrite Ew.
    destruct (Z.ltb_spec w min), (Z.ltb_spec max w); cbn [orb];
      (split; [first [discriminate | intros [= <-]; split_and!; done || lia] | ]).
    1-3: intros (_ & _ & ? & _); lia.
    by intros (_ & _ & _ & ->).
  - split; [discriminate|]. intros (_ & Hf & Hr & _).
    assert (Es : uint_loop s n 0 = Some (digits_value 10 (dec_digits (take n s)))).
    { apply uint_loop_spec; [done|]. split_and!; [done|done|lia]. }
    congruence.
Qed.

(** zbx_is_uint_n_range succeeds exactly when the first n characters (all
    of them when the string is shorter) are one or more decimal digits whose
    value lies in [min, max], and then stores that value: no overflow of the
    64-bit accumulator is ever accepted. *)
Theorem uint_n_range_exact (s : list Z) (n : nat) (min max : Z) :
  Forall (fun c => c <> 0) s -> 0 <= min -> max <= ZBX_MAX_UINT64 ->
  match zbx_is_uint_n_range (Some s) n true 8 min max with
  | Some v => take n s <> [] /\ Forall (fun ch => isdigit ch = true) (take n s) /\
              v = digits_value 10 (dec_digits (take n s)) /\ min <= v <= max
  | None => take n s = [] \/ ~ Forall (fun ch => isdigit ch = true) (take n s) \/
            ~ min <= digits_value 10 (dec_digits (take n s)) <= max
  end.
Proof.
  intros Hs Hmin Hmax.
  assert (Hspec := fun v => uint_range_spec s n true 8 min max v Hs ltac:(lia) Hmax). cbn zeta in Hspec.
  destruct (zbx_is_uint_n_range (Some s) n true 8 min max) as [v|].
  - destruct (proj1 (Hspec v) eq_refl) as (Hne & Hf & Hr & ->).
    unfold store_bytes. rewrite Z.mod_small; [done|]. unfold ZBX_MAX_UINT64 in *. simpl. lia.
  - destruct (decide (take n s = [])) as [|Hne]; [by left|]. right.
    destruct (decide (Forall (fun ch => isdigit ch = true) (take n s))) as [Hf|]; [|by left]. right.
    intros Hr. by discriminate (proj2 (Hspec _) (conj Hne (conj Hf (conj Hr eq_refl)))).
Qed.

Lemma uint_n_range_exact_witness :
  match zbx_is_uint_n_range (Some (bytes_of "18446744073709551615")) 20 true 8 0 ZBX_MAX_UINT64 with
  | Some v => v = ZBX_MAX_UINT64
  | None => False
  end.
Proof.
  pose proof (uint_n_range_exact (bytes_of "18446744073709551615") 20 0 ZBX_MAX_UINT64
    ltac:(by repeat constructor) ltac:(done) ltac:(done)) as H.
  destruct (zbx_is_uint_n_range _ _ _ _ _ _) as [v|] eqn:E in H |- *.
  - destruct H as (_ & _ & -> & _). vm_compute. reflexivity.
  - vm_compute in E. discriminate E.
Defined.

(* ------------------------------------------------------------------ *)
(** ** Hexadecimal *)

Definition hex_digits (s : list Z) : list Z := (fun ch => default 0 (hex_digit ch)) <$> s.

Lemma hex_digit_range (ch d : Z) : hex_digit ch = Some d -> 0 <= d < 16.
Proof.
  unfold hex_digit. intros Hd.
  repeat match goal with
  | H : (if (?a <=? ?b) && (?c <=? ?e) then _ else _) = _ |- _ =>
      destruct (Z.leb_spec a b), (Z.leb_spec c e); cbn [andb] in H
  end; simplify_eq; lia.
Qed.

Lemma hex_loop_spec (s : list Z) (n : nat) (len v w : Z) :
  0 <= len -> 0 <= v <= ZBX_MAX_UINT64 -> (len <= 16 -> v < 16 ^ len) ->
  hex_loop s n len v = Some w <->
  Forall (fun ch => is_Some (hex_digit ch)) (take n s) /\
  foldl (fun v d => v * 16 + d) v (hex_digits (take n s)) = w /\ w <= ZBX_MAX_UINT64.
Proof.
  revert n len v. induction s as [|ch s IH]; intros n len v Hlen Hv Hpow.
  - rewrite take_nil. destruct n; simpl; (split; [intros [= <-]; split_and!; [constructor|done|lia] | by intros (_ & -> & _)]).
  - destruct n as [|n]; simpl; [split; [intros [= <-]; split_and!; [constructor|done|lia] | by intros (_ & -> & _)]|].
    destruct (hex_digit ch) as [d|] eqn:Hd; cycle 1.
    { split; [discriminate|]. intros (Hf & _). inversion_clear Hf as [|? ? [? ?] _]. congruence. }
    pose proof (hex_digit_range _ _ Hd) as Hr. simpl. rewrite Z.shiftr_div_pow2, Z.shiftl_mul_pow2 by lia.
    change (2 ^ 4) with 16.
    destruct (Z.ltb_spec 16 (len + 1)) as [Hl | Hl], (Z.ltb_spec (ZBX_MAX_UINT64 / 16) v) as [Hm | Hm]; cbn [andb].
    + split; [discriminate|]. intros (Hf & E & Hw). inversion_clear Hf as [|? ? _ Hf'].
      assert (Hge : v * 16 + d <= w).
      { rewrite <- E. apply foldl_ge; [lia|lia|]. unfold hex_digits. apply Forall_fmap.
        eapply Forall_impl; [exact Hf'|]. intros x [dx Hx]. simpl. rewrite Hx. simpl.
        apply hex_digit_range in Hx. lia. }
      unfold ZBX_MAX_UINT64 in *. zlia.
    + rewrite u64_small by (unfold ZBX_MAX_UINT64 in *; zlia).
      rewrite IH by (unfold ZBX_MAX_UINT64 in *; zlia || lia). rewrite Forall_cons. naive_solver.
    + exfalso. assert (v < 16 ^ 15).
      { eapply Z.lt_le_trans; [apply Hpow; lia|]. apply Z.pow_le_mono_r; lia. }
      unfold ZBX_MAX_UINT64 in *. zlia.
    + assert (Hv16 : v < 16 ^ len) by (apply Hpow; lia).
      assert (Hp : 16 ^ (len + 1) = 16 * 16 ^ len) by (rewrite Z.pow_add_r by lia; lia).
      assert (Hle : 16 ^ len <= 16 ^ 15) by (apply Z.pow_le_mono_r; lia).
      assert (Hsmall : v * 16 + d < 16 ^ (len + 1)) by lia.
      assert (Hmax : v * 16 + d <= ZBX_MAX_UINT64) by (unfold ZBX_MAX_UINT64; lia).
      rewrite u64_small by (unfold ZBX_MAX_UINT64 in *; lia).
      rewrite IH by lia. rewrite Forall_cons. naive_solver.
Qed.

(** zbx_is_hex_n_range succeeds exactly on one or more hexadecimal digits
    whose value lies in [min, max]: the overflow test it starts after sixteen
    digits never lets a wrapped value through, leading zeros included. *)
Theorem hex_n_range_exact (s : list Z) (n : nat) (min max : Z) :
  Forall (fun c => c <> 0) s -> 0 <= min -> max <= ZBX_MAX_UINT64 ->
  match zbx_is_hex_n_range s n true 8 min max with
  | Some v => take n s <> [] /\ Forall (fun ch => is_Some (hex_digit ch)) (take n s) /\
              v = digits_value 16 (hex_digits (take n s)) /\ min <= v <= max
  | None => take n s = [] \/ ~ Forall (fun ch => is_Some (hex_digit ch)) (take n s) \/
            ~ min <= digits_value 16 (hex_digits (take n s)) <= max
  end.
Proof.
  intros Hs Hmin Hmax. unfold zbx_is_hex_n_range. rewrite (hd0_nonempty s Hs).
  destruct s as [|ch s']; [cbn [orb]; left; by rewrite take_nil|]. cbn [orb]. set (s := ch :: s') in *.
  destruct (Nat.eqb_spec n 0) as [-> | Hn]; [by left|].
  change (8 <? 8) with false. change (8 =? 0) with false. cbn [orb andb].
  assert (Hne : take n s <> []) by (by destruct n).
  assert (H0 : 0 <= 0 <= ZBX_MAX_UINT64) by (unfold ZBX_MAX_UINT64; lia).
  assert (Hspec := fun w => hex_loop_spec s n 0 0 w ltac:(lia) H0 ltac:(done)).
  destruct (hex_loop s n 0 0) as [w|].
  - destruct (proj1 (Hspec w) eq_refl) as (Hf & Ew & Hw). unfold digits_value. rewrite Ew.
    destruct (Z.ltb_spec w min), (Z.ltb_spec max w); cbn [orb]; [right; right; lia..|].
    unfold store_bytes. rewrite Z.mod_small; [split_and!; done || lia|].
    unfold ZBX_MAX_UINT64 in *. simpl. lia.
  - right. destruct (decide (Forall (fun ch => is_Some (hex_digit ch)) (take n s))) as [Hf|]; [|by left]. right.
    intros Hr. discriminate (proj2 (Hspec _) (conj Hf (conj eq_refl (Z.le_trans _ _ _ (proj2 Hr) Hmax)))).
Qed.

Lemma hex_n_range_exact_witness :
  match zbx_is_hex_n_range (bytes_of "000ffffFFFFffffffff") 19 true 8 0 ZBX_MAX_UINT64 with
  | Some v => v = 16 ^ 16 - 1
  | None => False
  end.
Proof.
  pose proof (hex_n_range_exact (bytes_of "000ffffFFFFffffffff") 19 0 ZBX_MAX_UINT64
    ltac:(by repeat constructor) ltac:(done) ltac:(done)) as H.
  destruct (zbx_is_hex_n_range _ _ _ _ _ _) as [v|] eqn:E in H |- *.
  - destruct H as (_ & _ & -> & _). vm_compute. reflexivity.
  - vm_compute in E. discriminate E.
Defined.

(* ------------------------------------------------------------------ *)
(** ** Decimal syntax *)

Definition is_mantissa_char (c : Z) : bool := isdigit c || (c =? 46).

Definition count_digits (m : list Z) : Z := Z.of_nat (length (filter (fun c => isdigit c = true) m)).
Definition count_dots (m : list Z) : Z := Z.of_nat (length (filter (fun c => c = 46) m)).

(** Digits with at most one dot among them, at least one digit. *)
Definition mantissa (m : list Z) : Prop :=
  Forall (fun c => is_mantissa_char c = true) m /\
  1 <= count_digits m /\ count_dots m <= 1.

Definition exponent (e : list Z) : Prop :=
  e = [] \/ exists c sg ds, e = c :: sg ++ ds /\ is_e c = true /\ (sg = [] \/ sg = [45] \/ sg = [43]) /\
    ds <> [] /\ Forall (fun c => isdigit c = true) ds.

(** The first character of the rest satisfies [P] ([0] at the end). *)
Lemma chr_app (pre t : list Z) : chr (pre ++ t) (length pre) = hd0 t.
Proof. unfold chr. rewrite app_nth2, Nat.sub_diag by lia. by destruct t. Qed.

Lemma skip_digits_spec (ds pre r : list Z) (fuel : nat) :
  Forall (fun c => isdigit c = true) ds -> isdigit (hd0 r) = false -> (length ds < fuel)%nat ->
  skip_digits fuel (pre ++ ds ++ r) (length pre) = Ret (length (pre ++ ds)).
Proof.
  revert pre fuel. induction ds as [|d ds IH]; intros pre fuel Hd Hr Hf; simpl in *.
  - destruct fuel; cbn [skip_digits]; rewrite chr_app, Hr, app_nil_r; done.
  - inversion_clear Hd as [|? ? Hd0 Hds]. destruct fuel as [|fuel]; [lia|].
    cbn [skip_digits]. rewrite chr_app. cbn [hd0]. rewrite Hd0.
    specialize (IH (pre ++ [d]) fuel Hds Hr ltac:(lia)).
    rewrite <- !app_assoc in IH. rewrite length_app in IH. simpl in IH. rewrite Nat.add_1_r in IH. done.
Qed.

(** The mantissa is consumed whole, counting its digits and dots. *)
Lemma number_loop_mantissa (m pre r : list Z) (fuel : nat) (digits dots : Z) :
  Forall (fun c => is_mantissa_char c = true) m ->
  number_loop (length m + fuel) (pre ++ m ++ r) (length pre) digits dots =
  number_loop fuel (pre ++ m ++ r) (length (pre ++ m)) (digits + count_digits m) (dots + count_dots m).
Proof.
  revert pre digits dots. induction m as [|c m IH]; intros pre digits dots Hm.
  - rewrite app_nil_r. unfold count_digits, count_dots. simpl. by rewrite !Z.add_0_r.
  - inversion_clear Hm as [|? ? Hc Hm']. cbn [length Nat.add number_loop]. rewrite chr_app.
    cbn [hd0 app]. specialize (IH (pre ++ [c])). rewrite <- !app_assoc in IH.
    rewrite !length_app in *. cbn [length] in *. rewrite !Nat.add_1_r in IH.
    unfold count_digits, count_dots in *. rewrite !filter_cons.
    unfold is_mantissa_char in Hc. destruct (isdigit c) eqn:Hd.
    + rewrite (decide_True (P := true = true)) by done.
      rewrite decide_False by (apply isdigit_range in Hd; lia).
      rewrite (IH _ _ Hm'). cbn [app length]. f_equal; lia.
    + cbn [orb] in Hc. rewrite Hc. apply Z.eqb_eq in Hc as ->.
      rewrite decide_False, decide_True by done.
      rewrite (IH _ _ Hm'). cbn [app length]. f_equal; lia.
Qed.

(** The longest prefix of [P] characters. *)
Lemma span_exists (P : Z -> bool) (s : list Z) :
  P 0 = false -> exists m r, s = m ++ r /\ Forall (fun c => P c = true) m /\ P (hd0 r) = false.
Proof.
  intros H0. induction s as [|c s (m & r & -> & Hm & Hr)]; [by exists [], []|].
  destruct (P c) eqn:Hc; [exists (c :: m), r | exists [], (c :: m ++ r)]; split_and!; try done.
  by constructor.
Qed.

Lemma span_unique (P : Z -> bool) (m m' r r' : list Z) :
  Forall (fun c => P c = true) m -> P (hd0 r) = false ->
  Forall (fun c => P c = true) m' -> P (hd0 r') = false -> m ++ r = m' ++ r' -> P 0 = false ->
  m = m' /\ r = r'.
Proof.
  intros Hm Hr Hm' Hr' E H0. revert m' Hm' E. induction m as [|c m IH]; intros m' Hm' E.
  - destruct m' as [|c' m']; [done|]. simpl in E. subst r. inversion_clear Hm'. simpl in Hr. congruence.
  - inversion_clear Hm as [|? ? Hc Hm0]. destruct m' as [|c' m'].
    + simpl in E. subst r'. simpl in Hr'. congruence.
    + simpl in E. injection E as <- E. inversion_clear Hm'. destruct (IH Hm0 m') as [-> ->]; done.
Qed.

(** What the exponent branch does with the characters after the mantissa. *)
Definition finish (digits dots : Z) (len : nat) : option nat :=
  if (digits <? 1) || (1 <? dots) then None else Some len.

Lemma number_loop_end (pre r : list Z) (fuel : nat) (digits dots : Z) :
  is_mantissa_char (hd0 r) = false -> is_e (hd0 r) = false ->
  number_loop (S fuel) (pre ++ r) (length pre) digits dots = Ret (finish digits dots (length pre)).
Proof.
  unfold is_mantissa_char. intros [Hd Hdot]%orb_false_iff He. cbn [number_loop].
  rewrite chr_app, Hd, Hdot, He. done.
Qed.

Lemma number_loop_exp (pre sg ds r : list Z) (c d : Z) (fuel : nat) (digits dots : Z) :
  is_e c = true -> (sg = [] \/ sg = [45] \/ sg = [43]) ->
  Forall (fun c => isdigit c = true) (d :: ds) -> isdigit (hd0 r) = false -> (length ds < fuel)%nat ->
  number_loop (S fuel) (pre ++ c :: sg ++ d :: ds ++ r) (length pre) digits dots =
  Ret (if (hd0 r =? 46) || is_e (hd0 r) then None
       else finish digits dots (length (pre ++ c :: sg ++ d :: ds))).
Proof.
  intros He Hsg Hds Hr Hf. inversion_clear Hds as [|? ? Hd Hds']. set (s := pre ++ _).
  assert (H0 : chr s (length pre) = c) by (unfold s; by rewrite chr_app).
  assert (Hq : forall q, s = q ++ d :: ds ++ r ->
    chr s (length q) = d /\
    skip_digits fuel s (S (length q)) = Ret (length (q ++ d :: ds)) /\ chr s (length (q ++ d :: ds)) = hd0 r).
  { intros q ->. rewrite chr_app. split; [done|]. split.
    - pose proof (skip_digits_spec ds (q ++ [d]) r fuel Hds' Hr Hf) as E.
      rewrite <- !app_assoc in E. rewrite length_app in E. simpl in E. by rewrite Nat.add_1_r in E.
    - change (d :: ds ++ r) with ((d :: ds) ++ r). rewrite app_assoc. apply chr_app. }
  assert (Hcd : isdigit c = false /\ (c =? 46) = false).
  { unfold is_e, isdigit in *. apply orb_true_iff in He as [->%Z.eqb_eq | ->%Z.eqb_eq]; done. }
  assert (Hnd : (d =? 45) = false /\ (d =? 43) = false) by (apply isdigit_range in Hd; split; apply Z.eqb_neq; lia).
  cbn [number_loop]. rewrite H0, (proj1 Hcd), (proj2 Hcd), He.
  assert (Hlen : let len := S (length pre) in
    (if (chr s len =? 45) || (chr s len =? 43) then S len else len) = length (pre ++ c :: sg) /\
    s = (pre ++ c :: sg) ++ d :: ds ++ r).
  { cbn zeta. split; [|unfold s; by rewrite <- app_assoc].
    assert (Hs1 : chr s (S (length pre)) = hd0 (sg ++ d :: ds ++ r)).
    { unfold s. rewrite cons_middle, app_assoc.
      replace (S (length pre)) with (length (pre ++ [c])) by (rewrite length_app; simpl; lia). apply chr_app. }
    rewrite Hs1. destruct Hsg as [-> | [-> | ->]]; cbn [hd0 app].
    - rewrite (proj1 Hnd), (proj2 Hnd). cbn [orb]. rewrite length_app. simpl. lia.
    - rewrite length_app. simpl. lia.
    - rewrite length_app. simpl. lia. }
  destruct Hlen as [-> Hs]. destruct (Hq _ Hs) as (-> & -> & Hl). rewrite Hd. cbn [negb]. run.
  assert (Ha : (pre ++ c :: sg) ++ d :: ds = pre ++ c :: sg ++ d :: ds) by (by rewrite <- app_assoc).
  rewrite Ha in Hl |- *. rewrite Hl. by destruct ((hd0 r =? 46) || is_e (hd0 r)).
Qed.

Lemma number_loop_bad_exp (pre sg r : list Z) (c : Z) (fuel : nat) (digits dots : Z) :
  is_e c = true -> (sg = [45] \/ sg = [43] \/ sg = [] /\ hd0 r <> 45 /\ hd0 r <> 43) ->
  isdigit (hd0 r) = false ->
  number_loop (S fuel) (pre ++ c :: sg ++ r) (length pre) digits dots = Ret None.
Proof.
  intros He Hsg Hr. set (s := pre ++ _).
  assert (Hcd : isdigit c = false /\ (c =? 46) = false).
  { unfold is_e, isdigit in *. apply orb_true_iff in He as [->%Z.eqb_eq | ->%Z.eqb_eq]; done. }
  cbn [number_loop]. assert (H0 : chr s (length pre) = c) by (unfold s; by rewrite chr_app).
  rewrite H0, (proj1 Hcd), (proj2 Hcd), He.
  assert (Hat : forall q t, s = q ++ t -> chr s (length q) = hd0 t) by (intros q t ->; apply chr_app).
  assert (Hq1 : s = (pre ++ [c]) ++ sg ++ r) by (unfold s; by rewrite <- app_assoc).
  assert (Hq2 : s = (pre ++ c :: sg) ++ r) by (unfold s; by rewrite <- app_assoc).
  pose proof (Hat _ _ Hq1) as E1. pose proof (Hat _ _ Hq2) as E2. rewrite length_app in E1, E2. simpl in E1, E2.
  rewrite Nat.add_1_r in E1. rewrite E1.
  destruct Hsg as [-> | [-> | (-> & H45 & H43)]]; cbn [hd0 app length] in *.
  - change ((45 =? 45) || (45 =? 43)) with true. cbn iota.
    replace (S (S (length pre))) with (length pre + 2)%nat by lia. rewrite E2, Hr. done.
  - change ((43 =? 45) || (43 =? 43)) with true. cbn iota.
    replace (S (S (length pre))) with (length pre + 2)%nat by lia. rewrite E2, Hr. done.
  - destruct (Z.eqb_spec (hd0 r) 45); [done|]. destruct (Z.eqb_spec (hd0 r) 43); [done|]. cbn [orb].
    rewrite E1, Hr. done.
Qed.

Lemma exponent_digits_unique (sg sg' t t' : list Z) :
  (sg = [] \/ sg = [45] \/ sg = [43]) -> (sg' = [] \/ sg' = [45] \/ sg' = [43]) ->
  isdigit (hd0 t) = true -> isdigit (hd0 t') = true -> sg ++ t = sg' ++ t' -> sg = sg' /\ t = t'.
Proof.
  intros Hs Hs' Ht Ht' E.
  destruct Hs as [-> | [-> | ->]], Hs' as [-> | [-> | ->]]; simpl in E; subst; simplify_eq; try done;
    simpl in *; done.
Qed.

Lemma mantissa_char_0 : is_mantissa_char 0 = false.
Proof. done. Qed.

Lemma e_not_mantissa (c : Z) : is_e c = true -> is_mantissa_char c = false.
Proof. unfold is_e. by intros [->%Z.eqb_eq | ->%Z.eqb_eq]%orb_true_iff. Qed.

Lemma exponent_head (e : list Z) : exponent e -> is_mantissa_char (hd0 e) = false.
Proof. intros [-> | (c & sg & ds & -> & He & _)]; [done|]. by apply e_not_mantissa. Qed.

(** The two phases of the parser on a split of the input. *)
Lemma number_parse_split (m r : list Z) :
  Forall (fun c => is_mantissa_char c = true) m -> is_mantissa_char (hd0 r) = false ->
  zbx_number_parse (m ++ r) =
  number_loop (S (S (length r))) (m ++ r) (length m) (count_digits m) (count_dots m).
Proof.
  intros Hm Hr. unfold zbx_number_parse. rewrite length_app.
  replace (length m + length r + 2)%nat with (length m + S (S (length r)))%nat by lia.
  apply (number_loop_mantissa m [] r _ 0 0 Hm).
Qed.

Lemma finish_Some (m : list Z) (len : nat) :
  Forall (fun c => is_mantissa_char c = true) m ->
  finish (count_digits m) (count_dots m) len = (if decide (mantissa m) then Some len else None).
Proof.
  intros Hm. unfold finish. destruct (decide (mantissa m)) as [(_ & H1 & H2) | Hn].
  - destruct (Z.ltb_spec (count_digits m) 1), (Z.ltb_spec 1 (count_dots m)); [lia..|done].
  - destruct (Z.ltb_spec (count_digits m) 1), (Z.ltb_spec 1 (count_dots m)); try done.
    exfalso. apply Hn. split_and!; done || lia.
Qed.

(** The parser always returns; it recognises the whole string exactly when
    the string is a mantissa followed by an optional exponent. *)
Lemma number_parse_whole (s : list Z) :
  Forall (fun c => c <> 0) s ->
  exists res, zbx_number_parse s = Ret res /\
    (match res with Some len => chr s len =? 0 | None => false end = true <->
     exists m e, s = m ++ e /\ mantissa m /\ exponent e).
Proof.
  intros Hs. destruct (span_exists is_mantissa_char s mantissa_char_0) as (m & r & -> & Hm & Hr).
  rewrite (number_parse_split m r Hm Hr).
  assert (Huniq : forall P : Prop, (mantissa m /\ exponent r <-> P) ->
    ((exists m' e, m ++ r = m' ++ e /\ mantissa m' /\ exponent e) <-> P)).
  { intros P HP. rewrite <- HP. split; [|by intros []; exists m, r].
    intros (m' & e & E & Hm' & He).
    destruct (span_unique is_mantissa_char m m' r e Hm Hr (proj1 Hm') (exponent_head e He) E mantissa_char_0) as [-> ->].
    done. }
  assert (Hend : forall q t, m ++ r = q ++ t -> (chr (m ++ r) (length q) =? 0) = true <-> t = []).
  { intros q t E. rewrite E in Hs |- *. rewrite chr_app. rewrite Z.eqb_eq. split; [|by intros ->].
    destruct t as [|x t]; [done|]. simpl. intros ->. apply Forall_app in Hs as [_ Hs]. apply Forall_cons in Hs as [Hs _]. by destruct Hs. }
  destruct (is_e (hd0 r)) eqn:He; cycle 1.
  { eexists. split; [by apply number_loop_end|]. symmetry. apply Huniq. rewrite finish_Some by done.
    destruct (decide (mantissa m)) as [Hok | Hno]; [|split; [by intros [? _] | discriminate]].
    rewrite (Hend m r eq_refl). split; [|intros ->; split; [done|by left]].
    intros [_ [-> | (c & sg & ds & -> & Hc & _)]]; [done|]. simpl in He. congruence. }
  destruct r as [|c r]; [discriminate He|]. cbn [hd0] in He.
  assert (Hsgn : exists sg t, r = sg ++ t /\ (sg = [] \/ sg = [45] \/ sg = [43]) /\
    (sg = [45] \/ sg = [43] \/ sg = [] /\ hd0 t <> 45 /\ hd0 t <> 43)).
  { destruct (decide (hd0 r = 45)) as [E | E]; [|destruct (decide (hd0 r = 43)) as [E' | E']].
    - destruct r as [|x r]; [done|]. simpl in E. subst x. exists [45], r. split_and!; auto.
    - destruct r as [|x r]; [done|]. simpl in E'. subst x. exists [43], r. split_and!; auto.
    - exists [], r. split_and!; auto 6. }
  destruct Hsgn as (sg & t & -> & Hsg & Hsg'). destruct (isdigit (hd0 t)) eqn:Ht; cycle 1.
  { eexists. split; [by apply number_loop_bad_exp|]. symmetry. apply Huniq. split; [|discriminate].
    intros [_ [? | (c' & sg' & ds & E & _ & Hsg1 & Hne & Hds)]]; [done|]. injection E as <- E.
    destruct ds as [|d ds]; [done|]. inversion_clear Hds as [|? ? Hd _]. exfalso.
    destruct Hsg' as [-> | [-> | (-> & H1 & H2)]], Hsg1 as [-> | [-> | ->]]; simpl in E; try discriminate;
      simplify_eq; simpl in Ht, Hd; congruence || (simpl in H1, H2; congruence). }
  destruct (span_exists isdigit t eq_refl) as (ds & r' & -> & Hds & Hr').
  destruct ds as [|d ds]; [simpl in Ht; congruence|]. cbn [app].
  eexists. split.
  { apply number_loop_exp; try done. rewrite !length_cons, !length_app, !length_cons, length_app. lia. }
  symmetry. apply Huniq. rewrite finish_Some by done.
  assert (Hexp : exponent (c :: sg ++ d :: ds ++ r') <-> r' = []).
  { split.
    - intros [? | (c' & sg' & ds' & E & _ & Hsg1 & Hne & Hds')]; [done|]. injection E as <- E.
      destruct ds' as [|d' ds']; [done|].
      destruct (exponent_digits_unique sg sg' (d :: ds ++ r') (d' :: ds') Hsg Hsg1) as [_ E']; try done.
      { by inversion Hds'. }
      destruct (span_unique isdigit (d :: ds) (d' :: ds') r' [] Hds Hr' Hds' eq_refl) as [_ ->]; try done.
      by rewrite app_nil_r.
    - intros ->. right. exists c, sg, (d :: ds). rewrite app_nil_r. done. }
  destruct ((hd0 r' =? 46) || is_e (hd0 r')) eqn:Hbad.
  { split; [|discriminate]. intros [_ ->%Hexp]. discriminate. }
  destruct (decide (mantissa m)) as [Hok | Hno]; [|split; [by intros [? _] | discriminate]].
  rewrite (Hend (m ++ c :: sg ++ d :: ds) r'); [|by rewrite <- app_assoc; simpl; rewrite <- app_assoc].
  rewrite <- Hexp. by split; [intros [_ ?]|].
Qed.

(** the syntax check of zbx_is_double terminates on every string without
    reading past its end and accepts exactly an optional sign, digits with at
    most one dot (at least one digit), and an optional signed decimal exponent. *)
Theorem double_syntax_exact (s : list Z) :
  Forall (fun c => c <> 0) s ->
  exists b, is_double_valid_syntax s = Ret b /\
    (b = true <-> exists sg m e, s = sg ++ m ++ e /\ (sg = [] \/ sg = [45] \/ sg = [43]) /\
       mantissa m /\ exponent e).
Proof.
  intros Hs. unfold is_double_valid_syntax.
  assert (Hcase : (exists sg s', s = sg ++ s' /\ (sg = [45] \/ sg = [43])) \/ (hd0 s <> 45 /\ hd0 s <> 43)).
  { destruct (decide (hd0 s = 45)) as [E | E]; [|destruct (decide (hd0 s = 43)) as [E' | E']; [|auto]];
      (destruct s as [|x s]; [done|]); simpl in *; subst x; left; [exists [45], s | exists [43], s]; auto. }
  destruct Hcase as [(sg & s' & -> & Hsg) | [H45 H43]].
  - assert (Hs' : Forall (fun c => c <> 0) s') by (by apply Forall_app in Hs as [_ ?]).
    destruct (number_parse_whole s' Hs') as (res & E & Hres).
    assert (Hstrip : (if (hd0 (sg ++ s') =? 45) || (hd0 (sg ++ s') =? 43) then tail (sg ++ s') else sg ++ s') = s')
      by (by destruct Hsg as [-> | ->]).
    rewrite Hstrip, E. run. eexists. split; [done|]. rewrite Hres. split.
    + intros (m & e & -> & Hm & He). exists sg, m, e. split_and!; try done. by right.
    + intros (sg' & m & e & Heq & Hsg' & Hm & He). exists m, e. split_and!; try done.
      assert (Hm0 : hd0 (m ++ e) <> 45 /\ hd0 (m ++ e) <> 43).
      { destruct m as [|x m]; [destruct Hm as (_ & Hm & _); unfold count_digits in Hm; simpl in Hm; lia|].
        destruct Hm as (Hm & _). inversion_clear Hm as [|? ? Hx _]. simpl.
        unfold is_mantissa_char in Hx. split; intros ->; discriminate Hx. }
      destruct Hsg as [-> | ->], Hsg' as [-> | [-> | ->]]; simpl in Heq; try discriminate; simplify_eq; try done;
        rewrite <- Heq in Hm0; simpl in Hm0; by destruct Hm0.
  - assert (Hstrip : ((hd0 s =? 45) || (hd0 s =? 43)) = false).
    { apply orb_false_iff. by split; apply Z.eqb_neq. }
    rewrite Hstrip. destruct (number_parse_whole s Hs) as (res & E & Hres). rewrite E. run.
    eexists. split; [done|]. rewrite Hres. split.
    + intros (m & e & -> & Hm & He). exists [], m, e. split_and!; try done. by left.
    + intros (sg' & m & e & -> & [-> | [-> | ->]] & Hm & He); simpl in *; [by exists m, e|done..].
Qed.

Lemma double_syntax_exact_witness :
  exists b, is_double_valid_syntax (bytes_of "-12.5e+07") = Ret b /\ b = true.
Proof.
  destruct (double_syntax_exact (bytes_of "-12.5e+07")) as (b & E & Hb); [by repeat constructor|].
  exists b. split; [exact E|]. apply Hb. exists [45], (bytes_of "12.5"), (bytes_of "e+07").
  split_and!; [done|by right; left| |].
  - split_and!; [by repeat constructor|vm_compute; discriminate|vm_compute; discriminate].
  - right. exists 101, [43], [48; 55]. split_and!; [done|done|by right; right|done|by repeat constructor].
Defined.

(* ------------------------------------------------------------------ *)
(** ** Hexadecimal dumps and signed integers *)

Example hex_string_accepts : zbx_is_hex_string (bytes_of "F4 CE 46 01") = true.
Proof. reflexivity. Qed.
Example trim_integer_quoted : zbx_trim_integer [32; 32; 34; 43; 52; 50; 34; 32] = bytes_of "42".
Proof. reflexivity. Qed.
Example is_int_min : zbx_is_int (bytes_of "-2147483647") = Some (-2147483647).
Proof. reflexivity. Qed.
