(* ===== verification/Calendar.v ===== *)
(** Calendar arithmetic, time suffixes and ISO 8601 stamps:
    src/src/libs/zbxtime/time.c.  The zone database (mktime, localtime) is an
    argument of the functions that call it. *)

From stdpp Require Import base list numbers strings.
From Stdlib Require Import ZArith Lia.
From S2P Require Import Prelude Num.

Open Scope Z_scope.

Definition SEC_PER_MIN : Z := 60.
Definition SEC_PER_HOUR : Z := 3600.
Definition SEC_PER_DAY : Z := 86400.
Definition SEC_PER_WEEK : Z := 7 * SEC_PER_DAY.
Definition SEC_PER_YEAR : Z := 365 * SEC_PER_DAY.
Definition INT_MAX : Z := 2147483647.
Definition ZBX_LENGTH_UNLIMITED : Z := 2147483647.

(** struct tm. *)
Record tm : Type := mkTm {
  tm_year : Z; tm_mon : Z; tm_mday : Z;
  tm_hour : Z; tm_min : Z; tm_sec : Z;
  tm_wday : Z; tm_yday : Z; tm_isdst : Z
}.

Definition set_date (t : tm) (y mo d : Z) : tm :=
  mkTm y mo d (tm_hour t) (tm_min t) (tm_sec t) (tm_wday t) (tm_yday t) (tm_isdst t).
Definition set_clock (t : tm) (h mi s : Z) : tm :=
  mkTm (tm_year t) (tm_mon t) (tm_mday t) h mi s (tm_wday t) (tm_yday t) (tm_isdst t).
Definition set_wday (t : tm) (w : Z) : tm :=
  mkTm (tm_year t) (tm_mon t) (tm_mday t) (tm_hour t) (tm_min t) (tm_sec t) w (tm_yday t) (tm_isdst t).
Definition set_isdst (t : tm) (d : Z) : tm :=
  mkTm (tm_year t) (tm_mon t) (tm_mday t) (tm_hour t) (tm_min t) (tm_sec t) (tm_wday t) (tm_yday t) d.
Definition set_year (t : tm) (y : Z) : tm := set_date t y (tm_mon t) (tm_mday t).
Definition set_mon (t : tm) (m : Z) : tm := set_date t (tm_year t) m (tm_mday t).
Definition set_mday (t : tm) (d : Z) : tm := set_date t (tm_year t) (tm_mon t) d.
Definition set_hour (t : tm) (h : Z) : tm := set_clock t h (tm_min t) (tm_sec t).
Definition set_min (t : tm) (m : Z) : tm := set_clock t (tm_hour t) m (tm_sec t).
Definition set_sec (t : tm) (s : Z) : tm := set_clock t (tm_hour t) (tm_min t) s.

(** C's [%] and [/] truncate; years and remainders are written with them. *)
Definition zbx_is_leap_year (year : Z) : bool :=
  (Z.rem year 4 =? 0) && (negb (Z.rem year 100 =? 0) || (Z.rem year 400 =? 0)).

Definition month : list Z := [31; 28; 31; 30; 31; 30; 31; 31; 30; 31; 30; 31].
Definition month_day : list Z := [0; 31; 59; 90; 120; 151; 181; 212; 243; 273; 304; 334].

Definition zbx_day_in_month (year mon : Z) : Z :=
  if (1 <=? mon) && (mon <=? 12)
  then nth (Z.to_nat (mon - 1)) month 0 + (if (mon =? 2) && zbx_is_leap_year year then 1 else 0)
  else 30.

Definition ZBX_LEAP_YEARS (year : Z) : Z :=
  Z.quot (year - 1) 4 - Z.quot (year - 1) 100 + Z.quot (year - 1) 400.

(** [None] is FAIL; a time that does not fit in an int is signed overflow. *)
Definition zbx_utc_time (year mon mday hour min sec : Z) : res (option Z) :=
  if (1970 <=? year) && (1 <=? mon) && (mon <=? 12) && (1 <=? mday) && (mday <=? zbx_day_in_month year mon) &&
     (0 <=? hour) && (hour <=? 23) && (0 <=? min) && (min <=? 59) && (0 <=? sec) && (sec <=? 61) then
    t ← c_int ((year - 1970) * SEC_PER_YEAR +
      (ZBX_LEAP_YEARS (if 2 <? mon then year + 1 else year) - ZBX_LEAP_YEARS 1970) * SEC_PER_DAY +
      (nth (Z.to_nat (mon - 1)) month_day 0 + mday - 1) * SEC_PER_DAY +
      hour * SEC_PER_HOUR + min * SEC_PER_MIN + sec);
    Ret (if 0 <=? t then Some t else None)
  else Ret None.

(** zbx_time_unit_t. *)
Inductive time_unit : Type :=
| UNIT_UNKNOWN | UNIT_SECOND | UNIT_MINUTE | UNIT_HOUR | UNIT_DAY | UNIT_WEEK | UNIT_MONTH
| UNIT_YEAR | UNIT_ISOYEAR.

Definition time_unit_seconds (u : time_unit) : Z :=
  match u with
  | UNIT_SECOND => 1 | UNIT_MINUTE => SEC_PER_MIN | UNIT_HOUR => SEC_PER_HOUR
  | UNIT_DAY => SEC_PER_DAY | UNIT_WEEK => SEC_PER_WEEK | _ => 0
  end.

Definition zbx_tm_str_to_unit (text : list Z) : time_unit :=
  let c := hd0 text in
  if c =? 115 (* s *) then UNIT_SECOND
  else if c =? 109 (* m *) then UNIT_MINUTE
  else if c =? 104 (* h *) then UNIT_HOUR
  else if c =? 100 (* d *) then UNIT_DAY
  else if c =? 119 (* w *) then UNIT_WEEK
  else if c =? 77 (* M *) then UNIT_MONTH
  else if c =? 121 (* y *) then UNIT_YEAR
  else UNIT_UNKNOWN.

(** The number of leading digits. *)
Fixpoint digit_prefix (s : list Z) : nat :=
  match s with c :: s' => if isdigit c then S (digit_prefix s') else O | [] => O end.

(** [Some (len, multiplier, base)] is SUCCEED; the multiplier is stored in an
    int, so its four low bytes are read back as a signed value. *)
Definition zbx_tm_parse_period (period : list Z) : option (nat * Z * time_unit) :=
  let n := digit_prefix period in
  match zbx_is_uint_n_range (Some period) n true 4 0 (2 ^ 32 - 1) with
  | None => None
  | Some v =>
      let multiplier := if v <? 2 ^ 31 then v else v - 2 ^ 32 in
      match zbx_tm_str_to_unit (drop n period) with
      | UNIT_UNKNOWN => None
      | base => Some (S n, multiplier, base)
      end
  end.

(** tm_add, one function per unit as the switch orders them; the year and
    month cases first because the day case calls the month case. *)
Definition tm_add_year (t : tm) (multiplier : Z) : tm := set_year t (tm_year t + multiplier).

Definition tm_add_month (t : tm) (multiplier : Z) : tm :=
  let t := set_mon t (tm_mon t + multiplier) in
  if 12 <=? tm_mon t then
    let shift := Z.quot (tm_mon t) 12 in
    tm_add_year (set_mon t (Z.rem (tm_mon t) 12)) shift
  else t.

Fixpoint tm_add_day_loop (fuel : nat) (t : tm) : res tm :=
  let shift := zbx_day_in_month (tm_year t + 1900) (tm_mon t + 1) in
  if shift <? tm_mday t then
    match fuel with
    | O => NoFuel
    | S fuel => tm_add_day_loop fuel (tm_add_month (set_mday t (tm_mday t - shift)) 1)
    end
  else Ret t.

(** A month has at least 28 days, so mday/28 rounds are enough. *)
Definition tm_add_day (t : tm) (multiplier : Z) : res tm :=
  let t := set_mday t (tm_mday t + multiplier) in
  t ← tm_add_day_loop (Z.to_nat (tm_mday t)) t;
  Ret (set_wday t (Z.rem (tm_wday t + multiplier) 7)).

Definition tm_add_hour (t : tm) (multiplier : Z) : res tm :=
  let t := set_hour t (tm_hour t + multiplier) in
  if 24 <=? tm_hour t then
    let shift := Z.quot (tm_hour t) 24 in
    tm_add_day (set_hour t (Z.rem (tm_hour t) 24)) shift
  else Ret t.

Definition tm_add (t : tm) (multiplier : Z) (base : time_unit) : res tm :=
  match base with
  | UNIT_HOUR => tm_add_hour t multiplier
  | UNIT_DAY => tm_add_day t multiplier
  | UNIT_WEEK => tm_add_day t (multiplier * 7)
  | UNIT_MONTH => Ret (tm_add_month t multiplier)
  | UNIT_YEAR => Ret (tm_add_year t multiplier)
  | _ => Ret t
  end.

Definition neg_to_pos_wrap (value base : Z) : Z :=
  let reminder := Z.rem value base in if reminder =? 0 then 0 else base + reminder.

Definition tm_sub_year (t : tm) (multiplier : Z) : tm := set_year t (tm_year t - multiplier).

Definition tm_sub_month (t : tm) (multiplier : Z) : tm :=
  let t := set_mon t (tm_mon t - multiplier) in
  if tm_mon t <? 0 then
    let shift := Z.quot (- tm_mon t) 12 in
    let t := set_mon t (neg_to_pos_wrap (tm_mon t) 12) in
    let shift := if tm_mon t =? 0 then shift else shift + 1 in
    tm_sub_year t shift
  else t.

Fixpoint tm_sub_day_loop (fuel : nat) (t : tm) : res tm :=
  if tm_mday t <=? 0 then
    match fuel with
    | O => NoFuel
    | S fuel =>
        let prev_mon := tm_mon t - 1 in
        let prev_mon := if prev_mon <? 0 then 11 else prev_mon in
        let prev_mon := prev_mon + 1 in
        let t := set_mday t (tm_mday t + zbx_day_in_month (tm_year t + 1900) prev_mon) in
        tm_sub_day_loop fuel (tm_sub_month t 1)
    end
  else Ret t.

Definition tm_sub_day (t : tm) (multiplier : Z) : res tm :=
  let t := set_mday t (tm_mday t - multiplier) in
  t ← tm_sub_day_loop (Z.to_nat (1 - tm_mday t)) t;
  let t := set_wday t (tm_wday t - multiplier) in
  Ret (if tm_wday t <? 0 then set_wday t (neg_to_pos_wrap (tm_wday t) 7) else t).

Definition tm_sub_hour (t : tm) (multiplier : Z) : res tm :=
  let t := set_hour t (tm_hour t - multiplier) in
  if tm_hour t <? 0 then
    let shift := Z.quot (- tm_hour t) 24 in
    let t := set_hour t (neg_to_pos_wrap (tm_hour t) 24) in
    let shift := if tm_hour t =? 0 then shift else shift + 1 in
    tm_sub_day t shift
  else Ret t.

Definition tm_sub (t : tm) (multiplier : Z) (base : time_unit) : res tm :=
  match base with
  | UNIT_HOUR => tm_sub_hour t multiplier
  | UNIT_DAY => tm_sub_day t multiplier
  | UNIT_WEEK => tm_sub_day t (multiplier * 7)
  | UNIT_MONTH => Ret (tm_sub_month t multiplier)
  | UNIT_YEAR => Ret (tm_sub_year t multiplier)
  | _ => Ret t
  end.

Definition get_week_days (yday wday : Z) : Z := yday - Z.rem (yday - wday + 382) 7 + 3.

Definition zbx_get_week_number (t : tm) : Z :=
  let days := get_week_days (tm_yday t) (tm_wday t) in
  let days :=
    if days <? 0 then
      let d := tm_yday t + 365 in
      let d := if zbx_is_leap_year (tm_year t + 1899) then d + 1 else d in
      get_week_days d (tm_wday t)
    else
      let d := tm_yday t - 365 in
      let d := if zbx_is_leap_year (tm_year t + 1900) then d - 1 else d in
      let days_next := get_week_days d (tm_wday t) in
      if 0 <=? days_next then days_next else days in
  Z.quot days 7 + 1.

Section Zone.
(** The C library: mktime gives the time and the normalised structure ([None]
    is -1), localtime the broken-down local time. *)
Context (mktime : tm -> option (Z * tm)) (localtime : Z -> tm).

Definition tm_add_seconds (t : tm) (seconds : Z) : res tm :=
  let midnight := tm_hour t + tm_min t + tm_sec t =? 0 in
  let isdst := if midnight then -1 else tm_isdst t in
  let tm_new := if midnight then set_isdst t (-1) else t in
  match mktime tm_new with
  | None => Ret t
  | Some (time_new, tm_new) =>
      let isdst := if isdst =? -1 then tm_isdst tm_new else isdst in
      let tm_new := localtime (time_new + seconds) in
      if negb (isdst =? tm_isdst tm_new) && negb (isdst =? -1) && negb (tm_isdst tm_new =? -1) then
        if tm_isdst tm_new =? 0 then tm_add tm_new 1 UNIT_HOUR else tm_sub tm_new 1 UNIT_HOUR
      else Ret tm_new
  end.

(** The day of the month is cut to the length of the month. *)
Definition clamp_mday (t : tm) : tm :=
  let days_max := zbx_day_in_month (tm_year t + 1900) (tm_mon t + 1) in
  if days_max <? tm_mday t then set_mday t days_max else t.

Definition zbx_tm_add (t : tm) (multiplier : Z) (base : time_unit) : res tm :=
  t ← match base with
      | UNIT_MONTH | UNIT_YEAR => t ← tm_add t multiplier base; Ret (clamp_mday t)
      | _ => Ret t
      end;
  seconds ← c_int (multiplier * time_unit_seconds base);
  tm_add_seconds t seconds.

(** zbx_tm_sub for every unit but the ISO year, which it calls on weeks. *)
Definition zbx_tm_sub_unit (t : tm) (multiplier : Z) (base : time_unit) : res tm :=
  t ← match base with
      | UNIT_MONTH | UNIT_YEAR => t ← tm_sub t multiplier base; Ret (clamp_mday t)
      | _ => Ret t
      end;
  seconds ← c_int (- multiplier * time_unit_seconds base);
  tm_add_seconds t seconds.

Definition zbx_tm_sub (t : tm) (multiplier : Z) (base : time_unit) : res tm :=
  match base with
  | UNIT_ISOYEAR =>
      let week_num := zbx_get_week_number t in
      t ← zbx_tm_sub_unit t week_num UNIT_WEEK;
      let total_weeks := zbx_get_week_number t in
      let week_num := if total_weeks <? week_num then week_num - 1 else week_num in
      t ← tm_sub t (zbx_get_week_number t - week_num) UNIT_WEEK;
      seconds ← c_int (- multiplier * time_unit_seconds UNIT_ISOYEAR);
      tm_add_seconds t seconds
  | _ => zbx_tm_sub_unit t multiplier base
  end.

Definition unit_eqb (a b : time_unit) : bool :=
  match a, b with
  | UNIT_UNKNOWN, UNIT_UNKNOWN | UNIT_SECOND, UNIT_SECOND | UNIT_MINUTE, UNIT_MINUTE
  | UNIT_HOUR, UNIT_HOUR | UNIT_DAY, UNIT_DAY | UNIT_WEEK, UNIT_WEEK | UNIT_MONTH, UNIT_MONTH
  | UNIT_YEAR, UNIT_YEAR | UNIT_ISOYEAR, UNIT_ISOYEAR => true
  | _, _ => false
  end.

Definition zbx_tm_round_up (t : tm) (base : time_unit) : res tm :=
  t ← (if negb (tm_sec t =? 0) then zbx_tm_add (set_sec t 0) 1 UNIT_MINUTE else Ret t);
  if unit_eqb base UNIT_MINUTE then Ret t else
  t ← (if negb (tm_min t =? 0) then zbx_tm_add (set_min t 0) 1 UNIT_HOUR else Ret t);
  if unit_eqb base UNIT_HOUR then Ret t else
  t ← (if negb (tm_hour t =? 0) then zbx_tm_add (set_hour t 0) 1 UNIT_DAY else Ret t);
  if unit_eqb base UNIT_DAY then Ret t else
  if unit_eqb base UNIT_WEEK then
    if negb (tm_wday t =? 1) then
      t ← zbx_tm_add t (if tm_wday t =? 0 then 1 else 8 - tm_wday t) UNIT_DAY;
      Ret (set_wday t 1)
    else Ret t
  else
  t ← (if negb (tm_mday t =? 1) then zbx_tm_add (set_mday t 1) 1 UNIT_MONTH else Ret t);
  if unit_eqb base UNIT_MONTH then Ret t else
  if negb (tm_mon t =? 0) then zbx_tm_add (set_mon t 0) 1 UNIT_YEAR else Ret t.

Definition round_down_week (t : tm) : res tm :=
  t ← (if negb (tm_wday t =? 1) then
         t ← zbx_tm_sub t (if tm_wday t =? 0 then 6 else tm_wday t - 1) UNIT_DAY; Ret (set_wday t 1)
       else Ret t);
  tm_add_seconds (set_clock t 0 0 0) 0.

Definition zbx_tm_round_down (t : tm) (base : time_unit) : res tm :=
  match base with
  | UNIT_WEEK => round_down_week t
  | UNIT_ISOYEAR =>
      t ← round_down_week t;
      t ← zbx_tm_sub t (zbx_get_week_number t - 1) UNIT_WEEK;
      tm_add_seconds t 0
  | UNIT_YEAR => tm_add_seconds (set_clock (set_date t (tm_year t) 0 1) 0 0 0) 0
  | UNIT_MONTH => tm_add_seconds (set_clock (set_mday t 1) 0 0 0) 0
  | UNIT_DAY => tm_add_seconds (set_clock t 0 0 0) 0
  | UNIT_HOUR => tm_add_seconds (set_clock t (tm_hour t) 0 0) 0
  | UNIT_MINUTE => tm_add_seconds (set_sec t 0) 0
  | _ => tm_add_seconds t 0
  end.
End Zone.

(** The digit loop of zbx_is_time_suffix; [None] is its overflow FAIL, the
    rest of the text and of the length come back with the value. *)
Fixpoint suffix_digits (str : list Z) (len value_tmp : Z) : option (list Z * Z * Z) :=
  match str with
  | [] => Some (str, len, value_tmp)
  | ch :: rest =>
      if (0 <? len) && isdigit ch then
        let c := ch - 48 in
        if (INT_MAX - c) / 10 <? value_tmp then None
        else suffix_digits rest (len - 1) (value_tmp * 10 + c)
      else Some (str, len, value_tmp)
  end.

Definition time_factor (c : Z) : option Z :=
  if c =? 115 (* s *) then Some 1
  else if c =? 109 (* m *) then Some SEC_PER_MIN
  else if c =? 104 (* h *) then Some SEC_PER_HOUR
  else if c =? 100 (* d *) then Some SEC_PER_DAY
  else if c =? 119 (* w *) then Some SEC_PER_WEEK
  else None.

(** [Some value] is SUCCEED. *)
Definition zbx_is_time_suffix (str : list Z) (length : Z) : option Z :=
  if (hd0 str =? 0) || (length <=? 0) || negb (isdigit (hd0 str)) then None else
  match suffix_digits str length 0 with
  | None => None
  | Some (str, len, value_tmp) =>
      let finish str len factor :=
        if ((length =? ZBX_LENGTH_UNLIMITED) && negb (hd0 str =? 0)) ||
           (negb (length =? ZBX_LENGTH_UNLIMITED) && negb (len =? 0)) then None
        else if INT_MAX / factor <? value_tmp then None
        else Some (value_tmp * factor) in
      if negb (hd0 str =? 0) && (0 <? len) then
        match time_factor (hd0 str) with
        | None => None
        | Some factor => finish (tail str) (len - 1) factor
        end
      else finish str len 1
  end.

(** atoi on a text that starts with a digit; more digits than an int holds is
    undefined behaviour. *)
Definition atoi (s : list Z) : res Z := c_int (digits_value 10 (dec_digits (take (digit_prefix s) s))).

Fixpoint skip_char (p : Z -> bool) (s : list Z) : list Z :=
  match s with c :: s' => if p c then skip_char p s' else s | [] => [] end.

(** [None] is FAIL, [Some offset] SUCCEED. *)
Definition zbx_iso8601_timezone (zone : list Z) : res (option Z) :=
  let ptr := if hd0 zone =? 46 (* . *) then skip_char isdigit (tail zone) else zone in
  let ptr := skip_char (fun c => c =? 32) ptr in
  let c := hd0 ptr in
  if (c =? 0) || (c =? 90) || (c =? 122) then Ret (Some 0) else
  if negb (c =? 45) && negb (c =? 43) then Ret None else
  let sign := if c =? 45 then -1 else 1 in
  let ptr := tail ptr in
  if (length ptr <? 4)%nat then Ret None else
  match zbx_is_uint_n_range (Some ptr) 2 true 4 0 23 with
  | None => Ret None
  | Some h =>
      let ptr := drop 2 ptr in
      let ptr := if hd0 ptr =? 58 (* : *) then tail ptr else ptr in
      if negb (isdigit (hd0 ptr)) then Ret None else
      m ← atoi ptr;
      Ret (if 59 <? m then None else Some (sign * (m + h * 60) * 60))
  end.

(** One two-digit field of the stamp, FAIL on a non-digit or above [max]. *)
Definition iso_field (str : list Z) (pos : nat) (max : Z) : res (option Z) :=
  if negb (isdigit (chr str pos)) then Ret None else
  v ← atoi (drop pos str);
  Ret (if max <? v then None else Some v).

Definition zbx_iso8601_utc (str : list Z) : res (option Z) :=
  if negb (isdigit (hd0 str)) || (length str <? 19)%nat ||
     (negb (chr str 10 =? 84) && negb (chr str 10 =? 32)) || negb (chr str 4 =? 45) ||
     negb (chr str 7 =? 45) || negb (chr str 13 =? 58) || negb (chr str 16 =? 58) then Ret None else
  year ← atoi str;
  mon ← iso_field str 5 12;
  match mon with None => Ret None | Some mon =>
  mday ← iso_field str 8 31;
  match mday with None => Ret None | Some mday =>
  hour ← iso_field str 11 23;
  match hour with None => Ret None | Some hour =>
  min ← iso_field str 14 59;
  match min with None => Ret None | Some min =>
  sec ← iso_field str 17 59;
  match sec with None => Ret None | Some sec =>
  offset ← zbx_iso8601_timezone (drop 19 str);
  match offset with None => Ret None | Some offset =>
  t ← zbx_utc_time year mon mday hour min sec;
  match t with None => Ret None | Some t => Ret (Some (t - offset)) end
  end end end end end end.

Example iso_epoch_plus_hour :
  zbx_iso8601_utc (bytes_of "1970-01-01T01:00:00.123+0100") = Ret (Some 0).
Proof. vm_compute. reflexivity. Qed.

(** The sum of zbx_utc_time overflows int for dates after January 2038. *)
Example utc_time_overflow : zbx_utc_time 2110 1 1 0 0 0 = Undef.
Proof. vm_compute. reflexivity. Qed.

(* ------------------------------------------------------------------ *)
(** ** Counting days *)

Definition leap (year : Z) : Z := if zbx_is_leap_year year then 1 else 0.

(** Reference calendar: the days of [n] years from 1970, and of the months
    of a year before month [mon], summed one by one. *)
Fixpoint days_of_years (n : nat) : Z :=
  match n with
  | O => 0
  | S n => days_of_years n + 365 + leap (1970 + Z.of_nat n)
  end.

Fixpoint days_of_months (year : Z) (n : nat) : Z :=
  match n with
  | O => 0
  | S n => days_of_months year n + zbx_day_in_month year (Z.of_nat n + 1)
  end.

(** Days since 1 January 1970; [mday] may lie outside the month. *)
Definition day_number (year mon mday : Z) : Z :=
  days_of_years (Z.to_nat (year - 1970)) + days_of_months year (Z.to_nat (mon - 1)) + (mday - 1).

Lemma leap_step (y : Z) : 1 <= y -> ZBX_LEAP_YEARS (y + 1) = ZBX_LEAP_YEARS y + leap y.
Proof.
  intros Hy. unfold ZBX_LEAP_YEARS, leap, zbx_is_leap_year. rewrite !Z.add_simpl_r.
  rewrite !Z.quot_div_nonneg, !Z.rem_mod_nonneg by lia.
  destruct (Z.eqb_spec (y mod 4) 0), (Z.eqb_spec (y mod 100) 0), (Z.eqb_spec (y mod 400) 0); cbn [negb andb orb];
    zlia.
Qed.

Lemma days_of_years_closed (y : Z) :
  1970 <= y ->
  days_of_years (Z.to_nat (y - 1970)) = (y - 1970) * 365 + (ZBX_LEAP_YEARS y - ZBX_LEAP_YEARS 1970).
Proof.
  intros Hy. rewrite <- (Z2Nat.id (y - 1970)) at 2 by lia.
  replace y with (1970 + Z.of_nat (Z.to_nat (y - 1970))) at 3 by lia.
  generalize (Z.to_nat (y - 1970)). intros n. clear y Hy. induction n as [|n IH]; [done|].
  cbn [days_of_years]. rewrite IH, Nat2Z.inj_succ.
  replace (1970 + Z.succ (Z.of_nat n)) with (1970 + Z.of_nat n + 1) by lia. rewrite leap_step by lia. lia.
Qed.

(** The twelve months, one by one. *)
Ltac each_month m :=
  let H := fresh in
  assert (H : m = 1 \/ m = 2 \/ m = 3 \/ m = 4 \/ m = 5 \/ m = 6 \/ m = 7 \/ m = 8 \/ m = 9 \/
    m = 10 \/ m = 11 \/ m = 12) by lia;
  repeat (destruct H as [H | H]; [subst m|]); [..|subst m].

Lemma days_of_months_closed (y m : Z) :
  1 <= m <= 12 ->
  days_of_months y (Z.to_nat (m - 1)) = nth (Z.to_nat (m - 1)) month_day 0 + (if 2 <? m then leap y else 0).
Proof.
  intros Hm. unfold leap. each_month m; cbv -[zbx_is_leap_year]; by destruct (zbx_is_leap_year y).
Qed.

Lemma day_in_month_range (y m : Z) : 28 <= zbx_day_in_month y m <= 31.
Proof.
  unfold zbx_day_in_month. destruct (Z.leb_spec 1 m), (Z.leb_spec m 12); cbn [andb]; try lia.
  each_month m; cbn [Z.eqb Pos.eqb andb]; try (vm_compute; split; discriminate).
  destruct (zbx_is_leap_year y); vm_compute; split; discriminate.
Qed.

Lemma day_number_next_month (y m d : Z) :
  1 <= m < 12 -> day_number y (m + 1) d = day_number y m (d + zbx_day_in_month y m).
Proof.
  intros Hm. unfold day_number. replace (Z.to_nat (m + 1 - 1)) with (S (Z.to_nat (m - 1))) by lia.
  cbn [days_of_months]. replace (Z.of_nat (Z.to_nat (m - 1)) + 1) with m by lia. lia.
Qed.

Lemma day_number_next_year (y d : Z) :
  1970 <= y -> day_number (y + 1) 1 d = day_number y 12 (d + zbx_day_in_month y 12).
Proof.
  intros Hy. unfold day_number. replace (Z.to_nat (y + 1 - 1970)) with (S (Z.to_nat (y - 1970))) by lia.
  cbn [days_of_years]. replace (1970 + Z.of_nat (Z.to_nat (y - 1970))) with y by lia.
  change (Z.to_nat (1 - 1)) with 0%nat. rewrite (days_of_months_closed y 12) by lia.
  change (nth (Z.to_nat (12 - 1)) month_day 0) with 334. change (2 <? 12) with true.
  change (zbx_day_in_month y 12) with 31. cbn [days_of_months]. lia.
Qed.

Definition valid_date (y m d : Z) : Prop :=
  1970 <= y /\ 1 <= m <= 12 /\ 1 <= d <= zbx_day_in_month y m.
Definition valid_clock (h mi s : Z) : Prop := 0 <= h <= 23 /\ 0 <= mi <= 59 /\ 0 <= s <= 61.

Definition seconds_of (y m d h mi s : Z) : Z :=
  day_number y m d * SEC_PER_DAY + h * SEC_PER_HOUR + mi * SEC_PER_MIN + s.

Lemma day_number_nonneg (y m d : Z) : valid_date y m d -> 0 <= day_number y m d.
Proof.
  intros (Hy & Hm & Hd). unfold day_number.
  assert (0 <= days_of_years (Z.to_nat (y - 1970))).
  { generalize (Z.to_nat (y - 1970)). intros n. induction n; cbn [days_of_years]; [lia|].
    unfold leap. destruct (zbx_is_leap_year _); lia. }
  rewrite days_of_months_closed by lia.
  assert (0 <= nth (Z.to_nat (m - 1)) month_day 0) by (each_month m; vm_compute; discriminate).
  unfold leap. destruct (2 <? m), (zbx_is_leap_year y); lia.
Qed.

Lemma utc_time_valid (y m d h mi s : Z) :
  valid_date y m d -> valid_clock h mi s ->
  zbx_utc_time y m d h mi s =
    if seconds_of y m d h mi s <? 2 ^ 31 then Ret (Some (seconds_of y m d h mi s)) else Undef.
Proof.
  intros Hv (Hh & Hmi & Hs). pose proof (day_number_nonneg y m d Hv) as Hnn. destruct Hv as (Hy & Hm & Hd).
  unfold zbx_utc_time.
  repeat match goal with
  | |- context [?a <=? ?b] => rewrite (proj2 (Z.leb_le a b)) by lia
  end. cbn [andb]. set (t := _ + s).
  assert (Ht : t = seconds_of y m d h mi s).
  { unfold t, seconds_of, day_number, SEC_PER_YEAR. rewrite days_of_years_closed, days_of_months_closed by lia.
    destruct (Z.ltb_spec 2 m); [rewrite leap_step by lia|]; lia. }
  clearbody t. subst t.
  assert (Hpos : 0 <= seconds_of y m d h mi s) by (unfold seconds_of, SEC_PER_DAY, SEC_PER_HOUR, SEC_PER_MIN; lia).
  unfold c_int. destruct (Z.ltb_spec (seconds_of y m d h mi s) (2 ^ 31)).
  - rewrite (proj2 (Z.leb_le _ _)) by lia. cbn [andb]. run. by rewrite (proj2 (Z.leb_le _ _)) by lia.
  - by rewrite andb_false_r.
Qed.

Lemma utc_time_invalid (y m d h mi s : Z) :
  ~ (valid_date y m d /\ valid_clock h mi s) -> zbx_utc_time y m d h mi s = Ret None.
Proof.
  intros Hn. unfold zbx_utc_time.
  match goal with |- (if ?b then _ else _) = _ => destruct b eqn:E; [exfalso|done] end.
  apply Hn. rewrite !andb_true_iff, !Z.leb_le in E. unfold valid_date, valid_clock. lia.
Qed.

(** zbx_utc_time counts the seconds from 1 January 1970 exactly, for
    every valid date and time of day: 86400 per day of the calendar summed year
    by year and month by month; it fails on every other input, and past
    19 January 2038 the sum overflows int. *)
Theorem utc_time_exact (y m d h mi s : Z) :
  (valid_date y m d /\ valid_clock h mi s ->
   zbx_utc_time y m d h mi s =
     if seconds_of y m d h mi s <? 2 ^ 31 then Ret (Some (seconds_of y m d h mi s)) else Undef) /\
  (~ (valid_date y m d /\ valid_clock h mi s) -> zbx_utc_time y m d h mi s = Ret None).
Proof.
  split; [intros [? ?]; by apply utc_time_valid | apply utc_time_invalid].
Qed.

Lemma utc_time_exact_witness :
  zbx_utc_time 2024 2 29 12 30 15 = Ret (Some (seconds_of 2024 2 29 12 30 15)) /\
  zbx_utc_time 2023 2 29 12 30 15 = Ret None.
Proof.
  split.
  - apply (utc_time_exact 2024 2 29 12 30 15). unfold valid_date, valid_clock.
    vm_compute. repeat split; discriminate.
  - apply (utc_time_exact 2023 2 29 12 30 15). unfold valid_date.
    intros [(_ & _ & _ & H) _]. vm_compute in H. by apply H.
Defined.

(* ------------------------------------------------------------------ *)
(** ** Adding and subtracting days *)

(** The date of a broken-down time, counted in days. *)
Definition tm_days (t : tm) : Z := day_number (tm_year t + 1900) (tm_mon t + 1) (tm_mday t).

Definition tm_month_ok (t : tm) : Prop := 70 <= tm_year t /\ 0 <= tm_mon t <= 11.
Definition tm_date_ok (t : tm) : Prop :=
  valid_date (tm_year t + 1900) (tm_mon t + 1) (tm_mday t) /\ 0 <= tm_wday t <= 6.
Definition same_clock (t t' : tm) : Prop :=
  tm_hour t' = tm_hour t /\ tm_min t' = tm_min t /\ tm_sec t' = tm_sec t /\
  tm_yday t' = tm_yday t /\ tm_isdst t' = tm_isdst t.

Lemma add_one_month (t : tm) (d : Z) :
  tm_month_ok t ->
  let t' := tm_add_month (set_mday t d) 1 in
  tm_month_ok t' /\ tm_mday t' = d /\ same_clock t t' /\ tm_wday t' = tm_wday t /\
  tm_days t' = day_number (tm_year t + 1900) (tm_mon t + 1)
                 (d + zbx_day_in_month (tm_year t + 1900) (tm_mon t + 1)).
Proof.
  intros [Hy Hm]. unfold tm_add_month, tm_days, tm_month_ok, same_clock. cbn.
  destruct (Z.leb_spec 12 (tm_mon t + 1)) as [H12 | H12]; cbn.
  - assert (tm_mon t = 11) as Em by lia. rewrite Em. change (Z.rem (11 + 1) 12) with 0.
    change (Z.quot (11 + 1) 12) with 1. split_and!; try done; try lia.
    replace (tm_year t + 1 + 1900) with (tm_year t + 1900 + 1) by lia.
    apply day_number_next_year. lia.
  - split_and!; try done; try lia. apply day_number_next_month. lia.
Qed.

Lemma tm_add_day_loop_ok (fuel : nat) (t : tm) :
  tm_month_ok t -> tm_mday t <= Z.of_nat fuel ->
  exists t', tm_add_day_loop fuel t = Ret t' /\ tm_month_ok t' /\ same_clock t t' /\
    tm_wday t' = tm_wday t /\ tm_days t' = tm_days t /\
    tm_mday t' <= zbx_day_in_month (tm_year t' + 1900) (tm_mon t' + 1) /\
    (1 <= tm_mday t -> 1 <= tm_mday t').
Proof.
  revert t. induction fuel as [|fuel IH]; intros t Hok Hf; cbn [tm_add_day_loop];
    pose proof (day_in_month_range (tm_year t + 1900) (tm_mon t + 1));
    destruct (Z.ltb_spec (zbx_day_in_month (tm_year t + 1900) (tm_mon t + 1)) (tm_mday t)) as [Hlt | Hge];
    try (exists t; by split_and!).
  - lia.
  - pose proof (add_one_month t (tm_mday t - zbx_day_in_month (tm_year t + 1900) (tm_mon t + 1)) Hok) as Hstep.
    cbn zeta in Hstep. destruct Hstep as (Hok1 & Hd1 & Hc1 & Hw1 & Hdays1).
    destruct (IH _ Hok1) as (t' & E & Hok' & Hc' & Hw' & Hdays' & Hle & Hge1); [rewrite Hd1; lia|].
    exists t'. split_and!; try done.
    + unfold same_clock in *. naive_solver congruence.
    + congruence.
    + rewrite Hdays', Hdays1. unfold tm_days. f_equal. lia.
    + intros _. apply Hge1. lia.
Qed.

Lemma tm_add_day_ok (t : tm) (n : Z) :
  tm_date_ok t -> 0 <= n ->
  exists t', tm_add_day t n = Ret t' /\ tm_date_ok t' /\ same_clock t t' /\
    tm_days t' = tm_days t + n /\ tm_wday t' = (tm_wday t + n) mod 7.
Proof.
  intros ((Hy & Hm & Hd) & Hw) Hn. unfold tm_add_day.
  destruct (tm_add_day_loop_ok (Z.to_nat (tm_mday t + n)) (set_mday t (tm_mday t + n)))
    as (t' & E & Hok' & Hc' & Hw' & Hdays' & Hle & Hge); [split; cbn; lia | cbn; lia|].
  cbn [tm_mday set_mday set_date]. rewrite E. run. eexists. split; [done|].
  cbn in Hw'. rewrite Hw', Z.rem_mod_nonneg by lia.
  destruct Hok' as [Hy' Hm']. cbn in Hge. pose proof (Z.mod_pos_bound (tm_wday t + n) 7 ltac:(lia)).
  split_and!; try done; try apply Hc'; try (cbn; lia).
  - unfold tm_date_ok, valid_date, set_wday. cbn [tm_year tm_mon tm_mday tm_wday]. lia.
  - change (tm_days t' = tm_days t + n). rewrite Hdays'. unfold tm_days, day_number. cbn. lia.
Qed.

Lemma sub_one_month (t : tm) (d : Z) :
  tm_month_ok t -> (tm_mon t = 0 -> 71 <= tm_year t) ->
  let prev := (if tm_mon t - 1 <? 0 then 11 else tm_mon t - 1) + 1 in
  let t' := tm_sub_month (set_mday t (d + zbx_day_in_month (tm_year t + 1900) prev)) 1 in
  tm_month_ok t' /\ tm_mday t' = d + zbx_day_in_month (tm_year t' + 1900) (tm_mon t' + 1) /\
  same_clock t t' /\ tm_wday t' = tm_wday t /\
  tm_days t' = day_number (tm_year t + 1900) (tm_mon t + 1) d.
Proof.
  intros [Hy Hm] H0. cbn zeta. unfold tm_sub_month, tm_days, tm_month_ok, same_clock. cbn.
  destruct (Z.ltb_spec (tm_mon t - 1) 0) as [Hlt | Hge]; cbn.
  - assert (tm_mon t = 0) as Em by lia. rewrite Em. specialize (H0 Em).
    change (neg_to_pos_wrap (0 - 1) 12) with 11. change (Z.quot (- (0 - 1)) 12) with 0. cbn.
    change (zbx_day_in_month (tm_year t + 1900) 12) with 31.
    change (zbx_day_in_month (tm_year t - 1 + 1900) 12) with 31.
    split_and!; try done; try lia.
    replace (tm_year t + 1900) with (tm_year t - 1 + 1900 + 1) by lia.
    by rewrite day_number_next_year by lia.
  - replace (tm_mon t - 1 + 1) with (tm_mon t) by lia.
    split_and!; try done; try lia.
    by rewrite (day_number_next_month _ (tm_mon t)) by lia.
Qed.

Lemma tm_sub_day_loop_ok (fuel : nat) (t : tm) :
  tm_month_ok t -> 0 <= tm_days t -> 1 - tm_mday t <= Z.of_nat fuel ->
  tm_mday t <= zbx_day_in_month (tm_year t + 1900) (tm_mon t + 1) ->
  exists t', tm_sub_day_loop fuel t = Ret t' /\ tm_month_ok t' /\ same_clock t t' /\
    tm_wday t' = tm_wday t /\ tm_days t' = tm_days t /\
    1 <= tm_mday t' <= zbx_day_in_month (tm_year t' + 1900) (tm_mon t' + 1).
Proof.
  revert t. induction fuel as [|fuel IH]; intros t Hok Hpos Hf Hle; cbn [tm_sub_day_loop];
    destruct (Z.leb_spec (tm_mday t) 0) as [Hlt | Hge]; try (exists t; split_and!; done || lia).
  - assert (Hy : tm_mon t = 0 -> 71 <= tm_year t).
    { intros Em. destruct Hok as [Hy _]. destruct (decide (tm_year t = 70)) as [Ey | ]; [|lia]. exfalso.
      unfold tm_days, day_number in Hpos. rewrite Em, Ey in Hpos.
      change (0 <= 0 + 0 + (tm_mday t - 1)) in Hpos. lia. }
    pose proof (sub_one_month t (tm_mday t) Hok Hy) as Hstep. cbn zeta in Hstep.
    destruct Hstep as (Hok1 & Hd1 & Hc1 & Hw1 & Hdays1).
    match goal with |- context [tm_sub_day_loop fuel ?x] => set (t1 := x) in * end.
    pose proof (day_in_month_range (tm_year t1 + 1900) (tm_mon t1 + 1)).
    destruct (IH t1 Hok1) as (t' & E & Hok' & Hc' & Hw' & Hdays' & Hrange);
      [by rewrite Hdays1 | rewrite Hd1; lia | rewrite Hd1; lia |].
    exists t'. split_and!; try done; try lia.
    + unfold same_clock in *. naive_solver congruence.
    + by rewrite Hdays', Hdays1.
Qed.

Lemma neg_wrap_mod (v b : Z) : 0 < b -> v < 0 -> neg_to_pos_wrap v b = v mod b.
Proof.
  intros Hb Hv. unfold neg_to_pos_wrap.
  pose proof (Z.rem_bound_pos_neg v b ltac:(lia) ltac:(lia)). pose proof (Z.quot_rem v b ltac:(lia)).
  destruct (Z.eqb_spec (Z.rem v b) 0) as [E | E].
  - symmetry. apply Z.mod_divide; [lia|]. exists (Z.quot v b). lia.
  - apply (Z.mod_unique_pos v b (Z.quot v b - 1)); lia.
Qed.

Lemma tm_sub_day_ok (t : tm) (n : Z) :
  tm_date_ok t -> 0 <= n <= tm_days t ->
  exists t', tm_sub_day t n = Ret t' /\ tm_date_ok t' /\ same_clock t t' /\
    tm_days t' = tm_days t - n /\ tm_wday t' = (tm_wday t - n) mod 7.
Proof.
  intros ((Hy & Hm & Hd) & Hw) Hn. unfold tm_sub_day.
  assert (Hdn : tm_days (set_mday t (tm_mday t - n)) = tm_days t - n) by (unfold tm_days, day_number; cbn; lia).
  destruct (tm_sub_day_loop_ok (Z.to_nat (1 - (tm_mday t - n))) (set_mday t (tm_mday t - n)))
    as (t' & E & Hok' & Hc' & Hw' & Hdays' & Hrange); [split; cbn; lia | lia | cbn; lia | cbn; lia |].
  cbn [tm_mday set_mday set_date]. rewrite E. run. cbn in Hw'. destruct Hok' as [Hy' Hm'].
  assert (Hwd : exists w, (let t1 := set_wday t' (tm_wday t' - n) in
      if tm_wday t1 <? 0 then set_wday t1 (neg_to_pos_wrap (tm_wday t1) 7) else t1) = set_wday t' w /\
      w = (tm_wday t - n) mod 7).
  { cbn. rewrite Hw'. destruct (Z.ltb_spec (tm_wday t - n) 0) as [Hlt | Hge].
    - eexists. split; [reflexivity|]. by apply neg_wrap_mod.
    - eexists. split; [reflexivity|]. symmetry. apply Z.mod_small. lia. }
  destruct Hwd as (w & Ew & Hwm). cbn zeta in Ew. rewrite Ew. exists (set_wday t' w).
  pose proof (Z.mod_pos_bound (tm_wday t - n) 7 ltac:(lia)).
  split_and!; try done; try apply Hc'; try (cbn; lia).
  - unfold tm_date_ok, valid_date, set_wday. cbn [tm_year tm_mon tm_mday tm_wday]. lia.
  - change (tm_days t' = tm_days t - n). lia.
Qed.

(** tm_add and tm_sub of days move a valid date by exactly that many days
    of the calendar: the month loops terminate, the result is a valid date
    with the time of day untouched, and the week day follows modulo seven. *)
Theorem tm_days_correct (t : tm) (n : Z) :
  tm_date_ok t -> 0 <= n ->
  (exists t', tm_add t n UNIT_DAY = Ret t' /\ tm_date_ok t' /\ same_clock t t' /\
     tm_days t' = tm_days t + n /\ tm_wday t' = (tm_wday t + n) mod 7) /\
  (n <= tm_days t ->
   exists t', tm_sub t n UNIT_DAY = Ret t' /\ tm_date_ok t' /\ same_clock t t' /\
     tm_days t' = tm_days t - n /\ tm_wday t' = (tm_wday t - n) mod 7).
Proof.
  intros Hok Hn. split; [by apply tm_add_day_ok|]. intros Hle. by apply tm_sub_day_ok.
Qed.

(** 28 February 2024, a Wednesday, two days later and sixty days earlier. *)
Definition demo_tm : tm := mkTm 124 1 28 10 20 30 3 58 0.

Lemma tm_days_correct_witness :
  (exists t', tm_add demo_tm 2 UNIT_DAY = Ret t' /\ tm_days t' = tm_days demo_tm + 2 /\ tm_wday t' = 5) /\
  (exists t', tm_sub demo_tm 60 UNIT_DAY = Ret t' /\ tm_days t' = tm_days demo_tm - 60 /\ tm_wday t' = 6).
Proof.
  assert (Hok : tm_date_ok demo_tm) by (unfold tm_date_ok, valid_date; vm_compute; repeat split; discriminate).
  split.
  - destruct (tm_days_correct demo_tm 2 Hok ltac:(lia)) as [(t' & E & _ & _ & Hd & Hw) _]. exists t'. split_and!; [exact E | exact Hd | exact Hw].
  - destruct (tm_days_correct demo_tm 60 Hok ltac:(lia)) as [_ Hs].
    destruct Hs as (t' & E & _ & _ & Hd & Hw); [vm_compute; discriminate|]. exists t'. split_and!; [exact E | exact Hd | exact Hw].
Defined.

(* ------------------------------------------------------------------ *)
(** ** ISO weeks *)

Definition year_length (year : Z) : Z := 365 + leap year.

(** The week of a date is the week of its Thursday: the position of that
    Thursday in the year it falls in, counted in weeks. *)
Definition iso_week (t : tm) : Z :=
  let thursday := tm_yday t - (if tm_wday t =? 0 then 7 else tm_wday t) + 4 in
  let thursday :=
    if thursday <? 0 then thursday + year_length (tm_year t + 1899)
    else if year_length (tm_year t + 1900) <=? thursday then thursday - year_length (tm_year t + 1900)
    else thursday in
  thursday / 7 + 1.

(** zbx_get_week_number is the ISO 8601 week of every day of the year: the
    week is numbered in the year its Thursday falls in, so the first days of
    January and the last of December may belong to the neighbouring year. *)
Theorem week_number_iso (t : tm) :
  0 <= tm_yday t < year_length (tm_year t + 1900) -> 0 <= tm_wday t <= 6 ->
  zbx_get_week_number t = iso_week t.
Proof.
  intros Hy Hw. unfold zbx_get_week_number, iso_week, get_week_days, year_length, leap in *.
  set (prev := zbx_is_leap_year (tm_year t + 1899)). set (cur := zbx_is_leap_year (tm_year t + 1900)) in *.
  assert (Hrem : forall y, -366 <= y -> Z.rem (y - tm_wday t + 382) 7 = (y - tm_wday t + 4) mod 7).
  { intros y Hy'. rewrite Z.rem_mod_nonneg by lia.
    replace (y - tm_wday t + 382) with (y - tm_wday t + 4 + 54 * 7) by lia. apply Z.mod_add. lia. }
  rewrite Hrem by lia.
  destruct prev, cur; rewrite !Hrem by lia;
    destruct (Z.eqb_spec (tm_wday t) 0);
    repeat match goal with
    | |- context [?a <? ?b] => destruct (Z.ltb_spec a b)
    | |- context [?a <=? ?b] => destruct (Z.leb_spec a b)
    end; zlia.
Qed.

(** 29 December 2025 is a Monday, of the first week of 2026. *)
Lemma week_number_iso_witness :
  zbx_get_week_number (mkTm 125 11 29 0 0 0 1 362 0) = iso_week (mkTm 125 11 29 0 0 0 1 362 0) /\
  iso_week (mkTm 125 11 29 0 0 0 1 362 0) = 1.
Proof.
  split; [|vm_compute; reflexivity].
  apply week_number_iso; split; vm_compute; (reflexivity || discriminate).
Defined.

(* ------------------------------------------------------------------ *)
(** ** Time suffixes *)

Lemma suffix_digits_spec (ds rest : list Z) (len v : Z) :
  Forall (fun c => isdigit c = true) ds -> 0 <= v <= INT_MAX -> Z.of_nat (length ds) <= len ->
  (isdigit (hd0 rest) = false \/ len = Z.of_nat (length ds)) ->
  suffix_digits (ds ++ rest) len v =
    let w := foldl (fun v d => v * 10 + d) v (dec_digits ds) in
    if w <=? INT_MAX then Some (rest, len - Z.of_nat (length ds), w) else None.
Proof.
  revert len v. induction ds as [|d ds IH]; intros len v Hd Hv Hlen Hstop.
  - cbn [app dec_digits fmap list_fmap foldl length]. cbn zeta. rewrite (proj2 (Z.leb_le _ _)) by lia.
    rewrite Z.sub_0_r. destruct rest as [|c rest]; [done|]. cbn [suffix_digits].
    destruct Hstop as [Hs | ->]; [cbn in Hs; by rewrite Hs, andb_false_r | done].
  - inversion_clear Hd as [|? ? Hd0 Hds]. cbn [app suffix_digits]. cbn [length] in *.
    rewrite (proj2 (Z.ltb_lt 0 len)) by lia. rewrite Hd0. cbn [andb].
    apply isdigit_range in Hd0. change (dec_digits (d :: ds)) with ((d - 48) :: dec_digits ds). cbn [foldl].
    destruct (Z.ltb_spec ((INT_MAX - (d - 48)) / 10) v) as [Ho | Ho].
    + cbn zeta. destruct (Z.leb_spec (foldl (fun v d => v * 10 + d) (v * 10 + (d - 48)) (dec_digits ds)) INT_MAX) as [Hc|]; [exfalso|done].
      assert (v * 10 + (d - 48) <= foldl (fun v d => v * 10 + d) (v * 10 + (d - 48)) (dec_digits ds)).
      { apply foldl_ge; [lia|lia|]. apply Forall_fmap. eapply Forall_impl; [exact Hds|].
        intros x Hx%isdigit_range. simpl. lia. }
      unfold INT_MAX in *. zlia.
    + rewrite IH; [|done|unfold INT_MAX in *; zlia|lia|destruct Hstop; [by left|right; lia]].
      cbn zeta. by replace (len - 1 - Z.of_nat (length ds)) with (len - Z.of_nat (S (length ds))) by lia.
Qed.

(** What the function should accept: digits, at most one unit letter, and a
    product that fits in an int. *)
Definition time_value (text : list Z) (v : Z) : Prop :=
  exists ds u f, text = ds ++ u /\ ds <> [] /\ Forall (fun c => isdigit c = true) ds /\
    ((u = [] /\ f = 1) \/ exists c, u = [c] /\ time_factor c = Some f) /\
    v = digits_value 10 (dec_digits ds) * f /\ v <= INT_MAX.

Lemma time_factor_nondigit (c f : Z) : time_factor c = Some f -> isdigit c = false /\ 1 <= f.
Proof.
  unfold time_factor, SEC_PER_WEEK, SEC_PER_DAY, SEC_PER_HOUR, SEC_PER_MIN.
  repeat match goal with |- context [?a =? ?b] => destruct (Z.eqb_spec a b) as [-> |] end;
    intros; simplify_eq; split; done || lia.
Qed.

Lemma time_value_split (ds u : list Z) (v : Z) :
  Forall (fun c => isdigit c = true) ds -> isdigit (hd0 u) = false ->
  time_value (ds ++ u) v <->
  ds <> [] /\ exists f, ((u = [] /\ f = 1) \/ exists c, u = [c] /\ time_factor c = Some f) /\
    v = digits_value 10 (dec_digits ds) * f /\ v <= INT_MAX.
Proof.
  intros Hds Hu. split.
  - intros (ds' & u' & f & E & Hne & Hds' & Hf & Hv).
    destruct (span_unique isdigit ds ds' u u' Hds Hu Hds') as [-> ->]; try done; [|by split; [|exists f]].
    destruct Hf as [[-> _] | (c & -> & Hc%time_factor_nondigit)]; [done|]. apply Hc.
  - intros (Hne & f & Hf & Hv). by exists ds, u, f.
Qed.

(** The part of the string the function looks at. *)
Definition suffix_text (s : list Z) (length : Z) : list Z :=
  if length =? ZBX_LENGTH_UNLIMITED then s else take (Z.to_nat length) s.

Lemma is_time_suffix_spec (s : list Z) (len v : Z) :
  Forall (fun c => c <> 0) s -> Z.of_nat (length s) < ZBX_LENGTH_UNLIMITED ->
  len = ZBX_LENGTH_UNLIMITED \/ 0 <= len <= Z.of_nat (length s) ->
  zbx_is_time_suffix s len = Some v <-> time_value (suffix_text s len) v.
Proof.
  intros Hs Hlen Hl. unfold zbx_is_time_suffix, suffix_text.
  assert (Hsplit : exists ds u tl, s = ds ++ u ++ tl /\ Forall (fun c => isdigit c = true) ds /\
    isdigit (hd0 u) = false /\ (if len =? ZBX_LENGTH_UNLIMITED then s else take (Z.to_nat len) s) = ds ++ u /\
    (len = ZBX_LENGTH_UNLIMITED -> tl = []) /\
    (len <> ZBX_LENGTH_UNLIMITED -> len = Z.of_nat (length ds + length u))).
  { set (text := if len =? ZBX_LENGTH_UNLIMITED then s else take (Z.to_nat len) s).
    destruct (span_exists isdigit text eq_refl) as (ds & u & E & Hds & Hu).
    unfold text in *. destruct (Z.eqb_spec len ZBX_LENGTH_UNLIMITED) as [El | El].
    - exists ds, u, []. rewrite app_nil_r. split_and!; done.
    - exists ds, u, (drop (Z.to_nat len) s). rewrite app_assoc, <- E, take_drop. split_and!; try done.
      intros _. rewrite <- length_app, <- E, length_take. lia. }
  destruct Hsplit as (ds & u & tl & Es & Hds & Hu & -> & Htl & Hll).
  rewrite time_value_split by done.
  destruct ds as [|d ds].
  { rewrite app_nil_l in Es. split; [|by intros [? _]].
    assert (Hbad : (hd0 s =? 0) || (len <=? 0) || negb (isdigit (hd0 s)) = true).
    { destruct u as [|c u].
      - cbn in Hll. destruct (decide (len = ZBX_LENGTH_UNLIMITED)) as [El | El].
        + rewrite Es, (Htl El). done.
        + rewrite (Hll El). by rewrite orb_true_r.
      - rewrite Es. cbn in *. by rewrite Hu, !orb_true_r. }
    by rewrite Hbad. }
  assert (Hd : isdigit d = true) by (by inversion Hds).
  assert (Hpos : 0 < len) by (destruct (decide (len = ZBX_LENGTH_UNLIMITED)) as [-> | El]; [done | cbn in Hll; lia]).
  assert (Hgood : (hd0 s =? 0) || (len <=? 0) || negb (isdigit (hd0 s)) = false).
  { rewrite Es. cbn [hd0 app]. rewrite Hd. apply isdigit_range in Hd.
    destruct (Z.eqb_spec d 0); [lia|]. destruct (Z.leb_spec len 0); [lia|]. done. }
  rewrite Hgood. set (ds' := d :: ds) in *.
  assert (Hsl : length s = (length ds' + (length u + length tl))%nat) by (rewrite Es, !length_app; done).
  rewrite Es, suffix_digits_spec; [|done|unfold INT_MAX; lia| |].
  2: { destruct (decide (len = ZBX_LENGTH_UNLIMITED)) as [-> | El]; [|specialize (Hll El)]; lia. }
  2: { destruct u as [|c u]; [|by left].
       destruct (decide (len = ZBX_LENGTH_UNLIMITED)) as [El | El];
         [left; by rewrite (Htl El) | right; rewrite (Hll El); cbn [length]; lia]. }
  cbn zeta. fold (digits_value 10 (dec_digits ds')). set (w := digits_value 10 (dec_digits ds')).
  assert (Hw0 : 0 <= w).
  { unfold w, digits_value. apply foldl_ge; [lia|lia|]. apply Forall_fmap. eapply Forall_impl; [exact Hds|].
    intros x Hx%isdigit_range. simpl. lia. }
  assert (Hmul : forall f, 1 <= f -> (if INT_MAX / f <? w then None else Some (w * f)) = Some v <-> v = w * f /\ v <= INT_MAX).
  { intros f Hf. destruct (Z.ltb_spec (INT_MAX / f) w) as [Ho | Ho].
    - split; [discriminate|]. intros [-> Hle].
      pose proof (Z.div_le_lower_bound INT_MAX f w ltac:(lia) ltac:(lia)). lia.
    - split; [intros [= <-] | by intros [-> _]]. split; [done|].
      pose proof (Z.mul_div_le INT_MAX f ltac:(lia)). nia. }
  assert (Hne : ds' <> []) by done.
  destruct u as [|c u].
  - cbn [app]. assert (Hstop : negb (hd0 tl =? 0) && (0 <? len - Z.of_nat (length ds')) = false).
    { destruct (decide (len = ZBX_LENGTH_UNLIMITED)) as [El | El]; [by rewrite (Htl El)|].
      rewrite (Hll El). cbn [length]. replace (Z.of_nat (length ds' + 0) - Z.of_nat (length ds')) with 0 by lia.
      by rewrite andb_false_r. }
    assert (Hfin : (len =? ZBX_LENGTH_UNLIMITED) && negb (hd0 tl =? 0) ||
        negb (len =? ZBX_LENGTH_UNLIMITED) && negb (len - Z.of_nat (length ds') =? 0) = false).
    { destruct (Z.eqb_spec len ZBX_LENGTH_UNLIMITED) as [El | El]; [by rewrite (Htl El)|].
      rewrite (Hll El). cbn [length]. replace (Z.of_nat (length ds' + 0) - Z.of_nat (length ds')) with 0 by lia. done. }
    destruct (Z.leb_spec w INT_MAX) as [Hle | Hgt].
    + rewrite Hstop, Hfin, Hmul by lia. split; [intros [-> ?]; split; [done|]; exists 1; split_and!; auto|].
      intros (_ & f & [[_ ->] | (c & ? & _)] & Hv); [done|discriminate].
    + split; [discriminate|]. intros (_ & f & [[_ ->] | (c & ? & _)] & -> & Hv); [lia|discriminate].
  - assert (Hc0 : c <> 0).
    { rewrite Es in Hs. apply Forall_app in Hs as [_ Hs]. cbn in Hs. by apply Forall_cons in Hs as [? _]. }
    assert (Hgt0 : 0 < len - Z.of_nat (length ds')).
    { destruct (decide (len = ZBX_LENGTH_UNLIMITED)) as [El | El]; [|specialize (Hll El); cbn [length] in Hll]; lia. }
    assert (Hfin : (len =? ZBX_LENGTH_UNLIMITED) && negb (hd0 (u ++ tl) =? 0) ||
        negb (len =? ZBX_LENGTH_UNLIMITED) && negb (len - Z.of_nat (length ds') - 1 =? 0) =
        match u with [] => false | _ => true end).
    { destruct (Z.eqb_spec len ZBX_LENGTH_UNLIMITED) as [El | El].
      - rewrite (Htl El), app_nil_r. destruct u as [|x u]; [done|]. cbn.
        rewrite Es in Hs. apply Forall_app in Hs as [_ Hs]. cbn in Hs.
        apply Forall_cons in Hs as [_ Hs]. apply Forall_cons in Hs as [Hx _]. by destruct (Z.eqb_spec x 0).
      - rewrite (Hll El). destruct u as [|x u]; cbn [length andb orb negb].
        + by replace (Z.of_nat (length ds' + 1) - Z.of_nat (length ds') - 1) with 0 by lia.
        + destruct (Z.eqb_spec (Z.of_nat (length ds' + S (S (length u))) - Z.of_nat (length ds') - 1) 0); [lia|done]. }
    destruct (Z.leb_spec w INT_MAX) as [Hle | Hgt].
    + cbn [app hd0 tail]. destruct (Z.eqb_spec c 0) as [|_]; [done|]. cbn [negb andb].
      rewrite (proj2 (Z.ltb_lt _ _) Hgt0). destruct (time_factor c) as [f|] eqn:Ef; cycle 1.
      { split; [discriminate|]. intros (_ & f & [[? _] | (c' & Hu' & Ef')] & _); [discriminate|].
        injection Hu' as <- ->. congruence. }
      pose proof (time_factor_nondigit _ _ Ef) as [_ Hf1]. rewrite Hfin. destruct u as [|x u].
      * rewrite Hmul by done. split.
        -- intros Hv. split; [done|]. exists f. split; [right; by exists c | done].
        -- intros (_ & f' & [[? _] | (c' & Hu' & Ef')] & Hv); [discriminate|].
           injection Hu' as <-. by simplify_eq.
      * split; [discriminate|]. intros (_ & f' & [[? _] | (c' & Hu' & Ef')] & Hv); discriminate.
    + split; [discriminate|]. intros (_ & f & [[? _] | (c' & Hu' & Ef)] & -> & Hv); [discriminate|].
      apply time_factor_nondigit in Ef as [_ Hf1]. nia.
Qed.

(** zbx_is_time_suffix accepts exactly one or more digits followed by at
    most one of the units s, m, h, d, w whose product fits in an int, and
    returns the product: neither the digit loop nor the multiplication
    overflows. *)
Theorem time_suffix_exact (s : list Z) (len v : Z) :
  Forall (fun c => c <> 0) s -> Z.of_nat (length s) < ZBX_LENGTH_UNLIMITED ->
  len = ZBX_LENGTH_UNLIMITED \/ 0 <= len <= Z.of_nat (length s) ->
  zbx_is_time_suffix s len = Some v <-> time_value (suffix_text s len) v.
Proof. apply is_time_suffix_spec. Qed.

Lemma time_suffix_exact_witness :
  zbx_is_time_suffix (bytes_of "90m") ZBX_LENGTH_UNLIMITED = Some 5400 /\
  ~ time_value (bytes_of "99999999w") 5400.
Proof.
  split.
  - apply time_suffix_exact; [by repeat constructor|done|by left|].
    exists [57; 48], [109], 60. split_and!; [done|done|by repeat constructor|right; by exists 109|done|done].
  - intros H. apply (time_suffix_exact (bytes_of "99999999w") ZBX_LENGTH_UNLIMITED) in H;
      [|by repeat constructor|done|by left]. vm_compute in H. discriminate H.
Defined.
