(* ===== verification/Interval.v ===== *)
(** The parsers of update intervals: time periods, flexible intervals and
    scheduling filters of src/src/libs/zbxexpr/interval.c.  A text is the rest
    of a NUL-terminated string, [len] the characters available to the parser. *)

From stdpp Require Import base list numbers strings.
From Stdlib Require Import ZArith Lia.
From S2P Require Import Prelude Num Calendar.

Open Scope Z_scope.

(** zbx_time_period_t. *)
Record time_period : Type := mkPeriod {
  start_day : Z; end_day : Z; start_time : Z; end_time : Z
}.

(** zbx_scheduler_filter_t; a chain is the list of its nodes. *)
Record scheduler_filter : Type := mkFilter { fstart : Z; fend : Z; fstep : Z }.

Definition FILTER_DAY : Z := 1.
Definition FILTER_HOUR : Z := 2.
Definition FILTER_MINUTE : Z := 3.
Definition FILTER_SECOND : Z := 4.

(** zbx_scheduler_interval_t without its list pointer. *)
Record scheduler_interval : Type := mkSched {
  mdays : list scheduler_filter;
  wdays : list scheduler_filter;
  hours : list scheduler_filter;
  minutes : list scheduler_filter;
  seconds : list scheduler_filter;
  filter_level : Z
}.

(** zbx_flexible_interval_t without its list pointer. *)
Record flexible_interval : Type := mkFlex { period : time_period; delay : Z }.

(** struct zbx_custom_interval. *)
Record custom_interval : Type := mkCustom {
  flexible : list flexible_interval;
  scheduling : list scheduler_interval
}.

(** The for loop "0 < len && isdigit( *ptr ) && 2 >= ptr - text": how many
    digits, three at most, the time parser takes. *)
Fixpoint digit_run (k : nat) (s : list Z) (len : Z) : nat :=
  match k with
  | O => O
  | S k => if (0 <? len) && isdigit (hd0 s) then S (digit_run k (tail s) (len - 1)) else O
  end.

(** [Some (time, parsed_len)] is SUCCEED. *)
Definition time_parse (text : list Z) (len : Z) : option (Z * Z) :=
  let n := digit_run 3 text len in
  match zbx_is_uint_n_range (Some text) n true 4 0 24 with
  | None => None
  | Some h =>
      let len1 := len - Z.of_nat n in
      let ptr := drop n text in
      if (len1 <=? 0) || negb (hd0 ptr =? 58 (* : *)) then None else
      let len2 := len1 - 1 in
      let text2 := tail ptr in
      let n2 := digit_run 3 text2 len2 in
      if negb (n2 =? 2)%nat then None else
      match zbx_is_uint_n_range (Some text2) 2 true 4 0 59 with
      | None => None
      | Some mi =>
          if (h =? 24) && negb (mi =? 0) then None
          else Some (SEC_PER_HOUR * h + SEC_PER_MIN * mi, len - (len2 - 2))
      end
  end.

Definition weekday_char (c : Z) : bool := (49 <=? c) && (c <=? 55).

(** One weekday digit at the head of the text. *)
Definition weekday_parse (text : list Z) (len : Z) : option Z :=
  if (len <=? 0) || negb (weekday_char (hd0 text)) then None else Some (hd0 text - 48).

Definition time_period_parse (text : list Z) (len : Z) : option time_period :=
  match weekday_parse text len with
  | None => None
  | Some sd =>
      let len := len - 1 in
      let text := tail text in
      if len <=? 0 then None else
      let days :=
        if hd0 text =? 45 (* - *) then
          match weekday_parse (tail text) (len - 1) with
          | None => None
          | Some ed => if ed <? sd then None else Some (ed, tail (tail text), len - 2)
          end
        else Some (sd, text, len) in
      match days with
      | None => None
      | Some (ed, text, len) =>
          if (len <=? 0) || negb (hd0 text =? 44 (* , *)) then None else
          match time_parse (tail text) (len - 1) with
          | None => None
          | Some (st, parsed) =>
              let text := drop (Z.to_nat parsed) (tail text) in
              let len := len - 1 - parsed in
              if (len <=? 0) || negb (hd0 text =? 45) then None else
              match time_parse (tail text) (len - 1) with
              | None => None
              | Some (et, parsed) =>
                  if et <=? st then None
                  else if negb (len - 1 - parsed =? 0) then None
                  else Some (mkPeriod sd ed st et)
              end
          end
      end
  end.

(** while (isdigit( *pend ) && 0 < len): how many digits are taken. *)
Fixpoint len_digits (s : list Z) (len : Z) : nat :=
  match s with
  | c :: s' => if isdigit c && (0 <? len) then S (len_digits s' (len - 1)) else O
  | [] => O
  end.

(** The digits after '-' or '/': at least one and at most [var_len]; the
    value with the text and length after them. *)
Definition filter_number (text : list Z) (len min max : Z) (var_len : nat) : option (Z * list Z * Z) :=
  let n := len_digits text len in
  if (n =? 0)%nat || (var_len <? n)%nat then None else
  match zbx_is_uint_n_range (Some text) n true 4 min max with
  | None => None
  | Some v => Some (v, drop n text, len - Z.of_nat n)
  end.

(** <from>, <from>-<to> or nothing, before the step; the last component tells
    whether any character was taken. *)
Definition filter_range (text : list Z) (len min max : Z) (var_len : nat)
  : option (Z * Z * list Z * Z * bool) :=
  if (len_digits text len =? 0)%nat then Some (min, max, text, len, false) else
  match filter_number text len min max var_len with
  | None => None
  | Some (start, pend, len) =>
      if hd0 pend =? 45 (* - *) then
        match filter_number (tail pend) (len - 1) min max var_len with
        | None => None
        | Some (fin, pend, len) => if fin <? start then None else Some (start, fin, pend, len, true)
        end
      else if hd0 pend =? 47 (* / *) then None
      else Some (start, start, pend, len, true)
  end.

(** The new filter is put in front of those of the later fragments. *)
Fixpoint scheduler_parse_filter_r (fuel : nat) (filter : list scheduler_filter) (text : list Z)
    (len min max : Z) (var_len : nat) : res (option (list scheduler_filter * Z)) :=
  match fuel with
  | O => NoFuel
  | S fuel =>
      match filter_range text len min max var_len with
      | None => Ret None
      | Some (start, fin, pend, len, taken) =>
          let stepped :=
            if hd0 pend =? 47 (* / *) then filter_number (tail pend) (len - 1) 1 (fin - start) var_len
            else if (taken : bool) then Some (1, pend, len) else None in
          match stepped with
          | None => Ret None
          | Some (step, pend, len) =>
              rest ←
                (if hd0 pend =? 44 (* , *) then
                   if len - 1 =? 0 then Ret None
                   else scheduler_parse_filter_r fuel filter (tail pend) (len - 1) min max var_len
                 else Ret (Some (filter, len)));
              match rest with
              | None => Ret None
              | Some (filter, len) => Ret (Some (mkFilter start fin step :: filter, len))
              end
          end
      end
  end.

Definition scheduler_parse_filter (filter : list scheduler_filter) (text : list Z) (len min max : Z)
    (var_len : nat) : res (option (list scheduler_filter * Z)) :=
  match filter with
  | _ :: _ => Ret None
  | [] => scheduler_parse_filter_r (S (length text)) filter text len min max var_len
  end.

Definition with_mdays (i : scheduler_interval) (f : list scheduler_filter) : scheduler_interval :=
  mkSched f (wdays i) (hours i) (minutes i) (seconds i) FILTER_DAY.
Definition with_wdays (i : scheduler_interval) (f : list scheduler_filter) : scheduler_interval :=
  mkSched (mdays i) f (hours i) (minutes i) (seconds i) FILTER_DAY.
Definition with_hours (i : scheduler_interval) (f : list scheduler_filter) : scheduler_interval :=
  mkSched (mdays i) (wdays i) f (minutes i) (seconds i) FILTER_HOUR.
Definition with_minutes (i : scheduler_interval) (f : list scheduler_filter) : scheduler_interval :=
  mkSched (mdays i) (wdays i) (hours i) f (seconds i) FILTER_MINUTE.
Definition with_seconds (i : scheduler_interval) (f : list scheduler_filter) : scheduler_interval :=
  mkSched (mdays i) (wdays i) (hours i) (minutes i) f FILTER_SECOND.

(** One round of the switch on the filter letter: the filter it fills, the
    prefix it skips and the bounds it passes; [None] is FAIL. *)
Definition filter_case (i : scheduler_interval) (text : list Z)
  : option (list scheduler_filter * (list scheduler_filter -> scheduler_interval) * nat * Z * Z * nat) :=
  let c := hd0 text in
  let c1 := hd0 (tail text) in
  if c =? 104 (* h *) then
    if FILTER_HOUR <? filter_level i then None else Some (hours i, with_hours i, 1%nat, 0, 23, 2%nat)
  else if c =? 115 (* s *) then
    if FILTER_SECOND <? filter_level i then None else Some (seconds i, with_seconds i, 1%nat, 0, 59, 2%nat)
  else if c =? 119 (* w *) then
    if negb (c1 =? 100 (* d *)) then None
    else if FILTER_DAY <? filter_level i then None else Some (wdays i, with_wdays i, 2%nat, 1, 7, 1%nat)
  else if c =? 109 (* m *) then
    if c1 =? 100 (* d *) then
      if (FILTER_DAY <? filter_level i) || negb (bool_decide (length (wdays i) = 0%nat)) then None
      else Some (mdays i, with_mdays i, 2%nat, 1, 31, 2%nat)
    else if FILTER_MINUTE <? filter_level i then None
    else Some (minutes i, with_minutes i, 1%nat, 0, 59, 2%nat)
  else None.

Fixpoint scheduler_interval_loop (fuel : nat) (i : scheduler_interval) (text : list Z) (len : Z)
  : res (option scheduler_interval) :=
  if len =? 0 then Ret (Some i) else
  match fuel with
  | O => NoFuel
  | S fuel =>
      match filter_case i text with
      | None => Ret None
      | Some (filter, set_filter, skip, min, max, var_len) =>
          r ← scheduler_parse_filter filter (drop skip text) (len - Z.of_nat skip) min max var_len;
          match r with
          | None => Ret None
          | Some (filter, len') =>
              scheduler_interval_loop fuel (set_filter filter) (drop (Z.to_nat (len - len')) text) len'
          end
      end
  end.

Definition scheduler_interval_empty : scheduler_interval := mkSched [] [] [] [] [] 0.

(** [Some interval] is SUCCEED for the zeroed structure of the callers. *)
Definition scheduler_interval_parse (text : list Z) (len : Z) : res (option scheduler_interval) :=
  if len =? 0 then Ret None
  else scheduler_interval_loop (S (length text)) scheduler_interval_empty text len.

(** The characters before '/' or the end. *)
Fixpoint before_slash (s : list Z) (len : Z) : nat :=
  match s with
  | c :: s' => if (0 <? len) && negb (c =? 47) then S (before_slash s' (len - 1)) else O
  | [] => O
  end.

Definition flexible_interval_parse (text : list Z) (len : Z) : option flexible_interval :=
  let n := before_slash text len in
  match zbx_is_time_suffix text (Z.of_nat n) with
  | None => None
  | Some d =>
      let ptr := drop n text in
      let len := len - Z.of_nat n in
      if (len <=? 0) || negb (hd0 ptr =? 47) then None else
      p ← time_period_parse (tail ptr) (len - 1);
      Some (mkFlex p d)
  end.

(** Why an interval string is rejected, with the part the message quotes. *)
Inductive interval_error : Type :=
| bad_update (text : list Z)
| bad_flexible (text : list Z)
| bad_scheduling (text : list Z).

(** The part of the string before the delimiter, [None] for no delimiter. *)
Definition part (s : list Z) (delim : option nat) : list Z :=
  match delim with Some k => take k s | None => s end.
Definition part_len (s : list Z) (delim : option nat) : Z := Z.of_nat (length (part s delim)).

Fixpoint preproc_loop (fuel : nat) (simple : Z) (s : list Z) (delim : option nat) (ci : custom_interval)
  : res (custom_interval + interval_error) :=
  match delim with
  | None => Ret (inl ci)
  | Some k =>
      match fuel with
      | O => NoFuel
      | S fuel =>
          let s := drop (S k) s in
          let delim := strchr s 0 59 (* ; *) in
          if isdigit (hd0 s) then
            match flexible_interval_parse s (part_len s delim) with
            | Some f =>
                if (simple =? 0) && (delay f =? 0) then Ret (inr (bad_flexible (part s delim)))
                else preproc_loop fuel simple s delim (mkCustom (f :: flexible ci) (scheduling ci))
            | None => Ret (inr (bad_flexible (part s delim)))
            end
          else
            r ← scheduler_interval_parse s (part_len s delim);
            match r with
            | Some i => preproc_loop fuel simple s delim (mkCustom (flexible ci) (i :: scheduling ci))
            | None => Ret (inr (bad_scheduling (part s delim)))
            end
      end
  end.

(** The text quoted when the final check fails: what follows the last ';'. *)
Fixpoint last_part (fuel : nat) (s : list Z) : list Z :=
  match fuel, strchr s 0 59 with
  | S fuel, Some k => last_part fuel (drop (S k) s)
  | _, _ => s
  end.

(** zbx_interval_preproc with a non-NULL [custom_intervals]; the NULL case
    returns after the first check. *)
Definition zbx_interval_preproc_simple (s : list Z) : Z + interval_error :=
  let delim := strchr s 0 59 in
  match zbx_is_time_suffix s (match delim with None => ZBX_LENGTH_UNLIMITED | Some k => Z.of_nat k end) with
  | None => inr (bad_update (part s delim))
  | Some simple => inl simple
  end.

Definition zbx_interval_preproc (s : list Z) : res ((Z * custom_interval) + interval_error) :=
  match zbx_interval_preproc_simple s with
  | inr e => Ret (inr e)
  | inl simple =>
      r ← preproc_loop (S (length s)) simple s (strchr s 0 59) (mkCustom [] []);
      match r with
      | inr e => Ret (inr e)
      | inl ci =>
          if ((length (flexible ci) =? 0)%nat && (length (scheduling ci) =? 0)%nat && (simple =? 0)) ||
             (SEC_PER_DAY <? simple)
          then Ret (inr (bad_update (last_part (length s) s)))
          else Ret (inl (simple, ci))
      end
  end.

Definition zbx_custom_interval_is_scheduling (ci : custom_interval) : bool :=
  negb (length (scheduling ci) =? 0)%nat.

Example preproc_demo :
  zbx_interval_preproc (bytes_of "1m;50s/1-5,09:00-18:00;wd1-5h9-18/3") =
  Ret (inl (60, mkCustom [mkFlex (mkPeriod 1 5 32400 64800) 50]
    [mkSched [] [mkFilter 1 5 1] [mkFilter 9 18 3] [] [] FILTER_HOUR])).
Proof. vm_compute. reflexivity. Qed.

(** Three-digit hours are accepted although the comment of time_parse lists
    only h:mm, hh:mm and 0h:mm. *)
Example time_parse_three_digits : time_parse (bytes_of "012:30") 6 = Some (45000, 6).
Proof. vm_compute. reflexivity. Qed.

(* ------------------------------------------------------------------ *)
(** ** Time periods *)

Definition valid_time (t : Z) : Prop := 0 <= t <= SEC_PER_DAY /\ t mod 60 = 0.

(** What a parsed period satisfies. *)
Definition valid_period (p : time_period) : Prop :=
  1 <= start_day p <= end_day p /\ end_day p <= 7 /\ valid_time (start_time p) /\ valid_time (end_time p) /\
  start_time p < end_time p.

Definition print_2digits (v : Z) : list Z := [48 + v / 10; 48 + v mod 10].
Definition print_time (t : Z) : list Z := print_2digits (t / 3600) ++ 58 :: print_2digits (t / 60 mod 60).
Definition print_period (p : time_period) : list Z :=
  [48 + start_day p; 45; 48 + end_day p; 44] ++ print_time (start_time p) ++ 45 :: print_time (end_time p).

(** A bounded unsigned field stores its value unchanged. *)
Lemma uint_range_bounds (s : list Z) (n : nat) (min max v : Z) :
  0 <= min -> max < 2 ^ 32 -> zbx_is_uint_n_range (Some s) n true 4 min max = Some v -> min <= v <= max.
Proof.
  intros Hmin Hmax. unfold zbx_is_uint_n_range.
  destruct (_ || _); [done|]. destruct (uint_loop s n 0) as [w|]; [|done].
  destruct (Z.ltb_spec w min), (Z.ltb_spec max w); cbn [orb]; try done. intros [= <-].
  unfold store_bytes. change (2 ^ (8 * 4)) with (2 ^ 32). rewrite Z.mod_small by lia. lia.
Qed.

Lemma time_parse_sound (text : list Z) (len t n : Z) :
  time_parse text len = Some (t, n) -> valid_time t.
Proof.
  unfold time_parse. destruct (zbx_is_uint_n_range _ _ _ _ 0 24) as [h|] eqn:Eh; [|done].
  apply uint_range_bounds in Eh; [|lia|lia]. destruct (_ || _); [done|]. destruct (negb _); [done|].
  destruct (zbx_is_uint_n_range _ _ _ _ 0 59) as [mi|] eqn:Em; [|done].
  apply uint_range_bounds in Em; [|lia|lia].
  destruct (Z.eqb_spec h 24), (Z.eqb_spec mi 0); cbn [negb andb]; try done; intros [= <- <-];
    unfold valid_time, SEC_PER_HOUR, SEC_PER_MIN, SEC_PER_DAY; zlia.
Qed.

Lemma weekday_parse_sound (text : list Z) (len d : Z) : weekday_parse text len = Some d -> 1 <= d <= 7.
Proof.
  unfold weekday_parse, weekday_char. destruct (Z.leb_spec len 0); cbn [orb]; [done|].
  destruct (Z.leb_spec 49 (hd0 text)), (Z.leb_spec (hd0 text) 55); cbn; try done. intros [= <-]. lia.
Qed.

Lemma time_period_parse_sound (text : list Z) (len : Z) (p : time_period) :
  time_period_parse text len = Some p -> valid_period p.
Proof.
  unfold time_period_parse. destruct (weekday_parse text len) as [sd|] eqn:Es; [|done].
  apply weekday_parse_sound in Es. destruct (len - 1 <=? 0); [done|].
  assert (Hdays : forall ed text' len', (if hd0 (tail text) =? 45 then
      match weekday_parse (tail (tail text)) (len - 1 - 1) with
      | Some ed => if ed <? sd then None else Some (ed, tail (tail (tail text)), len - 1 - 2)
      | None => None end
    else Some (sd, tail text, len - 1)) = Some (ed, text', len') -> sd <= ed <= 7).
  { intros ed text' len'. destruct (hd0 (tail text) =? 45); [|intros [= <- <- <-]; lia].
    destruct (weekday_parse _ _) as [ed'|] eqn:Ee; [|done]. apply weekday_parse_sound in Ee.
    destruct (Z.ltb_spec ed' sd); [done|]. intros [= <- <- <-]. lia. }
  destruct (if hd0 (tail text) =? 45 then _ else _) as [[[ed text'] len']|] eqn:Ed; [|done].
  pose proof (Hdays _ _ _ eq_refl) as Hed. destruct (_ || _); [done|].
  destruct (time_parse (tail text') (len' - 1)) as [[st n1]|] eqn:E1; [|done]. apply time_parse_sound in E1.
  destruct (_ || _); [done|].
  destruct (time_parse _ _) as [[et n2]|] eqn:E2; [|done]. apply time_parse_sound in E2.
  destruct (Z.leb_spec et st); [done|]. destruct (negb _); [done|]. intros [= <-].
  unfold valid_period. cbn. split_and!; done || lia.
Qed.

Lemma digit_char (d : Z) : 0 <= d <= 9 -> isdigit (48 + d) = true.
Proof. intros. apply isdigit_range. lia. Qed.

Lemma two_digits_parse (v : Z) (rest : list Z) (max : Z) :
  0 <= v <= max -> max <= 99 ->
  zbx_is_uint_n_range (Some (print_2digits v ++ rest)) 2 true 4 0 max = Some v.
Proof.
  intros Hv Hmax. unfold zbx_is_uint_n_range, print_2digits. cbn [app hd0 uint_loop].
  destruct (Z.eqb_spec (48 + v / 10) 0); [zlia|]. cbn [orb]. change (2 =? 0)%nat with false.
  change (8 <? 4) with false. change (4 =? 0) with false. cbn [orb andb].
  rewrite !digit_char by zlia. cbn [negb]. rewrite !u8_small by zlia.
  repeat match goal with
  | |- context [if ?a <? ?b then _ else _] =>
      destruct (Z.ltb_spec a b); [exfalso; unfold ZBX_MAX_UINT64 in *; zlia|]
  end.
  assert (E : (0 * 10 + (48 + v / 10 - 48)) * 10 + (48 + v mod 10 - 48) = v) by zlia.
  destruct rest; cbn [uint_loop]; rewrite E;
    (destruct (Z.ltb_spec v 0), (Z.ltb_spec max v); cbn [orb]; try lia; f_equal;
     unfold store_bytes; change (2 ^ (8 * 4)) with (2 ^ 32); apply Z.mod_small; lia).
Qed.

Lemma time_parse_print (t : Z) (rest : list Z) (len : Z) :
  valid_time t -> 5 <= len -> len = 5 \/ isdigit (hd0 rest) = false ->
  time_parse (print_time t ++ rest) len = Some (t, 5).
Proof.
  intros [Ht Hm] Hlen Hrest. unfold SEC_PER_DAY in Ht. unfold time_parse, print_time.
  rewrite <- app_assoc. cbn [app].
  set (h := t / 3600). set (mi := t / 60 mod 60).
  assert (Hh : 0 <= h <= 24) by (unfold h; zlia). assert (Hmi : 0 <= mi <= 59) by (unfold mi; zlia).
  assert (Hrun : digit_run 3 (print_2digits h ++ 58 :: print_2digits mi ++ rest) len = 2%nat).
  { unfold print_2digits. cbn [app digit_run hd0 tail].
    rewrite (proj2 (Z.ltb_lt 0 len)), (proj2 (Z.ltb_lt 0 (len - 1))), !digit_char by zlia. cbn [andb].
    by rewrite andb_false_r. }
  rewrite Hrun, two_digits_parse by lia. change (drop 2 (print_2digits h ++ 58 :: print_2digits mi ++ rest))
    with (58 :: print_2digits mi ++ rest). cbn [hd0 tail].
  rewrite (proj2 (Z.leb_gt (len - Z.of_nat 2) 0)) by lia. cbn [orb negb Z.eqb Pos.eqb].
  assert (Hrun2 : digit_run 3 (print_2digits mi ++ rest) (len - Z.of_nat 2 - 1) = 2%nat).
  { unfold print_2digits. cbn [app digit_run hd0 tail].
    rewrite (proj2 (Z.ltb_lt 0 (len - Z.of_nat 2 - 1))), (proj2 (Z.ltb_lt 0 (len - Z.of_nat 2 - 1 - 1))), !digit_char by zlia.
    cbn [andb]. destruct Hrest as [-> | ->]; [done | by rewrite andb_false_r]. }
  rewrite Hrun2. cbn [Nat.eqb negb]. rewrite two_digits_parse by lia.
  assert (Hbad : (h =? 24) && negb (mi =? 0) = false).
  { destruct (Z.eqb_spec h 24), (Z.eqb_spec mi 0); try done. exfalso. unfold h, mi in *. zlia. }
  rewrite Hbad. f_equal. f_equal; [|lia]. unfold SEC_PER_HOUR, SEC_PER_MIN, h, mi. zlia.
Qed.

Lemma print_time_length (t : Z) : length (print_time t) = 5%nat.
Proof. done. Qed.

(** time_period_parse accepts only periods of week days 1 to 7 in order,
    with start before end, both whole minutes of the day up to 24:00; and it
    reads back every such period from its printed form d-d,hh:mm-hh:mm. *)
Theorem time_period_roundtrip (p : time_period) (text : list Z) (len : Z) (rest : list Z) :
  (time_period_parse text len = Some p -> valid_period p) /\
  (valid_period p -> time_period_parse (print_period p ++ rest) 15 = Some p).
Proof.
  split; [apply time_period_parse_sound|].
  intros ((Hs & Hse) & He & Hst & Het & Hlt). unfold time_period_parse, print_period.
  rewrite <- !app_assoc. cbn [app]. unfold weekday_parse, weekday_char. cbn [hd0 tail].
  change (15 <=? 0) with false. change (15 - 1 <=? 0) with false. change (15 - 1 - 1 <=? 0) with false.
  change (15 - 1 - 2 <=? 0) with false. cbn [orb Z.eqb Pos.eqb].
  assert (Hwc : forall d, 1 <= d <= 7 -> (49 <=? 48 + d) && (48 + d <=? 55) = true).
  { intros d Hd. by rewrite !(proj2 (Z.leb_le _ _)) by lia. }
  rewrite !Hwc by lia. cbn [negb].
  replace (48 + start_day p - 48) with (start_day p) by lia.
  replace (48 + end_day p - 48) with (end_day p) by lia.
  destruct (Z.ltb_spec (end_day p) (start_day p)); [lia|]. cbn [hd0 tail].
  change (15 - 1 - 2 <=? 0) with false. cbn [orb negb Z.eqb Pos.eqb].
  rewrite (time_parse_print (start_time p)) by (done || lia || by right).
  change (drop (Z.to_nat 5) (print_time (start_time p) ++ 45 :: print_time (end_time p) ++ rest))
    with (45 :: print_time (end_time p) ++ rest).
  change (15 - 1 - 2 - 1 - 5 <=? 0) with false. cbn [hd0 tail orb negb Z.eqb Pos.eqb].
  rewrite (time_parse_print (end_time p)) by (done || lia || by left).
  destruct (Z.leb_spec (end_time p) (start_time p)); [lia|].
  change (15 - 1 - 2 - 1 - 5 - 1 - 5 =? 0) with true. cbn [negb]. by destruct p.
Qed.

Lemma time_period_roundtrip_witness :
  time_period_parse (bytes_of "1-5,09:00-18:00") 15 = Some (mkPeriod 1 5 32400 64800).
Proof.
  apply (time_period_roundtrip (mkPeriod 1 5 32400 64800) [] 0 []).
  unfold valid_period, valid_time, SEC_PER_DAY. cbn. split_and!; done.
Defined.

(* ------------------------------------------------------------------ *)
(** ** Scheduling filters *)

Definition filter_ok (min max : Z) (f : scheduler_filter) : Prop :=
  min <= fstart f <= fend f /\ fend f <= max /\ 1 <= fstep f /\
  (fstep f = 1 \/ fstep f <= fend f - fstart f).

(** Filters below the level of the interval are empty and the one of its
    level is not. *)
Definition level_ok (i : scheduler_interval) : Prop :=
  (filter_level i = FILTER_DAY /\ (mdays i <> [] \/ wdays i <> []) /\ hours i = [] /\ minutes i = [] /\ seconds i = []) \/
  (filter_level i = FILTER_HOUR /\ hours i <> [] /\ minutes i = [] /\ seconds i = []) \/
  (filter_level i = FILTER_MINUTE /\ minutes i <> [] /\ seconds i = []) \/
  (filter_level i = FILTER_SECOND /\ seconds i <> []).

Definition filters_ok (i : scheduler_interval) : Prop :=
  Forall (filter_ok 1 31) (mdays i) /\ Forall (filter_ok 1 7) (wdays i) /\
  Forall (filter_ok 0 23) (hours i) /\ Forall (filter_ok 0 59) (minutes i) /\
  Forall (filter_ok 0 59) (seconds i).

Definition sched_ok (i : scheduler_interval) : Prop := filters_ok i /\ level_ok i.

Lemma filter_number_sound (text pend : list Z) (len min max v len' : Z) (var_len : nat) :
  0 <= min -> max < 2 ^ 32 -> filter_number text len min max var_len = Some (v, pend, len') ->
  min <= v <= max /\ len' <= len /\ (length pend <= length text)%nat.
Proof.
  intros Hmin Hmax. unfold filter_number. destruct (_ || _); [done|].
  destruct (zbx_is_uint_n_range _ _ _ _ _ _) as [w|] eqn:Ew; [|done].
  apply uint_range_bounds in Ew; [|done|done]. intros [= <- <- <-]. rewrite length_drop. lia.
Qed.

Lemma filter_range_sound (text pend : list Z) (len min max s f len' : Z) (var_len : nat) (taken : bool) :
  0 <= min <= max -> max < 2 ^ 32 ->
  filter_range text len min max var_len = Some (s, f, pend, len', taken) ->
  min <= s <= f /\ f <= max /\ len' <= len /\ (length pend <= length text)%nat.
Proof.
  intros Hmin Hmax. unfold filter_range. destruct (len_digits text len =? 0)%nat.
  { intros [= <- <- <- <- <-]. lia. }
  destruct (filter_number text len min max var_len) as [[[v p1] l1]|] eqn:E1; [|done].
  apply filter_number_sound in E1 as (Hv & Hl & Hp); [|lia|done].
  destruct (hd0 p1 =? 45).
  - destruct (filter_number (tail p1) (l1 - 1) min max var_len) as [[[w p2] l2]|] eqn:E2; [|done].
    apply filter_number_sound in E2 as (Hw & Hl2 & Hp2); [|lia|done].
    destruct (Z.ltb_spec w v); [done|]. intros [= <- <- <- <- <-].
    assert (length (tail p1) <= length p1)%nat by (destruct p1; simpl; lia). lia.
  - destruct (hd0 p1 =? 47); [done|]. intros [= <- <- <- <- <-]. lia.
Qed.

(** The recursive parser always returns; its filters are in range. *)
Lemma parse_filter_r_sound (fuel : nat) (min max : Z) (var_len : nat) :
  0 <= min <= max -> max < 2 ^ 32 -> forall filter text len,
  (length text < fuel)%nat -> Forall (filter_ok min max) filter ->
  exists r, scheduler_parse_filter_r fuel filter text len min max var_len = Ret r /\
    match r with
    | Some (fs, len') => fs <> [] /\ Forall (filter_ok min max) fs /\ len' <= len
    | None => True
    end.
Proof.
  intros Hmin Hmax. induction fuel as [|fuel IH]; intros filter text len Hf Hok; [lia|].
  cbn [scheduler_parse_filter_r].
  destruct (filter_range text len min max var_len) as [[[[[s f] p1] l1] taken]|] eqn:E1; [|by eexists].
  apply filter_range_sound in E1 as (Hs & Hfe & Hl1 & Hp1); [|done|done].
  set (stepped := if hd0 p1 =? 47 then _ else _).
  assert (Hst : match stepped with
    | Some (st, p2, l2) => 1 <= st /\ (st = 1 \/ st <= f - s) /\ l2 <= l1 /\ (length p2 <= length p1)%nat
    | None => True end).
  { unfold stepped. destruct (hd0 p1 =? 47); [|destruct taken; [lia|done]].
    destruct (filter_number (tail p1) (l1 - 1) 1 (f - s) var_len) as [[[st p2] l2]|] eqn:E2; [|done].
    apply filter_number_sound in E2 as (? & ? & ?); [|lia|lia].
    assert (length (tail p1) <= length p1)%nat by (destruct p1; simpl; lia). lia. }
  destruct stepped as [[[st p2] l2]|]; [|by eexists]. destruct Hst as (Hst1 & Hst2 & Hl2 & Hp2).
  assert (Hnew : filter_ok min max (mkFilter s f st)) by (unfold filter_ok; cbn; lia).
  destruct (Z.eqb_spec (hd0 p2) 44) as [Hc | _].
  - destruct (l2 - 1 =? 0); [by eexists|].
    destruct (IH filter (tail p2) (l2 - 1)) as (r & -> & Hr);
      [destruct p2; [done|simpl in *; lia] | done |].
    run. destruct r as [[fs l3]|]; [|by eexists]. destruct Hr as (Hne & Hfs & Hl3).
    eexists. split; [done|]. cbn. split_and!; [done| |lia]. by constructor.
  - run. eexists. split; [done|]. cbn. split_and!; [done| |lia]. by constructor.
Qed.

Lemma parse_filter_sound (filter : list scheduler_filter) (text : list Z) (len min max : Z) (var_len : nat) :
  0 <= min <= max -> max < 2 ^ 32 ->
  exists r, scheduler_parse_filter filter text len min max var_len = Ret r /\
    match r with
    | Some (fs, len') => filter = [] /\ fs <> [] /\ Forall (filter_ok min max) fs /\ len' <= len
    | None => True
    end.
Proof.
  intros Hmin Hmax. unfold scheduler_parse_filter. destruct filter as [|f fs]; [|by exists None].
  destruct (parse_filter_r_sound (S (length text)) min max var_len Hmin Hmax [] text len) as (r & E & Hr);
    [lia|constructor|]. exists r. split; [done|]. by destruct r as [[fs l]|].
Qed.

(** What each case of the switch does to the interval. *)
Definition case_sound (i : scheduler_interval) (c : list scheduler_filter * (list scheduler_filter -> scheduler_interval) * nat * Z * Z * nat) : Prop :=
  let '(old, set, skip, min, max, var_len) := c in
  (1 <= skip)%nat /\ 0 <= min <= max /\ max < 2 ^ 32 /\
  forall fs, fs <> [] -> Forall (filter_ok min max) fs ->
    filters_ok i -> (i = scheduler_interval_empty \/ level_ok i) -> sched_ok (set fs).

Lemma filter_case_sound (i : scheduler_interval) (text : list Z) :
  match filter_case i text with
  | Some c => case_sound i c /\ text <> []
  | None => True
  end.
Proof.
  assert (Hlev : i = scheduler_interval_empty \/ level_ok i ->
    (filter_level i <= 4 -> True) /\
    (filter_level i <= 3 -> seconds i = []) /\ (filter_level i <= 2 -> minutes i = []) /\
    (filter_level i <= 1 -> hours i = [])).
  { unfold level_ok, FILTER_DAY, FILTER_HOUR, FILTER_MINUTE, FILTER_SECOND.
    intros [-> | [H | [H | [H | H]]]]; [done|..]; repeat split; intros; try tauto; try lia. }
  unfold filter_case. destruct text as [|c text]; [done|]. cbn [hd0 tail].
  repeat match goal with
  | |- context [if ?b then _ else _] => destruct b eqn:?; try done
  end;
    (split; [|done]); unfold case_sound; split_and!; try (done || lia);
    intros fs Hne Hfs (F1 & F2 & F3 & F4 & F5) Hl; destruct (Hlev Hl) as (_ & L4 & L3 & L2);
    repeat match goal with
    | E : (_ || _) = false |- _ => apply orb_false_iff in E as [E ?]
    | E : (_ <? _) = false |- _ => apply Z.ltb_ge in E
    end;
    (split; [unfold filters_ok; cbn; done|]);
    unfold level_ok, FILTER_DAY, FILTER_HOUR, FILTER_MINUTE, FILTER_SECOND in *; cbn;
    rewrite ?L4, ?L3, ?L2 by lia; tauto.
Qed.

(** The scheduling parser always returns, and what it accepts is sound. *)
Lemma scheduler_loop_sound (fuel : nat) (i : scheduler_interval) (text : list Z) (len : Z) :
  (length text < fuel)%nat -> filters_ok i -> (i = scheduler_interval_empty /\ len <> 0 \/ level_ok i) ->
  exists r, scheduler_interval_loop fuel i text len = Ret r /\
    match r with Some i' => sched_ok i' | None => True end.
Proof.
  revert i text len. induction fuel as [|fuel IH]; intros i text len Hf Hfs Hl; [lia|].
  cbn [scheduler_interval_loop]. destruct (Z.eqb_spec len 0) as [H0 | H0].
  { exists (Some i). split; [done|]. split; [done|]. by destruct Hl as [[_ ?] | ?]. }
  pose proof (filter_case_sound i text) as Hc.
  destruct (filter_case i text) as [[[[[[old set] skip] min] max] var_len]|]; [|by exists None].
  destruct Hc as ((Hskip & Hmin & Hmax & Hset) & Hne).
  destruct (parse_filter_sound old (drop skip text) (len - Z.of_nat skip) min max var_len Hmin Hmax) as (r & -> & Hr).
  run. destruct r as [[fs len']|]; [|by exists None]. destruct Hr as (-> & Hfne & Hfok & Hle).
  destruct (Hset fs Hfne Hfok Hfs) as [Hf' Hl']; [by destruct Hl as [[? _] | ?]; [left|right]|].
  apply IH; [|done|by right]. rewrite length_drop. destruct text; [done|]. simpl in *. lia.
Qed.

Lemma scheduler_parse_sound (text : list Z) (len : Z) :
  exists r, scheduler_interval_parse text len = Ret r /\
    match r with Some i => sched_ok i | None => True end.
Proof.
  unfold scheduler_interval_parse. destruct (Z.eqb_spec len 0); [by exists None|].
  apply scheduler_loop_sound; [lia| |by left]. unfold filters_ok. cbn. repeat split; constructor.
Qed.

(* ------------------------------------------------------------------ *)
(** ** Update intervals *)

Definition flex_ok (f : flexible_interval) : Prop := 0 <= delay f <= INT_MAX /\ valid_period (period f).

Definition custom_ok (simple : Z) (ci : custom_interval) : Prop :=
  Forall flex_ok (flexible ci) /\ Forall sched_ok (scheduling ci) /\
  (simple = 0 -> Forall (fun f => delay f <> 0) (flexible ci)).

Lemma suffix_digits_bound (s rest : list Z) (len v len' w : Z) :
  0 <= v <= INT_MAX -> suffix_digits s len v = Some (rest, len', w) -> 0 <= w <= INT_MAX.
Proof.
  revert len v. induction s as [|c s IH]; intros len v Hv; cbn [suffix_digits]; [by intros [= <- <- <-]|].
  destruct ((0 <? len) && isdigit c) eqn:Hd; [|by intros [= <- <- <-]].
  apply andb_true_iff in Hd as [_ Hd%isdigit_range].
  destruct (Z.ltb_spec ((INT_MAX - (c - 48)) / 10) v); [done|]. apply IH. unfold INT_MAX in *. zlia.
Qed.

Lemma time_suffix_bound (s : list Z) (len v : Z) : zbx_is_time_suffix s len = Some v -> 0 <= v <= INT_MAX.
Proof.
  unfold zbx_is_time_suffix. destruct (_ || _); [done|].
  destruct (suffix_digits s len 0) as [[[str l] w]|] eqn:E; [|done].
  apply suffix_digits_bound in E; [|unfold INT_MAX; lia].
  assert (Hfin : forall (b : bool) f, 1 <= f -> (if b then None else if INT_MAX / f <? w then None else Some (w * f)) = Some v ->
    0 <= v <= INT_MAX).
  { intros b f Hf. destruct b; [done|]. destruct (Z.ltb_spec (INT_MAX / f) w); [done|]. intros [= <-].
    pose proof (Z.mul_div_le INT_MAX f ltac:(lia)). nia. }
  destruct (negb (hd0 str =? 0) && (0 <? l)); [|apply Hfin; lia].
  destruct (time_factor (hd0 str)) as [f|] eqn:Ef; [|done]. apply time_factor_nondigit in Ef as [_ Hf].
  by apply Hfin.
Qed.

Lemma flexible_parse_sound (text : list Z) (len : Z) (f : flexible_interval) :
  flexible_interval_parse text len = Some f -> flex_ok f.
Proof.
  unfold flexible_interval_parse. destruct (zbx_is_time_suffix _ _) as [d|] eqn:Ed; [|done].
  apply time_suffix_bound in Ed. destruct (_ || _); [done|].
  destruct (time_period_parse _ _) as [p|] eqn:Ep; [|done]. apply time_period_parse_sound in Ep.
  intros [= <-]. by split.
Qed.

Lemma preproc_loop_sound (fuel : nat) (simple : Z) (s : list Z) (delim : option nat) (ci : custom_interval) :
  (match delim with Some k => (length (drop (S k) s) < fuel)%nat | None => True end) -> custom_ok simple ci ->
  exists r, preproc_loop fuel simple s delim ci = Ret r /\
    match r with inl ci' => custom_ok simple ci' | inr _ => True end.
Proof.
  revert s delim ci. induction fuel as [|fuel IH]; intros s delim ci Hf Hok; destruct delim as [k|];
    try (by eexists); [lia|]. cbn [preproc_loop].
  set (s' := drop (S k) s) in *. set (delim := strchr s' 0 59).
  assert (Hd : match delim with Some k' => (length (drop (S k') s') < fuel)%nat | None => True end).
  { unfold delim, strchr. change (drop 0 s') with s'. destruct (find_from 59 s') as [j|] eqn:Ej; [|done].
    apply find_from_spec in Ej as [Hj _]; [|done]. cbn. rewrite length_drop. lia. }
  destruct Hok as (Hf1 & Hs1 & Hz1). destruct (isdigit (hd0 s')).
  - destruct (flexible_interval_parse s' (part_len s' delim)) as [f|] eqn:Ef; [|by eexists].
    apply flexible_parse_sound in Ef.
    destruct (Z.eqb_spec simple 0), (Z.eqb_spec (delay f) 0); cbn [andb]; try (by eexists);
      (apply IH; [done|]; split_and!; cbn; [by constructor|done|]; intros ?; try done);
      constructor; [done|by apply Hz1].
  - destruct (scheduler_parse_sound s' (part_len s' delim)) as (r & -> & Hr). run.
    destruct r as [i|]; [|by eexists]. apply IH; [done|]. split_and!; cbn; [done|by constructor|done].
Qed.

(** zbx_interval_preproc terminates on every string; what it accepts is a
    simple interval of at most a day with flexible intervals of valid periods
    and scheduling filters inside the range of their unit, with steps that
    advance; a zero simple interval comes only with custom intervals, none of
    them a flexible interval of zero delay. *)
Theorem interval_preproc_sound (s : list Z) :
  exists r, zbx_interval_preproc s = Ret r /\
    match r with
    | inl (simple, ci) => 0 <= simple <= SEC_PER_DAY /\ custom_ok simple ci /\
        (simple = 0 -> flexible ci <> [] \/ scheduling ci <> [])
    | inr _ => True
    end.
Proof.
  unfold zbx_interval_preproc, zbx_interval_preproc_simple.
  destruct (zbx_is_time_suffix s _) as [simple|] eqn:Es; [|by eexists].
  apply time_suffix_bound in Es.
  destruct (preproc_loop_sound (S (length s)) simple s (strchr s 0 59) (mkCustom [] [])) as (r & -> & Hr).
  { destruct (strchr s 0 59); [|done]. rewrite length_drop. lia. }
  { repeat split; constructor. }
  run. destruct r as [ci|e]; [|by eexists].
  destruct (Z.ltb_spec SEC_PER_DAY simple); [rewrite orb_true_r; by eexists|]. rewrite orb_false_r.
  destruct (flexible ci) as [|f fl] eqn:Ef, (scheduling ci) as [|i sl] eqn:Ei;
    cbn [length Nat.eqb andb]; (destruct (Z.eqb_spec simple 0) as [-> | H0]; cbn [andb]);
    eexists; (split; [reflexivity|]); cbn; try done; (split_and!; [lia|lia|done|]); intros ?; try lia;
    rewrite ?Ef, ?Ei; auto.
Qed.
