(* ===== verification/Scheduler.v ===== *)
(** When the next check is due: flexible delays, scheduling filters and the
    nextcheck functions of src/src/libs/zbxexpr/interval.c.  The C library's
    localtime and mktime are arguments; a successful result is [true]. *)

From stdpp Require Import base list numbers strings.
From Stdlib Require Import ZArith Lia.
From S2P Require Import Prelude Num Calendar Interval.

Open Scope Z_scope.

Definition ZBX_JAN_2038 : Z := 2145916800.

Definition tm_day (t : tm) : Z := if tm_wday t =? 0 then 7 else tm_wday t.
Definition tm_time (t : tm) : Z := SEC_PER_HOUR * tm_hour t + SEC_PER_MIN * tm_min t + tm_sec t.

Definition check_time_period (p : time_period) (t : tm) : bool :=
  (start_day p <=? tm_day t) && (tm_day t <=? end_day p) &&
  (start_time p <=? tm_time t) && (tm_time t <? end_time p).

(** The loop of get_current_delay; -1 is "none applies yet". *)
Fixpoint current_delay_loop (flex : list flexible_interval) (t : tm) (current_delay : Z) : Z :=
  match flex with
  | [] => current_delay
  | f :: flex =>
      let current_delay :=
        if ((current_delay =? -1) || (delay f <? current_delay)) && check_time_period (period f) t
        then delay f else current_delay in
      current_delay_loop flex t current_delay
  end.

Definition get_current_delay (localtime : Z -> tm) (default_delay : Z) (flex : list flexible_interval) (now : Z) : Z :=
  let d := current_delay_loop flex (localtime now) (-1) in
  if d =? -1 then default_delay else d.

(** The candidate of one period: seconds from the start of the current day to
    the next moment its activity changes. *)
Definition period_candidate (p : time_period) (day time : Z) : Z :=
  if (start_day p <=? day) && (day <=? end_day p) && (time <? end_time p) then
    if time <? start_time p then start_time p else end_time p
  else if day <? end_day p then
    if day <? start_day p then SEC_PER_DAY * (start_day p - day) + start_time p
    else SEC_PER_DAY + start_time p
  else SEC_PER_DAY * (start_day p + 7 - day) + start_time p.

Fixpoint next_delay_loop (flex : list flexible_interval) (day time next : Z) : Z :=
  match flex with
  | [] => next
  | f :: flex =>
      let candidate := period_candidate (period f) day time in
      next_delay_loop flex day time (if (next =? 0) || (candidate <? next) then candidate else next)
  end.

(** [Some next_interval] is SUCCEED. *)
Definition get_next_delay_interval (localtime : Z -> tm) (flex : list flexible_interval) (now : Z) : option Z :=
  match flex with
  | [] => None
  | _ =>
      let t := localtime now in
      let next := next_delay_loop flex (tm_day t) (tm_time t) 0 in
      if next =? 0 then None else Some (now - tm_time t + next)
  end.

(** The carry of scheduler_tm_inc into the date. *)
Definition next_day (t : tm) : tm :=
  let t := set_mday t (tm_mday t + 1) in
  if tm_mday t <=? zbx_day_in_month (tm_year t + 1900) (tm_mon t + 1) then t else
  let t := set_mday t 1 in
  if tm_mon t + 1 <? 12 then set_mon t (tm_mon t + 1) else
  set_year (set_mon t 0) (tm_year t + 1).

Definition scheduler_tm_inc (t : tm) : tm :=
  if tm_sec t + 1 <? 60 then set_sec t (tm_sec t + 1) else
  let t := set_sec t 0 in
  if tm_min t + 1 <? 60 then set_min t (tm_min t + 1) else
  let t := set_min t 0 in
  if tm_hour t + 1 <? 24 then set_hour t (tm_hour t + 1) else
  next_day (set_hour t 0).

Definition mon_table : list Z := [0; 3; 2; 5; 0; 3; 5; 1; 4; 6; 2; 4].

Definition calculate_dayofweek (year mon mday : Z) : Z :=
  let year := if mon <? 3 then year - 1 else year in
  Z.rem (year + Z.quot year 4 - Z.quot year 100 + Z.quot year 400 +
    nth (Z.to_nat (mon - 1)) mon_table 0 + mday - 1) 7 + 1.

Definition tm_dayofweek (t : tm) : Z := calculate_dayofweek (tm_year t + 1900) (tm_mon t + 1) (tm_mday t).

(** [value] moved up to the next step of the filter. *)
Definition next_step (f : scheduler_filter) (value : Z) : Z :=
  let offset := Z.rem (value - fstart f) (fstep f) in
  if negb (offset =? 0) then value + (fstep f - offset) else value.

Fixpoint wday_filter_loop (chain : list scheduler_filter) (value : Z) : bool :=
  match chain with
  | [] => false
  | f :: chain =>
      if (fstart f <=? value) && (value <=? fend f) && (next_step f value <=? fend f) then true
      else wday_filter_loop chain value
  end.

Definition scheduler_validate_wday_filter (i : scheduler_interval) (t : tm) : bool :=
  match wdays i with
  | [] => true
  | chain => wday_filter_loop chain (tm_dayofweek t)
  end.

(** [filter_next] is the start of the nearest later filter seen so far. *)
Fixpoint nearest_loop (chain : list scheduler_filter) (value : Z) (filter_next : option Z) : option Z :=
  match chain with
  | [] => filter_next
  | f :: chain =>
      if (fstart f <=? value) && (value <=? fend f) && (next_step f value <=? fend f)
      then Some (next_step f value)
      else
        let filter_next :=
          if (value <? fstart f) &&
             match filter_next with None => true | Some s => fstart f <? s end
          then Some (fstart f) else filter_next in
        nearest_loop chain value filter_next
  end.

(** [Some value] is SUCCEED. *)
Definition scheduler_get_nearest_filter_value (chain : list scheduler_filter) (value : Z) : option Z :=
  nearest_loop chain value None.

Definition tm_month_days (t : tm) : Z := zbx_day_in_month (tm_year t + 1900) (tm_mon t + 1).

Definition scheduler_get_wday_nextcheck (i : scheduler_interval) (t : tm) : bool * tm :=
  match wdays i with
  | [] => (true, t)
  | chain =>
      let value_now := tm_dayofweek t in
      match scheduler_get_nearest_filter_value chain value_now with
      | Some value_next =>
          let t := set_mday t (tm_mday t + (value_next - value_now)) in
          (tm_mday t <=? tm_month_days t, t)
      | None =>
          let t := set_mday t (tm_mday t + (7 - value_now + 1)) in
          match scheduler_get_nearest_filter_value chain 1 with
          | None => (false, t)
          | Some value_next =>
              let t := set_mday t (tm_mday t + (value_next - 1)) in
              (tm_mday t <=? tm_month_days t, t)
          end
      end
  end.

(** The month day loop; every round moves past a day of the month. *)
Fixpoint mday_loop (fuel : nat) (i : scheduler_interval) (t : tm) : res (bool * tm) :=
  match fuel with
  | O => NoFuel
  | S fuel =>
      match scheduler_get_nearest_filter_value (mdays i) (tm_mday t) with
      | None => Ret (false, t)
      | Some d =>
          let t := set_mday t d in
          if tm_month_days t <? tm_mday t then Ret (false, t) else
          if scheduler_validate_wday_filter i t then Ret (true, t) else
          let t := set_mday t (tm_mday t + 1) in
          if tm_month_days t <? tm_mday t then Ret (false, t) else
          mday_loop fuel i t
      end
  end.

Definition scheduler_get_day_nextcheck (i : scheduler_interval) (t : tm) : res (bool * tm) :=
  r ← zbx_utc_time (tm_year t + 1900) (tm_mon t + 1) (tm_mday t) (tm_hour t) (tm_min t) (tm_sec t);
  match r with
  | None => Ret (false, t)
  | Some _ =>
      match mdays i with
      | [] => Ret (scheduler_get_wday_nextcheck i t)
      | _ => mday_loop 32 i t
      end
  end.

(** The common part of the hour, minute and second levels. *)
Definition clock_nextcheck (i : scheduler_interval) (level max : Z) (chain : list scheduler_filter) (value : Z)
  : option Z :=
  if max <? value then None else
  match chain with
  | [] => if level <? filter_level i then Some value else if value =? 0 then Some value else None
  | _ => scheduler_get_nearest_filter_value chain value
  end.

Definition scheduler_get_filter_nextcheck (i : scheduler_interval) (level : Z) (t : tm) : res (bool * tm) :=
  let with_value r set := match r with Some v => (true, set v) | None => (false, t) end in
  if level =? FILTER_DAY then scheduler_get_day_nextcheck i t
  else if level =? FILTER_HOUR then
    Ret (with_value (clock_nextcheck i level 23 (hours i) (tm_hour t)) (set_hour t))
  else if level =? FILTER_MINUTE then
    Ret (with_value (clock_nextcheck i level 59 (minutes i) (tm_min t)) (set_min t))
  else if level =? FILTER_SECOND then
    Ret (with_value (clock_nextcheck i level 59 (seconds i) (tm_sec t)) (set_sec t))
  else Ret (false, t).

Definition next_month (t : tm) : tm :=
  let t := if 11 <? tm_mon t + 1 then set_year (set_mon t 0) (tm_year t + 1) else set_mon t (tm_mon t + 1) in
  set_mday t 1.

Fixpoint day_filter_loop (fuel : nat) (i : scheduler_interval) (t : tm) : res tm :=
  r ← scheduler_get_filter_nextcheck i FILTER_DAY t;
  if r.1 : bool then Ret r.2 else
  match fuel with
  | O => NoFuel
  | S fuel => day_filter_loop fuel i (next_month r.2)
  end.

(** The months from 1970 until zbx_utc_time overflows. *)
Definition month_fuel : nat := 900.

Definition scheduler_apply_day_filter (i : scheduler_interval) (t : tm) : res tm :=
  t' ← day_filter_loop month_fuel i t;
  if negb (tm_mday t' =? tm_mday t) || negb (tm_mon t' =? tm_mon t) || negb (tm_year t' =? tm_year t)
  then Ret (set_clock t' 0 0 0) else Ret t'.

(** The loops of the clock filters: after one carry into the next unit the
    value is zero, from which a filter always has a value. *)
Fixpoint hour_filter_loop (fuel : nat) (i : scheduler_interval) (t : tm) : res tm :=
  r ← scheduler_get_filter_nextcheck i FILTER_HOUR t;
  if r.1 : bool then Ret r.2 else
  match fuel with
  | O => NoFuel
  | S fuel =>
      t ← scheduler_apply_day_filter i (set_hour (set_mday t (tm_mday t + 1)) 0);
      hour_filter_loop fuel i t
  end.

Definition scheduler_apply_hour_filter (i : scheduler_interval) (t : tm) : res tm :=
  t' ← hour_filter_loop 1 i t;
  if negb (tm_hour t' =? tm_hour t) then Ret (set_sec (set_min t' 0) 0) else Ret t'.

Fixpoint minute_filter_loop (fuel : nat) (i : scheduler_interval) (t : tm) : res tm :=
  r ← scheduler_get_filter_nextcheck i FILTER_MINUTE t;
  if r.1 : bool then Ret r.2 else
  match fuel with
  | O => NoFuel
  | S fuel =>
      t ← scheduler_apply_hour_filter i (set_min (set_hour t (tm_hour t + 1)) 0);
      minute_filter_loop fuel i t
  end.

Definition scheduler_apply_minute_filter (i : scheduler_interval) (t : tm) : res tm :=
  t' ← minute_filter_loop 1 i t;
  if negb (tm_min t' =? tm_min t) then Ret (set_sec t' 0) else Ret t'.

Fixpoint second_filter_loop (fuel : nat) (i : scheduler_interval) (t : tm) : res tm :=
  r ← scheduler_get_filter_nextcheck i FILTER_SECOND t;
  if r.1 : bool then Ret r.2 else
  match fuel with
  | O => NoFuel
  | S fuel =>
      t ← scheduler_apply_minute_filter i (set_sec (set_min t (tm_min t + 1)) 0);
      second_filter_loop fuel i t
  end.

Definition scheduler_apply_second_filter (i : scheduler_interval) (t : tm) : res tm :=
  second_filter_loop 1 i t.

(** The four filters one after the other. *)
Definition apply_filters (i : scheduler_interval) (t : tm) : res tm :=
  t ← scheduler_apply_day_filter i t;
  t ← scheduler_apply_hour_filter i t;
  t ← scheduler_apply_minute_filter i t;
  scheduler_apply_second_filter i t.

Section Zone.
Context (mktime : tm -> option (Z * tm)) (localtime : Z -> tm).

(** The bisection over whole minutes; 32 rounds halve any int to one. *)
Fixpoint dst_bisect (fuel : nat) (dst_start start fin : Z) : res Z :=
  if start + 1 <? fin then
    match fuel with
    | O => NoFuel
    | S fuel =>
        let mid := Z.quot (start + fin) 2 in
        if tm_isdst (localtime (mid * 60)) =? dst_start
        then dst_bisect fuel dst_start mid fin else dst_bisect fuel dst_start start mid
    end
  else Ret fin.

(** [time_dst] is the static cache; the result is its new value. *)
Definition scheduler_find_dst_change (time_dst time_start time_end : Z) : res Z :=
  if (time_dst <? time_start) || (time_end <? time_dst) then
    fin ← dst_bisect 32 (tm_isdst (localtime time_start)) (Z.quot time_start 60) (Z.quot time_end 60);
    Ret (fin * 60)
  else Ret time_dst.

(** do ... while (-1 == mktime): the first local time from [t] on that exists;
    a gap in local time lasts less than a day of seconds. *)
Fixpoint next_existing (fuel : nat) (i : scheduler_interval) (isdst : Z) (t : tm) : res (Z * tm) :=
  match fuel with
  | O => NoFuel
  | S fuel =>
      t ← apply_filters i (scheduler_tm_inc t);
      let t := set_isdst t isdst in
      match mktime t with
      | Some (time, t) => Ret (time, t)
      | None => next_existing fuel i isdst t
      end
  end.

Definition interval_nextcheck (time_dst : Z) (i : scheduler_interval) (now : Z) (tm_start : tm)
  : res (Z * Z) :=
  '(current, _) ← next_existing 1000 i (tm_isdst tm_start) tm_start;
  let tm_dst := localtime current in
  if negb (tm_isdst tm_dst =? tm_isdst tm_start) then
    let dst := tm_isdst tm_dst in
    time_dst ← scheduler_find_dst_change time_dst now current;
    t ← apply_filters i (localtime time_dst);
    match mktime (set_isdst t dst) with
    | Some (time, _) => Ret (time, time_dst)
    | None => Ret (-1, time_dst)
    end
  else Ret (current, time_dst).

Fixpoint nextcheck_loop (time_dst : Z) (l : list scheduler_interval) (now : Z) (tm_start : tm) (nextcheck : Z)
  : res (Z * Z) :=
  match l with
  | [] => Ret (nextcheck, time_dst)
  | i :: l =>
      '(current, time_dst) ← interval_nextcheck time_dst i now tm_start;
      nextcheck_loop time_dst l now tm_start
        (if (nextcheck =? 0) || (current <? nextcheck) then current else nextcheck)
  end.

(** The result is 0 when there is no scheduling interval. *)
Definition scheduler_get_nextcheck (time_dst : Z) (l : list scheduler_interval) (now : Z) : res (Z * Z) :=
  nextcheck_loop time_dst l now (localtime now) 0.
End Zone.

(* ------------------------------------------------------------------ *)
(** ** Item checks *)

Definition ITEM_TYPE_ZABBIX : Z := 0.
Definition ITEM_TYPE_ZABBIX_ACTIVE : Z := 7.

(** while (nextcheck <= t) nextcheck += delay, [strict]; with < otherwise.
    The first value is at most one delay before [t]. *)
Fixpoint catch_up (fuel : nat) (strict : bool) (nextcheck t delay : Z) : res Z :=
  if (if strict then nextcheck <=? t else nextcheck <? t) then
    match fuel with
    | O => NoFuel
    | S fuel => n ← c_int (nextcheck + delay); catch_up fuel strict n t delay
    end
  else Ret nextcheck.

(** The check time of one delay around [t]. *)
Definition delay_nextcheck (seed delay t : Z) (attempt : Z) : res Z :=
  if negb (delay =? 0) then
    n ← c_int (delay * Z.quot t delay + Z.rem seed delay);
    catch_up 2 (attempt =? 0) n t delay
  else Ret ZBX_JAN_2038.

Section Item.
Context (mktime : tm -> option (Z * tm)) (localtime : Z -> tm).

(** One round of the loop over the delay intervals of a year. *)
Definition item_round (seed simple : Z) (ci : option custom_interval) (tmax : Z) (s : Z * Z * Z)
  : res (Z * Z * Z + Z) :=
  let '(t, attempt, nextcheck) := s in
  if negb (t <? tmax) then Ret (inr nextcheck) else
  let delay :=
    match ci with
    | Some ci => get_current_delay localtime simple (flexible ci) t
    | None => simple
    end in
  nextcheck ← delay_nextcheck seed delay t attempt;
  match ci with
  | None => Ret (inr nextcheck)
  | Some ci =>
      match get_next_delay_interval localtime (flexible ci) t with
      | Some next_interval =>
          if next_interval <=? nextcheck then Ret (inl (next_interval, attempt + 1, nextcheck))
          else Ret (inr nextcheck)
      | None => Ret (inr nextcheck)
      end
  end.

(** A year has less than 2^25 seconds and every round moves to a later one. *)
Definition zbx_calculate_item_nextcheck (time_dst seed item_type simple : Z) (ci : option custom_interval)
    (now : Z) : res (Z * Z) :=
  if item_type =? ITEM_TYPE_ZABBIX_ACTIVE then
    if negb (simple =? 0) then n ← c_int (now + simple); Ret (n, time_dst)
    else Ret (ZBX_JAN_2038, time_dst)
  else
    '(scheduled, time_dst) ←
      match ci with
      | Some ci => scheduler_get_nextcheck mktime localtime time_dst (scheduling ci) now
      | None => Ret (0, time_dst)
      end;
    nextcheck ← while 25 (item_round seed simple ci (now + SEC_PER_YEAR)) (now, 0, 0);
    Ret (if negb (scheduled =? 0) && (scheduled <? nextcheck) then scheduled else nextcheck, time_dst).

Definition unreachable_round (simple : Z) (flex : list flexible_interval) (tmax : Z) (nextcheck : Z)
  : res (Z + Z) :=
  if negb (nextcheck <? tmax) then Ret (inr nextcheck) else
  if negb (get_current_delay localtime simple flex nextcheck =? 0) then Ret (inr nextcheck) else
  match get_next_delay_interval localtime flex nextcheck with
  | None => Ret (inr ZBX_JAN_2038)
  | Some next_interval => Ret (inl next_interval)
  end.

Definition zbx_calculate_item_nextcheck_unreachable (time_dst simple : Z) (ci : option custom_interval)
    (disable_until : Z) : res (Z * Z) :=
  match ci with
  | None => Ret (disable_until, time_dst)
  | Some ci =>
      '(scheduled, time_dst) ← scheduler_get_nextcheck mktime localtime time_dst (scheduling ci) disable_until;
      nextcheck ← while 25 (unreachable_round simple (flexible ci) (disable_until + SEC_PER_YEAR)) disable_until;
      Ret (if negb (scheduled =? 0) && (scheduled <? nextcheck) then scheduled else nextcheck, time_dst)
  end.

(** [None] is FAIL (invalid periods); [Some b] tells whether [time] is inside. *)
Fixpoint check_periods (fuel : nat) (s : list Z) (t : tm) (res_total : bool) : res (option bool) :=
  match fuel with
  | O => NoFuel
  | S fuel =>
      let delim := strchr s 0 59 (* ; *) in
      match time_period_parse s (part_len s delim) with
      | None => Ret None
      | Some tp =>
          let res_total := if check_time_period tp t then true else res_total in
          match delim with
          | None => Ret (Some res_total)
          | Some k => check_periods fuel (drop (S k) s) t res_total
          end
      end
  end.

Definition zbx_check_time_period (s : list Z) (time : Z) : res (option bool) :=
  check_periods (S (length s)) s (localtime time) false.

(** The interval error or (nextcheck, scheduling). *)
Definition zbx_get_agent_item_nextcheck (time_dst itemid : Z) (delay : list Z) (now : Z)
  : res ((Z * bool) + interval_error) :=
  r ← zbx_interval_preproc delay;
  match r with
  | inr e => Ret (inr e)
  | inl (simple, ci) =>
      '(nextcheck, _) ← zbx_calculate_item_nextcheck time_dst itemid ITEM_TYPE_ZABBIX simple (Some ci) now;
      Ret (inl (nextcheck, zbx_custom_interval_is_scheduling ci))
  end.
End Item.

(** Nearest is not least: a stepped range that contains the value hides the
    start of an earlier filter. *)
Example nearest_not_least :
  scheduler_get_nearest_filter_value [mkFilter 0 30 20; mkFilter 5 5 1] 1 = Some 20.
Proof. reflexivity. Qed.

(* ------------------------------------------------------------------ *)
(** ** Seconds and week days *)

(** A broken-down time of the calendar (no leap second). *)
Definition tm_ok (t : tm) : Prop :=
  valid_date (tm_year t + 1900) (tm_mon t + 1) (tm_mday t) /\
  0 <= tm_hour t <= 23 /\ 0 <= tm_min t <= 59 /\ 0 <= tm_sec t <= 59.

Definition tm_seconds (t : tm) : Z :=
  seconds_of (tm_year t + 1900) (tm_mon t + 1) (tm_mday t) (tm_hour t) (tm_min t) (tm_sec t).

Lemma next_day_ok (t : tm) :
  valid_date (tm_year t + 1900) (tm_mon t + 1) (tm_mday t) ->
  let t' := next_day t in
  valid_date (tm_year t' + 1900) (tm_mon t' + 1) (tm_mday t') /\ tm_days t' = tm_days t + 1 /\
  tm_hour t' = tm_hour t /\ tm_min t' = tm_min t /\ tm_sec t' = tm_sec t.
Proof.
  intros (Hy & Hm & Hd). unfold next_day. cbn zeta. unfold tm_days.
  cbn [tm_mday tm_year tm_mon set_mday set_mon set_year set_date].
  pose proof (day_in_month_range (tm_year t + 1900) (tm_mon t + 1 + 1)).
  destruct (Z.leb_spec (tm_mday t + 1) (zbx_day_in_month (tm_year t + 1900) (tm_mon t + 1))) as [Hle | Hgt].
  - cbn [tm_mday tm_year tm_mon set_mday set_mon set_year set_date].
    split; [unfold valid_date; lia|]. split; [unfold day_number; lia|done].
  - assert (Elast : tm_mday t = zbx_day_in_month (tm_year t + 1900) (tm_mon t + 1)) by lia.
    destruct (Z.ltb_spec (tm_mon t + 1) 12) as [Hmon | Hmon];
      cbn [tm_mday tm_year tm_mon set_mday set_mon set_year set_date].
    + split; [unfold valid_date; lia|]. split; [|done].
      rewrite day_number_next_month by lia. rewrite Elast. unfold day_number. lia.
    + assert (tm_mon t = 11) as Em by lia. rewrite Em in *. change (11 + 1) with 12 in *. change (0 + 1) with 1.
      replace (tm_year t + 1 + 1900) with (tm_year t + 1900 + 1) by lia.
      split; [unfold valid_date; pose proof (day_in_month_range (tm_year t + 1900 + 1) 1); lia|]. split; [|done].
      rewrite day_number_next_year by lia. rewrite Elast. unfold day_number. lia.
Qed.

Ltac fields := cbn [tm_year tm_mon tm_mday tm_hour tm_min tm_sec set_sec set_min set_hour set_clock set_mday set_mon set_year set_date].

Lemma tm_inc_ok (t : tm) : tm_ok t -> tm_ok (scheduler_tm_inc t) /\ tm_seconds (scheduler_tm_inc t) = tm_seconds t + 1.
Proof.
  intros (Hd & Hh & Hmi & Hs). unfold scheduler_tm_inc, tm_seconds, seconds_of, tm_ok, SEC_PER_DAY, SEC_PER_HOUR, SEC_PER_MIN.
  destruct (Z.ltb_spec (tm_sec t + 1) 60); [fields; split; [split; [exact Hd|lia]|lia]|]. fields.
  destruct (Z.ltb_spec (tm_min t + 1) 60); [fields; split; [split; [exact Hd|lia]|lia]|]. fields.
  destruct (Z.ltb_spec (tm_hour t + 1) 24); [fields; split; [split; [exact Hd|lia]|lia]|].
  set (t0 := set_hour _ 0).
  assert (E0 : tm_year t0 = tm_year t /\ tm_mon t0 = tm_mon t /\ tm_mday t0 = tm_mday t /\ tm_hour t0 = 0 /\
    tm_min t0 = 0 /\ tm_sec t0 = 0) by done. clearbody t0. destruct E0 as (Ey & Em & Ed & Eh & Emi & Es).
  assert (Hd0 : valid_date (tm_year t0 + 1900) (tm_mon t0 + 1) (tm_mday t0)) by (by rewrite Ey, Em, Ed).
  pose proof (next_day_ok t0 Hd0) as Hn. cbn zeta in Hn. set (t' := next_day t0) in *. clearbody t'.
  destruct Hn as (Hv' & Hdays & Hh' & Hmi' & Hs'). unfold tm_days in Hdays. rewrite Ey, Em, Ed in Hdays.
  split; [split; [exact Hv'|lia]|]. rewrite Hdays, Hh', Hmi', Hs'. lia.
Qed.

(** scheduler_tm_inc moves a valid local time to the next one: carries
    through minute, hour, day, month and year included, the clock of the
    calendar advances by exactly one second. *)
Theorem tm_inc_next_second (t : tm) :
  tm_ok t -> tm_ok (scheduler_tm_inc t) /\ tm_seconds (scheduler_tm_inc t) = tm_seconds t + 1.
Proof. apply tm_inc_ok. Qed.

Lemma tm_inc_next_second_witness :
  tm_seconds (scheduler_tm_inc (mkTm 124 1 29 23 59 59 4 59 0)) = tm_seconds (mkTm 124 1 29 23 59 59 4 59 0) + 1 /\
  tm_mon (scheduler_tm_inc (mkTm 124 1 29 23 59 59 4 59 0)) = 2.
Proof.
  split; [|vm_compute; reflexivity]. apply tm_inc_next_second.
  unfold tm_ok, valid_date. split_and!; vm_compute; discriminate.
Defined.

Lemma dayofweek_days (y m d : Z) :
  1970 <= y -> 1 <= m <= 12 -> 1 <= d -> calculate_dayofweek y m d = (day_number y m d + 3) mod 7 + 1.
Proof.
  intros Hy Hm Hd. unfold calculate_dayofweek, day_number.
  rewrite days_of_years_closed, days_of_months_closed by lia.
  assert (Hleap : ZBX_LEAP_YEARS y + (if 2 <? m then leap y else 0) =
    let Y := if m <? 3 then y - 1 else y in Y / 4 - Y / 100 + Y / 400).
  { cbn zeta. destruct (Z.ltb_spec 2 m), (Z.ltb_spec m 3); try lia.
    - rewrite <- leap_step by lia. unfold ZBX_LEAP_YEARS. rewrite Z.add_simpl_r.
      by rewrite !Z.quot_div_nonneg by lia.
    - unfold ZBX_LEAP_YEARS. rewrite !Z.quot_div_nonneg by lia. lia. }
  cbn zeta in Hleap. set (Y := if m <? 3 then y - 1 else y) in *.
  assert (HY : 1 <= Y) by (unfold Y; destruct (m <? 3); lia).
  rewrite !Z.quot_div_nonneg by lia.
  assert (Hsum : 0 <= Y / 4 - Y / 100 + Y / 400) by zlia.
  assert (Htab : 0 <= nth (Z.to_nat (m - 1)) mon_table 0) by (each_month m; vm_compute; discriminate).
  rewrite Z.rem_mod_nonneg by lia. f_equal.
  set (L := Y / 4 - Y / 100 + Y / 400) in *.
  replace (Y + Y / 4 - Y / 100 + Y / 400) with (Y + (Y / 4 - Y / 100 + Y / 400)) by lia.
  replace ((y - 1970) * 365 + (ZBX_LEAP_YEARS y - ZBX_LEAP_YEARS 1970) +
     (nth (Z.to_nat (m - 1)) month_day 0 + (if 2 <? m then leap y else 0)) + (d - 1) + 3)
    with ((y - 1970) * 365 + L - 477 + nth (Z.to_nat (m - 1)) month_day 0 + d + 2)
    by (change (ZBX_LEAP_YEARS 1970) with 477; lia).
  assert (Hk : exists k, (y - 1970) * 365 - 477 + nth (Z.to_nat (m - 1)) month_day 0 + 2 =
    Y + nth (Z.to_nat (m - 1)) mon_table 0 - 1 + k * 7).
  { exists (((y - 1970) * 365 - 477 + nth (Z.to_nat (m - 1)) month_day 0 + 2 -
             (Y + nth (Z.to_nat (m - 1)) mon_table 0 - 1)) / 7).
    unfold Y. each_month m;
      repeat match goal with
      | |- context [nth (Z.to_nat ?i) ?l 0] =>
          let v := eval vm_compute in (nth (Z.to_nat i) l 0) in change (nth (Z.to_nat i) l 0) with v
      | |- context [?a <? 3] => let v := eval vm_compute in (a <? 3) in change (a <? 3) with v
      end; cbn iota; zlia. }
  destruct Hk as [k Hk].
  replace ((y - 1970) * 365 + L - 477 + nth (Z.to_nat (m - 1)) month_day 0 + d + 2)
    with (Y + L + nth (Z.to_nat (m - 1)) mon_table 0 + d - 1 + k * 7) by lia.
  rewrite Z.mod_add by lia. by f_equal.
Qed.

(** calculate_dayofweek gives the day of the week (1 for Monday) of every
    date from 1970 on: the day count of the calendar modulo seven. *)
Theorem dayofweek_correct (y m d : Z) :
  valid_date y m d -> calculate_dayofweek y m d = (day_number y m d + 3) mod 7 + 1.
Proof. intros (Hy & Hm & Hd). apply dayofweek_days; lia. Qed.

Lemma dayofweek_correct_witness :
  calculate_dayofweek 2024 2 29 = (day_number 2024 2 29 + 3) mod 7 + 1 /\ calculate_dayofweek 2024 2 29 = 4.
Proof.
  split; [|vm_compute; reflexivity]. apply dayofweek_correct.
  unfold valid_date. split_and!; vm_compute; discriminate.
Defined.

(* ------------------------------------------------------------------ *)
(** ** Flexible intervals *)

(** Activity of a period at a moment of the week. *)
Definition active (p : time_period) (day time : Z) : bool :=
  (start_day p <=? day) && (day <=? end_day p) && (start_time p <=? time) && (time <? end_time p).

(** [s] seconds after [time] on week day [day]. *)
Definition later_day (day time s : Z) : Z := (day - 1 + (time + s) / SEC_PER_DAY) mod 7 + 1.
Definition later_time (time s : Z) : Z := (time + s) mod SEC_PER_DAY.

Lemma candidate_later (p : time_period) (day time : Z) :
  valid_period p -> 1 <= day <= 7 -> 0 <= time < SEC_PER_DAY -> time < period_candidate p day time <= 8 * SEC_PER_DAY.
Proof.
  intros (Hd & He & ([Hs1 Hs2] & _) & ([He1 He2] & _) & Hlt) Hday Htime. unfold period_candidate, SEC_PER_DAY in *.
  destruct (Z.leb_spec (start_day p) day), (Z.leb_spec day (end_day p)), (Z.ltb_spec time (end_time p)); cbn [andb];
    repeat match goal with |- context [?a <? ?b] => destruct (Z.ltb_spec a b) end; lia.
Qed.

(** Nothing changes for a period before its candidate time. *)
Lemma candidate_stable (p : time_period) (day time s : Z) :
  valid_period p -> 1 <= day <= 7 -> 0 <= time < SEC_PER_DAY -> 0 <= s -> time + s < period_candidate p day time ->
  active p (later_day day time s) (later_time time s) = active p day time.
Proof.
  intros Hp Hday Htime Hs Hlt. pose proof (candidate_later p day time Hp Hday Htime) as [_ Hmax].
  destruct Hp as (Hd & He & ([Hs1 Hs2] & _) & ([He1 He2] & _) & Hse).
  unfold later_day, later_time, period_candidate, SEC_PER_DAY in *.
  set (q := (time + s) / 86400) in *. set (r := (time + s) mod 86400) in *.
  assert (Hqr : time + s = 86400 * q + r /\ 0 <= r < 86400) by (unfold q, r; split; [apply Z.div_mod; lia | apply Z.mod_pos_bound; lia]).
  assert (Hq : 0 <= q) by (unfold q; apply Z.div_pos; lia). clearbody q r. destruct Hqr as [Hqr Hr].
  assert (Hday' : exists k, 0 <= k <= 1 /\ (day - 1 + q) mod 7 + 1 = day + q - 7 * k /\ 1 <= day + q - 7 * k <= 7).
  { assert (q <= 8) by lia. pose proof (Z.mod_pos_bound (day - 1 + q) 7 ltac:(lia)).
    pose proof (Z.div_mod (day - 1 + q) 7 ltac:(lia)).
    exists ((day - 1 + q) / 7). split_and!; try lia.
    all: zlia. }
  destruct Hday' as (k & Hk & -> & Hrange). unfold active.
  destruct (Z.leb_spec (start_day p) day), (Z.leb_spec day (end_day p)), (Z.ltb_spec time (end_time p)); cbn [andb] in Hlt |- *;
    repeat match goal with H : context [if ?a <? ?b then _ else _] |- _ => destruct (Z.ltb_spec a b) end;
    repeat match goal with |- context [?a <=? ?b] => destruct (Z.leb_spec a b) | |- context [?a <? ?b] => destruct (Z.ltb_spec a b) end;
    cbn [andb]; try reflexivity; exfalso; lia.
Qed.

(** The loop keeps the least candidate; 0 stands for none yet. *)
Lemma next_delay_loop_least (flex : list flexible_interval) (day time next : Z) :
  Forall (fun f => valid_period (period f)) flex -> 1 <= day <= 7 -> 0 <= time < SEC_PER_DAY ->
  (next = 0 \/ time < next) -> (next <> 0 \/ flex <> []) ->
  let r := next_delay_loop flex day time next in
  time < r /\ (next <> 0 -> r <= next) /\
  Forall (fun f => r <= period_candidate (period f) day time) flex /\
  (r = next \/ exists f, f ∈ flex /\ r = period_candidate (period f) day time).
Proof.
  intros Hp Hday Htime. cbn zeta. revert next. induction flex as [|f flex IH]; intros next Hn Hne.
  - cbn. destruct Hne as [Hne|]; [|done]. destruct Hn; [done|]. split_and!; done || lia || (by left) || by constructor.
  - inversion_clear Hp as [|? ? Hf Hfl]. cbn [next_delay_loop].
    pose proof (candidate_later (period f) day time Hf Hday Htime) as [Hc _].
    set (c := period_candidate (period f) day time) in *.
    set (n1 := if (next =? 0) || (c <? next) then c else next).
    assert (Hn1 : time < n1 /\ n1 <= c /\ (next <> 0 -> n1 <= next) /\ (n1 = c \/ n1 = next)).
    { unfold n1. destruct (Z.eqb_spec next 0), (Z.ltb_spec c next); cbn [orb]; lia. }
    destruct (IH Hfl n1) as (H1 & H2 & H3 & H4); [lia|lia|]. split_and!; [done|lia| |].
    + constructor; [fold c; lia|done].
    + destruct H4 as [-> | (g & Hg & ->)]; [|right; exists g; split; [by right|done]].
      destruct Hn1 as (_ & _ & _ & [-> | ->]); [right; exists f; split; [by left|done] | by left].
Qed.

Definition tm_week_ok (t : tm) : Prop :=
  0 <= tm_wday t <= 6 /\ 0 <= tm_hour t <= 23 /\ 0 <= tm_min t <= 59 /\ 0 <= tm_sec t <= 59.

Lemma tm_week_range (t : tm) : tm_week_ok t -> 1 <= tm_day t <= 7 /\ 0 <= tm_time t < SEC_PER_DAY.
Proof.
  intros (Hw & Hh & Hm & Hs). unfold tm_day, tm_time, SEC_PER_HOUR, SEC_PER_MIN, SEC_PER_DAY.
  destruct (Z.eqb_spec (tm_wday t) 0); lia.
Qed.

Lemma next_delay_spec (localtime : Z -> tm) (flex : list flexible_interval) (now next : Z) :
  Forall (fun f => valid_period (period f)) flex -> tm_week_ok (localtime now) ->
  get_next_delay_interval localtime flex now = Some next ->
  now < next /\ next <= now + 8 * SEC_PER_DAY /\
  forall f s, f ∈ flex -> 0 <= s < next - now ->
    let day := tm_day (localtime now) in
    let time := tm_time (localtime now) in
    active (period f) (later_day day time s) (later_time time s) = check_time_period (period f) (localtime now).
Proof.
  intros Hp Hw. destruct (tm_week_range _ Hw) as [Hday Htime]. unfold get_next_delay_interval.
  destruct flex as [|f0 flex0]; [discriminate|]. set (flex := f0 :: flex0) in *.
  destruct (next_delay_loop_least flex (tm_day (localtime now)) (tm_time (localtime now)) 0 Hp Hday Htime) as (H1 & _ & H3 & H4);
    [by left|by right|].
  set (r := next_delay_loop flex _ _ 0) in *. destruct (Z.eqb_spec r 0) as [|_]; [discriminate|].
  intros [= <-]. split; [lia|]. split.
  - destruct H4 as [-> | (g & Hg & ->)]; [lia|]. rewrite Forall_forall in Hp.
    pose proof (candidate_later (period g) _ _ (Hp g Hg) Hday Htime). lia.
  - intros f s Hf Hs. cbn zeta. rewrite Forall_forall in Hp, H3. specialize (H3 f Hf).
    change (check_time_period (period f) (localtime now))
      with (active (period f) (tm_day (localtime now)) (tm_time (localtime now))).
    apply candidate_stable; [by apply Hp|done|done|lia|lia].
Qed.

(** get_next_delay_interval finds a later moment, at most eight days ahead,
    and before it every flexible interval stays as active or inactive as it is
    now, in a week without clock changes: no change of delay is skipped. *)
Theorem next_delay_stable (localtime : Z -> tm) (flex : list flexible_interval) (now next : Z) :
  Forall (fun f => valid_period (period f)) flex -> tm_week_ok (localtime now) ->
  get_next_delay_interval localtime flex now = Some next ->
  now < next /\ next <= now + 8 * SEC_PER_DAY /\
  forall f s, f ∈ flex -> 0 <= s < next - now ->
    let day := tm_day (localtime now) in
    let time := tm_time (localtime now) in
    active (period f) (later_day day time s) (later_time time s) = check_time_period (period f) (localtime now).
Proof. apply next_delay_spec. Qed.

Definition monday_noon (_ : Z) : tm := mkTm 124 0 1 12 0 0 1 0 0.

Lemma next_delay_stable_witness :
  get_next_delay_interval monday_noon [mkFlex (mkPeriod 1 5 32400 64800) 50] 1000000 = Some 1021600 /\
  1000000 < 1021600 /\ 1021600 <= 1000000 + 8 * SEC_PER_DAY.
Proof.
  split; [reflexivity|].
  destruct (next_delay_stable monday_noon [mkFlex (mkPeriod 1 5 32400 64800) 50] 1000000 1021600) as (H1 & H2 & _);
    [|unfold tm_week_ok; cbn; lia|reflexivity|split; [exact H1 | exact H2]].
  repeat constructor; vm_compute; (reflexivity || discriminate).
Defined.

(* ------------------------------------------------------------------ *)
(** ** Nearest filter value *)

(** The values a filter stands for. *)
Definition filter_matches (f : scheduler_filter) (v : Z) : Prop :=
  fstart f <= v <= fend f /\ (v - fstart f) mod fstep f = 0.
Definition chain_matches (chain : list scheduler_filter) (v : Z) : Prop :=
  exists f, f ∈ chain /\ filter_matches f v.

Lemma next_step_spec (f : scheduler_filter) (v : Z) :
  1 <= fstep f -> fstart f <= v ->
  v <= next_step f v /\ (next_step f v - fstart f) mod fstep f = 0 /\
  forall w, v <= w -> (w - fstart f) mod fstep f = 0 -> next_step f v <= w.
Proof.
  intros Hst Hv. unfold next_step. rewrite Z.rem_mod_nonneg by lia.
  pose proof (Z.mod_pos_bound (v - fstart f) (fstep f) ltac:(lia)) as Hb.
  pose proof (Z.div_mod (v - fstart f) (fstep f) ltac:(lia)) as Hdm.
  set (st := fstep f) in *. set (o := (v - fstart f) mod st) in *. set (q := (v - fstart f) / st) in *.
  assert (Hlow : forall w, v <= w -> (w - fstart f) mod st = 0 -> o <> 0 -> st * (q + 1) <= w - fstart f).
  { intros w Hw Hm Ho. pose proof (Z.div_mod (w - fstart f) st ltac:(lia)) as Hdw. rewrite Hm in Hdw.
    assert (q < (w - fstart f) / st) by nia. nia. }
  destruct (Z.eqb_spec o 0) as [E | E]; cbn [negb].
  - split_and!; [lia|done|]. intros w Hw _. lia.
  - split_and!; [lia| |].
    + replace (v + (st - o) - fstart f) with (0 + (q + 1) * st) by lia. rewrite Z.mod_add by lia.
      apply Z.mod_0_l. lia.
    + intros w Hw Hm. specialize (Hlow w Hw Hm E). lia.
Qed.

Lemma matches_start (f : scheduler_filter) : 1 <= fstep f -> fstart f <= fend f -> filter_matches f (fstart f).
Proof. intros H1 H2. split; [lia|]. rewrite Z.sub_diag. apply Z.mod_0_l. lia. Qed.

Definition chain_ok (chain : list scheduler_filter) : Prop :=
  Forall (fun f => 1 <= fstep f /\ fstart f <= fend f) chain.

Lemma nearest_loop_spec (chain : list scheduler_filter) (v : Z) (later : option Z) :
  chain_ok chain -> (forall s, later = Some s -> v < s) ->
  match nearest_loop chain v later with
  | Some w => v <= w /\ (chain_matches chain w \/ later = Some w)
  | None => later = None /\ forall w, v <= w -> ~ chain_matches chain w
  end.
Proof.
  revert later. induction chain as [|f chain IH]; intros later Hok Hl; cbn [nearest_loop].
  - destruct later as [s|]; [split; [by apply Z.lt_le_incl, Hl | by right]|].
    split; [done|]. intros w _ (f & Hf & _). by apply elem_of_nil in Hf.
  - inversion_clear Hok as [|? ? [Hst Hse] Hok'].
    assert (Hcons : forall w, chain_matches chain w -> chain_matches (f :: chain) w).
    { intros w (g & Hg & Hw). exists g. split; [by right|done]. }
    destruct ((fstart f <=? v) && (v <=? fend f) && (next_step f v <=? fend f)) eqn:Hin.
    + rewrite !andb_true_iff, !Z.leb_le in Hin. destruct Hin as [[H1 H2] H3].
      destruct (next_step_spec f v Hst H1) as (Hge & Hm & _). split; [done|]. left. exists f.
      split; [by left|]. split; [lia|done].
    + set (later' := if _ && _ then _ else _).
      assert (Hl' : (forall s, later' = Some s -> v < s) /\ (later' = None -> later = None /\ fstart f <= v) /\
        (later' = later \/ (later' = Some (fstart f) /\ v < fstart f))).
      { unfold later'. destruct (Z.ltb_spec v (fstart f)); cbn [andb]; [|split_and!; auto].
        destruct later as [s|]; [destruct (Z.ltb_spec (fstart f) s)|]; split_and!; auto; naive_solver. }
      destruct Hl' as (Hl1 & Hl2 & Hl3). specialize (IH later' Hok' Hl1).
      destruct (nearest_loop chain v later') as [w|].
      * destruct IH as (Hge & [Hw | Hw]); (split; [done|]); [left; by apply Hcons|].
        destruct Hl3 as [E | (E & _)]; [right; congruence|]. left. exists f. split; [by left|].
        assert (w = fstart f) as -> by congruence. by apply matches_start.
      * destruct IH as [E Hnone]. destruct (Hl2 E) as [-> Hs]. split; [done|].
        intros w Hw (g & [-> | Hg]%elem_of_cons & Hr & Hm); [|by apply (Hnone w Hw); exists g].
        destruct (next_step_spec f v Hst Hs) as (_ & _ & Hleast). specialize (Hleast w Hw Hm).
        rewrite !andb_false_iff, !Z.leb_gt in Hin. lia.
Qed.

Lemma nearest_value_spec (chain : list scheduler_filter) (v : Z) :
  chain_ok chain ->
  match scheduler_get_nearest_filter_value chain v with
  | Some w => v <= w /\ chain_matches chain w
  | None => forall w, v <= w -> ~ chain_matches chain w
  end.
Proof.
  intros Hok. unfold scheduler_get_nearest_filter_value.
  pose proof (nearest_loop_spec chain v None Hok ltac:(done)) as H.
  destruct (nearest_loop chain v None) as [w|]; [|by destruct H]. by destruct H as (? & [? | ?]).
Qed.

(** scheduler_get_nearest_filter_value returns a value the chain of filters
    accepts, not before the given one, and fails only when no such value exists. *)
Theorem nearest_value_correct (chain : list scheduler_filter) (v : Z) :
  chain_ok chain ->
  match scheduler_get_nearest_filter_value chain v with
  | Some w => v <= w /\ chain_matches chain w
  | None => forall w, v <= w -> ~ chain_matches chain w
  end.
Proof. apply nearest_value_spec. Qed.

Lemma nearest_value_correct_witness :
  scheduler_get_nearest_filter_value [mkFilter 10 30 15; mkFilter 50 59 1] 26 = Some 50 /\
  chain_matches [mkFilter 10 30 15; mkFilter 50 59 1] 50.
Proof.
  split; [reflexivity|].
  pose proof (nearest_value_correct [mkFilter 10 30 15; mkFilter 50 59 1] 26) as H.
  change (scheduler_get_nearest_filter_value _ _) with (Some 50) in H. apply H.
  repeat constructor; vm_compute; discriminate.
Defined.

(* ------------------------------------------------------------------ *)
(** ** Scheduling filters *)

(** The week days of an interval that is combined with month days all have
    step 1, or there are no month days. *)
Definition steps_apart (i : scheduler_interval) : Prop := mdays i = [] \/ Forall (fun f => fstep f = 1) (wdays i).

(** The day an interval accepts: a month day that a filter has, and a week day
    that a filter has.  A filter of week days with a step that is combined with
    month days is only asked for its bounds: the code accepts such a day (see
    [wday_test_ignores_step]). *)
Definition wday_matches (i : scheduler_interval) (t : tm) : Prop :=
  wdays i = [] \/
  Exists (fun f => fstart f <= tm_dayofweek t <= fend f) (wdays i) /\
  (steps_apart i -> chain_matches (wdays i) (tm_dayofweek t)).

Definition day_matches (i : scheduler_interval) (t : tm) : Prop :=
  (mdays i = [] \/ chain_matches (mdays i) (tm_mday t)) /\ wday_matches i t.

Definition clock_matches (i : scheduler_interval) (level : Z) (chain : list scheduler_filter) (v : Z) : Prop :=
  match chain with
  | [] => level < filter_level i \/ v = 0
  | _ => chain_matches chain v
  end.

Definition hour_matches (i : scheduler_interval) (t : tm) : Prop :=
  clock_matches i FILTER_HOUR (hours i) (tm_hour t).
Definition minute_matches (i : scheduler_interval) (t : tm) : Prop :=
  clock_matches i FILTER_MINUTE (minutes i) (tm_min t).
Definition second_matches (i : scheduler_interval) (t : tm) : Prop :=
  clock_matches i FILTER_SECOND (seconds i) (tm_sec t).

(** A week day that the step of the filter excludes is accepted when the
    filter is combined with month days. *)
Example wday_test_ignores_step :
  scheduler_validate_wday_filter (mkSched [mkFilter 1 7 1] [mkFilter 1 7 2] [] [] [] FILTER_DAY)
    (mkTm 124 0 2 0 0 0 2 1 0) = true /\
  ~ chain_matches [mkFilter 1 7 2] (tm_dayofweek (mkTm 124 0 2 0 0 0 2 1 0)).
Proof.
  split; [reflexivity|]. intros (f & ->%list_elem_of_singleton & _ & Hm). vm_compute in Hm. discriminate.
Qed.

(** What the week day test accepts. *)
Lemma chain_within (chain : list scheduler_filter) (v : Z) :
  chain_matches chain v -> Exists (fun f => fstart f <= v <= fend f) chain.
Proof. intros (f & Hf & [Hr _]). apply Exists_exists. eauto. Qed.

Lemma wday_loop_spec (chain : list scheduler_filter) (v : Z) :
  wday_filter_loop chain v = true ->
  Exists (fun f => fstart f <= v <= fend f) chain /\ (Forall (fun f => fstep f = 1) chain -> chain_matches chain v).
Proof.
  induction chain as [|f chain IH]; [done|]. cbn [wday_filter_loop].
  destruct ((fstart f <=? v) && (v <=? fend f) && (next_step f v <=? fend f)) eqn:E.
  - intros _. rewrite !andb_true_iff, !Z.leb_le in E. destruct E as [[H1 H2] _]. split; [by left|].
    intros [H _]%Forall_cons. exists f. split; [by left|]. split; [lia|]. rewrite H. apply Z.mod_1_r.
  - intros [H1 H2]%IH. split; [by right|]. intros [_ H]%Forall_cons. destruct (H2 H) as (g & Hg & Hm).
    exists g. split; [by right|done].
Qed.

Lemma validate_wday_spec (i : scheduler_interval) (t : tm) :
  mdays i <> [] -> scheduler_validate_wday_filter i t = true -> wday_matches i t.
Proof.
  intros Hm. unfold scheduler_validate_wday_filter, wday_matches, steps_apart. destruct (wdays i) as [|f fs]; [by left|].
  intros [H1 H2]%wday_loop_spec. right. split; [done|]. intros [? | H]; [done|auto].
Qed.

Lemma chain_wday_matches (i : scheduler_interval) (t : tm) : chain_matches (wdays i) (tm_dayofweek t) -> wday_matches i t.
Proof. intros H. right. split; [by apply chain_within|done]. Qed.

(** One of the two day filters at most: the months to search are few. *)
Definition one_day_filter (i : scheduler_interval) : Prop := mdays i = [] \/ wdays i = [].

Definition month_index (t : tm) : Z := (tm_year t + 1900) * 12 + tm_mon t.

(** The outcome of a step from [t]: a time that satisfies [P], or the int
    overflow of zbx_utc_time, which an interval with one kind of day filter
    does not meet before 2038; it moves at most two months ahead. *)
Definition outcome (i : scheduler_interval) (k : Z) (t : tm) (r : res tm) (P : tm -> Prop) : Prop :=
  match r with
  | Ret t' => P t' /\ (one_day_filter i -> month_index t' <= month_index t + k)
  | Undef => one_day_filter i -> 2038 * 12 <= month_index t + k
  | _ => False
  end.

Lemma outcome_bind (i : scheduler_interval) (k1 k2 : Z) (t : tm) (r : res tm) (f : tm -> res tm)
    (P Q : tm -> Prop) :
  outcome i k1 t r P -> (forall t', P t' -> outcome i k2 t' (f t') Q) ->
  0 <= k2 -> outcome i (k1 + k2) t (r ≫= f) Q.
Proof.
  intros Hr Hf Hk. destruct r as [t'| | |]; try done; cbn in *.
  - destruct Hr as [HP Hm]. specialize (Hf t' HP). destruct (f t') as [t''| | |]; try done; cbn in *.
    + destruct Hf as [HQ Hm']. split; [done|]. intros H1. specialize (Hm H1). specialize (Hm' H1). lia.
    + intros H1. specialize (Hm H1). specialize (Hf H1). lia.
  - intros H1. specialize (Hr H1). lia.
Qed.

Lemma outcome_mono (i : scheduler_interval) (k : Z) (t : tm) (r : res tm) (P Q : tm -> Prop) :
  outcome i k t r P -> (forall t', P t' -> Q t') -> outcome i k t r Q.
Proof. intros Hr HPQ. destruct r; cbn in *; try done. destruct Hr; auto. Qed.

Lemma chain_ok_of (min max : Z) (chain : list scheduler_filter) :
  Forall (filter_ok min max) chain -> chain_ok chain.
Proof. intros Hf. eapply Forall_impl; [exact Hf|]. intros f (? & ? & ? & _). lia. Qed.

Lemma chain_matches_range (min max : Z) (chain : list scheduler_filter) (v : Z) :
  Forall (filter_ok min max) chain -> chain_matches chain v -> min <= v <= max.
Proof. intros Hf (f & Hin & Hr & _). rewrite Forall_forall in Hf. destruct (Hf f Hin) as (? & ? & _). lia. Qed.

(** From the bottom of its range a chain always has a value. *)
Lemma nearest_from_min (min max : Z) (chain : list scheduler_filter) :
  Forall (filter_ok min max) chain -> chain <> [] ->
  exists w, scheduler_get_nearest_filter_value chain min = Some w.
Proof.
  intros Hf Hne. pose proof (nearest_value_spec chain min (chain_ok_of _ _ _ Hf)) as Hn.
  destruct (scheduler_get_nearest_filter_value chain min) as [w|]; [by exists w|]. exfalso.
  destruct chain as [|f chain]; [done|]. inversion_clear Hf as [|? ? (H1 & H2 & H3 & _) _].
  apply (Hn (fstart f)); [lia|]. exists f. split; [by left|]. apply matches_start; lia.
Qed.

Lemma clock_nextcheck_spec (i : scheduler_interval) (level max : Z) (chain : list scheduler_filter) (v : Z) :
  Forall (filter_ok 0 max) chain -> 0 <= v -> 0 <= max ->
  match clock_nextcheck i level max chain v with
  | Some w => v <= w <= max /\ clock_matches i level chain w
  | None => 0 < v /\ forall w, w <= max -> clock_matches i level chain w -> w < v
  end.
Proof.
  intros Hf Hv Hmax. unfold clock_nextcheck, clock_matches. destruct (Z.ltb_spec max v) as [|Hm]; [split; lia|].
  destruct chain as [|f chain].
  - destruct (Z.ltb_spec level (filter_level i)); [split; [lia|by left]|].
    destruct (Z.eqb_spec v 0); [split; [lia|by right]|split; lia].
  - pose proof (nearest_value_spec (f :: chain) v (chain_ok_of _ _ _ Hf)) as Hn.
    destruct (scheduler_get_nearest_filter_value (f :: chain) v) as [w|] eqn:E.
    + destruct Hn as [Hge Hw]. split; [|done]. pose proof (chain_matches_range _ _ _ _ Hf Hw). lia.
    + split; [|intros w _ Hw; destruct (Z.lt_ge_cases w v); [done|by destruct (Hn w)]].
      destruct (decide (v = 0)) as [-> |]; [|lia].
      destruct (nearest_from_min 0 max (f :: chain) Hf) as [w Hw]; [done|congruence].
Qed.

(** The date is that of a calendar day, or the day after the last of a month. *)
Definition date_pre (t : tm) : Prop :=
  tm_month_ok t /\ 1 <= tm_mday t <= tm_month_days t + 1 /\
  0 <= tm_hour t <= 23 /\ 0 <= tm_min t <= 59 /\ 0 <= tm_sec t <= 59.

Definition date_valid (t : tm) : Prop := valid_date (tm_year t + 1900) (tm_mon t + 1) (tm_mday t).

Lemma dow_shift (t : tm) (d : Z) :
  tm_month_ok t -> 1 <= tm_mday t -> 1 <= d ->
  tm_dayofweek (set_mday t d) = (tm_dayofweek t - 1 + (d - tm_mday t)) mod 7 + 1.
Proof.
  intros [Hy Hm] Ht Hd. unfold tm_dayofweek. fields. rewrite !dayofweek_days by lia.
  rewrite Z.add_simpl_r, Zplus_mod_idemp_l. unfold day_number. do 2 f_equal. lia.
Qed.

Lemma dow_range (t : tm) : tm_month_ok t -> 1 <= tm_mday t -> 1 <= tm_dayofweek t <= 7.
Proof.
  intros [Hy Hm] Ht. unfold tm_dayofweek. rewrite dayofweek_days by lia.
  match goal with |- context [?x mod 7] => pose proof (Z.mod_pos_bound x 7 ltac:(lia)) end. lia.
Qed.

(** The next day by week day filters only: within two weeks. *)
Lemma wday_nextcheck_spec (i : scheduler_interval) (t : tm) :
  Forall (filter_ok 1 7) (wdays i) -> mdays i = [] -> tm_month_ok t -> 1 <= tm_mday t <= tm_month_days t ->
  exists b d, scheduler_get_wday_nextcheck i t = (b, set_mday t d) /\ tm_mday t <= d <= tm_mday t + 13 /\
    (b = true <-> d <= tm_month_days t) /\ (b = true -> day_matches i (set_mday t d)).
Proof.
  intros Hf Hmd Hok Hd.
  enough (H : exists b d, scheduler_get_wday_nextcheck i t = (b, set_mday t d) /\ tm_mday t <= d <= tm_mday t + 13 /\
    (b = true <-> d <= tm_month_days t) /\
    (b = true -> wdays i = [] \/ chain_matches (wdays i) (tm_dayofweek (set_mday t d)))).
  { destruct H as (b & d & E & H1 & H2 & H3). exists b, d. split_and!; [done|apply H1..|done|]. intros Hb. split; [by left|].
    destruct (H3 Hb); [by left|by apply chain_wday_matches]. }
  unfold scheduler_get_wday_nextcheck.
  assert (Hid : forall t0, set_mday t0 (tm_mday t0) = t0) by (by intros []).
  destruct (wdays i) as [|f fs] eqn:Ew.
  { exists true, (tm_mday t). rewrite Hid. split_and!; try done; try lia. by left. }
  set (chain := f :: fs) in *. pose proof (dow_range t Hok ltac:(lia)) as Hdow.
  assert (Hgo : forall base vn, tm_mday t <= base -> 1 <= vn <= 7 -> chain_matches chain vn ->
    (tm_dayofweek t - 1 + (base - tm_mday t)) mod 7 + 1 = vn ->
    chain_matches chain (tm_dayofweek (set_mday t base))).
  { intros base vn Hb Hvn Hc E. rewrite dow_shift by (done || lia). by rewrite E. }
  assert (Hleb : forall d, (d <=? tm_month_days t) = true <-> d <= tm_month_days t) by (intros; apply Z.leb_le).
  pose proof (nearest_value_spec chain (tm_dayofweek t) (chain_ok_of _ _ _ Hf)) as Hn.
  destruct (scheduler_get_nearest_filter_value chain (tm_dayofweek t)) as [vn|].
  - destruct Hn as [Hge Hc]. pose proof (chain_matches_range _ _ _ _ Hf Hc).
    eexists _, (tm_mday t + (vn - tm_dayofweek t)). split; [reflexivity|]. split; [lia|].
    split; [apply Hleb|]. intros _. right. apply (Hgo _ vn); try done; [lia|].
    rewrite Z.mod_small; lia.
  - destruct (nearest_from_min 1 7 chain Hf) as [vn Hvn]; [done|].
    change (scheduler_get_nearest_filter_value chain 1) with (scheduler_get_nearest_filter_value chain 1).
    rewrite Hvn. pose proof (nearest_value_spec chain 1 (chain_ok_of _ _ _ Hf)) as Hn1. rewrite Hvn in Hn1.
    destruct Hn1 as [Hge1 Hc]. pose proof (chain_matches_range _ _ _ _ Hf Hc).
    fields. eexists _, (tm_mday t + (7 - tm_dayofweek t + 1) + (vn - 1)). split; [reflexivity|]. split; [lia|].
    split; [apply Hleb|]. intros _. right. apply (Hgo _ vn); try done; [lia|].
    replace (tm_dayofweek t - 1 + (tm_mday t + (7 - tm_dayofweek t + 1) + (vn - 1) - tm_mday t)) with (vn - 1 + 1 * 7) by lia.
    rewrite Z.mod_add by lia. rewrite Z.mod_small; lia.
Qed.

Lemma mday_loop_spec (fuel : nat) (i : scheduler_interval) (t : tm) :
  Forall (filter_ok 1 31) (mdays i) -> mdays i <> [] -> 1 <= tm_mday t <= tm_month_days t ->
  33 <= Z.of_nat fuel + tm_mday t ->
  exists b d, mday_loop fuel i t = Ret (b, set_mday t d) /\ tm_mday t <= d /\
    (b = true -> d <= tm_month_days t /\ day_matches i (set_mday t d)) /\
    (wdays i = [] -> tm_mday t = 1 -> tm_month_days t = 31 -> b = true).
Proof.
  intros Hf Hne. assert (Hid : forall t0, set_mday t0 (tm_mday t0) = t0) by (by intros []).
  revert t. induction fuel as [|fuel IH]; intros t Hd Hfuel.
  { pose proof (day_in_month_range (tm_year t + 1900) (tm_mon t + 1)). unfold tm_month_days in Hd. lia. }
  cbn [mday_loop]. pose proof (nearest_value_spec (mdays i) (tm_mday t) (chain_ok_of _ _ _ Hf)) as Hn.
  destruct (scheduler_get_nearest_filter_value (mdays i) (tm_mday t)) as [d|] eqn:En; cycle 1.
  { exists false, (tm_mday t). rewrite Hid. split_and!; try done. intros _ H1 _. exfalso.
    destruct (nearest_from_min 1 31 (mdays i) Hf Hne) as [w Hw]. congruence. }
  destruct Hn as [Hge Hc]. pose proof (chain_matches_range _ _ _ _ Hf Hc) as Hr.
  change (tm_month_days (set_mday t d)) with (tm_month_days t). fields.
  destruct (Z.ltb_spec (tm_month_days t) d) as [Hlt | Hle].
  { exists false, d. split_and!; try done. intros _ _ H31. lia. }
  destruct (scheduler_validate_wday_filter i (set_mday t d)) eqn:Ev.
  { exists true, d. split_and!; try done. intros _. split; [done|]. split; [by right|].
    by apply validate_wday_spec. }
  assert (Hwne : wdays i <> []) by (intros E; unfold scheduler_validate_wday_filter in Ev; by rewrite E in Ev).
  change (tm_month_days (set_mday (set_mday t d) (d + 1))) with (tm_month_days t).
  destruct (Z.ltb_spec (tm_month_days t) (d + 1)) as [Hlt | Hle1].
  { exists false, (d + 1). split_and!; try done. lia. }
  change (set_mday (set_mday t d) (d + 1)) with (set_mday t (d + 1)).
  destruct (IH (set_mday t (d + 1))) as (b & d' & E & Hd' & Hb & _); fields;
    [change (tm_month_days (set_mday t (d + 1))) with (tm_month_days t); lia|lia|].
  change (d + 1 <= d') in Hd'. exists b, d'. split_and!; [exact E|lia|exact Hb|done].
Qed.
