(* ===== verification/NextCheck.v ===== *)
(** The search of a scheduling interval for its next moment (the day, hour,
    minute and second loops of src/src/libs/zbxexpr/interval.c), and the next
    check of an item over its simple and flexible delays. *)

From stdpp Require Import base list numbers strings.
From Stdlib Require Import ZArith Lia.
From S2P Require Import Prelude Num Calendar Interval Scheduler.

Open Scope Z_scope.

(** The clock is in its range, the date as in [date_pre]. *)
Definition same_time (t t' : tm) : Prop :=
  tm_hour t' = tm_hour t /\ tm_min t' = tm_min t /\ tm_sec t' = tm_sec t.

Lemma tm_days_set (t : tm) (d : Z) : tm_days (set_mday t d) = tm_days t + (d - tm_mday t).
Proof. unfold tm_days, day_number. fields. lia. Qed.

Lemma month_days_range (t : tm) : 28 <= tm_month_days t <= 31.
Proof. apply day_in_month_range. Qed.

(** The first day of the next month. *)
Lemma next_month_spec (t : tm) :
  tm_month_ok t -> let t' := next_month t in
  tm_month_ok t' /\ tm_mday t' = 1 /\ month_index t' = month_index t + 1 /\ same_time t t' /\
  tm_days t' = tm_days t + (tm_month_days t + 1 - tm_mday t).
Proof.
  intros [Hy Hm]. unfold next_month, tm_month_ok, month_index, same_time, tm_days, tm_month_days. cbn zeta.
  destruct (Z.ltb_spec 11 (tm_mon t + 1)) as [Hl | Hl]; fields.
  - split_and!; try lia. assert (tm_mon t = 11) as Em by lia. rewrite Em. change (11 + 1) with 12. change (0 + 1) with 1.
    replace (tm_year t + 1 + 1900) with (tm_year t + 1900 + 1) by lia.
    rewrite day_number_next_year by lia. unfold day_number. lia.
  - split_and!; try lia. rewrite day_number_next_month by lia. unfold day_number. lia.
Qed.

Lemma day_of_year_bound (y m d : Z) : valid_date y m d -> days_of_months y (Z.to_nat (m - 1)) + d <= 366.
Proof.
  intros (Hy & Hm & Hd). assert (days_of_months y (Z.to_nat (m - 1)) + zbx_day_in_month y m <= 366); [|lia].
  clear d Hd. each_month m; cbv -[zbx_is_leap_year]; destruct (zbx_is_leap_year y); discriminate.
Qed.

(** The int of zbx_utc_time lasts until 2038. *)
Lemma overflow_year (y m d h mi s : Z) :
  valid_date y m d -> valid_clock h mi s -> 2 ^ 31 <= seconds_of y m d h mi s -> 2038 <= y.
Proof.
  intros Hv (Hh & Hmi & Hs) Hlarge. pose proof (day_of_year_bound y m d Hv). destruct Hv as (Hy & Hm & Hd).
  destruct (Z.le_gt_cases 2038 y) as [|Hlt]; [done|exfalso].
  assert (Hdays : days_of_years (Z.to_nat (y - 1970)) <= 67 * 365 + 17).
  { rewrite days_of_years_closed by lia. change (ZBX_LEAP_YEARS 1970) with 477. unfold ZBX_LEAP_YEARS. zlia. }
  unfold seconds_of, day_number, SEC_PER_DAY, SEC_PER_HOUR, SEC_PER_MIN in Hlarge. lia.
Qed.

Lemma day_number_1970 (y m d : Z) : 1970 <= y -> 1 <= m <= 12 -> (y - 1970) * 365 + d - 1 <= day_number y m d.
Proof.
  intros Hy Hm. unfold day_number. rewrite days_of_years_closed, days_of_months_closed by lia.
  assert (0 <= nth (Z.to_nat (m - 1)) month_day 0) by (each_month m; vm_compute; discriminate).
  unfold leap. change (ZBX_LEAP_YEARS 1970) with 477. unfold ZBX_LEAP_YEARS.
  destruct (2 <? m), (zbx_is_leap_year y); zlia.
Qed.

(** One month of the day search. *)
Definition day_step (i : scheduler_interval) (t t' : tm) (b : bool) : Prop :=
  exists d, t' = set_mday t d /\ tm_mday t <= d /\
    (b = true -> d <= tm_month_days t /\ day_matches i t') /\
    (one_day_filter i -> tm_mday t = 1 -> mdays i = [] \/ tm_month_days t = 31 -> b = true).

Lemma get_day_spec (i : scheduler_interval) (t : tm) :
  filters_ok i -> date_pre t ->
  match scheduler_get_day_nextcheck i t with
  | Undef => 2038 * 12 <= month_index t
  | Ret (b, t') => day_step i t t' b /\ (month_index t < 2039 * 12 \/ tm_mday t = tm_month_days t + 1)
  | _ => False
  end.
Proof.
  intros (Hmd & Hwd & _) ((Hy & Hm) & Hd & Hh & Hmi & Hs). unfold scheduler_get_day_nextcheck, month_index.
  pose proof (month_days_range t) as Hdays. unfold tm_month_days in Hd.
  destruct (decide (tm_mday t <= tm_month_days t)) as [Hle | Hgt]; cycle 1.
  { rewrite utc_time_invalid by (unfold valid_date, tm_month_days in *; lia). run. unfold tm_month_days in *.
    split; [|lia]. exists (tm_mday t). split_and!; [by destruct t|done|discriminate|lia]. }
  assert (Hv : date_valid t) by (unfold date_valid, valid_date; unfold tm_month_days in Hle; lia).
  assert (Hc : valid_clock (tm_hour t) (tm_min t) (tm_sec t)) by (unfold valid_clock; lia).
  rewrite utc_time_valid by done. destruct (Z.ltb_spec (seconds_of (tm_year t + 1900) (tm_mon t + 1) (tm_mday t)
    (tm_hour t) (tm_min t) (tm_sec t)) (2 ^ 31)) as [Hlt | Hge]; run.
  2: { pose proof (overflow_year _ _ _ _ _ _ Hv Hc Hge). change (2038 * 12 <= (tm_year t + 1900) * 12 + tm_mon t). lia. }
  assert (Hmonth : (tm_year t + 1900) * 12 + tm_mon t < 2039 * 12 \/ tm_mday t = tm_month_days t + 1).
  { left. pose proof (day_number_1970 (tm_year t + 1900) (tm_mon t + 1) (tm_mday t)).
    unfold seconds_of, SEC_PER_DAY, SEC_PER_HOUR, SEC_PER_MIN in Hlt. lia. }
  assert (Hok : tm_month_ok t) by done. destruct (mdays i) as [|f fs] eqn:Em.
  - destruct (wday_nextcheck_spec i t Hwd Em Hok ltac:(lia)) as (b & d & -> & Hr & Hb & Hmat).
    split; [|done]. exists d. split_and!; [done|lia| |intros _ H1 _; apply Hb; lia].
    intros Hb1. split; [by apply Hb|by apply Hmat].
  - destruct (mday_loop_spec 32 i t ltac:(by rewrite Em) ltac:(by rewrite Em) ltac:(lia) ltac:(lia))
      as (b & d & -> & Hr & Hb & Hmat).
    split; [|done]. exists d. split_and!; [done|lia|done|].
    intros [Ho | Ho] H1 [H31 | H31]; [congruence..|]. by apply Hmat.
Qed.

(** The months an interval with one kind of day filter still has to try. *)
Definition within (i : scheduler_interval) (k : Z) (t : tm) : Prop :=
  k = 2 \/ (k = 1 /\ tm_mday t = 1) \/
  (k = 0 /\ tm_mday t = 1 /\ (mdays i = [] \/ tm_month_days t = 31)).

Definition day_post (i : scheduler_interval) (t t' : tm) : Prop :=
  date_valid t' /\ day_matches i t' /\ same_time t t' /\ tm_days t <= tm_days t' /\
  (date_valid t -> tm_days t' = tm_days t -> t' = t).

Lemma outcome_from (i : scheduler_interval) (k1 k2 : Z) (t1 t2 : tm) (r : res tm) (P : tm -> Prop) :
  outcome i k1 t1 r P -> (one_day_filter i -> month_index t1 + k1 <= month_index t2 + k2) -> outcome i k2 t2 r P.
Proof.
  intros Hr Hle. destruct r; cbn in *; try done.
  - destruct Hr as [HP Hk]. split; [done|]. intros H1. specialize (Hk H1). specialize (Hle H1). lia.
  - intros H1. specialize (Hr H1). specialize (Hle H1). lia.
Qed.

Lemma next_month_31 (t : tm) :
  tm_month_ok t -> tm_month_days t <> 31 -> tm_month_days (next_month t) = 31.
Proof.
  intros [Hy Hm]. unfold tm_month_days, next_month. cbn zeta. destruct (Z.ltb_spec 11 (tm_mon t + 1)) as [Hl|Hl]; fields; [done|].
  generalize (tm_year t + 1900). intros y. remember (tm_mon t + 1) as m. assert (1 <= m <= 11) by lia.
  clear Heqm Hy Hm Hl. each_month m; cbv -[zbx_is_leap_year Z.le];
    intros H31; first [reflexivity | by destruct H31 | lia].
Qed.

Lemma day_matches_valid (i : scheduler_interval) (t : tm) (d : Z) :
  tm_month_ok t -> 1 <= tm_mday t <= d -> d <= tm_month_days t -> date_valid (set_mday t d).
Proof. intros [Hy Hm] Hd Hle. unfold date_valid, valid_date. fields. unfold tm_month_days in Hle. lia. Qed.

Lemma day_loop_spec (fuel : nat) (i : scheduler_interval) (t : tm) (k : Z) :
  filters_ok i -> date_pre t -> 2040 * 12 <= month_index t + Z.of_nat fuel ->
  (fuel = O -> tm_mday t <= tm_month_days t) -> (one_day_filter i -> within i k t) ->
  outcome i k t (day_filter_loop fuel i t) (day_post i t).
Proof.
  intros Hi. revert t k. induction fuel as [|fuel IH]; intros t k Hpre Hfuel H0 Hk;
    cbn [day_filter_loop]; change (scheduler_get_filter_nextcheck i FILTER_DAY t) with (scheduler_get_day_nextcheck i t);
    pose proof (get_day_spec i t Hi Hpre) as Hspec;
    (destruct (scheduler_get_day_nextcheck i t) as [[b t']| | |]; [|done| |done]); run; cycle 1.
  1, 3: intros H1; unfold within in Hk; specialize (Hk H1); lia.
  all: destruct Hspec as [(d & -> & Hd & Hb & Hone) Hidx]; cbn [fst snd]; destruct Hpre as (Hok & Hday & Hclock).
  all: destruct b.
  1, 3: destruct Hb as [Hle Hm]; [done|]; split;
    [split_and!; [apply day_matches_valid; done || lia|done|done|rewrite tm_days_set; lia|
       rewrite tm_days_set; intros _ E; assert (d = tm_mday t) as -> by lia; by destruct t]
    |intros H1; specialize (Hk H1); unfold within in Hk; change (month_index (set_mday t d)) with (month_index t); lia].
  2: specialize (H0 eq_refl); lia.
  assert (Hok' : tm_month_ok (set_mday t d)) by done.
  destruct (next_month_spec (set_mday t d) Hok') as (Hn1 & Hn2 & Hn3 & Hn4 & Hn5).
  pose proof (next_month_31 (set_mday t d) Hok') as H31.
  set (t1 := next_month (set_mday t d)) in *. rewrite tm_days_set in Hn5.
  change (month_index (set_mday t d)) with (month_index t) in Hn3.
  change (tm_month_days (set_mday t d)) with (tm_month_days t) in *. change (tm_mday (set_mday t d)) with d in Hn5.
  pose proof (month_days_range t1) as Hr1. destruct Hn4 as (Eh & Em & Es).
  change (tm_hour t1 = tm_hour t) in Eh. change (tm_min t1 = tm_min t) in Em. change (tm_sec t1 = tm_sec t) in Es.
  eapply outcome_mono; [eapply (outcome_from i (k - 1) _ t1)|].
  - apply IH; [unfold date_pre; split_and!; done || lia|lia|lia|].
    intros H1. specialize (Hk H1). specialize (Hone H1). unfold within in *.
    destruct Hk as [-> | [[-> Hd1] | (-> & Hd1 & Hw)]]; [by right; left| |by specialize (Hone Hd1 Hw)].
    right; right. split_and!; [done|done|right]. apply H31. intros E. by specialize (Hone Hd1 (or_intror E)).
  - lia.
  - intros t2 (H1 & H2 & (Eh2 & Em2 & Es2) & H4 & _).
    split_and!; [done|done|split_and!; congruence|lia|]. intros (_ & _ & Hv) E. unfold tm_month_days in Hn5. lia.
Qed.

Definition clock_zero (t : tm) : Prop := tm_hour t = 0 /\ tm_min t = 0 /\ tm_sec t = 0.

Lemma apply_day_spec (i : scheduler_interval) (t : tm) :
  filters_ok i -> date_pre t ->
  outcome i (2 + 0) t (scheduler_apply_day_filter i t) (fun t' =>
    date_valid t' /\ day_matches i t' /\ tm_days t <= tm_days t' /\ (same_time t t' \/ clock_zero t') /\
    (date_valid t -> t' = t \/ (tm_days t < tm_days t' /\ clock_zero t'))).
Proof.
  intros Hi Hpre. unfold scheduler_apply_day_filter. eapply outcome_bind; [|clear|done].
  - apply day_loop_spec; try done; [|by left]. destruct Hpre as ([Hy Hm] & _). unfold month_index, month_fuel. lia.
  - intros t' (H1 & H2 & H3 & H4 & H5).
    destruct (negb (tm_mday t' =? tm_mday t) || negb (tm_mon t' =? tm_mon t) || negb (tm_year t' =? tm_year t)) eqn:E;
      (split; [|intros _; unfold month_index; fields; lia]).
    + split_and!; [done|done|done|by right|]. intros Hv. right. split; [|done].
      change (tm_days (set_clock t' 0 0 0)) with (tm_days t').
      destruct (decide (tm_days t' = tm_days t)) as [Ed|]; [|lia].
      rewrite (H5 Hv Ed), !Z.eqb_refl in E. discriminate.
    + split_and!; [done|done|done|by left|]. intros Hv. left. apply H5; [done|].
      rewrite !orb_false_iff, !negb_false_iff, !Z.eqb_eq in E. destruct E as [[E1 E2] E3].
      unfold tm_days. by rewrite E1, E2, E3.
Qed.

(* ------------------------------------------------------------------ *)
(** ** The hour, minute and second levels *)

(** The shape the three clock loops share: the value, or after a carry the
    least value. *)
Definition level_search (i : scheduler_interval) (level max : Z) (chain : list scheduler_filter)
    (get : tm -> Z) (set : tm -> Z -> tm) (carry : tm -> res tm) (t : tm) : res tm :=
  match clock_nextcheck i level max chain (get t) with
  | Some w => Ret (set t w)
  | None =>
      t1 ← carry t;
      match clock_nextcheck i level max chain (get t1) with Some w => Ret (set t1 w) | None => NoFuel end
  end.

Lemma level_search_spec (i : scheduler_interval) (k level max : Z) (chain : list scheduler_filter)
    (get : tm -> Z) (set : tm -> Z -> tm) (carry : tm -> res tm) (t : tm) (P : tm -> Prop) :
  Forall (filter_ok 0 max) chain -> 0 <= get t -> 0 <= max -> 0 <= k ->
  (forall t w, month_index (set t w) = month_index t) ->
  (0 < get t -> outcome i k t (carry t) (fun t1 => P t1 /\ get t1 = 0)) ->
  outcome i (k + 0) t (level_search i level max chain get set carry t) (fun t' =>
    exists t1 w, t' = set t1 w /\ clock_matches i level chain w /\ 0 <= w <= max /\
      ((t1 = t /\ get t <= w) \/ (P t1 /\ get t1 = 0 /\ w < get t))).
Proof.
  intros Hf Hget Hmax Hk Hidx Hcarry. unfold level_search.
  pose proof (clock_nextcheck_spec i level max chain (get t) Hf Hget Hmax) as Hs.
  destruct (clock_nextcheck i level max chain (get t)) as [w|].
  - destruct Hs as [Hw Hm]. split; [|rewrite Hidx; lia]. exists t, w.
    split_and!; [done|done|lia|lia|left; split; [done|lia]].
  - destruct Hs as [Hpos Hbelow]. eapply outcome_bind; [by apply Hcarry| |done]. intros t1 [HP H0].
    pose proof (clock_nextcheck_spec i level max chain (get t1) Hf ltac:(lia) Hmax) as Hs.
    destruct (clock_nextcheck i level max chain (get t1)) as [w|]; [|lia]. destruct Hs as [Hw Hm].
    split; [|rewrite Hidx; lia]. exists t1, w.
    split_and!; [done|done|lia|lia|right]. split_and!; [done|done|]. apply Hbelow; [lia|done].
Qed.

Definition hcount (t : tm) : Z := tm_days t * 24 + tm_hour t.
Definition mcount (t : tm) : Z := hcount t * 60 + tm_min t.

Definition hour_carry (i : scheduler_interval) (t : tm) : res tm :=
  scheduler_apply_day_filter i (set_hour (set_mday t (tm_mday t + 1)) 0).

Definition level_result (t : tm) (set : tm -> Z -> tm) (r : option Z) : res (bool * tm) :=
  Ret (match r with Some v => (true, set t v) | None => (false, t) end).

(** The loops of the source are [level_search]; [E] gives one try. *)
Ltac level_loop E :=
  unfold level_search; rewrite E; unfold level_result; run; cbn [fst snd];
  match goal with |- context [clock_nextcheck ?i ?l ?m ?c ?v] => destruct (clock_nextcheck i l m c v) end;
  cbn [fst snd]; [done|];
  match goal with |- ?x ≫= _ = ?y ≫= _ => change x with y; destruct y as [t1| | |]; [run|done..] end;
  rewrite E; unfold level_result; run;
  match goal with |- context [clock_nextcheck ?i ?l ?m ?c ?v] => by destruct (clock_nextcheck i l m c v) end.

Definition minute_carry (i : scheduler_interval) (t : tm) : res tm :=
  scheduler_apply_hour_filter i (set_min (set_hour t (tm_hour t + 1)) 0).
Definition second_carry (i : scheduler_interval) (t : tm) : res tm :=
  scheduler_apply_minute_filter i (set_sec (set_min t (tm_min t + 1)) 0).

Lemma hour_loop_search (i : scheduler_interval) (t : tm) :
  hour_filter_loop 1 i t = level_search i FILTER_HOUR 23 (hours i) tm_hour set_hour (hour_carry i) t.
Proof.
  assert (E : forall t, scheduler_get_filter_nextcheck i FILTER_HOUR t =
    level_result t set_hour (clock_nextcheck i FILTER_HOUR 23 (hours i) (tm_hour t))) by done.
  cbn [hour_filter_loop]. level_loop E.
Qed.

Lemma minute_loop_search (i : scheduler_interval) (t : tm) :
  minute_filter_loop 1 i t = level_search i FILTER_MINUTE 59 (minutes i) tm_min set_min (minute_carry i) t.
Proof.
  assert (E : forall t, scheduler_get_filter_nextcheck i FILTER_MINUTE t =
    level_result t set_min (clock_nextcheck i FILTER_MINUTE 59 (minutes i) (tm_min t))) by done.
  cbn [minute_filter_loop]. level_loop E.
Qed.

Lemma second_loop_search (i : scheduler_interval) (t : tm) :
  second_filter_loop 1 i t = level_search i FILTER_SECOND 59 (seconds i) tm_sec set_sec (second_carry i) t.
Proof.
  assert (E : forall t, scheduler_get_filter_nextcheck i FILTER_SECOND t =
    level_result t set_sec (clock_nextcheck i FILTER_SECOND 59 (seconds i) (tm_sec t))) by done.
  cbn [second_filter_loop]. level_loop E.
Qed.

Definition hour_post (i : scheduler_interval) (t t' : tm) : Prop :=
  date_valid t' /\ day_matches i t' /\ hour_matches i t' /\ 0 <= tm_hour t' <= 23 /\ hcount t <= hcount t' /\
  (t' = t \/ (tm_min t' = 0 /\ tm_sec t' = 0 /\ (tm_hour t <= 23 -> hcount t < hcount t'))).

Lemma apply_hour_spec (i : scheduler_interval) (t : tm) :
  filters_ok i -> date_valid t -> day_matches i t -> 0 <= tm_hour t <= 24 -> 0 <= tm_min t <= 59 -> 0 <= tm_sec t <= 59 ->
  outcome i (2 + 0 + 0 + 0) t (scheduler_apply_hour_filter i t) (hour_post i t).
Proof.
  intros Hi Hv Hm Hh Hmi Hs. unfold scheduler_apply_hour_filter. rewrite hour_loop_search.
  destruct Hv as (Hy & Hmon & Hd).
  eapply outcome_bind.
  - apply level_search_spec with (P := fun t1 => date_valid t1 /\ day_matches i t1 /\ tm_days t + 1 <= tm_days t1);
      [apply Hi|lia|lia|lia|done|]. intros _. unfold hour_carry.
    set (tA := set_hour (set_mday t (tm_mday t + 1)) 0).
    assert (HdA : tm_days tA = tm_days t + 1) by (unfold tm_days, day_number, tA; fields; lia).
    eapply outcome_mono; [eapply (outcome_from i (2 + 0) _ tA); [apply apply_day_spec; [done|]|]|].
    + unfold date_pre, tA. change (tm_month_days (set_hour (set_mday t (tm_mday t + 1)) 0)) with (tm_month_days t).
      unfold tm_month_ok, tm_month_days. fields. lia.
    + intros _. change (month_index tA) with (month_index t). lia.
    + intros t' (H1 & H2 & H3 & H4 & _). split; [split_and!; [done|done|lia]|].
      destruct H4 as [[-> _] | [-> _]]; done.
  - intros t' (t1 & w & -> & Hmat & Hw & Ht1). change (tm_hour (set_hour t1 w)) with w.
    assert (Hmt : hour_matches i (set_hour t1 w)) by done.
    assert (Hc : hcount (set_hour t1 w) = tm_days t1 * 24 + w) by done.
    assert (Hpost : date_valid t1 /\ day_matches i t1 /\ hcount t <= tm_days t1 * 24 + w /\
      (w = tm_hour t -> t1 = t) /\ (w <> tm_hour t -> tm_hour t <= 23 -> hcount t < tm_days t1 * 24 + w)).
    { unfold hcount. destruct Ht1 as [[-> Hle] | ((H1 & H2 & H3) & _ & Hlt)]; split_and!; done || lia. }
    destruct Hpost as (H1 & H2 & H3 & H4 & H5).
    destruct (Z.eqb_spec w (tm_hour t)) as [E | E]; cbn [negb]; (split; [|intros _; unfold month_index; fields; lia]).
    + unfold hour_post. rewrite Hc. split_and!; [done|done|done|apply Hw|apply Hw|done|].
      left. rewrite (H4 E), E. by destruct t.
    + unfold hour_post. change (hcount (set_sec _ 0)) with (tm_days t1 * 24 + w).
      split_and!; [done|done|done|apply Hw|apply Hw|done|]. right. split_and!; [done|done|by apply H5].
  - lia.
Qed.

Definition minute_post (i : scheduler_interval) (t t' : tm) : Prop :=
  date_valid t' /\ day_matches i t' /\ hour_matches i t' /\ minute_matches i t' /\ 0 <= tm_hour t' <= 23 /\
  0 <= tm_min t' <= 59 /\ mcount t <= mcount t' /\
  (t' = t \/ (tm_sec t' = 0 /\ (tm_min t <= 59 -> mcount t < mcount t'))).

Lemma apply_minute_spec (i : scheduler_interval) (t : tm) :
  filters_ok i -> date_valid t -> day_matches i t -> hour_matches i t -> 0 <= tm_hour t <= 23 ->
  0 <= tm_min t <= 60 -> 0 <= tm_sec t <= 59 ->
  outcome i (2 + 0 + 0 + 0 + 0 + 0) t (scheduler_apply_minute_filter i t) (minute_post i t).
Proof.
  intros Hi Hv Hm Hhm Hh Hmi Hs. unfold scheduler_apply_minute_filter. rewrite minute_loop_search.
  eapply outcome_bind.
  - apply level_search_spec with (P := fun t1 => date_valid t1 /\ day_matches i t1 /\ hour_matches i t1 /\
      0 <= tm_hour t1 <= 23 /\ hcount t + 1 <= hcount t1); [apply Hi|lia|lia|lia|done|]. intros _.
    unfold minute_carry. set (tA := set_min (set_hour t (tm_hour t + 1)) 0).
    assert (HdA : hcount tA = hcount t + 1) by (change (tm_days t * 24 + (tm_hour t + 1) = hcount t + 1); unfold hcount; lia).
    eapply outcome_mono; [eapply (outcome_from i (2 + 0 + 0 + 0) _ tA); [apply apply_hour_spec|]|]; try done.
    + unfold tA. fields. lia.
    + intros t' (H1 & H2 & H3 & H4 & H5 & H6). split; [split_and!; [done|done|done|apply H4|apply H4|lia]|].
      destruct H6 as [-> | [-> _]]; done.
  - intros t' (t1 & w & -> & Hmat & Hw & Ht1). change (tm_min (set_min t1 w)) with w.
    assert (Hpost : date_valid t1 /\ day_matches i t1 /\ hour_matches i t1 /\ 0 <= tm_hour t1 <= 23 /\
      mcount t <= hcount t1 * 60 + w /\
      (w = tm_min t -> t1 = t) /\ (w <> tm_min t -> tm_min t <= 59 -> mcount t < hcount t1 * 60 + w)).
    { unfold mcount. destruct Ht1 as [[-> Hle] | ((H1 & H2 & H3 & H4 & H5) & _ & Hlt)]; split_and!; done || lia. }
    destruct Hpost as (H1 & H2 & H3 & H4 & H5 & H6 & H7).
    destruct (Z.eqb_spec w (tm_min t)) as [E | E]; cbn [negb]; (split; [|intros _; unfold month_index; fields; lia]);
      unfold minute_post.
    + change (mcount (set_min t1 w)) with (hcount t1 * 60 + w).
      split_and!; [done|done|done|done|apply H4|apply H4|apply Hw|apply Hw|done|].
      left. rewrite (H6 E), E. by destruct t.
    + change (mcount (set_sec _ 0)) with (hcount t1 * 60 + w).
      split_and!; [done|done|done|done|apply H4|apply H4|apply Hw|apply Hw|done|]. right. split; [done|by apply H7].
  - lia.
Qed.

Lemma tm_seconds_count (t : tm) : tm_seconds t = mcount t * 60 + tm_sec t.
Proof. unfold tm_seconds, seconds_of, mcount, hcount, tm_days, SEC_PER_DAY, SEC_PER_HOUR, SEC_PER_MIN. lia. Qed.

(** Accepted at every level. *)
Definition tm_matches (i : scheduler_interval) (t : tm) : Prop :=
  day_matches i t /\ hour_matches i t /\ minute_matches i t /\ second_matches i t.

Lemma apply_second_spec (i : scheduler_interval) (t : tm) :
  filters_ok i -> tm_ok t -> day_matches i t -> hour_matches i t -> minute_matches i t ->
  outcome i 2 t (scheduler_apply_second_filter i t) (fun t' =>
    tm_ok t' /\ tm_matches i t' /\ tm_seconds t <= tm_seconds t').
Proof.
  intros Hi (Hv & Hh & Hmi & Hs) Hm Hhm Hmm. unfold scheduler_apply_second_filter. rewrite second_loop_search.
  eapply outcome_mono; [eapply (outcome_from i (2 + 0 + 0 + 0 + 0 + 0 + 0) 2 t t); [|lia]|].
  - apply level_search_spec with (P := fun t1 => date_valid t1 /\ day_matches i t1 /\ hour_matches i t1 /\
      minute_matches i t1 /\ 0 <= tm_hour t1 <= 23 /\ 0 <= tm_min t1 <= 59 /\ mcount t + 1 <= mcount t1);
      [apply Hi|lia|lia|lia|done|]. intros _.
    unfold second_carry. set (tA := set_sec (set_min t (tm_min t + 1)) 0).
    assert (HdA : mcount tA = mcount t + 1) by (change (hcount t * 60 + (tm_min t + 1) = mcount t + 1); unfold mcount; lia).
    eapply outcome_mono; [eapply (outcome_from i (2 + 0 + 0 + 0 + 0 + 0) _ tA); [apply apply_minute_spec|]|]; try done.
    + unfold tA. fields. lia.
    + intros t' (H1 & H2 & H3 & H4 & H5 & H6 & H7 & H8). split; [|by destruct H8 as [-> | [-> _]]].
      split_and!; [done|done|done|done|apply H5|apply H5|apply H6|apply H6|lia].
  - intros t' (t1 & w & -> & Hmat & Hw & Ht1). rewrite !tm_seconds_count. unfold tm_matches, tm_ok.
    change (mcount (set_sec t1 w)) with (mcount t1). fields.
    destruct Ht1 as [[-> Hle] | ((H1 & H2 & H3 & H4 & H5 & H6 & H7) & _ & Hlt)]; split_and!; done || lia.
Qed.

Lemma day_pre_of_ok (t : tm) : tm_ok t -> date_pre t /\ date_valid t.
Proof.
  intros ((Hy & Hm & Hd) & Hc). split; [|done]. unfold date_pre, tm_month_ok, tm_month_days. lia.
Qed.

Lemma apply_filters_spec (i : scheduler_interval) (t : tm) :
  filters_ok i -> tm_ok t ->
  outcome i 8 t (apply_filters i t) (fun t' => tm_ok t' /\ tm_matches i t' /\ tm_seconds t <= tm_seconds t').
Proof.
  intros Hi Hok. destruct (day_pre_of_ok t Hok) as [Hpre Hv]. destruct Hok as (_ & Hh & Hmi & Hs). unfold apply_filters.
  eapply (outcome_bind i (2 + 0) 6); [by apply apply_day_spec| |lia].
  intros t1 (V1 & D1 & _ & _ & R1). specialize (R1 Hv).
  assert (S1 : tm_seconds t <= tm_seconds t1 /\ 0 <= tm_hour t1 <= 23 /\ 0 <= tm_min t1 <= 59 /\ 0 <= tm_sec t1 <= 59).
  { rewrite !tm_seconds_count. unfold mcount, hcount. destruct R1 as [-> | (Hlt & E1 & E2 & E3)]; lia. }
  destruct S1 as (S1 & Hh1 & Hmi1 & Hs1). clear R1.
  eapply (outcome_bind i (2 + 0 + 0 + 0) 4); [apply apply_hour_spec; done || lia| |lia].
  intros t2 (V2 & D2 & H2 & Hh2 & _ & R2).
  assert (S2 : tm_seconds t1 <= tm_seconds t2 /\ 0 <= tm_min t2 <= 59 /\ 0 <= tm_sec t2 <= 59).
  { rewrite !tm_seconds_count. unfold mcount. destruct R2 as [-> | (E1 & E2 & Hlt)]; lia. }
  destruct S2 as (S2 & Hmi2 & Hs2). clear R2.
  eapply (outcome_bind i (2 + 0 + 0 + 0 + 0 + 0) 2); [apply apply_minute_spec; done || lia| |lia].
  intros t3 (V3 & D3 & H3 & M3 & Hh3 & Hmi3 & _ & R3).
  assert (S3 : tm_seconds t2 <= tm_seconds t3 /\ 0 <= tm_sec t3 <= 59).
  { rewrite !tm_seconds_count. destruct R3 as [-> | (E1 & Hlt)]; lia. }
  eapply outcome_mono; [apply apply_second_spec; try done|]; [split_and!; try done; apply Hh3 || apply Hmi3 || apply S3|].
  intros t' (H & Hm & Hle). split_and!; [done|apply Hm..|lia].
Qed.

Lemma tm_inc_month (t : tm) : tm_ok t -> month_index (scheduler_tm_inc t) <= month_index t + 1.
Proof.
  intros ((Hy & Hm & Hd) & _). unfold scheduler_tm_inc, next_day, month_index. cbn zeta.
  destruct (tm_sec t + 1 <? 60); [fields; lia|]. fields. destruct (tm_min t + 1 <? 60); [fields; lia|]. fields.
  destruct (tm_hour t + 1 <? 24); [fields; lia|]. fields. destruct (_ <=? _); [fields; lia|]. fields.
  destruct (Z.ltb_spec (tm_mon t + 1) 12); fields; lia.
Qed.

(** C25: from any valid local time, the search of a scheduling interval ends
    with a valid local time that is strictly later, whose hour, minute and
    second the filters accept, and whose day is a month day of a filter and a
    week day of a filter.  When week days with a step are combined with month
    days, however, the week day is only known to be within the bounds of a
    filter, since the code does not respect the step then (a bug, see
    wday_test_ignores_step); and the time is not always the next one the
    filters accept (nearest_not_least).  The only other outcome is the int
    overflow of zbx_utc_time; when month days and week days are not combined
    that cannot happen before the year 2037. *)
Theorem schedule_search_correct (i : scheduler_interval) (t : tm) :
  filters_ok i -> tm_ok t ->
  match apply_filters i (scheduler_tm_inc t) with
  | Ret t' => tm_ok t' /\ tm_matches i t' /\ tm_seconds t < tm_seconds t'
  | Undef => one_day_filter i -> 2037 <= tm_year t + 1900
  | _ => False
  end.
Proof.
  intros Hi Hok. destruct (tm_inc_ok t Hok) as [Hok' Hsec]. pose proof (tm_inc_month t Hok) as Hmon.
  pose proof (apply_filters_spec i _ Hi Hok') as Hs.
  destruct (apply_filters i (scheduler_tm_inc t)) as [t'| | |]; try done; cbn [outcome] in Hs.
  - destruct Hs as [(H1 & H2 & H3) _]. split_and!; [done|apply H2..|lia].
  - intros H1. specialize (Hs H1). destruct Hok as ((_ & Hm & _) & _). unfold month_index in *. lia.
Qed.

(** The last day of February at eight, from 28 February 2023 at nine. *)
Definition leap_day_at_eight : scheduler_interval :=
  mkSched [mkFilter 29 31 1] [] [mkFilter 8 8 1] [] [] FILTER_HOUR.

Lemma schedule_search_correct_witness :
  exists t', apply_filters leap_day_at_eight (scheduler_tm_inc (mkTm 123 1 28 9 0 0 2 58 0)) = Ret t' /\
    tm_matches leap_day_at_eight t' /\ tm_seconds (mkTm 123 1 28 9 0 0 2 58 0) < tm_seconds t' /\
    tm_mon t' = 2 /\ tm_mday t' = 29 /\ tm_hour t' = 8.
Proof.
  pose proof (schedule_search_correct leap_day_at_eight (mkTm 123 1 28 9 0 0 2 58 0)) as H.
  destruct (apply_filters leap_day_at_eight (scheduler_tm_inc (mkTm 123 1 28 9 0 0 2 58 0))) as [t'| | |] eqn:E;
    vm_compute in E; try discriminate. exists t'. split; [done|].
  destruct H as (_ & H2 & H3).
  - unfold filters_ok, leap_day_at_eight, filter_ok. cbn. split_and!; repeat constructor; vm_compute; (discriminate || intuition discriminate).
  - unfold tm_ok, valid_date. split_and!; vm_compute; discriminate.
  - split; [exact H2|]. split; [exact H3|]. injection E as <-. vm_compute. auto.
Defined.

(* ------------------------------------------------------------------ *)
(** ** The next check of an item *)

Lemma next_delay_later (localtime : Z -> tm) (flex : list flexible_interval) (now next : Z) :
  Forall (fun f => valid_period (period f)) flex -> tm_week_ok (localtime now) ->
  get_next_delay_interval localtime flex now = Some next -> now < next.
Proof.
  intros Hp Hw. destruct (tm_week_range _ Hw) as [Hday Htime]. unfold get_next_delay_interval.
  destruct flex as [|f0 flex0]; [discriminate|].
  destruct (next_delay_loop_least (f0 :: flex0) (tm_day (localtime now)) (tm_time (localtime now)) 0 Hp Hday Htime)
    as (H1 & _); [by left|by right|].
  set (r := next_delay_loop _ _ _ 0) in *. destruct (r =? 0); [discriminate|]. intros [= <-]. lia.
Qed.

Lemma next_delay_none (localtime : Z -> tm) (flex : list flexible_interval) (now : Z) :
  Forall (fun f => valid_period (period f)) flex -> tm_week_ok (localtime now) ->
  get_next_delay_interval localtime flex now = None -> flex = [].
Proof.
  intros Hp Hw. destruct (tm_week_range _ Hw) as [Hday Htime]. unfold get_next_delay_interval.
  destruct flex as [|f0 flex0]; [done|].
  destruct (next_delay_loop_least (f0 :: flex0) (tm_day (localtime now)) (tm_time (localtime now)) 0 Hp Hday Htime)
    as (H1 & H2 & H3 & H4); [by left|by right|].
  set (r := next_delay_loop _ _ _ 0) in *. destruct (Z.eqb_spec r 0); [|discriminate]. intros _. exfalso. lia.
Qed.

(** A period of the week at a local time. *)
Definition period_on (p : time_period) (t : tm) : Prop :=
  start_day p <= tm_day t <= end_day p /\ start_time p <= tm_time t < end_time p.

Lemma check_period_spec (p : time_period) (t : tm) : check_time_period p t = true <-> period_on p t.
Proof. unfold check_time_period, period_on. rewrite !andb_true_iff, !Z.leb_le, Z.ltb_lt. lia. Qed.

(** The delay in force at a moment: the least one of the flexible intervals
    whose period it is, the simple one when there is none. *)
Definition delay_at (localtime : Z -> tm) (simple : Z) (flex : list flexible_interval) (t d : Z) : Prop :=
  (exists f, f ∈ flex /\ period_on (period f) (localtime t) /\ delay f = d /\
     forall g, g ∈ flex -> period_on (period g) (localtime t) -> d <= delay g) \/
  (d = simple /\ forall g, g ∈ flex -> ~ period_on (period g) (localtime t)).

(** The loop keeps the least delay of the periods it has seen; -1 is none. *)
Lemma current_delay_spec (flex : list flexible_interval) (t : tm) (c : Z) :
  Forall (fun f => 0 <= delay f) flex -> -1 <= c ->
  let d := current_delay_loop flex t c in
  -1 <= d /\ (d = c \/ exists f, f ∈ flex /\ period_on (period f) t /\ delay f = d) /\
  (c <> -1 -> d <> -1 /\ d <= c) /\
  forall g, g ∈ flex -> period_on (period g) t -> d <> -1 /\ d <= delay g.
Proof.
  intros Hp. revert c. induction Hp as [|f flex Hf _ IH]; intros c Hc; cbn [current_delay_loop].
  { split_and!; [done|by left|done|by intros g ?%elem_of_nil]. }
  set (c' := if _ && _ then _ else _).
  assert (H : c' = c /\ (period_on (period f) t -> c <> -1 /\ c <= delay f) \/
    c' = delay f /\ period_on (period f) t /\ (c = -1 \/ delay f < c)).
  { unfold c'. destruct (check_time_period (period f) t) eqn:E; [apply check_period_spec in E|].
    - destruct (Z.eqb_spec c (-1)), (Z.ltb_spec (delay f) c); cbn [orb andb]; [right..|left]; split_and!; auto; lia.
    - rewrite andb_false_r. left. split; [done|]. intros H%check_period_spec. congruence. }
  destruct (IH c' ltac:(lia)) as (H1 & H2 & H3 & H4). split_and!; [done| | |].
  - destruct H2 as [-> | (g & Hg & Hd)]; [|right; exists g; split; [by right|done]].
    destruct H as [[-> _] | (-> & Hf' & _)]; [by left|]. right. exists f. split; [by left|done].
  - intros Hn. destruct H as [[-> _] | (-> & _ & Hl)]; [auto|]. destruct (H3 ltac:(lia)). lia.
  - intros g [-> | Hg]%elem_of_cons Hon; [|by apply H4].
    destruct H as [[E Hl] | (E & _ & _)].
    + destruct (Hl Hon). destruct (H3 ltac:(lia)). lia.
    + destruct (H3 ltac:(lia)). lia.
Qed.

Lemma current_delay_at (localtime : Z -> tm) (simple : Z) (flex : list flexible_interval) (t : Z) :
  Forall (fun f => 0 <= delay f) flex ->
  delay_at localtime simple flex t (get_current_delay localtime simple flex t).
Proof.
  intros Hp. destruct (current_delay_spec flex (localtime t) (-1) Hp ltac:(lia)) as (H1 & H2 & _ & H4).
  unfold get_current_delay. set (d := current_delay_loop flex (localtime t) (-1)) in *.
  destruct (Z.eqb_spec d (-1)) as [E | E].
  - right. split; [done|]. intros g Hg Hon. by destruct (H4 g Hg Hon).
  - left. destruct H2 as [? | (f & Hf & Hon & Ed)]; [done|]. exists f. split_and!; [done..|]. intros g Hg Hon'.
    by destruct (H4 g Hg Hon').
Qed.

(** Only one delay is in force. *)
Lemma delay_at_unique (localtime : Z -> tm) (simple : Z) (flex : list flexible_interval) (t d d' : Z) :
  delay_at localtime simple flex t d -> delay_at localtime simple flex t d' -> d = d'.
Proof.
  intros [(f & Hf & Hon & <- & Hl) | [-> Hn]] [(g & Hg & Hon' & <- & Hl') | [-> Hn']]; [|by destruct (Hn' f)|by destruct (Hn g)|done].
  specialize (Hl g Hg Hon'). specialize (Hl' f Hf Hon). lia.
Qed.

Lemma delay_at_same (localtime : Z -> tm) (simple : Z) (flex : list flexible_interval) (t t' d : Z) :
  (forall f, f ∈ flex -> period_on (period f) (localtime t') <-> period_on (period f) (localtime t)) ->
  delay_at localtime simple flex t d -> delay_at localtime simple flex t' d.
Proof.
  intros He [(f & Hf & Hon & <- & Hl) | [-> Hn]].
  - left. exists f. split_and!; [done|by apply He|done|]. intros g Hg Hon'. apply Hl; [done|by apply He].
  - right. split; [done|]. intros g Hg Hon. apply (Hn g Hg). by apply He.
Qed.

(** The local clock goes on without a change from [from] to [until]. *)
Definition steady (localtime : Z -> tm) (from until : Z) : Prop :=
  forall t s, from <= t -> 0 <= s -> t + s < until ->
    tm_day (localtime (t + s)) = later_day (tm_day (localtime t)) (tm_time (localtime t)) s /\
    tm_time (localtime (t + s)) = later_time (tm_time (localtime t)) s.

(** The delay stays in force until the next change. *)
Lemma delay_at_until (localtime : Z -> tm) (simple : Z) (flex : list flexible_interval) (from until t next m d : Z) :
  Forall (fun f => valid_period (period f)) flex -> tm_week_ok (localtime t) -> steady localtime from until ->
  get_next_delay_interval localtime flex t = Some next -> from <= t <= m -> m < next -> m < until ->
  delay_at localtime simple flex t d -> delay_at localtime simple flex m d.
Proof.
  intros Hp Hw Hst Hn Ht Hm Hu. apply delay_at_same. intros f Hf.
  destruct (next_delay_spec localtime flex t next Hp Hw Hn) as (_ & _ & Hs). specialize (Hs f (m - t) Hf ltac:(lia)). cbn zeta in Hs.
  destruct (Hst t (m - t)) as [Ed Et]; [lia..|]. replace (t + (m - t)) with m in Ed, Et by lia.
  rewrite <- !check_period_spec. rewrite <- Hs, <- Ed, <- Et. done.
Qed.

(** The check times of a delay: those of the seed's phase. *)
Definition delay_time (seed d n : Z) : Prop := 0 < d /\ n mod d = seed mod d.

(** Times of one phase are a delay apart. *)
Lemma phase_gap (seed d n m : Z) : 0 < d -> n mod d = seed mod d -> m mod d = seed mod d -> m < n -> m <= n - d.
Proof.
  intros Hd En Em Hlt. pose proof (Z.div_mod n d ltac:(lia)). pose proof (Z.div_mod m d ltac:(lia)).
  assert (m / d < n / d) by nia. nia.
Qed.

Lemma delay_nextcheck_spec (seed d t attempt : Z) :
  0 <= seed -> 0 <= t -> 0 <= d -> t + d < 2 ^ 31 ->
  exists n, delay_nextcheck seed d t attempt = Ret n /\
    (d = 0 /\ n = ZBX_JAN_2038 \/
     d <> 0 /\ delay_time seed d n /\ n <= t + d /\ (if attempt =? 0 then t < n else t <= n) /\
     (forall m, (if attempt =? 0 then t < m else t <= m) -> m < n -> m mod d <> seed mod d)).
Proof.
  intros Hseed Ht Hd Hlt. unfold delay_nextcheck. destruct (Z.eqb_spec d 0) as [|Hd0]; cbn [negb].
  { exists ZBX_JAN_2038. auto. }
  rewrite Z.quot_div_nonneg, Z.rem_mod_nonneg by lia.
  pose proof (Z.mod_pos_bound seed d ltac:(lia)). pose proof (Z.mod_pos_bound t d ltac:(lia)).
  pose proof (Z.div_mod t d ltac:(lia)) as Hdm.
  assert (0 <= d * (t / d)) by (pose proof (Z.div_pos t d); nia).
  rewrite c_int_small by lia. run.
  assert (Hm : forall k, delay_time seed d (d * (t / d) + seed mod d + k * d)).
  { intros k. split; [lia|]. rewrite Z.mod_add by lia. rewrite Z.add_comm, Z.mul_comm, Z.mod_add by lia.
    apply Z.mod_mod. lia. }
  pose proof (Hm 0) as Hm0. pose proof (Hm 1) as Hm1. rewrite Z.mul_0_l, Z.add_0_r in Hm0. rewrite Z.mul_1_l in Hm1.
  clear Hm. set (n := d * (t / d) + seed mod d) in *.
  assert (Hdone : forall m fuel, (if attempt =? 0 then t < m else t <= m) ->
    catch_up fuel (attempt =? 0) m t d = Ret m).
  { intros m [|fuel] Hb; cbn [catch_up]; destruct (attempt =? 0);
      [destruct (Z.leb_spec m t)|destruct (Z.ltb_spec m t)|destruct (Z.leb_spec m t)|destruct (Z.ltb_spec m t)]; done || lia. }
  assert (Hcase : (if attempt =? 0 then t < n else t <= n) \/ ~ (if attempt =? 0 then t < n else t <= n))
    by (destruct (attempt =? 0); lia).
  destruct Hcase as [Hb | Hb].
  - exists n. rewrite Hdone by done. split; [done|right]. split_and!; try done; [lia|]. intros m Hbm Hmn E.
    pose proof (phase_gap seed d n m ltac:(lia) (proj2 Hm0) E Hmn). destruct (attempt =? 0); lia.
  - exists (n + d). split; cycle 1.
    { right. split_and!; try done; [destruct (attempt =? 0); lia..|]. intros m Hbm Hmn E.
      pose proof (phase_gap seed d (n + d) m ltac:(lia) (proj2 Hm1) E Hmn). destruct (attempt =? 0); lia. }
    cbn [catch_up]. replace (if attempt =? 0 then n <=? t else n <? t) with true
      by (destruct (attempt =? 0); symmetry; [apply Z.leb_le|apply Z.ltb_lt]; lia).
    rewrite c_int_small by (destruct (attempt =? 0); lia). run.
    apply (Hdone (n + d) 1%nat). destruct (attempt =? 0); lia.
Qed.

Definition ci_flexible (ci : option custom_interval) : list flexible_interval :=
  match ci with Some ci => flexible ci | None => [] end.

Section ItemLoop.
Context (localtime : Z -> tm) (seed simple now : Z) (ci : option custom_interval).
Notation flex := (ci_flexible ci).
Notation horizon := (now + SEC_PER_YEAR + 8 * SEC_PER_DAY).

(** A moment the item is due: of the phase of its seed for the delay that is
    in force then; a delay of zero means that it is not checked. *)
Definition due (t : Z) : Prop := exists d, delay_at localtime simple flex t d /\ d <> 0 /\ t mod d = seed mod d.

(** The next moment the item is due, or a moment past the year that is searched. *)
Definition next_due (n : Z) : Prop :=
  (forall m, now < m < n -> m < now + SEC_PER_YEAR -> ~ due m) /\ (due n \/ now + SEC_PER_YEAR <= n).

Hypothesis Hweek : forall t, tm_week_ok (localtime t).
Hypothesis Hnow : 0 <= now /\ horizon <= ZBX_JAN_2038.
Hypothesis Hseed : 0 <= seed.
Hypothesis Hsimple : 0 <= simple <= SEC_PER_DAY.
Hypothesis Hflex : Forall (fun f => valid_period (period f) /\ 0 <= delay f <= SEC_PER_DAY) flex.

Definition item_delay (t : Z) : Z :=
  match ci with Some ci => get_current_delay localtime simple (flexible ci) t | None => simple end.

Lemma item_delay_at (t : Z) : delay_at localtime simple flex t (item_delay t) /\ 0 <= item_delay t <= SEC_PER_DAY.
Proof using Hsimple Hflex.
  assert (H : delay_at localtime simple flex t (item_delay t)).
  { unfold item_delay, ci_flexible in *. destruct ci as [c|].
    - apply current_delay_at. eapply Forall_impl; [exact Hflex|]. by intros f [_ [? _]].
    - right. split; [done|]. by intros g ?%elem_of_nil. }
  split; [done|]. destruct H as [(f & Hf & _ & <- & _) | [-> _]]; [|done]. rewrite Forall_forall in Hflex. by apply Hflex.
Qed.

(** What a round starts from: nothing was due so far. *)
Definition round_inv (s : Z * Z * Z) : Prop :=
  let '(t, attempt, nextcheck) := s in
  (t = now /\ attempt = 0) \/
  (now < t /\ 0 < attempt /\ t <= nextcheck /\ (steady localtime now horizon -> forall m, now < m < t -> ~ due m)).

(** No other delay takes effect after [t] until [m]. *)
Definition before_change (t m : Z) : Prop :=
  match ci with
  | Some ci => forall next, get_next_delay_interval localtime (flexible ci) t = Some next -> m < next
  | None => True
  end.

(** The delay found at a time stays in force until the next change. *)
Lemma item_delay_until (t m : Z) :
  steady localtime now horizon -> now <= t <= m -> m < horizon ->
  before_change t m -> delay_at localtime simple flex m (item_delay t).
Proof using Hweek Hsimple Hflex.
  intros Hst Ht Hm Hnext. unfold before_change in Hnext. destruct (item_delay_at t) as [Hat _]. unfold ci_flexible in *. destruct ci as [c|].
  - destruct (get_next_delay_interval localtime (flexible c) t) as [next|] eqn:En.
    + eapply delay_at_until; [|apply Hweek|exact Hst|exact En|exact Ht|by apply Hnext|done|done].
      eapply Forall_impl; [exact Hflex|]. by intros f [? _].
    + assert (Hp : Forall (fun f => valid_period (period f)) (flexible c))
        by (eapply Forall_impl; [exact Hflex|]; by intros f [? _]).
      rewrite (next_delay_none localtime _ t Hp (Hweek t) En) in *. eapply delay_at_same; [|exact Hat].
      by intros f ?%elem_of_nil.
  - eapply delay_at_same; [|exact Hat]. by intros f ?%elem_of_nil.
Qed.

(** The candidate of a round: the first due moment while its delay is in force. *)
Lemma candidate_first (t attempt nc n : Z) :
  round_inv (t, attempt, nc) -> steady localtime now horizon ->
  (item_delay t = 0 \/ item_delay t <> 0 /\
    forall m, (if attempt =? 0 then t < m else t <= m) -> m < n -> m mod item_delay t <> seed mod item_delay t) ->
  forall m, now < m < n -> m < horizon -> (t <= m -> before_change t m) -> ~ due m.
Proof using Hweek Hsimple Hflex.
  intros Hinv Hst Hn m Hm Hu Hbefore. destruct (Z.lt_ge_cases m t) as [Hlt | Hge].
  { destruct Hinv as [[-> _] | (_ & _ & _ & H)]; [lia|]. apply H; [done|lia]. }
  assert (Ht : now <= t) by (destruct Hinv as [[-> _] | (? & _)]; lia).
  intros (d & Hd & Hd0 & Ed). pose proof (item_delay_until t m Hst ltac:(lia) Hu (Hbefore Hge)) as Hat.
  rewrite (delay_at_unique _ _ _ _ _ _ Hat Hd) in Hn. destruct Hn as [|[_ Hn]]; [done|]. apply (Hn m); [|lia|done].
  destruct Hinv as [[-> ->] | (_ & Ha & _)]; [cbn; lia|]. destruct (Z.eqb_spec attempt 0); lia.
Qed.

Lemma candidate_due (t n : Z) :
  steady localtime now horizon -> now <= t <= n -> n < horizon -> before_change t n ->
  item_delay t <> 0 -> delay_time seed (item_delay t) n -> due n.
Proof using Hweek Hsimple Hflex.
  intros Hst Ht Hu Hb Hd [_ E]. exists (item_delay t). split; [by apply item_delay_until|done].
Qed.

Lemma item_round_spec (s : Z * Z * Z) :
  round_inv s ->
  (exists s', item_round localtime seed simple ci (now + SEC_PER_YEAR) s = Ret (inl s') /\ round_inv s' /\
     0 <= Z.max 0 (now + SEC_PER_YEAR - s'.1.1) < Z.max 0 (now + SEC_PER_YEAR - s.1.1)) \/
  (exists n, item_round localtime seed simple ci (now + SEC_PER_YEAR) s = Ret (inr n) /\
     now < n /\ (steady localtime now horizon -> next_due n)).
Proof using Hweek Hnow Hseed Hsimple Hflex.
  destruct s as [[t attempt] nc]. intros Hinv. cbn [fst snd]. unfold item_round.
  assert (Hyear : SEC_PER_YEAR = 31536000 /\ SEC_PER_DAY = 86400) by done. unfold ZBX_JAN_2038 in *.
  assert (Ht : now <= t) by (destruct Hinv as [[-> _] | (? & _)]; lia).
  destruct (Z.ltb_spec t (now + SEC_PER_YEAR)) as [Hlt | Hge]; cbn [negb]; cycle 1.
  { right. exists nc. split; [done|]. destruct Hinv as [[-> _] | (_ & _ & Hn & Hdue)]; [lia|]. split; [lia|].
    intros Hst. split; [|right; lia]. intros m Hm Hy. apply Hdue; [done|lia]. }
  change (match ci with Some ci => get_current_delay localtime simple (flexible ci) t | None => simple end) with (item_delay t).
  destruct (item_delay_at t) as [_ Hr].
  destruct (delay_nextcheck_spec seed (item_delay t) t attempt Hseed ltac:(lia) ltac:(lia) ltac:(lia)) as (n & -> & Hn). run.
  assert (Hlate : now < n /\ t <= n).
  { destruct Hn as [[_ ->] | (_ & _ & _ & Hb & _)]; [unfold ZBX_JAN_2038; lia|].
    destruct Hinv as [[-> ->] | (? & ? & _)]; [cbn in Hb; lia|]. destruct (Z.eqb_spec attempt 0); lia. }
  assert (Hfirst : steady localtime now horizon -> forall m, now < m < n -> m < horizon ->
    (t <= m -> before_change t m) -> ~ due m).
  { intros Hst. eapply candidate_first; [exact Hinv|done|]. destruct Hn as [[? _] | (? & _ & _ & _ & ?)]; auto. }
  (* the last round: the candidate comes before the next change *)
  assert (Hend : (forall m, t <= m <= n -> before_change t m) -> now < n /\ (steady localtime now horizon -> next_due n)).
  { intros Hb. split; [lia|]. intros Hst. split.
    - intros m Hm Hy. apply Hfirst; [done..|lia|]. intros ?. apply Hb. lia.
    - destruct (Z.le_gt_cases (now + SEC_PER_YEAR) n) as [|Hn']; [by right|left].
      destruct Hn as [[_ ->] | (Hd0 & Hdt & _)]; [unfold ZBX_JAN_2038 in *; lia|].
      apply (candidate_due t n); [done|lia|lia|apply Hb; lia|done|done]. }
  unfold before_change, round_inv in *. destruct ci as [c|]; [|right; exists n; split; [done|]; by apply Hend].
  destruct (get_next_delay_interval localtime (flexible c) t) as [next|] eqn:En;
    [|right; exists n; split; [done|]; by apply Hend].
  destruct (next_delay_spec localtime (flexible c) t next) as (Hlater & Hsoon & _);
    [eapply Forall_impl; [exact Hflex|]; by intros f [? _]|apply Hweek|exact En|].
  destruct (Z.leb_spec next n); [left|right; exists n; split; [done|]; apply Hend; intros m Hm next' [= <-]; lia].
  eexists. split; [done|]. cbn [fst snd]. split; [|lia]. right. split_and!; [lia| |lia|].
  { destruct Hinv as [[-> ->] | (_ & ? & _)]; lia. }
  intros Hst m Hm. apply Hfirst; [done|lia|lia|]. intros _ next' [= <-]. lia.
Qed.
End ItemLoop.

(** C37: the next check of an item that the server polls.  Suppose [now] lies at
    least a year and eight days before 2038, the delays are from 0 (no checks) to
    a day, the periods are valid, and the search of the scheduling intervals
    returns [sched] (0 when there are none).  Then the loop over the delays of a
    year ends with a time later than [now], and the result is that time, or
    [sched] when it is earlier.  When the local clock moreover goes on without a
    change of its offset for that year and eight days, the time found is exactly the
    next one at which the item is due: a time of the phase of its seed for the
    delay in force at that very time, which is the least delay of the flexible
    intervals whose period it is, and the simple delay when there is none; or, when
    the item is not due within the year, a time after that year. *)
Theorem item_nextcheck_correct (mktime : tm -> option (Z * tm)) (localtime : Z -> tm)
    (time_dst time_dst' sched seed item_type simple now : Z) (ci : option custom_interval) :
  item_type <> ITEM_TYPE_ZABBIX_ACTIVE -> (forall t, tm_week_ok (localtime t)) ->
  0 <= now /\ now + SEC_PER_YEAR + 8 * SEC_PER_DAY <= ZBX_JAN_2038 -> 0 <= seed -> 0 <= simple <= SEC_PER_DAY ->
  Forall (fun f => valid_period (period f) /\ 0 <= delay f <= SEC_PER_DAY) (ci_flexible ci) ->
  match ci with
  | Some ci => scheduler_get_nextcheck mktime localtime time_dst (scheduling ci) now
  | None => Ret (0, time_dst)
  end = Ret (sched, time_dst') ->
  exists n,
    zbx_calculate_item_nextcheck mktime localtime time_dst seed item_type simple ci now =
      Ret (if negb (sched =? 0) && (sched <? n) then sched else n, time_dst') /\
    now < n /\
    (steady localtime now (now + SEC_PER_YEAR + 8 * SEC_PER_DAY) -> next_due localtime seed simple now ci n).
Proof.
  intros Hty Hweek Hnow Hseed Hsimple Hflex Hsch. unfold zbx_calculate_item_nextcheck.
  destruct (Z.eqb_spec item_type ITEM_TYPE_ZABBIX_ACTIVE) as [|_]; [done|]. rewrite Hsch. run.
  destruct (while_spec (item_round localtime seed simple ci (now + SEC_PER_YEAR)) (round_inv localtime seed simple now ci)
    (fun n => now < n /\ (steady localtime now (now + SEC_PER_YEAR + 8 * SEC_PER_DAY) -> next_due localtime seed simple now ci n))
    (fun s => Z.max 0 (now + SEC_PER_YEAR - s.1.1)) 25 (now, 0, 0)) as (n & -> & Hn);
    [by apply item_round_spec|by left|cbn [fst]; change SEC_PER_YEAR with 31536000; lia|]. run. by exists n.
Qed.

(** A clock of UTC, as far as the periods of the week go. *)
Definition utc_clock (t : Z) : tm :=
  mkTm 70 0 1 (t mod SEC_PER_DAY / SEC_PER_HOUR) (t mod SEC_PER_HOUR / SEC_PER_MIN) (t mod SEC_PER_MIN)
    ((t / SEC_PER_DAY + 4) mod 7) 0 0.

Lemma utc_clock_week (t : Z) : tm_week_ok (utc_clock t).
Proof. unfold tm_week_ok, utc_clock, SEC_PER_DAY, SEC_PER_HOUR, SEC_PER_MIN. cbn [tm_wday tm_hour tm_min tm_sec]. zlia. Qed.

Lemma utc_clock_steady (from until : Z) : steady utc_clock from until.
Proof.
  assert (Ht : forall t, tm_time (utc_clock t) = t mod SEC_PER_DAY).
  { intros t. unfold tm_time, utc_clock, SEC_PER_DAY, SEC_PER_HOUR, SEC_PER_MIN. cbn [tm_hour tm_min tm_sec]. zlia. }
  assert (Hd : forall t, tm_day (utc_clock t) = (t / SEC_PER_DAY + 3) mod 7 + 1).
  { intros t. unfold tm_day, utc_clock, SEC_PER_DAY. cbn [tm_wday]. destruct (Z.eqb_spec ((t / 86400 + 4) mod 7) 0); zlia. }
  intros t s _ _ _. rewrite !Ht, !Hd. unfold later_day, later_time, SEC_PER_DAY. split; zlia.
Qed.

(** Monday, ten seconds before six in the evening: of the working hours, each 50
    seconds, the next check is Tuesday's first one after nine. *)
Lemma item_nextcheck_correct_witness :
  exists n, zbx_calculate_item_nextcheck (fun _ => None) utc_clock 0 7 ITEM_TYPE_ZABBIX 0
      (Some (mkCustom [mkFlex (mkPeriod 1 5 32400 64800) 50] [])) 1015190 = Ret (n, 0) /\
    next_due utc_clock 7 0 1015190 (Some (mkCustom [mkFlex (mkPeriod 1 5 32400 64800) 50] [])) n /\
    n = 1069207.
Proof.
  destruct (item_nextcheck_correct (fun _ => None) utc_clock 0 0 0 7 ITEM_TYPE_ZABBIX 0 1015190
    (Some (mkCustom [mkFlex (mkPeriod 1 5 32400 64800) 50] []))) as (n & E & _ & Hn).
  - discriminate.
  - apply utc_clock_week.
  - split; vm_compute; congruence.
  - lia.
  - unfold SEC_PER_DAY. lia.
  - cbn. repeat constructor; vm_compute; (reflexivity || discriminate).
  - reflexivity.
  - exists n. split; [exact E|]. split; [apply Hn, utc_clock_steady|]. vm_compute in E. congruence.
Defined.
