(* ===== verification/Base64.v ===== *)
(** Base64 (src/src/libs/zbxcrypto/base64.c): validation, the encoder with its
    output limit, the block-wise encoder into an allocated buffer, the decoder.
    A char is the byte it holds; a text is the list of its bytes before the
    NUL, and [chr] reads the NUL at its end. *)

From stdpp Require Import base list numbers strings.
From Stdlib Require Import ZArith Lia.
From S2P Require Import Prelude.

Open Scope Z_scope.

Definition ZBX_MAX_B64_LEN : Z := 16 * 1024.

Definition is_valid_base64_char (c : Z) : bool :=
  ((65 <=? c) && (c <=? 90)) || ((97 <=? c) && (c <=? 122)) || ((47 <=? c) && (c <=? 57)) || (c =? 43).

(** [p_str[i]]; reading past the NUL is undefined. *)
Definition rd (s : list Z) (i : Z) : res Z :=
  if (0 <=? i) && (i <=? Z.of_nat (length s)) then Ret (chr s (Z.to_nat i)) else Undef.

(** The body of the loop at an index that is a multiple of four: [None] goes on. *)
Definition validate_block (s : list Z) (i : Z) : res (option bool) :=
  a ← rd s (i - 4); b ← rd s (i - 3); c ← rd s (i - 2); d ← rd s (i - 1); e ← rd s i;
  let v := is_valid_base64_char in
  if v a && v b && v c && v d then Ret (if e =? 0 then Some true else None)
  else if e =? 0 then
    Ret (Some (if v a && v b && (c =? 61) && (d =? 61) then true
               else if v a && v b && v c && (d =? 61) then true
               else v a && v b && v c && v d))
  else Ret (Some false).

Fixpoint validate_loop (fuel : nat) (s : list Z) (i : Z) : res bool :=
  match fuel with
  | O => NoFuel
  | S fuel =>
      e ← rd s i;
      if negb (negb (e =? 0) || (Z.rem i 4 =? 0)) then Ret false else
      if negb (Z.rem i 4 =? 0) then validate_loop fuel s (i + 1) else
      r ← validate_block s i;
      match r with
      | Some b => Ret b
      | None => validate_loop fuel s (i + 1)
      end
  end.

Definition zbx_base64_validate (s : list Z) : res bool :=
  if chr s 0 =? 0 then Ret true else validate_loop (S (length s)) s 1.

Definition is_base64 (c : Z) : bool :=
  ((65 <=? c) && (c <=? 90)) || ((97 <=? c) && (c <=? 122)) || ((48 <=? c) && (c <=? 57)) ||
  (c =? 43) || (c =? 47) || (c =? 61).

Definition base64_set : list Z :=
  bytes_of "ABCDEFGHIJKLMNOPQRSTUVWXYZabcdefghijklmnopqrstuvwxyz0123456789+/".

Definition char_base64_encode (uc : Z) : Z := nth (Z.to_nat uc) base64_set 0.

Definition char_base64_decode (c : Z) : Z :=
  if (65 <=? c) && (c <=? 90) then c - 65 else
  if (97 <=? c) && (c <=? 122) then c - 97 + 26 else
  if (48 <=? c) && (c <=? 57) then c - 48 + 52 else
  if c =? 43 then 62 else 63.

(** The four characters of one round; [more1], [more2] tell whether bytes
    [i+1] and [i+2] are in the input. *)
Definition encode_group (from1 from2 from3 : Z) (more1 more2 : bool) : list Z :=
  let to1 := Z.land (Z.shiftr from1 2) 63 in
  let to2 := Z.lor (Z.shiftl (Z.land from1 3) 4) (Z.shiftr from2 4) in
  let to3 := Z.lor (Z.shiftl (Z.land from2 15) 2) (Z.shiftr from3 6) in
  let to4 := Z.land from3 63 in
  [char_base64_encode to1; char_base64_encode to2;
   if more1 then char_base64_encode to3 else 61;
   if more2 then char_base64_encode to4 else 61].

(** [written] is p - p_b64str. *)
Fixpoint encode_loop (s : list Z) (written : Z) : list Z :=
  let group a b c m1 m2 rest :=
    if ZBX_MAX_B64_LEN - 5 <? written then [] else encode_group a b c m1 m2 ++ rest in
  match s with
  | [] => []
  | [a] => group a 0 0 false false []
  | [a; b] => group a b 0 true false []
  | a :: b :: c :: s => group a b c true true (encode_loop s (written + 4))
  end.

(** The bytes stored at [p_b64str], the NUL included; none for no input. *)
Definition zbx_base64_encode (s : list Z) : list Z :=
  match s with
  | [] => []
  | _ => encode_loop s 0 ++ [0]
  end.

(** memory of the output buffer; [None] is an unset byte. *)
Definition write_bytes (buf : list (option Z)) (off : Z) (l : list Z) : res (list (option Z)) :=
  if (0 <=? off) && (off + Z.of_nat (length l) <=? Z.of_nat (length buf)) then
    let o := Z.to_nat off in Ret (take o buf ++ map Some l ++ drop (o + length l) buf)
  else Undef.

Definition c_per_block : Z := Z.quot (ZBX_MAX_B64_LEN - 1) 4 * 3.
Definition b_per_block : Z := Z.quot c_per_block 3 * 4.

(** The loop over the full blocks, then the rest: [s] is the input from [pc] on. *)
Fixpoint encode_blocks (full_block_num : nat) (s : list Z) (pc_r : Z) (buf : list (option Z))
  : res (list Z * Z * list (option Z)) :=
  match full_block_num with
  | O => Ret (s, pc_r, buf)
  | S full_block_num =>
      buf ← write_bytes buf pc_r (zbx_base64_encode (take (Z.to_nat c_per_block) s));
      encode_blocks full_block_num (drop (Z.to_nat c_per_block) s) (pc_r + b_per_block) buf
  end.

Definition zbx_base64_encode_dyn (s : list Z) : res (list (option Z)) :=
  let in_size := Z.of_nat (length s) in
  size ← c_int (in_size + 2); size ← c_int (Z.quot size 3 * 4); size ← c_int (size + 1);
  let full_block_num := Z.quot in_size c_per_block in
  let bytes_left := Z.rem in_size c_per_block in
  let bytes_for_left := Z.quot (bytes_left + 2) 3 * 4 in
  '(pc, pc_r, buf) ← encode_blocks (Z.to_nat full_block_num) s 0 (replicate (Z.to_nat size) None);
  '(pc_r, buf) ←
    (if negb (bytes_left =? 0) then
       buf ← write_bytes buf pc_r (zbx_base64_encode (take (Z.to_nat bytes_left) pc));
       Ret (pc_r + bytes_for_left, buf)
     else Ret (pc_r, buf));
  write_bytes buf pc_r [0].

(** One decoded block: the bytes appended to [out]; [true] when the output is full. *)
Definition decode_block (from : list Z) (lasti : Z) (maxsize : Z) (out : list Z) : list Z * bool :=
  let f j := nth j from 0 in
  let to j := char_base64_decode (f j) in
  let put (cond : bool) (byte : Z) (r : list Z * bool) : list Z * bool :=
    if r.2 then r else if cond then
      let out := r.1 ++ [u8 byte] in (out, Z.of_nat (length out) =? maxsize)
    else r in
  put ((3 =? lasti) && negb (f 3%nat =? 61)) (Z.lor (Z.shiftl (Z.land (to 2%nat) 3) 6) (to 3%nat))
    (put ((2 <=? lasti) && negb (f 2%nat =? 61)) (Z.lor (Z.shiftl (Z.land (to 1%nat) 15) 4) (Z.shiftr (to 2%nat) 2))
      (put (1 <=? lasti) (Z.lor (Z.shiftl (to 0%nat) 2) (Z.shiftr (to 1%nat) 4)) (out, false))).

Fixpoint decode_loop (s : list Z) (from : list Z) (i : nat) (lasti : Z) (maxsize : Z) (out : list Z) : list Z :=
  match s with
  | c :: s =>
      if negb (is_base64 c) then decode_loop s from i lasti maxsize out else
      let from := <[i := c]> from in
      let lasti := Z.of_nat i in
      if (i <? 3)%nat then decode_loop s from (S i) lasti maxsize out else
      let r := decode_block from lasti maxsize out in
      if r.2 then r.1 else decode_loop s from 0 (-1) maxsize r.1
  | [] =>
      let from := take (Z.to_nat (lasti + 1)) from ++ replicate (4 - Z.to_nat (lasti + 1)) 65 in
      if negb (lasti =? -1) then (decode_block from lasti maxsize out).1 else out
  end.

(** [maxsize] is positive; the result is the contents of [p_str]. *)
Definition zbx_base64_decode (s : list Z) (maxsize : Z) : list Z :=
  decode_loop s (replicate 4 0) 0 (-1) maxsize [].

Example decode_hello :
  zbx_base64_decode (bytes_of "aGVs bG8=") 100 = bytes_of "hello" /\
  encode_loop (bytes_of "hello") 0 = bytes_of "aGVsbG8=".
Proof. split; reflexivity. Qed.

(* ------------------------------------------------------------------ *)
(** ** RFC 4648 *)

(** Digit [k] (from the left) of the 24-bit group. *)
Definition b64_digit (n k : Z) : Z := n / 64 ^ (3 - k) mod 64.
Definition b64_char (n k : Z) : Z := char_base64_encode (b64_digit n k).
Definition group24 (a b c : Z) : Z := a * 65536 + b * 256 + c.

(** The encoding by groups of 24 bits, with padding. *)
Fixpoint b64 (s : list Z) : list Z :=
  match s with
  | [] => []
  | [a] => let n := group24 a 0 0 in [b64_char n 0; b64_char n 1; 61; 61]
  | [a; b] => let n := group24 a b 0 in [b64_char n 0; b64_char n 1; b64_char n 2; 61]
  | a :: b :: c :: s => let n := group24 a b c in b64_char n 0 :: b64_char n 1 :: b64_char n 2 :: b64_char n 3 :: b64 s
  end.

Lemma bytes3_ind (P : list Z -> Prop) :
  P [] -> (forall a, P [a]) -> (forall a b, P [a; b]) -> (forall a b c s, P s -> P (a :: b :: c :: s)) -> forall s, P s.
Proof.
  intros H0 H1 H2 H3 s. assert (Hs : P s /\ (forall a, P (a :: s)) /\ (forall a b, P (a :: b :: s))); [|tauto].
  induction s as [|x s (IH0 & IH1 & IH2)]; [auto|]. split_and!; auto.
Qed.

Lemma digit_values (a b c : Z) :
  is_u8 a -> is_u8 b -> is_u8 c -> let n := group24 a b c in
  b64_digit n 0 = a / 4 /\ b64_digit n 1 = a mod 4 * 16 + b / 16 /\
  b64_digit n 2 = b mod 16 * 4 + c / 64 /\ b64_digit n 3 = c mod 64.
Proof.
  unfold is_u8, b64_digit, group24. intros Ha Hb Hc. cbn zeta.
  change (64 ^ (3 - 0)) with 262144. change (64 ^ (3 - 1)) with 4096. change (64 ^ (3 - 2)) with 64. change (64 ^ (3 - 3)) with 1.
  split_and!; zlia.
Qed.

Lemma encode_group_digits (a b c : Z) (m1 m2 : bool) :
  is_u8 a -> is_u8 b -> is_u8 c -> let n := group24 a b c in
  encode_group a b c m1 m2 =
    [b64_char n 0; b64_char n 1; if m1 then b64_char n 2 else 61; if m2 then b64_char n 3 else 61].
Proof.
  intros Ha Hb Hc. cbn zeta. destruct (digit_values a b c Ha Hb Hc) as (E0 & E1 & E2 & E3). unfold is_u8 in *.
  unfold encode_group, b64_char. rewrite E0, E1, E2, E3.
  change 63 with (2 ^ 6 - 1). change 15 with (2 ^ 4 - 1). change 3 with (2 ^ 2 - 1).
  rewrite !land_ones_mod, !Z.shiftl_mul_pow2, !Z.shiftr_div_pow2 by lia.
  rewrite !lor_disjoint_add_r by zlia. change (2 ^ 2) with 4. change (2 ^ 4) with 16. change (2 ^ 6) with 64.
  rewrite (Z.mod_small (a / 4)) by zlia. done.
Qed.

Lemma b64_length (s : list Z) : Z.of_nat (length (b64 s)) = (Z.of_nat (length s) + 2) / 3 * 4.
Proof.
  induction s as [|a|a b|a b c s IH] using bytes3_ind; [done..|]. cbn [b64 length]. cbn zeta. cbn [length]. zlia.
Qed.

(** The limit of the output: complete groups of four within it. *)
Lemma encode_loop_exact (s : list Z) (written : Z) :
  Forall is_u8 s -> 0 <= written -> written + Z.of_nat (length (b64 s)) < ZBX_MAX_B64_LEN ->
  encode_loop s written = b64 s.
Proof.
  assert (H0 : is_u8 0) by (unfold is_u8; lia).
  revert written. induction s as [|a|a b|a b c s IH] using bytes3_ind; intros w Hs Hw Hlen; [done|..];
    inversion_clear Hs as [|? ? Ha Hs']; cbn [b64 encode_loop] in *; cbn zeta in *; cbn [length] in Hlen;
    (destruct (Z.ltb_spec (ZBX_MAX_B64_LEN - 5) w); [lia|]).
  - by rewrite encode_group_digits.
  - inversion_clear Hs' as [|? ? Hb _]. by rewrite encode_group_digits.
  - inversion_clear Hs' as [|? ? Hb Hs'']. inversion_clear Hs'' as [|? ? Hc Hs]. rewrite encode_group_digits by done.
    cbn [app]. rewrite IH; [done|done|lia|lia].
Qed.

Lemma b64_app (s1 s2 : list Z) (k : nat) : length s1 = (3 * k)%nat -> b64 (s1 ++ s2) = b64 s1 ++ b64 s2.
Proof.
  revert k. induction s1 as [|a|a b|a b c s IH] using bytes3_ind; intros k Hk; cbn [length] in Hk; [done|lia|lia|].
  cbn [b64 app]. cbn zeta. cbn [app]. rewrite (IH (k - 1)%nat) by lia. done.
Qed.

Lemma write_bytes_end (pre l : list Z) (rest : list (option Z)) :
  (length l <= length rest)%nat ->
  write_bytes (map Some pre ++ rest) (Z.of_nat (length pre)) l = Ret (map Some (pre ++ l) ++ drop (length l) rest).
Proof.
  intros Hl. unfold write_bytes. rewrite length_app, length_map, Nat2Z.id.
  destruct (Z.leb_spec 0 (Z.of_nat (length pre))); [|lia].
  destruct (Z.leb_spec (Z.of_nat (length pre) + Z.of_nat (length l)) (Z.of_nat (length pre + length rest))); [|lia].
  cbn [andb]. rewrite map_app, <- app_assoc.
  rewrite take_app_length' by (by rewrite length_map).
  rewrite <- drop_drop, drop_app_length' by (by rewrite length_map). done.
Qed.

Lemma encode_exact (s : list Z) :
  Forall is_u8 s -> s <> [] -> Z.of_nat (length s) <= c_per_block -> zbx_base64_encode s = b64 s ++ [0].
Proof.
  intros Hs Hne Hl. pose proof (b64_length s) as Hb. change c_per_block with 12285 in Hl.
  unfold zbx_base64_encode. rewrite encode_loop_exact by (done || (unfold ZBX_MAX_B64_LEN; zlia)). by destruct s.
Qed.

(** The next block of [l] bytes is written over the NUL of the last one. *)
Lemma encode_block_step (done blk : list Z) (rest : list (option Z)) :
  Forall is_u8 blk -> blk <> [] -> Z.of_nat (length blk) <= c_per_block -> (length (b64 blk) < length rest)%nat ->
  exists rest', write_bytes (map Some done ++ rest) (Z.of_nat (length done)) (zbx_base64_encode blk) =
    Ret (map Some (done ++ b64 blk) ++ rest') /\ (length rest' + length (b64 blk) = length rest)%nat.
Proof.
  intros Hb Hne Hl Hr. rewrite encode_exact by done. rewrite write_bytes_end by (rewrite length_app; cbn; lia).
  exists (Some 0 :: drop (length (b64 blk ++ [0])) rest). split.
  - f_equal. rewrite app_assoc, map_app, <- app_assoc. done.
  - cbn [length]. rewrite length_drop, length_app. cbn [length]. lia.
Qed.

Lemma c_per_block_nat : Z.of_nat (Z.to_nat c_per_block) = 12285 /\ c_per_block = 12285 /\ b_per_block = 16380.
Proof. split; [rewrite Z2Nat.id; reflexivity || discriminate|split; reflexivity]. Qed.

Lemma encode_blocks_spec (n : nat) (s out : list Z) (rest : list (option Z)) :
  Forall is_u8 s -> Z.of_nat n * 12285 <= Z.of_nat (length s) -> Z.of_nat n * 16380 < Z.of_nat (length rest) ->
  exists s' out' rest', encode_blocks n s (Z.of_nat (length out)) (map Some out ++ rest) =
      Ret (s', Z.of_nat (length out'), map Some out' ++ rest') /\
    out' ++ b64 s' = out ++ b64 s /\ Forall is_u8 s' /\
    Z.of_nat (length s') = Z.of_nat (length s) - Z.of_nat n * 12285 /\
    Z.of_nat (length rest') = Z.of_nat (length rest) - Z.of_nat n * 16380.
Proof.
  destruct c_per_block_nat as (HC & HC' & HB). revert s out rest.
  induction n as [|n IH]; intros s out rest Hs Hlen Hrest; cbn [encode_blocks].
  { exists s, out, rest. split_and!; done || lia. }
  set (C := Z.to_nat c_per_block) in *. set (blk := take C s).
  assert (Hblk : length blk = C) by (unfold blk; rewrite length_take; lia).
  pose proof (b64_length blk) as Hbl. rewrite Hblk, HC in Hbl. change ((12285 + 2) / 3 * 4) with 16380 in Hbl.
  destruct (encode_block_step out blk rest) as (rest1 & -> & Hr1);
    [by apply Forall_take|intros E; rewrite E in Hblk; cbn in Hblk; lia|lia|lia|]. run.
  rewrite HB. replace (Z.of_nat (length out) + 16380) with (Z.of_nat (length (out ++ b64 blk)))
    by (rewrite length_app; lia).
  destruct (IH (drop C s) (out ++ b64 blk) rest1) as (s' & out' & rest' & -> & H1 & H2 & H3 & H4);
    [by apply Forall_drop|rewrite length_drop; lia|lia|].
  exists s', out', rest'. split_and!; [done| |done|rewrite H3, length_drop; lia|lia].
  rewrite H1, <- app_assoc. f_equal. rewrite <- (b64_app blk (drop C s) 4095); [by unfold blk; rewrite take_drop|].
  clear - Hblk HC. lia.
Qed.

Lemma encode_dyn_spec (s : list Z) :
  Forall is_u8 s -> (Z.of_nat (length s) + 2) / 3 * 4 + 1 < 2 ^ 31 ->
  zbx_base64_encode_dyn s = Ret (map Some (b64 s ++ [0])).
Proof.
  intros Hs Hlen. destruct c_per_block_nat as (HC & HC' & HB). unfold zbx_base64_encode_dyn. rewrite HC'. clear HC'.
  set (n := Z.of_nat (length s)) in *. assert (Hn : 0 <= n) by lia.
  rewrite c_int_small by zlia. run. rewrite (Z.quot_div_nonneg (n + 2)) by lia.
  rewrite c_int_small by zlia. run.
  rewrite c_int_small by zlia. run. rewrite (Z.quot_div_nonneg n), (Z.rem_mod_nonneg n) by lia.
  rewrite Z.quot_div_nonneg by (pose proof (Z.mod_pos_bound n 12285); lia).
  pose proof (b64_length s) as Hb. fold n in Hb.
  set (size := Z.to_nat ((n + 2) / 3 * 4 + 1)).
  assert (Hsize : Z.of_nat size = (n + 2) / 3 * 4 + 1) by (unfold size; rewrite Z2Nat.id by zlia; done).
  destruct (encode_blocks_spec (Z.to_nat (n / 12285)) s [] (replicate size None)) as (s' & out & rest & E & H1 & H2 & H3 & H4);
    [done|rewrite Z2Nat.id by (apply Z.div_pos; lia); fold n; zlia|
     rewrite length_replicate, Hsize, Z2Nat.id by (apply Z.div_pos; lia); zlia|].
  change (replicate size None) with (map Some ([] : list Z) ++ replicate size None) at 1.
  change (encode_blocks _ s 0 _) with (encode_blocks (Z.to_nat (n / 12285)) s (Z.of_nat (length ([] : list Z)))
    (map Some [] ++ replicate size None)). rewrite E. clear E. run.
  cbn [app] in H1. fold n in H3. rewrite length_replicate, Hsize in H4.
  rewrite Z2Nat.id in H3, H4 by (apply Z.div_pos; lia).
  pose proof (b64_length s') as Hb'. assert (Hr : Z.of_nat (length s') = n mod 12285) by zlia.
  pose proof (Z.mod_pos_bound n 12285 ltac:(lia)).
  assert (Hlens : (length out + length (b64 s') = length (b64 s))%nat) by (rewrite <- H1, length_app; lia).
  destruct (Z.eqb_spec (n mod 12285) 0) as [E0 | E0]; cbn [negb]; run.
  - assert (s' = []) as -> by (destruct s'; [done|cbn [length] in Hr; lia]). rewrite app_nil_r in H1. subst out.
    rewrite write_bytes_end by (cbn [length] in *; zlia). rewrite drop_ge, app_nil_r by (cbn [length] in *; zlia). done.
  - rewrite take_ge by lia. change c_per_block with 12285 in *.
    destruct (encode_block_step out s' rest) as (rest1 & -> & Hr1);
      [done|intros ->; cbn in Hr; lia|change c_per_block with 12285; lia|zlia|]. run.
    replace (Z.of_nat (length out) + _) with (Z.of_nat (length (out ++ b64 s'))) by (rewrite length_app, Nat2Z.inj_add, Hb', Hr; reflexivity).
    rewrite H1. rewrite write_bytes_end by (cbn [length]; zlia).
    rewrite drop_ge, app_nil_r by (cbn [length]; zlia). done.
Qed.

(* ------------------------------------------------------------------ *)
(** ** Decoding *)

Lemma char_table (d : Z) :
  0 <= d < 64 ->
  let c := char_base64_encode d in
  char_base64_decode c = d /\ is_valid_base64_char c = true /\ is_base64 c = true /\ c <> 61 /\ c <> 0.
Proof.
  intros Hd. cbn zeta.
  assert (Hall : forallb (fun n => let c := char_base64_encode (Z.of_nat n) in
    (char_base64_decode c =? Z.of_nat n) && is_valid_base64_char c && is_base64 c && negb (c =? 61) && negb (c =? 0))
    (seq 0 64) = true) by (vm_compute; reflexivity).
  rewrite forallb_forall in Hall. specialize (Hall (Z.to_nat d)). rewrite Z2Nat.id in Hall by lia.
  specialize (Hall ltac:(apply in_seq; lia)).
  rewrite !andb_true_iff, !negb_true_iff, Z.eqb_eq, !Z.eqb_neq in Hall. tauto.
Qed.

Lemma b64_char_spec (n k : Z) :
  let c := b64_char n k in
  char_base64_decode c = b64_digit n k /\ is_valid_base64_char c = true /\ is_base64 c = true /\ c <> 61 /\ c <> 0.
Proof. apply char_table. unfold b64_digit. apply Z.mod_pos_bound. lia. Qed.

(** Four characters of the alphabet are one block. *)
Lemma decode_quad (x0 x1 x2 x3 : Z) (s from : list Z) (maxsize : Z) (out : list Z) :
  is_base64 x0 = true -> is_base64 x1 = true -> is_base64 x2 = true -> is_base64 x3 = true -> length from = 4%nat ->
  decode_loop (x0 :: x1 :: x2 :: x3 :: s) from 0 (-1) maxsize out =
    (let r := decode_block [x0; x1; x2; x3] 3 maxsize out in
     if r.2 then r.1 else decode_loop s [x0; x1; x2; x3] 0 (-1) maxsize r.1).
Proof.
  intros H0 H1 H2 H3 Hl. destruct from as [|f0 [|f1 [|f2 [|f3 [|]]]]]; try discriminate.
  cbn [decode_loop]. rewrite H0, H1, H2, H3. cbn -[decode_block]. reflexivity.
Qed.

(** The bytes a block appends, cut at the size of the buffer. *)
Lemma decode_block_bytes (x0 x1 x2 x3 maxsize : Z) (out bytes : list Z) :
  Z.of_nat (length out) < maxsize ->
  bytes = u8 (Z.lor (Z.shiftl (char_base64_decode x0) 2) (Z.shiftr (char_base64_decode x1) 4)) ::
    (if x2 =? 61 then [] else
      [u8 (Z.lor (Z.shiftl (Z.land (char_base64_decode x1) 15) 4) (Z.shiftr (char_base64_decode x2) 2))]) ++
    (if x3 =? 61 then [] else
      [u8 (Z.lor (Z.shiftl (Z.land (char_base64_decode x2) 3) 6) (char_base64_decode x3))]) ->
  decode_block [x0; x1; x2; x3] 3 maxsize out =
    (out ++ take (Z.to_nat (maxsize - Z.of_nat (length out))) bytes,
     maxsize <=? Z.of_nat (length out) + Z.of_nat (length bytes)).
Proof.
  intros Hlt ->. set (k := Z.of_nat (length out)) in *.
  assert (Hk : forall l, Z.of_nat (length (out ++ l)) = k + Z.of_nat (length l)) by (intros; rewrite length_app; lia).
  unfold decode_block. cbn [nth].
  set (b0 := u8 (Z.lor (Z.shiftl (char_base64_decode x0) 2) _)).
  set (b1 := u8 (Z.lor (Z.shiftl (Z.land (char_base64_decode x1) 15) 4) _)).
  set (b2 := u8 (Z.lor (Z.shiftl (Z.land (char_base64_decode x2) 3) 6) _)).
  clearbody b0 b1 b2.
  change (1 <=? 3) with true. change (2 <=? 3) with true. change (3 =? 3) with true. cbn [andb fst snd negb].
  destruct (x2 =? 61), (x3 =? 61); cbn [negb app length];
    rewrite ?Hk; cbn [length];
    repeat (match goal with
    | |- context [?a =? maxsize] => destruct (Z.eqb_spec a maxsize); cbn [fst snd]
    end; rewrite <- ?app_assoc, ?Hk; cbn [length app] in *);
    (match goal with |- context [?a <=? ?b] => destruct (Z.leb_spec a b) end; [|try lia]); try lia;
    try (rewrite take_ge by (cbn [length]; lia); reflexivity);
    match goal with |- context [take (Z.to_nat ?e)] => first [replace e with 1 by lia | replace e with 2 by lia] end;
    reflexivity.
Qed.

Lemma group_bytes (a b c : Z) :
  is_u8 a -> is_u8 b -> is_u8 c -> let d k := b64_digit (group24 a b c) k in
  u8 (Z.lor (Z.shiftl (d 0) 2) (Z.shiftr (d 1) 4)) = a /\
  u8 (Z.lor (Z.shiftl (Z.land (d 1) 15) 4) (Z.shiftr (d 2) 2)) = b /\
  u8 (Z.lor (Z.shiftl (Z.land (d 2) 3) 6) (d 3)) = c.
Proof.
  intros Ha Hb Hc. cbn zeta. destruct (digit_values a b c Ha Hb Hc) as (E0 & E1 & E2 & E3). rewrite E0, E1, E2, E3.
  unfold is_u8 in *. change 15 with (2 ^ 4 - 1). change 3 with (2 ^ 2 - 1).
  rewrite !land_ones_mod, !Z.shiftl_mul_pow2, !Z.shiftr_div_pow2 by lia.
  rewrite !lor_disjoint_add_r by zlia. change (2 ^ 2) with 4. change (2 ^ 4) with 16. change (2 ^ 6) with 64.
  unfold u8. change (2 ^ 8) with 256. split_and!; zlia.
Qed.

Lemma decode_b64 (s from : list Z) (maxsize : Z) (out : list Z) :
  Forall is_u8 s -> length from = 4%nat -> Z.of_nat (length out) < maxsize ->
  decode_loop (b64 s) from 0 (-1) maxsize out = out ++ take (Z.to_nat (maxsize - Z.of_nat (length out))) s.
Proof.
  assert (Hu0 : is_u8 0) by (unfold is_u8; lia).
  revert from out. induction s as [|a|a b|a b c s IH] using bytes3_ind; intros from out Hs Hfrom Hout.
  - cbn. by rewrite take_nil, app_nil_r.
  - inversion_clear Hs as [|? ? Ha _]. destruct (group_bytes a 0 0 Ha Hu0 Hu0) as (G0 & _ & _).
    cbn [b64]. cbn zeta. rewrite decode_quad by (reflexivity || exact Hfrom || apply b64_char_spec).
    rewrite (decode_block_bytes _ _ _ _ _ _ [a] Hout).
    + cbn [fst snd]. destruct (_ <=? _); done.
    + rewrite !(proj1 (b64_char_spec _ _)), G0. reflexivity.
  - inversion_clear Hs as [|? ? Ha Hs']. inversion_clear Hs' as [|? ? Hb _].
    destruct (group_bytes a b 0 Ha Hb Hu0) as (G0 & G1 & _).
    cbn [b64]. cbn zeta. rewrite decode_quad by (reflexivity || exact Hfrom || apply b64_char_spec).
    rewrite (decode_block_bytes _ _ _ _ _ _ [a; b] Hout).
    + cbn [fst snd]. destruct (_ <=? _); done.
    + rewrite !(proj1 (b64_char_spec _ _)), G0, G1.
      destruct (Z.eqb_spec (b64_char (group24 a b 0) 2) 61) as [E|]; [by destruct (b64_char_spec (group24 a b 0) 2) as (_ & _ & _ & ? & _)|done].
  - inversion_clear Hs as [|? ? Ha Hs']. inversion_clear Hs' as [|? ? Hb Hs'']. inversion_clear Hs'' as [|? ? Hc Hs].
    destruct (group_bytes a b c Ha Hb Hc) as (G0 & G1 & G2).
    cbn [b64]. cbn zeta. rewrite decode_quad by (exact Hfrom || apply b64_char_spec).
    rewrite (decode_block_bytes _ _ _ _ _ _ [a; b; c] Hout).
    2: { rewrite !(proj1 (b64_char_spec _ _)), G0, G1, G2.
      destruct (Z.eqb_spec (b64_char (group24 a b c) 2) 61) as [E|]; [by destruct (b64_char_spec (group24 a b c) 2) as (_ & _ & _ & ? & _)|].
      destruct (Z.eqb_spec (b64_char (group24 a b c) 3) 61) as [E|]; [by destruct (b64_char_spec (group24 a b c) 3) as (_ & _ & _ & ? & _)|done]. }
    cbn [fst snd]. change (a :: b :: c :: s) with ([a; b; c] ++ s).
    destruct (Z.leb_spec maxsize (Z.of_nat (length out) + Z.of_nat (length [a; b; c]))) as [Hfull | Hmore]; cbn [length] in *.
    + by rewrite take_app_le by (cbn [length]; lia).
    + rewrite take_ge by (cbn [length]; lia). rewrite IH by (done || (rewrite length_app; cbn [length]; lia)).
      rewrite <- app_assoc. f_equal. rewrite take_app_ge by (cbn [length]; lia). f_equal. f_equal.
      rewrite length_app. cbn [length]. lia.
Qed.

(** Characters outside the alphabet do not matter to the decoder. *)
Lemma decode_noise (s from : list Z) (i : nat) (lasti maxsize : Z) (out : list Z) :
  decode_loop s from i lasti maxsize out = decode_loop (List.filter is_base64 s) from i lasti maxsize out.
Proof.
  revert from i lasti out. induction s as [|c s IH]; intros from i lasti out; [done|].
  cbn [List.filter]. destruct (is_base64 c) eqn:Ec; cbn [decode_loop]; rewrite Ec; cbn [negb]; [|apply IH].
  destruct (i <? 3)%nat; [apply IH|]. destruct (decode_block _ _ _ _) as [out' []]; cbn; [done|apply IH].
Qed.

Lemma b64_alphabet (s : list Z) : Forall (fun c => is_base64 c = true /\ c <> 0) (b64 s).
Proof.
  induction s as [|a|a b|a b c s IH] using bytes3_ind; cbn [b64]; cbn zeta; repeat constructor;
    try apply b64_char_spec; done.
Qed.

(* ------------------------------------------------------------------ *)
(** ** Validation *)

(** The language of RFC 4648 in the comment of the source. *)
Inductive base64_text : list Z -> Prop :=
| text_empty : base64_text []
| text_pad2 (a b : Z) :
    is_valid_base64_char a = true -> is_valid_base64_char b = true -> base64_text [a; b; 61; 61]
| text_pad1 (a b c : Z) :
    is_valid_base64_char a = true -> is_valid_base64_char b = true -> is_valid_base64_char c = true ->
    base64_text [a; b; c; 61]
| text_block (a b c d : Z) (s : list Z) :
    is_valid_base64_char a = true -> is_valid_base64_char b = true -> is_valid_base64_char c = true ->
    is_valid_base64_char d = true -> base64_text s -> base64_text (a :: b :: c :: d :: s).

Lemma rd_app (pre rest : list Z) (j : Z) :
  0 <= j <= Z.of_nat (length rest) -> rd (pre ++ rest) (Z.of_nat (length pre) + j) = Ret (chr rest (Z.to_nat j)).
Proof.
  intros Hj. unfold rd. rewrite length_app.
  destruct (Z.leb_spec 0 (Z.of_nat (length pre) + j)); [|lia].
  destruct (Z.leb_spec (Z.of_nat (length pre) + j) (Z.of_nat (length pre + length rest))); [|lia].
  cbn [andb]. f_equal. unfold chr. rewrite app_nth2 by lia. f_equal. lia.
Qed.

Lemma validate_mid (fuel : nat) (s : list Z) (i e : Z) :
  rd s i = Ret e -> Z.rem i 4 <> 0 ->
  validate_loop (S fuel) s i = if e =? 0 then Ret false else validate_loop fuel s (i + 1).
Proof.
  intros E Hi. cbn [validate_loop]. rewrite E. run. destruct (Z.eqb_spec (Z.rem i 4) 0); [done|].
  by destruct (e =? 0).
Qed.

Lemma validate_end (fuel : nat) (s : list Z) (i e : Z) :
  rd s i = Ret e -> Z.rem i 4 = 0 ->
  validate_loop (S fuel) s i =
    (r ← validate_block s i; match r with Some b => Ret b | None => validate_loop fuel s (i + 1) end).
Proof. intros E Hi. cbn [validate_loop]. rewrite E. run. rewrite Hi. by destruct (e =? 0). Qed.

Lemma validate_loop_spec (rest : list Z) : forall (fuel : nat) (pre : list Z) (k : Z),
  Forall (fun c => c <> 0) rest -> rest <> [] -> Z.of_nat (length pre) = 4 * k -> (length rest < fuel)%nat ->
  exists b, validate_loop fuel (pre ++ rest) (Z.of_nat (length pre) + 1) = Ret b /\ (b = true <-> base64_text rest).
Proof.
  induction rest as [rest IH] using (well_founded_induction (well_founded_ltof _ (@length Z))). unfold ltof in IH.
  intros fuel pre k Hnz Hne Hk Hfuel.
  assert (Hrem : forall j, 0 <= j -> Z.rem (Z.of_nat (length pre) + j) 4 = j mod 4).
  { intros j Hj. rewrite Z.rem_mod_nonneg by lia. rewrite Hk. rewrite Z.add_comm, Z.mul_comm, Z.mod_add by lia. done. }
  assert (Hstep : forall j f, 0 <= j <= Z.of_nat (length rest) -> j mod 4 <> 0 ->
    validate_loop (S f) (pre ++ rest) (Z.of_nat (length pre) + j) =
      if chr rest (Z.to_nat j) =? 0 then Ret false else validate_loop f (pre ++ rest) (Z.of_nat (length pre) + (j + 1))).
  { intros j f Hj Hj4. rewrite (validate_mid f _ _ (chr rest (Z.to_nat j))); [by rewrite Z.add_assoc|by apply rd_app|].
    by rewrite Hrem by lia. }
  assert (Hz : forall c, c <> 0 -> (c =? 0) = false) by (intros; by apply Z.eqb_neq).
  destruct rest as [|a [|b [|c [|d s]]]]; [done|..]; cbn [length] in *;
    repeat match goal with H : Forall _ (_ :: _) |- _ => inversion_clear H end;
    (destruct fuel as [|fuel]; [lia|]); rewrite Hstep by (done || lia);
    cbn [chr nth Z.to_nat Pos.to_nat Pos.iter_op Nat.add]; change (0 =? 0) with true; rewrite ?Hz by done.
  1: exists false; split; [done|split; [done|intros Ht; inversion Ht]].
  all: (destruct fuel as [|fuel]; [lia|]); rewrite Hstep by (done || lia); change (1 + 1) with 2;
    cbn [chr nth Z.to_nat Pos.to_nat Pos.iter_op Nat.add]; change (0 =? 0) with true; rewrite ?Hz by done.
  1: exists false; split; [done|split; [done|intros Ht; inversion Ht]].
  all: (destruct fuel as [|fuel]; [lia|]); rewrite Hstep by (done || lia); change (2 + 1) with 3;
    cbn [chr nth Z.to_nat Pos.to_nat Pos.iter_op Nat.add]; change (0 =? 0) with true; rewrite ?Hz by done.
  1: exists false; split; [done|split; [done|intros Ht; inversion Ht]].
  destruct fuel as [|fuel]; [lia|]. change (3 + 1) with 4.
  rewrite (validate_end fuel _ _ (chr (a :: b :: c :: d :: s) 4)); [|apply (rd_app pre _ 4); cbn [length]; lia|by rewrite Hrem].
  unfold validate_block.
  assert (Hrd : forall m n, Z.of_nat n = 4 - m -> rd (pre ++ a :: b :: c :: d :: s) (Z.of_nat (length pre) + 4 - m) =
    Ret (chr (a :: b :: c :: d :: s) n) \/ (n > 4)%nat).
  { intros m n Hm. destruct (decide (n <= 4)%nat); [left|right; lia].
    replace (Z.of_nat (length pre) + 4 - m) with (Z.of_nat (length pre) + Z.of_nat n) by lia.
    rewrite rd_app by (cbn [length]; lia). by rewrite Nat2Z.id. }
  destruct (Hrd 4 0%nat eq_refl) as [-> |]; [|lia]. destruct (Hrd 3 1%nat eq_refl) as [-> |]; [|lia].
  destruct (Hrd 2 2%nat eq_refl) as [-> |]; [|lia]. destruct (Hrd 1 3%nat eq_refl) as [-> |]; [|lia].
  rewrite (rd_app pre _ 4) by (cbn [length]; lia). clear Hrd Hstep. run.
  change (chr (a :: b :: c :: d :: s) (Z.to_nat 4)) with (chr s 0). cbn [chr nth].
  assert (Hv61 : is_valid_base64_char 61 = false) by reflexivity.
  destruct s as [|e s].
  - change (chr [] 0) with 0. change (0 =? 0) with true. run. destruct (is_valid_base64_char a) eqn:Va; cbn [andb]; cycle 1.
    { exists false. split; [done|split; [done|]]. intros Ht. inversion Ht; congruence. }
    destruct (is_valid_base64_char b) eqn:Vb; cbn [andb]; cycle 1.
    { exists false. split; [done|split; [done|]]. intros Ht. inversion Ht; congruence. }
    destruct (is_valid_base64_char c) eqn:Vc; cbn [andb].
    + destruct (is_valid_base64_char d) eqn:Vd; cbn [andb].
      { exists true. split; [done|split; [|done]]. intros _. repeat constructor; done. }
      destruct (Z.eqb_spec d 61) as [-> | Hd].
      { exists true. split; [by rewrite andb_true_r; destruct (c =? 61)|split; [|done]]. intros _. by constructor. }
      rewrite andb_false_r. exists false. split; [done|split; [done|]]. intros Ht. inversion Ht; congruence.
    + destruct (Z.eqb_spec c 61) as [-> | Hc], (Z.eqb_spec d 61) as [-> | Hd]; cbn [andb];
        [exists true; split; [done|split; [intros _; by constructor|done]]|..];
        (exists false; split; [done|split; [done|]]); intros Ht; inversion Ht; congruence.
  - repeat match goal with H : Forall _ (_ :: _) |- _ => inversion_clear H end.
    change (chr (e :: s) 0) with e. rewrite (Hz e) by done.
    destruct (is_valid_base64_char a && is_valid_base64_char b && is_valid_base64_char c && is_valid_base64_char d) eqn:V; run.
    + rewrite !andb_true_iff in V. destruct V as [[[Va Vb] Vc] Vd].
      destruct (IH (e :: s) ltac:(cbn [length]; lia) fuel (pre ++ [a; b; c; d]) (k + 1)) as (r & E & Hr);
        [by constructor|done|rewrite length_app; cbn [length]; lia|cbn [length] in *; lia|].
      exists r. rewrite length_app, <- app_assoc in E. cbn [length app] in E.
      replace (Z.of_nat (length pre + 4) + 1) with (Z.of_nat (length pre) + 4 + 1) in E by lia.
      split; [exact E|]. rewrite Hr. split; [intros Ht; by constructor|]. intros Ht. inversion Ht. done.
    + exists false. split; [done|split; [done|]]. intros Ht. inversion Ht as [| | |? ? ? ? ? Va Vb Vc Vd].
      by rewrite Va, Vb, Vc, Vd in V.
Qed.

Lemma validate_spec (s : list Z) :
  Forall (fun c => c <> 0) s -> exists b, zbx_base64_validate s = Ret b /\ (b = true <-> base64_text s).
Proof.
  intros Hs. unfold zbx_base64_validate. destruct s as [|c s].
  { exists true. split; [done|split; [intros _; constructor|done]]. }
  inversion_clear Hs as [|? ? Hc Hs']. change (chr (c :: s) 0) with c. destruct (Z.eqb_spec c 0); [done|].
  apply (validate_loop_spec (c :: s) (S (length (c :: s))) [] 0); [by constructor|done|done|cbn [length]; lia].
Qed.

Lemma b64_text (s : list Z) : base64_text (b64 s).
Proof.
  induction s as [|a|a b|a b c s IH] using bytes3_ind; cbn [b64]; cbn zeta; constructor; try done;
    apply b64_char_spec.
Qed.

(** C39: zbx_base64_validate returns for every C string without reading past its
    NUL, and accepts exactly the texts of the RFC 4648 expression in its
    comment (and the empty string). *)
Theorem base64_validate_exact (s : list Z) :
  Forall (fun c => c <> 0) s -> exists b, zbx_base64_validate s = Ret b /\ (b = true <-> base64_text s).
Proof. apply validate_spec. Qed.

Lemma base64_validate_exact_witness :
  zbx_base64_validate (bytes_of "Zm9vYg==") = Ret true /\
  (exists b, zbx_base64_validate (bytes_of "Zm=v") = Ret b /\ (b = true <-> base64_text (bytes_of "Zm=v"))).
Proof.
  split; [reflexivity|]. apply base64_validate_exact. repeat constructor; discriminate.
Defined.

(** C38: encoding any bytes (whose encoding has a size that fits an int) into the
    buffer of zbx_base64_encode_dyn writes the RFC 4648 encoding and its NUL and
    nothing else, inside the allocated size, whatever the number of blocks; the
    text validates, and the decoder gives the bytes back, cut at the size of its
    buffer, even with line breaks or other foreign characters in the text. *)
Theorem base64_roundtrip (s : list Z) :
  Forall is_u8 s -> (Z.of_nat (length s) + 2) / 3 * 4 + 1 < 2 ^ 31 ->
  exists text, zbx_base64_encode_dyn s = Ret (map Some (text ++ [0])) /\ text = b64 s /\
    zbx_base64_validate text = Ret true /\
    forall noisy maxsize, 0 < maxsize -> List.filter is_base64 noisy = text ->
      zbx_base64_decode noisy maxsize = take (Z.to_nat maxsize) s.
Proof.
  intros Hs Hlen. exists (b64 s). pose proof (b64_alphabet s) as Ha. split_and!.
  - by apply encode_dyn_spec.
  - done.
  - destruct (validate_spec (b64 s)) as (b & E & Hb); [eapply Forall_impl; [exact Ha|]; by intros c [_ ?]|].
    rewrite E. f_equal. apply Hb, b64_text.
  - intros noisy maxsize Hmax Hn. unfold zbx_base64_decode. rewrite decode_noise, Hn, decode_b64 by (done || lia).
    cbn [app length]. by rewrite Z.sub_0_r.
Qed.

Lemma base64_roundtrip_witness :
  zbx_base64_encode_dyn (bytes_of "hello") = Ret (map Some (bytes_of "aGVsbG8=" ++ [0])) /\
  zbx_base64_decode (bytes_of "aG Vs bG8=") 3 = bytes_of "hel".
Proof.
  destruct (base64_roundtrip (bytes_of "hello")) as (text & E & -> & _ & Hd);
    [unfold is_u8; repeat constructor; lia|reflexivity|].
  split; [exact E|]. apply (Hd (bytes_of "aG Vs bG8=") 3); [lia|reflexivity].
Defined.
