(* ===== verification/PpQueue.v ===== *)
(** The preprocessing task queue (src/src/libs/zbxpreproc/pp_queue.c), the tasks
    (pp_task.c).  Tasks live in a heap and are shared by address between the
    lists of the queue.  zbx_list is the list of its values (LinkedList),
    zbx_hashset a finite map. *)

From stdpp Require Import base list numbers strings gmap.
From Stdlib Require Import ZArith Lia.
From S2P Require Import Prelude.

Open Scope Z_scope.

Definition ITEM_TYPE_INTERNAL : Z := 5.
Definition ZBX_PREPROC_JSONPATH : Z := 12.
Definition ZBX_PREPROC_PROMETHEUS_PATTERN : Z := 22.
Definition ZBX_PREPROC_PROMETHEUS_TO_JSON : Z := 23.
Definition ZBX_PREPROC_SNMP_WALK_VALUE : Z := 28.

Inductive pp_task_type : Type :=
| ZBX_PP_TASK_TEST | ZBX_PP_TASK_VALUE | ZBX_PP_TASK_VALUE_SEQ | ZBX_PP_TASK_DEPENDENT | ZBX_PP_TASK_SEQUENCE.

#[export] Instance pp_task_type_eq_dec : EqDecision pp_task_type.
Proof. solve_decision. Defined.

Inductive pp_process_mode : Type := ZBX_PP_PROCESS_PARALLEL | ZBX_PP_PROCESS_SERIAL.

(** Step types, dependent items, item type, mode. *)
Record pp_preproc : Type := mkPreproc {
  steps : list Z; dep_itemids : list Z; preproc_type : Z; mode : pp_process_mode
}.

Inductive pp_task_state : Type := ZBX_PP_TASK_PENDING | ZBX_PP_TASK_FINISHED.

(** [primary] belongs to dependent tasks, [seq_tasks] to sequences, [preproc]
    to the others; [result] tells that the result is not ZBX_VARIANT_NONE. *)
Record pp_task : Type := mkTask {
  itemid : Z; type : pp_task_type; state : pp_task_state;
  preproc : pp_preproc; result : bool; primary : option Z; seq_tasks : list Z
}.

Definition set_state (t : pp_task) (s : pp_task_state) : pp_task :=
  mkTask (itemid t) (type t) s (preproc t) (result t) (primary t) (seq_tasks t).
Definition set_type (t : pp_task) (ty : pp_task_type) : pp_task :=
  mkTask (itemid t) ty (state t) (preproc t) (result t) (primary t) (seq_tasks t).
Definition set_result (t : pp_task) (r : bool) : pp_task :=
  mkTask (itemid t) (type t) (state t) (preproc t) r (primary t) (seq_tasks t).
Definition set_primary (t : pp_task) (p : option Z) : pp_task :=
  mkTask (itemid t) (type t) (state t) (preproc t) (result t) p (seq_tasks t).
Definition set_seq (t : pp_task) (l : list Z) : pp_task :=
  mkTask (itemid t) (type t) (state t) (preproc t) (result t) (primary t) l.

(** [sequences] maps an item to its sequence task, [tasks] an item to its
    tracked value tasks. *)
Record pp_queue : Type := mkQueue {
  workers_num : Z; pending_num : Z; finished_num : Z; processing_num : Z;
  sequences : gmap Z Z; tasks : gmap Z (list Z);
  pending : list Z; immediate : list Z; finished : list Z
}.

(** The heap of tasks with the next free address, the queue, and two history
    variables no operation reads: the value tasks in the order they were tracked
    and in the order they reached the finished list, with their items. *)
Record world : Type := mkWorld {
  heap : gmap Z pp_task; next_task : Z; queue : pp_queue;
  tracked_log : list (Z * Z); finished_log : list (Z * Z)
}.

Definition set_heap (w : world) (h : gmap Z pp_task) : world :=
  mkWorld h (next_task w) (queue w) (tracked_log w) (finished_log w).
Definition set_queue (w : world) (q : pp_queue) : world :=
  mkWorld (heap w) (next_task w) q (tracked_log w) (finished_log w).

Definition set_pending_num (q : pp_queue) (n : Z) : pp_queue :=
  mkQueue (workers_num q) n (finished_num q) (processing_num q) (sequences q) (tasks q) (pending q) (immediate q) (finished q).
Definition set_finished_num (q : pp_queue) (n : Z) : pp_queue :=
  mkQueue (workers_num q) (pending_num q) n (processing_num q) (sequences q) (tasks q) (pending q) (immediate q) (finished q).
Definition set_processing_num (q : pp_queue) (n : Z) : pp_queue :=
  mkQueue (workers_num q) (pending_num q) (finished_num q) n (sequences q) (tasks q) (pending q) (immediate q) (finished q).
Definition set_sequences (q : pp_queue) (m : gmap Z Z) : pp_queue :=
  mkQueue (workers_num q) (pending_num q) (finished_num q) (processing_num q) m (tasks q) (pending q) (immediate q) (finished q).
Definition set_tasks (q : pp_queue) (m : gmap Z (list Z)) : pp_queue :=
  mkQueue (workers_num q) (pending_num q) (finished_num q) (processing_num q) (sequences q) m (pending q) (immediate q) (finished q).
Definition set_pending (q : pp_queue) (l : list Z) : pp_queue :=
  mkQueue (workers_num q) (pending_num q) (finished_num q) (processing_num q) (sequences q) (tasks q) l (immediate q) (finished q).
Definition set_immediate (q : pp_queue) (l : list Z) : pp_queue :=
  mkQueue (workers_num q) (pending_num q) (finished_num q) (processing_num q) (sequences q) (tasks q) (pending q) l (finished q).
Definition set_finished (q : pp_queue) (l : list Z) : pp_queue :=
  mkQueue (workers_num q) (pending_num q) (finished_num q) (processing_num q) (sequences q) (tasks q) (pending q) (immediate q) l.

(* ------------------------------------------------------------------ *)
(** ** The state monad *)

Definition M (A : Type) : Type := world -> res (A * world).

#[export] Instance M_ret : MRet M := fun A a w => Ret (a, w).
#[export] Instance M_bind : MBind M := fun A B k m w =>
  match m w with
  | Ret (a, w) => k a w
  | Exit => Exit
  | Undef => Undef
  | NoFuel => NoFuel
  end.

Definition get_queue : M pp_queue := fun w => Ret (queue w, w).
Definition modify (f : pp_queue -> pp_queue) : M unit := fun w => Ret (tt, set_queue w (f (queue w))).

(** Reading or writing a task that is not allocated is undefined. *)
Definition deref (task : Z) : M pp_task := fun w =>
  match heap w !! task with Some t => Ret (t, w) | None => Undef end.
Definition update (task : Z) (f : pp_task -> pp_task) : M unit := fun w =>
  match heap w !! task with
  | Some t => Ret (tt, set_heap w (<[task := f t]> (heap w)))
  | None => Undef
  end.

(** zbx_malloc: an address that was never used before. *)
Definition pp_task_create (t : pp_task) : M Z := fun w =>
  Ret (next_task w, mkWorld (<[next_task w := t]> (heap w)) (next_task w + 1) (queue w) (tracked_log w) (finished_log w)).
Definition release (task : Z) : M unit := fun w =>
  match heap w !! task with
  | Some _ => Ret (tt, set_heap w (delete task (heap w)))
  | None => Undef
  end.

Definition log_tracked (item task : Z) : M unit := fun w =>
  Ret (tt, mkWorld (heap w) (next_task w) (queue w) (tracked_log w ++ [(item, task)]) (finished_log w)).
Definition log_finished (item task : Z) : M unit := fun w =>
  Ret (tt, mkWorld (heap w) (next_task w) (queue w) (tracked_log w) (finished_log w ++ [(item, task)])).

(* ------------------------------------------------------------------ *)
(** ** Tasks *)

Definition no_preproc : pp_preproc := mkPreproc [] [] 0 ZBX_PP_PROCESS_PARALLEL.

Definition pp_task_test_create (p : pp_preproc) : M Z :=
  pp_task_create (mkTask 0 ZBX_PP_TASK_TEST ZBX_PP_TASK_PENDING p false None []).
Definition pp_task_value_create (item : Z) (p : pp_preproc) : M Z :=
  pp_task_create (mkTask item ZBX_PP_TASK_VALUE ZBX_PP_TASK_PENDING p false None []).
Definition pp_task_value_seq_create (item : Z) (p : pp_preproc) : M Z :=
  task ← pp_task_value_create item p;
  update task (fun t => set_type t ZBX_PP_TASK_VALUE_SEQ);;
  mret task.
Definition pp_task_dependent_create (item : Z) (p : pp_preproc) : M Z :=
  pp_task_create (mkTask item ZBX_PP_TASK_DEPENDENT ZBX_PP_TASK_PENDING p false None []).
Definition pp_task_sequence_create (item : Z) : M Z :=
  pp_task_create (mkTask item ZBX_PP_TASK_SEQUENCE ZBX_PP_TASK_PENDING no_preproc false None []).

(** A sequence holds dependent tasks and those hold value tasks: depth three. *)
Fixpoint pp_task_free (fuel : nat) (task : Z) : M unit :=
  match fuel with
  | O => fun _ => NoFuel
  | S fuel =>
      t ← deref task;
      (match type t with
       | ZBX_PP_TASK_DEPENDENT => match primary t with Some p => pp_task_free fuel p | None => mret tt end
       | ZBX_PP_TASK_SEQUENCE => foldr (fun t r => pp_task_free fuel t;; r) (mret tt) (seq_tasks t)
       | _ => mret tt
       end);;
      release task
  end.

(* ------------------------------------------------------------------ *)
(** ** The queue *)

Definition pp_task_queue_register_worker : M unit :=
  modify (fun q => mkQueue (workers_num q + 1) (pending_num q) (finished_num q) (processing_num q) (sequences q)
    (tasks q) (pending q) (immediate q) (finished q)).
Definition pp_task_queue_deregister_worker : M unit :=
  modify (fun q => mkQueue (workers_num q - 1) (pending_num q) (finished_num q) (processing_num q) (sequences q)
    (tasks q) (pending q) (immediate q) (finished q)).

Definition inc_pending : M unit := modify (fun q => set_pending_num q (u64 (pending_num q + 1))).
Definition append_immediate (task : Z) : M unit := modify (fun q => set_immediate q (immediate q ++ [task])).
(** queue->pending_num--; queue->processing_num++ *)
Definition start_processing : M unit :=
  modify (fun q => set_processing_num (set_pending_num q (u64 (pending_num q - 1))) (u64 (processing_num q + 1))).

(** [Some] is the sequence task that was created. *)
Definition pp_task_queue_add_sequence (task : Z) : M (option Z) :=
  t ← deref task;
  q ← get_queue;
  '(sequence, new_task) ←
    match sequences q !! itemid t with
    | None =>
        s ← pp_task_sequence_create (itemid t);
        modify (fun q => set_sequences q (<[itemid t := s]> (sequences q)));;
        mret (s, Some s)
    | Some s => mret (s, None)
    end;
  update sequence (fun d_seq => set_seq d_seq (seq_tasks d_seq ++ [task]));;
  mret new_task.

Definition pp_track_value_task (task : Z) : M unit :=
  t ← deref task;
  modify (fun q => set_tasks q (<[itemid t := default [] (tasks q !! itemid t) ++ [task]]> (tasks q)));;
  log_tracked (itemid t) task.

Definition pp_task_queue_push_immediate (task : Z) : M unit :=
  t ← deref task;
  match type t with
  | ZBX_PP_TASK_VALUE_SEQ | ZBX_PP_TASK_DEPENDENT =>
      inc_pending;;
      new_task ← pp_task_queue_add_sequence task;
      match new_task with
      | None => mret tt
      | Some s => append_immediate s
      end
  | ZBX_PP_TASK_SEQUENCE => append_immediate task
  | ZBX_PP_TASK_VALUE => pp_track_value_task task;; inc_pending;; append_immediate task
  | ZBX_PP_TASK_TEST => inc_pending;; append_immediate task
  end.

Definition pp_task_queue_remove_sequence (item : Z) : M unit :=
  modify (fun q => set_sequences q (delete item (sequences q))).

Definition pp_task_queue_push_test (task : Z) : M unit := inc_pending;; append_immediate task.

Definition pp_task_queue_push (task : Z) : M unit :=
  t ← deref task;
  inc_pending;;
  (if decide (type t = ZBX_PP_TASK_VALUE) then pp_track_value_task task else mret tt);;
  if negb (preproc_type (preproc t) =? ITEM_TYPE_INTERNAL) then modify (fun q => set_pending q (pending q ++ [task]))
  else if decide (type t = ZBX_PP_TASK_VALUE) then append_immediate task
  else
    seq_task ← pp_task_queue_add_sequence task;
    match seq_task with
    | Some s => append_immediate s
    | None => mret tt
    end.

(** The loop over the pending list. *)
Fixpoint pop_pending (l : list Z) : M (option Z) :=
  match l with
  | [] => mret None
  | task :: l =>
      modify (fun q => set_pending q l);;
      t ← deref task;
      r ← (if decide (type t = ZBX_PP_TASK_VALUE_SEQ) then pp_task_queue_add_sequence task else mret (Some task));
      match r with
      | Some task => start_processing;; mret (Some task)
      | None => pop_pending l
      end
  end.

Definition pp_task_queue_pop_new : M (option Z) :=
  q ← get_queue;
  match immediate q with
  | task :: l => modify (fun q => set_immediate q l);; start_processing;; mret (Some task)
  | [] => pop_pending (pending q)
  end.

Definition append_finished (task : Z) : M unit :=
  modify (fun q => set_finished_num (set_finished q (finished q ++ [task])) (u64 (finished_num q + 1))).

(** The loop over the tracked tasks of an item: [true] when the list ran empty. *)
Fixpoint flush_finished (item : Z) (l : list Z) : M bool :=
  match l with
  | [] => mret true
  | task :: l =>
      t ← deref task;
      match state t with
      | ZBX_PP_TASK_PENDING => mret false
      | ZBX_PP_TASK_FINISHED =>
          modify (fun q => set_tasks q (<[item := l]> (tasks q)));;
          append_finished task;; log_finished item task;;
          flush_finished item l
      end
  end.

Definition pp_task_queue_push_finished (task : Z) : M unit :=
  modify (fun q => set_processing_num q (u64 (processing_num q - 1)));;
  update task (fun t => set_state t ZBX_PP_TASK_FINISHED);;
  t ← deref task;
  q ← get_queue;
  match (if decide (type t = ZBX_PP_TASK_VALUE) then tasks q !! itemid t else None) with
  | Some l =>
      empty ← flush_finished (itemid t) l;
      if empty : bool then modify (fun q => set_tasks q (delete (itemid t) (tasks q))) else mret tt
  | None => append_finished task
  end.

Definition pp_task_queue_pop_finished : M (option Z) :=
  q ← get_queue;
  match finished q with
  | [] => mret None
  | task :: l => modify (fun q => set_finished_num (set_finished q l) (u64 (finished_num q - 1)));; mret (Some task)
  end.

(** do stat->num++; while (SUCCEED == zbx_list_iterator_next(&li)): the iterator
    is before the first task when the loop is entered. *)
Fixpoint count_rounds (rest : list Z) (num : Z) : Z :=
  let num := num + 1 in
  match rest with
  | [] => num
  | _ :: rest => count_rounds rest num
  end.

Definition sequence_num (tasks : list Z) : Z :=
  match tasks with
  | [] => 0
  | _ => count_rounds tasks 0
  end.

(** Items and what is counted for their sequence. *)
Definition pp_task_queue_get_sequence_stats : M (list (Z * Z)) :=
  q ← get_queue;
  mapM (M := M) (fun '(item, s) => t ← deref s; mret (item, sequence_num (seq_tasks t))) (map_to_list (sequences q)).
