(* ===== verification/PpInv.v ===== *)
(** The invariant of the preprocessing queue: every task has one place, the
    places agree with the lists of the queue, and each operation, on a task its
    caller owns, succeeds and keeps it so. *)

From stdpp Require Import base list numbers strings gmap.
From Stdlib Require Import ZArith Lia.
From S2P Require Import Prelude PpQueue.

Open Scope Z_scope.

(* ------------------------------------------------------------------ *)
(** ** Triples *)

Definition triple {A : Type} (P : world -> Prop) (m : M A) (Q : A -> world -> Prop) : Prop :=
  forall w, P w -> exists a w', m w = Ret (a, w') /\ Q a w'.

Lemma triple_bind {A B : Type} (P : world -> Prop) (m : M A) (k : A -> M B) (Q : A -> world -> Prop) (R : B -> world -> Prop) :
  triple P m Q -> (forall a, triple (Q a) (k a) R) -> triple P (m ≫= k) R.
Proof.
  intros Hm Hk w HP. destruct (Hm w HP) as (a & w' & E & HQ). destruct (Hk a w' HQ) as (b & w'' & E' & HR).
  exists b, w''. split; [|done]. unfold mbind, M_bind. by rewrite E.
Qed.

Lemma triple_ret {A : Type} (a : A) (P : world -> Prop) (Q : A -> world -> Prop) :
  (forall w, P w -> Q a w) -> triple P (mret a) Q.
Proof. intros H w HP. exists a, w. split; [done|by apply H]. Qed.

Lemma triple_pre {A : Type} (P P' : world -> Prop) (m : M A) (Q : A -> world -> Prop) :
  triple P' m Q -> (forall w, P w -> P' w) -> triple P m Q.
Proof. intros H HP w Hw. apply H, HP, Hw. Qed.

Lemma triple_post {A : Type} (P : world -> Prop) (m : M A) (Q Q' : A -> world -> Prop) :
  triple P m Q' -> (forall a w, Q' a w -> Q a w) -> triple P m Q.
Proof. intros H HQ w Hw. destruct (H w Hw) as (a & w' & E & Hq). eauto. Qed.

Lemma triple_deref (task : Z) (P : world -> Prop) (Q : pp_task -> world -> Prop) :
  (forall w, P w -> exists d, heap w !! task = Some d /\ Q d w) -> triple P (deref task) Q.
Proof. intros H w HP. destruct (H w HP) as (d & E & HQ). exists d, w. unfold deref. by rewrite E. Qed.

(* ------------------------------------------------------------------ *)
(** ** Places *)

(** Where a task is: owned by the running code, a sequence in its hand (whose
    head still counts as processed, [true]), in a list of the queue or with a
    worker (sequences apart), held back until an earlier value of its item is
    finished, in a sequence, or the primary task of a dependent one. *)
Inductive place : Type :=
| Own | Hand (busy : bool) | InPending | InImmediate | SeqImmediate | InProcessing | SeqProcessing
| InFinished | SeqFinished | Held | InSeq (s : Z) | Primary (d : Z).

#[export] Instance place_eq_dec : EqDecision place.
Proof. solve_decision. Defined.

(** The share of a task in pending_num. *)
Definition weight (p : place) : Z :=
  match p with
  | InPending | InImmediate | InSeq _ => 1
  | Hand true | SeqProcessing | SeqFinished => -1
  | _ => 0
  end.

Definition total (loc : gmap Z place) : Z := map_fold (fun _ p z => weight p + z) 0 loc.

Lemma total_fresh (loc : gmap Z place) (t : Z) (p : place) :
  loc !! t = None -> total (<[t := p]> loc) = weight p + total loc.
Proof. intros Hn. unfold total. rewrite map_fold_insert_L; [done|intros; lia|done]. Qed.

Lemma total_delete (loc : gmap Z place) (t : Z) (p : place) :
  loc !! t = Some p -> total loc = weight p + total (delete t loc).
Proof. intros Hp. unfold total. rewrite (map_fold_delete_L _ _ t p loc); [done|intros; lia|done]. Qed.

Lemma total_move (loc : gmap Z place) (t : Z) (p p' : place) :
  loc !! t = Some p -> total (<[t := p']> loc) = total loc - weight p + weight p'.
Proof.
  intros Hp. rewrite (total_delete loc t p Hp). rewrite <- insert_delete_eq.
  rewrite total_fresh by apply lookup_delete_eq. lia.
Qed.

(** [l] lists the tasks at the places [P], once each. *)
Definition listed (loc : gmap Z place) (P : place -> bool) (l : list Z) : Prop :=
  NoDup l /\ forall t, t ∈ l <-> exists p, loc !! t = Some p /\ P p = true.

Lemma listed_other (loc : gmap Z place) (P : place -> bool) (l : list Z) (t : Z) (p' : place) :
  listed loc P l -> (forall p, loc !! t = Some p -> P p = false) -> P p' = false -> listed (<[t := p']> loc) P l.
Proof.
  intros [Hnd Hl] Ht Hp'. split; [done|]. intros x. rewrite Hl. split; intros (p & E & Hp).
  - exists p. split; [|done]. destruct (decide (x = t)) as [-> | Hne]; [|by rewrite lookup_insert_ne].
    rewrite (Ht p E) in Hp. discriminate.
  - destruct (decide (x = t)) as [-> | Hne]; [rewrite lookup_insert_eq in E|rewrite lookup_insert_ne in E by done; by exists p].
    injection E as <-. congruence.
Qed.

Lemma listed_same (loc : gmap Z place) (P : place -> bool) (l : list Z) (t : Z) (p p' : place) :
  listed loc P l -> loc !! t = Some p -> P p = P p' -> listed (<[t := p']> loc) P l.
Proof.
  intros [Hnd Hl] Ht Hp. split; [done|]. intros x. rewrite Hl. destruct (decide (x = t)) as [-> | Hne].
  - rewrite lookup_insert_eq, Ht. split; intros (? & [= <-] & ?); eexists; (split; [done|congruence]).
  - by rewrite lookup_insert_ne.
Qed.

Lemma listed_add (loc : gmap Z place) (P : place -> bool) (l : list Z) (t : Z) (p' : place) :
  listed loc P l -> (forall p, loc !! t = Some p -> P p = false) -> P p' = true -> listed (<[t := p']> loc) P (l ++ [t]).
Proof.
  intros [Hnd Hl] Ht Hp'. assert (Hn : t ∉ l).
  { intros (p & E & Hp)%Hl. rewrite (Ht p E) in Hp. discriminate. }
  split.
  - apply NoDup_app. split_and!; [done| |apply NoDup_singleton]. intros x Hx ->%list_elem_of_singleton. done.
  - intros x. rewrite elem_of_app, list_elem_of_singleton, Hl. destruct (decide (x = t)) as [-> | Hne].
    + rewrite lookup_insert_eq. split; [eauto|by right].
    + rewrite lookup_insert_ne by done. split; [intros [?|?]; done|by left].
Qed.

Lemma listed_head (loc : gmap Z place) (P : place -> bool) (l : list Z) (t : Z) (p' : place) :
  listed loc P (t :: l) -> P p' = false -> listed (<[t := p']> loc) P l.
Proof.
  intros [Hnd Hl] Hp'. apply NoDup_cons in Hnd as [Hn Hnd]. split; [done|]. intros x.
  destruct (decide (x = t)) as [-> | Hne].
  - rewrite lookup_insert_eq. split; [done|]. intros (? & [= <-] & ?). congruence.
  - rewrite lookup_insert_ne by done. rewrite <- Hl, elem_of_cons. split; [by right|intros [?|?]; done].
Qed.

Lemma listed_delete (loc : gmap Z place) (P : place -> bool) (l : list Z) (t : Z) :
  listed loc P l -> (forall p, loc !! t = Some p -> P p = false) -> listed (delete t loc) P l.
Proof.
  intros [Hnd Hl] Ht. split; [done|]. intros x. rewrite Hl. destruct (decide (x = t)) as [-> | Hne].
  - rewrite lookup_delete_eq. split; intros (p & E & Hp); [|done]. rewrite (Ht p E) in Hp. discriminate.
  - by rewrite lookup_delete_ne.
Qed.

Lemma listed_remove (loc : gmap Z place) (P : place -> bool) (l1 l2 : list Z) (t : Z) (p' : place) :
  listed loc P (l1 ++ t :: l2) -> P p' = false -> listed (<[t := p']> loc) P (l1 ++ l2).
Proof.
  intros [Hnd Hl] Hp'. apply (listed_head loc P (l1 ++ l2) t p'); [|done]. split.
  - by rewrite <- Permutation_middle in Hnd.
  - intros x. rewrite <- Hl. by rewrite <- Permutation_middle.
Qed.

Lemma listed_at (loc : gmap Z place) (P : place -> bool) (l : list Z) (t : Z) :
  listed loc P l -> t ∈ l -> exists p, loc !! t = Some p /\ P p = true.
Proof. intros [_ Hl] Ht. by apply Hl. Qed.

(* ------------------------------------------------------------------ *)
(** ** The heap *)

(** Places that no other task refers to. *)
Definition plain (p : place) : bool :=
  match p with InSeq _ | Primary _ => false | _ => true end.

Definition place_ok (d : pp_task) (p : place) : Prop :=
  match p with
  | Own => type d <> ZBX_PP_TASK_SEQUENCE
  | Hand false => type d = ZBX_PP_TASK_SEQUENCE
  | Hand true | SeqImmediate | SeqProcessing | SeqFinished => type d = ZBX_PP_TASK_SEQUENCE /\ seq_tasks d <> []
  | InPending => type d = ZBX_PP_TASK_VALUE \/ type d = ZBX_PP_TASK_VALUE_SEQ
  | InImmediate | InProcessing | InFinished => type d = ZBX_PP_TASK_VALUE \/ type d = ZBX_PP_TASK_TEST
  | Held | Primary _ => type d = ZBX_PP_TASK_VALUE
  | InSeq _ => type d = ZBX_PP_TASK_VALUE_SEQ \/ (type d = ZBX_PP_TASK_DEPENDENT /\ primary d <> None)
  end.

Record heap_ok (loc : gmap Z place) (h : gmap Z pp_task) (next : Z) (seqs : gmap Z Z) : Prop := mkHeapOk {
  ho_dom : forall t, is_Some (h !! t) <-> is_Some (loc !! t);
  ho_next : forall t, is_Some (h !! t) -> t < next;
  ho_place : forall t d p, h !! t = Some d -> loc !! t = Some p -> place_ok d p;
  ho_seq : forall s d, h !! s = Some d ->
    NoDup (seq_tasks d) /\ (forall t, t ∈ seq_tasks d -> loc !! t = Some (InSeq s)) /\
    (type d <> ZBX_PP_TASK_SEQUENCE -> seq_tasks d = []) /\ (type d <> ZBX_PP_TASK_DEPENDENT -> primary d = None);
  ho_inseq : forall s t, loc !! t = Some (InSeq s) -> exists d, h !! s = Some d /\ t ∈ seq_tasks d;
  ho_prim : forall d p, loc !! p = Some (Primary d) <-> exists dd, h !! d = Some dd /\ primary dd = Some p;
  ho_reg : forall X s, seqs !! X = Some s <-> exists d, h !! s = Some d /\ type d = ZBX_PP_TASK_SEQUENCE /\ itemid d = X
}.

Ltac ins x t := destruct (decide (x = t)) as [-> | ?]; [rewrite ?lookup_insert_eq in * | rewrite ?(fun A (m : gmap Z A) => lookup_insert_ne m t x) in * by done].

Section Heap.
Context (loc : gmap Z place) (h : gmap Z pp_task) (next : Z) (seqs : gmap Z Z).
Hypothesis Hok : heap_ok loc h next seqs.

Lemma heap_move (t : Z) (d : pp_task) (p p' : place) :
  h !! t = Some d -> loc !! t = Some p -> plain p = true -> plain p' = true -> place_ok d p' ->
  heap_ok (<[t := p']> loc) h next seqs.
Proof using Hok.
  intros Ht Hl Hp Hp' Hd. destruct Hok as [Hdom Hnext Hplace Hseq Hinseq Hprim Hreg]. constructor; try done.
  - intros x. rewrite Hdom. ins x t; [|done]. rewrite Hl. by split; intros _; eexists.
  - intros x dx px Hx. ins x t; [intros [= <-]; congruence|by apply Hplace].
  - intros s ds Hs. destruct (Hseq s ds Hs) as (H1 & H2 & H3). split_and!; [done| |apply H3..].
    intros x Hx%H2. ins x t; [|done]. assert (p = InSeq s) as -> by congruence. done.
  - intros s x. ins x t; [intros [= ->]; done|apply Hinseq].
  - intros dd x. rewrite <- Hprim. ins x t; [|done]. rewrite Hl. split; intros [= ->]; done.
Qed.

Lemma heap_create (d : pp_task) (p : place) (seqs' : gmap Z Z) :
  seq_tasks d = [] -> primary d = None -> plain p = true -> place_ok d p ->
  (forall X s, seqs' !! X = Some s <-> seqs !! X = Some s \/ (s = next /\ type d = ZBX_PP_TASK_SEQUENCE /\ itemid d = X)) ->
  heap_ok (<[next := p]> loc) (<[next := d]> h) (next + 1) seqs'.
Proof using Hok.
  intros Hs Hp Hpl Hd Hseqs. destruct Hok as [Hdom Hnext Hplace Hseq Hinseq Hprim Hreg].
  assert (Hn : h !! next = None).
  { destruct (h !! next) eqn:E; [|done]. assert (next < next); [|lia]. apply Hnext. rewrite E. by eexists. }
  assert (Hln : loc !! next = None).
  { destruct (loc !! next) eqn:E; [|done]. destruct (proj2 (Hdom next)) as [? E2]; [rewrite E; by eexists|congruence]. }
  constructor.
  - intros x. ins x next; [by split; intros _; eexists|apply Hdom].
  - intros x. ins x next; [lia|]. intros Hx%Hnext. lia.
  - intros x dx px. ins x next; [intros [= <-] [= <-]; done|apply Hplace].
  - intros s ds. ins s next.
    + intros [= <-]. rewrite Hs. split_and!; [constructor|set_solver|done|done].
    + intros (H1 & H2 & H3)%Hseq. split_and!; [done| |apply H3..]. intros x Hx%H2. ins x next; [congruence|done].
  - intros s x. ins x next; [intros [= ->]; done|]. intros (ds & E & Hx)%Hinseq. exists ds. split; [|done].
    rewrite lookup_insert_ne; [done|]. intros <-. congruence.
  - intros dd x. ins dd next.
    + ins x next; [split; [intros [= ->]; done|intros (? & [= <-] & ?); congruence]|].
      rewrite Hprim. split; [intros (? & ? & ?); congruence|intros (? & [= <-] & ?); congruence].
    + ins x next; [|apply Hprim]. split; [intros [= ->]; done|]. intros (e & E & Ep).
      assert (loc !! next = Some (Primary dd)) by (apply Hprim; eauto). congruence.
  - intros X s. rewrite Hseqs, Hreg. ins s next.
    + rewrite Hn. split; [intros [(? & ? & _)|(_ & ? & ?)]; [done|eauto]|]. intros (? & [= <-] & ? & ?). by right.
    + split; [intros [?|(-> & _)]; done|by left].
Qed.

(** Fields that place and links do not depend on. *)
Lemma heap_update (t : Z) (d d' : pp_task) :
  h !! t = Some d -> itemid d' = itemid d -> type d' = type d -> primary d' = primary d -> seq_tasks d' = seq_tasks d ->
  heap_ok loc (<[t := d']> h) next seqs.
Proof using Hok.
  intros Ht Ei Et Ep Es. destruct Hok as [Hdom Hnext Hplace Hseq Hinseq Hprim Hreg]. constructor.
  - intros x. rewrite <- Hdom. ins x t; [|done]. rewrite Ht. by split; intros _; eexists.
  - intros x. ins x t; [|apply Hnext]. intros _. apply Hnext. by rewrite Ht.
  - intros x dx px. ins x t; [|apply Hplace]. intros [= <-] Hl. specialize (Hplace _ _ _ Ht Hl).
    destruct px as [|[]| | | | | | | | | |]; cbn in *; rewrite ?Et, ?Es, ?Ep; done.
  - intros s ds. ins s t; [|apply Hseq]. intros [= <-]. rewrite Es, Et, Ep. by apply Hseq.
  - intros s x Hx. destruct (Hinseq s x Hx) as (ds & E & Hin). ins s t; [|eauto].
    exists d'. split; [done|]. rewrite Es. congruence.
  - intros dd x. rewrite Hprim. ins dd t; [|done]. rewrite Ht.
    split; intros (? & [= <-] & ?); eexists; (split; [done|congruence]).
  - intros X s. rewrite Hreg. ins s t; [|done]. rewrite Ht.
    split; intros (? & [= <-] & ? & ?); eexists; (split_and!; [done|congruence..]).
Qed.

(** [t] enters the sequence [s]. *)
Lemma heap_seq_append (s t : Z) (ds d : pp_task) (p : place) :
  h !! s = Some ds -> type ds = ZBX_PP_TASK_SEQUENCE -> h !! t = Some d -> loc !! t = Some p -> plain p = true ->
  place_ok d (InSeq s) ->
  heap_ok (<[t := InSeq s]> loc) (<[s := set_seq ds (seq_tasks ds ++ [t])]> h) next seqs.
Proof using Hok.
  intros Hs Hty Ht Hl Hp Hd. destruct Hok as [Hdom Hnext Hplace Hseq Hinseq Hprim Hreg].
  assert (Hne : t <> s) by (intros ->; cbn in Hd; intuition congruence).
  destruct (Hseq s ds Hs) as (Hnd & Hin & _ & Hpr).
  constructor.
  - intros x. rewrite lookup_insert_is_Some, lookup_insert_is_Some, <- Hdom. split; intros [<- | [Hx Hi]].
    + destruct (decide (t = s)); [by left|]. right. split; [done|]. rewrite Hs. by eexists.
    + destruct (decide (t = x)); [by left|]. by right.
    + destruct (decide (s = t)); [by left|]. right. split; [done|]. rewrite Ht. by eexists.
    + destruct (decide (s = x)); [by left|]. by right.
  - intros x. ins x s; [|apply Hnext]. intros _. apply Hnext. rewrite Hs. by eexists.
  - intros x dx px. ins x t.
    + rewrite (lookup_insert_ne h) by done. intros E [= <-]. assert (dx = d) as -> by congruence. done.
    + ins x s; [|apply Hplace]. intros [= <-] Hx. specialize (Hplace _ _ _ Hs Hx).
      destruct px as [|[]| | | | | | | | | |]; cbn in *; try done; try tauto; try (split; [apply Hplace|by destruct (seq_tasks ds)]).
  - intros x dx. ins x s.
    + intros [= <-]. cbn [set_seq seq_tasks type primary]. split_and!; [| |congruence|done].
      * apply NoDup_app. split_and!; [done| |apply NoDup_singleton]. intros y Hy ->%list_elem_of_singleton.
        apply Hin in Hy. assert (p = InSeq s) as -> by congruence. done.
      * intros y [Hy%Hin | ->%list_elem_of_singleton]%elem_of_app; [|by rewrite lookup_insert_eq].
        ins y t; [done|done].
    + intros (H1 & H2 & H3)%Hseq. split_and!; [done| |apply H3..]. intros y Hy%H2. ins y t; [|done].
      assert (p = InSeq x) as -> by congruence. done.
  - intros x y. ins y t.
    + intros [= <-]. rewrite lookup_insert_eq. eexists. split; [done|]. cbn. rewrite elem_of_app, list_elem_of_singleton. by right.
    + intros (dx & E & Hy)%Hinseq. ins x s; [|eauto]. eexists. split; [done|]. cbn. rewrite elem_of_app. left. congruence.
  - intros x y. assert (Hx : (exists dd, <[s := set_seq ds (seq_tasks ds ++ [t])]> h !! x = Some dd /\ primary dd = Some y) <->
      exists dd, h !! x = Some dd /\ primary dd = Some y).
    { ins x s; [|done]. rewrite Hs. split; intros (? & [= <-] & E); eauto. }
    rewrite Hx, <- Hprim. ins y t; [|done]. rewrite Hl. split; intros [= ->]; done.
  - intros X x. rewrite Hreg. ins x s; [|done]. rewrite Hs.
    split; intros (? & [= <-] & ? & ?); eexists; (split_and!; [done|done..]).
Qed.

(** The head [t] leaves the sequence in hand. *)
Lemma heap_seq_pop (s t : Z) (ds : pp_task) (l : list Z) :
  h !! s = Some ds -> type ds = ZBX_PP_TASK_SEQUENCE -> loc !! s = Some (Hand false) -> seq_tasks ds = t :: l ->
  heap_ok (<[t := Own]> loc) (<[s := set_seq ds l]> h) next seqs.
Proof using Hok.
  intros Hs Hty Hls El. destruct Hok as [Hdom Hnext Hplace Hseq Hinseq Hprim Hreg].
  destruct (Hseq s ds Hs) as (Hnd & Hin & _ & Hpr). rewrite El in Hnd, Hin. apply NoDup_cons in Hnd as [Hnt Hnd].
  assert (Hl : loc !! t = Some (InSeq s)) by (apply Hin; left).
  assert (Hne : t <> s) by congruence.
  destruct (proj2 (Hdom t)) as [d Ht]; [rewrite Hl; by eexists|]. pose proof (Hplace _ _ _ Ht Hl) as Hd.
  constructor.
  - intros x. rewrite lookup_insert_is_Some, lookup_insert_is_Some, <- Hdom. split; intros [<- | [Hx Hi]].
    + destruct (decide (t = s)); [by left|]. right. split; [done|]. rewrite Hs. by eexists.
    + destruct (decide (t = x)); [by left|]. by right.
    + destruct (decide (s = t)); [by left|]. right. split; [done|]. rewrite Ht. by eexists.
    + destruct (decide (s = x)); [by left|]. by right.
  - intros x. ins x s; [|apply Hnext]. intros _. apply Hnext. rewrite Hs. by eexists.
  - intros x dx px. ins x t.
    + rewrite (lookup_insert_ne h) by done. intros E [= <-]. assert (dx = d) as -> by congruence.
      cbn in *. intuition congruence.
    + ins x s; [|apply Hplace]. intros [= <-] Hx. assert (px = Hand false) as -> by congruence. done.
  - intros x dx. ins x s.
    + intros [= <-]. cbn [set_seq seq_tasks type primary]. split_and!; [done| |congruence|done].
      intros y Hy. ins y t; [done|]. apply Hin. by right.
    + intros (H1 & H2 & H3)%Hseq. split_and!; [done| |apply H3..]. intros y Hy%H2. ins y t; [|done]. congruence.
  - intros x y. ins y t; [intros [= ->]; done|]. intros (dx & E & Hy)%Hinseq. ins x s; [|eauto].
    eexists. split; [done|]. assert (dx = ds) as -> by congruence. rewrite El in Hy. cbn.
    by apply elem_of_cons in Hy as [-> |].
  - intros x y. assert (Hx : (exists dd, <[s := set_seq ds l]> h !! x = Some dd /\ primary dd = Some y) <->
      exists dd, h !! x = Some dd /\ primary dd = Some y).
    { ins x s; [|done]. rewrite Hs. split; intros (? & [= <-] & E); eauto. }
    rewrite Hx, <- Hprim. ins y t; [|done]. rewrite Hl. split; intros [= ->]; done.
  - intros X x. rewrite Hreg. ins x s; [|done]. rewrite Hs.
    split; intros (? & [= <-] & ? & ?); eexists; (split_and!; [done|done..]).
Qed.

(** The fields that survive a change of [primary]. *)
Lemma place_ok_primary (d : pp_task) (p : place) (o : option Z) :
  place_ok d p -> plain p = true -> place_ok (set_primary d o) p.
Proof. intros Hd Hp. destruct p as [|[]| | | | | | | | | |]; done. Qed.

(** A dependent task takes its primary task, or gives it back. *)
Lemma heap_set_primary (t p : Z) (d dp : pp_task) :
  h !! t = Some d -> loc !! t = Some Own -> type d = ZBX_PP_TASK_DEPENDENT -> primary d = None ->
  h !! p = Some dp -> loc !! p = Some Own -> type dp = ZBX_PP_TASK_VALUE ->
  heap_ok (<[p := Primary t]> loc) (<[t := set_primary d (Some p)]> h) next seqs.
Proof using Hok.
  intros Ht Hl Hty Hpd Hp Hlp Htp. destruct Hok as [Hdom Hnext Hplace Hseq Hinseq Hprim Hreg].
  assert (Hne : p <> t) by congruence. constructor.
  - intros x. ins x p.
    { rewrite lookup_insert_ne, Hp by done. by split; intros _; eexists. }
    ins x t; [|apply Hdom]. rewrite Hl. by split; intros _; eexists.
  - intros x. ins x t; [|apply Hnext]. intros _. apply Hnext. rewrite Ht. by eexists.
  - intros x dx px. ins x p; [rewrite lookup_insert_ne by done; intros E [= <-]; congruence|].
    ins x t; [|apply Hplace]. intros [= <-] E. assert (px = Own) as -> by congruence. by apply (Hplace t d Own).
  - intros x dx. ins x t.
    + intros [= <-]. destruct (Hseq t d Ht) as (H1 & H2 & H3 & H4). cbn. rewrite H3 by congruence.
      split_and!; [constructor|set_solver|done|done].
    + intros (H1 & H2 & H3)%Hseq. split_and!; [done| |apply H3..]. intros y Hy%H2. ins y p; [congruence|done].
  - intros x y. ins y p; [intros [= ->]; done|]. intros (dx & E & Hy)%Hinseq. ins x t; [|eauto].
    assert (dx = d) as -> by congruence. destruct (Hseq t d Ht) as (_ & _ & H3 & _). rewrite H3 in Hy by congruence.
    by apply elem_of_nil in Hy.
  - intros x y. ins x t.
    + ins y p; [split; intros _; eauto|]. rewrite Hprim, Ht. split; intros (? & [= <-] & E); cbn in *; congruence.
    + ins y p; [|apply Hprim]. split; [intros [= ->]; done|]. intros Hx%Hprim. congruence.
  - intros X x. rewrite Hreg. ins x t; [|done]. rewrite Ht.
    split; intros (? & [= <-] & ? & ?); eexists; (split_and!; [done|done..]).
Qed.

Lemma heap_clear_primary (t p : Z) (d : pp_task) :
  h !! t = Some d -> loc !! t = Some Own -> type d = ZBX_PP_TASK_DEPENDENT -> primary d = Some p ->
  heap_ok (<[p := Own]> loc) (<[t := set_primary d None]> h) next seqs.
Proof using Hok.
  intros Ht Hl Hty Hpd. destruct Hok as [Hdom Hnext Hplace Hseq Hinseq Hprim Hreg].
  assert (Hlp : loc !! p = Some (Primary t)) by (apply Hprim; eauto).
  assert (Hne : p <> t) by congruence.
  destruct (proj2 (Hdom p)) as [dp Hp]; [rewrite Hlp; by eexists|]. pose proof (Hplace _ _ _ Hp Hlp) as Htp. cbn in Htp.
  constructor.
  - intros x. ins x p.
    { rewrite lookup_insert_ne, Hp by done. by split; intros _; eexists. }
    ins x t; [|apply Hdom]. rewrite Hl. by split; intros _; eexists.
  - intros x. ins x t; [|apply Hnext]. intros _. apply Hnext. rewrite Ht. by eexists.
  - intros x dx px. ins x p; [rewrite lookup_insert_ne by done; intros E [= <-]; cbn; congruence|].
    ins x t; [|apply Hplace]. intros [= <-] E. assert (px = Own) as -> by congruence. by apply (Hplace t d Own).
  - intros x dx. ins x t.
    + intros [= <-]. destruct (Hseq t d Ht) as (H1 & H2 & H3 & H4). cbn. rewrite H3 by congruence.
      split_and!; [constructor|set_solver|done|done].
    + intros (H1 & H2 & H3)%Hseq. split_and!; [done| |apply H3..]. intros y Hy%H2. ins y p; [congruence|done].
  - intros x y. ins y p; [intros [= ->]; done|]. intros (dx & E & Hy)%Hinseq. ins x t; [|eauto].
    assert (dx = d) as -> by congruence. destruct (Hseq t d Ht) as (_ & _ & H3 & _). rewrite H3 in Hy by congruence.
    by apply elem_of_nil in Hy.
  - intros x y. ins x t.
    + ins y p; [split; [intros [= ->]; done|intros (? & [= <-] & ?); done]|].
      rewrite Hprim, Ht. split; intros (? & [= <-] & E); cbn in *; congruence.
    + ins y p; [|apply Hprim]. split; [intros [= ->]; done|]. intros Hx%Hprim. congruence.
  - intros X x. rewrite Hreg. ins x t; [|done]. rewrite Ht.
    split; intros (? & [= <-] & ? & ?); eexists; (split_and!; [done|done..]).
Qed.

Lemma heap_free (t : Z) (d : pp_task) (p : place) (seqs' : gmap Z Z) :
  h !! t = Some d -> loc !! t = Some p -> plain p = true -> seq_tasks d = [] -> primary d = None ->
  (forall X s, seqs' !! X = Some s <-> seqs !! X = Some s /\ s <> t) ->
  heap_ok (delete t loc) (delete t h) next seqs'.
Proof using Hok.
  intros Ht Hl Hp Hs Hpr Hseqs. destruct Hok as [Hdom Hnext Hplace Hseq Hinseq Hprim Hreg].
  constructor.
  - intros x. destruct (decide (x = t)) as [-> |]; [by rewrite !lookup_delete_eq|]. by rewrite !lookup_delete_ne.
  - intros x [dx Hx]. apply lookup_delete_Some in Hx as [_ Hx]. apply Hnext. rewrite Hx. by eexists.
  - intros x dx px [_ Hx]%lookup_delete_Some [_ Hx']%lookup_delete_Some. by apply (Hplace x).
  - intros x dx [Hne Hx]%lookup_delete_Some. destruct (Hseq x dx Hx) as (H1 & H2 & H3). split_and!; [done| |apply H3..].
    intros y Hy%H2. rewrite lookup_delete_ne; [done|]. intros ->. assert (p = InSeq x) as -> by congruence. done.
  - intros x y [_ (dx & E & Hy)%Hinseq]%lookup_delete_Some. exists dx. split; [|done]. rewrite lookup_delete_ne; [done|].
    intros ->. assert (dx = d) as -> by congruence. rewrite Hs in Hy. by apply elem_of_nil in Hy.
  - intros x y. rewrite lookup_delete_Some, Hprim. split.
    + intros (Hne & dx & E & Ey). exists dx. split; [|done]. rewrite lookup_delete_ne; [done|]. intros ->. congruence.
    + intros (dx & [Hne E]%lookup_delete_Some & Ey). split; [|eauto]. intros ->.
      assert (loc !! y = Some (Primary x)) by (apply Hprim; eauto). assert (p = Primary x) as -> by congruence. done.
  - intros X x. rewrite Hseqs, Hreg. split.
    + intros ((dx & E & H1) & Hne). exists dx. by rewrite lookup_delete_ne.
    + intros (dx & [Hne E]%lookup_delete_Some & H1). split; [eauto|done].
Qed.
End Heap.

(* ------------------------------------------------------------------ *)
(** ** Lists, ownership, tracking *)

Definition at_pending (p : place) : bool := match p with InPending => true | _ => false end.
Definition at_immediate (p : place) : bool := match p with InImmediate | SeqImmediate => true | _ => false end.
Definition at_processing (p : place) : bool := match p with InProcessing | SeqProcessing => true | _ => false end.
Definition at_finished (p : place) : bool := match p with InFinished | SeqFinished => true | _ => false end.

(** [proc] are the tasks workers hold. *)
Record lists_ok (loc : gmap Z place) (q : pp_queue) (proc : list Z) : Prop := mkListsOk {
  lo_pending : listed loc at_pending (pending q);
  lo_immediate : listed loc at_immediate (immediate q);
  lo_processing : listed loc at_processing proc;
  lo_finished : listed loc at_finished (finished q)
}.

(** [own] are the tasks of the running code with their contents, [hands] the
    sequences it holds. *)
Record owned_ok (loc : gmap Z place) (h : gmap Z pp_task) (hands : gmap Z bool) (own : gmap Z pp_task) : Prop := mkOwnedOk {
  oo_hands : forall s b, hands !! s = Some b <-> loc !! s = Some (Hand b);
  oo_own : forall t d, own !! t = Some d <-> loc !! t = Some Own /\ h !! t = Some d
}.

Definition in_own (p : place) : bool := match p with Own => true | _ => false end.
Definition in_hand (p : place) : bool := match p with Hand _ => true | _ => false end.

Definition tracked_place (p : place) : bool :=
  match p with InPending | InImmediate | InProcessing | Held => true | _ => false end.
Definition track_ok (p : place) (s : pp_task_state) : Prop :=
  match p with
  | InPending | InImmediate | InProcessing => s = ZBX_PP_TASK_PENDING
  | Held => s = ZBX_PP_TASK_FINISHED
  | _ => False
  end.

(** A value task on its way is in the list of its item. *)
Record tracking (loc : gmap Z place) (h : gmap Z pp_task) (tks : gmap Z (list Z)) : Prop := mkTracking {
  tr_list : forall X l, tks !! X = Some l -> NoDup l /\ forall t, t ∈ l -> exists d p,
    h !! t = Some d /\ loc !! t = Some p /\ type d = ZBX_PP_TASK_VALUE /\ itemid d = X /\ track_ok p (state d);
  tr_all : forall t d p, h !! t = Some d -> loc !! t = Some p -> type d = ZBX_PP_TASK_VALUE -> tracked_place p = true ->
    exists l, tks !! itemid d = Some l /\ t ∈ l
}.

(** The lists of tracked tasks are not empty and start with an unfinished task. *)
Definition heads_waiting (loc : gmap Z place) (tks : gmap Z (list Z)) : Prop :=
  forall X l, tks !! X = Some l -> exists t l', l = t :: l' /\ loc !! t <> Some Held.

Definition log_of (X : Z) (log : list (Z * Z)) : list Z := snd <$> filter (fun e => e.1 = X) log.

Definition logs_ok (w : world) : Prop :=
  forall X, log_of X (tracked_log w) = log_of X (finished_log w) ++ default [] (tasks (queue w) !! X).

Record inv (off : Z) (proc : list Z) (hands : gmap Z bool) (own : gmap Z pp_task) (loc : gmap Z place) (w : world) : Prop := mkInv {
  inv_heap : heap_ok loc (heap w) (next_task w) (sequences (queue w));
  inv_lists : lists_ok loc (queue w) proc;
  inv_owned : owned_ok loc (heap w) hands own;
  inv_tracking : tracking loc (heap w) (tasks (queue w));
  inv_heads : heads_waiting loc (tasks (queue w));
  inv_logs : logs_ok w;
  inv_pending : pending_num (queue w) = u64 (total loc + off);
  inv_processing : processing_num (queue w) = u64 (Z.of_nat (length proc));
  inv_finished : finished_num (queue w) = u64 (Z.of_nat (length (finished (queue w))))
}.

Section Owned.
Context (loc : gmap Z place) (h : gmap Z pp_task) (hands : gmap Z bool) (own : gmap Z pp_task).
Hypothesis Hok : owned_ok loc h hands own.

Lemma owned_other (t : Z) (p' : place) :
  (forall p, loc !! t = Some p -> in_own p = false /\ in_hand p = false) -> in_own p' = false -> in_hand p' = false ->
  owned_ok (<[t := p']> loc) h hands own.
Proof using Hok.
  intros Ht H1 H2. destruct Hok as [Hh Ho]. split; intros x.
  - intros b. rewrite Hh. ins x t; [|done]. split; [intros E; by destruct (Ht _ E)|intros [= ->]; done].
  - intros d. rewrite Ho. ins x t; [|done]. split; [intros [E _]; by destruct (Ht _ E)|intros [[= ->] _]; done].
Qed.

Lemma owned_leave (t : Z) (p' : place) :
  loc !! t = Some Own -> in_own p' = false -> in_hand p' = false -> owned_ok (<[t := p']> loc) h hands (delete t own).
Proof using Hok.
  intros Ht H1 H2. destruct Hok as [Hh Ho]. split; intros x.
  - intros b. rewrite Hh. ins x t; [|done]. split; [congruence|intros [= ->]; done].
  - intros d. rewrite lookup_delete_Some, Ho. ins x t; [|naive_solver]. split; [by intros []|intros [[= ->] _]; done].
Qed.

Lemma owned_take (t : Z) (d : pp_task) :
  h !! t = Some d -> (forall p, loc !! t = Some p -> in_hand p = false) -> owned_ok (<[t := Own]> loc) h hands (<[t := d]> own).
Proof using Hok.
  intros Ht H2. destruct Hok as [Hh Ho]. split; intros x.
  - intros b. rewrite Hh. ins x t; [|done]. split; [intros E; by specialize (H2 _ E)|done].
  - intros dx. ins x t; [|apply Ho]. rewrite Ht. split; [intros [= ->]; done|intros [_ E]; done].
Qed.

Lemma hand_leave (s : Z) (b : bool) (p' : place) :
  loc !! s = Some (Hand b) -> in_own p' = false -> in_hand p' = false -> owned_ok (<[s := p']> loc) h (delete s hands) own.
Proof using Hok.
  intros Hs H1 H2. destruct Hok as [Hh Ho]. split; intros x.
  - intros b'. rewrite lookup_delete_Some, Hh. ins x s; [|naive_solver]. split; [by intros []|intros [= ->]; done].
  - intros d. rewrite Ho. ins x s; [|done]. split; [intros [E _]; congruence|intros [[= ->] _]; done].
Qed.

Lemma hand_take (s : Z) (b : bool) :
  (forall p, loc !! s = Some p -> in_own p = false) -> owned_ok (<[s := Hand b]> loc) h (<[s := b]> hands) own.
Proof using Hok.
  intros H1. destruct Hok as [Hh Ho]. split; intros x.
  - intros b'. ins x s; [|apply Hh]. split; [intros [= ->]; done|intros [= ->]; done].
  - intros d. rewrite Ho. ins x s; [|done]. split; [intros [E _]; by specialize (H1 _ E)|by intros []].
Qed.

(** Changes of the heap: of an owned task, or of one that is not owned. *)
Lemma owned_update (t : Z) (d' : pp_task) :
  loc !! t = Some Own -> owned_ok loc (<[t := d']> h) hands (<[t := d']> own).
Proof using Hok.
  intros Ht. destruct Hok as [Hh Ho]. split; intros x; [apply Hh|]. intros d. ins x t; [|apply Ho]. naive_solver.
Qed.

Lemma owned_frame (t : Z) (d' : pp_task) :
  loc !! t <> Some Own -> owned_ok loc (<[t := d']> h) hands own.
Proof using Hok.
  intros Ht. destruct Hok as [Hh Ho]. split; intros x; [apply Hh|]. intros d. rewrite Ho. ins x t; [|done].
  split; intros [? _]; done.
Qed.

Lemma owned_free (t : Z) : owned_ok (delete t loc) (delete t h) (delete t hands) (delete t own).
Proof using Hok.
  destruct Hok as [Hh Ho]. split; intros x.
  - intros b. by rewrite !lookup_delete_Some, Hh.
  - intros d. rewrite !lookup_delete_Some, Ho. naive_solver.
Qed.
End Owned.

Section Track.
Context (loc : gmap Z place) (h : gmap Z pp_task) (tks : gmap Z (list Z)).
Hypothesis Hok : tracking loc h tks.

(** A move that does not concern the tracked lists. *)
Lemma tracking_move (t : Z) (d : pp_task) (p p' : place) :
  h !! t = Some d -> loc !! t = Some p ->
  (type d = ZBX_PP_TASK_VALUE -> tracked_place p = tracked_place p' /\ (tracked_place p' = true -> track_ok p' (state d))) ->
  tracking (<[t := p']> loc) h tks.
Proof using Hok.
  intros Ht Hl Hp. destruct Hok as [Hlist Hall]. constructor.
  - intros X l Hx. destruct (Hlist X l Hx) as [Hnd Hin]. split; [done|]. intros x Hxl.
    destruct (Hin x Hxl) as (dx & px & E1 & E2 & E3 & E4 & E5). exists dx. ins x t; [|eauto 10].
    assert (dx = d) as -> by congruence. assert (px = p) as -> by congruence.
    destruct (Hp E3) as [Hq Hq']. exists p'. split_and!; try done. apply Hq'. rewrite <- Hq. by destruct p.
  - intros x dx px Hx. ins x t; [|by apply Hall]. intros [= <-] E3 Htr. assert (dx = d) as -> by congruence.
    destruct (Hp E3) as [Hq _]. apply (Hall t d p); congruence.
Qed.

(** A change of contents that keeps item, type and state, or of a task that is not tracked. *)
Lemma tracking_update (t : Z) (d d' : pp_task) :
  h !! t = Some d -> itemid d' = itemid d -> type d' = type d -> (state d' = state d \/ forall p, loc !! t = Some p -> tracked_place p = false) ->
  tracking loc (<[t := d']> h) tks.
Proof using Hok.
  intros Ht E1 E2 E3. destruct Hok as [Hlist Hall]. constructor.
  - intros X l Hx. destruct (Hlist X l Hx) as [Hnd Hin]. split; [done|]. intros x Hxl.
    destruct (Hin x Hxl) as (dx & px & F1 & F2 & F3 & F4 & F5). ins x t; [|eauto 10].
    assert (dx = d) as -> by congruence. exists d', px. split_and!; try congruence.
    destruct E3 as [-> | E3]; [done|]. specialize (E3 px F2). by destruct px.
  - intros x dx px Hx Hl Hty Htr. ins x t; [|by apply (Hall x dx px)]. injection Hx as <-. rewrite E1.
    apply (Hall t d px); congruence.
Qed.

(** A task that is new to the heap, or a fresh one with a new place. *)
Lemma tracking_create (t : Z) (d : pp_task) (p : place) :
  h !! t = None -> tracked_place p = false -> tracking (<[t := p]> loc) (<[t := d]> h) tks.
Proof using Hok.
  intros Ht Hp. destruct Hok as [Hlist Hall]. constructor.
  - intros X l Hx. destruct (Hlist X l Hx) as [Hnd Hin]. split; [done|]. intros x Hxl.
    destruct (Hin x Hxl) as (dx & px & E1 & E2 & E3 & E4 & E5). exists dx, px.
    rewrite !lookup_insert_ne; [done|congruence..].
  - intros x dx px. ins x t; [intros [= <-] [= <-]; congruence|apply Hall].
Qed.

Lemma tracking_delete (t : Z) :
  (forall p, loc !! t = Some p -> tracked_place p = false) -> tracking (delete t loc) (delete t h) tks.
Proof using Hok.
  intros Hp. destruct Hok as [Hlist Hall]. constructor.
  - intros X l Hx. destruct (Hlist X l Hx) as [Hnd Hin]. split; [done|]. intros x Hxl.
    destruct (Hin x Hxl) as (dx & px & E1 & E2 & E3 & E4 & E5). exists dx, px.
    assert (t <> x); [|by rewrite !lookup_delete_ne]. intros ->. specialize (Hp px E2). by destruct px.
  - intros x dx px [_ Hx]%lookup_delete_Some [_ Hl]%lookup_delete_Some. by apply Hall.
Qed.
End Track.

Lemma heads_move (loc : gmap Z place) (tks : gmap Z (list Z)) (t : Z) (p' : place) :
  heads_waiting loc tks -> p' <> Held -> heads_waiting (<[t := p']> loc) tks.
Proof.
  intros Hh Hp X l Hx. destruct (Hh X l Hx) as (x & l' & -> & Hne). exists x, l'. split; [done|].
  ins x t; [congruence|done].
Qed.
