(* ===== verification/PpOps.v ===== *)
(** The operations of the preprocessing queue keep the invariant of PpInv: each
    one succeeds on a task its caller owns (no task is used after it was freed)
    and moves it to its next place. *)

From stdpp Require Import base list numbers strings gmap.
From Stdlib Require Import ZArith Lia.
From S2P Require Import Prelude PpQueue PpInv.

Open Scope Z_scope.

Lemma bind_run {A B : Type} (m : M A) (k : A -> M B) (w w' : world) (a : A) :
  m w = Ret (a, w') -> (m ≫= k) w = k a w'.
Proof. intros E. unfold mbind, M_bind. by rewrite E. Qed.

Lemma deref_run (t : Z) (d : pp_task) (w : world) : heap w !! t = Some d -> deref t w = Ret (d, w).
Proof. intros E. unfold deref. by rewrite E. Qed.
Lemma update_run (t : Z) (d : pp_task) (f : pp_task -> pp_task) (w : world) :
  heap w !! t = Some d -> update t f w = Ret (tt, set_heap w (<[t := f d]> (heap w))).
Proof. intros E. unfold update. by rewrite E. Qed.
Lemma release_run (t : Z) (d : pp_task) (w : world) :
  heap w !! t = Some d -> release t w = Ret (tt, set_heap w (delete t (heap w))).
Proof. intros E. unfold release. by rewrite E. Qed.

(** One bind whose first part is a known computation. *)
Ltac step := erewrite bind_run; [|first [reflexivity | apply deref_run; eassumption | apply update_run; eassumption | apply release_run; eassumption]]; cbv beta iota.

Lemma u64_plus (a b : Z) : u64 (u64 a + b) = u64 (a + b).
Proof. unfold u64. apply Zplus_mod_idemp_l. Qed.
Lemma u64_minus (a b : Z) : u64 (u64 a - b) = u64 (a - b).
Proof. unfold u64. apply Zminus_mod_idemp_l. Qed.

(** [off] corrects pending_num while an operation is between its steps. *)
Definition Inv (off : Z) (proc : list Z) (hands : gmap Z bool) (own : gmap Z pp_task) (w : world) : Prop :=
  exists loc, inv off proc hands own loc w.

Lemma inv_own_heap (off : Z) (proc : list Z) (hands : gmap Z bool) (own : gmap Z pp_task) (loc : gmap Z place) (w : world) (t : Z) (d : pp_task) :
  inv off proc hands own loc w -> own !! t = Some d -> loc !! t = Some Own /\ heap w !! t = Some d.
Proof. intros Hi. apply (oo_own _ _ _ _ (inv_owned _ _ _ _ _ _ Hi)). Qed.

Lemma Inv_own_heap (off : Z) (proc : list Z) (hands : gmap Z bool) (own : gmap Z pp_task) (w : world) (t : Z) (d : pp_task) :
  Inv off proc hands own w -> own !! t = Some d -> heap w !! t = Some d.
Proof. intros [loc Hi] Ho. by apply (inv_own_heap _ _ _ _ _ _ t d Hi). Qed.

Lemma inv_hand_heap (off : Z) (proc : list Z) (hands : gmap Z bool) (own : gmap Z pp_task) (loc : gmap Z place) (w : world) (s : Z) (b : bool) :
  inv off proc hands own loc w -> hands !! s = Some b ->
  loc !! s = Some (Hand b) /\ exists ds, heap w !! s = Some ds /\ type ds = ZBX_PP_TASK_SEQUENCE /\ (b = true -> seq_tasks ds <> []).
Proof.
  intros Hi Hs. apply (oo_hands _ _ _ _ (inv_owned _ _ _ _ _ _ Hi)) in Hs. split; [done|].
  destruct (proj2 (ho_dom _ _ _ _ (inv_heap _ _ _ _ _ _ Hi) s)) as [ds E]; [rewrite Hs; by eexists|].
  exists ds. split; [done|]. pose proof (ho_place _ _ _ _ (inv_heap _ _ _ _ _ _ Hi) _ _ _ E Hs) as Hd. destruct b; [by destruct Hd|done].
Qed.

Lemma next_fresh (loc : gmap Z place) (h : gmap Z pp_task) (next : Z) (seqs : gmap Z Z) :
  heap_ok loc h next seqs -> h !! next = None /\ loc !! next = None.
Proof.
  intros Hok. assert (Hn : h !! next = None).
  { destruct (h !! next) eqn:E; [|done]. assert (next < next); [|lia]. apply (ho_next _ _ _ _ Hok). rewrite E. by eexists. }
  split; [done|]. destruct (loc !! next) eqn:E; [|done].
  destruct (proj2 (ho_dom _ _ _ _ Hok next)) as [? E2]; [rewrite E; by eexists|congruence].
Qed.

(** Moving one task between places that are in no list. *)
Lemma lists_other (loc : gmap Z place) (q : pp_queue) (proc : list Z) (t : Z) (p' : place) :
  lists_ok loc q proc ->
  (forall p, loc !! t = Some p -> at_pending p = false /\ at_immediate p = false /\ at_processing p = false /\ at_finished p = false) ->
  at_pending p' = false -> at_immediate p' = false -> at_processing p' = false -> at_finished p' = false ->
  lists_ok (<[t := p']> loc) q proc.
Proof.
  intros [H1 H2 H3 H4] Hp Ha Hb Hc Hd. constructor; apply listed_other; try done; intros p E; by destruct (Hp p E) as (? & ? & ? & ?).
Qed.

Lemma create_spec (off : Z) (proc : list Z) (hands : gmap Z bool) (own : gmap Z pp_task) (d : pp_task) :
  type d <> ZBX_PP_TASK_SEQUENCE -> seq_tasks d = [] -> primary d = None ->
  triple (Inv off proc hands own) (pp_task_create d) (fun t w => own !! t = None /\ Inv off proc hands (<[t := d]> own) w).
Proof.
  intros Hty Hs Hp w [loc Hi]. eexists _, _. split; [reflexivity|]. destruct Hi as [Hh Hl Ho Ht Hw Hlog H1 H2 H3].
  destruct (next_fresh _ _ _ _ Hh) as [Hn Hln]. set (n := next_task w) in *. split.
  { destruct (own !! n) eqn:E; [|done]. apply (oo_own _ _ _ _ Ho) in E as [E _]. congruence. }
  exists (<[n := Own]> loc). constructor; cbn [heap next_task queue]; try done.
  - apply (heap_create _ _ _ _ Hh); try done. intros X s. split; [by left|intros [?|(_ & ? & _)]; done].
  - apply lists_other; try done. intros p. by rewrite Hln.
  - assert (Ho' : owned_ok loc (<[n := d]> (heap w)) hands own) by (apply owned_frame; [done|by rewrite Hln]).
    apply owned_take; [done|by rewrite lookup_insert_eq|by rewrite Hln].
  - by apply tracking_create.
  - by apply heads_move.
  - rewrite H1, total_fresh by done. cbn [weight]. f_equal; lia.
Qed.

Lemma inc_pending_spec (off : Z) (proc : list Z) (hands : gmap Z bool) (own : gmap Z pp_task) :
  triple (Inv off proc hands own) inc_pending (fun _ => Inv (off + 1) proc hands own).
Proof.
  intros w [loc Hi]. eexists _, _. split; [reflexivity|]. exists loc. destruct Hi as [Hh [] Ho Ht Hw Hlog H1 H2 H3].
  constructor; cbn; try done. rewrite H1, u64_plus. f_equal; lia.
Qed.

(** One task moves; the lists and the counters change with it. *)
Lemma inv_move (off : Z) (proc : list Z) (hands : gmap Z bool) (own : gmap Z pp_task) (loc : gmap Z place) (w : world)
    (t : Z) (d : pp_task) (p p' : place) (off' : Z) (proc' : list Z) (hands' : gmap Z bool) (own' : gmap Z pp_task) (q' : pp_queue) :
  inv off proc hands own loc w -> heap w !! t = Some d -> loc !! t = Some p -> plain p = true -> plain p' = true ->
  place_ok d p' -> p' <> Held ->
  (type d = ZBX_PP_TASK_VALUE -> tracked_place p = tracked_place p' /\ (tracked_place p' = true -> track_ok p' (state d))) ->
  sequences q' = sequences (queue w) -> tasks q' = tasks (queue w) ->
  lists_ok (<[t := p']> loc) q' proc' -> owned_ok (<[t := p']> loc) (heap w) hands' own' ->
  pending_num q' = u64 (total loc - weight p + weight p' + off') -> processing_num q' = u64 (Z.of_nat (length proc')) ->
  finished_num q' = u64 (Z.of_nat (length (finished q'))) ->
  inv off' proc' hands' own' (<[t := p']> loc) (set_queue w q').
Proof.
  intros [Hh Hl Ho Ht Hw Hlog H1 H2 H3] Ed El Hp Hp' Hd Hheld Htr Es Et Hlists Hown N1 N2 N3.
  constructor; cbn [heap next_task queue set_queue tracked_log finished_log]; try done; rewrite ?Es, ?Et.
  - by apply (heap_move _ _ _ _ Hh t d p p').
  - by apply (tracking_move _ _ _ Ht t d p p').
  - by apply heads_move.
  - intros X. rewrite Hlog. cbn. by rewrite Et.
  - by rewrite N1, (total_move loc t p p' El).
Qed.

(** The places of the two tasks a list operation can move. *)
Ltac places := intros ?p ?E; simplify_eq; try done; by auto.

Lemma append_immediate_seq (off : Z) (proc : list Z) (hands : gmap Z bool) (own : gmap Z pp_task) (s : Z) :
  hands !! s = Some false ->
  triple (fun w => Inv off proc hands own w /\ exists ds, heap w !! s = Some ds /\ seq_tasks ds <> [])
    (append_immediate s) (fun _ => Inv off proc (delete s hands) own).
Proof.
  intros Hs w [[loc Hi] (ds & Eds & Hne)]. eexists _, _. split; [reflexivity|]. exists (<[s := SeqImmediate]> loc).
  destruct (inv_hand_heap _ _ _ _ _ _ _ _ Hi Hs) as (Hl & ds' & E' & Hty & _). assert (ds' = ds) as -> by congruence.
  pose proof Hi as [Hh [L1 L2 L3 L4] Ho Ht Hw Hlog H1 H2 H3].
  apply (inv_move off proc hands own loc w s ds (Hand false) SeqImmediate); try done.
  - constructor; cbn; [apply listed_other|apply listed_add|apply listed_other|apply listed_other]; try done; places.
  - by apply (hand_leave _ _ _ _ Ho s false).
  - cbn. rewrite H1. f_equal; lia.
Qed.

Definition track_list (tks : gmap Z (list Z)) (X t : Z) : gmap Z (list Z) := <[X := default [] (tks !! X) ++ [t]]> tks.

Lemma tracking_add (loc : gmap Z place) (h : gmap Z pp_task) (tks : gmap Z (list Z)) (t : Z) (d : pp_task) (p' : place) :
  tracking loc h tks -> h !! t = Some d -> loc !! t = Some Own -> type d = ZBX_PP_TASK_VALUE -> track_ok p' (state d) ->
  tracking (<[t := p']> loc) h (track_list tks (itemid d) t).
Proof.
  intros [Hlist Hall] Ht Hl Hty Hp. unfold track_list.
  assert (Hfresh : forall X l, tks !! X = Some l -> t ∉ l).
  { intros X l Hx Hin. destruct (Hlist X l Hx) as [_ H]. destruct (H t Hin) as (? & px & _ & E & _ & _ & Hk).
    assert (px = Own) as -> by congruence. done. }
  assert (Hold : forall X l x, tks !! X = Some l -> x ∈ l -> exists dx px, h !! x = Some dx /\
    <[t := p']> loc !! x = Some px /\ type dx = ZBX_PP_TASK_VALUE /\ itemid dx = X /\ track_ok px (state dx)).
  { intros X l x Hx Hin. destruct (Hlist X l Hx) as [_ H]. destruct (H x Hin) as (dx & px & E1 & E2 & E3).
    exists dx, px. split; [done|]. split; [|done]. rewrite lookup_insert_ne; [done|]. intros <-. by apply (Hfresh X l). }
  constructor.
  - intros X l. destruct (decide (X = itemid d)) as [-> | Hne].
    + rewrite lookup_insert_eq. intros [= <-]. split.
      * apply NoDup_app. destruct (tks !! itemid d) as [l|] eqn:El; cbn [default]; split_and!; try apply NoDup_singleton.
        -- exact (proj1 (Hlist _ l El)).
        -- intros x Hx ->%list_elem_of_singleton. by apply (Hfresh (itemid d) l).
        -- constructor.
        -- intros x Hx. by apply elem_of_nil in Hx.
      * intros x [Hx | ->%list_elem_of_singleton]%elem_of_app.
        -- destruct (tks !! itemid d) as [l|] eqn:El; [|by apply elem_of_nil in Hx]. by apply (Hold _ l).
        -- exists d, p'. by rewrite lookup_insert_eq.
    + rewrite lookup_insert_ne by done. intros Hx. split; [exact (proj1 (Hlist X l Hx))|]. intros x. by apply Hold.
  - intros x dx px Hx. destruct (decide (x = t)) as [-> | Hxt].
    + intros _ _ _. assert (dx = d) as -> by congruence. rewrite lookup_insert_eq. eexists. split; [done|].
      rewrite elem_of_app, list_elem_of_singleton. by right.
    + rewrite lookup_insert_ne by done. intros Hlx Htx Hpx. destruct (Hall x dx px Hx Hlx Htx Hpx) as (l & El & Hin).
      destruct (decide (itemid dx = itemid d)) as [E | Hne].
      * rewrite E, lookup_insert_eq. eexists. split; [done|]. rewrite <- E, El, elem_of_app. by left.
      * rewrite lookup_insert_ne by done. eauto.
Qed.

Lemma heads_add (loc : gmap Z place) (tks : gmap Z (list Z)) (t X : Z) (p' : place) :
  heads_waiting loc tks -> p' <> Held -> heads_waiting (<[t := p']> loc) (track_list tks X t).
Proof.
  intros Hh Hp Y l. unfold track_list.
  assert (Hx : forall x, loc !! x <> Some Held -> <[t := p']> loc !! x <> Some Held).
  { intros x E. ins x t; [congruence|done]. }
  destruct (decide (Y = X)) as [-> | Hne].
  - rewrite lookup_insert_eq. intros [= <-]. destruct (tks !! X) as [l|] eqn:El; cbn [default].
    + destruct (Hh X l El) as (x & l' & -> & E). exists x, (l' ++ [t]). split; [done|by apply Hx].
    + exists t, []. split; [done|]. rewrite lookup_insert_eq. congruence.
  - rewrite lookup_insert_ne by done. intros El. destruct (Hh Y l El) as (x & l' & -> & E). exists x, l'. split; [done|by apply Hx].
Qed.

Lemma log_of_app (X : Z) (log1 log2 : list (Z * Z)) : log_of X (log1 ++ log2) = log_of X log1 ++ log_of X log2.
Proof. unfold log_of. by rewrite filter_app, fmap_app. Qed.

Lemma log_of_one (X Y t : Z) : log_of X [(Y, t)] = if decide (X = Y) then [t] else [].
Proof.
  unfold log_of. destruct (decide (X = Y)) as [-> | Hne].
  - by rewrite filter_cons_True.
  - rewrite filter_cons_False; [done|]. cbn. congruence.
Qed.

(** A new value task is tracked and queued. *)
Lemma inv_track (off : Z) (proc : list Z) (hands : gmap Z bool) (own : gmap Z pp_task) (loc : gmap Z place) (w : world)
    (t : Z) (d : pp_task) (p' : place) (off' : Z) (q' : pp_queue) :
  inv off proc hands own loc w -> own !! t = Some d -> type d = ZBX_PP_TASK_VALUE -> state d = ZBX_PP_TASK_PENDING ->
  p' = InPending \/ p' = InImmediate ->
  sequences q' = sequences (queue w) -> tasks q' = track_list (tasks (queue w)) (itemid d) t ->
  lists_ok (<[t := p']> loc) q' proc ->
  pending_num q' = u64 (total loc + 1 + off') -> processing_num q' = u64 (Z.of_nat (length proc)) ->
  finished_num q' = u64 (Z.of_nat (length (finished q'))) ->
  inv off' proc hands (delete t own) (<[t := p']> loc)
    (mkWorld (heap w) (next_task w) q' (tracked_log w ++ [(itemid d, t)]) (finished_log w)).
Proof.
  intros Hi Hown Hty Hst Hp Es Et Hlists N1 N2 N3. destruct (inv_own_heap _ _ _ _ _ _ _ _ Hi Hown) as [Hl Hd].
  destruct Hi as [Hh _ Ho Ht Hw Hlog _ _ _].
  constructor; cbn [heap next_task queue tracked_log finished_log]; try done; rewrite ?Es, ?Et.
  - apply (heap_move _ _ _ _ Hh t d Own p'); try done; destruct Hp as [-> | ->]; try done; by left.
  - apply owned_leave; try done; by destruct Hp as [-> | ->].
  - apply tracking_add; try done. by destruct Hp as [-> | ->].
  - apply heads_add; [done|]. by destruct Hp as [-> | ->].
  - intros X. cbn [tracked_log finished_log queue]. rewrite Et, log_of_app, Hlog, log_of_one, <- app_assoc. f_equal. unfold track_list.
    destruct (decide (X = itemid d)) as [-> | Hne]; [by rewrite lookup_insert_eq|].
    by rewrite lookup_insert_ne, app_nil_r.
  - rewrite N1, (total_move loc t Own p' Hl). destruct Hp as [-> | ->]; cbn [weight]; f_equal; lia.
Qed.

Definition new_sequence (X : Z) : pp_task := mkTask X ZBX_PP_TASK_SEQUENCE ZBX_PP_TASK_PENDING no_preproc false None [].

Lemma inv_seq_create (off : Z) (proc : list Z) (hands : gmap Z bool) (own : gmap Z pp_task) (loc : gmap Z place) (w : world) (X : Z) :
  inv off proc hands own loc w -> sequences (queue w) !! X = None ->
  let s := next_task w in
  hands !! s = None /\
  inv off proc (<[s := false]> hands) own (<[s := Hand false]> loc)
    (mkWorld (<[s := new_sequence X]> (heap w)) (s + 1) (set_sequences (queue w) (<[X := s]> (sequences (queue w))))
      (tracked_log w) (finished_log w)).
Proof.
  intros [Hh Hl Ho Ht Hw Hlog H1 H2 H3] HX. cbn zeta. destruct (next_fresh _ _ _ _ Hh) as [Hn Hln].
  set (s := next_task w) in *. split.
  { destruct (hands !! s) eqn:E; [|done]. apply (oo_hands _ _ _ _ Ho) in E. congruence. }
  constructor; cbn [heap next_task queue tracked_log finished_log sequences tasks set_sequences]; try done.
  - apply (heap_create _ _ _ _ Hh); try done. intros Y y. cbn. destruct (decide (Y = X)) as [-> | Hne].
    + rewrite lookup_insert_eq, HX. naive_solver.
    + rewrite lookup_insert_ne by done. naive_solver.
  - destruct Hl. apply lists_other; [done|by rewrite Hln|done..].
  - assert (Ho' : owned_ok loc (<[s := new_sequence X]> (heap w)) hands own) by (apply owned_frame; [done|by rewrite Hln]).
    apply hand_take; [done|by rewrite Hln].
  - by apply tracking_create.
  - by apply heads_move.
  - cbn. rewrite H1, total_fresh by done. cbn [weight]. f_equal; lia.
Qed.

Lemma inv_seq_append (off : Z) (proc : list Z) (hands : gmap Z bool) (own : gmap Z pp_task) (loc : gmap Z place) (w : world)
    (s t : Z) (ds d : pp_task) :
  inv off proc hands own loc w -> heap w !! s = Some ds -> type ds = ZBX_PP_TASK_SEQUENCE ->
  own !! t = Some d -> place_ok d (InSeq s) ->
  inv (off - 1) proc hands (delete t own) (<[t := InSeq s]> loc)
    (set_heap w (<[s := set_seq ds (seq_tasks ds ++ [t])]> (heap w))).
Proof.
  intros Hi Hs Hty Hown Hd. destruct (inv_own_heap _ _ _ _ _ _ _ _ Hi Hown) as [Hl Ht].
  destruct Hi as [Hh Hlists Ho Htr Hw Hlog H1 H2 H3].
  assert (Hne : t <> s) by (intros ->; cbn in Hd; intuition congruence).
  constructor; cbn [heap next_task queue tracked_log finished_log set_heap]; try done.
  - by apply (heap_seq_append _ _ _ _ Hh s t ds d Own).
  - apply lists_other; [done|rewrite Hl; by intros p [= <-]|done..].
  - assert (Ho' : owned_ok loc (<[s := set_seq ds (seq_tasks ds ++ [t])]> (heap w)) hands own).
    { apply owned_frame; [done|]. intros E. apply (ho_place _ _ _ _ Hh _ _ _ Hs) in E. done. }
    by apply (owned_leave _ _ _ _ Ho').
  - assert (Htr' : tracking loc (<[s := set_seq ds (seq_tasks ds ++ [t])]> (heap w)) (tasks (queue w))).
    { apply (tracking_update _ _ _ Htr s ds); try done. by left. }
    apply (tracking_move _ _ _ Htr' t d Own); [by rewrite lookup_insert_ne|done|].
    intros E. cbn in Hd. intuition congruence.
  - by apply heads_move.
  - rewrite H1, (total_move loc t Own _ Hl). cbn [weight]. f_equal; lia.
Qed.

Lemma add_sequence_spec (off : Z) (proc : list Z) (hands : gmap Z bool) (own : gmap Z pp_task) (t : Z) (d : pp_task) :
  own !! t = Some d -> place_ok d (InSeq 0) ->
  triple (Inv off proc hands own) (pp_task_queue_add_sequence t) (fun r w =>
    match r with
    | None => Inv (off - 1) proc hands (delete t own) w
    | Some s => hands !! s = None /\ Inv (off - 1) proc (<[s := false]> hands) (delete t own) w /\
        exists ds, heap w !! s = Some ds /\ seq_tasks ds <> []
    end).
Proof.
  intros Hown Hd w [loc Hi]. destruct (inv_own_heap _ _ _ _ _ _ _ _ Hi Hown) as [Hl Ht].
  unfold pp_task_queue_add_sequence. step. step. destruct (sequences (queue w) !! itemid d) as [s|] eqn:Es.
  - destruct (proj1 (ho_reg _ _ _ _ (inv_heap _ _ _ _ _ _ Hi) _ _) Es) as (ds & Eds & Hty & _).
    step. step. eexists _, _. split; [reflexivity|]. eexists. by apply (inv_seq_append _ _ _ _ _ _ s t ds d Hi).
  - destruct (inv_seq_create _ _ _ _ _ _ _ Hi Es) as [Hf Hi']. set (s := next_task w) in *.
    match type of Hi' with inv _ _ _ _ _ ?x => set (w' := x) in * end.
    erewrite (bind_run _ _ w w' (s, Some s)); [|reflexivity]. cbv beta iota.
    assert (Eds : heap w' !! s = Some (new_sequence (itemid d))) by apply lookup_insert_eq.
    step. eexists _, _. split; [reflexivity|]. split; [done|]. split.
    + eexists. by apply (inv_seq_append _ _ _ _ _ _ s t (new_sequence (itemid d)) d Hi').
    + cbn. rewrite lookup_insert_eq. eexists. by split.
Qed.

Lemma deref_own {A : Type} (off : Z) (proc : list Z) (hands : gmap Z bool) (own : gmap Z pp_task) (t : Z) (d : pp_task)
    (k : pp_task -> M A) (Q : A -> world -> Prop) :
  own !! t = Some d -> triple (Inv off proc hands own) (k d) Q -> triple (Inv off proc hands own) (deref t ≫= k) Q.
Proof.
  intros Ho Hk w Hw. destruct (Hk w Hw) as (a & w' & E & HQ). exists a, w'. split; [|done].
  rewrite (bind_run _ _ w w d); [done|]. apply deref_run. by apply (Inv_own_heap _ _ _ _ w t d Hw).
Qed.

(** What a caller may queue. *)
Definition pushable (d : pp_task) : Prop :=
  type d = ZBX_PP_TASK_TEST \/ (type d = ZBX_PP_TASK_VALUE /\ state d = ZBX_PP_TASK_PENDING) \/ place_ok d (InSeq 0).

(** inc_pending and append_immediate on an owned test task. *)
Lemma push_test_spec (off : Z) (proc : list Z) (hands : gmap Z bool) (own : gmap Z pp_task) (t : Z) (d : pp_task) :
  own !! t = Some d -> type d = ZBX_PP_TASK_TEST ->
  triple (Inv off proc hands own) (pp_task_queue_push_test t) (fun _ => Inv off proc hands (delete t own)).
Proof.
  intros Hown Hty w [loc Hi]. destruct (inv_own_heap _ _ _ _ _ _ _ _ Hi Hown) as [Hl Ht].
  eexists _, _. split; [reflexivity|]. exists (<[t := InImmediate]> loc).
  pose proof Hi as [Hh [L1 L2 L3 L4] Ho Htr Hw Hlog H1 H2 H3].
  apply (inv_move off proc hands own loc w t d Own InImmediate); try done; [by right|by rewrite Hty|..].
  - constructor; cbn; [apply listed_other|apply listed_add|apply listed_other|apply listed_other]; try done; places.
  - by apply (owned_leave _ _ _ _ Ho t).
  - cbn. rewrite H1, u64_plus. f_equal; lia.
Qed.

(** A value task is tracked and appended to one of the two queues. *)
Lemma push_value_immediate (off : Z) (proc : list Z) (hands : gmap Z bool) (own : gmap Z pp_task) (t : Z) (d : pp_task) :
  own !! t = Some d -> type d = ZBX_PP_TASK_VALUE -> state d = ZBX_PP_TASK_PENDING ->
  triple (Inv off proc hands own) (pp_track_value_task t;; inc_pending;; append_immediate t)
    (fun _ => Inv off proc hands (delete t own)).
Proof.
  intros Hown Hty Hst w [loc Hi]. destruct (inv_own_heap _ _ _ _ _ _ _ _ Hi Hown) as [Hl Ht].
  pose proof Hi as [Hh [L1 L2 L3 L4] Ho Htr Hw Hlog H1 H2 H3]. unfold pp_track_value_task.
  erewrite (bind_run _ _ w); [|step; reflexivity]. eexists _, _. split; [reflexivity|].
  exists (<[t := InImmediate]> loc). apply (inv_track off proc hands own loc w t d InImmediate); try done; [by right|..].
  - constructor; cbn; [apply listed_other|apply listed_add|apply listed_other|apply listed_other]; try done; places.
  - cbn. rewrite H1, u64_plus. f_equal; lia.
Qed.

Lemma add_and_append_spec (off : Z) (proc : list Z) (hands : gmap Z bool) (own : gmap Z pp_task) (t : Z) (d : pp_task) :
  own !! t = Some d -> place_ok d (InSeq 0) ->
  triple (Inv off proc hands own)
    (new_task ← pp_task_queue_add_sequence t; match new_task with None => mret tt | Some s => append_immediate s end)
    (fun _ => Inv (off - 1) proc hands (delete t own)).
Proof.
  intros Hown Hd. eapply triple_bind; [by apply (add_sequence_spec _ _ _ _ t d)|]. intros [s|]; cbn beta iota.
  - intros w (Hs & Hw & Hne).
    destruct (append_immediate_seq (off - 1) proc (<[s := false]> hands) (delete t own) s (lookup_insert_eq _ _ _) w (conj Hw Hne))
      as (a & w' & E & Hq). exists a, w'. split; [done|]. by rewrite delete_insert_id in Hq by done.
  - by apply triple_ret.
Qed.

Lemma push_immediate_spec (off : Z) (proc : list Z) (hands : gmap Z bool) (own : gmap Z pp_task) (t : Z) (d : pp_task) :
  own !! t = Some d -> pushable d ->
  triple (Inv off proc hands own) (pp_task_queue_push_immediate t) (fun _ => Inv off proc hands (delete t own)).
Proof.
  intros Hown Hp. unfold pp_task_queue_push_immediate. apply (deref_own _ _ _ _ t d); [done|].
  assert (Hseq : place_ok d (InSeq 0) -> triple (Inv off proc hands own)
    (inc_pending;; new_task ← pp_task_queue_add_sequence t;
       match new_task with None => mret tt | Some s => append_immediate s end) (fun _ => Inv off proc hands (delete t own))).
  { intros Hd. eapply triple_bind; [apply inc_pending_spec|]. intros []. eapply triple_post; [by apply (add_and_append_spec _ _ _ _ t d)|].
    cbn beta. intros ? w. by replace (off + 1 - 1) with off by lia. }
  destruct Hp as [Hty | [[Hty Hst] | Hd]].
  - rewrite Hty. by apply (push_test_spec off proc hands own t d).
  - rewrite Hty. by apply (push_value_immediate off proc hands own t d).
  - specialize (Hseq Hd). cbn in Hd. destruct Hd as [-> | [-> _]]; exact Hseq.
Qed.

Lemma push_spec (off : Z) (proc : list Z) (hands : gmap Z bool) (own : gmap Z pp_task) (t : Z) (d : pp_task) :
  own !! t = Some d -> (type d = ZBX_PP_TASK_VALUE /\ state d = ZBX_PP_TASK_PENDING) \/ type d = ZBX_PP_TASK_VALUE_SEQ ->
  triple (Inv off proc hands own) (pp_task_queue_push t) (fun _ => Inv off proc hands (delete t own)).
Proof.
  intros Hown Hp w [loc Hi]. destruct (inv_own_heap _ _ _ _ _ _ _ _ Hi Hown) as [Hl Ht].
  pose proof Hi as [Hh [L1 L2 L3 L4] Ho Htr Hw Hlog H1 H2 H3]. unfold pp_task_queue_push. step.
  destruct Hp as [[Hty Hst] | Hty]; rewrite Hty.
  - rewrite !decide_True by done. step. unfold pp_track_value_task.
    erewrite (bind_run _ _ (set_queue w _)); [|step; reflexivity].
    destruct (negb (preproc_type (preproc d) =? ITEM_TYPE_INTERNAL)).
    + eexists _, _. split; [reflexivity|]. exists (<[t := InPending]> loc).
      apply (inv_track off proc hands own loc w t d InPending); try done; [by left|..].
      * constructor; cbn; [apply listed_add|apply listed_other|apply listed_other|apply listed_other]; try done; places.
      * cbn. rewrite H1, u64_plus. f_equal; lia.
    + eexists _, _. split; [reflexivity|]. exists (<[t := InImmediate]> loc).
      apply (inv_track off proc hands own loc w t d InImmediate); try done; [by right|..].
      * constructor; cbn; [apply listed_other|apply listed_add|apply listed_other|apply listed_other]; try done; places.
      * cbn. rewrite H1, u64_plus. f_equal; lia.
  - rewrite !decide_False by done. destruct (negb (preproc_type (preproc d) =? ITEM_TYPE_INTERNAL)).
    + step. step. eexists _, _. split; [reflexivity|]. exists (<[t := InPending]> loc).
      apply (inv_move off proc hands own loc w t d Own InPending); try done; [by right|by rewrite Hty|..].
      * constructor; cbn; [apply listed_add|apply listed_other|apply listed_other|apply listed_other]; try done; places.
      * by apply (owned_leave _ _ _ _ Ho t).
      * cbn. rewrite H1, u64_plus. f_equal; lia.
    + destruct (inc_pending_spec off proc hands own w (ex_intro _ loc Hi)) as ([] & w1 & E1 & Hw1).
      erewrite bind_run; [|exact E1]. step.
      destruct (add_and_append_spec (off + 1) proc hands own t d Hown (or_introl Hty) w1 Hw1) as (a & w2 & E2 & Hw2).
      exists a, w2. replace (off + 1 - 1) with off in Hw2 by lia. split; [|done]. rewrite <- E2.
      unfold mbind, M_bind. destruct (pp_task_queue_add_sequence t w1) as [[[] ?]| | |]; done.
Qed.

(* ------------------------------------------------------------------ *)
(** ** Taking tasks *)

(** What a move from [p] to [p'] does to the list of the places [P]. *)
Definition moved (P : place -> bool) (p p' : place) (t : Z) (l l' : list Z) : Prop :=
  if P p then if P p' then l' = l else exists l1 l2, l = l1 ++ t :: l2 /\ l' = l1 ++ l2
  else if P p' then l' = l ++ [t] else l' = l.

Lemma listed_moved (loc : gmap Z place) (P : place -> bool) (p p' : place) (t : Z) (l l' : list Z) :
  listed loc P l -> loc !! t = Some p -> moved P p p' t l l' -> listed (<[t := p']> loc) P l'.
Proof.
  intros Hl Ht. unfold moved. destruct (P p) eqn:E1, (P p') eqn:E2.
  - intros ->. apply (listed_same _ _ _ _ p); [done|done|congruence].
  - intros (l1 & l2 & -> & ->). by apply listed_remove.
  - intros ->. apply listed_add; [done|congruence|done].
  - intros ->. apply listed_other; [done|congruence|done].
Qed.

Lemma lists_moved (loc : gmap Z place) (q q' : pp_queue) (proc proc' : list Z) (p p' : place) (t : Z) :
  lists_ok loc q proc -> loc !! t = Some p ->
  moved at_pending p p' t (pending q) (pending q') -> moved at_immediate p p' t (immediate q) (immediate q') ->
  moved at_processing p p' t proc proc' -> moved at_finished p p' t (finished q) (finished q') ->
  lists_ok (<[t := p']> loc) q' proc'.
Proof. intros [] Ht M1 M2 M3 M4. constructor; by eapply listed_moved. Qed.

Lemma place_listed (loc : gmap Z place) (P : place -> bool) (l : list Z) (t : Z) :
  listed loc P l -> t ∈ l -> exists p, loc !! t = Some p /\ P p = true.
Proof. intros [_ Hl]. apply Hl. Qed.

Lemma at_immediate_cases (p : place) : at_immediate p = true -> p = InImmediate \/ p = SeqImmediate.
Proof. destruct p; naive_solver. Qed.
Lemma at_pending_cases (p : place) : at_pending p = true -> p = InPending.
Proof. by destruct p. Qed.
Lemma at_processing_cases (p : place) : at_processing p = true -> p = InProcessing \/ p = SeqProcessing.
Proof. destruct p; naive_solver. Qed.
Lemma at_finished_cases (p : place) : at_finished p = true -> p = InFinished \/ p = SeqFinished.
Proof. destruct p; naive_solver. Qed.

Lemma inv_task_at (off : Z) (proc : list Z) (hands : gmap Z bool) (own : gmap Z pp_task) (loc : gmap Z place) (w : world) (t : Z) (p : place) :
  inv off proc hands own loc w -> loc !! t = Some p -> exists d, heap w !! t = Some d /\ place_ok d p.
Proof.
  intros Hi Hl. pose proof (inv_heap _ _ _ _ _ _ Hi) as Hh.
  destruct (proj2 (ho_dom _ _ _ _ Hh t)) as [d Hd]; [rewrite Hl; by eexists|]. exists d. split; [done|].
  by apply (ho_place _ _ _ _ Hh t).
Qed.

Lemma tracked_state (loc : gmap Z place) (h : gmap Z pp_task) (tks : gmap Z (list Z)) (t : Z) (d : pp_task) (p : place) :
  tracking loc h tks -> h !! t = Some d -> loc !! t = Some p -> type d = ZBX_PP_TASK_VALUE -> tracked_place p = true ->
  track_ok p (state d).
Proof.
  intros [Hlist Hall] Hd Hl Hty Hp. destruct (Hall t d p Hd Hl Hty Hp) as (l & El & Hin).
  destruct (Hlist _ l El) as [_ H]. destruct (H t Hin) as (d' & p' & E1 & E2 & _ & _ & Hk). congruence.
Qed.

(** The lists after the move of one task: the head or another element of a
    list leaves it, a last one is added. *)
Ltac move_lists :=
  eapply lists_moved; [eassumption|eassumption|..]; cbn;
  first [reflexivity | eassumption | (exists []; eexists; split; [eassumption|reflexivity])].

Lemma pop_immediate_spec (off : Z) (proc : list Z) (hands : gmap Z bool) (own : gmap Z pp_task) (loc : gmap Z place) (w : world)
    (t : Z) (l : list Z) :
  inv off proc hands own loc w -> immediate (queue w) = t :: l ->
  Inv off (proc ++ [t]) hands own (set_queue w
    (let q := set_immediate (queue w) l in
     set_processing_num (set_pending_num q (u64 (pending_num q - 1))) (u64 (processing_num q + 1)))).
Proof.
  intros Hi El. pose proof Hi as [Hh Hlists Ho Htr Hw Hlog H1 H2 H3].
  destruct (place_listed _ _ _ t (lo_immediate _ _ _ Hlists) ltac:(rewrite El; by left)) as (p & Hl & Hp).
  destruct (inv_task_at _ _ _ _ _ _ t p Hi Hl) as (d & Ed & Hd).
  pose proof (tracked_state _ _ _ t d p Htr Ed Hl) as Hst.
  destruct (at_immediate_cases p Hp) as [-> | ->].
  - exists (<[t := InProcessing]> loc). eapply (inv_move _ _ _ _ loc w t d InImmediate InProcessing); try done.
    + intros E. split; [done|]. intros _. by apply Hst.
    + move_lists.
    + apply (owned_other _ _ _ _ Ho); [intros p' E; by simplify_eq|done|done].
    + cbn. rewrite H1, u64_minus. f_equal; lia.
    + cbn. rewrite H2, u64_plus, length_app. cbn [length]. f_equal; lia.
  - exists (<[t := SeqProcessing]> loc). eapply (inv_move _ _ _ _ loc w t d SeqImmediate SeqProcessing); try done.
    + move_lists.
    + apply (owned_other _ _ _ _ Ho); [intros p' E; by simplify_eq|done|done].
    + cbn. rewrite H1, u64_minus. f_equal; lia.
    + cbn. rewrite H2, u64_plus, length_app. cbn [length]. f_equal; lia.
Qed.

(** add_sequence leaves the two input lists alone. *)
Lemma add_sequence_lists (t : Z) (w w' : world) (r : option Z) :
  pp_task_queue_add_sequence t w = Ret (r, w') ->
  pending (queue w') = pending (queue w) /\ immediate (queue w') = immediate (queue w).
Proof.
  unfold pp_task_queue_add_sequence, mbind, M_bind, deref, get_queue, update, mret, M_ret, modify, pp_task_sequence_create,
    pp_task_create.
  destruct (heap w !! t) as [d|]; [|done]. destruct (sequences (queue w) !! itemid d) as [s|].
  - destruct (heap w !! s); [|done]. by intros [= <- <-].
  - cbn. rewrite lookup_insert_eq. by intros [= <- <-].
Qed.

(** A pending value task goes to a worker. *)
Lemma pop_value_spec (off : Z) (proc : list Z) (hands : gmap Z bool) (own : gmap Z pp_task) (loc : gmap Z place) (w : world)
    (t : Z) (l : list Z) (d : pp_task) :
  inv off proc hands own loc w -> pending (queue w) = t :: l -> heap w !! t = Some d -> loc !! t = Some InPending ->
  type d = ZBX_PP_TASK_VALUE ->
  Inv off (proc ++ [t]) hands own (set_queue w
    (let q := set_pending (queue w) l in
     set_processing_num (set_pending_num q (u64 (pending_num q - 1))) (u64 (processing_num q + 1)))).
Proof.
  intros Hi El Ed Hl Hty. pose proof Hi as [Hh Hlists Ho Htr Hw Hlog H1 H2 H3].
  exists (<[t := InProcessing]> loc). eapply (inv_move _ _ _ _ loc w t d InPending InProcessing); try done.
  - by left.
  - intros E. split; [done|]. intros _. by apply (tracked_state _ _ _ t d InPending Htr).
  - move_lists.
  - apply (owned_other _ _ _ _ Ho); [intros p' E; by simplify_eq|done|done].
  - cbn. rewrite H1, u64_minus. f_equal; lia.
  - cbn. rewrite H2, u64_plus, length_app. cbn [length]. f_equal; lia.
Qed.

(** A pending sequence value is taken in hand. *)
Lemma take_pending_spec (off : Z) (proc : list Z) (hands : gmap Z bool) (own : gmap Z pp_task) (loc : gmap Z place) (w : world)
    (t : Z) (l : list Z) (d : pp_task) :
  inv off proc hands own loc w -> pending (queue w) = t :: l -> heap w !! t = Some d -> loc !! t = Some InPending ->
  type d = ZBX_PP_TASK_VALUE_SEQ ->
  Inv (off + 1) proc hands (<[t := d]> own) (set_queue w (set_pending (queue w) l)).
Proof.
  intros Hi El Ed Hl Hty. pose proof Hi as [Hh Hlists Ho Htr Hw Hlog H1 H2 H3].
  exists (<[t := Own]> loc). eapply (inv_move _ _ _ _ loc w t d InPending Own); try done.
  - cbn. congruence.
  - congruence.
  - move_lists.
  - apply (owned_take _ _ _ _ Ho); [done|]. intros p E. by simplify_eq.
  - cbn. rewrite H1. f_equal; lia.
Qed.

(** A sequence in hand goes to a worker. *)
Lemma start_sequence_spec (off : Z) (proc : list Z) (hands : gmap Z bool) (own : gmap Z pp_task) (w : world) (s : Z) :
  hands !! s = Some false -> Inv off proc hands own w -> (exists ds, heap w !! s = Some ds /\ seq_tasks ds <> []) ->
  Inv off (proc ++ [s]) (delete s hands) own (set_queue w
    (set_processing_num (set_pending_num (queue w) (u64 (pending_num (queue w) - 1))) (u64 (processing_num (queue w) + 1)))).
Proof.
  intros Hs [loc Hi] (ds & Ed & Hne). destruct (inv_hand_heap _ _ _ _ _ _ _ _ Hi Hs) as (Hl & ds' & E' & Hty & _).
  assert (ds' = ds) as -> by congruence. pose proof Hi as [Hh Hlists Ho Htr Hw Hlog H1 H2 H3].
  exists (<[s := SeqProcessing]> loc). eapply (inv_move _ _ _ _ loc w s ds (Hand false) SeqProcessing); try done.
  - move_lists.
  - by apply (hand_leave _ _ _ _ Ho s false).
  - cbn. rewrite H1, u64_minus. f_equal; lia.
  - cbn. rewrite H2, u64_plus, length_app. cbn [length]. f_equal; lia.
Qed.

Lemma pop_pending_spec (off : Z) (proc : list Z) (hands : gmap Z bool) (own : gmap Z pp_task) (l : list Z) :
  triple (fun w => Inv off proc hands own w /\ pending (queue w) = l /\ immediate (queue w) = []) (pop_pending l) (fun r w =>
    match r with
    | Some t => Inv off (proc ++ [t]) hands own w
    | None => Inv off proc hands own w /\ pending (queue w) = [] /\ immediate (queue w) = []
    end).
Proof.
  induction l as [|t l IH]; intros w ([loc Hi] & El & Ei); cbn [pop_pending].
  { eexists _, _. split; [reflexivity|]. split; [by exists loc|done]. }
  destruct (place_listed _ _ _ t (lo_pending _ _ _ (inv_lists _ _ _ _ _ _ Hi)) ltac:(rewrite El; by left)) as (p & Hl & Hp).
  apply at_pending_cases in Hp as ->. destruct (inv_task_at _ _ _ _ _ _ t _ Hi Hl) as (d & Ed & Hd).
  step. set (w1 := set_queue w _). assert (Ed1 : heap w1 !! t = Some d) by done. step. destruct Hd as [Hty | Hty]; rewrite Hty.
  - rewrite decide_False by done. step. step. eexists _, _. split; [reflexivity|]. by apply (pop_value_spec _ _ _ _ loc w t l d).
  - rewrite decide_True by done. assert (Hw1 := take_pending_spec _ _ _ _ _ _ t l d Hi El Ed Hl Hty). fold w1 in Hw1.
    assert (Hfresh : own !! t = None).
    { destruct (own !! t) as [d'|] eqn:E; [|done]. by destruct (inv_own_heap _ _ _ _ _ _ _ _ Hi E); simplify_eq. }
    destruct (add_sequence_spec (off + 1) proc hands (<[t := d]> own) t d (lookup_insert_eq _ _ _) (or_introl Hty) w1 Hw1)
      as (r & w2 & E2 & H2). destruct (add_sequence_lists _ _ _ _ E2) as [Ep2 Ei2].
    erewrite bind_run; [|exact E2]. cbv beta iota. rewrite delete_insert_id in H2 by done.
    replace (off + 1 - 1) with off in H2 by lia. destruct r as [s|].
    + destruct H2 as (Hs & Hw2 & Hne). step. eexists _, _. split; [reflexivity|].
      pose proof (start_sequence_spec off proc (<[s := false]> hands) own w2 s (lookup_insert_eq _ _ _) Hw2 Hne) as Hgoal.
      by rewrite delete_insert_id in Hgoal by done.
    + apply IH. split; [done|]. by rewrite Ep2, Ei2.
Qed.

Lemma pop_new_spec (off : Z) (proc : list Z) (hands : gmap Z bool) (own : gmap Z pp_task) :
  triple (Inv off proc hands own) pp_task_queue_pop_new (fun r w =>
    match r with
    | Some t => Inv off (proc ++ [t]) hands own w
    | None => Inv off proc hands own w /\ pending (queue w) = [] /\ immediate (queue w) = []
    end).
Proof.
  intros w Hw. unfold pp_task_queue_pop_new. step. destruct (immediate (queue w)) as [|t l] eqn:Ei.
  - by apply (pop_pending_spec off proc hands own (pending (queue w)) w).
  - destruct Hw as [loc Hi]. step. step. eexists _, _. split; [reflexivity|]. by apply (pop_immediate_spec _ _ _ _ loc w t l).
Qed.

(* ------------------------------------------------------------------ *)
(** ** Finished tasks *)

(** The invariant while the tracked list [l] of item [X] is flushed: it may be
    empty or start with a task that is held back. *)
Record flush_inv (off : Z) (proc : list Z) (hands : gmap Z bool) (own : gmap Z pp_task) (X : Z) (l : list Z)
    (loc : gmap Z place) (w : world) : Prop := mkFlush {
  fl_heap : heap_ok loc (heap w) (next_task w) (sequences (queue w));
  fl_lists : lists_ok loc (queue w) proc;
  fl_owned : owned_ok loc (heap w) hands own;
  fl_tracking : tracking loc (heap w) (tasks (queue w));
  fl_heads : forall Y l, Y <> X -> tasks (queue w) !! Y = Some l -> exists t l', l = t :: l' /\ loc !! t <> Some Held;
  fl_list : tasks (queue w) !! X = Some l;
  fl_logs : logs_ok w;
  fl_pending : pending_num (queue w) = u64 (total loc + off);
  fl_processing : processing_num (queue w) = u64 (Z.of_nat (length proc));
  fl_finished : finished_num (queue w) = u64 (Z.of_nat (length (finished (queue w))))
}.

(** A tracked list that starts with an unfinished task, or is gone, is fine. *)
Lemma flush_stop (off : Z) (proc : list Z) (hands : gmap Z bool) (own : gmap Z pp_task) (X t : Z) (l : list Z)
    (loc : gmap Z place) (w : world) :
  flush_inv off proc hands own X (t :: l) loc w -> loc !! t <> Some Held -> inv off proc hands own loc w.
Proof.
  intros [] Hne. constructor; try done. intros Y l' HY. destruct (decide (Y = X)) as [-> | HYX]; [|by eauto].
  simplify_eq. by exists t, l.
Qed.

Lemma tracking_remove (loc : gmap Z place) (h : gmap Z pp_task) (tks : gmap Z (list Z)) (X : Z) :
  tracking loc h tks -> tks !! X = Some [] -> tracking loc h (delete X tks).
Proof.
  intros [Hlist Hall] HX. constructor.
  - intros Y l [_ HY]%lookup_delete_Some. by apply Hlist.
  - intros t d p E1 E2 E3 E4. destruct (Hall t d p E1 E2 E3 E4) as (l & El & Hin).
    exists l. split; [|done]. rewrite lookup_delete_ne; [done|]. intros ->. simplify_eq. by apply elem_of_nil in Hin.
Qed.

Lemma flush_done (off : Z) (proc : list Z) (hands : gmap Z bool) (own : gmap Z pp_task) (X : Z)
    (loc : gmap Z place) (w : world) :
  flush_inv off proc hands own X [] loc w ->
  inv off proc hands own loc (set_queue w (set_tasks (queue w) (delete X (tasks (queue w))))).
Proof.
  intros [Hh [] Ho Htr Hw HX Hlog H1 H2 H3]. constructor; try done; cbn [queue set_queue tasks set_tasks heap].
  - by apply tracking_remove.
  - intros Y l [Hne HY]%lookup_delete_Some. by apply Hw in HY.
  - intros Y. cbn [tracked_log finished_log queue set_queue tasks set_tasks]. rewrite Hlog. f_equal. destruct (decide (Y = X)) as [-> | Hne];
      [by rewrite HX, lookup_delete_eq|by rewrite lookup_delete_ne].
Qed.

(** The head of a tracked list leaves it for the finished tasks. *)
Lemma tracking_pop (loc : gmap Z place) (h : gmap Z pp_task) (tks : gmap Z (list Z)) (X t : Z) (l : list Z) :
  tracking loc h tks -> tks !! X = Some (t :: l) -> tracking (<[t := InFinished]> loc) h (<[X := l]> tks).
Proof.
  intros [Hlist Hall] HX. destruct (Hlist X _ HX) as [Hnd Hin]. apply NoDup_cons in Hnd as [Hnt Hnd].
  destruct (Hin t ltac:(by left)) as (d & p & Ed & El & Ety & Eit & Hk).
  assert (Hother : forall Y l' x, tks !! Y = Some l' -> x ∈ l' -> Y <> X -> x <> t).
  { intros Y l' x HY Hx Hne ->. destruct (Hlist Y l' HY) as [_ H]. destruct (H t Hx) as (d' & ? & ? & _ & _ & ? & _). congruence. }
  constructor.
  - intros Y l'. destruct (decide (Y = X)) as [-> | Hne].
    + rewrite lookup_insert_eq. intros [= <-]. split; [done|]. intros x Hx. assert (x <> t) by congruence.
      rewrite lookup_insert_ne by done. apply Hin. by right.
    + rewrite lookup_insert_ne by done. intros HY. split; [exact (proj1 (Hlist Y l' HY))|]. intros x Hx.
      rewrite lookup_insert_ne by (by apply not_eq_sym, (Hother Y l')). by apply (proj2 (Hlist Y l' HY)).
  - intros x dx px Hx. ins x t; [intros [= <-]; done|]. intros Hlx Htx Hpx.
    destruct (Hall x dx px Hx Hlx Htx Hpx) as (l' & El' & Hin'). destruct (decide (itemid dx = X)) as [E | Hne].
    + rewrite E, lookup_insert_eq. eexists. split; [done|]. rewrite E in El'. simplify_eq.
      by apply elem_of_cons in Hin' as [-> |].
    + rewrite lookup_insert_ne by done. eauto.
Qed.

Lemma flush_one (off : Z) (proc : list Z) (hands : gmap Z bool) (own : gmap Z pp_task) (X t : Z) (l : list Z)
    (loc : gmap Z place) (w : world) (d : pp_task) :
  flush_inv off proc hands own X (t :: l) loc w -> heap w !! t = Some d -> state d = ZBX_PP_TASK_FINISHED ->
  let q := set_tasks (queue w) (<[X := l]> (tasks (queue w))) in
  flush_inv off proc hands own X l (<[t := InFinished]> loc)
    (mkWorld (heap w) (next_task w) (set_finished_num (set_finished q (finished q ++ [t])) (u64 (finished_num q + 1)))
      (tracked_log w) (finished_log w ++ [(X, t)])).
Proof.
  intros [Hh Hlists Ho Htr Hw HX Hlog H1 H2 H3] Ed Hst. cbn zeta.
  destruct (proj2 (tr_list _ _ _ Htr X _ HX) t ltac:(by left)) as (d' & p & E' & Hl & Hty & Hit & Hk).
  assert (d' = d) as -> by congruence. assert (p = Held) as -> by (destruct p; cbn in Hk; done || congruence).
  constructor; cbn [heap next_task queue sequences tasks set_finished_num set_finished set_tasks]; try done.
  - apply (heap_move _ _ _ _ Hh t d Held InFinished); try done. by left.
  - move_lists.
  - apply (owned_other _ _ _ _ Ho); [intros p' E; by simplify_eq|done|done].
  - by apply tracking_pop.
  - intros Y l' Hne. rewrite lookup_insert_ne by done. intros HY. destruct (Hw Y l' Hne HY) as (x & l'' & -> & Hx).
    exists x, l''. split; [done|]. ins x t; [done|done].
  - by rewrite lookup_insert_eq.
  - intros Y. cbn [tracked_log finished_log queue tasks set_finished_num set_finished set_tasks].
    rewrite Hlog, log_of_app, log_of_one, <- app_assoc. f_equal.
    destruct (decide (Y = X)) as [-> | Hne]; [by rewrite HX, lookup_insert_eq|by rewrite lookup_insert_ne].
  - rewrite (total_move loc t Held InFinished Hl). cbn. rewrite H1. f_equal; lia.
  - cbn. rewrite H3, u64_plus, length_app. cbn [length finished]. f_equal; lia.
Qed.

Lemma flush_spec (off : Z) (proc : list Z) (hands : gmap Z bool) (own : gmap Z pp_task) (X : Z) (l : list Z) :
  triple (fun w => exists loc, flush_inv off proc hands own X l loc w) (flush_finished X l) (fun b w =>
    if b : bool then exists loc, flush_inv off proc hands own X [] loc w else Inv off proc hands own w).
Proof.
  induction l as [|t l IH]; intros w [loc Hf]; cbn [flush_finished].
  { eexists _, _. split; [reflexivity|]. by exists loc. }
  destruct (proj2 (tr_list _ _ _ (fl_tracking _ _ _ _ _ _ _ _ Hf) X _ (fl_list _ _ _ _ _ _ _ _ Hf)) t ltac:(by left))
    as (d & p & Ed & Hl & Hty & Hit & Hk). step. destruct (state d) eqn:Est.
  - eexists _, _. split; [reflexivity|]. exists loc. apply (flush_stop _ _ _ _ _ _ _ _ _ Hf). rewrite Hl. by destruct p.
  - pose proof (flush_one _ _ _ _ _ _ _ _ _ d Hf Ed Est) as Hf'. cbn zeta in Hf'.
    step. step. step. apply IH. eexists. exact Hf'.
Qed.

(** A processed value task waits in the list of its item. *)
Lemma tracking_hold (loc : gmap Z place) (h : gmap Z pp_task) (tks : gmap Z (list Z)) (t : Z) (d : pp_task) (p : place) :
  tracking loc h tks -> h !! t = Some d -> loc !! t = Some p -> tracked_place p = true ->
  tracking (<[t := Held]> loc) (<[t := set_state d ZBX_PP_TASK_FINISHED]> h) tks.
Proof.
  intros [Hlist Hall] Hd Hl Hp. constructor.
  - intros X l HX. destruct (Hlist X l HX) as [Hnd Hin]. split; [done|]. intros x Hx.
    destruct (Hin x Hx) as (dx & px & E1 & E2 & E3 & E4 & E5). ins x t; [|eauto 10].
    simplify_eq. eexists _, _. done.
  - intros x dx px. ins x t; [intros [= <-] [= <-] Hty _; by apply (Hall t d p)|apply Hall].
Qed.

(** The first steps of push_finished, for a value task. *)
Lemma hold_spec (off : Z) (p1 p2 : list Z) (hands : gmap Z bool) (own : gmap Z pp_task) (loc : gmap Z place) (w : world)
    (t : Z) (d : pp_task) :
  inv off (p1 ++ t :: p2) hands own loc w -> heap w !! t = Some d -> loc !! t = Some InProcessing -> type d = ZBX_PP_TASK_VALUE ->
  exists l, tasks (queue w) !! itemid d = Some l /\ exists loc',
    flush_inv off (p1 ++ p2) hands own (itemid d) l loc'
      (mkWorld (<[t := set_state d ZBX_PP_TASK_FINISHED]> (heap w)) (next_task w)
        (set_processing_num (queue w) (u64 (processing_num (queue w) - 1))) (tracked_log w) (finished_log w)).
Proof.
  intros Hi Ed Hl Hty. pose proof Hi as [Hh Hlists Ho Htr Hw Hlog H1 H2 H3].
  destruct (tr_all _ _ _ Htr t d _ Ed Hl Hty eq_refl) as (l & El & Hin). exists l. split; [done|].
  exists (<[t := Held]> loc). constructor; cbn [heap next_task queue]; try done.
  - assert (Hh' : heap_ok loc (<[t := set_state d ZBX_PP_TASK_FINISHED]> (heap w)) (next_task w) (sequences (queue w)))
      by (by apply (heap_update _ _ _ _ Hh t d)).
    by apply (heap_move _ _ _ _ Hh' t (set_state d ZBX_PP_TASK_FINISHED) InProcessing Held); [rewrite lookup_insert_eq|..].
  - eapply lists_moved; [eassumption|eassumption|..]; cbn; first [reflexivity | by exists p1, p2].
  - assert (Ho' : owned_ok loc (<[t := set_state d ZBX_PP_TASK_FINISHED]> (heap w)) hands own)
      by (apply owned_frame; [done|congruence]).
    apply (owned_other _ _ _ _ Ho'); [intros p' E; by simplify_eq|done|done].
  - by apply (tracking_hold _ _ _ _ _ InProcessing).
  - intros Y l' Hne HY. destruct (Hw Y l' HY) as (x & l'' & -> & Hx). exists x, l''. split; [done|]. ins x t; [|done].
    destruct (proj2 (tr_list _ _ _ Htr Y _ HY) t ltac:(by left)) as (d' & ? & E' & _ & _ & ? & _). congruence.
  - rewrite (total_move loc t InProcessing Held Hl). cbn. rewrite H1. f_equal; lia.
  - cbn. rewrite H2, u64_minus, !length_app. cbn [length]. f_equal; lia.
Qed.

(** A test task or a sequence is finished at once. *)
Lemma finish_spec (off : Z) (p1 p2 : list Z) (hands : gmap Z bool) (own : gmap Z pp_task) (loc : gmap Z place) (w : world)
    (t : Z) (d : pp_task) (p : place) :
  inv off (p1 ++ t :: p2) hands own loc w -> heap w !! t = Some d -> loc !! t = Some p -> at_processing p = true ->
  type d <> ZBX_PP_TASK_VALUE ->
  Inv off (p1 ++ p2) hands own
    (mkWorld (<[t := set_state d ZBX_PP_TASK_FINISHED]> (heap w)) (next_task w)
      (let q := set_processing_num (queue w) (u64 (processing_num (queue w) - 1)) in
       set_finished_num (set_finished q (finished q ++ [t])) (u64 (finished_num q + 1))) (tracked_log w) (finished_log w)).
Proof.
  intros Hi Ed Hl Hp Hty. destruct (inv_task_at _ _ _ _ _ _ t p Hi Hl) as (d0 & Ed0 & Hd). assert (d0 = d) as -> by congruence.
  pose proof Hi as [Hh Hlists Ho Htr Hw Hlog H1 H2 H3]. set (d' := set_state d ZBX_PP_TASK_FINISHED).
  assert (Hh' : heap_ok loc (<[t := d']> (heap w)) (next_task w) (sequences (queue w))) by (by apply (heap_update _ _ _ _ Hh t d)).
  assert (Ho' : owned_ok loc (<[t := d']> (heap w)) hands own)
    by (apply owned_frame; [done|rewrite Hl; intros [= ->]; done]).
  assert (Htr' : tracking loc (<[t := d']> (heap w)) (tasks (queue w))).
  { apply at_processing_cases in Hp as [-> | ->]; [|apply (tracking_update _ _ _ Htr t d); try done; right; intros p' E; by simplify_eq].
    destruct Htr as [Hlist Hall]. constructor.
    - intros X l HX. destruct (Hlist X l HX) as [Hnd Hin]. split; [done|]. intros x Hx.
      destruct (Hin x Hx) as (dx & px & E1 & E2 & E3 & E4 & E5). ins x t; [congruence|eauto 10].
    - intros x dx px. ins x t; [intros [= <-] _ E; done|apply Hall]. }
  assert (Hi1 : inv off (p1 ++ t :: p2) hands own loc (set_heap w (<[t := d']> (heap w)))) by (constructor; done).
  assert (Ed' : <[t := d']> (heap w) !! t = Some d') by apply lookup_insert_eq.
  set (q' := set_finished_num _ _).
  apply at_processing_cases in Hp as [-> | ->];
    [exists (<[t := InFinished]> loc);
      apply (inv_move off (p1 ++ t :: p2) hands own loc _ t d' InProcessing InFinished off (p1 ++ p2) hands own q' Hi1)
    |exists (<[t := SeqFinished]> loc);
      apply (inv_move off (p1 ++ t :: p2) hands own loc _ t d' SeqProcessing SeqFinished off (p1 ++ p2) hands own q' Hi1)]; try done.
  all: try (eapply lists_moved; [eassumption|eassumption|..]; cbn; first [reflexivity | by exists p1, p2]).
  all: try (apply (owned_other _ _ _ _ Ho'); [intros p' E; by simplify_eq|done|done]).
  all: cbn; rewrite ?H1, ?H2, ?H3, ?u64_plus, ?u64_minus, ?length_app; cbn [length]; f_equal; lia.
Qed.

Lemma push_finished_spec (off : Z) (p1 p2 : list Z) (hands : gmap Z bool) (own : gmap Z pp_task) (t : Z) :
  triple (Inv off (p1 ++ t :: p2) hands own) (pp_task_queue_push_finished t) (fun _ => Inv off (p1 ++ p2) hands own).
Proof.
  intros w [loc Hi]. destruct (place_listed _ _ _ t (lo_processing _ _ _ (inv_lists _ _ _ _ _ _ Hi))) as (p & Hl & Hp);
    [rewrite elem_of_app; right; by left|].
  destruct (inv_task_at _ _ _ _ _ _ t p Hi Hl) as (d & Ed & Hd). unfold pp_task_queue_push_finished. step.
  set (w0 := set_queue w _). assert (Ed0 : heap w0 !! t = Some d) by done. step.
  set (d' := set_state d ZBX_PP_TASK_FINISHED). set (w1 := set_heap w0 _).
  assert (Ed1 : heap w1 !! t = Some d') by apply lookup_insert_eq. step. step.
  change (type d') with (type d). change (itemid d') with (itemid d).
  destruct (decide (type d = ZBX_PP_TASK_VALUE)) as [Hty | Hty].
  - assert (p = InProcessing) as -> by (apply at_processing_cases in Hp as [-> | ->]; [done|destruct Hd; congruence]).
    destruct (hold_spec off p1 p2 hands own loc w t d Hi Ed Hl Hty) as (l & El & Hf).
    change (tasks (queue w1)) with (tasks (queue w)). rewrite El.
    destruct (flush_spec off (p1 ++ p2) hands own (itemid d) l w1 Hf) as (b & w2 & E2 & H2).
    erewrite bind_run; [|exact E2]. destruct b.
    + destruct H2 as [loc2 H2]. eexists _, _. split; [reflexivity|]. exists loc2. by apply flush_done.
    + eexists _, _. split; [reflexivity|done].
  - eexists _, _. split; [reflexivity|]. exact (finish_spec off p1 p2 hands own loc w t d p Hi Ed Hl Hp Hty).
Qed.

Lemma pop_finished_spec (off : Z) (proc : list Z) (hands : gmap Z bool) (own : gmap Z pp_task) :
  triple (Inv off proc hands own) pp_task_queue_pop_finished (fun r w =>
    match r with
    | None => Inv off proc hands own w /\ finished (queue w) = []
    | Some t => (exists d, own !! t = None /\ (type d = ZBX_PP_TASK_VALUE \/ type d = ZBX_PP_TASK_TEST) /\
          Inv off proc hands (<[t := d]> own) w) \/
        (hands !! t = None /\ Inv off proc (<[t := true]> hands) own w)
    end).
Proof.
  intros w [loc Hi]. unfold pp_task_queue_pop_finished. step. destruct (finished (queue w)) as [|t l] eqn:El.
  { eexists _, _. split; [reflexivity|]. split; [by exists loc|done]. }
  step. eexists _, _. split; [reflexivity|]. pose proof Hi as [Hh Hlists Ho Htr Hw Hlog H1 H2 H3].
  destruct (place_listed _ _ _ t (lo_finished _ _ _ Hlists) ltac:(rewrite El; by left)) as (p & Hl & Hp).
  destruct (inv_task_at _ _ _ _ _ _ t p Hi Hl) as (d & Ed & Hd). set (q' := set_finished_num _ _).
  assert (Hn : finished_num q' = u64 (Z.of_nat (length (finished q')))).
  { cbn. rewrite H3, u64_minus, El. cbn [length]. f_equal; lia. }
  apply at_finished_cases in Hp as [-> | ->]; [left; exists d|right].
  - split_and!; [destruct (own !! t) as [d'|] eqn:E; [|done]; by destruct (inv_own_heap _ _ _ _ _ _ _ _ Hi E); simplify_eq|done|].
    exists (<[t := Own]> loc). apply (inv_move off proc hands own loc w t d InFinished Own off _ _ _ q' Hi); try done.
    + cbn in *. intuition congruence.
    + move_lists.
    + apply (owned_take _ _ _ _ Ho); [done|]. intros p E. by simplify_eq.
    + cbn. rewrite H1. f_equal; lia.
  - split; [destruct (hands !! t) as [b|] eqn:E; [|done]; by destruct (inv_hand_heap _ _ _ _ _ _ _ _ Hi E); simplify_eq|].
    exists (<[t := Hand true]> loc). apply (inv_move off proc hands own loc w t d SeqFinished (Hand true) off _ _ _ q' Hi); try done.
    + move_lists.
    + apply (hand_take _ _ _ _ Ho). intros p E. by simplify_eq.
    + cbn. rewrite H1. f_equal; lia.
Qed.

(** The processed head leaves the sequence in hand. *)
Lemma seq_pop_spec (off : Z) (proc : list Z) (hands : gmap Z bool) (own : gmap Z pp_task) (w : world) (s : Z) :
  hands !! s = Some true -> Inv off proc hands own w ->
  exists ds t l d, heap w !! s = Some ds /\ seq_tasks ds = t :: l /\ own !! t = None /\ place_ok d (InSeq s) /\
    Inv off proc (<[s := false]> hands) (<[t := d]> own) (set_heap w (<[s := set_seq ds l]> (heap w))).
Proof.
  intros Hs [loc Hi]. destruct (inv_hand_heap _ _ _ _ _ _ _ _ Hi Hs) as (Hl & ds & Eds & Hty & Hne).
  specialize (Hne eq_refl). destruct (seq_tasks ds) as [|t l] eqn:El; [done|].
  assert (Hi1 : inv (off - 1) proc (<[s := false]> hands) own (<[s := Hand false]> loc) w).
  { pose proof Hi as [Hh Hlists Ho Htr Hw Hlog H1 H2 H3].
    assert (E : w = set_queue w (queue w)) by (by destruct w). rewrite E.
    apply (inv_move off proc hands own loc w s ds (Hand true) (Hand false) (off - 1) _ _ _ (queue w) Hi); try done.
    - move_lists.
    - apply (hand_take _ _ _ _ Ho). intros p Ep. by simplify_eq.
    - rewrite H1. cbn [weight]. f_equal; lia. }
  clear Hi Hl. destruct Hi1 as [Hh Hlists Ho Htr Hw Hlog H1 H2 H3].
  assert (Hl : <[s := Hand false]> loc !! s = Some (Hand false)) by apply lookup_insert_eq. set (loc1 := <[s := Hand false]> loc) in *.
  destruct (ho_seq _ _ _ _ Hh s ds Eds) as (Hnd & Hin & _). rewrite El in Hin.
  assert (Hlt : loc1 !! t = Some (InSeq s)) by (apply Hin; by left). assert (Hne' : t <> s) by congruence.
  destruct (proj2 (ho_dom _ _ _ _ Hh t)) as [d Ed]; [rewrite Hlt; by eexists|].
  pose proof (ho_place _ _ _ _ Hh _ _ _ Ed Hlt) as Hd. exists ds, t, l, d. split_and!; try done.
  { destruct (own !! t) as [d'|] eqn:E; [|done]. apply (oo_own _ _ _ _ Ho) in E as [E _]. congruence. }
  exists (<[t := Own]> loc1). constructor; cbn [heap next_task queue set_heap tracked_log finished_log]; try done.
  - by apply (heap_seq_pop _ _ _ _ Hh s t ds l).
  - apply (lists_other _ _ _ _ _ Hlists); [|done..]. intros p E. by simplify_eq.
  - assert (Ho' : owned_ok loc1 (<[s := set_seq ds l]> (heap w)) (<[s := false]> hands) own)
      by (apply owned_frame; [done|congruence]).
    apply (owned_take _ _ _ _ Ho'); [by rewrite lookup_insert_ne|]. intros p E. by simplify_eq.
  - assert (Htr' : tracking loc1 (<[s := set_seq ds l]> (heap w)) (tasks (queue w)))
      by (apply (tracking_update _ _ _ Htr s ds); try done; by left).
    apply (tracking_move _ _ _ Htr' t d (InSeq s)); [by rewrite lookup_insert_ne|done|]. intros E. done.
  - by apply heads_move.
  - rewrite H1, (total_move loc1 t _ _ Hlt). cbn [weight]. f_equal; lia.
Qed.

(* ------------------------------------------------------------------ *)
(** ** Primary tasks and freed tasks *)

Lemma own_task_ok (off : Z) (proc : list Z) (hands : gmap Z bool) (own : gmap Z pp_task) (w : world) (t : Z) (d : pp_task) :
  Inv off proc hands own w -> own !! t = Some d ->
  type d <> ZBX_PP_TASK_SEQUENCE /\ seq_tasks d = [] /\ (type d <> ZBX_PP_TASK_DEPENDENT -> primary d = None).
Proof.
  intros [loc Hi] Ho. destruct (inv_own_heap _ _ _ _ _ _ _ _ Hi Ho) as [Hl Ed]. pose proof (inv_heap _ _ _ _ _ _ Hi) as Hh.
  pose proof (ho_place _ _ _ _ Hh _ _ _ Ed Hl) as Hty. destruct (ho_seq _ _ _ _ Hh _ _ Ed) as (_ & _ & H3 & H4).
  split_and!; [done|by apply H3|done].
Qed.

(** A task in the places [Own] or [InSeq] stays out of the tracked lists. *)
Lemma set_primary_spec (off : Z) (proc : list Z) (hands : gmap Z bool) (own : gmap Z pp_task) (t p : Z) (d dp : pp_task) :
  own !! t = Some d -> type d = ZBX_PP_TASK_DEPENDENT -> primary d = None -> own !! p = Some dp -> type dp = ZBX_PP_TASK_VALUE ->
  triple (Inv off proc hands own) (update t (fun d => set_primary d (Some p)))
    (fun _ => Inv off proc hands (<[t := set_primary d (Some p)]> (delete p own))).
Proof.
  intros Hot Hty Hp Hop Htp w [loc Hi]. destruct (inv_own_heap _ _ _ _ _ _ _ _ Hi Hot) as [Hl Ed].
  destruct (inv_own_heap _ _ _ _ _ _ _ _ Hi Hop) as [Hlp Edp]. assert (Hne : p <> t) by congruence.
  eexists _, _. split; [by apply update_run|]. exists (<[p := Primary t]> loc).
  destruct Hi as [Hh Hlists Ho Htr Hw Hlog H1 H2 H3]. constructor; cbn [heap next_task queue set_heap tracked_log finished_log]; try done.
  - by apply (heap_set_primary _ _ _ _ Hh t p d dp).
  - apply (lists_other _ _ _ _ _ Hlists); [|done..]. intros q E. by simplify_eq.
  - assert (Ho' : owned_ok (<[p := Primary t]> loc) (heap w) hands (delete p own)) by (by apply (owned_leave _ _ _ _ Ho)).
    apply (owned_update _ _ _ _ Ho' t). by rewrite lookup_insert_ne.
  - assert (Htr' : tracking loc (<[t := set_primary d (Some p)]> (heap w)) (tasks (queue w)))
      by (apply (tracking_update _ _ _ Htr t d); try done; by left).
    apply (tracking_move _ _ _ Htr' p dp Own); [by rewrite lookup_insert_ne|done|done].
  - by apply heads_move.
  - rewrite H1, (total_move loc p _ _ Hlp). cbn [weight]. f_equal; lia.
Qed.

Lemma clear_primary_spec (off : Z) (proc : list Z) (hands : gmap Z bool) (own : gmap Z pp_task) (w : world) (t p : Z) (d : pp_task) :
  Inv off proc hands own w -> own !! t = Some d -> type d = ZBX_PP_TASK_DEPENDENT -> primary d = Some p ->
  exists dp, heap w !! p = Some dp /\ type dp = ZBX_PP_TASK_VALUE /\ own !! p = None /\
    Inv off proc hands (<[p := dp]> (<[t := set_primary d None]> own)) (set_heap w (<[t := set_primary d None]> (heap w))).
Proof.
  intros [loc Hi] Hot Hty Hp. destruct (inv_own_heap _ _ _ _ _ _ _ _ Hi Hot) as [Hl Ed].
  destruct Hi as [Hh Hlists Ho Htr Hw Hlog H1 H2 H3].
  assert (Hlp : loc !! p = Some (Primary t)) by (apply (ho_prim _ _ _ _ Hh); eauto). assert (Hne : p <> t) by congruence.
  destruct (proj2 (ho_dom _ _ _ _ Hh p)) as [dp Edp]; [rewrite Hlp; by eexists|]. exists dp.
  pose proof (ho_place _ _ _ _ Hh _ _ _ Edp Hlp) as Htp. split_and!; [done|done| |].
  { destruct (own !! p) as [d'|] eqn:E; [|done]. apply (oo_own _ _ _ _ Ho) in E as [E _]. congruence. }
  exists (<[p := Own]> loc). constructor; cbn [heap next_task queue set_heap tracked_log finished_log]; try done.
  - by apply (heap_clear_primary _ _ _ _ Hh t p d).
  - apply (lists_other _ _ _ _ _ Hlists); [|done..]. intros q E. by simplify_eq.
  - assert (Ho' : owned_ok loc (<[t := set_primary d None]> (heap w)) hands (<[t := set_primary d None]> own)) by (by apply owned_update).
    apply (owned_take _ _ _ _ Ho'); [by rewrite lookup_insert_ne|]. intros q E. by simplify_eq.
  - assert (Htr' : tracking loc (<[t := set_primary d None]> (heap w)) (tasks (queue w)))
      by (apply (tracking_update _ _ _ Htr t d); try done; by left).
    apply (tracking_move _ _ _ Htr' p dp (Primary t)); [by rewrite lookup_insert_ne|done|done].
  - by apply heads_move.
  - rewrite H1, (total_move loc p _ _ Hlp). cbn [weight]. f_equal; lia.
Qed.

(** The primary task of an owned dependent task is allocated. *)
Lemma primary_heap (off : Z) (proc : list Z) (hands : gmap Z bool) (own : gmap Z pp_task) (w : world) (t p : Z) (d : pp_task) :
  Inv off proc hands own w -> own !! t = Some d -> primary d = Some p -> exists dp, heap w !! p = Some dp.
Proof.
  intros [loc Hi] Hot Hp. destruct (inv_own_heap _ _ _ _ _ _ _ _ Hi Hot) as [Hl Ed].
  pose proof (inv_heap _ _ _ _ _ _ Hi) as Hh. assert (Hlp : loc !! p = Some (Primary t)) by (apply (ho_prim _ _ _ _ Hh); eauto).
  destruct (proj2 (ho_dom _ _ _ _ Hh p)) as [dp Edp]; [rewrite Hlp; by eexists|eauto].
Qed.

Lemma lists_delete (loc : gmap Z place) (q : pp_queue) (proc : list Z) (t : Z) (p : place) :
  lists_ok loc q proc -> loc !! t = Some p ->
  at_pending p = false -> at_immediate p = false -> at_processing p = false -> at_finished p = false ->
  lists_ok (delete t loc) q proc.
Proof. intros [] Hp Ha Hb Hc Hd. constructor; apply listed_delete; try done; congruence. Qed.

Lemma heads_delete (loc : gmap Z place) (tks : gmap Z (list Z)) (t : Z) : heads_waiting loc tks -> heads_waiting (delete t loc) tks.
Proof.
  intros Hh X l HX. destruct (Hh X l HX) as (x & l' & -> & Hx). exists x, l'. split; [done|].
  intros [_ E]%lookup_delete_Some. done.
Qed.

Lemma inv_free (off : Z) (proc : list Z) (hands : gmap Z bool) (own : gmap Z pp_task) (loc : gmap Z place) (w : world)
    (t : Z) (d : pp_task) (p : place) (q' : pp_queue) :
  inv off proc hands own loc w -> heap w !! t = Some d -> loc !! t = Some p -> p = Own \/ p = Hand false ->
  seq_tasks d = [] -> primary d = None ->
  (forall X s, sequences q' !! X = Some s <-> sequences (queue w) !! X = Some s /\ s <> t) ->
  tasks q' = tasks (queue w) -> pending q' = pending (queue w) -> immediate q' = immediate (queue w) ->
  finished q' = finished (queue w) -> pending_num q' = pending_num (queue w) ->
  processing_num q' = processing_num (queue w) -> finished_num q' = finished_num (queue w) ->
  inv off proc (delete t hands) (delete t own) (delete t loc)
    (mkWorld (delete t (heap w)) (next_task w) q' (tracked_log w) (finished_log w)).
Proof.
  intros [Hh Hlists Ho Htr Hw Hlog H1 H2 H3] Ed Hl Hp Hs Hpr Hreg Et Ep Ei Ef N1 N2 N3.
  constructor; cbn [heap next_task queue tracked_log finished_log]; rewrite ?Et, ?Ef, ?N1, ?N2, ?N3; try done.
  - apply (heap_free _ _ _ _ Hh t d p); try done. by destruct Hp as [-> | ->].
  - assert (Hq : lists_ok loc q' proc) by (destruct Hlists; constructor; congruence).
    apply (lists_delete _ _ _ _ p Hq); try done; by destruct Hp as [-> | ->].
  - by apply owned_free.
  - apply tracking_delete; [done|]. intros q E. simplify_eq. by destruct Hp as [-> | ->].
  - by apply heads_delete.
  - intros X. cbn [tracked_log finished_log queue]. by rewrite Et.
  - rewrite H1, (total_delete loc t p Hl). destruct Hp as [-> | ->]; cbn [weight]; f_equal; lia.
Qed.

Lemma free_spec (fuel : nat) (off : Z) (proc : list Z) (hands : gmap Z bool) (own : gmap Z pp_task) (t : Z) (d : pp_task) :
  own !! t = Some d -> primary d = None ->
  triple (Inv off proc hands own) (pp_task_free (S fuel) t) (fun _ => Inv off proc hands (delete t own)).
Proof.
  intros Hot Hp w Hw. destruct (own_task_ok _ _ _ _ _ _ _ Hw Hot) as (Hty & Hs & _). destruct Hw as [loc Hi].
  destruct (inv_own_heap _ _ _ _ _ _ _ _ Hi Hot) as [Hl Ed]. cbn [pp_task_free]. step.
  erewrite (bind_run _ _ w w tt); [|by destruct (type d); rewrite ?Hp].
  eexists _, _. split; [by apply (release_run t d)|]. exists (delete t loc).
  assert (Hh : hands !! t = None).
  { destruct (hands !! t) as [b|] eqn:E; [|done]. apply (oo_hands _ _ _ _ (inv_owned _ _ _ _ _ _ Hi)) in E. congruence. }
  rewrite <- (delete_id hands t Hh). apply (inv_free _ _ _ _ _ _ t d Own (queue w) Hi); try done; [by left|].
  intros X s. split; [|by intros []]. intros E. split; [done|]. intros ->.
  apply (ho_reg _ _ _ _ (inv_heap _ _ _ _ _ _ Hi)) in E as (d' & E & ? & _). congruence.
Qed.

(** An empty sequence is forgotten and freed. *)
Lemma free_sequence_spec (off : Z) (proc : list Z) (hands : gmap Z bool) (own : gmap Z pp_task) (s : Z) (ds : pp_task) (w : world) :
  hands !! s = Some false -> Inv off proc hands own w -> heap w !! s = Some ds -> seq_tasks ds = [] ->
  exists w', (pp_task_queue_remove_sequence (itemid ds);; pp_task_free 3 s) w = Ret (tt, w') /\
    Inv off proc (delete s hands) own w'.
Proof.
  intros Hs [loc Hi] Eds Hempty. destruct (inv_hand_heap _ _ _ _ _ _ _ _ Hi Hs) as (Hl & ds' & E' & Hty & _).
  assert (ds' = ds) as -> by congruence. pose proof (inv_heap _ _ _ _ _ _ Hi) as Hh.
  destruct (ho_seq _ _ _ _ Hh _ _ Eds) as (_ & _ & _ & Hpr). step. set (w1 := set_queue w _).
  assert (Ed1 : heap w1 !! s = Some ds) by done. cbn [pp_task_free]. step. rewrite Hty, Hempty. cbn [foldr]. step.
  eexists. split; [by apply (release_run s ds)|]. exists (delete s loc).
  assert (Ho : own !! s = None).
  { destruct (own !! s) as [d|] eqn:E; [|done]. apply (oo_own _ _ _ _ (inv_owned _ _ _ _ _ _ Hi)) in E as [E _]. congruence. }
  rewrite <- (delete_id own s Ho).
  apply (inv_free _ _ _ _ _ _ s ds (Hand false) (queue w1) Hi); try done; [by right|by apply Hpr; congruence|].
  intros X x. cbn. rewrite lookup_delete_Some. split.
  - intros [Hne E]. split; [done|]. intros ->. apply (ho_reg _ _ _ _ Hh) in E as (d' & E & _ & E2). congruence.
  - intros [E Hne]. split; [|done]. intros <-. apply Hne.
    assert (Hreg : sequences (queue w) !! itemid ds = Some s) by (apply (ho_reg _ _ _ _ Hh); eauto). congruence.
Qed.
