(* ===== verification/PpManager.v ===== *)
(** The preprocessing manager and its workers around the task queue
    (src/src/libs/zbxpreproc/pp_manager.c, pp_worker.c, pp_cache.c): tasks for
    requests and dependent items, results of finished tasks, sequences, the
    batch of finished tasks the manager flushes and frees.  [items] is the
    manager's table of items with their preprocessing data.  *)

From stdpp Require Import base list numbers strings gmap.
From Stdlib Require Import ZArith Lia.
From S2P Require Import Prelude PpQueue.

Open Scope Z_scope.

Definition pp_cache_is_supported (p : pp_preproc) : bool :=
  match steps p with
  | [] => false
  | step :: _ =>
      (step =? ZBX_PREPROC_JSONPATH) || (step =? ZBX_PREPROC_PROMETHEUS_PATTERN) ||
      (step =? ZBX_PREPROC_PROMETHEUS_TO_JSON) || (step =? ZBX_PREPROC_SNMP_WALK_VALUE)
  end.

Section Manager.
Context (items : gmap Z pp_preproc).

(** The task of a mode. *)
Definition create_by_mode (item : Z) (p : pp_preproc) : M Z :=
  match mode p with
  | ZBX_PP_PROCESS_PARALLEL => pp_task_value_create item p
  | ZBX_PP_PROCESS_SERIAL => pp_task_value_seq_create item p
  end.

(** [None]: the value can be flushed directly; [some_value] tells that it is
    not ZBX_VARIANT_NONE. *)
Definition zbx_pp_manager_create_task (item : Z) (some_value : bool) : M (option Z) :=
  if negb some_value then mret None else
  match items !! item with
  | None => mret None
  | Some p =>
      match dep_itemids p, steps p with
      | [], [] => mret None
      | _, _ => task ← create_by_mode item p; mret (Some task)
      end
  end.

Definition zbx_pp_manager_queue_value_preproc (l : list Z) : M unit :=
  foldr (fun task r => pp_task_queue_push task;; r) (mret tt) l.

(** The loop of preprocessor_add_request: tasks are created one by one and
    queued together. *)
Fixpoint create_tasks (reqs : list (Z * bool)) : M (list Z) :=
  match reqs with
  | [] => mret []
  | (item, some_value) :: reqs =>
      task ← zbx_pp_manager_create_task item some_value;
      l ← create_tasks reqs;
      mret (match task with Some t => t :: l | None => l end)
  end.

Definition preprocessor_add_request (reqs : list (Z * bool)) : M unit :=
  l ← create_tasks reqs;
  zbx_pp_manager_queue_value_preproc l.

Definition zbx_pp_manager_queue_test (p : pp_preproc) : M unit :=
  task ← pp_task_test_create p;
  pp_task_queue_push_test task.

Fixpoint pp_manager_get_cacheable_dependent_item (itemids : list Z) : option (Z * pp_preproc) :=
  match itemids with
  | [] => None
  | item :: itemids =>
      match items !! item with
      | Some p => if pp_cache_is_supported p then Some (item, p) else pp_manager_get_cacheable_dependent_item itemids
      | None => pp_manager_get_cacheable_dependent_item itemids
      end
  end.

(** The dependent items to queue: not excluded and still configured. *)
Fixpoint queue_dependents (itemids : list Z) (exclude_itemid : Z) : M unit :=
  match itemids with
  | [] => mret tt
  | item :: itemids =>
      if item =? exclude_itemid then queue_dependents itemids exclude_itemid else
      match items !! item with
      | None => queue_dependents itemids exclude_itemid
      | Some p =>
          new_task ← create_by_mode item p;
          pp_task_queue_push_immediate new_task;;
          queue_dependents itemids exclude_itemid
      end
  end.

Definition pp_manager_queue_dependents (p : pp_preproc) (exclude_itemid : Z) : M unit :=
  queue_dependents (dep_itemids p) exclude_itemid.

Definition pp_manager_queue_value_task_result (task : Z) : M unit :=
  t ← deref task;
  if negb (result t) then mret tt else
  match pp_manager_get_cacheable_dependent_item (dep_itemids (preproc t)) with
  | Some (item, p) =>
      dep_task ← pp_task_dependent_create item (preproc t);
      prim ← pp_task_value_create item p;
      update dep_task (fun d => set_primary d (Some prim));;
      pp_task_queue_push_immediate dep_task
  | None => pp_manager_queue_dependents (preproc t) 0
  end.

Definition pp_manager_queue_dependent_task_result (task : Z) : M Z :=
  t ← deref task;
  match primary t with
  | None => fun _ => Undef
  | Some task_value =>
      pp_manager_queue_value_task_result task_value;;
      v ← deref task_value;
      pp_manager_queue_dependents (preproc t) (itemid v);;
      update task (fun d => set_primary d None);;
      pp_task_free 3 task;;
      mret task_value
  end.

Definition pp_manager_requeue_next_sequence_task (task_seq : Z) : M (option Z) :=
  d_seq ← deref task_seq;
  task ←
    match seq_tasks d_seq with
    | [] => mret None
    | task :: l =>
        update task_seq (fun d => set_seq d l);;
        t ← deref task;
        match type t with
        | ZBX_PP_TASK_VALUE | ZBX_PP_TASK_VALUE_SEQ => pp_manager_queue_value_task_result task;; mret (Some task)
        | ZBX_PP_TASK_DEPENDENT => v ← pp_manager_queue_dependent_task_result task; mret (Some v)
        | _ => mret (Some task)
        end
    end;
  d_seq ← deref task_seq;
  (match seq_tasks d_seq with
   | _ :: _ => pp_task_queue_push_immediate task_seq
   | [] => pp_task_queue_remove_sequence (itemid d_seq);; pp_task_free 3 task_seq
   end);;
  mret task.

Definition PP_FINISHED_TASK_BATCH_SIZE : nat := 100.

(** The while loop; every round adds a task to the batch. *)
Fixpoint process_finished (batch : nat) : M (list Z) :=
  match batch with
  | O => mret []
  | S batch =>
      r ← pp_task_queue_pop_finished;
      task ←
        match r with
        | None => mret None
        | Some task =>
            t ← deref task;
            match type t with
            | ZBX_PP_TASK_VALUE => pp_manager_queue_value_task_result task;; mret (Some task)
            | ZBX_PP_TASK_DEPENDENT => v ← pp_manager_queue_dependent_task_result task; mret (Some v)
            | ZBX_PP_TASK_SEQUENCE => pp_manager_requeue_next_sequence_task task
            | _ => mret (Some task)
            end
        end;
      match task with
      | None => mret []
      | Some task => l ← process_finished batch; mret (task :: l)
      end
  end.

Definition zbx_pp_manager_process_finished : M (list Z) := process_finished PP_FINISHED_TASK_BATCH_SIZE.

(** zbx_pp_tasks_clear, after the values of the batch were flushed. *)
Definition zbx_pp_tasks_clear (l : list Z) : M unit :=
  foldr (fun task r => pp_task_free 3 task;; r) (mret tt) l.

(* ------------------------------------------------------------------ *)
(** ** Workers *)

(** The result of a value task, or of the primary task of a dependent one. *)
Definition pp_task_process_value (task : Z) (r : bool) : M unit := update task (fun t => set_result t r).
Definition pp_task_process_dependent (task : Z) (r : bool) : M unit :=
  t ← deref task;
  match primary t with
  | None => fun _ => Undef
  | Some p => update p (fun t => set_result t r)
  end.

Definition pp_task_process_sequence (task_seq : Z) (r : bool) : M unit :=
  d_seq ← deref task_seq;
  match seq_tasks d_seq with
  | [] => mret tt
  | task :: _ =>
      t ← deref task;
      match type t with
      | ZBX_PP_TASK_VALUE | ZBX_PP_TASK_VALUE_SEQ => pp_task_process_value task r
      | ZBX_PP_TASK_DEPENDENT => pp_task_process_dependent task r
      | _ => mret tt
      end
  end.

(** The switch of pp_worker_entry. *)
Definition process_task (task : Z) (r : bool) : M unit :=
  t ← deref task;
  match type t with
  | ZBX_PP_TASK_TEST | ZBX_PP_TASK_VALUE | ZBX_PP_TASK_VALUE_SEQ => pp_task_process_value task r
  | ZBX_PP_TASK_DEPENDENT => pp_task_process_dependent task r
  | ZBX_PP_TASK_SEQUENCE => pp_task_process_sequence task r
  end.
End Manager.
