(* ===== verification/PpSystem.v ===== *)
(** The handlers of the preprocessing manager and of its workers (PpManager) keep
    the invariant of PpInv and succeed in every world that satisfies it. *)

From stdpp Require Import base list numbers strings gmap.
From Stdlib Require Import ZArith Lia.
From S2P Require Import Prelude PpQueue PpInv PpOps PpManager.

Open Scope Z_scope.

(* ------------------------------------------------------------------ *)
(** ** The handlers of the manager *)

Lemma value_seq_create_eq (X : Z) (p : pp_preproc) (w : world) :
  pp_task_value_seq_create X p w =
  pp_task_create (mkTask X ZBX_PP_TASK_VALUE_SEQ ZBX_PP_TASK_PENDING p false None []) w.
Proof.
  unfold pp_task_value_seq_create, pp_task_value_create, pp_task_create, update, mbind, M_bind. cbn.
  rewrite lookup_insert_eq. cbn. by rewrite insert_insert_eq.
Qed.

(** A task just created for an item. *)
Definition fresh_value (d : pp_task) : Prop :=
  ((type d = ZBX_PP_TASK_VALUE /\ state d = ZBX_PP_TASK_PENDING) \/ type d = ZBX_PP_TASK_VALUE_SEQ) /\ primary d = None.

Lemma fresh_pushable (d : pp_task) : fresh_value d -> pushable d.
Proof. intros [[H | H] _]; unfold pushable; cbn; tauto. Qed.

Section Handlers.
Context (items : gmap Z pp_preproc) (off : Z) (proc : list Z).

Lemma create_by_mode_spec (hands : gmap Z bool) (own : gmap Z pp_task) (X : Z) (p : pp_preproc) :
  triple (Inv off proc hands own) (create_by_mode X p) (fun t w =>
    exists d, own !! t = None /\ fresh_value d /\ Inv off proc hands (<[t := d]> own) w).
Proof.
  unfold create_by_mode. destruct (mode p).
  - eapply triple_post; [by apply create_spec|]. intros t w [H1 H2]. eexists. split_and!; [done| |exact H2].
    split; [by left|done].
  - intros w Hw. rewrite value_seq_create_eq.
    destruct (create_spec off proc hands own (mkTask X ZBX_PP_TASK_VALUE_SEQ ZBX_PP_TASK_PENDING p false None []) ltac:(done)
      eq_refl eq_refl w Hw) as (t & w' & E & H1 & H2).
    exists t, w'. split; [exact E|]. eexists. split_and!; [done| |exact H2]. split; [by right|done].
Qed.

(** A task is created and queued: the caller owns what it owned before. *)
Lemma create_push_spec (hands : gmap Z bool) (own : gmap Z pp_task) (X : Z) (p : pp_preproc) :
  triple (Inv off proc hands own) (t ← create_by_mode X p; pp_task_queue_push_immediate t) (fun _ => Inv off proc hands own).
Proof.
  eapply triple_bind; [apply create_by_mode_spec|]. intros t w (d & Hn & Hd & Hw).
  destruct (push_immediate_spec off proc hands (<[t := d]> own) t d (lookup_insert_eq _ _ _) (fresh_pushable _ Hd) w Hw)
    as (a & w' & E & H). exists a, w'. split; [done|]. by rewrite delete_insert_id in H by done.
Qed.

Lemma M_bind_assoc {A B C : Type} (m : M A) (k : A -> M B) (k' : B -> M C) (w : world) :
  ((m ≫= k) ≫= k') w = (m ≫= (fun a => k a ≫= k')) w.
Proof. unfold mbind, M_bind. by destruct (m w) as [[]| | |]. Qed.

Lemma queue_dependents_spec (hands : gmap Z bool) (own : gmap Z pp_task) (l : list Z) (ex : Z) :
  triple (Inv off proc hands own) (queue_dependents items l ex) (fun _ => Inv off proc hands own).
Proof.
  induction l as [|X l IH]; cbn [queue_dependents]; [by apply triple_ret|].
  destruct (X =? ex); [done|]. destruct (items !! X) as [p|]; [|done].
  intros w Hw. rewrite <- M_bind_assoc. revert w Hw. eapply triple_bind; [apply create_push_spec|]. intros []. exact IH.
Qed.

Lemma value_task_result_spec (hands : gmap Z bool) (own : gmap Z pp_task) (t : Z) :
  triple (fun w => Inv off proc hands own w /\ exists d, heap w !! t = Some d) (pp_manager_queue_value_task_result items t)
    (fun _ => Inv off proc hands own).
Proof.
  intros w [Hw [d Ed]]. unfold pp_manager_queue_value_task_result. step.
  destruct (negb (result d)); [by eexists tt, w|].
  destruct (pp_manager_get_cacheable_dependent_item items (dep_itemids (preproc d))) as [[X p]|];
    [|by apply queue_dependents_spec].
  revert w Hw Ed. intros w Hw _. revert w Hw. eapply triple_bind; [by apply create_spec|].
  intros dep. cbn beta. intros w [Hdep Hw]. revert w Hw. set (dd := mkTask X _ _ _ _ _ _).
  eapply triple_bind; [by apply create_spec|]. intros prim. cbn beta. intros w [Hprim Hw]. revert w Hw.
  set (dp := mkTask X _ _ _ _ _ _). assert (Hne : prim <> dep) by (intros ->; by rewrite lookup_insert_eq in Hprim).
  eapply triple_bind.
  { apply (set_primary_spec off proc hands _ dep prim dd dp); try done; [|by rewrite lookup_insert_eq].
    by rewrite lookup_insert_ne, lookup_insert_eq. }
  intros []. cbn beta. rewrite delete_insert_id by done. rewrite insert_insert_eq.
  eapply triple_post; [apply (push_immediate_spec _ _ _ _ dep (set_primary dd (Some prim))); [by rewrite lookup_insert_eq|]|].
  - right; right. by right.
  - intros [] w'. cbn beta. by rewrite delete_insert_id.
Qed.

(** A task the batch may hold: one that is flushed and freed. *)
Definition flushable (d : pp_task) : Prop :=
  type d = ZBX_PP_TASK_VALUE \/ type d = ZBX_PP_TASK_VALUE_SEQ \/ type d = ZBX_PP_TASK_TEST.

Lemma dependent_task_result_spec (hands : gmap Z bool) (own : gmap Z pp_task) (t p : Z) (d : pp_task) :
  own !! t = Some d -> type d = ZBX_PP_TASK_DEPENDENT -> primary d = Some p ->
  triple (Inv off proc hands own) (pp_manager_queue_dependent_task_result items t) (fun v w =>
    exists dv, delete t own !! v = None /\ flushable dv /\ Inv off proc hands (<[v := dv]> (delete t own)) w).
Proof.
  intros Hot Hty Hp. unfold pp_manager_queue_dependent_task_result. apply (deref_own _ _ _ _ t d); [done|]. rewrite Hp.
  eapply triple_bind.
  { eapply triple_pre; [apply value_task_result_spec|]. intros w Hw. split; [done|].
    by apply (primary_heap _ _ _ _ _ t p d Hw). }
  intros []. eapply triple_bind.
  { apply triple_deref. intros w Hw. destruct (primary_heap _ _ _ _ _ t p d Hw Hot Hp) as [dp E]. exists dp. split; [done|].
    exact Hw. }
  intros dp. cbn beta. eapply triple_bind; [apply queue_dependents_spec|]. intros []. cbn beta. intros w Hw.
  assert (Ed : heap w !! t = Some d) by (by apply (Inv_own_heap _ _ _ _ _ t d Hw)).
  destruct (clear_primary_spec _ _ _ _ w t p d Hw Hot Hty Hp) as (dv & Edv & Htv & Hnp & Hw1).
  assert (Hne : p <> t) by congruence. step. rewrite insert_insert_ne in Hw1 by done.
  destruct (free_spec 2 off proc hands _ t (set_primary d None) (lookup_insert_eq _ _ _) eq_refl _ Hw1) as (a & w2 & E2 & Hw2).
  erewrite bind_run; [|exact E2]. eexists _, _. split; [reflexivity|]. exists dv.
  rewrite lookup_delete_ne by done. split_and!; [done|by left|].
  by rewrite delete_insert_eq, delete_insert_ne in Hw2 by done.
Qed.

Lemma M_bind_ret {A : Type} (m : M A) (w : world) : (m ≫= mret) w = m w.
Proof. unfold mbind, M_bind. by destruct (m w) as [[]| | |]. Qed.

(** The sequence in hand goes back to the queue or is freed. *)
Lemma requeue_tail_spec {A : Type} (hands : gmap Z bool) (own : gmap Z pp_task) (s : Z) (r : A) :
  hands !! s = Some false ->
  triple (Inv off proc hands own)
    (d_seq ← deref s;
     (match seq_tasks d_seq with
      | _ :: _ => pp_task_queue_push_immediate s
      | [] => pp_task_queue_remove_sequence (itemid d_seq);; pp_task_free 3 s
      end);; mret r)
    (fun r' w => r' = r /\ Inv off proc (delete s hands) own w).
Proof.
  intros Hs w Hw. destruct Hw as [loc Hi]. destruct (inv_hand_heap _ _ _ _ _ _ _ _ Hi Hs) as (Hl & ds & Eds & Hty & _).
  assert (Hw : Inv off proc hands own w) by by exists loc. step. destruct (seq_tasks ds) as [|t l] eqn:El.
  - destruct (free_sequence_spec off proc hands own s ds w Hs Hw Eds El) as (w' & E & Hw').
    rewrite (bind_run _ _ _ _ _ E). by exists r, w'.
  - destruct (append_immediate_seq off proc hands own s Hs w) as ([] & w' & E & Hw').
    { split; [done|]. exists ds. by rewrite El. }
    erewrite (bind_run _ _ w w' tt); [by exists r, w'|]. unfold pp_task_queue_push_immediate. step. by rewrite Hty.
Qed.

Lemma requeue_next_spec (hands : gmap Z bool) (own : gmap Z pp_task) (s : Z) :
  hands !! s = Some true ->
  triple (Inv off proc hands own) (pp_manager_requeue_next_sequence_task items s) (fun r w =>
    exists t d, r = Some t /\ own !! t = None /\ flushable d /\ Inv off proc (delete s hands) (<[t := d]> own) w).
Proof.
  intros Hs w Hw. destruct (seq_pop_spec _ _ _ _ w s Hs Hw) as (ds & t & l & d & Eds & El & Hot & Hd & Hw1).
  unfold pp_manager_requeue_next_sequence_task. step. rewrite El, M_bind_assoc. step. rewrite M_bind_assoc.
  assert (Et : (set_heap w (<[s := set_seq ds l]> (heap w)) : world).(heap) !! t = Some d)
    by (by apply (Inv_own_heap _ _ _ _ _ t d Hw1); rewrite lookup_insert_eq).
  step. revert Hw1 Et. generalize (set_heap w (<[s := set_seq ds l]> (heap w))). clear w Hw Eds El. intros w Hw Et.
  destruct Hd as [Hty | [Hty Hp]]; rewrite Hty.
  - rewrite M_bind_assoc. revert w Hw Et. intros w Hw Et.
    destruct (value_task_result_spec _ _ t w (conj Hw (ex_intro _ d Et))) as ([] & w' & E & Hw').
    rewrite (bind_run _ _ _ _ _ E). step.
    destruct (requeue_tail_spec (<[s := false]> hands) _ s (Some t) (lookup_insert_eq _ _ _) w' Hw') as (r & w2 & E2 & -> & Hw2).
    exists (Some t), w2. split; [done|]. exists t, d. rewrite delete_insert_eq in Hw2. split_and!; try done. right; by left.
  - destruct (primary d) as [p|] eqn:Ep; [|done]. rewrite M_bind_assoc.
    destruct (dependent_task_result_spec _ (<[t := d]> own) t p d (lookup_insert_eq _ _ _) Hty Ep w Hw)
      as (v & w' & E & dv & Hov & Hdv & Hw').
    rewrite delete_insert_id in Hov, Hw' by done.
    rewrite (bind_run _ _ _ _ _ E). step.
    destruct (requeue_tail_spec (<[s := false]> hands) _ s (Some v) (lookup_insert_eq _ _ _) w' Hw') as (r & w2 & E2 & -> & Hw2).
    exists (Some v), w2. split; [done|]. exists v, dv. rewrite delete_insert_eq in Hw2. by split_and!.
Qed.

(** The tasks [l] of a batch are owned on top of [own]. *)
Record batch (own : gmap Z pp_task) (l : list Z) (own' : gmap Z pp_task) : Prop := mkBatch {
  ba_nodup : NoDup l;
  ba_in : forall t, t ∈ l -> own !! t = None /\ exists d, own' !! t = Some d /\ flushable d;
  ba_out : forall t, t ∉ l -> own' !! t = own !! t
}.

Lemma batch_cons (own : gmap Z pp_task) (t : Z) (d : pp_task) (l : list Z) (own' : gmap Z pp_task) :
  own !! t = None -> flushable d -> batch (<[t := d]> own) l own' -> batch own (t :: l) own'.
Proof.
  intros Hn Hd [Hnd Hin Hout]. assert (Ht : t ∉ l).
  { intros [H _]%Hin. by rewrite lookup_insert_eq in H. }
  constructor; [by constructor| |].
  - intros x [-> | Hx]%elem_of_cons.
    + split; [done|]. exists d. by rewrite Hout, lookup_insert_eq.
    + destruct (Hin x Hx) as [H1 H2]. rewrite lookup_insert_ne in H1 by (intros ->; done). done.
  - intros x [Hne Hx]%not_elem_of_cons. rewrite Hout by done. by rewrite lookup_insert_ne.
Qed.

(** What the loop does with one finished task. *)
Lemma process_finished_spec (n : nat) (own : gmap Z pp_task) :
  triple (Inv off proc ∅ own) (process_finished items n) (fun l w =>
    (length l <= n)%nat /\ ((length l < n)%nat -> finished (queue w) = []) /\ exists own', batch own l own' /\ Inv off proc ∅ own' w).
Proof.
  assert (Hnil : forall own, batch own [] own) by (intros; constructor; [constructor|set_solver|done]).
  revert own. induction n as [|n IH]; intros own; cbn [process_finished].
  { apply triple_ret. intros w Hw. split_and!; [done|cbn; lia|]. by exists own. }
  eapply triple_bind; [apply pop_finished_spec|]. intros [t|]; cbn beta iota.
  2: { intros w [Hw Hf]. step. eexists _, _. split; [reflexivity|]. split_and!; [cbn; lia|done|]. by exists own. }
  eapply (triple_bind _ _ _ (fun r w => exists t d, r = Some t /\ own !! t = None /\ flushable d /\
    Inv off proc ∅ (<[t := d]> own) w)).
  - intros w [(d & Hn & Hty & Hw) | [_ Hw]].
    + assert (Ed : heap w !! t = Some d) by (by apply (Inv_own_heap _ _ _ _ _ t d Hw); rewrite lookup_insert_eq).
      step. destruct Hty as [Hty | Hty]; rewrite Hty.
      * destruct (value_task_result_spec _ _ t w (conj Hw (ex_intro _ d Ed))) as ([] & w' & E & Hw').
        rewrite (bind_run _ _ _ _ _ E). exists (Some t), w'. split; [done|]. exists t, d. split_and!; try done. unfold flushable; tauto.
      * eexists _, _. split; [reflexivity|]. exists t, d. split_and!; try done. unfold flushable; tauto.
    + destruct Hw as [loc Hi]. destruct (inv_hand_heap _ _ _ _ _ _ t true Hi (lookup_insert_eq _ _ _)) as (_ & ds & Eds & Hty & _).
      step. rewrite Hty. destruct (requeue_next_spec (<[t := true]> ∅) own t (lookup_insert_eq _ _ _) w (ex_intro _ loc Hi))
        as (r & w' & E & H). exists r, w'. split; [done|]. by rewrite delete_insert_eq, delete_empty in H.
  - intros r. cbn beta. intros w (t' & d & -> & Hn & Hd & Hw).
    destruct (IH _ w Hw) as (l & w' & E & Hlen & Hf & own' & Hb & Hw'). rewrite (bind_run _ _ _ _ _ E).
    eexists _, _. split; [reflexivity|]. split_and!; [cbn; lia|cbn; intros Hl; apply Hf; lia|]. exists own'. split; [by eapply batch_cons|done].
Qed.

Lemma tasks_clear_spec (l : list Z) (own own' : gmap Z pp_task) :
  batch own l own' -> triple (Inv off proc ∅ own') (zbx_pp_tasks_clear l) (fun _ => Inv off proc ∅ own).
Proof.
  revert own'. induction l as [|t l IH]; intros own' [Hnd Hin Hout]; cbn.
  { apply triple_ret. intros w Hw. assert (own' = own) as <-; [|done]. apply map_eq. intros x. apply Hout. set_solver. }
  apply NoDup_cons in Hnd as [Ht Hnd]. destruct (Hin t ltac:(by left)) as (Hn & d & Ed & Hd).
  intros w Hw. assert (Hp : primary d = None).
  { apply (own_task_ok _ _ _ _ _ t d Hw Ed). destruct Hd as [-> | [-> | ->]]; done. }
  revert w Hw. eapply triple_bind; [by apply (free_spec 2 _ _ _ _ t d)|]. intros []. apply IH. constructor; [done| |].
  - intros x Hx. assert (x <> t) by (intros ->; done). rewrite lookup_delete_ne by done. apply Hin. by right.
  - intros x Hx. destruct (decide (x = t)) as [-> | Hne]; [by rewrite lookup_delete_eq|].
    rewrite lookup_delete_ne by done. apply Hout. by intros [-> | ?]%elem_of_cons.
Qed.

(** A round of the manager: finished tasks are collected and freed. *)
Lemma collect_spec :
  triple (Inv off proc ∅ ∅) (l ← zbx_pp_manager_process_finished items; zbx_pp_tasks_clear l) (fun _ => Inv off proc ∅ ∅).
Proof.
  eapply triple_bind; [apply process_finished_spec|]. intros l w (_ & _ & own' & Hb & Hw).
  by apply (tasks_clear_spec l ∅ own').
Qed.

(** New tasks, owned on top of [own] until they are queued. *)
Definition created (own : gmap Z pp_task) (l : list Z) (own' : gmap Z pp_task) : Prop :=
  NoDup l /\ (forall t, t ∈ l -> own !! t = None /\ exists d, own' !! t = Some d /\ fresh_value d) /\
  (forall t, t ∉ l -> own' !! t = own !! t).

Lemma create_task_spec (own : gmap Z pp_task) (X : Z) (b : bool) :
  triple (Inv off proc ∅ own) (zbx_pp_manager_create_task items X b) (fun r w =>
    match r with
    | None => Inv off proc ∅ own w
    | Some t => exists d, own !! t = None /\ fresh_value d /\ Inv off proc ∅ (<[t := d]> own) w
    end).
Proof.
  unfold zbx_pp_manager_create_task. destruct (negb b); [by apply triple_ret|].
  destruct (items !! X) as [p|]; [|by apply triple_ret].
  assert (H : triple (Inv off proc ∅ own) (task ← create_by_mode X p; mret (Some task)) (fun r w =>
    match r with
    | None => Inv off proc ∅ own w
    | Some t => exists d, own !! t = None /\ fresh_value d /\ Inv off proc ∅ (<[t := d]> own) w
    end)).
  { eapply triple_bind; [apply create_by_mode_spec|]. intros t. by apply triple_ret. }
  destruct (dep_itemids p), (steps p); [by apply triple_ret|exact H..].
Qed.

Lemma create_tasks_spec (reqs : list (Z * bool)) (own : gmap Z pp_task) :
  triple (Inv off proc ∅ own) (create_tasks items reqs) (fun l w => exists own', created own l own' /\ Inv off proc ∅ own' w).
Proof.
  revert own. induction reqs as [|[X b] reqs IH]; intros own; cbn [create_tasks].
  { apply triple_ret. intros w Hw. exists own. split; [|done]. split_and!; [constructor|set_solver|done]. }
  eapply triple_bind; [apply create_task_spec|]. intros [t|]; cbn beta iota.
  - intros w (d & Hn & Hd & Hw). destruct (IH _ w Hw) as (l & w' & E & own' & (Hnd & Hin & Hout) & Hw').
    rewrite (bind_run _ _ _ _ _ E). eexists _, _. split; [reflexivity|]. exists own'. split; [|done].
    assert (Ht : t ∉ l) by (intros [H _]%Hin; by rewrite lookup_insert_eq in H). split_and!.
    + by constructor.
    + intros x [-> | Hx]%elem_of_cons.
      * split; [done|]. exists d. by rewrite Hout, lookup_insert_eq.
      * destruct (Hin x Hx) as [H1 H2]. rewrite lookup_insert_ne in H1 by (intros ->; done). done.
    + intros x [Hne Hx]%not_elem_of_cons. rewrite Hout by done. by rewrite lookup_insert_ne.
  - eapply triple_bind; [apply IH|]. intros l. by apply triple_ret.
Qed.

Lemma queue_tasks_spec (l : list Z) (own own' : gmap Z pp_task) :
  created own l own' -> triple (Inv off proc ∅ own') (zbx_pp_manager_queue_value_preproc l) (fun _ => Inv off proc ∅ own).
Proof.
  revert own'. induction l as [|t l IH]; intros own' (Hnd & Hin & Hout); cbn.
  { apply triple_ret. intros w Hw. assert (own' = own) as <-; [|done]. apply map_eq. intros x. apply Hout. set_solver. }
  apply NoDup_cons in Hnd as [Ht Hnd]. destruct (Hin t ltac:(by left)) as (Hn & d & Ed & Hd).
  eapply triple_bind; [apply (push_spec _ _ _ _ t d Ed); apply Hd|]. intros []. apply IH. split_and!; [done| |].
  - intros x Hx. assert (x <> t) by (intros ->; done). rewrite lookup_delete_ne by done. apply Hin. by right.
  - intros x Hx. destruct (decide (x = t)) as [-> | Hne]; [by rewrite lookup_delete_eq|].
    rewrite lookup_delete_ne by done. apply Hout. by intros [-> | ?]%elem_of_cons.
Qed.

Lemma add_request_spec (reqs : list (Z * bool)) :
  triple (Inv off proc ∅ ∅) (preprocessor_add_request items reqs) (fun _ => Inv off proc ∅ ∅).
Proof.
  eapply triple_bind; [apply create_tasks_spec|]. intros l w (own' & Hc & Hw). by apply (queue_tasks_spec l ∅ own').
Qed.

Lemma queue_test_spec (p : pp_preproc) :
  triple (Inv off proc ∅ ∅) (zbx_pp_manager_queue_test p) (fun _ => Inv off proc ∅ ∅).
Proof.
  eapply triple_bind; [by apply create_spec|]. intros t w [Hn Hw].
  destruct (push_test_spec _ _ _ _ t (mkTask 0 ZBX_PP_TASK_TEST ZBX_PP_TASK_PENDING p false None [])
    (lookup_insert_eq _ _ _) eq_refl w Hw) as ([] & w' & E & Hw').
  exists tt, w'. split; [done|]. by rewrite delete_insert_id in Hw'.
Qed.

(** A worker writes the result of a task it does not own in the sense above:
    its own task, the head of its sequence or a primary task. *)
Lemma set_result_spec (t : Z) (r : bool) :
  triple (fun w => Inv off proc ∅ ∅ w /\ is_Some (heap w !! t)) (update t (fun d => set_result d r)) (fun _ => Inv off proc ∅ ∅).
Proof.
  intros w [[loc Hi] [d Ed]]. eexists _, _. split; [by apply update_run|]. exists loc.
  destruct Hi as [Hh Hlists Ho Htr Hw Hlog H1 H2 H3]. constructor; cbn [heap next_task queue set_heap tracked_log finished_log]; try done.
  - by apply (heap_update _ _ _ _ Hh t d).
  - apply owned_frame; [done|]. intros Hl. assert (E : (∅ : gmap Z pp_task) !! t = Some d) by (by apply (oo_own _ _ _ _ Ho)). done.
  - apply (tracking_update _ _ _ Htr t d); try done. by left.
Qed.

(** The primary task of a queued dependent task is allocated. *)
Lemma process_dependent_spec (t : Z) (r : bool) (d : pp_task) :
  triple (fun w => Inv off proc ∅ ∅ w /\ heap w !! t = Some d /\ type d = ZBX_PP_TASK_DEPENDENT /\ primary d <> None)
    (pp_task_process_dependent t r) (fun _ => Inv off proc ∅ ∅).
Proof.
  intros w (Hw & Ed & Hty & Hp). unfold pp_task_process_dependent. step. destruct (primary d) as [p|] eqn:Ep; [|done].
  apply set_result_spec. split; [done|]. destruct Hw as [loc Hi]. pose proof (inv_heap _ _ _ _ _ _ Hi) as Hh.
  apply (ho_dom _ _ _ _ Hh). assert (loc !! p = Some (Primary t)) as -> by (apply (ho_prim _ _ _ _ Hh); eauto). by eexists.
Qed.

Lemma process_task_spec (t : Z) (r : bool) :
  t ∈ proc -> triple (Inv off proc ∅ ∅) (process_task t r) (fun _ => Inv off proc ∅ ∅).
Proof.
  intros Ht w [loc Hi]. destruct (place_listed _ _ _ t (lo_processing _ _ _ (inv_lists _ _ _ _ _ _ Hi)) Ht) as (p & Hl & Hp).
  destruct (inv_task_at _ _ _ _ _ _ t p Hi Hl) as (d & Ed & Hd). assert (Hw : Inv off proc ∅ ∅ w) by by exists loc.
  assert (Hsome : is_Some (heap w !! t)) by (rewrite Ed; by eexists). unfold process_task. step.
  apply at_processing_cases in Hp as [-> | ->]; [destruct Hd as [-> | ->]; by apply set_result_spec|].
  destruct Hd as [Hty Hne]. rewrite Hty. unfold pp_task_process_sequence. step.
  destruct (seq_tasks d) as [|x l] eqn:El; [done|]. pose proof (inv_heap _ _ _ _ _ _ Hi) as Hh.
  assert (Hx : loc !! x = Some (InSeq t)).
  { apply (ho_seq _ _ _ _ Hh t d Ed). rewrite El. by left. }
  destruct (inv_task_at _ _ _ _ _ _ x _ Hi Hx) as (dx & Ex & Hdx). step. destruct Hdx as [-> | [Hty' Hpx]].
  - apply set_result_spec. split; [done|]. rewrite Ex. by eexists.
  - rewrite Hty'. by apply (process_dependent_spec x r dx).
Qed.

End Handlers.
