(* ===== verification/PpRun.v ===== *)
(** The preprocessing system: the manager, any number of workers and the queue
    they share, as a machine of atomic steps.  The queue is locked around every
    queue operation, so an interleaving of threads is a sequence of such steps.
    What is proved here holds in every reachable state: no step touches a freed
    task, the counters are exact, values keep their order, an item has at most
    one sequence and no task is lost. *)

From stdpp Require Import base list numbers strings gmap.
From Stdlib Require Import ZArith Lia.
From S2P Require Import Prelude PpQueue PpInv PpOps PpManager PpSystem.

Open Scope Z_scope.

(** [proc] are the tasks workers have taken and not given back. *)
Record sys : Type := mkSys { world_of : world; proc : list Z }.

Definition init : sys :=
  mkSys (mkWorld ∅ 1 (mkQueue 0 0 0 0 ∅ ∅ [] [] []) [] []) [].

(** [items] is the configuration the manager has at the time.  [Process] and
    [Finish] name a worker by the position of its task. *)
Inductive event : Type :=
| Request (items : gmap Z pp_preproc) (reqs : list (Z * bool))
| RunTest (p : pp_preproc)
| Take
| Process (i : nat) (r : bool)
| Finish (i : nat)
| Collect (items : gmap Z pp_preproc)
| Register
| Deregister.

Definition on_world {A : Type} (m : M A) (s : sys) (k : A -> world -> sys) : res sys :=
  match m (world_of s) with
  | Ret (a, w) => Ret (k a w)
  | Exit => Exit
  | Undef => Undef
  | NoFuel => NoFuel
  end.

(** One step of the manager's loop or of a worker's loop. *)
Definition exec (e : event) (s : sys) : res sys :=
  match e with
  | Request items reqs => on_world (preprocessor_add_request items reqs) s (fun _ w => mkSys w (proc s))
  | RunTest p => on_world (zbx_pp_manager_queue_test p) s (fun _ w => mkSys w (proc s))
  | Take => on_world pp_task_queue_pop_new s (fun r w =>
      mkSys w (match r with Some t => proc s ++ [t] | None => proc s end))
  | Process i r =>
      match proc s !! i with
      | Some t => on_world (process_task t r) s (fun _ w => mkSys w (proc s))
      | None => Ret s
      end
  | Finish i =>
      match proc s !! i with
      | Some t => on_world (pp_task_queue_push_finished t) s (fun _ w => mkSys w (delete i (proc s)))
      | None => Ret s
      end
  | Collect items =>
      on_world (l ← zbx_pp_manager_process_finished items; zbx_pp_tasks_clear l) s (fun _ w => mkSys w (proc s))
  | Register => on_world pp_task_queue_register_worker s (fun _ w => mkSys w (proc s))
  | Deregister => on_world pp_task_queue_deregister_worker s (fun _ w => mkSys w (proc s))
  end.

Inductive reachable : sys -> Prop :=
| reach_init : reachable init
| reach_step (e : event) (s s' : sys) : reachable s -> exec e s = Ret s' -> reachable s'.

Fixpoint run_events (l : list event) (s : sys) : res sys :=
  match l with
  | [] => Ret s
  | e :: l =>
      match exec e s with
      | Ret s => run_events l s
      | Exit => Exit
      | Undef => Undef
      | NoFuel => NoFuel
      end
  end.

Lemma run_reachable (l : list event) (s s' : sys) : reachable s -> run_events l s = Ret s' -> reachable s'.
Proof.
  revert s. induction l as [|e l IH]; intros s Hs; cbn [run_events]; [by intros [= <-]|].
  destruct (exec e s) as [s1| | |] eqn:E; try done. apply IH. by apply (reach_step e s).
Qed.

(* ------------------------------------------------------------------ *)
(** ** The invariant of the system *)

Definition sys_inv (s : sys) : Prop := Inv 0 (proc s) ∅ ∅ (world_of s).

Lemma listed_empty (P : place -> bool) : listed ∅ P [].
Proof. split; [constructor|]. intros t. split; [by intros ?%elem_of_nil|by intros (p & ? & _)]. Qed.

Lemma init_inv : sys_inv init.
Proof.
  exists ∅. constructor; try done.
  - constructor; try done; cbn.
    + intros t. by rewrite !lookup_empty.
    + by intros t [? ?].
    + intros d p. split; [done|]. by intros (? & ? & _).
    + intros X s. split; [done|]. by intros (? & ? & _).
  - constructor; apply listed_empty.
  - constructor; cbn; [done|]. intros t d. split; [done|]. by intros [? _].
Qed.

Lemma on_world_spec {A : Type} (m : M A) (s : sys) (k : A -> world -> sys) :
  triple (Inv 0 (proc s) ∅ ∅) m (fun a w => sys_inv (k a w)) -> sys_inv s -> exists s', on_world m s k = Ret s' /\ sys_inv s'.
Proof. intros H Hs. destruct (H _ Hs) as (a & w & E & Hw). unfold on_world. rewrite E. eauto. Qed.

Lemma set_workers_spec (f : Z -> Z) (p : list Z) :
  triple (Inv 0 p ∅ ∅) (modify (fun q => mkQueue (f (workers_num q)) (pending_num q) (finished_num q) (processing_num q)
    (sequences q) (tasks q) (pending q) (immediate q) (finished q))) (fun _ => Inv 0 p ∅ ∅).
Proof. intros w [loc [Hh [] Ho Htr Hw Hlog H1 H2 H3]]. eexists _, _. split; [reflexivity|]. by exists loc. Qed.

(** Every step succeeds and keeps the invariant. *)
Lemma exec_spec (e : event) (s : sys) : sys_inv s -> exists s', exec e s = Ret s' /\ sys_inv s'.
Proof.
  intros Hs. destruct e as [items reqs|p| |i r|i|items| |]; cbn [exec].
  - apply on_world_spec; [|done]. apply add_request_spec.
  - apply on_world_spec; [|done]. apply queue_test_spec.
  - apply on_world_spec; [|done]. eapply triple_post; [apply pop_new_spec|]. intros [t|] w; cbn; [done|by intros [? _]].
  - destruct (proc s !! i) as [t|] eqn:E; [|eauto]. apply on_world_spec; [|done]. apply process_task_spec.
    by apply list_elem_of_lookup_2 in E.
  - destruct (proc s !! i) as [t|] eqn:E; [|eauto]. apply on_world_spec; [|done]. unfold sys_inv. cbn [proc world_of].
    rewrite delete_take_drop. rewrite <- (take_drop_middle (proc s) i t E) at 1. apply push_finished_spec.
  - apply on_world_spec; [|done]. apply collect_spec.
  - apply on_world_spec; [|done]. apply (set_workers_spec (fun n => n + 1)).
  - apply on_world_spec; [|done]. apply (set_workers_spec (fun n => n - 1)).
Qed.

Lemma reachable_inv (s : sys) : reachable s -> sys_inv s.
Proof.
  induction 1 as [|e s s' _ IH E]; [apply init_inv|]. destruct (exec_spec e s IH) as (s1 & E1 & H). congruence.
Qed.

(* ------------------------------------------------------------------ *)
(** ** What holds in every reachable state *)

(** C17: no step of the manager or of a worker touches a task that was freed,
    takes the primary task of a dependent task that has none, or runs on. *)
Theorem system_safe (e : event) (s : sys) : reachable s -> exists s', exec e s = Ret s'.
Proof. intros Hs%reachable_inv. destruct (exec_spec e s Hs) as (s' & E & _). eauto. Qed.

Definition seq_place (p : place) : bool :=
  match p with SeqImmediate | SeqProcessing | SeqFinished => true | _ => false end.
Definition idle (p : place) : bool := match p with Own | Hand _ => false | _ => true end.

(** Between the steps the manager owns nothing. *)
Lemma idle_place (p0 : list Z) (loc : gmap Z place) (w : world) (t : Z) (d : pp_task) (p : place) :
  inv 0 p0 ∅ ∅ loc w -> loc !! t = Some p -> heap w !! t = Some d ->
  idle p = true /\ (if seq_place p then type d = ZBX_PP_TASK_SEQUENCE /\ seq_tasks d <> [] else type d <> ZBX_PP_TASK_SEQUENCE).
Proof.
  intros [Hh _ [Oh Oo] _ _ _ _ _ _] Hl Ed. pose proof (ho_place _ _ _ _ Hh _ _ _ Ed Hl) as Hd. split.
  - destruct p as [|b| | | | | | | | | |]; try done.
    + assert (E : (∅ : gmap Z pp_task) !! t = Some d) by (by apply Oo). done.
    + assert (E : (∅ : gmap Z bool) !! t = Some b) by (by apply Oh). done.
  - destruct p as [|b| | | | | | | | | |]; cbn in Hd; cbn [seq_place]; try done; try congruence.
    + assert (E : (∅ : gmap Z bool) !! t = Some b) by (by apply Oh). done.
    + by destruct Hd as [-> | ->].
    + by destruct Hd as [-> | ->].
    + by destruct Hd as [-> | ->].
    + by destruct Hd as [-> | ->].
    + by destruct Hd as [-> | [-> _]].
Qed.

(** The lists that hold sequence tasks. *)
Definition lists_of (s : sys) : list Z := immediate (queue (world_of s)) ++ proc s ++ finished (queue (world_of s)).

Lemma lists_nodup (s : sys) (loc : gmap Z place) : lists_ok loc (queue (world_of s)) (proc s) -> NoDup (lists_of s).
Proof.
  intros [_ L2 L3 L4]. unfold lists_of.
  assert (Hdis : forall P Q l1 l2 t, listed loc P l1 -> listed loc Q l2 -> (forall p, P p = true -> Q p = true -> False) ->
    t ∈ l1 -> t ∉ l2).
  { intros P Q l1 l2 t [_ H1] [_ H2] HPQ (p & E & Hp)%H1 (p' & E' & Hp')%H2. simplify_eq. eauto. }
  apply NoDup_app. split_and!; [apply L2| |apply NoDup_app; split_and!; [apply L3| |apply L4]].
  - intros t Ht [Hx|Hx]%elem_of_app; revert Hx; [eapply (Hdis _ _ _ _ t L2 L3)|eapply (Hdis _ _ _ _ t L2 L4)]; try done; by intros [].
  - intros t Ht. eapply (Hdis _ _ _ _ t L3 L4); try done; by intros [].
Qed.

Lemma sequence_listed (s : sys) (loc : gmap Z place) (t : Z) (d : pp_task) :
  inv 0 (proc s) ∅ ∅ loc (world_of s) -> heap (world_of s) !! t = Some d -> type d = ZBX_PP_TASK_SEQUENCE ->
  t ∈ lists_of s /\ seq_tasks d <> [].
Proof.
  intros Hi Ed Hty. pose proof (inv_heap _ _ _ _ _ _ Hi) as Hh.
  destruct (proj1 (ho_dom _ _ _ _ Hh t)) as [p Hl]; [rewrite Ed; by eexists|].
  destruct (idle_place _ _ _ _ _ _ Hi Hl Ed) as [_ Hp]. destruct (seq_place p) eqn:Esp; [|done]. destruct Hp as [_ Hne].
  split; [|done].
  destruct (inv_lists _ _ _ _ _ _ Hi) as [_ [_ L2] [_ L3] [_ L4]]. unfold lists_of. rewrite !elem_of_app, L2, L3, L4.
  destruct p; try done; eauto 10.
Qed.

(** an item has one sequence, in one of the lists once, and it is not
    empty; every task of the sequence kind is the one of its item. *)
Theorem sequence_exclusive (s : sys) (X t : Z) :
  reachable s ->
  NoDup (lists_of s) /\
  (sequences (queue (world_of s)) !! X = Some t <->
   exists d, heap (world_of s) !! t = Some d /\ type d = ZBX_PP_TASK_SEQUENCE /\ itemid d = X) /\
  (sequences (queue (world_of s)) !! X = Some t ->
   t ∈ lists_of s /\ exists d, heap (world_of s) !! t = Some d /\ seq_tasks d <> [] /\ NoDup (seq_tasks d)).
Proof.
  intros [loc Hi]%reachable_inv. pose proof (inv_heap _ _ _ _ _ _ Hi) as Hh.
  pose proof (ho_reg _ _ _ _ Hh X t) as Hreg. split_and!; [apply (lists_nodup s loc), Hi|done|].
  intros (d & Ed & Hty & _)%Hreg. destruct (sequence_listed s loc t d Hi Ed Hty) as [Hin Hne]. split; [done|].
  exists d. split_and!; [done|done|]. by apply (ho_seq _ _ _ _ Hh t d Ed).
Qed.

(** Where the first tracked task of an item is. *)
Lemma tracked_head (s : sys) (loc : gmap Z place) (X t : Z) (l : list Z) :
  inv 0 (proc s) ∅ ∅ loc (world_of s) -> tasks (queue (world_of s)) !! X = Some (t :: l) ->
  (t ∈ pending (queue (world_of s)) \/ t ∈ immediate (queue (world_of s)) \/ t ∈ proc s) /\
  exists d, heap (world_of s) !! t = Some d /\ state d = ZBX_PP_TASK_PENDING.
Proof.
  intros [Hh [[_ L1] [_ L2] [_ L3] _] _ Htr Hw _ _ _ _] E. destruct (Hw X _ E) as (t' & l' & [= <- <-] & Hne).
  destruct (tr_list _ _ _ Htr X _ E) as [_ H]. destruct (H t ltac:(by left)) as (d & p & Ed & Hl & _ & _ & Hk).
  rewrite L1, L2, L3. destruct p; try done; (split; [|by exists d]); eauto 10.
Qed.

(** C19: while a task is left in the heap, there is a task to take, a worker
    with a task, or a finished task to collect; without, the queue is empty
    and its counters are zero. *)
Theorem no_task_lost (s : sys) :
  reachable s -> immediate (queue (world_of s)) = [] -> pending (queue (world_of s)) = [] ->
  finished (queue (world_of s)) = [] -> proc s = [] ->
  heap (world_of s) = ∅ /\ sequences (queue (world_of s)) = ∅ /\ tasks (queue (world_of s)) = ∅ /\
  pending_num (queue (world_of s)) = 0 /\ processing_num (queue (world_of s)) = 0 /\ finished_num (queue (world_of s)) = 0.
Proof.
  intros [loc Hi]%reachable_inv E1 E2 E3 E4. pose proof (inv_heap _ _ _ _ _ _ Hi) as Hh.
  pose proof (inv_lists _ _ _ _ _ _ Hi) as [[_ L1] [_ L2] [_ L3] [_ L4]]. rewrite E2 in L1. rewrite E1 in L2. rewrite E4 in L3. rewrite E3 in L4.
  assert (Hseq : forall t d, heap (world_of s) !! t = Some d -> type d <> ZBX_PP_TASK_SEQUENCE).
  { intros t d Ed Hty. destruct (sequence_listed s loc t d Hi Ed Hty) as [Hin _]. unfold lists_of in Hin.
    rewrite E1, E3, E4 in Hin. by apply elem_of_nil in Hin. }
  assert (Htk : tasks (queue (world_of s)) = ∅).
  { apply map_empty. intros X. destruct (tasks _ !! X) as [l|] eqn:E; [|done]. exfalso.
    destruct (inv_heads _ _ _ _ _ _ Hi X l E) as (t & l' & -> & _). destruct (tracked_head s loc X t l' Hi E) as [Hin _].
    rewrite E1, E2, E4 in Hin. destruct Hin as [H | [H | H]]; by apply elem_of_nil in H. }
  assert (Hinseq : forall x y, loc !! x = Some (InSeq y) -> False).
  { intros x y (d & Ed & Hin)%(ho_inseq _ _ _ _ Hh). destruct (ho_seq _ _ _ _ Hh _ _ Ed) as (_ & _ & H3 & _).
    rewrite H3 in Hin by (by apply (Hseq y)). by apply elem_of_nil in Hin. }
  assert (Hloc : forall t p, loc !! t = Some p -> exists e, p = Primary e).
  { intros t p Hl. destruct (inv_task_at _ _ _ _ _ _ _ _ Hi Hl) as (d & Ed & _).
    destruct (idle_place _ _ _ _ _ _ Hi Hl Ed) as [Hp Hp']. destruct (seq_place p) eqn:Esp; [by apply Hseq in Ed as []; apply Hp'|].
    destruct p as [| | | | | | | | | |y|e]; try done; [exfalso..|by eauto].
    - by apply (elem_of_nil t), L1; eauto.
    - by apply (elem_of_nil t), L2; eauto.
    - by apply (elem_of_nil t), L3; eauto.
    - by apply (elem_of_nil t), L4; eauto.
    - destruct (tr_all _ _ _ (inv_tracking _ _ _ _ _ _ Hi) t d Held Ed Hl) as (l & El & _); [|done|].
      + by apply (ho_place _ _ _ _ Hh t d Held).
      + by rewrite Htk in El.
    - by apply (Hinseq t y). }
  assert (Hempty : loc = ∅).
  { apply map_empty. intros t. destruct (loc !! t) as [p|] eqn:Hl; [|done]. exfalso. destruct (Hloc t p Hl) as [e ->].
    apply (ho_prim _ _ _ _ Hh) in Hl as (de & Ee & Hpe). destruct (proj1 (ho_dom _ _ _ _ Hh e)) as [q Hq]; [rewrite Ee; by eexists|].
    destruct (Hloc e q Hq) as [e' ->]. pose proof (ho_place _ _ _ _ Hh _ _ _ Ee Hq) as Hty. cbn in Hty.
    destruct (ho_seq _ _ _ _ Hh _ _ Ee) as (_ & _ & _ & H4). rewrite H4 in Hpe by congruence. done. }
  assert (Hheap : heap (world_of s) = ∅).
  { apply map_empty. intros t. destruct (heap _ !! t) as [d|] eqn:E; [|done].
    destruct (proj1 (ho_dom _ _ _ _ Hh t)) as [p Hp]; [rewrite E; by eexists|]. by rewrite Hempty in Hp. }
  split_and!; try done.
  - apply map_empty. intros X. destruct (sequences _ !! X) as [t|] eqn:E; [|done].
    apply (ho_reg _ _ _ _ Hh) in E as (d & E & _). by rewrite Hheap in E.
  - rewrite (inv_pending _ _ _ _ _ _ Hi), Hempty. done.
  - rewrite (inv_processing _ _ _ _ _ _ Hi), E4. done.
  - rewrite (inv_finished _ _ _ _ _ _ Hi), E3. done.
Qed.

(** C18: the value tasks of an item reach the finished list in the order they
    were queued; those still tracked start with an unfinished one that is
    waiting to be processed or is being processed. *)
Theorem value_order (s : sys) (X : Z) :
  reachable s ->
  log_of X (tracked_log (world_of s)) = log_of X (finished_log (world_of s)) ++ default [] (tasks (queue (world_of s)) !! X) /\
  (forall l, tasks (queue (world_of s)) !! X = Some l -> exists t l' d, l = t :: l' /\
    (t ∈ pending (queue (world_of s)) \/ t ∈ immediate (queue (world_of s)) \/ t ∈ proc s) /\
    heap (world_of s) !! t = Some d /\ state d = ZBX_PP_TASK_PENDING).
Proof.
  intros [loc Hi]%reachable_inv. split; [apply (inv_logs _ _ _ _ _ _ Hi)|]. intros l E.
  destruct (inv_heads _ _ _ _ _ _ Hi X l E) as (t & l' & -> & _). destruct (tracked_head s loc X t l' Hi E) as (H & d & Hd).
  exists t, l', d. done.
Qed.

(* ------------------------------------------------------------------ *)
(** ** The counters *)

Definition count (P : place -> bool) (loc : gmap Z place) : Z := Z.of_nat (size (filter (fun e => P e.2 = true) loc)).

Lemma count_listed (P : place -> bool) (loc : gmap Z place) (l : list Z) : listed loc P l -> count P loc = Z.of_nat (length l).
Proof.
  intros [Hnd Hl]. unfold count. rewrite <- size_dom, <- (size_list_to_set (C := gset Z) l Hnd). do 2 f_equal.
  apply set_eq. intros t. rewrite elem_of_dom, elem_of_list_to_set, Hl. split.
  - intros [p [H1 H2]%map_lookup_filter_Some]. by exists p.
  - intros (p & H1 & H2). exists p. by apply map_lookup_filter_Some.
Qed.

Lemma count_insert (P : place -> bool) (loc : gmap Z place) (t : Z) (p : place) :
  loc !! t = None -> count P (<[t := p]> loc) = (if P p then 1 else 0) + count P loc.
Proof.
  intros Hn. unfold count. destruct (P p) eqn:E.
  - rewrite map_filter_insert_True by done. rewrite map_size_insert_None; [lia|].
    apply map_lookup_filter_None. by left.
  - rewrite map_filter_insert_not' by (cbn; congruence). lia.
Qed.

Definition in_seq (p : place) : bool := match p with InSeq _ => true | _ => false end.

Lemma total_counts (loc : gmap Z place) :
  (forall t p, loc !! t = Some p -> idle p = true) ->
  total loc = count at_pending loc + count at_immediate loc + count in_seq loc - count seq_place loc.
Proof.
  induction loc as [|t p loc Hn IH] using map_ind; [done|]. intros Hidle.
  rewrite total_fresh, !count_insert by done. rewrite IH.
  - specialize (Hidle t p (lookup_insert_eq _ _ _)). destruct p; try done; cbn; lia.
  - intros x q Hx. apply (Hidle x). rewrite lookup_insert_ne; [done|]. congruence.
Qed.

(** The tasks of the sequence at [t]. *)
Definition seq_of (w : world) (t : Z) : list Z := match heap w !! t with Some d => seq_tasks d | None => [] end.

Definition lengths_of (w : world) : list (Z * Z) :=
  (fun e => (e.1, Z.of_nat (length (seq_of w e.2)))) <$> map_to_list (sequences (queue w)).

(** One more than the tasks is counted for a sequence that has any. *)
Definition stats_of (w : world) : list (Z * Z) :=
  (fun e => (e.1, if decide (seq_of w e.2 = []) then 0 else Z.of_nat (length (seq_of w e.2)) + 1)) <$>
  map_to_list (sequences (queue w)).

Lemma sequence_num_spec (l : list Z) : sequence_num l = if decide (l = []) then 0 else Z.of_nat (length l) + 1.
Proof.
  assert (H : forall n, count_rounds l n = Z.of_nat (length l) + 1 + n).
  { induction l as [|x l IH]; intros n; cbn [count_rounds length]; [lia|]. rewrite IH. lia. }
  destruct l as [|x l]; [done|]. rewrite decide_False by done. unfold sequence_num. rewrite H. lia.
Qed.

(** Tasks of a sequence past its first. *)
Definition seq_waiting (l : list (Z * Z)) : Z := foldr (fun e z => e.2 - 1 + z) 0 l.

Section Counts.
Context (p0 : list Z) (loc : gmap Z place) (w : world) (Hi : inv 0 p0 ∅ ∅ loc w).

Lemma seqs_in (X t : Z) :
  (X, t) ∈ map_to_list (sequences (queue w)) -> exists d, heap w !! t = Some d /\ type d = ZBX_PP_TASK_SEQUENCE /\ itemid d = X.
Proof using Hi. intros H%elem_of_map_to_list. by apply (ho_reg _ _ _ _ (inv_heap _ _ _ _ _ _ Hi)). Qed.

Lemma listed_seqs : listed loc seq_place (map_to_list (sequences (queue w))).*2.
Proof using Hi.
  pose proof (inv_heap _ _ _ _ _ _ Hi) as Hh. split.
  - apply NoDup_fmap_2_strong; [|apply NoDup_map_to_list]. intros [X t] [Y t'] H1%seqs_in H2%seqs_in. cbn. intros ->.
    destruct H1 as (d & E & _ & <-), H2 as (d' & E' & _ & <-). congruence.
  - intros t. rewrite list_elem_of_fmap. split.
    + intros ([X t'] & -> & (d & Ed & Hty & _)%seqs_in). cbn in *.
      destruct (proj1 (ho_dom _ _ _ _ Hh t')) as [p Hp]; [rewrite Ed; by eexists|]. exists p. split; [done|].
      destruct (idle_place _ _ _ _ _ _ Hi Hp Ed) as [_ H]. by destruct (seq_place p).
    + intros (p & Hl & Hp). destruct (inv_task_at _ _ _ _ _ _ _ _ Hi Hl) as (d & Ed & _).
      destruct (idle_place _ _ _ _ _ _ Hi Hl Ed) as [_ H]. rewrite Hp in H. exists (itemid d, t). split; [done|].
      apply elem_of_map_to_list, (ho_reg _ _ _ _ Hh). exists d. split_and!; [done|apply H|done].
Qed.

Lemma listed_inseq : listed loc in_seq (map_to_list (sequences (queue w)) ≫= fun e => seq_of w e.2).
Proof using Hi.
  pose proof (inv_heap _ _ _ _ _ _ Hi) as Hh.
  assert (Hat : forall t x, x ∈ seq_of w t -> loc !! x = Some (InSeq t)).
  { intros t x. unfold seq_of. destruct (heap w !! t) as [d|] eqn:E; [|by intros ?%elem_of_nil]. by apply (ho_seq _ _ _ _ Hh t d). }
  split.
  - apply NoDup_bind; [| |apply NoDup_map_to_list].
    + intros [X t] [Y t'] x H1%seqs_in H2%seqs_in Hx%Hat Hy%Hat. cbn in *. assert (t = t') as -> by congruence.
      destruct H1 as (d & E & _ & <-), H2 as (d' & E' & _ & <-). congruence.
    + intros [X t] (d & Ed & _)%seqs_in. cbn. unfold seq_of. rewrite Ed. by apply (ho_seq _ _ _ _ Hh t d).
  - intros x. rewrite list_elem_of_bind. split.
    + intros ([X t] & Hx%Hat & _). cbn in *. by exists (InSeq t).
    + intros (p & Hl & Hp). destruct p as [| | | | | | | | | |t|]; try done.
      destruct (ho_inseq _ _ _ _ Hh _ _ Hl) as (d & Ed & Hin). exists (itemid d, t). split; [cbn; unfold seq_of; by rewrite Ed|].
      apply elem_of_map_to_list, (ho_reg _ _ _ _ Hh). exists d. split_and!; [done| |done].
      destruct (decide (type d = ZBX_PP_TASK_SEQUENCE)) as [|Hne]; [done|].
      destruct (ho_seq _ _ _ _ Hh _ _ Ed) as (_ & _ & H3 & _). rewrite (H3 Hne) in Hin. by apply elem_of_nil in Hin.
Qed.

Lemma waiting_length (l : list (Z * Z)) :
  Z.of_nat (length (l ≫= fun e => seq_of w e.2)) - Z.of_nat (length l) =
  seq_waiting ((fun e => (e.1, Z.of_nat (length (seq_of w e.2)))) <$> l).
Proof. induction l as [|[X t] l IH]; [done|]. cbn. rewrite length_app. unfold seq_waiting in *. cbn in IH. lia. Qed.

Lemma total_exact :
  total loc = Z.of_nat (length (pending (queue w))) + Z.of_nat (length (immediate (queue w))) + seq_waiting (lengths_of w).
Proof using Hi.
  pose proof (inv_lists _ _ _ _ _ _ Hi) as [L1 L2 _ _]. rewrite total_counts.
  - rewrite (count_listed _ _ _ L1), (count_listed _ _ _ L2), (count_listed _ _ _ listed_seqs), (count_listed _ _ _ listed_inseq).
    unfold lengths_of. rewrite <- waiting_length, length_fmap. lia.
  - intros t p Hl. destruct (inv_task_at _ _ _ _ _ _ _ _ Hi Hl) as (d & Ed & _). by apply (idle_place _ _ _ _ _ _ Hi Hl Ed).
Qed.
End Counts.

(** the three counters of the queue are exact: pending_num counts the
    tasks of the two lists and those behind the first of every sequence,
    processing_num the tasks of the workers, finished_num the finished list. *)
Theorem counters_exact (s : sys) :
  reachable s ->
  pending_num (queue (world_of s)) =
    u64 (Z.of_nat (length (pending (queue (world_of s)))) + Z.of_nat (length (immediate (queue (world_of s)))) +
      seq_waiting (lengths_of (world_of s))) /\
  processing_num (queue (world_of s)) = u64 (Z.of_nat (length (proc s))) /\
  finished_num (queue (world_of s)) = u64 (Z.of_nat (length (finished (queue (world_of s))))).
Proof.
  intros [loc Hi]%reachable_inv. rewrite <- (total_exact _ _ _ Hi). rewrite (inv_pending _ _ _ _ _ _ Hi).
  split_and!; [f_equal; lia|apply Hi..].
Qed.

Lemma stats_run (w : world) (l : list (Z * Z)) :
  (forall X t, (X, t) ∈ l -> is_Some (heap w !! t)) ->
  mapM (M := M) (fun '(item, s) => t ← deref s; mret (item, sequence_num (seq_tasks t))) l w =
  Ret ((fun e => (e.1, if decide (seq_of w e.2 = []) then 0 else Z.of_nat (length (seq_of w e.2)) + 1)) <$> l, w).
Proof.
  induction l as [|[X t] l IH]; intros Hall; [done|]. cbn [mapM fmap list_fmap fst snd].
  destruct (Hall X t ltac:(by left)) as [d Ed]. rewrite M_bind_assoc. step.
  erewrite bind_run; [|reflexivity]. erewrite bind_run; [|apply IH; intros Y u H; apply (Hall Y); by right].
  unfold mret, M_ret. do 3 f_equal. unfold seq_of. cbn. by rewrite Ed, sequence_num_spec.
Qed.

(** The statistics list each sequence of the queue, with one more than its
    length if it has tasks, and read no freed task. *)
Theorem sequence_stats_exact (s : sys) :
  reachable s -> pp_task_queue_get_sequence_stats (world_of s) = Ret (stats_of (world_of s), world_of s).
Proof.
  intros [loc Hi]%reachable_inv. unfold pp_task_queue_get_sequence_stats. step. apply stats_run.
  intros X t (d & Ed & _)%(seqs_in _ _ _ Hi). rewrite Ed. by eexists.
Qed.

(** one round of the manager takes at most a batch of finished tasks; the
    batch has no task twice, no dependent or sequence task, and is smaller only
    when no finished task is left. *)
Theorem batch_collected (items : gmap Z pp_preproc) (s : sys) :
  reachable s -> exists l w, zbx_pp_manager_process_finished items (world_of s) = Ret (l, w) /\
  (length l <= PP_FINISHED_TASK_BATCH_SIZE)%nat /\ ((length l < PP_FINISHED_TASK_BATCH_SIZE)%nat -> finished (queue w) = []) /\
  NoDup l /\ forall t, t ∈ l -> exists d, heap w !! t = Some d /\
    type d <> ZBX_PP_TASK_DEPENDENT /\ type d <> ZBX_PP_TASK_SEQUENCE.
Proof.
  intros Hs%reachable_inv. destruct (process_finished_spec items 0 (proc s) PP_FINISHED_TASK_BATCH_SIZE ∅ _ Hs)
    as (l & w & E & Hlen & Hf & own & [Hnd Hin _] & Hw). exists l, w. split_and!; try done.
  intros t (_ & d & Ed & Hd)%Hin. exists d. split; [by apply (Inv_own_heap _ _ _ _ _ t d Hw)|].
  destruct Hd as [-> | [-> | ->]]; done.
Qed.

(* ------------------------------------------------------------------ *)
(** ** A run *)

(** Item 1 has the dependent items 2 (serial) and 3 (JSONPath, cached). *)
Definition run_items : gmap Z pp_preproc :=
  {[1 := mkPreproc [] [2; 3] 0 ZBX_PP_PROCESS_PARALLEL; 2 := mkPreproc [1] [] 0 ZBX_PP_PROCESS_SERIAL;
    3 := mkPreproc [ZBX_PREPROC_JSONPATH] [] 0 ZBX_PP_PROCESS_PARALLEL]}.

(** Two values of item 1 of which the second is finished first; two values of
    the serial item 2. *)
Definition run_start : list event :=
  [Register; Request run_items [(1, true); (1, true); (2, true); (2, true)]; RunTest (mkPreproc [1] [] 0 ZBX_PP_PROCESS_PARALLEL);
   Take; Take; Take; Take; Process 2 true; Finish 2].

Definition run_round : list event := [Take; Process 0 true; Finish 0; Collect run_items].

Definition state_after (l : list event) : sys := match run_events l init with Ret s => s | _ => init end.

Definition run_busy : sys := state_after run_start.
Definition run_drained : sys := state_after (run_start ++ concat (replicate 12 run_round)).

Lemma state_after_reachable (l : list event) : reachable (state_after l).
Proof.
  unfold state_after. destruct (run_events l init) as [s| | |] eqn:E; [|constructor..].
  by apply (run_reachable l init); [constructor|].
Qed.

Lemma system_safe_witness : reachable run_busy /\ exists s', exec (Collect run_items) run_busy = Ret s'.
Proof. split; [apply state_after_reachable|]. apply system_safe, state_after_reachable. Defined.

Lemma sequence_exclusive_witness :
  sequences (queue (world_of run_busy)) !! 2 = Some 6 /\ 6 ∈ lists_of run_busy /\
  exists d, heap (world_of run_busy) !! 6 = Some d /\ seq_tasks d <> [] /\ NoDup (seq_tasks d).
Proof.
  assert (E : sequences (queue (world_of run_busy)) !! 2 = Some 6) by (vm_compute; reflexivity). split; [exact E|].
  exact (proj2 (proj2 (sequence_exclusive run_busy 2 6 (state_after_reachable _))) E).
Defined.

Lemma no_task_lost_witness :
  length (tracked_log (world_of run_drained)) = 2%nat /\ heap (world_of run_drained) = ∅ /\
  pending_num (queue (world_of run_drained)) = 0.
Proof.
  destruct (no_task_lost run_drained (state_after_reachable _)) as (H & _ & _ & H' & _); [vm_compute; reflexivity..|].
  split_and!; [vm_compute; reflexivity|exact H|exact H'].
Defined.

Lemma value_order_witness :
  log_of 1 (tracked_log (world_of run_busy)) = [1; 2] /\ default [] (tasks (queue (world_of run_busy)) !! 1) = [1; 2] /\
  log_of 1 (tracked_log (world_of run_busy)) =
    log_of 1 (finished_log (world_of run_busy)) ++ default [] (tasks (queue (world_of run_busy)) !! 1).
Proof.
  split_and!; [vm_compute; reflexivity..|]. exact (proj1 (value_order run_busy 1 (state_after_reachable _))).
Defined.

Lemma counters_exact_witness :
  pending_num (queue (world_of run_busy)) = u64 (1 + 0 + 0) /\ processing_num (queue (world_of run_busy)) = u64 3.
Proof.
  destruct (counters_exact run_busy (state_after_reachable _)) as (H1 & H2 & _). split.
  - etransitivity; [exact H1|]. vm_compute. reflexivity.
  - etransitivity; [exact H2|]. vm_compute. reflexivity.
Defined.

Lemma sequence_stats_exact_witness :
  pp_task_queue_get_sequence_stats (world_of run_busy) = Ret (stats_of (world_of run_busy), world_of run_busy) /\
  stats_of (world_of run_busy) = [(2, 2)] /\ lengths_of (world_of run_busy) = [(2, 1)].
Proof. split; [exact (sequence_stats_exact run_busy (state_after_reachable _))|vm_compute; split; reflexivity]. Defined.

Lemma batch_collected_witness :
  reachable run_busy /\ exists l w, zbx_pp_manager_process_finished run_items (world_of run_busy) = Ret (l, w) /\
  (length l <= PP_FINISHED_TASK_BATCH_SIZE)%nat.
Proof.
  split; [apply state_after_reachable|].
  destruct (batch_collected run_items run_busy (state_after_reachable _)) as (l & w & E & H & _). exists l, w. by split.
Defined.
