(* ===== verification/EvalParse.v ===== *)
(** The expression parser (src/src/libs/zbxeval/parse.c): tokens in infix order
    become a stack of tokens in postfix order.  Token types carry their class
    and priority as bits, as in zbxeval.h.  The loop of eval_parse_expression
    is modelled token by token; what eval_parse_token does to the context when it
    produces a token is [eval_take_token], the scan of the characters of a
    token is not modelled, and the variant of a token is always none here. *)

From stdpp Require Import base list numbers.
From Stdlib Require Import ZArith Lia.
From S2P Require Import Prelude.

Open Scope Z_scope.

Definition ZBX_EVAL_CLASS_OPERAND : Z := Z.shiftl 1 26.
Definition ZBX_EVAL_CLASS_OPERATOR1 : Z := Z.shiftl 2 26.
Definition ZBX_EVAL_CLASS_OPERATOR2 : Z := Z.shiftl 4 26.
Definition ZBX_EVAL_CLASS_FUNCTION : Z := Z.shiftl 8 26.
Definition ZBX_EVAL_CLASS_SEPARATOR : Z := Z.shiftl 16 26.
Definition ZBX_EVAL_CLASS_PROPERTY : Z := Z.shiftl 32 26.
Definition ZBX_EVAL_CLASS_OPERATOR : Z := Z.lor ZBX_EVAL_CLASS_OPERATOR1 ZBX_EVAL_CLASS_OPERATOR2.
Definition ZBX_EVAL_BEFORE_OPERAND : Z := Z.lor ZBX_EVAL_CLASS_OPERATOR ZBX_EVAL_CLASS_SEPARATOR.
Definition ZBX_EVAL_BEFORE_OPERATOR : Z := Z.lor ZBX_EVAL_CLASS_OPERAND ZBX_EVAL_CLASS_PROPERTY.
Definition ZBX_EVAL_OP_SET_PRECEDENCE (x : Z) : Z := Z.shiftl x 22.
Definition ZBX_EVAL_OP_PRIORITY : Z := ZBX_EVAL_OP_SET_PRECEDENCE 15.

Definition binary_op (n prec : Z) : Z := Z.lor n (Z.lor ZBX_EVAL_CLASS_OPERATOR2 (ZBX_EVAL_OP_SET_PRECEDENCE prec)).
Definition unary_op (n prec : Z) : Z := Z.lor n (Z.lor ZBX_EVAL_CLASS_OPERATOR1 (ZBX_EVAL_OP_SET_PRECEDENCE prec)).

Definition ZBX_EVAL_TOKEN_OP_ADD : Z := binary_op 1 4.
Definition ZBX_EVAL_TOKEN_OP_SUB : Z := binary_op 2 4.
Definition ZBX_EVAL_TOKEN_OP_MUL : Z := binary_op 3 3.
Definition ZBX_EVAL_TOKEN_OP_DIV : Z := binary_op 4 3.
Definition ZBX_EVAL_TOKEN_OP_MINUS : Z := unary_op 5 2.
Definition ZBX_EVAL_TOKEN_OP_EQ : Z := binary_op 6 7.
Definition ZBX_EVAL_TOKEN_OP_LT : Z := binary_op 7 6.
Definition ZBX_EVAL_TOKEN_OP_GT : Z := binary_op 8 6.
Definition ZBX_EVAL_TOKEN_OP_LE : Z := binary_op 9 6.
Definition ZBX_EVAL_TOKEN_OP_GE : Z := binary_op 10 6.
Definition ZBX_EVAL_TOKEN_OP_NE : Z := binary_op 11 7.
Definition ZBX_EVAL_TOKEN_OP_AND : Z := binary_op 12 11.
Definition ZBX_EVAL_TOKEN_OP_OR : Z := binary_op 13 12.
Definition ZBX_EVAL_TOKEN_OP_NOT : Z := unary_op 14 2.
Definition ZBX_EVAL_TOKEN_VAR_NUM : Z := Z.lor 15 ZBX_EVAL_CLASS_OPERAND.
Definition ZBX_EVAL_TOKEN_VAR_STR : Z := Z.lor 16 ZBX_EVAL_CLASS_OPERAND.
Definition ZBX_EVAL_TOKEN_VAR_MACRO : Z := Z.lor 17 ZBX_EVAL_CLASS_OPERAND.
Definition ZBX_EVAL_TOKEN_VAR_USERMACRO : Z := Z.lor 18 ZBX_EVAL_CLASS_OPERAND.
Definition ZBX_EVAL_TOKEN_VAR_LLDMACRO : Z := Z.lor 19 ZBX_EVAL_CLASS_OPERAND.
Definition ZBX_EVAL_TOKEN_FUNCTIONID : Z := Z.lor 20 ZBX_EVAL_CLASS_OPERAND.
Definition ZBX_EVAL_TOKEN_FUNCTION : Z := Z.lor 21 ZBX_EVAL_CLASS_FUNCTION.
Definition ZBX_EVAL_TOKEN_HIST_FUNCTION : Z := Z.lor 22 ZBX_EVAL_CLASS_FUNCTION.
Definition ZBX_EVAL_TOKEN_GROUP_OPEN : Z := Z.lor 23 ZBX_EVAL_CLASS_SEPARATOR.
Definition ZBX_EVAL_TOKEN_GROUP_CLOSE : Z := Z.lor 24 ZBX_EVAL_CLASS_OPERAND.
Definition ZBX_EVAL_TOKEN_COMMA : Z := Z.lor 25 ZBX_EVAL_CLASS_SEPARATOR.
Definition ZBX_EVAL_TOKEN_ARG_QUERY : Z := Z.lor 26 ZBX_EVAL_CLASS_OPERAND.
Definition ZBX_EVAL_TOKEN_ARG_PERIOD : Z := Z.lor 27 ZBX_EVAL_CLASS_OPERAND.
Definition ZBX_EVAL_TOKEN_ARG_NULL : Z := Z.lor 28 ZBX_EVAL_CLASS_OPERAND.
Definition ZBX_EVAL_TOKEN_PROP_TAG : Z := Z.lor 29 ZBX_EVAL_CLASS_PROPERTY.
Definition ZBX_EVAL_TOKEN_PROP_GROUP : Z := Z.lor 30 ZBX_EVAL_CLASS_PROPERTY.
Definition ZBX_EVAL_TOKEN_EXCEPTION : Z := Z.lor 31 ZBX_EVAL_CLASS_FUNCTION.

Definition ZBX_EVAL_PARSE_ITEM_QUERY : Z := 16.
Definition ZBX_EVAL_PARSE_CONST_INDEX : Z := 32.
Definition ZBX_EVAL_PARSE_PROP_TAG : Z := 65536.
Definition ZBX_EVAL_PARSE_PROP_GROUP : Z := 131072.
Definition ZBX_EVAL_PARSE_PROPERTY : Z := Z.lor ZBX_EVAL_PARSE_PROP_TAG ZBX_EVAL_PARSE_PROP_GROUP.

(** 0 != (a & b) *)
Definition has (a b : Z) : bool := negb (Z.land a b =? 0).

Record token : Type := mkToken { ttype : Z; opt : Z; loc_l : Z; loc_r : Z }.

Definition set_opt (t : token) (n : Z) : token := mkToken (ttype t) n (loc_l t) (loc_r t).
Definition set_ttype (t : token) (ty : Z) : token := mkToken ty (opt t) (loc_l t) (loc_r t).

(** [stack] in the order of the vector, [ops] with its last element first. *)
Record context : Type := mkContext {
  rules : Z; last_token_type : Z; const_index : Z; functionid_index : Z;
  stack : list token; ops : list token
}.

Definition set_last (c : context) (ty : Z) : context :=
  mkContext (rules c) ty (const_index c) (functionid_index c) (stack c) (ops c).
Definition set_stack (c : context) (l : list token) : context :=
  mkContext (rules c) (last_token_type c) (const_index c) (functionid_index c) l (ops c).
Definition set_ops (c : context) (l : list token) : context :=
  mkContext (rules c) (last_token_type c) (const_index c) (functionid_index c) (stack c) l.
Definition set_const_index (c : context) (n : Z) : context :=
  mkContext (rules c) (last_token_type c) n (functionid_index c) (stack c) (ops c).
Definition set_functionid_index (c : context) (n : Z) : context :=
  mkContext (rules c) (last_token_type c) (const_index c) n (stack c) (ops c).

(** The messages of the parser. *)
Inductive parse_error : Type :=
| missing_comparison_string | property_not_compared | invalid_property_value | invalid_property_operator
| operand_following_operand | too_long_expression | invalid_after_query | group_open_misplaced
| function_misplaced | comma_misplaced | comma_without_function | group_close_misplaced | missing_left_parenthesis
| empty_group | binary_misplaced | unary_misplaced | ends_with_operator | ends_with_comma | mismatched_brackets
| empty_expression | query_not_first_argument.

(** FAIL with an error, or a value; reading outside a vector is undefined. *)
Definition ok {X A : Type} (a : A) : res (X + A) := Ret (inr a).
Definition fail {X A : Type} (e : X) : res (X + A) := Ret (inl e).

Definition ebind {X A B : Type} (m : res (X + A)) (k : A -> res (X + B)) : res (X + B) :=
  match m with
  | Ret (inr a) => k a
  | Ret (inl e) => Ret (inl e)
  | Exit => Exit
  | Undef => Undef
  | NoFuel => NoFuel
  end.

Notation "'let*' x := m 'in' k" := (ebind m (fun x => k)) (at level 200, x pattern, m at level 100, k at level 200).

Definition E (A : Type) : Type := res (parse_error + A).

(** [stack.values[values_num - 1 - k]] *)
Definition from_end (l : list token) (k : nat) : E token :=
  match reverse l !! k with Some t => ok t | None => Undef end.

Definition i32 (z : Z) : Z := (z + 2 ^ 31) mod 2 ^ 32 - 2 ^ 31.

(* ------------------------------------------------------------------ *)
(** ** Adding to the postfix stack *)

(** The loop that counts the arguments of a function. *)
Definition count_params (l : list token) : Z :=
  foldl (fun params t =>
    if has (ttype t) ZBX_EVAL_CLASS_FUNCTION then params - (i32 (opt t) - 1)
    else if has (ttype t) ZBX_EVAL_CLASS_OPERAND then params + 1
    else if has (ttype t) ZBX_EVAL_CLASS_OPERATOR2 then params - 1
    else params) 0 l.

(** The property and the value it is compared with, when the operator has one. *)
Definition property_operands (c : context) (t : token) : E (option (token * token)) :=
  let* top := from_end (stack c) 0 in
  let* first :=
    (if has (ttype top) ZBX_EVAL_CLASS_PROPERTY then
       if (length (stack c) <? 2)%nat then fail missing_comparison_string
       else
         let* value := from_end (stack c) 1 in
         if has (ttype value) ZBX_EVAL_CLASS_OPERAND then ok (Some (top, value)) else fail property_not_compared
     else ok None) in
  if has (ttype top) ZBX_EVAL_CLASS_OPERAND && has (ttype t) ZBX_EVAL_CLASS_OPERATOR2 then
    let* second := from_end (stack c) 1 in
    ok (if has (ttype second) ZBX_EVAL_CLASS_PROPERTY then Some (second, top) else first)
  else ok first.

Definition eval_append_operator (c : context) (t : token) : E context :=
  let* t :=
    (if has (ttype t) ZBX_EVAL_CLASS_FUNCTION then
       if i32 (opt t) <? 0 then Undef
       else ok (set_opt t (u32 (count_params (drop (Z.to_nat (i32 (opt t))) (stack c)))))
     else ok t) in
  if has (rules c) ZBX_EVAL_PARSE_PROPERTY then
    let* p := property_operands c t in
    match p with
    | None => ok (set_stack c (stack c ++ [t]))
    | Some (_, value) =>
        if negb (ttype value =? ZBX_EVAL_TOKEN_VAR_STR) && negb (ttype value =? ZBX_EVAL_TOKEN_VAR_USERMACRO) &&
           negb (ttype value =? ZBX_EVAL_TOKEN_VAR_LLDMACRO) then fail invalid_property_value
        else if negb (ttype t =? ZBX_EVAL_TOKEN_OP_EQ) && negb (ttype t =? ZBX_EVAL_TOKEN_OP_NE)
        then fail invalid_property_operator
        else ok (set_stack c (stack c ++ [t]))
    end
  else ok (set_stack c (stack c ++ [t])).

(** The operands and properties at the end of the stack: whether a property is
    among them, and how many there are. *)
Fixpoint trailing_operands (l : list token) : bool * nat :=
  match l with
  | [] => (false, 0%nat)
  | t :: l =>
      if has (ttype t) ZBX_EVAL_CLASS_PROPERTY then (true, S (trailing_operands l).2)
      else if has (ttype t) ZBX_EVAL_CLASS_OPERAND then ((trailing_operands l).1, S (trailing_operands l).2)
      else (false, 0%nat)
  end.

Definition eval_append_operand (c : context) (t : token) : E context :=
  if negb (has (last_token_type c) ZBX_EVAL_BEFORE_OPERAND) then fail operand_following_operand else
  if has (rules c) ZBX_EVAL_PARSE_PROPERTY then
    let '(prop, n) := trailing_operands (reverse (stack c)) in
    if has (ttype t) ZBX_EVAL_CLASS_PROPERTY && prop then fail property_not_compared
    else if (has (ttype t) ZBX_EVAL_CLASS_PROPERTY || prop) && (2 <? S n)%nat then fail property_not_compared
    else ok (set_stack c (stack c ++ [t]))
  else ok (set_stack c (stack c ++ [t])).

Definition null_token : token := mkToken ZBX_EVAL_TOKEN_ARG_NULL 0 0 0.
Definition eval_append_arg_null (c : context) : context := set_stack c (stack c ++ [null_token]).

(* ------------------------------------------------------------------ *)
(** ** The loop *)

(** What eval_parse_token does to the context for a token it found: function
    tokens remember the stack size, constants and functionids are numbered, an
    item query makes its function historical. *)
Definition eval_update_const_variable (c : context) (t : token) : context * token :=
  if has (rules c) ZBX_EVAL_PARSE_CONST_INDEX && forallb (fun o => negb (has (ttype o) ZBX_EVAL_CLASS_FUNCTION)) (ops c)
  then (set_const_index c (u32 (const_index c + 1)), set_opt t (const_index c))
  else (c, t).

Definition eval_take_token (c : context) (t : token) : E (context * token) :=
  if ttype t =? ZBX_EVAL_TOKEN_FUNCTION then ok (c, set_opt t (Z.of_nat (length (stack c))))
  else if ttype t =? ZBX_EVAL_TOKEN_FUNCTIONID then
    ok (set_functionid_index c (u32 (functionid_index c + 1)), set_opt t (functionid_index c))
  else if (ttype t =? ZBX_EVAL_TOKEN_VAR_NUM) || (ttype t =? ZBX_EVAL_TOKEN_VAR_USERMACRO) || (ttype t =? ZBX_EVAL_TOKEN_VAR_STR)
  then ok (eval_update_const_variable c t)
  else if ttype t =? ZBX_EVAL_TOKEN_ARG_QUERY then
    match ops c with
    | paren :: func_token :: l =>
        if has (ttype func_token) ZBX_EVAL_CLASS_FUNCTION
        then ok (set_ops c (paren :: set_ttype func_token ZBX_EVAL_TOKEN_HIST_FUNCTION :: l), t)
        else fail query_not_first_argument
    | _ => fail query_not_first_argument
    end
  else ok (c, t).

(** Operators are moved to the stack until the vector is empty or [stop] holds;
    [true] when at least one element was looked at. *)
Fixpoint unwind (stop : token -> bool) (c : context) (l : list token) : E (context * bool) :=
  match l with
  | [] => ok (set_ops c [], false)
  | optoken :: rest =>
      if stop optoken then ok (set_ops c l, true)
      else
        let* c := eval_append_operator (set_ops c l) optoken in
        let* r := unwind stop c rest in
        ok (r.1, true)
  end.

Definition is_open (t : token) : bool := ttype t =? ZBX_EVAL_TOKEN_GROUP_OPEN.

Definition on_group_open (c : context) (t : token) : E context :=
  if negb (has (last_token_type c) (Z.lor ZBX_EVAL_BEFORE_OPERAND ZBX_EVAL_CLASS_FUNCTION)) then fail group_open_misplaced
  else ok (set_ops c (t :: ops c)).

Definition on_function (c : context) (t : token) : E context :=
  if negb (has (last_token_type c) ZBX_EVAL_BEFORE_OPERAND) then fail function_misplaced
  else ok (set_ops c (t :: ops c)).

Definition on_comma (c : context) (t : token) : E context :=
  if negb (has (last_token_type c) ZBX_EVAL_CLASS_OPERAND) && negb (has (last_token_type c) ZBX_EVAL_CLASS_SEPARATOR)
  then fail comma_misplaced else
  let c := if has (last_token_type c) ZBX_EVAL_CLASS_SEPARATOR then eval_append_arg_null c else c in
  let* r := unwind is_open c (ops c) in
  if r.2 then ok r.1 else fail comma_without_function.

Definition on_group_close (c : context) (t : token) : E context :=
  if negb (has (last_token_type c) (Z.lor ZBX_EVAL_CLASS_OPERAND (Z.lor ZBX_EVAL_CLASS_PROPERTY ZBX_EVAL_CLASS_SEPARATOR))) &&
     (match ops c with _ :: f :: _ => negb (ttype f =? ZBX_EVAL_TOKEN_FUNCTION) | _ => true end)
  then fail group_close_misplaced else
  let* r := unwind is_open c (ops c) in
  if negb r.2 then fail missing_left_parenthesis else
  let c := match ops r.1 with _ :: l => set_ops r.1 l | [] => r.1 end in
  match ops c with
  | [] => ok c
  | optoken :: l =>
      if has (ttype optoken) ZBX_EVAL_CLASS_FUNCTION then
        let* c := eval_append_operator c optoken in
        ok (set_ops c l)
      else if last_token_type c =? ZBX_EVAL_TOKEN_GROUP_OPEN then fail empty_group
      else ok c
  end.

Definition on_operator (c : context) (t : token) : E context :=
  if has (ttype t) ZBX_EVAL_CLASS_OPERATOR2 && negb (has (last_token_type c) ZBX_EVAL_BEFORE_OPERATOR) then fail binary_misplaced
  else if has (ttype t) ZBX_EVAL_CLASS_OPERATOR1 && negb (has (last_token_type c) ZBX_EVAL_BEFORE_OPERAND) then fail unary_misplaced
  else
    let* r := unwind (fun optoken =>
        (Z.land (ttype t) ZBX_EVAL_OP_PRIORITY <? Z.land (ttype optoken) ZBX_EVAL_OP_PRIORITY) ||
        has (ttype t) ZBX_EVAL_CLASS_OPERATOR1 || is_open optoken) c (ops c) in
    ok (set_ops r.1 (t :: ops r.1)).

(** One turn of the loop for the token eval_parse_token found. *)
Definition eval_parse_step (c : context) (t : token) : E context :=
  let* r := eval_take_token c t in
  let '(c, t) := r in
  if 2 ^ 31 - 1 <? loc_r t then fail too_long_expression else
  if (last_token_type c =? ZBX_EVAL_TOKEN_ARG_QUERY) && negb (ttype t =? ZBX_EVAL_TOKEN_COMMA) &&
     negb (ttype t =? ZBX_EVAL_TOKEN_GROUP_CLOSE) then fail invalid_after_query else
  let c :=
    if (ttype t =? ZBX_EVAL_TOKEN_GROUP_CLOSE) && (last_token_type c =? ZBX_EVAL_TOKEN_COMMA)
    then eval_append_arg_null c else c in
  let* c :=
    (if ttype t =? ZBX_EVAL_TOKEN_GROUP_OPEN then on_group_open c t
     else if has (ttype t) ZBX_EVAL_CLASS_FUNCTION then on_function c t
     else if ttype t =? ZBX_EVAL_TOKEN_COMMA then on_comma c t
     else if ttype t =? ZBX_EVAL_TOKEN_GROUP_CLOSE then on_group_close c t
     else if has (ttype t) (Z.lor ZBX_EVAL_CLASS_OPERAND ZBX_EVAL_CLASS_PROPERTY) then eval_append_operand c t
     else if has (ttype t) ZBX_EVAL_CLASS_OPERATOR then on_operator c t
     else ok c) in
  ok (set_last c (ttype t)).

Fixpoint eval_parse_tokens (c : context) (l : list token) : E context :=
  match l with
  | [] => ok c
  | t :: l => let* c := eval_parse_step c t in eval_parse_tokens c l
  end.

(** After the loop: the operators that are left. *)
Fixpoint unwind_rest (c : context) (l : list token) : E context :=
  match l with
  | [] => ok (set_ops c [])
  | optoken :: rest =>
      if is_open optoken then fail mismatched_brackets
      else let* c := eval_append_operator (set_ops c l) optoken in unwind_rest c rest
  end.

Definition eval_parse_finish (c : context) : E context :=
  if has (last_token_type c) ZBX_EVAL_CLASS_OPERATOR then fail ends_with_operator
  else if last_token_type c =? ZBX_EVAL_TOKEN_COMMA then fail ends_with_comma
  else
    let* c := unwind_rest c (ops c) in
    match stack c with
    | [] => fail empty_expression
    | [t] =>
        if has (rules c) ZBX_EVAL_PARSE_PROPERTY && has (ttype t) ZBX_EVAL_CLASS_PROPERTY then fail missing_comparison_string
        else ok c
    | _ => ok c
    end.

Definition eval_init (rules : Z) : context := mkContext rules ZBX_EVAL_CLASS_SEPARATOR 0 0 [] [].

Definition eval_parse_expression (rules : Z) (tokens : list token) : E context :=
  let* c := eval_parse_tokens (eval_init rules) tokens in
  eval_parse_finish c.
