(* ===== verification/EvalSyntax.v ===== *)
(** What the expression parser accepts and produces.  Expressions are trees over
    tokens; a tree is printed as the tokens of its infix form and as its postfix
    form.  Parsing the first gives the second, for every tree that needs no
    further parentheses under the priorities of the operators. *)

From stdpp Require Import base list numbers.
From Stdlib Require Import ZArith Lia.
From S2P Require Import Prelude EvalParse.

Open Scope Z_scope.

(* ------------------------------------------------------------------ *)
(** ** Expressions *)

(** The tokens of a node are its leaf, operator, parentheses, function name and
    commas; an argument of a function may be missing. *)
Inductive expr : Type :=
| Operand (t : token)
| Unary (t : token) (e : expr)
| Binary (t : token) (l r : expr)
| Group (o k : token) (e : expr)
| Call0 (f o k : token)
| Call (f o k : token) (a : args)
with args : Type :=
| Last (e : expr)
| LastNull
| Arg (e : expr) (comma : token) (a : args)
| ArgNull (comma : token) (a : args).

Scheme expr_mut := Induction for expr Sort Prop
  with args_mut := Induction for args Sort Prop.
Combined Scheme expr_args_ind from expr_mut, args_mut.

Fixpoint infix (e : expr) : list token :=
  match e with
  | Operand t => [t]
  | Unary t e => t :: infix e
  | Binary t l r => infix l ++ t :: infix r
  | Group o k e => o :: infix e ++ [k]
  | Call0 f o k => [f; o; k]
  | Call f o k a => f :: o :: infix_args a ++ [k]
  end
with infix_args (a : args) : list token :=
  match a with
  | Last e => infix e
  | LastNull => []
  | Arg e k a => infix e ++ k :: infix_args a
  | ArgNull k a => k :: infix_args a
  end.

Fixpoint args_num (a : args) : Z :=
  match a with
  | Last _ | LastNull => 1
  | Arg _ _ a | ArgNull _ a => args_num a + 1
  end.

(** The numbering of constants and functionids is not part of the form. *)
Definition strip (t : token) : token := if has (ttype t) ZBX_EVAL_CLASS_FUNCTION then t else set_opt t 0.

Fixpoint postfix (e : expr) : list token :=
  match e with
  | Operand t => [strip t]
  | Unary t e => postfix e ++ [strip t]
  | Binary t l r => postfix l ++ postfix r ++ [strip t]
  | Group _ _ e => postfix e
  | Call0 f _ _ => [set_opt f 0]
  | Call f _ _ a => postfix_args a ++ [set_opt f (args_num a)]
  end
with postfix_args (a : args) : list token :=
  match a with
  | Last e => postfix e
  | LastNull => [null_token]
  | Arg e _ a => postfix e ++ postfix_args a
  | ArgNull _ a => null_token :: postfix_args a
  end.

Definition one_of (l : list Z) (t : token) : bool := existsb (Z.eqb (ttype t)) l && (loc_r t <=? 2 ^ 31 - 1).

Definition operand_types : list Z :=
  [ZBX_EVAL_TOKEN_VAR_NUM; ZBX_EVAL_TOKEN_VAR_STR; ZBX_EVAL_TOKEN_VAR_MACRO; ZBX_EVAL_TOKEN_VAR_USERMACRO;
   ZBX_EVAL_TOKEN_VAR_LLDMACRO; ZBX_EVAL_TOKEN_FUNCTIONID; ZBX_EVAL_TOKEN_ARG_PERIOD].
Definition binary_types : list Z :=
  [ZBX_EVAL_TOKEN_OP_ADD; ZBX_EVAL_TOKEN_OP_SUB; ZBX_EVAL_TOKEN_OP_MUL; ZBX_EVAL_TOKEN_OP_DIV; ZBX_EVAL_TOKEN_OP_EQ;
   ZBX_EVAL_TOKEN_OP_LT; ZBX_EVAL_TOKEN_OP_GT; ZBX_EVAL_TOKEN_OP_LE; ZBX_EVAL_TOKEN_OP_GE; ZBX_EVAL_TOKEN_OP_NE;
   ZBX_EVAL_TOKEN_OP_AND; ZBX_EVAL_TOKEN_OP_OR].
Definition unary_types : list Z := [ZBX_EVAL_TOKEN_OP_MINUS; ZBX_EVAL_TOKEN_OP_NOT].

Definition priority (t : token) : Z := Z.land (ttype t) ZBX_EVAL_OP_PRIORITY.

(** The loosest operator outside parentheses: 0 for operands and groups. *)
Definition level (e : expr) : Z := match e with Unary t _ | Binary t _ _ => priority t | _ => 0 end.
Definition binary_level (e : expr) : Z := match e with Binary t _ _ => priority t | _ => 0 end.

(** The tokens have the types of their nodes; the left operand of an operator
    binds at least as tightly as the operator, the right one more tightly. *)
Fixpoint well_formed (e : expr) : bool :=
  match e with
  | Operand t => one_of operand_types t
  | Unary t e => one_of unary_types t && (binary_level e =? 0) && well_formed e
  | Binary t l r =>
      one_of binary_types t && (level l <=? priority t) && (level r <? priority t) && well_formed l && well_formed r
  | Group o k e => one_of [ZBX_EVAL_TOKEN_GROUP_OPEN] o && one_of [ZBX_EVAL_TOKEN_GROUP_CLOSE] k && well_formed e
  | Call0 f o k =>
      one_of [ZBX_EVAL_TOKEN_FUNCTION] f && one_of [ZBX_EVAL_TOKEN_GROUP_OPEN] o && one_of [ZBX_EVAL_TOKEN_GROUP_CLOSE] k
  | Call f o k a =>
      one_of [ZBX_EVAL_TOKEN_FUNCTION] f && one_of [ZBX_EVAL_TOKEN_GROUP_OPEN] o && one_of [ZBX_EVAL_TOKEN_GROUP_CLOSE] k &&
      match a with LastNull => false | _ => well_formed_args a end
  end
with well_formed_args (a : args) : bool :=
  match a with
  | Last e => well_formed e
  | LastNull => true
  | Arg e k a => one_of [ZBX_EVAL_TOKEN_COMMA] k && well_formed e && well_formed_args a
  | ArgNull k a => one_of [ZBX_EVAL_TOKEN_COMMA] k && well_formed_args a
  end.

(* ------------------------------------------------------------------ *)
(** ** One token *)

Lemma one_of_spec (l : list Z) (t : token) (P : Z -> bool) :
  one_of l t = true -> forallb P l = true -> P (ttype t) = true /\ (2 ^ 31 - 1 <? loc_r t) = false.
Proof.
  intros [H1 H2]%andb_true_iff HP. apply existsb_exists in H1 as (x & Hin & ->%Z.eqb_eq).
  split; [by apply (proj1 (forallb_forall P l) HP)|lia].
Qed.

(** The tests of the parser on a token type, evaluated for the types [l]. *)
Ltac type_facts H P :=
  let H1 := fresh in
  pose proof (one_of_spec _ _ P H ltac:(vm_compute; reflexivity)) as [H1 ?];
  cbv beta in H1; rewrite ?andb_true_iff, ?negb_true_iff in H1; destruct_and? H1.

Definition plain_rules (c : context) : Prop := has (rules c) ZBX_EVAL_PARSE_PROPERTY = false.

(** An operand may follow. *)
Definition ready (c : context) : Prop :=
  has (last_token_type c) ZBX_EVAL_BEFORE_OPERAND = true /\ (last_token_type c =? ZBX_EVAL_TOKEN_ARG_QUERY) = false.

Definition after_operand (ty : Z) : Prop := has ty ZBX_EVAL_CLASS_OPERAND = true /\
  has ty ZBX_EVAL_CLASS_OPERATOR = false /\
  (ty =? ZBX_EVAL_TOKEN_ARG_QUERY) = false /\ (ty =? ZBX_EVAL_TOKEN_COMMA) = false /\ (ty =? ZBX_EVAL_TOKEN_GROUP_OPEN) = false /\
  has ty ZBX_EVAL_CLASS_SEPARATOR = false.

Lemma step_operand (c : context) (t : token) :
  one_of operand_types t = true -> plain_rules c -> ready c ->
  exists t' ci fi, eval_parse_step c t = ok (mkContext (rules c) (ttype t) ci fi (stack c ++ [t']) (ops c)) /\
    strip t' = strip t /\ after_operand (ttype t).
Proof.
  intros Ht Hr [H1 H2].
  type_facts Ht (fun ty => has ty ZBX_EVAL_CLASS_OPERAND && negb (has ty ZBX_EVAL_CLASS_OPERATOR) &&
    negb (ty =? ZBX_EVAL_TOKEN_ARG_QUERY) && negb (ty =? ZBX_EVAL_TOKEN_COMMA) && negb (ty =? ZBX_EVAL_TOKEN_GROUP_OPEN) &&
    negb (has ty ZBX_EVAL_CLASS_SEPARATOR) && negb (ty =? ZBX_EVAL_TOKEN_FUNCTION) && negb (ty =? ZBX_EVAL_TOKEN_GROUP_CLOSE) &&
    negb (has ty ZBX_EVAL_CLASS_FUNCTION) && has ty (Z.lor ZBX_EVAL_CLASS_OPERAND ZBX_EVAL_CLASS_PROPERTY)).
  assert (Htake : exists t' ci fi, eval_take_token c t = ok (mkContext (rules c) (last_token_type c) ci fi (stack c) (ops c), t') /\
    ttype t' = ttype t /\ loc_r t' = loc_r t /\ strip t' = strip t).
  { unfold eval_take_token. replace (ttype t =? ZBX_EVAL_TOKEN_FUNCTION) with false by done.
    destruct (ttype t =? ZBX_EVAL_TOKEN_FUNCTIONID).
    { eexists (set_opt t _), _, _. split; [reflexivity|]. split_and!; [done..|]. unfold strip. cbn.
      by replace (has (ttype t) ZBX_EVAL_CLASS_FUNCTION) with false by done. }
    destruct (_ || _ || _).
    - unfold eval_update_const_variable. destruct (_ && _).
      + eexists (set_opt t _), _, _. split; [reflexivity|]. split_and!; [done..|]. unfold strip. cbn.
        by replace (has (ttype t) ZBX_EVAL_CLASS_FUNCTION) with false by done.
      + exists t, (const_index c), (functionid_index c). by destruct c.
    - replace (ttype t =? ZBX_EVAL_TOKEN_ARG_QUERY) with false by done.
      exists t, (const_index c), (functionid_index c). by destruct c. }
  destruct Htake as (t' & ci & fi & E & Ety & Er & Es). exists t', ci, fi. unfold eval_parse_step. rewrite E. cbn [ebind ok].
  rewrite Er, Ety. cbn [last_token_type]. unfold plain_rules in Hr.
  repeat match goal with H : ?b = _ |- context [?b] => rewrite H end. cbn [andb negb].
  unfold eval_append_operand. cbn [last_token_type rules stack ops]. rewrite H1, Hr. cbn. split_and!; done.
Qed.

(** An operator, not a function and not a parenthesis, of priority up to [p]. *)
Definition operator_le (p : Z) (t : token) : Prop :=
  has (ttype t) ZBX_EVAL_CLASS_FUNCTION = false /\ is_open t = false /\ priority t <= p.

Lemma append_plain (c : context) (t : token) :
  plain_rules c -> has (ttype t) ZBX_EVAL_CLASS_FUNCTION = false -> eval_append_operator c t = ok (set_stack c (stack c ++ [t])).
Proof. intros Hr Ht. unfold eval_append_operator. rewrite Ht. cbn [ebind ok]. unfold plain_rules in Hr. by rewrite Hr. Qed.

(** The operators [Y] move to the stack. *)
Lemma unwind_moves (stop : token -> bool) (Y L : list token) (c : context) :
  plain_rules c -> Forall (fun y => has (ttype y) ZBX_EVAL_CLASS_FUNCTION = false /\ stop y = false) Y ->
  match L with [] => True | o :: _ => stop o = true end ->
  exists seen, unwind stop c (Y ++ L) = ok (set_ops (set_stack c (stack c ++ Y)) L, seen) /\ (L <> [] -> seen = true).
Proof.
  intros Hr HY HL. revert c Hr. induction Y as [|y Y IH]; intros c Hr; cbn [app unwind].
  - rewrite app_nil_r. destruct L as [|o L]; cbn [unwind].
    + exists false. split; [by destruct c|done].
    + rewrite HL. exists true. split; [by destruct c|done].
  - apply Forall_cons_1 in HY as [[Hy Hs] HY]. rewrite Hs, append_plain by done. cbn [ebind ok].
    destruct (IH HY (set_stack (set_ops c (y :: Y ++ L)) (stack c ++ [y])) Hr) as (seen & E & _).
    cbn [set_ops stack] in *. rewrite E. cbn. exists true. split; [|done].
    unfold set_ops, set_stack. cbn. by rewrite <- app_assoc.
Qed.

(** The first operator of [l] is a parenthesis or looser than [p]. *)
Definition blocks (l : list token) (p : Z) : Prop :=
  match l with
  | [] => True
  | o :: _ => (is_open o = true \/ p < priority o) /\ has (ttype o) ZBX_EVAL_CLASS_FUNCTION = false
  end.

Lemma take_other (c : context) (t : token) :
  has (ttype t) ZBX_EVAL_CLASS_FUNCTION = false -> has (ttype t) ZBX_EVAL_CLASS_OPERAND = false -> eval_take_token c t = ok (c, t).
Proof.
  intros H1 H2. unfold eval_take_token.
  assert (Hty : forall ty, has ty ZBX_EVAL_CLASS_FUNCTION || has ty ZBX_EVAL_CLASS_OPERAND = true -> (ttype t =? ty) = false).
  { intros ty Hty. apply Z.eqb_neq. intros E. by rewrite <- E, H1, H2 in Hty. }
  rewrite (Hty ZBX_EVAL_TOKEN_FUNCTION), (Hty ZBX_EVAL_TOKEN_FUNCTIONID), (Hty ZBX_EVAL_TOKEN_VAR_NUM),
    (Hty ZBX_EVAL_TOKEN_VAR_USERMACRO), (Hty ZBX_EVAL_TOKEN_VAR_STR), (Hty ZBX_EVAL_TOKEN_ARG_QUERY); done.
Qed.

Ltac rewrite_facts := repeat match goal with H : ?b = _ |- context [?b] => rewrite H end; cbn [andb orb negb].

Lemma step_unary (c : context) (t : token) :
  one_of unary_types t = true -> plain_rules c -> ready c ->
  eval_parse_step c t = ok (mkContext (rules c) (ttype t) (const_index c) (functionid_index c) (stack c) (t :: ops c)) /\
  operator_le (2 * 2 ^ 22) t /\ 0 < priority t /\ has (ttype t) ZBX_EVAL_BEFORE_OPERAND = true /\ (ttype t =? ZBX_EVAL_TOKEN_ARG_QUERY) = false.
Proof.
  intros Ht Hr [H1 H2].
  type_facts Ht (fun ty => negb (has ty ZBX_EVAL_CLASS_OPERAND) && negb (has ty ZBX_EVAL_CLASS_FUNCTION) &&
    negb (ty =? ZBX_EVAL_TOKEN_COMMA) && negb (ty =? ZBX_EVAL_TOKEN_GROUP_OPEN) && negb (ty =? ZBX_EVAL_TOKEN_GROUP_CLOSE) &&
    negb (has ty (Z.lor ZBX_EVAL_CLASS_OPERAND ZBX_EVAL_CLASS_PROPERTY)) && has ty ZBX_EVAL_CLASS_OPERATOR &&
    negb (has ty ZBX_EVAL_CLASS_OPERATOR2) && has ty ZBX_EVAL_CLASS_OPERATOR1 && has ty ZBX_EVAL_BEFORE_OPERAND &&
    negb (ty =? ZBX_EVAL_TOKEN_ARG_QUERY) && (Z.land ty ZBX_EVAL_OP_PRIORITY <=? 2 * 2 ^ 22) && (0 <? Z.land ty ZBX_EVAL_OP_PRIORITY)).
  split; [|unfold operator_le, is_open, priority; split_and!; try done; lia].
  unfold eval_parse_step. rewrite take_other by done. cbn [ebind ok]. rewrite_facts. unfold on_operator. rewrite_facts.
  match goal with |- context [unwind ?stop c (ops c)] => destruct (unwind_moves stop [] (ops c) c) as (seen & E & _) end.
  - done.
  - by constructor.
  - destruct (ops c) as [|o l]; [done|]. by rewrite orb_true_r.
  - cbn [app] in E. rewrite E, app_nil_r. by destruct c.
Qed.

(** The operators pending from the left operand leave before [t] is pushed. *)
Lemma step_binary (c : context) (t : token) (Y L : list token) :
  one_of binary_types t = true -> plain_rules c -> after_operand (last_token_type c) -> ops c = Y ++ L ->
  Forall (operator_le (priority t)) Y -> blocks L (priority t) ->
  eval_parse_step c t = ok (mkContext (rules c) (ttype t) (const_index c) (functionid_index c) (stack c ++ Y) (t :: L)) /\
  operator_le (priority t) t /\ 0 < priority t /\ has (ttype t) ZBX_EVAL_BEFORE_OPERAND = true /\
  (ttype t =? ZBX_EVAL_TOKEN_ARG_QUERY) = false.
Proof.
  intros Ht Hr (H1 & H2 & H3 & H4 & H5 & H6) Hops HY HL.
  type_facts Ht (fun ty => negb (has ty ZBX_EVAL_CLASS_OPERAND) && negb (has ty ZBX_EVAL_CLASS_FUNCTION) &&
    negb (ty =? ZBX_EVAL_TOKEN_COMMA) && negb (ty =? ZBX_EVAL_TOKEN_GROUP_OPEN) && negb (ty =? ZBX_EVAL_TOKEN_GROUP_CLOSE) &&
    negb (has ty (Z.lor ZBX_EVAL_CLASS_OPERAND ZBX_EVAL_CLASS_PROPERTY)) && has ty ZBX_EVAL_CLASS_OPERATOR &&
    has ty ZBX_EVAL_CLASS_OPERATOR2 && negb (has ty ZBX_EVAL_CLASS_OPERATOR1) && has ty ZBX_EVAL_BEFORE_OPERAND &&
    negb (ty =? ZBX_EVAL_TOKEN_ARG_QUERY) && (0 <? Z.land ty ZBX_EVAL_OP_PRIORITY)).
  split; [|unfold operator_le, is_open, priority; split_and!; try done; lia].
  assert (Hbo : has (last_token_type c) ZBX_EVAL_BEFORE_OPERATOR = true).
  { unfold has, ZBX_EVAL_BEFORE_OPERATOR in *. rewrite negb_true_iff, Z.eqb_neq in *. rewrite Z.land_lor_distr_r.
    intros E. apply Z.lor_eq_0_iff in E. tauto. }
  unfold eval_parse_step. rewrite take_other by done. cbn [ebind ok]. rewrite_facts. unfold on_operator. rewrite_facts.
  match goal with |- context [unwind ?stop c (Y ++ L)] => destruct (unwind_moves stop Y L c) as (seen & E & _) end.
  - done.
  - eapply Forall_impl; [|exact HY]. intros y (Hf & Ho & Hp). split; [done|]. rewrite Ho. unfold priority in Hp.
    rewrite orb_false_r, orb_false_r. lia.
  - destruct L as [|o l]; [done|]. destruct HL as [[Ho | Ho] _]; [rewrite Ho; by rewrite orb_true_r|].
    unfold priority in Ho. rewrite orb_false_r. apply orb_true_iff. left. lia.
  - rewrite E. done.
Qed.

Lemma open_facts (o : token) : one_of [ZBX_EVAL_TOKEN_GROUP_OPEN] o = true ->
  ttype o = ZBX_EVAL_TOKEN_GROUP_OPEN /\ (2 ^ 31 - 1 <? loc_r o) = false.
Proof. unfold one_of. cbn. rewrite orb_false_r. intros [H%Z.eqb_eq ?]%andb_true_iff. split; [done|lia]. Qed.

Lemma step_open (c : context) (o : token) :
  one_of [ZBX_EVAL_TOKEN_GROUP_OPEN] o = true ->
  has (last_token_type c) (Z.lor ZBX_EVAL_BEFORE_OPERAND ZBX_EVAL_CLASS_FUNCTION) = true ->
  (last_token_type c =? ZBX_EVAL_TOKEN_ARG_QUERY) = false ->
  eval_parse_step c o =
    ok (mkContext (rules c) ZBX_EVAL_TOKEN_GROUP_OPEN (const_index c) (functionid_index c) (stack c) (o :: ops c)).
Proof.
  intros [Ho Hr]%open_facts H1 H2. unfold eval_parse_step. rewrite take_other by (rewrite Ho; done). cbn [ebind ok].
  rewrite Hr, H2, Ho. cbn [andb].
  replace (ZBX_EVAL_TOKEN_GROUP_OPEN =? ZBX_EVAL_TOKEN_GROUP_CLOSE) with false by done.
  replace (ZBX_EVAL_TOKEN_GROUP_OPEN =? ZBX_EVAL_TOKEN_GROUP_OPEN) with true by done. cbn [andb].
  unfold on_group_open. rewrite H1. done.
Qed.

Lemma step_function (c : context) (f : token) :
  one_of [ZBX_EVAL_TOKEN_FUNCTION] f = true -> ready c ->
  eval_parse_step c f = ok (mkContext (rules c) ZBX_EVAL_TOKEN_FUNCTION (const_index c) (functionid_index c) (stack c)
    (set_opt f (Z.of_nat (length (stack c))) :: ops c)).
Proof.
  unfold one_of. cbn. rewrite orb_false_r. intros [Hf%Z.eqb_eq Hr]%andb_true_iff [H1 H2]. unfold eval_parse_step, eval_take_token.
  rewrite Hf. cbn [Z.eqb]. replace (ZBX_EVAL_TOKEN_FUNCTION =? ZBX_EVAL_TOKEN_FUNCTION) with true by done. cbn [ebind ok].
  cbn [set_opt loc_r ttype]. replace (2 ^ 31 - 1 <? loc_r f) with false by lia. rewrite H2, Hf. cbn [andb].
  replace (ZBX_EVAL_TOKEN_FUNCTION =? ZBX_EVAL_TOKEN_GROUP_CLOSE) with false by done.
  replace (ZBX_EVAL_TOKEN_FUNCTION =? ZBX_EVAL_TOKEN_GROUP_OPEN) with false by done.
  replace (has ZBX_EVAL_TOKEN_FUNCTION ZBX_EVAL_CLASS_FUNCTION) with true by done. cbn [andb].
  unfold on_function. rewrite H1. done.
Qed.

Lemma comma_facts (k : token) : one_of [ZBX_EVAL_TOKEN_COMMA] k = true ->
  ttype k = ZBX_EVAL_TOKEN_COMMA /\ (2 ^ 31 - 1 <? loc_r k) = false.
Proof. unfold one_of. cbn. rewrite orb_false_r. intros [H%Z.eqb_eq ?]%andb_true_iff. split; [done|lia]. Qed.

Lemma close_facts (k : token) : one_of [ZBX_EVAL_TOKEN_GROUP_CLOSE] k = true ->
  ttype k = ZBX_EVAL_TOKEN_GROUP_CLOSE /\ (2 ^ 31 - 1 <? loc_r k) = false.
Proof. unfold one_of. cbn. rewrite orb_false_r. intros [H%Z.eqb_eq ?]%andb_true_iff. split; [done|lia]. Qed.

Lemma take_close (c : context) (k : token) : ttype k = ZBX_EVAL_TOKEN_GROUP_CLOSE -> eval_take_token c k = ok (c, k).
Proof. intros E. unfold eval_take_token. rewrite E. done. Qed.

(** The argument a comma or a closing parenthesis adds after a separator. *)
Definition pending_null (ty : Z) : list token := if has ty ZBX_EVAL_CLASS_SEPARATOR then [null_token] else [].

Lemma step_comma (c : context) (k : token) (Y L : list token) (o : token) :
  one_of [ZBX_EVAL_TOKEN_COMMA] k = true -> plain_rules c ->
  has (last_token_type c) ZBX_EVAL_CLASS_OPERAND || has (last_token_type c) ZBX_EVAL_CLASS_SEPARATOR = true ->
  ops c = Y ++ o :: L -> is_open o = true -> Forall (fun y => has (ttype y) ZBX_EVAL_CLASS_FUNCTION = false /\ is_open y = false) Y ->
  eval_parse_step c k = ok (mkContext (rules c) ZBX_EVAL_TOKEN_COMMA (const_index c) (functionid_index c)
    ((stack c ++ pending_null (last_token_type c)) ++ Y) (o :: L)).
Proof.
  intros [Hk Hl]%comma_facts Hr H Hops Ho HY. unfold eval_parse_step. rewrite take_other by (rewrite Hk; done). cbn [ebind ok].
  rewrite Hl, Hk. cbn [andb negb].
  replace (ZBX_EVAL_TOKEN_COMMA =? ZBX_EVAL_TOKEN_COMMA) with true by done.
  replace (ZBX_EVAL_TOKEN_COMMA =? ZBX_EVAL_TOKEN_GROUP_CLOSE) with false by done.
  replace (ZBX_EVAL_TOKEN_COMMA =? ZBX_EVAL_TOKEN_GROUP_OPEN) with false by done.
  replace (has ZBX_EVAL_TOKEN_COMMA ZBX_EVAL_CLASS_FUNCTION) with false by done.
  rewrite andb_false_r. cbn [andb]. unfold on_comma. rewrite <- negb_orb, H. cbn [negb].
  set (c1 := if has _ _ then _ else _).
  assert (E1 : c1 = set_stack c (stack c ++ pending_null (last_token_type c))).
  { unfold c1, pending_null. destruct (has _ ZBX_EVAL_CLASS_SEPARATOR); [done|]. rewrite app_nil_r. by destruct c. }
  destruct (unwind_moves is_open Y (o :: L) c1) as (seen & E & Hseen); [by rewrite E1|done|done|].
  replace (ops c1) with (Y ++ o :: L) by (by rewrite E1). rewrite E. cbn [ebind ok snd fst]. rewrite Hseen by done. by rewrite E1.
Qed.

(** The closing parenthesis of a group. *)
Lemma step_close_group (c : context) (k : token) (Y L : list token) (o : token) :
  one_of [ZBX_EVAL_TOKEN_GROUP_CLOSE] k = true -> plain_rules c -> after_operand (last_token_type c) ->
  ops c = Y ++ o :: L -> is_open o = true -> Forall (fun y => has (ttype y) ZBX_EVAL_CLASS_FUNCTION = false /\ is_open y = false) Y ->
  match L with [] => True | f :: _ => has (ttype f) ZBX_EVAL_CLASS_FUNCTION = false end ->
  eval_parse_step c k = ok (mkContext (rules c) ZBX_EVAL_TOKEN_GROUP_CLOSE (const_index c) (functionid_index c)
    (stack c ++ Y) L).
Proof.
  intros [Hk Hl]%close_facts Hr (H1 & H2 & H3 & H4 & H5 & H6) Hops Ho HY HL. unfold eval_parse_step. rewrite take_close by done.
  cbn [ebind ok]. rewrite Hl, Hk, H3, H4. cbn [andb negb].
  replace (ZBX_EVAL_TOKEN_GROUP_CLOSE =? ZBX_EVAL_TOKEN_COMMA) with false by done.
  replace (ZBX_EVAL_TOKEN_GROUP_CLOSE =? ZBX_EVAL_TOKEN_GROUP_CLOSE) with true by done.
  replace (ZBX_EVAL_TOKEN_GROUP_CLOSE =? ZBX_EVAL_TOKEN_GROUP_OPEN) with false by done.
  replace (has ZBX_EVAL_TOKEN_GROUP_CLOSE ZBX_EVAL_CLASS_FUNCTION) with false by done. cbn [andb]. unfold on_group_close.
  assert (Hh : has (last_token_type c) (Z.lor ZBX_EVAL_CLASS_OPERAND (Z.lor ZBX_EVAL_CLASS_PROPERTY ZBX_EVAL_CLASS_SEPARATOR)) = true).
  { unfold has in *. rewrite negb_true_iff, Z.eqb_neq in *. rewrite Z.land_lor_distr_r. intros E. apply Z.lor_eq_0_iff in E. tauto. }
  rewrite Hh. cbn [negb andb].
  destruct (unwind_moves is_open Y (o :: L) c) as (seen & E & Hseen); [done|done|done|].
  rewrite Hops, E. cbn [ebind ok snd fst set_ops ops]. rewrite Hseen by done. cbn [negb].
  destruct L as [|f L]; [done|]. cbn [last_token_type set_stack set_ops]. by rewrite HL, H5.
Qed.

(** The closing parenthesis of a function call. *)
Lemma step_close_call (c : context) (k : token) (Y L : list token) (o f : token) (opt0 : Z) :
  one_of [ZBX_EVAL_TOKEN_GROUP_CLOSE] k = true -> plain_rules c ->
  (after_operand (last_token_type c) \/ last_token_type c = ZBX_EVAL_TOKEN_COMMA \/ last_token_type c = ZBX_EVAL_TOKEN_GROUP_OPEN) ->
  ops c = Y ++ o :: set_opt f opt0 :: L -> is_open o = true -> ttype f = ZBX_EVAL_TOKEN_FUNCTION ->
  Forall (fun y => has (ttype y) ZBX_EVAL_CLASS_FUNCTION = false /\ is_open y = false) Y -> 0 <= opt0 < 2 ^ 31 ->
  let st := (stack c ++ (if last_token_type c =? ZBX_EVAL_TOKEN_COMMA then [null_token] else [])) ++ Y in
  eval_parse_step c k = ok (mkContext (rules c) ZBX_EVAL_TOKEN_GROUP_CLOSE (const_index c) (functionid_index c)
    (st ++ [set_opt f (u32 (count_params (drop (Z.to_nat opt0) st)))]) L).
Proof.
  intros [Hk Hl]%close_facts Hr H Hops Ho Hf HY Hb. cbn zeta. unfold eval_parse_step. rewrite take_close by done.
  cbn [ebind ok]. rewrite Hl, Hk. cbn [andb negb].
  replace (ZBX_EVAL_TOKEN_GROUP_CLOSE =? ZBX_EVAL_TOKEN_COMMA) with false by done.
  replace (ZBX_EVAL_TOKEN_GROUP_CLOSE =? ZBX_EVAL_TOKEN_GROUP_CLOSE) with true by done.
  replace (ZBX_EVAL_TOKEN_GROUP_CLOSE =? ZBX_EVAL_TOKEN_GROUP_OPEN) with false by done.
  replace (has ZBX_EVAL_TOKEN_GROUP_CLOSE ZBX_EVAL_CLASS_FUNCTION) with false by done. rewrite andb_false_r. cbn [andb].
  set (c1 := if last_token_type c =? _ then _ else _). set (nl := if last_token_type c =? _ then _ else _ : list token).
  assert (E1 : c1 = set_stack c (stack c ++ nl)).
  { unfold c1, nl. destruct (_ =? _); [done|]. rewrite app_nil_r. by destruct c. }
  clearbody nl. rewrite E1. clear c1 E1. unfold on_group_close.
  assert (Hh : has (last_token_type c) (Z.lor ZBX_EVAL_CLASS_OPERAND (Z.lor ZBX_EVAL_CLASS_PROPERTY ZBX_EVAL_CLASS_SEPARATOR)) = true).
  { destruct H as [(H1 & _) | [-> | ->]]; [|done..].
    unfold has in *. rewrite negb_true_iff, Z.eqb_neq in *. rewrite Z.land_lor_distr_r. intros E. apply Z.lor_eq_0_iff in E. tauto. }
  cbn [last_token_type set_stack ops rules]. rewrite Hh. cbn [negb andb].
  destruct (unwind_moves is_open Y (o :: set_opt f opt0 :: L) (set_stack c (stack c ++ nl))) as (seen & E & Hseen); [done|done|done|].
  rewrite Hops, E. cbn [ebind ok snd fst set_ops ops]. rewrite Hseen by done. cbn [negb].
  cbn [set_opt ttype]. rewrite Hf. replace (has ZBX_EVAL_TOKEN_FUNCTION ZBX_EVAL_CLASS_FUNCTION) with true by done.
  unfold eval_append_operator. cbn [set_opt ttype opt]. rewrite Hf.
  replace (has ZBX_EVAL_TOKEN_FUNCTION ZBX_EVAL_CLASS_FUNCTION) with true by done.
  assert (E32 : i32 opt0 = opt0) by (unfold i32; rewrite Z.mod_small by lia; lia). rewrite E32.
  replace (opt0 <? 0) with false by lia. cbn [ebind ok rules set_stack set_ops stack]. unfold plain_rules in Hr. rewrite Hr. done.
Qed.

(* ------------------------------------------------------------------ *)
(** ** Counting arguments *)

Definition count_step (params : Z) (t : token) : Z :=
  if has (ttype t) ZBX_EVAL_CLASS_FUNCTION then params - (i32 (opt t) - 1)
  else if has (ttype t) ZBX_EVAL_CLASS_OPERAND then params + 1
  else if has (ttype t) ZBX_EVAL_CLASS_OPERATOR2 then params - 1
  else params.

Lemma count_strip (l : list token) (n : Z) : foldl count_step n (strip <$> l) = foldl count_step n l.
Proof.
  revert n. induction l as [|t l IH]; intros n; [done|]. cbn. rewrite IH. f_equal. unfold count_step, strip.
  destruct (has (ttype t) ZBX_EVAL_CLASS_FUNCTION) eqn:E; [by rewrite E|]. cbn. by rewrite E.
Qed.

Lemma args_num_bounds (a : args) : 1 <= args_num a <= Z.of_nat (length (infix_args a)) + 1.
Proof. induction a; cbn; rewrite ?length_app; cbn; lia. Qed.

Lemma i32_small (n : Z) : 0 <= n < 2 ^ 31 -> i32 n = n.
Proof. intros H. unfold i32. rewrite Z.mod_small by lia. lia. Qed.

(** The operands, operators and functions of a postfix form balance. *)
Lemma count_postfix :
  (forall e n, well_formed e = true -> Z.of_nat (length (infix e)) < 2 ^ 31 -> foldl count_step n (postfix e) = n + 1) /\
  (forall a n, well_formed_args a = true -> Z.of_nat (length (infix_args a)) + 1 < 2 ^ 31 ->
    foldl count_step n (postfix_args a) = n + args_num a).
Proof.
  apply expr_args_ind; cbn [well_formed well_formed_args infix infix_args postfix postfix_args args_num].
  - intros t n Ht _.
    type_facts Ht (fun ty => negb (has ty ZBX_EVAL_CLASS_FUNCTION) && has ty ZBX_EVAL_CLASS_OPERAND).
    change [strip t] with (strip <$> [t]). rewrite count_strip. cbn. unfold count_step. by rewrite_facts.
  - intros t e IH n Ht Hlen. apply andb_true_iff in Ht as [Ht He]. apply andb_true_iff in Ht as [Ht _].
    type_facts Ht (fun ty => negb (has ty ZBX_EVAL_CLASS_FUNCTION) && negb (has ty ZBX_EVAL_CLASS_OPERAND) &&
      negb (has ty ZBX_EVAL_CLASS_OPERATOR2)).
    rewrite foldl_app, IH by (cbn in Hlen; lia || done). change [strip t] with (strip <$> [t]). rewrite count_strip.
    cbn. unfold count_step. by rewrite_facts.
  - intros t l IHl r IHr n Ht Hlen. rewrite !andb_true_iff in Ht. destruct Ht as [[[[Ht _] _] Hl] Hr].
    type_facts Ht (fun ty => negb (has ty ZBX_EVAL_CLASS_FUNCTION) && negb (has ty ZBX_EVAL_CLASS_OPERAND) &&
      has ty ZBX_EVAL_CLASS_OPERATOR2).
    rewrite length_app in Hlen. cbn in Hlen. rewrite !foldl_app, IHl, IHr by (done || lia).
    change [strip t] with (strip <$> [t]). rewrite count_strip. cbn. unfold count_step. rewrite_facts. lia.
  - intros o k e IH n He Hlen. rewrite !andb_true_iff in He. destruct He as [_ He].
    cbn in Hlen. rewrite length_app in Hlen. cbn in Hlen. apply IH; [done|lia].
  - intros f o k n Hf _. rewrite !andb_true_iff in Hf. destruct Hf as [[Hf _] _].
    type_facts Hf (fun ty => has ty ZBX_EVAL_CLASS_FUNCTION).
    cbn [foldl]. unfold count_step. cbn [set_opt ttype opt]. rewrite_facts. replace (i32 0) with 0 by done. lia.
  - intros f o k a IH n Hf Hlen. rewrite !andb_true_iff in Hf. destruct Hf as [[[Hf _] _] Ha].
    type_facts Hf (fun ty => has ty ZBX_EVAL_CLASS_FUNCTION). cbn in Hlen. rewrite length_app in Hlen. cbn in Hlen.
    pose proof (args_num_bounds a) as Hn. assert (Hwf : well_formed_args a = true) by (by destruct a).
    rewrite foldl_app, IH by (done || lia). cbn [foldl]. unfold count_step. cbn [set_opt ttype opt]. rewrite_facts.
    rewrite i32_small by lia. lia.
  - intros e IH n He Hlen. apply IH; [done|lia].
  - intros n _ _. done.
  - intros e IHe k a IHa n Ha Hlen. rewrite !andb_true_iff in Ha. destruct Ha as [[_ He] Ha].
    rewrite length_app in Hlen. cbn in Hlen. rewrite foldl_app, IHe, IHa by (done || lia). lia.
  - intros k a IH n Ha Hlen. rewrite !andb_true_iff in Ha. destruct Ha as [_ Ha]. cbn in Hlen. cbn [foldl].
    rewrite IH by (done || lia). replace (count_step n null_token) with (n + 1) by done. lia.
Qed.

Lemma postfix_length :
  (forall e, (length (postfix e) <= length (infix e))%nat) /\
  (forall a, (length (postfix_args a) <= length (infix_args a) + 1)%nat).
Proof. apply expr_args_ind; intros; cbn; rewrite ?length_app; cbn; rewrite ?length_app; cbn; lia. Qed.

(* ------------------------------------------------------------------ *)
(** ** Whole expressions *)

Lemma parse_tokens_app (c : context) (l1 l2 : list token) :
  eval_parse_tokens c (l1 ++ l2) = ebind (eval_parse_tokens c l1) (fun c => eval_parse_tokens c l2).
Proof.
  revert c. induction l1 as [|t l1 IH]; intros c; [done|]. cbn [eval_parse_tokens app].
  destruct (eval_parse_step c t) as [[e|c']| | |]; cbn [ebind]; done.
Qed.

Lemma parse_tokens_one (c c' : context) (t : token) (l : list token) :
  eval_parse_step c t = ok c' -> eval_parse_tokens c (t :: l) = eval_parse_tokens c' l.
Proof. intros E. cbn [eval_parse_tokens]. by rewrite E. Qed.

Lemma operator_le_mono (p q : Z) (Y : list token) : p <= q -> Forall (operator_le p) Y -> Forall (operator_le q) Y.
Proof. intros Hpq H. eapply Forall_impl; [|exact H]. intros t (H1 & H2 & H3). split_and!; [done..|lia]. Qed.

Lemma operator_le_plain (p : Z) (Y : list token) :
  Forall (operator_le p) Y -> Forall (fun y => has (ttype y) ZBX_EVAL_CLASS_FUNCTION = false /\ is_open y = false) Y.
Proof. intros H. eapply Forall_impl; [|exact H]. intros t (H1 & H2 & H3). done. Qed.

Lemma unary_priority (t : token) : one_of unary_types t = true -> priority t = 2 * 2 ^ 22.
Proof. intros Ht. type_facts Ht (fun ty => Z.land ty ZBX_EVAL_OP_PRIORITY =? 2 * 2 ^ 22). unfold priority. lia. Qed.

Lemma binary_priority (t : token) : one_of binary_types t = true -> 2 * 2 ^ 22 < priority t.
Proof. intros Ht. type_facts Ht (fun ty => 2 * 2 ^ 22 <? Z.land ty ZBX_EVAL_OP_PRIORITY). unfold priority. lia. Qed.

Lemma level_bounds (e : expr) : well_formed e = true ->
  0 <= binary_level e <= level e /\ (binary_level e = 0 -> level e <= 2 * 2 ^ 22).
Proof.
  destruct e; cbn [well_formed level binary_level]; intros H; try (split; lia).
  - rewrite !andb_true_iff in H. destruct H as [[H _] _]. apply unary_priority in H. split; lia.
  - rewrite !andb_true_iff in H. destruct H as [[[[H _] _] _] _]. apply binary_priority in H. split; lia.
Qed.

Lemma ready_weaken (ty : Z) :
  has ty ZBX_EVAL_BEFORE_OPERAND = true -> has ty (Z.lor ZBX_EVAL_BEFORE_OPERAND ZBX_EVAL_CLASS_FUNCTION) = true.
Proof. unfold has. rewrite !negb_true_iff, !Z.eqb_neq, Z.land_lor_distr_r. intros H E. apply Z.lor_eq_0_iff in E. tauto. Qed.

Lemma separator_ready (c : context) : last_token_type c = ZBX_EVAL_TOKEN_COMMA \/ last_token_type c = ZBX_EVAL_TOKEN_GROUP_OPEN -> ready c.
Proof. unfold ready. by intros [-> | ->]. Qed.

Lemma open_not_function (o : token) : is_open o = true -> has (ttype o) ZBX_EVAL_CLASS_FUNCTION = false.
Proof. unfold is_open. by intros ->%Z.eqb_eq. Qed.

(** [l] is parsed and leaves [X] on the stack and the operators [Y] pending. *)
Definition parses (c : context) (l form : list token) (p : Z) : Prop :=
  exists ty ci fi X Y, eval_parse_tokens c l = ok (mkContext (rules c) ty ci fi (stack c ++ X) (Y ++ ops c)) /\
    strip <$> (X ++ Y) = form /\ Forall (operator_le p) Y /\ after_operand ty.

Definition parses_args (c : context) (a : args) (o : token) (L : list token) : Prop :=
  exists ty ci fi X Y, eval_parse_tokens c (infix_args a) = ok (mkContext (rules c) ty ci fi (stack c ++ X) (Y ++ o :: L)) /\
    strip <$> (X ++ (if ty =? ZBX_EVAL_TOKEN_COMMA then [null_token] else []) ++ Y) = postfix_args a /\
    Forall (fun y => has (ttype y) ZBX_EVAL_CLASS_FUNCTION = false /\ is_open y = false) Y /\
    (after_operand ty \/ ty = ZBX_EVAL_TOKEN_COMMA).

Definition parse_goal (e : expr) : Prop := forall c,
  well_formed e = true -> plain_rules c -> ready c -> blocks (ops c) (binary_level e) ->
  Z.of_nat (length (stack c) + length (infix e)) < 2 ^ 31 - 1 -> parses c (infix e) (postfix e) (level e).

Definition parse_args_goal (a : args) : Prop := forall c o L,
  well_formed_args a = true -> plain_rules c -> ops c = o :: L -> is_open o = true ->
  (last_token_type c = ZBX_EVAL_TOKEN_COMMA \/ (last_token_type c = ZBX_EVAL_TOKEN_GROUP_OPEN /\ a <> LastNull)) ->
  Z.of_nat (length (stack c) + length (infix_args a)) < 2 ^ 31 - 2 -> parses_args c a o L.

Lemma parse_unary (t : token) (e : expr) : parse_goal e -> parse_goal (Unary t e).
Proof.
  intros IH c Hwf Hr Hc Hb Hlen. cbn [well_formed infix postfix level] in *. rewrite !andb_true_iff in Hwf.
  destruct Hwf as [[Ht He] Hwf]. apply Z.eqb_eq in He.
  destruct (step_unary c t Ht Hr Hc) as (E & Hop & Hpos & H1 & H2). unfold parses. rewrite (parse_tokens_one _ _ _ _ E).
  destruct (IH (mkContext (rules c) (ttype t) (const_index c) (functionid_index c) (stack c) (t :: ops c)))
    as (ty & ci & fi & X & Y & E' & Hs & HY & Hty); try done.
  - rewrite He. cbn. destruct Hop as (? & _). split; [by right|done].
  - cbn [stack]. cbn in Hlen. lia.
  - exists ty, ci, fi, X, (Y ++ [t]). cbn [rules stack ops] in E'. rewrite E', <- app_assoc. split_and!; try done.
    + rewrite app_assoc, fmap_app, Hs. done.
    + apply Forall_app. pose proof (unary_priority t Ht) as Hp. split.
      * apply (operator_le_mono (level e)); [|done]. pose proof (level_bounds e Hwf). lia.
      * constructor; [by rewrite Hp|constructor].
Qed.

Lemma parse_binary (t : token) (l r : expr) : parse_goal l -> parse_goal r -> parse_goal (Binary t l r).
Proof.
  intros IHl IHr c Hwf Hr Hc Hb Hlen. cbn [well_formed infix postfix level binary_level] in *. rewrite !andb_true_iff in Hwf.
  destruct Hwf as [[[[Ht Hll] Hlr] Hwl] Hwr]. rewrite length_app in Hlen. cbn in Hlen. unfold parses.
  pose proof (level_bounds l Hwl) as Hbl. pose proof (level_bounds r Hwr) as Hbr.
  destruct (IHl c) as (ty1 & ci1 & fi1 & X1 & Y1 & E1 & Hs1 & HY1 & Hty1); try done; [|lia|].
  { destruct (ops c); [done|]. destruct Hb as [[?|?] ?]; (split; [|done]); [by left|right; lia]. }
  rewrite parse_tokens_app, E1. cbn [ebind ok].
  set (c1 := mkContext _ ty1 _ _ _ _).
  destruct (step_binary c1 t Y1 (ops c)) as (E & Hop & Hpos & H1 & H2); try done.
  { apply (operator_le_mono (level l)); [lia|done]. }
  rewrite (parse_tokens_one _ _ _ _ E). cbn [c1 rules const_index functionid_index stack].
  assert (Hlen1 : (length (X1 ++ Y1) <= length (infix l))%nat).
  { rewrite <- (length_fmap strip), Hs1. apply postfix_length. }
  destruct (IHr (mkContext (rules c) (ttype t) ci1 fi1 ((stack c ++ X1) ++ Y1) (t :: ops c)))
    as (ty2 & ci2 & fi2 & X2 & Y2 & E2 & Hs2 & HY2 & Hty2); try done.
  { split; [right; lia|apply Hop]. }
  { cbn [stack]. rewrite !length_app in *. lia. }
  rewrite E2. cbn [rules stack ops]. exists ty2, ci2, fi2, (X1 ++ Y1 ++ X2), (Y2 ++ [t]). split_and!; try done.
  - by rewrite <- !app_assoc.
  - rewrite <- Hs1, <- Hs2, !fmap_app, <- !app_assoc. done.
  - apply Forall_app. split; [apply (operator_le_mono (level r)); [lia|done]|by constructor].
Qed.

Lemma parse_group (o k : token) (e : expr) : parse_goal e -> parse_goal (Group o k e).
Proof.
  intros IH c Hwf Hr Hc Hb Hlen. cbn [well_formed infix postfix level binary_level] in *. rewrite !andb_true_iff in Hwf.
  destruct Hwf as [[Ho Hk] Hwf]. cbn in Hlen. rewrite length_app in Hlen. cbn in Hlen. unfold parses.
  assert (Hopen : is_open o = true) by (apply open_facts in Ho as [Ho _]; unfold is_open; by rewrite Ho).
  rewrite (parse_tokens_one _ _ _ _ (step_open c o Ho (ready_weaken _ (proj1 Hc)) (proj2 Hc))), parse_tokens_app.
  destruct (IH (mkContext (rules c) ZBX_EVAL_TOKEN_GROUP_OPEN (const_index c) (functionid_index c) (stack c) (o :: ops c)))
    as (ty & ci & fi & X & Y & E & Hs & HY & Hty); try done.
  { cbn. split; [by left|by apply open_not_function]. }
  { cbn [stack]. lia. }
  rewrite E. cbn [ebind ok rules stack ops]. set (c1 := mkContext _ ty _ _ _ _).
  assert (Ek : eval_parse_step c1 k = ok (mkContext (rules c) ZBX_EVAL_TOKEN_GROUP_CLOSE ci fi ((stack c ++ X) ++ Y) (ops c))).
  { apply (step_close_group c1 k Y (ops c) o); try done; [by apply (operator_le_plain (level e))|].
    destruct (ops c); [done|]. apply Hb. }
  rewrite (parse_tokens_one _ _ _ _ Ek). eexists _, ci, fi, (X ++ Y), []. split; [by rewrite <- app_assoc|].
  rewrite app_nil_r. split_and!; try done.
Qed.

(** Both kinds of call: [a] is what stands between the parentheses. *)
Lemma parse_call_frame (c : context) (f o k : token) (l form : list token) (n : Z) :
  one_of [ZBX_EVAL_TOKEN_FUNCTION] f = true -> one_of [ZBX_EVAL_TOKEN_GROUP_OPEN] o = true ->
  one_of [ZBX_EVAL_TOKEN_GROUP_CLOSE] k = true -> plain_rules c -> ready c ->
  Z.of_nat (length (stack c)) < 2 ^ 31 -> 0 <= n < 2 ^ 31 -> foldl count_step 0 form = n ->
  (exists ty ci fi X Y, eval_parse_tokens
      (mkContext (rules c) ZBX_EVAL_TOKEN_GROUP_OPEN (const_index c) (functionid_index c) (stack c)
        (o :: set_opt f (Z.of_nat (length (stack c))) :: ops c)) l =
      ok (mkContext (rules c) ty ci fi (stack c ++ X) (Y ++ o :: set_opt f (Z.of_nat (length (stack c))) :: ops c)) /\
    strip <$> (X ++ (if ty =? ZBX_EVAL_TOKEN_COMMA then [null_token] else []) ++ Y) = form /\
    Forall (fun y => has (ttype y) ZBX_EVAL_CLASS_FUNCTION = false /\ is_open y = false) Y /\
    (after_operand ty \/ ty = ZBX_EVAL_TOKEN_COMMA \/ ty = ZBX_EVAL_TOKEN_GROUP_OPEN)) ->
  parses c (f :: o :: l ++ [k]) (form ++ [set_opt f n]) 0.
Proof.
  intros Hf Ho Hk Hr Hc Hlen Hn Hcount (ty & ci & fi & X & Y & E & Hs & HY & Hty). unfold parses.
  assert (Hopen : is_open o = true) by (apply open_facts in Ho as [Ho' _]; unfold is_open; by rewrite Ho').
  assert (Hft : ttype f = ZBX_EVAL_TOKEN_FUNCTION).
  { unfold one_of in Hf. cbn in Hf. rewrite orb_false_r in Hf. by apply andb_true_iff in Hf as [Hf%Z.eqb_eq _]. }
  rewrite (parse_tokens_one _ _ _ _ (step_function c f Hf Hc)).
  erewrite parse_tokens_one; [|apply step_open; [done|reflexivity|reflexivity]].
  cbn [rules const_index functionid_index stack ops]. rewrite parse_tokens_app, E. cbn [ebind ok].
  set (c1 := mkContext _ ty _ _ _ _).
  pose proof (step_close_call c1 k Y (ops c) o f (Z.of_nat (length (stack c))) Hk Hr Hty eq_refl Hopen Hft HY ltac:(lia)) as Ek.
  cbn zeta in Ek. rewrite (parse_tokens_one _ _ _ _ Ek). cbn [c1 rules const_index functionid_index stack last_token_type].
  set (nl := if ty =? _ then _ else _ : list token) in *. rewrite <- !app_assoc, Nat2Z.id, drop_app_length.
  replace (count_params (X ++ nl ++ Y)) with n.
  2: { rewrite <- Hcount, <- Hs. exact (count_strip (X ++ nl ++ Y) 0). }
  rewrite u32_small by lia. eexists _, ci, fi, (X ++ nl ++ Y ++ [set_opt f n]), [].
  split; [done|]. rewrite app_nil_r. split_and!; try done.
  rewrite <- Hs, !fmap_app, <- !app_assoc. do 3 f_equal. cbn. unfold strip. cbn [set_opt ttype]. rewrite Hft. done.
Qed.

Lemma parse_all : (forall e, parse_goal e) /\ (forall a, parse_args_goal a).
Proof.
  apply expr_args_ind.
  - intros t c Ht Hr Hc _ _. cbn [well_formed infix postfix level] in *.
    destruct (step_operand c t Ht Hr Hc) as (t' & ci & fi & E & Hs & Hty). unfold parses.
    rewrite (parse_tokens_one _ _ _ _ E). eexists _, ci, fi, [t'], []. split; [done|]. split_and!; try done. by rewrite <- Hs.
  - exact parse_unary.
  - intros t l IHl r IHr. by apply parse_binary.
  - intros o k e IH. by apply parse_group.
  - intros f o k c Hwf Hr Hc Hb Hlen. cbn [well_formed infix postfix level length] in *. rewrite !andb_true_iff in Hwf.
    destruct Hwf as [[Hf Ho] Hk]. apply (parse_call_frame c f o k [] [] 0); try done; [lia|].
    eexists _, _, _, [], []. split; [by rewrite app_nil_r|]. split_and!; try done. by right; right.
  - intros f o k a IH c Hwf Hr Hc Hb Hlen. cbn [well_formed infix postfix level] in *. rewrite !andb_true_iff in Hwf.
    destruct Hwf as [[[Hf Ho] Hk] Ha]. assert (Hwa : well_formed_args a = true) by (by destruct a).
    cbn in Hlen. rewrite length_app in Hlen. cbn in Hlen. pose proof (args_num_bounds a) as Hn.
    apply (parse_call_frame c f o k (infix_args a) (postfix_args a) (args_num a)); try done; [lia|lia| |].
    { rewrite (proj2 count_postfix a 0 Hwa) by lia. lia. }
    set (c1 := mkContext _ _ _ _ _ _).
    assert (Hopen : is_open o = true) by (apply open_facts in Ho as [Ho' _]; unfold is_open; by rewrite Ho').
    destruct (IH c1 o (set_opt f (Z.of_nat (length (stack c))) :: ops c)) as (ty & ci & fi & X & Y & E & Hs & HY & Hty); try done.
    { right. split; [done|]. intros ->. done. }
    { cbn [c1 stack]. lia. }
    exists ty, ci, fi, X, Y. split_and!; try done. by destruct Hty; [left|right; left].
  - intros e IH c o L Hwf Hr Hops Ho Hl Hlen. cbn [well_formed_args infix_args postfix_args] in *.
    destruct (IH c Hwf Hr) as (ty & ci & fi & X & Y & E & Hs & HY & Hty).
    + apply separator_ready. by destruct Hl as [?|[? _]]; [left|right].
    + rewrite Hops. split; [by left|by apply open_not_function].
    + lia.
    + rewrite Hops in E. exists ty, ci, fi, X, Y. split; [done|]. replace (ty =? ZBX_EVAL_TOKEN_COMMA) with false by (symmetry; apply Hty).
      split_and!; try done; [by apply (operator_le_plain (level e))|by left].
  - intros c o L _ Hr Hops Ho Hl _. destruct Hl as [Hl|[_ ?]]; [|done]. cbn [infix_args postfix_args].
    exists ZBX_EVAL_TOKEN_COMMA, (const_index c), (functionid_index c), [], []. split.
    { cbn. rewrite app_nil_r, <- Hl, <- Hops. by destruct c. }
    split_and!; try done. by right.
  - intros e IHe k a IHa c o L Hwf Hr Hops Ho Hl Hlen. cbn [well_formed_args infix_args postfix_args] in *.
    rewrite !andb_true_iff in Hwf. destruct Hwf as [[Hk Hwe] Hwa]. rewrite length_app in Hlen. cbn in Hlen.
    destruct (IHe c Hwe Hr) as (ty & ci & fi & X & Y & E & Hs & HY & Hty).
    { apply separator_ready. by destruct Hl as [?|[? _]]; [left|right]. }
    { rewrite Hops. split; [by left|by apply open_not_function]. }
    { lia. }
    unfold parses_args. cbn [infix_args postfix_args]. rewrite parse_tokens_app, E. cbn [ebind ok]. rewrite Hops. set (c1 := mkContext _ ty _ _ _ _).
    pose proof (step_comma c1 k Y L o Hk Hr ltac:(cbn; by rewrite (proj1 Hty)) eq_refl Ho (operator_le_plain _ _ HY)) as Ek.
    rewrite (parse_tokens_one _ _ _ _ Ek). cbn [c1 rules const_index functionid_index stack last_token_type].
    unfold pending_null. replace (has ty ZBX_EVAL_CLASS_SEPARATOR) with false by (symmetry; apply Hty). rewrite app_nil_r.
    assert (Hlen1 : (length (X ++ Y) <= length (infix e))%nat).
    { rewrite <- (length_fmap strip), Hs. apply postfix_length. }
    set (c2 := mkContext _ _ _ _ _ _).
    destruct (IHa c2 o L) as (ty2 & ci2 & fi2 & X2 & Y2 & E2 & Hs2 & HY2 & Hty2); try done; [by left| |].
    { cbn [c2 stack]. rewrite !length_app in *. lia. }
    rewrite E2. exists ty2, ci2, fi2, (X ++ Y ++ X2), Y2. cbn [c2 stack rules]. split; [by rewrite <- !app_assoc|].
    split_and!; try done. rewrite <- Hs, <- Hs2, !fmap_app, <- !app_assoc. done.
  - intros k a IH c o L Hwf Hr Hops Ho Hl Hlen. cbn [well_formed_args infix_args postfix_args] in *.
    rewrite !andb_true_iff in Hwf. destruct Hwf as [Hk Hwa]. cbn in Hlen. unfold parses_args. cbn [infix_args postfix_args].
    assert (Hsep : has (last_token_type c) ZBX_EVAL_CLASS_SEPARATOR = true) by (by destruct Hl as [-> | [-> _]]).
    pose proof (step_comma c k [] L o Hk Hr ltac:(by rewrite Hsep, orb_true_r) Hops Ho ltac:(by constructor)) as Ek.
    rewrite (parse_tokens_one _ _ _ _ Ek). unfold pending_null. rewrite Hsep, app_nil_r. set (c2 := mkContext _ _ _ _ _ _).
    destruct (IH c2 o L) as (ty2 & ci2 & fi2 & X2 & Y2 & E2 & Hs2 & HY2 & Hty2); try done; [by left| |].
    { cbn [c2 stack]. rewrite length_app. cbn. lia. }
    rewrite E2. exists ty2, ci2, fi2, (null_token :: X2), Y2. cbn [c2 stack rules]. split; [by rewrite <- app_assoc|].
    split_and!; try done. cbn. by rewrite <- Hs2.
Qed.

Lemma unwind_rest_moves (Y : list token) (c : context) :
  plain_rules c -> Forall (fun y => has (ttype y) ZBX_EVAL_CLASS_FUNCTION = false /\ is_open y = false) Y ->
  unwind_rest c Y = ok (set_ops (set_stack c (stack c ++ Y)) []).
Proof.
  revert c. induction Y as [|y Y IH]; intros c Hr HY; cbn [unwind_rest]; [by rewrite app_nil_r; destruct c|].
  apply Forall_cons_1 in HY as [[Hy Hs] HY]. rewrite Hs, append_plain by done. cbn [ebind ok].
  rewrite IH by done. cbn. by rewrite <- app_assoc.
Qed.

(** The end of the input after an operand. *)
Lemma parse_finish (c : context) (Y : list token) :
  plain_rules c -> after_operand (last_token_type c) -> ops c = Y -> stack c ++ Y <> [] ->
  Forall (fun y => has (ttype y) ZBX_EVAL_CLASS_FUNCTION = false /\ is_open y = false) Y ->
  eval_parse_finish c = ok (set_ops (set_stack c (stack c ++ Y)) []).
Proof.
  intros Hr (_ & H1 & _ & H2 & _) Hops Hne HY. unfold eval_parse_finish. rewrite H1, H2, Hops, unwind_rest_moves by done.
  cbn [ebind ok set_ops set_stack stack rules]. unfold plain_rules in Hr. destruct (stack c ++ Y) as [|t [|]]; [done| |done].
  by rewrite Hr.
Qed.

Lemma postfix_not_empty (e : expr) : postfix e <> [].
Proof. induction e; cbn; try done; by repeat match goal with |- ?a ++ ?b <> [] => destruct a; [|done]; cbn [app] end. Qed.

Lemma parse_infix (rules0 : Z) (e : expr) :
  has rules0 ZBX_EVAL_PARSE_PROPERTY = false -> well_formed e = true -> Z.of_nat (length (infix e)) < 2 ^ 31 - 1 ->
  exists ty ci fi X Y, eval_parse_tokens (eval_init rules0) (infix e) = ok (mkContext rules0 ty ci fi X Y) /\
    strip <$> (X ++ Y) = postfix e /\ Forall (operator_le (level e)) Y /\ after_operand ty.
Proof.
  intros Hr Hwf Hlen. destruct (proj1 parse_all e (eval_init rules0)) as (ty & ci & fi & X & Y & E & H); try done.
  exists ty, ci, fi, X, Y. cbn in E. by rewrite app_nil_r in E.
Qed.

Lemma parse_postfix (rules0 : Z) (e : expr) :
  has rules0 ZBX_EVAL_PARSE_PROPERTY = false -> well_formed e = true -> Z.of_nat (length (infix e)) < 2 ^ 31 - 1 ->
  exists c, eval_parse_expression rules0 (infix e) = ok c /\ strip <$> stack c = postfix e /\ ops c = [].
Proof.
  intros Hr Hwf Hlen. destruct (parse_infix rules0 e Hr Hwf Hlen) as (ty & ci & fi & X & Y & E & Hs & HY & Hty).
  unfold eval_parse_expression. rewrite E. cbn [ebind ok]. rewrite (parse_finish _ Y); try done.
  - eexists. split; [reflexivity|]. by split.
  - cbn [stack]. intros E0. rewrite E0 in Hs. by apply (postfix_not_empty e).
  - by apply (operator_le_plain (level e)).
Qed.

(** C35: for the tokens of an expression written with no more parentheses than
    the priorities of the operators require, the parser of zbxeval produces the
    tokens in postfix order, each function with the number of its arguments and
    missing arguments replaced by null tokens. *)
Theorem parse_infix_postfix (rules0 : Z) (e : expr) :
  has rules0 ZBX_EVAL_PARSE_PROPERTY = false -> well_formed e = true -> Z.of_nat (length (infix e)) < 2 ^ 31 - 1 ->
  exists c, eval_parse_expression rules0 (infix e) = ok c /\ strip <$> stack c = postfix e /\ ops c = [].
Proof. apply parse_postfix. Qed.

(* ------------------------------------------------------------------ *)
(** ** Examples *)

Definition at_pos (ty p : Z) : token := mkToken ty 0 p p.
Definition num (p : Z) : token := at_pos ZBX_EVAL_TOKEN_VAR_NUM p.
Definition str (p : Z) : token := at_pos ZBX_EVAL_TOKEN_VAR_STR p.
Definition plus (p : Z) : token := at_pos ZBX_EVAL_TOKEN_OP_ADD p.
Definition paren_open (p : Z) : token := at_pos ZBX_EVAL_TOKEN_GROUP_OPEN p.
Definition paren_close (p : Z) : token := at_pos ZBX_EVAL_TOKEN_GROUP_CLOSE p.

(** max(1,,2)+-3*4 *)
Definition sample : expr :=
  Binary (plus 9)
    (Call (at_pos ZBX_EVAL_TOKEN_FUNCTION 0) (paren_open 3) (paren_close 8)
      (Arg (Operand (num 4)) (at_pos ZBX_EVAL_TOKEN_COMMA 5)
        (ArgNull (at_pos ZBX_EVAL_TOKEN_COMMA 6) (Last (Operand (num 7))))))
    (Binary (at_pos ZBX_EVAL_TOKEN_OP_MUL 12) (Unary (at_pos ZBX_EVAL_TOKEN_OP_MINUS 10) (Operand (num 11))) (Operand (num 13))).

Lemma parse_infix_postfix_witness :
  length (infix sample) = 12%nat /\
  exists c, eval_parse_expression 0 (infix sample) = ok c /\ strip <$> stack c = postfix sample /\ ops c = [].
Proof. split; [reflexivity|]. apply (parse_infix_postfix 0 sample); vm_compute; reflexivity. Defined.

Definition types (r : E context) : option (list Z) :=
  match r with Ret (inr c) => Some (ttype <$> stack c) | _ => None end.

(** 1+2) is accepted as 1+2: the loop that looks for the left parenthesis does
    not report a missing one once it moved an operator. *)
Example unmatched_close_accepted :
  types (eval_parse_expression 0 [num 0; plus 1; num 2; paren_close 3]) = types (eval_parse_expression 0 [num 0; plus 1; num 2]).
Proof. reflexivity. Qed.

(** 1+2,3 is accepted outside a function, for the same reason. *)
Example stray_comma_accepted :
  types (eval_parse_expression 0 [num 0; plus 1; num 2; at_pos ZBX_EVAL_TOKEN_COMMA 3; num 4]) =
  Some [ZBX_EVAL_TOKEN_VAR_NUM; ZBX_EVAL_TOKEN_VAR_NUM; ZBX_EVAL_TOKEN_OP_ADD; ZBX_EVAL_TOKEN_VAR_NUM].
Proof. reflexivity. Qed.

(** The item filter () and <string> reads the element before the first of the
    stack. *)
Example empty_group_out_of_bounds :
  eval_parse_expression ZBX_EVAL_PARSE_PROPERTY [paren_open 0; paren_close 1; at_pos ZBX_EVAL_TOKEN_OP_AND 3; str 7] = Undef.
Proof. reflexivity. Qed.
