(* ===== verification/Variant.v ===== *)
(** Values of zbxvariant (src/src/libs/zbxvariant/variant.c): their types,
    conversion to double and their order.  Doubles are IEEE 754 binary64 numbers
    computed by SpecFloat.  strtod and the printing of doubles belong to the C
    library and the printer of zbxnum; they are parameters. *)

From stdpp Require Import base list numbers.
From Stdlib Require Import ZArith Lia SpecFloat.
From S2P Require Import Prelude Num.

Open Scope Z_scope.

(* ------------------------------------------------------------------ *)
(** ** Doubles *)

Definition prec : Z := 53.
Definition emax : Z := 1024.

Definition dbl_add : spec_float -> spec_float -> spec_float := SFadd prec emax.
Definition dbl_sub : spec_float -> spec_float -> spec_float := SFsub prec emax.
Definition dbl_mul : spec_float -> spec_float -> spec_float := SFmul prec emax.
Definition dbl_div : spec_float -> spec_float -> spec_float := SFdiv prec emax.
Definition dbl_of_Z (n : Z) : spec_float := binary_normalize prec emax n 0 false.

(** FP_ZERO or FP_NORMAL of fpclassify. *)
Definition dbl_is_normal (d : spec_float) : bool :=
  match d with
  | S754_zero _ => true
  | S754_finite _ m _ => Z.eqb (Zpos (digits2_pos m)) prec
  | _ => false
  end.

(** 2.22e-16 *)
Definition ZBX_DOUBLE_EPSILON : spec_float := S754_finite false 9005389864021342 (-105).

Definition zbx_double_compare (a b : spec_float) : bool := SFleb (SFabs (dbl_sub a b)) ZBX_DOUBLE_EPSILON.

(* ------------------------------------------------------------------ *)
(** ** Variants *)

(** Strings and errors without their terminator; the data of a binary value
    without its size. *)
Inductive variant : Type :=
| VNone | VStr (s : list Z) | VDbl (d : spec_float) | VUi64 (n : Z) | VBin (data : list Z)
| VErr (msg : list Z) | VVector (l : list variant).

Definition MAX_STRING_LEN : nat := 2048.

(** strlcpy keeps MAX_STRING_LEN - 1 characters; rtrim removes line ends. *)
Fixpoint drop_line_ends (s : list Z) : list Z :=
  match s with
  | c :: s' => if (c =? 10) || (c =? 13) then drop_line_ends s' else s
  | [] => []
  end.
Definition rtrim_line_ends (s : list Z) : list Z := reverse (drop_line_ends (reverse s)).

(** strcmp and memcmp of strings of equal length: the sign of the result. *)
Fixpoint strcmp (s1 s2 : list Z) : Z :=
  match s1, s2 with
  | [], [] => 0
  | [], _ :: _ => -1
  | _ :: _, [] => 1
  | a :: s1, b :: s2 => if a <? b then -1 else if b <? a then 1 else strcmp s1 s2
  end.

Definition compare_Z (a b : Z) : Z := if a <? b then -1 else if b <? a then 1 else 0.

Section Variant.
(** strtod on a string whose syntax was checked, printing of a double as
    zbx_print_double and zbx_del_zeros leave it, and the description of binary
    values and vectors. *)
Context (strtod : list Z -> spec_float) (print_double : spec_float -> list Z) (print_other : variant -> list Z)
  (print_ui64 : Z -> list Z).

Definition zbx_is_double (s : list Z) : res (option spec_float) :=
  valid ← is_double_valid_syntax s;
  if valid : bool then Ret (match strtod s with S754_infinity _ => None | d => Some d end) else Ret None.

(** [None] is FAIL. *)
Definition variant_to_dbl (v : variant) : res (option spec_float) :=
  match v with
  | VDbl d => Ret (Some d)
  | VUi64 n => Ret (Some (dbl_of_Z n))
  | VStr s => zbx_is_double (zbx_trim_float (rtrim_line_ends (take (MAX_STRING_LEN - 1) s)))
  | _ => Ret None
  end.

Definition zbx_variant_value_desc (v : variant) : list Z :=
  match v with
  | VDbl d => print_double d
  | VUi64 n => print_ui64 n
  | VStr s => s
  | VNone => []
  | VErr msg => msg
  | VBin _ | VVector _ => print_other v
  end.

Definition variant_compare_empty (v1 v2 : variant) : Z :=
  match v1 with
  | VNone => match v2 with VNone => 0 | _ => -1 end
  | _ => 1
  end.

Definition variant_compare_bin (v1 v2 : variant) : Z :=
  match v1 with
  | VBin d1 =>
      match v2 with
      | VBin d2 =>
          let c := compare_Z (Z.of_nat (length d1)) (Z.of_nat (length d2)) in
          if c =? 0 then strcmp d1 d2 else c
      | _ => 1
      end
  | _ => -1
  end.

Definition variant_compare_error (v1 v2 : variant) : Z :=
  match v1 with
  | VErr m1 => match v2 with VErr m2 => strcmp m1 m2 | _ => 1 end
  | _ => -1
  end.

Definition variant_compare_str (v1 v2 : variant) : res Z :=
  match v1, v2 with
  | VStr s1, _ => Ret (strcmp s1 (zbx_variant_value_desc v2))
  | _, VStr s2 => Ret (strcmp (zbx_variant_value_desc v1) s2)
  | _, _ => Undef
  end.

(** The double of an operand; other types end the process. *)
Definition dbl_operand (v : variant) : res spec_float :=
  match v with
  | VDbl d => Ret d
  | VUi64 n => Ret (dbl_of_Z n)
  | VStr s => Ret (strtod s)
  | _ => Exit
  end.

Definition variant_compare_dbl (v1 v2 : variant) : res Z :=
  d1 ← dbl_operand v1;
  d2 ← dbl_operand v2;
  Ret (if zbx_double_compare d1 d2 then 0 else if SFltb d1 d2 then -1 else if SFltb d2 d1 then 1 else 0).

(** A variant that can take part in a comparison of doubles. *)
Definition double_like (v : variant) : res bool :=
  match v with
  | VStr s => d ← zbx_is_double s; Ret (match d with Some _ => true | None => false end)
  | _ => Ret true
  end.

(** Numbers and strings: as doubles when both can be, else as strings. *)
Definition compare_scalars (v1 v2 : variant) : res Z :=
  b1 ← double_like v1;
  b2 ← (if b1 : bool then double_like v2 else Ret false);
  if b2 : bool then variant_compare_dbl v1 v2 else variant_compare_str v1 v2.

Fixpoint zbx_variant_compare (v1 v2 : variant) : res Z :=
  match v1, v2 with
  | VNone, _ | _, VNone => Ret (variant_compare_empty v1 v2)
  | VErr _, _ | _, VErr _ => Ret (variant_compare_error v1 v2)
  | VBin _, _ | _, VBin _ => Ret (variant_compare_bin v1 v2)
  | VVector l1, VVector l2 =>
      if compare_Z (Z.of_nat (length l1)) (Z.of_nat (length l2)) =? 0 then
        (fix loop (l1 l2 : list variant) : res Z :=
           match l1, l2 with
           | a :: l1, b :: l2 =>
               ret ← zbx_variant_compare a b;
               if ret =? 0 then loop l1 l2 else Ret ret
           | _, _ => Ret 0
           end) l1 l2
      else Ret (compare_Z (Z.of_nat (length l1)) (Z.of_nat (length l2)))
  | VVector _, _ => Ret 1
  | _, VVector _ => Ret (-1)
  | VUi64 n1, VUi64 n2 => Ret (compare_Z n1 n2)
  | _, _ => compare_scalars v1 v2
  end.

(* ------------------------------------------------------------------ *)
(** ** The order *)

Lemma strcmp_sign (s1 s2 : list Z) : strcmp s2 s1 = - strcmp s1 s2 /\ (strcmp s1 s2 = -1 \/ strcmp s1 s2 = 0 \/ strcmp s1 s2 = 1).
Proof.
  revert s2. induction s1 as [|a s1 IH]; intros [|b s2]; cbn; try lia.
  destruct (Z.ltb_spec a b), (Z.ltb_spec b a); try lia. apply IH.
Qed.

Lemma compare_Z_sign (a b : Z) : compare_Z b a = - compare_Z a b /\ (compare_Z a b = -1 \/ compare_Z a b = 0 \/ compare_Z a b = 1).
Proof. unfold compare_Z. destruct (Z.ltb_spec a b), (Z.ltb_spec b a); lia. Qed.

Lemma abs_round (s : bool) (m : Z) (e : Z) (l : location) :
  SFabs (binary_round_aux prec emax s m e l) = SFabs (binary_round_aux prec emax (negb s) m e l).
Proof.
  unfold binary_round_aux. destruct (shr_fexp _ _ _ _ _) as [m1 e1]. destruct (shr_fexp _ _ _ _ _) as [m2 e2].
  destruct (shr_m m2); [done| |done]. by destruct (_ <=? _).
Qed.

Lemma abs_normalize (m e : Z) : SFabs (binary_normalize prec emax m e false) = SFabs (binary_normalize prec emax (- m) e false).
Proof.
  destruct m as [|m|m]; [done|..]; change (- Zpos m) with (Zneg m) || change (- Zneg m) with (Zpos m);
    unfold binary_normalize, binary_round; destruct (shl_align _ _ _); apply abs_round.
Qed.

(** The distance of two doubles is symmetric. *)
Lemma abs_sub_sym (a b : spec_float) : SFabs (dbl_sub a b) = SFabs (dbl_sub b a).
Proof.
  unfold dbl_sub. destruct a as [[]|[]| |[] m e], b as [[]|[]| |[] m' e']; try done; unfold SFsub;
    rewrite abs_normalize, (Z.min_comm e' e); do 3 f_equal; lia.
Qed.

Lemma double_compare_sym (a b : spec_float) : zbx_double_compare a b = zbx_double_compare b a.
Proof. unfold zbx_double_compare. by rewrite abs_sub_sym. Qed.

Lemma ltb_asym (a b : spec_float) : SFltb a b = true -> SFltb b a = false.
Proof.
  unfold SFltb. destruct a as [[]|[]| |[] m e], b as [[]|[]| |[] m' e']; try done; cbn;
    rewrite (Z.compare_antisym e' e); destruct (e' ?= e)%Z; cbn; try done;
    change (Pos.compare_cont Eq m m') with (m ?= m')%positive; change (Pos.compare_cont Eq m' m) with (m' ?= m)%positive;
    rewrite (Pos.compare_antisym m m'); by destruct (m ?= m')%positive.
Qed.

Definition sign (r : Z) : Prop := r = -1 \/ r = 0 \/ r = 1.

Definition opposite (x y : res Z) : Prop := exists r, x = Ret r /\ y = Ret (- r) /\ sign r.

(** The strings of a C value have no NUL. *)
Definition good_string (s : list Z) : Prop := Forall (fun c => c <> 0) s.

Fixpoint good (v : variant) : Prop :=
  match v with
  | VStr s => good_string s
  | VVector l => (fix all l := match l with [] => True | v :: l => good v /\ all l end) l
  | _ => True
  end.

Lemma valid_syntax_total (s : list Z) : good_string s -> exists b, is_double_valid_syntax s = Ret b.
Proof.
  intros Hs. unfold is_double_valid_syntax. set (s' := if (_ : bool) then tail s else s).
  assert (Hs' : good_string s') by (unfold s'; destruct (_ || _); [destruct Hs; [constructor|done]|done]).
  destruct (number_parse_whole s' Hs') as (r & E & _). rewrite E. run. eauto.
Qed.

Lemma double_like_total (v : variant) : good v -> exists b, double_like v = Ret b.
Proof.
  destruct v; cbn [double_like good]; eauto. intros [b E]%valid_syntax_total. unfold zbx_is_double. rewrite E. run.
  destruct b; run; eauto.
Qed.

Lemma compare_dbl_opposite (v1 v2 : variant) (d1 d2 : spec_float) :
  dbl_operand v1 = Ret d1 -> dbl_operand v2 = Ret d2 -> opposite (variant_compare_dbl v1 v2) (variant_compare_dbl v2 v1).
Proof.
  intros E1 E2. unfold variant_compare_dbl, opposite, sign. rewrite E1, E2. cbn. rewrite (double_compare_sym d2 d1).
  destruct (zbx_double_compare d1 d2); [eauto 10|]. destruct (SFltb d1 d2) eqn:L.
  - rewrite (ltb_asym d1 d2 L). eauto 10.
  - destruct (SFltb d2 d1); eauto 10.
Qed.

Lemma desc_opposite (v1 v2 : variant) :
  (exists s, v1 = VStr s) \/ (exists s, v2 = VStr s) -> opposite (variant_compare_str v1 v2) (variant_compare_str v2 v1).
Proof.
  unfold opposite, sign, variant_compare_str. intros H.
  assert (Hs : forall a b, exists r, Ret (strcmp a b) = Ret r /\ Ret (strcmp b a) = Ret (- r) /\ (r = -1 \/ r = 0 \/ r = 1)).
  { intros a b. exists (strcmp a b). destruct (strcmp_sign a b) as [-> ?]. done. }
  destruct v1, v2; cbn [zbx_variant_value_desc]; try apply Hs; exfalso; destruct H as [[? [=]]|[? [=]]].
Qed.

(** Numbers and strings. *)
Definition scalar (v : variant) : Prop := match v with VStr _ | VDbl _ | VUi64 _ => True | _ => False end.

Lemma scalar_opposite (v1 v2 : variant) :
  scalar v1 -> scalar v2 -> good v1 -> good v2 ->
  opposite (compare_scalars v1 v2) (compare_scalars v2 v1).
Proof.
  intros S1 S2 H1 H2. unfold compare_scalars. destruct (double_like_total v1 H1) as [b1 E1], (double_like_total v2 H2) as [b2 E2].
  rewrite E1, E2. run.
  assert (Hstr : b1 && b2 = false -> opposite (variant_compare_str v1 v2) (variant_compare_str v2 v1)).
  { intros Hb. apply desc_opposite. destruct v1, v2; try done; cbn in E1, E2; eauto; inv_res; done. }
  assert (Hd : forall v, scalar v -> exists d, dbl_operand v = Ret d) by (intros []; cbn; eauto; done).
  destruct (Hd v1 S1) as [d1 D1], (Hd v2 S2) as [d2 D2].
  destruct b1, b2; rewrite ?E1, ?E2; run; try (by apply Hstr). by apply (compare_dbl_opposite v1 v2 d1 d2).
Qed.

(** The loop over two vectors of the same length. *)
Fixpoint compare_vectors (l1 l2 : list variant) : res Z :=
  match l1, l2 with
  | a :: l1, b :: l2 => ret ← zbx_variant_compare a b; if ret =? 0 then compare_vectors l1 l2 else Ret ret
  | _, _ => Ret 0
  end.

Lemma compare_vector_unfold (l1 l2 : list variant) :
  zbx_variant_compare (VVector l1) (VVector l2) =
  if compare_Z (Z.of_nat (length l1)) (Z.of_nat (length l2)) =? 0 then compare_vectors l1 l2
  else Ret (compare_Z (Z.of_nat (length l1)) (Z.of_nat (length l2))).
Proof.
  reflexivity.
Qed.

Lemma bin_opposite (d1 d2 : list Z) :
  opposite (Ret (variant_compare_bin (VBin d1) (VBin d2))) (Ret (variant_compare_bin (VBin d2) (VBin d1))).
Proof.
  cbn. set (c := compare_Z (Z.of_nat (length d1)) _). destruct (compare_Z_sign (Z.of_nat (length d1)) (Z.of_nat (length d2))) as [E H].
  rewrite E. fold c in H |- *. destruct (strcmp_sign d1 d2) as [E' H'].
  destruct (Z.eqb_spec c 0) as [-> | Hne]; cbn; [rewrite E'; by eexists|].
  destruct (Z.eqb_spec (- c) 0); [lia|]. by eexists.
Qed.

(** Induction that reaches the elements of vectors. *)
Lemma variant_nested_ind (P : variant -> Prop) :
  (forall v, match v with VVector _ => False | _ => True end -> P v) ->
  (forall l, Forall P l -> P (VVector l)) -> forall v, P v.
Proof.
  intros Hbase Hvec. fix IH 1. intros v. destruct v as [| | | | | |l]; try by apply Hbase.
  apply Hvec. induction l as [|a l IHl]; constructor; [apply IH|exact IHl].
Qed.

Lemma compare_vectors_opposite (l1 : list variant) :
  Forall (fun a => forall b, good a -> good b -> opposite (zbx_variant_compare a b) (zbx_variant_compare b a)) l1 ->
  forall l2, good (VVector l1) -> good (VVector l2) -> opposite (compare_vectors l1 l2) (compare_vectors l2 l1).
Proof.
  induction 1 as [|a l1 Ha _ IH]; intros [|b l2] H1 H2; try (exists 0; cbn; by unfold sign; auto).
  cbn in H1, H2. destruct H1 as [Ga G1], H2 as [Gb G2]. destruct (Ha b Ga Gb) as (r & E & E' & Hr).
  cbn [compare_vectors]. rewrite E, E'. run. destruct (Z.eqb_spec r 0) as [-> | Hne]; [by apply IH|].
  replace (- r =? 0) with false by lia. by exists r.
Qed.

Lemma variant_compare_opposite (v1 v2 : variant) :
  good v1 -> good v2 -> opposite (zbx_variant_compare v1 v2) (zbx_variant_compare v2 v1).
Proof.
  revert v2. induction v1 as [v1 Hb|l1 IH] using variant_nested_ind; intros v2 H1 H2.
  - assert (Hc : forall r, sign r -> opposite (Ret r) (Ret (- r))) by (intros r Hr; by exists r).
    assert (Hone : opposite (Ret 1) (Ret (-1)) /\ opposite (Ret (-1)) (Ret 1) /\ opposite (Ret 0) (Ret 0)).
    { unfold sign in Hc. split_and!; [apply (Hc 1)|apply (Hc (-1))|apply (Hc 0)]; lia. }
    assert (Hs : scalar v1 -> scalar v2 -> opposite (compare_scalars v1 v2) (compare_scalars v2 v1)) by (intros; by apply scalar_opposite).
    destruct v1, v2; try done; cbn [zbx_variant_compare variant_compare_empty variant_compare_error]; try apply Hone; try (by apply Hs).
    + destruct (compare_Z_sign n n0) as [-> ?]. by apply Hc.
    + apply bin_opposite.
    + destruct (strcmp_sign msg msg0) as [-> ?]. by apply Hc.
  - assert (Hone : opposite (Ret 1) (Ret (-1)) /\ opposite (Ret (-1)) (Ret 1)).
    { split; [exists 1|exists (-1)]; unfold sign; auto. }
    destruct v2 as [| | | | | |l2]; [cbn; apply Hone..|].
    rewrite !compare_vector_unfold.
    destruct (compare_Z_sign (Z.of_nat (length l1)) (Z.of_nat (length l2))) as [E Hs]. rewrite E.
    destruct (Z.eqb_spec (compare_Z (Z.of_nat (length l1)) (Z.of_nat (length l2))) 0) as [E0 | Hne].
    + rewrite E0. cbn. by apply compare_vectors_opposite.
    + destruct (Z.eqb_spec (- compare_Z (Z.of_nat (length l1)) (Z.of_nat (length l2))) 0); [lia|]. by eexists.
Qed.

(** comparing two values, whatever their types, never ends the process or
    reads a string of another type, its result is -1, 0 or 1, and comparing
    them in the other order gives the opposite result. *)
Theorem compare_antisymmetric (v1 v2 : variant) :
  good v1 -> good v2 ->
  exists r, zbx_variant_compare v1 v2 = Ret r /\ zbx_variant_compare v2 v1 = Ret (- r) /\ (r = -1 \/ r = 0 \/ r = 1).
Proof. intros H1 H2. exact (variant_compare_opposite v1 v2 H1 H2). Qed.
End Variant.

(** The C functions that are parameters, on a small domain: digits, and no
    printing. *)
Definition digits_strtod (s : list Z) : spec_float := dbl_of_Z (digits_value 10 (dec_digits s)).

Lemma compare_antisymmetric_witness :
  good (VStr [49; 48]) /\
  exists r, zbx_variant_compare digits_strtod (fun _ => []) (fun _ => []) (fun _ => []) (VStr [49; 48]) (VUi64 9) = Ret r /\
    zbx_variant_compare digits_strtod (fun _ => []) (fun _ => []) (fun _ => []) (VUi64 9) (VStr [49; 48]) = Ret (- r) /\
    (r = -1 \/ r = 0 \/ r = 1).
Proof.
  assert (H : good (VStr [49; 48])) by (repeat constructor; lia). split; [exact H|].
  apply (compare_antisymmetric digits_strtod (fun _ => []) (fun _ => []) (fun _ => []) (VStr [49; 48]) (VUi64 9) H I).
Defined.
