(* ===== verification/EvalExec.v ===== *)
(** Evaluation of parsed expressions (src/src/libs/zbxeval/execute.c): a stack
    machine over the postfix tokens.  [expression] is the text the tokens refer
    to; [values] has the variants that macro resolvers and the trigger cache put
    into tokens between parsing and execution, by the position of the token.
    The built-in functions are a parameter: what each makes of its arguments. *)

From stdpp Require Import base list numbers.
From Stdlib Require Import ZArith Lia SpecFloat.
From S2P Require Import Prelude Num Variant EvalParse EvalSyntax.

Open Scope Z_scope.

(** ZBX_EVAL_PROCESS_ERROR *)
Definition ZBX_EVAL_PROCESS_ERROR : Z := 4294967296.

(** The messages, with the position they mention. *)
Inductive exec_error : Type :=
| unary_needs_operand (pos : Z) | unary_not_numeric (pos : Z) | unary_unknown (pos : Z) | not_a_number (pos : Z)
| binary_needs_operands (pos : Z) | vector_compared (pos : Z) | left_not_numeric (pos : Z) | right_not_numeric (pos : Z)
| division_by_zero (pos : Z) | not_enough_arguments (pos : Z) | unknown_function (pos : Z) | not_precalculated
| unknown_token (pos : Z) | exception_without_argument | exception_of_other_type | exception (msg : list Z) | message (msg : list Z)
| output_not_one_value.

Notation X A := (res (exec_error + A)).

Definition dbl_0 : spec_float := S754_zero false.
Definition dbl_1 : spec_float := dbl_of_Z 1.

(** "KMGTsmhdw" *)
Definition ZBX_UNIT_SYMBOLS : list Z := [75; 77; 71; 84; 115; 109; 104; 100; 119].

Definition zbx_suffixed_number_parse (number : list Z) : res (option nat) :=
  r ← zbx_number_parse number;
  Ret (match r with
       | None => None
       | Some len => Some (if existsb (Z.eqb (chr number len)) ZBX_UNIT_SYMBOLS then S len else len)
       end).

(** [Some suffix] is SUCCEED. *)
Definition eval_suffixed_number_parse (value : list Z) : res (option Z) :=
  let value := if hd0 value =? 45 then tail value else value in
  r ← zbx_suffixed_number_parse value;
  Ret (match r with
       | Some num_len => if (num_len =? length value)%nat then Some (chr value (length value - 1)) else None
       | None => None
       end).

(** Quoted strings: a backslash is dropped and keeps the next character. [n]
    characters are left before the closing quote. *)
Fixpoint unescape (s : list Z) (n : nat) : list Z :=
  match s with
  | [] => []
  | c :: s =>
      match n with
      | O => []
      | S n =>
          if c =? 92 then match s with c' :: s => c' :: unescape s (n - 1) | [] => [0] end
          else c :: unescape s n
      end
  end.

Section Exec.
Context (strtod : list Z -> spec_float) (print_double : spec_float -> list Z) (print_other : variant -> list Z)
  (print_ui64 : Z -> list Z).
Context (expression : list Z) (rules0 : Z) (values : Z -> variant).
(** The callbacks get the name and the arguments; [inl] is FAIL with a message. *)
Context (builtin : list Z -> option (token -> list variant -> X variant))
  (common_cb history_cb : option (list Z -> list variant -> list Z + variant))
  (error_at : list Z -> Z -> list Z).

Definition variant_convert_suffixed_num (v : variant) : res (option spec_float) :=
  match v with
  | VStr s =>
      r ← eval_suffixed_number_parse s;
      Ret (match r with
           | Some suffix =>
               let result := dbl_mul (strtod s) (dbl_of_Z (suffix2factor suffix)) in
               if dbl_is_normal result then Some result else None
           | None => None
           end)
  | _ => Ret None
  end.

(** The output vector with its last value first. *)
Definition unary_value (t : token) (rhs : variant) : X variant :=
  match rhs with
  | VErr _ => ok rhs
  | _ =>
      d ← variant_to_dbl strtod rhs;
      match d with
      | None => fail (unary_not_numeric (loc_l t))
      | Some d =>
          let finish value := if dbl_is_normal value then ok (VDbl value) else fail (not_a_number (loc_l t)) in
          if ttype t =? ZBX_EVAL_TOKEN_OP_MINUS then finish (SFopp d)
          else if ttype t =? ZBX_EVAL_TOKEN_OP_NOT then finish (if zbx_double_compare d dbl_0 then dbl_1 else dbl_0)
          else fail (unary_unknown (loc_l t))
      end
  end.

Definition eval_execute_op_unary (t : token) (output : list variant) : X (list variant) :=
  match output with
  | [] => fail (unary_needs_operand (loc_l t))
  | rhs :: rest => let* v := unary_value t rhs in ok (v :: rest)
  end.

Definition is_and (t : token) : bool := ttype t =? ZBX_EVAL_TOKEN_OP_AND.
Definition is_or (t : token) : bool := ttype t =? ZBX_EVAL_TOKEN_OP_OR.

Definition eval_execute_op_logic_err (t : token) (value : variant) : res (option spec_float) :=
  match value with
  | VErr _ => Ret None
  | _ =>
      d ← variant_to_dbl strtod value;
      Ret (match d with
           | None => None
           | Some d =>
               if is_and t then if zbx_double_compare d dbl_0 then Some dbl_0 else None
               else if is_or t then if zbx_double_compare d dbl_0 then None else Some dbl_1
               else None
           end)
  end.

Definition eval_variant_compare (lhs rhs : variant) : res Z :=
  l ← variant_convert_suffixed_num lhs;
  r ← variant_convert_suffixed_num rhs;
  zbx_variant_compare strtod print_double print_other print_ui64
    (match l with Some d => VDbl d | None => lhs end) (match r with Some d => VDbl d | None => rhs end).

(** The operators after both operands became doubles. *)
Definition arithmetic_value (t : token) (l r : spec_float) : X variant :=
  let finish value := if dbl_is_normal value then ok (VDbl value) else fail (not_a_number (loc_l t)) in
  let compare (test : Z -> bool) :=
    c ← zbx_variant_compare strtod print_double print_other print_ui64 (VDbl l) (VDbl r);
    finish (if test c then dbl_1 else dbl_0) in
  if is_and t then
    ok (VDbl (if zbx_double_compare l dbl_0 || zbx_double_compare r dbl_0 then dbl_0 else dbl_1))
  else if is_or t then
    ok (VDbl (if negb (zbx_double_compare l dbl_0) || negb (zbx_double_compare r dbl_0) then dbl_1 else dbl_0))
  else if ttype t =? ZBX_EVAL_TOKEN_OP_LT then compare (fun c => c <? 0)
  else if ttype t =? ZBX_EVAL_TOKEN_OP_LE then compare (fun c => c <=? 0)
  else if ttype t =? ZBX_EVAL_TOKEN_OP_GT then compare (fun c => 0 <? c)
  else if ttype t =? ZBX_EVAL_TOKEN_OP_GE then compare (fun c => 0 <=? c)
  else if ttype t =? ZBX_EVAL_TOKEN_OP_ADD then finish (dbl_add l r)
  else if ttype t =? ZBX_EVAL_TOKEN_OP_SUB then finish (dbl_sub l r)
  else if ttype t =? ZBX_EVAL_TOKEN_OP_MUL then finish (dbl_mul l r)
  else if ttype t =? ZBX_EVAL_TOKEN_OP_DIV then
    if zbx_double_compare r dbl_0 then fail (division_by_zero (loc_l t)) else finish (dbl_div l r)
  else Undef.

Definition is_error (v : variant) : bool := match v with VErr _ => true | _ => false end.
Definition is_vector (v : variant) : bool := match v with VVector _ => true | _ => false end.

(** The value that replaces both operands. *)
Definition binary_value (t : token) (lhs rhs : variant) : X variant :=
  if is_error lhs then
    r ← (if is_and t || is_or t then eval_execute_op_logic_err t rhs else Ret None);
    match r with Some value => ok (VDbl value) | None => ok lhs end
  else if is_error rhs then
    r ← (if is_and t || is_or t then eval_execute_op_logic_err t lhs else Ret None);
    match r with Some value => ok (VDbl value) | None => ok rhs end
  else if (ttype t =? ZBX_EVAL_TOKEN_OP_EQ) || (ttype t =? ZBX_EVAL_TOKEN_OP_NE) then
    if is_vector lhs || is_vector rhs then fail (vector_compared (loc_l t)) else
    c ← eval_variant_compare lhs rhs;
    ok (VDbl (if Bool.eqb (c =? 0) (ttype t =? ZBX_EVAL_TOKEN_OP_EQ) then dbl_1 else dbl_0))
  else
    l ← variant_to_dbl strtod lhs;
    match l with
    | None => fail (left_not_numeric (loc_l t))
    | Some l =>
        r ← variant_to_dbl strtod rhs;
        match r with
        | None => fail (right_not_numeric (loc_l t))
        | Some r => arithmetic_value t l r
        end
    end.

Definition eval_execute_op_binary (t : token) (output : list variant) : X (list variant) :=
  match output with
  | rhs :: lhs :: rest => let* v := binary_value t lhs rhs in ok (v :: rest)
  | _ => fail (binary_needs_operands (loc_l t))
  end.

(** The text of a token. *)
Definition text_at (l : Z) : list Z := drop (Z.to_nat l) expression.
Definition token_text (t : token) : list Z := take (Z.to_nat (loc_r t - loc_l t + 1)) (text_at (loc_l t)).

Definition push_value (t : token) : X variant :=
  match values (loc_l t) with
  | VNone =>
      if ttype t =? ZBX_EVAL_TOKEN_VAR_NUM then
        match zbx_is_uint64_n (text_at (loc_l t)) (Z.to_nat (loc_r t - loc_l t + 1)) with
        | Some ui64 => ok (VUi64 ui64)
        | None => ok (VDbl (dbl_mul (strtod (text_at (loc_l t))) (dbl_of_Z (suffix2factor (chr expression (Z.to_nat (loc_r t)))))))
        end
      else if ttype t =? ZBX_EVAL_TOKEN_VAR_STR
      then ok (VStr (unescape (text_at (loc_l t + 1)) (Z.to_nat (loc_r t - loc_l t - 1))))
      else ok (VStr (token_text t))
  | VErr msg => if has rules0 ZBX_EVAL_PROCESS_ERROR then ok (VErr msg) else fail (message msg)
  | v =>
      if ttype t =? ZBX_EVAL_TOKEN_VAR_USERMACRO then
        d ← variant_convert_suffixed_num v;
        match d with Some d => ok (VDbl d) | None => ok v end
      else ok v
  end.

Definition eval_execute_push_value (t : token) (output : list variant) : X (list variant) :=
  let* v := push_value t in ok (v :: output).

(** The arguments of a function, in order, and what is below them. *)
Definition function_args (t : token) (output : list variant) : list variant := reverse (take (Z.to_nat (opt t)) output).
Definition eval_function_return (t : token) (value : variant) (output : list variant) : list variant :=
  value :: drop (Z.to_nat (opt t)) output.

Definition cb_value (cb : list Z -> list variant -> list Z + variant) (t : token) (args : list variant) : X variant :=
  match cb (token_text t) args with
  | inr value => ok value
  | inl errmsg =>
      if has rules0 ZBX_EVAL_PROCESS_ERROR then ok (VErr (error_at errmsg (loc_l t)))
      else fail (message (error_at errmsg (loc_l t)))
  end.

(** The value a function token makes of its arguments. *)
Definition function_value (t : token) (args : list variant) : X variant :=
  match (if ttype t =? ZBX_EVAL_TOKEN_FUNCTION then builtin (token_text t) else None) with
  | Some f => f t args
  | None =>
      match (if ttype t =? ZBX_EVAL_TOKEN_FUNCTION then common_cb else history_cb) with
      | Some cb => cb_value cb t args
      | None => fail (unknown_function (loc_l t))
      end
  end.

(** eval_execute_common_function and eval_execute_history_function. *)
Definition eval_execute_function (t : token) (output : list variant) : X (list variant) :=
  if Z.of_nat (length output) <? opt t then fail (not_enough_arguments (loc_l t))
  else let* v := function_value t (function_args t output) in ok (eval_function_return t v output).

Definition eval_throw_exception {A : Type} (output : list variant) : X A :=
  match output with
  | [] => fail exception_without_argument
  | arg :: _ =>
      match arg with
      | VStr s => fail (exception s)
      | VDbl d => fail (exception (print_double d))
      | VUi64 n => fail (exception (print_ui64 n))
      | _ => fail exception_of_other_type
      end
  end.

Definition operand_type (ty : Z) : bool :=
  existsb (Z.eqb ty) [ZBX_EVAL_TOKEN_VAR_NUM; ZBX_EVAL_TOKEN_VAR_STR; ZBX_EVAL_TOKEN_VAR_MACRO; ZBX_EVAL_TOKEN_VAR_USERMACRO;
    ZBX_EVAL_TOKEN_ARG_QUERY; ZBX_EVAL_TOKEN_ARG_PERIOD].

(** One turn of the loop of eval_execute. *)
Definition eval_execute_token (t : token) (output : list variant) : X (list variant) :=
  if has (ttype t) ZBX_EVAL_CLASS_OPERATOR1 then eval_execute_op_unary t output
  else if has (ttype t) ZBX_EVAL_CLASS_OPERATOR2 then eval_execute_op_binary t output
  else if ttype t =? 0 then ok output
  else if operand_type (ttype t) then eval_execute_push_value t output
  else if ttype t =? ZBX_EVAL_TOKEN_ARG_NULL then ok (VNone :: output)
  else if (ttype t =? ZBX_EVAL_TOKEN_FUNCTION) || (ttype t =? ZBX_EVAL_TOKEN_HIST_FUNCTION) then eval_execute_function t output
  else if ttype t =? ZBX_EVAL_TOKEN_FUNCTIONID then
    match values (loc_l t) with
    | VNone => fail not_precalculated
    | _ => eval_execute_push_value t output
    end
  else if ttype t =? ZBX_EVAL_TOKEN_EXCEPTION then eval_throw_exception output
  else fail (unknown_token (loc_l t)).

Fixpoint eval_execute_tokens (l : list token) (output : list variant) : X (list variant) :=
  match l with
  | [] => ok output
  | t :: l => let* output := eval_execute_token t output in eval_execute_tokens l output
  end.

Definition eval_execute (l : list token) : X variant :=
  let* output := eval_execute_tokens l [] in
  match output with
  | [VErr msg] => fail (message msg)
  | [value] => ok value
  | _ => fail output_not_one_value
  end.

(* ------------------------------------------------------------------ *)
(** ** The value of an expression *)

(** What an expression tree means: its operands are pushed values, operators and
    functions act on the values of their parts, from left to right. *)
Fixpoint denote (e : expr) : X variant :=
  match e with
  | Operand t =>
      if (ttype t =? ZBX_EVAL_TOKEN_FUNCTIONID) && (match values (loc_l t) with VNone => true | _ => false end)
      then fail not_precalculated
      else if ttype t =? ZBX_EVAL_TOKEN_VAR_LLDMACRO then fail (unknown_token (loc_l t))
      else push_value t
  | Unary t e => let* v := denote e in unary_value t v
  | Binary t l r => let* lv := denote l in let* rv := denote r in binary_value t lv rv
  | Group _ _ e => denote e
  | Call0 f _ _ => function_value f []
  | Call f _ _ a => let* l := denote_args a in function_value f l
  end
with denote_args (a : args) : X (list variant) :=
  match a with
  | Last e => let* v := denote e in ok [v]
  | LastNull => ok [VNone]
  | Arg e _ a => let* v := denote e in let* l := denote_args a in ok (v :: l)
  | ArgNull _ a => let* l := denote_args a in ok (VNone :: l)
  end.

(** A function sees the name and position of its token, not its [opt]. *)
Hypothesis builtin_opt : forall name f t n args, builtin name = Some f -> f (set_opt t n) args = f t args.

Lemma ebind_assoc {A B C : Type} (m : X A) (k : A -> X B) (k' : B -> X C) :
  ebind (ebind m k) k' = ebind m (fun a => ebind (k a) k').
Proof. by destruct m as [[]| | |]. Qed.

Lemma execute_app (l1 l2 : list token) (output : list variant) :
  eval_execute_tokens (l1 ++ l2) output = let* output := eval_execute_tokens l1 output in eval_execute_tokens l2 output.
Proof.
  revert output. induction l1 as [|t l1 IH]; intros output; [done|]. cbn [app eval_execute_tokens]. rewrite ebind_assoc.
  destruct (eval_execute_token t output) as [[]| | |]; cbn [ebind]; [done|apply IH|done..].
Qed.

Lemma token_strip (t : token) (output : list variant) : eval_execute_token (strip t) output = eval_execute_token t output.
Proof.
  unfold strip. destruct (has (ttype t) ZBX_EVAL_CLASS_FUNCTION) eqn:E; [done|].
  unfold eval_execute_token. cbn [set_opt ttype loc_l].
  assert (Hf : (ttype t =? ZBX_EVAL_TOKEN_FUNCTION) || (ttype t =? ZBX_EVAL_TOKEN_HIST_FUNCTION) = false).
  { apply orb_false_iff. split; apply Z.eqb_neq; intros H; by rewrite H in E. }
  rewrite Hf. done.
Qed.

Lemma execute_strip (l : list token) (output : list variant) :
  eval_execute_tokens (strip <$> l) output = eval_execute_tokens l output.
Proof.
  revert output. induction l as [|t l IH]; intros output; [done|]. cbn. rewrite token_strip.
  destruct (eval_execute_token t output) as [[]| | |]; cbn [ebind]; done.
Qed.

Lemma function_value_opt (f : token) (n : Z) (l : list variant) : function_value (set_opt f n) l = function_value f l.
Proof.
  unfold function_value, cb_value, token_text. cbn [set_opt ttype loc_l loc_r].
  destruct (ttype f =? ZBX_EVAL_TOKEN_FUNCTION); [|done].
  destruct (builtin _) as [g|] eqn:E; [|done]. by apply (builtin_opt _ _ _ _ _ E).
Qed.

Lemma function_token (f : token) (args0 output : list variant) :
  ttype f = ZBX_EVAL_TOKEN_FUNCTION ->
  eval_execute_token (set_opt f (Z.of_nat (length args0))) (reverse args0 ++ output) =
  let* v := function_value f args0 in ok (v :: output).
Proof.
  intros Hf. unfold eval_execute_token. cbn [set_opt ttype]. rewrite Hf.
  change (eval_execute_function (set_opt f (Z.of_nat (length args0))) (reverse args0 ++ output) = let* v := function_value f args0 in ok (v :: output)).
  unfold eval_execute_function, function_args, eval_function_return. cbn [set_opt opt].
  rewrite length_app, length_reverse.
  rewrite (proj2 (Z.ltb_ge _ _)) by lia.
  rewrite Nat2Z.id, <- (length_reverse args0), take_app_length, drop_app_length, reverse_involutive. by rewrite function_value_opt.
Qed.

Lemma function_type (f : token) : one_of [ZBX_EVAL_TOKEN_FUNCTION] f = true -> ttype f = ZBX_EVAL_TOKEN_FUNCTION.
Proof. unfold one_of. cbn. rewrite orb_false_r. by intros [H%Z.eqb_eq _]%andb_true_iff. Qed.

Lemma binary_token (t : token) (output : list variant) :
  one_of binary_types t = true -> eval_execute_token t output = eval_execute_op_binary t output.
Proof.
  intros Ht. type_facts Ht (fun ty => negb (has ty ZBX_EVAL_CLASS_OPERATOR1) && has ty ZBX_EVAL_CLASS_OPERATOR2).
  unfold eval_execute_token. by rewrite_facts.
Qed.

Lemma unary_token (t : token) (output : list variant) :
  one_of unary_types t = true -> eval_execute_token t output = eval_execute_op_unary t output.
Proof.
  intros Ht. type_facts Ht (fun ty => has ty ZBX_EVAL_CLASS_OPERATOR1). unfold eval_execute_token. by rewrite_facts.
Qed.

Lemma operand_token (t : token) (output : list variant) :
  one_of operand_types t = true -> eval_execute_token t output = let* v := denote (Operand t) in ok (v :: output).
Proof.
  intros Ht. unfold one_of in Ht. apply andb_true_iff in Ht as [Ht _].
  cbn [denote]. unfold eval_execute_token, eval_execute_push_value.
  cbn [existsb operand_types] in Ht. repeat rewrite orb_true_iff in Ht.
  destruct Ht as [Ht | [Ht | [Ht | [Ht | [Ht | [Ht | [Ht | Ht]]]]]]]; try done; apply Z.eqb_eq in Ht; rewrite Ht; try reflexivity.
  change (match values (loc_l t) with VNone => fail not_precalculated | _ => let* v := push_value t in ok (v :: output) end =
    let* v := (if match values (loc_l t) with VNone => true | _ => false end then fail not_precalculated else push_value t) in ok (v :: output)).
  by destruct (values (loc_l t)).
Qed.

Lemma execute_one (t : token) (output : list variant) : eval_execute_tokens [t] output = eval_execute_token t output.
Proof. cbn. by destruct (eval_execute_token t output) as [[]| | |]. Qed.

Lemma denote_args_length (a : args) (l : list variant) : denote_args a = ok l -> Z.of_nat (length l) = args_num a.
Proof.
  revert l. induction a as [e| |e k a IH|k a IH]; intros l; cbn [denote_args args_num].
  - destruct (denote e) as [[]| | |]; cbn [ebind]; try done. by intros [= <-].
  - by intros [= <-].
  - destruct (denote e) as [[]| | |]; cbn [ebind]; try done. destruct (denote_args a) as [[|l']| | |]; cbn [ebind]; try done.
    intros [= <-]. cbn [length]. rewrite <- (IH l' eq_refl). lia.
  - destruct (denote_args a) as [[|l']| | |]; cbn [ebind]; try done.
    intros [= <-]. cbn [length]. rewrite <- (IH l' eq_refl). lia.
Qed.

(** The postfix tokens leave the value of the tree on the output. *)
Lemma execute_postfix :
  (forall e output, well_formed e = true ->
    eval_execute_tokens (postfix e) output = let* v := denote e in ok (v :: output)) /\
  (forall a output, well_formed_args a = true ->
    eval_execute_tokens (postfix_args a) output = let* l := denote_args a in ok (reverse l ++ output)).
Proof.
  apply expr_args_ind; cbn [well_formed well_formed_args postfix postfix_args].
  - intros t output Ht. rewrite execute_one, token_strip. by apply operand_token.
  - intros t e IH output Ht. rewrite !andb_true_iff in Ht. destruct Ht as [[Ht _] He]. rewrite execute_app, IH by done.
    cbn [denote]. rewrite !ebind_assoc. destruct (denote e) as [[]| | |]; cbn [ebind ok]; try done.
    by rewrite execute_one, token_strip, unary_token.
  - intros t l IHl r IHr output Ht. rewrite !andb_true_iff in Ht. destruct Ht as [[[[Ht _] _] Hl] Hr].
    rewrite execute_app, IHl by done. cbn [denote]. rewrite !ebind_assoc. destruct (denote l) as [[|lv]| | |]; cbn [ebind ok]; try done.
    rewrite execute_app, IHr by done. rewrite !ebind_assoc. destruct (denote r) as [[|rv]| | |]; cbn [ebind ok]; try done.
    by rewrite execute_one, token_strip, binary_token.
  - intros o k e IH output He. rewrite !andb_true_iff in He. destruct He as [_ He]. by apply IH.
  - intros f o k output Hf. rewrite !andb_true_iff in Hf. destruct Hf as [[Hf _] _]. rewrite execute_one.
    apply (function_token f [] output). by apply function_type.
  - intros f o k a IH output Hf. rewrite !andb_true_iff in Hf. destruct Hf as [[[Hf _] _] Ha].
    rewrite execute_app, IH by (by destruct a). cbn [denote]. rewrite !ebind_assoc.
    destruct (denote_args a) as [[|l]| | |] eqn:E; cbn [ebind ok]; try done. rewrite execute_one, <- (denote_args_length a l E).
    apply function_token. by apply function_type.
  - intros e IH output He. rewrite IH by done. cbn [denote_args]. rewrite ebind_assoc. by destruct (denote e) as [[]| | |].
  - intros output _. done.
  - intros e IHe k a IHa output Ha. rewrite !andb_true_iff in Ha. destruct Ha as [[_ He] Ha]. rewrite execute_app, IHe by done.
    cbn [denote_args]. rewrite !ebind_assoc. destruct (denote e) as [[|v]| | |]; cbn [ebind ok]; try done.
    rewrite IHa by done. rewrite ebind_assoc. destruct (denote_args a) as [[|l]| | |]; cbn [ebind ok]; try done.
    by rewrite reverse_cons, <- app_assoc.
  - intros k a IH output Ha. rewrite !andb_true_iff in Ha. destruct Ha as [_ Ha].
    cbn [denote_args eval_execute_tokens].
    change (eval_execute_token null_token output) with (ok (X := exec_error) (VNone :: output)). cbn [ebind ok].
    rewrite IH by done. rewrite ebind_assoc. destruct (denote_args a) as [[|l]| | |]; cbn [ebind ok]; try done.
    by rewrite reverse_cons, <- app_assoc.
Qed.

(** C2: an expression written with no more parentheses than the priorities
    require is parsed, and executing what the parser produced gives the value of
    the expression tree: the operators apply to the values of their operands,
    each function to the values of its arguments, in order, and the first failure
    from the left, or an error as the final value, is the failure of the whole. *)
Theorem eval_pipeline (e : expr) :
  has rules0 ZBX_EVAL_PARSE_PROPERTY = false -> well_formed e = true -> Z.of_nat (length (infix e)) < 2 ^ 31 - 1 ->
  exists c, eval_parse_expression rules0 (infix e) = ok c /\
    eval_execute (stack c) =
      let* v := denote e in match v with VErr msg => fail (message msg) | _ => ok v end.
Proof.
  intros Hr Hwf Hlen. destruct (parse_postfix rules0 e Hr Hwf Hlen) as (c & E & Hs & _). exists c. split; [done|].
  unfold eval_execute. rewrite <- execute_strip, Hs, (proj1 execute_postfix) by done. rewrite ebind_assoc.
  destruct (denote e) as [[|v]| | |]; cbn [ebind ok]; try done.
Qed.

End Exec.

Section Logic.
Context (strtod : list Z -> spec_float) (print_double : spec_float -> list Z) (print_other : variant -> list Z)
  (print_ui64 : Z -> list Z).

(** Truth of a number, unknown for an error. *)
Definition truth (v : variant) : option bool :=
  match v with
  | VDbl d => Some (negb (zbx_double_compare d dbl_0))
  | VUi64 n => Some (negb (zbx_double_compare (dbl_of_Z n) dbl_0))
  | _ => None
  end.
Definition number_or_error (v : variant) : bool := match v with VDbl _ | VUi64 _ | VErr _ => true | _ => false end.

Definition kleene_and (a b : option bool) : option bool :=
  match a, b with
  | Some false, _ | _, Some false => Some false
  | Some true, Some true => Some true
  | _, _ => None
  end.
Definition kleene_or (a b : option bool) : option bool :=
  match a, b with
  | Some true, _ | _, Some true => Some true
  | Some false, Some false => Some false
  | _, _ => None
  end.

Lemma number_to_dbl (v : variant) :
  number_or_error v = true -> is_error v = false ->
  exists d, variant_to_dbl strtod v = Ret (Some d) /\ truth v = Some (negb (zbx_double_compare d dbl_0)).
Proof. destruct v; try done; intros _ _; eexists; by split. Qed.

Lemma truth_error (v : variant) : is_error v = true -> truth v = None.
Proof. by destruct v. Qed.

Lemma truth_0 : truth (VDbl dbl_0) = Some false.
Proof. vm_compute. reflexivity. Qed.

Lemma truth_1 : truth (VDbl dbl_1) = Some true.
Proof. vm_compute. reflexivity. Qed.

(** An error operand is absorbed when the other one decides. *)
Lemma logic_err_spec (t : token) (v : variant) :
  is_and t || is_or t = true -> number_or_error v = true ->
  exists r, eval_execute_op_logic_err strtod t v = Ret r /\
    (if is_and t then kleene_and None (truth v) else kleene_or None (truth v)) =
      (match r with Some d => truth (VDbl d) | None => None end) /\
    (r = None \/ r = Some dbl_0 \/ r = Some dbl_1).
Proof.
  intros Ht Hv. unfold eval_execute_op_logic_err. destruct (is_error v) eqn:Ee.
  - rewrite (truth_error v Ee). destruct v; try done. exists None. split_and!; [done|by destruct (is_and t)|by left].
  - destruct (number_to_dbl v Hv Ee) as (d & Ed & ->). destruct v; try done; rewrite Ed; run;
      (destruct (is_and t); [|destruct (is_or t); [|done]]); destruct (zbx_double_compare d dbl_0); cbn [negb kleene_and kleene_or];
      (eexists; split; [reflexivity|]); rewrite ?truth_0, ?truth_1; (split; [reflexivity|]); tauto.
Qed.

(** C36: 'and' and 'or' on numbers and errors never fail and follow Kleene's
    three-valued logic with an error for the unknown value: an error is absorbed
    when the other operand decides, and one of the errors is the result
    otherwise. *)
Theorem logic_kleene (t : token) (lhs rhs : variant) (rest : list variant) :
  is_and t || is_or t = true -> number_or_error lhs = true -> number_or_error rhs = true ->
  exists v, eval_execute_op_binary strtod print_double print_other print_ui64 t (rhs :: lhs :: rest) = ok (v :: rest) /\
    truth v = (if is_and t then kleene_and else kleene_or) (truth lhs) (truth rhs) /\
    (v = VDbl dbl_0 \/ v = VDbl dbl_1 \/ (is_error v = true /\ (v = lhs \/ v = rhs))).
Proof.
  intros Ht Hl Hr.
  assert (Hne : (ttype t =? ZBX_EVAL_TOKEN_OP_EQ) || (ttype t =? ZBX_EVAL_TOKEN_OP_NE) = false).
  { apply orb_true_iff in Ht as [H | H]; unfold is_and, is_or in H; apply Z.eqb_eq in H; by rewrite H. }
  cbn [eval_execute_op_binary]. unfold binary_value. rewrite Ht, Hne.
  destruct (is_error lhs) eqn:El; [|destruct (is_error rhs) eqn:Er].
  - rewrite (truth_error lhs El). destruct (logic_err_spec t rhs Ht Hr) as (r & E & Hk & Hc). rewrite E. run.
    destruct r as [d|]; eexists; (split; [reflexivity|]).
    + split; [by destruct (is_and t)|]. destruct Hc as [? | [[= ->] | [= ->]]]; [done|tauto|tauto].
    + split; [rewrite (truth_error lhs El); by destruct (is_and t)|]. right; right. by split; [|left].
  - rewrite (truth_error rhs Er). destruct (logic_err_spec t lhs Ht Hl) as (r & E & Hk & Hc). rewrite E. run.
    assert (Hsym : (if is_and t then kleene_and else kleene_or) (truth lhs) None =
      (if is_and t then kleene_and None (truth lhs) else kleene_or None (truth lhs))) by (by destruct (is_and t), (truth lhs) as [[]|]).
    rewrite Hsym, Hk. destruct r as [d|]; eexists; (split; [reflexivity|]); (split; [by rewrite ?(truth_error rhs Er)|]).
    + destruct Hc as [? | [[= ->] | [= ->]]]; [done|tauto|tauto].
    + right; right. by split; [|right].
  - destruct (number_to_dbl lhs Hl El) as (dl & -> & ->). destruct (number_to_dbl rhs Hr Er) as (dr & -> & ->). run.
    unfold arithmetic_value. destruct (is_and t); [|destruct (is_or t); [|done]];
      destruct (zbx_double_compare dl dbl_0), (zbx_double_compare dr dbl_0); cbn [negb orb kleene_and kleene_or ebind ok];
      (eexists; split; [reflexivity|]); rewrite ?truth_0, ?truth_1; (split; [reflexivity|]); tauto.
Qed.
End Logic.

(** 1+2*3 over the text of the expression, with no functions. *)
Definition text : list Z := [49; 43; 50; 42; 51].
Definition sum_of_product : expr :=
  Binary (plus 1) (Operand (num 0)) (Binary (at_pos ZBX_EVAL_TOKEN_OP_MUL 3) (Operand (num 2)) (Operand (num 4))).

Lemma eval_pipeline_witness :
  let run_ := eval_execute digits_strtod (fun _ => []) (fun _ => []) (fun _ => []) text 0 (fun _ => VNone)
    (fun _ => None) None None (fun _ _ => []) in
  exists c, eval_parse_expression 0 (infix sum_of_product) = ok c /\ run_ (stack c) = ok (VDbl (dbl_of_Z 7)).
Proof.
  destruct (eval_pipeline digits_strtod (fun _ => []) (fun _ => []) (fun _ => []) text 0 (fun _ => VNone) (fun _ => None) None None
    (fun _ _ => []) ltac:(done) sum_of_product) as (c & E & H); [vm_compute; reflexivity..|].
  exists c. split; [exact E|]. rewrite H. vm_compute. reflexivity.
Defined.

Lemma logic_kleene_witness :
  exists v, eval_execute_op_binary digits_strtod (fun _ => []) (fun _ => []) (fun _ => [])
      (at_pos ZBX_EVAL_TOKEN_OP_OR 1) [VUi64 5; VErr []] = ok [v] /\ truth v = Some true.
Proof.
  destruct (logic_kleene digits_strtod (fun _ => []) (fun _ => []) (fun _ => []) (at_pos ZBX_EVAL_TOKEN_OP_OR 1) (VErr []) (VUi64 5) [])
    as (v & E & H & _); [reflexivity..|]. exists v. split; [exact E|]. rewrite H. vm_compute. reflexivity.
Defined.
