(* ===== verification/Memory.v ===== *)
(** A program logic for code that works on raw memory: the memory is a finite
    map from byte addresses to 64-bit words, a program is a function from the
    memory to an outcome and a new memory, and [wp] is its weakest precondition
    in Iris' base logic.  [wp] is total: it says that the program returns, with
    no access outside of the memory it owns.  [wp_adequacy] turns a proof in the
    logic into a statement about the run of the program. *)

From iris.base_logic.lib Require Import gen_heap.
From iris.proofmode Require Import proofmode.
From S2P Require Import Prelude.

Open Scope Z_scope.

(* ------------------------------------------------------------------ *)
(** ** Programs *)

Notation mem := (gmap Z Z).

Definition M (A : Type) : Type := mem -> res (A * mem).

#[export] Instance M_ret : MRet M := fun A a m => Ret (a, m).
#[export] Instance M_bind : MBind M := fun A B k p m =>
  match p m with
  | Ret (a, m') => k a m'
  | Exit => Exit
  | Undef => Undef
  | NoFuel => NoFuel
  end.

(** Reading and writing a word; the program may only touch memory it has. *)
Definition load (a : Z) : M Z := fun m =>
  match m !! a with Some v => Ret (v, m) | None => Undef end.
Definition store (a v : Z) : M unit := fun m =>
  match m !! a with Some _ => Ret (tt, <[a := v]> m) | None => Undef end.

(** exit(EXIT_FAILURE) *)
Definition m_exit {A : Type} : M A := fun _ => Exit.
Definition m_no_fuel {A : Type} : M A := fun _ => NoFuel.

(** Loops: [mwhile k body s] runs at most 2^k rounds. *)
Fixpoint mwhile_pow {S R : Type} (k : nat) (body : S -> M (S + R)) (s : S) : M (S + R) :=
  match k with
  | O => body s
  | Datatypes.S k' =>
      r ← mwhile_pow k' body s;
      match r with
      | inl s' => mwhile_pow k' body s'
      | inr v => mret (inr v)
      end
  end.

Definition mwhile {S R : Type} (k : nat) (body : S -> M (S + R)) (s : S) : M R :=
  r ← mwhile_pow k body s;
  match r with
  | inl _ => m_no_fuel
  | inr v => mret v
  end.

(** memcpy of whole words, through a list or directly. *)
Fixpoint read_words (n : nat) (a : Z) : M (list Z) :=
  match n with
  | O => mret []
  | S n' => v ← load a; vs ← read_words n' (a + 8); mret (v :: vs)
  end.

Fixpoint write_words (a : Z) (vs : list Z) : M unit :=
  match vs with
  | [] => mret tt
  | v :: vs' => _ ← store a v; write_words (a + 8) vs'
  end.

Fixpoint copy_words (n : nat) (dst src : Z) : M unit :=
  match n with
  | O => mret tt
  | S n' => v ← load src; _ ← store dst v; copy_words n' (dst + 8) (src + 8)
  end.

(* ------------------------------------------------------------------ *)
(** ** The weakest precondition *)

Section Wp.
  Context `{!gen_heapGS Z Z Σ}.
  Implicit Types Q : iProp Σ.

Definition points (a v : Z) : iProp Σ := pointsto a (DfracOwn 1) v.

(** [wp p Q X]: the program returns a value and owns [Q] of it, or exits and
    owns [X]. *)
Definition wp {A : Type} (p : M A) (Q : A -> iProp Σ) (X : iProp Σ) : iProp Σ :=
  ∀ m, gen_heap_interp m ==∗ ∃ r, ⌜p m = r⌝ ∗
    match r with
    | Ret (a, m') => gen_heap_interp m' ∗ Q a
    | Exit => X
    | _ => False
    end.

(** Consecutive words from an address. *)
Fixpoint array (a : Z) (vs : list Z) : iProp Σ :=
  match vs with
  | [] => emp
  | v :: vs' => points a v ∗ array (a + 8) vs'
  end.
End Wp.

Notation "a ↦ v" := (points a v) (at level 20, format "a  ↦  v") : bi_scope.
Notation "a ↦∗ vs" := (array a vs) (at level 20, format "a  ↦∗  vs") : bi_scope.

Section Rules.
  Context `{!gen_heapGS Z Z Σ}.

#[global] Instance points_timeless a v : Timeless (a ↦ v).
Proof. apply _. Qed.

Lemma points_ne a v b w : a ↦ v -∗ b ↦ w -∗ ⌜a ≠ b⌝.
Proof. iIntros "H1 H2". iApply (pointsto_ne with "H1 H2"). Qed.

Lemma wp_ret {A : Type} (a : A) (Q : A -> iProp Σ) X : Q a -∗ wp (mret a) Q X.
Proof. rewrite /wp. iIntros "HQ" (m) "Hm !>". iExists _. iSplit; [done|]. iFrame. Qed.

Lemma wp_bind {A B : Type} (p : M A) (k : A -> M B) (Q : B -> iProp Σ) X :
  wp p (fun a => wp (k a) Q X) X -∗ wp (p ≫= k) Q X.
Proof.
  rewrite /wp. iIntros "Hp" (m) "Hm". iMod ("Hp" with "Hm") as (r) "[%Hr H]".
  unfold mbind, M_bind. rewrite Hr. destruct r as [[a m']| | |].
  - iDestruct "H" as "[Hm H]". iApply ("H" with "Hm").
  - iModIntro. iExists Exit. by iFrame.
  - done.
  - done.
Qed.

Lemma wp_mono {A : Type} (p : M A) (Q Q' : A -> iProp Σ) X :
  wp p Q X -∗ (∀ a, Q a -∗ Q' a) -∗ wp p Q' X.
Proof.
  rewrite /wp. iIntros "Hp HQ" (m) "Hm". iMod ("Hp" with "Hm") as (r) "[%Hr H]".
  iModIntro. iExists r. iSplit; [done|]. destruct r as [[a m']| | |]; [|done..].
  iDestruct "H" as "[$ H]". by iApply "HQ".
Qed.

(** Binding a program whose specification is known. *)
Lemma wp_call {A B : Type} (p : M A) (k : A -> M B) (Q' : A -> iProp Σ) (Q : B -> iProp Σ) X :
  wp p Q' X -∗ (∀ a, Q' a -∗ wp (k a) Q X) -∗ wp (p ≫= k) Q X.
Proof. iIntros "Hp Hk". iApply wp_bind. iApply (wp_mono with "Hp Hk"). Qed.

Lemma wp_load (a b v : Z) (Q : Z -> iProp Σ) X :
  a = b -> b ↦ v -∗ (b ↦ v -∗ Q v) -∗ wp (load a) Q X.
Proof.
  rewrite /wp. iIntros (->) "Hb HQ". iIntros (m) "Hm". iDestruct (gen_heap_valid with "Hm Hb") as %Hv.
  iModIntro. iExists _. iSplit; [iPureIntro; unfold load; by rewrite Hv|].
  iFrame. by iApply "HQ".
Qed.

Lemma wp_store (a b v w : Z) (Q : unit -> iProp Σ) X :
  a = b -> b ↦ w -∗ (b ↦ v -∗ Q tt) -∗ wp (store a v) Q X.
Proof.
  rewrite /wp. iIntros (->) "Hb HQ". iIntros (m) "Hm". iDestruct (gen_heap_valid with "Hm Hb") as %Hv.
  iMod (gen_heap_update with "Hm Hb") as "[Hm Hb]".
  iModIntro. iExists _. iSplit; [iPureIntro; unfold store; by rewrite Hv|].
  iFrame. by iApply "HQ".
Qed.

Lemma wp_load_bind {A : Type} (a b v : Z) (k : Z -> M A) (Q : A -> iProp Σ) X :
  a = b -> b ↦ v -∗ (b ↦ v -∗ wp (k v) Q X) -∗ wp (load a ≫= k) Q X.
Proof. iIntros (?) "H Hk". iApply wp_bind. by iApply (wp_load with "H"). Qed.

Lemma wp_store_bind {A : Type} (a b v w : Z) (k : unit -> M A) (Q : A -> iProp Σ) X :
  a = b -> b ↦ w -∗ (b ↦ v -∗ wp (k tt) Q X) -∗ wp (store a v ≫= k) Q X.
Proof. iIntros (?) "H Hk". iApply wp_bind. by iApply (wp_store with "H"). Qed.

Lemma wp_ret_bind {A B : Type} (a : A) (k : A -> M B) (Q : B -> iProp Σ) X :
  wp (k a) Q X -∗ wp (mret a ≫= k) Q X.
Proof. iIntros "H". iApply wp_bind. by iApply wp_ret. Qed.

(** *** Arrays *)

Lemma array_app a vs ws :
  a ↦∗ (vs ++ ws) ⊣⊢ a ↦∗ vs ∗ (a + 8 * Z.of_nat (length vs)) ↦∗ ws.
Proof.
  revert a. induction vs as [|v vs IH]; intros a; simpl.
  - rewrite Z.mul_0_r Z.add_0_r. by rewrite left_id.
  - rewrite IH -bi.sep_assoc. do 2 f_equiv.
    by replace (a + 8 + 8 * Z.of_nat (length vs)) with (a + 8 * Z.of_nat (S (length vs))) by lia.
Qed.

Lemma wp_read_words a vs (Q : list Z -> iProp Σ) X :
  a ↦∗ vs -∗ (a ↦∗ vs -∗ Q vs) -∗ wp (read_words (length vs) a) Q X.
Proof.
  iIntros "H HQ". iInduction vs as [|v vs IH] forall (a Q); simpl.
  - iApply wp_ret. by iApply "HQ".
  - iDestruct "H" as "[Hv H]". iApply (wp_load_bind with "Hv"); [done|]. iIntros "Hv".
    iApply wp_bind. iApply ("IH" with "H"). iIntros "H". iApply wp_ret. iApply "HQ". iFrame.
Qed.

Lemma wp_write_words a vs ws (Q : unit -> iProp Σ) X :
  length vs = length ws ->
  a ↦∗ ws -∗ (a ↦∗ vs -∗ Q tt) -∗ wp (write_words a vs) Q X.
Proof.
  iIntros (Hl) "H HQ". iInduction vs as [|v vs IH] forall (a ws Hl Q); destruct ws as [|w ws]; try done; simpl.
  - iApply wp_ret. by iApply "HQ".
  - iDestruct "H" as "[Hv H]". iApply (wp_store_bind with "Hv"); [done|]. iIntros "Hv".
    iApply ("IH" with "[] H"); [simpl in Hl; iPureIntro; lia|]. iIntros "H". iApply "HQ". iFrame.
Qed.

Lemma wp_copy_words n dst src vs ws (Q : unit -> iProp Σ) X :
  length vs = n -> length ws = n ->
  src ↦∗ vs -∗ dst ↦∗ ws -∗ (src ↦∗ vs -∗ dst ↦∗ vs -∗ Q tt) -∗ wp (copy_words n dst src) Q X.
Proof.
  iIntros (Hv Hw) "Hs Hd HQ". iInduction n as [|n IH] forall (dst src vs ws Hv Hw Q);
    destruct vs as [|v vs], ws as [|w ws]; try done; simpl.
  - iApply wp_ret. by iApply ("HQ" with "Hs Hd").
  - iDestruct "Hs" as "[Hv Hs]". iDestruct "Hd" as "[Hw Hd]".
    iApply (wp_load_bind with "Hv"); [done|]. iIntros "Hv".
    iApply (wp_store_bind with "Hw"); [done|]. iIntros "Hw".
    simpl in *. iApply ("IH" with "[] [] Hs Hd"); [iPureIntro; lia..|].
    iIntros "Hs Hd". iApply ("HQ" with "[$Hv $Hs] [$Hw $Hd]").
Qed.

(** *** Loops *)

(** [J n s]: the invariant holds and at most [n] more rounds continue. *)
Lemma wp_mwhile_pow {S R : Type} (k : nat) (body : S -> M (S + R))
    (J : Z -> S -> iProp Σ) (Q : R -> iProp Σ) X (n : Z) (s : S) :
  □ (∀ n s, J n s -∗ wp (body s) (fun r => match r with
       | inl s' => ∃ n', ⌜0 <= n' < n⌝ ∗ J n' s' | inr v => Q v end) X) -∗
  J n s -∗
  wp (mwhile_pow k body s) (fun r => match r with
       | inl s' => ∃ n', ⌜0 <= n' /\ n' + 2 ^ Z.of_nat k <= n⌝ ∗ J n' s' | inr v => Q v end) X.
Proof.
  iIntros "#Hb HJ". iInduction k as [|k IH] forall (n s); cbn [mwhile_pow].
  - iApply (wp_mono with "[HJ]"); [by iApply "Hb"|]. iIntros ([s'|v]) "H"; [|done].
    iDestruct "H" as (n' ?) "H". iExists n'. iFrame. iPureIntro. change (2 ^ Z.of_nat 0) with 1. lia.
  - iApply (wp_call with "[HJ]"); [by iApply "IH"|]. iIntros ([s'|v]) "H"; [|by iApply wp_ret].
    iDestruct "H" as (n' Hn') "H".
    iApply (wp_mono with "[H]"); [by iApply "IH"|]. iIntros ([s2|v]) "H"; [|done].
    iDestruct "H" as (n2 Hn2) "H". iExists n2. iFrame. iPureIntro.
    rewrite Nat2Z.inj_succ Z.pow_succ_r; lia.
Qed.

Lemma wp_mwhile {S R : Type} (k : nat) (body : S -> M (S + R))
    (J : Z -> S -> iProp Σ) (Q : R -> iProp Σ) X (n : Z) (s : S) :
  n < 2 ^ Z.of_nat k ->
  □ (∀ n s, J n s -∗ wp (body s) (fun r => match r with
       | inl s' => ∃ n', ⌜0 <= n' < n⌝ ∗ J n' s' | inr v => Q v end) X) -∗
  J n s -∗ wp (mwhile k body s) Q X.
Proof.
  iIntros (Hn) "#Hb HJ". unfold mwhile.
  iApply (wp_call with "[HJ]"); [by iApply (wp_mwhile_pow with "Hb HJ")|].
  iIntros ([s'|v]) "H"; [|by iApply wp_ret].
  iDestruct "H" as (n' Hn') "H". lia.
Qed.
End Rules.

(* ------------------------------------------------------------------ *)
(** ** From the logic to the runs *)

Lemma wp_adequacy {A : Type} (p : M A) (m : mem) (Q : A -> Prop) (X : Prop) :
  (forall `{!gen_heapGS Z Z Σ}, ([∗ map] a ↦ v ∈ m, a ↦ v)%I -∗ wp p (fun a => ⌜Q a⌝)%I ⌜X⌝) ->
  (exists a m', p m = Ret (a, m') /\ Q a) \/ (p m = Exit /\ X).
Proof.
  intros Hwp. set (Σ := gen_heapΣ Z Z).
  apply (pure_soundness (PROP := iPropI Σ)), uPred.bupd_soundness; [apply _|].
  iMod (gen_heap_init (Σ := Σ) m) as (?) "(Hm & Hp & _)".
  iMod (Hwp with "Hp Hm") as (r) "[%Hr H]". iModIntro.
  destruct r as [[a m']| | |]; [|by iDestruct "H" as %?; iRight|done|done].
  iDestruct "H" as "[_ %HQ]". iPureIntro. left. eauto.
Qed.

(** Steps of symbolic execution: the address is compared by [lia]. *)
Tactic Notation "wp_load" constr(H) :=
  iApply (wp_load_bind with H); [try lia|]; iIntros H.
Tactic Notation "wp_store" constr(H) :=
  iApply (wp_store_bind with H); [try lia|]; iIntros H.
