(* ===== verification/Shmem.v ===== *)
(** The shared memory allocator (src/src/libs/zbxshmem/memalloc.c): the
    operations on the raw memory.  A chunk is a block between two size words; the
    top bit of a size word tells that the chunk is used.  Free chunks of one size
    class are in a doubly linked list whose links are in the chunks themselves
    and whose head is in the array of buckets.

    Addresses are bytes, the layout is that of a 64-bit little endian machine
    (pointers of 8 bytes).  All the words the allocator reads and writes are
    aligned, so the memory is a map of words.  The two strings that describe the
    segment are represented by their lengths, log messages are left out. *)

From stdpp Require Import base list numbers strings gmap.
From Stdlib Require Import ZArith Lia.
From S2P Require Import Prelude Memory.

Open Scope Z_scope.

Definition ZBX_PTR_SIZE : Z := 8.
Definition SHMEM_MIN_ALLOC : Z := 24.
Definition ZBX_SHMEM_MIN_BUCKET_SIZE : Z := SHMEM_MIN_ALLOC.
Definition SHMEM_MAX_BUCKET_SIZE : Z := 256.
Definition ZBX_SHMEM_BUCKET_COUNT : Z := (SHMEM_MAX_BUCKET_SIZE - ZBX_SHMEM_MIN_BUCKET_SIZE) / 8 + 1.

Definition SHMEM_SIZE_FIELD : Z := 8.
Definition SHMEM_FLG_USED : Z := Z.shiftl 1 63.
Definition SHMEM_MIN_SIZE : Z := 128.
Definition SHMEM_MAX_SIZE : Z := 0x1000000000.

Definition FREE_CHUNK (w : Z) : bool := Z.land w SHMEM_FLG_USED =? 0.
Definition CHUNK_SIZE (w : Z) : Z := Z.land w (Z.ones 63).

(** ** zbx_shmem_info_t: the offsets of the fields and its size *)
Definition OFF_BASE : Z := 0.
Definition OFF_BUCKETS : Z := 8.
Definition OFF_LO_BOUND : Z := 16.
Definition OFF_HI_BOUND : Z := 24.
Definition OFF_FREE_SIZE : Z := 32.
Definition OFF_USED_SIZE : Z := 40.
Definition OFF_ORIG_SIZE : Z := 48.
Definition OFF_TOTAL_SIZE : Z := 56.
Definition OFF_SHM_ID : Z := 64.     (* an int, then the char allow_oom *)
Definition OFF_UNLOCK : Z := 72.
Definition OFF_MEM_DESCR : Z := 80.
Definition OFF_MEM_PARAM : Z := 88.
Definition SIZEOF_INFO : Z := 96.

(* ------------------------------------------------------------------ *)
(** ** Helper functions *)

Definition ALIGN8 (ptr : Z) : Z := Z.land (u64 (ptr + 7)) (u64 (Z.lnot 7)).

Definition mem_proper_alloc_size (size : Z) : Z :=
  if SHMEM_MIN_ALLOC <=? size then u64 (size + Z.land (8 - Z.land size 7) 7)
  else SHMEM_MIN_ALLOC.

Definition mem_bucket_by_size (size : Z) : Z :=
  if size <? ZBX_SHMEM_MIN_BUCKET_SIZE then 0
  else if size <? SHMEM_MAX_BUCKET_SIZE then Z.shiftr (size - ZBX_SHMEM_MIN_BUCKET_SIZE) 3
  else ZBX_SHMEM_BUCKET_COUNT - 1.

Definition mem_set_chunk_size (chunk size : Z) : M unit :=
  _ ← store chunk size;
  store (chunk + SHMEM_SIZE_FIELD + size) size.

Definition mem_set_used_chunk_size (chunk size : Z) : M unit :=
  _ ← store chunk (Z.lor SHMEM_FLG_USED size);
  store (chunk + SHMEM_SIZE_FIELD + size) (Z.lor SHMEM_FLG_USED size).

Definition mem_get_prev_chunk (chunk : Z) : M Z := load (chunk + SHMEM_SIZE_FIELD).
Definition mem_set_prev_chunk (chunk prev : Z) : M unit := store (chunk + SHMEM_SIZE_FIELD) prev.
Definition mem_get_next_chunk (chunk : Z) : M Z := load (chunk + SHMEM_SIZE_FIELD + ZBX_PTR_SIZE).
Definition mem_set_next_chunk (chunk next : Z) : M unit :=
  store (chunk + SHMEM_SIZE_FIELD + ZBX_PTR_SIZE) next.

Definition mem_ptr_to_prev_field (chunk : Z) : Z :=
  if chunk =? 0 then 0 else chunk + SHMEM_SIZE_FIELD.
Definition mem_ptr_to_next_field (chunk first_chunk : Z) : Z :=
  if chunk =? 0 then first_chunk else chunk + SHMEM_SIZE_FIELD + ZBX_PTR_SIZE.

(** &info->buckets[index] *)
Definition bucket_ptr (info index : Z) : M Z :=
  buckets ← load (info + OFF_BUCKETS);
  mret (buckets + ZBX_PTR_SIZE * index).
Definition get_bucket (info index : Z) : M Z := p ← bucket_ptr info index; load p.
Definition set_bucket (info index chunk : Z) : M unit := p ← bucket_ptr info index; store p chunk.

(** The statement info->field += x on a 64-bit field; x is -y for -= y. *)
Definition info_add (info field x : Z) : M unit :=
  v ← load (info + field);
  store (info + field) (u64 (v + x)).

Definition mem_link_chunk (info chunk : Z) : M unit :=
  w ← load chunk;
  let index := mem_bucket_by_size (CHUNK_SIZE w) in
  first ← get_bucket info index;
  _ ← (if first =? 0 then mret tt else mem_set_prev_chunk first chunk);
  _ ← mem_set_prev_chunk chunk 0;
  first ← get_bucket info index;
  _ ← mem_set_next_chunk chunk first;
  set_bucket info index chunk.

Definition mem_unlink_chunk (info chunk : Z) : M unit :=
  w ← load chunk;
  let index := mem_bucket_by_size (CHUNK_SIZE w) in
  prev_chunk ← mem_get_prev_chunk chunk;
  next_chunk ← mem_get_next_chunk chunk;
  first ← bucket_ptr info index;
  let next_in_prev_chunk := mem_ptr_to_next_field prev_chunk first in
  let prev_in_next_chunk := mem_ptr_to_prev_field next_chunk in
  _ ← store next_in_prev_chunk next_chunk;
  if prev_in_next_chunk =? 0 then mret tt else store prev_in_next_chunk prev_chunk.

(* ------------------------------------------------------------------ *)
(** ** __mem_malloc *)

(** The loop over the empty buckets; [n] is the distance to the last bucket. *)
Fixpoint skip_empty_buckets (n : nat) (info index : Z) : M Z :=
  match n with
  | O => mret index
  | S n' =>
      chunk ← get_bucket info index;
      if chunk =? 0 then skip_empty_buckets n' info (index + 1) else mret index
  end.

(** The first-fit search; no list is longer than the segment. *)
Definition FIT_BOUND : nat := 64.

Definition first_fit_step (size chunk : Z) : M (Z + Z) :=
  if chunk =? 0 then mret (inr chunk) else
  w ← load chunk;
  if CHUNK_SIZE w <? size then next ← mem_get_next_chunk chunk; mret (inl next)
  else mret (inr chunk).

Definition first_fit (size chunk : Z) : M Z := mwhile FIT_BOUND (first_fit_step size) chunk.

(** The end of malloc and of realloc: use all of the unlinked [chunk] of
    [chunk_size] bytes or split it. *)
Definition use_or_split (info chunk chunk_size size : Z) : M unit :=
  if chunk_size <? size + 2 * SHMEM_SIZE_FIELD + SHMEM_MIN_ALLOC then
    _ ← info_add info OFF_USED_SIZE chunk_size;
    _ ← info_add info OFF_FREE_SIZE (- chunk_size);
    mem_set_used_chunk_size chunk chunk_size
  else
    let new_chunk := chunk + SHMEM_SIZE_FIELD + size + SHMEM_SIZE_FIELD in
    let new_chunk_size := chunk_size - size - 2 * SHMEM_SIZE_FIELD in
    _ ← mem_set_chunk_size new_chunk new_chunk_size;
    _ ← mem_link_chunk info new_chunk;
    _ ← info_add info OFF_USED_SIZE size;
    _ ← info_add info OFF_FREE_SIZE (- chunk_size);
    _ ← info_add info OFF_FREE_SIZE new_chunk_size;
    mem_set_used_chunk_size chunk size.

(** The chunk malloc takes, or NULL. *)
Definition find_chunk (info size : Z) : M Z :=
  let index := mem_bucket_by_size size in
  index ← skip_empty_buckets (Z.to_nat (ZBX_SHMEM_BUCKET_COUNT - 1 - index)) info index;
  chunk ← get_bucket info index;
  if index =? ZBX_SHMEM_BUCKET_COUNT - 1 then first_fit size chunk else mret chunk.

Definition __mem_malloc (info size : Z) : M Z :=
  let size := mem_proper_alloc_size size in
  chunk ← find_chunk info size;
  if chunk =? 0 then mret 0 else
  w ← load chunk;
  let chunk_size := CHUNK_SIZE w in
  _ ← mem_unlink_chunk info chunk;
  _ ← use_or_split info chunk chunk_size size;
  mret chunk.

(* ------------------------------------------------------------------ *)
(** ** __mem_free *)

(** next_chunk < info->hi_bound && FREE_CHUNK(next_chunk) *)
Definition is_next_free (info next_chunk : Z) : M bool :=
  hi ← load (info + OFF_HI_BOUND);
  if next_chunk <? hi then w ← load next_chunk; mret (FREE_CHUNK w) else mret false.

(** info->lo_bound < chunk && FREE_CHUNK((char * )chunk - SHMEM_SIZE_FIELD) *)
Definition is_prev_free (info chunk : Z) : M bool :=
  lo ← load (info + OFF_LO_BOUND);
  if lo <? chunk then w ← load (chunk - SHMEM_SIZE_FIELD); mret (FREE_CHUNK w) else mret false.

Definition __mem_free (info ptr : Z) : M unit :=
  let chunk := ptr - SHMEM_SIZE_FIELD in
  w ← load chunk;
  let chunk_size := CHUNK_SIZE w in
  _ ← info_add info OFF_USED_SIZE (- chunk_size);
  _ ← info_add info OFF_FREE_SIZE chunk_size;
  let next_chunk := chunk + SHMEM_SIZE_FIELD + chunk_size + SHMEM_SIZE_FIELD in
  prev_free ← is_prev_free info chunk;
  next_free ← is_next_free info next_chunk;
  match prev_free, next_free with
  | true, true =>
      _ ← info_add info OFF_FREE_SIZE (4 * SHMEM_SIZE_FIELD);
      w ← load (chunk - SHMEM_SIZE_FIELD);
      let prev_chunk := chunk - SHMEM_SIZE_FIELD - CHUNK_SIZE w - SHMEM_SIZE_FIELD in
      p ← load prev_chunk;
      n ← load next_chunk;
      let chunk_size := chunk_size + (4 * SHMEM_SIZE_FIELD + CHUNK_SIZE p + CHUNK_SIZE n) in
      _ ← mem_unlink_chunk info prev_chunk;
      _ ← mem_unlink_chunk info next_chunk;
      _ ← mem_set_chunk_size prev_chunk chunk_size;
      mem_link_chunk info prev_chunk
  | true, false =>
      _ ← info_add info OFF_FREE_SIZE (2 * SHMEM_SIZE_FIELD);
      w ← load (chunk - SHMEM_SIZE_FIELD);
      let prev_chunk := chunk - SHMEM_SIZE_FIELD - CHUNK_SIZE w - SHMEM_SIZE_FIELD in
      p ← load prev_chunk;
      let chunk_size := chunk_size + (2 * SHMEM_SIZE_FIELD + CHUNK_SIZE p) in
      _ ← mem_unlink_chunk info prev_chunk;
      _ ← mem_set_chunk_size prev_chunk chunk_size;
      mem_link_chunk info prev_chunk
  | false, true =>
      _ ← info_add info OFF_FREE_SIZE (2 * SHMEM_SIZE_FIELD);
      n ← load next_chunk;
      let chunk_size := chunk_size + (2 * SHMEM_SIZE_FIELD + CHUNK_SIZE n) in
      _ ← mem_unlink_chunk info next_chunk;
      _ ← mem_set_chunk_size chunk chunk_size;
      mem_link_chunk info chunk
  | false, false =>
      _ ← mem_set_chunk_size chunk chunk_size;
      mem_link_chunk info chunk
  end.

(* ------------------------------------------------------------------ *)
(** ** __mem_realloc *)

(** Give the end of a used chunk back: to the free chunk after it or as a
    chunk of its own. *)
Definition shrink_chunk (info chunk chunk_size size next_chunk : Z) (next_free : bool) : M unit :=
  let new_chunk := chunk + SHMEM_SIZE_FIELD + size + SHMEM_SIZE_FIELD in
  if next_free then
    _ ← info_add info OFF_USED_SIZE (- (chunk_size - size));
    _ ← info_add info OFF_FREE_SIZE (chunk_size - size);
    n ← load next_chunk;
    let new_chunk_size := CHUNK_SIZE n + (chunk_size - size) in
    _ ← mem_unlink_chunk info next_chunk;
    _ ← mem_set_chunk_size new_chunk new_chunk_size;
    _ ← mem_link_chunk info new_chunk;
    mem_set_used_chunk_size chunk size
  else
    _ ← info_add info OFF_USED_SIZE (- (chunk_size - size));
    _ ← info_add info OFF_FREE_SIZE (chunk_size - size - 2 * SHMEM_SIZE_FIELD);
    let new_chunk_size := chunk_size - size - 2 * SHMEM_SIZE_FIELD in
    _ ← mem_set_chunk_size new_chunk new_chunk_size;
    _ ← mem_link_chunk info new_chunk;
    mem_set_used_chunk_size chunk size.

(** The free chunk after the used one is large enough. *)
Definition extend_chunk (info chunk chunk_size size next_chunk : Z) : M unit :=
  _ ← info_add info OFF_USED_SIZE (- chunk_size);
  _ ← info_add info OFF_FREE_SIZE (chunk_size + 2 * SHMEM_SIZE_FIELD);
  n ← load next_chunk;
  let chunk_size := chunk_size + (2 * SHMEM_SIZE_FIELD + CHUNK_SIZE n) in
  _ ← mem_unlink_chunk info next_chunk;
  use_or_split info chunk chunk_size size.

(** The size the chunk would have if it was freed. *)
Definition merged_size (info chunk chunk_size next_chunk : Z) (next_free : bool) : M Z :=
  new_chunk_size ← (if next_free then n ← load next_chunk;
      mret (chunk_size + (CHUNK_SIZE n + 2 * SHMEM_SIZE_FIELD)) else mret chunk_size);
  prev_free ← is_prev_free info chunk;
  if prev_free : bool then p ← load (chunk - SHMEM_SIZE_FIELD);
    mret (new_chunk_size + (CHUNK_SIZE p + 2 * SHMEM_SIZE_FIELD)) else mret new_chunk_size.

(** Free the chunk first, with its contents kept in private memory. *)
Definition free_then_malloc (info old chunk chunk_size size : Z) : M Z :=
  tmp ← read_words (Z.to_nat (chunk_size / 8)) (chunk + SHMEM_SIZE_FIELD);
  _ ← __mem_free info old;
  new_chunk ← __mem_malloc info size;
  if new_chunk =? 0 then m_exit else
  _ ← write_words (new_chunk + SHMEM_SIZE_FIELD) tmp;
  mret new_chunk.

Definition __mem_realloc (info old size : Z) : M Z :=
  let size := mem_proper_alloc_size size in
  let chunk := old - SHMEM_SIZE_FIELD in
  w ← load chunk;
  let chunk_size := CHUNK_SIZE w in
  let next_chunk := chunk + SHMEM_SIZE_FIELD + chunk_size + SHMEM_SIZE_FIELD in
  next_free ← is_next_free info next_chunk;
  if size <=? chunk_size then
    if chunk_size / 4 <? size then mret chunk
    else _ ← shrink_chunk info chunk chunk_size size next_chunk next_free; mret chunk
  else
    fits ← (if next_free : bool then n ← load next_chunk;
              mret (size <=? chunk_size + 2 * SHMEM_SIZE_FIELD + CHUNK_SIZE n) else mret false);
    if fits : bool then _ ← extend_chunk info chunk chunk_size size next_chunk; mret chunk
    else
      new_chunk ← __mem_malloc info size;
      if new_chunk =? 0 then
        new_chunk_size ← merged_size info chunk chunk_size next_chunk next_free;
        if new_chunk_size <? size then mret 0
        else free_then_malloc info old chunk chunk_size size
      else
        _ ← copy_words (Z.to_nat (chunk_size / 8)) (new_chunk + SHMEM_SIZE_FIELD) (chunk + SHMEM_SIZE_FIELD);
        _ ← __mem_free info old;
        mret new_chunk.

(* ------------------------------------------------------------------ *)
(** ** The public interface *)

(** memset of the buckets. *)
Fixpoint clear_words (n : nat) (a : Z) : M unit :=
  match n with
  | O => mret tt
  | S n' => _ ← store a 0; clear_words n' (a + ZBX_PTR_SIZE)
  end.

(** The one big chunk of an empty segment. *)
Definition first_chunk (info : Z) : M unit :=
  total ← load (info + OFF_TOTAL_SIZE);
  lo ← load (info + OFF_LO_BOUND);
  let index := mem_bucket_by_size total in
  _ ← set_bucket info index lo;
  chunk ← get_bucket info index;
  _ ← mem_set_chunk_size chunk total;
  chunk ← get_bucket info index;
  _ ← mem_set_prev_chunk chunk 0;
  chunk ← get_bucket info index;
  mem_set_next_chunk chunk 0.

(** zbx_strlcpy of a string of length [len] to [dst] with room for [siz] bytes:
    the bytes it writes must be in the segment. *)
Definition strlcpy (seg orig dst len siz : Z) : M unit :=
  let n := if siz =? 0 then 0 else Z.min len (siz - 1) + 1 in
  if (n =? 0) || ((seg <=? dst) && (dst + n <=? seg + orig)) then mret tt else fun _ => Undef.

(** [attached] is what shmget and shmat give: the identifier and the address of
    a segment of [size] bytes; [descr] and [param] are the lengths of the
    strings.  The result is the address of the info structure or FAIL. *)
Definition zbx_shmem_create (attached : option (Z * Z)) (size descr param allow_oom : Z) : M (option Z) :=
  if negb ((SHMEM_MIN_SIZE <=? size) && (size <=? SHMEM_MAX_SIZE)) then mret None else
  match attached with
  | None => mret None
  | Some (shm_id, base) =>
      let orig := size in
      let seg := base in
      let info := ALIGN8 base in
      _ ← store (info + OFF_BASE) base;
      _ ← store (info + OFF_ORIG_SIZE) size;
      let size := u64 (size - (info + SIZEOF_INFO - base)) in
      let base := info + SIZEOF_INFO in
      let buckets := ALIGN8 base in
      _ ← store (info + OFF_BUCKETS) buckets;
      _ ← clear_words (Z.to_nat ZBX_SHMEM_BUCKET_COUNT) buckets;
      let size := u64 (size - (buckets + ZBX_PTR_SIZE * ZBX_SHMEM_BUCKET_COUNT - base)) in
      let base := buckets + ZBX_PTR_SIZE * ZBX_SHMEM_BUCKET_COUNT in
      _ ← strlcpy seg orig base descr size;
      _ ← store (info + OFF_MEM_DESCR) base;
      let size := u64 (size - (descr + 1)) in
      let base := base + (descr + 1) in
      _ ← strlcpy seg orig base param size;
      _ ← store (info + OFF_MEM_PARAM) base;
      let size := u64 (size - (param + 1)) in
      let base := base + (param + 1) in
      _ ← store (info + OFF_SHM_ID) (Z.lor (u32 shm_id) (Z.shiftl (u8 allow_oom) 32));
      _ ← store (info + OFF_UNLOCK) 0;
      let lo := ALIGN8 base in
      let hi := ALIGN8 (base + size - 8) in
      _ ← store (info + OFF_LO_BOUND) lo;
      _ ← store (info + OFF_HI_BOUND) hi;
      let total := u64 (hi - lo - 2 * SHMEM_SIZE_FIELD) in
      _ ← store (info + OFF_TOTAL_SIZE) total;
      _ ← first_chunk info;
      _ ← store (info + OFF_USED_SIZE) 0;
      _ ← store (info + OFF_FREE_SIZE) total;
      mret (Some info)
  end.

(** The size zbx_shmem_create_min() requests; [attach] maps the size of a
    segment to what shmget and shmat give. *)
Definition shmem_min_request (size descr param : Z) : Z :=
  let base := ALIGN8 SIZEOF_INFO in
  let base := base + ZBX_PTR_SIZE * ZBX_SHMEM_BUCKET_COUNT in
  let base := base + (descr + 1) in
  let base := base + (param + 1) in
  let base := ALIGN8 base in
  u64 (u64 (u64 (size + base) + 8) + 2 * SHMEM_SIZE_FIELD).

Definition zbx_shmem_create_min (attach : Z -> option (Z * Z)) (size descr param allow_oom : Z) : M (option Z) :=
  let size := shmem_min_request size descr param in
  zbx_shmem_create (attach size) size descr param allow_oom.

(** Out of memory: the process ends unless the segment allows it. *)
Definition get_allow_oom (info : Z) : M Z :=
  w ← load (info + OFF_SHM_ID);
  mret (Z.land (Z.shiftr w 32) 255).

Definition chunk_or_oom (info chunk : Z) : M Z :=
  if chunk =? 0 then
    allow_oom ← get_allow_oom info;
    if allow_oom =? 1 then mret 0 else m_exit
  else mret (chunk + SHMEM_SIZE_FIELD).

Definition bad_size (size : Z) : bool := (size =? 0) || (SHMEM_MAX_SIZE <? size).

Definition __zbx_shmem_malloc (info old size : Z) : M Z :=
  if negb (old =? 0) then m_exit
  else if bad_size size then m_exit
  else chunk ← __mem_malloc info size; chunk_or_oom info chunk.

Definition __zbx_shmem_realloc (info old size : Z) : M Z :=
  if bad_size size then m_exit
  else
    chunk ← (if old =? 0 then __mem_malloc info size else __mem_realloc info old size);
    chunk_or_oom info chunk.

Definition __zbx_shmem_free (info ptr : Z) : M unit :=
  if ptr =? 0 then m_exit else __mem_free info ptr.

Definition zbx_shmem_clear (info : Z) : M unit :=
  buckets ← load (info + OFF_BUCKETS);
  _ ← clear_words (Z.to_nat ZBX_SHMEM_BUCKET_COUNT) buckets;
  _ ← first_chunk info;
  _ ← store (info + OFF_USED_SIZE) 0;
  total ← load (info + OFF_TOTAL_SIZE);
  store (info + OFF_FREE_SIZE) total.

(** ** Statistics *)

Record zbx_shmem_stats : Type := mkStats {
  free_size : Z; used_size : Z; min_chunk_size : Z; max_chunk_size : Z; overhead : Z;
  chunks_num : list Z; free_chunks : Z; used_chunks : Z
}.

(** One list: the loop state is the chunk, the counter, the smallest and the
    largest size. *)
Definition stats_step (s : Z * Z * Z * Z) : M ((Z * Z * Z * Z) + (Z * Z * Z)) :=
  let '(chunk, counter, mn, mx) := s in
  if chunk =? 0 then mret (inr (counter, mn, mx)) else
  w ← load chunk;
  next ← mem_get_next_chunk chunk;
  mret (inl (next, u64 (counter + 1), Z.min mn (CHUNK_SIZE w), Z.max mx (CHUNK_SIZE w))).

Fixpoint stats_buckets (n : nat) (info i free_chunks mn mx : Z) : M (list Z * Z * Z * Z) :=
  match n with
  | O => mret ([], free_chunks, mn, mx)
  | S n' =>
      chunk ← get_bucket info i;
      r ← mwhile FIT_BOUND stats_step (chunk, 0, mn, mx);
      let '(counter, mn, mx) := r in
      rest ← stats_buckets n' info (i + 1) (u32 (free_chunks + counter)) mn mx;
      let '(nums, free_chunks, mn, mx) := rest in
      mret (u32 counter :: nums, free_chunks, mn, mx)
  end.

Definition zbx_shmem_get_stats (info : Z) : M zbx_shmem_stats :=
  r ← stats_buckets (Z.to_nat ZBX_SHMEM_BUCKET_COUNT) info 0 0 ZBX_MAX_UINT64 0;
  let '(nums, free_chunks, mn, mx) := r in
  let mn := if mn =? ZBX_MAX_UINT64 then 0 else mn in
  total ← load (info + OFF_TOTAL_SIZE);
  used ← load (info + OFF_USED_SIZE);
  free ← load (info + OFF_FREE_SIZE);
  let overhead := u64 (total - used - free) in
  mret (mkStats free used mn mx overhead nums free_chunks
    (u32 (overhead / (2 * SHMEM_SIZE_FIELD) + 1 - free_chunks))).

Definition zbx_shmem_required_size (chunks_num descr param : Z) : Z :=
  7 + SIZEOF_INFO + (ZBX_PTR_SIZE - 1) + ZBX_PTR_SIZE * ZBX_SHMEM_BUCKET_COUNT +
  (descr + 1) + (param + 1) + (SHMEM_SIZE_FIELD - 1) + 8 + (SHMEM_SIZE_FIELD - 1) + 8 +
  (chunks_num - 1) * SHMEM_SIZE_FIELD * 2 + chunks_num * (SHMEM_MIN_ALLOC - 1).

Definition zbx_shmem_required_chunk_size (size : Z) : Z :=
  if size =? 0 then 0 else u64 (mem_proper_alloc_size size + SHMEM_SIZE_FIELD * 2).
