(* ===== verification/ShmemLayout.v ===== *)
(** The abstract state of a shared memory segment: the chunks that tile it, in
    address order.  What malloc, free and realloc make of the chunks, and that
    they keep the segment tiled and its free chunks merged. *)

From stdpp Require Import base list numbers option gmap.
From Stdlib Require Import ZArith Lia.
From S2P Require Import Prelude Memory Shmem.

Open Scope Z_scope.

Record chunk : Type := Chunk { caddr : Z; csize : Z; cused : bool }.

#[export] Instance chunk_eq_dec : EqDecision chunk.
Proof. solve_decision. Defined.

Definition is_free (c : chunk) : Prop := cused c = false.
Definition is_used (c : chunk) : Prop := cused c = true.
#[export] Instance is_free_dec (c : chunk) : Decision (is_free c).
Proof. unfold is_free. apply _. Defined.
#[export] Instance is_used_dec (c : chunk) : Decision (is_used c).
Proof. unfold is_used. apply _. Defined.

Definition free_of (cs : list chunk) : list chunk := filter is_free cs.
Definition used_of (cs : list chunk) : list chunk := filter is_used cs.

(** The size word of a chunk. *)
Definition tag (c : chunk) : Z := if cused c then Z.lor SHMEM_FLG_USED (csize c) else csize c.

(** The address after a chunk. *)
Definition cend (c : chunk) : Z := caddr c + 2 * SHMEM_SIZE_FIELD + csize c.

Definition size_ok (s : Z) : Prop := SHMEM_MIN_ALLOC <= s /\ s mod 8 = 0.

(** The chunks [cs] fill the addresses from [a] to [b]. *)
Fixpoint tiling (a : Z) (cs : list chunk) (b : Z) : Prop :=
  match cs with
  | [] => a = b
  | c :: cs' => caddr c = a /\ size_ok (csize c) /\ tiling (cend c) cs' b
  end.

(** No two free chunks are neighbours; [pf] tells that a free one is before. *)
Fixpoint coalesced (pf : bool) (cs : list chunk) : Prop :=
  match cs with
  | [] => True
  | c :: cs' => (pf = true -> cused c = true) /\ coalesced (negb (cused c)) cs'
  end.

Fixpoint last_free (pf : bool) (cs : list chunk) : bool :=
  match cs with
  | [] => pf
  | c :: cs' => last_free (negb (cused c)) cs'
  end.

Definition sum_size (cs : list chunk) : Z := foldr (fun c z => csize c + z) 0 cs.

(** ** The effect of the operations on the chunks *)

(** use_or_split: [size] of the [chunk_size] bytes at [a] are used. *)
Definition take_chunk (a chunk_size size : Z) : list chunk :=
  if chunk_size <? size + 2 * SHMEM_SIZE_FIELD + SHMEM_MIN_ALLOC then [Chunk a chunk_size true]
  else [Chunk a size true;
        Chunk (a + 2 * SHMEM_SIZE_FIELD + size) (chunk_size - size - 2 * SHMEM_SIZE_FIELD) false].

(** free: where the merged chunk starts and what is before it. *)
Definition before_free (cs1 : list chunk) (c : chunk) : list chunk * Z :=
  match last cs1 with
  | Some p => if cused p then (cs1, caddr c) else (removelast cs1, caddr p)
  | None => (cs1, caddr c)
  end.

(** free: where the merged chunk ends and what is after it. *)
Definition after_free (c : chunk) (cs2 : list chunk) : list chunk * Z :=
  match cs2 with
  | n :: cs2' => if cused n then (cs2, cend c) else (cs2', cend n)
  | [] => (cs2, cend c)
  end.

Definition merged_chunk (a e : Z) : chunk := Chunk a (e - a - 2 * SHMEM_SIZE_FIELD) false.

Definition release (cs1 : list chunk) (c : chunk) (cs2 : list chunk) : list chunk :=
  let '(cs1', a) := before_free cs1 c in
  let '(cs2', e) := after_free c cs2 in
  cs1' ++ merged_chunk a e :: cs2'.

(* ------------------------------------------------------------------ *)
(** ** Words and sizes *)

Lemma land_flag_small (s : Z) : 0 <= s < 2 ^ 63 -> Z.land s SHMEM_FLG_USED = 0.
Proof.
  intros Hs. unfold SHMEM_FLG_USED. apply Z.bits_inj'. intros i Hi.
  rewrite Z.land_spec, Z.bits_0, Z.shiftl_1_l.
  destruct (decide (i = 63)) as [-> | Hne].
  - assert (Z.testbit s 63 = false) as ->; [|done].
    apply Z.testbit_false; [lia|]. by rewrite Z.div_small.
  - rewrite Z.pow2_bits_false by lia. apply andb_false_r.
Qed.

Lemma FREE_CHUNK_tag (c : chunk) : 0 <= csize c < 2 ^ 63 -> FREE_CHUNK (tag c) = negb (cused c).
Proof.
  intros Hs. unfold FREE_CHUNK, tag. destruct (cused c); simpl.
  - rewrite Z.land_lor_distr_l, Z.land_diag, land_flag_small by done. by rewrite Z.lor_0_r.
  - by rewrite land_flag_small.
Qed.

Lemma CHUNK_SIZE_tag (c : chunk) : 0 <= csize c < 2 ^ 63 -> CHUNK_SIZE (tag c) = csize c.
Proof.
  intros Hs. unfold CHUNK_SIZE, tag. destruct (cused c).
  - rewrite Z.land_lor_distr_l. replace (Z.land SHMEM_FLG_USED (Z.ones 63)) with 0 by done.
    rewrite Z.lor_0_l, Z.land_ones by lia. by apply Z.mod_small.
  - rewrite Z.land_ones by lia. by apply Z.mod_small.
Qed.

Lemma CHUNK_SIZE_small (s : Z) : 0 <= s < 2 ^ 63 -> CHUNK_SIZE s = s.
Proof. apply (CHUNK_SIZE_tag (Chunk 0 s false)). Qed.

(** Rounding up to a multiple of 8, at least the smallest size. *)
Lemma mem_proper_alloc_size_spec (size : Z) :
  0 <= size <= SHMEM_MAX_SIZE ->
  size_ok (mem_proper_alloc_size size) /\ size <= mem_proper_alloc_size size < size + 8 \/
  size < SHMEM_MIN_ALLOC /\ mem_proper_alloc_size size = SHMEM_MIN_ALLOC.
Proof.
  unfold mem_proper_alloc_size, size_ok, SHMEM_MAX_SIZE, SHMEM_MIN_ALLOC. intros Hs.
  destruct (Z.leb_spec 24 size); [left|right; lia].
  change 7 with (2 ^ 3 - 1). rewrite !land_ones_mod by lia. change (2 ^ 3) with 8.
  assert (Hr : 0 <= (8 - size mod 8) mod 8 < 8) by zlia.
  rewrite u64_small by lia. repeat split; zlia.
Qed.

Lemma proper_size_ok (size : Z) :
  0 <= size <= SHMEM_MAX_SIZE ->
  size_ok (mem_proper_alloc_size size) /\ size <= mem_proper_alloc_size size <= SHMEM_MAX_SIZE.
Proof.
  intros Hs. destruct (mem_proper_alloc_size_spec size Hs) as [[[H1 H2] H3] | [H1 ->]].
  - split; [done|]. unfold SHMEM_MAX_SIZE in *. split; [lia|]. zlia.
  - unfold size_ok, SHMEM_MIN_ALLOC, SHMEM_MAX_SIZE in *. split; [done|lia].
Qed.

(** The size classes: one size each, up to the last one. *)
Lemma bucket_range (s : Z) : 0 <= mem_bucket_by_size s < ZBX_SHMEM_BUCKET_COUNT.
Proof.
  unfold mem_bucket_by_size, ZBX_SHMEM_BUCKET_COUNT, ZBX_SHMEM_MIN_BUCKET_SIZE, SHMEM_MIN_ALLOC, SHMEM_MAX_BUCKET_SIZE.
  change ((256 - 24) / 8 + 1) with 30.
  repeat case_match; rewrite ?Z.shiftr_div_pow2 by lia; simpl; zlia.
Qed.

Lemma bucket_size (s : Z) :
  size_ok s -> mem_bucket_by_size s = if s <? 256 then (s - 24) / 8 else 29.
Proof.
  intros [H1 H2]. unfold mem_bucket_by_size, ZBX_SHMEM_MIN_BUCKET_SIZE, SHMEM_MIN_ALLOC, SHMEM_MAX_BUCKET_SIZE in *.
  destruct (Z.ltb_spec s 24); [lia|]. by rewrite Z.shiftr_div_pow2 by lia.
Qed.

Lemma bucket_mono (s t : Z) : size_ok s -> size_ok t -> s <= t -> mem_bucket_by_size s <= mem_bucket_by_size t.
Proof.
  intros Hs Ht Hle. rewrite !bucket_size by done. destruct Hs, Ht.
  destruct (Z.ltb_spec s 256), (Z.ltb_spec t 256); zlia.
Qed.

Lemma bucket_small (s t : Z) :
  size_ok s -> size_ok t -> mem_bucket_by_size s <= mem_bucket_by_size t -> mem_bucket_by_size s < 29 -> s <= t.
Proof.
  intros Hs Ht. rewrite !bucket_size by done. destruct Hs, Ht.
  destruct (Z.ltb_spec s 256), (Z.ltb_spec t 256); zlia.
Qed.

(* ------------------------------------------------------------------ *)
(** ** Tilings *)

Lemma tiling_app (a b : Z) (l1 l2 : list chunk) :
  tiling a (l1 ++ l2) b <-> exists m, tiling a l1 m /\ tiling m l2 b.
Proof.
  revert a. induction l1 as [|c l1 IH]; intros a; simpl.
  - split; [eauto|]. by intros (m & -> & H).
  - rewrite IH. split.
    + intros (H1 & H2 & m & H3 & H4). eauto 10.
    + intros (m & (H1 & H2 & H3) & H4). eauto 10.
Qed.

Lemma tiling_le (a b : Z) (cs : list chunk) : tiling a cs b -> a <= b.
Proof.
  revert a. induction cs as [|c cs IH]; intros a; simpl; [lia|].
  intros (<- & [H _] & H2). apply IH in H2. unfold cend, SHMEM_SIZE_FIELD, SHMEM_MIN_ALLOC in *. lia.
Qed.

Lemma tiling_bounds (a b : Z) (cs : list chunk) (c : chunk) :
  tiling a cs b -> c ∈ cs -> a <= caddr c /\ cend c <= b /\ size_ok (csize c).
Proof.
  intros H Hc. apply list_elem_of_split in Hc as (l1 & l2 & ->).
  apply tiling_app in H as (m & H1 & H2 & H3 & H4).
  apply tiling_le in H1, H4. split_and!; lia || done.
Qed.

Lemma coalesced_app (pf : bool) (l1 l2 : list chunk) :
  coalesced pf (l1 ++ l2) <-> coalesced pf l1 /\ coalesced (last_free pf l1) l2.
Proof.
  revert pf. induction l1 as [|c l1 IH]; intros pf; simpl; [tauto|]. rewrite IH. tauto.
Qed.

Lemma coalesced_weaken (pf pf' : bool) (l : list chunk) :
  coalesced pf l -> (pf' = true -> pf = true) -> coalesced pf' l.
Proof. destruct l; simpl; [done|]. naive_solver. Qed.

Lemma last_free_app (pf : bool) (l1 l2 : list chunk) :
  last_free pf (l1 ++ l2) = last_free (last_free pf l1) l2.
Proof. revert pf. induction l1; simpl; auto. Qed.

Lemma sum_size_app (l1 l2 : list chunk) : sum_size (l1 ++ l2) = sum_size l1 + sum_size l2.
Proof. induction l1; simpl; lia. Qed.

Lemma sum_size_perm (l1 l2 : list chunk) : l1 ≡ₚ l2 -> sum_size l1 = sum_size l2.
Proof. induction 1; simpl; lia. Qed.

(** The chunks and their size words make up the segment. *)
Lemma tiling_sum (a b : Z) (cs : list chunk) :
  tiling a cs b ->
  sum_size (used_of cs) + sum_size (free_of cs) + 16 * Z.of_nat (length cs) = b - a.
Proof.
  revert a. induction cs as [|c cs IH]; intros a; simpl; [lia|].
  intros (<- & _ & H). apply IH in H. unfold used_of, free_of in *.
  rewrite !filter_cons. unfold cend, SHMEM_SIZE_FIELD in H.
  destruct (cused c) eqn:E; repeat case_decide; unfold is_used, is_free in *; try congruence; simpl; lia.
Qed.

Lemma free_of_app (l1 l2 : list chunk) : free_of (l1 ++ l2) = free_of l1 ++ free_of l2.
Proof. apply filter_app. Qed.
Lemma used_of_app (l1 l2 : list chunk) : used_of (l1 ++ l2) = used_of l1 ++ used_of l2.
Proof. apply filter_app. Qed.
Lemma free_of_cons (c : chunk) (l : list chunk) :
  free_of (c :: l) = if cused c then free_of l else c :: free_of l.
Proof.
  unfold free_of. rewrite filter_cons. case_decide as H; unfold is_free in H; destruct (cused c); done.
Qed.
Lemma used_of_cons (c : chunk) (l : list chunk) :
  used_of (c :: l) = if cused c then c :: used_of l else used_of l.
Proof.
  unfold used_of. rewrite filter_cons. case_decide as H; unfold is_used in H; destruct (cused c); done.
Qed.

(* ------------------------------------------------------------------ *)
(** ** Well-formed segments *)

(** The segment from [lo] to [hi] is tiled by merged chunks; 2^37 is above the
    largest segment zbx_shmem_create() accepts. *)
Definition layout_ok (lo hi : Z) (cs : list chunk) : Prop :=
  0 < lo /\ lo < hi /\ hi - lo <= 2 ^ 37 /\ tiling lo cs hi /\ coalesced false cs.

Lemma layout_chunk (lo hi : Z) (cs : list chunk) (c : chunk) :
  layout_ok lo hi cs -> c ∈ cs ->
  lo <= caddr c /\ cend c <= hi /\ size_ok (csize c) /\ csize c < 2 ^ 37 /\ 0 < caddr c.
Proof.
  intros (H1 & H2 & H3 & H4 & _) Hc. destruct (tiling_bounds _ _ _ _ H4 Hc) as (? & ? & ?).
  unfold cend, SHMEM_SIZE_FIELD in *. split_and!; lia || done.
Qed.

Lemma layout_elem_size (lo hi : Z) (cs : list chunk) (c : chunk) :
  layout_ok lo hi cs -> c ∈ cs -> 0 <= csize c < 2 ^ 63.
Proof. intros H Hc. destruct (layout_chunk _ _ _ _ H Hc) as (_ & _ & [? _] & ? & _). unfold SHMEM_MIN_ALLOC in *. lia. Qed.

Lemma layout_replace (lo hi : Z) (cs1 l l' cs2 : list chunk) :
  layout_ok lo hi (cs1 ++ l ++ cs2) ->
  (forall a b, tiling a l b -> tiling a l' b) ->
  (coalesced (last_free false cs1) (l ++ cs2) -> coalesced (last_free false cs1) (l' ++ cs2)) ->
  layout_ok lo hi (cs1 ++ l' ++ cs2).
Proof.
  intros (H1 & H2 & H3 & H4 & H5) Ht Hc. split_and!; [done..| |].
  - apply tiling_app in H4 as (m & Hm1 & Hm2). apply tiling_app in Hm2 as (m' & Hm2 & Hm3).
    apply tiling_app. exists m. split; [done|]. apply tiling_app. exists m'. auto.
  - apply coalesced_app in H5 as [Hc1 Hc2]. apply coalesced_app. auto.
Qed.

(** *** use_or_split *)

Lemma take_chunk_cases (a s size : Z) :
  (s < size + 40 /\ take_chunk a s size = [Chunk a s true]) \/
  (size + 40 <= s /\
   take_chunk a s size = [Chunk a size true; Chunk (a + 16 + size) (s - size - 16) false]).
Proof.
  unfold take_chunk, SHMEM_SIZE_FIELD, SHMEM_MIN_ALLOC. destruct (Z.ltb_spec s (size + 2 * 8 + 24)); [left|right].
  - split; [lia|done].
  - split; [lia|]. by change (2 * 8) with 16.
Qed.

Lemma take_chunk_tiling (a b s size : Z) :
  size_ok size -> size_ok s -> size <= s -> b = a + 16 + s -> tiling a (take_chunk a s size) b.
Proof.
  intros [Hz1 Hz2] [Hs1 Hs2] Hle ->. unfold SHMEM_MIN_ALLOC in *.
  destruct (take_chunk_cases a s size) as [[Hc ->] | [Hc ->]]; simpl; unfold cend, size_ok, SHMEM_SIZE_FIELD, SHMEM_MIN_ALLOC; simpl.
  - split_and!; lia.
  - split_and!; zlia.
Qed.

Lemma take_chunk_used (a s size : Z) :
  exists s', used_of (take_chunk a s size) = [Chunk a s' true] /\
    (size <= s -> size <= s') /\ s' < size + 40 /\ head (take_chunk a s size) = Some (Chunk a s' true).
Proof. destruct (take_chunk_cases a s size) as [[Hc ->] | [Hc ->]]; eexists; (split; [done|]); (split; [lia|]); (split; [simpl; lia|done]). Qed.

Lemma take_chunk_coalesced (pf : bool) (a s size : Z) (cs : list chunk) :
  coalesced true cs -> coalesced pf (take_chunk a s size ++ cs).
Proof.
  intros Hcs. destruct (take_chunk_cases a s size) as [[Hc ->] | [Hc ->]]; simpl; [|done].
  split; [done|]. by eapply coalesced_weaken.
Qed.

Lemma take_ok (lo hi : Z) (cs1 : list chunk) (c : chunk) (cs2 : list chunk) (size : Z) :
  layout_ok lo hi (cs1 ++ c :: cs2) -> is_free c -> size_ok size -> size <= csize c ->
  layout_ok lo hi (cs1 ++ take_chunk (caddr c) (csize c) size ++ cs2).
Proof.
  intros H Hf Hz Hle. apply (layout_replace lo hi cs1 [c]); [done|..].
  - intros a b (<- & Hs & <-). apply take_chunk_tiling; done || (unfold cend, SHMEM_SIZE_FIELD; lia).
  - simpl. rewrite Hf. intros [_ Hc]. by apply take_chunk_coalesced.
Qed.

(** realloc: a used chunk and the free chunk after it become one. *)
Lemma extend_ok (lo hi : Z) (cs1 : list chunk) (c n : chunk) (cs2 : list chunk) (size : Z) :
  layout_ok lo hi (cs1 ++ c :: n :: cs2) -> is_free n -> size_ok size ->
  size <= csize c + 16 + csize n ->
  layout_ok lo hi (cs1 ++ take_chunk (caddr c) (csize c + 16 + csize n) size ++ cs2).
Proof.
  intros H Hf Hz Hle. apply (layout_replace lo hi cs1 [c; n]); [done|..].
  - intros a b (<- & [Hs1 Hs2] & Hn & [Hn1 Hn2] & <-). unfold cend, SHMEM_SIZE_FIELD in *.
    apply take_chunk_tiling; [done| |done|lia].
    unfold size_ok, SHMEM_MIN_ALLOC in *. split; [lia|zlia].
  - simpl. rewrite Hf. intros (_ & _ & Hc). by apply take_chunk_coalesced.
Qed.

(** realloc: a used chunk of [s] bytes keeps [size] of them. *)
Definition shrunk (c : chunk) (size e : Z) : list chunk :=
  [Chunk (caddr c) size true;
   Chunk (caddr c + 2 * SHMEM_SIZE_FIELD + size) (e - (caddr c + 2 * SHMEM_SIZE_FIELD + size) - 2 * SHMEM_SIZE_FIELD) false].

Lemma shrunk_tiling (c : chunk) (size e : Z) :
  size_ok size -> caddr c + 16 + size + 40 <= e -> (e - caddr c) mod 8 = 0 ->
  tiling (caddr c) (shrunk c size e) e.
Proof.
  intros [Hz1 Hz2] Hle Hm. unfold shrunk. simpl. unfold cend, size_ok, SHMEM_SIZE_FIELD, SHMEM_MIN_ALLOC in *; simpl.
  split_and!; zlia.
Qed.

(** *** free *)

Lemma before_free_cases (cs1 : list chunk) (c : chunk) :
  (last_free false cs1 = false /\ before_free cs1 c = (cs1, caddr c)) \/
  (exists cs1' p, cs1 = cs1' ++ [p] /\ is_free p /\ before_free cs1 c = (cs1', caddr p)).
Proof.
  unfold before_free. destruct (last cs1) as [p|] eqn:E.
  - apply last_Some in E as (l & ->). destruct (cused p) eqn:Hp; [left|right].
    + split; [|done]. rewrite last_free_app. simpl. by rewrite Hp.
    + exists l, p. by rewrite removelast_last.
  - apply last_None in E as ->. by left.
Qed.

Lemma after_free_cases (c : chunk) (cs2 : list chunk) :
  (exists n cs2', cs2 = n :: cs2' /\ is_free n /\ after_free c cs2 = (cs2', cend n)) \/
  ((forall n cs2', cs2 = n :: cs2' -> is_used n) /\ after_free c cs2 = (cs2, cend c)).
Proof.
  destruct cs2 as [|n cs2]; simpl.
  - right. split; [by intros ??|done].
  - destruct (cused n) eqn:Hn; [right|left; eauto]. split; [|done]. by intros ?? [= <- <-].
Qed.

Lemma coalesced_head_used (pf : bool) (l : list chunk) :
  (forall n l', l = n :: l' -> is_used n) -> coalesced false l -> coalesced pf l.
Proof. destruct l as [|n l]; simpl; [done|]. intros H [_ Hc]. split; [|done]. intros _. by apply (H n l). Qed.

Lemma shrink_ok (lo hi : Z) (cs1 : list chunk) (c : chunk) (cs2 : list chunk) (size : Z) :
  layout_ok lo hi (cs1 ++ c :: cs2) -> is_used c -> size_ok size -> size <= csize c / 4 ->
  layout_ok lo hi (cs1 ++ shrunk c size (after_free c cs2).2 ++ (after_free c cs2).1).
Proof.
  intros H Hu Hz Hle.
  destruct (after_free_cases c cs2) as [(n & cs2' & -> & Hn & ->) | [Hn ->]]; cbn [fst snd].
  - apply (layout_replace lo hi cs1 [c; n]); [done|..].
    + intros a b (<- & [Hs1 Hs2] & Ha & [Hn1 Hn2] & <-). destruct Hz as [Hz1 Hz2].
      unfold size_ok, cend, SHMEM_SIZE_FIELD, SHMEM_MIN_ALLOC in *. apply shrunk_tiling; [done|zlia|zlia].
    + simpl. rewrite Hn. naive_solver.
  - apply (layout_replace lo hi cs1 [c]); [done|..].
    + intros a b (<- & [Hs1 Hs2] & <-). destruct Hz as [Hz1 Hz2].
      unfold size_ok, cend, SHMEM_SIZE_FIELD, SHMEM_MIN_ALLOC in *. apply shrunk_tiling; [done|zlia|zlia].
    + simpl. rewrite Hu. intros [_ Hc]. split; [done|]. split; [done|]. by apply coalesced_head_used.
Qed.

(** What is freed: the merged chunk replaces the neighbours and [c]. *)
Lemma release_split (cs1 : list chunk) (c : chunk) (cs2 : list chunk) :
  exists cs1' ps ns cs2' a e,
    cs1 = cs1' ++ ps /\ cs2 = ns ++ cs2' /\ Forall is_free (ps ++ ns) /\
    release cs1 c cs2 = cs1' ++ merged_chunk a e :: cs2' /\
    before_free cs1 c = (cs1', a) /\ after_free c cs2 = (cs2', e) /\
    (coalesced false (cs1 ++ c :: cs2) -> is_used c ->
       last_free false cs1' = false /\ coalesced true cs2') /\
    (forall x y, tiling x (ps ++ c :: ns) y -> size_ok (e - a - 16) /\ x = a /\ y = e).
Proof.
  unfold release.
  destruct (before_free_cases cs1 c) as [[Hb ->] | (cs1' & p & -> & Hp & ->)];
    destruct (after_free_cases c cs2) as [(n & cs2' & -> & Hn & ->) | [Hn ->]].
  - exists cs1, [], [n], cs2', (caddr c), (cend n). rewrite app_nil_r. split_and!; try done.
    + by constructor.
    + intros Hc Hu. apply coalesced_app in Hc as [_ Hc]. simpl in Hc. rewrite Hn in Hc. destruct Hc as (_ & _ & Hc). done.
    + intros x y (<- & [H1 H2] & H3 & [H4 H5] & <-). unfold size_ok, cend, SHMEM_SIZE_FIELD, SHMEM_MIN_ALLOC in *.
      split_and!; zlia.
  - exists cs1, [], [], cs2, (caddr c), (cend c). rewrite app_nil_r. split_and!; try done.
    + intros Hc Hu. apply coalesced_app in Hc as [_ Hc]. simpl in Hc. rewrite Hu in Hc.
      destruct Hc as [_ Hc]. split; [done|]. by apply coalesced_head_used.
    + intros x y (<- & [H1 H2] & <-). unfold size_ok, cend, SHMEM_SIZE_FIELD, SHMEM_MIN_ALLOC in *. split_and!; zlia.
  - exists cs1', [p], [n], cs2', (caddr p), (cend n). split_and!; try done.
    + by repeat constructor.
    + intros Hc Hu. rewrite <- app_assoc in Hc. apply coalesced_app in Hc as [_ Hc]. simpl in Hc.
      rewrite Hn, Hp in Hc. destruct Hc as [Hc1 Hc2]. split; [|naive_solver].
      destruct (last_free false cs1'); naive_solver.
    + intros x y (<- & [H1 H2] & H3 & [H4 H5] & H6 & [H7 H8] & <-).
      unfold size_ok, cend, SHMEM_SIZE_FIELD, SHMEM_MIN_ALLOC in *. split_and!; zlia.
  - exists cs1', [p], [], cs2, (caddr p), (cend c). split_and!; try done.
    + by repeat constructor.
    + intros Hc Hu. rewrite <- app_assoc in Hc. apply coalesced_app in Hc as [_ Hc]. simpl in Hc.
      rewrite Hu, Hp in Hc. destruct Hc as (Hc1 & Hc2 & Hc3). split.
      * destruct (last_free false cs1'); naive_solver.
      * by apply coalesced_head_used.
    + intros x y (<- & [H1 H2] & H3 & [H4 H5] & <-).
      unfold size_ok, cend, SHMEM_SIZE_FIELD, SHMEM_MIN_ALLOC in *. split_and!; zlia.
Qed.

Lemma release_ok (lo hi : Z) (cs1 : list chunk) (c : chunk) (cs2 : list chunk) :
  layout_ok lo hi (cs1 ++ c :: cs2) -> is_used c -> layout_ok lo hi (release cs1 c cs2).
Proof.
  intros H Hu. destruct (release_split cs1 c cs2) as (cs1' & ps & ns & cs2' & a & e & E1 & E2 & Hf & -> & _ & _ & Hc & Ht).
  destruct (Hc (proj2 (proj2 (proj2 (proj2 H)))) Hu) as [Hc1 Hc2]. clear Hc.
  change (merged_chunk a e :: cs2') with ([merged_chunk a e] ++ cs2').
  apply (layout_replace lo hi cs1' (ps ++ c :: ns)).
  - by replace (cs1' ++ (ps ++ c :: ns) ++ cs2') with (cs1 ++ c :: cs2) by (subst; by rewrite <- !app_assoc).
  - intros x y Hxy. destruct (Ht x y Hxy) as (Hs & -> & ->). simpl.
    unfold cend; simpl. unfold SHMEM_SIZE_FIELD. split; [done|]. split; [exact Hs|lia].
  - intros _. simpl. split; [|done]. by rewrite Hc1.
Qed.

Lemma release_used (cs1 : list chunk) (c : chunk) (cs2 : list chunk) :
  used_of (release cs1 c cs2) = used_of cs1 ++ used_of cs2.
Proof.
  destruct (release_split cs1 c cs2) as (cs1' & ps & ns & cs2' & a & e & -> & -> & Hf & -> & _).
  apply Forall_app in Hf as [Hp Hn].
  assert (Hnil : forall l, Forall is_free l -> used_of l = []).
  { induction 1 as [|x l Hx _ IH]; [done|]. rewrite used_of_cons, IH. by rewrite Hx. }
  rewrite !used_of_app, used_of_cons, (Hnil ps), (Hnil ns) by done. simpl. by rewrite app_nil_r.
Qed.

(** When nothing is used the segment is one chunk again. *)
Lemma all_free_single (lo hi : Z) (cs : list chunk) :
  layout_ok lo hi cs -> used_of cs = [] -> cs = [Chunk lo (hi - lo - 16) false].
Proof.
  intros (H1 & H2 & H3 & H4 & H5) Hu. destruct cs as [|[a s u] cs]; simpl in *; [lia|].
  destruct H4 as (-> & Hs & H4). rewrite used_of_cons in Hu. destruct u; [done|]. simpl in *.
  destruct cs as [|[a' s' u'] cs]; simpl in *.
  - unfold cend, SHMEM_SIZE_FIELD in H4. simpl in H4. do 2 f_equal. lia.
  - rewrite used_of_cons in Hu. destruct H5 as (_ & Hf & _). simpl in *. by rewrite Hf in Hu.
Qed.

(** Rounding twice changes nothing. *)
Lemma proper_size_id (size : Z) : size_ok size -> size <= SHMEM_MAX_SIZE -> mem_proper_alloc_size size = size.
Proof.
  intros [H1 H2] Hm. unfold mem_proper_alloc_size, SHMEM_MIN_ALLOC, SHMEM_MAX_SIZE in *.
  destruct (Z.leb_spec 24 size); [|lia]. change 7 with (2 ^ 3 - 1). rewrite !land_ones_mod by lia.
  change (2 ^ 3) with 8. rewrite H2. change ((8 - 0) mod 8) with 0. rewrite Z.add_0_r. apply u64_small. lia.
Qed.
