(* ===== verification/ShmemArena.v ===== *)
(** The representation of a segment in memory, in separation logic, and the
    specifications of malloc, free and realloc: what they do to the chunks, to
    the contents of the used chunks and to the counters, and when they fail. *)

From iris.base_logic.lib Require Import gen_heap.
From iris.proofmode Require Import proofmode.
From S2P Require Import Prelude Memory Shmem ShmemLayout.

Open Scope Z_scope.

(** The constants of a segment: the addresses of the info structure, of the
    buckets, the bounds and the word with allow_oom. *)
Record segment : Type := Seg {
  s_info : Z; s_buckets : Z; s_lo : Z; s_hi : Z; s_misc : Z
}.

Definition s_total (s : segment) : Z := s_hi s - s_lo s - 2 * SHMEM_SIZE_FIELD.

(** The words [ws] take [size] bytes. *)
Definition fills (ws : list Z) (size : Z) : Prop := 8 * Z.of_nat (length ws) = size.

Section Arena.
  Context `{!gen_heapGS Z Z Σ}.

(* ------------------------------------------------------------------ *)
(** ** Representation *)

(** The first and the last address of a part of a list. *)
Definition hd_or (n : Z) (l : list chunk) : Z :=
  match l with [] => n | c :: _ => caddr c end.
Fixpoint last_or (p : Z) (l : list chunk) : Z :=
  match l with [] => p | c :: l' => last_or (caddr c) l' end.

(** The inside of a free chunk: the two links and the rest. *)
Definition free_node (c : chunk) (p n : Z) : iProp Σ :=
  (caddr c + 8) ↦ p ∗ (caddr c + 16) ↦ n ∗
  ∃ ws, ⌜fills ws (csize c - 16)⌝ ∗ (caddr c + 24) ↦∗ ws.

(** A part of a doubly linked list, between the chunks [p] and [n]. *)
Fixpoint dseg (p : Z) (l : list chunk) (n : Z) : iProp Σ :=
  match l with
  | [] => emp
  | c :: l' => free_node c p (hd_or n l') ∗ dseg (caddr c) l' n
  end.

Definition in_bucket (i : Z) (c : chunk) : Prop :=
  0 < caddr c /\ size_ok (csize c) /\ csize c < 2 ^ 63 /\ mem_bucket_by_size (csize c) = i.

Definition bucket (s : segment) (i : nat) (l : list chunk) : iProp Σ :=
  ⌜Forall (in_bucket (Z.of_nat i)) l⌝ ∗ (s_buckets s + 8 * Z.of_nat i) ↦ hd_or 0 l ∗ dseg 0 l 0.

Definition buckets_are (s : segment) (fls : list (list chunk)) : iProp Σ :=
  (s_info s + OFF_BUCKETS) ↦ s_buckets s ∗ ⌜length fls = 30%nat /\ s_buckets s ≠ 0⌝ ∗ [∗ list] i ↦ l ∈ fls, bucket s i l.

(** The lists hold the chunks [F]. *)
Definition free_lists (s : segment) (F : list chunk) : iProp Σ :=
  ∃ fls, ⌜concat fls ≡ₚ F⌝ ∗ buckets_are s fls.

Definition counters (s : segment) (used free : Z) : iProp Σ :=
  (s_info s + OFF_USED_SIZE) ↦ used ∗ (s_info s + OFF_FREE_SIZE) ↦ free.

Definition bounds (s : segment) : iProp Σ :=
  (s_info s + OFF_LO_BOUND) ↦ s_lo s ∗ (s_info s + OFF_HI_BOUND) ↦ s_hi s ∗
  (s_info s + OFF_TOTAL_SIZE) ↦ s_total s ∗ (s_info s + OFF_SHM_ID) ↦ s_misc s.

Definition chunk_tags (c : chunk) : iProp Σ :=
  caddr c ↦ tag c ∗ (caddr c + 8 + csize c) ↦ tag c.
Definition tags (cs : list chunk) : iProp Σ := [∗ list] c ∈ cs, chunk_tags c.

(** What the allocator owns when the chunks of the segment are [cs]; the
    insides of the used chunks belong to the callers. *)
Definition arena (s : segment) (cs : list chunk) : iProp Σ :=
  ⌜layout_ok (s_lo s) (s_hi s) cs⌝ ∗ bounds s ∗
  counters s (sum_size (used_of cs)) (sum_size (free_of cs)) ∗
  tags cs ∗ free_lists s (free_of cs).

(** The inside of a chunk of [size] bytes at [a], with the words [ws]. *)
Definition block (a size : Z) (ws : list Z) : iProp Σ :=
  ⌜fills ws size⌝ ∗ (a + 8) ↦∗ ws.

(* ------------------------------------------------------------------ *)
(** ** Lists of chunks *)

Lemma dseg_app p l1 l2 n :
  dseg p (l1 ++ l2) n ⊣⊢ dseg p l1 (hd_or n l2) ∗ dseg (last_or p l1) l2 n.
Proof.
  revert p. induction l1 as [|c l1 IH]; intros p; simpl.
  - by rewrite left_id.
  - rewrite IH -bi.sep_assoc. by destruct l1.
Qed.

Lemma hd_or_app n l1 l2 : hd_or n (l1 ++ l2) = hd_or (hd_or n l2) l1.
Proof. by destruct l1. Qed.
Lemma last_or_app p l1 l2 : last_or p (l1 ++ l2) = last_or (last_or p l1) l2.
Proof. revert p. induction l1; simpl; auto. Qed.

(** Taking the first word of a chunk that is somewhere in the list. *)
Lemma dseg_last p l c n : dseg p (l ++ [c]) n ⊣⊢ dseg p l (caddr c) ∗ free_node c (last_or p l) n.
Proof. rewrite dseg_app. simpl. by rewrite right_id. Qed.

(** The links of a free chunk and its inside. *)
Lemma free_node_block c p n : size_ok (csize c) -> free_node c p n -∗ ∃ ws, block (caddr c) (csize c) ws.
Proof.
  iIntros ([H1 H2]) "(H1 & H2 & %ws & %Hws & H)". iExists (p :: n :: ws). unfold block. simpl.
  iSplit; [iPureIntro; unfold fills in *; simpl; lia|].
  replace (caddr c + 8 + 8) with (caddr c + 16) by lia.
  replace (caddr c + 16 + 8) with (caddr c + 24) by lia. iFrame.
Qed.

Lemma block_free_node c ws : size_ok (csize c) -> block (caddr c) (csize c) ws -∗
  ∃ p n, (caddr c + 8) ↦ p ∗ (caddr c + 16) ↦ n ∗
    ∃ ws, ⌜fills ws (csize c - 16)⌝ ∗ (caddr c + 24) ↦∗ ws.
Proof.
  unfold size_ok, SHMEM_MIN_ALLOC, block, fills. iIntros ([H1 H2]) "[%Hl H]".
  destruct ws as [|p [|n ws]]; simpl in *; [lia..|]. iDestruct "H" as "(Hp & Hn & H)".
  iExists p, n. replace (caddr c + 8 + 8) with (caddr c + 16) by lia.
  replace (caddr c + 16 + 8) with (caddr c + 24) by lia. iFrame. iPureIntro. lia.
Qed.

Lemma wp_info_add s field x v (Q : unit -> iProp Σ) X :
  (s_info s + field) ↦ v -∗ ((s_info s + field) ↦ u64 (v + x) -∗ Q tt) -∗ wp (info_add (s_info s) field x) Q X.
Proof.
  iIntros "H HQ". unfold info_add. wp_load "H". by iApply (wp_store with "H").
Qed.

Lemma wp_set_chunk_size a size v w (Q : unit -> iProp Σ) X :
  a ↦ v -∗ (a + 8 + size) ↦ w -∗ (chunk_tags (Chunk a size false) -∗ Q tt) -∗ wp (mem_set_chunk_size a size) Q X.
Proof.
  iIntros "H1 H2 HQ". unfold mem_set_chunk_size, SHMEM_SIZE_FIELD. wp_store "H1".
  iApply (wp_store with "H2"); [done|]. iIntros "H2". iApply "HQ". iFrame.
Qed.

Lemma wp_set_used_chunk_size a size v w (Q : unit -> iProp Σ) X :
  a ↦ v -∗ (a + 8 + size) ↦ w -∗ (chunk_tags (Chunk a size true) -∗ Q tt) -∗ wp (mem_set_used_chunk_size a size) Q X.
Proof.
  iIntros "H1 H2 HQ". unfold mem_set_used_chunk_size, SHMEM_SIZE_FIELD. wp_store "H1".
  iApply (wp_store with "H2"); [done|]. iIntros "H2". iApply "HQ". iFrame.
Qed.

(** ** Buckets *)

Lemma buckets_acc s fls (i : nat) :
  (i < 30)%nat -> buckets_are s fls -∗
  ∃ l, ⌜fls !! i = Some l⌝ ∗ (s_info s + OFF_BUCKETS) ↦ s_buckets s ∗ bucket s i l ∗
    ∀ l', (s_info s + OFF_BUCKETS) ↦ s_buckets s -∗ bucket s i l' -∗ buckets_are s (<[i := l']> fls).
Proof.
  iIntros (Hi) "(Hb & [%Hl %Hnz] & H)".
  destruct (lookup_lt_is_Some_2 fls i) as [l Hfl]; [lia|].
  iDestruct (big_sepL_insert_acc with "H") as "[Hl H]"; [done|].
  iExists l. iFrame. iSplit; [done|]. iIntros (l') "Hb Hl". iSpecialize ("H" with "Hl").
  unfold buckets_are. iFrame. iPureIntro. by rewrite length_insert.
Qed.

Lemma concat_insert (fls : list (list chunk)) (i : nat) (l l' : list chunk) (c : chunk) :
  fls !! i = Some l -> l' ≡ₚ c :: l -> concat (<[i := l']> fls) ≡ₚ c :: concat fls.
Proof.
  intros Hi Hp. destruct (list_elem_of_split_length _ _ _ Hi) as (l1 & l2 & -> & ->).
  rewrite list_insert_split !concat_app /= Hp. solve_Permutation.
Qed.

Lemma concat_elem (fls : list (list chunk)) (i : nat) (l : list chunk) (c : chunk) :
  fls !! i = Some l -> c ∈ l -> c ∈ concat fls.
Proof. intros Hi Hc. apply list_elem_of_In, in_concat. exists l. split; apply list_elem_of_In; [by eapply list_elem_of_lookup_2|done]. Qed.

Lemma wp_get_bucket {A : Type} s (i v : Z) (k : Z -> M A) (Q : A -> iProp Σ) X :
  (s_info s + OFF_BUCKETS) ↦ s_buckets s -∗ (s_buckets s + 8 * i) ↦ v -∗
  ((s_info s + OFF_BUCKETS) ↦ s_buckets s -∗ (s_buckets s + 8 * i) ↦ v -∗ wp (k v) Q X) -∗
  wp (get_bucket (s_info s) i ≫= k) Q X.
Proof.
  iIntros "Hb Hv Hk". iApply wp_bind. unfold get_bucket, bucket_ptr, ZBX_PTR_SIZE.
  iApply wp_bind. wp_load "Hb". iApply wp_ret. iApply (wp_load with "Hv"); [done|].
  iIntros "Hv". iApply ("Hk" with "Hb Hv").
Qed.

Lemma wp_set_bucket s (i v w : Z) (Q : unit -> iProp Σ) X :
  (s_info s + OFF_BUCKETS) ↦ s_buckets s -∗ (s_buckets s + 8 * i) ↦ v -∗
  ((s_info s + OFF_BUCKETS) ↦ s_buckets s -∗ (s_buckets s + 8 * i) ↦ w -∗ Q tt) -∗
  wp (set_bucket (s_info s) i w) Q X.
Proof.
  iIntros "Hb Hv Hk". unfold set_bucket, bucket_ptr, ZBX_PTR_SIZE.
  iApply wp_bind. wp_load "Hb". iApply wp_ret. iApply (wp_store with "Hv"); [done|].
  iIntros "Hv". iApply ("Hk" with "Hb Hv").
Qed.

(** A chunk that may be in a list. *)
Definition linkable (c : chunk) : Prop :=
  is_free c /\ 0 < caddr c /\ size_ok (csize c) /\ csize c < 2 ^ 63.

Lemma linkable_in_bucket c : linkable c -> in_bucket (mem_bucket_by_size (csize c)) c.
Proof. unfold linkable, in_bucket. tauto. Qed.

Lemma tag_free c : is_free c -> tag c = csize c.
Proof. unfold tag. by intros ->. Qed.

Lemma chunk_tags_free c : is_free c ->
  chunk_tags c ⊣⊢ caddr c ↦ csize c ∗ (caddr c + 8 + csize c) ↦ csize c.
Proof. intros Hc. unfold chunk_tags. by rewrite tag_free. Qed.

Lemma linkable_CHUNK_SIZE c : linkable c -> CHUNK_SIZE (csize c) = csize c.
Proof. intros (_ & _ & [H _] & ?). unfold SHMEM_MIN_ALLOC in *. apply CHUNK_SIZE_small. lia. Qed.

(** mem_link_chunk puts the chunk at the front of its list. *)
Lemma wp_link s F c ws (Q : unit -> iProp Σ) X :
  linkable c ->
  free_lists s F -∗ chunk_tags c -∗ block (caddr c) (csize c) ws -∗
  (free_lists s (c :: F) -∗ chunk_tags c -∗ Q tt) -∗
  wp (mem_link_chunk (s_info s) (caddr c)) Q X.
Proof.
  iIntros (Hc) "(%fls & %HF & Hfl) Ht Hbl HQ". destruct (Hc) as (Hf & Ha & Hs & Hs').
  unfold chunk_tags. rewrite tag_free //. iDestruct "Ht" as "[Ht1 Ht2]".
  iDestruct (block_free_node with "Hbl") as (p n) "(Hp & Hn & Hr)"; [done|].
  unfold mem_link_chunk. wp_load "Ht1". rewrite (linkable_CHUNK_SIZE c) //.
  set (i := mem_bucket_by_size (csize c)). pose proof (bucket_range (csize c)) as Hi. fold i in Hi.
  change ZBX_SHMEM_BUCKET_COUNT with 30 in Hi.
  iDestruct (buckets_acc s fls (Z.to_nat i) with "Hfl") as (l Hl) "(Hb & (%Hin & Hhd & Hd) & Hclose)"; [lia|].
  rewrite !Z2Nat.id; [|lia]. rewrite Z2Nat.id in Hin; [|lia].
  iApply (wp_get_bucket with "Hb Hhd"). iIntros "Hb Hhd".
  iAssert (wp (if hd_or 0 l =? 0 then mret tt else mem_set_prev_chunk (hd_or 0 l) (caddr c))
    (fun _ => dseg (caddr c) l 0) X) with "[Hd]" as "Hw".
  { destruct l as [|x l]; simpl; [by iApply wp_ret|].
    inversion Hin as [|?? (Hx & _) _]; subst. destruct (Z.eqb_spec (caddr x) 0); [lia|].
    iDestruct "Hd" as "[(H1 & H2 & H3) Hd]". unfold mem_set_prev_chunk, SHMEM_SIZE_FIELD.
    iApply (wp_store with "H1"); [done|]. iIntros "H1". iFrame. }
  iApply (wp_call with "Hw"). iIntros (_) "Hd".
  unfold mem_set_prev_chunk, mem_set_next_chunk, SHMEM_SIZE_FIELD, ZBX_PTR_SIZE. wp_store "Hp".
  iApply (wp_get_bucket with "Hb Hhd"). iIntros "Hb Hhd". wp_store "Hn".
  iApply (wp_set_bucket with "Hb Hhd"). iIntros "Hb Hhd".
  iApply ("HQ" with "[-Ht1 Ht2] [$Ht1 $Ht2]").
  iExists _. iSplitR; [|iApply ("Hclose" $! (c :: l) with "Hb")].
  - iPureIntro. rewrite -HF. by eapply concat_insert.
  - unfold bucket. rewrite Z2Nat.id; [|lia]. simpl. iFrame. iPureIntro. constructor; [|done].
    by apply linkable_in_bucket.
Qed.

(** The bucket a free chunk is in. *)
Lemma bucket_of_chunk s fls c :
  c ∈ concat fls -> buckets_are s fls -∗
  let i := Z.to_nat (mem_bucket_by_size (csize c)) in
  ∃ l1 l2, ⌜concat fls ≡ₚ c :: concat (<[i := l1 ++ l2]> fls)⌝ ∗
    (s_info s + OFF_BUCKETS) ↦ s_buckets s ∗ bucket s i (l1 ++ c :: l2) ∗
    ∀ l', (s_info s + OFF_BUCKETS) ↦ s_buckets s -∗ bucket s i l' -∗ buckets_are s (<[i := l']> fls).
Proof.
  iIntros (Hc) "Hfl". apply list_elem_of_In, in_concat in Hc as (l & Hl & Hc).
  apply list_elem_of_In in Hl, Hc. apply list_elem_of_lookup in Hl as [j Hj].
  iAssert (⌜Forall (in_bucket (Z.of_nat j)) l /\ (j < 30)%nat⌝)%I as %[Hin Hlt].
  { iDestruct "Hfl" as "(_ & %Hlen & H)". pose proof (lookup_lt_Some _ _ _ Hj).
    iDestruct (big_sepL_lookup with "H") as "(%Hin & _)"; [done|]. iPureIntro. split; [done|lia]. }
  pose proof (proj1 (Forall_forall _ _) Hin c Hc) as (_ & _ & _ & ->). rewrite Nat2Z.id. cbv zeta.
  iDestruct (buckets_acc s fls j with "Hfl") as (l0 Hl0) "(Hb & Hl & Hclose)"; [done|].
  simplify_eq. apply list_elem_of_split in Hc as (l1 & l2 & ->).
  iExists l1, l2. iFrame. iPureIntro.
  rewrite -{1}(list_insert_id fls j (l1 ++ c :: l2)) //.
  destruct (list_elem_of_split_length _ _ _ Hj) as (f1 & f2 & -> & ->).
  rewrite !list_insert_split !concat_app /=. solve_Permutation.
Qed.

(** The writes of mem_unlink_chunk to the list before and after the chunk. *)
Lemma wp_unlink_prev s i l1 x n (X : iProp Σ) :
  Forall (in_bucket i) l1 ->
  (s_buckets s + 8 * i) ↦ hd_or x l1 -∗ dseg 0 l1 x -∗
  wp (store (mem_ptr_to_next_field (last_or 0 l1) (s_buckets s + 8 * i)) n)
    (fun _ => (s_buckets s + 8 * i) ↦ hd_or n l1 ∗ dseg 0 l1 n)%I X.
Proof.
  iIntros (Hin) "Hhd Hd". unfold mem_ptr_to_next_field, SHMEM_SIZE_FIELD, ZBX_PTR_SIZE.
  destruct l1 as [|c l1 _] using rev_ind; simpl.
  - iApply (wp_store with "Hhd"); [done|]. iIntros "H". by iFrame.
  - rewrite last_or_app !dseg_last /=. iDestruct "Hd" as "(Hd & H1 & H2 & H3)".
    apply Forall_app in Hin as [_ Hin]. inversion Hin as [|?? (Ha & _) _]; subst.
    destruct (Z.eqb_spec (caddr c) 0); [lia|].
    iApply (wp_store with "H2"); [lia|]. iIntros "H2". rewrite !hd_or_app dseg_last /=. iFrame.
Qed.

Lemma wp_unlink_next i p q l2 n (X : iProp Σ) :
  Forall (in_bucket i) l2 -> dseg p l2 n -∗
  wp (if mem_ptr_to_prev_field (hd_or 0 l2) =? 0 then mret tt
      else store (mem_ptr_to_prev_field (hd_or 0 l2)) q) (fun _ => dseg q l2 n) X.
Proof.
  iIntros (Hin) "Hd". unfold mem_ptr_to_prev_field, SHMEM_SIZE_FIELD.
  destruct l2 as [|c l2]; simpl; [by iApply wp_ret|].
  inversion Hin as [|?? (Ha & _) _]; subst. destruct (Z.eqb_spec (caddr c) 0); [lia|].
  destruct (Z.eqb_spec (caddr c + 8) 0); [lia|].
  iDestruct "Hd" as "[(H1 & H2 & H3) Hd]". iApply (wp_store with "H1"); [done|]. iIntros "H1". iFrame.
Qed.

(** mem_unlink_chunk takes the chunk out of its list. *)
Lemma wp_unlink s F c (Q : unit -> iProp Σ) X :
  linkable c ->
  free_lists s (c :: F) -∗ chunk_tags c -∗
  (∀ ws, free_lists s F -∗ chunk_tags c -∗ block (caddr c) (csize c) ws -∗ Q tt) -∗
  wp (mem_unlink_chunk (s_info s) (caddr c)) Q X.
Proof.
  iIntros (Hc) "(%fls & %HF & Hfl) Ht HQ". destruct (Hc) as (Hf & Ha & Hs & Hs').
  unfold chunk_tags. rewrite tag_free //. iDestruct "Ht" as "[Ht1 Ht2]".
  unfold mem_unlink_chunk. wp_load "Ht1". rewrite (linkable_CHUNK_SIZE c) //.
  iDestruct (bucket_of_chunk s fls c with "Hfl") as (l1 l2 HF') "(Hb & (%Hin & Hhd & Hd) & Hclose)".
  { rewrite HF. by left. }
  set (i := mem_bucket_by_size (csize c)). pose proof (bucket_range (csize c)) as Hi. fold i in Hi.
  change ZBX_SHMEM_BUCKET_COUNT with 30 in Hi.
  rewrite Z2Nat.id; [|lia]. rewrite Z2Nat.id in Hin; [|lia].
  rewrite dseg_app hd_or_app /=. iDestruct "Hd" as "(Hd1 & (Hp & Hn & %ws & %Hws & Hr) & Hd2)".
  unfold mem_get_prev_chunk, mem_get_next_chunk, SHMEM_SIZE_FIELD, ZBX_PTR_SIZE.
  wp_load "Hp". wp_load "Hn". unfold bucket_ptr. iApply wp_bind. wp_load "Hb". iApply wp_ret.
  unfold ZBX_PTR_SIZE.
  iApply (wp_call _ _ (fun _ => (s_buckets s + 8 * i) ↦ hd_or (hd_or 0 l2) l1 ∗ dseg 0 l1 (hd_or 0 l2))%I with "[Hhd Hd1]").
  { iApply (wp_unlink_prev with "Hhd Hd1"). by apply Forall_app in Hin as [Hin _]. }
  iIntros (_) "[Hhd Hd1]".
  iApply (wp_mono _ (fun _ => dseg (last_or 0 l1) l2 0)%I with "[Hd2]").
  { iApply (wp_unlink_next with "Hd2"). apply Forall_app in Hin as [_ Hin]. by inversion Hin. }
  iIntros ([]) "Hd2".
  iDestruct (free_node_block c with "[Hp Hn Hr]") as (ws') "Hbl"; [done|by iFrame|].
  iApply ("HQ" with "[-Ht1 Ht2 Hbl] [$Ht1 $Ht2] Hbl").
  iExists _. iSplitR; [|iApply ("Hclose" $! (l1 ++ l2) with "Hb")].
  - iPureIntro. by rewrite HF' in HF; apply Permutation_cons_inv in HF.
  - unfold bucket. rewrite dseg_app hd_or_app Z2Nat.id; [|lia]. iFrame. iPureIntro.
    apply Forall_app in Hin as [H1 H2]. inversion H2; subst. by apply Forall_app.
Qed.

(* ------------------------------------------------------------------ *)
(** ** Splitting and merging blocks *)

Definition words (n : Z) : nat := Z.to_nat (n / 8).

Lemma fills_take ws n k : fills ws n -> k mod 8 = 0 -> 0 <= k <= n -> fills (take (words k) ws) k.
Proof. unfold fills, words. intros Hf Hk Hle. rewrite length_take. zlia. Qed.

Lemma fills_words ws n : fills ws n -> length ws = words n.
Proof. unfold fills, words. intros <-. rewrite Z.mul_comm Z.div_mul //. lia. Qed.

(** The end of a block becomes a size word, a size word and a block. *)
Lemma block_split a size ws k :
  k mod 8 = 0 -> 0 <= k -> k + 16 <= size ->
  block a size ws -∗ block a k (take (words k) ws) ∗
    ∃ x y ws2, (a + 8 + k) ↦ x ∗ (a + 16 + k) ↦ y ∗ block (a + 16 + k) (size - k - 16) ws2.
Proof.
  iIntros (Hk H0 Hle) "[%Hf H]". unfold block.
  pose proof (fills_take ws size k Hf Hk ltac:(lia)) as Ht.
  rewrite -{1}(take_drop (words k) ws) array_app. iDestruct "H" as "[$ H]".
  iSplitR; [done|]. unfold fills in Ht.
  assert (Hd : 8 * Z.of_nat (length (drop (words k) ws)) = size - k).
  { rewrite length_drop. unfold fills, words in *. rewrite length_take in Ht. zlia. }
  destruct (drop (words k) ws) as [|x [|y ws2]]; simpl in Hd; [lia..|]. simpl.
  iDestruct "H" as "(Hx & Hy & H)". iExists x, y, ws2.
  replace (a + 8 + 8 * Z.of_nat (length (take (words k) ws))) with (a + 8 + k) by lia.
  replace (a + 8 + k + 8) with (a + 16 + k) by lia.
  replace (a + 16 + k + 8) with (a + 16 + k + 8) by lia. iFrame.
  iPureIntro. unfold fills. lia.
Qed.

Lemma block_merge a n1 ws1 x y n2 ws2 :
  block a n1 ws1 -∗ (a + 8 + n1) ↦ x -∗ (a + 16 + n1) ↦ y -∗ block (a + 16 + n1) n2 ws2 -∗
  block a (n1 + 16 + n2) (ws1 ++ x :: y :: ws2).
Proof.
  iIntros "[%H1 Hb1] Hx Hy [%H2 Hb2]". unfold block. rewrite array_app /=. unfold fills in *.
  replace (a + 8 + 8 * Z.of_nat (length ws1)) with (a + 8 + n1) by lia.
  replace (a + 8 + n1 + 8) with (a + 16 + n1) by lia. iFrame.
  iPureIntro. rewrite length_app /=. lia.
Qed.

(** Two chunks side by side: the words between them. *)
Lemma chunk_merge a n1 ws1 t1 c2 ws2 :
  caddr c2 = a + 16 + n1 ->
  block a n1 ws1 -∗ (a + 8 + n1) ↦ t1 -∗ chunk_tags c2 -∗ block (caddr c2) (csize c2) ws2 -∗
  ∃ ws3 t, block a (n1 + 16 + csize c2) (ws1 ++ ws3) ∗ (a + 8 + (n1 + 16 + csize c2)) ↦ t.
Proof.
  iIntros (Ha) "Hb1 H1 [H2 H3] Hb2". rewrite Ha.
  iExists (t1 :: _ :: ws2), _. iSplitR "H3".
  - iApply (block_merge with "Hb1 H1 H2 Hb2").
  - replace (a + 16 + n1 + 8 + csize c2) with (a + 8 + (n1 + 16 + csize c2)) by lia. iFrame.
Qed.

Lemma tags_cons c cs : tags (c :: cs) ⊣⊢ chunk_tags c ∗ tags cs.
Proof. done. Qed.
Lemma tags_app l1 l2 : tags (l1 ++ l2) ⊣⊢ tags l1 ∗ tags l2.
Proof. apply big_sepL_app. Qed.

(** The use_or_split step on an unlinked chunk of [n] bytes at [a]. *)
Lemma wp_use_or_split s F a n size ws u f v w (Q : unit -> iProp Σ) X :
  0 < a -> size_ok n -> size_ok size -> size <= n -> n < 2 ^ 63 ->
  free_lists s F -∗ counters s u f -∗ a ↦ v -∗ (a + 8 + n) ↦ w -∗ block a n ws -∗
  (∀ k, ⌜used_of (take_chunk a n size) = [Chunk a k true] /\ size <= k <= n⌝ -∗
     free_lists s (free_of (take_chunk a n size) ++ F) -∗
     counters s (u64 (u + k)) (u64 (f - n + sum_size (free_of (take_chunk a n size)))) -∗
     tags (take_chunk a n size) -∗ block a k (take (words k) ws) -∗ Q tt) -∗
  wp (use_or_split (s_info s) a n size) Q X.
Proof.
  iIntros (Ha Hn Hz Hle Hlt) "Hfl [Hu Hf] Hv Hw Hbl HQ". unfold use_or_split.
  destruct (take_chunk_cases a n size) as [[Hc ->] | [Hc ->]]; unfold SHMEM_SIZE_FIELD, SHMEM_MIN_ALLOC.
  - destruct (Z.ltb_spec n (size + 2 * 8 + 24)); [|lia].
    iApply wp_bind. iApply (wp_info_add with "Hu"). iIntros "Hu".
    iApply wp_bind. iApply (wp_info_add with "Hf"). iIntros "Hf".
    iApply (wp_set_used_chunk_size with "Hv Hw"). iIntros "Ht".
    iApply ("HQ" $! n with "[%] Hfl [$Hu Hf] [$Ht]").
    + split; [done|lia].
    + simpl. by replace (f - n + 0) with (f + - n) by lia.
    + done.
    + iDestruct "Hbl" as "[%Hb Hbl]". rewrite -(fills_words ws n) // firstn_all. by iFrame.
  - destruct (Z.ltb_spec n (size + 2 * 8 + 24)); [lia|].
    destruct Hz as [Hz1 Hz2], Hn as [Hn1 Hn2]. unfold SHMEM_MIN_ALLOC in *.
    iDestruct (block_split _ _ _ size with "Hbl") as "[Hbl (%x & %y & %ws2 & Hx & Hy & Hbl2)]"; [lia..|].
    set (new := Chunk (a + 16 + size) (n - size - 16) false).
    assert (Hnew : linkable new).
    { unfold linkable, size_ok, SHMEM_MIN_ALLOC, is_free; simpl. split_and!; zlia. }
    replace (a + 8 + size + 8) with (a + 16 + size) by lia. change (2 * 8) with 16.
    iApply wp_bind. iApply (wp_set_chunk_size with "Hy [Hw]").
    { by replace (a + 16 + size + 8 + (n - size - 16)) with (a + 8 + n) by lia. }
    iIntros "Ht2". iApply wp_bind. iApply (wp_link s F new with "Hfl Ht2 Hbl2"); [done|].
    iIntros "Hfl Ht2".
    iApply wp_bind. iApply (wp_info_add with "Hu"). iIntros "Hu".
    iApply wp_bind. iApply (wp_info_add with "Hf"). iIntros "Hf".
    iApply wp_bind. iApply (wp_info_add with "Hf"). iIntros "Hf".
    iApply (wp_set_used_chunk_size with "Hv Hx"). iIntros "Ht".
    iApply ("HQ" $! size with "[%] Hfl [$Hu Hf] [$Ht $Ht2] Hbl").
    + split; [done|lia].
    + simpl. replace (u64 (u64 (f + - n) + (n - size - 16))) with (u64 (f - n + (n - size - 16 + 0))); [done|].
      unfold u64. rewrite Zplus_mod_idemp_l. f_equal. lia.
    + done.
Qed.

(* ------------------------------------------------------------------ *)
(** ** The search of malloc *)

Lemma bucket_acc_ro s fls (i : nat) :
  (i < 30)%nat -> buckets_are s fls -∗
  ∃ l, ⌜fls !! i = Some l /\ Forall (in_bucket (Z.of_nat i)) l⌝ ∗
    (s_info s + OFF_BUCKETS) ↦ s_buckets s ∗ (s_buckets s + 8 * Z.of_nat i) ↦ hd_or 0 l ∗ dseg 0 l 0 ∗
    ((s_info s + OFF_BUCKETS) ↦ s_buckets s -∗ (s_buckets s + 8 * Z.of_nat i) ↦ hd_or 0 l -∗
     dseg 0 l 0 -∗ buckets_are s fls).
Proof.
  iIntros (Hi) "H". iDestruct (buckets_acc with "H") as (l Hl) "(Hb & (%Hin & Hhd & Hd) & Hclose)"; [done|].
  iExists l. iFrame. iSplit; [done|]. iIntros "Hb Hhd Hd".
  iSpecialize ("Hclose" $! l with "Hb [$Hhd $Hd //]"). by rewrite list_insert_id.
Qed.

Lemma wp_skip_empty_buckets s fls (n i : nat) (Q : Z -> iProp Σ) X :
  (i + n = 29)%nat -> buckets_are s fls -∗
  (∀ j, ⌜(i <= j < 30)%nat /\ (forall k, (i <= k < j)%nat -> fls !! k = Some []) /\
        (j = 29%nat \/ fls !! j ≠ Some [])⌝ -∗ buckets_are s fls -∗ Q (Z.of_nat j)) -∗
  wp (skip_empty_buckets n (s_info s) (Z.of_nat i)) Q X.
Proof.
  iIntros (Hn) "H HQ". iInduction n as [|n IH] forall (i Hn); simpl.
  - iApply wp_ret. iApply ("HQ" with "[%] H"). split_and!; [lia..| |by left; lia]. intros; lia.
  - iDestruct (bucket_acc_ro s fls i with "H") as (l [Hl Hin]) "(Hb & Hhd & Hd & Hclose)"; [lia|].
    iApply (wp_get_bucket with "Hb Hhd"). iIntros "Hb Hhd".
    iDestruct ("Hclose" with "Hb Hhd Hd") as "H". destruct l as [|c l]; simpl.
    + replace (Z.of_nat i + 1) with (Z.of_nat (S i)) by lia.
      iApply ("IH" with "[%] H"); [lia|]. iIntros (j (Hj1 & Hj2 & Hj3)) "H". iApply ("HQ" with "[%] H").
      split_and!; [lia..| |done]. intros k Hk. destruct (decide (k = i)) as [->|]; [done|]. apply Hj2. lia.
    + inversion Hin as [|?? (Ha & _) _]; subst. destruct (Z.eqb_spec (caddr c) 0); [lia|].
      iApply wp_ret. iApply ("HQ" with "[%] H"). split_and!; [lia..| |right; by rewrite Hl]. intros; lia.
Qed.

Lemma tags_acc cs c : c ∈ cs -> tags cs -∗ chunk_tags c ∗ (chunk_tags c -∗ tags cs).
Proof.
  iIntros (Hc) "H". apply list_elem_of_lookup in Hc as [i Hi].
  iApply (big_sepL_lookup_acc with "H"). exact Hi.
Qed.

(** The first-fit search through the last list. *)
Lemma wp_first_fit cs l i size (X : iProp Σ) :
  Forall (in_bucket i) l -> Forall is_free l -> l ⊆ cs -> Z.of_nat (length l) < 2 ^ 64 ->
  dseg 0 l 0 -∗ tags cs -∗
  wp (first_fit size (hd_or 0 l)) (fun r => dseg 0 l 0 ∗ tags cs ∗
    ⌜(r = 0 /\ Forall (fun c => csize c < size) l) \/ (exists c, c ∈ l /\ r = caddr c /\ size <= csize c)⌝)%I X.
Proof.
  iIntros (Hin Hfr Hsub Hlen) "Hd Ht". unfold first_fit.
  set (J := fun n p => (∃ l1 l2, ⌜l = l1 ++ l2 /\ p = hd_or 0 l2 /\ n = Z.of_nat (length l2) /\
    Forall (fun c => csize c < size) l1⌝ ∗ dseg 0 l 0 ∗ tags cs)%I).
  iApply (wp_mwhile FIT_BOUND (first_fit_step size) J _ _ (Z.of_nat (length l)) with "[] [Hd Ht]");
    [done| |iExists [], l; by iFrame].
  iIntros "!>" (n p) "(%l1 & %l2 & %Hl & Hd & Ht)". destruct Hl as (-> & -> & -> & Hsm). unfold first_fit_step.
  destruct l2 as [|c l2]; simpl.
  - iApply wp_ret. iFrame. iPureIntro. left. by rewrite app_nil_r.
  - apply Forall_app in Hin as [_ Hin]. inversion Hin as [|?? (Ha & Hs & Hlt & _) _]; subst.
    apply Forall_app in Hfr as [_ Hfr]. inversion Hfr as [|?? Hf _]; subst.
    destruct (Z.eqb_spec (caddr c) 0); [lia|].
    assert (Hc : c ∈ l1 ++ c :: l2) by set_solver.
    iDestruct (tags_acc cs c with "Ht") as "[[Ht1 Ht2] Hclose]"; [by apply Hsub|].
    rewrite tag_free //. wp_load "Ht1".
    iDestruct ("Hclose" with "[Ht1 Ht2]") as "Ht"; [rewrite chunk_tags_free //; iFrame|].
    destruct Hs as [Hs _]. unfold SHMEM_MIN_ALLOC in Hs. rewrite CHUNK_SIZE_small; [|lia].
    destruct (Z.ltb_spec (csize c) size).
    + iDestruct (dseg_app with "Hd") as "[Hd1 ((Hp & Hn & Hr) & Hd2)]".
      unfold mem_get_next_chunk, SHMEM_SIZE_FIELD, ZBX_PTR_SIZE. wp_load "Hn". iApply wp_ret.
      iDestruct (dseg_app 0 l1 (c :: l2) with "[$Hd1 $Hp $Hn $Hr $Hd2]") as "Hd".
      iExists (Z.of_nat (length l2)). iSplit; [iPureIntro; lia|]. unfold J.
      iExists (l1 ++ [c]), l2. iFrame. iPureIntro. rewrite -app_assoc.
      split_and!; [done..|]. apply Forall_app. by repeat constructor.
    + iApply wp_ret. iFrame. iPureIntro. right. exists c. done.
Qed.

(** What malloc looks for: any free chunk that is large enough, and the
    smallest one unless only chunks of the last list are left. *)
Definition found (cs : list chunk) (size r : Z) : Prop :=
  (r = 0 /\ forall c, c ∈ cs -> is_free c -> csize c < size) \/
  (exists c, c ∈ cs /\ is_free c /\ r = caddr c /\ size <= csize c /\
     forall c', c' ∈ cs -> is_free c' -> size <= csize c' -> csize c' < SHMEM_MAX_BUCKET_SIZE -> csize c <= csize c').

Definition classified (fls : list (list chunk)) : Prop :=
  forall c, c ∈ concat fls -> exists l, fls !! Z.to_nat (mem_bucket_by_size (csize c)) = Some l /\ c ∈ l.

Lemma buckets_classified s fls :
  buckets_are s fls -∗ ⌜classified fls⌝.
Proof.
  iIntros "(_ & _ & H)" (c Hc). apply list_elem_of_In, in_concat in Hc as (l & Hl & Hc).
  apply list_elem_of_In in Hl, Hc. apply list_elem_of_lookup in Hl as [j Hj].
  iDestruct (big_sepL_lookup with "H") as "(%Hin & _)"; [done|]. iPureIntro.
  pose proof (proj1 (Forall_forall _ _) Hin c Hc) as (_ & _ & _ & ->). rewrite Nat2Z.id. eauto.
Qed.

(** The last list: every chunk that fits is in it, or in none. *)
Lemma found_last (fls : list (list chunk)) (F l : list chunk) size :
  (forall c, c ∈ F -> c ∈ concat fls) -> (forall c, c ∈ concat fls -> size_ok (csize c)) ->
  (forall c, c ∈ l -> c ∈ concat fls) ->
  size_ok size -> classified fls -> fls !! 29%nat = Some l ->
  (forall k, (Z.to_nat (mem_bucket_by_size size) <= k < 29)%nat -> fls !! k = Some []) ->
  forall c, c ∈ F -> size <= csize c -> c ∈ l /\ SHMEM_MAX_BUCKET_SIZE <= csize c.
Proof.
  intros HF Hok Hl Hz Hcl H29 Hem c Hc Hle. apply HF in Hc. pose proof (Hok c Hc) as Hs.
  destruct (Hcl c Hc) as (l' & Hl' & Hcl').
  pose proof (bucket_mono size (csize c) Hz Hs Hle). pose proof (bucket_range size). pose proof (bucket_range (csize c)).
  change ZBX_SHMEM_BUCKET_COUNT with 30 in *.
  destruct (decide (mem_bucket_by_size (csize c) = 29)) as [E | Hne].
  - rewrite E in Hl'. change (Z.to_nat 29) with 29%nat in Hl'. simplify_eq. split; [done|].
    rewrite bucket_size // in E. unfold SHMEM_MAX_BUCKET_SIZE. destruct (Z.ltb_spec (csize c) 256); [|lia].
    destruct Hs as [Hs _]. unfold SHMEM_MIN_ALLOC in Hs. zlia.
  - rewrite Hem in Hl'; [|lia]. simplify_eq. by apply not_elem_of_nil in Hcl'.
Qed.

(** Any other list: its chunks are of the smallest class that is not empty. *)
Lemma found_small (fls : list (list chunk)) size j (c : chunk) (l : list chunk) :
  (forall c, c ∈ concat fls -> size_ok (csize c)) -> size_ok size -> classified fls ->
  fls !! j = Some (c :: l) -> mem_bucket_by_size (csize c) = Z.of_nat j -> (j < 29)%nat ->
  (Z.to_nat (mem_bucket_by_size size) <= j)%nat -> c ∈ concat fls ->
  (forall k, (Z.to_nat (mem_bucket_by_size size) <= k < j)%nat -> fls !! k = Some []) ->
  size <= csize c /\ forall c', c' ∈ concat fls -> size <= csize c' -> csize c <= csize c'.
Proof.
  intros Hok Hz Hcl Hj Hc Hlt Hle Hin Hem. pose proof (bucket_range size).
  split; [apply bucket_small; auto; lia|]. intros c' Hc' Hle'.
  pose proof (bucket_mono size (csize c') Hz (Hok c' Hc') Hle').
  destruct (Hcl c' Hc') as (l' & Hl' & Hin').
  destruct (decide (mem_bucket_by_size (csize c') < Z.of_nat j)) as [Hlt' | Hge].
  - rewrite Hem in Hl'; [|lia]. simplify_eq. by apply not_elem_of_nil in Hin'.
  - apply bucket_small; auto; lia.
Qed.

Lemma layout_length lo hi (cs : list chunk) : layout_ok lo hi cs -> Z.of_nat (length cs) < 2 ^ 37.
Proof.
  intros H. destruct (H) as (H1 & H2 & H3 & H4 & _). apply tiling_sum in H4.
  assert (Hnn : forall l, (forall c, c ∈ l -> 0 <= csize c) -> 0 <= sum_size l).
  { induction l as [|c l IH]; simpl; intros Hl; [lia|].
    pose proof (Hl c ltac:(left)). specialize (IH ltac:(intros; apply Hl; by right)). lia. }
  assert (Hp : forall c, c ∈ cs -> 0 <= csize c) by (intros c Hc; by apply (layout_elem_size _ _ _ _ H)).
  pose proof (Hnn (used_of cs)) as Hu. pose proof (Hnn (free_of cs)) as Hf. unfold used_of, free_of in *.
  setoid_rewrite list_elem_of_filter in Hu. setoid_rewrite list_elem_of_filter in Hf.
  specialize (Hu ltac:(naive_solver)). specialize (Hf ltac:(naive_solver)). lia.
Qed.

Lemma elem_of_free_of (cs : list chunk) c : c ∈ free_of cs <-> c ∈ cs /\ is_free c.
Proof. unfold free_of. rewrite list_elem_of_filter. tauto. Qed.

Lemma wp_find_chunk s cs size (Q : Z -> iProp Σ) X :
  layout_ok (s_lo s) (s_hi s) cs -> size_ok size ->
  tags cs -∗ free_lists s (free_of cs) -∗
  (∀ r, ⌜found cs size r⌝ -∗ tags cs -∗ free_lists s (free_of cs) -∗ Q r) -∗
  wp (find_chunk (s_info s) size) Q X.
Proof.
  iIntros (Hok Hz) "Ht (%fls & %HF & Hfl) HQ". unfold find_chunk.
  iDestruct (buckets_classified with "Hfl") as %Hcl.
  assert (HF' : forall c, c ∈ concat fls <-> c ∈ cs /\ is_free c) by (intros c; by rewrite HF elem_of_free_of).
  assert (Hoks : forall c, c ∈ concat fls -> size_ok (csize c)).
  { intros c Hc. apply HF' in Hc as [Hc _]. by destruct (layout_chunk _ _ _ _ Hok Hc) as (_ & _ & ? & _). }
  pose proof (bucket_range size) as Hr. change ZBX_SHMEM_BUCKET_COUNT with 30 in *.
  rewrite -{2}(Z2Nat.id (mem_bucket_by_size size)); [|lia]. iApply wp_bind.
  iApply (wp_skip_empty_buckets with "Hfl"); [lia|]. iIntros (j (Hj & Hem & Hne)) "Hfl".
  iDestruct (bucket_acc_ro s fls j with "Hfl") as (l [Hl Hin]) "(Hb & Hhd & Hd & Hclose)"; [lia|].
  iApply (wp_get_bucket with "Hb Hhd"). iIntros "Hb Hhd".
  assert (Hsub : forall c, c ∈ l -> c ∈ concat fls) by (intros c; by apply concat_elem with (i := j)).
  destruct (Z.eqb_spec (Z.of_nat j) (30 - 1)) as [E | Hj'].
  - assert (j = 29%nat) as -> by lia.
    assert (Hlen : Z.of_nat (length l) < 2 ^ 64).
    { pose proof (layout_length _ _ _ Hok). pose proof (length_filter is_free cs).
      assert (length l <= length (concat fls))%nat.
      { destruct (list_elem_of_split_length _ _ _ Hl) as (l1 & l2 & -> & _).
        rewrite concat_app /= !length_app. lia. }
      rewrite HF in H1. unfold free_of in H1. lia. }
    iApply (wp_mono with "[Hd Ht]").
    { iApply (wp_first_fit cs l with "Hd Ht"); [done|..|done].
      - apply Forall_forall. intros c Hc. by apply HF', Hsub.
      - intros c Hc. by apply HF', Hsub. }
    iIntros (r) "(Hd & Ht & %Hres)". iApply ("HQ" with "[%] Ht").
    2: { iExists fls. iSplit; [done|]. iApply ("Hclose" with "Hb Hhd Hd"). }
    assert (Hall := found_last fls (concat fls) l size ltac:(done) Hoks Hsub Hz Hcl Hl ltac:(intros; apply Hem; lia)).
    destruct Hres as [[-> Hsm] | (c & Hc & -> & Hle)]; [left|right].
    + split; [done|]. intros c Hc Hf. destruct (Z.lt_ge_cases (csize c) size) as [|Hge]; [done|].
      destruct (Hall c) as [Hcl' _]; [by apply HF'|done|]. by apply (proj1 (Forall_forall _ _) Hsm).
    + pose proof (proj1 (HF' c) (Hsub c Hc)) as [Hcs Hf]. exists c. split_and!; try done.
      intros c' Hc' Hf' Hle' Hlt. destruct (Hall c') as [_ Hbig]; [by apply HF'|done|lia].
  - destruct Hne as [|Hne]; [lia|]. destruct l as [|c l]; [done|].
    inversion Hin as [|?? (Ha & Hs & Hlt & Hbk) _]; subst.
    iApply wp_ret. iApply ("HQ" with "[%] Ht").
    2: { iExists fls. iSplit; [done|]. iApply ("Hclose" with "Hb Hhd Hd"). }
    destruct (found_small fls size j c l) as [Hle Hbest]; try done; [lia|lia|apply Hsub; by left|..].
    right. exists c. pose proof (proj1 (HF' c) (Hsub c ltac:(left))) as [Hcs Hf]. split_and!; try done.
    intros c' Hc' Hf' Hle' _. apply Hbest; [by apply HF'|done].
Qed.

(* ------------------------------------------------------------------ *)
(** ** malloc *)

Lemma free_lists_perm s F F' : F ≡ₚ F' -> free_lists s F -∗ free_lists s F'.
Proof. iIntros (HF) "(%fls & %H & Hfl)". iExists fls. iFrame. by rewrite H. Qed.

Lemma layout_sums lo hi (cs : list chunk) :
  layout_ok lo hi cs -> 0 <= sum_size (used_of cs) < 2 ^ 64 /\ 0 <= sum_size (free_of cs) < 2 ^ 64.
Proof.
  intros H. destruct (H) as (H1 & H2 & H3 & H4 & _). apply tiling_sum in H4.
  assert (Hnn : forall l, (forall c, c ∈ l -> c ∈ cs) -> 0 <= sum_size l).
  { induction l as [|c l IH]; simpl; intros Hl; [lia|].
    pose proof (layout_elem_size _ _ _ c H (Hl c ltac:(left))). specialize (IH ltac:(intros; apply Hl; by right)). lia. }
  pose proof (Hnn (used_of cs)) as Hu. pose proof (Hnn (free_of cs)) as Hf. unfold used_of, free_of in *.
  setoid_rewrite list_elem_of_filter in Hu. setoid_rewrite list_elem_of_filter in Hf.
  specialize (Hu ltac:(naive_solver)). specialize (Hf ltac:(naive_solver)). lia.
Qed.

(** Closing the arena again when the counters are right modulo 2^64. *)
Lemma arena_intro s cs u f F :
  layout_ok (s_lo s) (s_hi s) cs -> u = sum_size (used_of cs) -> f = sum_size (free_of cs) ->
  F ≡ₚ free_of cs ->
  bounds s -∗ counters s (u64 u) (u64 f) -∗ tags cs -∗ free_lists s F -∗ arena s cs.
Proof.
  iIntros (Hok -> -> HF) "Hb Hc Ht Hfl". destruct (layout_sums _ _ _ Hok).
  rewrite !u64_small //. iFrame. iSplit; [done|]. by iApply (free_lists_perm with "Hfl").
Qed.

Lemma layout_linkable lo hi cs c : layout_ok lo hi cs -> c ∈ cs -> is_free c -> linkable c.
Proof.
  intros H Hc Hf. destruct (layout_chunk _ _ _ _ H Hc) as (_ & _ & Hs & Hlt & Ha).
  split_and!; try done. lia.
Qed.

(** Opening the arena at one chunk. *)
Lemma arena_open s cs1 c cs2 :
  arena s (cs1 ++ c :: cs2) -∗
  ⌜layout_ok (s_lo s) (s_hi s) (cs1 ++ c :: cs2)⌝ ∗ bounds s ∗
  counters s (sum_size (used_of (cs1 ++ c :: cs2))) (sum_size (free_of (cs1 ++ c :: cs2))) ∗
  tags cs1 ∗ chunk_tags c ∗ tags cs2 ∗ free_lists s (free_of (cs1 ++ c :: cs2)).
Proof. iIntros "($ & $ & $ & Ht & $)". rewrite tags_app tags_cons. iFrame. Qed.

Lemma CHUNK_SIZE_in lo hi cs c : layout_ok lo hi cs -> c ∈ cs -> CHUNK_SIZE (tag c) = csize c.
Proof. intros H Hc. apply CHUNK_SIZE_tag. by apply (layout_elem_size lo hi cs). Qed.

(** The result of malloc: NULL if no free chunk is large enough; otherwise a
    free chunk that is, whose words are now the caller's. *)
Definition malloc_result (s : segment) (cs : list chunk) (size r : Z) : iProp Σ :=
  (⌜r = 0 /\ forall c, c ∈ cs -> is_free c -> csize c < size⌝ ∗ arena s cs) ∨
  (∃ cs1 c cs2 k ws, ⌜cs = cs1 ++ c :: cs2 /\ r = caddr c /\ found cs size r /\ is_free c /\ size <= csize c /\
       used_of (take_chunk r (csize c) size) = [Chunk r k true] /\ size <= k <= csize c⌝ ∗
     arena s (cs1 ++ take_chunk r (csize c) size ++ cs2) ∗ block r k ws).

Lemma wp_mem_malloc s cs size X :
  0 <= size <= SHMEM_MAX_SIZE ->
  arena s cs -∗ wp (__mem_malloc (s_info s) size) (malloc_result s cs (mem_proper_alloc_size size)) X.
Proof.
  iIntros (Hsz) "(%Hok & Hbd & Hc & Ht & Hfl)". destruct (proper_size_ok size Hsz) as [Hz _].
  unfold __mem_malloc. set (sz := mem_proper_alloc_size size) in *. iApply wp_bind.
  iApply (wp_find_chunk s cs sz with "Ht Hfl"); [done..|]. iIntros (r Hr) "Ht Hfl".
  destruct (Hr) as [[-> Hno] | (c & Hcs & Hf & -> & Hle & _)].
  - iApply wp_ret. iLeft. by iFrame.
  - destruct (layout_chunk _ _ _ _ Hok Hcs) as (_ & _ & Hs & Hlt & Ha).
    destruct (Z.eqb_spec (caddr c) 0); [lia|].
    apply list_elem_of_split in Hcs as (cs1 & cs2 & ->).
    iDestruct (arena_open s cs1 c cs2 with "[$Hbd $Hc $Ht $Hfl //]") as "(_ & Hbd & Hc & Ht1 & [Hv Hw] & Ht2 & Hfl)".
    wp_load "Hv". assert (Hcin : c ∈ cs1 ++ c :: cs2) by set_solver.
    rewrite (CHUNK_SIZE_in _ _ _ _ Hok Hcin).
    iDestruct (free_lists_perm _ _ (c :: (free_of (cs1 ++ cs2))) with "Hfl") as "Hfl".
    { rewrite !free_of_app free_of_cons Hf. solve_Permutation. }
    iApply wp_bind. iApply (wp_unlink with "Hfl [$Hv $Hw]").
    { eapply layout_linkable; [exact Hok|done..]. }
    iIntros (ws) "Hfl [Hv Hw] Hbl". iApply wp_bind. iDestruct "Hc" as "Hc".
    iApply (wp_use_or_split with "Hfl Hc Hv Hw Hbl"); [done..|lia|].
    iIntros (k [Hk Hkle]) "Hfl Hc Ht Hbl". iApply wp_ret. iRight. iExists cs1, c, cs2, k, _. iFrame "Hbl".
    iSplit; [iPureIntro; split_and!; done || lia|].
    iApply (arena_intro with "Hbd Hc [Ht1 Ht Ht2] Hfl").
    + by apply take_ok.
    + rewrite !used_of_app !sum_size_app used_of_cons Hf Hk /=. lia.
    + rewrite !free_of_app !sum_size_app free_of_cons Hf /=. lia.
    + rewrite !free_of_app. solve_Permutation.
    + rewrite !tags_app. iFrame.
Qed.
End Arena.
