(* ===== verification/ShmemFree.v ===== *)
(** The specification of __mem_free(): the freed chunk is merged with its free
    neighbours. *)

From iris.base_logic.lib Require Import gen_heap.
From iris.proofmode Require Import proofmode.
From S2P Require Import Prelude Memory Shmem ShmemLayout ShmemArena.

Open Scope Z_scope.

Section Free.
  Context `{!gen_heapGS Z Z Σ}.

(* ------------------------------------------------------------------ *)
(** ** free *)

Lemma wp_is_prev_free {A : Type} s cs1 a (k : bool -> M A) (Q : A -> iProp Σ) X :
  tiling (s_lo s) cs1 a -> (forall c, c ∈ cs1 -> 0 <= csize c < 2 ^ 63) ->
  bounds s -∗ tags cs1 -∗ (bounds s -∗ tags cs1 -∗ wp (k (last_free false cs1)) Q X) -∗
  wp (is_prev_free (s_info s) a ≫= k) Q X.
Proof.
  iIntros (Ht Hsz) "(Hlo & Hb) Ht HQ". unfold is_prev_free, SHMEM_SIZE_FIELD. iApply wp_bind. wp_load "Hlo".
  destruct cs1 as [|p cs1 _] using rev_ind.
  - simpl in Ht. subst. rewrite Z.ltb_irrefl. iApply wp_ret. iApply ("HQ" with "[$Hlo $Hb] Ht").
  - apply tiling_app in Ht as (m & Hm & (Hpm & [Hs _] & Hpa)). simpl in Hpa. apply tiling_le in Hm.
    unfold cend, SHMEM_SIZE_FIELD, SHMEM_MIN_ALLOC in *. destruct (Z.ltb_spec (s_lo s) a); [|lia].
    rewrite tags_app tags_cons. iDestruct "Ht" as "(Ht1 & [Hv Hw] & Ht2)".
    wp_load "Hw". iApply wp_ret. rewrite last_free_app /= FREE_CHUNK_tag; [|apply Hsz; set_solver].
    iApply ("HQ" with "[$Hlo $Hb] [$Ht1 $Hv $Hw $Ht2]").
Qed.

Definition head_free (cs : list chunk) : bool :=
  match cs with [] => false | n :: _ => negb (cused n) end.

Lemma wp_is_next_free {A : Type} s cs2 a (k : bool -> M A) (Q : A -> iProp Σ) X :
  tiling a cs2 (s_hi s) -> (forall c, c ∈ cs2 -> 0 <= csize c < 2 ^ 63) ->
  bounds s -∗ tags cs2 -∗ (bounds s -∗ tags cs2 -∗ wp (k (head_free cs2)) Q X) -∗
  wp (is_next_free (s_info s) a ≫= k) Q X.
Proof.
  iIntros (Ht Hsz) "(Hlo & Hhi & Hb) Ht HQ". unfold is_next_free. iApply wp_bind. wp_load "Hhi".
  destruct cs2 as [|n cs2].
  - simpl in Ht. subst. rewrite Z.ltb_irrefl. iApply wp_ret. iApply ("HQ" with "[$Hlo $Hhi $Hb] Ht").
  - destruct Ht as (<- & [Hs _] & Ht). apply tiling_le in Ht. unfold cend, SHMEM_SIZE_FIELD, SHMEM_MIN_ALLOC in *.
    destruct (Z.ltb_spec (caddr n) (s_hi s)); [|lia].
    rewrite tags_cons. iDestruct "Ht" as "([Hv Hw] & Ht)". wp_load "Hv". iApply wp_ret.
    rewrite FREE_CHUNK_tag; [|apply Hsz; set_solver]. iApply ("HQ" with "[$Hlo $Hhi $Hb] [$Hv $Hw $Ht]").
Qed.

(** The merged chunk gets its size words and is put in its list. *)
Lemma wp_set_and_link s F a n v w ws (Q : unit -> iProp Σ) X :
  linkable (Chunk a n false) ->
  free_lists s F -∗ a ↦ v -∗ block a n ws -∗ (a + 8 + n) ↦ w -∗
  (free_lists s (Chunk a n false :: F) -∗ chunk_tags (Chunk a n false) -∗ Q tt) -∗
  wp (_ ← mem_set_chunk_size a n; mem_link_chunk (s_info s) a) Q X.
Proof.
  iIntros (Hl) "Hfl Hv Hb Hw HQ". iApply wp_bind. iApply (wp_set_chunk_size with "Hv Hw").
  iIntros "Ht". iApply (wp_link _ _ (Chunk a n false) with "Hfl Ht Hb"); done.
Qed.

Lemma release_cases cs1 c cs2 :
  (exists cs1' p n cs2', cs1 = cs1' ++ [p] /\ cs2 = n :: cs2' /\ is_free p /\ is_free n /\
     last_free false cs1 = true /\ head_free cs2 = true /\
     release cs1 c cs2 = cs1' ++ Chunk (caddr p) (cend n - caddr p - 16) false :: cs2') \/
  (exists cs1' p, cs1 = cs1' ++ [p] /\ is_free p /\ last_free false cs1 = true /\ head_free cs2 = false /\
     release cs1 c cs2 = cs1' ++ Chunk (caddr p) (cend c - caddr p - 16) false :: cs2) \/
  (exists n cs2', cs2 = n :: cs2' /\ is_free n /\ last_free false cs1 = false /\ head_free cs2 = true /\
     release cs1 c cs2 = cs1 ++ Chunk (caddr c) (cend n - caddr c - 16) false :: cs2') \/
  (last_free false cs1 = false /\ head_free cs2 = false /\
     release cs1 c cs2 = cs1 ++ Chunk (caddr c) (cend c - caddr c - 16) false :: cs2).
Proof.
  unfold release, merged_chunk, SHMEM_SIZE_FIELD. change (2 * 8) with 16.
  assert (Hh : forall cs, (forall n cs', cs = n :: cs' -> is_used n) -> head_free cs = false).
  { intros [|n cs]; [done|]. intros H. simpl. by rewrite (H n cs). }
  assert (Hl : forall cs p, is_free p -> last_free false (cs ++ [p]) = true).
  { intros cs p Hp. rewrite last_free_app /=. by rewrite Hp. }
  destruct (before_free_cases cs1 c) as [[Hb ->] | (cs1' & p & -> & Hp & ->)];
    destruct (after_free_cases c cs2) as [(n & cs2' & -> & Hn & ->) | [Hn ->]].
  - right. right. left. exists n, cs2'. split_and!; try done. simpl. by rewrite Hn.
  - right. right. right. split_and!; [done|by apply Hh|done].
  - left. exists cs1', p, n, cs2'. split_and!; try done; [by apply Hl|]. simpl. by rewrite Hn.
  - right. left. exists cs1', p. split_and!; try done; [by apply Hl|by apply Hh].
Qed.

Lemma u64_add_l a b : u64 (u64 a + b) = u64 (a + b).
Proof. unfold u64. by rewrite Zplus_mod_idemp_l. Qed.

Lemma u64_sub_add_l a b c : u64 (u64 a - b + c) = u64 (a - b + c).
Proof.
  replace (u64 a - b + c) with (u64 a + (c - b)) by lia. rewrite u64_add_l. f_equal. lia.
Qed.

(** The end of free: everything is back in the arena of the released chunks. *)
Lemma release_close s cs1 c cs2 cs1' m cs2' k u f F :
  layout_ok (s_lo s) (s_hi s) (cs1 ++ c :: cs2) -> is_used c ->
  release cs1 c cs2 = cs1' ++ m :: cs2' -> is_free m ->
  u = sum_size (used_of (cs1 ++ c :: cs2)) - csize c ->
  f = sum_size (free_of (cs1 ++ c :: cs2)) + csize c + k ->
  sum_size (free_of (cs1 ++ cs2)) + csize c + k = csize m + sum_size (free_of (cs1' ++ cs2')) ->
  F ≡ₚ free_of (cs1' ++ cs2') ->
  bounds s -∗ counters s (u64 u) (u64 f) -∗ tags cs1' -∗ chunk_tags m -∗ tags cs2' -∗ free_lists s (m :: F) -∗
  arena s (release cs1 c cs2).
Proof.
  iIntros (Hok Hu Hrel Hm -> -> Hsum HF) "Hb Hc Ht1 Ht Ht2 Hfl".
  iApply (arena_intro with "Hb Hc [Ht1 Ht Ht2] Hfl").
  - by apply release_ok.
  - rewrite release_used used_of_app used_of_cons Hu !sum_size_app /=. lia.
  - rewrite Hrel !free_of_app !free_of_cons Hu Hm !sum_size_app /=. rewrite !free_of_app !sum_size_app in Hsum. lia.
  - rewrite Hrel HF !free_of_app free_of_cons Hm. solve_Permutation.
  - rewrite Hrel tags_app tags_cons. iFrame.
Qed.

(** The two words and the inside of the free chunk before the freed one. *)
Lemma tiling_last lo l p a : tiling lo (l ++ [p]) a -> caddr p + 16 + csize p = a.
Proof. intros (m & _ & _ & _ & H)%tiling_app. exact H. Qed.

Lemma wp_mem_free s cs1 c cs2 ws (X : iProp Σ) :
  is_used c ->
  arena s (cs1 ++ c :: cs2) -∗ block (caddr c) (csize c) ws -∗
  wp (__mem_free (s_info s) (caddr c + 8)) (fun _ => arena s (release cs1 c cs2)) X.
Proof.
  iIntros (Hu) "Ha Hbl". iDestruct (arena_open with "Ha") as "(%Hok & Hbd & [Hcu Hcf] & Ht1 & [Hv Hw] & Ht2 & Hfl)".
  assert (Hsz : forall x, x ∈ cs1 ++ c :: cs2 -> 0 <= csize x < 2 ^ 63) by (intros x; by apply layout_elem_size with (lo := s_lo s) (hi := s_hi s)).
  assert (Hlk : forall x, x ∈ cs1 ++ c :: cs2 -> is_free x -> linkable x) by (intros; eapply layout_linkable; [exact Hok|done..]).
  unfold __mem_free, SHMEM_SIZE_FIELD. replace (caddr c + 8 - 8) with (caddr c) by lia.
  wp_load "Hv". rewrite (CHUNK_SIZE_tag c); [|apply Hsz; set_solver].
  iApply wp_bind. iApply (wp_info_add with "Hcu"). iIntros "Hcu".
  iApply wp_bind. iApply (wp_info_add with "Hcf"). iIntros "Hcf".
  destruct (Hok) as (_ & _ & _ & Ht & _). apply tiling_app in Ht as (m & Hl1 & Hm & _ & Hl2). subst m.
  iApply (wp_is_prev_free with "Hbd Ht1"); [done|intros; apply Hsz; set_solver|]. iIntros "Hbd Ht1".
  replace (caddr c + 8 + csize c + 8) with (cend c) by (unfold cend, SHMEM_SIZE_FIELD; lia).
  iApply (wp_is_next_free with "Hbd Ht2"); [done|intros; apply Hsz; set_solver|]. iIntros "Hbd Ht2".
  pose proof (release_ok _ _ _ _ _ Hok Hu) as Hok'.
  destruct (release_cases cs1 c cs2) as [(cs1' & p & n & cs2' & -> & -> & Hp & Hn & -> & -> & Hrel) |
    [(cs1' & p & -> & Hp & -> & -> & Hrel) | [(n & cs2' & -> & Hn & -> & -> & Hrel) | (-> & -> & Hrel)]]].
  all: match type of Hrel with _ = _ ++ ?m :: _ =>
    assert (Hm : linkable m) by (eapply layout_linkable; [exact Hok'|rewrite Hrel; set_solver|done]) end.
  all: unfold cend, SHMEM_SIZE_FIELD in Hrel, Hm; change (2 * 8) with 16 in *.
  - iApply wp_bind. iApply (wp_info_add with "Hcf"). iIntros "Hcf".
    pose proof (tiling_last _ _ _ _ Hl1) as Hpc. destruct Hl2 as (Hnc & _). rewrite -Hnc.
    unfold cend, SHMEM_SIZE_FIELD in Hnc.
    iDestruct (tags_app with "Ht1") as "[Ht1 [[Hp1 Hp2] _]]". iDestruct "Ht2" as "[[Hn1 Hn2] Ht2]".
    wp_load "Hp2". rewrite (CHUNK_SIZE_tag p); [|apply Hsz; set_solver].
    replace (caddr c - 8 - csize p - 8) with (caddr p) by lia. wp_load "Hp1". rewrite (CHUNK_SIZE_tag p); [|apply Hsz; set_solver].
    wp_load "Hn1". rewrite (CHUNK_SIZE_tag n); [|apply Hsz; set_solver].
    iDestruct (free_lists_perm _ _ (p :: n :: free_of (cs1' ++ cs2')) with "Hfl") as "Hfl".
    { rewrite !free_of_app /= !free_of_cons Hp Hu Hn. solve_Permutation. }
    iApply wp_bind. iApply (wp_unlink with "Hfl [$Hp1 $Hp2]"); [apply Hlk; [set_solver|done]|]. iIntros (wp') "Hfl [Hp1 Hp2] Hbp".
    iApply wp_bind. iApply (wp_unlink with "Hfl [$Hn1 $Hn2]"); [apply Hlk; [set_solver|done]|]. iIntros (wn) "Hfl Htn Hbn".
    iDestruct (chunk_merge _ _ _ _ c with "Hbp Hp2 [$Hv $Hw] Hbl") as (w1 t1) "[Hbl Hw]"; [lia|].
    iDestruct (chunk_merge _ _ _ _ n with "Hbl Hw Htn Hbn") as (w2 t2) "[Hbl Hw]"; [lia|].
    replace (csize c + (4 * 8 + csize p + csize n)) with (csize p + 16 + csize c + 16 + csize n) by lia.
    iApply (wp_set_and_link with "Hfl Hp1 Hbl Hw"); [by replace (csize p + 16 + csize c + 16 + csize n) with (caddr n + 16 + csize n - caddr p - 16) by lia|].
    iIntros "Hfl Ht".
    replace (csize p + 16 + csize c + 16 + csize n) with (caddr n + 16 + csize n - caddr p - 16) by lia.
    rewrite u64_add_l. iApply (release_close _ _ _ _ _ _ _ 32 with "Hbd [$Hcu Hcf] Ht1 Ht Ht2 Hfl"); try done.
    rewrite !free_of_app !free_of_cons Hp Hn !sum_size_app /=. lia.
  - iApply wp_bind. iApply (wp_info_add with "Hcf"). iIntros "Hcf".
    pose proof (tiling_last _ _ _ _ Hl1) as Hpc.
    iDestruct (tags_app with "Ht1") as "[Ht1 [[Hp1 Hp2] _]]".
    wp_load "Hp2". rewrite (CHUNK_SIZE_tag p); [|apply Hsz; set_solver].
    replace (caddr c - 8 - csize p - 8) with (caddr p) by lia. wp_load "Hp1". rewrite (CHUNK_SIZE_tag p); [|apply Hsz; set_solver].
    iDestruct (free_lists_perm _ _ (p :: free_of (cs1' ++ cs2)) with "Hfl") as "Hfl".
    { rewrite !free_of_app /= !free_of_cons Hp Hu. solve_Permutation. }
    iApply wp_bind. iApply (wp_unlink with "Hfl [$Hp1 $Hp2]"); [apply Hlk; [set_solver|done]|]. iIntros (wp') "Hfl [Hp1 Hp2] Hbp".
    iDestruct (chunk_merge _ _ _ _ c with "Hbp Hp2 [$Hv $Hw] Hbl") as (w1 t1) "[Hbl Hw]"; [lia|].
    replace (csize c + (16 + csize p)) with (csize p + 16 + csize c) by lia.
    iApply (wp_set_and_link with "Hfl Hp1 Hbl Hw"); [by replace (csize p + 16 + csize c) with (caddr c + 16 + csize c - caddr p - 16) by lia|].
    iIntros "Hfl Ht".
    replace (csize p + 16 + csize c) with (caddr c + 16 + csize c - caddr p - 16) by lia.
    rewrite u64_add_l. iApply (release_close _ _ _ _ _ _ _ 16 with "Hbd [$Hcu Hcf] Ht1 Ht Ht2 Hfl"); try done.
    rewrite !free_of_app !free_of_cons Hp !sum_size_app /=. lia.
  - iApply wp_bind. iApply (wp_info_add with "Hcf"). iIntros "Hcf".
    destruct Hl2 as (Hnc & _). rewrite -Hnc. unfold cend, SHMEM_SIZE_FIELD in Hnc.
    iDestruct "Ht2" as "[[Hn1 Hn2] Ht2]".
    wp_load "Hn1". rewrite (CHUNK_SIZE_tag n); [|apply Hsz; set_solver].
    iDestruct (free_lists_perm _ _ (n :: free_of (cs1 ++ cs2')) with "Hfl") as "Hfl".
    { rewrite !free_of_app !free_of_cons Hu Hn. solve_Permutation. }
    iApply wp_bind. iApply (wp_unlink with "Hfl [$Hn1 $Hn2]"); [apply Hlk; [set_solver|done]|]. iIntros (wn) "Hfl Htn Hbn".
    iDestruct (chunk_merge _ _ _ _ n with "Hbl Hw Htn Hbn") as (w2 t2) "[Hbl Hw]"; [lia|].
    replace (csize c + (16 + csize n)) with (csize c + 16 + csize n) by lia.
    iApply (wp_set_and_link with "Hfl Hv Hbl Hw"); [by replace (csize c + 16 + csize n) with (caddr n + 16 + csize n - caddr c - 16) by lia|].
    iIntros "Hfl Ht".
    replace (csize c + 16 + csize n) with (caddr n + 16 + csize n - caddr c - 16) by lia.
    rewrite u64_add_l. iApply (release_close _ _ _ _ _ _ _ 16 with "Hbd [$Hcu Hcf] Ht1 Ht Ht2 Hfl"); try done.
    rewrite !free_of_app !free_of_cons Hn !sum_size_app /=. lia.
  - iDestruct (free_lists_perm _ _ (free_of (cs1 ++ cs2)) with "Hfl") as "Hfl".
    { by rewrite !free_of_app !free_of_cons Hu. }
    iApply (wp_set_and_link with "Hfl Hv Hbl Hw"); [by replace (csize c) with (caddr c + 16 + csize c - caddr c - 16) by lia|].
    iIntros "Hfl Ht".
    replace (Chunk (caddr c) (csize c) false) with (Chunk (caddr c) (caddr c + 16 + csize c - caddr c - 16) false) by (f_equal; lia).
    iApply (release_close _ _ _ _ _ _ _ 0 with "Hbd [$Hcu Hcf] Ht1 Ht Ht2 Hfl"); try done.
    + simpl. lia.
    + by rewrite Z.add_0_r.
Qed.
End Free.
