(* ===== verification/ShmemRealloc.v ===== *)
(** The specification of __mem_realloc(): the contents are kept, and NULL is
    returned only if the request cannot be met even when the old chunk is freed. *)

From iris.base_logic.lib Require Import gen_heap.
From iris.proofmode Require Import proofmode.
From S2P Require Import Prelude Memory Shmem ShmemLayout ShmemArena ShmemFree.

Open Scope Z_scope.

Section Realloc.
  Context `{!gen_heapGS Z Z Σ}.

(* ------------------------------------------------------------------ *)
(** ** realloc *)

Lemma shrunk_used c size e : used_of (shrunk c size e) = [Chunk (caddr c) size true].
Proof. done. Qed.

(** The new chunk of shrink_chunk is linked and the old one gets its size. *)
Lemma wp_shrink_end s F a size m n x y w ws (Q : unit -> iProp Σ) X :
  linkable (Chunk m n false) ->
  free_lists s F -∗ a ↦ x -∗ (a + 8 + size) ↦ y -∗ m ↦ w -∗ block m n ws -∗ (∃ z, (m + 8 + n) ↦ z) -∗
  (free_lists s (Chunk m n false :: F) -∗ tags [Chunk a size true; Chunk m n false] -∗ Q tt) -∗
  wp (_ ← mem_set_chunk_size m n; _ ← mem_link_chunk (s_info s) m; mem_set_used_chunk_size a size) Q X.
Proof.
  iIntros (Hl) "Hfl Hx Hy Hw Hb (%z & Hz) HQ". iApply wp_bind. iApply (wp_set_chunk_size with "Hw Hz").
  iIntros "Ht". iApply wp_bind. iApply (wp_link _ _ (Chunk m n false) with "Hfl Ht Hb"); [done|].
  iIntros "Hfl Ht". iApply (wp_set_used_chunk_size with "Hx Hy"). iIntros "Hu".
  iApply ("HQ" with "Hfl"). by iFrame.
Qed.

Lemma wp_shrink_chunk s cs1 c cs2 ws size (X : iProp Σ) :
  is_used c -> size_ok size -> size <= csize c / 4 ->
  arena s (cs1 ++ c :: cs2) -∗ block (caddr c) (csize c) ws -∗
  wp (shrink_chunk (s_info s) (caddr c) (csize c) size (cend c) (head_free cs2))
    (fun _ => arena s (cs1 ++ shrunk c size (after_free c cs2).2 ++ (after_free c cs2).1) ∗
      block (caddr c) size (take (words size) ws))%I X.
Proof.
  iIntros (Hu Hz Hle) "Ha Hbl". iDestruct (arena_open with "Ha") as "(%Hok & Hbd & [Hcu Hcf] & Ht1 & [Hv Hw] & Ht2 & Hfl)".
  pose proof (shrink_ok _ _ _ _ _ _ Hok Hu Hz Hle) as Hok'.
  assert (Hsz : forall x, x ∈ cs1 ++ c :: cs2 -> 0 <= csize x < 2 ^ 63) by (intros x; by apply layout_elem_size with (lo := s_lo s) (hi := s_hi s)).
  assert (Hlk : forall x, x ∈ cs1 ++ c :: cs2 -> is_free x -> linkable x) by (intros; eapply layout_linkable; [exact Hok|done..]).
  destruct (Hok) as (_ & _ & _ & Ht & _). apply tiling_app in Ht as (m & _ & _ & [Hc1 Hc2] & Hl2). clear m.
  destruct (Hz) as [Hz1 Hz2]. unfold SHMEM_MIN_ALLOC in *.
  iDestruct (block_split _ _ _ size with "Hbl") as "[Hbl1 (%x & %y & %ws2 & Hx & Hy & Hbl)]"; [done|lia|zlia|].
  unfold shrink_chunk, SHMEM_SIZE_FIELD. replace (caddr c + 8 + size + 8) with (caddr c + 16 + size) by lia.
  destruct (after_free_cases c cs2) as [(n & cs2' & -> & Hn & Haf) | [Hn Haf]]; rewrite Haf in Hok'; rewrite Haf; cbn [fst snd] in Hok'; cbn [fst snd].
  - destruct Hl2 as (Hnc & _). unfold head_free. rewrite Hn -Hnc. cbn [negb]. unfold cend, SHMEM_SIZE_FIELD in Hnc.
    assert (Hsh : shrunk c size (cend n) = [Chunk (caddr c) size true; Chunk (caddr c + 16 + size) (csize n + (csize c - size)) false]).
    { unfold shrunk, cend, SHMEM_SIZE_FIELD. do 3 f_equal; lia. }
    rewrite Hsh in Hok'. rewrite Hsh.
    iApply wp_bind. iApply (wp_info_add with "Hcu"). iIntros "Hcu".
    iApply wp_bind. iApply (wp_info_add with "Hcf"). iIntros "Hcf".
    iDestruct "Ht2" as "[[Hn1 Hn2] Ht2]". wp_load "Hn1". rewrite (CHUNK_SIZE_tag n); [|apply Hsz; set_solver].
    iDestruct (free_lists_perm _ _ (n :: free_of (cs1 ++ cs2')) with "Hfl") as "Hfl".
    { rewrite !free_of_app !free_of_cons Hu Hn. solve_Permutation. }
    iApply wp_bind. iApply (wp_unlink with "Hfl [$Hn1 $Hn2]"); [apply Hlk; [set_solver|done]|]. iIntros (wn) "Hfl Htn Hbn".
    iDestruct (chunk_merge _ _ _ (tag c) n with "Hbl [Hw] Htn Hbn") as (w2 t2) "[Hbl Hw]"; [lia| |].
    { by replace (caddr c + 16 + size + 8 + (csize c - size - 16)) with (caddr c + 8 + csize c) by lia. }
    replace (csize c - size - 16 + 16 + csize n) with (csize n + (csize c - size)) by lia.
    iApply (wp_shrink_end with "Hfl Hv Hx Hy Hbl [Hw]"); [|by iExists _|].
    { eapply layout_linkable; [exact Hok'|set_solver|done]. }
    iIntros "Hfl Ht". iFrame "Hbl1". iApply (arena_intro with "Hbd [$Hcu $Hcf] [Ht1 Ht Ht2] Hfl"); try done.
    + rewrite !used_of_app !used_of_cons Hu Hn !sum_size_app /=. lia.
    + rewrite !free_of_app !free_of_cons Hu Hn !sum_size_app /=. lia.
    + rewrite !free_of_app /=. solve_Permutation.
    + rewrite !tags_app. iFrame.
  - assert (Hsh : shrunk c size (cend c) = [Chunk (caddr c) size true; Chunk (caddr c + 16 + size) (csize c - size - 16) false]).
    { unfold shrunk, cend, SHMEM_SIZE_FIELD. do 3 f_equal; lia. }
    rewrite Hsh in Hok'. rewrite Hsh.
    assert (head_free cs2 = false) as ->. { destruct cs2 as [|n cs2]; [done|]. simpl. by rewrite (Hn n cs2). }
    iApply wp_bind. iApply (wp_info_add with "Hcu"). iIntros "Hcu".
    iApply wp_bind. iApply (wp_info_add with "Hcf"). iIntros "Hcf".
    iDestruct (free_lists_perm _ _ (free_of (cs1 ++ cs2)) with "Hfl") as "Hfl".
    { by rewrite !free_of_app !free_of_cons Hu. }
    replace (csize c - size - 2 * 8) with (csize c - size - 16) by lia.
    iApply (wp_shrink_end with "Hfl Hv Hx Hy Hbl [Hw]"); [| |].
    { eapply layout_linkable; [exact Hok'|set_solver|done]. }
    { iExists _. by replace (caddr c + 16 + size + 8 + (csize c - size - 16)) with (caddr c + 8 + csize c) by lia. }
    iIntros "Hfl Ht". iFrame "Hbl1". iApply (arena_intro with "Hbd [$Hcu $Hcf] [Ht1 Ht Ht2] Hfl"); try done.
    + rewrite !used_of_app !used_of_cons Hu !sum_size_app /=. lia.
    + rewrite !free_of_app !free_of_cons Hu !sum_size_app /=. lia.
    + rewrite !free_of_app /=. solve_Permutation.
    + rewrite !tags_app. iFrame.
Qed.

(** The contents of a block after realloc: what both blocks have is equal. *)
Definition same_prefix (ws ws' : list Z) : Prop :=
  forall i x y, ws !! i = Some x -> ws' !! i = Some y -> x = y.

Lemma same_prefix_take ws ws3 m : same_prefix ws (take m (ws ++ ws3)).
Proof.
  intros i x y Hx Hy. apply lookup_take_Some in Hy as [Hy _].
  rewrite lookup_app_l in Hy; [congruence|]. by eapply lookup_lt_Some.
Qed.

Lemma same_prefix_app ws ws3 : same_prefix ws (ws ++ ws3).
Proof. intros i x y Hx Hy. rewrite lookup_app_l in Hy; [congruence|]. by eapply lookup_lt_Some. Qed.

Lemma wp_extend_chunk s cs1 c n cs2 ws size (X : iProp Σ) :
  is_used c -> is_free n -> size_ok size -> size <= csize c + 16 + csize n ->
  arena s (cs1 ++ c :: n :: cs2) -∗ block (caddr c) (csize c) ws -∗
  wp (extend_chunk (s_info s) (caddr c) (csize c) size (cend c))
    (fun _ => ∃ k ws', ⌜used_of (take_chunk (caddr c) (csize c + 16 + csize n) size) = [Chunk (caddr c) k true] /\
         size <= k /\ same_prefix ws ws'⌝ ∗
       arena s (cs1 ++ take_chunk (caddr c) (csize c + 16 + csize n) size ++ cs2) ∗ block (caddr c) k ws')%I X.
Proof.
  iIntros (Hu Hn Hz Hle) "Ha Hbl". iDestruct (arena_open with "Ha") as "(%Hok & Hbd & [Hcu Hcf] & Ht1 & [Hv Hw] & Ht2 & Hfl)".
  pose proof (extend_ok _ _ _ _ _ _ _ Hok Hn Hz Hle) as Hok'.
  assert (Hsz : forall x, x ∈ cs1 ++ c :: n :: cs2 -> 0 <= csize x < 2 ^ 63) by (intros x; by apply layout_elem_size with (lo := s_lo s) (hi := s_hi s)).
  assert (Hlk : forall x, x ∈ cs1 ++ c :: n :: cs2 -> is_free x -> linkable x) by (intros; eapply layout_linkable; [exact Hok|done..]).
  destruct (layout_chunk _ _ _ c Hok ltac:(set_solver)) as (Hlo & _ & [Hc1 Hc2] & Hclt & Ha).
  destruct (layout_chunk _ _ _ n Hok ltac:(set_solver)) as (_ & _ & [Hn1 Hn2] & Hnlt & _).
  destruct (Hok) as (_ & _ & _ & Ht & _). apply tiling_app in Ht as (m & _ & _ & _ & Hnc & _). clear m.
  unfold SHMEM_MIN_ALLOC in *. unfold extend_chunk, SHMEM_SIZE_FIELD. rewrite -Hnc. unfold cend, SHMEM_SIZE_FIELD in Hnc.
  iApply wp_bind. iApply (wp_info_add with "Hcu"). iIntros "Hcu".
  iApply wp_bind. iApply (wp_info_add with "Hcf"). iIntros "Hcf".
  iDestruct "Ht2" as "[[Hn1 Hn2] Ht2]". wp_load "Hn1". rewrite (CHUNK_SIZE_tag n); [|apply Hsz; set_solver].
  iDestruct (free_lists_perm _ _ (n :: free_of (cs1 ++ cs2)) with "Hfl") as "Hfl".
  { rewrite !free_of_app !free_of_cons Hu Hn. solve_Permutation. }
  iApply wp_bind. iApply (wp_unlink with "Hfl [$Hn1 $Hn2]"); [apply Hlk; [set_solver|done]|]. iIntros (wn) "Hfl Htn Hbn".
  iDestruct (chunk_merge _ _ _ (tag c) n with "Hbl Hw Htn Hbn") as (w2 t2) "[Hbl Hw]"; [lia|].
  replace (csize c + (2 * 8 + csize n)) with (csize c + 16 + csize n) by lia.
  iApply (wp_use_or_split with "Hfl [$Hcu $Hcf] Hv Hw Hbl"); [done| |done|done|lia|].
  { unfold size_ok, SHMEM_MIN_ALLOC. split; [lia|zlia]. }
  iIntros (k [Hk Hkle]) "Hfl Hc Ht Hbl". iExists k, _. iFrame "Hbl".
  iSplit; [iPureIntro; split_and!; [done|lia|apply same_prefix_take]|].
  rewrite u64_add_l u64_sub_add_l.
  iApply (arena_intro with "Hbd Hc [Ht1 Ht Ht2] Hfl"); [done|..].
  - rewrite !used_of_app !used_of_cons Hu Hn !sum_size_app Hk /=. lia.
  - rewrite !free_of_app !free_of_cons Hu Hn !sum_size_app /=. lia.
  - rewrite !free_of_app. solve_Permutation.
  - rewrite !tags_app. iFrame.
Qed.

(** The merged chunk of free. *)
Definition merged_of (cs1 : list chunk) (c : chunk) (cs2 : list chunk) (n : Z) : Prop :=
  exists cs1' m cs2', release cs1 c cs2 = cs1' ++ m :: cs2' /\ is_free m /\ csize m = n /\
    forall x, x ∈ cs1' ++ cs2' -> x ∈ cs1 ++ c :: cs2.

Lemma wp_merged_size {A : Type} s cs1 c cs2 (k : Z -> M A) (Q : A -> iProp Σ) X :
  is_used c -> arena s (cs1 ++ c :: cs2) -∗
  (∀ n, ⌜merged_of cs1 c cs2 n⌝ -∗ arena s (cs1 ++ c :: cs2) -∗ wp (k n) Q X) -∗
  wp (merged_size (s_info s) (caddr c) (csize c) (cend c) (head_free cs2) ≫= k) Q X.
Proof.
  iIntros (Hu) "Ha HQ". iDestruct (arena_open with "Ha") as "(%Hok & Hbd & Hc & Ht1 & Ht & Ht2 & Hfl)".
  assert (Hsz : forall x, x ∈ cs1 ++ c :: cs2 -> 0 <= csize x < 2 ^ 63) by (intros x; by apply layout_elem_size with (lo := s_lo s) (hi := s_hi s)).
  destruct (Hok) as (_ & _ & _ & Htl & _). apply tiling_app in Htl as (m & Hl1 & Hm & _ & Hl2). subst m.
  assert (Hclose : forall n, merged_of cs1 c cs2 n ->
    bounds s -∗ counters s (sum_size (used_of (cs1 ++ c :: cs2))) (sum_size (free_of (cs1 ++ c :: cs2))) -∗
    tags cs1 -∗ chunk_tags c -∗ tags cs2 -∗ free_lists s (free_of (cs1 ++ c :: cs2)) -∗
    (∀ n, ⌜merged_of cs1 c cs2 n⌝ -∗ arena s (cs1 ++ c :: cs2) -∗ wp (k n) Q X) -∗ wp (k n) Q X).
  { iIntros (n Hn) "Hbd Hc Ht1 Ht Ht2 Hfl HQ". iApply "HQ"; [done|].
    unfold arena. rewrite tags_app tags_cons. by iFrame. }
  unfold merged_size, SHMEM_SIZE_FIELD. iApply wp_bind.
  destruct (release_cases cs1 c cs2) as [(cs1' & p & n & cs2' & -> & -> & Hp & Hn & Hlf & -> & Hrel) |
    [(cs1' & p & -> & Hp & Hlf & -> & Hrel) | [(n & cs2' & -> & Hn & Hlf & -> & Hrel) | (Hlf & -> & Hrel)]]].
  - iDestruct "Ht2" as "[[Hn1 Hn2] Ht2]". destruct Hl2 as (Hnc & _). rewrite -Hnc.
    iApply wp_bind. wp_load "Hn1". iApply wp_ret. rewrite (CHUNK_SIZE_tag n); [|apply Hsz; set_solver].
    iDestruct (tags_cons n cs2' with "[$Hn1 $Hn2 $Ht2]") as "Ht2".
    iApply (wp_is_prev_free with "Hbd Ht1"); [done|intros; apply Hsz; set_solver|]. iIntros "Hbd Ht1". rewrite Hlf.
    iDestruct (tags_app with "Ht1") as "[Ht1 [[Hp1 Hp2] _]]". pose proof (tiling_last _ _ _ _ Hl1).
    wp_load "Hp2". iApply wp_ret. rewrite (CHUNK_SIZE_tag p); [|apply Hsz; set_solver].
    iApply (Hclose with "Hbd Hc [Ht1 Hp1 Hp2] Ht Ht2 Hfl HQ").
    + eexists _, _, _. split; [exact Hrel|]. split_and!; [done| |set_solver]. simpl. unfold cend, SHMEM_SIZE_FIELD in *. lia.
    + rewrite tags_app tags_cons. iFrame. by rewrite /tags.
  - iApply wp_ret_bind.
    iApply (wp_is_prev_free with "Hbd Ht1"); [done|intros; apply Hsz; set_solver|]. iIntros "Hbd Ht1". rewrite Hlf.
    iDestruct (tags_app with "Ht1") as "[Ht1 [[Hp1 Hp2] _]]". pose proof (tiling_last _ _ _ _ Hl1).
    wp_load "Hp2". iApply wp_ret. rewrite (CHUNK_SIZE_tag p); [|apply Hsz; set_solver].
    iApply (Hclose with "Hbd Hc [Ht1 Hp1 Hp2] Ht Ht2 Hfl HQ").
    + eexists _, _, _. split; [exact Hrel|]. split_and!; [done| |set_solver]. simpl. unfold cend, SHMEM_SIZE_FIELD in *. lia.
    + rewrite tags_app tags_cons. iFrame. by rewrite /tags.
  - iDestruct "Ht2" as "[[Hn1 Hn2] Ht2]". destruct Hl2 as (Hnc & _). rewrite -Hnc.
    iApply wp_bind. wp_load "Hn1". iApply wp_ret. rewrite (CHUNK_SIZE_tag n); [|apply Hsz; set_solver].
    iDestruct (tags_cons n cs2' with "[$Hn1 $Hn2 $Ht2]") as "Ht2".
    iApply (wp_is_prev_free with "Hbd Ht1"); [done|intros; apply Hsz; set_solver|]. iIntros "Hbd Ht1". rewrite Hlf.
    iApply wp_ret. iApply (Hclose with "Hbd Hc Ht1 Ht Ht2 Hfl HQ").
    eexists _, _, _. split; [exact Hrel|]. split_and!; [done| |set_solver]. simpl. unfold cend, SHMEM_SIZE_FIELD in *. lia.
  - iApply wp_ret_bind.
    iApply (wp_is_prev_free with "Hbd Ht1"); [done|intros; apply Hsz; set_solver|]. iIntros "Hbd Ht1". rewrite Hlf.
    iApply wp_ret. iApply (Hclose with "Hbd Hc Ht1 Ht Ht2 Hfl HQ").
    eexists _, _, _. split; [exact Hrel|]. split_and!; [done| |set_solver]. simpl. unfold cend, SHMEM_SIZE_FIELD in *. lia.
Qed.

(** Copying over the first words of a block. *)
Lemma wp_write_prefix r k ws0 vs (X : iProp Σ) :
  (length vs <= length ws0)%nat -> block r k ws0 -∗
  wp (write_words (r + 8) vs) (fun _ => block r k (vs ++ drop (length vs) ws0)) X.
Proof.
  iIntros (Hle) "[%Hf H]". rewrite -{1}(take_drop (length vs) ws0) array_app. iDestruct "H" as "[H1 H2]".
  iApply (wp_write_words with "H1"); [rewrite length_take; lia|]. iIntros "H1". unfold block. rewrite array_app.
  rewrite length_take Nat.min_l //. iFrame. iPureIntro. unfold fills in *. rewrite length_app length_drop. lia.
Qed.

Lemma wp_copy_prefix r k ws0 a n vs (X : iProp Σ) :
  (length vs <= length ws0)%nat -> block r k ws0 -∗ block a n vs -∗
  wp (copy_words (words n) (r + 8) (a + 8)) (fun _ => block r k (vs ++ drop (length vs) ws0) ∗ block a n vs)%I X.
Proof.
  iIntros (Hle) "[%Hf H] [%Hv Hv]". rewrite -{1}(take_drop (length vs) ws0) array_app. iDestruct "H" as "[H1 H2]".
  pose proof (fills_words _ _ Hv) as Hlen.
  iApply (wp_copy_words with "Hv H1"); [done|rewrite length_take; lia|]. iIntros "Hv H1". unfold block. rewrite array_app.
  rewrite length_take Nat.min_l //. iFrame. iPureIntro. split; [|done]. unfold fills in *. rewrite length_app length_drop. lia.
Qed.

(** The result of realloc of the chunk [c] with the contents [ws]. *)
Definition realloc_result (s : segment) (cs1 : list chunk) (c : chunk) (cs2 : list chunk) (ws : list Z)
    (size r : Z) : iProp Σ :=
  (⌜r = 0 /\ forall x, x ∈ release cs1 c cs2 -> is_free x -> csize x < size⌝ ∗
     arena s (cs1 ++ c :: cs2) ∗ block (caddr c) (csize c) ws) ∨
  (∃ cs' k ws', ⌜r ≠ 0 /\ used_of cs' ≡ₚ Chunk r k true :: used_of (cs1 ++ cs2) /\ size <= k /\ same_prefix ws ws'⌝ ∗
     arena s cs' ∗ block r k ws').

Lemma block_fills a n ws : block a n ws -∗ ⌜fills ws n⌝.
Proof. by iIntros "[$ _]". Qed.

Lemma arena_layout s cs : arena s cs -∗ ⌜layout_ok (s_lo s) (s_hi s) cs⌝.
Proof. by iIntros "($ & _)". Qed.

(** The old chunk is freed after its contents were copied to the new one. *)
Lemma wp_copy_and_free s cs1 c cs2 ws size k ws0 A f B (X : iProp Σ) :
  is_used c -> cs1 ++ c :: cs2 = A ++ f :: B -> is_free f -> caddr f ≠ 0 ->
  used_of (take_chunk (caddr f) (csize f) size) = [Chunk (caddr f) k true] -> size <= k -> csize c <= size ->
  arena s (A ++ take_chunk (caddr f) (csize f) size ++ B) -∗ block (caddr f) k ws0 -∗ block (caddr c) (csize c) ws -∗
  wp (_ ← copy_words (words (csize c)) (caddr f + 8) (caddr c + 8); _ ← __mem_free (s_info s) (caddr c + 8); mret (caddr f))
    (realloc_result s cs1 c cs2 ws size) X.
Proof.
  iIntros (Hu Heq Hf Hr Htk Hk Hle) "Ha Hb Hc".
  iDestruct (block_fills with "Hb") as %Hl0. iDestruct (block_fills with "Hc") as %Hl.
  iApply (wp_call with "[Hb Hc]"); [iApply (wp_copy_prefix with "Hb Hc"); unfold fills in *; lia|].
  iIntros ([]) "[Hb Hc]".
  assert (Hin : c ∈ A ++ take_chunk (caddr f) (csize f) size ++ B).
  { assert (Hin : c ∈ A ++ f :: B) by (rewrite -Heq; set_solver).
    apply elem_of_app in Hin as [Hin | [-> | Hin]%elem_of_cons]; [set_solver| |set_solver].
    rewrite /is_used /is_free in Hu, Hf. congruence. }
  apply list_elem_of_split in Hin as (D1 & D2 & HD). rewrite HD.
  iApply (wp_call with "[Ha Hc]"); [iApply (wp_mem_free with "Ha Hc"); done|].
  iIntros ([]) "Ha". iApply wp_ret. iRight. iExists _, k, _. iFrame. iPureIntro. split_and!; [done| |done|apply same_prefix_app].
  rewrite release_used. apply (Permutation_cons_inv (a := c)).
  assert (H1 : used_of (A ++ take_chunk (caddr f) (csize f) size ++ B) ≡ₚ Chunk (caddr f) k true :: used_of (cs1 ++ c :: cs2)).
  { rewrite Heq !used_of_app Htk used_of_cons Hf. solve_Permutation. }
  rewrite HD !used_of_app !used_of_cons Hu in H1. rewrite used_of_app. etransitivity; [|etransitivity; [exact H1|]]; solve_Permutation.
Qed.

Lemma wp_free_then_malloc s cs1 c cs2 ws size n (X : iProp Σ) :
  is_used c -> 0 <= size <= SHMEM_MAX_SIZE -> mem_proper_alloc_size size = size ->
  merged_of cs1 c cs2 n -> size <= n -> csize c <= size ->
  arena s (cs1 ++ c :: cs2) -∗ block (caddr c) (csize c) ws -∗
  wp (free_then_malloc (s_info s) (caddr c + 8) (caddr c) (csize c) size) (realloc_result s cs1 c cs2 ws size) X.
Proof.
  iIntros (Hu Hsz Hpr Hm Hn Hle) "Ha Hc". unfold free_then_malloc, SHMEM_SIZE_FIELD.
  iDestruct (block_fills with "Hc") as %Hl. pose proof (fills_words _ _ Hl) as Hw. unfold words in Hw. rewrite -Hw.
  iDestruct "Hc" as "[_ Hc]". iApply wp_bind. iApply (wp_read_words with "Hc"). iIntros "Hc".
  iApply (wp_call with "[Ha Hc]"); [iApply (wp_mem_free with "Ha [$Hc //]"); done|]. iIntros ([]) "Ha".
  iApply (wp_call with "[Ha]"); [by iApply (wp_mem_malloc with "Ha")|]. rewrite Hpr.
  iIntros (r) "[[[-> %Hno] _] | (%A & %f & %B & %k & %ws0 & %H & Ha & Hb)]".
  - destruct Hm as (cs1' & m & cs2' & Hrel & Hmf & <- & _). specialize (Hno m). rewrite Hrel in Hno.
    specialize (Hno ltac:(set_solver) Hmf). lia.
  - destruct H as (Hrel & -> & _ & Hf & Hfs & Htk & Hk). iDestruct (arena_layout with "Ha") as %Hok.
    destruct (take_chunk_used (caddr f) (csize f) size) as (k' & Hk' & _ & _ & Hhd).
    assert (Hr : 0 < caddr f).
    { destruct (layout_chunk _ _ _ (Chunk (caddr f) k' true) Hok) as (_ & _ & _ & _ & Ha); [|exact Ha].
      apply head_Some_elem_of in Hhd. set_solver. }
    destruct (Z.eqb_spec (caddr f) 0); [lia|]. iDestruct (block_fills with "Hb") as %Hl0.
    iApply (wp_call with "[Hb]"); [iApply (wp_write_prefix with "Hb"); unfold fills in *; lia|]. iIntros ([]) "Hb".
    iApply wp_ret. iRight. iExists _, k, _. iFrame. iPureIntro. split_and!; [done| |lia|apply same_prefix_app].
    assert (H1 : used_of (release cs1 c cs2) = used_of (cs1 ++ cs2)) by (by rewrite release_used used_of_app).
    rewrite -H1 Hrel !used_of_app Htk used_of_cons Hf. solve_Permutation.
Qed.

Lemma wp_mem_realloc s cs1 c cs2 ws size (X : iProp Σ) :
  is_used c -> 0 <= size <= SHMEM_MAX_SIZE ->
  arena s (cs1 ++ c :: cs2) -∗ block (caddr c) (csize c) ws -∗
  wp (__mem_realloc (s_info s) (caddr c + 8) size)
    (realloc_result s cs1 c cs2 ws (mem_proper_alloc_size size)) X.
Proof.
  iIntros (Hu Hsz) "Ha Hc". destruct (proper_size_ok size Hsz) as [Hz Hzm].
  unfold __mem_realloc, SHMEM_SIZE_FIELD. set (sz := mem_proper_alloc_size size) in *.
  assert (Hpr : mem_proper_alloc_size sz = sz) by (apply proper_size_id; [done|lia]).
  replace (caddr c + 8 - 8) with (caddr c) by lia.
  iDestruct (arena_open with "Ha") as "(%Hok & Hbd & Hcn & Ht1 & [Hv Hw] & Ht2 & Hfl)".
  assert (Hsizes : forall x, x ∈ cs1 ++ c :: cs2 -> 0 <= csize x < 2 ^ 63) by (intros x; by apply layout_elem_size with (lo := s_lo s) (hi := s_hi s)).
  destruct (layout_chunk _ _ _ c Hok ltac:(set_solver)) as (_ & _ & _ & _ & Hca).
  wp_load "Hv". rewrite (CHUNK_SIZE_tag c); [|apply Hsizes; set_solver].
  destruct (Hok) as (_ & _ & _ & Htl & _). apply tiling_app in Htl as (m & _ & _ & _ & Hl2). clear m.
  replace (caddr c + 8 + csize c + 8) with (cend c) by (unfold cend, SHMEM_SIZE_FIELD; lia).
  iApply (wp_is_next_free with "Hbd Ht2"); [done|intros; apply Hsizes; set_solver|]. iIntros "Hbd Ht2".
  destruct (Z.leb_spec sz (csize c)) as [Hle | Hgt].
  { iAssert (arena s (cs1 ++ c :: cs2)) with "[Hbd Hcn Ht1 Hv Hw Ht2 Hfl]" as "Ha".
    { unfold arena. rewrite tags_app tags_cons. by iFrame. }
    destruct (Z.ltb_spec (csize c / 4) sz) as [_ | Hshr].
    - iApply wp_ret. iRight. iExists _, (csize c), ws. iFrame. iPureIntro. split_and!; [lia| |done|].
      + rewrite !used_of_app used_of_cons Hu. destruct c as [a n u]. rewrite /is_used /= in Hu. subst u. simpl. solve_Permutation.
      + intros i x y ??. congruence.
    - iApply (wp_call with "[Ha Hc]"); [by iApply (wp_shrink_chunk with "Ha Hc")|]. iIntros ([]) "[Ha Hc]".
      iApply wp_ret. iRight. iExists _, sz, _. iFrame. iPureIntro. split_and!; [lia| |done|].
      + rewrite !used_of_app shrunk_used. destruct (after_free_cases c cs2) as [(n & cs2' & -> & Hn & ->) | [_ ->]]; simpl;
          rewrite ?used_of_cons ?Hn; solve_Permutation.
      + rewrite -{2}(app_nil_r ws). apply same_prefix_take. }
  iApply (wp_call _ _ (fun b => ⌜b = true <-> exists n cs2', cs2 = n :: cs2' /\ is_free n /\ sz <= csize c + 16 + csize n⌝ ∗ tags cs2)%I with "[Ht2]").
  { destruct cs2 as [|n cs2]; simpl.
    - iApply wp_ret. iFrame. iPureIntro. split; [done|]. by intros (? & ? & ? & _).
    - destruct (cused n) eqn:Hn; simpl.
      + iApply wp_ret. iFrame. iPureIntro. split; [done|]. intros (? & ? & [= <- <-] & Hf & _). rewrite /is_free in Hf. congruence.
      + iDestruct "Ht2" as "[[Hn1 Hn2] Ht2]". destruct Hl2 as (Hnc & _). rewrite -Hnc. wp_load "Hn1". iApply wp_ret.
        rewrite (CHUNK_SIZE_tag n); [|apply Hsizes; set_solver]. iFrame. iPureIntro.
        rewrite Z.leb_le. split; [intros; exists n, cs2; split_and!; done || lia|]. intros (? & ? & [= <- <-] & _ & ?). lia. }
  iIntros (b) "[%Hb Ht2]".
  iAssert (arena s (cs1 ++ c :: cs2)) with "[Hbd Hcn Ht1 Hv Hw Ht2 Hfl]" as "Ha".
  { unfold arena. rewrite tags_app tags_cons. by iFrame. }
  destruct b.
  - destruct (proj1 Hb eq_refl) as (n & cs2' & -> & Hn & Hfit).
    iApply (wp_call with "[Ha Hc]"); [by iApply (wp_extend_chunk with "Ha Hc")|].
    iIntros ([]) "(%k & %ws' & (%Hk & %Hkle & %Hsp) & Ha & Hb)". iApply wp_ret. iRight. iExists _, k, ws'. iFrame.
    iPureIntro. split_and!; [lia| |done|done]. rewrite !used_of_app Hk used_of_cons Hn. solve_Permutation.
  - iApply (wp_call with "[Ha]"); [by iApply (wp_mem_malloc with "Ha"); lia|]. rewrite Hpr.
    iIntros (r) "[[[-> %Hno] Ha] | (%A & %f & %B & %k & %ws0 & %H & Ha & Hb)]".
    + simpl. iApply (wp_merged_size with "Ha"); [done|]. iIntros (n Hm) "Ha". destruct (Z.ltb_spec n sz) as [Hlt | Hge].
      * iApply wp_ret. iLeft. iFrame. iPureIntro. split; [done|].
        destruct Hm as (cs1' & m & cs2' & -> & Hmf & <- & Hsub). intros x Hx Hxf.
        destruct (decide (x = m)) as [-> | Hne]; [done|]. apply Hno; [apply Hsub; set_solver|done].
      * iApply (wp_free_then_malloc with "Ha Hc"); done || lia.
    + destruct H as (Heq & -> & _ & Hf & Hfs & Htk & Hk).
      destruct (layout_chunk _ _ _ f Hok ltac:(rewrite Heq; set_solver)) as (_ & _ & _ & _ & Hfa).
      destruct (Z.eqb_spec (caddr f) 0); [lia|].
      iApply (wp_copy_and_free with "Ha Hb Hc"); done || lia.
Qed.
End Realloc.
