(* ===== verification/ShmemSegment.v ===== *)
(** Setting up a segment (zbx_shmem_create(), zbx_shmem_create_min(),
    zbx_shmem_clear()) and its statistics (zbx_shmem_get_stats()). *)

From iris.base_logic.lib Require Import gen_heap.
From iris.proofmode Require Import proofmode.
From S2P Require Import Prelude Memory Shmem ShmemLayout ShmemArena.

Open Scope Z_scope.

(** Rounding an address up. *)
Lemma land_align (n : Z) : 0 <= n < 2 ^ 64 -> Z.land n (u64 (Z.lnot 7)) = 8 * (n / 8).
Proof.
  intros Hn. change (u64 (Z.lnot 7)) with (Z.shiftl (Z.ones 61) 3).
  replace (8 * (n / 8)) with (Z.shiftl (Z.shiftr n 3) 3).
  2: { rewrite Z.shiftl_mul_pow2 ?Z.shiftr_div_pow2 //. change (2 ^ 3) with 8. lia. }
  apply Z.bits_inj'. intros i Hi. rewrite Z.land_spec (Z.shiftl_spec (Z.ones 61)) // (Z.shiftl_spec (Z.shiftr n 3)) //.
  destruct (Z.lt_ge_cases i 3).
  - rewrite (Z.testbit_neg_r (Z.ones 61)); [|lia]. rewrite (Z.testbit_neg_r (Z.shiftr n 3)); [|lia].
    apply andb_false_r.
  - rewrite Z.shiftr_spec; [|lia]. replace (i - 3 + 3) with i by lia.
    destruct (Z.lt_ge_cases i 64).
    + rewrite Z.ones_spec_low; [|lia]. by rewrite andb_true_r.
    + rewrite (Z.bits_above_log2 n i); [done|lia|]. destruct (decide (n = 0)) as [->|]; [simpl; lia|].
      apply Z.log2_lt_pow2; [lia|]. eapply Z.lt_le_trans; [apply Hn|]. apply Z.pow_le_mono_r; lia.
Qed.

Lemma ALIGN8_spec (p : Z) : 0 <= p < 2 ^ 63 -> ALIGN8 p = 8 * ((p + 7) / 8).
Proof. intros Hp. unfold ALIGN8. rewrite u64_small; [|lia]. apply land_align. lia. Qed.

Lemma ALIGN8_id (p : Z) : 0 <= p < 2 ^ 63 -> p mod 8 = 0 -> ALIGN8 p = p.
Proof. intros Hp Hm. rewrite ALIGN8_spec //. zlia. Qed.

Section Segment.
  Context `{!gen_heapGS Z Z Σ}.

Lemma wp_clear_words n a ws (Q : unit -> iProp Σ) X :
  length ws = n -> a ↦∗ ws -∗ (a ↦∗ replicate n 0 -∗ Q tt) -∗ wp (clear_words n a) Q X.
Proof.
  iIntros (Hl) "H HQ". iInduction n as [|n IH] forall (a ws Hl Q); destruct ws as [|w ws]; try done; simpl.
  - iApply wp_ret. by iApply "HQ".
  - iDestruct "H" as "[Hw H]". wp_store "Hw". iApply ("IH" with "[] H"); [simpl in Hl; iPureIntro; lia|].
    iIntros "H". iApply "HQ". iFrame.
Qed.

(** Cleared buckets are empty lists. *)
Lemma buckets_empty s n k :
  (s_buckets s + 8 * Z.of_nat k) ↦∗ replicate n 0 -∗ [∗ list] i ↦ l ∈ replicate n [], bucket s (k + i) l.
Proof.
  iIntros "H". iInduction n as [|n IH] forall (k); simpl; [done|]. iDestruct "H" as "[Hw H]".
  rewrite Nat.add_0_r. iSplitL "Hw".
  - unfold bucket. simpl. iFrame. by iPureIntro; constructor.
  - replace (s_buckets s + 8 * Z.of_nat k + 8) with (s_buckets s + 8 * Z.of_nat (S k)) by lia.
    iSpecialize ("IH" with "H"). iApply (big_sepL_mono with "IH"). iIntros (i l _) "H".
    by rewrite -Nat.add_succ_comm.
Qed.

Lemma concat_replicate_nil {A : Type} n : concat (replicate n ([] : list A)) = [].
Proof. induction n; simpl; auto. Qed.

(** The size words and the inside of a chunk that takes a whole region. *)
Lemma region_chunk a n ws :
  a ↦∗ ws -∗ ⌜fills ws (n + 16)⌝ -∗ ⌜0 <= n⌝%Z -∗ ∃ x y ws', a ↦ x ∗ block a n ws' ∗ (a + 8 + n) ↦ y.
Proof.
  iIntros "H %Hf %Hn". unfold fills in Hf. destruct ws as [|x ws]; simpl in *; [lia|].
  destruct ws as [|y ws _] using rev_ind; simpl in *; [lia|]. rewrite length_app /= in Hf.
  iDestruct "H" as "[Hx H]". iDestruct (array_app with "H") as "[H [Hy _]]".
  iExists x, y, ws. iFrame. unfold block, fills.
  replace (a + 8 + 8 * Z.of_nat (length ws)) with (a + 8 + n) by lia. iFrame. iPureIntro. lia.
Qed.

(** The one chunk of an empty segment. *)
Definition whole (s : segment) : chunk := Chunk (s_lo s) (s_total s) false.

Definition segment_ok (s : segment) : Prop :=
  0 < s_lo s /\ s_hi s - s_lo s <= 2 ^ 37 /\ size_ok (s_total s) /\ s_buckets s <> 0.

Lemma segment_layout s : segment_ok s -> layout_ok (s_lo s) (s_hi s) [whole s].
Proof.
  intros (H1 & H2 & [H3 H4] & _). unfold layout_ok, whole, s_total, size_ok, cend, SHMEM_MIN_ALLOC, SHMEM_SIZE_FIELD in *; simpl.
  unfold cend, SHMEM_SIZE_FIELD; simpl. split_and!; done || lia.
Qed.

Lemma wp_first_chunk s ws (Q : unit -> iProp Σ) X :
  segment_ok s ->
  (s_info s + OFF_BUCKETS) ↦ s_buckets s -∗ s_buckets s ↦∗ replicate 30 0 -∗ bounds s -∗
  s_lo s ↦∗ ws -∗ ⌜fills ws (s_hi s - s_lo s)⌝ -∗
  (bounds s -∗ tags [whole s] -∗ free_lists s [whole s] -∗ Q tt) -∗
  wp (first_chunk (s_info s)) Q X.
Proof.
  iIntros (Hs) "Hb Hbk (Hlo & Hhi & Htot & Hmisc) Hw %Hf HQ". unfold first_chunk, fills in *.
  wp_load "Htot". wp_load "Hlo".
  pose proof (segment_layout s Hs) as Hok.
  destruct (layout_linkable _ _ _ (whole s) Hok ltac:(left) eq_refl) as (_ & Hpos & Hsz & Hlt).
  destruct (Hs) as (_ & _ & [Hm1 Hm2] & Hnz). unfold whole in Hpos, Hsz, Hlt. simpl in Hpos, Hsz, Hlt.
  iDestruct (buckets_empty s 30 0 with "[Hbk]") as "Hbk"; [by rewrite Z.mul_0_r Z.add_0_r|].
  iAssert (buckets_are s (replicate 30 [])) with "[$Hb $Hbk //]" as "Hbk".
  set (i := mem_bucket_by_size (s_total s)). pose proof (bucket_range (s_total s)) as Hi. fold i in Hi.
  change ZBX_SHMEM_BUCKET_COUNT with 30 in Hi.
  iDestruct (buckets_acc s _ (Z.to_nat i) with "Hbk") as (l Hl) "(Hb & (_ & Hhd & _) & Hclose)"; [lia|].
  rewrite Z2Nat.id; [|lia].
  iApply wp_bind. iApply (wp_set_bucket with "Hb Hhd"). iIntros "Hb Hhd".
  iApply (wp_get_bucket with "Hb Hhd"). iIntros "Hb Hhd".
  iDestruct (region_chunk (s_lo s) (s_total s) with "Hw [%] [%]") as (x y ws') "(Hx & Hbl & Hy)".
  { unfold fills, s_total, SHMEM_SIZE_FIELD in *. lia. }
  { unfold s_total, SHMEM_SIZE_FIELD in *. unfold SHMEM_MIN_ALLOC in *. lia. }
  iApply wp_bind. iApply (wp_set_chunk_size with "Hx Hy"). iIntros "Ht".
  iApply (wp_get_bucket with "Hb Hhd"). iIntros "Hb Hhd".
  iDestruct (block_free_node (whole s) with "Hbl") as (p n) "(Hp & Hn & Hr)"; [done|].
  cbn [whole caddr csize]. unfold mem_set_prev_chunk, mem_set_next_chunk, SHMEM_SIZE_FIELD, ZBX_PTR_SIZE. wp_store "Hp".
  iApply (wp_get_bucket with "Hb Hhd"). iIntros "Hb Hhd". iApply (wp_store with "Hn"); [lia|]. iIntros "Hn".
  iApply ("HQ" with "[$Hlo $Hhi $Htot $Hmisc] [Ht]"); [by iFrame|].
  iExists _. iSplitR; [|iApply ("Hclose" $! [whole s] with "Hb")].
  - iPureIntro. apply lookup_replicate in Hl as [-> _].
    rewrite (concat_insert _ _ [] _ (whole s)) ?concat_replicate_nil //. apply lookup_replicate. split; [done|lia].
  - unfold bucket. rewrite Z2Nat.id; [|lia]. simpl. iFrame. iPureIntro. constructor; [|constructor].
    split_and!; done.
Qed.

(** ** zbx_shmem_create *)

(** The constants of the segment that is set up at [base]. *)
Definition new_segment (base size descr param shm_id allow_oom : Z) : segment :=
  Seg base (base + SIZEOF_INFO)
    (ALIGN8 (base + SIZEOF_INFO + ZBX_PTR_SIZE * ZBX_SHMEM_BUCKET_COUNT + (descr + 1) + (param + 1)))
    (ALIGN8 (base + size - 8)) (Z.lor (u32 shm_id) (Z.shiftl (u8 allow_oom) 32)).

(** A segment with room for one chunk at a place where shmat() may put it. *)
Definition creatable (base size descr param : Z) : Prop :=
  0 < base /\ base mod 8 = 0 /\ base + size <= 2 ^ 62 /\ 0 <= descr <= 2 ^ 32 /\ 0 <= param <= 2 ^ 32 /\
  shmem_min_request SHMEM_MIN_ALLOC descr param <= size <= SHMEM_MAX_SIZE.

Lemma shmem_min_request_spec n descr param :
  0 <= n <= 2 ^ 60 -> 0 <= descr <= 2 ^ 32 -> 0 <= param <= 2 ^ 32 ->
  shmem_min_request n descr param = n + 8 * ((336 + descr + param + 9) / 8) + 24.
Proof.
  intros Hn Hd Hp. unfold shmem_min_request. change (ALIGN8 SIZEOF_INFO) with 96.
  change (ZBX_PTR_SIZE * ZBX_SHMEM_BUCKET_COUNT) with 240. change (2 * SHMEM_SIZE_FIELD) with 16.
  rewrite ALIGN8_spec; [|lia]. set (k := (_ + 7) / 8).
  assert (Hk : 0 <= k <= 2 ^ 40) by (unfold k; zlia).
  rewrite (u64_small (n + _)); [|lia]. rewrite (u64_small (n + _ + 8)); [|lia]. rewrite u64_small; [|lia].
  unfold k. replace (96 + 240 + (descr + 1) + (param + 1) + 7) with (336 + descr + param + 9) by lia. lia.
Qed.

Lemma new_segment_bounds base size descr param shm_id allow_oom :
  creatable base size descr param ->
  let s := new_segment base size descr param shm_id allow_oom in
  s_lo s = base + 8 * ((336 + descr + param + 9) / 8) /\ s_hi s = base + 8 * ((size - 1) / 8) /\
  base + 336 + descr + param + 2 <= s_lo s /\ s_hi s <= base + size /\ segment_ok s.
Proof.
  intros (H1 & H2 & H3 & H4 & H5 & H6 & H7) s. rewrite shmem_min_request_spec in H6; [|done..].
  unfold SHMEM_MIN_ALLOC, SHMEM_MAX_SIZE in *.
  assert (Hlo : s_lo s = base + 8 * ((336 + descr + param + 9) / 8)).
  { unfold s, new_segment; simpl. change (ZBX_PTR_SIZE * ZBX_SHMEM_BUCKET_COUNT) with 240. unfold SIZEOF_INFO.
    rewrite ALIGN8_spec; zlia. }
  assert (Hhi : s_hi s = base + 8 * ((size - 1) / 8)).
  { unfold s, new_segment; simpl. rewrite ALIGN8_spec; zlia. }
  unfold segment_ok, s_total, size_ok, SHMEM_MIN_ALLOC, SHMEM_SIZE_FIELD. rewrite Hlo Hhi.
  assert (s_buckets s = base + 96) as -> by done. split_and!; zlia.
Qed.

Lemma array_split a ws n : (n <= length ws)%nat ->
  a ↦∗ ws -∗ ∃ ws1 ws2, ⌜ws = ws1 ++ ws2 /\ length ws1 = n⌝ ∗ a ↦∗ ws1 ∗ (a + 8 * Z.of_nat n) ↦∗ ws2.
Proof.
  iIntros (Hn) "H". rewrite -{1}(take_drop n ws) array_app length_take Nat.min_l //. iDestruct "H" as "[H1 H2]".
  iExists _, _. iFrame. iPureIntro. rewrite take_drop. split; [done|]. rewrite length_take. lia.
Qed.

(** The struct, the buckets and the region of the chunks in a fresh segment. *)
Lemma carve_segment base size descr param shm_id oom ws :
  creatable base size descr param -> Z.of_nat (length ws) = size / 8 ->
  let s := new_segment base size descr param shm_id oom in
  base ↦∗ ws -∗ ∃ w1 w2 w4, ⌜length w1 = 12%nat /\ length w2 = 30%nat /\ fills w4 (s_hi s - s_lo s)⌝ ∗
    base ↦∗ w1 ∗ (base + 96) ↦∗ w2 ∗ s_lo s ↦∗ w4.
Proof.
  iIntros (Hc Hl s) "H". destruct (new_segment_bounds base size descr param shm_id oom Hc) as (Hlo & Hhi & Hlo' & Hhi' & Hok). fold s in Hlo, Hhi, Hlo', Hhi', Hok.
  destruct Hok as (_ & _ & [Hm1 Hm2] & _). unfold s_total, SHMEM_MIN_ALLOC, SHMEM_SIZE_FIELD in *.
  destruct Hc as (H1 & H2 & H3 & H4 & H5 & H6 & H7). rewrite shmem_min_request_spec in H6; [|done..]. unfold SHMEM_MIN_ALLOC in *.
  iDestruct (array_split _ _ 12 with "H") as (w1 r1 [-> E1]) "[Hw1 H]"; [zlia|].
  rewrite length_app E1 in Hl.
  iDestruct (array_split _ _ 30 with "H") as (w2 r2 [-> E2]) "[Hw2 H]"; [zlia|].
  rewrite length_app E2 in Hl. set (g := Z.to_nat ((s_lo s - base) / 8 - 42)).
  iDestruct (array_split _ _ g with "H") as (w3 r3 [-> E3]) "[_ H]"; [unfold g; zlia|].
  rewrite length_app E3 in Hl. set (n := Z.to_nat ((s_hi s - s_lo s) / 8)).
  iDestruct (array_split _ _ n with "H") as (w4 r4 [-> E4]) "[Hw4 _]"; [unfold g, n in *; zlia|].
  iExists w1, w2, w4. iFrame "Hw1 Hw2".
  replace (base + 8 * Z.of_nat 12 + 8 * Z.of_nat 30 + 8 * Z.of_nat g) with (s_lo s) by (unfold g; zlia).
  iFrame. iPureIntro. split_and!; [done..|]. unfold fills. rewrite E4. unfold n. zlia.
Qed.

Lemma wp_strlcpy {A : Type} seg orig dst len siz (k : unit -> M A) (Q : A -> iProp Σ) X :
  0 <= len < siz -> seg <= dst -> dst + len + 1 <= seg + orig ->
  wp (k tt) Q X -∗ wp (strlcpy seg orig dst len siz ≫= k) Q X.
Proof.
  iIntros (H1 H2 H3) "H". unfold strlcpy. destruct (Z.eqb_spec siz 0); [lia|].
  replace (Z.min len (siz - 1) + 1) with (len + 1) by lia. destruct (Z.eqb_spec (len + 1) 0); [lia|]. simpl.
  destruct (Z.leb_spec seg dst); [|lia]. destruct (Z.leb_spec (dst + (len + 1)) (seg + orig)); [|lia]. simpl.
  by iApply wp_ret_bind.
Qed.

Lemma wp_shmem_create base size descr param shm_id allow_oom ws (Q : option Z -> iProp Σ) X :
  creatable base size descr param -> Z.of_nat (length ws) = size / 8 ->
  let s := new_segment base size descr param shm_id allow_oom in
  base ↦∗ ws -∗ (arena s [whole s] -∗ Q (Some (s_info s))) -∗
  wp (zbx_shmem_create (Some (shm_id, base)) size descr param allow_oom) Q X.
Proof.
  iIntros (Hc Hl s) "H HQ". destruct (new_segment_bounds base size descr param shm_id allow_oom Hc) as (_ & _ & Hlo & Hhi & Hok).
  fold s in Hlo, Hhi, Hok.
  iDestruct (carve_segment base size descr param shm_id allow_oom ws with "H") as (w1 w2 w4 (E1 & E2 & E4)) "(H1 & H2 & H4)"; [done..|]. fold s in E4 |- *.
  destruct Hc as (C1 & C2 & C3 & C4 & C5 & C6 & C7). rewrite shmem_min_request_spec in C6; [|done..].
  unfold SHMEM_MIN_ALLOC, SHMEM_MAX_SIZE in *.
  assert (C8 : 336 + descr + param + 26 <= size) by zlia.
  destruct w1 as [|x0 [|x1 [|x2 [|x3 [|x4 [|x5 [|x6 [|x7 [|x8 [|x9 [|x10 [|x11 [|]]]]]]]]]]]]]; try done.
  iDestruct "H1" as "(H0 & Hb1 & Hb2 & Hb3 & Hb4 & Hb5 & Hb6 & Hb7 & Hb8 & Hb9 & Hb10 & Hb11 & _)".
  unfold zbx_shmem_create, SHMEM_MIN_SIZE, SHMEM_MAX_SIZE, SHMEM_SIZE_FIELD.
  destruct (Z.leb_spec 128 size); [|zlia]. destruct (Z.leb_spec size 68719476736); [|lia]. cbn [negb andb].
  rewrite (ALIGN8_id base); [|lia|done]. unfold SIZEOF_INFO. rewrite (ALIGN8_id (base + 96)); [|lia|zlia].
  change (ZBX_PTR_SIZE * ZBX_SHMEM_BUCKET_COUNT) with 240. change (2 * 8) with 16.
  unfold OFF_BASE. wp_store "H0". unfold OFF_ORIG_SIZE. wp_store "Hb6". unfold OFF_BUCKETS. wp_store "Hb1".
  iApply wp_bind. iApply (wp_clear_words with "H2"); [done|]. iIntros "H2".
  rewrite (u64_small (size - _)); [|lia].
  rewrite (u64_small (size - (base + 96 - base) - _)); [|lia].
  iApply wp_strlcpy; [lia..|]. unfold OFF_MEM_DESCR. wp_store "Hb10".
  rewrite (u64_small (size - (base + 96 - base) - (base + 96 + 240 - (base + 96)) - _)); [|lia].
  iApply wp_strlcpy; [lia..|]. unfold OFF_MEM_PARAM. wp_store "Hb11".
  rewrite (u64_small (size - (base + 96 - base) - (base + 96 + 240 - (base + 96)) - (descr + 1) - _)); [|lia].
  unfold OFF_SHM_ID. wp_store "Hb8". unfold OFF_UNLOCK. wp_store "Hb9".
  replace (base + 96 + 240 + (descr + 1) + (param + 1) + (size - (base + 96 - base) - (base + 96 + 240 - (base + 96)) - (descr + 1) - (param + 1)) - 8)
    with (base + size - 8) by lia.
  change (ALIGN8 (base + 96 + 240 + (descr + 1) + (param + 1))) with (s_lo s). change (ALIGN8 (base + size - 8)) with (s_hi s).
  unfold OFF_LO_BOUND. wp_store "Hb2". unfold OFF_HI_BOUND. wp_store "Hb3".
  destruct (Hok) as (O1 & O2 & [O3 O4] & O5). unfold s_total, SHMEM_MIN_ALLOC, SHMEM_SIZE_FIELD in *.
  rewrite (u64_small (s_hi s - s_lo s - 16)); [|lia]. unfold OFF_TOTAL_SIZE. wp_store "Hb7".
  iApply wp_bind. iApply (wp_first_chunk s with "Hb1 H2 [Hb2 Hb3 Hb7 Hb8] H4 [//]"); [done| |].
  { unfold bounds, OFF_LO_BOUND, OFF_HI_BOUND, OFF_TOTAL_SIZE, OFF_SHM_ID. rewrite -!Z.add_assoc /=.
    unfold s_total, SHMEM_SIZE_FIELD. iFrame. }
  iIntros "Hbd Ht Hfl". unfold OFF_USED_SIZE. wp_store "Hb5". unfold OFF_FREE_SIZE. wp_store "Hb4".
  iApply wp_ret. iApply "HQ". iSplit; [iPureIntro; by apply segment_layout|]. iFrame.
  unfold counters, OFF_USED_SIZE, OFF_FREE_SIZE. rewrite -!Z.add_assoc /=. unfold s_total, SHMEM_SIZE_FIELD.
  rewrite Z.add_0_r. iFrame.
Qed.

(** ** zbx_shmem_clear *)

Definition inside (c : chunk) : iProp Σ := ∃ ws, block (caddr c) (csize c) ws.

Lemma dseg_insides p l n i : Forall (in_bucket i) l -> dseg p l n -∗ [∗ list] c ∈ l, inside c.
Proof.
  iIntros (Hin) "H". iInduction Hin as [|c l (_ & Hs & _) _ IH] forall (p); simpl; [done|].
  iDestruct "H" as "[Hc H]". iDestruct ("IH" with "H") as "$". by iApply (free_node_block with "Hc").
Qed.

Lemma buckets_raw s k fls :
  ([∗ list] i ↦ l ∈ fls, bucket s (k + i) l) -∗
  ∃ ws, ⌜length ws = length fls⌝ ∗ (s_buckets s + 8 * Z.of_nat k) ↦∗ ws ∗ [∗ list] c ∈ concat fls, inside c.
Proof.
  iIntros "H". iInduction fls as [|l fls IH] forall (k); simpl; [by iExists []|].
  iDestruct "H" as "[(%Hin & Hw & Hd) H]". rewrite Nat.add_0_r.
  iDestruct ("IH" $! (S k) with "[H]") as (ws Hl) "[Hws Hc]".
  { iApply (big_sepL_mono with "H"). iIntros (i l' _) "H". by rewrite -Nat.add_succ_comm. }
  iExists (_ :: ws). simpl. iFrame "Hw". replace (s_buckets s + 8 * Z.of_nat k + 8) with (s_buckets s + 8 * Z.of_nat (S k)) by lia.
  iFrame "Hws". iSplit; [by rewrite Hl|]. iApply big_sepL_app. iFrame. by iApply (dseg_insides with "Hd").
Qed.

Lemma used_free_perm (cs : list chunk) : used_of cs ++ free_of cs ≡ₚ cs.
Proof.
  induction cs as [|c cs IH]; [done|]. rewrite used_of_cons free_of_cons.
  destruct (cused c); simpl; rewrite -{3}IH; solve_Permutation.
Qed.

(** The words of all the chunks are the words of the region. *)
Lemma tiling_region a cs b :
  tiling a cs b -> tags cs -∗ ([∗ list] c ∈ cs, inside c) -∗ ∃ ws, ⌜fills ws (b - a)⌝ ∗ a ↦∗ ws.
Proof.
  iIntros (Ht) "Ht Hi". iInduction cs as [|c cs IH] forall (a Ht); simpl in *.
  - iExists []. iSplit; [|done]. iPureIntro. unfold fills. simpl. lia.
  - destruct Ht as (<- & _ & Ht). iDestruct "Ht" as "[[H1 H2] Ht]". iDestruct "Hi" as "[(%ws & %Hf & Hb) Hi]".
    iDestruct ("IH" with "[//] Ht Hi") as (ws' Hf') "H". unfold fills, cend, SHMEM_SIZE_FIELD in *.
    iExists (_ :: ws ++ _ :: ws'). simpl. rewrite array_app /=.
    replace (caddr c + 8 + 8 * Z.of_nat (length ws)) with (caddr c + 8 + csize c) by lia.
    replace (caddr c + 8 + csize c + 8) with (caddr c + 2 * 8 + csize c) by lia. iFrame.
    iPureIntro. rewrite length_app /=. lia.
Qed.

Lemma wp_shmem_clear s cs (Q : unit -> iProp Σ) X :
  segment_ok s -> arena s cs -∗ ([∗ list] c ∈ used_of cs, inside c) -∗ (arena s [whole s] -∗ Q tt) -∗
  wp (zbx_shmem_clear (s_info s)) Q X.
Proof.
  iIntros (Hok) "(%Hl & Hbd & [Hu Hf] & Ht & (%fls & %HF & Hb & [%H30 _] & Hbk)) Hused HQ".
  iDestruct (buckets_raw s 0 with "Hbk") as (bw Hbw) "[Hbk Hfree]". rewrite Z.mul_0_r Z.add_0_r HF.
  iDestruct (tiling_region (s_lo s) cs (s_hi s) with "Ht [Hused Hfree]") as (ws Hws) "H".
  { by destruct Hl as (_ & _ & _ & ? & _). }
  { iEval (rewrite -(used_free_perm cs)). iApply big_sepL_app. iFrame. }
  unfold zbx_shmem_clear. wp_load "Hb". iApply wp_bind.
  iApply (wp_clear_words with "Hbk"); [by rewrite Hbw H30|]. iIntros "Hbk".
  iApply wp_bind. iApply (wp_first_chunk s with "Hb Hbk Hbd H [//]"); [done|]. iIntros "Hbd Ht Hfl".
  wp_store "Hu". iDestruct "Hbd" as "(Hlo & Hhi & Htot & Hmisc)". wp_load "Htot".
  iApply (wp_store with "Hf"); [done|]. iIntros "Hf". iApply "HQ".
  iSplit; [iPureIntro; by apply segment_layout|]. iFrame. simpl. by rewrite Z.add_0_r.
Qed.

(** ** zbx_shmem_get_stats *)

Definition min_size (d : Z) (l : list chunk) : Z := foldr (fun c z => Z.min (csize c) z) d l.
Definition max_size (d : Z) (l : list chunk) : Z := foldr (fun c z => Z.max (csize c) z) d l.
Definition count_class (l : list chunk) (i : Z) : Z :=
  Z.of_nat (length (filter (fun c => mem_bucket_by_size (csize c) = i) l)).

(** What the statistics are of the chunks. *)
Definition stats_of (cs : list chunk) : zbx_shmem_stats :=
  let mn := min_size ZBX_MAX_UINT64 (free_of cs) in
  mkStats (sum_size (free_of cs)) (sum_size (used_of cs))
    (if mn =? ZBX_MAX_UINT64 then 0 else mn) (max_size 0 (free_of cs))
    (16 * (Z.of_nat (length cs) - 1))
    ((fun i => count_class (free_of cs) (Z.of_nat i)) <$> seq 0 30)
    (Z.of_nat (length (free_of cs))) (Z.of_nat (length (used_of cs))).

Lemma min_size_app d l1 l2 : min_size d (l1 ++ l2) = min_size (min_size d l1) l2.
Proof. revert d. induction l1 as [|c l1 IH]; intros d; simpl; [done|]. rewrite IH. clear. induction l2; simpl; lia. Qed.
Lemma max_size_app d l1 l2 : max_size d (l1 ++ l2) = max_size (max_size d l1) l2.
Proof. revert d. induction l1 as [|c l1 IH]; intros d; simpl; [done|]. rewrite IH. clear. induction l2; simpl; lia. Qed.
Lemma min_size_perm d l1 l2 : l1 ≡ₚ l2 -> min_size d l1 = min_size d l2.
Proof. induction 1; simpl; lia. Qed.
Lemma max_size_perm d l1 l2 : l1 ≡ₚ l2 -> max_size d l1 = max_size d l2.
Proof. induction 1; simpl; lia. Qed.

Lemma layout_length_bound lo hi (cs : list chunk) : layout_ok lo hi cs -> 40 * Z.of_nat (length cs) <= 2 ^ 37.
Proof.
  intros (_ & _ & H & Ht & _). enough (40 * Z.of_nat (length cs) <= hi - lo) by lia. clear H. revert lo Ht.
  induction cs as [|c cs IH]; intros lo; simpl; [lia|]. intros (<- & [Hs _] & Ht). apply IH in Ht.
  unfold cend, SHMEM_SIZE_FIELD, SHMEM_MIN_ALLOC in *. lia.
Qed.

(** One list. *)
Lemma wp_stats_list cs l i mn mx (X : iProp Σ) :
  Forall (in_bucket i) l -> Forall is_free l -> l ⊆ cs -> 40 * Z.of_nat (length l) <= 2 ^ 37 ->
  dseg 0 l 0 -∗ tags cs -∗
  wp (mwhile FIT_BOUND stats_step (hd_or 0 l, 0, mn, mx)) (fun r =>
    ⌜r = (Z.of_nat (length l), min_size mn l, max_size mx l)⌝ ∗ dseg 0 l 0 ∗ tags cs)%I X.
Proof.
  iIntros (Hin Hfr Hsub Hlen) "Hd Ht".
  set (J := fun n (st : Z * Z * Z * Z) => (∃ l1 l2, ⌜l = l1 ++ l2 /\ n = Z.of_nat (length l2) /\
    st = (hd_or 0 l2, Z.of_nat (length l1), min_size mn l1, max_size mx l1)⌝ ∗ dseg 0 l 0 ∗ tags cs)%I).
  iApply (wp_mwhile FIT_BOUND stats_step J _ _ (Z.of_nat (length l)) with "[] [Hd Ht]");
    [change (Z.of_nat FIT_BOUND) with 64; lia| |iExists [], l; by iFrame].
  iIntros "!>" (n st) "(%l1 & %l2 & %Hl & Hd & Ht)". destruct Hl as (-> & -> & ->). unfold stats_step.
  destruct l2 as [|c l2]; simpl.
  - iApply wp_ret. iFrame. iPureIntro. by rewrite app_nil_r.
  - apply Forall_app in Hin as [_ Hin]. inversion Hin as [|?? (Ha & Hs & Hlt & _) _]; subst.
    apply Forall_app in Hfr as [_ Hfr]. inversion Hfr as [|?? Hf _]; subst.
    destruct (Z.eqb_spec (caddr c) 0); [lia|].
    iDestruct (tags_acc cs c with "Ht") as "[[Ht1 Ht2] Hclose]"; [apply Hsub; set_solver|].
    rewrite tag_free //. wp_load "Ht1".
    iDestruct ("Hclose" with "[Ht1 Ht2]") as "Ht"; [rewrite chunk_tags_free //; iFrame|].
    destruct Hs as [Hs _]. unfold SHMEM_MIN_ALLOC in Hs. rewrite CHUNK_SIZE_small; [|lia].
    iDestruct (dseg_app with "Hd") as "[Hd1 ((Hp & Hn & Hr) & Hd2)]".
    unfold mem_get_next_chunk, SHMEM_SIZE_FIELD, ZBX_PTR_SIZE. wp_load "Hn". iApply wp_ret.
    iDestruct (dseg_app 0 l1 (c :: l2) with "[$Hd1 $Hp $Hn $Hr $Hd2]") as "Hd".
    iExists (Z.of_nat (length l2)). iSplit; [iPureIntro; lia|]. unfold J.
    iExists (l1 ++ [c]), l2. iFrame. iPureIntro. rewrite -app_assoc min_size_app max_size_app. simpl.
    rewrite !length_app /= in Hlen |- *. split_and!; [done..|].
    rewrite u64_small; [|lia]. apply f_equal2; [apply f_equal2; [apply f_equal2; [done|]|]|]; lia.
Qed.

Lemma count_class_app l1 l2 i : count_class (l1 ++ l2) i = count_class l1 i + count_class l2 i.
Proof. unfold count_class. rewrite filter_app length_app. lia. Qed.

Lemma count_class_perm l1 l2 i : l1 ≡ₚ l2 -> count_class l1 i = count_class l2 i.
Proof. intros H. unfold count_class. by rewrite H. Qed.

Lemma count_class_bucket l i j : Forall (in_bucket i) l ->
  count_class l j = if decide (i = j) then Z.of_nat (length l) else 0.
Proof.
  unfold count_class. induction 1 as [|c l (_ & _ & _ & Hc) _ IH]; [by case_decide|].
  rewrite filter_cons. rewrite Hc. destruct (decide (i = j)); simpl; [|done]. lia.
Qed.

Definition well_classified (fls : list (list chunk)) : Prop :=
  forall j l, fls !! j = Some l -> Forall (in_bucket (Z.of_nat j)) l.

Lemma buckets_well_classified s fls : buckets_are s fls -∗ ⌜well_classified fls⌝.
Proof.
  iIntros "(_ & _ & H)" (j l Hj). by iDestruct (big_sepL_lookup with "H") as "($ & _)".
Qed.

Lemma count_concat_none fls off i :
  (forall j l, fls !! j = Some l -> Forall (in_bucket (off + Z.of_nat j)) l) ->
  (forall j, (j < length fls)%nat -> off + Z.of_nat j <> i) -> count_class (concat fls) i = 0.
Proof.
  revert off. induction fls as [|l fls IH]; intros off Hb Hne; [done|]. simpl. rewrite count_class_app.
  rewrite (count_class_bucket l (off + Z.of_nat 0)); [|by apply (Hb 0%nat)].
  rewrite decide_False; [|apply Hne; simpl; lia]. rewrite (IH (off + 1)); [done|..].
  - intros j l' Hj. replace (off + 1 + Z.of_nat j) with (off + Z.of_nat (S j)) by lia. by apply (Hb (S j)).
  - intros j Hj. specialize (Hne (S j)). simpl in Hne. lia.
Qed.

Lemma count_class_lookup fls k l :
  well_classified fls -> fls !! k = Some l -> count_class (concat fls) (Z.of_nat k) = Z.of_nat (length l).
Proof.
  intros Hw Hl. destruct (list_elem_of_split_length _ _ _ Hl) as (f1 & f2 & -> & ->).
  rewrite concat_app /= !count_class_app. rewrite (count_class_bucket l (Z.of_nat (length f1))); [|by apply Hw].
  rewrite decide_True //. rewrite (count_concat_none f1 0) ?(count_concat_none f2 (Z.of_nat (length f1) + 1)); [lia|..].
  - intros j l' Hj. replace (Z.of_nat (length f1) + 1 + Z.of_nat j) with (Z.of_nat (length f1 + S j)) by lia.
    apply Hw. rewrite lookup_app_r; [|lia]. by replace (length f1 + S j - length f1)%nat with (S j) by lia.
  - lia.
  - intros j l' Hj. apply Hw. rewrite lookup_app_l; [done|]. by eapply lookup_lt_Some.
  - lia.
Qed.

(** All the lists from the one with index [k] on. *)
Lemma wp_stats_buckets s cs fls k n fc mn mx (Q : list Z * Z * Z * Z -> iProp Σ) X :
  (k + n = 30)%nat -> well_classified fls -> (forall c, c ∈ concat fls -> c ∈ cs /\ is_free c) ->
  40 * Z.of_nat (length (concat fls)) <= 2 ^ 37 -> 0 <= fc -> fc + Z.of_nat (length (concat (drop k fls))) < 2 ^ 32 ->
  buckets_are s fls -∗ tags cs -∗
  (buckets_are s fls -∗ tags cs -∗
   Q ((fun i => count_class (concat fls) (Z.of_nat i)) <$> seq k n, fc + Z.of_nat (length (concat (drop k fls))),
      min_size mn (concat (drop k fls)), max_size mx (concat (drop k fls)))) -∗
  wp (stats_buckets n (s_info s) (Z.of_nat k) fc mn mx) Q X.
Proof.
  iIntros (Hk Hcl Hfr Hlen Hfc Hfc') "Hb Ht HQ". iInduction n as [|n IH] forall (k fc mn mx Hk Hfc Hfc' Q); simpl.
  - iDestruct "Hb" as "(Hi & [%H30 %Hnz] & Hb)". rewrite drop_ge; [|lia]. simpl. iApply wp_ret.
    rewrite Z.add_0_r. iApply ("HQ" with "[$Hi $Hb //] Ht").
  - iDestruct (bucket_acc_ro s fls k with "Hb") as (l [Hl Hin]) "(Hi & Hhd & Hd & Hclose)"; [lia|].
    iApply (wp_get_bucket with "Hi Hhd"). iIntros "Hi Hhd".
    assert (Hsub : forall c, c ∈ l -> c ∈ concat fls) by (intros c; by apply concat_elem with (i := k)).
    assert (Hll : (length l <= length (concat fls))%nat).
    { destruct (list_elem_of_split_length _ _ _ Hl) as (l1 & l2 & -> & _). rewrite concat_app /= !length_app. lia. }
    iApply (wp_call with "[Hd Ht]").
    { iApply (wp_stats_list cs l with "Hd Ht"); [done|..|lia].
      - apply Forall_forall. intros c Hc. by apply Hfr, Hsub.
      - intros c Hc. by apply Hfr, Hsub. }
    iIntros (r) "(-> & Hd & Ht)". iDestruct ("Hclose" with "Hi Hhd Hd") as "Hb".
    rewrite (drop_S _ _ _ Hl) /= length_app in Hfc'. rewrite (drop_S _ _ _ Hl) /=.
    iApply wp_bind. replace (Z.of_nat k + 1) with (Z.of_nat (S k)) by lia.
    rewrite (u32_small (fc + _)); [|lia]. rewrite u32_small; [|lia].
    iApply ("IH" with "[%] [%] [%] Hb Ht"); [lia..|]. iIntros "Hb Ht". iApply wp_ret.
    iSpecialize ("HQ" with "Hb Ht"). rewrite length_app min_size_app max_size_app.
    rewrite (count_class_lookup _ _ _ Hcl Hl). by replace (fc + Z.of_nat (length l) + Z.of_nat (length (concat (drop (S k) fls))))
      with (fc + Z.of_nat (length l + length (concat (drop (S k) fls)))) by lia.
Qed.

Lemma wp_shmem_get_stats s cs (X : iProp Σ) :
  arena s cs -∗ wp (zbx_shmem_get_stats (s_info s)) (fun st => ⌜st = stats_of cs⌝ ∗ arena s cs)%I X.
Proof.
  iIntros "(%Hok & (Hlo & Hhi & Htot & Hmisc) & [Hu Hf] & Ht & (%fls & %HF & Hb))". unfold zbx_shmem_get_stats.
  iDestruct (buckets_well_classified with "Hb") as %Hw.
  pose proof (layout_length_bound _ _ _ Hok) as Hlen. destruct (layout_sums _ _ _ Hok) as [Hsu Hsf].
  pose proof (Permutation_length (used_free_perm cs)) as Hp. rewrite length_app in Hp.
  pose proof (Permutation_length HF) as Hpl.
  iApply wp_bind. change 0 with (Z.of_nat 0) at 1.
  iApply (wp_stats_buckets s cs fls 0 with "Hb Ht"); [done|done| |lia|lia|rewrite drop_0; lia|].
  { intros c Hc. rewrite HF in Hc. by apply elem_of_free_of in Hc. }
  iIntros "Hb Ht". rewrite drop_0. cbv iota beta.
  wp_load "Htot". wp_load "Hu". wp_load "Hf". iApply wp_ret. iSplitR; [|by iFrame].
  iPureIntro. unfold stats_of. rewrite (min_size_perm _ _ _ HF) (max_size_perm _ _ _ HF) Hpl.
  destruct Hok as (H1 & H2 & H3 & H4 & _). pose proof (tiling_sum _ _ _ H4) as Hsum.
  assert (Hov : s_total s - sum_size (used_of cs) - sum_size (free_of cs) = 16 * (Z.of_nat (length cs) - 1)).
  { unfold s_total, SHMEM_SIZE_FIELD. lia. }
  assert (Hne : (0 < length cs)%nat). { destruct cs; simpl in *; [lia|lia]. }
  rewrite Hov (u64_small (16 * _)); [|lia]. change (2 * SHMEM_SIZE_FIELD) with 16.
  rewrite Z.mul_comm Z.div_mul // u32_small; [|lia]. f_equal.
  - apply list_fmap_ext. intros i x _. by apply count_class_perm.
  - lia.
Qed.
End Segment.
