(* ===== verification/ShmemClient.v ===== *)
(** The allocator as its callers see it: an abstract machine on the chunks of
    the segment and the contents of the live blocks, and the theorem that every
    sequence of calls behaves like the machine.  The statements are about runs
    of the code, the logic is only in the proofs. *)

From iris.base_logic.lib Require Import gen_heap.
From iris.proofmode Require Import proofmode.
From stdpp Require Import fin_maps.
From S2P Require Import Prelude Memory Shmem ShmemLayout ShmemArena ShmemFree ShmemRealloc ShmemSegment.

Open Scope Z_scope.

(* ------------------------------------------------------------------ *)
(** ** Callers *)

(** What a caller may do; blocks are named, a name is a variable that holds a
    pointer.  Words are read and written inside the size that was asked for. *)
Inductive request : Type :=
| Malloc (h : nat) (size : Z)
| Realloc (h : nat) (size : Z)
| Free (h : nat)
| Write (h i : nat) (v : Z)
| Read (h i : nat)
| Stats
| Clear.

Inductive response : Type :=
| RNone
| RPtr (p : Z)
| RVal (v : Z)
| RStats (st : zbx_shmem_stats).

(** The pointer and the requested size of each name. *)
Notation table := (gmap nat (Z * Z)).

Definition good_size (size : Z) : bool := (0 <? size) && (size <=? SHMEM_MAX_SIZE).

Definition serve (info : Z) (t : table) (rq : request) : M (table * response) :=
  match rq with
  | Malloc h size =>
      match t !! h with
      | Some _ => mret (t, RNone)
      | None =>
          if good_size size then
            p ← __zbx_shmem_malloc info 0 size;
            mret (if p =? 0 then t else <[h := (p, size)]> t, RPtr p)
          else mret (t, RNone)
      end
  | Realloc h size =>
      match t !! h with
      | None => mret (t, RNone)
      | Some (p, _) =>
          if good_size size then
            r ← __zbx_shmem_realloc info p size;
            mret (if r =? 0 then t else <[h := (r, size)]> t, RPtr r)
          else mret (t, RNone)
      end
  | Free h =>
      match t !! h with
      | None => mret (t, RNone)
      | Some (p, _) => _ ← __zbx_shmem_free info p; mret (delete h t, RNone)
      end
  | Write h i v =>
      match t !! h with
      | Some (p, size) =>
          if 8 * (Z.of_nat i + 1) <=? size then _ ← store (p + 8 * Z.of_nat i) v; mret (t, RNone)
          else mret (t, RNone)
      | None => mret (t, RNone)
      end
  | Read h i =>
      match t !! h with
      | Some (p, size) =>
          if 8 * (Z.of_nat i + 1) <=? size then v ← load (p + 8 * Z.of_nat i); mret (t, RVal v)
          else mret (t, RNone)
      | None => mret (t, RNone)
      end
  | Stats => st ← zbx_shmem_get_stats info; mret (t, RStats st)
  | Clear => _ ← zbx_shmem_clear info; mret (∅, RNone)
  end.

Fixpoint serve_all (info : Z) (t : table) (rqs : list request) : M (table * list response) :=
  match rqs with
  | [] => mret (t, [])
  | rq :: rqs' =>
      r ← serve info t rq;
      rest ← serve_all info r.1 rqs';
      mret (rest.1, r.2 :: rest.2)
  end.

(** A segment that may run out of memory, used from its creation on. *)
Definition session (shm_id base size descr param : Z) (rqs : list request) : M (table * list response) :=
  r ← zbx_shmem_create (Some (shm_id, base)) size descr param 1;
  match r with
  | Some info => serve_all info ∅ rqs
  | None => m_exit
  end.

(* ------------------------------------------------------------------ *)
(** ** The abstract machine *)

(** A live block: its chunk, the size that was asked for and its words. *)
Record live_block : Type := mkBlock { b_chunk : chunk; b_size : Z; b_words : list Z }.

Record spec_state : Type := mkSpec { layout : list chunk; live : gmap nat live_block }.

Definition pointer (b : live_block) : Z := caddr (b_chunk b) + SHMEM_SIZE_FIELD.

Definition new_block (a k size : Z) (ws : list Z) : live_block := mkBlock (Chunk a k true) size ws.

Definition no_room (cs : list chunk) (size : Z) : Prop :=
  forall c, c ∈ cs -> is_free c -> csize c < size.

Inductive spec_step (s : segment) (a : spec_state) : request -> response -> spec_state -> Prop :=
| spec_malloc h size cs' p k ws :
    live a !! h = None -> good_size size = true ->
    found (layout a) (mem_proper_alloc_size size) p -> p ≠ 0 ->
    used_of cs' ≡ₚ Chunk p k true :: used_of (layout a) ->
    size <= k -> fills ws k ->
    spec_step s a (Malloc h size) (RPtr (p + SHMEM_SIZE_FIELD)) (mkSpec cs' (<[h := new_block p k size ws]> (live a)))
| spec_malloc_null h size :
    live a !! h = None -> good_size size = true ->
    no_room (layout a) (mem_proper_alloc_size size) ->
    spec_step s a (Malloc h size) (RPtr 0) a
| spec_realloc h b size cs' p k ws U :
    live a !! h = Some b -> good_size size = true -> p ≠ 0 ->
    used_of (layout a) ≡ₚ b_chunk b :: U -> used_of cs' ≡ₚ Chunk p k true :: U ->
    size <= k -> fills ws k -> same_prefix (b_words b) ws ->
    spec_step s a (Realloc h size) (RPtr (p + SHMEM_SIZE_FIELD)) (mkSpec cs' (<[h := new_block p k size ws]> (live a)))
| spec_realloc_null h b size cs1 cs2 :
    live a !! h = Some b -> good_size size = true ->
    layout a = cs1 ++ b_chunk b :: cs2 ->
    no_room (release cs1 (b_chunk b) cs2) (mem_proper_alloc_size size) ->
    spec_step s a (Realloc h size) (RPtr 0) a
| spec_free h b cs1 cs2 :
    live a !! h = Some b -> layout a = cs1 ++ b_chunk b :: cs2 ->
    spec_step s a (Free h) RNone (mkSpec (release cs1 (b_chunk b) cs2) (delete h (live a)))
| spec_write h b i v :
    live a !! h = Some b -> 8 * (Z.of_nat i + 1) <= b_size b ->
    spec_step s a (Write h i v) RNone
      (mkSpec (layout a) (<[h := mkBlock (b_chunk b) (b_size b) (<[i := v]> (b_words b))]> (live a)))
| spec_read h b i v :
    live a !! h = Some b -> 8 * (Z.of_nat i + 1) <= b_size b -> b_words b !! i = Some v ->
    spec_step s a (Read h i) (RVal v) a
| spec_stats :
    spec_step s a Stats (RStats (stats_of (layout a))) a
| spec_clear :
    spec_step s a Clear RNone (mkSpec [whole s] ∅)
| spec_refused rq :
    match rq with
    | Malloc h size => is_Some (live a !! h) \/ good_size size = false
    | Realloc h size => live a !! h = None \/ good_size size = false
    | Free h => live a !! h = None
    | Write h i _ | Read h i => forall b, live a !! h = Some b -> b_size b < 8 * (Z.of_nat i + 1)
    | Stats | Clear => False
    end ->
    spec_step s a rq RNone a.

Inductive spec_run (s : segment) : spec_state -> list request -> list response -> spec_state -> Prop :=
| spec_done a : spec_run s a [] [] a
| spec_more a rq rp a' rqs rps a'' :
    spec_step s a rq rp a' -> spec_run s a' rqs rps a'' -> spec_run s a (rq :: rqs) (rp :: rps) a''.

(** The invariant of the machine: the segment is well formed and the used
    chunks are those of the live blocks. *)
Definition live_chunks (l : gmap nat live_block) : list chunk := (fun x => b_chunk x.2) <$> map_to_list l.

Definition block_ok (b : live_block) : Prop :=
  is_used (b_chunk b) /\ fills (b_words b) (csize (b_chunk b)) /\ b_size b <= csize (b_chunk b).

Definition spec_ok (lo hi : Z) (a : spec_state) : Prop :=
  layout_ok lo hi (layout a) /\ used_of (layout a) ≡ₚ live_chunks (live a) /\
  map_Forall (fun _ b => block_ok b) (live a).

Definition table_of (l : gmap nat live_block) : table := (fun b => (pointer b, b_size b)) <$> l.

(* ------------------------------------------------------------------ *)
(** ** The calls follow the machine *)

Definition oom_allowed (s : segment) : Prop := Z.land (Z.shiftr (s_misc s) 32) 255 = 1.

Lemma new_segment_oom base size descr param shm_id :
  oom_allowed (new_segment base size descr param shm_id 1).
Proof.
  unfold oom_allowed, new_segment; simpl. change (u8 1) with 1. rewrite Z.shiftr_lor Z.shiftr_shiftl_l; [|lia].
  change (Z.shiftl 1 (32 - 32)) with 1. rewrite Z.shiftr_div_pow2; [|lia].
  rewrite Z.div_small; [done|]. apply u32_range.
Qed.

Lemma live_chunks_insert l h b : l !! h = None -> live_chunks (<[h := b]> l) ≡ₚ b_chunk b :: live_chunks l.
Proof. intros H. unfold live_chunks. by rewrite map_to_list_insert. Qed.

Lemma live_chunks_delete l h b : l !! h = Some b -> live_chunks l ≡ₚ b_chunk b :: live_chunks (delete h l).
Proof. intros H. rewrite -(live_chunks_insert (delete h l) h b); [|apply lookup_delete_eq]. by rewrite insert_delete_id. Qed.

Lemma live_chunks_replace l h b b' U :
  l !! h = Some b -> live_chunks l ≡ₚ b_chunk b :: U -> live_chunks (<[h := b']> l) ≡ₚ b_chunk b' :: U.
Proof.
  intros H HU. rewrite -insert_delete_eq live_chunks_insert; [|apply lookup_delete_eq]. f_equiv.
  rewrite (live_chunks_delete _ _ _ H) in HU. by apply Permutation_cons_inv in HU.
Qed.

Lemma good_size_bad size : good_size size = true -> bad_size size = false /\ 0 <= size <= SHMEM_MAX_SIZE.
Proof.
  unfold good_size, bad_size. destruct (Z.ltb_spec 0 size), (Z.leb_spec size SHMEM_MAX_SIZE); try done.
  destruct (Z.eqb_spec size 0), (Z.ltb_spec SHMEM_MAX_SIZE size); try lia; done || (intros _; split; done || lia).
Qed.

Section Client.
  Context `{!gen_heapGS Z Z Σ}.

(** The memory of the machine's state. *)
Definition owns (s : segment) (t : table) (a : spec_state) : iProp Σ :=
  ⌜spec_ok (s_lo s) (s_hi s) a /\ t = table_of (live a)⌝ ∗ arena s (layout a) ∗
  [∗ map] h ↦ b ∈ live a, pointer b ↦∗ b_words b.

Lemma wp_chunk_or_oom s r (Q : Z -> iProp Σ) X :
  oom_allowed s -> bounds s -∗ (bounds s -∗ Q (if r =? 0 then 0 else r + SHMEM_SIZE_FIELD)) -∗
  wp (chunk_or_oom (s_info s) r) Q X.
Proof.
  iIntros (Hs) "(Hlo & Hhi & Ht & Hm) HQ". unfold chunk_or_oom. destruct (r =? 0).
  - unfold get_allow_oom. iApply wp_bind. wp_load "Hm". iApply wp_ret.
    unfold oom_allowed in Hs. rewrite Hs. simpl. iApply wp_ret. iApply "HQ". iFrame.
  - iApply wp_ret. iApply "HQ". iFrame.
Qed.

Lemma arena_bounds s cs : arena s cs -∗ bounds s ∗ (bounds s -∗ arena s cs).
Proof. iIntros "($ & Hb & $ & $ & $)". iFrame. by iIntros "$". Qed.

(** Taking the chunk of a live block out of the layout. *)
Lemma spec_ok_split lo hi a h b :
  spec_ok lo hi a -> live a !! h = Some b ->
  exists cs1 cs2, layout a = cs1 ++ b_chunk b :: cs2 /\
    live_chunks (delete h (live a)) ≡ₚ used_of (cs1 ++ cs2).
Proof.
  intros (Hok & Hp & Hb) Hl. rewrite (live_chunks_delete _ _ _ Hl) in Hp.
  assert (Hin : b_chunk b ∈ used_of (layout a)) by (rewrite Hp; by left).
  unfold used_of in Hin. apply list_elem_of_filter in Hin as [Hu Hin].
  apply list_elem_of_split in Hin as (cs1 & cs2 & E). exists cs1, cs2. split; [done|].
  rewrite E used_of_app used_of_cons Hu in Hp. rewrite used_of_app. symmetry.
  apply (Permutation_cons_inv (a := b_chunk b)). rewrite -Hp. solve_Permutation.
Qed.

(** What is owned after a request is served. *)
Definition served (s : segment) (a : spec_state) (rq : request) (r : table * response) : iProp Σ :=
  ∃ a', ⌜spec_step s a rq r.2 a'⌝ ∗ owns s r.1 a'.

Lemma served_refused s t a rq :
  spec_step s a rq RNone a -> owns s t a -∗ served s a rq (t, RNone).
Proof. iIntros (H) "Ho". iExists a. by iFrame. Qed.

Lemma table_lookup a h : table_of (live a) !! h = (fun b => (pointer b, b_size b)) <$> live a !! h.
Proof. apply lookup_fmap. Qed.

(** A name gets a new block in place of none or of its old one. *)
Lemma owns_new s a cs' h p k size ws U :
  spec_ok (s_lo s) (s_hi s) a -> live_chunks (delete h (live a)) ≡ₚ U -> used_of cs' ≡ₚ Chunk p k true :: U ->
  size <= k ->
  arena s cs' -∗ block p k ws -∗ ([∗ map] b ∈ delete h (live a), pointer b ↦∗ b_words b) -∗
  owns s (<[h := (p + SHMEM_SIZE_FIELD, size)]> (table_of (live a)))
    (mkSpec cs' (<[h := new_block p k size ws]> (live a))).
Proof.
  iIntros ((Hok & Hp & Hb) HU Hu Hle) "Ha [%Hf Hw] Hl". iDestruct (arena_layout with "Ha") as %Hok'.
  iFrame "Ha". iSplitR.
  - iPureIntro. split; [|unfold table_of; by rewrite fmap_insert]. split_and!; simpl; [done| |].
    + rewrite -insert_delete_eq live_chunks_insert; [|apply lookup_delete_eq]. by rewrite Hu HU.
    + apply map_Forall_insert_2; [|done]. split_and!; done.
  - simpl. rewrite -insert_delete_eq. iApply big_sepM_insert; [apply lookup_delete_eq|]. by iFrame.
Qed.

Lemma wp_serve_malloc s t a h size (X : iProp Σ) :
  oom_allowed s -> owns s t a -∗ wp (serve (s_info s) t (Malloc h size)) (served s a (Malloc h size)) X.
Proof.
  iIntros (Hoom) "Ho". iDestruct "Ho" as "((%Hok & ->) & Ha & Hl)". simpl. rewrite table_lookup.
  destruct (live a !! h) as [b|] eqn:Hh; simpl.
  { iApply wp_ret. iApply served_refused; [apply spec_refused; left; rewrite Hh; eauto|]. by iFrame. }
  destruct (good_size size) eqn:Hg.
  2: { iApply wp_ret. iApply served_refused; [apply spec_refused; by right|]. by iFrame. }
  destruct (good_size_bad size Hg) as [Hbad Hsz]. unfold __zbx_shmem_malloc. simpl. rewrite Hbad.
  iApply wp_bind. iApply (wp_call with "[Ha]"); [by iApply (wp_mem_malloc with "Ha")|].
  iIntros (r) "[[[-> %Hno] Ha] | (%A & %f & %B & %k & %ws & %H & Ha & Hb)]".
  - iDestruct (arena_bounds with "Ha") as "[Hbd Hc]". iApply (wp_chunk_or_oom with "Hbd"); [done|]. iIntros "Hbd".
    iDestruct ("Hc" with "Hbd") as "Ha". simpl. iApply wp_ret. iExists a.
    iSplit; [iPureIntro; by apply spec_malloc_null|]. by iFrame.
  - destruct H as (Heq & -> & Hfd & Hf & Hfs & Htk & Hk).
    destruct (layout_chunk _ _ _ f (proj1 Hok) ltac:(rewrite Heq; set_solver)) as (_ & _ & _ & _ & Hfa).
    iDestruct (arena_bounds with "Ha") as "[Hbd Hc]". iApply (wp_chunk_or_oom with "Hbd"); [done|]. iIntros "Hbd".
    iDestruct ("Hc" with "Hbd") as "Ha". destruct (Z.eqb_spec (caddr f) 0); [lia|].
    unfold SHMEM_SIZE_FIELD. destruct (Z.eqb_spec (caddr f + 8) 0); [lia|]. iApply wp_ret.
    iDestruct (block_fills with "Hb") as %Hfw. pose proof (proper_size_ok size Hsz) as [_ Hps].
    assert (Hu : used_of (A ++ take_chunk (caddr f) (csize f) (mem_proper_alloc_size size) ++ B) ≡ₚ
      Chunk (caddr f) k true :: used_of (layout a)).
    { rewrite Heq !used_of_app Htk used_of_cons Hf. solve_Permutation. }
    iExists _. iSplitR; [iPureIntro; eapply (spec_malloc s a h size _ _ k ws); try done; lia|].
    iApply (owns_new with "Ha Hb [Hl]"); [done| |exact Hu|lia|].
    + rewrite delete_id //. by destruct Hok as (_ & -> & _).
    + by rewrite delete_id.
Qed.

Lemma wp_serve_realloc s t a h size (X : iProp Σ) :
  oom_allowed s -> owns s t a -∗ wp (serve (s_info s) t (Realloc h size)) (served s a (Realloc h size)) X.
Proof.
  iIntros (Hoom) "Ho". iDestruct "Ho" as "((%Hok & ->) & Ha & Hl)". simpl. rewrite table_lookup.
  destruct (live a !! h) as [b|] eqn:Hh; simpl.
  2: { iApply wp_ret. iApply served_refused; [apply spec_refused; by left|]. by iFrame. }
  destruct (good_size size) eqn:Hg.
  2: { iApply wp_ret. iApply served_refused; [apply spec_refused; by right|]. by iFrame. }
  destruct (good_size_bad size Hg) as [Hbad Hsz]. unfold __zbx_shmem_realloc. rewrite Hbad.
  destruct (spec_ok_split _ _ _ _ _ Hok Hh) as (cs1 & cs2 & Heq & Hrest).
  destruct (Hok) as (Hlo & Hp & Hbs). destruct (Hbs h b Hh) as (Hu & Hf & Hbsz).
  destruct (layout_chunk _ _ _ (b_chunk b) Hlo ltac:(rewrite Heq; set_solver)) as (_ & _ & _ & _ & Hba).
  iDestruct (big_sepM_delete _ _ h b with "Hl") as "[Hw Hl]"; [done|].
  change (pointer b) with (caddr (b_chunk b) + 8). destruct (Z.eqb_spec (caddr (b_chunk b) + 8) 0); [lia|].
  rewrite Heq. iApply wp_bind.
  iApply (wp_call with "[Ha Hw]"); [by iApply (wp_mem_realloc with "Ha [$Hw //]")|].
  iIntros (r) "[([-> %Hno] & Ha & Hc) | (%cs' & %k & %ws' & (%Hr & %Hu' & %Hk & %Hsp) & Ha & Hb)]".
  - iDestruct (arena_bounds with "Ha") as "[Hbd Hcl]". iApply (wp_chunk_or_oom with "Hbd"); [done|]. iIntros "Hbd".
    simpl. iApply wp_ret. iExists a. iSplit; [iPureIntro; by eapply spec_realloc_null|].
    iDestruct ("Hcl" with "Hbd") as "Ha". iDestruct "Hc" as "[_ Hc]". rewrite -Heq. iFrame "Ha". iSplit; [done|].
    iApply (big_sepM_delete _ _ h b); [done|]. iFrame.
  - iDestruct (arena_bounds with "Ha") as "[Hbd Hcl]". iApply (wp_chunk_or_oom with "Hbd"); [done|]. iIntros "Hbd".
    iDestruct ("Hcl" with "Hbd") as "Ha". iDestruct (arena_layout with "Ha") as %Hok'.
    assert (Hra : 0 < r).
    { destruct (layout_chunk _ _ _ (Chunk r k true) Hok') as (_ & _ & _ & _ & H); [|exact H].
      assert (Hin : Chunk r k true ∈ used_of cs') by (rewrite Hu'; by left).
      unfold used_of in Hin. by apply list_elem_of_filter in Hin as [_ Hin]. }
    destruct (Z.eqb_spec r 0); [lia|]. unfold SHMEM_SIZE_FIELD. destruct (Z.eqb_spec (r + 8) 0); [lia|]. iApply wp_ret.
    iDestruct (block_fills with "Hb") as %Hfw. pose proof (proper_size_ok size Hsz) as [_ Hps].
    iExists _. iSplitR.
    { iPureIntro. eapply (spec_realloc s a h b size cs' r k ws' (used_of (cs1 ++ cs2))); try done; [|lia].
      rewrite Heq !used_of_app used_of_cons Hu. solve_Permutation. }
    iApply (owns_new with "Ha Hb Hl"); [done|exact Hrest|exact Hu'|lia].
Qed.

Lemma wp_serve_free s t a h (X : iProp Σ) :
  owns s t a -∗ wp (serve (s_info s) t (Free h)) (served s a (Free h)) X.
Proof.
  iIntros "Ho". iDestruct "Ho" as "((%Hok & ->) & Ha & Hl)". simpl. rewrite table_lookup.
  destruct (live a !! h) as [b|] eqn:Hh; simpl.
  2: { iApply wp_ret. iApply served_refused; [by apply spec_refused|]. by iFrame. }
  destruct (spec_ok_split _ _ _ _ _ Hok Hh) as (cs1 & cs2 & Heq & Hrest).
  destruct (Hok) as (Hlo & Hp & Hbs). destruct (Hbs h b Hh) as (Hu & Hf & Hbsz).
  destruct (layout_chunk _ _ _ (b_chunk b) Hlo ltac:(rewrite Heq; set_solver)) as (_ & _ & _ & _ & Hba).
  iDestruct (big_sepM_delete _ _ h b with "Hl") as "[Hw Hl]"; [done|].
  change (pointer b) with (caddr (b_chunk b) + 8). unfold __zbx_shmem_free.
  destruct (Z.eqb_spec (caddr (b_chunk b) + 8) 0); [lia|]. rewrite Heq.
  iApply (wp_call with "[Ha Hw]"); [by iApply (wp_mem_free with "Ha [$Hw //]")|]. iIntros ([]) "Ha".
  iApply wp_ret. iDestruct (arena_layout with "Ha") as %Hok'. iExists _.
  iSplitR; [iPureIntro; by apply (spec_free s a h b cs1 cs2)|]. iFrame. iPureIntro. simpl. split.
  - split_and!; simpl; [done| |by apply map_Forall_delete]. by rewrite release_used Hrest used_of_app.
  - unfold table_of. by rewrite fmap_delete.
Qed.

Lemma words_in_range b i : block_ok b -> 8 * (Z.of_nat i + 1) <= b_size b -> exists v, b_words b !! i = Some v.
Proof. intros (_ & Hf & Hs) Hi. apply lookup_lt_is_Some_2. unfold fills in Hf. lia. Qed.

Lemma array_acc a ws i v : ws !! i = Some v ->
  a ↦∗ ws -∗ (a + 8 * Z.of_nat i) ↦ v ∗ ∀ w, (a + 8 * Z.of_nat i) ↦ w -∗ a ↦∗ <[i := w]> ws.
Proof.
  iIntros (Hi) "H". destruct (list_elem_of_split_length _ _ _ Hi) as (l1 & l2 & -> & ->).
  iDestruct (array_app with "H") as "[H1 [Hv H2]]". iFrame "Hv". iIntros (w) "Hw".
  rewrite list_insert_split array_app /=. iFrame.
Qed.

Lemma wp_serve_write s t a h i v (X : iProp Σ) :
  owns s t a -∗ wp (serve (s_info s) t (Write h i v)) (served s a (Write h i v)) X.
Proof.
  iIntros "Ho". iDestruct "Ho" as "((%Hok & ->) & Ha & Hl)". simpl. rewrite table_lookup.
  destruct (live a !! h) as [b|] eqn:Hh; simpl.
  2: { iApply wp_ret. iApply served_refused; [apply spec_refused; intros b; by rewrite Hh|]. by iFrame. }
  destruct (Z.leb_spec (8 * (Z.of_nat i + 1)) (b_size b)).
  2: { iApply wp_ret. iApply served_refused; [apply spec_refused; intros b'; rewrite Hh; by intros [= <-]|]. by iFrame. }
  destruct (Hok) as (Hlo & Hp & Hbs). destruct (words_in_range b i (Hbs h b Hh)) as [w Hw]; [done|].
  iDestruct (big_sepM_delete _ _ h b with "Hl") as "[Hb Hl]"; [done|].
  iDestruct (array_acc with "Hb") as "[Hv Hc]"; [done|]. wp_store "Hv". iApply wp_ret. iExists _.
  iSplitR; [iPureIntro; by apply (spec_write s a h b i v)|]. iFrame "Ha". iSplitR; [iPureIntro|].
  - simpl. split; [|unfold table_of; rewrite fmap_insert; symmetry; apply insert_id; rewrite lookup_fmap Hh; done].
    split_and!; simpl; [done| |].
    + rewrite Hp.
      rewrite (live_chunks_replace _ h b _ (live_chunks (delete h (live a)))); [|done|by apply live_chunks_delete].
      exact (live_chunks_delete _ _ _ Hh).
    + apply map_Forall_insert_2; [|done]. destruct (Hbs h b Hh) as (Hu & Hf & Hbsz). split_and!; [done| |done].
      unfold fills. simpl. by rewrite length_insert.
  - simpl. rewrite -insert_delete_eq. iApply big_sepM_insert; [apply lookup_delete_eq|]. iFrame. by iApply "Hc".
Qed.

Lemma wp_serve_read s t a h i (X : iProp Σ) :
  owns s t a -∗ wp (serve (s_info s) t (Read h i)) (served s a (Read h i)) X.
Proof.
  iIntros "Ho". iDestruct "Ho" as "((%Hok & ->) & Ha & Hl)". simpl. rewrite table_lookup.
  destruct (live a !! h) as [b|] eqn:Hh; simpl.
  2: { iApply wp_ret. iApply served_refused; [apply spec_refused; intros b; by rewrite Hh|]. by iFrame. }
  destruct (Z.leb_spec (8 * (Z.of_nat i + 1)) (b_size b)).
  2: { iApply wp_ret. iApply served_refused; [apply spec_refused; intros b'; rewrite Hh; by intros [= <-]|]. by iFrame. }
  destruct (Hok) as (Hlo & Hp & Hbs). destruct (words_in_range b i (Hbs h b Hh)) as [w Hw]; [done|].
  iDestruct (big_sepM_delete _ _ h b with "Hl") as "[Hb Hl]"; [done|].
  iDestruct (array_acc with "Hb") as "[Hv Hc]"; [done|]. wp_load "Hv". iApply wp_ret. iExists a.
  iSplitR; [iPureIntro; by apply (spec_read s a h b i w)|]. iFrame "Ha". iSplit; [done|].
  iApply (big_sepM_delete _ _ h b); [done|]. iFrame. iSpecialize ("Hc" with "Hv"). by rewrite list_insert_id.
Qed.

Lemma wp_serve_clear s t a (X : iProp Σ) :
  segment_ok s -> owns s t a -∗ wp (serve (s_info s) t Clear) (served s a Clear) X.
Proof.
  iIntros (Hs) "((%Hok & ->) & Ha & Hl)". destruct Hok as (Hlo & Hp & Hbs). simpl. iApply wp_bind.
  iApply (wp_shmem_clear with "Ha [Hl]"); [done| |].
  - rewrite Hp. unfold live_chunks. rewrite big_sepL_fmap big_opM_map_to_list.
    iApply (big_sepL_mono with "Hl"). iIntros (i [h b] Hi) "H". iExists (b_words b). simpl. iFrame. iPureIntro.
    apply list_elem_of_lookup_2, elem_of_map_to_list in Hi. by destruct (Hbs h b Hi) as (_ & ? & _).
  - iIntros "Ha". iApply wp_ret. iExists (mkSpec [whole s] ∅). iSplitR; [iPureIntro; apply spec_clear|].
    iFrame "Ha". simpl. rewrite big_sepM_empty. iSplit; [|done]. iPureIntro. split; [|done]. split_and!.
    + by apply segment_layout.
    + done.
    + apply map_Forall_empty.
Qed.

Lemma wp_serve s t a rq (X : iProp Σ) :
  segment_ok s -> oom_allowed s -> owns s t a -∗ wp (serve (s_info s) t rq) (served s a rq) X.
Proof.
  iIntros (Hs Hoom) "Ho". destruct rq as [h size|h size|h|h i v|h i| |].
  - by iApply wp_serve_malloc.
  - by iApply wp_serve_realloc.
  - by iApply wp_serve_free.
  - by iApply wp_serve_write.
  - by iApply wp_serve_read.
  - iDestruct "Ho" as "(% & Ha & Hl)". simpl. iApply (wp_call with "[Ha]"); [by iApply wp_shmem_get_stats|].
    iIntros (st) "[-> Ha]". iApply wp_ret. iExists a. iSplitR; [iPureIntro; apply spec_stats|]. by iFrame.
  - by iApply wp_serve_clear.
Qed.

Lemma wp_serve_all s t a rqs (X : iProp Σ) :
  segment_ok s -> oom_allowed s -> owns s t a -∗
  wp (serve_all (s_info s) t rqs) (fun r => ∃ a', ⌜spec_run s a rqs r.2 a'⌝ ∗ owns s r.1 a') X.
Proof.
  iIntros (Hs Hoom) "Ho". iInduction rqs as [|rq rqs IH] forall (t a); simpl.
  - iApply wp_ret. iExists a. iFrame. iPureIntro. constructor.
  - iApply (wp_call with "[Ho]"); [by iApply (wp_serve with "Ho")|]. iIntros ([t1 rp]) "(%a1 & %H1 & Ho)".
    iApply (wp_call with "[Ho]"); [by iApply "IH"|]. iIntros ([t2 rps]) "(%a2 & %H2 & Ho)".
    iApply wp_ret. iExists a2. iFrame. iPureIntro. by econstructor.
Qed.
End Client.

(* ------------------------------------------------------------------ *)
(** ** Sessions *)

(** The memory of an attached segment: its words, whatever they hold. *)
Fixpoint words_at (base : Z) (ws : list Z) : list (Z * Z) :=
  match ws with
  | [] => []
  | w :: ws' => (base, w) :: words_at (base + 8) ws'
  end.
Definition segment_memory (base : Z) (ws : list Z) : mem := list_to_map (words_at base ws).

Definition init_state (s : segment) : spec_state := mkSpec [whole s] ∅.

Lemma words_at_ge base ws a : a ∈ (words_at base ws).*1 -> base <= a.
Proof.
  revert base. induction ws as [|w ws IH]; intros base; simpl; [by intros ?%not_elem_of_nil|].
  intros [-> | H]%elem_of_cons; [lia|]. apply IH in H. lia.
Qed.

Lemma words_at_nodup base ws : NoDup (words_at base ws).*1.
Proof.
  revert base. induction ws as [|w ws IH]; intros base; simpl; constructor; [|apply IH].
  intros H%words_at_ge. lia.
Qed.

Lemma segment_memory_array `{!gen_heapGS Z Z Σ} base ws :
  ([∗ map] a ↦ v ∈ segment_memory base ws, a ↦ v) -∗ base ↦∗ ws.
Proof.
  unfold segment_memory. rewrite big_sepM_list_to_map; [|apply words_at_nodup].
  iIntros "H". iInduction ws as [|w ws IH] forall (base); simpl; [done|].
  iDestruct "H" as "[$ H]". by iApply "IH".
Qed.

Section Sessions.
  Context (shm_id base size descr param : Z) (ws : list Z).
  Hypothesis Hc : creatable base size descr param.
  Hypothesis Hws : Z.of_nat (length ws) = size / 8.

  Notation seg := (new_segment base size descr param shm_id 1).

Lemma session_run rqs :
  exists t rps m a, session shm_id base size descr param rqs (segment_memory base ws) = Ret ((t, rps), m) /\
    spec_run seg (init_state seg) rqs rps a /\ t = table_of (live a) /\ spec_ok (s_lo seg) (s_hi seg) a.
Proof.
  destruct (wp_adequacy (session shm_id base size descr param rqs) (segment_memory base ws)
    (fun r => exists a, spec_run seg (init_state seg) rqs r.2 a /\ r.1 = table_of (live a) /\
       spec_ok (s_lo seg) (s_hi seg) a) False) as [((t & rps) & m & E & a & H1 & H2 & H3) | [_ []]]; [|eauto 10].
  iIntros (Σ ?) "H". iDestruct (segment_memory_array with "H") as "H". unfold session. iApply wp_bind.
  iApply (wp_shmem_create with "H"); [done..|]. iIntros "Ha".
  iApply (wp_mono with "[Ha]").
  - iApply (wp_serve_all seg ∅ (init_state seg)); [|apply new_segment_oom|].
    { by destruct (new_segment_bounds base size descr param shm_id 1 Hc) as (_ & _ & _ & _ & ?). }
    iFrame "Ha". rewrite big_sepM_empty. iSplit; [|done]. iPureIntro. split; [|done]. split_and!.
    + apply segment_layout. by destruct (new_segment_bounds base size descr param shm_id 1 Hc) as (_ & _ & _ & _ & ?).
    + done.
    + apply map_Forall_empty.
  - iIntros ([t rps]) "(%a & %H & ((%Hok & %Ht) & _))". iPureIntro. eauto.
Qed.
End Sessions.
