(* ===== verification/ShmemRun.v ===== *)
(** The properties of the shared memory allocator: every session follows the
    abstract machine, live blocks are aligned, inside of the segment and apart,
    nothing leaks, and zbx_shmem_create_min() makes room for what is asked. *)

From iris.base_logic.lib Require Import gen_heap.
From iris.proofmode Require Import proofmode.
From stdpp Require Import fin_maps.
From S2P Require Import Prelude Memory Shmem ShmemLayout ShmemArena ShmemSegment ShmemClient.

Open Scope Z_scope.

(* ------------------------------------------------------------------ *)
(** ** Consequences of the invariant *)

Lemma tiling_nodup a cs b : tiling a cs b -> NoDup cs.
Proof.
  revert a. induction cs as [|c cs IH]; intros a; simpl; [constructor|]. intros (<- & [Hs _] & Ht).
  constructor; [|by eapply IH]. intros Hin. destruct (tiling_bounds _ _ _ _ Ht Hin) as (H & _).
  unfold cend, SHMEM_SIZE_FIELD, SHMEM_MIN_ALLOC in *. lia.
Qed.

Lemma tiling_apart a cs b c1 c2 :
  tiling a cs b -> c1 ∈ cs -> c2 ∈ cs -> c1 ≠ c2 -> cend c1 <= caddr c2 \/ cend c2 <= caddr c1.
Proof.
  revert a. induction cs as [|c cs IH]; intros a; simpl; [by intros _ ?%not_elem_of_nil|].
  intros (_ & _ & Ht) [->|H1]%elem_of_cons [->|H2]%elem_of_cons Hne; [done| | |by eapply IH].
  - left. by destruct (tiling_bounds _ _ _ _ Ht H2).
  - right. by destruct (tiling_bounds _ _ _ _ Ht H1).
Qed.

Lemma tiling_aligned a cs b c : a mod 8 = 0 -> tiling a cs b -> c ∈ cs -> caddr c mod 8 = 0.
Proof.
  revert a. induction cs as [|c' cs IH]; intros a Ha; simpl; [by intros _ ?%not_elem_of_nil|].
  intros (<- & [_ Hs] & Ht) [->|Hc]%elem_of_cons; [done|]. eapply IH; [|exact Ht|exact Hc].
  unfold cend, SHMEM_SIZE_FIELD. zlia.
Qed.

Lemma live_in_layout lo hi a h b :
  spec_ok lo hi a -> live a !! h = Some b -> b_chunk b ∈ layout a.
Proof. intros Hok Hl. destruct (spec_ok_split _ _ _ _ _ Hok Hl) as (cs1 & cs2 & -> & _). set_solver. Qed.

Lemma live_distinct lo hi a h1 h2 b1 b2 :
  spec_ok lo hi a -> live a !! h1 = Some b1 -> live a !! h2 = Some b2 -> h1 ≠ h2 -> b_chunk b1 ≠ b_chunk b2.
Proof.
  intros (Hlo & Hp & _) H1 H2 Hne Heq. destruct Hlo as (_ & _ & _ & Ht & _).
  pose proof (NoDup_filter is_used _ (tiling_nodup _ _ _ Ht)) as Hnd. unfold used_of in Hp. rewrite Hp in Hnd.
  rewrite (live_chunks_delete _ _ _ H1) in Hnd. apply NoDup_cons in Hnd as [Hn _]. apply Hn.
  rewrite (live_chunks_delete (delete h1 (live a)) h2 b2); [|by rewrite lookup_delete_ne]. rewrite Heq. by left.
Qed.

Lemma table_of_Some l h p n :
  table_of l !! h = Some (p, n) -> exists b, l !! h = Some b /\ p = pointer b /\ n = b_size b.
Proof. unfold table_of. rewrite lookup_fmap_Some. intros (b & [= <- <-] & H). eauto. Qed.

Lemma spec_run_snoc s a rqs rq rps a' :
  spec_run s a (rqs ++ [rq]) rps a' ->
  exists a1 rps1 rp, rps = rps1 ++ [rp] /\ spec_run s a rqs rps1 a1 /\ spec_step s a1 rq rp a'.
Proof.
  revert a rps. induction rqs as [|rq' rqs IH]; intros a rps H; simpl in H; inversion H as [|? ? rp a1 ? rps' ? Hs Hr]; subst.
  - inversion Hr; subst. exists a, [], rp. split_and!; [done|constructor|done].
  - apply IH in Hr as (a2 & rps1 & rp' & -> & Hr & Hs'). exists a2, (rp :: rps1), rp'.
    split_and!; [done| |done]. by econstructor.
Qed.

(* ------------------------------------------------------------------ *)
(** ** Properties *)

(** A segment of 2 KB, to try the properties on. *)
Definition small_words : list Z := replicate 256 0.
Definition small_requests : list request :=
  [Malloc 1 100; Malloc 2 300; Write 2 0 55; Malloc 3 1; Realloc 2 900; Read 2 0; Malloc 4 2000; Free 1; Free 3; Stats].

Lemma small_creatable : creatable 4096 2048 10 5.
Proof. unfold creatable. vm_compute. split_and!; done || intros [=]. Qed.

Example small_session :
  match session 7 4096 2048 10 5 small_requests (segment_memory 4096 small_words) with
  | Ret ((t, rps), _) => map_to_list t = [(2%nat, (4944, 900))] /\
      take 9 rps = [RPtr 4464; RPtr 4584; RNone; RPtr 4904; RPtr 4944; RVal 55; RPtr 0; RNone; RNone]
  | _ => False
  end.
Proof. vm_compute. done. Qed.

(** C3: Every sequence of calls of __zbx_shmem_malloc(), __zbx_shmem_realloc(),
    __zbx_shmem_free(), zbx_shmem_get_stats() and zbx_shmem_clear() on a segment
    set up by zbx_shmem_create(), mixed with reads and writes of the words of live blocks,
    runs to its end without touching memory outside of the segment and gives the
    responses of the abstract machine: a new block is a free chunk that is large
    enough (the smallest such size class), NULL is returned only when no free
    chunk is large enough (for realloc: not even after the old block is freed, so
    its "should never happen" exit is not reached), blocks keep their contents
    until they are written or freed, realloc keeps the common prefix, freed chunks
    are merged with their neighbours, and the statistics count the chunks. *)
Theorem shmem_refines (shm_id base size descr param : Z) (ws : list Z) (rqs : list request)
    (Hc : creatable base size descr param) (Hws : Z.of_nat (length ws) = size / 8) :
  let s := new_segment base size descr param shm_id 1 in
  exists t rps m a, session shm_id base size descr param rqs (segment_memory base ws) = Ret ((t, rps), m) /\
    spec_run s (init_state s) rqs rps a /\ t = table_of (live a) /\ spec_ok (s_lo s) (s_hi s) a.
Proof. exact (session_run shm_id base size descr param ws Hc Hws rqs). Qed.

Lemma shmem_refines_witness :
  creatable 4096 2048 10 5 /\ Z.of_nat (length small_words) = 2048 / 8 /\
  let s := new_segment 4096 2048 10 5 7 1 in
  exists t rps m a, session 7 4096 2048 10 5 small_requests (segment_memory 4096 small_words) = Ret ((t, rps), m) /\
    spec_run s (init_state s) small_requests rps a /\ t = table_of (live a) /\ spec_ok (s_lo s) (s_hi s) a.
Proof.
  split; [exact small_creatable|]. split; [vm_compute; reflexivity|].
  exact (shmem_refines 7 4096 2048 10 5 small_words small_requests small_creatable eq_refl).
Defined.

(** C4: After any sequence of calls the live blocks are 8-aligned, lie between the
    bounds of the segment and do not overlap; there is room for two size words
    between any two of them. *)
Theorem shmem_blocks_apart (shm_id base size descr param : Z) (ws : list Z) (rqs : list request)
    (Hc : creatable base size descr param) (Hws : Z.of_nat (length ws) = size / 8) :
  let s := new_segment base size descr param shm_id 1 in
  exists t rps m, session shm_id base size descr param rqs (segment_memory base ws) = Ret ((t, rps), m) /\
    (forall h p n, t !! h = Some (p, n) -> p mod 8 = 0 /\ s_lo s + 8 <= p /\ p + n + 8 <= s_hi s /\ s_hi s <= base + size) /\
    (forall h1 h2 p1 n1 p2 n2, h1 <> h2 -> t !! h1 = Some (p1, n1) -> t !! h2 = Some (p2, n2) ->
       p1 + n1 + 16 <= p2 \/ p2 + n2 + 16 <= p1).
Proof.
  intros s. destruct (session_run shm_id base size descr param ws Hc Hws rqs) as (t & rps & m & a & E & _ & -> & Hok).
  fold s in Hok. exists (table_of (live a)), rps, m. split; [exact E|].
  destruct (new_segment_bounds base size descr param shm_id 1 Hc) as (Hlo & _ & _ & Hhi & _). fold s in Hlo, Hhi.
  destruct (Hok) as (Hl & _ & Hbs). destruct Hc as (_ & Hal & _). split.
  - intros h p n (b & Hb & -> & ->)%table_of_Some. pose proof (live_in_layout _ _ _ _ _ Hok Hb) as Hin.
    destruct (layout_chunk _ _ _ _ Hl Hin) as (H1 & H2 & _). destruct (Hbs h b Hb) as (_ & _ & Hsz).
    pose proof (tiling_aligned (s_lo s) _ _ _ ltac:(rewrite Hlo; zlia) (proj1 (proj2 (proj2 (proj2 Hl)))) Hin).
    unfold pointer, cend, SHMEM_SIZE_FIELD in *. split_and!; [zlia|lia..].
  - intros h1 h2 p1 n1 p2 n2 Hne (b1 & Hb1 & -> & ->)%table_of_Some (b2 & Hb2 & -> & ->)%table_of_Some.
    pose proof (live_distinct _ _ _ _ _ _ _ Hok Hb1 Hb2 Hne) as Hd.
    pose proof (live_in_layout _ _ _ _ _ Hok Hb1) as Hi1. pose proof (live_in_layout _ _ _ _ _ Hok Hb2) as Hi2.
    pose proof (tiling_apart _ _ _ _ _ (proj1 (proj2 (proj2 (proj2 Hl)))) Hi1 Hi2 Hd).
    destruct (Hbs _ _ Hb1) as (_ & _ & ?), (Hbs _ _ Hb2) as (_ & _ & ?). unfold pointer, cend, SHMEM_SIZE_FIELD in *. lia.
Qed.

Lemma shmem_blocks_apart_witness :
  creatable 4096 2048 10 5 /\ Z.of_nat (length small_words) = 2048 / 8 /\
  let s := new_segment 4096 2048 10 5 7 1 in
  exists t rps m, session 7 4096 2048 10 5 small_requests (segment_memory 4096 small_words) = Ret ((t, rps), m) /\
    (forall h p n, t !! h = Some (p, n) -> p mod 8 = 0 /\ s_lo s + 8 <= p /\ p + n + 8 <= s_hi s /\ s_hi s <= 4096 + 2048) /\
    (forall h1 h2 p1 n1 p2 n2, h1 <> h2 -> t !! h1 = Some (p1, n1) -> t !! h2 = Some (p2, n2) ->
       p1 + n1 + 16 <= p2 \/ p2 + n2 + 16 <= p1).
Proof.
  split; [exact small_creatable|]. split; [vm_compute; reflexivity|].
  exact (shmem_blocks_apart 7 4096 2048 10 5 small_words small_requests small_creatable eq_refl).
Defined.

(** C5: Nothing is lost: after any sequence of calls zbx_shmem_get_stats() accounts
    for every byte of the segment, and once all the blocks are freed the segment
    is one free chunk again. *)
Theorem shmem_no_leak (shm_id base seg_size descr param : Z) (ws : list Z) (rqs : list request)
    (Hc : creatable base seg_size descr param) (Hws : Z.of_nat (length ws) = seg_size / 8) :
  let s := new_segment base seg_size descr param shm_id 1 in
  exists t rps st m, session shm_id base seg_size descr param (rqs ++ [Stats]) (segment_memory base ws) =
      Ret ((t, rps ++ [RStats st]), m) /\
    free_size st + used_size st + overhead st = s_total s /\
    used_chunks st = Z.of_nat (size t) /\
    (t = ∅ -> used_size st = 0 /\ free_size st = s_total s /\ free_chunks st = 1 /\ overhead st = 0).
Proof.
  intros s. destruct (session_run shm_id base seg_size descr param ws Hc Hws (rqs ++ [Stats])) as (t & rps & m & a & E & Hr & -> & Hok).
  fold s in Hr, Hok. apply spec_run_snoc in Hr as (a1 & rps1 & rp & -> & _ & Hs).
  inversion Hs; subst; [|done].
  exists (table_of (live a)), rps1, (stats_of (layout a)), m. split; [exact E|].
  destruct Hok as (Hl & Hp & _). destruct (Hl) as (_ & _ & _ & Ht & _). pose proof (tiling_sum _ _ _ Ht) as Hsum.
  assert (Hsz : Z.of_nat (length (used_of (layout a))) = Z.of_nat (size (table_of (live a)))).
  { unfold table_of. rewrite Hp map_size_fmap. unfold live_chunks. by rewrite length_fmap length_map_to_list. }
  unfold s_total, SHMEM_SIZE_FIELD. split_and!; [cbn [stats_of free_size used_size overhead]; lia|exact Hsz|].
  intros Hempty. rewrite Hempty map_size_empty in Hsz.
  assert (Hu : used_of (layout a) = []) by (destruct (used_of (layout a)); [done|simpl in Hsz; lia]).
  rewrite (all_free_single _ _ _ Hl Hu). simpl. split_and!; lia.
Qed.

Lemma shmem_no_leak_witness :
  creatable 4096 2048 10 5 /\ Z.of_nat (length small_words) = 2048 / 8 /\
  let s := new_segment 4096 2048 10 5 7 1 in
  exists t rps st m, session 7 4096 2048 10 5 (small_requests ++ [Stats]) (segment_memory 4096 small_words) =
      Ret ((t, rps ++ [RStats st]), m) /\
    free_size st + used_size st + overhead st = s_total s /\
    used_chunks st = Z.of_nat (size t) /\
    (t = ∅ -> used_size st = 0 /\ free_size st = s_total s /\ free_chunks st = 1 /\ overhead st = 0).
Proof.
  split; [exact small_creatable|]. split; [vm_compute; reflexivity|].
  exact (shmem_no_leak 7 4096 2048 10 5 small_words small_requests small_creatable eq_refl).
Defined.

(** C6: zbx_shmem_create_min() makes room for what it is asked: in a segment set
    up for [n] bytes an allocation of [n] bytes succeeds, whatever the lengths of
    the strings. *)
Theorem shmem_create_min_enough (shm_id base n descr param allow_oom : Z) (ws : list Z)
    (Hn : SHMEM_MIN_ALLOC <= n <= SHMEM_MAX_SIZE) (Hc : creatable base (shmem_min_request n descr param) descr param)
    (Hws : Z.of_nat (length ws) = shmem_min_request n descr param / 8) :
  exists info p m,
    (r ← zbx_shmem_create_min (fun _ => Some (shm_id, base)) n descr param allow_oom;
     match r with
     | Some info => p ← __zbx_shmem_malloc info 0 n; mret (info, p)
     | None => m_exit
     end) (segment_memory base ws) = Ret ((info, p), m) /\ p <> 0.
Proof.
  set (sz := shmem_min_request n descr param) in *. set (s := new_segment base sz descr param shm_id allow_oom).
  destruct (new_segment_bounds base sz descr param shm_id allow_oom Hc) as (Hlo & Hhi & _ & _ & Hok). fold s in Hlo, Hhi, Hok.
  destruct (Hc) as (_ & _ & _ & Hd & Hp & _ & Hmax). destruct Hok as (Hlo0 & _ & [_ Hm] & _).
  assert (Hn' : 0 <= n <= SHMEM_MAX_SIZE /\ mem_proper_alloc_size n <= s_total s).
  { assert (Hnb : n <= 2 ^ 60) by (unfold SHMEM_MAX_SIZE in Hn; lia).
    unfold SHMEM_MIN_ALLOC, SHMEM_MAX_SIZE in *.
    assert (Hsz : sz = n + 8 * ((336 + descr + param + 9) / 8) + 24) by (apply shmem_min_request_spec; [lia|done..]).
    assert (Htot : n <= s_total s) by (unfold s_total, SHMEM_SIZE_FIELD; rewrite Hlo Hhi Hsz; zlia).
    assert (Hr : 0 <= n <= SHMEM_MAX_SIZE) by (unfold SHMEM_MAX_SIZE; zlia). split; [done|].
    destruct (mem_proper_alloc_size_spec n Hr) as [[[_ H8] H] | [H ->]]; [zlia|unfold SHMEM_MIN_ALLOC in *; lia]. }
  destruct Hn' as [Hnr Hfit].
  destruct (wp_adequacy (r ← zbx_shmem_create_min (fun _ => Some (shm_id, base)) n descr param allow_oom;
     match r with
     | Some info => p ← __zbx_shmem_malloc info 0 n; mret (info, p)
     | None => m_exit
     end) (segment_memory base ws) (fun r => r.2 <> 0) False) as [((info & p) & m & E & Hp0) | [_ []]]; [|eauto 10].
  iIntros (Σ ?) "H". iDestruct (segment_memory_array with "H") as "H". iApply wp_bind. unfold zbx_shmem_create_min. fold sz.
  iApply (wp_shmem_create with "H"); [done..|]. fold s. iIntros "Ha".
  assert (Hbad : bad_size n = false).
  { unfold bad_size. unfold SHMEM_MIN_ALLOC in Hn. destruct (Z.eqb_spec n 0), (Z.ltb_spec SHMEM_MAX_SIZE n); done || lia. }
  unfold __zbx_shmem_malloc. simpl. rewrite Hbad. iApply wp_bind.
  iApply (wp_call with "[Ha]"); [by iApply (wp_mem_malloc with "Ha")|].
  iIntros (r) "[[[-> %Hno] _] | (%A & %f & %B & %k & %w & %H & Ha & _)]".
  - specialize (Hno (whole s) ltac:(left) eq_refl). simpl in Hno. lia.
  - destruct H as (Heq & -> & _). destruct A as [|x [|]]; try done. injection Heq as <- <-.
    unfold chunk_or_oom. cbn [whole caddr]. destruct (Z.eqb_spec (s_lo s) 0); [lia|]. iApply wp_ret. iApply wp_ret.
    iPureIntro. cbn [snd]. unfold SHMEM_SIZE_FIELD. lia.
Qed.

Lemma shmem_create_min_enough_witness :
  SHMEM_MIN_ALLOC <= 1000 <= SHMEM_MAX_SIZE /\ creatable 4096 (shmem_min_request 1000 10 5) 10 5 /\
  exists info p m,
    (r ← zbx_shmem_create_min (fun _ => Some (7, 4096)) 1000 10 5 0;
     match r with
     | Some info => p ← __zbx_shmem_malloc info 0 1000; mret (info, p)
     | None => m_exit
     end) (segment_memory 4096 (replicate 173 0)) = Ret ((info, p), m) /\ p <> 0.
Proof.
  assert (Hn : SHMEM_MIN_ALLOC <= 1000 <= SHMEM_MAX_SIZE) by (vm_compute; split; intros [=]).
  assert (Hc : creatable 4096 (shmem_min_request 1000 10 5) 10 5) by (unfold creatable; vm_compute; split_and!; done || intros [=]).
  split; [exact Hn|]. split; [exact Hc|].
  exact (shmem_create_min_enough 7 4096 1000 10 5 0 (replicate 173 0) Hn Hc eq_refl).
Defined.

(** SHMEM_MIN_SIZE is below what the info structure and the buckets take: in a
    segment of the smallest size that is accepted the setup runs over its end. *)
Example create_smallest_overruns :
  zbx_shmem_create (Some (7, 4096)) SHMEM_MIN_SIZE 0 0 1 (segment_memory 4096 (replicate 16 0)) = Undef.
Proof. vm_compute. reflexivity. Qed.
