(* ===== verification/JsonString.v ===== *)
(** JSON strings (src/src/libs/zbxjson/json.c and json_parser.c): the escaping
    the writer does, the escape sequences the readers decode, the scan of a
    quoted string and the copy of its value into a buffer of a given size.  The
    grammar of string characters is an inductive relation between the
    characters in the text and the bytes they stand for.
    A pointer into a text is the rest of the text from there on, and [[]] is
    what is left at the terminating NUL; a char is its byte, 1 to 255. *)

From stdpp Require Import base list numbers strings.
From Stdlib Require Import ZArith Lia.
From S2P Require Import Prelude.
Import CharConst.

Open Scope Z_scope.

(** The characters of JSON's syntax. *)
Notation QUOTE := 34.
Notation BACKSLASH := 92.
Notation SOLIDUS := 47.
Notation COMMA := 44.
Notation COLON := 58.
Notation LBRACKET := 91.
Notation RBRACKET := 93.
Notation LBRACE := 123.
Notation RBRACE := 125.

Definition c_string (s : list Z) : Prop := Forall (fun c => 0 < c < 256) s.

(** The C string in a buffer: its bytes before the first NUL. *)
Fixpoint cstr (s : list Z) : list Z :=
  match s with
  | [] => []
  | c :: s' => if c =? 0 then [] else c :: cstr s'
  end.

(* ------------------------------------------------------------------ *)
(** ** Escaping *)

Definition zbx_num2hex (c : Z) : Z := if 10 <=? c then c + 0x57 else c + 0x30.

(** The bytes one character of the string becomes. *)
Definition json_inschar (c : Z) : list Z :=
  if c =? QUOTE then [BACKSLASH; QUOTE] else
  if c =? BACKSLASH then [BACKSLASH; BACKSLASH] else
  if c =? 8 then [BACKSLASH; (ch "b")] else
  if c =? 12 then [BACKSLASH; (ch "f")] else
  if c =? 10 then [BACKSLASH; (ch "n")] else
  if c =? 13 then [BACKSLASH; (ch "r")] else
  if c =? 9 then [BACKSLASH; (ch "t")] else
  if c <=? 0x1f then
    [BACKSLASH; (ch "u"); (ch "0"); (ch "0"); zbx_num2hex (Z.land (Z.shiftr c 4) 0xf); zbx_num2hex (Z.land c 0xf)]
  else [c].

(** What the size computation adds for it. *)
Definition json_charsize (c : Z) : Z :=
  if (c =? QUOTE) || (c =? BACKSLASH) || (c =? 8) || (c =? 12) || (c =? 10) || (c =? 13) || (c =? 9) then 2
  else if c <=? 0x1f then 6 else 1.

Inductive zbx_json_type_t :=
| ZBX_JSON_TYPE_UNKNOWN | ZBX_JSON_TYPE_STRING | ZBX_JSON_TYPE_INT | ZBX_JSON_TYPE_ARRAY
| ZBX_JSON_TYPE_OBJECT | ZBX_JSON_TYPE_NULL | ZBX_JSON_TYPE_TRUE | ZBX_JSON_TYPE_FALSE | ZBX_JSON_TYPE_NUMBER.

#[export] Instance zbx_json_type_eq_dec : EqDecision zbx_json_type_t.
Proof. solve_decision. Defined.

(** [string ? string : "null"], and whether the value is written in quotes. *)
Definition json_text (string : option (list Z)) : list Z := default (bytes_of "null") string.

Definition json_quoted (string : option (list Z)) (type : zbx_json_type_t) : bool :=
  bool_decide (is_Some string) && bool_decide (type = ZBX_JSON_TYPE_STRING).

(** The loop of __zbx_json_stringsize_limit: the size so far and the position
    and size of the cut, the first character that does not fit [max_size]. *)
Fixpoint stringsize_loop (max_size : Z) (i : Z) (sptr : list Z) (len : Z) (cut : option (Z * Z)) : Z * option (Z * Z) :=
  match sptr with
  | [] => (len, cut)
  | c :: sptr' =>
      let len' := len + json_charsize c in
      let cut' := match cut with
                  | None => if negb (max_size =? 0) && (max_size <? len') then Some (i + 1, len) else None
                  | Some _ => cut
                  end in
      stringsize_loop max_size (i + 1) sptr' len' cut'
  end.

(** Back up over the continuation bytes of a UTF-8 sequence: [str_cutoff] is an
    offset into the string; reading before its start is undefined. *)
Fixpoint cutoff_loop (fuel : nat) (s : list Z) (str_cutoff len_cutoff : Z) : res (Z * Z) :=
  match fuel with
  | O => NoFuel
  | S fuel =>
      if 0 <? len_cutoff then
        if str_cutoff - 1 <? 0 then Undef else
        if Z.land 0xc0 (chr s (Z.to_nat (str_cutoff - 1))) =? 0x80
        then cutoff_loop fuel s (str_cutoff - 1) (len_cutoff - 1)
        else Ret (str_cutoff, len_cutoff)
      else Ret (str_cutoff, len_cutoff)
  end.

(** The size to reserve, the full length and the characters to write (0 when
    there is no cut, the value the caller gives [cutoff] before the call); a cut
    of the text that stands for NULL takes a difference of unrelated pointers. *)
Definition __zbx_json_stringsize_limit (string : option (list Z)) (type : zbx_json_type_t) (max_size : Z)
    : res (Z * Z * Z) :=
  let s := json_text string in
  let '(full_len, cut) := stringsize_loop max_size 0 s 0 None in
  let quotes := if json_quoted string type then 2 else 0 in
  match cut with
  | None => Ret (full_len + quotes, full_len, 0)
  | Some (str_cutoff, len_cutoff) =>
      if bool_decide (string = None) then Undef else
      '(str_cutoff, len_cutoff) ← cutoff_loop (S (Z.to_nat (len_cutoff + quotes))) s str_cutoff (len_cutoff + quotes);
      Ret (len_cutoff, full_len, str_cutoff - 1)
  end.

Definition __zbx_json_stringsize (string : option (list Z)) (type : zbx_json_type_t) : Z :=
  fst (stringsize_loop 0 0 (json_text string) 0 None) + (if json_quoted string type then 2 else 0).

(** The bytes written from [p] on; the returned pointer is the one after them. *)
Definition json_escape_text (s : list Z) : list Z := s ≫= json_inschar.

Definition __zbx_json_insstring_limit (string : option (list Z)) (type : zbx_json_type_t) (str_len : Z) : list Z :=
  let s := json_text string in
  let quote := if json_quoted string type then [QUOTE] else [] in
  quote ++ json_escape_text (if str_len =? 0 then s else take (Z.to_nat str_len) s) ++ quote.

Definition __zbx_json_insstring (string : option (list Z)) (type : zbx_json_type_t) : list Z :=
  __zbx_json_insstring_limit string type 0.

(** zbx_json_escape: a string that is all of size 0 is left as it is. *)
Definition zbx_json_escape (string : list Z) : list Z :=
  if __zbx_json_stringsize (Some string) ZBX_JSON_TYPE_UNKNOWN =? 0 then string
  else __zbx_json_insstring (Some string) ZBX_JSON_TYPE_UNKNOWN.

(* ------------------------------------------------------------------ *)
(** ** Decoding *)

Fixpoint valid_json_hex (i : nat) (p : list Z) : bool :=
  match i, p with
  | O, _ => true
  | S _, [] => false
  | S i, c :: p => if isxdigit c then valid_json_hex i p else false
  end.

Definition zbx_is_valid_json_hex (p : list Z) : bool := valid_json_hex 4 p.

Definition zbx_hex2num (c : Z) : Z :=
  if 97 <=? c then c - 97 + 10 else if 65 <=? c then c - 65 + 10 else c - 48.

(** The number in the four digits at [p]. *)
Definition json_hex4 (p : list Z) : Z :=
  Z.shiftl (zbx_hex2num (chr p 0)) 12 + Z.shiftl (zbx_hex2num (chr p 1)) 8 +
  Z.shiftl (zbx_hex2num (chr p 2)) 4 + zbx_hex2num (chr p 3).

Definition json_escape_byte (c : Z) : option Z :=
  if c =? QUOTE then Some QUOTE else
  if c =? BACKSLASH then Some BACKSLASH else
  if c =? SOLIDUS then Some SOLIDUS else
  if c =? (ch "b") then Some 8 else
  if c =? (ch "f") then Some 12 else
  if c =? (ch "n") then Some 10 else
  if c =? (ch "r") then Some 13 else
  if c =? (ch "t") then Some 9 else None.

Definition utf8_2 (num : Z) : list Z :=
  [Z.lor 0xc0 (Z.land (Z.shiftr num 6) 0x1f); Z.lor 0x80 (Z.land num 0x3f)].

Definition utf8_3 (num : Z) : list Z :=
  [Z.lor 0xe0 (Z.land (Z.shiftr num 12) 0x0f); Z.lor 0x80 (Z.land (Z.shiftr num 6) 0x3f);
   Z.lor 0x80 (Z.land num 0x3f)].

Definition utf8_4 (uc : Z) : list Z :=
  [Z.lor 0xf0 (Z.land (Z.shiftr uc 18) 0x07); Z.lor 0x80 (Z.land (Z.shiftr uc 12) 0x3f);
   Z.lor 0x80 (Z.land (Z.shiftr uc 6) 0x3f); Z.lor 0x80 (Z.land uc 0x3f)].

(** A character above U+FFFF from its two surrogates. *)
Definition surrogate_pair (num num_lo : Z) : Z :=
  0x010000 + Z.shiftl (Z.land num 0x03ff) 10 + Z.land num_lo 0x03ff.

(** The bytes of the escape sequence whose first character after the backslash
    is at [p], and the pointer after it. *)
Definition zbx_json_decode_character (p : list Z) : option (list Z * list Z) :=
  match p with
  | [] => None
  | c :: p =>
      match json_escape_byte c with
      | Some b => Some ([b], p)
      | None =>
          if negb (c =? (ch "u")) then None else
          if negb (zbx_is_valid_json_hex p) then None else
          let num := json_hex4 p in
          let p := drop 4 p in
          if num <=? 0x7f then Some ([num], p) else
          if num <=? 0x7ff then Some (utf8_2 num, p) else
          if (num <=? 0xd7ff) || (0xe000 <=? num) then Some (utf8_3 num, p) else
          if (0xd800 <=? num) && (num <=? 0xdbff) then
            if negb (chr p 0 =? BACKSLASH) || negb (chr p 1 =? (ch "u")) || negb (zbx_is_valid_json_hex (drop 2 p))
            then None else
            let num_lo := json_hex4 (drop 2 p) in
            let p := drop 6 p in
            if (num_lo <? 0xdc00) || (0xdfff <? num_lo) then None
            else Some (utf8_4 (surrogate_pair num num_lo), p)
          else None
      end
  end.

(** The loop of json_copy_string; [out] holds the bytes written so far, and a
    write at or after [size] is undefined. *)
Definition json_put (size : Z) (out bs : list Z) : res (list Z) :=
  if Z.of_nat (length out) + Z.of_nat (length bs) <=? size then Ret (out ++ bs) else Undef.

Fixpoint copy_string_loop (fuel : nat) (size : Z) (out p : list Z) : res (option (list Z * list Z)) :=
  match fuel with
  | O => NoFuel
  | S fuel =>
      match p with
      | [] => Ret None
      | c :: p' =>
          if c =? QUOTE then
            out' ← json_put size out [0];
            Ret (Some (out, p'))
          else
          r ← (if c =? BACKSLASH then
                 match zbx_json_decode_character p' with
                 | None => Ret None
                 | Some (uc, q) =>
                     if size <=? Z.of_nat (length out) + Z.of_nat (length uc) then Ret None else
                     out' ← json_put size out uc;
                     Ret (Some (out', q))
                 end
               else out' ← json_put size out [c]; Ret (Some (out', p')));
          match r with
          | None => Ret None
          | Some (out', q) =>
              if Z.of_nat (length out') =? size then Ret None else copy_string_loop fuel size out' q
          end
      end
  end.

(** The string in the buffer and the pointer after the closing quote; [None]
    when the copy fails. *)
Definition json_copy_string (p : list Z) (size : Z) : res (option (list Z * list Z)) :=
  if size =? 0 then Ret None else copy_string_loop (S (length p)) size [] (tail p).

(** json_parse_string's scan: the pointer after the closing quote, or where and
    why it fails.  The message of an error is kept with the pointer that
    json_error prints. *)
Inductive parsed (A : Type) : Type :=
| Failed (message : string) (ptr : option (list Z))
| Parsed (a : A) (rest : list Z).
Arguments Failed {A} _%_string _.
Arguments Parsed {A} _ _.

Fixpoint scan_string_loop (fuel : nat) (ptr : list Z) : res (parsed unit) :=
  match fuel with
  | O => NoFuel
  | S fuel =>
      match ptr with
      | [] => Ret (Failed "unexpected end of string data" None)
      | c :: ptr' =>
          if c =? QUOTE then Ret (Parsed tt ptr') else
          if c =? BACKSLASH then
            match ptr' with
            | [] => Ret (Failed "invalid escape sequence in string" (Some ptr))
            | e :: ptr'' =>
                if e =? (ch "u") then
                  match zbx_json_decode_character ptr' with
                  | None => Ret (Failed "invalid escape sequence in string" (Some ptr))
                  | Some (_, q) => scan_string_loop fuel q
                  end
                else match json_escape_byte e with
                     | None => Ret (Failed "invalid escape sequence in string data" (Some ptr))
                     | Some _ =>
                         if e <=? 0x1f then Ret (Failed "invalid control character in string data" (Some ptr'))
                         else scan_string_loop fuel ptr''
                     end
            end
          else if c <=? 0x1f then Ret (Failed "invalid control character in string data" (Some ptr))
          else scan_string_loop fuel ptr'
      end
  end.

(** [obj] tells whether the caller wants the value, a C string. *)
Definition json_parse_string (obj : bool) (start : list Z) : res (parsed (option (list Z))) :=
  r ← scan_string_loop (S (length start)) (tail start);
  match r with
  | Failed m p => Ret (Failed m p)
  | Parsed _ rest =>
      if negb obj then Ret (Parsed None rest) else
      str ← json_copy_string start (Z.of_nat (length start) - Z.of_nat (length rest) - 1);
      match str with
      | None => Ret (Failed "invalid string data" (Some start))
      | Some (str, _) => Ret (Parsed (Some (cstr str)) rest)
      end
  end.

(* ------------------------------------------------------------------ *)
(** ** The grammar of string characters *)

Definition jhex4 (ds : list Z) : Prop := length ds = 4%nat /\ Forall (fun c => isxdigit c = true) ds.

(** An escape sequence, without its backslash, and the bytes it stands for. *)
Inductive jescape : list Z -> list Z -> Prop :=
| jescape_byte c b : json_escape_byte c = Some b -> jescape [c] [b]
| jescape_1 ds : jhex4 ds -> json_hex4 ds <= 0x7f -> jescape ((ch "u") :: ds) [json_hex4 ds]
| jescape_2 ds : jhex4 ds -> 0x7f < json_hex4 ds <= 0x7ff -> jescape ((ch "u") :: ds) (utf8_2 (json_hex4 ds))
| jescape_3 ds : jhex4 ds -> 0x7ff < json_hex4 ds -> ~ 0xd800 <= json_hex4 ds <= 0xdfff ->
    jescape ((ch "u") :: ds) (utf8_3 (json_hex4 ds))
| jescape_4 ds lo : jhex4 ds -> jhex4 lo -> 0xd800 <= json_hex4 ds <= 0xdbff -> 0xdc00 <= json_hex4 lo <= 0xdfff ->
    jescape ((ch "u") :: ds ++ BACKSLASH :: (ch "u") :: lo) (utf8_4 (surrogate_pair (json_hex4 ds) (json_hex4 lo))).

Inductive jchars : list Z -> list Z -> Prop :=
| jchars_nil : jchars [] []
| jchars_plain c r d : 0x1f < c -> c <> QUOTE -> c <> BACKSLASH -> jchars r d -> jchars (c :: r) (c :: d)
| jchars_escape e bs r d : jescape e bs -> jchars r d -> jchars (BACKSLASH :: e ++ r) (bs ++ d).

Lemma jhex4_valid (ds rest : list Z) : jhex4 ds ->
  zbx_is_valid_json_hex (ds ++ rest) = true /\ json_hex4 (ds ++ rest) = json_hex4 ds /\ drop 4 (ds ++ rest) = rest.
Proof.
  intros [Hl Hf]. destruct ds as [|a [|b [|c [|d [|e ds]]]]]; try discriminate Hl.
  repeat match goal with H : Forall _ (_ :: _) |- _ => apply Forall_cons in H; destruct H end.
  unfold zbx_is_valid_json_hex. simpl. rewrite H, H0, H1, H2. done.
Qed.

Lemma valid_jhex4 (p : list Z) : zbx_is_valid_json_hex p = true ->
  exists ds, p = ds ++ drop 4 p /\ jhex4 ds.
Proof.
  unfold zbx_is_valid_json_hex. intros H. exists (take 4 p). rewrite take_drop. split; [done|].
  destruct p as [|a [|b [|c [|d p]]]]; simpl in H;
    repeat match type of H with context [isxdigit ?x] => destruct (isxdigit x) eqn:?; [|discriminate H] end;
    try discriminate H.
  split; [done|]. simpl. auto.
Qed.

Lemma jescape_byte_not_u (b : Z) : json_escape_byte (ch "u") <> Some b.
Proof. discriminate. Qed.

Lemma json_hex4_range (ds : list Z) : jhex4 ds -> 0 <= json_hex4 ds <= 0xffff.
Proof.
  assert (Hd : forall c, isxdigit c = true -> 0 <= zbx_hex2num c <= 15).
  { intros c. unfold isxdigit, isdigit, zbx_hex2num. intros H.
    destruct (Z.leb_spec 97 c), (Z.leb_spec 65 c); lia. }
  intros [Hl Hf]. destruct ds as [|a [|b [|c [|d [|e ds]]]]]; try discriminate Hl.
  repeat match goal with H : Forall _ (_ :: _) |- _ => apply Forall_cons in H; destruct H end.
  unfold json_hex4, chr. simpl nth. rewrite !Z.shiftl_mul_pow2 by lia.
  repeat match goal with H : isxdigit _ = true |- _ => apply Hd in H end. lia.
Qed.

(** The decoder accepts the escape sequences of the grammar, and only those. *)
Lemma decode_jescape (e bs rest : list Z) :
  jescape e bs -> zbx_json_decode_character (e ++ rest) = Some (bs, rest).
Proof.
  assert (Hu : json_escape_byte (ch "u") = None) by done.
  destruct 1 as [c b Hb | ds Hd Hn | ds Hd Hn | ds Hd Hn Hs | ds lo Hd Hlo Hn Hm];
    [by cbn -[json_escape_byte]; rewrite Hb|..];
    cbn -[json_escape_byte json_hex4 drop chr utf8_2 utf8_3 utf8_4 zbx_is_valid_json_hex]; rewrite Hu;
    pose proof (json_hex4_range ds Hd); try rewrite <- app_assoc;
    match goal with |- context [zbx_is_valid_json_hex (ds ++ ?r)] =>
      destruct (jhex4_valid ds r Hd) as (-> & -> & ->) end; cbn [negb].
  - by rewrite (proj2 (Z.leb_le _ _)) by lia.
  - rewrite (proj2 (Z.leb_gt _ _)) by lia. by rewrite (proj2 (Z.leb_le _ _)) by lia.
  - rewrite !(proj2 (Z.leb_gt _ _)) by lia.
    by destruct (Z.leb_spec (json_hex4 ds) 0xd7ff), (Z.leb_spec 0xe000 (json_hex4 ds)); try lia.
  - rewrite (proj2 (Z.leb_gt (json_hex4 ds) 0x7f)), (proj2 (Z.leb_gt (json_hex4 ds) 0x7ff)),
      (proj2 (Z.leb_gt (json_hex4 ds) 0xd7ff)), (proj2 (Z.leb_gt 0xe000 (json_hex4 ds))),
      !(proj2 (Z.leb_le _ _)) by lia. cbn [orb andb].
    change (chr _ 0 =? BACKSLASH) with true. change (chr _ 1 =? (ch "u")) with true.
    change (drop 2 ((BACKSLASH :: (ch "u") :: lo) ++ rest)) with (lo ++ rest).
    change (drop 6 ((BACKSLASH :: (ch "u") :: lo) ++ rest)) with (drop 4 (lo ++ rest)).
    destruct (jhex4_valid lo rest Hlo) as (-> & -> & ->). cbn [negb orb].
    by rewrite !(proj2 (Z.ltb_ge _ _)) by lia.
Qed.

Lemma jescape_decode (p bs q : list Z) :
  zbx_json_decode_character p = Some (bs, q) -> exists e, p = e ++ q /\ jescape e bs.
Proof.
  destruct p as [|c p]; [discriminate|]. cbn -[json_escape_byte json_hex4 drop chr utf8_2 utf8_3 utf8_4 zbx_is_valid_json_hex].
  destruct (json_escape_byte c) as [b|] eqn:Hc.
  { intros [= <- <-]. exists [c]. split; [done | by constructor]. }
  destruct (Z.eqb_spec c (ch "u")) as [-> |]; [|discriminate]. cbn [negb].
  destruct (zbx_is_valid_json_hex p) eqn:Hv; [|discriminate]. cbn [negb].
  destruct (valid_jhex4 p Hv) as (ds & Hp & Hd). revert Hp. generalize (drop 4 p). intros p' ->.
  destruct (jhex4_valid ds p' Hd) as (_ & -> & _). pose proof (json_hex4_range ds Hd).
  destruct (Z.leb_spec (json_hex4 ds) 0x7f).
  { intros [= <- <-]. exists ((ch "u") :: ds). split; [done | by apply jescape_1]. }
  destruct (Z.leb_spec (json_hex4 ds) 0x7ff).
  { intros [= <- <-]. exists ((ch "u") :: ds). split; [done | by apply jescape_2]. }
  destruct (Z.leb_spec (json_hex4 ds) 0xd7ff), (Z.leb_spec 0xe000 (json_hex4 ds)); cbn [orb]; try lia;
    [intros [= <- <-]; exists ((ch "u") :: ds); split; [done | apply jescape_3; try done; lia]..|].
  destruct (Z.leb_spec 0xd800 (json_hex4 ds)), (Z.leb_spec (json_hex4 ds) 0xdbff); cbn [andb]; try discriminate.
  destruct p' as [|x [|y p']]; try discriminate.
  { unfold chr. simpl. rewrite orb_true_r. discriminate. }
  change (chr _ 0) with x. change (chr _ 1) with y. change (drop 2 _) with p'. change (drop 6 _) with (drop 4 p').
  destruct (Z.eqb_spec x BACKSLASH) as [-> |], (Z.eqb_spec y (ch "u")) as [-> |]; cbn [negb orb]; try discriminate.
  destruct (zbx_is_valid_json_hex p') eqn:Hv'; [|discriminate]. cbn [negb].
  destruct (valid_jhex4 p' Hv') as (lo & Hp & Hlo). revert Hp. generalize (drop 4 p'). intros p'' ->.
  destruct (jhex4_valid lo p'' Hlo) as (_ & -> & _).
  destruct (Z.ltb_spec (json_hex4 lo) 0xdc00), (Z.ltb_spec 0xdfff (json_hex4 lo)); cbn [orb]; try discriminate.
  intros [= <- <-]. exists ((ch "u") :: ds ++ BACKSLASH :: (ch "u") :: lo). split.
  - simpl. by rewrite <- app_assoc.
  - by apply jescape_4.
Qed.

Lemma jescape_length (e bs : list Z) : jescape e bs -> (0 < length e)%nat /\ (length bs <= length e)%nat.
Proof.
  destruct 1 as [| ds [] | ds [] | ds [] | ds lo [] []]; simpl; rewrite ?length_app; simpl; lia.
Qed.

Lemma jchars_length (r d : list Z) : jchars r d -> (length d <= length r)%nat.
Proof.
  induction 1 as [| |e bs r d He]; simpl; rewrite ?length_app; [lia..|].
  pose proof (jescape_length _ _ He). lia.
Qed.

Lemma jchars_app (r1 r2 d1 d2 : list Z) : jchars r1 d1 -> jchars r2 d2 -> jchars (r1 ++ r2) (d1 ++ d2).
Proof.
  induction 1; intros Hr; simpl; [done | by constructor; auto|].
  rewrite <- !app_assoc. constructor; auto.
Qed.

Lemma jescape_u (e bs : list Z) : jescape ((ch "u") :: e) bs -> (4 <= length e)%nat.
Proof.
  inversion 1 as [? ? Hb | ? [] | ? [] | ? [] | ? ? []]; subst; [discriminate Hb|lia..|].
  rewrite length_app. lia.
Qed.

Lemma jescape_byte_inv (c : Z) (e bs : list Z) : c <> (ch "u") -> jescape (c :: e) bs ->
  e = [] /\ exists b, json_escape_byte c = Some b /\ bs = [b].
Proof. intros Hc. inversion 1; subst; try done. eauto. Qed.

Lemma escape_byte_printable (c b : Z) : json_escape_byte c = Some b -> 0x1f < c.
Proof.
  unfold json_escape_byte. intros H.
  repeat match type of H with context [?x =? ?y] => destruct (Z.eqb_spec x y); [lia|] end. discriminate.
Qed.

(* ------------------------------------------------------------------ *)
(** ** The scan of a quoted string *)

Lemma scan_complete (raw dec rest : list Z) (fuel : nat) :
  jchars raw dec -> (length raw < fuel)%nat ->
  scan_string_loop fuel (raw ++ QUOTE :: rest) = Ret (Parsed tt rest).
Proof.
  intros H. revert fuel. induction H as [|c r d Hc Hq Hb H IH|e bs r d He H IH]; intros [|fuel] Hf; simpl in Hf; try lia.
  - done.
  - cbn [scan_string_loop app]. rewrite (proj2 (Z.eqb_neq _ _) Hq), (proj2 (Z.eqb_neq _ _) Hb),
      (proj2 (Z.leb_gt _ _)) by lia. apply IH. lia.
  - rewrite length_app in Hf. pose proof (jescape_length _ _ He) as [Hpos _].
    destruct e as [|x e]; [simpl in Hpos; lia|]. cbn [length] in Hf.
    cbn [scan_string_loop app]. rewrite <- app_assoc.
    change (BACKSLASH =? QUOTE) with false. change (BACKSLASH =? BACKSLASH) with true. cbv iota.
    destruct (Z.eqb_spec x (ch "u")) as [-> | Hx].
    + pose proof (decode_jescape _ _ (r ++ QUOTE :: rest) He) as E. simpl app in E. rewrite E. apply IH. lia.
    + destruct (jescape_byte_inv _ _ _ Hx He) as (-> & b & E & ->). rewrite E.
      rewrite (proj2 (Z.leb_gt _ _)) by by eapply escape_byte_printable. apply IH. lia.
Qed.

(** The scan always gives an answer, and a success consumes string characters
    of the grammar and the closing quote. *)
Lemma scan_sound (fuel : nat) (ptr : list Z) : (length ptr < fuel)%nat ->
  exists r, scan_string_loop fuel ptr = Ret r /\
    forall rest, r = Parsed tt rest -> exists raw dec, ptr = raw ++ QUOTE :: rest /\ jchars raw dec.
Proof.
  revert ptr. induction fuel as [|fuel IH]; intros ptr Hf; [lia|]. cbn [scan_string_loop].
  destruct ptr as [|c p]; [eexists; split; [done|discriminate]|]. simpl in Hf.
  destruct (Z.eqb_spec c QUOTE) as [-> | Hq].
  { eexists. split; [done|]. intros rest [= <-]. exists [], []. split; [done|constructor]. }
  destruct (Z.eqb_spec c BACKSLASH) as [-> | Hb].
  - destruct p as [|x p]; [eexists; split; [done|discriminate]|]. simpl in Hf.
    destruct (Z.eqb_spec x (ch "u")) as [-> | Hx].
    + destruct (zbx_json_decode_character _) as [[bs q]|] eqn:E; [|eexists; split; [done|discriminate]].
      apply jescape_decode in E as (e & Hp & He). pose proof (jescape_length _ _ He).
      destruct (IH q) as (r & -> & Hr).
      { apply (f_equal length) in Hp. rewrite length_app in Hp. simpl in Hp. lia. }
      eexists. split; [done|]. intros rest ->. destruct (Hr _ eq_refl) as (raw & dec & -> & Hj).
      exists (BACKSLASH :: e ++ raw), (bs ++ dec). split; [|by constructor]. by rewrite Hp, app_assoc.
    + destruct (json_escape_byte x) as [b|] eqn:E; [|eexists; split; [done|discriminate]].
      destruct (x <=? 0x1f); [eexists; split; [done|discriminate]|].
      destruct (IH p) as (r & -> & Hr); [lia|]. eexists. split; [done|].
      intros rest ->. destruct (Hr _ eq_refl) as (raw & dec & -> & Hj).
      exists (BACKSLASH :: [x] ++ raw), ([b] ++ dec). split; [done|]. constructor; [by constructor|done].
  - destruct (Z.leb_spec c 0x1f); [eexists; split; [done|discriminate]|].
    destruct (IH p) as (r & -> & Hr); [lia|]. eexists. split; [done|].
    intros rest ->. destruct (Hr _ eq_refl) as (raw & dec & -> & Hj).
    exists (c :: raw), (c :: dec). split; [done|]. by constructor.
Qed.

(* ------------------------------------------------------------------ *)
(** ** The copy of a string value *)

Lemma json_put_ok (size : Z) (out bs : list Z) :
  Z.of_nat (length out) + Z.of_nat (length bs) <= size -> json_put size out bs = Ret (out ++ bs).
Proof. intros H. unfold json_put. by rewrite (proj2 (Z.leb_le _ _) H). Qed.

Lemma copy_complete (raw dec rest out : list Z) (size : Z) (fuel : nat) :
  jchars raw dec -> (length raw < fuel)%nat -> Z.of_nat (length out) + Z.of_nat (length dec) < size ->
  copy_string_loop fuel size out (raw ++ QUOTE :: rest) = Ret (Some (out ++ dec, rest)).
Proof.
  intros H. revert fuel out.
  induction H as [|c r d Hc Hq Hb H IH|e bs r d He H IH]; intros [|fuel] out Hf Hs; cbn [length] in Hf, Hs; try lia;
    cbn [copy_string_loop app].
  - change (QUOTE =? QUOTE) with true. cbv iota. rewrite json_put_ok by (simpl; lia). by rewrite app_nil_r.
  - rewrite (proj2 (Z.eqb_neq _ _) Hq), (proj2 (Z.eqb_neq _ _) Hb).
    rewrite json_put_ok by (simpl; lia). rewrite !bind_ret. rewrite length_app. simpl length.
    rewrite (proj2 (Z.eqb_neq _ _)) by lia. rewrite IH by (rewrite ?length_app; simpl; lia).
    by rewrite <- app_assoc.
  - rewrite length_app in Hf. rewrite length_app in Hs. pose proof (jescape_length _ _ He).
    change (BACKSLASH =? QUOTE) with false. change (BACKSLASH =? BACKSLASH) with true. cbv iota.
    rewrite <- app_assoc, (decode_jescape _ _ _ He). rewrite (proj2 (Z.leb_gt _ _)) by lia.
    rewrite json_put_ok by lia. rewrite !bind_ret. rewrite length_app.
    rewrite (proj2 (Z.eqb_neq _ _)) by lia. rewrite IH by (rewrite ?length_app; lia).
    by rewrite <- app_assoc.
Qed.

(** The copy never writes outside the buffer, whatever the text. *)
Lemma copy_string_total (fuel : nat) (size : Z) (out p : list Z) :
  (length p < fuel)%nat -> Z.of_nat (length out) < size ->
  exists r, copy_string_loop fuel size out p = Ret r /\
    (forall str q, r = Some (str, q) -> Z.of_nat (length str) < size).
Proof.
  revert out p. induction fuel as [|fuel IH]; intros out p Hf Hs; [lia|]. cbn [copy_string_loop].
  destruct p as [|c p]; [eexists; split; [done|discriminate]|]. simpl in Hf.
  destruct (c =? QUOTE).
  { rewrite json_put_ok by (simpl; lia). eexists. split; [done|]. by intros ? ? [= <- <-]. }
  assert (Hgo : forall out' q, Z.of_nat (length out') <= size -> (length q < fuel)%nat -> exists r,
    (if Z.of_nat (length out') =? size then Ret None else copy_string_loop fuel size out' q) = Ret r /\
    (forall str q, r = Some (str, q) -> Z.of_nat (length str) < size)).
  { intros out' q Ho Hq. destruct (Z.eqb_spec (Z.of_nat (length out')) size); [eexists; split; [done|discriminate]|].
    apply IH; lia. }
  destruct (c =? BACKSLASH).
  - destruct (zbx_json_decode_character p) as [[bs q]|] eqn:E; [|eexists; split; [done|discriminate]].
    apply jescape_decode in E as (e & -> & He). pose proof (jescape_length _ _ He). rewrite length_app in Hf.
    destruct (Z.leb_spec size (Z.of_nat (length out) + Z.of_nat (length bs))); [eexists; split; [done|discriminate]|].
    rewrite json_put_ok by lia. rewrite !bind_ret. apply Hgo; rewrite ?length_app; lia.
  - rewrite json_put_ok by (simpl; lia). rewrite !bind_ret. apply Hgo; rewrite ?length_app; simpl; lia.
Qed.

(* ------------------------------------------------------------------ *)
(** ** Parsing a string *)

Lemma json_parse_string_complete (obj : bool) (raw dec rest : list Z) :
  jchars raw dec ->
  json_parse_string obj (QUOTE :: raw ++ QUOTE :: rest) =
  Ret (Parsed (if obj then Some (cstr dec) else None) rest).
Proof.
  intros H. unfold json_parse_string. cbn [tail].
  rewrite (scan_complete raw dec rest) by (done || (simpl; rewrite length_app; simpl; lia)).
  run. destruct obj; [|done]. cbn [negb]. unfold json_copy_string. cbn [tail].
  cbn [length]. rewrite length_app. cbn [length].
  rewrite (proj2 (Z.eqb_neq _ _)) by lia.
  pose proof (jchars_length _ _ H).
  rewrite (copy_complete raw dec rest) by (done || (simpl; lia)). done.
Qed.

Lemma json_parse_string_sound (obj : bool) (start : list Z) :
  exists r, json_parse_string obj (QUOTE :: start) = Ret r /\
    (forall str rest, r = Parsed str rest -> exists raw dec,
      start = raw ++ QUOTE :: rest /\ jchars raw dec /\ str = if obj then Some (cstr dec) else None).
Proof.
  destruct (scan_sound (S (S (length start))) start) as (r & E & Hr); [lia|].
  destruct r as [m p | [] rest].
  - unfold json_parse_string. simpl length. cbn [tail]. rewrite E. eexists. split; [done|discriminate].
  - destruct (Hr _ eq_refl) as (raw & dec & -> & Hj).
    rewrite (json_parse_string_complete obj raw dec rest Hj). eexists. split; [done|].
    intros str rest' [= <- <-]. eauto.
Qed.

(* ------------------------------------------------------------------ *)
(** ** Escaping and the grammar *)

Lemma json_inschar_size (c : Z) : Z.of_nat (length (json_inschar c)) = json_charsize c.
Proof.
  unfold json_inschar, json_charsize.
  repeat match goal with |- context [?x =? ?y] => destruct (x =? y); [done|] end. simpl. by destruct (c <=? 0x1f).
Qed.

Lemma json_charsize_range (c : Z) : 1 <= json_charsize c <= 6.
Proof. unfold json_charsize. repeat case_match; lia. Qed.

(** The two digits of a control character are hexadecimal and give it back. *)
Lemma control_digits (c : Z) : 0 <= c <= 0x1f ->
  jhex4 [(ch "0"); (ch "0"); zbx_num2hex (Z.land (Z.shiftr c 4) 0xf); zbx_num2hex (Z.land c 0xf)] /\
  json_hex4 [(ch "0"); (ch "0"); zbx_num2hex (Z.land (Z.shiftr c 4) 0xf); zbx_num2hex (Z.land c 0xf)] = c.
Proof.
  intros Hc. assert (Hin : c ∈ (Z.of_nat <$> seq 0 32)).
  { apply list_elem_of_fmap. exists (Z.to_nat c). rewrite elem_of_seq. lia. }
  clear Hc. revert c Hin. apply Forall_forall. simpl.
  repeat (apply Forall_cons; split; [split; [split; [done | repeat constructor] | done]|]). constructor.
Qed.

Lemma json_inschar_jchars (c : Z) : 0 < c -> jchars (json_inschar c) [c].
Proof.
  intros Hc. unfold json_inschar.
  assert (Hb : forall e, json_escape_byte e = Some c -> jchars [BACKSLASH; e] [c]).
  { intros e He. apply (jchars_escape [e] [c] [] []); constructor. done. }
  repeat match goal with |- context [?x =? ?y] => destruct (Z.eqb_spec x y) as [-> |]; [by apply Hb|] end.
  destruct (Z.leb_spec c 0x1f).
  - destruct (control_digits c) as [Hd Hn]; [lia|].
    apply (jescape_1 _) in Hd as He; [|lia]. rewrite Hn in He.
    apply (jchars_escape _ _ [] [] He). constructor.
  - constructor; [done..|constructor].
Qed.

Lemma json_escape_jchars (s : list Z) : c_string s -> jchars (json_escape_text s) s.
Proof.
  induction 1 as [|c s Hc _ IH]; [constructor|].
  apply (jchars_app (json_inschar c) (json_escape_text s) [c] s); [|done]. apply json_inschar_jchars. lia.
Qed.

Lemma cstr_c_string (s : list Z) : c_string s -> cstr s = s.
Proof.
  induction 1 as [|c s Hc _ IH]; [done|]. simpl. rewrite (proj2 (Z.eqb_neq _ _)) by lia. by rewrite IH.
Qed.

Lemma escape_text_app (s1 s2 : list Z) : json_escape_text (s1 ++ s2) = json_escape_text s1 ++ json_escape_text s2.
Proof. apply bind_app. Qed.

Lemma escape_text_cons (c : Z) (s : list Z) : json_escape_text (c :: s) = json_inschar c ++ json_escape_text s.
Proof. done. Qed.

Definition escape_size (s : list Z) : Z := Z.of_nat (length (json_escape_text s)).

Lemma escape_size_cons (c : Z) (s : list Z) : escape_size (c :: s) = json_charsize c + escape_size s.
Proof. unfold escape_size. rewrite escape_text_cons, length_app, Nat2Z.inj_add, json_inschar_size. done. Qed.

Lemma escape_size_app (s1 s2 : list Z) : escape_size (s1 ++ s2) = escape_size s1 + escape_size s2.
Proof. unfold escape_size. rewrite escape_text_app, length_app. lia. Qed.

Lemma stringsize_loop_cut (max_size i len : Z) (s : list Z) (p : Z * Z) :
  stringsize_loop max_size i s len (Some p) = (len + escape_size s, Some p).
Proof.
  revert i len. induction s as [|c s IH]; intros i len; simpl.
  - unfold escape_size. simpl. f_equal. lia.
  - rewrite IH, escape_size_cons. f_equal. lia.
Qed.

(** The loop finds the first character that does not fit. *)
Lemma stringsize_loop_spec (max_size i len : Z) (s : list Z) :
  max_size = 0 \/ len <= max_size ->
  (stringsize_loop max_size i s len None = (len + escape_size s, None) /\
     (max_size = 0 \/ len + escape_size s <= max_size)) \/
  (exists s1 c s2, s = s1 ++ c :: s2 /\ max_size <> 0 /\
     len + escape_size s1 <= max_size < len + escape_size s1 + json_charsize c /\
     stringsize_loop max_size i s len None =
       (len + escape_size s, Some (i + Z.of_nat (length s1) + 1, len + escape_size s1))).
Proof.
  revert i len. induction s as [|c s IH]; intros i len Hle; simpl.
  - left. unfold escape_size. simpl. rewrite Z.add_0_r. done.
  - rewrite escape_size_cons. destruct (Z.eqb_spec max_size 0) as [-> | Hm]; cbn [negb andb].
    + left. destruct (IH (i + 1) (len + json_charsize c)) as [[-> _] | (? & ? & ? & _ & ? & _)]; [by left| |done].
      split; [f_equal; lia | by left].
    + destruct (Z.ltb_spec max_size (len + json_charsize c)) as [Hlt | Hge].
      * right. exists [], c, s. rewrite stringsize_loop_cut. change (escape_size []) with 0. cbn [app length].
        split_and!; [done|done|lia|lia|]. f_equal; [lia|]. do 2 f_equal; lia.
      * destruct (IH (i + 1) (len + json_charsize c)) as [[-> H] | (s1 & x & s2 & -> & _ & H & ->)]; [by right|left|right].
        -- split; [f_equal; lia | lia].
        -- exists (c :: s1), x, s2. rewrite escape_size_cons, escape_size_app, escape_size_cons. cbn [length].
           split_and!; [done|done|lia|lia|]. f_equal; [lia|]. do 2 f_equal; lia.
Qed.

(** Without a limit the size is that of the bytes written. *)
Lemma stringsize_exact (string : option (list Z)) (type : zbx_json_type_t) :
  __zbx_json_stringsize string type = Z.of_nat (length (__zbx_json_insstring string type)).
Proof.
  unfold __zbx_json_stringsize, __zbx_json_insstring, __zbx_json_insstring_limit.
  destruct (stringsize_loop_spec 0 0 0 (json_text string)) as [[-> _] | (? & ? & ? & _ & ? & _)]; [by left| |done].
  rewrite !length_app, !Nat2Z.inj_add. fold (escape_size (json_text string)). simpl fst.
  change (0 =? 0) with true. cbv iota. unfold escape_size. destruct (json_quoted _ _); simpl; lia.
Qed.

(* ------------------------------------------------------------------ *)
(** ** The limited size *)

Definition utf8_cont (c : Z) : bool := Z.land 0xc0 c =? 0x80.

(** In UTF-8 a continuation byte is at most three bytes after the first byte of
    its sequence. *)
Definition utf8_sequences (s : list Z) : Prop :=
  forall i c, s !! i = Some c -> utf8_cont c = true ->
  exists j d, (j < i <= j + 3)%nat /\ s !! j = Some d /\ 0xc0 <= d < 0x100 /\
    forall k x, (j < k < i)%nat -> s !! k = Some x -> utf8_cont x = true.

Lemma utf8_cont_range (c : Z) : 0 < c < 256 -> utf8_cont c = true -> 0x80 <= c < 0xc0.
Proof.
  intros Hc. assert (Hin : c ∈ (Z.of_nat <$> seq 0 256)).
  { apply list_elem_of_fmap. exists (Z.to_nat c). rewrite elem_of_seq. lia. }
  clear Hc. intros Hu. assert (Hall : forallb (fun x => negb (utf8_cont x) || ((0x80 <=? x) && (x <? 0xc0)))
    (Z.of_nat <$> seq 0 256) = true) by (vm_compute; reflexivity).
  rewrite forallb_forall in Hall. specialize (Hall c (proj1 (list_elem_of_In _ _) Hin)). rewrite Hu in Hall. simpl in Hall. lia.
Qed.

Lemma charsize_high (c : Z) : 0x80 <= c -> json_charsize c = 1.
Proof.
  intros Hc. unfold json_charsize.
  repeat match goal with |- context [?x =? ?y] => rewrite (proj2 (Z.eqb_neq x y)) by lia end.
  simpl. by rewrite (proj2 (Z.leb_gt _ _)) by lia.
Qed.

(** Backing up over [n] continuation bytes to the one at [j] that is not one. *)
Lemma cutoff_back (s : list Z) (n j : nat) (d L : Z) (fuel : nat) :
  s !! j = Some d -> utf8_cont d = false ->
  (forall k x, (j < k <= j + n)%nat -> s !! k = Some x -> utf8_cont x = true) ->
  (j + n < length s)%nat -> 0 < L -> (n < fuel)%nat ->
  cutoff_loop fuel s (Z.of_nat (j + n) + 1) (L + Z.of_nat n) = Ret (Z.of_nat j + 1, L).
Proof.
  intros Hj Hd Hc Hlen HL. revert fuel. induction n as [|n IH]; intros [|fuel] Hf; try lia; cbn [cutoff_loop];
    rewrite (proj2 (Z.ltb_lt _ _)), (proj2 (Z.ltb_ge _ _)), Z.add_simpl_r, Nat2Z.id by lia; unfold chr.
  - rewrite Nat.add_0_r. rewrite (nth_lookup_Some _ _ _ _ Hj). unfold utf8_cont in Hd. rewrite Hd. do 2 f_equal; lia.
  - destruct (lookup_lt_is_Some_2 s (j + S n)) as [x Hx]; [lia|]. rewrite (nth_lookup_Some _ _ _ _ Hx).
    assert (Hxc : utf8_cont x = true) by (eapply Hc; [|done]; lia).
    unfold utf8_cont in Hxc. rewrite Hxc.
    replace (Z.of_nat (j + S n)) with (Z.of_nat (j + n) + 1) by lia.
    replace (L + Z.of_nat (S n) - 1) with (L + Z.of_nat n) by lia.
    apply IH; [|lia..]. intros k y Hk. apply Hc. lia.
Qed.

Lemma escape_size_high (s : list Z) : Forall (fun c => 0x80 <= c) s -> escape_size s = Z.of_nat (length s).
Proof.
  induction 1 as [|c s Hc _ IH]; [done|]. rewrite escape_size_cons, charsize_high, IH by done. simpl. lia.
Qed.

Lemma escape_size_pos (s : list Z) : s <> [] -> 0 < escape_size s.
Proof.
  destruct s as [|c s]; [done|]. rewrite escape_size_cons. pose proof (json_charsize_range c).
  unfold escape_size. lia.
Qed.

(** The character to cut at, in terms of the one that did not fit. *)
Lemma cut_position (s s1 s2 : list Z) (c max_size : Z) :
  c_string s -> utf8_sequences s -> 6 <= max_size -> s = s1 ++ c :: s2 ->
  max_size < escape_size s1 + json_charsize c ->
  exists j n d, length s1 = (j + n)%nat /\ (0 < j)%nat /\ s !! j = Some d /\ utf8_cont d = false /\
    (forall k x, (j < k <= j + n)%nat -> s !! k = Some x -> utf8_cont x = true) /\
    escape_size s1 = escape_size (take j s) + Z.of_nat n.
Proof.
  intros Hs Hu Hm E Hcut. assert (Hi : s !! length s1 = Some c) by (rewrite E; by apply list_lookup_middle).
  assert (Hs1 : s1 = take (length s1) s) by (rewrite E; by rewrite take_app_length).
  destruct (utf8_cont c) eqn:Hc.
  - destruct (Hu _ _ Hi Hc) as (j & d & Hj & Hd & Hdr & Hk).
    assert (Hcont : forall k x, (j < k <= length s1)%nat -> s !! k = Some x -> utf8_cont x = true).
    { intros k x Hkr Hx. destruct (decide (k = length s1)) as [-> |]; [by simplify_eq|]. eapply Hk; [|done]. lia. }
    assert (Hhigh : Forall (fun c => 0x80 <= c) (drop j s1)).
    { apply Forall_lookup. intros k x. rewrite lookup_drop. intros Hx.
      pose proof (lookup_lt_Some _ _ _ Hx). assert (Hx' : s !! (j + k)%nat = Some x) by (rewrite E, lookup_app_l; done).
      destruct k as [|k].
      - rewrite Nat.add_0_r in Hx'. assert (x = d) by congruence. lia.
      - assert (0x80 <= x < 0xc0); [|lia]. apply utf8_cont_range.
        + by apply (Forall_lookup_1 (fun c => 0 < c < 256) s (j + S k)%nat).
        + eapply Hcont; [|done]. lia. }
    assert (Hsz : escape_size s1 = escape_size (take j s) + Z.of_nat (length s1 - j)).
    { rewrite <- (take_drop j s1) at 1. rewrite escape_size_app, (escape_size_high _ Hhigh), length_drop.
      f_equal. f_equal. rewrite Hs1, take_take. f_equal. lia. }
    exists j, (length s1 - j)%nat, d. split_and!; try done; try lia.
    + destruct (decide (j = 0)%nat) as [-> |]; [|lia]. exfalso.
      rewrite take_0 in Hsz. change (escape_size []) with 0 in Hsz.
      rewrite charsize_high in Hcut; [lia|].
      apply utf8_cont_range; [|done]. by apply (Forall_lookup_1 (fun c => 0 < c < 256) s (length s1)).
    + destruct (utf8_cont d) eqn:Hdc; [|done]. apply utf8_cont_range in Hdc; lia.
    + intros k x Hkr. apply Hcont. lia.
  - exists (length s1), 0%nat, c. split_and!; try done; try lia.
    + destruct s1; [|simpl; lia]. pose proof (json_charsize_range c). change (escape_size []) with 0 in Hcut. lia.
    + rewrite <- Hs1. lia.
Qed.

(** With a limit of at least six bytes, the longest escape sequence, the size
    reserved is that of the bytes written, and it is within the limit. *)
Lemma stringsize_limit_exact (s : list Z) (type : zbx_json_type_t) (max_size : Z) :
  c_string s -> utf8_sequences s -> max_size = 0 \/ 6 <= max_size ->
  exists k : nat, __zbx_json_stringsize_limit (Some s) type max_size =
      Ret (Z.of_nat (length (__zbx_json_insstring_limit (Some s) type (Z.of_nat k))), escape_size s, Z.of_nat k) /\
    (k = 0%nat /\ (max_size = 0 \/ escape_size s <= max_size) \/
     (0 < k)%nat /\ escape_size (take k s) <= max_size < escape_size s).
Proof.
  intros Hs Hu Hm. unfold __zbx_json_stringsize_limit, __zbx_json_insstring_limit.
  change (json_text (Some s)) with s. cbv zeta.
  destruct (stringsize_loop_spec max_size 0 0 s) as [[-> H] | (s1 & c & s2 & E & Hm0 & Hcut & ->)]; [lia|..].
  - exists 0%nat. split; [|by left]. change (Z.of_nat 0 =? 0) with true. cbv iota.
    rewrite !length_app, !Nat2Z.inj_add. fold (escape_size s).
    do 3 f_equal. destruct (json_quoted _ _); simpl; fold (escape_size s); lia.
  - rewrite !Z.add_0_l in *. destruct (cut_position s s1 s2 c max_size) as (j & n & d & Hl & Hj & Hd & Hdc & Hk & Hsz);
      try done; try lia.
    assert (Hne : take j s <> []).
    { intros En. apply (f_equal length) in En. rewrite length_take in En. simpl in En.
      pose proof (lookup_lt_Some _ _ _ Hd). lia. }
    pose proof (escape_size_pos _ Hne). set (q := if json_quoted (Some s) type then 2 else 0).
    assert (Hq : 0 <= q) by (unfold q; destruct (json_quoted _ _); lia).
    pose proof (json_charsize_range c). pose proof (escape_size_cons c s2).
    rewrite Hl, Hsz. replace (escape_size (take j s) + Z.of_nat n + q) with (escape_size (take j s) + q + Z.of_nat n) by lia.
    rewrite bool_decide_false by done. rewrite (cutoff_back s n j d); try done; try lia.
    2: { rewrite E, length_app. simpl. lia. }
    run. exists j. split.
    + f_equal. f_equal; [f_equal|lia]. rewrite (proj2 (Z.eqb_neq _ _)) by lia. rewrite Nat2Z.id.
      rewrite !length_app, !Nat2Z.inj_add. fold (escape_size (take j s)). unfold q.
      destruct (json_quoted _ _); simpl; fold (escape_size (take j s)); lia.
    + right. split; [lia|]. rewrite E at 2. rewrite escape_size_app, escape_size_cons.
      assert (0 <= escape_size s2) by (unfold escape_size; lia). lia.
Qed.
