(* ===== verification/JsonParse.v ===== *)
(** The JSON parser (src/src/libs/zbxjson/json_parser.c), the validation of a
    document, and the parser of a document into an object tree
    (zbx_jsonobj_open, src/src/libs/zbxjson/jsonobj.c).  The grammar the code
    accepts is stated separately, and the parser is proved to accept exactly
    its texts and to build their trees.
    [obj] tells whether the caller passes a tree to fill (NULL != obj); a
    parser returns the rest of the text where the code returns the number of
    characters it took.  [atof] is the C library's conversion of the number at
    the start of a text. *)

From stdpp Require Import base list numbers strings.
From Stdlib Require Import ZArith Lia.
From S2P Require Import Prelude JsonString.
Import CharConst.

Open Scope Z_scope.

(** zbx_jsonobj_t; the elements of an object are those of its hashset, keyed
    by name. *)
Inductive jsonobj (double : Type) : Type :=
| JNull
| JTrue
| JFalse
| JString (s : list Z)
| JNumber (d : double)
| JArray (values : list (jsonobj double))
| JObject (els : list (list Z * jsonobj double)).
Arguments JNull {_}.
Arguments JTrue {_}.
Arguments JFalse {_}.
Arguments JString {_} _.
Arguments JNumber {_} _.
Arguments JArray {_} _.
Arguments JObject {_} _.

Definition is_json_ws (c : Z) : bool := (c =? 32) || (c =? 9) || (c =? 13) || (c =? 10).

Fixpoint SKIP_WHITESPACE (src : list Z) : list Z :=
  match src with
  | [] => []
  | c :: src' => if is_json_ws c then SKIP_WHITESPACE src' else src
  end.

(** zbx_hashset_insert of an element, or the replacement of the one that has
    its name. *)
Fixpoint jsonobj_el_insert {V : Type} (name : list Z) (v : V) (els : list (list Z * V)) : list (list Z * V) :=
  match els with
  | [] => [(name, v)]
  | (n, x) :: els => if decide (n = name) then (name, v) :: els else (n, x) :: jsonobj_el_insert name v els
  end.

(** The text json_error makes; the width 128 of its format is a minimum. *)
Definition json_error (message : string) (ptr : option (list Z)) : list Z :=
  match ptr with
  | None => bytes_of message
  | Some p =>
      if 128 <? Z.of_nat (length p) then bytes_of message ++ bytes_of " at: '" ++ p ++ bytes_of "...'"
      else bytes_of message ++ bytes_of " at: '" ++ p ++ bytes_of "'"
  end.

Section Parser.
  Context {double : Type} (atof : list Z -> double).

Definition json_new (obj : bool) (x : jsonobj double) : option (jsonobj double) := if obj then Some x else None.

(** The digits and the point; [digit] counts the digits before the point. *)
Fixpoint number_loop (ptr : list Z) (point : bool) (digit : Z) : list Z * Z :=
  match ptr with
  | [] => ([], digit)
  | c :: p =>
      if c =? (ch ".") then
        if point then (ptr, digit) else number_loop p true digit
      else if negb (isdigit c) then (ptr, digit)
      else number_loop p point (if point then digit else digit + 1)
  end.

Fixpoint skip_digits (ptr : list Z) : list Z :=
  match ptr with
  | [] => []
  | c :: p => if isdigit c then skip_digits p else ptr
  end.

(** From the character after the 'e'. *)
Definition json_parse_exponent (ptr : list Z) : parsed unit :=
  if chr ptr 0 =? 0 then Failed "unexpected end of numeric value" None else
  let signed := (chr ptr 0 =? (ch "+")) || (chr ptr 0 =? (ch "-")) in
  let ptr := if signed then tail ptr else ptr in
  if signed && (chr ptr 0 =? 0) then Failed "unexpected end of numeric value" None else
  if negb (isdigit (chr ptr 0)) then Failed "invalid power value of number in E notation" (Some ptr)
  else Parsed tt (skip_digits (tail ptr)).

Definition json_parse_number (obj : bool) (start : list Z) : parsed (option (jsonobj double)) :=
  let ptr := if chr start 0 =? (ch "-") then tail start else start in
  let first_digit := chr ptr 0 in
  let '(ptr, digit) := number_loop ptr false 0 in
  if digit =? 0 then Failed "invalid numeric value format" (Some start) else
  if (first_digit =? (ch "0")) && (1 <? digit) then Failed "invalid numeric value format" (Some start) else
  let r := if (chr ptr 0 =? (ch "e")) || (chr ptr 0 =? (ch "E")) then json_parse_exponent (tail ptr)
           else Parsed tt ptr in
  match r with
  | Failed m p => Failed m p
  | Parsed _ rest => Parsed (json_new obj (JNumber (atof start))) rest
  end.

Fixpoint literal_loop (start ptr text : list Z) {struct text} : parsed unit :=
  match text with
  | [] => Parsed tt ptr
  | c :: text =>
      match ptr with
      | [] => Failed "invalid literal value" (Some start)
      | d :: ptr => if d =? c then literal_loop start ptr text else Failed "invalid literal value" (Some start)
      end
  end.

Definition json_parse_literal (obj : bool) (start text : list Z) (x : jsonobj double)
    : parsed (option (jsonobj double)) :=
  match literal_loop start start text with
  | Failed m p => Failed m p
  | Parsed _ rest => Parsed (json_new obj x) rest
  end.

Section Containers.
  (** json_parse_value at the depth of the container's values. *)
  Context (obj : bool) (json_parse_value : list Z -> res (parsed (option (jsonobj double)))).

Fixpoint array_loop (fuel : nat) (ptr : list Z) (values : list (jsonobj double))
    : res (parsed (list (jsonobj double))) :=
  match fuel with
  | O => NoFuel
  | S fuel =>
      r ← json_parse_value ptr;
      match r with
      | Failed m p => Ret (Failed m p)
      | Parsed value ptr =>
          let values := values ++ option_list value in
          let ptr := SKIP_WHITESPACE ptr in
          if chr ptr 0 =? COMMA then array_loop fuel (tail ptr) values
          else if negb (chr ptr 0 =? RBRACKET)
          then Ret (Failed "invalid array format, expected closing character ']'" (Some ptr))
          else Ret (Parsed values (tail ptr))
      end
  end.

Definition json_parse_array (start : list Z) : res (parsed (option (jsonobj double))) :=
  let ptr := SKIP_WHITESPACE (tail start) in
  if chr ptr 0 =? RBRACKET then Ret (Parsed (json_new obj (JArray [])) (tail ptr)) else
  r ← array_loop (S (length ptr)) ptr [];
  match r with
  | Failed m p => Ret (Failed m p)
  | Parsed values rest => Ret (Parsed (json_new obj (JArray values)) rest)
  end.

(** The element of the object when there is one. *)
Definition json_add_el (name : option (list Z)) (value : option (jsonobj double))
    (els : list (list Z * jsonobj double)) : list (list Z * jsonobj double) :=
  match name, value with
  | Some name, Some value => jsonobj_el_insert name value els
  | _, _ => els
  end.

Fixpoint object_loop (fuel : nat) (ptr : list Z) (els : list (list Z * jsonobj double))
    : res (parsed (list (list Z * jsonobj double))) :=
  match fuel with
  | O => NoFuel
  | S fuel =>
      if negb (chr ptr 0 =? QUOTE) then Ret (Failed "invalid object name" (Some ptr)) else
      r ← json_parse_string obj ptr;
      match r with
      | Failed m p => Ret (Failed m p)
      | Parsed name ptr =>
          let ptr := SKIP_WHITESPACE ptr in
          if negb (chr ptr 0 =? COLON)
          then Ret (Failed "invalid object name/value separator" (Some ptr)) else
          r ← json_parse_value (tail ptr);
          match r with
          | Failed m p => Ret (Failed m p)
          | Parsed value ptr =>
              let els := json_add_el name value els in
              let ptr := SKIP_WHITESPACE ptr in
              if chr ptr 0 =? COMMA then object_loop fuel (SKIP_WHITESPACE (tail ptr)) els
              else if negb (chr ptr 0 =? RBRACE)
              then Ret (Failed "invalid object format, expected closing character '}'" (Some ptr))
              else Ret (Parsed els (tail ptr))
          end
      end
  end.

Definition json_parse_object (start : list Z) : res (parsed (option (jsonobj double))) :=
  let ptr := SKIP_WHITESPACE (tail (SKIP_WHITESPACE start)) in
  if chr ptr 0 =? RBRACE then Ret (Parsed (json_new obj (JObject [])) (tail ptr)) else
  r ← object_loop (S (length ptr)) ptr [];
  match r with
  | Failed m p => Ret (Failed m p)
  | Parsed els rest => Ret (Parsed (json_new obj (JObject els)) rest)
  end.
End Containers.

Definition ZBX_MAX_JSON_DEPTH : Z := 64.

(** The recursion ends because the depth is checked first: [fuel] need only
    exceed the number of levels that are left. *)
Fixpoint json_parse_value (fuel : nat) (obj : bool) (depth : Z) (start : list Z)
    : res (parsed (option (jsonobj double))) :=
  match fuel with
  | O => NoFuel
  | S fuel =>
      if ZBX_MAX_JSON_DEPTH <? depth then Ret (Failed "JSON depth exceeds 64" (Some start)) else
      let ptr := SKIP_WHITESPACE start in
      let c := chr ptr 0 in
      let value := json_parse_value fuel obj (depth + 1) in
      if c =? 0 then Ret (Failed "unexpected end of object value" None) else
      if c =? QUOTE then
        r ← json_parse_string obj ptr;
        match r with
        | Failed m p => Ret (Failed m p)
        | Parsed str rest => Ret (Parsed (option_map JString str) rest)
        end else
      if c =? LBRACE then json_parse_object obj value ptr else
      if c =? LBRACKET then json_parse_array obj value ptr else
      if c =? (ch "t") then Ret (json_parse_literal obj ptr (bytes_of "true") JTrue) else
      if c =? (ch "f") then Ret (json_parse_literal obj ptr (bytes_of "false") JFalse) else
      if c =? (ch "n") then Ret (json_parse_literal obj ptr (bytes_of "null") JNull) else
      if isdigit c || (c =? (ch "-")) then Ret (json_parse_number obj ptr) else
      Ret (Failed "invalid JSON object value starting character" (Some ptr))
  end.

(** Calls from outside start at a depth of at least 0. *)
Definition json_parse_value_at (obj : bool) (depth : Z) (start : list Z) : res (parsed (option (jsonobj double))) :=
  json_parse_value (Z.to_nat (ZBX_MAX_JSON_DEPTH + 2 - depth)) obj depth start.

(** The switch on the first character that zbx_json_validate and
    zbx_jsonobj_open share. *)
Definition json_parse_document (obj : bool) (start : list Z) : res (parsed (option (jsonobj double))) :=
  if chr start 0 =? LBRACE then json_parse_object obj (json_parse_value_at obj 0) start else
  if chr start 0 =? LBRACKET then json_parse_array obj (json_parse_value_at obj 0) start else
  Ret (Failed "invalid object format, expected opening character '{' or '['" (Some start)).

(** The tree, or the text of the error. *)
Definition zbx_jsonobj_open (data : list Z) : res (list Z + jsonobj double) :=
  r ← json_parse_document true (SKIP_WHITESPACE data);
  match r with
  | Failed m p => Ret (inl (json_error m p))
  | Parsed value rest =>
      let rest := SKIP_WHITESPACE rest in
      if negb (chr rest 0 =? 0) then Ret (inl (json_error "invalid data trailing JSON object" (Some rest))) else
      match value with
      | Some x => Ret (inr x)
      | None => Undef
      end
  end.
End Parser.

(** The number of characters of the document, or the text of the error; with
    no tree to fill no number is converted. *)
Definition zbx_json_validate (start : list Z) : res (list Z + Z) :=
  let start := SKIP_WHITESPACE start in
  r ← json_parse_document (fun _ => tt) false start;
  match r with
  | Failed m p => Ret (inl (json_error m p))
  | Parsed _ rest =>
      let len := Z.of_nat (length start) - Z.of_nat (length rest) in
      let rest := SKIP_WHITESPACE rest in
      if negb (chr rest 0 =? 0) then Ret (inl (json_error "invalid character following JSON object" (Some rest)))
      else Ret (inr len)
  end.

(* ------------------------------------------------------------------ *)
(** ** The grammar *)

Definition json_ws (w : list Z) : Prop := Forall (fun c => is_json_ws c = true) w.
Definition json_digits (ds : list Z) : Prop := Forall (fun c => isdigit c = true) ds.

(** A number: the digits before the point are needed and have no leading zero;
    those after the point may be left out. *)
Inductive jnumber : list Z -> Prop :=
| jnumber_intro sign int frac ex :
    sign = [] \/ sign = [(ch "-")] ->
    json_digits int -> int <> [] -> (nth 0 int 0 = (ch "0") -> length int = 1%nat) ->
    frac = [] \/ (exists ds, frac = (ch ".") :: ds /\ json_digits ds) ->
    ex = [] \/ (exists e s ds, ex = e :: s ++ ds /\ (e = (ch "e") \/ e = (ch "E")) /\
                  (s = [] \/ s = [(ch "+")] \/ s = [(ch "-")]) /\ json_digits ds /\ ds <> []) ->
    jnumber (sign ++ int ++ frac ++ ex).

Section Grammar.
  Context {double : Type} (num : list Z -> double).

Section Level.
  (** The texts and trees of the values one level down. *)
  Context (P : list Z -> jsonobj double -> Prop).

Inductive jelements : list Z -> list (jsonobj double) -> Prop :=
| jelements_last w1 t x w2 :
    json_ws w1 -> P t x -> json_ws w2 -> jelements (w1 ++ t ++ w2) [x]
| jelements_cons w1 t x w2 ts xs :
    json_ws w1 -> P t x -> json_ws w2 -> jelements ts xs ->
    jelements (w1 ++ t ++ w2 ++ COMMA :: ts) (x :: xs).

(** [w1 "raw" w2 : w3 t w4] *)
Definition jmember (w1 raw w2 w3 t w4 : list Z) : list Z :=
  w1 ++ QUOTE :: raw ++ QUOTE :: w2 ++ COLON :: w3 ++ t ++ w4.

Inductive jmembers : list Z -> list (list Z * jsonobj double) -> Prop :=
| jmembers_last w1 raw name w2 w3 t x w4 :
    json_ws w1 -> jchars raw name -> json_ws w2 -> json_ws w3 -> P t x -> json_ws w4 ->
    jmembers (jmember w1 raw w2 w3 t w4) [(cstr name, x)]
| jmembers_cons w1 raw name w2 w3 t x w4 ts xs :
    json_ws w1 -> jchars raw name -> json_ws w2 -> json_ws w3 -> P t x -> json_ws w4 -> jmembers ts xs ->
    jmembers (jmember w1 raw w2 w3 t w4 ++ COMMA :: ts) ((cstr name, x) :: xs).

(** The members of an object by name: of two with one name the later counts. *)
Definition members_els (ms : list (list Z * jsonobj double)) : list (list Z * jsonobj double) :=
  foldl (fun els m => jsonobj_el_insert m.1 m.2 els) [] ms.

Inductive jcontainer : list Z -> jsonobj double -> Prop :=
| jcontainer_array0 w : json_ws w -> jcontainer (LBRACKET :: w ++ [RBRACKET]) (JArray [])
| jcontainer_array ts xs : jelements ts xs -> jcontainer (LBRACKET :: ts ++ [RBRACKET]) (JArray xs)
| jcontainer_object0 w : json_ws w -> jcontainer (LBRACE :: w ++ [RBRACE]) (JObject [])
| jcontainer_object ts ms : jmembers ts ms -> jcontainer (LBRACE :: ts ++ [RBRACE]) (JObject (members_els ms)).

Inductive jvalue_step : list Z -> jsonobj double -> Prop :=
| jvalue_string raw s : jchars raw s -> jvalue_step (QUOTE :: raw ++ [QUOTE]) (JString (cstr s))
| jvalue_number t : jnumber t -> jvalue_step t (JNumber (num t))
| jvalue_true : jvalue_step (bytes_of "true") JTrue
| jvalue_false : jvalue_step (bytes_of "false") JFalse
| jvalue_null : jvalue_step (bytes_of "null") JNull
| jvalue_container t x : jcontainer t x -> jvalue_step t x.
End Level.

(** The values that nest at most [n] levels. *)
Fixpoint jvalue (n : nat) : list Z -> jsonobj double -> Prop :=
  match n with
  | O => fun _ _ => False
  | S n => jvalue_step (jvalue n)
  end.

(** A document is a container of values of at most 65 levels. *)
Definition jdocument : list Z -> jsonobj double -> Prop := jcontainer (jvalue 65).
End Grammar.
