(* ===== verification/JsonGrammar.v ===== *)
(** The JSON parser of JsonParse.v accepts exactly the texts of the grammar and
    builds their trees.  Each parser is shown total, sound and complete for its
    nonterminal; the containers for any parser of values that is. *)

From stdpp Require Import base list numbers strings.
From Stdlib Require Import ZArith Lia.
From S2P Require Import Prelude JsonString JsonParse.
Import CharConst.

Open Scope Z_scope.

(** Texts as sequences of their parts, associated to the right. *)
Ltac flat_app := repeat (progress (rewrite <- ?app_assoc; cbn [app])).

(** The first character of a text, when there is one, does not satisfy [f]. *)
Definition json_stops (f : Z -> bool) (s : list Z) : Prop :=
  match s with
  | [] => True
  | c :: _ => f c = false
  end.

(** What may follow a value. *)
Definition json_delimited (rest : list Z) : Prop :=
  match rest with
  | [] => True
  | c :: _ => is_json_ws c = true \/ c = COMMA \/ c = RBRACKET \/ c = RBRACE
  end.

Lemma chr_head (s : list Z) (c : Z) : chr s 0 = c -> c <> 0 -> s = c :: tail s.
Proof. destruct s as [|x s]; unfold chr; simpl; [lia|congruence]. Qed.

(* ------------------------------------------------------------------ *)
(** ** White space *)

Lemma skip_ws_app (w s : list Z) : json_ws w -> SKIP_WHITESPACE (w ++ s) = SKIP_WHITESPACE s.
Proof. induction 1 as [|c w Hc _ IH]; simpl; [done|]. by rewrite Hc. Qed.

Lemma skip_ws_stops (s : list Z) : json_stops is_json_ws s -> SKIP_WHITESPACE s = s.
Proof. destruct s as [|c s]; simpl; [done|]. by intros ->. Qed.

Lemma skip_ws_skips (w s : list Z) : json_ws w -> json_stops is_json_ws s -> SKIP_WHITESPACE (w ++ s) = s.
Proof. intros Hw Hs. by rewrite skip_ws_app, skip_ws_stops. Qed.

Lemma skip_ws_split (s : list Z) : exists w, s = w ++ SKIP_WHITESPACE s /\ json_ws w.
Proof.
  induction s as [|c s (w & E & Hw)]; simpl; [by (exists []; split; [done | constructor])|].
  destruct (is_json_ws c) eqn:Hc; [|by (exists []; split; [done | constructor])].
  exists (c :: w). split; [simpl; congruence | by constructor].
Qed.

Lemma skip_ws_result (s : list Z) : json_stops is_json_ws (SKIP_WHITESPACE s).
Proof. induction s as [|c s IH]; simpl; [done|]. by destruct (is_json_ws c) eqn:Hc. Qed.

Lemma skip_ws_head (s : list Z) (c : Z) : chr (SKIP_WHITESPACE s) 0 = c -> c <> 0 ->
  exists w q, s = w ++ c :: q /\ SKIP_WHITESPACE s = c :: q /\ json_ws w.
Proof.
  intros H Hc. destruct (skip_ws_split s) as (w & E & Hw). apply chr_head in H; [|done].
  exists w, (tail (SKIP_WHITESPACE s)). by rewrite <- H.
Qed.

Lemma ws_delimited (w s : list Z) : json_ws w -> json_delimited s -> json_delimited (w ++ s).
Proof. destruct 1; simpl; auto. Qed.

Lemma delimited_stops (f : Z -> bool) (rest : list Z) :
  json_delimited rest -> Forall (fun c => f c = false) [9; 10; 13; 32; COMMA; RBRACKET; RBRACE] -> json_stops f rest.
Proof.
  destruct rest as [|c rest]; simpl; [done|]. intros Hc Hf. rewrite Forall_forall in Hf. apply Hf.
  unfold is_json_ws in Hc. rewrite !elem_of_cons. lia.
Qed.

(* ------------------------------------------------------------------ *)
(** ** Numbers *)

Lemma skip_digits_app (ds rest : list Z) : json_digits ds -> json_stops isdigit rest -> skip_digits (ds ++ rest) = rest.
Proof.
  induction 1 as [|c ds Hc _ IH]; intros Hr; simpl.
  - destruct rest as [|c rest]; simpl in *; [done|]. by rewrite Hr.
  - rewrite Hc. auto.
Qed.

Lemma skip_digits_split (s : list Z) : exists ds, s = ds ++ skip_digits s /\ json_digits ds.
Proof.
  induction s as [|c s (ds & E & Hd)]; simpl; [by (exists []; split; [done | constructor])|].
  destruct (isdigit c) eqn:Hc; [|by (exists []; split; [done | constructor])].
  exists (c :: ds). split; [simpl; congruence | by constructor].
Qed.

Lemma digit_not_point (c : Z) : isdigit c = true -> (c =? (ch ".")) = false.
Proof. unfold isdigit. lia. Qed.

(** After the point the loop only skips digits. *)
Lemma number_loop_point (ptr : list Z) (k : Z) : number_loop ptr true k = (skip_digits ptr, k).
Proof.
  induction ptr as [|c p IH]; simpl; [done|]. destruct (Z.eqb_spec c (ch ".")) as [-> |]; [done|].
  destruct (isdigit c); simpl; [apply IH|done].
Qed.

Lemma number_loop_app (int frac rest : list Z) (k : Z) :
  json_digits int -> frac = [] \/ (exists ds, frac = (ch ".") :: ds /\ json_digits ds) ->
  json_stops isdigit rest -> chr rest 0 <> (ch ".") ->
  number_loop (int ++ frac ++ rest) false k = (rest, k + Z.of_nat (length int)).
Proof.
  intros Hi Hf Hr Hp. revert k. induction Hi as [|c int Hc _ IH]; intros k; cbn [app number_loop length].
  - rewrite Z.add_0_r. destruct Hf as [-> | (ds & -> & Hd)].
    + simpl. destruct rest as [|c rest]; [done|]. simpl in *. unfold chr in Hp. simpl in Hp.
      rewrite (proj2 (Z.eqb_neq _ _) Hp), Hr. done.
    + simpl. by rewrite number_loop_point, skip_digits_app.
  - rewrite (digit_not_point _ Hc), Hc. cbn [negb]. rewrite IH. f_equal. lia.
Qed.

Lemma number_loop_split (ptr q : list Z) (k n : Z) :
  number_loop ptr false k = (q, n) ->
  exists int frac, ptr = int ++ frac ++ q /\ json_digits int /\ n = k + Z.of_nat (length int) /\
    (frac = [] \/ (exists ds, frac = (ch ".") :: ds /\ json_digits ds)).
Proof.
  revert k. induction ptr as [|c p IH]; intros k; cbn [number_loop].
  { intros [= <- <-]. exists [], []. split_and!; [done|constructor|simpl; lia|by left]. }
  destruct (Z.eqb_spec c (ch ".")) as [-> | Hc].
  { rewrite number_loop_point. intros [= <- <-]. destruct (skip_digits_split p) as (ds & E & Hd).
    exists [], ((ch ".") :: ds). split_and!; [simpl; congruence|constructor|simpl; lia|by right; exists ds]. }
  destruct (isdigit c) eqn:Hd; cbn [negb].
  - intros H. destruct (IH _ H) as (int & frac & -> & Hi & -> & Hf).
    exists (c :: int), frac. split_and!; [done|by constructor|simpl; lia|done].
  - intros [= <- <-]. exists [], []. split_and!; [done|constructor|simpl; lia|by left].
Qed.

Lemma exponent_complete (s ds rest : list Z) :
  s = [] \/ s = [(ch "+")] \/ s = [(ch "-")] -> json_digits ds -> ds <> [] -> json_stops isdigit rest ->
  json_parse_exponent (s ++ ds ++ rest) = Parsed tt rest.
Proof.
  intros Hs Hd Hn Hr. destruct ds as [|d ds]; [done|]. apply Forall_cons in Hd as [Hd Hds].
  assert (d <> 0 /\ d <> (ch "+") /\ d <> (ch "-")) as (H0 & H1 & H2) by (unfold isdigit in Hd; lia).
  unfold json_parse_exponent, chr.
  destruct Hs as [-> | [-> | ->]]; simpl;
    rewrite ?(proj2 (Z.eqb_neq d _)) by done; simpl; rewrite ?Hd; cbn [negb]; by rewrite skip_digits_app.
Qed.

Lemma exponent_sound (p rest : list Z) :
  json_parse_exponent p = Parsed tt rest ->
  exists s ds, p = s ++ ds ++ rest /\ (s = [] \/ s = [(ch "+")] \/ s = [(ch "-")]) /\ json_digits ds /\ ds <> [].
Proof.
  unfold json_parse_exponent. destruct (chr p 0 =? 0) eqn:H0; [discriminate|].
  assert (Hgo : forall q, isdigit (chr q 0) = true -> exists ds, q = ds ++ skip_digits (tail q) /\ json_digits ds /\ ds <> []).
  { intros q Hq. destruct q as [|c q]; [discriminate Hq|]. change (isdigit c = true) in Hq.
    destruct (skip_digits_split q) as (ds & E & Hd). exists (c :: ds).
    split_and!; [cbn [tail app]; congruence | by constructor | done]. }
  destruct ((chr p 0 =? (ch "+")) || (chr p 0 =? (ch "-"))) eqn:Hs; cbn [andb].
  - destruct (chr (tail p) 0 =? 0); [discriminate|].
    destruct (isdigit (chr (tail p) 0)) eqn:Hd; [|discriminate]. intros [= <-].
    destruct (Hgo _ Hd) as (ds & E & H). exists [chr p 0], ds. split_and!; try apply H.
    + simpl. rewrite <- E. apply chr_head; [done|lia].
    + apply orb_true_iff in Hs. rewrite !Z.eqb_eq in Hs. right. destruct Hs as [-> | ->]; auto.
  - destruct (isdigit (chr p 0)) eqn:Hd; [|discriminate]. intros [= <-].
    destruct (Hgo _ Hd) as (ds & E & H). exists [], ds. split_and!; try apply H; auto.
Qed.

Lemma jnumber_start (t : list Z) : jnumber t -> exists c t', t = c :: t' /\ (isdigit c = true \/ c = (ch "-")).
Proof.
  destruct 1 as [sign int frac ex Hs Hi Hn _ _ _]. destruct int as [|d int]; [done|].
  apply Forall_cons in Hi as [Hd _]. destruct Hs as [-> | ->]; simpl; eauto.
Qed.

Section Values.
  Context {double : Type} (atof num : list Z -> double) (obj : bool).

  (** The conversion of a number stops where the number ends. *)
  Hypothesis atof_delimited : obj = true ->
    forall t rest, jnumber t -> json_delimited rest -> atof (t ++ rest) = num t.

  Notation jobj := (jsonobj double).

Lemma json_new_number (t rest : list Z) : jnumber t -> json_delimited rest ->
  json_new obj (JNumber (atof (t ++ rest))) = json_new obj (JNumber (num t)).
Proof. unfold json_new. destruct obj; [|done]. intros Ht Hr. by rewrite atof_delimited. Qed.

Lemma delimited_number (rest : list Z) : json_delimited rest ->
  json_stops isdigit rest /\ chr rest 0 <> (ch ".") /\ chr rest 0 <> (ch "e") /\ chr rest 0 <> (ch "E").
Proof.
  intros Hr. split; [apply (delimited_stops _ _ Hr); repeat constructor|].
  assert (Hn : forall x, Forall (fun c => c <> x) [0; 9; 10; 13; 32; COMMA; RBRACKET; RBRACE] -> chr rest 0 <> x).
  { intros x Hx. apply Forall_cons in Hx as [H0 Hx]. destruct rest as [|c rest]; [done|]. unfold chr. simpl.
    rewrite Forall_forall in Hx. apply Hx. rewrite !elem_of_cons. unfold json_delimited, is_json_ws in Hr. lia. }
  split_and!; apply Hn; repeat constructor; lia.
Qed.

(** The leading digit and the count of digits that json_parse_number checks. *)
Lemma number_checks (int : list Z) : json_digits int ->
  (int <> [] /\ (nth 0 int 0 = (ch "0") -> length int = 1%nat)) <->
  (Z.of_nat (length int) =? 0) = false /\
  ((nth 0 int 0 =? (ch "0")) && (1 <? Z.of_nat (length int))) = false.
Proof.
  intros _. rewrite andb_false_iff, !Z.eqb_neq, Z.ltb_ge. destruct int as [|d int]; [simpl; naive_solver lia|].
  cbn [length nth]. split.
  - intros [_ H]. split; [lia|]. destruct (Z.eq_dec d (ch "0")) as [E|]; [|by left]. right. apply H in E. lia.
  - intros [_ H]. split; [done|]. intros ->. lia.
Qed.

Lemma parse_number_complete (t rest : list Z) : jnumber t -> json_delimited rest ->
  json_parse_number atof obj (t ++ rest) = Parsed (json_new obj (JNumber (num t))) rest.
Proof.
  intros Ht Hr. rewrite <- (json_new_number t rest Ht Hr). destruct (delimited_number rest Hr) as (H1 & H2 & H3 & H4).
  destruct Ht as [sign int frac ex Hs Hi Hn Hz Hf Hex]. destruct (proj1 (number_checks int Hi) (conj Hn Hz)) as [Hc1 Hc2].
  unfold json_parse_number. rewrite <- !app_assoc.
  assert (Hsign : (if chr (sign ++ int ++ frac ++ ex ++ rest) 0 =? (ch "-")
                   then tail (sign ++ int ++ frac ++ ex ++ rest) else sign ++ int ++ frac ++ ex ++ rest)
                  = int ++ frac ++ ex ++ rest).
  { destruct int as [|d int]; [done|]. apply Forall_cons in Hi as [Hd _].
    destruct Hs as [-> | ->]; unfold chr; simpl; [|done].
    by rewrite (proj2 (Z.eqb_neq _ _)) by (unfold isdigit in Hd; lia). }
  rewrite Hsign. assert (Hfd : chr (int ++ frac ++ ex ++ rest) 0 = nth 0 int 0) by by destruct int.
  rewrite Hfd. rewrite (number_loop_app int frac (ex ++ rest)); [|done..| |].
  - rewrite Z.add_0_l, Hc1, Hc2. destruct Hex as [-> | (e & s & ds & -> & He & Hs' & Hd & Hdn)].
    + cbn [app]. rewrite !(proj2 (Z.eqb_neq _ _)) by done. done.
    + assert ((chr ((e :: s ++ ds) ++ rest) 0 =? (ch "e")) || (chr ((e :: s ++ ds) ++ rest) 0 =? (ch "E")) = true) as ->.
      { unfold chr. simpl. destruct He as [-> | ->]; done. }
      cbn [app tail]. rewrite <- app_assoc, exponent_complete by done. done.
  - destruct Hex as [-> | (e & s & ds & -> & [-> | ->] & _)]; done.
  - destruct Hex as [-> | (e & s & ds & -> & [-> | ->] & _)]; done.
Qed.

Lemma parse_number_sound (s rest : list Z) (v : option jobj) :
  json_parse_number atof obj s = Parsed v rest ->
  json_delimited rest ->
  exists t, s = t ++ rest /\ jnumber t /\ v = json_new obj (JNumber (num t)).
Proof.
  unfold json_parse_number. intros H Hr.
  assert (exists sign p, s = sign ++ p /\ (sign = [] \/ sign = [(ch "-")]) /\
            (if chr s 0 =? (ch "-") then tail s else s) = p) as (sign & p & E & Hs & Ep).
  { destruct (Z.eqb_spec (chr s 0) (ch "-")) as [Ec|]; [|exists [], s; auto].
    exists [(ch "-")], (tail s). split_and!; [by apply chr_head|auto|done]. }
  rewrite Ep in H. destruct (number_loop p false 0) as [q n] eqn:El.
  destruct (number_loop_split _ _ _ _ El) as (int & frac & Epp & Hi & -> & Hf).
  destruct (0 + Z.of_nat (length int) =? 0) eqn:Hc1; [discriminate|].
  destruct ((chr p 0 =? (ch "0")) && (1 <? 0 + Z.of_nat (length int))) eqn:Hc2; [discriminate|].
  rewrite Z.add_0_l in Hc1, Hc2.
  assert (Hfd : int <> [] -> chr p 0 = nth 0 int 0) by (rewrite Epp; by destruct int).
  assert (Hin : int <> []) by (intros ->; discriminate Hc1). rewrite (Hfd Hin) in Hc2.
  destruct (proj2 (number_checks int Hi) (conj Hc1 Hc2)) as [_ Hz].
  assert (exists ex, q = ex ++ rest /\ (ex = [] \/ (exists e s ds, ex = e :: s ++ ds /\ (e = (ch "e") \/ e = (ch "E")) /\
                  (s = [] \/ s = [(ch "+")] \/ s = [(ch "-")]) /\ json_digits ds /\ ds <> [])) /\
          v = json_new obj (JNumber (atof s))) as (ex & -> & Hex & ->).
  { destruct ((chr q 0 =? (ch "e")) || (chr q 0 =? (ch "E"))) eqn:He.
    - destruct (json_parse_exponent (tail q)) as [|[] q'] eqn:Eq; [discriminate|]. injection H as <- <-.
      destruct (exponent_sound _ _ Eq) as (s' & ds & E' & Hs' & Hd & Hn).
      apply orb_true_iff in He. rewrite !Z.eqb_eq in He.
      exists (chr q 0 :: s' ++ ds). split_and!; [|right; exists (chr q 0), s', ds; auto|done].
      simpl. rewrite <- app_assoc, <- E'. apply chr_head; [done|]. destruct He as [-> | ->]; done.
    - injection H as <- <-. exists []. auto. }
  exists (sign ++ int ++ frac ++ ex).
  assert (Ht : jnumber (sign ++ int ++ frac ++ ex)) by by constructor.
  assert (Es : s = (sign ++ int ++ frac ++ ex) ++ rest) by (rewrite E, Epp, <- !app_assoc; done).
  split_and!; [done|done|]. rewrite Es. by apply json_new_number.
Qed.

(* ------------------------------------------------------------------ *)
(** ** Literals *)

Lemma literal_complete (start rest text : list Z) : literal_loop start (text ++ rest) text = Parsed tt rest.
Proof. induction text as [|c text IH]; simpl; [done|]. rewrite Z.eqb_refl. apply IH. Qed.

Lemma literal_sound (start ptr text rest : list Z) :
  literal_loop start ptr text = Parsed tt rest -> ptr = text ++ rest.
Proof.
  revert ptr. induction text as [|c text IH]; intros ptr; simpl; [by intros [= ->]|].
  destruct ptr as [|d ptr]; [discriminate|]. destruct (Z.eqb_spec d c) as [-> |]; [|discriminate].
  intros H. by rewrite (IH _ H).
Qed.

Lemma parse_literal_complete (text rest : list Z) (x : jobj) :
  json_parse_literal obj (text ++ rest) text x = Parsed (json_new obj x) rest.
Proof. unfold json_parse_literal. by rewrite literal_complete. Qed.

Lemma parse_literal_sound (s text rest : list Z) (x : jobj) (v : option jobj) :
  json_parse_literal obj s text x = Parsed v rest -> s = text ++ rest /\ v = json_new obj x.
Proof.
  unfold json_parse_literal. destruct (literal_loop s s text) as [|[] q] eqn:E; [discriminate|].
  intros [= <- <-]. split; [by apply literal_sound in E | done].
Qed.
End Values.

(* ------------------------------------------------------------------ *)
(** ** Containers, for any parser of values that is right *)

(** [V] is total, and parses exactly the texts of [P], after white space. *)
Record value_parser {double : Type} (obj : bool) (V : list Z -> res (parsed (option (jsonobj double))))
    (P : list Z -> jsonobj double -> Prop) : Prop := {
  vp_total : forall s, exists r, V s = Ret r;
  vp_start : forall t x, P t x -> exists c t', t = c :: t' /\ is_json_ws c = false /\ c <> RBRACKET;
  vp_sound : forall s v rest, V s = Ret (Parsed v rest) -> json_delimited rest ->
    exists w t x, s = w ++ t ++ rest /\ json_ws w /\ P t x /\ v = json_new obj x;
  vp_complete : forall w t x rest, json_ws w -> P t x -> json_delimited rest ->
    V (w ++ t ++ rest) = Ret (Parsed (json_new obj x) rest)
}.

Section Container.
  Context {double : Type} (obj : bool).
  Notation jobj := (jsonobj double).
  Context (V : list Z -> res (parsed (option jobj))) (P : list Z -> jobj -> Prop).
  Hypothesis HV : value_parser obj V P.

Lemma skip_ws_length (s : list Z) : (length (SKIP_WHITESPACE s) <= length s)%nat.
Proof. induction s as [|c s IH]; simpl; [done|]. destruct (is_json_ws c); simpl; lia. Qed.

Lemma ws_stop (c : Z) (q : list Z) : is_json_ws c = false -> forall w, json_ws w -> SKIP_WHITESPACE (w ++ c :: q) = c :: q.
Proof. intros Hc w Hw. by apply skip_ws_skips. Qed.

Lemma delimited_skip (s : list Z) (c : Z) : chr (SKIP_WHITESPACE s) 0 = c ->
  c = COMMA \/ c = RBRACKET \/ c = RBRACE -> json_delimited s.
Proof.
  intros H Hc. destruct (skip_ws_head s c H) as (w & q & -> & _ & Hw); [lia|].
  apply ws_delimited; [done|]. right. done.
Qed.

Lemma option_list_new (x : jobj) : option_list (json_new obj x) = if obj then [x] else [].
Proof. unfold json_new. by destruct obj. Qed.

Lemma array_loop_complete (ts rest : list Z) (xs acc : list jobj) (fuel : nat) :
  jelements P ts xs -> (length ts < fuel)%nat ->
  array_loop V fuel (ts ++ RBRACKET :: rest) acc = Ret (Parsed (acc ++ if obj then xs else []) rest).
Proof.
  intros H. revert acc fuel. induction H as [w1 t x w2 Hw1 Ht Hw2 | w1 t x w2 ts xs Hw1 Ht Hw2 H IH];
    intros acc [|fuel] Hf; try lia; cbn [array_loop]; rewrite <- !app_assoc.
  - rewrite (vp_complete _ _ _ HV _ _ _ _ Hw1 Ht) by (apply ws_delimited; [done|simpl; auto]).
    run. rewrite ws_stop by done. cbn -[SKIP_WHITESPACE]. by rewrite option_list_new.
  - change ((COMMA :: ts) ++ RBRACKET :: rest) with (COMMA :: ts ++ RBRACKET :: rest).
    rewrite (vp_complete _ _ _ HV _ _ _ _ Hw1 Ht) by (apply ws_delimited; [done|simpl; auto]).
    run. rewrite ws_stop by done. change (chr (COMMA :: _) 0 =? COMMA) with true. cbv iota. cbn [tail].
    rewrite !length_app in Hf. cbn [length] in Hf. rewrite IH by lia.
    rewrite option_list_new, <- app_assoc. by destruct obj.
Qed.

Lemma array_loop_sound (fuel : nat) (ptr : list Z) (acc : list jobj) :
  (length ptr < fuel)%nat ->
  exists r, array_loop V fuel ptr acc = Ret r /\
    forall vs rest, r = Parsed vs rest -> exists ts xs, ptr = ts ++ RBRACKET :: rest /\ jelements P ts xs /\
      vs = acc ++ if obj then xs else [].
Proof.
  revert ptr acc. induction fuel as [|fuel IH]; intros ptr acc Hf; [lia|]. cbn [array_loop].
  destruct (vp_total _ _ _ HV ptr) as ([m p | v q] & E); rewrite E; run; [eexists; split; [done|discriminate]|].
  destruct (Z.eqb_spec (chr (SKIP_WHITESPACE q) 0) COMMA) as [Hc | Hc];
    [|destruct (Z.eqb_spec (chr (SKIP_WHITESPACE q) 0) RBRACKET) as [Hb | Hb]; cbn [negb];
      [|eexists; split; [done|discriminate]]].
  - destruct (vp_sound _ _ _ HV _ _ _ E) as (w1 & t & x & -> & Hw1 & Ht & ->); [eapply delimited_skip; eauto|].
    destruct (skip_ws_head q COMMA Hc) as (w2 & q' & -> & -> & Hw2); [lia|]. cbn [tail].
    rewrite !length_app in Hf. cbn [length] in Hf.
    destruct (IH q' (acc ++ option_list (json_new obj x))) as (r & Er & Hr); [lia|].
    rewrite Er. eexists. split; [done|]. intros vs rest ->. destruct (Hr _ _ eq_refl) as (ts & xs & -> & Hj & ->).
    exists (w1 ++ t ++ w2 ++ COMMA :: ts), (x :: xs). rewrite <- !app_assoc. split_and!; [done|by constructor|].
    rewrite option_list_new. by destruct obj.
  - destruct (vp_sound _ _ _ HV _ _ _ E) as (w1 & t & x & -> & Hw1 & Ht & ->); [eapply delimited_skip; eauto|].
    destruct (skip_ws_head q RBRACKET Hb) as (w2 & q' & -> & -> & Hw2); [lia|]. cbn [tail].
    eexists. split; [done|]. intros vs rest [= <- <-].
    exists (w1 ++ t ++ w2), [x]. rewrite <- !app_assoc. split_and!; [done|by constructor|by rewrite option_list_new].
Qed.

(** [members_els] from the elements gathered so far. *)
Notation add_members els ms := (foldl (fun els m => jsonobj_el_insert m.1 m.2 els) els ms).

Lemma add_el_new (name : list Z) (x : jobj) (els : list (list Z * jobj)) :
  json_add_el (if obj then Some name else None) (json_new obj x) els =
  add_members els (if obj then [(name, x)] else []).
Proof. unfold json_new. by destruct obj. Qed.

(** One member, up to what follows its value. *)
Lemma member_complete (raw name w2 w3 t w4 rest : list Z) (x : jobj) :
  jchars raw name -> json_ws w2 -> json_ws w3 -> P t x -> json_ws w4 -> json_delimited rest ->
  exists q, json_parse_string obj (QUOTE :: raw ++ QUOTE :: w2 ++ COLON :: w3 ++ t ++ w4 ++ rest) =
      Ret (Parsed (if obj then Some (cstr name) else None) q) /\
    SKIP_WHITESPACE q = COLON :: w3 ++ t ++ w4 ++ rest /\
    V (w3 ++ t ++ w4 ++ rest) = Ret (Parsed (json_new obj x) (w4 ++ rest)).
Proof.
  intros Hr Hw2 Hw3 Ht Hw4 Hd. eexists. split; [by apply json_parse_string_complete|].
  split; [by apply ws_stop|]. apply (vp_complete _ _ _ HV); [done..|]. by apply ws_delimited.
Qed.

Lemma object_loop_complete (ts rest : list Z) (ms els : list (list Z * jobj)) (fuel : nat) :
  jmembers P ts ms -> (length ts < fuel)%nat ->
  object_loop obj V fuel (SKIP_WHITESPACE (ts ++ RBRACE :: rest)) els =
  Ret (Parsed (add_members els (if obj then ms else [])) rest).
Proof.
  intros H. revert els fuel.
  induction H as [w1 raw name w2 w3 t x w4 Hw1 Hr Hw2 Hw3 Ht Hw4 | w1 raw name w2 w3 t x w4 ts ms Hw1 Hr Hw2 Hw3 Ht Hw4 H IH];
    intros els [|fuel] Hf; try lia; unfold jmember in *; cbn [object_loop];
    flat_app.
  - rewrite ws_stop by done. change (negb (chr (QUOTE :: _) 0 =? QUOTE)) with false. cbv iota.
    destruct (member_complete raw name w2 w3 t w4 (RBRACE :: rest) x) as (q & E1 & E2 & E3); try done; [simpl; auto|].
    rewrite E1. run. rewrite E2. change (negb (chr (COLON :: _) 0 =? COLON)) with false. cbv iota. cbn [tail].
    rewrite E3. run. rewrite ws_stop by done. cbn -[json_add_el]. rewrite add_el_new. by destruct obj.
  - rewrite ws_stop by done. change (negb (chr (QUOTE :: _) 0 =? QUOTE)) with false. cbv iota.
    destruct (member_complete raw name w2 w3 t w4 (COMMA :: ts ++ RBRACE :: rest) x) as (q & E1 & E2 & E3); try done; [simpl; auto|].
    rewrite E1. run. rewrite E2. change (negb (chr (COLON :: _) 0 =? COLON)) with false. cbv iota. cbn [tail].
    rewrite E3. run. rewrite ws_stop by done. change (chr (COMMA :: _) 0 =? COMMA) with true. cbv iota. cbn [tail].
    rewrite add_el_new. rewrite IH; [by destruct obj|].
    rewrite !length_app in Hf. cbn [length] in Hf. lia.
Qed.

Lemma object_loop_sound (fuel : nat) (p : list Z) (els : list (list Z * jobj)) :
  (length p < fuel)%nat ->
  exists r, object_loop obj V fuel (SKIP_WHITESPACE p) els = Ret r /\
    forall els' rest, r = Parsed els' rest -> exists ts ms, p = ts ++ RBRACE :: rest /\ jmembers P ts ms /\
      els' = add_members els (if obj then ms else []).
Proof.
  revert p els. induction fuel as [|fuel IH]; intros p els Hf; [lia|]. cbn [object_loop].
  destruct (Z.eqb_spec (chr (SKIP_WHITESPACE p) 0) QUOTE) as [Hq|]; cbn [negb]; [|eexists; split; [done|discriminate]].
  destruct (skip_ws_head p QUOTE Hq) as (w1 & p1 & -> & -> & Hw1); [lia|].
  destruct (json_parse_string_sound obj p1) as ([m q | str q] & -> & Hs); run; [eexists; split; [done|discriminate]|].
  destruct (Hs _ _ eq_refl) as (raw & name & -> & Hr & ->).
  destruct (Z.eqb_spec (chr (SKIP_WHITESPACE q) 0) COLON) as [Hc|]; cbn [negb]; [|eexists; split; [done|discriminate]].
  destruct (skip_ws_head q COLON Hc) as (w2 & p2 & -> & -> & Hw2); [lia|]. cbn [tail].
  destruct (vp_total _ _ _ HV p2) as ([m p' | v q'] & E); rewrite E; run; [eexists; split; [done|discriminate]|].
  destruct (Z.eqb_spec (chr (SKIP_WHITESPACE q') 0) COMMA) as [Hd | Hd];
    [|destruct (Z.eqb_spec (chr (SKIP_WHITESPACE q') 0) RBRACE) as [Hb | Hb]; cbn [negb];
      [|eexists; split; [done|discriminate]]];
    destruct (vp_sound _ _ _ HV _ _ _ E) as (w3 & t & x & -> & Hw3 & Ht & ->); try (eapply delimited_skip; eauto; fail).
  - destruct (skip_ws_head q' COMMA Hd) as (w4 & p3 & -> & -> & Hw4); [lia|]. cbn [tail].
    repeat (rewrite !length_app in Hf; cbn [length] in Hf).
    destruct (IH p3 (json_add_el (if obj then Some (cstr name) else None) (json_new obj x) els)) as (r & Er & Hr'); [lia|].
    rewrite Er. eexists. split; [done|]. intros els' rest ->. destruct (Hr' _ _ eq_refl) as (ts & ms & -> & Hj & ->).
    exists (jmember w1 raw w2 w3 t w4 ++ COMMA :: ts), ((cstr name, x) :: ms). split_and!.
    + unfold jmember. flat_app. done.
    + by econstructor.
    + rewrite add_el_new. by destruct obj.
  - destruct (skip_ws_head q' RBRACE Hb) as (w4 & p3 & -> & -> & Hw4); [lia|]. cbn [tail].
    eexists. split; [done|]. intros els' rest [= <- <-].
    exists (jmember w1 raw w2 w3 t w4), [(cstr name, x)]. split_and!.
    + unfold jmember. flat_app. done.
    + by econstructor.
    + rewrite add_el_new. by destruct obj.
Qed.

Lemma start_ws (c : Z) (s : list Z) : is_json_ws c = false -> SKIP_WHITESPACE (c :: s) = c :: s.
Proof. intros Hc. by apply skip_ws_stops. Qed.

Lemma skip_idem (s : list Z) : SKIP_WHITESPACE (SKIP_WHITESPACE s) = SKIP_WHITESPACE s.
Proof. apply skip_ws_stops, skip_ws_result. Qed.

Lemma jelements_ws (w ts : list Z) (xs : list jobj) : json_ws w -> jelements P ts xs -> jelements P (w ++ ts) xs.
Proof.
  intros Hw [w1 t x w2 Hw1 Ht Hw2 | w1 t x w2 ts' xs' Hw1 Ht Hw2 H]; rewrite app_assoc; constructor; try done;
    by apply Forall_app.
Qed.

Lemma jmembers_ws (w ts : list Z) (ms : list (list Z * jobj)) : json_ws w -> jmembers P ts ms -> jmembers P (w ++ ts) ms.
Proof.
  intros Hw [w1 raw name w2 w3 t x w4 Hw1 | w1 raw name w2 w3 t x w4 ts' ms' Hw1].
  - replace (w ++ jmember w1 raw w2 w3 t w4) with (jmember (w ++ w1) raw w2 w3 t w4) by (unfold jmember; by flat_app).
    apply jmembers_last; try done. by apply Forall_app.
  - replace (w ++ jmember w1 raw w2 w3 t w4 ++ COMMA :: ts') with (jmember (w ++ w1) raw w2 w3 t w4 ++ COMMA :: ts')
      by (unfold jmember; by flat_app).
    apply jmembers_cons; try done. by apply Forall_app.
Qed.

(** The elements and members after the white space that leads them. *)
Lemma jelements_skip (ts rest : list Z) (xs : list jobj) : jelements P ts xs ->
  exists c p, SKIP_WHITESPACE (ts ++ rest) = (c :: p) ++ rest /\ c <> RBRACKET /\ jelements P (c :: p) xs.
Proof.
  intros [w1 t x w2 Hw1 Ht Hw2 | w1 t x w2 ts' xs' Hw1 Ht Hw2 H];
    destruct (vp_start _ _ _ HV _ _ Ht) as (c & t' & -> & Hc & Hr); flat_app; rewrite ws_stop by done.
  - exists c, (t' ++ w2). flat_app. split_and!; [done|done|].
    apply (jelements_last P [] (c :: t') x w2); [constructor|done|done].
  - exists c, (t' ++ w2 ++ COMMA :: ts'). flat_app. split_and!; [done|done|].
    apply (jelements_cons P [] (c :: t') x w2); [constructor|done..].
Qed.

Lemma jmembers_skip (ts rest : list Z) (ms : list (list Z * jobj)) : jmembers P ts ms ->
  exists p, SKIP_WHITESPACE (ts ++ rest) = (QUOTE :: p) ++ rest /\ jmembers P (QUOTE :: p) ms.
Proof.
  intros [w1 raw name w2 w3 t x w4 Hw1 | w1 raw name w2 w3 t x w4 ts' ms' Hw1]; unfold jmember; flat_app;
    rewrite ws_stop by done.
  - exists (raw ++ QUOTE :: w2 ++ COLON :: w3 ++ t ++ w4). flat_app. split; [done|].
    change (QUOTE :: _) with (jmember [] raw w2 w3 t w4).
    apply jmembers_last; try done. constructor.
  - exists (raw ++ QUOTE :: w2 ++ COLON :: w3 ++ t ++ w4 ++ COMMA :: ts'). flat_app. split; [done|].
    replace (QUOTE :: _) with (jmember [] raw w2 w3 t w4 ++ COMMA :: ts') by (unfold jmember; by flat_app).
    apply jmembers_cons; try done. constructor.
Qed.

Lemma parse_array_complete (t rest : list Z) (x : jobj) :
  jcontainer P (LBRACKET :: t) x ->
  json_parse_array obj V (LBRACKET :: t ++ rest) = Ret (Parsed (json_new obj x) rest).
Proof.
  unfold json_parse_array. cbn [tail]. inversion 1 as [w Hw | ts xs Ht | |]; subst; flat_app.
  - rewrite ws_stop by done. done.
  - destruct (jelements_skip ts (RBRACKET :: rest) xs Ht) as (c & p & E & Hc & Ht'). rewrite E.
    assert ((chr ((c :: p) ++ RBRACKET :: rest) 0 =? RBRACKET) = false) as -> by by apply Z.eqb_neq.
    rewrite (array_loop_complete _ _ xs) by (done || (rewrite length_app; simpl; lia)). run. cbn [app].
    unfold json_new. by destruct obj.
Qed.

Lemma parse_array_sound (s : list Z) :
  exists r, json_parse_array obj V (LBRACKET :: s) = Ret r /\
    forall v rest, r = Parsed v rest -> exists t x, s = t ++ rest /\ jcontainer P (LBRACKET :: t) x /\ v = json_new obj x.
Proof.
  unfold json_parse_array. cbn [tail]. destruct (skip_ws_split s) as (w & E & Hw).
  destruct (Z.eqb_spec (chr (SKIP_WHITESPACE s) 0) RBRACKET) as [Hc | Hc].
  - eexists. split; [done|]. intros v rest [= <- <-]. exists (w ++ [RBRACKET]), (JArray []).
    apply chr_head in Hc; [|done]. flat_app. split_and!; [congruence|by constructor|done].
  - destruct (array_loop_sound (S (length (SKIP_WHITESPACE s))) (SKIP_WHITESPACE s) []) as (r & -> & Hr); [lia|]. run.
    destruct r as [m p | vs q]; (eexists; split; [done|]); [discriminate|].
    intros v rest [= <- <-]. destruct (Hr _ _ eq_refl) as (ts & xs & Es & Hj & ->).
    exists ((w ++ ts) ++ [RBRACKET]), (JArray xs). flat_app. rewrite <- Es. split_and!; [done| |].
    + rewrite app_assoc. apply jcontainer_array. by apply jelements_ws.
    + unfold json_new. by destruct obj.
Qed.

Lemma parse_object_complete (t rest : list Z) (x : jobj) :
  jcontainer P (LBRACE :: t) x ->
  json_parse_object obj V (LBRACE :: t ++ rest) = Ret (Parsed (json_new obj x) rest).
Proof.
  unfold json_parse_object. rewrite start_ws by done. cbn [tail]. inversion 1 as [| |w Hw | ts ms Ht]; subst; flat_app.
  - rewrite ws_stop by done. done.
  - destruct (jmembers_skip ts (RBRACE :: rest) ms Ht) as (p & E & Ht'). rewrite E.
    change (chr ((QUOTE :: p) ++ RBRACE :: rest) 0 =? RBRACE) with false. cbv iota.
    rewrite <- (skip_idem (ts ++ RBRACE :: rest)) in E. rewrite <- E at 2.
    rewrite E. replace ((QUOTE :: p) ++ RBRACE :: rest) with (SKIP_WHITESPACE ((QUOTE :: p) ++ RBRACE :: rest)) at 2
      by (apply skip_ws_stops; done).
    rewrite (object_loop_complete _ _ ms) by (done || (rewrite length_app; simpl; lia)). run.
    unfold json_new, members_els. by destruct obj.
Qed.

Lemma parse_object_sound (s : list Z) :
  exists r, json_parse_object obj V (LBRACE :: s) = Ret r /\
    forall v rest, r = Parsed v rest -> exists t x, s = t ++ rest /\ jcontainer P (LBRACE :: t) x /\ v = json_new obj x.
Proof.
  unfold json_parse_object. rewrite start_ws by done. cbn [tail]. destruct (skip_ws_split s) as (w & E & Hw).
  destruct (Z.eqb_spec (chr (SKIP_WHITESPACE s) 0) RBRACE) as [Hc | Hc].
  - eexists. split; [done|]. intros v rest [= <- <-]. exists (w ++ [RBRACE]), (JObject []).
    apply chr_head in Hc; [|done]. flat_app. split_and!; [congruence|by constructor|done].
  - destruct (object_loop_sound (S (length (SKIP_WHITESPACE s))) (SKIP_WHITESPACE s) []) as (r & Er & Hr); [lia|].
    rewrite skip_idem in Er. rewrite Er. run.
    destruct r as [m p | els q]; (eexists; split; [done|]); [discriminate|].
    intros v rest [= <- <-]. destruct (Hr _ _ eq_refl) as (ts & ms & Es & Hj & ->).
    exists ((w ++ ts) ++ [RBRACE]), (JObject (members_els ms)). flat_app. rewrite <- Es. split_and!; [done| |].
    + rewrite app_assoc. apply jcontainer_object. by apply jmembers_ws.
    + unfold json_new, members_els. by destruct obj.
Qed.
End Container.

(* ------------------------------------------------------------------ *)
(** ** Values and documents *)

Section Document.
  Context {double : Type} (atof num : list Z -> double) (obj : bool).
  Hypothesis atof_delimited : obj = true ->
    forall t rest, jnumber t -> json_delimited rest -> atof (t ++ rest) = num t.
  Notation jobj := (jsonobj double).
  Notation value := (json_parse_value atof).

Lemma jcontainer_start (P : list Z -> jobj -> Prop) (t : list Z) (x : jobj) : jcontainer P t x ->
  exists t', (t = LBRACKET :: t' \/ t = LBRACE :: t').
Proof. destruct 1; eauto. Qed.

Lemma digit_cases (c : Z) : isdigit c || (c =? (ch "-")) = true ->
  is_json_ws c = false /\ c <> 0 /\ c <> QUOTE /\ c <> LBRACE /\ c <> LBRACKET /\ c <> RBRACKET /\
  c <> (ch "t") /\ c <> (ch "f") /\ c <> (ch "n").
Proof. unfold isdigit, is_json_ws. lia. Qed.

Lemma jvalue_start (n : nat) (t : list Z) (x : jobj) : jvalue num n t x ->
  exists c t', t = c :: t' /\ is_json_ws c = false /\ c <> RBRACKET.
Proof.
  destruct n as [|n]; [done|]. destruct 1 as [raw s H | t H | | | | t x H]; [eexists _, _; done| |eexists _, _; done..|].
  - apply jnumber_start in H as (c & t' & -> & H). exists c, t'.
    destruct (digit_cases c) as (Hc & _ & _ & _ & _ & Hr & _); [by rewrite orb_true_iff, Z.eqb_eq | done].
  - apply jcontainer_start in H as (t' & [-> | ->]); eexists _, _; done.
Qed.

(** One level of json_parse_value, for a right parser of the level below. *)
Lemma value_step_complete (n fuel : nat) (d : Z) (w t rest : list Z) (x : jobj) :
  value_parser obj (value fuel obj (d + 1)) (jvalue num n) -> d <= 64 ->
  json_ws w -> jvalue num (S n) t x -> json_delimited rest ->
  value (S fuel) obj d (w ++ t ++ rest) = Ret (Parsed (json_new obj x) rest).
Proof.
  intros HV Hd Hw Ht Hr. cbn [json_parse_value]. rewrite (proj2 (Z.ltb_ge _ _)) by (unfold ZBX_MAX_JSON_DEPTH; lia).
  destruct (jvalue_start _ _ _ Ht) as (c & t' & -> & Hc & _). rewrite skip_ws_app by done.
  cbn [app]. rewrite start_ws by done. change (chr (c :: t' ++ rest) 0) with c.
  inversion Ht as [raw s H | ? H | | | | ? ? H]; subst; try (cbn; done).
  - flat_app. cbn -[json_parse_string]. rewrite (json_parse_string_complete obj raw s) by done. run. by destruct obj.
  - destruct (jnumber_start _ H) as (c' & t'' & [= <- <-] & Hn).
    assert (Hdig : isdigit c || (c =? (ch "-")) = true) by (rewrite orb_true_iff, Z.eqb_eq; done).
    destruct (digit_cases c Hdig) as (_ & H0 & H1 & H2 & H3 & _ & H4 & H5 & H6).
    repeat match goal with H : c <> ?k |- _ => rewrite (proj2 (Z.eqb_neq c k) H); clear H end. rewrite Hdig. f_equal.
    apply (parse_number_complete atof num obj atof_delimited (c :: t') rest); done.
  - destruct (jcontainer_start _ _ _ H) as (t'' & [[= -> ->] | [= -> ->]]).
    + by apply (parse_array_complete obj _ _ HV).
    + by apply (parse_object_complete obj _ _ HV).
Qed.

Lemma value_step_total (n fuel : nat) (d : Z) (s : list Z) :
  value_parser obj (value fuel obj (d + 1)) (jvalue num n) ->
  exists r, value (S fuel) obj d s = Ret r.
Proof.
  intros HV. cbn [json_parse_value]. destruct (_ <? d); [eauto|].
  destruct (chr (SKIP_WHITESPACE s) 0 =? 0) eqn:H0; [eauto|].
  assert (E : forall c, c <> 0 -> (chr (SKIP_WHITESPACE s) 0 =? c) = true -> SKIP_WHITESPACE s = c :: tail (SKIP_WHITESPACE s)).
  { intros c Hc Hs. apply chr_head; [lia|done]. }
  destruct (_ =? QUOTE) eqn:H1.
  { rewrite (E QUOTE ltac:(done) H1). destruct (json_parse_string_sound obj (tail (SKIP_WHITESPACE s))) as ([|] & -> & _); run; eauto. }
  destruct (_ =? LBRACE) eqn:H2.
  { rewrite (E LBRACE ltac:(done) H2). destruct (parse_object_sound obj _ _ HV (tail (SKIP_WHITESPACE s))) as (r & -> & _). eauto. }
  destruct (_ =? LBRACKET) eqn:H3.
  { rewrite (E LBRACKET ltac:(done) H3). destruct (parse_array_sound obj _ _ HV (tail (SKIP_WHITESPACE s))) as (r & -> & _). eauto. }
  repeat case_match; eauto.
Qed.

Lemma value_step_sound (n fuel : nat) (d : Z) (s rest : list Z) (v : option jobj) :
  value_parser obj (value fuel obj (d + 1)) (jvalue num n) ->
  value (S fuel) obj d s = Ret (Parsed v rest) -> json_delimited rest ->
  d <= 64 /\ exists w t x, s = w ++ t ++ rest /\ json_ws w /\ jvalue num (S n) t x /\ v = json_new obj x.
Proof.
  intros HV. cbn [json_parse_value]. unfold ZBX_MAX_JSON_DEPTH. destruct (Z.ltb_spec 64 d) as [|Hle]; [discriminate|].
  destruct (skip_ws_split s) as (w & Es & Hw). revert Es. generalize (SKIP_WHITESPACE s). intros p Es H Hd. split; [done|].
  assert (exists t x, p = t ++ rest /\ jvalue num (S n) t x /\ v = json_new obj x) as (t & x & -> & Ht);
    [|exists w, t, x; tauto].
  clear Es Hw. revert H.
  destruct (chr p 0 =? 0) eqn:H0; [discriminate|].
  assert (E : forall c, c <> 0 -> (chr p 0 =? c) = true -> p = c :: tail p).
  { intros c Hc Hs. apply chr_head; [lia|done]. }
  destruct (_ =? QUOTE) eqn:H1.
  { rewrite (E QUOTE ltac:(done) H1). destruct (json_parse_string_sound obj (tail p)) as ([|str q] & -> & Hs); [discriminate|].
    run. intros [= <- <-]. destruct (Hs _ _ eq_refl) as (raw & dec & -> & Hj & ->).
    exists (QUOTE :: raw ++ [QUOTE]), (JString (cstr dec)). flat_app. split_and!; [done|by constructor|by destruct obj]. }
  destruct (_ =? LBRACE) eqn:H2.
  { rewrite (E LBRACE ltac:(done) H2). destruct (parse_object_sound obj _ _ HV (tail p)) as (r & -> & Hs).
    intros [= ->]. destruct (Hs _ _ eq_refl) as (t & x & -> & Hj & ->). exists (LBRACE :: t), x. split_and!; [done|by constructor|done]. }
  destruct (_ =? LBRACKET) eqn:H3.
  { rewrite (E LBRACKET ltac:(done) H3). destruct (parse_array_sound obj _ _ HV (tail p)) as (r & -> & Hs).
    intros [= ->]. destruct (Hs _ _ eq_refl) as (t & x & -> & Hj & ->). exists (LBRACKET :: t), x. split_and!; [done|by constructor|done]. }
  repeat match goal with |- (if _ =? ?k then Ret (json_parse_literal _ _ ?t ?x) else _) = _ -> _ =>
    destruct (_ =? k); [intros [= H']; apply parse_literal_sound in H' as [-> ->]; exists t, x; split_and!; [done|constructor|done]|]
  end.
  destruct (_ || _); [|discriminate]. intros [= H'].
  apply (parse_number_sound atof num obj atof_delimited) in H' as (t & -> & Ht & ->); [|done].
  exists t, (JNumber (num t)). split_and!; [done|by constructor|done].
Qed.

(** At a depth that leaves [n] levels, one unit of fuel more is enough. *)
Lemma json_value_parser (n : nat) : value_parser obj (value (S n) obj (65 - Z.of_nat n)) (jvalue num n).
Proof.
  induction n as [|n IH].
  - split; [by eexists|done|discriminate|done].
  - replace (65 - Z.of_nat n) with (65 - Z.of_nat (S n) + 1) in IH by lia. split.
    + intros s. by eapply value_step_total.
    + apply jvalue_start.
    + intros s v rest H Hd. by destruct (value_step_sound _ _ _ _ _ _ IH H Hd) as [_ ?].
    + intros w t x rest. apply value_step_complete; [done|lia].
Qed.

Lemma json_value_parser_0 : value_parser obj (json_parse_value_at atof obj 0) (jvalue num 65).
Proof. exact (json_value_parser 65). Qed.

Lemma parse_document_complete (t rest : list Z) (x : jobj) : jdocument num t x ->
  json_parse_document atof obj (t ++ rest) = Ret (Parsed (json_new obj x) rest).
Proof.
  intros Ht. destruct (jcontainer_start _ _ _ Ht) as (t' & [-> | ->]).
  - exact (parse_array_complete obj _ _ json_value_parser_0 t' rest x Ht).
  - exact (parse_object_complete obj _ _ json_value_parser_0 t' rest x Ht).
Qed.

Lemma parse_document_sound (s : list Z) :
  exists r, json_parse_document atof obj s = Ret r /\
    forall v rest, r = Parsed v rest -> exists t x, s = t ++ rest /\ jdocument num t x /\ v = json_new obj x.
Proof.
  unfold json_parse_document. destruct (chr s 0 =? LBRACE) eqn:H1; [|destruct (chr s 0 =? LBRACKET) eqn:H2].
  - rewrite (chr_head s LBRACE) by (done || lia).
    destruct (parse_object_sound obj _ _ json_value_parser_0 (tail s)) as (r & -> & Hr). eexists. split; [done|].
    intros v rest ->. destruct (Hr _ _ eq_refl) as (t & x & -> & H). by exists (LBRACE :: t), x.
  - rewrite (chr_head s LBRACKET) by (done || lia).
    destruct (parse_array_sound obj _ _ json_value_parser_0 (tail s)) as (r & -> & Hr). eexists. split; [done|].
    intros v rest ->. destruct (Hr _ _ eq_refl) as (t & x & -> & H). by exists (LBRACKET :: t), x.
  - eexists. split; [done|discriminate].
Qed.
End Document.

(** A text of white space, a document and white space. *)
Definition json_text_of {double : Type} (num : list Z -> double) (s t : list Z) (x : jsonobj double) : Prop :=
  exists w1 w2, s = w1 ++ t ++ w2 /\ json_ws w1 /\ jdocument num t x /\ json_ws w2.

Lemma jdocument_stops {double : Type} (num : list Z -> double) (t rest : list Z) (x : jsonobj double) :
  jdocument num t x -> json_stops is_json_ws (t ++ rest).
Proof. intros H. by destruct (jcontainer_start _ _ _ H) as (t' & [-> | ->]). Qed.

Lemma skip_ws_nil (w : list Z) : json_ws w -> SKIP_WHITESPACE w = [].
Proof. intros Hw. rewrite <- (app_nil_r w). by rewrite skip_ws_app. Qed.

Lemma no_nul_end (s : list Z) : c_string s -> chr s 0 = 0 -> s = [].
Proof. destruct 1 as [|c s Hc _]; [done|]. unfold chr. simpl. lia. Qed.

Lemma skip_ws_end (s : list Z) : c_string s -> chr (SKIP_WHITESPACE s) 0 = 0 -> json_ws s.
Proof.
  intros Hs H. destruct (skip_ws_split s) as (w & E & Hw). rewrite E in Hs. apply Forall_app in Hs as [_ Hs].
  apply (no_nul_end _ Hs) in H. rewrite H, app_nil_r in E. by rewrite E.
Qed.
