(* ===== verification/JsonWriter.v ===== *)
(** The JSON writer (struct zbx_json, src/src/libs/zbxjson/json.c): a buffer
    that holds a text with all its open levels closed, and the position before
    the closing brackets where the next value goes.
    A cell of the buffer is a byte or, where nothing has been written since it
    was allocated, [None].  An access outside the buffer is undefined.  malloc
    and realloc succeed, as zbx_malloc and zbx_realloc exit otherwise. *)

From stdpp Require Import base list numbers strings.
From Stdlib Require Import ZArith Lia.
From S2P Require Import Prelude JsonString.
Import CharConst.

Open Scope Z_scope.

Inductive zbx_json_status_t := ZBX_JSON_EMPTY | ZBX_JSON_COMMA.

#[export] Instance zbx_json_status_eq_dec : EqDecision zbx_json_status_t.
Proof. solve_decision. Defined.

Definition ZBX_JSON_STAT_BUF_LEN : Z := 4096.

Notation cells := (list (option Z)).

(** [buffer] is the memory that [j->buffer] points to, [is_stat] tells that it
    is [j->buf_stat]. *)
Record zbx_json := {
  buffer : option cells;
  is_stat : bool;
  buffer_allocated : Z;
  buffer_offset : Z;
  buffer_size : Z;
  status : zbx_json_status_t;
  level : Z
}.

Definition uninit (n : Z) : cells := replicate (Z.to_nat n) None.

(** [n] cells at [p]. *)
Definition read_cells (b : cells) (p n : Z) : res cells :=
  if (0 <=? p) && (0 <=? n) && (p + n <=? Z.of_nat (length b))
  then Ret (take (Z.to_nat n) (drop (Z.to_nat p) b)) else Undef.

Definition write_cells (b : cells) (p : Z) (x : cells) : res cells :=
  if (0 <=? p) && (p + Z.of_nat (length x) <=? Z.of_nat (length b))
  then Ret (take (Z.to_nat p) b ++ x ++ drop (Z.to_nat p + length x) b) else Undef.

Definition write_bytes (b : cells) (p : Z) (x : list Z) : res cells := write_cells b p (Some <$> x).

Definition memmove (b : cells) (pdst psrc n : Z) : res cells := x ← read_cells b psrc n; write_cells b pdst x.

(** The loop that grows the size; [size_t] arithmetic wraps. *)
Definition grow_body (need : Z) (allocated : Z) : res (Z + Z) :=
  if allocated <? need then Ret (inl (if allocated =? 0 then 1024 else u64 (allocated * 2))) else Ret (inr allocated).

Definition grow (need allocated : Z) : res Z := while 7 (grow_body need) allocated.

Definition __zbx_json_realloc (j : zbx_json) (need : Z) : res zbx_json :=
  let with_buffer b stat allocated :=
    {| buffer := Some b; is_stat := stat; buffer_allocated := allocated; buffer_offset := buffer_offset j;
       buffer_size := buffer_size j; status := status j; level := level j |} in
  match buffer j with
  | None =>
      if ZBX_JSON_STAT_BUF_LEN <? need then Ret (with_buffer (uninit need) false need)
      else Ret (with_buffer (uninit ZBX_JSON_STAT_BUF_LEN) true ZBX_JSON_STAT_BUF_LEN)
  | Some b =>
      allocated ← grow need (buffer_allocated j);
      if allocated =? buffer_allocated j then Ret j else
      if is_stat j then
        stat ← read_cells b 0 ZBX_JSON_STAT_BUF_LEN;
        b' ← write_cells (uninit allocated) 0 stat;
        Ret (with_buffer b' false allocated)
      else
        let kept := take (Z.to_nat allocated) b in
        Ret (with_buffer (kept ++ uninit (allocated - Z.of_nat (length kept))) false allocated)
  end.

(** The comma and the name that go before a value. *)
Definition json_prefix_size (j : zbx_json) (name : option (list Z)) : Z :=
  (if decide (status j = ZBX_JSON_COMMA) then 1 else 0) +
  match name with
  | None => 0
  | Some _ => __zbx_json_stringsize name ZBX_JSON_TYPE_STRING + 1
  end.

Definition json_prefix (j : zbx_json) (name : option (list Z)) : list Z :=
  (if decide (status j = ZBX_JSON_COMMA) then [COMMA] else []) ++
  match name with
  | None => []
  | Some _ => __zbx_json_insstring name ZBX_JSON_TYPE_STRING ++ [COLON]
  end.

(** What every operation that adds a value does: reserve [len] bytes, move the
    closing brackets up by as much and write from the offset on.  The result is
    the new memory and the pointer after the bytes written. *)
Definition json_insert (j : zbx_json) (len : Z) (text : list Z) : res (zbx_json * cells * Z) :=
  j ← __zbx_json_realloc j (buffer_size j + len + 1);
  match buffer j with
  | None => Undef
  | Some b =>
      b ← memmove b (buffer_offset j + len) (buffer_offset j) (buffer_size j - buffer_offset j + 1);
      b ← write_bytes b (buffer_offset j) text;
      Ret (j, b, buffer_offset j + Z.of_nat (length text))
  end.

Definition __zbx_json_addobject (j : zbx_json) (name : option (list Z)) (object : bool) : res zbx_json :=
  let len := 2 + json_prefix_size j name in
  let text := json_prefix j name ++ [if object then LBRACE else LBRACKET; if object then RBRACE else RBRACKET] in
  '(j, b, p) ← json_insert j len text;
  Ret {| buffer := Some b; is_stat := is_stat j; buffer_allocated := buffer_allocated j;
         buffer_offset := p - 1; buffer_size := buffer_size j + len;
         status := ZBX_JSON_EMPTY; level := level j + 1 |}.

Definition zbx_json_addobject (j : zbx_json) (name : option (list Z)) : res zbx_json := __zbx_json_addobject j name true.
Definition zbx_json_addarray (j : zbx_json) (name : option (list Z)) : res zbx_json := __zbx_json_addobject j name false.

(** After a value: the position is behind it and the next one needs a comma. *)
Definition json_added (j : zbx_json) (b : cells) (p len : Z) : zbx_json :=
  {| buffer := Some b; is_stat := is_stat j; buffer_allocated := buffer_allocated j;
     buffer_offset := p; buffer_size := buffer_size j + len; status := ZBX_JSON_COMMA; level := level j |}.

(** With the length of the whole value. *)
Definition zbx_json_addstring_limit (j : zbx_json) (name string : option (list Z)) (type : zbx_json_type_t) (max_size : Z)
    : res (zbx_json * Z) :=
  '(size, orig_len, str_len) ← __zbx_json_stringsize_limit string type max_size;
  let len := json_prefix_size j name + size in
  '(j, b, p) ← json_insert j len (json_prefix j name ++ __zbx_json_insstring_limit string type str_len);
  Ret (json_added j b p len, orig_len).

Definition zbx_json_addstring (j : zbx_json) (name string : option (list Z)) (type : zbx_json_type_t) : res zbx_json :=
  '(j, _) ← zbx_json_addstring_limit j name string type 0; Ret j.

Definition zbx_json_addraw (j : zbx_json) (name : option (list Z)) (data : list Z) : res zbx_json :=
  let len := json_prefix_size j name + Z.of_nat (length data) in
  '(j, b, p) ← json_insert j len (json_prefix j name ++ data);
  Ret (json_added j b p len).

(** The digits that printf gives for an unsigned and a signed integer. *)
Fixpoint decimal_loop (fuel : nat) (n : Z) : list Z :=
  match fuel with
  | O => []
  | S fuel => if n <? 10 then [(ch "0") + n] else decimal_loop fuel (n / 10) ++ [(ch "0") + n mod 10]
  end.

Definition decimal (n : Z) : list Z := decimal_loop 20 n.
Definition decimal_signed (n : Z) : list Z := if n <? 0 then (ch "-") :: decimal (- n) else decimal n.

Definition zbx_json_adduint64 (j : zbx_json) (name : option (list Z)) (value : Z) : res zbx_json :=
  zbx_json_addstring j name (Some (decimal value)) ZBX_JSON_TYPE_INT.

Definition zbx_json_addint64 (j : zbx_json) (name : option (list Z)) (value : Z) : res zbx_json :=
  zbx_json_addstring j name (Some (decimal_signed value)) ZBX_JSON_TYPE_INT.

(** [None] is FAIL, with the state as it was. *)
Definition zbx_json_close (j : zbx_json) : option zbx_json :=
  if level j =? 1 then None else
  Some {| buffer := buffer j; is_stat := is_stat j; buffer_allocated := buffer_allocated j;
          buffer_offset := buffer_offset j + 1; buffer_size := buffer_size j;
          status := ZBX_JSON_COMMA; level := level j - 1 |}.

(** [*j->buffer = '\0'] and the counters of an empty text. *)
Definition zbx_json_setempty (j : zbx_json) : res zbx_json :=
  match buffer j with
  | None => Undef
  | Some b =>
      b ← write_bytes b 0 [0];
      Ret {| buffer := Some b; is_stat := is_stat j; buffer_allocated := buffer_allocated j; buffer_offset := 0;
             buffer_size := 0; status := ZBX_JSON_EMPTY; level := 0 |}
  end.

Definition json_no_buffer : zbx_json :=
  {| buffer := None; is_stat := false; buffer_allocated := 0; buffer_offset := 0; buffer_size := 0;
     status := ZBX_JSON_EMPTY; level := 0 |}.

Definition zbx_json_init (allocate : Z) : res zbx_json :=
  j ← __zbx_json_realloc json_no_buffer allocate; j ← zbx_json_setempty j; zbx_json_addobject j None.

Definition zbx_json_initarray (allocate : Z) : res zbx_json :=
  j ← __zbx_json_realloc json_no_buffer allocate; j ← zbx_json_setempty j; zbx_json_addarray j None.

Definition zbx_json_clean (j : zbx_json) : res zbx_json := j ← zbx_json_setempty j; zbx_json_addobject j None.

(** [while (' ' == *ptr && ptr > j->buffer) ptr--] *)
Fixpoint skip_spaces_back (fuel : nat) (b : cells) (ptr : Z) : res Z :=
  match fuel with
  | O => NoFuel
  | S fuel =>
      c ← read_cells b ptr 1;
      if bool_decide (c = [Some 32]) && (0 <? ptr) then skip_spaces_back fuel b (ptr - 1) else Ret ptr
  end.

(** The text of [src] with the position before its last character. *)
Definition zbx_json_init_with (src : option (list Z)) : res zbx_json :=
  match src with
  | None => zbx_json_init ZBX_JSON_STAT_BUF_LEN
  | Some src =>
      let len := Z.of_nat (length src) in
      j ← __zbx_json_realloc json_no_buffer (len + 1);
      match buffer j with
      | None => Undef
      | Some b =>
          b ← write_bytes b 0 (src ++ [0]);
          ptr ← skip_spaces_back (S (length src)) b (len - 2);
          c ← read_cells b ptr 1;
          Ret {| buffer := Some b; is_stat := is_stat j; buffer_allocated := buffer_allocated j;
                 buffer_offset := len - 1; buffer_size := len;
                 status := if bool_decide (c = [Some LBRACE]) then ZBX_JSON_EMPTY else ZBX_JSON_COMMA; level := 1 |}
      end
  end.

(** The copy of a buffer on the heap has the text without its NUL. *)
Definition zbx_json_clone (src : zbx_json) : res zbx_json :=
  match buffer src with
  | None => Undef
  | Some b =>
      if is_stat src then Ret src else
      text ← read_cells b 0 (buffer_size src);
      b' ← write_cells (uninit (buffer_allocated src)) 0 text;
      Ret {| buffer := Some b'; is_stat := false; buffer_allocated := buffer_allocated src;
             buffer_offset := buffer_offset src; buffer_size := buffer_size src;
             status := status src; level := level src |}
  end.

(** The C string in the buffer. *)
Fixpoint cells_string (b : cells) : res (list Z) :=
  match b with
  | [] | None :: _ => Undef
  | Some c :: b => if c =? 0 then Ret [] else s ← cells_string b; Ret (c :: s)
  end.

Definition json_buffer_text (j : zbx_json) : res (list Z) :=
  match buffer j with
  | None => Undef
  | Some b => cells_string b
  end.
