(* ===== verification/JsonBuffer.v ===== *)
(** The buffer of the JSON writer: what each operation of JsonWriter.v leaves in
    memory.  [holds j before after] says that the buffer has the text [before]
    up to the position of the next value, the closing brackets [after] behind
    it, and the NUL; every operation keeps this, inside the buffer. *)

From stdpp Require Import base list numbers strings.
From Stdlib Require Import ZArith Lia.
From S2P Require Import Prelude JsonString JsonWriter.
Import CharConst.

Open Scope Z_scope.

(* ------------------------------------------------------------------ *)
(** ** Cells *)

Lemma read_cells_app (x y z : cells) (p n : Z) :
  p = Z.of_nat (length x) -> n = Z.of_nat (length y) -> read_cells (x ++ y ++ z) p n = Ret y.
Proof.
  intros -> ->. unfold read_cells. rewrite !length_app, !(proj2 (Z.leb_le _ _)) by lia. cbn [andb].
  rewrite !Nat2Z.id, drop_app_length, take_app_length. done.
Qed.

Lemma write_cells_app (x y z w : cells) (p : Z) :
  p = Z.of_nat (length x) -> length w = length y -> write_cells (x ++ y ++ z) p w = Ret (x ++ w ++ z).
Proof.
  intros -> Hw. unfold write_cells. rewrite !length_app, !(proj2 (Z.leb_le _ _)) by lia. cbn [andb].
  rewrite Nat2Z.id, take_app_length, Hw. do 3 f_equal.
  rewrite app_assoc. rewrite <- length_app. apply drop_app_length.
Qed.

(** Moving the cells [a] up by the length of the gap. *)
Lemma memmove_gap (x a junk : cells) (p len n : Z) :
  p = Z.of_nat (length x) -> n = Z.of_nat (length a) -> 0 <= len <= Z.of_nat (length junk) ->
  exists gap junk', memmove (x ++ a ++ junk) (p + len) p n = Ret (x ++ gap ++ a ++ junk') /\
    Z.of_nat (length gap) = len /\ length (x ++ gap ++ a ++ junk') = length (x ++ a ++ junk).
Proof.
  intros Hp Hn Hl. unfold memmove. rewrite (read_cells_app x a junk) by done. run.
  set (k := Z.to_nat len). exists (take k (a ++ junk)), (drop k junk).
  assert (Ht : length (take k (a ++ junk)) = k) by (rewrite length_take, length_app; lia).
  assert (E : x ++ a ++ junk = (x ++ take k (a ++ junk)) ++ take (length a) (drop k (a ++ junk)) ++ drop k junk).
  { rewrite <- app_assoc. f_equal. rewrite <- (take_drop k (a ++ junk)) at 1. f_equal.
    rewrite <- (take_drop (length a) (drop k (a ++ junk))) at 1. f_equal.
    rewrite drop_drop, drop_app_ge by lia. f_equal. lia. }
  split_and!; [|lia|].
  - rewrite E at 1. rewrite write_cells_app, <- app_assoc; [done| |].
    + rewrite length_app, Ht. lia.
    + rewrite length_take, length_drop, length_app. lia.
  - rewrite !length_app, Ht, length_drop. lia.
Qed.

Lemma cells_string_app (s : list Z) (junk : cells) : c_string s -> cells_string ((Some <$> s ++ [0]) ++ junk) = Ret s.
Proof.
  induction 1 as [|c s Hc _ IH]; [done|].
  change (cells_string (Some c :: (Some <$> s ++ [0]) ++ junk) = Ret (c :: s)). cbn [cells_string].
  rewrite (proj2 (Z.eqb_neq _ _)) by lia. by rewrite IH.
Qed.

(* ------------------------------------------------------------------ *)
(** ** The invariant *)

Definition holds (j : zbx_json) (before after : list Z) : Prop :=
  exists junk, buffer j = Some ((Some <$> before ++ after ++ [0]) ++ junk) /\
    buffer_allocated j = Z.of_nat (length ((Some <$> before ++ after ++ [0]) ++ junk)) /\
    buffer_offset j = Z.of_nat (length before) /\
    buffer_size j = Z.of_nat (length (before ++ after)) /\
    (is_stat j = true -> buffer_allocated j = ZBX_JSON_STAT_BUF_LEN).

Definition JSON_MAX_SIZE : Z := 2 ^ 62.

Lemma holds_text (j : zbx_json) (before after : list Z) :
  holds j before after -> c_string (before ++ after) -> json_buffer_text j = Ret (before ++ after).
Proof.
  intros (junk & Hb & _) Hs. unfold json_buffer_text. rewrite Hb. rewrite (app_assoc before). by apply cells_string_app.
Qed.

(** Doubling reaches any size below 2^62 without wrapping around. *)
Lemma grow_spec (need allocated : Z) : 0 < allocated -> need <= JSON_MAX_SIZE ->
  exists v, grow need allocated = Ret v /\ need <= v /\ allocated <= v.
Proof.
  intros Ha Hn. unfold grow, JSON_MAX_SIZE in *.
  apply (while_spec _ (fun a => 0 < a /\ allocated <= a) (fun v => need <= v /\ allocated <= v)
           (fun a => Z.max 0 (62 - Z.log2 a))); [|lia|].
  - intros a [H0 Hle]. unfold grow_body. destruct (Z.ltb_spec a need); [left | right; exists a; split; [done|lia]].
    rewrite (proj2 (Z.eqb_neq _ _)) by lia. exists (a * 2). rewrite u64_small by lia.
    assert (Z.log2 a < 62) by (apply Z.log2_lt_pow2; lia).
    rewrite Z.mul_comm, Z.log2_double by lia. split_and!; [done|lia..].
  - pose proof (Z.log2_nonneg allocated). change (2 ^ Z.of_nat 7) with 128. lia.
Qed.

Lemma length_uninit (n : Z) : length (uninit n) = Z.to_nat n.
Proof. apply length_replicate. Qed.

Definition same_control (j j' : zbx_json) : Prop :=
  buffer_size j' = buffer_size j /\ buffer_offset j' = buffer_offset j /\ status j' = status j /\ level j' = level j.

Lemma realloc_holds (j : zbx_json) (before after : list Z) (need : Z) :
  holds j before after -> need <= JSON_MAX_SIZE ->
  exists j', __zbx_json_realloc j need = Ret j' /\ holds j' before after /\ need <= buffer_allocated j' /\ same_control j j'.
Proof.
  intros (junk & Hb & Ha & Ho & Hs & Hstat) Hn. unfold __zbx_json_realloc. rewrite Hb.
  set (text := Some <$> before ++ after ++ [0]) in *.
  assert (Htl : Z.of_nat (length text) = buffer_size j + 1).
  { unfold text. rewrite length_fmap, !length_app. rewrite length_app in Hs. simpl. lia. }
  destruct (grow_spec need (buffer_allocated j)) as (v & -> & Hv1 & Hv2); [rewrite Ha, length_app; lia|done|]. run.
  destruct (Z.eqb_spec v (buffer_allocated j)) as [-> | Hne].
  { exists j. split_and!; [done| |done|done]. by exists junk. }
  destruct (is_stat j) eqn:Est.
  - specialize (Hstat eq_refl).
    pose proof (read_cells_app [] (text ++ junk) [] 0 ZBX_JSON_STAT_BUF_LEN eq_refl ltac:(lia)) as Er.
    rewrite app_nil_r in Er. cbn [app] in Er. rewrite Er.
    run.
    assert (Hu : uninit v = replicate (length (text ++ junk)) None ++ uninit (v - 4096)).
    { unfold uninit. rewrite <- replicate_add. f_equal. unfold ZBX_JSON_STAT_BUF_LEN in *. lia. }
    pose proof (write_cells_app [] _ (uninit (v - 4096)) (text ++ junk) 0 eq_refl (eq_sym (length_replicate _ None))) as Ew.
    cbn [app] in Ew. rewrite Hu, Ew. run.
    eexists. split_and!; [done| |done|done].
    exists (junk ++ uninit (v - 4096)). cbn [buffer buffer_allocated buffer_offset buffer_size is_stat]. rewrite app_assoc. split_and!; [done| |done|done|done].
    rewrite length_app, length_uninit. unfold ZBX_JSON_STAT_BUF_LEN in *. subst text. lia.
  - eexists. split_and!; [done| |done|done].
    rewrite take_ge by lia. exists (junk ++ uninit (v - buffer_allocated j)). cbn [buffer buffer_allocated buffer_offset buffer_size is_stat].
    rewrite app_assoc, <- Ha. split_and!; [done| |done|done|done].
    rewrite length_app, length_uninit. subst text. lia.
Qed.

(** The common part: [text] goes between [before] and [after]. *)
Lemma insert_holds (j : zbx_json) (before after text : list Z) (len : Z) :
  holds j before after -> len = Z.of_nat (length text) -> buffer_size j + len + 1 <= JSON_MAX_SIZE ->
  exists j' b junk, json_insert j len text = Ret (j', b, Z.of_nat (length (before ++ text))) /\ same_control j j' /\
    b = (Some <$> (before ++ text) ++ after ++ [0]) ++ junk /\ buffer_allocated j' = Z.of_nat (length b) /\
    (is_stat j' = true -> buffer_allocated j' = ZBX_JSON_STAT_BUF_LEN).
Proof.
  intros Hh Hl Hn. destruct (realloc_holds j before after (buffer_size j + len + 1) Hh Hn) as (j' & E & Hh' & Hroom & Hsame).
  unfold json_insert. rewrite E. run. destruct Hh' as (junk & Hb & Ha & Ho & Hs & Hstat).
  destruct Hsame as (Es & Eo & Est & Elv). rewrite Hb.
  rewrite Ho, Hs. rewrite fmap_app, <- app_assoc. rewrite fmap_app, <- app_assoc in Ha.
  rewrite !length_app, !length_fmap, length_app in Ha. simpl in Ha. rewrite length_app in Hs.
  destruct (memmove_gap (Some <$> before) (Some <$> after ++ [0]) junk (Z.of_nat (length before)) len
    (Z.of_nat (length (before ++ after)) - Z.of_nat (length before) + 1)) as (gap & junk' & -> & Hgap & Hlen).
  { by rewrite length_fmap. }
  { rewrite length_fmap, !length_app. simpl. lia. }
  { lia. }
  run. unfold write_bytes. rewrite (write_cells_app _ gap) by (rewrite length_fmap; lia). run.
  exists j', ((Some <$> before) ++ (Some <$> text) ++ (Some <$> after ++ [0]) ++ junk'), junk'.
  split_and!; try done.
  - by rewrite length_app, Nat2Z.inj_add.
  - by rewrite !fmap_app, <- !app_assoc.
  - rewrite !length_app, !length_fmap, !length_app in *. simpl in *. lia.
Qed.

(* ------------------------------------------------------------------ *)
(** ** The operations *)

Lemma prefix_exact (j : zbx_json) (name : option (list Z)) : json_prefix_size j name = Z.of_nat (length (json_prefix j name)).
Proof.
  unfold json_prefix_size, json_prefix. rewrite length_app, Nat2Z.inj_add. f_equal; [by destruct (decide _)|].
  destruct name as [name|]; [|done]. rewrite stringsize_exact, length_app. simpl. lia.
Qed.

Lemma prefix_status (j j' : zbx_json) (name : option (list Z)) : status j' = status j -> json_prefix j' name = json_prefix j name.
Proof. unfold json_prefix. by intros ->. Qed.

(** The size of a value never counts less than the bytes it is written as. *)
Definition string_fits (string : option (list Z)) (type : zbx_json_type_t) (max_size : Z) : Prop :=
  max_size = 0 \/ (6 <= max_size /\ exists s, string = Some s /\ c_string s /\ utf8_sequences s).

(** The text of the value that zbx_json_addstring_limit adds. *)
Definition limited_text (string : option (list Z)) (type : zbx_json_type_t) (max_size : Z) : list Z :=
  match __zbx_json_stringsize_limit string type max_size with
  | Ret (_, _, str_len) => __zbx_json_insstring_limit string type str_len
  | _ => []
  end.

Lemma stringsize_nolimit (string : option (list Z)) (type : zbx_json_type_t) :
  __zbx_json_stringsize_limit string type 0 =
  Ret (Z.of_nat (length (__zbx_json_insstring string type)), escape_size (json_text string), 0).
Proof.
  rewrite <- stringsize_exact. unfold __zbx_json_stringsize_limit, __zbx_json_stringsize.
  by destruct (stringsize_loop_spec 0 0 0 (json_text string)) as [[-> _] | (? & ? & ? & _ & ? & _)]; [left| |].
Qed.

Lemma limited_text_nolimit (string : option (list Z)) (type : zbx_json_type_t) :
  limited_text string type 0 = __zbx_json_insstring string type.
Proof. unfold limited_text. by rewrite stringsize_nolimit. Qed.

Lemma string_fits_size (string : option (list Z)) (type : zbx_json_type_t) (max_size : Z) :
  string_fits string type max_size ->
  exists k, __zbx_json_stringsize_limit string type max_size =
      Ret (Z.of_nat (length (limited_text string type max_size)), escape_size (json_text string), k) /\
    limited_text string type max_size = __zbx_json_insstring_limit string type k.
Proof.
  intros [-> | (Hm & s & -> & Hs & Hu)].
  - exists 0. by rewrite limited_text_nolimit, stringsize_nolimit.
  - destruct (stringsize_limit_exact s type max_size Hs Hu (or_intror Hm)) as (k & E & _).
    exists (Z.of_nat k). unfold limited_text. by rewrite E.
Qed.

Lemma addobject_holds (j : zbx_json) (before after : list Z) (name : option (list Z)) (object : bool) :
  holds j before after -> buffer_size j + Z.of_nat (length (json_prefix j name)) + 3 <= JSON_MAX_SIZE ->
  exists j', __zbx_json_addobject j name object = Ret j' /\ status j' = ZBX_JSON_EMPTY /\ level j' = level j + 1 /\
    holds j' (before ++ json_prefix j name ++ [if object then LBRACE else LBRACKET])
             ((if object then RBRACE else RBRACKET) :: after).
Proof.
  intros Hh Hn. unfold __zbx_json_addobject. rewrite prefix_exact.
  set (o := if object then LBRACE else LBRACKET). set (c := if object then RBRACE else RBRACKET).
  destruct (insert_holds j before after (json_prefix j name ++ [o; c]) (2 + Z.of_nat (length (json_prefix j name))) Hh)
    as (j' & b & junk & -> & (Es & _ & _ & El) & -> & Ha & Hstat).
  { rewrite length_app. simpl. lia. }
  { lia. }
  run. eexists. split; [done|]. split; [done|]. split; [cbn [level]; by rewrite El|].
  exists junk. cbn [buffer buffer_allocated buffer_offset buffer_size is_stat].
  assert (E : (before ++ json_prefix j name ++ [o]) ++ (c :: after) ++ [0] =
              (before ++ json_prefix j name ++ [o; c]) ++ after ++ [0]) by (rewrite <- !app_assoc; done).
  rewrite E. split_and!; [done|done| | |done].
  - rewrite !length_app. simpl. lia.
  - destruct Hh as (_ & _ & _ & _ & Hs & _). rewrite Es, Hs. rewrite !length_app. simpl. lia.
Qed.

Lemma added_holds (j : zbx_json) (before after text : list Z) (len : Z) :
  holds j before after -> len = Z.of_nat (length text) -> buffer_size j + len + 1 <= JSON_MAX_SIZE ->
  exists j' b p, json_insert j len text = Ret (j', b, p) /\
    holds (json_added j' b p len) (before ++ text) after /\ level j' = level j.
Proof.
  intros Hh Hl Hn. destruct (insert_holds j before after text len Hh Hl Hn)
    as (j' & b & junk & -> & (Es & _ & _ & El) & -> & Ha & Hstat).
  eexists _, _, _. split; [done|]. split; [|done]. exists junk.
  cbn [json_added buffer buffer_allocated buffer_offset buffer_size is_stat].
  split_and!; [done|done|done| |done].
  destruct Hh as (_ & _ & _ & _ & Hs & _). rewrite Es, Hs. rewrite !length_app. lia.
Qed.

Lemma addstring_holds (j : zbx_json) (before after : list Z) (name string : option (list Z)) (type : zbx_json_type_t) (max_size : Z) :
  let text := json_prefix j name ++ limited_text string type max_size in
  holds j before after -> string_fits string type max_size -> buffer_size j + Z.of_nat (length text) + 1 <= JSON_MAX_SIZE ->
  exists j', zbx_json_addstring_limit j name string type max_size = Ret (j', escape_size (json_text string)) /\
    status j' = ZBX_JSON_COMMA /\ level j' = level j /\ holds j' (before ++ text) after.
Proof.
  intros text Hh Hf Hn. unfold zbx_json_addstring_limit.
  destruct (string_fits_size _ _ _ Hf) as (k & -> & Et). run. rewrite prefix_exact, <- Et. fold text.
  destruct (added_holds j before after text (Z.of_nat (length (json_prefix j name)) +
    Z.of_nat (length (limited_text string type max_size))) Hh) as (j' & b & p & -> & Hj & El).
  { unfold text. rewrite length_app. lia. }
  { unfold text in Hn. rewrite length_app in Hn. lia. }
  run. eexists. split; [done|]. done.
Qed.

Lemma addraw_holds (j : zbx_json) (before after : list Z) (name : option (list Z)) (data : list Z) :
  let text := json_prefix j name ++ data in
  holds j before after -> buffer_size j + Z.of_nat (length text) + 1 <= JSON_MAX_SIZE ->
  exists j', zbx_json_addraw j name data = Ret j' /\ status j' = ZBX_JSON_COMMA /\ level j' = level j /\
    holds j' (before ++ text) after.
Proof.
  intros text Hh Hn. unfold zbx_json_addraw. rewrite prefix_exact. fold text.
  destruct (added_holds j before after text (Z.of_nat (length (json_prefix j name)) + Z.of_nat (length data)) Hh)
    as (j' & b & p & -> & Hj & El).
  { unfold text. rewrite length_app. lia. }
  { unfold text in Hn. rewrite length_app in Hn. lia. }
  run. eexists. done.
Qed.

Lemma close_holds (j : zbx_json) (before after : list Z) (c : Z) :
  holds j before (c :: after) -> level j <> 1 ->
  exists j', zbx_json_close j = Some j' /\ status j' = ZBX_JSON_COMMA /\ level j' = level j - 1 /\
    holds j' (before ++ [c]) after.
Proof.
  intros (junk & Hb & Ha & Ho & Hs & Hstat) Hl. unfold zbx_json_close. rewrite (proj2 (Z.eqb_neq _ _) Hl).
  eexists. split; [done|]. split; [done|]. split; [done|]. exists junk.
  cbn [buffer buffer_allocated buffer_offset buffer_size is_stat].
  assert (E : (before ++ [c]) ++ after ++ [0] = before ++ (c :: after) ++ [0]) by (rewrite <- app_assoc; done).
  rewrite E. split_and!; [done|done| | |done].
  - rewrite Ho, length_app. simpl. lia.
  - rewrite Hs, !length_app. simpl. lia.
Qed.

(** A new buffer holds the empty text. *)
Lemma realloc_empty (allocate : Z) : 0 <= allocate ->
  exists j j', __zbx_json_realloc json_no_buffer allocate = Ret j /\ zbx_json_setempty j = Ret j' /\
    holds j' [] [] /\ status j' = ZBX_JSON_EMPTY /\ level j' = 0.
Proof.
  intros Ha.
  assert (Hw : forall n, 0 < n -> write_bytes (uninit n) 0 [0] = Ret (Some 0 :: uninit (n - 1))).
  { intros n Hn. unfold write_bytes. assert (E : uninit n = [None] ++ uninit (n - 1)).
    { unfold uninit. replace (Z.to_nat n) with (S (Z.to_nat (n - 1))) by lia. done. }
    rewrite E. apply (write_cells_app [] [None] (uninit (n - 1)) [Some 0] 0); done. }
  unfold __zbx_json_realloc. cbn [buffer json_no_buffer].
  destruct (Z.ltb_spec ZBX_JSON_STAT_BUF_LEN allocate) as [Hlt | Hge]; (eexists _, _; split; [done|]);
    unfold zbx_json_setempty; cbn [buffer]; rewrite Hw by (unfold ZBX_JSON_STAT_BUF_LEN in *; lia); run;
    (split; [done|]); cbn [status level]; (split; [|done]).
  - exists (uninit (allocate - 1)). cbn [buffer buffer_allocated buffer_offset buffer_size is_stat].
    split_and!; [done| |done|done|done]. unfold ZBX_JSON_STAT_BUF_LEN in *. simpl. rewrite length_uninit. lia.
  - exists (uninit (ZBX_JSON_STAT_BUF_LEN - 1)). cbn [buffer buffer_allocated buffer_offset buffer_size is_stat].
    split_and!; done.
Qed.
