(* ===== verification/JsonSession.v ===== *)
(** Sessions of the JSON writer: the sequences of calls a user may make, as
    steps on an abstract document with open levels, the writer's operations in
    order, and what a reader gets of the text they leave. *)

From stdpp Require Import base list numbers strings.
From Stdlib Require Import ZArith Lia.
From S2P Require Import Prelude JsonString JsonParse JsonGrammar JsonWriter JsonBuffer.
Import CharConst.

Open Scope Z_scope.

(** The calls that follow zbx_json_init or zbx_json_initarray. *)
Inductive wop : Type :=
| WOpen (object : bool) (name : option (list Z))
| WString (name string : option (list Z)) (type : zbx_json_type_t) (max_size : Z)
| WRaw (name : option (list Z)) (data : list Z)
| WUint64 (name : option (list Z)) (value : Z)
| WInt64 (name : option (list Z)) (value : Z)
| WClose.

Definition do_wop (j : zbx_json) (op : wop) : res zbx_json :=
  match op with
  | WOpen object name => __zbx_json_addobject j name object
  | WString name string type max_size => '(j, _) ← zbx_json_addstring_limit j name string type max_size; Ret j
  | WRaw name data => zbx_json_addraw j name data
  | WUint64 name value => zbx_json_adduint64 j name value
  | WInt64 name value => zbx_json_addint64 j name value
  | WClose => Ret (default j (zbx_json_close j))
  end.

Fixpoint do_wops (j : zbx_json) (ops : list wop) : res zbx_json :=
  match ops with
  | [] => Ret j
  | op :: ops => j ← do_wop j op; do_wops j ops
  end.

Definition json_start (object : bool) (allocate : Z) : res zbx_json :=
  if object then zbx_json_init allocate else zbx_json_initarray allocate.

(** The text of the value a call adds, and its name. *)
Definition wop_value (op : wop) : option (option (list Z) * list Z) :=
  match op with
  | WString name string type max_size => Some (name, limited_text string type max_size)
  | WRaw name data => Some (name, data)
  | WUint64 name value => Some (name, decimal value)
  | WInt64 name value => Some (name, decimal_signed value)
  | _ => None
  end.

Definition wop_fits (op : wop) : Prop :=
  match op with
  | WString _ string type max_size => string_fits string type max_size
  | WUint64 _ value => 0 <= value < 2 ^ 64
  | WInt64 _ value => - 2 ^ 63 <= value < 2 ^ 63
  | _ => True
  end.

(** Text without characters to escape is written as it is. *)
Definition json_plain (s : list Z) : Prop := Forall (fun c => 0x1f < c < 256 /\ c <> QUOTE /\ c <> BACKSLASH) s.

Lemma escape_plain (s : list Z) : json_plain s -> json_escape_text s = s.
Proof.
  induction 1 as [|c s (H1 & H2 & H3) _ IH]; [done|]. rewrite escape_text_cons, IH. unfold json_inschar.
  rewrite !(proj2 (Z.eqb_neq c _)) by lia. by rewrite (proj2 (Z.leb_gt _ _)) by lia.
Qed.

Lemma insstring_plain (s : list Z) : json_plain s -> __zbx_json_insstring (Some s) ZBX_JSON_TYPE_INT = s.
Proof.
  intros Hs. change (json_escape_text s ++ [] = s). by rewrite escape_plain, app_nil_r.
Qed.

Lemma plain_c_string (s : list Z) : json_plain s -> c_string s.
Proof. intros Hs. apply (Forall_impl _ _ _ Hs). intros c. lia. Qed.

Lemma escape_c_string (s : list Z) : c_string s -> c_string (json_escape_text s).
Proof.
  induction 1 as [|c s Hc _ IH]; [constructor|]. rewrite escape_text_cons. apply Forall_app. split; [|done].
  unfold json_inschar. repeat (case_match; [repeat constructor; lia|]). case_match; [|by constructor].
  pose proof (Z.land_nonneg (Z.shiftr c 4) 0xf). pose proof (Z.land_nonneg c 0xf).
  rewrite !(land_ones_mod _ 4) in * by lia.
  repeat constructor; try lia; unfold zbx_num2hex; case_match; zlia.
Qed.

Lemma digits_plain (s : list Z) : json_digits s -> json_plain s.
Proof. intros Hs. apply (Forall_impl _ _ _ Hs). intros c. unfold isdigit. lia. Qed.

Lemma decimal_digits (n : Z) : 0 <= n -> json_digits (decimal n).
Proof.
  intros Hn. unfold decimal. revert n Hn. generalize 20%nat. intros fuel.
  induction fuel as [|fuel IH]; intros n Hn; simpl; [constructor|].
  destruct (Z.ltb_spec n 10).
  - constructor; [|constructor]. unfold isdigit. lia.
  - apply Forall_app. split; [apply IH; zlia|]. constructor; [|constructor]. unfold isdigit. zlia.
Qed.

Lemma decimal_plain (n : Z) : 0 <= n -> json_plain (decimal n).
Proof. intros. by apply digits_plain, decimal_digits. Qed.

Lemma decimal_signed_plain (n : Z) : json_plain (decimal_signed n).
Proof.
  unfold decimal_signed. destruct (Z.ltb_spec n 0); [|by apply decimal_plain].
  constructor; [lia|]. apply decimal_plain. lia.
Qed.

Section Session.
  Context {double : Type} (num : list Z -> double).
  Notation jobj := (jsonobj double).

(** A value in an open container. *)
Record item := { it_name : option (list Z); it_text : list Z; it_value : jobj }.

(** An open container, the name it has in the one around it, and its values. *)
Record frame := { fr_object : bool; fr_name : option (list Z); fr_items : list item }.

Definition fr_open (f : frame) : Z := if fr_object f then LBRACE else LBRACKET.
Definition fr_close (f : frame) : Z := if fr_object f then RBRACE else RBRACKET.

Definition name_text (name : option (list Z)) : list Z :=
  match name with
  | None => []
  | Some n => QUOTE :: json_escape_text n ++ [QUOTE; COLON]
  end.

Definition comma_text (items : list item) : list Z :=
  match items with
  | [] => []
  | _ => [COMMA]
  end.

Fixpoint items_text (items : list item) : list Z :=
  match items with
  | [] => []
  | [i] => name_text (it_name i) ++ it_text i
  | i :: items => name_text (it_name i) ++ it_text i ++ COMMA :: items_text items
  end.

Definition frame_tree (f : frame) : jobj :=
  if fr_object f then JObject (members_els ((fun i => (default [] (it_name i), it_value i)) <$> fr_items f))
  else JArray (it_value <$> fr_items f).

Definition frame_text (f : frame) : list Z := fr_open f :: items_text (fr_items f) ++ [fr_close f].

Definition add_item (f : frame) (i : item) : frame :=
  {| fr_object := fr_object f; fr_name := fr_name f; fr_items := fr_items f ++ [i] |}.

(** The text before the next value of the innermost container, and after. *)
Fixpoint frames_before (fs : list frame) : list Z :=
  match fs with
  | [] => []
  | f :: fs =>
      frames_before fs ++ match fs with [] => [] | g :: _ => comma_text (fr_items g) end ++
      name_text (fr_name f) ++ fr_open f :: items_text (fr_items f)
  end.

Definition frames_after (fs : list frame) : list Z := fr_close <$> fs.

Definition frames_size (fs : list frame) : Z := Z.of_nat (length (frames_before fs ++ frames_after fs)).

(** Values in an object have a name and values in an array have none. *)
Definition named (f : frame) (name : option (list Z)) : Prop :=
  if fr_object f then exists n, name = Some n /\ c_string n else name = None.

(** The levels a value of the innermost of [n] open containers may have. *)
Definition levels_left (n : nat) : nat := 66 - n.

Inductive wstep : list frame -> wop -> list frame -> Prop :=
| wstep_open object name f fs :
    named f name -> (length (f :: fs) < 66)%nat ->
    wstep (f :: fs) (WOpen object name) ({| fr_object := object; fr_name := name; fr_items := [] |} :: f :: fs)
| wstep_put op name t x f fs :
    wop_value op = Some (name, t) -> wop_fits op -> named f name ->
    jvalue num (levels_left (length (f :: fs))) t x -> c_string t ->
    wstep (f :: fs) op (add_item f {| it_name := name; it_text := t; it_value := x |} :: fs)
| wstep_close f g fs :
    wstep (f :: g :: fs) WClose
      (add_item g {| it_name := fr_name f; it_text := frame_text f; it_value := frame_tree f |} :: fs).

Inductive wsteps : list frame -> list wop -> list frame -> Prop :=
| wsteps_nil fs : wsteps fs [] fs
| wsteps_cons fs op fs' ops fs'' : wstep fs op fs' -> wsteps fs' ops fs'' -> wsteps fs (op :: ops) fs''.

Definition top_frame (object : bool) : frame := {| fr_object := object; fr_name := None; fr_items := [] |}.

(* ------------------------------------------------------------------ *)
(** ** The writer follows the steps *)

Definition frames_status (fs : list frame) : zbx_json_status_t :=
  match fs with
  | f :: _ => match fr_items f with [] => ZBX_JSON_EMPTY | _ => ZBX_JSON_COMMA end
  | [] => ZBX_JSON_EMPTY
  end.

(** The state of the writer at an abstract document. *)
Definition writes (j : zbx_json) (fs : list frame) : Prop :=
  holds j (frames_before fs) (frames_after fs) /\ status j = frames_status fs /\ level j = Z.of_nat (length fs).

Lemma insstring_quoted (n : list Z) :
  __zbx_json_insstring (Some n) ZBX_JSON_TYPE_STRING = QUOTE :: json_escape_text n ++ [QUOTE].
Proof. done. Qed.

Lemma prefix_text (j : zbx_json) (f : frame) (fs : list frame) (name : option (list Z)) :
  status j = frames_status (f :: fs) -> json_prefix j name = comma_text (fr_items f) ++ name_text name.
Proof.
  intros Hs. unfold json_prefix. rewrite Hs. cbn [frames_status]. f_equal.
  - by destruct (fr_items f).
  - destruct name as [n|]; [|done]. rewrite insstring_quoted. simpl. by rewrite <- app_assoc.
Qed.

Lemma items_text_snoc (items : list item) (i : item) :
  items_text (items ++ [i]) = items_text items ++ comma_text items ++ name_text (it_name i) ++ it_text i.
Proof.
  induction items as [|x items IH]; [done|]. destruct items as [|y items].
  - simpl. by rewrite <- app_assoc.
  - change (items_text ((x :: y :: items) ++ [i])) with
      (name_text (it_name x) ++ it_text x ++ COMMA :: items_text ((y :: items) ++ [i])).
    rewrite IH. cbn [comma_text]. simpl items_text at 2. flat_app. done.
Qed.

Lemma before_add (f : frame) (fs : list frame) (i : item) :
  frames_before (add_item f i :: fs) =
  frames_before (f :: fs) ++ comma_text (fr_items f) ++ name_text (it_name i) ++ it_text i.
Proof. cbn [frames_before add_item fr_items fr_name]. rewrite items_text_snoc. flat_app. done. Qed.

Lemma after_add (f : frame) (fs : list frame) (i : item) : frames_after (add_item f i :: fs) = frames_after (f :: fs).
Proof. done. Qed.

Lemma status_add (f : frame) (fs : list frame) (i : item) : frames_status (add_item f i :: fs) = ZBX_JSON_COMMA.
Proof. cbn [frames_status add_item fr_items]. by destruct (fr_items f). Qed.

Lemma before_close (f g : frame) (fs : list frame) :
  frames_before (add_item g {| it_name := fr_name f; it_text := frame_text f; it_value := frame_tree f |} :: fs) =
  frames_before (f :: g :: fs) ++ [fr_close f].
Proof. rewrite before_add. cbn [it_name it_text]. unfold frame_text. cbn [frames_before]. flat_app. done. Qed.

Lemma step_size (fs fs' : list frame) (op : wop) : wstep fs op fs' -> frames_size fs <= frames_size fs'.
Proof.
  unfold frames_size. destruct 1.
  - cbn [frames_before frames_after fmap list_fmap]. rewrite !length_app. cbn [length]. rewrite ?length_app. simpl. lia.
  - rewrite before_add, after_add, !length_app. lia.
  - rewrite before_close, after_add, !length_app. simpl. lia.
Qed.

Lemma steps_size (fs fs' : list frame) (ops : list wop) : wsteps fs ops fs' -> frames_size fs <= frames_size fs'.
Proof. induction 1 as [|? ? ? ? ? H]; [done|]. apply step_size in H. lia. Qed.

(** A value call writes its comma, name and text. *)
Lemma put_writes (j : zbx_json) (f : frame) (fs : list frame) (op : wop) (name : option (list Z)) (t : list Z) (x : jobj) :
  let i := {| it_name := name; it_text := t; it_value := x |} in
  writes j (f :: fs) -> wop_value op = Some (name, t) -> wop_fits op ->
  frames_size (add_item f i :: fs) < JSON_MAX_SIZE ->
  exists j', do_wop j op = Ret j' /\ writes j' (add_item f i :: fs).
Proof.
  intros i (Hh & Hs & Hl) Hop Hfit Hsz. unfold frames_size in Hsz. rewrite before_add, after_add in Hsz. cbn [it_name it_text i] in Hsz.
  assert (Hsize : buffer_size j = Z.of_nat (length (frames_before (f :: fs) ++ frames_after (f :: fs))))
    by by destruct Hh as (? & _ & _ & _ & ? & _).
  unfold writes. rewrite before_add, after_add, status_add. cbn [it_name it_text i].
  assert (Hp : comma_text (fr_items f) ++ name_text name ++ t = json_prefix j name ++ t).
  { by rewrite (prefix_text j f fs name Hs), <- app_assoc. }
  rewrite Hp in Hsz |- *.
  assert (Hstr : forall string type max_size, string_fits string type max_size -> t = limited_text string type max_size ->
    exists j', zbx_json_addstring_limit j name string type max_size = Ret (j', escape_size (json_text string)) /\
      holds j' (frames_before (f :: fs) ++ json_prefix j name ++ t) (frames_after (f :: fs)) /\
      status j' = ZBX_JSON_COMMA /\ level j' = Z.of_nat (length (add_item f i :: fs))).
  { intros string type max_size Hf Et.
    destruct (addstring_holds j _ _ name string type max_size Hh Hf) as (j' & E & Hst & Hlv & Hh').
    - rewrite <- Et. rewrite !length_app in *. lia.
    - exists j'. rewrite <- Et in Hh'. split_and!; [done|done|done|]. by rewrite Hlv, Hl. }
  destruct op as [|n string type max_size|n data|n v|n v|]; try discriminate Hop; injection Hop as -> Et; cbn [do_wop].
  - destruct (Hstr string type max_size Hfit (eq_sym Et)) as (j' & -> & H). run. eauto.
  - destruct (addraw_holds j _ _ name t Hh) as (j' & E & Hst & Hlv & Hh').
    + rewrite !length_app in *. lia.
    + subst data. exists j'. split_and!; [done|done|done|]. by rewrite Hlv, Hl.
  - destruct (Hstr (Some (decimal v)) ZBX_JSON_TYPE_INT 0 (or_introl eq_refl)) as (j' & E & H).
    + rewrite limited_text_nolimit, <- Et. symmetry. apply insstring_plain, decimal_plain. apply Hfit.
    + unfold zbx_json_adduint64, zbx_json_addstring. rewrite E. run. eauto.
  - destruct (Hstr (Some (decimal_signed v)) ZBX_JSON_TYPE_INT 0 (or_introl eq_refl)) as (j' & E & H).
    + rewrite limited_text_nolimit, <- Et. symmetry. apply insstring_plain, decimal_signed_plain.
    + unfold zbx_json_addint64, zbx_json_addstring. rewrite E. run. eauto.
Qed.

Lemma step_writes (j : zbx_json) (fs fs' : list frame) (op : wop) :
  writes j fs -> wstep fs op fs' -> frames_size fs' < JSON_MAX_SIZE ->
  exists j', do_wop j op = Ret j' /\ writes j' fs'.
Proof.
  intros Hw Hstep Hsz. destruct Hstep as [object name f fs Hn Hlen | op name t x f fs Hop Hfit Hn Hv Ht | f g fs].
  - destruct Hw as (Hh & Hs & Hl). pose proof (prefix_text j f fs name Hs) as Hp.
    destruct (addobject_holds j _ _ name object Hh) as (j' & E & Hst & Hlv & Hh').
    + assert (Hsize : buffer_size j = Z.of_nat (length (frames_before (f :: fs) ++ frames_after (f :: fs))))
        by by destruct Hh as (? & _ & _ & _ & ? & _).
      unfold frames_size in Hsz. rewrite Hp, length_app. cbn [frames_before frames_after fmap list_fmap fr_name] in Hsz, Hsize.
      rewrite !length_app in Hsz, Hsize. cbn [length] in Hsz, Hsize. rewrite !length_app in Hsz. simpl in Hsz. lia.
    + exists j'. split; [done|]. split; [|split; [done|rewrite Hlv, Hl; simpl; lia]].
      rewrite Hp, <- app_assoc in Hh'. exact Hh'.
  - by apply put_writes.
  - destruct Hw as (Hh & Hs & Hl). cbn [do_wop].
    destruct (close_holds j _ _ (fr_close f) Hh) as (j' & -> & Hst & Hlv & Hh'); [simpl in Hl; lia|].
    exists j'. split; [done|]. unfold writes. rewrite before_close, after_add, status_add.
    split_and!; [done|done|]. rewrite Hlv, Hl. simpl. lia.
Qed.

Lemma steps_writes (j : zbx_json) (fs fs' : list frame) (ops : list wop) :
  writes j fs -> wsteps fs ops fs' -> frames_size fs' < JSON_MAX_SIZE ->
  exists j', do_wops j ops = Ret j' /\ writes j' fs'.
Proof.
  intros Hw Hsteps Hsz. revert j Hw. induction Hsteps as [fs | fs op fs1 ops fs2 Hop Hops IH]; intros j Hw; [by exists j|].
  pose proof (steps_size _ _ _ Hops). destruct (step_writes j fs fs1 op Hw Hop) as (j1 & E1 & Hw1); [lia|].
  destruct (IH Hsz j1 Hw1) as (j2 & E2 & Hw2). exists j2. split; [|done]. cbn [do_wops]. by rewrite E1.
Qed.

Lemma start_writes (object : bool) (allocate : Z) : 0 <= allocate ->
  exists j, json_start object allocate = Ret j /\ writes j [top_frame object].
Proof.
  intros Ha. destruct (realloc_empty allocate Ha) as (j0 & j1 & E0 & E1 & Hh & Hs & Hl).
  destruct (addobject_holds j1 [] [] None object Hh) as (j2 & E2 & Hst & Hlv & Hh2).
  { destruct Hh as (? & _ & _ & _ & Hsz & _). rewrite Hsz. unfold json_prefix. rewrite Hs. unfold JSON_MAX_SIZE. simpl. lia. }
  exists j2. split.
  - unfold json_start, zbx_json_init, zbx_json_initarray, zbx_json_addobject, zbx_json_addarray.
    by destruct object; rewrite E0; run; rewrite E1; run; rewrite E2.
  - assert (Hp : json_prefix j1 None = []) by (unfold json_prefix; by rewrite Hs). rewrite Hp in Hh2.
    split; [|split; [done|by rewrite Hlv, Hl]]. exact Hh2.
Qed.

(* ------------------------------------------------------------------ *)
(** ** The document is in the grammar *)

Definition item_ok (f : frame) (n : nat) (i : item) : Prop :=
  named f (it_name i) /\ jvalue num n (it_text i) (it_value i) /\ c_string (it_text i).

(** [n] is the number of levels left inside the innermost container. *)
Fixpoint frames_ok (fs : list frame) : Prop :=
  match fs with
  | [] => True
  | f :: fs =>
      Forall (item_ok f (levels_left (length (f :: fs)))) (fr_items f) /\
      match fs with [] => fr_name f = None | g :: _ => named g (fr_name f) /\ (length fs < 66)%nat end /\
      frames_ok fs
  end.

Lemma elements_text (f : frame) (n : nat) (items : list item) : fr_object f = false ->
  Forall (item_ok f n) items -> items <> [] -> jelements (jvalue num n) (items_text items) (it_value <$> items).
Proof.
  intros Hf. induction 1 as [|i items (Hn & Hv & _) Hi IH]; [done|]. intros _.
  assert (Hnil : name_text (it_name i) = []) by (unfold named in Hn; rewrite Hf in Hn; by rewrite Hn).
  destruct items as [|y items].
  - simpl. rewrite Hnil. rewrite <- (app_nil_r (it_text i)).
    apply (jelements_last _ [] (it_text i)); [constructor|done|constructor].
  - change (items_text (i :: y :: items)) with (name_text (it_name i) ++ it_text i ++ COMMA :: items_text (y :: items)).
    rewrite Hnil. apply (jelements_cons _ [] (it_text i) _ []); [constructor|done|constructor|by apply IH].
Qed.

Lemma members_text (f : frame) (n : nat) (items : list item) : fr_object f = true ->
  Forall (item_ok f n) items -> items <> [] ->
  jmembers (jvalue num n) (items_text items) ((fun i => (default [] (it_name i), it_value i)) <$> items).
Proof.
  intros Hf. induction 1 as [|i items (Hn & Hv & _) Hi IH]; [done|]. intros _.
  unfold named in Hn. rewrite Hf in Hn. destruct Hn as (s & En & Hs).
  assert (Et : forall rest, name_text (it_name i) ++ it_text i ++ rest = jmember [] (json_escape_text s) [] [] (it_text i) [] ++ rest).
  { intros rest. rewrite En. unfold jmember. simpl. by flat_app. }
  destruct items as [|y items].
  - change (items_text [i]) with (name_text (it_name i) ++ it_text i).
    rewrite <- (app_nil_r (it_text i)), Et, app_nil_r. simpl fmap. rewrite En.
    rewrite <- (cstr_c_string s Hs) at 2. apply jmembers_last; try constructor; try done. by apply json_escape_jchars.
  - change (items_text (i :: y :: items)) with (name_text (it_name i) ++ it_text i ++ COMMA :: items_text (y :: items)).
    rewrite Et. rewrite fmap_cons, En.
    change (default [] (Some s)) with s. rewrite <- (cstr_c_string s Hs) at 2.
    apply jmembers_cons; try constructor; try done; [by apply json_escape_jchars|by apply IH].
Qed.

Lemma frame_container (f : frame) (n : nat) :
  Forall (item_ok f n) (fr_items f) -> jcontainer (jvalue num n) (frame_text f) (frame_tree f).
Proof.
  intros Hi. unfold frame_text, frame_tree, fr_open, fr_close.
  destruct (fr_object f) eqn:Ho; destruct (decide (fr_items f = [])) as [-> | Hn].
  - apply (jcontainer_object0 _ []). constructor.
  - apply jcontainer_object. by apply (members_text f).
  - apply (jcontainer_array0 _ []). constructor.
  - apply jcontainer_array. by apply (elements_text f).
Qed.

Lemma name_text_c_string (f : frame) (name : option (list Z)) : named f name -> c_string (name_text name).
Proof.
  unfold named. destruct (fr_object f); [|intros ->; constructor]. intros (n & -> & Hn). simpl.
  constructor; [lia|]. apply Forall_app. split; [|repeat constructor; lia]. by apply escape_c_string.
Qed.

Lemma items_c_string (f : frame) (n : nat) (items : list item) : Forall (item_ok f n) items -> c_string (items_text items).
Proof.
  induction 1 as [|i items (Hn & _ & Ht) _ IH]; [constructor|]. apply name_text_c_string in Hn.
  destruct items as [|y items]; [by apply Forall_app|].
  apply Forall_app. split; [done|]. apply Forall_app. split; [done|]. constructor; [lia|done].
Qed.

Lemma frame_c_string (f : frame) (n : nat) : Forall (item_ok f n) (fr_items f) -> c_string (frame_text f).
Proof.
  intros Hi. constructor; [unfold fr_open; destruct (fr_object f); lia|]. apply Forall_app.
  split; [by apply (items_c_string f n)|]. constructor; [unfold fr_close; destruct (fr_object f); lia|constructor].
Qed.

Lemma step_ok (fs fs' : list frame) (op : wop) : wstep fs op fs' -> frames_ok fs -> frames_ok fs'.
Proof.
  destruct 1 as [object name f fs Hn Hlen | op name t x f fs Hop Hfit Hn Hv Ht | f g fs]; cbn [frames_ok].
  - intros (H1 & H2 & H3). split_and!; [constructor|done|done|done|done|done].
  - intros (H1 & H2 & H3). split_and!; [|done|done]. apply Forall_app. split; [exact H1|].
    constructor; [|constructor]. done.
  - intros (H1 & (H2 & Hlen) & H3 & H4 & H5). split_and!; [|done|done]. apply Forall_app. split; [exact H3|].
    constructor; [|constructor]. split_and!; [done| |by apply (frame_c_string f (levels_left (length (f :: g :: fs))))].
    cbn [it_text it_value]. replace (levels_left (length (add_item g _ :: fs))) with (S (levels_left (length (f :: g :: fs)))).
    + apply jvalue_container, frame_container, H1.
    + unfold levels_left. simpl in *. lia.
Qed.

Lemma steps_ok (fs fs' : list frame) (ops : list wop) : wsteps fs ops fs' -> frames_ok fs -> frames_ok fs'.
Proof. induction 1 as [|? ? ? ? ? H]; [done|]. intros. by eapply IHwsteps, step_ok. Qed.

Lemma top_text (f : frame) : fr_name f = None -> frames_before [f] ++ frames_after [f] = frame_text f.
Proof. intros Hn. simpl. rewrite Hn. unfold frame_text. simpl. by flat_app. Qed.
End Session.
