(* ===== verification/JsonRun.v ===== *)
(** What the parser and the writer of JSON promise together: zbx_json_validate accepts exactly the
    documents of the grammar, zbx_jsonobj_open builds their trees, and what a
    session of the writer leaves in its buffer is read back as the tree that
    its calls describe. *)

From stdpp Require Import base list numbers strings.
From Stdlib Require Import ZArith Lia.
From S2P Require Import Prelude JsonString JsonParse JsonGrammar JsonWriter JsonBuffer JsonSession.
Import CharConst.

Open Scope Z_scope.

(** What the model relies on atof for: it reads a number that ends where JSON
    goes on as it reads the number alone. *)
Definition atof_delimited {double : Type} (atof : list Z -> double) : Prop :=
  forall t rest, jnumber t -> json_delimited rest -> atof (t ++ rest) = atof t.

Lemma document_skip {double : Type} (num : list Z -> double) (w t rest : list Z) (x : jsonobj double) :
  json_ws w -> jdocument num t x -> SKIP_WHITESPACE (w ++ t ++ rest) = t ++ rest.
Proof. intros Hw Ht. apply skip_ws_skips; [done|]. by eapply jdocument_stops. Qed.

Lemma end_check (s : list Z) : c_string s -> (chr (SKIP_WHITESPACE s) 0 =? 0) = true <-> json_ws s.
Proof.
  intros Hs. rewrite Z.eqb_eq. split; [by apply skip_ws_end|]. intros Hw. by rewrite skip_ws_nil.
Qed.

Lemma text_rest (s w t rest : list Z) : c_string s -> s = w ++ t ++ rest -> c_string rest.
Proof. intros Hs ->. apply Forall_app in Hs as [_ Hs]. by apply Forall_app in Hs as [_ Hs]. Qed.

Section Readers.
  Context {double : Type} (atof : list Z -> double).
  Hypothesis Hatof : atof_delimited atof.

(** Both readers are [json_parse_document] between white space. *)
Lemma open_complete (s t : list Z) (x : jsonobj double) :
  json_text_of atof s t x -> zbx_jsonobj_open atof s = Ret (inr x).
Proof.
  intros (w1 & w2 & -> & Hw1 & Ht & Hw2). unfold zbx_jsonobj_open. rewrite (document_skip atof w1 t w2 x) by done.
  rewrite (parse_document_complete atof atof true (fun _ => Hatof) t w2 x Ht). run.
  rewrite skip_ws_nil by done. done.
Qed.

Lemma open_sound (s : list Z) : c_string s ->
  exists r, zbx_jsonobj_open atof s = Ret r /\ forall x, r = inr x -> exists t, json_text_of atof s t x.
Proof.
  intros Hs. unfold zbx_jsonobj_open. destruct (skip_ws_split s) as (w1 & E & Hw1).
  destruct (parse_document_sound atof atof true (fun _ => Hatof) (SKIP_WHITESPACE s)) as (r & -> & Hr). run.
  destruct r as [m p | v rest]; [eexists; split; [done|discriminate]|].
  destruct (Hr _ _ eq_refl) as (t & x & Et & Ht & ->). rewrite Et in E. pose proof (text_rest s w1 t rest Hs E) as Hrest.
  destruct (chr (SKIP_WHITESPACE rest) 0 =? 0) eqn:Hend; cbn [negb json_new]; [|eexists; split; [done|discriminate]].
  eexists. split; [done|]. intros y [= <-]. exists t, w1, rest. split_and!; try done. by apply end_check.
Qed.
End Readers.

Lemma validate_complete (s t : list Z) (x : jsonobj unit) :
  json_text_of (fun _ => tt) s t x -> zbx_json_validate s = Ret (inr (Z.of_nat (length t))).
Proof.
  intros (w1 & w2 & -> & Hw1 & Ht & Hw2). unfold zbx_json_validate. rewrite (document_skip (fun _ => tt) w1 t w2 x) by done.
  rewrite (parse_document_complete (fun _ => tt) (fun _ => tt) false (fun _ _ _ _ _ => eq_refl) t w2 x Ht). run.
  rewrite skip_ws_nil by done. cbn. rewrite length_app. do 2 f_equal. lia.
Qed.

Lemma validate_sound (s : list Z) : c_string s ->
  exists r, zbx_json_validate s = Ret r /\
    forall len, r = inr len -> exists t x, json_text_of (fun _ => tt) s t x /\ len = Z.of_nat (length t).
Proof.
  intros Hs. unfold zbx_json_validate. destruct (skip_ws_split s) as (w1 & E & Hw1).
  destruct (parse_document_sound (fun _ => tt) (fun _ => tt) false (fun _ _ _ _ _ => eq_refl) (SKIP_WHITESPACE s)) as (r & -> & Hr). run.
  destruct r as [m p | v rest]; [eexists; split; [done|discriminate]|].
  destruct (Hr _ _ eq_refl) as (t & x & Et & Ht & ->). rewrite Et in E |- *. pose proof (text_rest s w1 t rest Hs E) as Hrest.
  destruct (chr (SKIP_WHITESPACE rest) 0 =? 0) eqn:Hend; cbn [negb]; [|eexists; split; [done|discriminate]].
  eexists. split; [done|]. intros len [= <-]. exists t, x. split.
  - exists w1, rest. split_and!; try done. by apply end_check.
  - rewrite length_app. lia.
Qed.

(** A session keeps the document in the buffer and its tree in the frame. *)
Lemma session_text {double : Type} (num : list Z -> double) (object : bool) (allocate : Z) (ops : list wop) (f : frame) :
  0 <= allocate -> wsteps num [top_frame object] ops [f] -> frames_size [f] < JSON_MAX_SIZE -> fr_name f = None ->
  exists j, (j0 ← json_start object allocate; do_wops j0 ops) = Ret j /\ json_buffer_text j = Ret (frame_text f) /\
    buffer_size j = Z.of_nat (length (frame_text f)) /\ jdocument num (frame_text f) (frame_tree f) /\ c_string (frame_text f).
Proof.
  intros Ha Hops Hsz Hn. destruct (start_writes (double := double) object allocate Ha) as (j0 & E0 & Hw0).
  destruct (steps_writes num j0 _ _ ops Hw0 Hops Hsz) as (j & E & Hh & _).
  assert (Hok : frames_ok num [f]).
  { apply (steps_ok num _ _ ops Hops). cbn. split_and!; [constructor|done|done]. }
  destruct Hok as (Hi & _). pose proof (frame_c_string num f _ Hi) as Hc.
  exists j. rewrite E0. run. split; [done|]. rewrite <- (top_text f Hn) in *. split; [by apply holds_text|].
  split; [by destruct Hh as (? & _ & _ & _ & ? & _)|]. split; [|done].
  rewrite (top_text f Hn). by apply frame_container.
Qed.

Lemma wsteps_top_name {double : Type} (num : list Z -> double) (fs fs' : list frame) (ops : list wop) :
  wsteps num fs ops fs' -> fr_name <$> last fs = Some None -> fr_name <$> last fs' = Some None.
Proof.
  induction 1 as [|fs op fs1 ops fs2 Hop Hops IH]; [done|]. intros H. apply IH. clear IH Hops.
  destruct Hop as [? ? f fs | ? ? ? ? f fs | f g fs]; [done|by destruct fs|by destruct fs].
Qed.

(** The texts of the grammar do not depend on the conversion of numbers. *)
Section Retype.
  Context {D E : Type} (num : list Z -> D) (num' : list Z -> E).

Lemma jelements_retype (P : list Z -> jsonobj D -> Prop) (Q : list Z -> jsonobj E -> Prop) (ts : list Z) (xs : list (jsonobj D)) :
  (forall t x, P t x -> exists y, Q t y) -> jelements P ts xs -> exists ys, jelements Q ts ys.
Proof.
  intros HPQ. induction 1 as [w1 t x w2 H1 Ht H2 | w1 t x w2 ts xs H1 Ht H2 _ (ys & IH)];
    destruct (HPQ _ _ Ht) as (y & Hy); [exists [y] | exists (y :: ys)]; by constructor.
Qed.

Lemma jmembers_retype (P : list Z -> jsonobj D -> Prop) (Q : list Z -> jsonobj E -> Prop) (ts : list Z) ms :
  (forall t x, P t x -> exists y, Q t y) -> jmembers P ts ms -> exists ns, jmembers Q ts ns.
Proof.
  intros HPQ. induction 1 as [w1 raw name w2 w3 t x w4 H1 Hr H2 H3 Ht H4 | w1 raw name w2 w3 t x w4 ts ms H1 Hr H2 H3 Ht H4 _ (ns & IH)];
    destruct (HPQ _ _ Ht) as (y & Hy); [exists [(cstr name, y)] | exists ((cstr name, y) :: ns)]; by constructor.
Qed.

Lemma jcontainer_retype (P : list Z -> jsonobj D -> Prop) (Q : list Z -> jsonobj E -> Prop) (t : list Z) (x : jsonobj D) :
  (forall t x, P t x -> exists y, Q t y) -> jcontainer P t x -> exists y, jcontainer Q t y.
Proof.
  intros HPQ. destruct 1 as [w Hw | ts xs H | w Hw | ts ms H].
  - eexists. by constructor.
  - destruct (jelements_retype P Q ts xs HPQ H) as (ys & Hy). eexists. by constructor.
  - eexists. by apply jcontainer_object0.
  - destruct (jmembers_retype P Q ts ms HPQ H) as (ns & Hn). eexists. by apply jcontainer_object.
Qed.

Lemma jvalue_retype (n : nat) (t : list Z) (x : jsonobj D) : jvalue num n t x -> exists y, jvalue num' n t y.
Proof.
  revert t x. induction n as [|n IH]; intros t x; [done|].
  destruct 1 as [raw s H | t H | | | | t x H]; try (eexists; by constructor).
  destruct (jcontainer_retype _ _ t x IH H) as (y & Hy). exists y. by apply jvalue_container.
Qed.

Lemma json_text_retype (s t : list Z) (x : jsonobj D) : json_text_of num s t x -> exists y, json_text_of num' s t y.
Proof.
  intros (w1 & w2 & -> & H1 & Ht & H2). destruct (jcontainer_retype _ _ t x (jvalue_retype 65) Ht) as (y & Hy).
  exists y, w1, w2. done.
Qed.
End Retype.

(** A conversion for the witnesses: the characters of the number itself. *)
Definition is_number_char (c : Z) : bool :=
  isdigit c || (c =? (ch "-")) || (c =? (ch "+")) || (c =? (ch ".")) || (c =? (ch "e")) || (c =? (ch "E")).

Fixpoint number_chars (s : list Z) : list Z :=
  match s with
  | [] => []
  | c :: s => if is_number_char c then c :: number_chars s else []
  end.

Lemma number_chars_app (t rest : list Z) : Forall (fun c => is_number_char c = true) t -> json_delimited rest ->
  number_chars (t ++ rest) = t.
Proof.
  intros Ht Hr. induction Ht as [|c t Hc _ IH]; simpl.
  - destruct rest as [|c rest]; [done|]. simpl in *.
    assert (is_number_char c = false) as ->; [|done]. unfold is_number_char, isdigit, is_json_ws in *. lia.
  - by rewrite Hc, IH.
Qed.

Lemma digits_number_chars (ds : list Z) : json_digits ds -> Forall (fun c => is_number_char c = true) ds.
Proof. intros H. apply (Forall_impl _ _ _ H). intros c Hc. unfold is_number_char. by rewrite Hc. Qed.

Lemma number_chars_delimited : atof_delimited number_chars.
Proof.
  intros t rest Ht Hr. assert (Hc : Forall (fun c => is_number_char c = true) t).
  { destruct Ht as [sign int frac ex Hs Hi _ _ Hf Hex]. rewrite !Forall_app. split_and!.
    - destruct Hs as [-> | ->]; repeat constructor.
    - by apply digits_number_chars.
    - destruct Hf as [-> | (ds & -> & Hd)]; [constructor|]. constructor; [done|by apply digits_number_chars].
    - destruct Hex as [-> | (e & s & ds & -> & He & Hs' & Hd & _)]; [constructor|].
      constructor; [by destruct He as [-> | ->]|]. apply Forall_app. split; [|by apply digits_number_chars].
      destruct Hs' as [-> | [-> | ->]]; repeat constructor. }
  rewrite number_chars_app by done. rewrite <- (app_nil_r t) at 2. by rewrite number_chars_app.
Qed.

(** C23: zbx_json_validate always gives an answer, and it accepts exactly the
    texts that are a JSON object or array of the grammar between white space,
    of which it returns the length. *)
Theorem json_validate_exact (s : list Z) (Hs : c_string s) :
  (exists r, zbx_json_validate s = Ret r) /\
  (forall len, zbx_json_validate s = Ret (inr len) <->
     exists t x, json_text_of (fun _ => tt) s t x /\ len = Z.of_nat (length t)).
Proof.
  destruct (validate_sound s Hs) as (r & E & Hr). split; [by exists r|]. intros len. rewrite E. split.
  - intros [= ->]. by apply Hr.
  - intros (t & x & Ht & ->). rewrite <- E. by apply (validate_complete s t x).
Qed.

Lemma json_validate_exact_witness :
  c_string (bytes_of " [1.e5, {}] ") /\
  exists t x, json_text_of (fun _ => tt) (bytes_of " [1.e5, {}] ") t x /\ 10 = Z.of_nat (length t).
Proof.
  assert (Hs : c_string (bytes_of " [1.e5, {}] ")) by (repeat constructor; lia).
  split; [exact Hs|]. apply (json_validate_exact _ Hs). vm_compute. reflexivity.
Defined.

(** C22: For a session of the JSON writer of which all levels but the first are
    closed again, no access was outside the buffer, the buffer holds a text of
    the size the writer counts, zbx_json_validate accepts the text, and
    zbx_jsonobj_open reads from it the tree that the calls describe.  The
    sessions are those of [wsteps]: a value has a name exactly when it is put
    into an object; names are free of NUL; at most 66 levels are open at a time,
    and what a value is written as is a JSON value without NUL that nests no
    deeper than that (so it is for every string without NUL that is written as a
    string); a string that is limited in size is limited to at least 6 bytes and
    is UTF-8 text; integers have 64 bits; the first level is not closed; and the text stays below 2^62
    bytes.  The conversion of numbers (atof) is assumed to stop where a number
    ends. *)
Theorem json_session_roundtrip {double : Type} (atof : list Z -> double) (object : bool) (allocate : Z)
    (ops : list wop) (f : frame) (Hatof : atof_delimited atof) (Ha : 0 <= allocate)
    (Hops : wsteps atof [top_frame object] ops [f]) (Hsz : frames_size [f] < JSON_MAX_SIZE) :
  exists j t, (j0 ← json_start object allocate; do_wops j0 ops) = Ret j /\
    json_buffer_text j = Ret t /\ buffer_size j = Z.of_nat (length t) /\
    zbx_json_validate t = Ret (inr (Z.of_nat (length t))) /\
    zbx_jsonobj_open atof t = Ret (inr (frame_tree f)).
Proof.
  assert (Hn : fr_name f = None).
  { pose proof (wsteps_top_name _ _ _ _ Hops eq_refl) as Hn. simpl in Hn. congruence. }
  destruct (session_text atof object allocate ops f Ha Hops Hsz Hn) as (j & E & Et & Es & Hd & Hc).
  assert (Htext : json_text_of atof (frame_text f) (frame_text f) (frame_tree f)).
  { exists [], []. rewrite app_nil_r. split_and!; [done|constructor|done|constructor]. }
  destruct (json_text_retype atof (fun _ => tt) _ _ _ Htext) as (y & Hy).
  exists j, (frame_text f). split_and!; [done..| |].
  - by apply (validate_complete _ _ y).
  - by apply (open_complete atof Hatof _ (frame_text f)).
Qed.

Example session_ops : list wop :=
  [WOpen false (Some (bytes_of "a")); WUint64 None 170; WString None (Some [120; 10]) ZBX_JSON_TYPE_STRING 0; WClose].

Example session_frame : frame :=
  {| fr_object := true; fr_name := None; fr_items :=
     [{| it_name := Some (bytes_of "a");
         it_text := (LBRACKET :: decimal 170 ++ [COMMA; QUOTE; 120; BACKSLASH; (ch "n"); QUOTE; RBRACKET]);
         it_value := JArray [JNumber (bytes_of "170"); JString [120; 10]] |}] |}.

Lemma decimal_170 : jnumber (decimal 170).
Proof.
  change (decimal 170) with ([] ++ [49; 55; 48] ++ [] ++ []).
  apply jnumber_intro; [by left|by repeat constructor|done|discriminate|by left|by left].
Qed.

Lemma session_example : wsteps number_chars [top_frame true] session_ops [session_frame].
Proof.
  assert (Hname : named (double := list Z) (top_frame true) (Some (bytes_of "a"))).
  { exists (bytes_of "a"). split; [done|]. repeat constructor; lia. }
  eapply wsteps_cons; [apply wstep_open; [exact Hname | simpl; lia]|].
  eapply wsteps_cons.
  { apply (wstep_put _ _ None (decimal 170) (JNumber (decimal 170))); [done|simpl; lia|done| |repeat constructor; lia].
    replace (decimal 170) with (number_chars (decimal 170)) at 2 by done. apply jvalue_number, decimal_170. }
  eapply wsteps_cons.
  { apply (wstep_put _ _ None [QUOTE; 120; BACKSLASH; (ch "n"); QUOTE] (JString [120; 10]));
      [done|by left|done| |repeat constructor; lia].
    apply (jvalue_string _ _ [120; BACKSLASH; (ch "n")] [120; 10]). by apply (json_escape_jchars [120; 10]); repeat constructor. }
  eapply wsteps_cons; [apply wstep_close|]. apply wsteps_nil.
Qed.

Lemma json_session_roundtrip_witness :
  atof_delimited number_chars /\ 0 <= 16 /\ wsteps number_chars [top_frame true] session_ops [session_frame] /\
  frames_size (double := list Z) [session_frame] < JSON_MAX_SIZE /\
  exists j t, (j0 ← json_start true 16; do_wops j0 session_ops) = Ret j /\
    json_buffer_text j = Ret t /\ buffer_size j = Z.of_nat (length t) /\
    zbx_json_validate t = Ret (inr (Z.of_nat (length t))) /\
    zbx_jsonobj_open number_chars t = Ret (inr (frame_tree session_frame)).
Proof.
  assert (Ha : 0 <= 16) by lia.
  assert (Hsz : frames_size (double := list Z) [session_frame] < JSON_MAX_SIZE) by (vm_compute; reflexivity).
  split; [exact number_chars_delimited|]. split; [exact Ha|]. split; [exact session_example|]. split; [exact Hsz|].
  exact (json_session_roundtrip number_chars true 16 session_ops session_frame number_chars_delimited Ha session_example Hsz).
Defined.

(** Where the writer goes wrong. *)

(** A cut at the first character counts as no cut: six bytes go where none were
    reserved, over the closing bracket and the NUL. *)
Example limit_cut_at_start :
  (j ← zbx_json_init 16; '(j, _) ← zbx_json_addstring_limit j None (Some [1]) ZBX_JSON_TYPE_INT 3; json_buffer_text j) =
  Undef.
Proof. vm_compute. reflexivity. Qed.

(** Only blanks are skipped to see whether the object is empty. *)
Example init_with_newline :
  (j ← zbx_json_init_with (Some [LBRACE; 10; RBRACE]); j ← zbx_json_adduint64 j (Some (bytes_of "a")) 1;
   t ← json_buffer_text j; r ← zbx_json_validate t; Ret (t, match r with inl _ => false | inr _ => true end)) =
  Ret ([LBRACE; 10; COMMA; QUOTE; 97; QUOTE; COLON; 49; RBRACE], false).
Proof. vm_compute. reflexivity. Qed.

(** The clone of a buffer on the heap has no NUL at its end. *)
Example clone_unterminated :
  (j ← zbx_json_init 5000; j ← zbx_json_clone j; json_buffer_text j) = Undef.
Proof. vm_compute. reflexivity. Qed.

(** A document of 67 nested arrays is refused, of 66 accepted. *)
Definition nested (n : nat) : list Z := replicate n LBRACKET ++ replicate n RBRACKET.

Example nesting_limit :
  zbx_json_validate (nested 66) = Ret (inr 132) /\ exists e, zbx_json_validate (nested 67) = Ret (inl e).
Proof. split; [vm_compute; reflexivity | eexists; vm_compute; reflexivity]. Qed.
