(* ===== verification/JsonRead.v ===== *)
(** Reading a JSON text in place (src/src/libs/zbxjson/json.c): opening a
    document, the scan for the next element, the pairs of an object, and the
    decoding of a value into a buffer.
    A pointer is the rest of the text from there on; of two pointers into one
    text the one with the longer rest comes first. *)

From stdpp Require Import base list numbers strings.
From Stdlib Require Import ZArith Lia.
From S2P Require Import Prelude JsonString JsonParse.
Import CharConst.

Open Scope Z_scope.

(** struct zbx_json_parse: the opening and the closing bracket. *)
Record zbx_json_parse := { jp_start : list Z; jp_end : list Z }.

Definition ptr_le (p q : list Z) : bool := (length q <=? length p)%nat.
Definition ptr_sub (p q : list Z) : Z := Z.of_nat (length q) - Z.of_nat (length p).

Definition starts_with (text p : list Z) : bool := bool_decide (take (length text) p = text).

(** Reads the characters one by one, so never past the NUL. *)
Definition __zbx_json_type (p : list Z) : zbx_json_type_t :=
  let c := chr p 0 in
  if c =? QUOTE then ZBX_JSON_TYPE_STRING else
  if isdigit c || (c =? (ch "-")) then ZBX_JSON_TYPE_INT else
  if c =? LBRACKET then ZBX_JSON_TYPE_ARRAY else
  if c =? LBRACE then ZBX_JSON_TYPE_OBJECT else
  if starts_with (bytes_of "null") p then ZBX_JSON_TYPE_NULL else
  if starts_with (bytes_of "true") p then ZBX_JSON_TYPE_TRUE else
  if starts_with (bytes_of "false") p then ZBX_JSON_TYPE_FALSE else ZBX_JSON_TYPE_UNKNOWN.

Definition zbx_json_valuetype (p : list Z) : zbx_json_type_t := __zbx_json_type p.

(** The loop of __zbx_json_rbracket; [instr] is state 1, inside a string. *)
Fixpoint rbracket_loop (rbracket : Z) (p : list Z) (level : Z) (instr : bool) : option (list Z) :=
  match p with
  | [] => None
  | c :: p' =>
      if c =? QUOTE then rbracket_loop rbracket p' level (negb instr) else
      if c =? BACKSLASH then
        if instr then
          match p' with
          | [] => None
          | _ :: p'' => rbracket_loop rbracket p'' level instr
          end
        else rbracket_loop rbracket p' level instr else
      if (c =? LBRACKET) || (c =? LBRACE) then
        rbracket_loop rbracket p' (if instr then level else level + 1) instr else
      if (c =? RBRACKET) || (c =? RBRACE) then
        if instr then rbracket_loop rbracket p' level instr else
        if level - 1 =? 0 then (if c =? rbracket then Some p else None)
        else rbracket_loop rbracket p' (level - 1) instr
      else rbracket_loop rbracket p' level instr
  end.

Definition __zbx_json_rbracket (p : list Z) : option (list Z) :=
  let lbracket := chr p 0 in
  if negb (lbracket =? LBRACE) && negb (lbracket =? LBRACKET) then None
  else rbracket_loop (if lbracket =? LBRACE then RBRACE else RBRACKET) p 0 false.

(** [None] is FAIL; [jp->end] is start + len - 1. *)
Definition zbx_json_open (buffer : list Z) : res (option zbx_json_parse) :=
  let buffer := SKIP_WHITESPACE buffer in
  if chr buffer 0 =? 0 then Ret None else
  r ← zbx_json_validate buffer;
  match r with
  | inl _ => Ret None
  | inr len => Ret (Some {| jp_start := buffer; jp_end := drop (Z.to_nat (len - 1)) buffer |})
  end.

(** The loop of zbx_json_next, up to [end_]; the text ends in a NUL, and a
    pointer after it is past the end. *)
Fixpoint next_loop (end_ p : list Z) (level : Z) (instr : bool) : option (list Z) :=
  match p with
  | [] => None
  | c :: p' =>
      if negb (ptr_le p end_) then None else
      if c =? QUOTE then next_loop end_ p' level (negb instr) else
      if c =? BACKSLASH then
        if instr then
          match p' with
          | [] => None
          | _ :: p'' => next_loop end_ p'' level instr
          end
        else next_loop end_ p' level instr else
      if (c =? LBRACKET) || (c =? LBRACE) then next_loop end_ p' (if instr then level else level + 1) instr else
      if (c =? RBRACKET) || (c =? RBRACE) then
        if instr then next_loop end_ p' level instr else
        if level =? 0 then None else next_loop end_ p' (level - 1) instr else
      if c =? COMMA then
        if negb instr && (level =? 0) then Some (SKIP_WHITESPACE p') else next_loop end_ p' level instr
      else next_loop end_ p' level instr
  end.

(** [p = None] asks for the first element. *)
Definition zbx_json_next (jp : zbx_json_parse) (p : option (list Z)) : option (list Z) :=
  if ptr_sub (jp_end jp) (jp_start jp) =? 1 then None else
  match p with
  | None => Some (SKIP_WHITESPACE (tail (jp_start jp)))
  | Some p => next_loop (jp_end jp) p 0 false
  end.

(** The value of [len] characters in a buffer of [size], and the pointer after it. *)
Definition zbx_json_copy_unquoted_value (p : list Z) (len size : Z) : option (list Z * list Z) :=
  if size <? len + 1 then None else Some (take (Z.to_nat len) p, drop (Z.to_nat len) p).

Definition is_primitive (type : zbx_json_type_t) : bool :=
  bool_decide (type <> ZBX_JSON_TYPE_ARRAY /\ type <> ZBX_JSON_TYPE_OBJECT /\ type <> ZBX_JSON_TYPE_UNKNOWN).

(** The length of the value at [p], 0 when it does not parse. *)
Definition json_value_length (p : list Z) : res Z :=
  r ← json_parse_value_at (fun _ => tt) false 0 p;
  match r with
  | Failed _ _ => Ret 0
  | Parsed _ rest => Ret (ptr_sub rest p)
  end.

(** The copy of a value that parses, by its type. *)
Definition json_copy_value (p : list Z) (len size : Z) (type : zbx_json_type_t) : res (option (list Z * list Z)) :=
  match type with
  | ZBX_JSON_TYPE_STRING => json_copy_string p size
  | ZBX_JSON_TYPE_NULL => if size =? 0 then Ret None else Ret (Some ([], drop (Z.to_nat len) p))
  | _ => Ret (zbx_json_copy_unquoted_value p len size)
  end.

(** The C string in the buffer, its type, and the pointer after the value. *)
Definition zbx_json_decodevalue (p : list Z) (size : Z) : res (option (list Z * zbx_json_type_t * list Z)) :=
  let type := __zbx_json_type p in
  if negb (is_primitive type) then Ret None else
  len ← json_value_length p;
  if len =? 0 then Ret None else
  r ← json_copy_value p len size type;
  Ret (option_map (fun '(s, rest) => (cstr s, type, rest)) r).

(** The buffer grows to hold any value; also its new size. *)
Definition zbx_json_decodevalue_dyn (p : list Z) (string_alloc : Z)
    : res (option (list Z * zbx_json_type_t * list Z) * Z) :=
  let type := __zbx_json_type p in
  if negb (is_primitive type) then Ret (None, string_alloc) else
  len ← json_value_length p;
  if len =? 0 then Ret (None, string_alloc) else
  let string_alloc := if string_alloc <=? len then len + 1 else string_alloc in
  r ← (match type with
       | ZBX_JSON_TYPE_NULL => Ret (Some ([], drop (Z.to_nat len) p))
       | _ => json_copy_value p len string_alloc type
       end);
  Ret (option_map (fun '(s, rest) => (cstr s, type, rest)) r, string_alloc).

(** The name and the pointer to the value. *)
Definition zbx_json_pair_next (jp : zbx_json_parse) (p : option (list Z)) (len : Z) : res (option (list Z * list Z)) :=
  match zbx_json_next jp p with
  | None => Ret None
  | Some p =>
      if negb (bool_decide (__zbx_json_type p = ZBX_JSON_TYPE_STRING)) then Ret None else
      r ← json_copy_string p len;
      match r with
      | None => Ret None
      | Some (name, p) =>
          let p := SKIP_WHITESPACE p in
          if negb (chr p 0 =? COLON) then Ret None else Ret (Some (cstr name, SKIP_WHITESPACE (tail p)))
      end
  end.

Definition MAX_STRING_LEN : Z := 2048.

Fixpoint pair_by_name_loop (fuel : nat) (jp : zbx_json_parse) (name : list Z) (p : option (list Z)) : res (option (list Z)) :=
  match fuel with
  | O => NoFuel
  | S fuel =>
      r ← zbx_json_pair_next jp p MAX_STRING_LEN;
      match r with
      | None => Ret None
      | Some (buffer, p) => if decide (name = buffer) then Ret (Some p) else pair_by_name_loop fuel jp name (Some p)
      end
  end.

(** Every pair is behind the one before it. *)
Definition zbx_json_pair_by_name (jp : zbx_json_parse) (name : list Z) : res (option (list Z)) :=
  pair_by_name_loop (S (length (jp_start jp))) jp name None.

Definition zbx_json_next_value (jp : zbx_json_parse) (p : option (list Z)) (len : Z)
    : res (option (list Z * zbx_json_type_t * list Z)) :=
  match zbx_json_next jp p with
  | None => Ret None
  | Some p => zbx_json_decodevalue p len
  end.

Definition zbx_json_next_value_dyn (jp : zbx_json_parse) (p : option (list Z)) (string_alloc : Z)
    : res (option (list Z * zbx_json_type_t * list Z) * Z) :=
  match zbx_json_next jp p with
  | None => Ret (None, string_alloc)
  | Some p => zbx_json_decodevalue_dyn p string_alloc
  end.

Definition zbx_json_value_by_name (jp : zbx_json_parse) (name : list Z) (len : Z) : res (option (list Z * zbx_json_type_t)) :=
  p ← zbx_json_pair_by_name jp name;
  match p with
  | None => Ret None
  | Some p => r ← zbx_json_decodevalue p len; Ret (option_map fst r)
  end.

Definition zbx_json_value_by_name_dyn (jp : zbx_json_parse) (name : list Z) (string_alloc : Z)
    : res (option (list Z * zbx_json_type_t) * Z) :=
  p ← zbx_json_pair_by_name jp name;
  match p with
  | None => Ret (None, string_alloc)
  | Some p => '(r, string_alloc) ← zbx_json_decodevalue_dyn p string_alloc; Ret (option_map fst r, string_alloc)
  end.

Definition zbx_json_brackets_open (p : list Z) : option zbx_json_parse :=
  match __zbx_json_rbracket p with
  | None => None
  | Some end_ => Some {| jp_start := SKIP_WHITESPACE p; jp_end := end_ |}
  end.

Definition zbx_json_brackets_by_name (jp : zbx_json_parse) (name : list Z) : res (option zbx_json_parse) :=
  p ← zbx_json_pair_by_name jp name;
  match p with
  | None => Ret None
  | Some p => Ret (zbx_json_brackets_open p)
  end.

Definition zbx_json_object_is_empty (jp : zbx_json_parse) : bool := negb (1 <? ptr_sub (jp_end jp) (jp_start jp)).

Fixpoint count_loop (fuel : nat) (jp : zbx_json_parse) (p : option (list Z)) (num : Z) : res Z :=
  match fuel with
  | O => NoFuel
  | S fuel =>
      match zbx_json_next jp p with
      | None => Ret num
      | Some p => count_loop fuel jp (Some p) (num + 1)
      end
  end.

Definition zbx_json_count (jp : zbx_json_parse) : res Z := count_loop (S (length (jp_start jp))) jp None 0.
