(* ===== verification/JsonScan.v ===== *)
(** The scans of JsonRead.v, for brackets and for the next element, pass over a
    value of the grammar without stopping.  What the two loops have in common
    is a section with their steps as hypotheses. *)

From stdpp Require Import base list numbers strings.
From Stdlib Require Import ZArith Lia.
From S2P Require Import Prelude JsonString JsonParse JsonGrammar JsonRead.
Import CharConst.

Open Scope Z_scope.

(** The characters a scan looks at. *)
Definition json_special (c : Z) : bool :=
  (c =? QUOTE) || (c =? BACKSLASH) || (c =? LBRACKET) || (c =? LBRACE) || (c =? RBRACKET) || (c =? RBRACE) || (c =? COMMA).

Section Scan.
  (** [loop p level instr], as long as [ok p]; the scan ends at a closing bracket
      of level [base], and at commas below level [inner]. *)
  Context {R : Type} (loop : list Z -> Z -> bool -> R) (ok : list Z -> Prop) (base inner : Z).
  Hypothesis inner_level : base <= inner <= base + 1.
  Hypothesis ok_cons : forall c p, ok p -> ok (c :: p).
  Hypothesis step_plain : forall c p l st, ok (c :: p) -> json_special c = false -> loop (c :: p) l st = loop p l st.
  Hypothesis step_quote : forall p l st, ok (QUOTE :: p) -> loop (QUOTE :: p) l st = loop p l (negb st).
  Hypothesis step_escape : forall c p l, ok (BACKSLASH :: c :: p) -> loop (BACKSLASH :: c :: p) l true = loop p l true.
  Hypothesis step_string : forall c p l, ok (c :: p) -> c <> QUOTE -> c <> BACKSLASH -> loop (c :: p) l true = loop p l true.
  Hypothesis step_open : forall c p l, ok (c :: p) -> c = LBRACKET \/ c = LBRACE -> loop (c :: p) l false = loop p (l + 1) false.
  Hypothesis step_close : forall c p l, ok (c :: p) -> c = RBRACKET \/ c = RBRACE -> base < l ->
    loop (c :: p) l false = loop p (l - 1) false.
  Hypothesis step_comma : forall p l, ok (COMMA :: p) -> inner <= l -> loop (COMMA :: p) l false = loop p l false.

Lemma ok_app (s p : list Z) : ok p -> ok (s ++ p).
Proof. intros H. induction s as [|c s IH]; [done|]. simpl. by apply ok_cons. Qed.
Hint Resolve ok_app ok_cons : core.

(** A text that leaves the scan as it was, at a level of at least [b]. *)
Definition neutral (b : Z) (s : list Z) : Prop :=
  forall l rest, b <= l -> ok rest -> loop (s ++ rest) l false = loop rest l false.

Lemma neutral_app (b : Z) (s1 s2 : list Z) : neutral b s1 -> neutral b s2 -> neutral b (s1 ++ s2).
Proof. intros H1 H2 l rest Hl Hr. rewrite <- app_assoc, H1 by auto. by apply H2. Qed.

Lemma neutral_weaken (b b' : Z) (s : list Z) : b <= b' -> neutral b s -> neutral b' s.
Proof. intros Hb H l rest Hl. apply H. lia. Qed.

Lemma neutral_plain (b : Z) (s : list Z) : Forall (fun c => json_special c = false) s -> neutral b s.
Proof.
  intros H l rest Hl Hr. induction H as [|c s Hc _ IH]; [done|]. simpl. rewrite step_plain by auto. apply IH.
Qed.

Lemma neutral_ws (b : Z) (w : list Z) : json_ws w -> neutral b w.
Proof.
  intros Hw. apply neutral_plain. apply (Forall_impl _ _ _ Hw). intros c. unfold is_json_ws, json_special. lia.
Qed.

Lemma string_plain (s rest : list Z) (l : Z) : Forall (fun c => c <> QUOTE /\ c <> BACKSLASH) s -> ok rest ->
  loop (s ++ rest) l true = loop rest l true.
Proof.
  intros H Hr. induction H as [|c s [H1 H2] _ IH]; [done|]. simpl. rewrite step_string by auto. apply IH.
Qed.

Lemma hex4_plain (ds : list Z) : jhex4 ds -> Forall (fun c => c <> QUOTE /\ c <> BACKSLASH) ds.
Proof. intros [_ H]. apply (Forall_impl _ _ _ H). intros c. unfold isxdigit, isdigit. lia. Qed.

Lemma scan_escape (e bs rest : list Z) (l : Z) : jescape e bs -> ok rest ->
  loop (BACKSLASH :: e ++ rest) l true = loop rest l true.
Proof.
  intros He Hr. destruct He as [c b Hb | ds H | ds H | ds H | ds lo H Hlo]; simpl; rewrite step_escape by auto; [done|..];
    try (by apply string_plain; [apply hex4_plain|]).
  rewrite <- app_assoc. rewrite string_plain by (try apply hex4_plain; auto 6). simpl.
  rewrite step_escape by auto. by apply string_plain; [apply hex4_plain|].
Qed.

Lemma scan_chars (raw dec rest : list Z) (l : Z) : jchars raw dec -> ok rest ->
  loop (raw ++ rest) l true = loop rest l true.
Proof.
  intros H Hr. induction H as [|c r d Hc Hq Hb _ IH | e bs r d He _ IH]; [done|..]; simpl.
  - by rewrite step_string by auto.
  - rewrite <- app_assoc. by rewrite (scan_escape e bs) by auto.
Qed.

Lemma neutral_string (b : Z) (raw dec : list Z) : jchars raw dec -> neutral b (QUOTE :: raw ++ [QUOTE]).
Proof.
  intros H l rest Hl Hr. flat_app. rewrite step_quote by auto. cbn [negb].
  rewrite (scan_chars raw dec) by auto. by rewrite step_quote by auto.
Qed.

Lemma number_plain (t : list Z) : jnumber t -> Forall (fun c => json_special c = false) t.
Proof.
  assert (Hd : forall ds, json_digits ds -> Forall (fun c => json_special c = false) ds).
  { intros ds H. apply (Forall_impl _ _ _ H). intros c. unfold isdigit, json_special. lia. }
  destruct 1 as [sign int frac ex Hs Hi _ _ Hf Hex]. rewrite !Forall_app. split_and!.
  - destruct Hs as [-> | ->]; repeat constructor.
  - auto.
  - destruct Hf as [-> | (ds & -> & H)]; constructor; auto.
  - destruct Hex as [-> | (e & s & ds & -> & He & Hs' & H & _)]; [constructor|].
    constructor; [by destruct He as [-> | ->]|]. apply Forall_app. split; [|auto].
    destruct Hs' as [-> | [-> | ->]]; repeat constructor.
Qed.

Section Level.
  Context {double : Type} (P : list Z -> jsonobj double -> Prop).
  Hypothesis HP : forall t x, P t x -> neutral base t.

Lemma neutral_inner (t : list Z) (x : jsonobj double) : P t x -> neutral inner t.
Proof. intros H. eapply neutral_weaken; [|by eapply HP]. lia. Qed.

Lemma neutral_comma : neutral inner [COMMA].
Proof. intros l rest Hl Hr. apply step_comma; [auto|lia]. Qed.

Lemma neutral_cons (b c : Z) (s : list Z) : neutral b [c] -> neutral b s -> neutral b (c :: s).
Proof. apply (neutral_app b [c]). Qed.

Lemma neutral_elements (ts : list Z) (xs : list (jsonobj double)) : jelements P ts xs -> neutral inner ts.
Proof.
  induction 1 as [w1 t x w2 H1 Ht H2 | w1 t x w2 ts xs H1 Ht H2 _ IH];
    (apply neutral_app; [by apply neutral_ws|]); (apply neutral_app; [by eapply neutral_inner|]); [by apply neutral_ws|].
  apply neutral_app; [by apply neutral_ws|]. apply neutral_cons; [apply neutral_comma|done].
Qed.

Lemma neutral_member (w1 raw name w2 w3 t w4 : list Z) (x : jsonobj double) :
  json_ws w1 -> jchars raw name -> json_ws w2 -> json_ws w3 -> P t x -> json_ws w4 ->
  neutral base (jmember w1 raw w2 w3 t w4).
Proof.
  intros H1 Hr H2 H3 Ht H4. unfold jmember.
  replace (w1 ++ QUOTE :: raw ++ QUOTE :: w2 ++ COLON :: w3 ++ t ++ w4)
    with (w1 ++ (QUOTE :: raw ++ [QUOTE]) ++ w2 ++ [COLON] ++ w3 ++ t ++ w4) by (flat_app; done).
  apply neutral_app; [by apply neutral_ws|]. apply neutral_app; [by eapply neutral_string|].
  apply neutral_app; [by apply neutral_ws|]. apply neutral_app; [apply neutral_plain; by repeat constructor|].
  apply neutral_app; [by apply neutral_ws|]. apply neutral_app; [by eapply HP|by apply neutral_ws].
Qed.

Lemma neutral_members (ts : list Z) (ms : list (list Z * jsonobj double)) : jmembers P ts ms -> neutral inner ts.
Proof.
  induction 1 as [w1 raw name w2 w3 t x w4 H1 Hr H2 H3 Ht H4 | w1 raw name w2 w3 t x w4 ts ms H1 Hr H2 H3 Ht H4 _ IH].
  - eapply neutral_weaken; [|by eapply neutral_member]. lia.
  - apply neutral_app; [eapply neutral_weaken; [|by eapply neutral_member]; lia|].
    apply neutral_cons; [apply neutral_comma|done].
Qed.

(** The contents of a container and its closing bracket. *)
Lemma neutral_brackets (s : list Z) (o c : Z) : o = LBRACKET \/ o = LBRACE -> c = RBRACKET \/ c = RBRACE ->
  neutral inner s -> neutral base (o :: s ++ [c]).
Proof.
  intros Ho Hc Hs l rest Hl Hr. flat_app. rewrite step_open by auto. rewrite Hs by (lia || auto).
  rewrite step_close by (auto || lia). f_equal. lia.
Qed.

Lemma neutral_container (t : list Z) (x : jsonobj double) : jcontainer P t x -> neutral base t.
Proof.
  destruct 1 as [w Hw | ts xs H | w Hw | ts ms H]; apply neutral_brackets; auto using neutral_ws.
  - by eapply neutral_elements.
  - by eapply neutral_members.
Qed.
End Level.

Lemma neutral_value {double : Type} (num : list Z -> double) (n : nat) (t : list Z) (x : jsonobj double) :
  jvalue num n t x -> neutral base t.
Proof.
  revert t x. induction n as [|n IH]; intros t x; [done|].
  destruct 1 as [raw s H | t H | | | | t x H]; try (apply neutral_plain; by repeat constructor).
  - by eapply neutral_string.
  - by apply neutral_plain, number_plain.
  - by eapply neutral_container.
Qed.
End Scan.
