(* ===== verification/JsonReadRun.v ===== *)
(** What the readers in place give on a text of the grammar: the brackets of a
    container, its elements in order, and the value of the first pair that has
    a name. *)

From stdpp Require Import base list numbers strings.
From Stdlib Require Import ZArith Lia.
From S2P Require Import Prelude JsonString JsonParse JsonGrammar JsonRun JsonRead JsonScan.
Import CharConst.

Open Scope Z_scope.

(* ------------------------------------------------------------------ *)
(** ** The two scans *)

Lemma special_false (c : Z) : json_special c = false ->
  (c =? QUOTE) = false /\ (c =? BACKSLASH) = false /\ (c =? LBRACKET) || (c =? LBRACE) = false /\
  (c =? RBRACKET) || (c =? RBRACE) = false /\ (c =? COMMA) = false.
Proof. unfold json_special. lia. Qed.

Ltac scan_step :=
  intros; cbn [next_loop rbracket_loop];
  repeat match goal with
  | H : ptr_le _ _ = true |- _ => rewrite H; clear H
  | H : json_special _ = false |- _ => apply special_false in H; let E5 := fresh in destruct H as (-> & -> & -> & -> & E5); rewrite ?E5; clear E5
  | H : _ \/ _ |- _ => destruct H as [-> | ->]
  | H : ?c <> ?k |- _ => rewrite (proj2 (Z.eqb_neq c k) H); clear H
  end; cbn [negb]; try done; repeat case_match; try done; try (f_equal; lia); try lia.

Lemma next_neutral {double : Type} (num : list Z -> double) (end_ : list Z) (n : nat) (t : list Z) (x : jsonobj double) :
  jvalue num n t x -> neutral (next_loop end_) (fun p => ptr_le p end_ = true) 0 t.
Proof.
  apply (neutral_value _ _ 0 1); [lia| |scan_step..].
  intros c p. unfold ptr_le. rewrite !Nat.leb_le. simpl. lia.
Qed.

Lemma rbracket_neutral {double : Type} (num : list Z -> double) (rb : Z) (n : nat) (t : list Z) (x : jsonobj double) :
  jvalue num n t x -> neutral (rbracket_loop rb) (fun _ => True) 1 t.
Proof. apply (neutral_value _ _ 1 1); [lia|done|scan_step..]. Qed.

(* ------------------------------------------------------------------ *)
(** ** Brackets *)

Section Mono.
  Context {double : Type} (P Q : list Z -> jsonobj double -> Prop) (HPQ : forall t x, P t x -> Q t x).

Lemma jelements_mono (ts : list Z) (xs : list (jsonobj double)) : jelements P ts xs -> jelements Q ts xs.
Proof. induction 1; constructor; auto. Qed.

Lemma jmembers_mono (ts : list Z) (ms : list (list Z * jsonobj double)) : jmembers P ts ms -> jmembers Q ts ms.
Proof. induction 1; constructor; auto. Qed.

Lemma jcontainer_mono (t : list Z) (x : jsonobj double) : jcontainer P t x -> jcontainer Q t x.
Proof.
  destruct 1; [by constructor | apply jcontainer_array; by apply jelements_mono |
    by apply jcontainer_object0 | apply jcontainer_object; by apply jmembers_mono].
Qed.
End Mono.

Lemma jvalue_mono {double : Type} (num : list Z -> double) (n : nat) (t : list Z) (x : jsonobj double) :
  jvalue num n t x -> jvalue num (S n) t x.
Proof.
  revert t x. induction n as [|n IH]; intros t x; [done|].
  destruct 1 as [raw s H | t H | | | | t x H]; try (by constructor).
  apply jvalue_container. by apply (jcontainer_mono _ _ IH).
Qed.

Lemma jvalue_le {double : Type} (num : list Z -> double) (n m : nat) (t : list Z) (x : jsonobj double) :
  (n <= m)%nat -> jvalue num n t x -> jvalue num m t x.
Proof. induction 1 as [|m _ IH]; [done|]. intros H. by apply jvalue_mono, IH. Qed.

(** A container is its brackets and what is between them, which the scan for
    the closing bracket passes over. *)
Lemma container_brackets {double : Type} (num : list Z -> double) (n : nat) (rb : Z) (t : list Z) (x : jsonobj double) :
  jcontainer (jvalue num n) t x ->
  exists o s c, t = o :: s ++ [c] /\ (o = LBRACKET /\ c = RBRACKET \/ o = LBRACE /\ c = RBRACE) /\
    neutral (rbracket_loop rb) (fun _ => True) 1 s.
Proof.
  pose proof (fun t x => rbracket_neutral num rb n t x) as HP.
  destruct 1 as [w Hw | ts xs H | w Hw | ts ms H]; eexists _, _, _; (split; [reflexivity|]); (split; [by auto|]).
  - eapply neutral_ws; [..|done]; scan_step.
  - apply (neutral_elements _ _ 1 1) with (P := jvalue num n) (xs := xs); try done; scan_step.
  - eapply neutral_ws; [..|done]; scan_step.
  - apply (neutral_members _ _ 1 1) with (P := jvalue num n) (ms := ms); try done; scan_step.
Qed.

(** The whole text of a container is between the brackets that are found. *)
Lemma brackets_open_container {double : Type} (num : list Z -> double) (n : nat) (t rest : list Z) (x : jsonobj double) :
  jcontainer (jvalue num n) t x ->
  exists c, zbx_json_brackets_open (t ++ rest) = Some {| jp_start := t ++ rest; jp_end := c :: rest |} /\
    (c = RBRACKET \/ c = RBRACE) /\ last t = Some c.
Proof.
  intros H.
  assert (E : exists o s c, t = o :: s ++ [c] /\ (o = LBRACKET /\ c = RBRACKET \/ o = LBRACE /\ c = RBRACE) /\
    __zbx_json_rbracket (t ++ rest) = Some (c :: rest)).
  { destruct (container_brackets num n RBRACKET t x H) as (o & s & c & -> & Hb & Hn).
    destruct (container_brackets num n RBRACE _ x H) as (o' & s' & c' & E' & Hb' & Hn').
    injection E' as <- E'. apply app_inj_tail in E' as [<- <-].
    exists o, s, c. split; [done|]. split; [done|]. unfold __zbx_json_rbracket. cbn [app]. rewrite <- app_assoc.
    destruct Hb as [[-> ->] | [-> ->]]; cbn [chr nth rbracket_loop Z.eqb orb negb andb Pos.eqb].
    - change (0 + 1) with 1. rewrite Hn by (done || lia). done.
    - change (0 + 1) with 1. rewrite Hn' by (done || lia). done. }
  destruct E as (o & s & c & -> & Hb & E). exists c. unfold zbx_json_brackets_open. rewrite E.
  split; [|split; [tauto|]].
  - cbn [app]. rewrite start_ws; [done|]. destruct Hb as [[-> _] | [-> _]]; done.
  - by rewrite app_comm_cons, last_snoc.
Qed.

(* ------------------------------------------------------------------ *)
(** ** Elements *)

(** The pointers that repeated calls of zbx_json_next give, from [p] on. *)
Inductive iterates (jp : zbx_json_parse) : option (list Z) -> list (list Z) -> Prop :=
| iterates_end p : zbx_json_next jp p = None -> iterates jp p []
| iterates_next p q ps : zbx_json_next jp p = Some q -> iterates jp (Some q) ps -> iterates jp p (q :: ps).

(** A pointer at a value. *)
Definition at_value {double : Type} (num : list Z -> double) (n : nat) (p : list Z) (x : jsonobj double) : Prop :=
  exists t rest, p = t ++ rest /\ jvalue num n t x /\ json_delimited rest.

Lemma ptr_le_app (s p : list Z) : ptr_le (s ++ p) p = true.
Proof. unfold ptr_le. apply Nat.leb_le. rewrite length_app. lia. Qed.

Lemma ptr_le_refl (p : list Z) : ptr_le p p = true.
Proof. apply (ptr_le_app []). Qed.

Lemma next_ws (end_ w rest : list Z) : json_ws w -> ptr_le rest end_ = true ->
  next_loop end_ (w ++ rest) 0 false = next_loop end_ rest 0 false.
Proof.
  intros Hw Hr. apply (neutral_ws (next_loop end_) (fun p => ptr_le p end_ = true)) with (b := 0); try done; [|scan_step].
  intros c p. unfold ptr_le. rewrite !Nat.leb_le. simpl. lia.
Qed.

Lemma next_comma (end_ p : list Z) : ptr_le (COMMA :: p) end_ = true ->
  next_loop end_ (COMMA :: p) 0 false = Some (SKIP_WHITESPACE p).
Proof. intros H. cbn [next_loop]. by rewrite H. Qed.

Lemma next_end (rest : list Z) (c : Z) : c = RBRACKET \/ c = RBRACE -> next_loop (c :: rest) (c :: rest) 0 false = None.
Proof. intros Hc. cbn [next_loop]. rewrite ptr_le_refl. by destruct Hc as [-> | ->]. Qed.

Section Elements.
  Context {double : Type} (num : list Z -> double) (n : nat) (jp : zbx_json_parse).
  Context (rest : list Z) (c : Z) (Hc : c = RBRACKET \/ c = RBRACE) (Hend : jp_end jp = c :: rest).
  (** More than two brackets. *)
  Hypothesis Hlong : ptr_sub (jp_end jp) (jp_start jp) =? 1 = false.

(** From a value, the next call goes over it and the white space behind it. *)
Lemma next_value (t w p : list Z) (x : jsonobj double) :
  jvalue num n t x -> json_ws w -> ptr_le p (jp_end jp) = true ->
  zbx_json_next jp (Some (t ++ w ++ p)) = next_loop (jp_end jp) p 0 false.
Proof.
  intros Ht Hw Hp. unfold zbx_json_next. rewrite Hlong.
  rewrite (next_neutral num (jp_end jp) n t x Ht 0 (w ++ p)); [by apply next_ws|lia|].
  revert Hp. unfold ptr_le. rewrite !Nat.leb_le, length_app. lia.
Qed.

Lemma iterates_elements (ts : list Z) (xs : list (jsonobj double)) : jelements (jvalue num n) ts xs ->
  exists p ps, SKIP_WHITESPACE (ts ++ c :: rest) = p /\ iterates jp (Some p) ps /\
    Forall2 (at_value num n) (p :: ps) xs.
Proof.
  assert (Hdel : json_delimited (c :: rest)) by (right; destruct Hc; auto).
  induction 1 as [w1 t x w2 H1 Ht H2 | w1 t x w2 ts xs H1 Ht H2 Hts (p & ps & Ep & Hit & Hps)];
    destruct (jvalue_start _ _ _ _ Ht) as (d & t' & Et & Hd & _).
  - exists (t ++ w2 ++ c :: rest), []. flat_app. split_and!.
    + rewrite Et. cbn [app]. by apply ws_stop.
    + apply iterates_end. rewrite (next_value t w2 _ x Ht H2), Hend; [by apply next_end|].
      rewrite Hend. apply ptr_le_refl.
    + constructor; [|constructor]. exists t, (w2 ++ c :: rest). split_and!; [done..|by apply ws_delimited].
  - exists (t ++ w2 ++ COMMA :: ts ++ c :: rest), (p :: ps). flat_app. split_and!.
    + rewrite Et. cbn [app]. by apply ws_stop.
    + apply (iterates_next _ _ p); [|done]. rewrite (next_value t w2 _ x Ht H2).
      * rewrite next_comma; [by rewrite Ep|]. rewrite Hend. apply (ptr_le_app (COMMA :: ts)).
      * rewrite Hend. apply (ptr_le_app (COMMA :: ts)).
    + constructor; [|done]. exists t, (w2 ++ COMMA :: ts ++ c :: rest). split_and!; [done..|].
      apply ws_delimited; [done|]. simpl. auto.
Qed.
End Elements.

Lemma ptr_sub_cons (o : Z) (s q : list Z) : ptr_sub q (o :: s ++ q) = 1 + Z.of_nat (length s).
Proof. unfold ptr_sub. simpl length. rewrite length_app. lia. Qed.

(** The elements of an array, in order. *)
Lemma array_iterates {double : Type} (num : list Z -> double) (n : nat) (ts rest : list Z) (xs : list (jsonobj double)) :
  jelements (jvalue num n) ts xs ->
  exists ps, iterates {| jp_start := LBRACKET :: ts ++ RBRACKET :: rest; jp_end := RBRACKET :: rest |} None ps /\
    Forall2 (at_value num n) ps xs.
Proof.
  intros H. set (jp := {| jp_start := _; jp_end := _ |}).
  assert (Hlong : ptr_sub (jp_end jp) (jp_start jp) =? 1 = false).
  { cbn [jp_start jp_end jp]. rewrite ptr_sub_cons. apply Z.eqb_neq.
    destruct H as [w1 t x w2 _ Ht | w1 t x w2 ts xs _ Ht]; destruct (jvalue_start _ _ _ _ Ht) as (d & t' & -> & _);
      rewrite !length_app; simpl; lia. }
  destruct (iterates_elements num n jp rest RBRACKET (or_introl eq_refl) eq_refl Hlong ts xs H) as (p & ps & Ep & Hit & Hps).
  exists (p :: ps). split; [|done]. apply (iterates_next _ _ p); [|done].
  unfold zbx_json_next. rewrite Hlong. cbn [jp_start jp tail]. by rewrite Ep.
Qed.

(** Counting is iterating. *)
Lemma count_iterates (jp : zbx_json_parse) (p : option (list Z)) (ps : list (list Z)) (fuel : nat) (num : Z) :
  iterates jp p ps -> (length ps < fuel)%nat -> count_loop fuel jp p num = Ret (num + Z.of_nat (length ps)).
Proof.
  intros H. revert fuel num. induction H as [p E | p q ps E H IH]; intros [|fuel] num Hf; simpl in Hf; try lia;
    cbn [count_loop]; rewrite E.
  - simpl. f_equal. lia.
  - rewrite IH by lia. simpl. f_equal. lia.
Qed.

Lemma elements_length {double : Type} (P : list Z -> jsonobj double -> Prop) (ts : list Z) (xs : list (jsonobj double)) :
  jelements P ts xs -> (length xs <= S (length ts))%nat.
Proof. induction 1; simpl; [lia|]. rewrite !length_app. simpl. lia. Qed.

(* ------------------------------------------------------------------ *)
(** ** Pairs *)

(** The members of an object with the bytes of their names and the texts of
    their values. *)
Inductive jpairs {double : Type} (P : list Z -> jsonobj double -> Prop) :
    list Z -> list (list Z * list Z * jsonobj double) -> Prop :=
| jpairs_last w1 raw name w2 w3 t x w4 :
    json_ws w1 -> jchars raw name -> json_ws w2 -> json_ws w3 -> P t x -> json_ws w4 ->
    jpairs P (jmember w1 raw w2 w3 t w4) [(name, t, x)]
| jpairs_cons w1 raw name w2 w3 t x w4 ts ps :
    json_ws w1 -> jchars raw name -> json_ws w2 -> json_ws w3 -> P t x -> json_ws w4 -> jpairs P ts ps ->
    jpairs P (jmember w1 raw w2 w3 t w4 ++ COMMA :: ts) ((name, t, x) :: ps).

Lemma jmembers_jpairs {double : Type} (P : list Z -> jsonobj double -> Prop) (ts : list Z) (ms : list (list Z * jsonobj double)) :
  jmembers P ts ms -> exists ps, jpairs P ts ps /\ ms = (fun p => (cstr p.1.1, p.2)) <$> ps.
Proof.
  induction 1 as [w1 raw name w2 w3 t x w4 | w1 raw name w2 w3 t x w4 ts ms H1 Hr H2 H3 Ht H4 _ (ps & IH & ->)];
    [exists [(name, t, x)] | exists ((name, t, x) :: ps)]; (split; [by constructor|done]).
Qed.

Lemma jpairs_jmembers {double : Type} (P : list Z -> jsonobj double -> Prop) (ts : list Z) ps :
  jpairs P ts ps -> exists ms, jmembers P ts ms.
Proof.
  induction 1 as [w1 raw name w2 w3 t x w4 | w1 raw name w2 w3 t x w4 ts ps H1 Hr H2 H3 Ht H4 _ (ms & IH)];
    [exists [(cstr name, x)] | exists ((cstr name, x) :: ms)]; by constructor.
Qed.

(** The first member with a name. *)
Fixpoint first_pair {double : Type} (name : list Z) (ps : list (list Z * list Z * jsonobj double)) : option (list Z * jsonobj double) :=
  match ps with
  | [] => None
  | (n, t, x) :: ps => if decide (name = cstr n) then Some (t, x) else first_pair name ps
  end.

Section Pairs.
  Context {double : Type} (num : list Z -> double) (n : nat) (jp : zbx_json_parse) (rest : list Z).
  Hypothesis Hend : jp_end jp = RBRACE :: rest.
  Hypothesis Hlong : ptr_sub (jp_end jp) (jp_start jp) =? 1 = false.

(** A pointer from which the next call gives the member at [p]. *)
Lemma pair_next_member (q : option (list Z)) (raw name w2 w3 t p : list Z) (x : jsonobj double) (len : Z) :
  zbx_json_next jp q = Some (QUOTE :: raw ++ QUOTE :: w2 ++ COLON :: w3 ++ t ++ p) ->
  jchars raw name -> json_ws w2 -> json_ws w3 -> jvalue num n t x -> Z.of_nat (length name) < len ->
  zbx_json_pair_next jp q len = Ret (Some (cstr name, t ++ p)).
Proof.
  intros Hq Hr H2 H3 Ht Hl. unfold zbx_json_pair_next. rewrite Hq. cbn [__zbx_json_type chr nth].
  change (bool_decide (__zbx_json_type (QUOTE :: ?l) = ZBX_JSON_TYPE_STRING)) with true || idtac.
  assert (Hs : json_copy_string (QUOTE :: raw ++ QUOTE :: w2 ++ COLON :: w3 ++ t ++ p) len =
               Ret (Some (name, w2 ++ COLON :: w3 ++ t ++ p))).
  { unfold json_copy_string. rewrite (proj2 (Z.eqb_neq _ _)) by lia. cbn [tail].
    apply (copy_complete raw name _ []); [done| |simpl; lia]. simpl. rewrite length_app. lia. }
  rewrite Hs. run. rewrite ws_stop by done.
  change (chr (COLON :: w3 ++ t ++ p) 0 =? COLON) with true. cbn [tail].
  destruct (jvalue_start _ _ _ _ Ht) as (d & t' & -> & Hd & _). cbn [app]. rewrite ws_stop by done. done.
Qed.

Lemma pair_loop (ts : list Z) (ps : list (list Z * list Z * jsonobj double)) (name : list Z) :
  jpairs (jvalue num n) ts ps -> Forall (fun p => Z.of_nat (length p.1.1) < MAX_STRING_LEN) ps ->
  forall fuel q, (length ps < fuel)%nat -> zbx_json_next jp q = Some (SKIP_WHITESPACE (ts ++ RBRACE :: rest)) ->
  exists r, pair_by_name_loop fuel jp name q = Ret r /\
    match first_pair name ps with
    | None => r = None
    | Some (t, x) => exists p, r = Some (t ++ p) /\ json_delimited p /\ jvalue num n t x
    end.
Proof.
  induction 1 as [w1 raw nm w2 w3 t x w4 H1 Hr H2 H3 Ht H4 | w1 raw nm w2 w3 t x w4 ts ps H1 Hr H2 H3 Ht H4 Hps IH];
    intros Hsh [|fuel] q Hf Hq; simpl in Hf; try lia; apply Forall_cons in Hsh as [Hn Hsh]; cbn [fst] in Hn;
    unfold jmember in Hq; revert Hq; flat_app; rewrite ws_stop by done; intros Hq; cbn [pair_by_name_loop first_pair].
  - rewrite (pair_next_member q raw nm w2 w3 t (w4 ++ RBRACE :: rest) x MAX_STRING_LEN) by done. run.
    destruct (decide (name = cstr nm)).
    + eexists. split; [done|]. eexists. split; [done|]. split; [|done]. apply ws_delimited; [done|]. simpl. auto.
    + destruct fuel as [|fuel]; [lia|]. cbn [pair_by_name_loop].
      assert (E : zbx_json_next jp (Some (t ++ w4 ++ RBRACE :: rest)) = None).
      { rewrite (next_value num n jp Hlong t w4 _ x Ht H4), Hend; [apply next_end; auto|]. rewrite Hend. apply ptr_le_refl. }
      unfold zbx_json_pair_next. rewrite E. run. by eexists.
  - rewrite (pair_next_member q raw nm w2 w3 t (w4 ++ COMMA :: ts ++ RBRACE :: rest) x MAX_STRING_LEN) by done. run.
    destruct (decide (name = cstr nm)).
    + eexists. split; [done|]. eexists. split; [done|]. split; [|done]. apply ws_delimited; [done|]. simpl. auto.
    + apply IH; [done|lia|]. rewrite (next_value num n jp Hlong t w4 _ x Ht H4).
      * apply next_comma. rewrite Hend. apply (ptr_le_app (COMMA :: ts)).
      * rewrite Hend. apply (ptr_le_app (COMMA :: ts)).
Qed.
End Pairs.

Lemma jpairs_length {double : Type} (P : list Z -> jsonobj double -> Prop) (ts : list Z) ps :
  jpairs P ts ps -> (2 <= length ts)%nat /\ (length ps <= length ts)%nat.
Proof. induction 1; unfold jmember in *; rewrite ?length_app; simpl; rewrite ?length_app; simpl; rewrite ?length_app; simpl; lia. Qed.

(** zbx_json_pair_by_name gives the value of the first pair with the name. *)
Lemma pair_by_name_first {double : Type} (num : list Z -> double) (n : nat) (ts rest name : list Z) ps :
  jpairs (jvalue num n) ts ps -> Forall (fun p => Z.of_nat (length p.1.1) < MAX_STRING_LEN) ps ->
  exists r, zbx_json_pair_by_name {| jp_start := LBRACE :: ts ++ RBRACE :: rest; jp_end := RBRACE :: rest |} name = Ret r /\
    match first_pair name ps with
    | None => r = None
    | Some (t, x) => exists p, r = Some (t ++ p) /\ json_delimited p /\ jvalue num n t x
    end.
Proof.
  intros H Hsh. pose proof (jpairs_length _ _ _ H) as [H1 H2]. set (jp := {| jp_start := _; jp_end := _ |}).
  assert (Hlong : ptr_sub (jp_end jp) (jp_start jp) =? 1 = false).
  { cbn [jp_start jp_end jp]. rewrite ptr_sub_cons. apply Z.eqb_neq. lia. }
  unfold zbx_json_pair_by_name.
  apply (pair_loop num n jp rest eq_refl Hlong ts ps name H Hsh); [cbn [jp_start jp length]; rewrite length_app; lia|].
  unfold zbx_json_next. by rewrite Hlong.
Qed.

(* ------------------------------------------------------------------ *)
(** ** Values *)

(** What a caller gets of a value: the string, the text of a number or literal,
    nothing of null; a container is not decoded. *)
Definition decoded {double : Type} (t : list Z) (x : jsonobj double) : option (list Z * zbx_json_type_t) :=
  match x with
  | JString s => Some (s, ZBX_JSON_TYPE_STRING)
  | JNumber _ => Some (t, ZBX_JSON_TYPE_INT)
  | JTrue => Some (t, ZBX_JSON_TYPE_TRUE)
  | JFalse => Some (t, ZBX_JSON_TYPE_FALSE)
  | JNull => Some ([], ZBX_JSON_TYPE_NULL)
  | JArray _ | JObject _ => None
  end.

Lemma value_length {double : Type} (num : list Z -> double) (n : nat) (t p : list Z) (x : jsonobj double) :
  jvalue num n t x -> (n <= 65)%nat -> json_delimited p -> json_value_length (t ++ p) = Ret (Z.of_nat (length t)).
Proof.
  intros Ht Hn Hp. apply (jvalue_le num n 65) in Ht; [|done].
  destruct (jvalue_retype num (fun _ => tt) 65 t x Ht) as (y & Hy).
  unfold json_value_length.
  pose proof (vp_complete _ _ _ (json_value_parser_0 (fun _ => tt) (fun _ => tt) false (fun _ _ _ _ _ => eq_refl))
    [] t y p ltac:(constructor) Hy Hp) as E.
  cbn [app] in E. rewrite E.
  run. unfold ptr_sub. rewrite length_app. f_equal. lia.
Qed.

Lemma copy_unquoted (t p : list Z) (size : Z) : Z.of_nat (length t) < size ->
  zbx_json_copy_unquoted_value (t ++ p) (Z.of_nat (length t)) size = Some (t, p).
Proof.
  intros H. unfold zbx_json_copy_unquoted_value. rewrite (proj2 (Z.ltb_ge _ _)) by lia.
  by rewrite Nat2Z.id, take_app_length, drop_app_length.
Qed.

Lemma number_type (t p : list Z) : jnumber t -> __zbx_json_type (t ++ p) = ZBX_JSON_TYPE_INT.
Proof.
  intros H. destruct (jnumber_start t H) as (c & t' & -> & Hc). unfold __zbx_json_type. change (chr ((c :: t') ++ p) 0) with c.
  assert (Hd : isdigit c || (c =? (ch "-")) = true) by by rewrite orb_true_iff, Z.eqb_eq.
  destruct (digit_cases c Hd) as (_ & _ & Hq & _). by rewrite (proj2 (Z.eqb_neq _ _) Hq), Hd.
Qed.

Lemma number_c_string (t : list Z) : jnumber t -> c_string t.
Proof.
  assert (Hd : forall ds, json_digits ds -> c_string ds).
  { intros ds H. apply (Forall_impl _ _ _ H). intros c. unfold isdigit. lia. }
  unfold c_string in *. destruct 1 as [sign int frac ex Hs Hi _ _ Hf Hex]. rewrite !Forall_app. split_and!.
  - destruct Hs as [-> | ->]; repeat constructor; lia.
  - auto.
  - destruct Hf as [-> | (ds & -> & H)]; constructor; auto; lia.
  - destruct Hex as [-> | (e & s & ds & -> & He & Hs' & H & _)]; [constructor|].
    constructor; [lia|]. apply Forall_app. split; [|auto]. destruct Hs' as [-> | [-> | ->]]; repeat constructor; lia.
Qed.

Lemma container_type {double : Type} (P : list Z -> jsonobj double -> Prop) (t p : list Z) (x : jsonobj double) :
  jcontainer P t x -> is_primitive (__zbx_json_type (t ++ p)) = false /\ decoded t x = None.
Proof. destruct 1; done. Qed.

(** A buffer longer than the text of the value is enough. *)
Lemma decodevalue_spec {double : Type} (num : list Z -> double) (n : nat) (t p : list Z) (x : jsonobj double) (size : Z) :
  jvalue num n t x -> (n <= 65)%nat -> json_delimited p -> Z.of_nat (length t) < size ->
  zbx_json_decodevalue (t ++ p) size = Ret (option_map (fun r => (r, p)) (decoded t x)).
Proof.
  intros Ht Hn Hp Hs. unfold zbx_json_decodevalue. pose proof (value_length num n t p x Ht Hn Hp) as Hlen.
  destruct (jvalue_start _ _ _ _ Ht) as (d & t' & Et & _).
  assert (H0 : (Z.of_nat (length t) =? 0) = false) by (rewrite Et; simpl; lia).
  destruct n as [|n]; [done|].
  destruct Ht as [raw s H | t H | | | | t x H].
  - change (__zbx_json_type ((QUOTE :: raw ++ [QUOTE]) ++ p)) with ZBX_JSON_TYPE_STRING.
    cbn [is_primitive]. rewrite Hlen. run. rewrite H0. unfold json_copy_value, json_copy_string.
    pose proof (jchars_length _ _ H). cbn [length] in Hs. rewrite length_app in Hs. cbn [length] in Hs.
    rewrite (proj2 (Z.eqb_neq _ _)) by lia. flat_app. cbn [tail].
    rewrite (copy_complete raw s p []); [done|done|simpl; rewrite length_app; simpl; lia|simpl; lia].
  - rewrite number_type by done. rewrite Hlen. cbn [is_primitive]. run. rewrite H0. unfold json_copy_value.
    rewrite copy_unquoted by done. run. simpl. by rewrite (cstr_c_string t (number_c_string t H)).
  - change (__zbx_json_type (bytes_of "true" ++ p)) with ZBX_JSON_TYPE_TRUE. cbn [is_primitive].
    rewrite Hlen. run. rewrite H0. unfold json_copy_value. by rewrite copy_unquoted.
  - change (__zbx_json_type (bytes_of "false" ++ p)) with ZBX_JSON_TYPE_FALSE. cbn [is_primitive].
    rewrite Hlen. run. rewrite H0. unfold json_copy_value. by rewrite copy_unquoted.
  - change (__zbx_json_type (bytes_of "null" ++ p)) with ZBX_JSON_TYPE_NULL. cbn [is_primitive].
    rewrite Hlen. run. rewrite H0. unfold json_copy_value. rewrite (proj2 (Z.eqb_neq size 0)) by (simpl in Hs; lia). done.
  - destruct (container_type _ t p x H) as [-> ->]. done.
Qed.

(** Opening an array of the grammar and asking for its elements one by one
    gives pointers to its values, in order and all of them, and counting the
    elements gives their number. *)
Theorem json_array_elements {double : Type} (num : list Z -> double) (n : nat) (ts rest : list Z)
    (xs : list (jsonobj double)) (H : jelements (jvalue num n) ts xs) :
  exists jp ps, zbx_json_brackets_open (LBRACKET :: ts ++ RBRACKET :: rest) = Some jp /\
    iterates jp None ps /\ Forall2 (at_value num n) ps xs /\ zbx_json_count jp = Ret (Z.of_nat (length xs)).
Proof.
  destruct (brackets_open_container num n _ rest _ (jcontainer_array _ ts xs H)) as (c & E & _ & Hc).
  rewrite app_comm_cons, last_snoc in Hc. injection Hc as <-. revert E. flat_app. intros E.
  destruct (array_iterates num n ts rest xs H) as (ps & Hit & Hps). eexists _, ps. split; [exact E|].
  split; [done|]. split; [done|]. unfold zbx_json_count. rewrite (count_iterates _ _ ps); [|done|].
  - by rewrite (Forall2_length _ _ _ Hps).
  - rewrite (Forall2_length _ _ _ Hps). pose proof (elements_length _ _ _ H). cbn [jp_start length].
    rewrite length_app. simpl. lia.
Qed.

Lemma json_array_elements_witness :
  jelements (jvalue number_chars 1) (bytes_of " null, []") [JNull; JArray []] /\
  exists jp ps, zbx_json_brackets_open (LBRACKET :: bytes_of " null, []" ++ RBRACKET :: bytes_of "}") = Some jp /\
    iterates jp None ps /\ Forall2 (at_value number_chars 1) ps [JNull; JArray []] /\ zbx_json_count jp = Ret 2.
Proof.
  assert (H : jelements (jvalue number_chars 1) (bytes_of " null, []") [JNull; JArray []]).
  { apply (jelements_cons _ [32] (bytes_of "null") JNull [] (bytes_of " []") [JArray []]);
      [by repeat constructor | apply jvalue_null | constructor |].
    apply (jelements_last _ [32] (bytes_of "[]") (JArray []) []); [by repeat constructor | | constructor].
    apply jvalue_container, (jcontainer_array0 _ []). constructor. }
  split; [exact H|]. exact (json_array_elements number_chars 1 _ (bytes_of "}") _ H).
Defined.

(** C24: zbx_json_value_by_name gives the value of the first pair that has the
    name: the string, the text of a number or literal, the empty string for
    null; it fails where there is no such pair or its value is an object or
    array.  Names must be shorter than its 2048 byte buffer and the caller's
    buffer longer than the text of the value. *)
Theorem json_value_by_name_first {double : Type} (num : list Z -> double) (n : nat) (ts rest name : list Z)
    (ps : list (list Z * list Z * jsonobj double)) (size : Z)
    (Hps : jpairs (jvalue num n) ts ps) (Hn : (n <= 65)%nat)
    (Hshort : Forall (fun p => Z.of_nat (length p.1.1) < MAX_STRING_LEN) ps)
    (Hroom : forall t x, first_pair name ps = Some (t, x) -> Z.of_nat (length t) < size) :
  exists jp, zbx_json_brackets_open (LBRACE :: ts ++ RBRACE :: rest) = Some jp /\
    zbx_json_value_by_name jp name size =
    Ret (match first_pair name ps with Some (t, x) => decoded t x | None => None end).
Proof.
  destruct (jpairs_jmembers _ ts ps Hps) as (ms & Hms).
  destruct (brackets_open_container num n _ rest _ (jcontainer_object _ ts ms Hms)) as (c & E & _ & Hc).
  rewrite app_comm_cons, last_snoc in Hc. injection Hc as <-. revert E. flat_app. intros E.
  eexists. split; [exact E|]. unfold zbx_json_value_by_name.
  destruct (pair_by_name_first num n ts rest name ps Hps Hshort) as (r & -> & Hr). run.
  destruct (first_pair name ps) as [[t x]|]; [|by subst].
  destruct Hr as (p & -> & Hp & Ht). rewrite (decodevalue_spec num n t p x size Ht Hn Hp (Hroom t x eq_refl)). run.
  by destruct (decoded t x).
Qed.

Example two_names : list Z := jmember [] (bytes_of "a") [] [] (bytes_of "1") [] ++ COMMA ::
  jmember [32] (bytes_of "a") [32] [] (bytes_of "true") [].

Lemma json_value_by_name_first_witness :
  exists jp, zbx_json_brackets_open (LBRACE :: two_names ++ RBRACE :: []) = Some jp /\
    zbx_json_value_by_name jp (bytes_of "a") 10 = Ret (Some (bytes_of "1", ZBX_JSON_TYPE_INT)).
Proof.
  assert (Ha : jchars (bytes_of "a") (bytes_of "a")).
  { apply (jchars_plain 97 [] []); [lia|done|done|constructor]. }
  assert (Hps : jpairs (jvalue number_chars 1) two_names
    [(bytes_of "a", bytes_of "1", JNumber (bytes_of "1")); (bytes_of "a", bytes_of "true", JTrue)]).
  { apply jpairs_cons; [constructor|exact Ha|constructor|constructor| |constructor|].
    - change (JNumber (bytes_of "1")) with (JNumber (number_chars (bytes_of "1"))).
      apply (jvalue_number number_chars _ (bytes_of "1")). change (bytes_of "1") with ([] ++ bytes_of "1" ++ [] ++ []).
      apply jnumber_intro; [by left|by repeat constructor|done|discriminate|by left|by left].
    - apply jpairs_last; [by repeat constructor|exact Ha|by repeat constructor|constructor|apply jvalue_true|constructor]. }
  apply (json_value_by_name_first number_chars 1 two_names [] (bytes_of "a") _ 10 Hps).
  - lia.
  - repeat constructor.
  - intros t x [= <- <-]. vm_compute. reflexivity.
Defined.

(** An array of white space alone counts one element, and an object of white
    space alone is not empty; the document is valid. *)
Example blank_array_counts_one :
  zbx_json_validate (bytes_of "[ ]") = Ret (inr 3) /\
  (j ← zbx_json_open (bytes_of "[ ]"); match j with Some jp => zbx_json_count jp | None => Undef end) = Ret 1.
Proof. split; vm_compute; reflexivity. Qed.

Example blank_object_not_empty :
  (j ← zbx_json_open (bytes_of "{ }"); match j with Some jp => Ret (zbx_json_object_is_empty jp) | None => Undef end) =
  Ret false.
Proof. vm_compute. reflexivity. Qed.
