(* ===== verification/VcHistory.v ===== *)
(** Item history as the history tables keep it and as the value cache is asked
    for it: timestamps, records, the table of one item sorted by time, the window
    a request describes, and the interface by which the cache reads the tables. *)

From stdpp Require Import base list numbers strings sorting.
From Stdlib Require Import ZArith Lia.
From S2P Require Import Prelude.

Open Scope Z_scope.

(* ------------------------------------------------------------------ *)
(** ** Timestamps and records *)

Record timespec := Timespec { ts_sec : Z; ts_ns : Z }.

(** zbx_timespec_compare. *)
Definition zbx_timespec_compare (t1 t2 : timespec) : Z :=
  if ts_sec t1 =? ts_sec t2 then ts_ns t1 - ts_ns t2 else ts_sec t1 - ts_sec t2.

Record log_value := LogValue
  { log_text : string; log_source : option string; log_timestamp : Z; log_severity : Z; log_logeventid : Z }.

Inductive history_value :=
  | HV_dbl (bits : Z)
  | HV_ui64 (n : Z)
  | HV_str (s : string)
  | HV_log (l : log_value).

Record hrec := HRec { timestamp : timespec; value : history_value }.

#[export] Instance timespec_eq_dec : EqDecision timespec.
Proof. solve_decision. Defined.
#[export] Instance log_value_eq_dec : EqDecision log_value.
Proof. solve_decision. Defined.
#[export] Instance history_value_eq_dec : EqDecision history_value.
Proof. solve_decision. Defined.
#[export] Instance hrec_eq_dec : EqDecision hrec.
Proof. solve_decision. Defined.

Notation sec r := (ts_sec (timestamp r)).
Notation ns r := (ts_ns (timestamp r)).

Inductive value_type :=
  | ITEM_VALUE_TYPE_FLOAT | ITEM_VALUE_TYPE_STR | ITEM_VALUE_TYPE_LOG
  | ITEM_VALUE_TYPE_UINT64 | ITEM_VALUE_TYPE_TEXT | ITEM_VALUE_TYPE_BIN.

#[export] Instance value_type_eq_dec : EqDecision value_type.
Proof. solve_decision. Defined.

Definition ZBX_JAN_2038 : Z := 2145916800.

(** zbx_history_record_compare_asc and _desc. *)
Definition zbx_history_record_compare_asc (d1 d2 : hrec) : Z :=
  if sec d1 =? sec d2 then ns d1 - ns d2 else sec d1 - sec d2.

Definition zbx_history_record_compare_desc (d1 d2 : hrec) : Z :=
  if sec d1 =? sec d2 then ns d2 - ns d1 else sec d2 - sec d1.

(** The orders the comparison functions stand for. *)
Definition ts_lt (a b : timespec) : Prop := zbx_timespec_compare a b < 0.
Definition ts_le (a b : timespec) : Prop := zbx_timespec_compare a b <= 0.
Definition rec_lt (a b : hrec) : Prop := ts_lt (timestamp a) (timestamp b).
Definition asc (a b : hrec) : Prop := zbx_history_record_compare_asc a b <= 0.
Definition desc (a b : hrec) : Prop := zbx_history_record_compare_desc a b <= 0.

#[export] Instance ts_lt_dec a b : Decision (ts_lt a b).
Proof. apply Z_lt_dec. Defined.
#[export] Instance ts_le_dec a b : Decision (ts_le a b).
Proof. apply Z_le_dec. Defined.
#[export] Instance asc_dec a b : Decision (asc a b).
Proof. apply Z_le_dec. Defined.
#[export] Instance desc_dec a b : Decision (desc a b).
Proof. apply Z_le_dec. Defined.

Ltac tcmp :=
  unfold rec_lt, asc, desc, ts_lt, ts_le, zbx_timespec_compare, zbx_history_record_compare_asc,
    zbx_history_record_compare_desc in *;
  repeat match goal with
  | |- context [?a =? ?b] => destruct (Z.eqb_spec a b)
  | H : context [?a =? ?b] |- _ => destruct (Z.eqb_spec a b)
  end; lia.

#[export] Instance rec_lt_trans : Transitive rec_lt.
Proof. intros a b c. tcmp. Qed.
#[export] Instance asc_trans : Transitive asc.
Proof. intros a b c. tcmp. Qed.
#[export] Instance asc_total : Total asc.
Proof. intros a b. tcmp. Qed.
#[export] Instance desc_trans : Transitive desc.
Proof. intros a b c. tcmp. Qed.
#[export] Instance desc_total : Total desc.
Proof. intros a b. tcmp. Qed.

Lemma compare_asc_timespec (a b : hrec) :
  zbx_history_record_compare_asc a b = zbx_timespec_compare (timestamp a) (timestamp b).
Proof. reflexivity. Qed.

(** zbx_vector_history_record_sort with one of the two comparisons; the order
    of equal timestamps is left to qsort. *)
Definition sort_asc : list hrec -> list hrec := merge_sort asc.
Definition sort_desc : list hrec -> list hrec := merge_sort desc.

(* ------------------------------------------------------------------ *)
(** ** The history of one item *)

(** The records of an item in a history table, oldest first.  The primary key
    (itemid, clock, ns) makes the timestamps distinct; the clocks lie between
    February 1970, which is all the reading by growing periods needs, and 2038. *)
Definition HIST_MIN : Z := 40 * 86400.

Definition hist_ok (H : list hrec) : Prop :=
  StronglySorted rec_lt H /\ Forall (fun r => HIST_MIN < sec r < ZBX_JAN_2038) H.

Lemma hist_ok_nil : hist_ok [].
Proof. split; constructor. Qed.

(** A new row of the table. *)
Fixpoint hist_insert (v : hrec) (H : list hrec) : list hrec :=
  match H with
  | [] => [v]
  | r :: H' => if zbx_history_record_compare_asc v r <? 0 then v :: H else r :: hist_insert v H'
  end.

Definition sec_in (from to : Z) (r : hrec) : Prop := from < sec r <= to.
#[export] Instance sec_in_dec from to r : Decision (sec_in from to r).
Proof. unfold sec_in. apply _. Defined.

(** The rows with [from < clock <= to]. *)
Definition rows (H : list hrec) (from to : Z) : list hrec := filter (sec_in from to) H.

(** What a request is for: the values up to [ts], newest first, no older than
    [seconds] when that is set and no more than [count] when that is set. *)
Definition in_window (seconds : Z) (ts : timespec) (r : hrec) : Prop :=
  ts_le (timestamp r) ts /\ (seconds = 0 \/ ts_lt (Timespec (ts_sec ts - seconds) (ts_ns ts)) (timestamp r)).
#[export] Instance in_window_dec seconds ts r : Decision (in_window seconds ts r).
Proof. unfold in_window. apply _. Defined.

Definition window (H : list hrec) (seconds count : Z) (ts : timespec) : list hrec :=
  let l := reverse (filter (in_window seconds ts) H) in
  if count =? 0 then l else take (Z.to_nat count) l.

(* ------------------------------------------------------------------ *)
(** ** Sorted lists of records *)

Lemma SS_filter {A : Type} (R : A -> A -> Prop) (P : A -> Prop) `{forall x, Decision (P x)} (l : list A) :
  StronglySorted R l -> StronglySorted R (filter P l).
Proof.
  induction 1 as [|x l Hl IH Hx]; [constructor|].
  rewrite filter_cons. case_decide; [|done].
  constructor; [done|]. rewrite Forall_forall in *. intros y (_ & Hy)%list_elem_of_filter. auto.
Qed.

Lemma SS_asc (l : list hrec) : StronglySorted rec_lt l -> StronglySorted asc l.
Proof.
  induction 1 as [|x l _ IH Hx]; constructor; [done|].
  eapply Forall_impl; [exact Hx|]. intros y. tcmp.
Qed.

Lemma SS_times (l : list hrec) (a b : hrec) :
  StronglySorted rec_lt l -> a ∈ l -> b ∈ l -> zbx_history_record_compare_asc a b = 0 -> a = b.
Proof.
  induction 1 as [|x l _ IH Hx]; intros Ha Hb E; [by apply not_elem_of_nil in Ha|].
  rewrite Forall_forall in Hx.
  apply elem_of_cons in Ha as [-> | Ha]; apply elem_of_cons in Hb as [-> | Hb]; auto.
  - specialize (Hx b Hb). tcmp.
  - specialize (Hx a Ha). tcmp.
Qed.

(** Sorting any arrangement of rows gives them in time order. *)
Lemma sort_asc_rows (l l' : list hrec) : StronglySorted rec_lt l -> l' ≡ₚ l -> sort_asc l' = l.
Proof.
  intros Hl Hp. assert (Hperm : sort_asc l' ≡ₚ l) by (unfold sort_asc; by rewrite merge_sort_Permutation).
  apply (StronglySorted_unique_strong asc); [|apply StronglySorted_merge_sort; apply _|by apply SS_asc|done].
  intros a b Ha Hb H1 H2. rewrite Hperm in Ha. apply (SS_times l); try done. tcmp.
Qed.

Lemma SS_reverse (l : list hrec) : StronglySorted rec_lt l -> StronglySorted desc (reverse l).
Proof.
  induction 1 as [|x l _ IH Hx]; [constructor|]. rewrite reverse_cons, StronglySorted_app. split_and!; [|done|by repeat constructor].
  intros a b Ha ->%list_elem_of_singleton. rewrite elem_of_reverse in Ha. rewrite Forall_forall in Hx.
  specialize (Hx a Ha). tcmp.
Qed.

Lemma sort_desc_rows (l l' : list hrec) : StronglySorted rec_lt l -> l' ≡ₚ l -> sort_desc l' = reverse l.
Proof.
  intros Hl Hp.
  assert (Hperm : sort_desc l' ≡ₚ reverse l) by (unfold sort_desc; by rewrite merge_sort_Permutation, reverse_Permutation).
  apply (StronglySorted_unique_strong desc); [|apply StronglySorted_merge_sort; apply _|by apply SS_reverse|done].
  intros a b Ha Hb H1 H2. rewrite Hperm in Ha. rewrite elem_of_reverse in Ha, Hb. apply (SS_times l); try done. tcmp.
Qed.

Lemma filter_none {A : Type} (P : A -> Prop) `{forall x, Decision (P x)} (l : list A) :
  Forall (fun x => ~ P x) l -> filter P l = [].
Proof. induction 1 as [|x l Hx _ IH]; [done|]. by rewrite filter_cons, decide_False. Qed.

Lemma filter_all {A : Type} (P : A -> Prop) `{forall x, Decision (P x)} (l : list A) :
  Forall P l -> filter P l = l.
Proof. induction 1 as [|x l Hx _ IH]; [done|]. by rewrite filter_cons, decide_True, IH. Qed.

Lemma filter_ext {A : Type} (P Q : A -> Prop) `{forall x, Decision (P x)} `{forall x, Decision (Q x)} (l : list A) :
  Forall (fun x => P x <-> Q x) l -> filter P l = filter Q l.
Proof.
  induction 1 as [|x l Hx _ IH]; [done|]. rewrite !filter_cons, IH. do 2 case_decide; tauto.
Qed.

(** A sorted list splits where a downward closed condition ends. *)
Lemma filter_split (P : hrec -> Prop) `{forall r, Decision (P r)} (l : list hrec) :
  StronglySorted rec_lt l -> (forall a b, rec_lt a b -> P b -> P a) ->
  l = filter P l ++ filter (fun r => ~ P r) l.
Proof.
  intros Hl Hd. induction Hl as [|x l _ IH Hx]; [done|].
  rewrite !filter_cons. case_decide as HP.
  - rewrite decide_False by tauto. simpl. by rewrite <- IH.
  - rewrite decide_True by done. rewrite IH at 1.
    rewrite filter_none; [done|]. eapply Forall_impl; [exact Hx|]. simpl. eauto.
Qed.

Lemma Forall_filter_not {A : Type} (P : A -> Prop) `{forall x, Decision (P x)} (l : list A) :
  Forall P (filter P l).
Proof. apply Forall_forall. by intros x [? _]%list_elem_of_filter. Qed.

Lemma hist_ok_app (l1 l2 : list hrec) :
  hist_ok (l1 ++ l2) -> hist_ok l1 /\ hist_ok l2.
Proof. intros [(_ & H1 & H2)%StronglySorted_app [? ?]%Forall_app]. done. Qed.

Lemma hist_ok_lt (l1 l2 : list hrec) (a b : hrec) :
  hist_ok (l1 ++ l2) -> a ∈ l1 -> b ∈ l2 -> rec_lt a b.
Proof. intros [(Hx & _ & _)%StronglySorted_app _]. auto. Qed.

(** The rows up to the end of the history, from a second on, are a suffix. *)
Lemma rows_suffix (H : list hrec) (from to : Z) :
  hist_ok H -> Forall (fun r => sec r <= to) H ->
  exists old, H = old ++ rows H from to /\ Forall (fun r => sec r <= from) old.
Proof.
  intros [HS _] Hto. exists (filter (fun r => sec r <= from) H). split; [|apply Forall_filter_not].
  rewrite (filter_split (fun r => sec r <= from) H) at 1; [|done|intros a b; tcmp].
  f_equal. apply filter_ext. rewrite Forall_forall in *. intros r Hr. specialize (Hto r Hr). unfold sec_in. lia.
Qed.

Lemma rows_app (l1 l2 : list hrec) (from to : Z) : rows (l1 ++ l2) from to = rows l1 from to ++ rows l2 from to.
Proof. apply filter_app. Qed.

Lemma rows_sorted (H : list hrec) (from to : Z) : StronglySorted rec_lt H -> StronglySorted rec_lt (rows H from to).
Proof. apply SS_filter. Qed.

(* ------------------------------------------------------------------ *)
(** ** Insertion *)

Lemma hist_insert_between (l1 l2 : list hrec) (v : hrec) :
  Forall (fun r => rec_lt r v) l1 -> Forall (fun r => rec_lt v r) l2 ->
  hist_insert v (l1 ++ l2) = l1 ++ v :: l2.
Proof.
  intros H1 H2. induction H1 as [|x l1 Hx _ IH]; simpl.
  - destruct H2 as [|y l2 Hy _]; simpl; [done|].
    destruct (Z.ltb_spec (zbx_history_record_compare_asc v y) 0); [done|]. tcmp.
  - rewrite IH. destruct (Z.ltb_spec (zbx_history_record_compare_asc v x) 0); [tcmp|done].
Qed.

Definition fresh (v : hrec) (H : list hrec) : Prop := Forall (fun r => timestamp r <> timestamp v) H.

Lemma hist_split (H : list hrec) (v : hrec) :
  hist_ok H -> fresh v H ->
  exists l1 l2, H = l1 ++ l2 /\ Forall (fun r => rec_lt r v) l1 /\ Forall (fun r => rec_lt v r) l2.
Proof.
  intros [HS _] Hf.
  exists (filter (fun r => rec_lt r v) H), (filter (fun r => ~ rec_lt r v) H). split_and!.
  - apply (filter_split (fun r => rec_lt r v)); [done|]. intros a b. tcmp.
  - apply Forall_filter_not.
  - apply Forall_forall. intros r [Hn Hr]%list_elem_of_filter. unfold fresh in Hf. rewrite Forall_forall in Hf.
    specialize (Hf r Hr). destruct r as [[s n] x], v as [[s' n'] x']. simpl in *.
    assert (s <> s' \/ n <> n') by (destruct (decide (s = s')), (decide (n = n')); subst; tauto).
    revert Hn. unfold rec_lt, ts_lt, zbx_timespec_compare. simpl.
    destruct (Z.eqb_spec s s'), (Z.eqb_spec s' s); lia.
Qed.

Lemma hist_insert_ok (H : list hrec) (v : hrec) :
  hist_ok H -> fresh v H -> HIST_MIN < sec v < ZBX_JAN_2038 -> hist_ok (hist_insert v H).
Proof.
  intros HH Hf Hv. destruct (hist_split H v HH Hf) as (l1 & l2 & -> & H1 & H2).
  rewrite hist_insert_between by done. destruct HH as [(Hx & HS1 & HS2)%StronglySorted_app [Hr1 Hr2]%Forall_app].
  split; [|by rewrite Forall_app, Forall_cons].
  rewrite StronglySorted_app. split_and!; [|done|by constructor].
  rewrite Forall_forall in H1, H2. intros a b Ha [-> | Hb]%elem_of_cons; auto.
Qed.

(* ------------------------------------------------------------------ *)
(** ** Windows of a suffix *)

Lemma window_suffix (old vs : list hrec) (seconds count : Z) (ts : timespec) :
  Forall (fun r => ~ in_window seconds ts r) old ->
  window (old ++ vs) seconds count ts = window vs seconds count ts.
Proof. intros H. unfold window. by rewrite filter_app, filter_none. Qed.

Lemma window_enough (old vs : list hrec) (seconds count : Z) (ts : timespec) :
  0 < count <= Z.of_nat (length (filter (in_window seconds ts) vs)) ->
  window (old ++ vs) seconds count ts = window vs seconds count ts.
Proof.
  intros H. unfold window. destruct (Z.eqb_spec count 0); [lia|].
  rewrite filter_app, reverse_app, take_app_le; [done|]. rewrite length_reverse. lia.
Qed.

(* ------------------------------------------------------------------ *)
(** ** The storage interface *)

(** The interface the value cache reads history by: the table of an item,
    the vector with the values read so far, ]start, end] and the number of
    values (0 for all of them).  [Ret None] is FAIL. *)
Class HistoryBackend :=
  zbx_history_get_values : list hrec -> list hrec -> Z -> Z -> Z -> res (option (list hrec)).

(** Rows that come newest second first. *)
Definition sec_ge (a b : hrec) : Prop := sec b <= sec a.
#[export] Instance sec_ge_trans : Transitive sec_ge.
Proof. intros a b c. unfold sec_ge. lia. Qed.

(** What the backend promises for a table the housekeeper has cleaned: whole
    seconds, and with a count at least that many values less one, or all. *)
Class HistoryLaws `{HistoryBackend} (visible : list hrec -> Prop) := {
  history_by_time (H values : list hrec) (start end_ : Z) :
    hist_ok H -> visible H -> start <= end_ ->
    exists l, zbx_history_get_values H values start 0 end_ = Ret (Some (values ++ l)) /\
      l ≡ₚ rows H start end_;
  history_by_count (H values : list hrec) (start count end_ : Z) :
    hist_ok H -> visible H -> 0 <= start <= end_ -> 0 < count -> HIST_MIN <= end_ ->
    Forall (fun r => end_ < sec r) values ->
    exists l start', zbx_history_get_values H values start count end_ = Ret (Some (values ++ l)) /\
      l ≡ₚ rows H start' end_ /\ StronglySorted sec_ge l /\ start <= start' <= end_ /\
      (start' = start \/ count - 1 <= Z.of_nat (length l))
}.

(** The loop that drops the values of one second from the end of a vector. *)
Fixpoint drop_second (t : Z) (newest_last : list hrec) : list hrec :=
  match newest_last with
  | [] => []
  | r :: l => if sec r =? t then drop_second t l else newest_last
  end.

Definition drop_last_second (t : Z) (values : list hrec) : list hrec :=
  reverse (drop_second t (reverse values)).

(* ------------------------------------------------------------------ *)
(** ** Rows and whole seconds *)

Lemma filter_perm_or {A : Type} (P Q R : A -> Prop) `{forall x, Decision (P x)} `{forall x, Decision (Q x)}
    `{forall x, Decision (R x)} (l : list A) :
  (forall x, P x <-> Q x \/ R x) -> (forall x, Q x -> R x -> False) ->
  filter P l ≡ₚ filter Q l ++ filter R l.
Proof.
  intros E D. induction l as [|x l IH]; [done|]. rewrite !filter_cons.
  specialize (E x). specialize (D x). repeat case_decide; try tauto.
  - by rewrite IH.
  - rewrite IH. by rewrite Permutation_middle.
Qed.

Lemma rows_split (H : list hrec) (a b c : Z) : a <= b <= c -> rows H a c ≡ₚ rows H b c ++ rows H a b.
Proof. intros Habc. apply filter_perm_or; intros x; unfold sec_in; lia. Qed.

Lemma rows_empty (H : list hrec) (a b : Z) : b <= a -> rows H a b = [].
Proof. intros Hab. apply filter_none, Forall_forall. intros x _. unfold sec_in. lia. Qed.

Lemma rows_in (H : list hrec) (a b : Z) : Forall (fun r => a < sec r <= b) (rows H a b).
Proof. apply Forall_filter_not. Qed.

Lemma perm_Forall {A : Type} (P : A -> Prop) (l l' : list A) : l ≡ₚ l' -> Forall P l' -> Forall P l.
Proof. intros E HF. rewrite Forall_forall in *. intros x Hx. apply HF. by rewrite <- E. Qed.

Lemma perm_filter {A : Type} (P : A -> Prop) `{forall x, Decision (P x)} (l l' : list A) :
  l ≡ₚ l' -> filter P l ≡ₚ filter P l'.
Proof. intros E. by rewrite E. Qed.

Lemma drop_last_second_spec (t : Z) (l1 l2 : list hrec) :
  Forall (fun r => t < sec r) l1 -> StronglySorted sec_ge l2 -> Forall (fun r => t <= sec r) l2 ->
  drop_last_second t (l1 ++ l2) = l1 ++ filter (fun r => t < sec r) l2.
Proof.
  intros H1. unfold drop_last_second. induction l2 as [|r l IH] using rev_ind; intros HS H2.
  - rewrite !app_nil_r. destruct l1 as [|x l1 _] using rev_ind; [done|].
    rewrite Forall_app, Forall_singleton in H1. destruct H1 as [_ Hx]. rewrite reverse_snoc. simpl.
    simpl in Hx. destruct (Z.eqb_spec (sec x) t); [lia|]. by rewrite reverse_cons, reverse_involutive.
  - apply StronglySorted_app in HS as (Hlr & HS & _). rewrite Forall_app, Forall_singleton in H2. destruct H2 as [H2 Hr].
    simpl in Hr. rewrite app_assoc, reverse_snoc, filter_app. cbn [drop_second].
    destruct (Z.eqb_spec (sec r) t) as [E | Hne].
    + rewrite IH by done. rewrite (filter_none _ [r]); [by rewrite app_nil_r|]. constructor; [lia|done].
    + rewrite reverse_cons, reverse_involutive, <- app_assoc. f_equal.
      rewrite !filter_all; [done|constructor; [lia|done]|].
      apply Forall_forall. intros x Hx. specialize (Hlr x r Hx ltac:(by apply list_elem_of_singleton)).
      unfold sec_ge in Hlr. lia.
Qed.

Lemma sorted_take_last (Q : list hrec) (n : nat) (r : hrec) :
  StronglySorted sec_ge Q -> last (take n Q) = Some r ->
  Forall (fun x => sec r <= sec x) (take n Q) /\ Forall (fun x => sec x <= sec r) (drop n Q).
Proof.
  intros HS Hl. rewrite <- (take_drop n Q) in HS. apply StronglySorted_app in HS as (H12 & H1 & _).
  destruct (take n Q) as [|y l _] using rev_ind; [done|]. rewrite last_snoc in Hl. simplify_eq.
  apply StronglySorted_app in H1 as (Hlr & _ & _). split.
  - apply Forall_app. split; [|by constructor]. apply Forall_forall. intros x Hx.
    apply (Hlr x r Hx). by apply list_elem_of_singleton.
  - apply Forall_forall. intros x Hx. apply (H12 r x); [|done]. apply elem_of_app. right. by apply list_elem_of_singleton.
Qed.

Lemma SS_const (t : Z) (l : list hrec) : Forall (fun r => sec r = t) l -> StronglySorted sec_ge l.
Proof.
  induction 1 as [|x l Hx Hl IH]; constructor; [done|]. eapply Forall_impl; [exact Hl|]. unfold sec_ge. simpl. lia.
Qed.
