(* ===== verification/VcSql.v ===== *)
(** Reading item history from the history tables (zbxhistory/history_sql.c):
    all rows of a period, the newest rows by periods that grow, the newest rows
    of a period; the answers consist of whole seconds. *)

From stdpp Require Import base list numbers sorting.
From Stdlib Require Import ZArith Lia.
From S2P Require Import Prelude Calendar VcHistory.

Open Scope Z_scope.

(** The housekeeper settings zbx_recalc_time_period looks at, and the time. *)
Record hk_cfg := HkCfg { hk_history_global : Z; hk_history : Z; hk_now : Z }.

(** zbx_recalc_time_period for history tables. *)
Definition zbx_recalc_time_period (hk : hk_cfg) (ts_from : Z) : Z :=
  if negb (1 =? hk_history_global hk) then ts_from
  else
    let least_ts := hk_now hk - hk_history hk in
    if ts_from <? least_ts then least_ts else ts_from.

Section Sql.
  (** The database: the rows of a select in the order it happens to give them,
      and in descending order of their clock; None when the select fails. *)
  Context (db_select : list hrec -> option (list hrec)).
  Context (db_select_desc : list hrec -> option (list hrec)).
  Context (hk : hk_cfg).

(** zbx_db_select_n. *)
Definition db_select_n (order : list hrec -> option (list hrec)) (q : list hrec) (n : Z) : option (list hrec) :=
  option_map (take (Z.to_nat n)) (order q).

(** db_read_values_by_time. *)
Definition db_read_values_by_time (H values : list hrec) (seconds end_timestamp : Z) : option (list hrec) :=
  let time_from := zbx_recalc_time_period hk (end_timestamp - seconds) in
  let query :=
    if ZBX_JAN_2038 =? end_timestamp then Some (filter (fun r => time_from < sec r) H)
    else if 1 =? seconds then
      if negb (time_from =? end_timestamp - seconds) then None
      else Some (filter (fun r => sec r = end_timestamp) H)
    else Some (filter (fun r => time_from < sec r /\ sec r <= end_timestamp) H) in
  match query with
  | None => Some values
  | Some q =>
    match db_select q with
    | None => Some values
    | Some result => Some (values ++ result)
    end
  end.

Definition periods : list Z :=
  [SEC_PER_HOUR; 12 * SEC_PER_HOUR; SEC_PER_DAY; SEC_PER_DAY; SEC_PER_WEEK; 30 * SEC_PER_DAY; 0; -1].

(** [periods[step]]; past the end of the array the read is undefined. *)
Definition period (step : nat) : res Z :=
  match periods !! step with Some p => Ret p | None => Undef end.

(** The loop of db_read_values_by_count; each round moves [step] on. *)
Fixpoint by_count_loop (fuel : nat) (H values : list hrec) (clock_to : Z) (step : nat) (count : Z)
    : res (option (list hrec * Z)) :=
  match fuel with
  | O => NoFuel
  | S fuel =>
    p ← period step;
    if negb (-1 =? p) && (1 <? count) then
      let '(clock_from, step) :=
        if clock_to - p <? 0 then (clock_to, (length periods - 1)%nat) else (clock_to - p, step) in
      let q :=
        if clock_from =? clock_to then filter (fun r => sec r <= clock_to) H
        else filter (fun r => sec r <= clock_to /\ zbx_recalc_time_period hk clock_from < sec r) H in
      match db_select_n db_select_desc q count with
      | None => Ret None
      | Some result =>
        p' ← period step;
        by_count_loop fuel H (values ++ result) (clock_to - p') (S step) (count - Z.of_nat (length result))
      end
    else Ret (Some (values, count))
  end.

(** The values of the oldest second read are read again, all of them. *)
Definition reread_last_second (H values : list hrec) : res (option (list hrec)) :=
  match last values with
  | None => Undef
  | Some r => Ret (db_read_values_by_time H (drop_last_second (sec r) values) 1 (sec r))
  end.

(** db_read_values_by_count. *)
Definition db_read_values_by_count (H values : list hrec) (count end_timestamp : Z) : res (option (list hrec)) :=
  r ← by_count_loop (S (length periods)) H values end_timestamp 0 count;
  match r with
  | None => Ret None
  | Some (values, count) =>
    if 0 <? count then Ret (Some values) else reread_last_second H values
  end.

(** db_read_values_by_time_and_count. *)
Definition db_read_values_by_time_and_count (H values : list hrec) (seconds count end_timestamp : Z)
    : res (option (list hrec)) :=
  let result :=
    if 1 =? seconds then db_select_n db_select (filter (fun r => sec r = end_timestamp) H) count
    else db_select_n db_select_desc
      (filter (fun r => end_timestamp - seconds < sec r /\ sec r <= end_timestamp) H) count in
  match result with
  | None => Ret None
  | Some result =>
    if 0 <? count - Z.of_nat (length result) then Ret (Some (values ++ result))
    else reread_last_second H (values ++ result)
  end.

(** sql_get_values. *)
Definition sql_get_values (H values : list hrec) (start count end_ : Z) : res (option (list hrec)) :=
  if 0 =? count then Ret (db_read_values_by_time H values (end_ - start) end_)
  else if 0 =? start then db_read_values_by_count H values count end_
  else db_read_values_by_time_and_count H values (end_ - start) count end_.
End Sql.

(** A table has been cleaned by the housekeeper. *)
Definition visible (hk : hk_cfg) (H : list hrec) : Prop :=
  hk_history_global hk = 1 -> Forall (fun r => hk_now hk - hk_history hk < sec r) H.

(* ------------------------------------------------------------------ *)
(** ** The backend keeps its promises *)

Section SqlLaws.
  Context (db_select db_select_desc : list hrec -> option (list hrec)) (hk : hk_cfg).
  Hypothesis select_ok : forall q, exists l, db_select q = Some l /\ l ≡ₚ q.
  Hypothesis select_desc_ok : forall q, exists l, db_select_desc q = Some l /\ l ≡ₚ q /\ StronglySorted sec_ge l.

  Context (H : list hrec) (HH : hist_ok H) (Hvis : visible hk H).

Lemma recalc_time (from : Z) (r : hrec) :
  r ∈ H -> zbx_recalc_time_period hk from < sec r <-> from < sec r.
Proof using Hvis.
  intros Hr. unfold zbx_recalc_time_period, visible in *. destruct (Z.eqb_spec 1 (hk_history_global hk)) as [E|]; [|done].
  specialize (Hvis ltac:(lia)). rewrite Forall_forall in Hvis. specialize (Hvis r Hr). simpl.
  destruct (Z.ltb_spec from (hk_now hk - hk_history hk)); lia.
Qed.

Lemma filter_rows (P : hrec -> Prop) `{forall r, Decision (P r)} (from to : Z) :
  (forall r, r ∈ H -> P r <-> from < sec r <= to) -> filter P H = rows H from to.
Proof. intros E. apply filter_ext, Forall_forall. exact E. Qed.

Lemma read_by_time (values : list hrec) (start end_ : Z) :
  start <= end_ ->
  exists l, db_read_values_by_time db_select hk H values (end_ - start) end_ = Some (values ++ l) /\
    l ≡ₚ rows H start end_.
Proof using select_ok HH Hvis.
  intros Hse. unfold db_read_values_by_time. replace (end_ - (end_ - start)) with start by lia.
  assert (Hr : forall r, r ∈ H -> HIST_MIN < sec r < ZBX_JAN_2038).
  { destruct HH as [_ HF]. by rewrite Forall_forall in HF. }
  destruct (Z.eqb_spec ZBX_JAN_2038 end_) as [E | Hne].
  - rewrite (filter_rows _ start end_).
    2: { intros r Hin. rewrite recalc_time by done. specialize (Hr r Hin). lia. }
    destruct (select_ok (rows H start end_)) as (l & -> & Hl). eauto.
  - destruct (Z.eqb_spec 1 (end_ - start)) as [E1 | Hne1].
    + destruct (Z.eqb_spec (zbx_recalc_time_period hk start) start) as [E2 | Hne2]; cbn [negb].
      * rewrite (filter_rows _ start end_) by (intros r Hin; lia).
        destruct (select_ok (rows H start end_)) as (l & -> & Hl). eauto.
      * exists []. rewrite app_nil_r. split; [done|].
        unfold rows. rewrite filter_none; [done|]. apply Forall_forall. intros r Hin Hs.
        pose proof (recalc_time start r Hin) as Hrec. unfold sec_in in Hs.
        unfold zbx_recalc_time_period in *. destruct (negb _); [lia|]. simpl in *.
        destruct (Z.ltb_spec start (hk_now hk - hk_history hk)); lia.
    + rewrite (filter_rows _ start end_).
      2: { intros r Hin. rewrite recalc_time by done. lia. }
      destruct (select_ok (rows H start end_)) as (l & -> & Hl). eauto.
Qed.

(** Dropping the oldest second read and reading it whole. *)
Lemma reread_ok (values Q : list hrec) (n : nat) (start end_ : Z) :
  StronglySorted sec_ge Q -> Q ≡ₚ rows H start end_ -> take n Q <> [] ->
  Forall (fun r => end_ < sec r) values ->
  exists l t, reread_last_second db_select hk H (values ++ take n Q) = Ret (Some (values ++ l)) /\
    l ≡ₚ rows H t end_ /\ StronglySorted sec_ge l /\ start <= t <= end_ /\
    (length (take n Q) <= length l)%nat.
Proof using select_ok HH Hvis.
  intros HS HQ Hne Hv. destruct (last (take n Q)) as [r|] eqn:Hl; [|by apply last_None in Hl].
  destruct (sorted_take_last Q n r HS Hl) as [H1 H2].
  assert (Hb : Forall (fun x => start < sec x <= end_) Q) by (eapply perm_Forall; [exact HQ|apply rows_in]).
  assert (Hr : start < sec r <= end_).
  { rewrite Forall_forall in Hb. apply Hb. apply last_Some in Hl as [l' Hl].
    rewrite <- (take_drop n Q), Hl, !elem_of_app. left. right. by apply list_elem_of_singleton. }
  assert (HSt : StronglySorted sec_ge (take n Q)).
  { rewrite <- (take_drop n Q) in HS. by apply StronglySorted_app in HS as (_ & ? & _). }
  unfold reread_last_second. rewrite last_app, Hl.
  rewrite drop_last_second_spec; [|eapply Forall_impl; [exact Hv|simpl; lia]|done|done].
  destruct (read_by_time (values ++ filter (fun x => sec r < sec x) (take n Q)) (sec r - 1) (sec r) ltac:(lia))
    as (l2 & E & Hl2).
  replace (sec r - (sec r - 1)) with 1 in E by lia. rewrite E.
  set (l1 := filter (fun x => sec r < sec x) (take n Q)) in *.
  assert (Hl1 : l1 ≡ₚ rows H (sec r) end_).
  { assert (E1 : filter (fun x => sec r < sec x) Q = l1).
    { rewrite <- (take_drop n Q), filter_app, (filter_none _ (drop n Q)) by (eapply Forall_impl; [exact H2|simpl; lia]).
      by rewrite app_nil_r. }
    rewrite <- E1, HQ. unfold rows. rewrite list_filter_filter.
    apply Permutation_refl', filter_ext, Forall_forall. intros x _. unfold sec_in. lia. }
  exists (l1 ++ l2), (sec r - 1). split_and!; [by rewrite app_assoc| | |lia..|].
  - rewrite Hl1, Hl2. symmetry. apply rows_split. lia.
  - apply StronglySorted_app. split_and!; [|by apply SS_filter|].
    + intros a b (Ha & _)%list_elem_of_filter Hb'. rewrite Hl2 in Hb'. apply list_elem_of_filter in Hb' as [Hb' _].
      unfold sec_in, sec_ge in *. lia.
    + apply (SS_const (sec r)). eapply perm_Forall; [exact Hl2|]. eapply Forall_impl; [apply rows_in|]. simpl. lia.
  - assert (Hall : l1 ++ l2 ≡ₚ filter (fun x => sec r - 1 < sec x) Q).
    { rewrite Hl1, Hl2, HQ. rewrite <- rows_split by lia. unfold rows. rewrite list_filter_filter.
      apply Permutation_refl', filter_ext, Forall_forall. intros x _. unfold sec_in. lia. }
    rewrite Hall. rewrite <- (take_drop n Q) at 2. rewrite filter_app, length_app.
    rewrite (filter_all _ (take n Q)); [lia|]. eapply Forall_impl; [exact H1|]. simpl. lia.
Qed.

(** What db_select_n gives for an ordered query. *)
Lemma select_desc_n (q : list hrec) (n : Z) :
  exists Q, db_select_n db_select_desc q n = Some (take (Z.to_nat n) Q) /\ Q ≡ₚ q /\ StronglySorted sec_ge Q.
Proof using select_desc_ok.
  destruct (select_desc_ok q) as (Q & E & HQ & HS). exists Q. unfold db_select_n. by rewrite E.
Qed.

Lemma read_by_time_and_count (values : list hrec) (start count end_ : Z) :
  start <= end_ -> 0 < count -> Forall (fun r => end_ < sec r) values ->
  exists l start', db_read_values_by_time_and_count db_select db_select_desc hk H values (end_ - start) count end_
      = Ret (Some (values ++ l)) /\
    l ≡ₚ rows H start' end_ /\ StronglySorted sec_ge l /\ start <= start' <= end_ /\
    (start' = start \/ count - 1 <= Z.of_nat (length l)).
Proof using select_ok select_desc_ok HH Hvis.
  intros Hse Hc Hv. unfold db_read_values_by_time_and_count.
  assert (HQ : exists Q, (if 1 =? end_ - start
      then db_select_n db_select (filter (fun r => sec r = end_) H) count
      else db_select_n db_select_desc (filter (fun r => end_ - (end_ - start) < sec r /\ sec r <= end_) H) count)
      = Some (take (Z.to_nat count) Q) /\ Q ≡ₚ rows H start end_ /\ StronglySorted sec_ge Q).
  { destruct (Z.eqb_spec 1 (end_ - start)).
    - rewrite (filter_rows _ start end_) by (intros r _; lia).
      destruct (select_ok (rows H start end_)) as (Q & E & HQ). exists Q. unfold db_select_n. rewrite E.
      split_and!; [done|done|]. apply (SS_const end_). eapply perm_Forall; [exact HQ|].
      eapply Forall_impl; [apply rows_in|]. simpl. lia.
    - rewrite (filter_rows _ start end_) by (intros r _; lia). apply select_desc_n. }
  destruct HQ as (Q & -> & HQ & HS).
  destruct (Z.ltb_spec 0 (count - Z.of_nat (length (take (Z.to_nat count) Q)))) as [Hlt | Hge].
  - exists Q, start. rewrite take_ge by (rewrite length_take in Hlt; lia). split_and!; done || lia || by left.
  - destruct (reread_ok values Q (Z.to_nat count) start end_ HS HQ) as (l & t & E & Hl & HSl & Ht & Hlen).
    + intros E. rewrite E in Hge. simpl in Hge. lia.
    + done.
    + exists l, t. split_and!; try done || lia.
Qed.

(** The seconds covered by the first [step] periods. *)
Definition covered (step : nat) : Z := foldr Z.add 0 (take step periods).

(** The lower end of the rows read before round [step]. *)
Definition read_from (end_ : Z) (step : nat) : Z := if decide (step = 7%nat) then 0 else end_ - covered step.

Lemma period_step (step : nat) (end_ : Z) :
  (step <= 6)%nat -> HIST_MIN <= end_ ->
  exists p, period step = Ret p /\ 0 <= p /\ covered (S step) = covered step + p /\
    0 <= end_ - covered step - p /\ (p = 0 <-> step = 6%nat).
Proof.
  intros Hs He. unfold HIST_MIN in He.
  do 7 (destruct step as [|step]; [eexists; split; [reflexivity|]; unfold covered; cbn [take foldr periods];
    unfold SEC_PER_WEEK, SEC_PER_DAY, SEC_PER_HOUR; lia|]). lia.
Qed.

Lemma by_count_done (fuel : nat) (values : list hrec) (clock_to : Z) (step : nat) (count : Z) :
  (step <= 7)%nat -> count <= 1 ->
  by_count_loop db_select_desc hk (S fuel) H values clock_to step count = Ret (Some (values, count)).
Proof.
  intros Hs Hc. cbn [by_count_loop].
  assert (Hp : exists p, period step = Ret p) by (do 8 (destruct step as [|step]; [eexists; reflexivity|]); lia).
  destruct Hp as (p & ->). run. destruct (Z.ltb_spec 1 count); [lia|]. by rewrite andb_false_r.
Qed.

(** What a round of the loop reads, and the second from which it reads. *)
Lemma by_count_round (fuel : nat) (values : list hrec) (end_ : Z) (step : nat) (count : Z) :
  (step <= 6)%nat -> HIST_MIN <= end_ -> 1 < count ->
  exists Q, Q ≡ₚ rows H (read_from end_ (S step)) (end_ - covered step) /\ StronglySorted sec_ge Q /\
    0 <= read_from end_ (S step) <= end_ - covered step /\
    by_count_loop db_select_desc hk (S fuel) H values (end_ - covered step) step count =
    by_count_loop db_select_desc hk fuel H (values ++ take (Z.to_nat count) Q) (end_ - covered (S step)) (S step)
      (count - Z.of_nat (length (take (Z.to_nat count) Q))).
Proof using select_desc_ok HH Hvis.
  intros Hs He Hc. destruct (period_step step end_ Hs He) as (p & Hp & Hp0 & Hcov & Hpos & Hp6).
  assert (Hr : forall r, r ∈ H -> HIST_MIN < sec r < ZBX_JAN_2038).
  { destruct HH as [_ HF]. by rewrite Forall_forall in HF. }
  assert (Hrf : read_from end_ (S step) = if decide (step = 6%nat) then 0 else end_ - covered (S step)).
  { unfold read_from. do 2 case_decide; done || lia. }
  cbn [by_count_loop]. rewrite Hp. run.
  destruct (Z.eqb_spec (-1) p); [lia|]. destruct (Z.ltb_spec 1 count); [|lia]. cbn [negb andb].
  destruct (Z.ltb_spec (end_ - covered step - p) 0); [lia|].
  set (clock_to := end_ - covered step) in *.
  assert (Hq : (if clock_to - p =? clock_to then filter (fun r => sec r <= clock_to) H
      else filter (fun r => sec r <= clock_to /\ zbx_recalc_time_period hk (clock_to - p) < sec r) H)
      = rows H (read_from end_ (S step)) clock_to).
  { rewrite Hrf. destruct (Z.eqb_spec (clock_to - p) clock_to).
    - rewrite decide_True by lia. apply filter_rows. intros r Hin. specialize (Hr r Hin). unfold HIST_MIN in Hr. lia.
    - rewrite decide_False by lia. apply filter_rows. intros r Hin. rewrite recalc_time by done. lia. }
  rewrite Hq. destruct (select_desc_n (rows H (read_from end_ (S step)) clock_to) count) as (Q & -> & HQ & HS).
  exists Q. split_and!; try done.
  - rewrite Hrf. case_decide; lia.
  - rewrite Hrf. case_decide; lia.
  - rewrite Hp. run. by replace (clock_to - p) with (end_ - covered (S step)) by lia.
Qed.

(** The loop ends with all rows from some second on, or with as many of the
    newest rows as were asked for. *)
Lemma by_count_loop_ok (fuel step : nat) (values l : list hrec) (end_ n : Z) :
  HIST_MIN <= end_ -> (step <= 7)%nat -> (8 - step <= fuel)%nat ->
  l ≡ₚ rows H (read_from end_ step) end_ -> StronglySorted sec_ge l ->
  0 <= read_from end_ step <= end_ -> 0 < n - Z.of_nat (length l) ->
  exists l2 c2, by_count_loop db_select_desc hk fuel H (values ++ l) (end_ - covered step) step (n - Z.of_nat (length l))
      = Ret (Some (values ++ l2, c2)) /\ c2 = n - Z.of_nat (length l2) /\
    ((0 < c2 /\ StronglySorted sec_ge l2 /\ exists from, l2 ≡ₚ rows H from end_ /\ 0 <= from <= end_ /\ (from = 0 \/ c2 <= 1)) \/
     (c2 = 0 /\ exists from Q, Q ≡ₚ rows H from end_ /\ StronglySorted sec_ge Q /\ 0 <= from /\ l2 = take (length l2) Q)).
Proof using select_desc_ok HH Hvis.
  intros He. revert step l. induction fuel as [|fuel IH]; intros step l Hs Hf Hl HS Hrf Hn; [lia|].
  destruct (decide (step = 7%nat)) as [-> | Hs7].
  { exists l, (n - Z.of_nat (length l)). split_and!; [|done|left; eauto 10].
    cbn [by_count_loop]. by vm_compute period. }
  destruct (decide (1 < n - Z.of_nat (length l))) as [Hc | Hc].
  2: { rewrite by_count_done by lia. exists l, (n - Z.of_nat (length l)). split_and!; [done|done|left].
    split_and!; [done|done|]. exists (read_from end_ step). split_and!; done || lia || by right; lia. }
  destruct (by_count_round fuel (values ++ l) end_ step _ ltac:(lia) He Hc) as (Q & HQ & HSQ & Hrf2 & ->).
  set (c := Z.to_nat (n - Z.of_nat (length l))).
  assert (Hrs : read_from end_ step = end_ - covered step) by (unfold read_from; by case_decide).
  assert (HlQ : l ++ Q ≡ₚ rows H (read_from end_ (S step)) end_).
  { rewrite Hl, HQ, Hrs. symmetry. apply rows_split. lia. }
  assert (HSlQ : StronglySorted sec_ge (l ++ Q)).
  { apply StronglySorted_app. split_and!; [|done|done]. intros a b Ha Hb. rewrite Hl in Ha. rewrite HQ in Hb.
    apply list_elem_of_filter in Ha as [Ha _], Hb as [Hb _]. unfold sec_in, sec_ge in *. lia. }
  rewrite <- app_assoc. replace (n - Z.of_nat (length l) - Z.of_nat (length (take c Q)))
    with (n - Z.of_nat (length (l ++ take c Q))) by (rewrite length_app; lia).
  destruct (decide (length Q < c)%nat) as [Hlt | Hge].
  - rewrite take_ge by lia. apply IH; [lia|lia|done|done|lia|]. rewrite length_app. lia.
  - destruct fuel as [|fuel]; [lia|]. rewrite by_count_done; [|lia|rewrite length_app, length_take; lia].
    exists (l ++ take c Q), (n - Z.of_nat (length (l ++ take c Q))). split_and!; [done|done|right]. split.
    + rewrite length_app, length_take. lia.
    + exists (read_from end_ (S step)), (l ++ Q). split_and!; [done|done|lia|].
      rewrite length_app, length_take, Nat.min_l by lia. by rewrite take_app_add'.
Qed.

Lemma read_by_count (values : list hrec) (count end_ : Z) :
  HIST_MIN <= end_ -> 0 < count -> Forall (fun r => end_ < sec r) values ->
  exists l start', db_read_values_by_count db_select db_select_desc hk H values count end_ = Ret (Some (values ++ l)) /\
    l ≡ₚ rows H start' end_ /\ StronglySorted sec_ge l /\ 0 <= start' <= end_ /\
    (start' = 0 \/ count - 1 <= Z.of_nat (length l)).
Proof using select_ok select_desc_ok HH Hvis.
  intros He Hc Hv. unfold db_read_values_by_count.
  destruct (by_count_loop_ok (S (length periods)) 0 values [] end_ count) as (l & c & E & Ec & Hend); try done.
  - lia.
  - simpl. lia.
  - rewrite rows_empty; [done|]. unfold read_from, covered. simpl. lia.
  - constructor.
  - unfold read_from, covered, HIST_MIN in *. simpl. lia.
  - simpl. lia.
  - simpl length in E. rewrite app_nil_r, Z.sub_0_r in E. change (covered 0) with 0 in E. rewrite Z.sub_0_r in E.
    change (S (length periods)) with 9%nat. rewrite E. run. destruct Hend as [(Hpos & HS & from & Hl & Hfr & Hor) | (-> & from & Q & HQ & HS & Hfr & Hl)].
    + destruct (Z.ltb_spec 0 c); [|lia]. exists l, from. split_and!; try done || lia.
    + simpl. rewrite Hl. destruct (reread_ok values Q (length l) from end_ HS HQ) as (l' & t & -> & Hl' & HSl' & Ht & Hlen).
      * rewrite <- Hl. intros ->. simpl in Ec. lia.
      * done.
      * exists l', t. rewrite <- Hl in Hlen. split_and!; done || lia.
Qed.
End SqlLaws.

(** The SQL storage keeps the promises of the interface. *)
Section SqlBackend.
  Context (db_select db_select_desc : list hrec -> option (list hrec)) (hk : hk_cfg).
  Hypothesis select_ok : forall q, exists l, db_select q = Some l /\ l ≡ₚ q.
  Hypothesis select_desc_ok : forall q, exists l, db_select_desc q = Some l /\ l ≡ₚ q /\ StronglySorted sec_ge l.

Lemma sql_laws : @HistoryLaws (sql_get_values db_select db_select_desc hk) (visible hk).
Proof using select_ok select_desc_ok.
  split; intros *.
  - intros HH Hv Hse. destruct (read_by_time db_select hk select_ok H HH Hv values start end_ Hse) as (l & E & Hl).
    exists l. unfold zbx_history_get_values, sql_get_values. simpl. by rewrite E.
  - intros HH Hv Hse Hc He Hvs. unfold zbx_history_get_values, sql_get_values.
    destruct (Z.eqb_spec 0 count); [lia|]. destruct (Z.eqb_spec 0 start) as [<- | Hs].
    + by apply read_by_count.
    + apply read_by_time_and_count; try done. lia.
Qed.
End SqlBackend.
