(* ===== verification/VcDb.v ===== *)
(** The reads the value cache makes from the history storage
    (zbxcachevalue/valuecache.c, the vc_db_* functions): whole seconds for the
    cache, and the exact answer to a request when the cache is bypassed. *)

From stdpp Require Import base list numbers sorting.
From Stdlib Require Import ZArith Lia.
From S2P Require Import Prelude VcHistory.

Open Scope Z_scope.

Section Reads.
  Context `{HistoryBackend}.

(** Backends exclude the start of the interval. *)
Definition interval_start (range_start : Z) : Z :=
  if negb (0 =? range_start) then range_start - 1 else range_start.

Definition vc_db_read_values_by_time (T values : list hrec) (range_start range_end : Z) : res (option (list hrec)) :=
  zbx_history_get_values T values (interval_start range_start) 0 range_end.

(** The number of values of the newest second read that are past [ts]. *)
Fixpoint count_past (ts : timespec) (last_timestamp : Z) (values : list hrec) : Z :=
  match values with
  | [] => 0
  | r :: l =>
    if sec r =? last_timestamp then
      (if zbx_timespec_compare ts (timestamp r) <? 0 then 1 else 0) + count_past ts last_timestamp l
    else 0
  end.

(** The number of values not past [ts]. *)
Fixpoint count_upto (ts : timespec) (values : list hrec) : Z :=
  match values with
  | [] => 0
  | r :: l => (if 0 <=? zbx_timespec_compare ts (timestamp r) then 1 else 0) + count_upto ts l
  end.

(** The part of vc_db_read_values_by_time_and_count that reads what the
    values past [ts] have displaced; [inl] leaves the function. *)
Definition read_missing (T values : list hrec) (range_start left first_timestamp : Z)
    : res (option (list hrec + list hrec * Z)) :=
  if negb (0 =? left) then
    let kept := drop_last_second first_timestamp values in
    let left := left + (Z.of_nat (length values) - Z.of_nat (length kept)) in
    r ← zbx_history_get_values T kept range_start left first_timestamp;
    match r with
    | None => Ret None
    | Some values =>
      if Z.of_nat (length values) - Z.of_nat (length kept) <? left then Ret (Some (inl values))
      else match last values with
           | None => Undef
           | Some r => Ret (Some (inr (values, sec r)))
           end
    end
  else Ret (Some (inr (values, first_timestamp))).

Definition vc_db_read_values_by_time_and_count (T values : list hrec) (range_start count range_end : Z) (ts : timespec)
    : res (option (list hrec)) :=
  let values_start := length values in
  let range_start := interval_start range_start in
  r ← zbx_history_get_values T values range_start (count + 1) range_end;
  match r with
  | None => Ret None
  | Some values =>
    if Z.of_nat (length values) - Z.of_nat values_start <? count then Ret (Some values)
    else match last values, values !! values_start with
    | Some oldest, Some newest =>
      let left := count_past ts (sec newest) (drop values_start values) in
      r ← read_missing T values range_start left (sec oldest);
      match r with
      | None => Ret None
      | Some (inl values) => Ret (Some values)
      | Some (inr (values, first_timestamp)) =>
        let values := drop_last_second first_timestamp values in
        if count - count_upto ts (drop values_start values) <=? 0 then Ret (Some values)
        else zbx_history_get_values T values (first_timestamp - 1) 0 first_timestamp
      end
    | _, _ => Undef
    end
  end.

(** Removing the values past the end of the request. *)
Fixpoint drop_past (ts : timespec) (values : list hrec) : list hrec :=
  match values with
  | [] => []
  | r :: l => if zbx_timespec_compare (timestamp r) ts <=? 0 then values else drop_past ts l
  end.

(** Removing, from the end, the values at or before the start. *)
Fixpoint drop_before_rev (start : timespec) (oldest_first : list hrec) : list hrec :=
  match oldest_first with
  | [] => []
  | r :: l => if zbx_timespec_compare (timestamp r) start <=? 0 then drop_before_rev start l else oldest_first
  end.

Definition drop_before (start : timespec) (values : list hrec) : list hrec :=
  reverse (drop_before_rev start (reverse values)).

Definition vc_db_get_values (T : list hrec) (seconds count : Z) (ts : timespec) : res (option (list hrec)) :=
  r ← (if 0 =? count then vc_db_read_values_by_time T [] (ts_sec ts - seconds) (ts_sec ts)
       else
         let range_start := if 0 =? seconds then 0 else ts_sec ts - seconds in
         vc_db_read_values_by_time_and_count T [] range_start count (ts_sec ts) ts);
  match r with
  | None => Ret None
  | Some values =>
    let values := drop_past ts (sort_desc values) in
    let values := if negb (0 =? count) then take (Z.to_nat count) values else values in
    Ret (Some (if negb (0 =? seconds) then drop_before (Timespec (ts_sec ts - seconds) (ts_ns ts)) values else values))
  end.
End Reads.

(* ------------------------------------------------------------------ *)
(** ** What the reads give *)

(** No value of the second of [ts] is past [ts]. *)
Definition quiet (ts : timespec) (T : list hrec) : Prop :=
  Forall (fun r => sec r <= ts_sec ts -> ts_le (timestamp r) ts) T.

Lemma hist_sec (T : list hrec) (r : hrec) : hist_ok T -> r ∈ T -> HIST_MIN < sec r < ZBX_JAN_2038.
Proof. intros [_ HF]. rewrite Forall_forall in HF. apply HF. Qed.

Lemma rows_interval (T : list hrec) (range_start to : Z) :
  hist_ok T -> rows T (interval_start range_start) to = rows T (range_start - 1) to.
Proof.
  intros HT. unfold interval_start. destruct (Z.eqb_spec 0 range_start) as [<- | ]; [|done]. cbn [negb].
  apply filter_ext, Forall_forall. intros r Hr. pose proof (hist_sec T r HT Hr). unfold sec_in, HIST_MIN in *. lia.
Qed.

Lemma interval_start_cases (range_start : Z) :
  (range_start = 0 /\ interval_start range_start = 0) \/
  (range_start <> 0 /\ interval_start range_start = range_start - 1).
Proof. unfold interval_start. destruct (Z.eqb_spec 0 range_start); simpl; lia. Qed.

Lemma count_past_none (ts : timespec) (t : Z) (l : list hrec) :
  Forall (fun r => ts_le (timestamp r) ts) l -> count_past ts t l = 0.
Proof.
  induction 1 as [|r l Hr _ IH]; [done|]. simpl. case_match; [|done]. rewrite IH.
  destruct (Z.ltb_spec (zbx_timespec_compare ts (timestamp r)) 0); [|done]. tcmp.
Qed.

Lemma count_upto_all (ts : timespec) (l : list hrec) :
  Forall (fun r => ts_le (timestamp r) ts) l -> count_upto ts l = Z.of_nat (length l).
Proof.
  induction 1 as [|r l Hr _ IH]; [done|]. simpl. rewrite IH.
  destruct (Z.leb_spec 0 (zbx_timespec_compare ts (timestamp r))); [lia|]. tcmp.
Qed.

(* ------------------------------------------------------------------ *)
(** ** Trimming to the request *)

Lemma drop_past_filter (ts : timespec) (l : list hrec) :
  StronglySorted desc l -> drop_past ts l = filter (fun r => ts_le (timestamp r) ts) l.
Proof.
  induction 1 as [|x l HS IH Hx]; [done|]. simpl. rewrite filter_cons.
  destruct (Z.leb_spec (zbx_timespec_compare (timestamp x) ts) 0).
  - rewrite decide_True by done. f_equal. symmetry. apply filter_all.
    eapply Forall_impl; [exact Hx|]. intros y. tcmp.
  - by rewrite decide_False by tcmp.
Qed.

Lemma drop_before_filter (start : timespec) (l : list hrec) :
  StronglySorted desc l -> drop_before start l = filter (fun r => ts_lt start (timestamp r)) l.
Proof.
  unfold drop_before. induction l as [|x l IH] using rev_ind; intros HS; [done|].
  apply StronglySorted_app in HS as (Hlx & HS & _). rewrite reverse_snoc, filter_app. cbn [drop_before_rev].
  destruct (Z.leb_spec (zbx_timespec_compare (timestamp x) start) 0).
  - rewrite IH by done. rewrite (filter_none _ [x]); [by rewrite app_nil_r|]. constructor; [tcmp|done].
  - rewrite reverse_cons, reverse_involutive. rewrite !filter_all; [done|constructor; [tcmp|done]|].
    apply Forall_forall. intros y Hy. specialize (Hlx y x Hy ltac:(by apply list_elem_of_singleton)). tcmp.
Qed.

(** In a sorted list an upward closed condition holds of a prefix. *)
Lemma take_filter_desc (P : hrec -> Prop) `{forall r, Decision (P r)} (n : nat) (l : list hrec) :
  StronglySorted desc l -> (forall a b, desc a b -> P b -> P a) ->
  filter P (take n l) = take n (filter P l).
Proof.
  intros HS Hup. revert n. induction HS as [|x l _ IH Hx]; intros [|n]; [done..|].
  simpl. rewrite !filter_cons. case_decide as HP; simpl; [by rewrite IH|].
  assert (Hn : Forall (fun y => ~ P y) l) by (eapply Forall_impl; [exact Hx|]; eauto).
  rewrite (filter_none P l) by done. rewrite filter_none; [done|]. by apply Forall_take.
Qed.

Lemma filter_reverse_list {A : Type} (P : A -> Prop) `{forall x, Decision (P x)} (l : list A) :
  filter P (reverse l) = reverse (filter P l).
Proof.
  induction l as [|x l IH]; [done|]. rewrite reverse_cons, filter_app, IH, !filter_cons, filter_nil.
  case_decide; [by rewrite reverse_cons|by rewrite app_nil_r].
Qed.

Definition after (seconds : Z) (ts : timespec) (r : hrec) : Prop :=
  seconds = 0 \/ ts_lt (Timespec (ts_sec ts - seconds) (ts_ns ts)) (timestamp r).
#[export] Instance after_dec seconds ts r : Decision (after seconds ts r).
Proof. unfold after. apply _. Defined.

Lemma after_up (seconds : Z) (ts : timespec) (a b : hrec) : desc a b -> after seconds ts b -> after seconds ts a.
Proof. unfold after. intros Hab [-> | Hb]; [by left|right]. tcmp. Qed.

(** The values up to [ts], newest first. *)
Definition upto (ts : timespec) (T : list hrec) : list hrec := reverse (filter (fun r => ts_le (timestamp r) ts) T).

Lemma upto_sorted (ts : timespec) (T : list hrec) : hist_ok T -> StronglySorted desc (upto ts T).
Proof. intros [HS _]. by apply SS_reverse, SS_filter. Qed.

Lemma window_upto (T : list hrec) (seconds count : Z) (ts : timespec) :
  window T seconds count ts =
  (if count =? 0 then filter (after seconds ts) (upto ts T) else take (Z.to_nat count) (filter (after seconds ts) (upto ts T))).
Proof.
  unfold window, upto. rewrite filter_reverse_list, list_filter_filter.
  rewrite (filter_ext (in_window seconds ts) (fun r => after seconds ts r /\ ts_le (timestamp r) ts)); [done|].
  apply Forall_forall. unfold in_window, after. tauto.
Qed.

(** Reading from a second on gives the newest of the values up to [ts]. *)
Lemma upto_rows (T : list hrec) (from : Z) (ts : timespec) :
  hist_ok T ->
  upto ts T = upto ts (rows T from (ts_sec ts)) ++ upto ts (filter (fun r => sec r <= from) T).
Proof.
  intros [HS _]. unfold upto. rewrite <- reverse_app, <- filter_app. f_equal.
  rewrite (filter_split (fun r => sec r <= from) T) at 1; [|done|intros a b; tcmp].
  rewrite !filter_app. f_equal. unfold rows. rewrite !list_filter_filter.
  apply filter_ext, Forall_forall. intros r _. unfold sec_in. split; intros [? ?]; split; try done; tcmp.
Qed.

Section Laws.
  Context `{HB : HistoryBackend} {visible : list hrec -> Prop} `{HL : !HistoryLaws visible}.
  Context (T : list hrec) (HT : hist_ok T) (Hvis : visible T).

Lemma vc_db_by_time_ok (values : list hrec) (range_start range_end : Z) :
  0 <= range_start -> range_start - 1 <= range_end -> 0 <= range_end ->
  exists l, vc_db_read_values_by_time T values range_start range_end = Ret (Some (values ++ l)) /\
    l ≡ₚ rows T (range_start - 1) range_end.
Proof using HT Hvis HL.
  intros H0 Hse He. unfold vc_db_read_values_by_time.
  destruct (history_by_time T values (interval_start range_start) range_end HT Hvis) as (l & E & Hl).
  { destruct (interval_start_cases range_start); lia. }
  exists l. rewrite E. split; [done|]. by rewrite Hl, rows_interval.
Qed.

(** A count based read gives whole seconds, and enough values or all of them. *)
Lemma vc_db_by_time_and_count_ok (values : list hrec) (range_start count range_end : Z) (ts : timespec) :
  0 <= range_start -> range_start - 1 <= range_end -> HIST_MIN <= range_end -> 0 < count ->
  Forall (fun r => range_end < sec r) values ->
  Forall (fun r => sec r <= range_end -> ts_le (timestamp r) ts) T ->
  exists l from, vc_db_read_values_by_time_and_count T values range_start count range_end ts = Ret (Some (values ++ l)) /\
    l ≡ₚ rows T from range_end /\ range_start - 1 <= from <= range_end /\
    (from = range_start - 1 \/ count <= Z.of_nat (length l)).
Proof using HT Hvis HL.
  intros H0 Hse He Hc Hv Hq. unfold vc_db_read_values_by_time_and_count.
  pose proof (interval_start_cases range_start) as Hi. unfold HIST_MIN in He.
  destruct (history_by_count T values (interval_start range_start) (count + 1) range_end HT Hvis)
    as (l & s & E & Hl & HS & Hs & Hor); try done || (unfold HIST_MIN; lia).
  rewrite E. run. rewrite length_app.
  assert (Hle : Forall (fun r => ts_le (timestamp r) ts) l).
  { eapply perm_Forall; [exact Hl|]. apply Forall_forall. intros r [Hr Hin]%list_elem_of_filter.
    rewrite Forall_forall in Hq. apply Hq; [done|]. apply Hr. }
  destruct (Z.ltb_spec (Z.of_nat (length values + length l) - Z.of_nat (length values)) count) as [Hlt | Hge].
  { exists l, (range_start - 1). destruct Hor as [-> | Hor]; [|lia]. rewrite rows_interval in Hl by done.
    split_and!; done || lia || by left. }
  destruct (last l) as [r|] eqn:Hlast; [|apply last_None in Hlast; subst l; simpl in *; lia].
  destruct l as [|x l'] eqn:El; [done|]. rewrite <- El in *. clear l' El.
  assert (Hmid : exists x', (values ++ l) !! length values = Some x').
  { apply lookup_lt_is_Some. rewrite length_app. lia. }
  destruct Hmid as [x' Hx']. rewrite Hx', last_app, Hlast, drop_app_length, count_past_none by done.
  cbn [read_missing negb Z.eqb]. change (read_missing T (values ++ l) (interval_start range_start) 0 (sec r))
    with (Ret (Some (inr (A := list hrec) (values ++ l, sec r)))). run.
  assert (Hrange : Forall (fun y => s < sec y <= range_end) l) by (eapply perm_Forall; [exact Hl|apply rows_in]).
  destruct (sorted_take_last l (length l) r HS) as [Hmin _]; [by rewrite take_ge|]. rewrite take_ge in Hmin by done.
  assert (Hr : s < sec r <= range_end).
  { rewrite Forall_forall in Hrange. apply Hrange. apply last_Some in Hlast as [l0 ->].
    apply elem_of_app. right. by apply list_elem_of_singleton. }
  rewrite drop_last_second_spec; [|eapply Forall_impl; [exact Hv|simpl; lia]|done|done].
  set (k := filter (fun y => sec r < sec y) l).
  assert (Hk : k ≡ₚ rows T (sec r) range_end).
  { unfold k. rewrite Hl. unfold rows. rewrite list_filter_filter.
    apply Permutation_refl', filter_ext, Forall_forall. intros y _. unfold sec_in. lia. }
  assert (Hall : rows T (sec r - 1) range_end ≡ₚ l).
  { rewrite <- (filter_all (fun y => sec r - 1 < sec y) l) by (eapply Forall_impl; [exact Hmin|simpl; lia]).
    rewrite Hl. unfold rows. rewrite list_filter_filter.
    apply Permutation_refl', filter_ext, Forall_forall. intros y _. unfold sec_in. lia. }
  rewrite drop_app_length, count_upto_all.
  2: { apply Forall_forall. intros y [_ Hy]%list_elem_of_filter. rewrite Forall_forall in Hle. by apply Hle. }
  destruct (Z.leb_spec (count - Z.of_nat (length k)) 0) as [Henough | Hfew].
  { exists k, (sec r). split_and!; done || lia. }
  destruct (history_by_time T (values ++ k) (sec r - 1) (sec r) HT Hvis ltac:(lia)) as (l2 & E2 & Hl2).
  assert (Htot : k ++ l2 ≡ₚ l).
  { rewrite Hk, Hl2, <- Hall. symmetry. apply rows_split. lia. }
  exists (k ++ l2), (sec r - 1). rewrite E2, app_assoc. split_and!; [done|by rewrite Htot, Hall|lia..|]. right. rewrite Htot. lia.
Qed.

(** The trimming of vc_db_get_values, on what either read gives. *)
Lemma trimmed_window (values : list hrec) (from seconds count : Z) (ts : timespec) :
  0 <= seconds -> 0 <= count -> values ≡ₚ rows T from (ts_sec ts) ->
  (count = 0 \/ quiet ts T) ->
  (from <= (if seconds =? 0 then 0 else ts_sec ts - seconds - 1) \/ 0 < count <= Z.of_nat (length values)) ->
  (let values := drop_past ts (sort_desc values) in
   let values := if negb (0 =? count) then take (Z.to_nat count) values else values in
   if negb (0 =? seconds) then drop_before (Timespec (ts_sec ts - seconds) (ts_ns ts)) values else values)
  = window T seconds count ts.
Proof using HT.
  intros Hs Hc Hv Hq Hor. cbv zeta.
  assert (HSr : StronglySorted rec_lt (rows T from (ts_sec ts))) by (apply rows_sorted, HT).
  rewrite (sort_desc_rows _ _ HSr Hv), drop_past_filter by (by apply SS_reverse).
  rewrite filter_reverse_list. fold (upto ts (rows T from (ts_sec ts))).
  set (M := upto ts (rows T from (ts_sec ts))).
  set (A := if negb (0 =? count) then take (Z.to_nat count) M else M).
  pose proof (upto_sorted ts T HT) as HSL. rewrite (upto_rows T from ts HT) in HSL. fold M in HSL.
  assert (HSM : StronglySorted desc M) by (by apply StronglySorted_app in HSL as (_ & ? & _)).
  assert (HSA : StronglySorted desc A).
  { unfold A. destruct (negb _); [|done]. rewrite <- (take_drop (Z.to_nat count) M) in HSM.
    by apply StronglySorted_app in HSM as (_ & ? & _). }
  assert (EA : (if negb (0 =? seconds) then drop_before (Timespec (ts_sec ts - seconds) (ts_ns ts)) A else A)
    = filter (after seconds ts) A).
  { destruct (Z.eqb_spec 0 seconds) as [<- | Hne]; cbn [negb].
    - symmetry. apply filter_all, Forall_forall. by left.
    - rewrite drop_before_filter by done. apply filter_ext, Forall_forall. intros r _. unfold after. intuition lia. }
  rewrite EA, window_upto, (upto_rows T from ts HT). fold M. set (O := upto ts (filter _ T)) in *.
  assert (HO : from <= (if seconds =? 0 then 0 else ts_sec ts - seconds - 1) -> filter (after seconds ts) O = []).
  { intros Hf. apply filter_none, Forall_forall. intros r Hr. unfold O, upto in Hr.
    apply elem_of_reverse, list_elem_of_filter in Hr as [_ [Hr Hin]%list_elem_of_filter].
    pose proof (hist_sec T r HT Hin). unfold HIST_MIN in *. unfold after.
    destruct (Z.eqb_spec seconds 0); [lia|]. intros [? | Hlt]; [lia|]. revert Hlt.
    unfold ts_lt, zbx_timespec_compare. simpl. destruct (Z.eqb_spec (ts_sec ts - seconds) (sec r)); lia. }
  pose proof (after_up seconds ts) as Hup. unfold A. clear A HSA EA.
  destruct (Z.eqb_spec 0 count) as [<- | Hne]; cbn [negb].
  - destruct Hor as [Hf | ?]; [|lia]. simpl. by rewrite filter_app, HO, app_nil_r.
  - destruct (Z.eqb_spec count 0); [lia|]. destruct Hor as [Hf | Hlen].
    + by rewrite filter_app, HO, app_nil_r, take_filter_desc.
    + rewrite <- take_filter_desc by done. rewrite take_app_le; [done|].
      destruct Hq as [? | Hq]; [lia|]. unfold M, upto. rewrite length_reverse, filter_all; [rewrite <- Hv; lia|].
      apply Forall_forall. intros r [Hr Hin]%list_elem_of_filter. unfold quiet in Hq. rewrite Forall_forall in Hq.
      apply Hq; [done|]. apply Hr.
Qed.

(** When the cache is bypassed, the values read from the history storage
    are exactly the window the request describes, for every storage that
    keeps the interface's promises. *)
Theorem vc_db_get_values_window (seconds count : Z) (ts : timespec) :
  0 <= seconds <= ts_sec ts -> 0 <= count -> 0 < seconds + count -> HIST_MIN <= ts_sec ts ->
  (count = 0 \/ quiet ts T) ->
  vc_db_get_values T seconds count ts = Ret (Some (window T seconds count ts)).
Proof using HT Hvis HL.
  intros Hs Hc Hsc Hm Hq. unfold vc_db_get_values. destruct (Z.eqb_spec 0 count) as [<- | Hne].
  - destruct (vc_db_by_time_ok [] (ts_sec ts - seconds) (ts_sec ts)) as (l & -> & Hl); [unfold HIST_MIN in *; lia..|].
    run. simpl app. do 2 f_equal. apply (trimmed_window l (ts_sec ts - seconds - 1) seconds 0 ts); try done; [lia..|].
    left. destruct (Z.eqb_spec seconds 0); lia.
  - destruct Hq as [? | Hq]; [lia|].
    destruct (vc_db_by_time_and_count_ok [] (if 0 =? seconds then 0 else ts_sec ts - seconds) count (ts_sec ts) ts)
      as (l & from & -> & Hl & Hf & Hor); try done; try (destruct (Z.eqb_spec 0 seconds); unfold HIST_MIN in *; lia).
    run. simpl app. do 2 f_equal. pose proof (trimmed_window l from seconds count ts) as E. cbv zeta in E.
    rewrite (proj2 (Z.eqb_neq 0 count) Hne) in E. apply E; try done; [lia..|by right|].
    destruct Hor as [-> | Hlen]; [left|right; lia].
    destruct (Z.eqb_spec 0 seconds), (Z.eqb_spec seconds 0); lia.
Qed.
End Laws.
