(* ===== verification/VcChunk.v ===== *)
(** The storage of the value cache (zbxcachevalue/valuecache.c, "History
    storage API"): the values of an item in a list of chunks of slots, added at
    either end, inserted, trimmed, searched and copied out.

    An item keeps its chunks tail (oldest) first, which stands for the doubly
    linked list of the code; walks towards the older chunks go through the
    list newest first. *)

From stdpp Require Import base list numbers sorting.
From Stdlib Require Import ZArith Lia.
From S2P Require Import Prelude Algo VcHistory.

Open Scope Z_scope.

(* ------------------------------------------------------------------ *)
(** ** Data *)

(** struct zbx_vc_chunk; a slot that has not been written is [None]. *)
Record chunk := Chunk { first_value : nat; last_value : nat; slots : list (option hrec) }.

(** zbx_vc_item_t. *)
Record vc_item := VcItem {
  itemid : Z;
  item_value_type : value_type;
  status : Z;
  range_sync_hour : Z;
  values_total : Z;
  last_accessed : Z;
  active_range : Z;
  daily_range : Z;
  db_cached_from : Z;
  last_hourly_num : Z;
  hourly_num : Z;
  hour : Z;
  hits : Z;
  chunks : list chunk
}.

Definition ZBX_ITEM_STATUS_CACHED_ALL : Z := 1.
Definition VC_MIN_RANGE : Z := 60.
Definition ZBX_VC_MIN_CHUNK_RECORDS : Z := 2.

(** 64 KiB of chunk: 48 bytes of header with one record, 16 bytes per record. *)
Definition ZBX_VC_MAX_CHUNK_RECORDS : Z := (64 * 1024 - 48) / 16 + 1.

Definition set_store (it : vc_item) (cs : list chunk) (total : Z) : vc_item :=
  VcItem (itemid it) (item_value_type it) (status it) (range_sync_hour it) total (last_accessed it)
    (active_range it) (daily_range it) (db_cached_from it) (last_hourly_num it) (hourly_num it) (hour it) (hits it) cs.
Definition set_status (it : vc_item) (s : Z) : vc_item :=
  VcItem (itemid it) (item_value_type it) s (range_sync_hour it) (values_total it) (last_accessed it)
    (active_range it) (daily_range it) (db_cached_from it) (last_hourly_num it) (hourly_num it) (hour it) (hits it) (chunks it).
Definition set_cached_from (it : vc_item) (t : Z) : vc_item :=
  VcItem (itemid it) (item_value_type it) (status it) (range_sync_hour it) (values_total it) (last_accessed it)
    (active_range it) (daily_range it) t (last_hourly_num it) (hourly_num it) (hour it) (hits it) (chunks it).
Definition set_ranges (it : vc_item) (active daily sync : Z) : vc_item :=
  VcItem (itemid it) (item_value_type it) (status it) sync (values_total it) (last_accessed it)
    active daily (db_cached_from it) (last_hourly_num it) (hourly_num it) (hour it) (hits it) (chunks it).
Definition set_stats (it : vc_item) (accessed lasth hn h hit : Z) : vc_item :=
  VcItem (itemid it) (item_value_type it) (status it) (range_sync_hour it) (values_total it) accessed
    (active_range it) (daily_range it) (db_cached_from it) lasth hn h hit (chunks it).

(** One attempt to allocate cache memory: whether it was granted in the end,
    and what vc_release_space did to make room: the items it removed and
    whether the cache went into low memory mode. *)
Record attempt := Attempt { granted : bool; released : list Z; low_memory : bool }.

(** The attempts to come, and what the ones made have released. *)
Record env := Env { plan : list attempt; lost : list Z; went_low : bool }.

(** vc_item_malloc, vc_item_strdup: an attempt that is not planned succeeds. *)
Definition vc_item_alloc (e : env) : bool * env :=
  match plan e with
  | [] => (true, e)
  | a :: p => (granted a, Env p (lost e ++ released a) (went_low e || low_memory a))
  end.

(** vc_item_logdup: the record, its source when there is one, its text. *)
Definition vc_item_logdup (l : log_value) (e : env) : bool * env :=
  let '(ok, e) := vc_item_alloc e in
  if negb ok then (false, e)
  else
    let '(ok, e) := match log_source l with None => (true, e) | Some _ => vc_item_alloc e end in
    if negb ok then (false, e) else vc_item_alloc e.

(** Copying the value of a record into the cache. *)
Definition store_value (vt : value_type) (v : history_value) (e : env) : res (bool * env) :=
  match vt, v with
  | ITEM_VALUE_TYPE_STR, HV_str _ | ITEM_VALUE_TYPE_TEXT, HV_str _ => Ret (vc_item_alloc e)
  | ITEM_VALUE_TYPE_LOG, HV_log l => Ret (vc_item_logdup l e)
  | ITEM_VALUE_TYPE_STR, _ | ITEM_VALUE_TYPE_TEXT, _ | ITEM_VALUE_TYPE_LOG, _ => Undef
  | _, _ => Ret (true, e)
  end.

Definition pooled (vt : value_type) : bool :=
  match vt with
  | ITEM_VALUE_TYPE_STR | ITEM_VALUE_TYPE_TEXT | ITEM_VALUE_TYPE_LOG => true
  | _ => false
  end.

(* ------------------------------------------------------------------ *)
(** ** Slots *)

Definition slot (c : chunk) (i : nat) : res hrec :=
  match slots c !! i with Some (Some r) => Ret r | _ => Undef end.

Definition set_slot (c : chunk) (i : nat) (r : hrec) : res chunk :=
  if decide (i < length (slots c))%nat then Ret (Chunk (first_value c) (last_value c) (<[i := Some r]> (slots c)))
  else Undef.

Definition slot_ts (c : chunk) (i : nat) : res timespec := r ← slot c i; Ret (timestamp r).
Definition slot_sec (c : chunk) (i : nat) : res Z := r ← slot c i; Ret (sec r).

(** vch_item_chunk_slot_count. *)
Definition vch_item_chunk_slot_count (it : vc_item) (values_new : Z) : res Z :=
  let values := values_total it + values_new in
  let nslots := zbx_isqrt32 (u32 values) in
  if nslots =? 0 then Undef
  else
    let nslots := if 32 <? (values + nslots - 1) / nslots + 1 then values / 32 else nslots in
    let nslots := if ZBX_VC_MAX_CHUNK_RECORDS <? nslots then ZBX_VC_MAX_CHUNK_RECORDS else nslots in
    Ret (if nslots <? ZBX_VC_MIN_CHUNK_RECORDS then ZBX_VC_MIN_CHUNK_RECORDS else nslots).

Definition new_chunk (nslots : Z) : chunk := Chunk 0 0 (replicate (Z.to_nat nslots) None).

(** vch_item_add_chunk: at the head (insert_before NULL) or before the tail. *)
Definition vch_item_add_chunk (it : vc_item) (nslots : Z) (before_tail : bool) (e : env) : bool * vc_item * env :=
  let '(ok, e) := vc_item_alloc e in
  if negb ok then (false, it, e)
  else
    (true,
     set_store it (if before_tail then new_chunk nslots :: chunks it else chunks it ++ [new_chunk nslots]) (values_total it),
     e).

(* ------------------------------------------------------------------ *)
(** ** Searching *)

(** One round of the binary search of vch_chunk_find_last_value_before. *)
Definition find_round (c : chunk) (ts : timespec) (s : nat * nat) : res ((nat * nat) + option nat) :=
  let '(start, end_) := s in
  if decide (start = end_) then Ret (inr None)
  else
    let middle := (start + (end_ - start) / 2)%nat in
    t ← slot_ts c middle;
    if 0 <? zbx_timespec_compare t ts then Ret (inl (start, middle))
    else
      t ← slot_ts c (S middle);
      if zbx_timespec_compare t ts <=? 0 then Ret (inl (middle, end_)) else Ret (inr (Some middle)).

Definition vch_chunk_find_last_value_before (c : chunk) (ts : timespec) : res (option nat) :=
  t ← slot_ts c (last_value c);
  if zbx_timespec_compare t ts <=? 0 then Ret (Some (last_value c))
  else if decide (first_value c = last_value c) then Ret None
  else while 16 (find_round c ts) (first_value c, last_value c).

(** The walk of vch_item_get_last_value towards older chunks; a position is
    the chunk with the older ones behind it, and the index in that chunk. *)
Fixpoint find_chunk (newest_first : list chunk) (ts : timespec) : res (option (list chunk * nat)) :=
  match newest_first with
  | [] => Ret None
  | c :: older =>
    t ← slot_ts c (first_value c);
    if 0 <? zbx_timespec_compare t ts then find_chunk older ts
    else
      i ← vch_chunk_find_last_value_before c ts;
      match i with
      | Some i => Ret (Some (newest_first, i))
      | None => Undef
      end
  end.

Definition vch_item_get_last_value (it : vc_item) (ts : timespec) : res (option (list chunk * nat)) :=
  match reverse (chunks it) with
  | [] => Ret None
  | c :: older =>
    t ← slot_ts c (last_value c);
    if 0 <? zbx_timespec_compare t ts then find_chunk (c :: older) ts
    else Ret (Some (c :: older, last_value c))
  end.

(* ------------------------------------------------------------------ *)
(** ** Copying values out *)

(** The inner loop: from the [n]-th value of a chunk down while it is past
    [start]; with a [count], until that many values are in the vector. *)
Fixpoint copy_down (c : chunk) (start : timespec) (count : option Z) (n : nat) (values : list hrec)
    : res (list hrec * bool) :=
  match n with
  | O => Ret (values, false)
  | S n =>
    r ← slot c (first_value c + n);
    if 0 <? zbx_timespec_compare (timestamp r) start then
      let values := values ++ [r] in
      if match count with Some k => Z.of_nat (length values) =? k | None => false end then Ret (values, true)
      else copy_down c start count n values
    else Ret (values, false)
  end.

(** The outer loop: from a position towards older chunks. *)
Fixpoint copy_values (newest_first : list chunk) (index : nat) (start : timespec) (count : option Z) (values : list hrec)
    : res (list hrec) :=
  match newest_first with
  | [] => Ret values
  | c :: older =>
    t ← slot_ts c (last_value c);
    if 0 <? zbx_timespec_compare t start then
      r ← copy_down c start count (S index - first_value c) values;
      match r with
      | (values, true) => Ret values
      | (values, false) =>
        match older with
        | [] => Ret values
        | c' :: _ => copy_values older (last_value c') start count values
        end
      end
    else Ret values
  end.

(* ------------------------------------------------------------------ *)
(** ** Removing values *)

(** vch_item_remove_chunk on the tail, with the values it frees. *)
Definition chunk_values_num (c : chunk) : Z := Z.of_nat (last_value c) - Z.of_nat (first_value c) + 1.

Definition vch_item_remove_tail_chunk (it : vc_item) (c : chunk) (rest : list chunk) : vc_item :=
  set_store it rest (values_total it - chunk_values_num c).

(** The loops that free values at the start of a chunk. *)
Fixpoint free_first_values (fuel : nat) (drop : Z -> bool) (c : chunk) (total : Z) : res (chunk * Z) :=
  match fuel with
  | O => NoFuel
  | S fuel =>
    t ← slot_sec c (first_value c);
    if drop t then free_first_values fuel drop (Chunk (S (first_value c)) (last_value c) (slots c)) (total - 1)
    else Ret (c, total)
  end.

(** vch_item_remove_values. *)
Fixpoint remove_values_loop (timestamp : Z) (cs : list chunk) (total : Z) : res (list chunk * Z) :=
  match cs with
  | [] => Ret ([], total)
  | c :: next =>
    t ← slot_sec c (first_value c);
    if t <? timestamp then
      t' ← slot_sec c (last_value c);
      if timestamp <=? t' then
        '(c, total) ← free_first_values (S (length (slots c))) (fun t => t <? timestamp) c total;
        Ret (c :: next, total)
      else remove_values_loop timestamp next (total - chunk_values_num c)
    else Ret (cs, total)
  end.

Definition vch_item_remove_values (it : vc_item) (timestamp : Z) : res vc_item :=
  let it := if ZBX_ITEM_STATUS_CACHED_ALL =? status it then set_status it 0 else it in
  '(cs, total) ← remove_values_loop timestamp (chunks it) (values_total it);
  Ret (set_store it cs total).

(** The loop of vch_item_clean_cache from chunk [c] on; [head_sec] is the
    second of the newest value of the item. *)
Fixpoint clean_loop (timestamp head_sec : Z) (c : chunk) (rest : list chunk) (total cached_from : Z) {struct rest}
    : res (list chunk * Z * Z) :=
  t ← slot_sec c (last_value c);
  if (t <? timestamp) && negb (t =? head_sec) then
    match rest with
    | [] => Ret ([c], total, cached_from)
    | next :: rest' =>
      nf ← slot_sec next (first_value next);
      nl ← slot_sec next (last_value next);
      '(next, total) ← (if negb (nf =? nl) then free_first_values (S (length (slots next))) (fun u => u =? t) next total
                        else Ret (next, total));
      clean_loop timestamp head_sec next rest' (total - chunk_values_num c) (t + 1)
    end
  else Ret (c :: rest, total, cached_from).

Definition vch_item_clean_cache (it : vc_item) (timestamp : Z) : res vc_item :=
  if negb (0 =? active_range it) then
    match chunks it, last (chunks it) with
    | tail :: rest, Some hd =>
      head_sec ← slot_sec hd (last_value hd);
      r ← clean_loop (timestamp - active_range it) head_sec tail rest (values_total it) (db_cached_from it);
      match r with
      | (cs, total, cached_from) =>
        let it' := set_cached_from (set_store it cs total) cached_from in
        Ret (if decide (length cs = length (chunks it)) then it' else set_status it' 0)
      end
    | _, _ => Ret it
    end
  else Ret it.

(* ------------------------------------------------------------------ *)
(** ** Adding values *)

(** vch_item_copy_values_at_tail: pooled values one by one from the newest;
    the others as one block. *)
Fixpoint copy_back (vt : value_type) (newest_first : list hrec) (c : chunk) (e : env) : res (bool * chunk * env) :=
  match newest_first with
  | [] => Ret (true, c, e)
  | v :: l =>
    '(ok, e) ← store_value vt (value v) e;
    if (ok : bool) then
      match first_value c with
      | O => Undef
      | S i =>
        c ← set_slot c i v;
        copy_back vt l (Chunk i (last_value c) (slots c)) e
      end
    else Ret (false, c, e)
  end.

Definition copy_block (values : list hrec) (c : chunk) : res chunk :=
  if decide (length values <= first_value c <= length (slots c))%nat then
    let i := (first_value c - length values)%nat in
    Ret (Chunk i (last_value c) (take i (slots c) ++ (Some <$> values) ++ drop (first_value c) (slots c)))
  else Undef.

Definition vch_item_copy_values_at_tail (it : vc_item) (values : list hrec) (e : env) : res (bool * vc_item * env) :=
  match chunks it with
  | [] => Undef
  | tail :: rest =>
    r ← (if pooled (item_value_type it) then copy_back (item_value_type it) (reverse values) tail e
         else c ← copy_block values tail; Ret (true, c, e));
    match r with
    | (ok, c, e) =>
      Ret (ok, set_store it (c :: rest) (values_total it + Z.of_nat (first_value tail) - Z.of_nat (first_value c)), e)
    end
  end.

(** The values another process has cached meanwhile are skipped. *)
Fixpoint skip_cached (s : Z) (newest_first : list hrec) : list hrec :=
  match newest_first with
  | [] => []
  | v :: l => if s <=? sec v then skip_cached s l else newest_first
  end.

(** The free slots on the left side of the tail. *)
Definition free_slots (it : vc_item) : nat :=
  match chunks it with [] => O | tail :: _ => first_value tail end.

(** Making room for values in front of the tail: a new chunk, filled from its
    end, when the tail has no free slots. *)
Definition tail_room (it : vc_item) (values_num : Z) (e : env) : res (bool * vc_item * env) :=
  if decide (free_slots it = O) then
    n ← vch_item_chunk_slot_count it values_num;
    match vch_item_add_chunk it n true e with
    | (false, it, e) => Ret (false, it, e)
    | (true, it, e) =>
      match chunks it with
      | [] => Undef
      | tail :: rest =>
        Ret (true, set_store it (Chunk (Z.to_nat n) (Z.to_nat n - 1) (slots tail) :: rest) (values_total it), e)
      end
    end
  else Ret (true, it, e).

(** The loop of vch_item_add_values_at_tail; [values] are those left. *)
Fixpoint add_at_tail_loop (fuel : nat) (it : vc_item) (values : list hrec) (e : env) : res (bool * vc_item * env) :=
  match values, fuel with
  | [], _ => Ret (true, it, e)
  | _, O => NoFuel
  | _, S fuel =>
    r ← tail_room it (Z.of_nat (length values)) e;
    match r with
    | (false, it, e) => Ret (false, it, e)
    | (true, it, e) =>
      let count := (length values - free_slots it `min` length values)%nat in
      r ← vch_item_copy_values_at_tail it (drop count values) e;
      match r with
      | (false, it, e) => Ret (false, it, e)
      | (true, it, e) => add_at_tail_loop fuel it (take count values) e
      end
    end
  end.

Definition vch_item_add_values_at_tail (it : vc_item) (values : list hrec) (e : env) : res (bool * vc_item * env) :=
  left ← (match chunks it with
          | [] => Ret values
          | tail :: _ =>
            s ← slot_sec tail (first_value tail);
            Ret (reverse (skip_cached s (reverse values)))
          end);
  add_at_tail_loop (length left) it left e.

(** Positions of the insertion: the number of a chunk counted from the head,
    and the index of a slot in it. *)
Definition read_pos (newest_first : list chunk) (p : nat * nat) : res hrec :=
  match newest_first !! fst p with Some c => slot c (snd p) | None => Undef end.

Definition write_pos (newest_first : list chunk) (p : nat * nat) (r : hrec) : res (list chunk) :=
  match newest_first !! fst p with
  | Some c => c ← set_slot c (snd p) r; Ret (<[fst p := c]> newest_first)
  | None => Undef
  end.

(** One round of the loop that moves newer values one slot up; the state is
    the chunks, the slot to fill and the slot to move from. *)
Definition shift_round (v : hrec) (s : list chunk * (nat * nat) * (nat * nat))
    : res ((list chunk * (nat * nat) * (nat * nat)) + (list chunk * (nat * nat))) :=
  match s with
  | (cs, dst, src) =>
    r ← read_pos cs src;
    cs ← write_pos cs dst r;
    match cs !! fst src with
    | None => Undef
    | Some schunk =>
      src' ← (if decide (snd src <= first_value schunk)%nat then
                match cs !! S (fst src) with
                | None => Undef
                | Some prev => Ret (S (fst src), last_value prev)
                end
              else Ret (fst src, (snd src - 1)%nat));
      r ← read_pos cs src';
      if 0 <? zbx_timespec_compare (timestamp r) (timestamp v) then Ret (inl (cs, src, src')) else Ret (inr (cs, src))
    end
  end.

(** A slot at the head of the item for one more value. *)
Definition grow_head (it : vc_item) (e : env) : res (bool * vc_item * env) :=
  let full := match last (chunks it) with
              | None => true
              | Some hd => bool_decide (length (slots hd) = S (last_value hd))
              end in
  if full then
    n ← vch_item_chunk_slot_count it 1;
    Ret (vch_item_add_chunk it n false e)
  else
    match last (chunks it) with
    | None => Undef
    | Some hd =>
      Ret (true, set_store it (<[(length (chunks it) - 1)%nat := Chunk (first_value hd) (S (last_value hd)) (slots hd)]> (chunks it))
                   (values_total it), e)
    end.

(** vch_item_copy_value. *)
Definition vch_item_copy_value (it : vc_item) (newest_first : list chunk) (p : nat * nat) (v : hrec) (e : env)
    : res (bool * vc_item * env) :=
  '(ok, e) ← store_value (item_value_type it) (value v) e;
  if (ok : bool) then
    cs ← write_pos newest_first p v;
    Ret (true, set_store it (reverse cs) (values_total it), e)
  else Ret (false, set_store it (reverse newest_first) (values_total it), e).

(** vch_item_add_value_at_head. *)
Definition vch_item_add_value_at_head (it : vc_item) (v : hrec) (e : env) : res (bool * vc_item * env) :=
  let append :=
    r ← grow_head it e;
    match r with
    | (false, it, e) => Ret (false, it, e)
    | (true, it, e) =>
      let cs := reverse (chunks it) in
      match cs with
      | [] => Undef
      | hd :: _ => vch_item_copy_value (set_store it (chunks it) (values_total it + 1)) cs (O, last_value hd) v e
      end
    end in
  match chunks it, last (chunks it) with
  | tl :: _, Some hd =>
    newest ← slot hd (last_value hd);
    if 0 <? zbx_history_record_compare_asc newest v then
      oldest ← slot tl (first_value tl);
      if 0 <? zbx_history_record_compare_asc oldest v then
        it ← vch_item_remove_values it (sec v + 1);
        if decide (chunks it = []) then Ret (false, it, e)
        else Ret (true, (if db_cached_from it <=? sec v then set_cached_from it (sec v + 1) else it), e)
      else
        r ← grow_head it e;
        match r with
        | (false, it', e) => Ret (false, it', e)
        | (true, it', e) =>
          let cs := reverse (chunks it') in
          match cs with
          | [] => Undef
          | hd' :: _ =>
            let src := if decide (length (chunks it') = length (chunks it)) then (O, last_value hd) else (1%nat, last_value hd) in
            r ← while 32 (shift_round v) (cs, (O, last_value hd'), src);
            match r with
            | (cs, dst) => vch_item_copy_value (set_store it' (chunks it') (values_total it' + 1)) cs dst v e
            end
          end
        end
    else append
  | _, _ => append
  end.

(** vch_item_free_cache. *)
Definition vch_item_free_cache (it : vc_item) : vc_item := set_store it [] 0.
