(* ===== verification/VcStore.v ===== *)
(** What the chunk storage holds and how it is searched and copied out: the
    chunks of an item represent the sorted list of its cached values. *)

From stdpp Require Import base list numbers sorting.
From Stdlib Require Import ZArith Lia.
From S2P Require Import Prelude Algo VcHistory VcDb VcChunk.

Open Scope Z_scope.

(* ------------------------------------------------------------------ *)
(** ** Representation *)

(** The values in the slots first_value .. last_value, oldest first. *)
Definition chunk_rep (c : chunk) (vs : list hrec) : Prop :=
  exists pre post,
    c = Chunk (length pre) (length pre + length vs - 1) (pre ++ (Some <$> vs) ++ post) /\
    Z.of_nat (length (slots c)) <= ZBX_VC_MAX_CHUNK_RECORDS.

(** The chunks of an item, tail first and head first. *)
Inductive trep : list chunk -> list hrec -> Prop :=
  | trep_nil : trep [] []
  | trep_cons c rest vs D : chunk_rep c vs -> vs <> [] -> trep rest D -> trep (c :: rest) (vs ++ D).

Inductive nrep : list chunk -> list hrec -> Prop :=
  | nrep_nil : nrep [] []
  | nrep_cons c older vs D : chunk_rep c vs -> vs <> [] -> nrep older D -> nrep (c :: older) (D ++ vs).

(** The cached values of an item. *)
Definition store_ok (it : vc_item) (D : list hrec) : Prop :=
  trep (chunks it) D /\ values_total it = Z.of_nat (length D).

Lemma trep_app (cs1 cs2 : list chunk) (D1 D2 : list hrec) :
  trep cs1 D1 -> trep cs2 D2 -> trep (cs1 ++ cs2) (D1 ++ D2).
Proof. induction 1; intros; [done|]. rewrite <- app_assoc. by constructor; auto. Qed.

Lemma trep_one (c : chunk) (vs : list hrec) : chunk_rep c vs -> vs <> [] -> trep [c] vs.
Proof. intros. rewrite <- (app_nil_r vs). constructor; [done..|constructor]. Qed.

Lemma trep_snoc (cs : list chunk) (c : chunk) (D : list hrec) :
  trep (cs ++ [c]) D -> exists D' vs, D = D' ++ vs /\ trep cs D' /\ chunk_rep c vs /\ vs <> [].
Proof.
  revert D. induction cs as [|x cs IH]; intros D H; inversion H as [|? ? vs D0 Hc Hne Hr]; subst.
  - inversion Hr; subst. exists [], vs. rewrite app_nil_r. split_and!; [done|constructor|done|done].
  - destruct (IH D0 Hr) as (D' & ws & -> & Ht & Hw & Hwne). exists (vs ++ D'), ws.
    rewrite app_assoc. split_and!; try done. by constructor.
Qed.

Lemma nrep_reverse (cs : list chunk) (D : list hrec) : trep cs D <-> nrep (reverse cs) D.
Proof.
  revert D. induction cs as [|c cs IH] using rev_ind; intros D.
  - split; inversion 1; constructor.
  - rewrite reverse_snoc. split.
    + intros (D' & vs & -> & Ht & Hc & Hne)%trep_snoc. constructor; try done. by apply IH.
    + inversion 1; subst. apply trep_app; [by apply IH|by apply trep_one].
Qed.

Lemma nrep_trep (ncs : list chunk) (D : list hrec) : nrep ncs D -> trep (reverse ncs) D.
Proof. intros H. apply nrep_reverse. by rewrite reverse_involutive. Qed.

(* ------------------------------------------------------------------ *)
(** ** Slots *)

Lemma last_value_rep (c : chunk) (vs : list hrec) :
  chunk_rep c vs -> last_value c = (first_value c + length vs - 1)%nat.
Proof. by intros (pre & post & -> & _). Qed.

Lemma slots_rep (c : chunk) (vs : list hrec) :
  chunk_rep c vs -> (first_value c + length vs <= length (slots c))%nat.
Proof.
  intros (pre & post & -> & _). cbn [first_value slots]. rewrite !length_app, length_fmap. lia.
Qed.

Lemma slot_rep (c : chunk) (a b : list hrec) (v : hrec) :
  chunk_rep c (a ++ v :: b) -> slot c (first_value c + length a) = Ret v.
Proof.
  intros (pre & post & -> & _). unfold slot. cbn [slots first_value].
  rewrite lookup_app_r by lia. replace (length pre + length a - length pre)%nat with (length a) by lia.
  rewrite lookup_app_l by (rewrite length_fmap, length_app; simpl; lia).
  by rewrite list_lookup_fmap, list_lookup_middle.
Qed.

Lemma slot_first (c : chunk) (v : hrec) (b : list hrec) :
  chunk_rep c (v :: b) -> slot c (first_value c) = Ret v.
Proof. intros H. rewrite <- (Nat.add_0_r (first_value c)). by apply (slot_rep c [] b). Qed.

Lemma slot_last (c : chunk) (a : list hrec) (v : hrec) :
  chunk_rep c (a ++ [v]) -> slot c (last_value c) = Ret v.
Proof.
  intros H. rewrite (last_value_rep _ _ H), length_app. simpl.
  replace (first_value c + (length a + 1) - 1)%nat with (first_value c + length a)%nat by lia. by apply (slot_rep c a []).
Qed.

Lemma slot_sec_ret (c : chunk) (i : nat) (v : hrec) : slot c i = Ret v -> slot_sec c i = Ret (sec v).
Proof. intros E. unfold slot_sec. by rewrite E. Qed.

Lemma slot_ts_ret (c : chunk) (i : nat) (v : hrec) : slot c i = Ret v -> slot_ts c i = Ret (timestamp v).
Proof. intros E. unfold slot_ts. by rewrite E. Qed.

(** A non-empty list seen from its end. *)
Lemma ends_with {A : Type} (l : list A) : l <> [] -> exists l' x, l = l' ++ [x].
Proof. destruct l as [|x l _] using rev_ind; [done|]. eauto. Qed.

Lemma SS_app_rec (a b : list hrec) :
  StronglySorted rec_lt (a ++ b) -> StronglySorted rec_lt a /\ StronglySorted rec_lt b /\
  forall x y, x ∈ a -> y ∈ b -> rec_lt x y.
Proof. intros (Hx & Ha & Hb)%StronglySorted_app. done. Qed.

(* ------------------------------------------------------------------ *)
(** ** Searching *)

Section Find.
  Context (c : chunk) (a b : list hrec) (ts : timespec).
  Hypothesis Hc : chunk_rep c (a ++ b).
  Hypothesis Ha : Forall (fun r => ts_le (timestamp r) ts) a.
  Hypothesis Hb : Forall (fun r => ts_lt ts (timestamp r)) b.

(** Reading slot [i] tells on which side of [ts] it is. *)
Lemma find_slot (i : nat) :
  (i < length (a ++ b))%nat ->
  exists t, slot_ts c (first_value c + i) = Ret t /\
    (zbx_timespec_compare t ts <= 0 <-> (i < length a)%nat).
Proof using Hc Ha Hb.
  intros Hi. destruct (lookup_lt_is_Some_2 (a ++ b) i Hi) as [v Hv].
  exists (timestamp v). split.
  - apply slot_ts_ret. destruct (list_elem_of_split_length _ _ _ Hv) as (l1 & l2 & E & ->).
    apply (slot_rep c l1 l2). by rewrite <- E.
  - rewrite Forall_lookup in Ha, Hb. apply lookup_app_Some in Hv as [Hv | [Hge Hv]].
    + pose proof (lookup_lt_Some _ _ _ Hv). specialize (Ha i v Hv). tcmp.
    + specialize (Hb _ v Hv). tcmp.
Qed.

(** vch_chunk_find_last_value_before: the index of the last value up to [ts]. *)
Lemma find_last_value_before :
  (0 < length (a ++ b))%nat ->
  vch_chunk_find_last_value_before c ts =
  Ret (match a with [] => None | _ => Some (first_value c + length a - 1)%nat end).
Proof using Hc Ha Hb.
  intros Hpos. unfold vch_chunk_find_last_value_before. pose proof (last_value_rep _ _ Hc) as Hl.
  destruct (find_slot (length (a ++ b) - 1) ltac:(lia)) as (t & Et & Hcmp).
  replace (first_value c + (length (a ++ b) - 1))%nat with (last_value c) in Et by lia.
  rewrite Et. run. rewrite length_app in *. destruct (Z.leb_spec (zbx_timespec_compare t ts) 0) as [Hle | Hgt].
  { destruct a as [|x a']; simpl in *; [lia|]. do 2 f_equal. lia. }
  case_decide as E1.
  { destruct a as [|x a']; [done|]. simpl in *. lia. }
  destruct (while_spec (find_round c ts)
    (fun s => (first_value c <= fst s <= snd s)%nat /\ (snd s < first_value c + length (a ++ b))%nat /\
       (first_value c + length a <= snd s)%nat /\ (fst s = first_value c \/ fst s < first_value c + length a)%nat)
    (fun r => r = match a with [] => None | _ => Some (first_value c + length a - 1)%nat end)
    (fun s => Z.of_nat (snd s) - Z.of_nat (fst s)) 16 (first_value c, last_value c)) as (r & E & ->); [| |simpl| done].
  - intros [start end_] (H1 & H2 & H3 & H4). cbn [fst snd] in *. unfold find_round. case_decide as Ese.
    { right. eexists. split; [done|]. destruct a; [done|simpl in *; lia]. }
    cbv zeta. set (m := (start + (end_ - start) / 2)%nat).
    assert (Hm : (start <= m < end_)%nat).
    { unfold m. pose proof (Nat.div_lt (end_ - start) 2). pose proof (Nat.Div0.div_le_mono 0 (end_ - start) 2). lia. }
    assert (Hm1 : m = start -> end_ = S start).
    { unfold m. intros Hm1. assert (((end_ - start) / 2)%nat = 0%nat) as Hz by lia. apply Nat.div_small_iff in Hz; lia. }
    destruct (find_slot (m - first_value c) ltac:(lia)) as (t1 & E1' & C1).
    replace (first_value c + (m - first_value c))%nat with m in E1' by lia. rewrite E1'. run.
    destruct (Z.ltb_spec 0 (zbx_timespec_compare t1 ts)).
    { left. eexists. split; [done|]. simpl. lia. }
    destruct (find_slot (S m - first_value c) ltac:(lia)) as (t2 & E2 & C2).
    replace (first_value c + (S m - first_value c))%nat with (S m) in E2 by lia. rewrite E2. run.
    destruct (Z.leb_spec (zbx_timespec_compare t2 ts) 0).
    { left. eexists. split; [done|]. simpl. lia. }
    right. eexists. split; [done|]. destruct a as [|x a']; simpl in *; [lia|]. f_equal. lia.
  - simpl. rewrite length_app. lia.
  - pose proof (slots_rep _ _ Hc) as Hs. rewrite length_app in Hs.
    assert (Hmax : Z.of_nat (length (slots c)) <= 4094) by (by destruct Hc as (pre & post & _ & Hmax)).
    change (2 ^ Z.of_nat 16) with 65536. lia.
Qed.
End Find.

(** A position: [X] are the values up to it, [Y] those past it. *)
Definition pos_rep (p : list chunk * nat) (X Y : list hrec) : Prop :=
  exists c older D a b, fst p = c :: older /\ X = D ++ a /\ a <> [] /\ chunk_rep c (a ++ b) /\ b `prefix_of` Y /\
    nrep older D /\ snd p = (first_value c + length a - 1)%nat.

Lemma pos_rep_more (p : list chunk * nat) (X Y Z : list hrec) : pos_rep p X Y -> pos_rep p X (Y ++ Z).
Proof.
  intros (c & older & D & a & b & H1 & H2 & H3 & H4 & H5 & H6 & H7).
  exists c, older, D, a, b. split_and!; try done. by apply prefix_app_r.
Qed.

(** What a search for [ts] gives when [X] are the values up to it. *)
Definition found (m : res (option (list chunk * nat))) (X Y : list hrec) : Prop :=
  match X with
  | [] => m = Ret None
  | _ => exists p, m = Ret (Some p) /\ pos_rep p X Y
  end.

Lemma found_more (m : res (option (list chunk * nat))) (X Y Z : list hrec) : found m X Y -> found m X (Y ++ Z).
Proof. destruct X; [done|]. intros (p & E & Hp). exists p. split; [done|]. by apply pos_rep_more. Qed.

Lemma Forall_nil_or {A : Type} (P : A -> Prop) (x : A) (l : list A) : Forall P (x :: l) -> P x.
Proof. by intros [? _]%Forall_cons. Qed.

(** Where the values up to [ts] end: inside a chunk, or before all of it. *)
Lemma split_cases {A : Type} (D vs X Y : list A) :
  D ++ vs = X ++ Y -> (exists a, X = D ++ a /\ vs = a ++ Y) \/ (exists b, D = X ++ b /\ Y = b ++ vs).
Proof.
  intros E. apply app_eq_inv in E as [(b & -> & ->) | (a & -> & ->)]; [right|left]; eauto.
Qed.

Lemma find_chunk_ok (ncs : list chunk) (X Y : list hrec) (ts : timespec) :
  nrep ncs (X ++ Y) -> Forall (fun r => ts_le (timestamp r) ts) X -> Forall (fun r => ts_lt ts (timestamp r)) Y ->
  found (find_chunk ncs ts) X Y.
Proof.
  remember (X ++ Y) as Z eqn:EZ. intros Hr. revert X Y EZ.
  induction Hr as [|c older vs D Hc Hne Hr IH]; intros X Y E HX HY.
  { by apply eq_sym, app_eq_nil in E as [-> ->]. }
  destruct vs as [|v vs]; [done|]. cbn [find_chunk].
  rewrite (slot_ts_ret _ _ _ (slot_first _ _ _ Hc)). run.
  destruct (split_cases _ _ _ _ E) as [(a & -> & Ea) | (b & -> & ->)].
  - destruct a as [|a0 a].
    + rewrite app_nil_r in *. simpl in Ea. subst Y. apply Forall_nil_or in HY as Hv.
      destruct (Z.ltb_spec 0 (zbx_timespec_compare (timestamp v) ts)); [|tcmp].
      apply (found_more _ _ []), IH; [by rewrite app_nil_r|done|constructor].
    + injection Ea as <- ->. apply Forall_app in HX as [HD Ha].
      pose proof (Forall_nil_or _ _ _ Ha) as Hv. simpl in Hv.
      destruct (Z.ltb_spec 0 (zbx_timespec_compare (timestamp v) ts)); [tcmp|].
      rewrite (find_last_value_before c (v :: a) Y ts Hc Ha HY) by (simpl; lia). run.
      unfold found. destruct (D ++ v :: a) as [|x l] eqn:ED; [by destruct D|]. rewrite <- ED.
      eexists. split; [done|]. exists c, older, D, (v :: a), Y. done.
  - apply Forall_app in HY as [Hb Hv]. apply Forall_nil_or in Hv.
    destruct (Z.ltb_spec 0 (zbx_timespec_compare (timestamp v) ts)); [|tcmp]. by apply found_more, IH.
Qed.

(** vch_item_get_last_value: the position of the last value up to [ts]. *)
Lemma get_last_value_ok (it : vc_item) (X Y : list hrec) (ts : timespec) :
  trep (chunks it) (X ++ Y) -> Forall (fun r => ts_le (timestamp r) ts) X -> Forall (fun r => ts_lt ts (timestamp r)) Y ->
  found (vch_item_get_last_value it ts) X Y.
Proof.
  intros Hr%nrep_reverse HX HY. unfold vch_item_get_last_value.
  inversion Hr as [E0 E | c older vs D Hc Hne Ho E0 E].
  { by apply eq_sym, app_eq_nil in E as [-> ->]. }
  destruct (ends_with vs Hne) as (vs' & v & ->).
  rewrite (slot_ts_ret _ _ _ (slot_last _ _ _ Hc)). run.
  destruct (Z.ltb_spec 0 (zbx_timespec_compare (timestamp v) ts)) as [Hgt | Hle].
  { apply (find_chunk_ok (c :: older) X Y); [|done..]. rewrite <- E. by constructor. }
  destruct Y as [|y Y _] using rev_ind.
  - rewrite app_nil_r in E. destruct X as [|x X']; [by destruct D, vs'|].
    eexists. split; [done|]. exists c, older, D, (vs' ++ [v]), []. rewrite app_nil_r. split_and!; try done.
    by rewrite (last_value_rep _ _ Hc).
  - rewrite !app_assoc in E. apply app_inj_tail in E as [_ <-].
    apply Forall_app in HY as [_ Hv%Forall_nil_or]. tcmp.
Qed.

(** The positions of an empty store. *)
Lemma get_last_value_nil (it : vc_item) (ts : timespec) : chunks it = [] -> vch_item_get_last_value it ts = Ret None.
Proof. intros E. unfold vch_item_get_last_value. by rewrite E. Qed.

(* ------------------------------------------------------------------ *)
(** ** Copying out *)

(** As many of the values as the vector still takes. *)
Definition limited (count : option Z) (values l : list hrec) : list hrec :=
  match count with
  | None => l
  | Some k => take (Z.to_nat (k - Z.of_nat (length values))) l
  end.

Definition room (count : option Z) (values : list hrec) : Prop :=
  match count with None => True | Some k => Z.of_nat (length values) < k end.

(** The values past [start], newest first. *)
Definition past (start : timespec) (l : list hrec) : list hrec :=
  reverse (filter (fun r => ts_lt start (timestamp r)) l).

Lemma past_snoc (start : timespec) (l : list hrec) (r : hrec) :
  past start (l ++ [r]) = if decide (ts_lt start (timestamp r)) then r :: past start l else past start l.
Proof.
  unfold past. rewrite filter_app, filter_cons, filter_nil. case_decide; [by rewrite reverse_snoc|by rewrite app_nil_r].
Qed.

Lemma past_app (start : timespec) (l1 l2 : list hrec) : past start (l1 ++ l2) = past start l2 ++ past start l1.
Proof. unfold past. by rewrite filter_app, reverse_app. Qed.

Lemma past_nil (start : timespec) (l : list hrec) :
  Forall (fun r => ts_le (timestamp r) start) l -> past start l = [].
Proof.
  intros H. unfold past. rewrite filter_none; [done|]. eapply Forall_impl; [exact H|]. intros r. simpl. tcmp.
Qed.

(** Values below a sorted list's last value. *)
Lemma SS_below (l : list hrec) (r : hrec) (t : timespec) :
  StronglySorted rec_lt (l ++ [r]) -> ts_le (timestamp r) t -> Forall (fun x => ts_le (timestamp x) t) (l ++ [r]).
Proof.
  intros (_ & _ & Hx)%SS_app_rec Hr. apply Forall_app. split; [|by constructor].
  apply Forall_forall. intros x Hin. specialize (Hx x r Hin ltac:(by apply list_elem_of_singleton)). tcmp.
Qed.

(** copy_down on the first values of a chunk: whether the vector is full, and
    whether a value not past [start] was met. *)
Lemma copy_down_ok (c : chunk) (start : timespec) (count : option Z) (a b values : list hrec) :
  chunk_rep c (a ++ b) -> StronglySorted rec_lt a -> room count values ->
  exists full, copy_down c start count (length a) values = Ret (values ++ limited count values (past start a), full) /\
    (full = true -> forall l, limited count values (past start a ++ l) = limited count values (past start a)) /\
    (full = false -> room count (values ++ past start a) /\ limited count values (past start a) = past start a).
Proof.
  revert b values. induction a as [|r a IH] using rev_ind; intros b values Hc HS Hroom.
  { exists false. change (past start []) with (@nil hrec). destruct count; simpl; rewrite ?take_nil, ?app_nil_r; (split; [done|]; split; [done|auto]). }
  destruct (SS_app_rec _ _ HS) as (HSa & _ & _).
  rewrite length_app, Nat.add_1_r. cbn [copy_down]. rewrite <- app_assoc in Hc.
  rewrite (slot_rep c a b r Hc). run.
  destruct (Z.ltb_spec 0 (zbx_timespec_compare (timestamp r) start)) as [Hgt | Hle].
  2: { assert (E : past start (a ++ [r]) = []) by (apply past_nil, SS_below; [done|tcmp]).
    exists false. rewrite E. destruct count; simpl; rewrite ?take_nil, ?app_nil_r; (split; [done|]; split; [done|auto]). }
  assert (Ep : past start (a ++ [r]) = r :: past start a) by (rewrite past_snoc, decide_True by tcmp; done).
  rewrite Ep. destruct count as [k|]; simpl in Hroom.
  - rewrite length_app. cbn [length]. destruct (Z.eqb_spec (Z.of_nat (length values + 1)) k) as [Ek | Hne].
    + exists true. unfold limited. replace (Z.to_nat (k - Z.of_nat (length values))) with 1%nat by lia. simpl. done.
    + destruct (IH ([r] ++ b) (values ++ [r]) Hc HSa) as (full & E & Ht & Hf).
      { simpl. rewrite length_app. simpl. lia. }
      exists full. rewrite E. unfold limited in *. rewrite length_app in *. cbn [length] in *.
      replace (Z.to_nat (k - Z.of_nat (length values))) with (S (Z.to_nat (k - Z.of_nat (length values + 1)))) by lia.
      split; [|split].
      * by rewrite <- app_assoc.
      * intros Hfull l. simpl. f_equal. by apply Ht.
      * intros Hfull. destruct (Hf Hfull) as [Hr Hl]. split; [by rewrite <- app_assoc in Hr|]. simpl. by rewrite Hl.
  - destruct (IH ([r] ++ b) (values ++ [r]) Hc HSa) as (full & E & Ht & Hf); [done|].
    exists full. rewrite E. simpl. split; [by rewrite <- app_assoc|]. split; [|done].
    intros Hfull l. specialize (Ht Hfull l). simpl in Ht. by rewrite Ht.
Qed.

Lemma copy_values_cons (c : chunk) (older : list chunk) (index : nat) (start : timespec) (count : option Z) (values : list hrec) :
  copy_values (c :: older) index start count values =
  (t ← slot_ts c (last_value c);
   if 0 <? zbx_timespec_compare t start then
     r ← copy_down c start count (S index - first_value c) values;
     match r with
     | (values, true) => Ret values
     | (values, false) =>
       match older with
       | [] => Ret values
       | c' :: _ => copy_values older (last_value c') start count values
       end
     end
   else Ret values).
Proof. reflexivity. Qed.

(** Copying from a position on: [A] is what lies up to the position, [b] what
    its chunk holds past it. *)
Lemma copy_values_ok (ncs older : list chunk) (c : chunk) (D a b values : list hrec) (start : timespec) (count : option Z) :
  ncs = c :: older -> nrep older D -> chunk_rep c (a ++ b) -> a <> [] -> StronglySorted rec_lt (D ++ a ++ b) ->
  room count values ->
  copy_values ncs (first_value c + length a - 1) start count values =
  Ret (values ++ limited count values (past start (D ++ a))).
Proof.
  intros -> Ho. revert c a b values. induction Ho as [|c' older vs D' Hc' Hne Ho IH]; intros c a b values Hc Ha HS Hroom.
  all: rewrite copy_values_cons; destruct (ends_with (a ++ b)) as (l & x & El); [by destruct a|].
  all: pose proof Hc as Hc2; rewrite El in Hc2; rewrite (slot_ts_ret _ _ _ (slot_last _ _ _ Hc2)); run.
  all: rewrite past_app.
  all: replace (S (first_value c + length a - 1) - first_value c)%nat with (length a)
         by (destruct a; simpl in *; [done|lia]).
  all: destruct (SS_app_rec _ _ HS) as (HSD & HSab & HDab).
  all: destruct (SS_app_rec _ _ HSab) as (HSa & _ & _).
  all: destruct (Z.ltb_spec 0 (zbx_timespec_compare (timestamp x) start)) as [Hgt | Hle].
  2, 4: rewrite <- past_app, past_nil; [by destruct count; simpl; rewrite ?take_nil, app_nil_r|];
    eapply (fun H => proj1 (proj1 (Forall_app (fun r => ts_le (timestamp r) start) _ b) H));
    rewrite <- app_assoc, El, app_assoc; apply SS_below; [by rewrite <- app_assoc, <- El|tcmp].
  all: destruct (copy_down_ok c start count a b values Hc HSa Hroom) as (full & -> & Ht & Hf); run.
  - unfold past at 2. simpl. rewrite app_nil_r. by destruct full.
  - destruct full; [by rewrite Ht|]. destruct (Hf eq_refl) as [Hroom' Hl].
    rewrite Hl. rewrite (last_value_rep _ _ Hc'). rewrite <- (app_nil_r vs) in Hc'.
    rewrite (IH c' vs [] _ Hc' Hne); [|by rewrite app_nil_r|done].
    rewrite <- app_assoc. f_equal. f_equal. destruct count as [k|]; simpl in *; [|done].
    rewrite take_app, length_app. f_equal.
    + symmetry. exact Hl.
    + f_equal. lia.
Qed.

Lemma copy_pos_ok (p : list chunk * nat) (X Y values : list hrec) (start : timespec) (count : option Z) :
  pos_rep p X Y -> StronglySorted rec_lt (X ++ Y) -> room count values ->
  copy_values (fst p) (snd p) start count values = Ret (values ++ limited count values (past start X)).
Proof.
  intros (c & older & D & a & b & E1 & -> & Ha & Hc & (Y' & ->) & Ho & ->) HS Hroom.
  apply (copy_values_ok _ older c D a b); try done.
  rewrite !app_assoc in HS. apply SS_app_rec in HS as (HS & _ & _). by rewrite <- app_assoc in HS.
Qed.
