(* ===== verification/VcAdd.v ===== *)
(** Adding values at the tail of an item's storage, and taking values off it:
    what the operations do to the list of cached values. *)

From stdpp Require Import base list numbers sorting.
From Stdlib Require Import ZArith Lia.
From S2P Require Import Prelude Algo VcHistory VcDb VcChunk VcStore.

Open Scope Z_scope.

(** A value has the form its item's value type asks for. *)
Definition typed (vt : value_type) (v : history_value) : bool :=
  match vt, v with
  | ITEM_VALUE_TYPE_FLOAT, HV_dbl _ | ITEM_VALUE_TYPE_UINT64, HV_ui64 _
  | ITEM_VALUE_TYPE_STR, HV_str _ | ITEM_VALUE_TYPE_TEXT, HV_str _ | ITEM_VALUE_TYPE_LOG, HV_log _ => true
  | _, _ => false
  end.

Definition all_typed (vt : value_type) (l : list hrec) : Prop := Forall (fun r => typed vt (value r) = true) l.

Lemma store_value_ok (vt : value_type) (v : history_value) (e : env) :
  typed vt v = true -> exists ok e', store_value vt v e = Ret (ok, e') /\ (pooled vt = false -> ok = true).
Proof.
  intros Ht. assert (E : exists a, store_value vt v e = Ret a /\ (pooled vt = false -> fst a = true)).
  { destruct vt, v; try done; eexists; (split; [reflexivity|done]). }
  destruct E as ([ok e'] & -> & H). by exists ok, e'.
Qed.

(** The number of slots of a new chunk. *)
Lemma slot_count_ok (it : vc_item) (n : Z) :
  0 < values_total it + n < 2 ^ 31 ->
  exists k, vch_item_chunk_slot_count it n = Ret k /\ ZBX_VC_MIN_CHUNK_RECORDS <= k <= ZBX_VC_MAX_CHUNK_RECORDS.
Proof.
  intros H. unfold vch_item_chunk_slot_count. rewrite u32_small by lia.
  rewrite zbx_isqrt32_correct by lia.
  assert (0 < Z.sqrt (values_total it + n)) by (apply Z.sqrt_pos; lia).
  destruct (Z.eqb_spec (Z.sqrt (values_total it + n)) 0); [lia|].
  eexists. split; [reflexivity|]. unfold ZBX_VC_MIN_CHUNK_RECORDS, ZBX_VC_MAX_CHUNK_RECORDS.
  change ((64 * 1024 - 48) / 16 + 1) with 4094.
  repeat match goal with |- context [if ?x <? ?y then _ else _] => destruct (Z.ltb_spec x y) end; lia.
Qed.

(** The storage of an item is all that an operation changed. *)
Definition same_but_store (it it' : vc_item) : Prop := exists cs total, it' = set_store it cs total.

Lemma same_refl (it : vc_item) : same_but_store it it.
Proof. exists (chunks it), (values_total it). by destruct it. Qed.

Lemma same_store (it : vc_item) (cs : list chunk) (total : Z) : same_but_store it (set_store it cs total).
Proof. by exists cs, total. Qed.

Lemma same_trans (it1 it2 it3 : vc_item) : same_but_store it1 it2 -> same_but_store it2 it3 -> same_but_store it1 it3.
Proof. intros (cs & t & ->) (cs' & t' & ->). by exists cs', t'. Qed.

#[export] Hint Resolve same_refl same_store same_trans : vc.

(* ------------------------------------------------------------------ *)
(** ** Copying into the free slots of the tail *)

Lemma chunk_rep_nil_new (n : Z) :
  ZBX_VC_MIN_CHUNK_RECORDS <= n <= ZBX_VC_MAX_CHUNK_RECORDS ->
  chunk_rep (Chunk (Z.to_nat n) (Z.to_nat n - 1) (slots (new_chunk n))) [].
Proof.
  intros Hn. unfold ZBX_VC_MIN_CHUNK_RECORDS in Hn.
  exists (replicate (Z.to_nat n) None), []. cbn [slots new_chunk].
  rewrite length_replicate. simpl. rewrite app_nil_r. split; [f_equal; lia|]. lia.
Qed.

Lemma copy_block_ok (c : chunk) (w vs : list hrec) :
  chunk_rep c vs -> (length w <= first_value c)%nat ->
  exists c', copy_block w c = Ret c' /\ chunk_rep c' (w ++ vs) /\ first_value c' = (first_value c - length w)%nat.
Proof.
  intros (pre & post & -> & Hmax) Hw. cbn [first_value slots] in *. unfold copy_block. cbn [first_value slots last_value].
  rewrite decide_True by (rewrite length_app; lia).
  eexists. split; [done|]. split; [|done].
  rewrite take_app_le by lia. rewrite drop_app_length.
  exists (take (length pre - length w) pre), post. cbn [slots]. rewrite length_take, length_app, fmap_app, <- app_assoc.
  rewrite !length_app, !length_fmap, length_take in *. split; [f_equal; lia|lia].
Qed.

Lemma copy_back_ok (vt : value_type) (w vs : list hrec) (c : chunk) (e : env) :
  chunk_rep c vs -> (length w <= first_value c)%nat -> all_typed vt w ->
  exists ok c' e', copy_back vt (reverse w) c e = Ret (ok, c', e') /\
    (ok = true -> chunk_rep c' (w ++ vs) /\ first_value c' = (first_value c - length w)%nat).
Proof.
  revert vs c e. induction w as [|v w IH] using rev_ind; intros vs c e Hc Hw Ht.
  { exists true, c, e. split; [done|]. intros _. split; [done|simpl; lia]. }
  unfold all_typed in Ht. rewrite Forall_app, Forall_singleton in Ht. destruct Ht as [Ht Hv].
  rewrite length_app in Hw. simpl in Hw. rewrite reverse_snoc. cbn [copy_back].
  destruct (store_value_ok vt (value v) e Hv) as (ok & e1 & -> & _). run. destruct ok; [|by eexists _, _, _].
  destruct Hc as (pre & post & -> & Hmax). cbn [first_value last_value slots] in *.
  destruct (ends_with pre) as (pre' & x & ->); [by intros ->; simpl in *; lia|].
  rewrite length_app in *. simpl length in *. rewrite Nat.add_1_r in *.
  unfold set_slot. cbn [slots first_value last_value]. rewrite decide_True by (rewrite !length_app; simpl; lia). run.
  cbn [slots first_value last_value]. rewrite <- app_assoc. simpl app. rewrite list_insert_split.
  destruct (IH (v :: vs) (Chunk (length pre') (S (length pre') + length vs - 1) (pre' ++ Some v :: (Some <$> vs) ++ post)) e1)
    as (ok & c' & e' & E & Hok).
  - exists pre', post. cbn [slots fmap list_fmap length app]. split; [f_equal; lia|].
    rewrite !length_app in *. simpl length in *. rewrite !length_app in *. lia.
  - simpl. lia.
  - done.
  - exists ok, c', e'. rewrite E. split; [done|]. intros Hok'. destruct (Hok Hok') as [Hr Hf].
    rewrite <- app_assoc. split; [done|]. simpl in Hf. rewrite length_app. simpl. lia.
Qed.

Lemma copy_values_at_tail_ok (it : vc_item) (tail : chunk) (rest : list chunk) (w vs : list hrec) (e : env) :
  chunks it = tail :: rest -> chunk_rep tail vs -> (length w <= first_value tail)%nat -> all_typed (item_value_type it) w ->
  exists ok it' e', vch_item_copy_values_at_tail it w e = Ret (ok, it', e') /\ same_but_store it it' /\
    (ok = true -> exists c', chunks it' = c' :: rest /\ chunk_rep c' (w ++ vs) /\
       values_total it' = values_total it + Z.of_nat (length w)).
Proof.
  intros E Hc Hw Ht. unfold vch_item_copy_values_at_tail. rewrite E.
  destruct (pooled (item_value_type it)).
  - destruct (copy_back_ok _ w vs tail e Hc Hw Ht) as (ok & c' & e' & -> & Hok). run.
    eexists _, _, _. split; [done|]. split; [auto with vc|]. intros Hok'. destruct (Hok Hok') as [Hr Hf].
    exists c'. split_and!; [done|done|]. cbn [values_total set_store]. lia.
  - destruct (copy_block_ok tail w vs Hc Hw) as (c' & -> & Hr & Hf). run.
    eexists _, _, _. split; [done|]. split; [auto with vc|]. intros _.
    exists c'. split_and!; [done|done|]. cbn [values_total set_store]. lia.
Qed.

(* ------------------------------------------------------------------ *)
(** ** Adding at the tail *)

(** The tail chunk the next values go to: the old one when it has free slots,
    else a new one. *)
Lemma tail_room_ok (it : vc_item) (D : list hrec) (n : Z) (e : env) :
  store_ok it D -> 0 < n -> Z.of_nat (length D) + n < 2 ^ 31 ->
  exists ok it' e', tail_room it n e = Ret (ok, it', e') /\ same_but_store it it' /\
    (ok = true -> values_total it' = values_total it /\
       exists tail rest vs D', chunks it' = tail :: rest /\ chunk_rep tail vs /\ trep rest D' /\ D = vs ++ D' /\
         (0 < first_value tail)%nat).
Proof.
  intros [Hr Htot] Hn Hsz. unfold tail_room, free_slots. case_decide as Ef.
  - destruct (slot_count_ok it n ltac:(lia)) as (k & -> & Hk). run. unfold vch_item_add_chunk.
    destruct (vc_item_alloc e) as [[] e']; cbn [negb].
    2: { eexists _, _, _. split; [done|]. split; [auto with vc|done]. }
    cbn [chunks set_store]. eexists _, _, _. split; [done|]. split; [eauto with vc|]. intros _. split; [done|].
    eexists _, _, [], D. split; [done|]. split_and!; try done.
    + by apply chunk_rep_nil_new.
    + simpl. unfold ZBX_VC_MIN_CHUNK_RECORDS in Hk. lia.
  - exists true, it, e. split; [done|]. split; [auto with vc|]. intros _. split; [done|].
    destruct Hr as [|tail rest vs D' Hc Hne Hr]; [done|]. exists tail, rest, vs, D'. split_and!; try done. lia.
Qed.

(** Values older than all that is cached, added chunk by chunk. *)
Lemma add_at_tail_loop_ok (fuel : nat) (it : vc_item) (D values : list hrec) (e : env) :
  store_ok it D -> all_typed (item_value_type it) values -> (length values <= fuel)%nat ->
  Z.of_nat (length values) + Z.of_nat (length D) < 2 ^ 31 ->
  exists ok it' e', add_at_tail_loop fuel it values e = Ret (ok, it', e') /\ same_but_store it it' /\
    (ok = true -> store_ok it' (values ++ D)).
Proof.
  revert it D values e. induction fuel as [|fuel IH]; intros it D values e Hok Ht Hf Hsz.
  { destruct values; [|simpl in *; lia]. exists true, it, e. split; [done|]. split; [auto with vc|done]. }
  destruct values as [|v values]; [exists true, it, e; split; [done|]; split; [auto with vc|done]|].
  set (w := v :: values) in *. change (add_at_tail_loop (S fuel) it w e) with
    (r ← tail_room it (Z.of_nat (length w)) e;
     match r with
     | (false, it, e) => Ret (false, it, e)
     | (true, it, e) =>
       let count := (length w - free_slots it `min` length w)%nat in
       r ← vch_item_copy_values_at_tail it (drop count w) e;
       match r with
       | (false, it, e) => Ret (false, it, e)
       | (true, it, e) => add_at_tail_loop fuel it (take count w) e
       end
     end).
  assert (Hlw : (0 < length w)%nat) by (unfold w; simpl; lia).
  destruct (tail_room_ok it D (Z.of_nat (length w)) e Hok ltac:(lia) ltac:(lia)) as (ok & it1 & e1 & -> & Hs1 & H1).
  run. destruct ok; [|by eexists _, _, _].
  destruct (H1 eq_refl) as (Htot & tail & rest & vs & D' & Ec & Hc & Hr & -> & Hfree). unfold free_slots. rewrite Ec.
  set (count := (length w - first_value tail `min` length w)%nat).
  assert (Hvt : item_value_type it1 = item_value_type it) by (by destruct Hs1 as (? & ? & ->)).
  assert (Hw : all_typed (item_value_type it1) (take count w) /\ all_typed (item_value_type it1) (drop count w)).
  { rewrite Hvt. apply Forall_app. by rewrite take_drop. }
  destruct (copy_values_at_tail_ok it1 tail rest (drop count w) vs e1 Ec Hc) as (ok & it2 & e2 & -> & Hs2 & H2).
  { rewrite length_drop. lia. }
  { apply Hw. }
  run. destruct ok; [|eexists _, _, _; split; [done|]; split; [eauto with vc|done]].
  destruct (H2 eq_refl) as (c' & Ec2 & Hc2 & Htot2).
  destruct (IH it2 (drop count w ++ vs ++ D') (take count w) e2) as (ok & it3 & e3 & -> & Hs3 & H3).
  - split.
    + rewrite Ec2, app_assoc. constructor; [done| |done]. intros [E _]%app_eq_nil.
      apply (f_equal length) in E. rewrite length_drop in E. change (length (@nil hrec)) with 0%nat in E. unfold count in E. lia.
    + rewrite Htot2, Htot. destruct Hok as [_ ->]. rewrite !length_app. lia.
  - assert (item_value_type it2 = item_value_type it1) as -> by (by destruct Hs2 as (? & ? & ->)). apply Hw.
  - rewrite length_take. lia.
  - rewrite !length_app, length_take, length_drop in *. lia.
  - exists ok, it3, e3. split; [done|]. split; [eauto with vc|]. intros Hok3. specialize (H3 Hok3).
    by rewrite app_assoc, take_drop in H3.
Qed.

Lemma skip_cached_ok (s : Z) (values : list hrec) :
  StronglySorted rec_lt values -> reverse (skip_cached s (reverse values)) = filter (fun r => sec r < s) values.
Proof.
  induction values as [|v l IH] using rev_ind; intros HS; [done|].
  destruct (SS_app_rec _ _ HS) as (HSl & _ & Hx). rewrite reverse_snoc, filter_app. cbn [skip_cached].
  destruct (Z.leb_spec s (sec v)).
  - rewrite IH by done. rewrite (filter_none _ [v]); [by rewrite app_nil_r|]. constructor; [lia|done].
  - rewrite reverse_cons, reverse_involutive. rewrite !filter_all; [done|constructor; [lia|done]|].
    apply Forall_forall. intros y Hy. specialize (Hx y v Hy ltac:(by apply list_elem_of_singleton)). tcmp.
Qed.

(** The second of the oldest value in the cache; the values before it. *)
Definition older_than (D values : list hrec) : list hrec :=
  match D with [] => values | r :: _ => filter (fun x => sec x < sec r) values end.

(** vch_item_add_values_at_tail: the values older than the cached seconds are
    put before the cached ones. *)
Lemma add_values_at_tail_ok (it : vc_item) (D values : list hrec) (e : env) :
  store_ok it D -> StronglySorted rec_lt values -> all_typed (item_value_type it) values ->
  Z.of_nat (length values) + Z.of_nat (length D) < 2 ^ 31 ->
  exists ok it' e', vch_item_add_values_at_tail it values e = Ret (ok, it', e') /\ same_but_store it it' /\
    (ok = true -> store_ok it' (older_than D values ++ D)).
Proof.
  intros Hok HS Ht Hsz. unfold vch_item_add_values_at_tail.
  assert (E : match chunks it with
      | [] => Ret values
      | tail :: _ => s ← slot_sec tail (first_value tail); Ret (reverse (skip_cached s (reverse values)))
      end = Ret (older_than D values)).
  { destruct Hok as [Hr _]. destruct Hr as [|c rest vs D' Hc Hne Hr]; [done|]. destruct vs as [|r vs]; [done|].
    rewrite (slot_sec_ret _ _ _ (slot_first _ _ _ Hc)). run. by rewrite skip_cached_ok. }
  rewrite E. run.
  assert (Hl : (length (older_than D values) <= length values)%nat).
  { destruct D; simpl; [done|apply length_filter]. }
  apply add_at_tail_loop_ok; [done| |done|lia].
  destruct D; simpl; [done|]. unfold all_typed in *. rewrite Forall_forall in *.
  intros x [_ Hx]%list_elem_of_filter. auto.
Qed.

(* ------------------------------------------------------------------ *)
(** ** Removing values *)

Lemma chunk_values_num_rep (c : chunk) (vs : list hrec) :
  chunk_rep c vs -> vs <> [] -> chunk_values_num c = Z.of_nat (length vs).
Proof.
  intros Hc Hne. unfold chunk_values_num. rewrite (last_value_rep _ _ Hc). destruct vs; [done|]. simpl. lia.
Qed.

(** Freeing the first values of a chunk moves its first index. *)
Lemma free_first_values_ok (fuel : nat) (drop : Z -> bool) (c : chunk) (a b : list hrec) (x : hrec) (total : Z) :
  chunk_rep c (a ++ x :: b) -> Forall (fun r => drop (sec r) = true) a -> drop (sec x) = false ->
  (length a < fuel)%nat ->
  exists c', free_first_values fuel drop c total = Ret (c', total - Z.of_nat (length a)) /\ chunk_rep c' (x :: b).
Proof.
  revert c total fuel. induction a as [|r a IH]; intros c total [|fuel] Hc Ha Hx Hf; simpl in Hf; try lia.
  - exists c. cbn [free_first_values]. rewrite (slot_sec_ret _ _ _ (slot_first _ _ _ Hc)). run. rewrite Hx.
    simpl. by rewrite Z.sub_0_r.
  - apply Forall_cons in Ha as [Hr Ha]. simpl in Hr. cbn [free_first_values].
    rewrite (slot_sec_ret _ _ _ (slot_first _ _ _ Hc)). run. rewrite Hr.
    destruct Hc as (pre & post & -> & Hmax). cbn [first_value last_value slots] in *.
    destruct (IH (Chunk (S (length pre)) (length pre + length ((r :: a) ++ x :: b) - 1)
        (pre ++ (Some <$> (r :: a) ++ x :: b) ++ post)) (total - 1) fuel) as (c' & E & Hc'); [|done..|lia|].
    + exists (pre ++ [Some r]), post. cbn [slots fmap list_fmap app]. rewrite <- app_assoc. simpl.
      split; [|exact Hmax]. f_equal; rewrite !length_app; simpl; lia.
    + exists c'. rewrite E. split; [|done]. do 2 f_equal. simpl length. lia.
Qed.

Lemma free_fuel (c : chunk) (a b : list hrec) (x : hrec) :
  chunk_rep c (a ++ x :: b) -> (length a < S (length (slots c)))%nat.
Proof. intros Hc%slots_rep. rewrite length_app in Hc. lia. Qed.

(** In a sorted list the values before a second come first. *)
Lemma SS_split_sec (D : list hrec) (t : Z) :
  StronglySorted rec_lt D ->
  D = filter (fun r => sec r < t) D ++ filter (fun r => t <= sec r) D.
Proof.
  intros HS. rewrite (filter_split (fun r => sec r < t) D) at 1; [|done|intros a b; tcmp].
  f_equal. apply filter_ext, Forall_forall. intros. lia.
Qed.

Lemma remove_values_loop_ok (t : Z) (cs : list chunk) (D : list hrec) (total : Z) :
  trep cs D -> StronglySorted rec_lt D ->
  exists cs', remove_values_loop t cs total =
      Ret (cs', total - Z.of_nat (length (filter (fun r => sec r < t) D))) /\
    trep cs' (filter (fun r => t <= sec r) D).
Proof.
  intros Hr. revert total. induction Hr as [|c rest vs D Hc Hne Hr IH]; intros total HS.
  { exists []. simpl. rewrite Z.sub_0_r. split; [done|constructor]. }
  destruct (SS_app_rec _ _ HS) as (HSv & HSD & Hx). cbn [remove_values_loop].
  destruct vs as [|v0 vs0] eqn:Evs; [done|]. rewrite (slot_sec_ret _ _ _ (slot_first _ _ _ Hc)). run.
  rewrite <- Evs in *. destruct (ends_with vs Hne) as (l & x & El).
  pose proof Hc as Hc2. rewrite El in Hc2. rewrite (slot_sec_ret _ _ _ (slot_last _ _ _ Hc2)).
  assert (Hlast : forall y, y ∈ vs -> sec y <= sec x).
  { intros y. rewrite El. intros [Hy | ->%list_elem_of_singleton]%elem_of_app; [|done].
    rewrite El in HSv. destruct (SS_app_rec _ _ HSv) as (_ & _ & Hlx).
    specialize (Hlx y x Hy ltac:(by apply list_elem_of_singleton)). tcmp. }
  assert (HD : sec v0 < t \/ Forall (fun r => t <= sec r) (vs ++ D)).
  { destruct (decide (sec v0 < t)); [by left|right]. rewrite Evs in HS |- *. inversion HS as [|? ? _ HF]; subst.
    simpl. constructor; [lia|]. eapply Forall_impl; [exact HF|]. intros y. simpl. tcmp. }
  destruct (Z.ltb_spec (sec v0) t) as [Hlt | Hge].
  2: { destruct HD as [? | HD]; [lia|]. exists (c :: rest).
    rewrite (filter_none (fun r => sec r < t)) by (eapply Forall_impl; [exact HD|simpl; lia]).
    rewrite filter_all by done. simpl. rewrite Z.sub_0_r. split; [done|by constructor]. }
  run. destruct (Z.leb_spec t (sec x)) as [Hlx | Hgx].
  - rewrite (SS_split_sec vs t HSv) in Hc. set (a := filter (fun r => sec r < t) vs) in *.
    destruct (filter (fun r => t <= sec r) vs) as [|y b] eqn:Eb.
    { exfalso. apply (filter_nil_not_elem_of (fun r => t <= sec r) vs x Eb Hlx). rewrite El.
      apply elem_of_app. right. by apply list_elem_of_singleton. }
    assert (Hy : t <= sec y).
    { assert (Hin : y ∈ filter (fun r => t <= sec r) vs) by (rewrite Eb; by left).
      by apply list_elem_of_filter in Hin as [Hin _]. }
    destruct (free_first_values_ok (S (length (slots c))) (fun u => u <? t) c a b y total Hc) as (c' & -> & Hc').
    + unfold a. eapply Forall_impl; [apply Forall_filter_not|]. intros r Hr'. simpl in *. lia.
    + lia.
    + by eapply free_fuel.
    + run. exists (c' :: rest).
      assert (HDt : Forall (fun r => t <= sec r) D).
      { apply Forall_forall. intros z Hz. specialize (Hx x z). rewrite El in Hx.
        specialize (Hx ltac:(apply elem_of_app; right; by apply list_elem_of_singleton) Hz). tcmp. }
      rewrite !filter_app, Eb, (filter_all (fun r => t <= sec r) D) by done.
      rewrite (filter_none (fun r => sec r < t) D) by (eapply Forall_impl; [exact HDt|simpl; lia]).
      rewrite app_nil_r. fold a. split; [done|]. by constructor.
  - destruct (IH (total - chunk_values_num c) HSD) as (cs' & -> & Hcs'). exists cs'.
    assert (Hall : Forall (fun r => sec r < t) vs).
    { apply Forall_forall. intros y Hy. specialize (Hlast y Hy). lia. }
    rewrite !filter_app, (filter_all (fun r => sec r < t) vs) by done. rewrite (filter_none (fun r => t <= sec r) vs)
      by (eapply Forall_impl; [exact Hall|simpl; lia]).
    split; [|done]. do 2 f_equal. rewrite (chunk_values_num_rep c vs Hc Hne), length_app. lia.
Qed.

(** vch_item_remove_values keeps the values of the second on. *)
Lemma remove_values_ok (it : vc_item) (D : list hrec) (t : Z) :
  store_ok it D -> StronglySorted rec_lt D ->
  exists it', vch_item_remove_values it t = Ret it' /\ store_ok it' (filter (fun r => t <= sec r) D) /\
    same_but_store (if status it =? ZBX_ITEM_STATUS_CACHED_ALL then set_status it 0 else it) it'.
Proof.
  intros [Hr Htot] HS. unfold vch_item_remove_values. rewrite Z.eqb_sym.
  destruct (remove_values_loop_ok t (chunks it) D (values_total it) Hr HS) as (cs' & E & Hcs').
  exists (set_store (if status it =? ZBX_ITEM_STATUS_CACHED_ALL then set_status it 0 else it) cs'
            (values_total it - Z.of_nat (length (filter (fun r => sec r < t) D)))).
  split_and!; [|split; [done|]|auto with vc].
  - destruct (status it =? ZBX_ITEM_STATUS_CACHED_ALL); simpl; by rewrite E.
  - cbn [values_total set_store]. rewrite Htot. rewrite (SS_split_sec D t HS) at 1. rewrite length_app. lia.
Qed.

(* ------------------------------------------------------------------ *)
(** ** Dropping old chunks *)

(** What the walk over old chunks leaves when it removes some: a suffix that
    starts after the last second removed. *)
Definition cleaned (rest : list chunk) (D : list hrec) (total : Z) (r : list chunk * Z * Z) : Prop :=
  exists X D' x cs, D = (X ++ [x]) ++ D' /\ D' <> [] /\ r = (cs, total - Z.of_nat (length (X ++ [x])), sec x + 1) /\
    trep cs D' /\ (length cs <= length rest)%nat /\ forall y z, y ∈ X ++ [x] -> z ∈ D' -> sec y < sec z.

Definition last_sec (D : list hrec) (s : Z) : Prop := exists D' x, D = D' ++ [x] /\ sec x = s.

Lemma last_sec_app (D1 D2 : list hrec) (s : Z) : D2 <> [] -> last_sec (D1 ++ D2) s -> last_sec D2 s.
Proof.
  intros Hne (D' & x & E & Hs). destruct (ends_with D2 Hne) as (l & y & ->).
  rewrite app_assoc in E. apply app_inj_tail in E as [_ ->]. by exists l, x.
Qed.

(** The values a removed chunk's last second leaves in the next chunk. *)
Lemma clean_next (next : chunk) (ws : list hrec) (t total : Z) :
  chunk_rep next ws -> ws <> [] -> StronglySorted rec_lt ws -> Forall (fun r => t <= sec r) ws ->
  exists next' a b, ws = a ++ b /\ b <> [] /\ chunk_rep next' b /\ Forall (fun r => sec r = t) a /\
    (Forall (fun r => t < sec r) b \/ Forall (fun r => sec r = t) b) /\
    exists nf nl, slot_sec next (first_value next) = Ret nf /\ slot_sec next (last_value next) = Ret nl /\
      (if negb (nf =? nl) then free_first_values (S (length (slots next))) (fun u => u =? t) next total
       else Ret (next, total)) = Ret (next', total - Z.of_nat (length a)).
Proof.
  intros Hc Hne HS Ht. destruct (ends_with ws Hne) as (l & x & El).
  pose proof Hc as Hc2. rewrite El in Hc2. destruct ws as [|w ws0] eqn:Ews; [done|].
  pose proof (slot_sec_ret _ _ _ (slot_first _ _ _ Hc)) as Enf. pose proof (slot_sec_ret _ _ _ (slot_last _ _ _ Hc2)) as Enl.
  assert (Hwx : forall y, y ∈ w :: ws0 -> sec w <= sec y <= sec x).
  { intros y Hy. split.
    - apply elem_of_cons in Hy as [-> | Hy]; [done|]. inversion HS as [|? ? _ HF]; subst.
      rewrite Forall_forall in HF. specialize (HF y Hy). tcmp.
    - rewrite El in Hy, HS. apply elem_of_app in Hy as [Hy | ->%list_elem_of_singleton]; [|done].
      destruct (SS_app_rec _ _ HS) as (_ & _ & Hlx). specialize (Hlx y x Hy ltac:(by apply list_elem_of_singleton)). tcmp. }
  rewrite <- Ews in *. rewrite Forall_forall in Ht.
  destruct (Z.eqb_spec (sec w) (sec x)) as [E | Hne2]; cbn [negb].
  - exists next, [], ws. rewrite Ews in *. simpl. rewrite Z.sub_0_r. split_and!; try done.
    2: { eexists _, _. split_and!; [exact Enf|exact Enl|]. by rewrite E, Z.eqb_refl. }
    destruct (decide (sec w = t)) as [Ew | Hw]; [right|left]; apply Forall_forall; intros y Hy; specialize (Hwx y Hy);
      specialize (Ht w ltac:(by left)); lia.
  - set (a := filter (fun r => sec r < t + 1) ws). pose proof (SS_split_sec ws (t + 1) HS) as Esp. fold a in Esp.
    destruct (filter (fun r => t + 1 <= sec r) ws) as [|y b] eqn:Eb.
    { exfalso. apply (filter_nil_not_elem_of (fun r => t + 1 <= sec r) ws x Eb).
      - specialize (Ht w ltac:(rewrite Ews; by left)). specialize (Hwx x ltac:(rewrite El; apply elem_of_app; right; by apply list_elem_of_singleton)). lia.
      - rewrite El. apply elem_of_app. right. by apply list_elem_of_singleton. }
    assert (Hyb : Forall (fun r => t < sec r) (y :: b)).
    { rewrite <- Eb. eapply Forall_impl; [apply Forall_filter_not|]. simpl. lia. }
    assert (Ha : Forall (fun r => sec r = t) a).
    { apply Forall_forall. intros r [Hr Hin]%list_elem_of_filter. specialize (Ht r Hin). lia. }
    rewrite Esp in Hc. destruct (free_first_values_ok (S (length (slots next))) (fun u => u =? t) next a b y total Hc)
      as (c' & -> & Hc').
    + eapply Forall_impl; [exact Ha|]. simpl. lia.
    + apply Forall_nil_or in Hyb. lia.
    + by eapply free_fuel.
    + exists c', a, (y :: b). split_and!; try done; [by left|]. eexists _, _. split_and!; [exact Enf|exact Enl|].
      by rewrite (proj2 (Z.eqb_neq _ _) Hne2).
Qed.

Lemma clean_loop_ok (t head : Z) (rest : list chunk) (D : list hrec) :
  forall c vs total from, chunk_rep c vs -> vs <> [] -> trep rest D -> StronglySorted rec_lt (vs ++ D) -> last_sec (vs ++ D) head ->
  exists r, clean_loop t head c rest total from = Ret r /\
    ((r = (c :: rest, total, from) /\ forall x, last vs = Some x -> t <= sec x \/ sec x = head) \/
     cleaned rest (vs ++ D) total r).
Proof.
  intros c vs total from Hc Hne Hr. revert c vs total from Hc Hne.
  induction Hr as [|next rest ws D Hcn Hnen Hr IH]; intros c vs total from Hc Hne HS Hlast.
  all: destruct (ends_with vs Hne) as (X & x & Evs); pose proof Hc as Hc2; rewrite Evs in Hc2.
  all: cbn [clean_loop]; rewrite (slot_sec_ret _ _ _ (slot_last _ _ _ Hc2)); run.
  all: assert (Elast : last vs = Some x) by (by rewrite Evs, last_snoc).
  - destruct Hlast as (l & y & El & Ey). rewrite app_nil_r, Evs in El. apply app_inj_tail in El as [_ ->].
    exists ([c], total, from). split; [by destruct (_ && _)|]. left. split; [done|].
    intros x' E'. rewrite Elast in E'. injection E' as <-. by right.
  - destruct (Z.ltb_spec (sec x) t) as [Hlt | Hge]; cbn [andb].
    2: { eexists. split; [done|]. left. split; [done|]. intros x' E'. rewrite Elast in E'. injection E' as <-. by left. }
    destruct (Z.eqb_spec (sec x) head) as [Eh | Hnh]; cbn [negb].
    { eexists. split; [done|]. left. split; [done|]. intros x' E'. rewrite Elast in E'. injection E' as <-. by right. }
    destruct (SS_app_rec _ _ HS) as (HSv & HSr & Hvr). destruct (SS_app_rec _ _ HSr) as (HSw & HSD & HwD).
    assert (Hx : forall z, z ∈ ws ++ D -> sec x <= sec z).
    { intros z Hz. specialize (Hvr x z). rewrite Evs in Hvr.
      specialize (Hvr ltac:(apply elem_of_app; right; by apply list_elem_of_singleton) Hz). tcmp. }
    destruct (clean_next next ws (sec x) total Hcn Hnen HSw) as (next' & a & b & Ew & Hb & Hcb & Ha & Hab & nf & nl & -> & -> & Efr).
    { apply Forall_forall. intros z Hz. apply Hx, elem_of_app. by left. }
    run. rewrite Efr. run. rewrite (chunk_values_num_rep c vs Hc Hne).
    assert (Hlast' : last_sec (b ++ D) head).
    { rewrite Ew, <- app_assoc, app_assoc in Hlast. apply last_sec_app in Hlast; [done|]. by destruct b. }
    assert (HSb : StronglySorted rec_lt (b ++ D)).
    { rewrite Ew, <- app_assoc in HSr. by apply SS_app_rec in HSr as (_ & ? & _). }
    assert (Hva : forall y, y ∈ vs ++ a -> sec y <= sec x).
    { intros y [Hy | Hy]%elem_of_app; [|rewrite Forall_forall in Ha; by rewrite (Ha y Hy)].
      rewrite Evs in Hy, HSv. apply elem_of_app in Hy as [Hy | ->%list_elem_of_singleton]; [|done].
      destruct (SS_app_rec _ _ HSv) as (_ & _ & Hlx). specialize (Hlx y x Hy ltac:(by apply list_elem_of_singleton)). tcmp. }
    destruct (IH next' b (total - Z.of_nat (length a) - Z.of_nat (length vs)) (sec x + 1) Hcb Hb HSb Hlast')
      as (r & E & [(-> & Hstay) | (X' & D' & x' & cs & Eb & HD' & -> & Hcs & Hlen & Hbound)]).
    + eexists. split; [exact E|]. right.
      (* the values taken off end in the second of [x] *)
      assert (Hsec : exists X2 x2, vs ++ a = X2 ++ [x2] /\ sec x2 = sec x).
      { destruct (ends_with (vs ++ a)) as (X2 & x2 & E2); [by destruct vs|]. exists X2, x2. split; [done|].
        destruct a as [|a0 a'] using rev_ind.
        - rewrite app_nil_r, Evs in E2. by apply app_inj_tail in E2 as [_ ->].
        - rewrite app_assoc in E2. apply app_inj_tail in E2 as [_ <-]. rewrite Forall_app, Forall_singleton in Ha. apply Ha. }
      destruct Hsec as (X2 & x2 & E2 & Es2).
      exists X2, (b ++ D), x2, (next' :: rest). rewrite <- E2, Es2. split_and!.
      * by rewrite Ew, <- !app_assoc.
      * by destruct b.
      * do 2 f_equal. rewrite length_app. lia.
      * by constructor.
      * done.
      * intros y z Hy Hz. specialize (Hva y Hy). destruct Hab as [Hgt | Heq].
        { apply elem_of_app in Hz as [Hz | Hz]; rewrite Forall_forall in Hgt; [specialize (Hgt z Hz); lia|].
          destruct b as [|b0 b']; [done|]. specialize (Hgt b0 ltac:(by left)).
          destruct (SS_app_rec _ _ HSb) as (_ & _ & HbD). specialize (HbD b0 z ltac:(by left) Hz). tcmp. }
        exfalso. destruct (ends_with b Hb) as (b' & bl & ->). rewrite last_snoc in Hstay.
        rewrite Forall_app, Forall_singleton in Heq. destruct Heq as [_ Heq]. destruct (Hstay bl eq_refl); lia.
    + eexists. split; [exact E|]. right.
      exists (vs ++ a ++ X'), D', x', cs. split_and!; try done.
      * by rewrite Ew, <- !app_assoc, Eb, <- !app_assoc.
      * do 2 f_equal. rewrite !length_app. lia.
      * simpl. lia.
      * intros y z Hy Hz. rewrite <- !app_assoc, (app_assoc vs a) in Hy. apply elem_of_app in Hy as [Hy | Hy]; [|by apply Hbound].
        specialize (Hva y Hy). specialize (Hbound x' z ltac:(apply elem_of_app; right; by apply list_elem_of_singleton) Hz).
        specialize (Hx x'). assert (sec x <= sec x').
        { apply Hx. rewrite Ew, <- app_assoc, Eb. apply elem_of_app. right. apply elem_of_app. left. apply elem_of_app. right. by apply list_elem_of_singleton. }
        lia.
Qed.

(** vch_item_clean_cache: nothing, or the values up to some second are dropped
    and the item no longer claims to have them. *)
Lemma clean_cache_ok (it : vc_item) (D : list hrec) (t : Z) :
  store_ok it D -> StronglySorted rec_lt D ->
  exists it', vch_item_clean_cache it t = Ret it' /\
    (it' = it \/
     exists X x D' cs total, D = (X ++ [x]) ++ D' /\ D' <> [] /\ store_ok it' D' /\
       it' = set_status (set_cached_from (set_store it cs total) (sec x + 1)) 0 /\
       forall y z, y ∈ X ++ [x] -> z ∈ D' -> sec y < sec z).
Proof.
  intros [Hr Htot] HS. unfold vch_item_clean_cache.
  destruct (negb (0 =? active_range it)); [|eexists; split; [done|by left]].
  destruct (chunks it) as [|c rest] eqn:Ec; [eexists; split; [done|by left]|].
  inversion Hr as [|? ? vs D0 Hc Hne Hr']; subst. rename D0 into D, Hr' into Hr0.
  assert (Hhd : exists hd head, last (c :: rest) = Some hd /\ slot_sec hd (last_value hd) = Ret head /\ last_sec (vs ++ D) head).
  { destruct (ends_with (c :: rest)) as (cs & hd & Ecs); [done|].
    pose proof Hr as Hall. rewrite Ecs in Hall.
    apply trep_snoc in Hall as (D1 & ws & ED & _ & Hw & Hwne). destruct (ends_with ws Hwne) as (l & x & ->).
    exists hd, (sec x). rewrite Ecs, last_snoc. split_and!; [done|by apply slot_sec_ret, (slot_last _ l)|].
    exists (D1 ++ l), x. by rewrite ED, app_assoc. }
  destruct Hhd as (hd & head & -> & -> & Hlast). run.
  destruct (clean_loop_ok (t - active_range it) head rest D c vs (values_total it) (db_cached_from it) Hc Hne Hr0 HS Hlast)
    as (r & -> & [(-> & _) | (X & D' & x & cs & ED & HD' & -> & Hcs & Hlen & Hb)]).
  - run. rewrite decide_True by done. eexists. split; [done|]. left. rewrite <- Ec. by destruct it.
  - run. rewrite decide_False by (simpl; lia). eexists. split; [done|]. right.
    exists X, x, D', cs, (values_total it - Z.of_nat (length (X ++ [x]))). split_and!; try done.
    split; [done|]. cbn [values_total set_store set_status set_cached_from]. rewrite Htot, ED, !length_app. lia.
Qed.
