(* ===== verification/VcInsert.v ===== *)
(** Adding a value at the head of an item's storage: in the free slot of the
    head, in a new chunk, or between the cached values after the newer ones
    have been moved up. *)

From stdpp Require Import base list numbers sorting.
From Stdlib Require Import ZArith Lia.
From S2P Require Import Prelude Algo VcHistory VcDb VcChunk VcStore VcAdd.

Open Scope Z_scope.

(* ------------------------------------------------------------------ *)
(** ** Cells *)

Definition cwf (c : chunk) : Prop :=
  (first_value c <= last_value c < length (slots c))%nat /\ Z.of_nat (length (slots c)) <= ZBX_VC_MAX_CHUNK_RECORDS.

Definition size (c : chunk) : nat := (S (last_value c) - first_value c)%nat.

(** The slots in use, newest first. *)
Definition cv (c : chunk) : list (option hrec) := reverse (take (size c) (drop (first_value c) (slots c))).

Definition cvals (ncs : list chunk) : list (option hrec) := concat (cv <$> ncs).

Definition offset (ncs : list chunk) (k : nat) : nat := sum_list (size <$> take k ncs).

(** Position [p] is the [j]-th slot in use, counted from the newest. *)
Definition at_cell (ncs : list chunk) (p : nat * nat) (j : nat) : Prop :=
  exists c, ncs !! fst p = Some c /\ (first_value c <= snd p <= last_value c)%nat /\
    j = (offset ncs (fst p) + (last_value c - snd p))%nat.

Lemma offset_cons (y : chunk) (ncs : list chunk) (k : nat) : offset (y :: ncs) (S k) = (size y + offset ncs k)%nat.
Proof. reflexivity. Qed.

Lemma cvals_cons (y : chunk) (ncs : list chunk) : cvals (y :: ncs) = cv y ++ cvals ncs.
Proof. reflexivity. Qed.

Lemma length_cv (c : chunk) : cwf c -> length (cv c) = size c.
Proof. intros [H _]. unfold cv, size. rewrite length_reverse, length_take, length_drop. lia. Qed.

Lemma cv_lookup (c : chunk) (x : nat) : cwf c -> (x < size c)%nat -> cv c !! x = slots c !! (last_value c - x)%nat.
Proof.
  intros Hc Hx. pose proof (length_cv c Hc) as Hl. unfold cv in *. rewrite length_reverse in Hl.
  destruct Hc as [Hc _]. rewrite reverse_lookup by lia. rewrite Hl. unfold size in *.
  rewrite lookup_take_lt by lia. rewrite lookup_drop. f_equal. lia.
Qed.

Lemma cvals_lookup (ncs : list chunk) (k x : nat) (c : chunk) :
  Forall cwf ncs -> ncs !! k = Some c -> (x < size c)%nat -> cvals ncs !! (offset ncs k + x)%nat = cv c !! x.
Proof.
  intros HF. revert k. induction HF as [|y ncs Hy HF IH]; intros k Hk Hx; [done|].
  unfold cvals. cbn [fmap list_fmap concat]. fold (cvals ncs). destruct k as [|k]; simpl in Hk.
  - simplify_eq. simpl. rewrite lookup_app_l; [done|]. by rewrite length_cv.
  - rewrite offset_cons, lookup_app_r by (rewrite length_cv by done; lia).
    rewrite length_cv by done. rewrite <- (IH k Hk Hx). f_equal. lia.
Qed.

Lemma cvals_insert (ncs : list chunk) (k x : nat) (c c' : chunk) (v : option hrec) :
  Forall cwf ncs -> ncs !! k = Some c -> (x < size c)%nat -> cv c' = <[x := v]> (cv c) ->
  cvals (<[k := c']> ncs) = <[(offset ncs k + x)%nat := v]> (cvals ncs).
Proof.
  intros HF. revert k. induction HF as [|y ncs Hy HF IH]; intros k Hk Hx E; [done|].
  destruct k as [|k]; simpl in Hk.
  - simplify_eq. change (<[O := c']> (c :: ncs)) with (c' :: ncs). rewrite !cvals_cons, E. simpl.
    rewrite insert_app_l; [done|]. by rewrite length_cv.
  - change (<[S k := c']> (y :: ncs)) with (y :: <[k := c']> ncs). rewrite !cvals_cons, IH by done.
    rewrite offset_cons, <- Nat.add_assoc. by rewrite <- (length_cv y Hy), insert_app_r.
Qed.

Lemma length_cvals (ncs : list chunk) : Forall cwf ncs -> length (cvals ncs) = sum_list (size <$> ncs).
Proof.
  induction 1 as [|c ncs Hc _ IH]; [done|]. unfold cvals in *. cbn [fmap list_fmap concat].
  rewrite length_app, IH, length_cv by done. done.
Qed.

(** Reading and writing a cell. *)
Lemma read_cell (ncs : list chunk) (p : nat * nat) (j : nat) (r : hrec) :
  Forall cwf ncs -> at_cell ncs p j -> cvals ncs !! j = Some (Some r) -> read_pos ncs p = Ret r.
Proof.
  intros HF (c & Hk & Hi & ->) Hj. assert (Hc : cwf c) by (rewrite Forall_lookup in HF; eauto).
  rewrite (cvals_lookup _ _ _ _ HF Hk) in Hj by (unfold size; lia).
  rewrite cv_lookup in Hj by (done || unfold size; lia). unfold read_pos. rewrite Hk. unfold slot.
  replace (last_value c - (last_value c - snd p))%nat with (snd p) in Hj by lia. by rewrite Hj.
Qed.

Lemma at_cell_insert (ncs : list chunk) (k : nat) (c c' : chunk) (p : nat * nat) (j : nat) :
  ncs !! k = Some c -> first_value c' = first_value c -> last_value c' = last_value c ->
  at_cell ncs p j -> at_cell (<[k := c']> ncs) p j.
Proof.
  intros Hk Hf Hl (d & Hd & Hi & ->).
  assert (Eo : offset (<[k := c']> ncs) (fst p) = offset ncs (fst p)).
  { unfold offset. f_equal. rewrite !fmap_take, list_fmap_insert. f_equal.
    apply list_insert_id. rewrite list_lookup_fmap, Hk. simpl. unfold size. by rewrite Hf, Hl. }
  unfold at_cell. rewrite Eo. destruct (decide (fst p = k)) as [E | Hne].
  - rewrite E in *. simplify_eq. exists c'. rewrite list_lookup_insert_eq by (by eapply lookup_lt_Some). rewrite Hf, Hl. done.
  - exists d. by rewrite list_lookup_insert_ne.
Qed.

Lemma write_cell (ncs : list chunk) (p : nat * nat) (j : nat) (r : hrec) :
  Forall cwf ncs -> at_cell ncs p j ->
  exists ncs', write_pos ncs p r = Ret ncs' /\ Forall cwf ncs' /\ cvals ncs' = <[j := Some r]> (cvals ncs) /\
    length ncs' = length ncs /\ (forall q i, at_cell ncs q i -> at_cell ncs' q i).
Proof.
  intros HF (c & Hk & Hi & ->). assert (Hc : cwf c) by (rewrite Forall_lookup in HF; eauto).
  unfold write_pos, set_slot. rewrite Hk. destruct Hc as [Hc Hmax]. rewrite decide_True by lia. run.
  set (c' := Chunk (first_value c) (last_value c) (<[snd p := Some r]> (slots c))).
  assert (Hc' : cwf c') by (unfold c', cwf; cbn [first_value last_value slots]; by rewrite length_insert).
  exists (<[fst p := c']> ncs). split_and!; [done| | |by rewrite length_insert|].
  - by apply Forall_insert.
  - apply (cvals_insert _ _ _ c); [done|done|unfold size; lia|].
    apply list_eq. intros x. destruct (decide (x < size c)%nat) as [Hx | Hx].
    + rewrite cv_lookup by done. unfold c'. cbn [last_value slots].
      destruct (decide (x = (last_value c - snd p)%nat)) as [-> | Hne].
      * rewrite list_lookup_insert_eq by (rewrite length_cv by done; unfold size; lia).
        replace (last_value c - (last_value c - snd p))%nat with (snd p) by lia. rewrite list_lookup_insert_eq by lia. done.
      * rewrite list_lookup_insert_ne, list_lookup_insert_ne by (unfold size in *; lia). by rewrite cv_lookup.
    + rewrite !lookup_ge_None_2; [done|rewrite length_insert|]; rewrite length_cv by done; unfold size in *; simpl; lia.
  - intros q i. by apply (at_cell_insert ncs (fst p) c c').
Qed.

(** The cell before a cell: the next older slot of the chunk, or the newest of
    the chunk before. *)
Lemma next_cell (ncs : list chunk) (k i j : nat) (c : chunk) :
  Forall cwf ncs -> at_cell ncs (k, i) j -> ncs !! k = Some c -> (S j < length (cvals ncs))%nat ->
  ((i <= first_value c)%nat -> exists prev, ncs !! S k = Some prev /\ at_cell ncs (S k, last_value prev) (S j)) /\
  (~ (i <= first_value c)%nat -> at_cell ncs (k, (i - 1)%nat) (S j)).
Proof.
  intros HF (c' & Hk' & Hi & ->) Hk Hlen. cbn [fst snd] in *. rewrite Hk in Hk'. injection Hk' as <-. split; intros Hcmp.
  - assert (Eo : offset ncs (S k) = (offset ncs k + size c)%nat).
    { unfold offset. rewrite (take_S_r _ _ _ Hk), fmap_app, sum_list_with_app. simpl. lia. }
    destruct (ncs !! S k) as [prev|] eqn:Ep.
    + exists prev. split; [done|]. exists prev. simpl.
      assert (Hp : cwf prev) by (rewrite Forall_lookup in HF; eauto). destruct Hp as [Hp _].
      split_and!; [done|lia|lia|]. rewrite Eo. unfold size. lia.
    + exfalso. apply lookup_ge_None in Ep. rewrite length_cvals in Hlen by done.
      assert (Et : sum_list (size <$> ncs) = offset ncs (S k)) by (unfold offset; by rewrite take_ge by lia).
      rewrite Et, Eo in Hlen. unfold size in Hlen. lia.
  - exists c. simpl. split_and!; [done|lia|lia|lia].
Qed.

(* ------------------------------------------------------------------ *)
(** ** Cells and the list of values *)

Lemma cv_rep (c : chunk) (vs : list hrec) : chunk_rep c vs -> vs <> [] -> cwf c /\ cv c = Some <$> reverse vs.
Proof.
  intros (pre & post & -> & Hmax) Hne. unfold cwf, cv, size. cbn [first_value last_value slots] in *.
  assert (0 < length vs)%nat by (destruct vs; [done|simpl; lia]).
  rewrite !length_app, length_fmap in *. split; [lia|].
  rewrite drop_app_length. replace (S (length pre + length vs - 1) - length pre)%nat with (length (Some <$> vs)) by (rewrite length_fmap; lia).
  by rewrite take_app_length, <- fmap_reverse.
Qed.

Lemma rep_cv (c : chunk) (vs : list hrec) : cwf c -> cv c = Some <$> reverse vs -> chunk_rep c vs /\ vs <> [].
Proof.
  intros Hc E. pose proof (length_cv c Hc) as Hl. rewrite E, length_fmap, length_reverse in Hl.
  destruct Hc as [Hc Hmax]. unfold cv in E. rewrite fmap_reverse in E. apply (inj reverse) in E.
  split; [|intros ->; unfold size in Hl; simpl in Hl; lia].
  exists (take (first_value c) (slots c)), (drop (S (last_value c)) (slots c)). split; [|done].
  rewrite length_take, <- E. destruct c as [f l s]. unfold size in *. cbn [first_value last_value slots] in *.
  f_equal; [lia|lia|]. rewrite <- (take_drop f s) at 1. f_equal.
  rewrite <- (take_drop (S l - f) (drop f s)) at 1. f_equal. rewrite drop_drop. f_equal. lia.
Qed.

Lemma nrep_cvals (ncs : list chunk) (D : list hrec) :
  nrep ncs D -> Forall cwf ncs /\ cvals ncs = Some <$> reverse D.
Proof.
  induction 1 as [|c older vs D Hc Hne _ [HF IH]]; [done|].
  destruct (cv_rep c vs Hc Hne) as [Hw Ec]. split; [by constructor|].
  by rewrite cvals_cons, Ec, IH, reverse_app, fmap_app.
Qed.

Lemma cvals_nrep (ncs : list chunk) (D : list hrec) :
  Forall cwf ncs -> cvals ncs = Some <$> reverse D -> nrep ncs D.
Proof.
  intros HF. revert D. induction HF as [|c ncs Hc HF IH]; intros D E.
  - destruct D as [|x D _] using rev_ind; [constructor|]. by rewrite reverse_snoc in E.
  - rewrite cvals_cons in E. symmetry in E. apply fmap_app_inv in E as (R1 & R2 & E1 & E2 & ER).
    apply (f_equal reverse) in ER. rewrite reverse_involutive, reverse_app in ER. subst D.
    destruct (rep_cv c (reverse R1) Hc) as [Hr Hne]; [by rewrite reverse_involutive|].
    constructor; [done|done|]. apply IH. by rewrite reverse_involutive.
Qed.

(** An item whose newest cell is free for a value. *)
Definition open_head (it : vc_item) (D : list hrec) (hd : chunk) : Prop :=
  exists w older, reverse (chunks it) = hd :: older /\ Forall cwf (hd :: older) /\
    cvals (hd :: older) = w :: (Some <$> reverse D).

Lemma open_head_cell (it : vc_item) (D : list hrec) (hd : chunk) (older : list chunk) :
  cwf hd -> at_cell (hd :: older) (O, last_value hd) O.
Proof. intros [Hc _]. exists hd. simpl. unfold offset. simpl. split_and!; [done|lia|lia|lia]. Qed.

(** grow_head opens a cell; [hd] was the head before. *)
Lemma grow_head_ok (it : vc_item) (D : list hrec) (e : env) :
  store_ok it D -> Z.of_nat (length D) + 1 < 2 ^ 31 ->
  exists ok it' e', grow_head it e = Ret (ok, it', e') /\ same_but_store it it' /\
    (ok = true -> values_total it' = values_total it /\ exists hd', open_head it' D hd' /\
      forall hd, last (chunks it) = Some hd ->
        at_cell (reverse (chunks it'))
          (if decide (length (chunks it') = length (chunks it)) then (O, last_value hd) else (1%nat, last_value hd)) 1).
Proof.
  intros [Hr Htot] Hsz. apply nrep_reverse in Hr as Hn. apply nrep_cvals in Hn as [HF Hcv].
  unfold grow_head. set (full := match last (chunks it) with None => true | Some hd => bool_decide (length (slots hd) = S (last_value hd)) end).
  destruct full eqn:Efull.
  - destruct (slot_count_ok it 1 ltac:(lia)) as (n & -> & Hn). run. unfold vch_item_add_chunk.
    destruct (vc_item_alloc e) as [[] e']; cbn [negb]; [|eexists _, _, _; split; [done|]; split; [auto with vc|done]].
    eexists _, _, _. split; [done|]. split; [auto with vc|]. intros _. split; [done|].
    assert (Hnew : cwf (new_chunk n) /\ cv (new_chunk n) = [None]).
    { unfold ZBX_VC_MIN_CHUNK_RECORDS in Hn. unfold cwf, cv, size, new_chunk. cbn [first_value last_value slots].
      rewrite length_replicate. split; [lia|]. destruct (Z.to_nat n) eqn:En; [lia|done]. }
    destruct Hnew as [Hw Ecv]. cbn [chunks set_store]. exists (new_chunk n). split.
    + exists None, (reverse (chunks it)). cbn [chunks set_store]. rewrite reverse_snoc. split_and!; [done|by constructor|].
      by rewrite cvals_cons, Ecv, Hcv.
    + intros hd Hhd. rewrite length_app, decide_False by (simpl; lia). rewrite reverse_snoc.
      exists hd. simpl. apply last_Some in Hhd as [cs Ecs]. rewrite Ecs, reverse_snoc. split; [done|].
      rewrite Ecs, reverse_snoc in HF. apply Forall_cons in HF as [[Hc _] _].
      unfold offset. simpl. unfold size, new_chunk. simpl. lia.
  - destruct (last (chunks it)) as [hd|] eqn:Ehd; [|done]. unfold full in Efull.
    apply bool_decide_eq_false in Efull. eexists _, _, _. split; [done|]. split; [auto with vc|]. intros _. split; [done|].
    apply last_Some in Ehd as [cs Ecs]. rewrite Ecs, reverse_snoc in HF, Hcv. apply Forall_cons in HF as [[Hc Hmax] HF].
    set (hd' := Chunk (first_value hd) (S (last_value hd)) (slots hd)).
    assert (Eit : <[(length (chunks it) - 1)%nat := hd']> (chunks it) = cs ++ [hd']).
    { rewrite Ecs, length_app. simpl. replace (length cs + 1 - 1)%nat with (length cs) by lia. apply list_insert_split. }
    exists hd'. unfold open_head. cbn [chunks set_store]. fold hd'. rewrite Eit, reverse_snoc. split.
    + exists (default None (slots hd !! S (last_value hd))), (reverse cs).
      assert (Hw : cwf hd') by (unfold hd', cwf; cbn [first_value last_value slots]; split; lia).
      split_and!; [done|by constructor|]. rewrite cvals_cons in *. rewrite <- Hcv. rewrite app_comm_cons. f_equal.
      apply list_eq. intros [|x].
      * rewrite cv_lookup by (done || unfold size, hd'; simpl; lia). unfold hd'. cbn [last_value slots].
        rewrite Nat.sub_0_r. simpl. destruct (lookup_lt_is_Some_2 (slots hd) (S (last_value hd)) ltac:(lia)) as [o ->]. done.
      * change ((default None (slots hd !! S (last_value hd)) :: cv hd) !! S x) with (cv hd !! x).
        destruct (decide (x < size hd)%nat) as [Hx | Hx].
        -- rewrite !cv_lookup by (done || unfold size, hd' in *; simpl; lia). unfold hd'. cbn [last_value slots].
           f_equal.
        -- rewrite !lookup_ge_None_2; [done| |]; rewrite length_cv by done; unfold size, hd' in *; simpl in *; lia.
    + intros hd0 [= <-]. rewrite Ecs, !length_app. simpl. rewrite decide_True by done.
      exists hd'. unfold hd'. simpl. unfold offset. simpl. split_and!; [done|lia|lia|lia].
Qed.

(* ------------------------------------------------------------------ *)
(** ** Moving the newer values up *)

Section Shift.
  Context (v : hrec) (newer older : list hrec).
  Hypothesis Hnew : Forall (fun r => rec_lt v r) newer.
  Hypothesis Hold : Forall (fun r => rec_lt r v) older.
  Hypothesis Hne : older <> [].

(** [newer] and [older] newest first; the cell to fill follows the first [j]. *)
Definition shifted (s : list chunk * (nat * nat) * (nat * nat)) (j : nat) : Prop :=
  let '(cs, dst, src) := s in
  (j < length newer)%nat /\ Forall cwf cs /\ at_cell cs dst j /\ at_cell cs src (S j) /\
  exists w, cvals cs = (Some <$> take j newer) ++ w :: (Some <$> drop j newer ++ older).

Lemma shift_round_ok (s : list chunk * (nat * nat) * (nat * nat)) (j : nat) :
  shifted s j ->
  (exists s', shift_round v s = Ret (inl s') /\ shifted s' (S j)) \/
  (exists cs dst, shift_round v s = Ret (inr (cs, dst)) /\ Forall cwf cs /\ at_cell cs dst (length newer) /\
     exists w, cvals cs = (Some <$> newer) ++ w :: (Some <$> older)).
Proof using Hnew Hold Hne.
  destruct s as [[cs dst] src]. intros (Hj & HF & Hd & Hs & w & Hcv).
  destruct (lookup_lt_is_Some_2 newer j Hj) as [r Hr].
  assert (Hrd : read_pos cs src = Ret r).
  { apply (read_cell cs src (S j)); [done|done|]. rewrite Hcv, lookup_app_r by (rewrite length_fmap, length_take; lia).
    rewrite length_fmap, length_take, Nat.min_l by lia. replace (S j - j)%nat with 1%nat by lia. simpl.
    rewrite (drop_S _ _ _ Hr). done. }
  unfold shift_round. rewrite Hrd. run. destruct (write_cell cs dst j r HF Hd) as (cs' & -> & HF' & Hcv' & Hlen & Hat). run.
  assert (E' : cvals cs' = (Some <$> take (S j) newer) ++ Some r :: (Some <$> drop (S j) newer ++ older)).
  { rewrite Hcv', Hcv, (take_S_r _ _ _ Hr), (fmap_app _ (take j newer) [r]), <- app_assoc.
    rewrite (drop_S _ _ _ Hr). cbn [fmap list_fmap app].
    assert (El : j = length (Some <$> take j newer)) by (rewrite length_fmap, length_take; lia).
    rewrite El at 1. by rewrite list_insert_split. }
  apply Hat in Hs. destruct src as [k i]. cbn [fst snd] in *. pose proof Hs as Hs0.
  destruct Hs as (c & Hk & Hi & HSj). cbn [fst snd] in *. rewrite Hk.
  assert (Hlt : (S (S j) < length (cvals cs'))%nat).
  { rewrite E', length_app. cbn [length]. rewrite !length_fmap, length_app, length_take, length_drop.
    destruct older; [done|]. cbn [length]. lia. }
  destruct (next_cell cs' k i (S j) c HF' Hs0 Hk Hlt) as [Hle Hgt].
  assert (Hsrc : exists src', (if decide (i <= first_value c)%nat then
                 match cs' !! S k with None => Undef | Some prev => Ret (S k, last_value prev) end
               else Ret (k, (i - 1)%nat)) = Ret src' /\ at_cell cs' src' (S (S j))).
  { case_decide as Hcmp; [|by eauto]. destruct (Hle Hcmp) as (prev & -> & Hat'). eauto. }
  destruct Hsrc as (src' & -> & Hat'). run.
  destruct (decide (S j < length newer)%nat) as [Hmore | Hend].
  - destruct (lookup_lt_is_Some_2 newer (S j) Hmore) as [r2 Hr2].
    rewrite (read_cell cs' src' (S (S j)) r2 HF' Hat').
    2: { rewrite E', lookup_app_r by (rewrite length_fmap, length_take; lia). rewrite length_fmap, length_take, Nat.min_l by lia.
         replace (S (S j) - S j)%nat with 1%nat by lia. simpl. by rewrite (drop_S _ _ _ Hr2). }
    run. rewrite Forall_lookup in Hnew. specialize (Hnew _ _ Hr2).
    destruct (Z.ltb_spec 0 (zbx_timespec_compare (timestamp r2) (timestamp v))); [|tcmp].
    left. eexists. split; [done|]. split_and!; [done|done|done|done|]. eauto.
  - assert (Elen : S j = length newer) by lia. destruct older as [|r2 older']; [done|].
    rewrite (read_cell cs' src' (S (S j)) r2 HF' Hat').
    2: { rewrite E', lookup_app_r by (rewrite length_fmap, length_take; lia). rewrite length_fmap, length_take, Nat.min_l by lia.
         replace (S (S j) - S j)%nat with 1%nat by lia. simpl. by rewrite (drop_ge newer) by lia. }
    run. apply Forall_nil_or in Hold. simpl in Hold.
    destruct (Z.ltb_spec 0 (zbx_timespec_compare (timestamp r2) (timestamp v))); [tcmp|].
    right. eexists _, _. split; [done|]. rewrite <- Elen. split_and!; [done|done|].
    exists (Some r). rewrite E'. by rewrite take_ge, drop_ge by lia.
Qed.

Lemma shift_ok (s : list chunk * (nat * nat) * (nat * nat)) :
  shifted s 0 -> Z.of_nat (length newer) < 2 ^ 31 ->
  exists cs dst, while 32 (shift_round v) s = Ret (cs, dst) /\ Forall cwf cs /\ at_cell cs dst (length newer) /\
     exists w, cvals cs = (Some <$> newer) ++ w :: (Some <$> older).
Proof using Hnew Hold Hne.
  intros Hs Hlen.
  set (Q := fun r : list chunk * (nat * nat) => Forall cwf (fst r) /\ at_cell (fst r) (snd r) (length newer) /\
       exists w, cvals (fst r) = (Some <$> newer) ++ w :: (Some <$> older)).
  set (J := fun (n : Z) s => exists j, shifted s j /\ n = Z.of_nat (length newer) - Z.of_nat j).
  assert (Hround : forall n s, J n s ->
    (exists s' n', shift_round v s = Ret (inl s') /\ J n' s' /\ 0 <= n' < n) \/
    (exists r, shift_round v s = Ret (inr r) /\ Q r)).
  { intros n s' (j & Hj & ->). destruct (shift_round_ok s' j Hj) as [(s2 & E2 & Hs2) | (cs & dst & E2 & H2)].
    - left. exists s2, (Z.of_nat (length newer) - Z.of_nat (S j)). split_and!; [done|by exists (S j)| |lia].
      assert (S j < length newer)%nat by (destruct s2 as [[? ?] ?]; apply Hs2). lia.
    - right. by exists (cs, dst). }
  destruct (while_rank (shift_round v) J Q Hround 32 (Z.of_nat (length newer)) s) as ([cs dst] & E & HQ).
  - exists O. split; [done|lia].
  - change (2 ^ Z.of_nat 32) with 4294967296. lia.
  - exists cs, dst. done.
Qed.
End Shift.

(* ------------------------------------------------------------------ *)
(** ** vch_item_add_value_at_head *)

Lemma trep_empty (cs : list chunk) : trep cs [] -> cs = [].
Proof.
  intros H. remember [] as D eqn:E. destruct H as [|c rest vs D Hc Hne Hr]; [done|]. by apply app_eq_nil in E as [? _].
Qed.

(** Filling a cell: the values of the item with [v] in its place. *)
Lemma copy_value_ok (it : vc_item) (cs : list chunk) (p : nat * nat) (l1 l2 : list hrec) (v : hrec) (e : env) (w : option hrec) :
  typed (item_value_type it) (value v) = true ->
  Forall cwf cs -> at_cell cs p (length l2) -> cvals cs = (Some <$> reverse l2) ++ w :: (Some <$> reverse l1) ->
  values_total it = Z.of_nat (length l1 + length l2) + 1 ->
  exists ok it' e', vch_item_copy_value it cs p v e = Ret (ok, it', e') /\ same_but_store it it' /\
    (ok = true -> store_ok it' (l1 ++ v :: l2)).
Proof.
  intros Ht HF Hp Hcv Htot. unfold vch_item_copy_value.
  destruct (store_value_ok _ _ e Ht) as (ok & e1 & -> & _). run. destruct ok.
  2: { eexists _, _, _. split; [done|]. split; [auto with vc|done]. }
  destruct (write_cell cs p _ v HF Hp) as (cs' & -> & HF' & Hcv' & _ & _). run.
  eexists _, _, _. split; [done|]. split; [auto with vc|]. intros _. split.
  - cbn [chunks set_store]. apply nrep_trep, cvals_nrep; [done|]. rewrite Hcv', Hcv.
    replace (length l2) with (length (Some <$> reverse l2)) by (by rewrite length_fmap, length_reverse).
    rewrite list_insert_split, reverse_app, reverse_cons, !fmap_app, <- app_assoc. done.
  - cbn [values_total set_store]. rewrite Htot, length_app. simpl. lia.
Qed.

Lemma grown_item (it it' : vc_item) (D : list hrec) :
  same_but_store it it' -> item_value_type it' = item_value_type it.
Proof. by intros (? & ? & ->). Qed.

(** The value is the newest: it goes into the cell opened at the head. *)
Lemma set_store_append_ok (it : vc_item) (D : list hrec) (v : hrec) (e : env) :
  store_ok it D -> Z.of_nat (length D) + 1 < 2 ^ 31 -> typed (item_value_type it) (value v) = true ->
  exists ok it' e',
    (r ← grow_head it e;
     match r with
     | (false, it, e) => Ret (false, it, e)
     | (true, it, e) =>
       let cs := reverse (chunks it) in
       match cs with
       | [] => Undef
       | hd :: _ => vch_item_copy_value (set_store it (chunks it) (values_total it + 1)) cs (O, last_value hd) v e
       end
     end) = Ret (ok, it', e') /\ same_but_store it it' /\ (ok = true -> store_ok it' (D ++ [v])).
Proof.
  intros Hok Hsz Ht. destruct (grow_head_ok it D e Hok Hsz) as (ok & it1 & e1 & -> & Hs1 & H1). run.
  destruct ok; [|by eexists _, _, _]. destruct (H1 eq_refl) as (Htot & hd & (w & older & Ecs & HF & Hcv) & _).
  rewrite Ecs. cbv zeta iota. pose proof HF as [Hw _]%Forall_cons.
  destruct (copy_value_ok (set_store it1 (chunks it1) (values_total it1 + 1)) (hd :: older) (O, last_value hd) D [] v e1 w)
    as (ok & it2 & e2 & -> & Hs2 & H2).
  - cbn [item_value_type set_store]. by rewrite (grown_item it it1 D).
  - done.
  - apply (open_head_cell it D); done.
  - by rewrite Hcv.
  - cbn [values_total set_store]. destruct Hok as [_ E]. rewrite Htot, E. simpl. lia.
  - exists ok, it2, e2. split; [done|]. split; [eauto with vc|done].
Qed.

(** vch_item_add_value_at_head. *)
Lemma add_value_at_head_ok (it : vc_item) (D : list hrec) (v : hrec) (e : env) :
  store_ok it D -> hist_ok D -> fresh v D -> Z.of_nat (length D) + 1 < 2 ^ 31 ->
  typed (item_value_type it) (value v) = true ->
  exists ok it' e', vch_item_add_value_at_head it v e = Ret (ok, it', e') /\
    (ok = true ->
     (store_ok it' (hist_insert v D) /\ same_but_store it it' /\ (D = [] \/ exists r, r ∈ D /\ rec_lt r v)) \/
     (D <> [] /\ Forall (fun r => rec_lt v r) D /\
      let D' := filter (fun r => sec v + 1 <= sec r) D in
      D' <> [] /\ store_ok it' D' /\ exists cs total,
      it' = set_cached_from (set_store (if status it =? ZBX_ITEM_STATUS_CACHED_ALL then set_status it 0 else it) cs total)
        (if db_cached_from it <=? sec v then sec v + 1 else db_cached_from it))).
Proof.
  intros Hok HD Hf Hsz Ht. destruct (hist_split D v HD Hf) as (l1 & l2 & -> & H1 & H2).
  rewrite hist_insert_between by done. unfold vch_item_add_value_at_head.
  set (append := (r ← grow_head it e; _)).
  assert (Happ : l2 = [] -> exists ok it' e', append = Ret (ok, it', e') /\ same_but_store it it' /\
     (ok = true -> store_ok it' (l1 ++ v :: l2))).
  { intros ->. rewrite app_nil_r in *. by apply set_store_append_ok. }
  clearbody append.
  destruct (chunks it) as [|tl rest] eqn:Ec.
  { assert (E : l1 ++ l2 = []) by (destruct Hok as [Hr _]; rewrite Ec in Hr; by inversion Hr).
    apply app_eq_nil in E as [-> ->]. destruct (Happ eq_refl) as (ok & it' & e' & -> & Hs & Hst).
    exists ok, it', e'. split; [done|]. intros Hok'. left. split_and!; [by apply Hst|done|by left]. }
  destruct (last (tl :: rest)) as [hd|] eqn:Ehd; [|by apply last_None in Ehd].
  destruct Hok as [Hr Htot]. rewrite Ec in Hr.
  assert (Hhd : exists l x, l1 ++ l2 = l ++ [x] /\ slot hd (last_value hd) = Ret x).
  { apply last_Some in Ehd as [cs Ecs]. rewrite Ecs in Hr. apply trep_snoc in Hr as (D1 & ws & ED & _ & Hw & Hwne).
    destruct (ends_with ws Hwne) as (l & x & ->). exists (D1 ++ l), x. split; [by rewrite ED, app_assoc|by apply (slot_last _ l)]. }
  assert (Htl : exists x l, l1 ++ l2 = x :: l /\ slot tl (first_value tl) = Ret x).
  { inversion Hr as [|? ? vs D0 Hc Hne Hr0]; subst. destruct vs as [|x vs]; [done|].
    exists x, (vs ++ D0). split; [done|by apply (slot_first _ _ vs)]. }
  destruct Hhd as (l & x & El & ->). run.
  assert (Hx : (0 < zbx_history_record_compare_asc x v) <-> l2 <> []).
  { destruct l2 as [|y l2' _] using rev_ind.
    - rewrite app_nil_r in El. subst l1. rewrite Forall_app, Forall_singleton in H1. destruct H1 as [_ H1]. split; [|done]. tcmp.
    - rewrite app_assoc in El. apply app_inj_tail in El as [_ ->]. rewrite Forall_app, Forall_singleton in H2. destruct H2 as [_ H2].
      split; [intros _ E; by destruct l2'|]. intros _. tcmp. }
  destruct (Z.ltb_spec 0 (zbx_history_record_compare_asc x v)) as [Hgt | Hle].
  2: { destruct (decide (l2 = [])) as [E2 | Hne]; [|apply Hx in Hne; lia].
    destruct (Happ E2) as (ok & it' & e' & -> & Hs & Hst). exists ok, it', e'. split; [done|]. intros Hok'. left.
    split_and!; [by apply Hst|done|]. right. exists x. subst l2. rewrite app_nil_r in *. subst l1. split.
    - apply elem_of_app. right. by apply list_elem_of_singleton.
    - rewrite Forall_app, Forall_singleton in H1. apply H1. }
  apply Hx in Hgt. clear Hx Happ append El l x.
  destruct Htl as (x & l & El & ->). run.
  destruct l1 as [|y l1'].
  - (* the value is older than all that is cached *)
    simpl in El. subst l2. simpl app in *. apply Forall_nil_or in H2 as Hv. simpl in Hv.
    destruct (Z.ltb_spec 0 (zbx_history_record_compare_asc x v)); [|tcmp].
    destruct (remove_values_ok it (x :: l) (sec v + 1)) as (it1 & -> & [Hr1 Htot1] & (cs & total & E1)); [by split; [rewrite Ec|]|apply HD|].
    run. case_decide as Enil; [by eexists _, _, _|].
    eexists _, _, _. split; [done|]. intros _. right. split_and!; [done|done| | |].
    + intros E. rewrite E in Hr1. by apply Enil, trep_empty.
    + split; [by destruct (_ <=? _)|]. by destruct (_ <=? _).
    + exists cs, total. rewrite E1. cbn [db_cached_from set_store]. destruct (status it =? _); cbn [db_cached_from set_status];
        destruct (db_cached_from it <=? sec v); by destruct it.
  - (* the value goes between *)
    simpl in El. injection El as <- <-. apply Forall_nil_or in H1 as Hy. simpl in Hy.
    destruct (Z.ltb_spec 0 (zbx_history_record_compare_asc y v)); [tcmp|].
    set (l1 := y :: l1') in *. change (y :: l1' ++ l2) with (l1 ++ l2) in *.
    destruct (grow_head_ok it (l1 ++ l2) e) as (ok & it1 & e1 & -> & Hs1 & Hg); [by split; [rewrite Ec|]|done|].
    run. destruct ok; [|by eexists _, _, _].
    destruct (Hg eq_refl) as (Htot1 & hd' & (w & older & Ecs & HF & Hcv) & Hsrc). specialize (Hsrc hd ltac:(by rewrite Ec)).
    rewrite Ecs in *. cbv zeta iota. rewrite Ec in Hsrc. pose proof HF as [Hw _]%Forall_cons.
    set (src := if decide _ then _ else _) in *.
    destruct (shift_ok v (reverse l2) (reverse l1)) with (s := (hd' :: older, (O, last_value hd'), src))
      as (cs & dst & -> & HF2 & Hdst & w2 & Hcv2).
    + by apply Forall_reverse.
    + by apply Forall_reverse.
    + intros E%(f_equal length). rewrite length_reverse in E. done.
    + unfold shifted. rewrite length_reverse. split_and!; [destruct l2; [done|simpl; lia]|done|by apply (open_head_cell it [])|done|].
      exists w. by rewrite Hcv, reverse_app.
    + rewrite length_reverse. rewrite length_app in Hsz. lia.
    + run. rewrite length_reverse in Hdst.
      destruct (copy_value_ok (set_store it1 (chunks it1) (values_total it1 + 1)) cs dst l1 l2 v e1 w2) as (ok & it2 & e2 & -> & Hs2 & H2').
      * cbn [item_value_type set_store]. by rewrite (grown_item it it1 []).
      * done.
      * done.
      * done.
      * cbn [values_total set_store]. rewrite Htot1, Htot, length_app. lia.
      * exists ok, it2, e2. split; [done|]. intros Hok'. left. split_and!; [by apply H2'|eauto with vc|].
        right. exists y. split; [by left|done].
Qed.
