(* ===== verification/VcItem.v ===== *)
(** The cached item (zbxcachevalue/valuecache.c): which values it is known to
    hold, how a request makes it read the missing ones, and how the request is
    answered from it. *)

From stdpp Require Import base list numbers sorting.
From Stdlib Require Import ZArith Lia.
From S2P Require Import Prelude Calendar VcHistory VcDb VcChunk VcStore VcAdd VcInsert.

Open Scope Z_scope.

(* ------------------------------------------------------------------ *)
(** ** Statistics and ranges *)

(** struct zbx_vc_item_update_t: what a reader has to tell the item, applied
    when the process flushes its statistics. *)
Inductive vc_update :=
  | VC_UPDATE_STATS (itemid hits misses : Z)
  | VC_UPDATE_RANGE (itemid seconds now : Z).

Definition ZBX_VC_RANGE_SYNC_PERIOD : Z := 24.

(** vch_item_update_range. *)
Definition vch_item_update_range (it : vc_item) (range now : Z) : res vc_item :=
  let range := if range <? VC_MIN_RANGE then VC_MIN_RANGE else range in
  let daily := if daily_range it <? range then range else daily_range it in
  let hour := Z.land (Z.quot now SEC_PER_HOUR) 255 in
  let diff := hour - range_sync_hour it in
  let diff := if diff <? 0 then diff + 255 else diff in
  last_value_timestamp ← (match last (chunks it) with
                          | Some hd => slot_sec hd (last_value hd)
                          | None => Ret now
                          end);
  Ret (if (active_range it <? daily)
          || ((ZBX_VC_RANGE_SYNC_PERIOD <? diff)
              && (Z.quot (now - last_value_timestamp) SEC_PER_HOUR <? ZBX_VC_RANGE_SYNC_PERIOD))
       then set_ranges it daily range hour
       else set_ranges it (active_range it) daily (range_sync_hour it)).

(** The item part of vc_update_statistics. *)
Definition vc_update_item_statistics (it : vc_item) (hit misses now : Z) : vc_item :=
  let h := Z.quot now SEC_PER_HOUR in
  let lasth := if h =? hour it then last_hourly_num it else hourly_num it in
  let hn := if h =? hour it then hourly_num it else 0 in
  let hn := if hn <? hit + misses then hit + misses else hn in
  set_stats it now lasth hn h (u64 (hits it + hit)).

(** vc_item_update_db_cached_from. *)
Definition vc_item_update_db_cached_from (it : vc_item) (timestamp : Z) : vc_item :=
  if (0 =? db_cached_from it) || (timestamp <? db_cached_from it) then set_cached_from it timestamp else it.

(* ------------------------------------------------------------------ *)
(** ** Reading the missing values *)

(** zbx_hashset_insert of an item: an allocation without making room. *)
Definition hashset_insert (e : env) : bool * env :=
  match plan e with
  | [] => (true, e)
  | a :: p => (granted a, Env p (lost e) (went_low e))
  end.

(** The item is looked up again after the database has been read; one that was
    not cached is added now. *)
Definition find_or_insert (present : bool) (e : env) : bool * env :=
  if present then (true, e) else hashset_insert e.

(** The start of the cached values. *)
Definition cached_start (it : vc_item) : res (option Z) :=
  match chunks it with
  | [] => Ret None
  | tail :: _ => s ← slot_sec tail (first_value tail); Ret (Some s)
  end.

Section Cache.
  Context `{HistoryBackend}.

(** What caching returns: the number of values read (None for FAIL), the
    item, and whether it is in the cache. *)
Definition cached : Type := option Z * vc_item * bool * env.

(** Adding the values read to the item, or failing. *)
Definition add_records (it : vc_item) (records : list hrec) (e : env) : res (bool * vc_item * env) :=
  match records with
  | [] => Ret (true, it, e)
  | _ => vch_item_add_values_at_tail it records e
  end.

(** vch_item_cache_values_by_time. *)
Definition vch_item_cache_values_by_time (T : list hrec) (it : vc_item) (present : bool) (range_start : Z) (e : env)
    : res cached :=
  if ZBX_ITEM_STATUS_CACHED_ALL =? status it then Ret (Some 0, it, present, e)
  else if negb (0 =? db_cached_from it) && (db_cached_from it <=? range_start) then Ret (Some 0, it, present, e)
  else
    first ← cached_start it;
    let range_end := match first with Some s => s - 1 | None => ZBX_JAN_2038 end in
    if range_end <=? range_start then Ret (Some 0, it, present, e)
    else
      r ← vc_db_read_values_by_time T [] range_start range_end;
      match r with
      | None => Ret (None, it, present, e)
      | Some records =>
        let records := sort_asc records in
        let '(ok, e) := find_or_insert present e in
        if negb ok then Ret (None, it, false, e)
        else
          r ← add_records (set_status it 0) records e;
          match r with
          | (false, it, e) => Ret (None, it, true, e)
          | (true, it, e) =>
            Ret (Some (Z.of_nat (length records)), vc_item_update_db_cached_from it range_start, true, e)
          end
      end.

(** The values of the older chunks, while they are needed. *)
Fixpoint count_older (older : list chunk) (count cached_records : Z) : Z :=
  match older with
  | [] => cached_records
  | c :: older =>
    if cached_records <? count then count_older older count (cached_records + chunk_values_num c) else cached_records
  end.

(** The number of cached values up to [ts], as far as they are counted. *)
Definition cached_records_num (it : vc_item) (count : Z) (ts : timespec) : res Z :=
  if negb (0 =? db_cached_from it) && negb (bool_decide (chunks it = [])) then
    p ← vch_item_get_last_value it ts;
    match p with
    | Some (c :: older, index) =>
      Ret (count_older older count (Z.of_nat index - Z.of_nat (first_value c) + 1))
    | _ => Ret 0
    end
  else Ret 0.

(** The database reads of vch_item_cache_values_by_time_and_count: the
    values past [ts] up to [range_end], then the counted ones; with the
    number of the former. *)
Definition read_by_time_and_count (T : list hrec) (range_start count range_end : Z) (ts : timespec)
    : res (option (list hrec * Z)) :=
  r ← (if ts_sec ts <? range_end then vc_db_read_values_by_time T [] (ts_sec ts + 1) range_end
       else Ret (Some []));
  match r with
  | None => Ret None
  | Some records =>
    let range_end := if ts_sec ts <? range_end then ts_sec ts else range_end in
    r ← vc_db_read_values_by_time_and_count T records range_start count range_end ts;
    match r with
    | None => Ret None
    | Some all => Ret (Some (sort_asc all, Z.of_nat (length records)))
    end
  end.

(** What the item is marked with after the read. *)
Definition mark_cached (it : vc_item) (range_start count cached_records records_num records_offset : Z) : res vc_item :=
  let it :=
    if (0 =? range_start) && (records_num - records_offset <? count - cached_records)
    then set_status (set_ranges it 0 0 (range_sync_hour it)) ZBX_ITEM_STATUS_CACHED_ALL
    else it in
  if ((count <=? records_num) || (0 =? range_start)) && negb (0 =? records_num) then
    first ← cached_start it;
    match first with
    | Some s => Ret (vc_item_update_db_cached_from it s)
    | None => Undef
    end
  else if negb (0 =? range_start) then Ret (vc_item_update_db_cached_from it range_start)
  else Ret it.

(** vch_item_cache_values_by_time_and_count. *)
Definition vch_item_cache_values_by_time_and_count (T : list hrec) (it : vc_item) (present : bool)
    (range_start count : Z) (ts : timespec) (e : env) : res cached :=
  if ZBX_ITEM_STATUS_CACHED_ALL =? status it then Ret (Some 0, it, present, e)
  else if negb (0 =? db_cached_from it) && (db_cached_from it <=? range_start) then Ret (Some 0, it, present, e)
  else
    cached_records ← cached_records_num it count ts;
    if count <=? cached_records then Ret (Some 0, it, present, e)
    else
      first ← cached_start it;
      let range_end :=
        match first with
        | Some s => if negb (0 =? db_cached_from it) then s - 1 else ZBX_JAN_2038
        | None => ZBX_JAN_2038
        end in
      r ← read_by_time_and_count T range_start (count - cached_records) range_end ts;
      match r with
      | None => Ret (None, it, present, e)
      | Some (records, records_offset) =>
        let '(ok, e) := find_or_insert present e in
        if negb ok then Ret (None, it, false, e)
        else
          r ← add_records it records e;
          match r with
          | (false, it, e) => Ret (None, it, true, e)
          | (true, it, e) =>
            it ← mark_cached it range_start count cached_records (Z.of_nat (length records)) records_offset;
            Ret (Some (Z.of_nat (length records)), it, true, e)
          end
      end.

  (* ---------------------------------------------------------------- *)
  (** ** Answering from the item *)

(** vch_item_get_values_by_time; the range is kept one second longer. *)
Definition vch_item_get_values_by_time (it : vc_item) (seconds : Z) (ts : timespec) (now : Z)
    : res (list hrec * list vc_update) :=
  let ups := [VC_UPDATE_RANGE (itemid it) (seconds + now - ts_sec ts + 1) now] in
  p ← vch_item_get_last_value it ts;
  match p with
  | None => Ret ([], ups)
  | Some (cs, index) =>
    values ← copy_values cs index (Timespec (ts_sec ts - seconds) (ts_ns ts)) None [];
    Ret (values, ups)
  end.

(** vch_item_get_values_by_time_and_count. *)
Definition vch_item_get_values_by_time_and_count (it : vc_item) (seconds count : Z) (ts : timespec) (now : Z)
    : res (list hrec * list vc_update) :=
  let start := if negb (0 =? seconds) then Timespec (ts_sec ts - seconds) (ts_ns ts) else Timespec 0 0 in
  p ← vch_item_get_last_value it ts;
  values ← (match p with
            | None => Ret []
            | Some (cs, index) => copy_values cs index start (Some count) []
            end);
  if Z.of_nat (length values) <? count then
    if 0 =? seconds then Ret (values, [])
    else Ret (values, [VC_UPDATE_RANGE (itemid it) (now - (ts_sec ts - seconds)) now])
  else
    match last values with
    | None => Undef
    | Some r => Ret (values, [VC_UPDATE_RANGE (itemid it) (now - (sec r - 1)) now])
    end.

(** vch_item_get_values: the values, or None for FAIL. *)
Definition vch_item_get_values (T : list hrec) (it : vc_item) (present : bool) (seconds count : Z) (ts : timespec)
    (now : Z) (e : env) : res (option (list hrec * list vc_update) * vc_item * bool * env) :=
  r ← (if 0 =? count then
         let range_start := ts_sec ts - seconds in
         let range_start := if range_start <? 0 then 0 else range_start in
         vch_item_cache_values_by_time T it present range_start e
       else
         let range_start := if 0 =? seconds then 0 else ts_sec ts - seconds in
         vch_item_cache_values_by_time_and_count T it present range_start count ts e);
  match r with
  | (None, it, present, e) => Ret (None, it, present, e)
  | (Some records_read, it, present, e) =>
    a ← (if 0 =? count then vch_item_get_values_by_time it seconds ts now
         else vch_item_get_values_by_time_and_count it seconds count ts now);
    match a with
    | (values, ups) =>
      let n := Z.of_nat (length values) in
      let misses := if n <? records_read then n else records_read in
      Ret (Some (values, ups ++ [VC_UPDATE_STATS (itemid it) (n - misses) misses]), it, present, e)
    end
  end.
End Cache.
