(* ===== verification/VcInv.v ===== *)
(** The invariant of a cached item: what it holds is the newest part of the
    item's history, cut between seconds, and what it claims to hold it holds;
    reading missing values keeps it and makes the item cover the request. *)

From stdpp Require Import base list numbers sorting.
From Stdlib Require Import ZArith Lia.
From S2P Require Import Prelude VcHistory VcDb VcChunk VcStore VcAdd VcInsert VcItem.

Open Scope Z_scope.

(* ------------------------------------------------------------------ *)
(** ** The invariant *)

(** [old] is in the history tables only, [D] is cached. *)
Record cached_as (T old D : list hrec) (it : vc_item) : Prop := {
  ca_split : T = old ++ D;
  ca_store : store_ok it D;
  ca_bound : forall x y, x ∈ old -> y ∈ D -> sec x < sec y;
  ca_from : db_cached_from it <> 0 -> Forall (fun r => sec r < db_cached_from it) old;
  ca_all : status it = ZBX_ITEM_STATUS_CACHED_ALL -> old = []
}.

Definition item_ok (T : list hrec) (it : vc_item) : Prop := exists old D, cached_as T old D it.

(** An item that holds nothing and claims nothing. *)
Lemma empty_item_ok (T : list hrec) (it : vc_item) :
  chunks it = [] -> values_total it = 0 -> db_cached_from it = 0 -> status it = 0 -> cached_as T T [] it.
Proof.
  intros Ec Et Ef Es. split.
  - by rewrite app_nil_r.
  - split; [rewrite Ec; constructor|done].
  - by intros x y _ ?%not_elem_of_nil.
  - done.
  - by rewrite Es.
Qed.

(** What an item is does not change. *)
Definition same_item (it it' : vc_item) : Prop := itemid it' = itemid it /\ item_value_type it' = item_value_type it.

Lemma same_store_item (it it' : vc_item) : same_but_store it it' -> same_item it it'.
Proof. by intros (? & ? & ->). Qed.

Lemma update_from_item (it : vc_item) (t : Z) : same_item it (vc_item_update_db_cached_from it t).
Proof. unfold vc_item_update_db_cached_from. by destruct (_ || _). Qed.

#[export] Instance same_item_preorder : PreOrder same_item.
Proof. split; [done|]. intros a b c [E1 E2] [E3 E4]. unfold same_item in *. by rewrite E3, E4. Qed.

(** The table is small enough for the counters of the item. *)
Definition small (T : list hrec) : Prop := Z.of_nat (length T) < 2 ^ 30.

(** When the request is answered from the cached values: those not cached are
    outside the window, or there are enough cached ones. *)
Lemma window_covered (T old D : list hrec) (seconds count : Z) (ts : timespec) :
  T = old ++ D -> hist_ok T -> 0 <= count ->
  (Forall (fun r => ~ in_window seconds ts r) old \/
   0 < count <= Z.of_nat (length (filter (fun r => ts_le (timestamp r) ts) D))) ->
  window T seconds count ts = window D seconds count ts.
Proof.
  intros -> HT Hc [Hout | Hen]; [by apply window_suffix|].
  rewrite !window_upto. destruct (Z.eqb_spec count 0); [lia|].
  pose proof (upto_sorted ts _ HT) as HS. destruct (hist_ok_app _ _ HT) as [_ HD].
  rewrite <- !take_filter_desc by (done || apply after_up || by apply upto_sorted).
  f_equal. unfold upto. rewrite filter_app, reverse_app, take_app_le; [done|]. rewrite length_reverse. lia.
Qed.

Lemma cached_start_ok (it : vc_item) (D : list hrec) :
  store_ok it D -> cached_start it = Ret (match D with [] => None | r :: _ => Some (sec r) end).
Proof.
  intros [Hr _]. unfold cached_start. destruct Hr as [|c rest vs D Hc Hne Hr]; [done|].
  destruct vs as [|v vs]; [done|]. by rewrite (slot_sec_ret _ _ _ (slot_first _ _ _ Hc)).
Qed.

Lemma store_set_status (it : vc_item) (D : list hrec) (s : Z) : store_ok it D -> store_ok (set_status it s) D.
Proof. done. Qed.

(* ------------------------------------------------------------------ *)
(** ** Extending the cached part *)

(** The records of the history after second [t] that are not cached. *)
Definition missing (old : list hrec) (t : Z) : list hrec := filter (fun r => t < sec r) old.

Section Extend.
  Context (T old D : list hrec) (it : vc_item).
  Hypothesis HT : hist_ok T.
  Hypothesis Hsmall : small T.
  Hypothesis Htyped : all_typed (item_value_type it) T.
  Hypothesis Hca : cached_as T old D it.

Lemma old_split (t : Z) : old = filter (fun r => sec r <= t) old ++ missing old t.
Proof using HT Hca.
  assert (HS : StronglySorted rec_lt old).
  { pose proof HT as HT'. rewrite (ca_split _ _ _ _ Hca) in HT'. by destruct (hist_ok_app _ _ HT') as [[HS _] _]. }
  rewrite (filter_split (fun r => sec r <= t) old) at 1; [|done|intros a b; tcmp].
  f_equal. apply filter_ext, Forall_forall. intros. lia.
Qed.

Lemma older_than_missing (t re : Z) (R : list hrec) :
  R = rows T t re ->
  (match D with [] => ZBX_JAN_2038 <= re | r :: _ => sec r - 1 <= re end) ->
  older_than D R = missing old t.
Proof using HT Hca.
  intros -> Hre. unfold missing, older_than. pose proof (ca_split _ _ _ _ Hca) as HTs. pose proof (ca_bound _ _ _ _ Hca) as Hb.
  assert (Hsec : forall r, r ∈ old ++ D -> sec r < ZBX_JAN_2038) by (rewrite <- HTs; intros r Hr; apply (hist_sec T r HT Hr)).
  destruct D as [|r D'].
  - rewrite app_nil_r in HTs, Hsec. unfold rows. rewrite HTs. apply filter_ext, Forall_forall. intros x Hx. specialize (Hsec x Hx).
    unfold sec_in. lia.
  - unfold rows. rewrite list_filter_filter. rewrite HTs, filter_app.
    rewrite (filter_none _ (r :: D')); [rewrite app_nil_r|].
    + apply filter_ext, Forall_forall. intros x Hx. specialize (Hb x r Hx ltac:(by left)). unfold sec_in. lia.
    + apply Forall_forall. intros x Hx [Hlt _]. pose proof HT as HT'. rewrite HTs in HT'. destruct (hist_ok_app _ _ HT') as [_ [HS _]].
      apply elem_of_cons in Hx as [-> | Hx]; [lia|]. destruct (SS_app_rec [r] D' HS) as (_ & _ & HF).
      specialize (HF r x ltac:(by left) Hx). tcmp.
Qed.

(** Adding the rows read to the item. *)
Lemma add_records_ok (t : Z) (R : list hrec) (e : env) :
  R ≡ₚ rows T t (match D with [] => ZBX_JAN_2038 | r :: _ => sec r - 1 end) \/ R ≡ₚ rows T t ZBX_JAN_2038 ->
  exists ok it' e', add_records it (sort_asc R) e = Ret (ok, it', e') /\ same_but_store it it' /\
    (ok = true -> store_ok it' (missing old t ++ D)).
Proof using HT Hsmall Htyped Hca.
  intros HR.
  assert (HR' : exists re, R ≡ₚ rows T t re /\ match D with [] => ZBX_JAN_2038 <= re | r :: _ => sec r - 1 <= re end).
  { destruct HR as [HR | HR]; eexists; (split; [exact HR|]); destruct D as [|r D'] eqn:ED; try lia.
    pose proof (hist_sec T r HT) as Hr. rewrite (ca_split _ _ _ _ Hca) in Hr.
    specialize (Hr ltac:(apply elem_of_app; right; by left)). lia. }
  destruct HR' as (re & HRe & Hre). rewrite (sort_asc_rows (rows T t re) R); [|apply rows_sorted, HT|done].
  pose proof (older_than_missing t re _ eq_refl Hre) as Hold.
  assert (Hlen : Z.of_nat (length (rows T t re)) + Z.of_nat (length D) < 2 ^ 31).
  { pose proof (length_filter (sec_in t re) T) as Hl. unfold rows, small in *.
    pose proof (f_equal length (ca_split _ _ _ _ Hca)) as El. rewrite length_app in El. lia. }
  destruct (add_values_at_tail_ok it D (rows T t re) e (ca_store _ _ _ _ Hca)) as (ok & it' & e' & E & Hs & Hok).
  { apply rows_sorted, HT. }
  { unfold all_typed in *. rewrite Forall_forall in *. intros x [_ Hx]%list_elem_of_filter. auto. }
  { done. }
  rewrite Hold in Hok. unfold add_records. destruct (rows T t re) as [|r l] eqn:ER.
  - exists true, it, e. split; [done|]. split; [auto with vc|]. intros _. rewrite <- Hold.
    replace (older_than D []) with (@nil hrec) by (by destruct D). apply Hca.
  - exists ok, it', e'. done.
Qed.

(** The item after the read: [it2] has the new values and new claims. *)
Lemma extended (t : Z) (it2 : vc_item) :
  store_ok it2 (missing old t ++ D) ->
  (db_cached_from it2 <> 0 -> db_cached_from it2 = db_cached_from it \/
     Forall (fun r => sec r < db_cached_from it2) (filter (fun r => sec r <= t) old)) ->
  (status it2 = ZBX_ITEM_STATUS_CACHED_ALL -> status it = ZBX_ITEM_STATUS_CACHED_ALL \/ filter (fun r => sec r <= t) old = []) ->
  cached_as T (filter (fun r => sec r <= t) old) (missing old t ++ D) it2.
Proof using HT Hca.
  intros Hst Hfrom Hall. pose proof (old_split t) as Eo. destruct Hca as [ET _ Hb Hf Ha]. split.
  - rewrite ET, Eo at 1. by rewrite <- app_assoc.
  - done.
  - intros x y [Hx Hin]%list_elem_of_filter [[Hy _]%list_elem_of_filter | Hy]%elem_of_app; [lia|by apply Hb].
  - intros Hne. destruct (Hfrom Hne) as [E | HF]; [|done]. rewrite E in *. specialize (Hf Hne).
    rewrite Forall_forall in *. intros x [_ Hx]%list_elem_of_filter. auto.
  - intros Hs. destruct (Hall Hs) as [Hs' | E]; [|done]. rewrite (Ha Hs'). done.
Qed.
End Extend.

(** Lowering the claim. *)
Lemma update_from_cases (it : vc_item) (t : Z) :
  let it' := vc_item_update_db_cached_from it t in
  chunks it' = chunks it /\ values_total it' = values_total it /\ status it' = status it /\
  item_value_type it' = item_value_type it /\ itemid it' = itemid it /\
  (db_cached_from it' = db_cached_from it \/ db_cached_from it' = t).
Proof. unfold vc_item_update_db_cached_from. destruct (_ || _); simpl; auto 10. Qed.

(* ------------------------------------------------------------------ *)
(** ** Counting the cached values *)

Lemma count_older_ok (older : list chunk) (D : list hrec) (count k : Z) :
  nrep older D ->
  (count <= count_older older count k -> count <= k + Z.of_nat (length D)) /\
  (count_older older count k < count -> count_older older count k = k + Z.of_nat (length D)).
Proof.
  intros Hr. revert k. induction Hr as [|c older vs D Hc Hne Hr IH]; intros k; cbn [count_older]; [simpl; lia|].
  rewrite (chunk_values_num_rep c vs Hc Hne), length_app. destruct (Z.ltb_spec k count); [|lia].
  specialize (IH (k + Z.of_nat (length vs))). lia.
Qed.

(** The values up to [ts] and those past it. *)
Lemma split_ts (D : list hrec) (ts : timespec) :
  StronglySorted rec_lt D ->
  exists X Y, D = X ++ Y /\ X = filter (fun r => ts_le (timestamp r) ts) D /\
    Forall (fun r => ts_le (timestamp r) ts) X /\ Forall (fun r => ts_lt ts (timestamp r)) Y.
Proof.
  intros HS. eexists _, _. split; [apply (filter_split (fun r => ts_le (timestamp r) ts)); [done|intros a b; tcmp]|].
  split_and!; [done|apply Forall_filter_not|]. apply Forall_forall. intros r [Hr _]%list_elem_of_filter. tcmp.
Qed.

Lemma cached_records_ok (it : vc_item) (D : list hrec) (count : Z) (ts : timespec) :
  store_ok it D -> StronglySorted rec_lt D -> 0 < count ->
  exists k, cached_records_num it count ts = Ret k /\
    (count <= k -> count <= Z.of_nat (length (filter (fun r => ts_le (timestamp r) ts) D))) /\
    (k < count -> k = if (db_cached_from it =? 0) || bool_decide (D = []) then 0
                      else Z.of_nat (length (filter (fun r => ts_le (timestamp r) ts) D))).
Proof.
  intros [Hr _] HS Hc. unfold cached_records_num. rewrite (Z.eqb_sym 0).
  destruct (db_cached_from it =? 0); simpl; [exists 0; split_and!; try done; lia|].
  assert (E : bool_decide (chunks it = []) = bool_decide (D = [])).
  { apply bool_decide_ext. split; intros E; [rewrite E in Hr; by inversion Hr|]. rewrite E in Hr. by apply trep_empty. }
  rewrite E. destruct (bool_decide (D = [])); simpl; [exists 0; split_and!; done || lia|].
  destruct (split_ts D ts HS) as (X & Y & ED & EX & HX & HY). rewrite <- EX. rewrite ED in Hr.
  pose proof (get_last_value_ok it X Y ts Hr HX HY) as Hf. unfold found in Hf. destruct X as [|x X'] eqn:EXX.
  - rewrite Hf. run. exists 0. split_and!; done || lia.
  - destruct Hf as (p & -> & (c & older & D1 & a & b & Ep & EX2 & Ha & Hcr & _ & Ho & Ei)). run.
    destruct p as [cs index]. simpl in Ep, Ei. subst cs index.
    assert (0 < length a)%nat by (destruct a; [done|simpl; lia]).
    replace (Z.of_nat (first_value c + length a - 1) - Z.of_nat (first_value c) + 1) with (Z.of_nat (length a)) by lia.
    eexists. split; [done|]. rewrite EX2, length_app. pose proof (count_older_ok older D1 count (Z.of_nat (length a)) Ho). lia.
Qed.

(* ------------------------------------------------------------------ *)
(** ** Caching *)

(** One second between the start of a time based request and the cached
    values makes the request be taken for cached: what is known not to hurt. *)
Definition no_gap (T : list hrec) (it : vc_item) (range_start : Z) : Prop :=
  match cached_start it with
  | Ret (Some s) => s = range_start + 1 -> Forall (fun r => sec r <> range_start) T
  | _ => True
  end.

Section Caching.
  Context `{HB : HistoryBackend} {visible : list hrec -> Prop} `{HL : !HistoryLaws visible}.
  Context (T : list hrec) (HT : hist_ok T) (Hvis : visible T) (Hsmall : small T).

Lemma old_sorted (old D : list hrec) (it : vc_item) : cached_as T old D it -> hist_ok old /\ hist_ok D.
Proof using HT. intros [E _ _ _ _]. pose proof HT as HT'. rewrite E in HT'. by apply hist_ok_app. Qed.

(** After a time based request the item holds all values from its start on. *)
Lemma cache_by_time_ok (it : vc_item) (present : bool) (old D : list hrec) (rs : Z) (e : env) :
  cached_as T old D it -> all_typed (item_value_type it) T -> 0 <= rs < ZBX_JAN_2038 -> no_gap T it rs ->
  exists r it' present' e', vch_item_cache_values_by_time T it present rs e = Ret (r, it', present', e') /\
    (r <> None -> same_item it it' /\ (present = true -> present' = true) /\
       exists old' D', cached_as T old' D' it' /\ Forall (fun x => sec x < rs) old').
Proof using HT Hvis Hsmall HL.
  intros Hca Ht Hrs Hgap. unfold vch_item_cache_values_by_time.
  destruct (Z.eqb_spec ZBX_ITEM_STATUS_CACHED_ALL (status it)) as [Es | Hns].
  { eexists _, _, _, _. split; [done|]. intros _. split; [done|]. split; [done|]. exists old, D. split; [done|]. by rewrite (ca_all _ _ _ _ Hca) by done. }
  destruct (negb (0 =? db_cached_from it) && (db_cached_from it <=? rs)) eqn:Efrom.
  { eexists _, _, _, _. split; [done|]. intros _. split; [done|]. split; [done|]. exists old, D. split; [done|].
    apply andb_true_iff in Efrom as [E1 E2]. pose proof (ca_from _ _ _ _ Hca ltac:(lia)) as Hf.
    eapply Forall_impl; [exact Hf|]. simpl. lia. }
  pose proof (cached_start_ok it D (ca_store _ _ _ _ Hca)) as Ecs. unfold no_gap in Hgap. rewrite Ecs in *. run.
  set (re := match match D with [] => None | r :: _ => Some (sec r) end with Some s => s - 1 | None => ZBX_JAN_2038 end).
  destruct (Z.leb_spec re rs) as [Hle | Hgt].
  { eexists _, _, _, _. split; [done|]. intros _. split; [done|]. split; [done|]. exists old, D. split; [done|]. unfold re in Hle.
    destruct D as [|r D']; [lia|]. apply Forall_forall. intros x Hx.
    pose proof (ca_bound _ _ _ _ Hca x r Hx ltac:(by left)) as Hxr.
    destruct (decide (sec r = rs + 1)) as [E | ?]; [|lia]. specialize (Hgap E). rewrite Forall_forall in Hgap.
    specialize (Hgap x). rewrite (ca_split _ _ _ _ Hca) in Hgap. specialize (Hgap ltac:(apply elem_of_app; by left)). lia. }
  destruct (vc_db_by_time_ok T HT Hvis [] rs re ltac:(lia) ltac:(lia) ltac:(lia)) as (R & -> & HR). run. simpl app.
  destruct (find_or_insert present e) as [[] e1]; cbn [negb]; [|by eexists _, _, _, _].
  assert (Hca' : cached_as T old D (set_status it 0)).
  { destruct Hca as [H1 H2 H3 H4 H5]. by split. }
  destruct (add_records_ok T old D (set_status it 0) HT Hsmall Ht Hca' (rs - 1) R e1) as (ok & it1 & e2 & -> & (cs & total & ->) & Hok).
  { unfold re in HR. destruct D; by left. }
  run. destruct ok; [|by eexists _, _, _, _]. eexists _, _, _, _. split; [done|]. intros _.
  split; [exact (update_from_item (set_store (set_status it 0) cs total) rs)|]. split; [done|].
  exists (filter (fun r => sec r <= rs - 1) old), (missing old (rs - 1) ++ D).
  assert (Hbelow : Forall (fun r => sec r < rs) (filter (fun r => sec r <= rs - 1) old)).
  { eapply Forall_impl; [apply Forall_filter_not|]. simpl. lia. }
  split; [|done]. pose proof (update_from_cases (set_store (set_status it 0) cs total) rs) as (E1 & E2 & E3 & _ & _ & E6).
  eapply extended; [exact HT|exact Hca'| | |].
  - destruct (Hok eq_refl) as [S1 S2]. split; [by rewrite E1|by rewrite E2].
  - intros _. destruct E6 as [-> | ->]; [by left|by right].
  - rewrite E3. done.
Qed.

(** What the two reads of a count based request give. *)
Lemma read_by_time_and_count_ok (rs need re : Z) (ts : timespec) :
  0 <= rs -> rs - 1 <= ts_sec ts -> rs - 1 <= re -> HIST_MIN <= ts_sec ts -> HIST_MIN <= re -> 0 < need -> quiet ts T ->
  exists R offset t, read_by_time_and_count T rs need re ts = Ret (Some (sort_asc R, offset)) /\
    R ≡ₚ rows T t re /\ rs - 1 <= t /\ let re' := if ts_sec ts <? re then ts_sec ts else re in t <= re' /\
    Z.of_nat (length R) - offset = Z.of_nat (length (rows T t re')) /\ 0 <= offset /\
    (t = rs - 1 \/ need <= Z.of_nat (length (rows T t re'))).
Proof using HT Hvis HL.
  intros H0 H1 H2 H3 H4 Hn Hq. unfold read_by_time_and_count.
  destruct (Z.ltb_spec (ts_sec ts) re) as [Hlt | Hge].
  - destruct (vc_db_by_time_ok T HT Hvis [] (ts_sec ts + 1) re ltac:(unfold HIST_MIN in *; lia) ltac:(lia) ltac:(unfold HIST_MIN in *; lia)) as (R1 & -> & HR1).
    run. simpl app. replace (ts_sec ts + 1 - 1) with (ts_sec ts) in HR1 by lia.
    destruct (vc_db_by_time_and_count_ok T HT Hvis R1 rs need (ts_sec ts) ts) as (l & t & -> & Hl & Ht & Hor); try done.
    { eapply perm_Forall; [exact HR1|]. eapply Forall_impl; [apply rows_in|]. simpl. lia. }
    run. exists (R1 ++ l), (Z.of_nat (length R1)), t. rewrite <- Hl, length_app. split_and!; try done || lia.
    rewrite HR1, Hl. symmetry. apply rows_split. lia.
  - run. destruct (vc_db_by_time_and_count_ok T HT Hvis [] rs need re ts) as (l & t & -> & Hl & Ht & Hor); try done.
    { eapply Forall_impl; [exact Hq|]. simpl. intros r Hr Hs. apply Hr. lia. }
    run. simpl app. exists l, 0, t. rewrite <- Hl. simpl length. split_and!; done || lia.
Qed.

(** The counted rows are among the values up to [ts] the item holds then. *)
Lemma counted_cached (old D : list hrec) (it : vc_item) (t re : Z) (ts : timespec) :
  cached_as T old D it -> quiet ts T -> re <= ts_sec ts ->
  (length (rows T t re) <= length (filter (fun r => ts_le (timestamp r) ts) (missing old t ++ D)))%nat /\
  ((match D with [] => True | r :: _ => re < sec r end)%Z ->
   (length (rows T t re) + length (filter (fun r => ts_le (timestamp r) ts) D) <=
    length (filter (fun r => ts_le (timestamp r) ts) (missing old t ++ D)))%nat).
Proof using HT.
  intros Hca Hq Hre.
  assert (Hle : forall l, (forall x, x ∈ l -> x ∈ T) ->
    (length (rows l t re) <= length (filter (fun r => ts_le (timestamp r) ts) (missing l t)))%nat).
  { intros l Hl. unfold missing. rewrite list_filter_filter. unfold rows.
    rewrite (filter_ext (sec_in t re) (fun r => sec r <= re /\ (ts_le (timestamp r) ts /\ t < sec r))).
    - rewrite <- (list_filter_filter (fun r => sec r <= re) (fun r => ts_le (timestamp r) ts /\ t < sec r)). apply length_filter.
    - apply Forall_forall. intros r Hr. unfold quiet in Hq. rewrite Forall_forall in Hq. specialize (Hq r (Hl r Hr)).
      unfold sec_in. split; [intros [? ?]; split_and!; [lia|apply Hq; lia|lia]|intros (? & ? & ?); lia]. }
  assert (Hin : (forall x, x ∈ old -> x ∈ T) /\ (forall x, x ∈ D -> x ∈ T)).
  { rewrite (ca_split _ _ _ _ Hca). split; intros x Hx; apply elem_of_app; auto. }
  destruct Hin as [HinO HinD]. pose proof (Hle old HinO) as HO. pose proof (Hle D HinD) as HD.
  assert (HDD : (length (filter (fun r => ts_le (timestamp r) ts) (missing D t)) <=
    length (filter (fun r => ts_le (timestamp r) ts) D))%nat).
  { unfold missing. rewrite list_filter_filter, (filter_ext _ (fun r => t < sec r /\ ts_le (timestamp r) ts)) by (apply Forall_forall; tauto).
    rewrite <- list_filter_filter. apply length_filter. }
  assert (ET : length (rows T t re) = (length (rows old t re) + length (rows D t re))%nat).
  { rewrite (ca_split _ _ _ _ Hca), rows_app. apply length_app. }
  rewrite ET, filter_app, length_app. split; [lia|].
  intros HDre. replace (rows D t re) with (@nil hrec); [simpl; lia|]. symmetry. apply filter_none, Forall_forall.
  intros x Hx. unfold sec_in. destruct D as [|r D']; [by apply not_elem_of_nil in Hx|].
  destruct (old_sorted _ _ _ Hca) as [_ [HSD _]]. destruct (SS_app_rec [r] D' HSD) as (_ & _ & Hrx).
  apply elem_of_cons in Hx as [-> | Hx]; [lia|]. specialize (Hrx r x ltac:(by left) Hx). tcmp.
Qed.

(** The marks left on an item that has been read into. *)
Lemma mark_cached_ok (it0 it : vc_item) (old D R : list hrec) (rs count k offset t : Z) :
  cached_as T old D it0 -> same_but_store it0 it -> store_ok it (missing old t ++ D) -> 0 <= rs -> 0 < count ->
  (Z.of_nat (length R) <> 0 -> missing old t ++ D <> []) ->
  (rs = 0 -> Z.of_nat (length R) - offset < count - k -> t = rs - 1) ->
  (rs <> 0 -> Z.of_nat (length R) < count -> t = rs - 1) ->
  exists it', mark_cached it rs count k (Z.of_nat (length R)) offset = Ret it' /\ same_item it it' /\
    cached_as T (filter (fun r => sec r <= t) old) (missing old t ++ D) it'.
Proof using HT.
  intros Hca (cs & total & ->) Hst Hrs Hc Hne Hall Hrest. unfold mark_cached.
  set (it := set_store it0 cs total) in *.
  set (it1 := if (0 =? rs) && (Z.of_nat (length R) - offset <? count - k)
     then set_status (set_ranges it 0 0 (range_sync_hour it)) ZBX_ITEM_STATUS_CACHED_ALL else it).
  assert (Hid : same_item it it1) by (unfold it1; by destruct (_ && _)).
  assert (H1 : store_ok it1 (missing old t ++ D) /\ db_cached_from it1 = db_cached_from it0 /\
    (status it1 = ZBX_ITEM_STATUS_CACHED_ALL -> status it0 = ZBX_ITEM_STATUS_CACHED_ALL \/ filter (fun r => sec r <= t) old = [])).
  { unfold it1. destruct (_ && _) eqn:Ec; [|split_and!; [done|done|by left]]. split_and!; [done|done|]. intros _. right.
    apply andb_true_iff in Ec as [E1 E2]. apply Z.eqb_eq in E1. apply Z.ltb_lt in E2. specialize (Hall (eq_sym E1) E2).
    apply filter_none, Forall_forall. intros x Hx.
    pose proof (hist_sec T x HT) as Hs. rewrite (ca_split _ _ _ _ Hca) in Hs.
    specialize (Hs ltac:(apply elem_of_app; by left)). unfold HIST_MIN in Hs. lia. }
  clearbody it1. destruct H1 as (Hst1 & Hf1 & Ha1).
  assert (Hidu : forall u, same_item it (vc_item_update_db_cached_from it1 u)).
  { intros u. etransitivity; [exact Hid|apply update_from_item]. }
  assert (Hupd : forall u, (u = 0 \/ Forall (fun r => sec r < u) (filter (fun r => sec r <= t) old)) ->
     cached_as T (filter (fun r => sec r <= t) old) (missing old t ++ D) (vc_item_update_db_cached_from it1 u)).
  { intros u Hu. destruct (update_from_cases it1 u) as (E1 & E2 & E3 & _ & _ & E6).
    eapply extended; [exact HT|exact Hca| | |by rewrite E3].
    - destruct Hst1. by split; rewrite ?E1, ?E2.
    - destruct E6 as [-> | ->]; [rewrite Hf1; by left|]. intros Hne'. right. by destruct Hu. }
  destruct ((count <=? Z.of_nat (length R)) || (0 =? rs)) eqn:E1; cbn [andb].
  - destruct (Z.eqb_spec 0 (Z.of_nat (length R))) as [E0 | Hne0]; cbn [negb].
    + destruct (Z.eqb_spec 0 rs) as [Ers | Hners]; cbn [negb].
      * eexists. split; [done|]. split; [done|]. eapply extended; [exact HT|exact Hca|done|by left|done].
      * rewrite orb_false_r in E1. apply Z.leb_le in E1. lia.
    + rewrite (cached_start_ok it1 _ Hst1). destruct (missing old t ++ D) as [|r l] eqn:EM; [by destruct Hne|]. run.
      eexists. split; [done|]. split; [apply Hidu|]. apply Hupd. right. apply Forall_forall. intros x [Hx Hin]%list_elem_of_filter.
      assert (Hr : r ∈ missing old t ++ D) by (rewrite EM; by left).
      apply elem_of_app in Hr as [[Hr _]%list_elem_of_filter | Hr]; [lia|by apply (ca_bound _ _ _ _ Hca)].
  - apply orb_false_iff in E1 as [E1 E2]. apply Z.leb_gt in E1. rewrite E2. cbn [negb]. apply Z.eqb_neq in E2.
    eexists. split; [done|]. split; [apply Hidu|]. apply Hupd. right. eapply Forall_impl; [apply Forall_filter_not|]. simpl.
    specialize (Hrest ltac:(lia) E1). lia.
Qed.

Lemma rows_nonempty (t re : Z) (old D R : list hrec) (it : vc_item) :
  cached_as T old D it -> R ≡ₚ rows T t re -> Z.of_nat (length R) <> 0 -> missing old t ++ D <> [].
Proof.
  intros Hca HR Hne E. apply app_eq_nil in E as [Em ->]. apply Hne. rewrite HR, (ca_split _ _ _ _ Hca), app_nil_r.
  replace (rows old t re) with (@nil hrec); [done|]. symmetry. apply filter_none, Forall_forall. intros x Hx [Hlt _].
  assert (Hin : x ∈ missing old t) by (apply list_elem_of_filter; done). rewrite Em in Hin. by apply not_elem_of_nil in Hin.
Qed.

(** After a count based request the item holds all values from the start on,
    or as many values up to [ts] as are wanted. *)
Lemma cache_by_count_ok (it : vc_item) (present : bool) (old D : list hrec) (rs count : Z) (ts : timespec) (e : env) :
  cached_as T old D it -> all_typed (item_value_type it) T -> 0 <= rs <= ts_sec ts -> 0 < count ->
  (rs = 0 \/ count = 1) -> HIST_MIN <= ts_sec ts < ZBX_JAN_2038 -> quiet ts T ->
  exists r it' present' e', vch_item_cache_values_by_time_and_count T it present rs count ts e = Ret (r, it', present', e') /\
    (r <> None -> same_item it it' /\ (present = true -> present' = true) /\
       exists old' D', cached_as T old' D' it' /\
       (Forall (fun x => sec x < rs) old' \/
        0 < count <= Z.of_nat (length (filter (fun r => ts_le (timestamp r) ts) D')))).
Proof using HT Hvis Hsmall HL.
  intros Hca Ht Hrs Hc Hcall Hts Hq. unfold vch_item_cache_values_by_time_and_count.
  destruct (Z.eqb_spec ZBX_ITEM_STATUS_CACHED_ALL (status it)) as [Es | Hns].
  { eexists _, _, _, _. split; [done|]. intros _. split; [done|]. split; [done|]. exists old, D. split; [done|]. left. by rewrite (ca_all _ _ _ _ Hca) by done. }
  destruct (negb (0 =? db_cached_from it) && (db_cached_from it <=? rs)) eqn:Efrom.
  { eexists _, _, _, _. split; [done|]. intros _. split; [done|]. split; [done|]. exists old, D. split; [done|]. left.
    apply andb_true_iff in Efrom as [E1 E2]. pose proof (ca_from _ _ _ _ Hca ltac:(lia)) as Hf.
    eapply Forall_impl; [exact Hf|]. simpl. lia. }
  destruct (old_sorted _ _ _ Hca) as [_ HD].
  destruct (cached_records_ok it D count ts (ca_store _ _ _ _ Hca) (proj1 HD) Hc) as (k & -> & Henough & Hk). run.
  destruct (Z.leb_spec count k) as [Hle | Hgt].
  { eexists _, _, _, _. split; [done|]. intros _. split; [done|]. split; [done|]. exists old, D. split; [done|]. right. split; [done|by apply Henough]. }
  specialize (Hk Hgt). rewrite (cached_start_ok it D (ca_store _ _ _ _ Hca)). run.
  set (re := match match D with [] => None | r :: _ => Some (sec r) end with
             | Some s => if negb (0 =? db_cached_from it) then s - 1 else ZBX_JAN_2038 | None => ZBX_JAN_2038 end).
  assert (HDT : forall r, r ∈ D -> HIST_MIN < sec r < ZBX_JAN_2038) by (intros r Hr; apply (hist_sec D r HD Hr)).
  set (re' := if ts_sec ts <? re then ts_sec ts else re).
  assert (Hre : HIST_MIN <= re /\ rs - 1 <= re /\ 0 <= k /\ re' <= ts_sec ts /\
     ((re = ZBX_JAN_2038 /\ k = 0) \/ (exists r D', D = r :: D' /\ re = sec r - 1 /\ re' < sec r /\
        k = Z.of_nat (length (filter (fun r => ts_le (timestamp r) ts) D))))).
  { assert (re' <= ts_sec ts /\ re' <= re) by (unfold re'; destruct (Z.ltb_spec (ts_sec ts) re); lia).
    unfold re in *. clear re. destruct D as [|r D'].
    - rewrite bool_decide_true, orb_true_r in Hk by done. unfold HIST_MIN, ZBX_JAN_2038 in *. split_and!; try lia; try by left.
    - specialize (HDT r ltac:(by left)). destruct (Z.eqb_spec (db_cached_from it) 0) as [E0 | Hne0].
      + simpl in Hk. rewrite E0 in *. simpl in *. unfold HIST_MIN, ZBX_JAN_2038 in *. split_and!; try lia; try by left.
      + rewrite bool_decide_false in Hk by done. simpl in Hk.
        destruct (Z.eqb_spec 0 (db_cached_from it)); [lia|]. cbn [negb] in *.
        split_and!; try (unfold HIST_MIN in *; lia).
        * destruct Hcall as [-> | ->]; [unfold HIST_MIN in *; lia|].
          assert (Hk0 : k = 0) by lia. rewrite Hk0 in Hk.
          destruct (decide (ts_le (timestamp r) ts)) as [Hl | Hg].
          { exfalso. rewrite filter_cons, decide_True in Hk by done. simpl in Hk. lia. }
          tcmp.
        * right. exists r, D'. split_and!; try done; lia. }
  destruct Hre as (Hre0 & Hre1 & Hk0 & Hre' & Hcase).
  destruct (read_by_time_and_count_ok rs (count - k) re ts) as (R & offset & t & -> & HR & Htl & Ht2 & Hlen & Hoff & Hor); try done; [lia..|].
  fold re' in Ht2, Hlen, Hor. run.
  destruct (find_or_insert present e) as [[] e1]; cbn [negb]; [|by eexists _, _, _, _].
  destruct (add_records_ok T old D it HT Hsmall Ht Hca t R e1) as (ok & it1 & e2 & -> & Hsame & Hok).
  { destruct Hcase as [[-> _] | (r & D' & -> & -> & _)]; [by right|by left]. }
  run. destruct ok; [|by eexists _, _, _, _]. specialize (Hok eq_refl).
  replace (length (sort_asc R)) with (length R) by (unfold sort_asc; by rewrite merge_sort_Permutation).
  destruct (mark_cached_ok it it1 old D R rs count k offset t Hca Hsame Hok) as (it2 & -> & Hid2 & Hca2).
  { lia. }
  { done. }
  { intros Hne. by eapply rows_nonempty. }
  { intros -> Hlt. destruct Hor as [? | Hor]; [done|lia]. }
  { intros Hne Hlt. destruct Hor as [? | Hor]; [done|]. lia. }
  run. eexists _, _, _, _. split; [done|]. intros _.
  split; [etransitivity; [by apply same_store_item|done]|]. split; [done|].
  exists (filter (fun r => sec r <= t) old), (missing old t ++ D). split; [done|].
  destruct Hor as [-> | Hor].
  - left. eapply Forall_impl; [apply Forall_filter_not|]. simpl. lia.
  - right. split; [done|]. destruct (counted_cached old D it t re' ts Hca Hq Hre') as [H1 H2].
    destruct Hcase as [[_ ->] | (r & D' & ED & _ & Hlt & ->)]; [lia|]. rewrite ED in H2 at 1. specialize (H2 Hlt). lia.
Qed.
End Caching.
