(* ===== verification/VcGet.v ===== *)
(** Requests and new values on one cached item: the answer is the window of
    the item's history, and the item's invariant is kept. *)

From stdpp Require Import base list numbers sorting.
From Stdlib Require Import ZArith Lia.
From S2P Require Import Prelude VcHistory VcDb VcChunk VcStore VcAdd VcInsert VcItem VcInv.

Open Scope Z_scope.

(* ------------------------------------------------------------------ *)
(** ** Answers *)

Lemma past_window (D : list hrec) (seconds : Z) (ts : timespec) :
  hist_ok D ->
  past (if seconds =? 0 then Timespec 0 0 else Timespec (ts_sec ts - seconds) (ts_ns ts))
    (filter (fun r => ts_le (timestamp r) ts) D) = filter (after seconds ts) (upto ts D).
Proof.
  intros HD. unfold past, upto. rewrite filter_reverse_list. f_equal. apply filter_ext, Forall_forall.
  intros r [_ Hr]%list_elem_of_filter. pose proof (hist_sec D r HD Hr) as Hs. unfold HIST_MIN in Hs.
  unfold after. destruct (Z.eqb_spec seconds 0) as [-> | Hne].
  - split; [by left|]. intros _. unfold ts_lt, zbx_timespec_compare. cbn [ts_sec ts_ns]. destruct (Z.eqb_spec 0 (sec r)); lia.
  - split; [by right|]. by intros [? | ?].
Qed.

(** Copying from the position found for [ts]. *)
Lemma copied_ok (it : vc_item) (D : list hrec) (start ts : timespec) (count : option Z) :
  store_ok it D -> StronglySorted rec_lt D -> room count [] ->
  exists p, vch_item_get_last_value it ts = Ret p /\
    (match p with
     | None => Ret []
     | Some (cs, index) => copy_values cs index start count []
     end) = Ret (limited count [] (past start (filter (fun r => ts_le (timestamp r) ts) D))).
Proof.
  intros [Hr _] HS Hroom. destruct (split_ts D ts HS) as (X & Y & ED & EX & HX & HY). rewrite <- EX. rewrite ED in Hr, HS.
  pose proof (get_last_value_ok it X Y ts Hr HX HY) as Hf. unfold found in Hf. destruct X as [|x X'] eqn:EXX.
  - exists None. split; [done|]. change (past start []) with (@nil hrec). destruct count; simpl; [by rewrite take_nil|done].
  - destruct Hf as ([cs index] & E & Hp). exists (Some (cs, index)). split; [done|].
    exact (copy_pos_ok (cs, index) (x :: X') Y [] start count Hp HS Hroom).
Qed.

Lemma get_by_time_ok (it : vc_item) (D : list hrec) (seconds : Z) (ts : timespec) (now : Z) :
  store_ok it D -> hist_ok D -> 0 < seconds ->
  exists ups, vch_item_get_values_by_time it seconds ts now = Ret (window D seconds 0 ts, ups).
Proof.
  intros Hst HD Hs. unfold vch_item_get_values_by_time.
  destruct (copied_ok it D (Timespec (ts_sec ts - seconds) (ts_ns ts)) ts None Hst (proj1 HD)) as (p & -> & E); [done|]. run. unfold limited in E.
  assert (Ew : window D seconds 0 ts = past (Timespec (ts_sec ts - seconds) (ts_ns ts)) (filter (fun r => ts_le (timestamp r) ts) D)).
  { rewrite window_upto, <- past_window by done. by rewrite (proj2 (Z.eqb_neq seconds 0)) by lia. }
  rewrite <- Ew in E. destruct p as [[cs index]|]; [rewrite E; run; by eexists|]. apply Ret_inj in E. rewrite <- E. by eexists.
Qed.

Lemma get_by_count_ok (it : vc_item) (D : list hrec) (seconds count : Z) (ts : timespec) (now : Z) :
  store_ok it D -> hist_ok D -> 0 < count ->
  exists ups, vch_item_get_values_by_time_and_count it seconds count ts now = Ret (window D seconds count ts, ups).
Proof.
  intros Hst HD Hc. unfold vch_item_get_values_by_time_and_count. cbv zeta.
  set (start := if negb (0 =? seconds) then _ else _).
  destruct (copied_ok it D start ts (Some count) Hst (proj1 HD)) as (p & -> & E); [done|]. run.
  assert (Ew : limited (Some count) [] (past start (filter (fun r => ts_le (timestamp r) ts) D)) = window D seconds count ts).
  { rewrite window_upto, <- past_window by done. rewrite (proj2 (Z.eqb_neq count 0)) by lia.
    unfold limited. simpl length. rewrite Z.sub_0_r. unfold start. rewrite (Z.eqb_sym 0). by destruct (seconds =? 0). }
  rewrite Ew in E. clearbody start.
  assert (E' : forall A (k : list hrec -> res A),
    (match p with None => Ret [] | Some (cs, index) => copy_values cs index start (Some count) [] end) ≫= k = k (window D seconds count ts)).
  { intros A k. destruct p as [[cs index]|]; by rewrite E. }
  rewrite E'. clear E' E. destruct (Z.ltb_spec (Z.of_nat (length (window D seconds count ts))) count) as [Hlt | Hge].
  - destruct (0 =? seconds); by eexists.
  - destruct (last (window D seconds count ts)) eqn:El; [by eexists|].
    apply last_None in El. rewrite El in Hge. simpl in Hge. lia.
Qed.

(** The requests for which the cache answers right: not empty ones, with a
    count only from the beginning or for one value and with no value past the
    requested time in its second, and by time with no gap of one second. *)
Definition request_ok (T : list hrec) (seconds count : Z) (ts : timespec) : Prop :=
  0 <= seconds <= ts_sec ts /\ 0 <= count /\ 0 < seconds + count /\ HIST_MIN <= ts_sec ts < ZBX_JAN_2038 /\
  (count = 0 \/ quiet ts T /\ (seconds = 0 \/ seconds = ts_sec ts \/ count = 1)).

Section Get.
  Context `{HB : HistoryBackend} {visible : list hrec -> Prop} `{HL : !HistoryLaws visible}.
  Context (T : list hrec) (HT : hist_ok T) (Hvis : visible T) (Hsmall : small T).

(** vch_item_get_values: when it does not fail, the answer is the window. *)
Lemma get_values_ok (it : vc_item) (present : bool) (seconds count : Z) (ts : timespec) (now : Z) (e : env) :
  item_ok T it -> all_typed (item_value_type it) T -> request_ok T seconds count ts ->
  (count = 0 -> no_gap T it (ts_sec ts - seconds)) ->
  exists r it' present' e', vch_item_get_values T it present seconds count ts now e = Ret (r, it', present', e') /\
    match r with
    | None => True
    | Some (values, ups) => values = window T seconds count ts /\ item_ok T it' /\ same_item it it' /\ (present = true -> present' = true)
    end.
Proof using HT Hvis Hsmall HL.
  intros (old & D & Hca) Ht (Hs & Hc & Hsc & Hts & Hq) Hgap. unfold vch_item_get_values.
  destruct (Z.eqb_spec 0 count) as [E0 | Hne].
  - subst count. destruct (Z.ltb_spec (ts_sec ts - seconds) 0); [lia|].
    destruct (cache_by_time_ok T HT Hvis Hsmall it present old D (ts_sec ts - seconds) e Hca Ht ltac:(lia) (Hgap eq_refl))
      as (r & it' & present' & e' & -> & H1). run.
    destruct r as [n|]; [|by eexists _, _, _, _]. destruct (H1 ltac:(done)) as (Hid & Hp & old' & D' & Hca' & Hold).
    destruct (old_sorted T HT _ _ _ Hca') as [_ HD'].
    destruct (get_by_time_ok it' D' seconds ts now (ca_store _ _ _ _ Hca') HD' ltac:(lia)) as (ups & ->). run.
    eexists _, _, _, _. split; [done|]. split_and!; [|by exists old', D'|done|done].
    symmetry. apply (window_covered T old' D'); [apply Hca'|done|lia|left].
    eapply Forall_impl; [exact Hold|]. intros r Hr [_ [? | Hlt]]; [lia|]. revert Hlt. unfold ts_lt, zbx_timespec_compare.
    cbn [ts_sec ts_ns]. simpl in Hr. destruct (Z.eqb_spec (ts_sec ts - seconds) (sec r)); lia.
  - destruct Hq as [? | [Hq Hor]]; [lia|].
    set (rs := if 0 =? seconds then 0 else ts_sec ts - seconds).
    assert (Hrs : 0 <= rs <= ts_sec ts /\ (rs = 0 \/ count = 1)).
    { unfold rs. destruct (Z.eqb_spec 0 seconds); [lia|]. destruct Hor as [? | [? | ?]]; lia. }
    destruct (cache_by_count_ok T HT Hvis Hsmall it present old D rs count ts e Hca Ht) as (r & it' & present' & e' & -> & H1);
      [apply Hrs|lia|apply Hrs|done|done|]. run.
    destruct r as [n|]; [|by eexists _, _, _, _]. destruct (H1 ltac:(done)) as (Hid & Hp & old' & D' & Hca' & Hold).
    destruct (old_sorted T HT _ _ _ Hca') as [_ HD'].
    destruct (get_by_count_ok it' D' seconds count ts now (ca_store _ _ _ _ Hca') HD' ltac:(lia)) as (ups & ->). run.
    eexists _, _, _, _. split; [done|]. split_and!; [|by exists old', D'|done|done].
    symmetry. apply (window_covered T old' D'); [apply Hca'|done|lia|].
    destruct Hold as [Hold | Hen]; [left|right; done].
    apply Forall_forall. intros r Hr. pose proof (hist_sec T r HT) as Hsec. rewrite (ca_split _ _ _ _ Hca') in Hsec.
    specialize (Hsec ltac:(apply elem_of_app; by left)). rewrite Forall_forall in Hold. specialize (Hold r Hr). simpl in Hold.
    unfold HIST_MIN, rs in *. destruct (Z.eqb_spec 0 seconds) as [E | Hns]; [lia|].
    intros [_ [? | Hlt]]; [lia|]. revert Hlt. unfold ts_lt, zbx_timespec_compare. cbn [ts_sec ts_ns].
    destruct (Z.eqb_spec (ts_sec ts - seconds) (sec r)); lia.
Qed.
End Get.

(* ------------------------------------------------------------------ *)
(** ** New values *)

(** The value that arrives is older than all that is cached. *)
Definition late (it : vc_item) (v : hrec) : Prop :=
  match chunks it with
  | [] => False
  | tail :: _ =>
    match slot tail (first_value tail) with
    | Ret r => 0 < zbx_history_record_compare_asc r v
    | _ => False
    end
  end.

(** When a new value may be put into the item: into an item without values
    only if it opens a new second, and before all cached values only if it is
    known from when on the item holds all values. *)
Definition arrival_ok (T : list hrec) (it : vc_item) (v : hrec) : Prop :=
  (chunks it = [] -> Forall (fun r => sec r < sec v) T) /\
  (late it v -> db_cached_from it <> 0 \/ status it = ZBX_ITEM_STATUS_CACHED_ALL).

Lemma late_ok (it : vc_item) (D : list hrec) (v : hrec) :
  store_ok it D -> D <> [] -> Forall (fun r => rec_lt v r) D -> late it v.
Proof.
  intros [Hr _] Hne Hv. unfold late. destruct Hr as [|c rest vs D Hc Hvs Hr]; [done|]. destruct vs as [|x vs]; [done|].
  rewrite (slot_first _ _ _ Hc). apply Forall_app in Hv as [Hv _]. apply Forall_nil_or in Hv. tcmp.
Qed.

Lemma fresh_app (v : hrec) (l1 l2 : list hrec) : fresh v (l1 ++ l2) <-> fresh v l1 /\ fresh v l2.
Proof. apply Forall_app. Qed.

(** Inserting after everything that is not cached. *)
Lemma hist_insert_app (v : hrec) (old D : list hrec) :
  Forall (fun r => rec_lt r v) old -> hist_insert v (old ++ D) = old ++ hist_insert v D.
Proof.
  induction 1 as [|x l Hx _ IH]; [done|]. simpl. rewrite IH.
  destruct (Z.ltb_spec (zbx_history_record_compare_asc v x) 0); [tcmp|done].
Qed.

Lemma hist_insert_before (v : hrec) (old D : list hrec) :
  Forall (fun r => rec_lt v r) D -> hist_insert v (old ++ D) = hist_insert v old ++ D.
Proof.
  intros HD. induction old as [|x l IH]; simpl.
  - destruct HD as [|y D Hy _]; [done|]. simpl. destruct (Z.ltb_spec (zbx_history_record_compare_asc v y) 0); [done|tcmp].
  - rewrite IH. by destruct (zbx_history_record_compare_asc v x <? 0).
Qed.

Lemma hist_insert_elem (v x : hrec) (l : list hrec) : x ∈ hist_insert v l <-> x = v \/ x ∈ l.
Proof.
  induction l as [|y l IH]; simpl; [by rewrite elem_of_cons|]. destruct (_ <? 0); rewrite !elem_of_cons; [done|]. rewrite IH. tauto.
Qed.

Lemma length_hist_insert (v : hrec) (l : list hrec) : length (hist_insert v l) = S (length l).
Proof. induction l as [|y l IH]; simpl; [done|]. destruct (_ <? 0); simpl; [done|]. by rewrite IH. Qed.

(** vch_item_add_value_at_head keeps the invariant for the longer history. *)
Lemma arrival_kept (T : list hrec) (it : vc_item) (v : hrec) (e : env) :
  item_ok T it -> hist_ok T -> small T -> fresh v T -> typed (item_value_type it) (value v) = true -> arrival_ok T it v ->
  exists ok it' e', vch_item_add_value_at_head it v e = Ret (ok, it', e') /\
    (ok = true -> item_ok (hist_insert v T) it' /\ same_item it it').
Proof.
  intros (old & D & Hca) HT Hsm Hf Ht [Harr Hlate].
  destruct (old_sorted T HT _ _ _ Hca) as [Ho HD]. pose proof (ca_split _ _ _ _ Hca) as ET. rewrite ET in Hf.
  apply fresh_app in Hf as [Hfo HfD]. pose proof (ca_store _ _ _ _ Hca) as Hst.
  destruct (add_value_at_head_ok it D v e Hst HD HfD) as (ok & it' & e' & E & Hok); [|done|].
  { pose proof (f_equal length ET) as El. rewrite length_app in El. unfold small in Hsm. lia. }
  exists ok, it', e'. split; [done|]. intros Hok'.
  destruct (Hok Hok') as [(Hst' & Hsame & Hwhere) | (Hne & Hv & HD' & Hst' & (cs & total & Eit))]; clear Hok.
  - split; [|by apply same_store_item]. exists old, (hist_insert v D). destruct Hsame as (cs & total & ->).
    assert (Hov : Forall (fun r => sec r < sec v) old).
    { destruct Hwhere as [-> | (r & Hr & Hrv)].
      - rewrite app_nil_r in ET. rewrite <- ET. apply Harr. destruct Hst as [Hr _]. by apply trep_empty.
      - apply Forall_forall. intros x Hx. pose proof (ca_bound _ _ _ _ Hca x r Hx Hr). tcmp. }
    split.
    + rewrite ET. apply hist_insert_app. eapply Forall_impl; [exact Hov|]. intros r. simpl. tcmp.
    + done.
    + intros x y Hx [-> | Hy]%hist_insert_elem; [|by apply (ca_bound _ _ _ _ Hca)].
      rewrite Forall_forall in Hov. by apply Hov.
    + apply (ca_from _ _ _ _ Hca).
    + apply (ca_all _ _ _ _ Hca).
  - subst it'. split; [|split; by destruct (status it =? _)].
    set (D' := filter (fun r => sec v + 1 <= sec r) D) in *. set (R := filter (fun r => sec r < sec v + 1) D).
    assert (EDR : D = R ++ D') by (apply SS_split_sec, HD).
    assert (HR : Forall (fun r => sec r = sec v) R).
    { apply Forall_forall. intros r [Hr Hin]%list_elem_of_filter. rewrite Forall_forall in Hv. specialize (Hv r Hin). tcmp. }
    exists (hist_insert v old ++ R), D'. split.
    + rewrite <- app_assoc, <- EDR, ET. by apply hist_insert_before.
    + done.
    + intros x y Hx [Hy Hin]%list_elem_of_filter. apply elem_of_app in Hx as [[-> | Hx]%hist_insert_elem | Hx]; [lia| |].
      * by apply (ca_bound _ _ _ _ Hca).
      * rewrite Forall_forall in HR. rewrite (HR x Hx). lia.
    + assert (Hfrom : Forall (fun r => sec r < (if db_cached_from it <=? sec v then sec v + 1 else db_cached_from it)) old).
      { destruct (Hlate (late_ok it D v Hst Hne Hv)) as [Hnz | Hall].
        - eapply Forall_impl; [apply (ca_from _ _ _ _ Hca Hnz)|]. intros r. simpl. destruct (Z.leb_spec (db_cached_from it) (sec v)); lia.
        - rewrite (ca_all _ _ _ _ Hca Hall). constructor. }
      cbn [db_cached_from set_cached_from]. intros _. rewrite Forall_forall in *. intros x Hx. simpl.
      destruct (Z.leb_spec (db_cached_from it) (sec v)); apply elem_of_app in Hx as [[-> | Hx]%hist_insert_elem | Hx];
        try (specialize (Hfrom x Hx); simpl in Hfrom); try (specialize (HR x Hx); simpl in HR); lia.
    + unfold ZBX_ITEM_STATUS_CACHED_ALL in *. destruct (Z.eqb_spec (status it) 1) as [Es | Es]; cbn; [done|]. intros ?. done.
Qed.

(** vch_item_clean_cache keeps it. *)
Lemma clean_kept (T : list hrec) (it : vc_item) (t : Z) :
  item_ok T it -> hist_ok T -> exists it', vch_item_clean_cache it t = Ret it' /\ item_ok T it' /\ same_item it it'.
Proof.
  intros (old & D & Hca) HT. destruct (old_sorted T HT _ _ _ Hca) as [_ HD].
  destruct (clean_cache_ok it D t (ca_store _ _ _ _ Hca) (proj1 HD)) as (it' & E & [-> | (X & x & D' & cs & total & ED & Hne & Hst & -> & Hb)]).
  { exists it. split; [done|]. split; [by exists old, D|done]. }
  eexists. split; [exact E|]. split; [|done]. exists (old ++ X ++ [x]), D'.
  pose proof (ca_split _ _ _ _ Hca) as ET. pose proof (ca_bound _ _ _ _ Hca) as Hbo. split.
  - by rewrite ET, ED, <- !app_assoc.
  - done.
  - intros y z [Hy | Hy]%elem_of_app Hz; [|by apply Hb]. apply Hbo; [done|]. rewrite ED. apply elem_of_app. by right.
  - cbn. intros _. apply Forall_forall. intros y [Hy | Hy]%elem_of_app.
    + assert (sec y < sec x); [|lia]. apply Hbo; [done|]. rewrite ED. apply elem_of_app. left. apply elem_of_app. right. by apply list_elem_of_singleton.
    + destruct HD as [HS _]. rewrite ED in HS. destruct (SS_app_rec _ _ HS) as (HSX & _ & _). destruct (SS_app_rec _ _ HSX) as (_ & _ & Hx).
      apply elem_of_app in Hy as [Hy | ->%list_elem_of_singleton]; [|lia]. specialize (Hx y x Hy ltac:(by apply list_elem_of_singleton)). tcmp.
  - done.
Qed.
