(* ===== verification/VcRun.v ===== *)
(** The value cache (zbxcachevalue/valuecache.c, "Public API"): the cached
    items over the history tables, and its calls, each taken as one step. *)

From stdpp Require Import base list numbers sorting gmap.
From Stdlib Require Import ZArith Lia.
From S2P Require Import Prelude Calendar VcHistory VcDb VcChunk VcStore VcAdd VcInsert VcItem VcInv VcGet.

Open Scope Z_scope.

(* ------------------------------------------------------------------ *)
(** ** State *)

(** The history tables: the records of an item, by value type. *)
Definition tables : Type := Z -> value_type -> list hrec.

Definition table_set (t : tables) (id : Z) (vt : value_type) (l : list hrec) : tables :=
  fun id' vt' => if decide (id' = id /\ vt' = vt) then l else t id' vt'.

Inductive vc_mode := ZBX_VC_MODE_NORMAL | ZBX_VC_MODE_LOWMEM.

#[export] Instance vc_mode_eq_dec : EqDecision vc_mode.
Proof. solve_decision. Defined.

(** zbx_vc_cache_t, with vc_state and the updates the process has gathered. *)
Record vc_cache := VcCache {
  vc_enabled : bool;
  items : gmap Z vc_item;
  mode : vc_mode;
  mode_time : Z;
  cache_hits : Z;
  cache_misses : Z;
  itemupdates : list vc_update
}.

Definition set_items (c : vc_cache) (m : gmap Z vc_item) : vc_cache :=
  VcCache (vc_enabled c) m (mode c) (mode_time c) (cache_hits c) (cache_misses c) (itemupdates c).
Definition set_mode (c : vc_cache) (m : vc_mode) (t : Z) : vc_cache :=
  VcCache (vc_enabled c) (items c) m t (cache_hits c) (cache_misses c) (itemupdates c).
Definition add_updates (c : vc_cache) (ups : list vc_update) : vc_cache :=
  VcCache (vc_enabled c) (items c) (mode c) (mode_time c) (cache_hits c) (cache_misses c) (itemupdates c ++ ups).
Definition set_counts (c : vc_cache) (h m : Z) : vc_cache :=
  VcCache (vc_enabled c) (items c) (mode c) (mode_time c) h m (itemupdates c).

(** A value on its way to history: the fields of zbx_dc_history_t used. *)
Record dc_history := DcHistory { h_itemid : Z; h_value_type : value_type; h_record : hrec; h_hastrigger : bool }.

Definition new_item (id : Z) (vt : value_type) (st active accessed : Z) : vc_item :=
  VcItem id vt st 0 0 accessed active 0 0 0 0 0 0 [].

(** What vc_release_space did while item [id] was being filled: other items
    are gone, and the cache may be in low memory mode. *)
Definition remove_all (ids : list Z) (m : gmap Z vc_item) : gmap Z vc_item := foldr (fun id m => delete id m) m ids.

Definition settle (c : vc_cache) (id now : Z) (e : env) : vc_cache :=
  let c := set_items c (remove_all (filter (fun i => i <> id) (lost e)) (items c)) in
  if went_low e then set_mode c ZBX_VC_MODE_LOWMEM now else c.

Definition no_releases (e : env) : env := Env (plan e) [] false.

(* ------------------------------------------------------------------ *)
(** ** Calls *)

(** vc_remove_item, vc_remove_item_by_id. *)
Definition vc_remove_item_by_id (c : vc_cache) (id : Z) : vc_cache := set_items c (delete id (items c)).

(** zbx_vc_remove_items_by_ids. *)
Definition zbx_vc_remove_items_by_ids (c : vc_cache) (ids : list Z) : vc_cache :=
  if vc_enabled c then foldl vc_remove_item_by_id c ids else c.

(** zbx_vc_reset. *)
Definition zbx_vc_reset (c : vc_cache) : vc_cache :=
  VcCache (vc_enabled c) ∅ ZBX_VC_MODE_NORMAL 0 0 0 (itemupdates c).

(** zbx_vc_enable, zbx_vc_disable. *)
Definition zbx_vc_enable (c : vc_cache) (on : bool) : vc_cache :=
  VcCache on (items c) (mode c) (mode_time c) (cache_hits c) (cache_misses c) (itemupdates c).

(** vc_warn_low_memory: after a day the cache returns to normal mode. *)
Definition vc_warn_low_memory (c : vc_cache) (now : Z) : vc_cache :=
  if SEC_PER_DAY <? now - mode_time c then set_mode c ZBX_VC_MODE_NORMAL now else c.

(** The cache part of vc_update_statistics. *)
Definition vc_update_statistics (c : vc_cache) (h m : Z) : vc_cache :=
  if vc_enabled c then set_counts c (u64 (cache_hits c + h)) (u64 (cache_misses c + m)) else c.

(** zbx_vc_flush_stats: the updates sorted by item, each applied if the item
    is still cached. *)
Definition update_itemid (u : vc_update) : Z :=
  match u with VC_UPDATE_STATS id _ _ | VC_UPDATE_RANGE id _ _ => id end.
Definition update_le (a b : vc_update) : Prop := update_itemid a <= update_itemid b.
#[export] Instance update_le_dec a b : Decision (update_le a b).
Proof. apply Z_le_dec. Defined.

Definition apply_update (now : Z) (c : vc_cache) (u : vc_update) : res vc_cache :=
  match items c !! update_itemid u with
  | None => Ret c
  | Some it =>
    match u with
    | VC_UPDATE_RANGE id seconds t =>
      it ← vch_item_update_range it seconds t;
      Ret (set_items c (<[id := it]> (items c)))
    | VC_UPDATE_STATS id h m =>
      Ret (vc_update_statistics (set_items c (<[id := vc_update_item_statistics it h m now]> (items c))) h m)
    end
  end.

Fixpoint apply_updates (now : Z) (c : vc_cache) (us : list vc_update) : res vc_cache :=
  match us with
  | [] => Ret c
  | u :: us => c ← apply_update now c u; apply_updates now c us
  end.

Definition zbx_vc_flush_stats (c : vc_cache) (now : Z) : res vc_cache :=
  if vc_enabled c && negb (bool_decide (itemupdates c = [])) then
    c ← apply_updates now c (merge_sort update_le (itemupdates c));
    Ret (VcCache (vc_enabled c) (items c) (mode c) (mode_time c) (cache_hits c) (cache_misses c) [])
  else Ret c.

(** zbx_vc_add_new_items: items just created have no values anywhere. *)
Fixpoint add_new_loop (now : Z) (c : vc_cache) (l : list (Z * value_type)) (e : env) : vc_cache :=
  match l with
  | [] => c
  | (id, vt) :: l =>
    match items c !! id with
    | Some _ => add_new_loop now c l e
    | None =>
      let '(ok, e) := hashset_insert e in
      if ok then
        add_new_loop now
          (set_items c (<[id := new_item id vt ZBX_ITEM_STATUS_CACHED_ALL VC_MIN_RANGE now]> (items c))) l e
      else c
    end
  end.

Definition zbx_vc_add_new_items (c : vc_cache) (now : Z) (l : list (Z * value_type)) (e : env) : vc_cache :=
  if vc_enabled c && bool_decide (mode c = ZBX_VC_MODE_NORMAL) then add_new_loop now c l e else c.

(** One value in zbx_vc_add_values: the item to add it to, if any. *)
Definition find_item (c : vc_cache) (now : Z) (h : dc_history) (e : env) : option vc_item * vc_cache * env :=
  match items c !! h_itemid h with
  | Some it => (Some it, c, e)
  | None =>
    if h_hastrigger h && bool_decide (mode c = ZBX_VC_MODE_NORMAL) then
      let '(ok, e) := hashset_insert e in
      if ok then
        let it := new_item (h_itemid h) (h_value_type h) 0 VC_MIN_RANGE now in
        (Some it, set_items c (<[h_itemid h := it]> (items c)), e)
      else (None, c, e)
    else (None, c, e)
  end.

Definition vc_add_value (c : vc_cache) (now : Z) (h : dc_history) (e : env) : res (vc_cache * env) :=
  match find_item c now h e with
  | (None, c, e) => Ret (c, e)
  | (Some it, c, e) =>
    last_value_timestamp ← (match last (chunks it) with
                            | Some hd => slot_sec hd (last_value hd)
                            | None => Ret now
                            end);
    if negb (bool_decide (item_value_type it = h_value_type h)) then Ret (vc_remove_item_by_id c (h_itemid h), e)
    else
      r ← vch_item_add_value_at_head it (h_record h) e;
      match r with
      | (false, _, e) => Ret (vc_remove_item_by_id (settle c (h_itemid h) now e) (h_itemid h), no_releases e)
      | (true, it', e) =>
        it'' ← (if decide (length (chunks it) < length (chunks it'))%nat then vch_item_clean_cache it' last_value_timestamp
                else Ret it');
        Ret (set_items (settle c (h_itemid h) now e) (<[h_itemid h := it'']> (items (settle c (h_itemid h) now e))), no_releases e)
      end
  end.

Fixpoint vc_add_values_loop (c : vc_cache) (now : Z) (l : list dc_history) (e : env) : res (vc_cache * env) :=
  match l with
  | [] => Ret (c, e)
  | h :: l =>
    r ← vc_add_value c now h e;
    match r with (c, e) => vc_add_values_loop c now l e end
  end.

(** The rows zbx_history_add_values writes. *)
Definition write_history (t : tables) (l : list dc_history) : tables :=
  foldl (fun t h => table_set t (h_itemid h) (h_value_type h) (hist_insert (h_record h) (t (h_itemid h) (h_value_type h)))) t l.

Section Calls.
  Context `{HistoryBackend}.

(** zbx_vc_add_values: [written] is the outcome of writing to history. *)
Definition zbx_vc_add_values (t : tables) (c : vc_cache) (now : Z) (l : list dc_history) (written : bool) (e : env)
    : res (bool * tables * vc_cache) :=
  if negb written then Ret (false, t, c)
  else
    let t := write_history t l in
    if negb (vc_enabled c) then Ret (true, t, c)
    else
      r ← vc_add_values_loop c now l e;
      Ret (true, t, fst r).

(** The way of zbx_vc_get_values past the cache. *)
Definition get_direct (t : tables) (c : vc_cache) (id : Z) (vt : value_type) (seconds count : Z) (ts : timespec)
    : res (option (list hrec) * vc_cache) :=
  r ← vc_db_get_values (t id vt) seconds count ts;
  let c := if vc_enabled c then vc_remove_item_by_id c id else c in
  Ret (r, match r with None => c | Some values => vc_update_statistics c 0 (Z.of_nat (length values)) end).

Definition zbx_vc_get_values (t : tables) (c : vc_cache) (id : Z) (vt : value_type) (seconds count : Z) (ts : timespec)
    (now : Z) (e : env) : res (option (list hrec) * vc_cache) :=
  if bool_decide (vt = ITEM_VALUE_TYPE_BIN) then Ret (None, c)
  else if negb (vc_enabled c) then get_direct t c id vt seconds count ts
  else
    let c := if bool_decide (mode c = ZBX_VC_MODE_LOWMEM) then vc_warn_low_memory c now else c in
    let found :=
      match items c !! id with
      | None => if bool_decide (mode c = ZBX_VC_MODE_NORMAL) then Some (new_item id vt 0 0 0, false) else None
      | Some it => if bool_decide (item_value_type it = vt) then Some (it, true) else None
      end in
    match found with
    | None => get_direct t c id vt seconds count ts
    | Some (it, present) =>
      r ← vch_item_get_values (t id vt) it present seconds count ts now e;
      match r with
      | (None, _, _, e) => get_direct t (settle c id now e) id vt seconds count ts
      | (Some (values, ups), it, present, e) =>
        let c := settle c id now e in
        let c := if present : bool then set_items c (<[id := it]> (items c)) else c in
        Ret (Some values, add_updates c ups)
      end
    end.

(** zbx_vc_get_value: the last value up to [ts]. *)
Definition zbx_vc_get_value (t : tables) (c : vc_cache) (id : Z) (vt : value_type) (ts : timespec) (now : Z) (e : env)
    : res (option hrec * vc_cache) :=
  r ← zbx_vc_get_values t c id vt (ts_sec ts) 1 ts now e;
  match r with
  | (Some (r :: _), c) => Ret (Some r, c)
  | (_, c) => Ret (None, c)
  end.
End Calls.
