(* ===== verification/VcRefine.v ===== *)
(** The value cache is transparent: over any sequence of calls its answers are
    those the history tables give, whatever the cache has read, dropped,
    evicted or failed to allocate. *)

From stdpp Require Import base list numbers sorting gmap.
From Stdlib Require Import ZArith Lia.
From S2P Require Import Prelude VcHistory VcDb VcChunk VcStore VcAdd VcInsert VcItem VcInv VcGet VcRun.

Open Scope Z_scope.

(* ------------------------------------------------------------------ *)
(** ** Runs *)

Inductive vc_op :=
  | VcGet (id : Z) (vt : value_type) (seconds count : Z) (ts : timespec)
  | VcAdd (l : list dc_history) (written : bool)
  | VcRemove (ids : list Z)
  | VcNewItems (l : list (Z * value_type))
  | VcFlush
  | VcReset
  | VcEnable (on : bool).

(** A call, the time it is made at and how its allocations will go. *)
Record vc_call := VcCall { c_op : vc_op; c_now : Z; c_plan : list attempt }.

(** What a call returns. *)
Inductive vc_answer :=
  | Values (l : option (list hrec))
  | Added (ok : bool)
  | Done.

Section Runs.
  Context `{HistoryBackend}.

Definition vc_step (t : tables) (c : vc_cache) (call : vc_call) : res (vc_answer * tables * vc_cache) :=
  let e := Env (c_plan call) [] false in
  let now := c_now call in
  match c_op call with
  | VcGet id vt seconds count ts =>
    r ← zbx_vc_get_values t c id vt seconds count ts now e;
    match r with (values, c) => Ret (Values values, t, c) end
  | VcAdd l written =>
    r ← zbx_vc_add_values t c now l written e;
    match r with (ok, t, c) => Ret (Added ok, t, c) end
  | VcRemove ids => Ret (Done, t, zbx_vc_remove_items_by_ids c ids)
  | VcNewItems l => Ret (Done, t, zbx_vc_add_new_items c now l e)
  | VcFlush => c ← zbx_vc_flush_stats c now; Ret (Done, t, c)
  | VcReset => Ret (Done, t, zbx_vc_reset c)
  | VcEnable on => Ret (Done, t, zbx_vc_enable c on)
  end.

Fixpoint vc_run (t : tables) (c : vc_cache) (calls : list vc_call) : res (list vc_answer * tables * vc_cache) :=
  match calls with
  | [] => Ret ([], t, c)
  | call :: calls =>
    r ← vc_step t c call;
    match r with
    | (a, t, c) =>
      r ← vc_run t c calls;
      match r with (l, t, c) => Ret (a :: l, t, c) end
    end
  end.
End Runs.

(** The specification: the tables alone, without a cache. *)
Definition ref_step (t : tables) (op : vc_op) : vc_answer * tables :=
  match op with
  | VcGet id vt seconds count ts =>
    (Values (if bool_decide (vt = ITEM_VALUE_TYPE_BIN) then None else Some (window (t id vt) seconds count ts)), t)
  | VcAdd l written => (Added written, if written then write_history t l else t)
  | _ => (Done, t)
  end.

Fixpoint ref_run (t : tables) (calls : list vc_call) : list vc_answer * tables :=
  match calls with
  | [] => ([], t)
  | call :: calls =>
    let (a, t) := ref_step t (c_op call) in
    let (l, t) := ref_run t calls in
    (a :: l, t)
  end.

(* ------------------------------------------------------------------ *)
(** ** Which calls are made *)

Section Calls.
  Context `{HB : HistoryBackend} (visible : list hrec -> Prop).

(** A value that can be written to its table. *)
Definition value_ok (t : tables) (h : dc_history) : Prop :=
  let T := t (h_itemid h) (h_value_type h) in
  fresh (h_record h) T /\ typed (h_value_type h) (value (h_record h)) = true /\
  HIST_MIN < sec (h_record h) < ZBX_JAN_2038 /\
  visible (hist_insert (h_record h) T) /\ small (hist_insert (h_record h) T).

Definition write_one (t : tables) (h : dc_history) : tables :=
  table_set t (h_itemid h) (h_value_type h) (hist_insert (h_record h) (t (h_itemid h) (h_value_type h))).

(** Each value finds its item ready for it. *)
Fixpoint arrivals_ok (t : tables) (c : vc_cache) (now : Z) (l : list dc_history) (e : env) : Prop :=
  match l with
  | [] => True
  | h :: l =>
    value_ok t h /\
    (forall it, fst (fst (find_item c now h e)) = Some it -> item_value_type it = h_value_type h ->
       arrival_ok (t (h_itemid h) (h_value_type h)) it (h_record h)) /\
    (forall c' e', vc_add_value c now h e = Ret (c', e') -> arrivals_ok (write_one t h) c' now l e')
  end.

Definition call_ok (t : tables) (c : vc_cache) (call : vc_call) : Prop :=
  match c_op call with
  | VcGet id vt seconds count ts =>
    vt <> ITEM_VALUE_TYPE_BIN -> request_ok (t id vt) seconds count ts /\
    (count = 0 -> forall it, items c !! id = Some it -> no_gap (t id vt) it (ts_sec ts - seconds))
  | VcAdd l true =>
    if vc_enabled c then arrivals_ok t c (c_now call) l (Env (c_plan call) [] false)
    else items c = ∅ /\ forall l1 h l2, l = l1 ++ h :: l2 -> value_ok (write_history t l1) h
  | VcNewItems l => forall id vt, (id, vt) ∈ l -> items c !! id = None -> t id vt = []
  | _ => True
  end.

Fixpoint calls_ok (t : tables) (c : vc_cache) (calls : list vc_call) : Prop :=
  match calls with
  | [] => True
  | call :: calls =>
    call_ok t c call /\ (forall a t' c', vc_step t c call = Ret (a, t', c') -> calls_ok t' c' calls)
  end.

(** Tables as the housekeeper and the writers keep them. *)
Definition tables_ok (t : tables) : Prop :=
  forall id vt, hist_ok (t id vt) /\ visible (t id vt) /\ small (t id vt) /\ all_typed vt (t id vt).

Definition cache_ok (t : tables) (c : vc_cache) : Prop :=
  forall id it, items c !! id = Some it -> item_ok (t id (item_value_type it)) it.
End Calls.

(* ------------------------------------------------------------------ *)
(** ** The cache invariant *)

Lemma cache_ok_sub (t : tables) (c c' : vc_cache) : items c' ⊆ items c -> cache_ok t c -> cache_ok t c'.
Proof. intros Hs Hc id it E. apply Hc. by eapply lookup_weaken. Qed.

Lemma cache_ok_insert (t : tables) (c c' : vc_cache) (id : Z) (it : vc_item) :
  items c' = <[id := it]> (items c) -> cache_ok t c -> item_ok (t id (item_value_type it)) it -> cache_ok t c'.
Proof.
  intros E Hc Hi id' it' El. rewrite E in El. destruct (decide (id' = id)) as [-> | Hne].
  - rewrite lookup_insert_eq in El. by injection El as <-.
  - rewrite lookup_insert_ne in El by done. by apply Hc.
Qed.

Lemma remove_all_sub (ids : list Z) (m : gmap Z vc_item) : remove_all ids m ⊆ m.
Proof. induction ids as [|i ids IH]; simpl; [done|]. etransitivity; [apply delete_subseteq|done]. Qed.

Lemma settle_items (c : vc_cache) (id now : Z) (e : env) : items (settle c id now e) ⊆ items c.
Proof. unfold settle. destruct (went_low e); simpl; apply remove_all_sub. Qed.

Lemma settle_cache_ok (t : tables) (c : vc_cache) (id now : Z) (e : env) : cache_ok t c -> cache_ok t (settle c id now e).
Proof. apply cache_ok_sub, settle_items. Qed.

Lemma item_ok_fields (T : list hrec) (it it' : vc_item) :
  chunks it' = chunks it -> values_total it' = values_total it -> db_cached_from it' = db_cached_from it ->
  status it' = status it -> item_ok T it -> item_ok T it'.
Proof.
  intros E1 E2 E3 E4 (old & D & [H1 [H2 H2'] H3 H4 H5]). exists old, D. split; try done.
  - by split; rewrite ?E1, ?E2.
  - by rewrite E3.
  - by rewrite E4.
Qed.

Lemma remove_items_sub (c : vc_cache) (ids : list Z) : items (foldl vc_remove_item_by_id c ids) ⊆ items c.
Proof.
  revert c. induction ids as [|i ids IH]; intros c; simpl; [done|]. etransitivity; [apply IH|]. simpl. apply delete_subseteq.
Qed.

(** The head of an item can be read. *)
Lemma head_sec_ok (T : list hrec) (it : vc_item) (now : Z) :
  item_ok T it ->
  exists s, match last (chunks it) with Some hd => slot_sec hd (last_value hd) | None => Ret now end = Ret s.
Proof.
  intros (old & D & Hca). destruct (last (chunks it)) as [hd|] eqn:El; [|eauto].
  apply last_Some in El as [cs Ecs]. destruct (ca_store _ _ _ _ Hca) as [Hr _]. rewrite Ecs in Hr.
  apply trep_snoc in Hr as (D' & ws & _ & _ & Hw & Hne). destruct (ends_with ws Hne) as (l & x & ->).
  eexists. by apply slot_sec_ret, (slot_last _ l).
Qed.

Lemma update_range_ok (T : list hrec) (it : vc_item) (range now : Z) :
  item_ok T it -> exists it', vch_item_update_range it range now = Ret it' /\ item_ok T it' /\ same_item it it'.
Proof.
  intros Hok. unfold vch_item_update_range. cbv zeta. destruct (head_sec_ok T it now Hok) as (s & ->). run.
  match goal with |- context [if ?b then set_ranges _ _ _ _ else _] => destruct b end;
    (eexists; split; [done|]; split; [by apply (item_ok_fields T it)|done]).
Qed.

Lemma apply_update_ok (t : tables) (c : vc_cache) (now : Z) (u : vc_update) :
  cache_ok t c -> exists c', apply_update now c u = Ret c' /\ cache_ok t c'.
Proof.
  intros Hc. unfold apply_update. destruct (items c !! update_itemid u) as [it|] eqn:E; [|eauto].
  pose proof (Hc _ _ E) as Hi. destruct u as [id h m | id seconds t0]; simpl in *.
  - eexists. split; [done|]. unfold vc_update_statistics.
    assert (Hc' : cache_ok t (set_items c (<[id := vc_update_item_statistics it h m now]> (items c)))).
    { eapply cache_ok_insert; [reflexivity|done|]. by apply (item_ok_fields _ it). }
    destruct (vc_enabled _); [|done]. by apply (cache_ok_sub t (set_items c (<[id := vc_update_item_statistics it h m now]> (items c)))).
  - destruct (update_range_ok _ it seconds t0 Hi) as (it' & -> & Hi' & _ & Et). run. eexists. split; [done|].
    eapply cache_ok_insert; [reflexivity|done|]. by rewrite Et.
Qed.

Lemma flush_ok (t : tables) (c : vc_cache) (now : Z) :
  cache_ok t c -> exists c', zbx_vc_flush_stats c now = Ret c' /\ cache_ok t c'.
Proof.
  intros Hc. unfold zbx_vc_flush_stats. destruct (_ && _); [|eauto].
  assert (Hall : forall us c, cache_ok t c -> exists c', apply_updates now c us = Ret c' /\ cache_ok t c').
  { induction us as [|u us IH]; intros c0 Hc0; cbn [apply_updates]; [eauto|].
    destruct (apply_update_ok t c0 now u Hc0) as (c1 & -> & Hc1). run. by apply IH. }
  destruct (Hall (merge_sort update_le (itemupdates c)) c Hc) as (c' & -> & Hc'). run.
  eexists. split; [done|]. by apply (cache_ok_sub t c').
Qed.

Lemma add_new_ok (t : tables) (l : list (Z * value_type)) (now : Z) (c : vc_cache) (e : env) :
  cache_ok t c -> (forall id vt, (id, vt) ∈ l -> items c !! id = None -> t id vt = []) ->
  cache_ok t (add_new_loop now c l e).
Proof.
  revert c e. induction l as [|[id vt] l IH]; intros c e Hc Hl; cbn [add_new_loop]; [done|].
  destruct (items c !! id) as [it|] eqn:E.
  - apply IH; [done|]. intros id' vt' Hin. apply Hl. by right.
  - destruct (hashset_insert e) as [[] e']; [|done]. apply IH.
    + eapply cache_ok_insert; [reflexivity|done|]. cbn [item_value_type new_item].
      rewrite (Hl id vt ltac:(by left) E). exists [], []. split; try done.
      * split; [constructor|done].
      * by intros x y ?%not_elem_of_nil.
    + intros id' vt' Hin En. cbn [items set_items] in En. destruct (decide (id' = id)) as [-> | Hne].
      { by rewrite lookup_insert_eq in En. }
      rewrite lookup_insert_ne in En by done. apply Hl; [by right|done].
Qed.

(* ------------------------------------------------------------------ *)
(** ** Adding values *)

Lemma table_set_eq (t : tables) (id : Z) (vt : value_type) (l : list hrec) : table_set t id vt l id vt = l.
Proof. unfold table_set. by rewrite decide_True. Qed.

Lemma table_set_ne (t : tables) (id id' : Z) (vt vt' : value_type) (l : list hrec) :
  id' <> id -> table_set t id vt l id' vt' = t id' vt'.
Proof. intros. unfold table_set. rewrite decide_False; [done|]. by intros [? _]. Qed.

(** Items other than the one written to keep their tables. *)
Lemma cache_ok_write (t : tables) (c : vc_cache) (id : Z) (vt : value_type) (l : list hrec) :
  cache_ok t c -> items c !! id = None -> cache_ok (table_set t id vt l) c.
Proof.
  intros Hc Hn id' it E. destruct (decide (id' = id)) as [-> | Hne]; [by rewrite Hn in E|].
  rewrite table_set_ne by done. by apply Hc.
Qed.

Lemma cache_ok_write_insert (t : tables) (c c' : vc_cache) (id : Z) (vt : value_type) (l : list hrec) (it : vc_item) :
  cache_ok t c -> items c' = <[id := it]> (items c) -> item_value_type it = vt -> item_ok l it ->
  cache_ok (table_set t id vt l) c'.
Proof.
  intros Hc E Et Hi id' it' El. rewrite E in El. destruct (decide (id' = id)) as [-> | Hne].
  - rewrite lookup_insert_eq in El. injection El as <-. by rewrite Et, table_set_eq.
  - rewrite lookup_insert_ne in El by done. rewrite table_set_ne by done. by apply Hc.
Qed.

Lemma cache_ok_delete (t : tables) (c : vc_cache) (id : Z) (vt : value_type) (l : list hrec) :
  cache_ok t c -> cache_ok (table_set t id vt l) (vc_remove_item_by_id c id).
Proof.
  intros Hc. apply cache_ok_write; [|apply lookup_delete_eq].
  apply (cache_ok_sub t c); [apply delete_subseteq|done].
Qed.

Lemma find_item_ok (t : tables) (c : vc_cache) (now : Z) (h : dc_history) (e : env) :
  cache_ok t c ->
  match find_item c now h e with
  | (None, c', _) => c' = c /\ items c !! h_itemid h = None
  | (Some it, c', _) => cache_ok t c' /\ items c' !! h_itemid h = Some it /\ item_ok (t (h_itemid h) (item_value_type it)) it
  end.
Proof.
  intros Hc. unfold find_item. destruct (items c !! h_itemid h) as [it|] eqn:E.
  { split_and!; [done|done|by apply Hc]. }
  destruct (_ && _); [|done]. destruct (hashset_insert e) as [[] e']; [|done].
  assert (Hi : item_ok (t (h_itemid h) (h_value_type h)) (new_item (h_itemid h) (h_value_type h) 0 VC_MIN_RANGE now)).
  { eexists _, _. by apply empty_item_ok. }
  split_and!; [|by cbn; rewrite lookup_insert_eq|done]. by eapply cache_ok_insert.
Qed.

Section Steps.
  Context `{HB : HistoryBackend} {visible : list hrec -> Prop} `{HL : !HistoryLaws visible}.

Lemma tables_ok_write (t : tables) (h : dc_history) :
  tables_ok visible t -> value_ok visible t h -> tables_ok visible (write_one t h).
Proof.
  intros Ht (Hf & Hty & Hs & Hv & Hsm) id vt. unfold write_one, table_set. case_decide as E; [|apply Ht].
  destruct E as [-> ->]. destruct (Ht (h_itemid h) (h_value_type h)) as (HT & _ & _ & Hall).
  split_and!; [by apply hist_insert_ok|done|done|]. apply Forall_forall. intros r [-> | Hr]%hist_insert_elem; [done|].
  unfold all_typed in Hall. rewrite Forall_forall in Hall. auto.
Qed.

Lemma add_value_ok (t : tables) (c : vc_cache) (now : Z) (h : dc_history) (e : env) :
  tables_ok visible t -> cache_ok t c -> value_ok visible t h ->
  (forall it, fst (fst (find_item c now h e)) = Some it -> item_value_type it = h_value_type h ->
     arrival_ok (t (h_itemid h) (h_value_type h)) it (h_record h)) ->
  exists c' e', vc_add_value c now h e = Ret (c', e') /\ cache_ok (write_one t h) c'.
Proof using.
  intros Ht Hc Hval Harr. pose proof (tables_ok_write t h Ht Hval (h_itemid h) (h_value_type h)) as (HT' & _ & _ & _).
  unfold write_one in *. rewrite table_set_eq in HT'.
  destruct (Ht (h_itemid h) (h_value_type h)) as (HT & _ & Hsmall & _). destruct Hval as (Hf & Hty & _ & _ & _).
  unfold vc_add_value. pose proof (find_item_ok t c now h e Hc) as Hfi.
  destruct (find_item c now h e) as [[[it|] c1] e1]; cbn [fst] in Harr.
  2: { destruct Hfi as [-> Hn]. eexists _, _. split; [done|]. by apply cache_ok_write. }
  destruct Hfi as (Hc1 & Hl1 & Hi). destruct (head_sec_ok _ it now Hi) as (s & ->). run.
  case_bool_decide as Evt; cbn [negb].
  2: { eexists _, _. split; [done|]. by apply cache_ok_delete. }
  rewrite Evt in Hi. specialize (Harr it eq_refl Evt). rewrite <- Evt in Hty.
  destruct (arrival_kept _ it (h_record h) e1 Hi HT Hsmall Hf Hty Harr) as (ok & it' & e2 & -> & Hok). run.
  pose proof (settle_cache_ok t c1 (h_itemid h) now e2 Hc1) as Hcs.
  destruct ok. 2: { eexists _, _. split; [done|]. by apply cache_ok_delete. }
  destruct (Hok eq_refl) as [Hi' Hsame].
  assert (Hcl : exists it'', (if decide (length (chunks it) < length (chunks it'))%nat then vch_item_clean_cache it' s else Ret it') = Ret it'' /\
    item_ok (hist_insert (h_record h) (t (h_itemid h) (h_value_type h))) it'' /\ same_item it' it'').
  { case_decide; [by apply clean_kept|by exists it']. }
  destruct Hcl as (it'' & -> & Hi'' & Hsame'). run. eexists _, _. split; [done|].
  eapply cache_ok_write_insert; [exact Hcs|reflexivity| |done]. destruct Hsame as [_ E1], Hsame' as [_ E2]. by rewrite E2, E1.
Qed.

Lemma add_values_loop_ok (l : list dc_history) (t : tables) (c : vc_cache) (now : Z) (e : env) :
  tables_ok visible t -> cache_ok t c -> arrivals_ok visible t c now l e ->
  exists c' e', vc_add_values_loop c now l e = Ret (c', e') /\ cache_ok (write_history t l) c' /\
    tables_ok visible (write_history t l).
Proof using.
  revert t c e. induction l as [|h l IH]; intros t c e Ht Hc Hl; cbn [vc_add_values_loop].
  { eexists _, _. done. }
  destruct Hl as (Hval & Harr & Hrest). destruct (add_value_ok t c now h e Ht Hc Hval Harr) as (c1 & e1 & E & Hc1).
  rewrite E. run. destruct (IH (write_one t h) c1 e1) as (c2 & e2 & -> & Hc2 & Ht2); [by apply tables_ok_write|done|by apply Hrest|].
  eexists _, _. done.
Qed.

Lemma write_history_ok (l : list dc_history) (t : tables) :
  tables_ok visible t -> (forall l1 h l2, l = l1 ++ h :: l2 -> value_ok visible (write_history t l1) h) ->
  tables_ok visible (write_history t l).
Proof using.
  revert t. induction l as [|h l IH]; intros t Ht Hl; [done|]. apply (IH (write_one t h)).
  - apply tables_ok_write; [done|]. by apply (Hl [] h l).
  - intros l1 h' l2 ->. by apply (Hl (h :: l1) h' l2).
Qed.

(* ------------------------------------------------------------------ *)
(** ** Reading *)

Lemma get_direct_ok (t : tables) (c : vc_cache) (id : Z) (vt : value_type) (seconds count : Z) (ts : timespec) :
  tables_ok visible t -> cache_ok t c -> request_ok (t id vt) seconds count ts ->
  exists c', get_direct t c id vt seconds count ts = Ret (Some (window (t id vt) seconds count ts), c') /\ cache_ok t c'.
Proof using HL.
  intros Ht Hc (Hs & Hcnt & Hsc & Hts & Hq). destruct (Ht id vt) as (HT & Hv & _ & _). unfold get_direct.
  rewrite (vc_db_get_values_window (t id vt) HT Hv seconds count ts); [|done|done|done|apply Hts|tauto]. run.
  eexists. split; [done|].
  set (c1 := if vc_enabled c then vc_remove_item_by_id c id else c).
  assert (Hc1 : cache_ok t c1).
  { unfold c1. destruct (vc_enabled c); [|done]. apply (cache_ok_sub t c); [apply delete_subseteq|done]. }
  unfold vc_update_statistics. destruct (vc_enabled c1); [|done]. by apply (cache_ok_sub t c1).
Qed.

Lemma vc_get_values_ok (t : tables) (c : vc_cache) (id : Z) (vt : value_type) (seconds count : Z) (ts : timespec) (now : Z) (e : env) :
  tables_ok visible t -> cache_ok t c -> vt <> ITEM_VALUE_TYPE_BIN -> request_ok (t id vt) seconds count ts ->
  (count = 0 -> forall it, items c !! id = Some it -> no_gap (t id vt) it (ts_sec ts - seconds)) ->
  exists c', zbx_vc_get_values t c id vt seconds count ts now e = Ret (Some (window (t id vt) seconds count ts), c') /\ cache_ok t c'.
Proof using HL.
  intros Ht Hc Hbin Hreq Hgap. unfold zbx_vc_get_values. rewrite bool_decide_false by done.
  destruct (vc_enabled c); cbn [negb]; [|by apply get_direct_ok]. cbv zeta.
  set (c1 := if bool_decide (mode c = ZBX_VC_MODE_LOWMEM) then vc_warn_low_memory c now else c).
  assert (E1 : items c1 = items c).
  { unfold c1, vc_warn_low_memory. destruct (bool_decide _); [|done]. by destruct (_ <? _). }
  assert (Hc1 : cache_ok t c1) by (apply (cache_ok_sub t c); [by rewrite E1|done]).
  rewrite E1. clearbody c1.
  assert (Hfound : match (match items c !! id with
        | None => if bool_decide (mode c1 = ZBX_VC_MODE_NORMAL) then Some (new_item id vt 0 0 0, false) else None
        | Some it => if bool_decide (item_value_type it = vt) then Some (it, true) else None
        end) with
      | Some (it, present) => item_ok (t id vt) it /\ item_value_type it = vt /\ (count = 0 -> no_gap (t id vt) it (ts_sec ts - seconds))
      | None => True
      end).
  { destruct (items c !! id) as [it|] eqn:E.
    - case_bool_decide as Et; [|done]. split_and!; [rewrite <- Et; by apply Hc|done|]. intros E0. by apply Hgap.
    - case_bool_decide; [|done]. split_and!; [eexists _, _; by apply empty_item_ok|done|done]. }
  destruct (match items c !! id with Some _ => _ | None => _ end) as [[it present]|]; [|by apply get_direct_ok].
  destruct Hfound as (Hi & Et & Hg). destruct (Ht id vt) as (HT & Hv & Hsm & Hty).
  destruct (get_values_ok (t id vt) HT Hv Hsm it present seconds count ts now e Hi ltac:(by rewrite Et) Hreq Hg)
    as (r & it' & present' & e' & -> & Hr). run.
  pose proof (settle_cache_ok t c1 id now e' Hc1) as Hcs.
  destruct r as [[values ups]|]; [|by apply get_direct_ok]. destruct Hr as (-> & Hi' & [_ Et'] & _).
  eexists. split; [done|]. apply (cache_ok_sub t (if present' then set_items (settle c1 id now e') (<[id := it']> (items (settle c1 id now e'))) else settle c1 id now e')); [done|].
  destruct present'; [|done]. eapply cache_ok_insert; [reflexivity|done|]. by rewrite Et', Et.
Qed.

(* ------------------------------------------------------------------ *)
(** ** The refinement *)

Lemma vc_step_ok (t : tables) (c : vc_cache) (call : vc_call) :
  tables_ok visible t -> cache_ok t c -> call_ok visible t c call ->
  exists c', vc_step t c call = Ret (fst (ref_step t (c_op call)), snd (ref_step t (c_op call)), c') /\
    tables_ok visible (snd (ref_step t (c_op call))) /\ cache_ok (snd (ref_step t (c_op call))) c'.
Proof using HL.
  intros Ht Hc Hok. unfold vc_step, call_ok in *. destruct call as [op now pl]. simpl in *.
  destruct op as [id vt seconds count ts | l [] | ids | l | | | on]; simpl.
  - destruct (decide (vt = ITEM_VALUE_TYPE_BIN)) as [-> | Hbin].
    + eexists. done.
    + destruct (Hok Hbin) as [Hreq Hgap].
      destruct (vc_get_values_ok t c id vt seconds count ts now (Env pl [] false) Ht Hc Hbin Hreq Hgap) as (c' & -> & Hc').
      run. rewrite bool_decide_false by done. eauto.
  - unfold zbx_vc_add_values. cbn [negb]. cbv zeta. destruct (vc_enabled c) eqn:Een; cbn [negb].
    + destruct (add_values_loop_ok l t c now (Env pl [] false) Ht Hc Hok) as (c' & e' & -> & Hc' & Ht'). run. simpl. eauto.
    + destruct Hok as [Hempty Hl]. run. eexists. split_and!; [done|by apply write_history_ok|].
      intros id it E. by rewrite Hempty, lookup_empty in E.
  - unfold zbx_vc_add_values. simpl. eauto.
  - eexists. split_and!; [done|done|]. unfold zbx_vc_remove_items_by_ids. destruct (vc_enabled c); [|done].
    apply (cache_ok_sub t c); [apply remove_items_sub|done].
  - eexists. split_and!; [done|done|]. unfold zbx_vc_add_new_items. destruct (_ && _); [|done]. by apply add_new_ok.
  - destruct (flush_ok t c now Hc) as (c' & -> & Hc'). run. eauto.
  - eexists. split_and!; [done|done|]. intros id it E. cbn [items zbx_vc_reset] in E. by rewrite lookup_empty in E.
  - eexists. split_and!; [done|done|]. by apply (cache_ok_sub t c).
Qed.

Lemma vc_run_ok (calls : list vc_call) (t : tables) (c : vc_cache) :
  tables_ok visible t -> cache_ok t c -> calls_ok visible t c calls ->
  exists c', vc_run t c calls = Ret (fst (ref_run t calls), snd (ref_run t calls), c') /\ cache_ok (snd (ref_run t calls)) c'.
Proof using HL.
  revert t c. induction calls as [|call calls IH]; intros t c Ht Hc Hok; cbn [vc_run ref_run]; [eauto|].
  destruct Hok as [Hcall Hrest]. destruct (vc_step_ok t c call Ht Hc Hcall) as (c1 & E & Ht1 & Hc1).
  rewrite E. run. specialize (Hrest _ _ _ E). destruct (ref_step t (c_op call)) as [a t1]. simpl in *.
  destruct (IH t1 c1 Ht1 Hc1 Hrest) as (c2 & -> & Hc2). run. destruct (ref_run t1 calls) as [l t2]. simpl in *. eauto.
Qed.
End Steps.
