(* ===== verification/VcCache.v ===== *)
(** The value cache over the SQL history storage: the theorems about the two
    together, and the requests and arrivals outside their conditions, on which
    the code answers differently from the tables. *)

From stdpp Require Import base list numbers sorting gmap.
From Stdlib Require Import ZArith Lia.
From S2P Require Import Prelude VcHistory VcSql VcDb VcChunk VcStore VcAdd VcInsert VcItem VcInv VcGet VcRun VcRefine.

Open Scope Z_scope.

(** The cache of a process that has just enabled it. *)
Definition fresh_cache : vc_cache := VcCache true ∅ ZBX_VC_MODE_NORMAL 0 0 0 [].

Lemma fresh_cache_ok (t : tables) : cache_ok t fresh_cache.
Proof. intros id it E. cbn [items fresh_cache] in E. by rewrite lookup_empty in E. Qed.

(* ------------------------------------------------------------------ *)
(** ** A database *)

#[export] Instance sec_ge_dec a b : Decision (sec_ge a b).
Proof. apply Z_le_dec. Defined.
#[export] Instance sec_ge_total : Total sec_ge.
Proof. intros a b. unfold sec_ge. lia. Qed.

(** Rows in the order of the table, and newest first. *)
Definition table_order (q : list hrec) : option (list hrec) := Some q.
Definition clock_desc (q : list hrec) : option (list hrec) := Some (merge_sort sec_ge q).
Definition no_housekeeping : hk_cfg := HkCfg 0 0 0.


Lemma table_order_ok (q : list hrec) : exists l, table_order q = Some l /\ l ≡ₚ q.
Proof. by exists q. Qed.

Lemma clock_desc_ok (q : list hrec) : exists l, clock_desc q = Some l /\ l ≡ₚ q /\ StronglySorted sec_ge l.
Proof. eexists. split; [done|]. split; [apply merge_sort_Permutation|apply StronglySorted_merge_sort; apply _]. Qed.

(** The storage of the examples. *)
Definition sql : HistoryBackend := sql_get_values table_order clock_desc no_housekeeping.

Definition rec_at (s n : Z) : hrec := HRec (Timespec s n) (HV_ui64 (s * 10 + n)).
Definition one_item (l : list hrec) : tables := table_set (fun _ _ => []) 1 ITEM_VALUE_TYPE_UINT64 l.
Definition get (seconds count : Z) (ts : timespec) : vc_call := VcCall (VcGet 1 ITEM_VALUE_TYPE_UINT64 seconds count ts) (ts_sec ts) [].
Definition add (trigger : bool) (r : hrec) : vc_call :=
  VcCall (VcAdd [DcHistory 1 ITEM_VALUE_TYPE_UINT64 r trigger] true) (sec r) [].

(** The answers with and without the cache. *)
Definition answers (l : list hrec) (calls : list vc_call) : option (list vc_answer * list vc_answer) :=
  match @vc_run sql (one_item l) fresh_cache calls with
  | Ret (a, _, _) => Some (a, fst (ref_run (one_item l) calls))
  | _ => None
  end.

Definition B : Z := 1700000000.
Definition secs (a : vc_answer) : list (Z * Z) :=
  match a with Values (Some l) => (fun r => (sec r - B, ns r)) <$> l | _ => [] end.
Definition last_answers (l : list hrec) (calls : list vc_call) : option (list (Z * Z) * list (Z * Z)) :=
  match answers l calls with
  | Some (a, b) => Some (default [] (secs <$> last a), default [] (secs <$> last b))
  | None => None
  end.

(* ------------------------------------------------------------------ *)
(** ** Outside the conditions *)

(** With the cached values starting one second after the start of a request by
    time, the second before is taken for cached (range_start >= range_end is
    tested where range_start > range_end is meant): 99.9 is not returned. *)
Example gap_of_one_second :
  last_answers [rec_at (B + 99) 9; rec_at (B + 100) 0]
    [get 0 1 (Timespec (B + 100) 5); get 1 0 (Timespec (B + 100) 5)] =
  Some ([(100, 0)], [(100, 0); (99, 9)]).
Proof. vm_compute. reflexivity. Qed.

(** A value past the requested time in its second, the one before it more than
    an hour older: the second read stops one value short of what is asked for,
    the cache takes that for the end of the history and nothing is returned. *)
Example later_value_of_the_second :
  last_answers [rec_at (B - 7200) 0; rec_at B 5] [get 0 1 (Timespec B 0)] = Some ([], [(-7200, 0)]).
Proof. vm_compute. reflexivity. Qed.

(** A value older than all that is cached, for an item that was put into the
    cache by a new value: the item then claims to hold all later values. *)
Example late_value_claims_too_much :
  last_answers [rec_at (B + 100) 0; rec_at (B + 110) 0]
    [add true (rec_at (B + 120) 0); add true (rec_at (B + 90) 0); get 30 0 (Timespec (B + 125) 0)] =
  Some ([(120, 0)], [(120, 0); (110, 0); (100, 0)]).
Proof. vm_compute. reflexivity. Qed.

(** A new value puts its item into the cache while an older value of the same
    second is only in the tables. *)
Example second_split_by_new_item :
  last_answers [rec_at (B + 100) 1] [add true (rec_at (B + 100) 2); get 30 0 (Timespec (B + 125) 0)] =
  Some ([(100, 2)], [(100, 2); (100, 1)]).
Proof. vm_compute. reflexivity. Qed.

(** A request by time and count: the number of values read is compared with
    the whole count instead of the part that was missing, and the item claims
    to hold the whole period. *)
Example count_in_period_claims_too_much :
  last_answers [rec_at (B + 80) 0; rec_at (B + 90) 0; rec_at (B + 100) 0; rec_at (B + 110) 0; rec_at (B + 120) 0]
    [get 0 2 (Timespec (B + 120) 0); get 100 3 (Timespec (B + 120) 0); get 100 0 (Timespec (B + 125) 0)] =
  Some ([(120, 0); (110, 0); (100, 0)], [(120, 0); (110, 0); (100, 0); (90, 0); (80, 0)]).
Proof. vm_compute. reflexivity. Qed.

(* ------------------------------------------------------------------ *)
(** ** Values that arrive in order *)

(** Conditions on calls that do not speak of the cache: values open new
    seconds, items are announced before they have values, no value falls into
    the second a request by time starts in. *)
Definition in_order_op (visible : list hrec -> Prop) (t : tables) (op : vc_op) : Prop :=
  match op with
  | VcGet id vt seconds count ts =>
    vt <> ITEM_VALUE_TYPE_BIN -> request_ok (t id vt) seconds count ts /\
    (count = 0 -> Forall (fun r => sec r <> ts_sec ts - seconds) (t id vt))
  | VcAdd l true =>
    forall l1 h l2, l = l1 ++ h :: l2 ->
      value_ok visible (write_history t l1) h /\
      Forall (fun r => sec r < sec (h_record h)) (write_history t l1 (h_itemid h) (h_value_type h))
  | VcNewItems l => forall id vt, (id, vt) ∈ l -> t id vt = []
  | VcEnable on => on = true
  | _ => True
  end.

Fixpoint in_order (visible : list hrec -> Prop) (t : tables) (calls : list vc_call) : Prop :=
  match calls with
  | [] => True
  | call :: calls => in_order_op visible t (c_op call) /\ in_order visible (snd (ref_step t (c_op call))) calls
  end.

Lemma not_late (T : list hrec) (it : vc_item) (v : hrec) :
  item_ok T it -> Forall (fun r => sec r < sec v) T -> ~ late it v.
Proof.
  intros (old & D & Hca) HT. unfold late. destruct (ca_store _ _ _ _ Hca) as [Hr _].
  destruct Hr as [|c rest vs D Hc Hne Hr']; [tauto|]. destruct vs as [|x vs]; [done|].
  rewrite (slot_first _ _ _ Hc). rewrite (ca_split _ _ _ _ Hca) in HT. rewrite !Forall_app in HT.
  destruct HT as (_ & HT & _). apply Forall_nil_or in HT. intros Hl. tcmp.
Qed.

(** The cache stays enabled. *)
Lemma settle_enabled (c : vc_cache) (id now : Z) (e : env) : vc_enabled (settle c id now e) = vc_enabled c.
Proof. unfold settle. by destruct (went_low e). Qed.

Lemma find_item_enabled (c : vc_cache) (now : Z) (h : dc_history) (e : env) :
  vc_enabled (snd (fst (find_item c now h e))) = vc_enabled c.
Proof.
  unfold find_item. destruct (items c !! h_itemid h); [done|]. destruct (_ && _); [|done].
  by destruct (hashset_insert e) as [[] ?].
Qed.

Lemma add_value_enabled (c c' : vc_cache) (now : Z) (h : dc_history) (e e' : env) :
  vc_add_value c now h e = Ret (c', e') -> vc_enabled c' = vc_enabled c.
Proof.
  unfold vc_add_value. pose proof (find_item_enabled c now h e) as Hf.
  destruct (find_item c now h e) as [[[it|] c1] e1]; cbn [fst snd] in Hf; [|by intros [=<- _]%Ret_inj].
  intros (s & _ & E)%res_bind_Ret. destruct (negb _); [by injection E as <- _|].
  apply res_bind_Ret in E as ([[[] it'] e2] & _ & E).
  - apply res_bind_Ret in E as (it'' & _ & E). injection E as <- _. simpl. by rewrite settle_enabled.
  - injection E as <- _. simpl. by rewrite settle_enabled.
Qed.

Lemma add_values_enabled (l : list dc_history) (c c' : vc_cache) (now : Z) (e e' : env) :
  vc_add_values_loop c now l e = Ret (c', e') -> vc_enabled c' = vc_enabled c.
Proof.
  revert c e. induction l as [|h l IH]; intros c e; cbn [vc_add_values_loop]; [by intros [=<- _]%Ret_inj|].
  intros ([c1 e1] & E & Hl)%res_bind_Ret. rewrite (IH _ _ Hl). by eapply add_value_enabled.
Qed.

Lemma apply_updates_enabled (us : list vc_update) (c c' : vc_cache) (now : Z) :
  apply_updates now c us = Ret c' -> vc_enabled c' = vc_enabled c.
Proof.
  revert c. induction us as [|u us IH]; intros c; cbn [apply_updates]; [by intros <-%Ret_inj|].
  intros (c1 & E & Hl)%res_bind_Ret. rewrite (IH _ Hl). clear IH Hl. unfold apply_update in E.
  destruct (items c !! update_itemid u); [|by injection E as ->]. destruct u.
  - injection E as <-. unfold vc_update_statistics. destruct (vc_enabled (set_items _ _)) eqn:En; simpl in *; by rewrite ?En.
  - apply res_bind_Ret in E as (it' & _ & E). by injection E as <-.
Qed.

Lemma remove_items_enabled (ids : list Z) (c : vc_cache) : vc_enabled (foldl vc_remove_item_by_id c ids) = vc_enabled c.
Proof. revert c. induction ids as [|i ids IH]; intros c; simpl; [done|]. by rewrite IH. Qed.

Lemma add_new_enabled (l : list (Z * value_type)) (c : vc_cache) (now : Z) (e : env) :
  vc_enabled (add_new_loop now c l e) = vc_enabled c.
Proof.
  revert c e. induction l as [|[id vt] l IH]; intros c e; cbn [add_new_loop]; [done|].
  destruct (items c !! id); [apply IH|]. destruct (hashset_insert e) as [[] e']; [|done]. by rewrite IH.
Qed.

Lemma get_direct_enabled `{HistoryBackend} (t : tables) (c c' : vc_cache) (id : Z) (vt : value_type) (seconds count : Z)
    (ts : timespec) (v : option (list hrec)) :
  get_direct t c id vt seconds count ts = Ret (v, c') -> vc_enabled c' = vc_enabled c.
Proof.
  unfold get_direct. intros (r & _ & E)%res_bind_Ret. injection E as _ <-. unfold vc_update_statistics.
  destruct r; destruct (vc_enabled c) eqn:En; simpl; by rewrite ?En.
Qed.

Lemma get_values_enabled `{HistoryBackend} (t : tables) (c c' : vc_cache) (id : Z) (vt : value_type) (seconds count : Z)
    (ts : timespec) (now : Z) (e : env) (v : option (list hrec)) :
  zbx_vc_get_values t c id vt seconds count ts now e = Ret (v, c') -> vc_enabled c' = vc_enabled c.
Proof.
  unfold zbx_vc_get_values. destruct (bool_decide _); [by intros [=_ <-]%Ret_inj|].
  destruct (negb (vc_enabled c)); [apply get_direct_enabled|]. cbv zeta.
  set (c1 := if bool_decide (mode c = _) then _ else c).
  assert (E1 : vc_enabled c1 = vc_enabled c).
  { unfold c1, vc_warn_low_memory. destruct (bool_decide _); [|done]. by destruct (_ <? _). }
  rewrite <- E1. clearbody c1.
  destruct (match items c1 !! id with Some _ => _ | None => _ end) as [[it present]|]; [|apply get_direct_enabled].
  intros ([[[r it'] present'] e'] & _ & E)%res_bind_Ret. destruct r as [[values ups]|].
  - injection E as _ <-. destruct present'; simpl; apply settle_enabled.
  - rewrite (get_direct_enabled _ _ _ _ _ _ _ _ _ E). apply settle_enabled.
Qed.

Lemma step_enabled `{HistoryBackend} (t t' : tables) (c c' : vc_cache) (call : vc_call) (a : vc_answer) :
  vc_step t c call = Ret (a, t', c') -> vc_enabled c = true -> (forall on, c_op call = VcEnable on -> on = true) ->
  vc_enabled c' = true.
Proof.
  intros E En Hon. unfold vc_step in E. destruct call as [op now pl]. cbn [c_op c_now c_plan] in *.
  destruct op as [id vt seconds count ts | l written | ids | l | | | on].
  - apply res_bind_Ret in E as ([v c1] & E & [= _ _ <-]%Ret_inj). by rewrite (get_values_enabled _ _ _ _ _ _ _ _ _ _ _ E).
  - apply res_bind_Ret in E as ([[ok t1] c1] & E & [= _ _ <-]%Ret_inj). unfold zbx_vc_add_values in E.
    destruct (negb written); [by injection E as _ _ <-|]. rewrite En in E. cbn [negb] in E. cbv zeta in E.
    apply res_bind_Ret in E as ([c2 e2] & E & [= _ _ <-]%Ret_inj). simpl. by rewrite (add_values_enabled _ _ _ _ _ _ E).
  - injection E as _ _ <-. unfold zbx_vc_remove_items_by_ids. rewrite En. by rewrite remove_items_enabled.
  - injection E as _ _ <-. unfold zbx_vc_add_new_items. destruct (_ && _); [|done]. by rewrite add_new_enabled.
  - apply res_bind_Ret in E as (c1 & E & [= _ _ <-]%Ret_inj). unfold zbx_vc_flush_stats in E.
    destruct (_ && _); [|by injection E as <-]. apply res_bind_Ret in E as (c2 & E & <-%Ret_inj). simpl.
    by rewrite (apply_updates_enabled _ _ _ _ E).
  - by injection E as _ _ <-.
  - injection E as _ _ <-. simpl. by apply Hon.
Qed.

(* ------------------------------------------------------------------ *)
(** ** In order is enough *)

Section InOrder.
  Context `{HB : HistoryBackend} {visible : list hrec -> Prop} `{HL : !HistoryLaws visible}.

Lemma in_order_arrivals (l : list dc_history) (t : tables) (c : vc_cache) (now : Z) (e : env) :
  tables_ok visible t -> cache_ok t c ->
  (forall l1 h l2, l = l1 ++ h :: l2 ->
     value_ok visible (write_history t l1) h /\
     Forall (fun r => sec r < sec (h_record h)) (write_history t l1 (h_itemid h) (h_value_type h))) ->
  arrivals_ok visible t c now l e.
Proof using.
  revert t c e. induction l as [|h l IH]; intros t c e Ht Hc Hl; [done|].
  destruct (Hl [] h l eq_refl) as [Hv Hlt]. cbn [write_history foldl] in Hv, Hlt.
  assert (Harr : forall it, fst (fst (find_item c now h e)) = Some it -> item_value_type it = h_value_type h ->
     arrival_ok (t (h_itemid h) (h_value_type h)) it (h_record h)).
  { intros it Ef Et. pose proof (find_item_ok t c now h e Hc) as Hf. destruct (find_item c now h e) as [[o c1] e1].
    cbn [fst] in Ef. subst o. destruct Hf as (_ & _ & Hi). rewrite Et in Hi. split; [done|].
    intros Hlate. by destruct (not_late _ _ _ Hi Hlt). }
  cbn [arrivals_ok]. split_and!; [done|done|]. intros c' e' E.
  destruct (add_value_ok t c now h e Ht Hc Hv Harr) as (c1 & e1 & E' & Hc1). rewrite E' in E. injection E as <- <-.
  apply IH; [by apply tables_ok_write|done|]. intros l1 h' l2 ->. apply (Hl (h :: l1) h' l2). done.
Qed.

Lemma in_order_call (t : tables) (c : vc_cache) (call : vc_call) :
  tables_ok visible t -> cache_ok t c -> vc_enabled c = true -> in_order_op visible t (c_op call) ->
  call_ok visible t c call.
Proof using.
  intros Ht Hc En Hop. unfold call_ok. destruct call as [op now pl]. cbn [c_op c_now c_plan] in *.
  destruct op as [id vt seconds count ts | l [] | ids | l | | | on]; cbn [in_order_op] in Hop; try done.
  - intros Hb. destruct (Hop Hb) as [Hr Hg]. split; [done|]. intros E0 it _. unfold no_gap.
    destruct (cached_start it) as [[s|]| | |]; try done. intros _. by apply Hg.
  - rewrite En. by apply in_order_arrivals.
  - intros id vt Hin _. by apply Hop.
Qed.

Lemma in_order_run (calls : list vc_call) (t : tables) (c : vc_cache) :
  tables_ok visible t -> cache_ok t c -> vc_enabled c = true -> in_order visible t calls -> calls_ok visible t c calls.
Proof using HL.
  revert t c. induction calls as [|call calls IH]; intros t c Ht Hc En Hio; [done|]. destruct Hio as [Hop Hio].
  pose proof (in_order_call t c call Ht Hc En Hop) as Hok. split; [done|]. intros a t' c' E.
  destruct (vc_step_ok t c call Ht Hc Hok) as (c1 & E' & Ht' & Hc'). rewrite E' in E. injection E as <- <- <-.
  apply IH; [done|done| |done]. eapply step_enabled; [exact E'|done|].
  intros on Eon. by rewrite Eon in Hop.
Qed.
End InOrder.

(* ------------------------------------------------------------------ *)
(** ** The cache over the SQL storage *)

Section SqlCache.
  Context (db_select db_select_desc : list hrec -> option (list hrec)) (hk : hk_cfg).
  Hypothesis select_ok : forall q, exists l, db_select q = Some l /\ l ≡ₚ q.
  Hypothesis select_desc_ok : forall q, exists l, db_select_desc q = Some l /\ l ≡ₚ q /\ StronglySorted sec_ge l.

#[local] Instance backend : HistoryBackend := sql_get_values db_select db_select_desc hk.
#[local] Instance backend_laws : HistoryLaws (visible hk) := sql_laws db_select db_select_desc hk select_ok select_desc_ok.

(** C1: the value cache is transparent: from any state in which the cached
    items hold what their tables hold, any sequence of requests, arriving
    values, removals, new items, statistics flushes and resets returns, call by
    call, what the tables alone answer, and the cached items keep holding what
    the tables hold, whatever is evicted and whichever allocations fail; the
    calls meet [calls_ok], and the storage is the SQL one over any database
    whose queries return the selected rows. *)
Theorem value_cache_transparent (t : tables) (c : vc_cache) (calls : list vc_call) :
  tables_ok (visible hk) t -> cache_ok t c -> calls_ok (visible hk) t c calls ->
  exists c', vc_run t c calls = Ret (fst (ref_run t calls), snd (ref_run t calls), c') /\
    cache_ok (snd (ref_run t calls)) c'.
Proof using select_ok select_desc_ok. intros Ht Hc. by apply (vc_run_ok calls t c Ht Hc). Qed.

(** C20: under conditions on the calls and the tables alone, which do not mention
    what is cached, every call from an empty cache is answered as the tables
    answer it, whatever is evicted and whichever allocations fail.  The tables
    have distinct timestamps between February 1970 and 2038, values of their
    type, less than 2^30 rows per item and none that the housekeeper should have
    removed; the storage is the SQL one over any database whose queries return
    the selected rows.  The conditions ([in_order]) are: each value that is
    written keeps the tables so and is in a later second than all values its
    item has; an item is announced as new only while its table is empty; the cache is not disabled; and each request, unless it
    is for binary values, is not for nothing, does not start before 1970, is for
    a time between February 1970 and 2038, and
    - by time alone, no value lies in the second at which it starts, or
    - with a count, no value lies past the requested time in its second, and it
      is for one value, or has no period, or its period starts at 0.
    Outside of these conditions the answers can differ, see the examples above. *)
Theorem value_cache_in_order (t : tables) (calls : list vc_call) :
  tables_ok (visible hk) t -> in_order (visible hk) t calls ->
  exists c', vc_run t fresh_cache calls = Ret (fst (ref_run t calls), snd (ref_run t calls), c').
Proof using select_ok select_desc_ok.
  intros Ht Hio.
  destruct (vc_run_ok calls t fresh_cache Ht (fresh_cache_ok t) (in_order_run calls t fresh_cache Ht (fresh_cache_ok t) eq_refl Hio))
    as (c' & E & _).
  by exists c'.
Qed.

(** C21: a request that goes past the cache reads exactly the values of its
    window, newest first, in one query when it is by time alone, and otherwise
    in several over growing periods with the last second read again.  Assumed
    are: the queries return the selected rows (newest first where they ask for
    it), the timestamps of the table are distinct and between February 1970 and
    2038, the housekeeper leaves no rows that the queries hide ([visible]), the
    request is not for nothing, does not start before 1970 and is for a time
    after February 1970; and for a request with a count, no value lies past the
    requested time in its second ([quiet]; otherwise the read may return too
    few values, see later_value_of_the_second). *)
Theorem history_sql_window (H : list hrec) (seconds count : Z) (ts : timespec) :
  hist_ok H -> visible hk H -> 0 <= seconds <= ts_sec ts -> 0 <= count -> 0 < seconds + count ->
  HIST_MIN <= ts_sec ts -> (count = 0 \/ quiet ts H) ->
  vc_db_get_values H seconds count ts = Ret (Some (window H seconds count ts)).
Proof using select_ok select_desc_ok.
  intros HH Hv Hs Hc Hsc Hts Hq. by apply (vc_db_get_values_window H HH Hv).
Qed.
End SqlCache.

(* ------------------------------------------------------------------ *)
(** ** Runs that meet the conditions *)

Lemma one_item_ok (l : list hrec) :
  hist_ok l -> small l -> all_typed ITEM_VALUE_TYPE_UINT64 l -> tables_ok (visible no_housekeeping) (one_item l).
Proof.
  intros Hl Hs Hty id vt. unfold one_item, table_set. case_decide as E.
  - destruct E as [_ ->]. by split_and!.
  - split_and!; [apply hist_ok_nil|done|done|constructor].
Qed.

Ltac ground := repeat first [split | constructor]; vm_compute; done.

Ltac bounds :=
  match goal with
  | |- _ <= _ => vm_compute; done
  | |- _ < _ => vm_compute; done
  | |- Forall _ _ => apply (bool_decide_unpack _); vm_compute; exact I
  | |- _ => idtac
  end.

Definition minute : list hrec := [rec_at (B + 80) 0; rec_at (B + 90) 0; rec_at (B + 100) 0; rec_at (B + 110) 0; rec_at (B + 120) 0].

Lemma minute_ok : tables_ok (visible no_housekeeping) (one_item minute).
Proof. apply one_item_ok; [ground|done|ground]. Qed.

Lemma history_sql_window_witness :
  @vc_db_get_values sql minute 0 3 (Timespec (B + 115) 0) = Ret (Some (window minute 0 3 (Timespec (B + 115) 0))).
Proof.
  apply (history_sql_window table_order clock_desc no_housekeeping table_order_ok clock_desc_ok); [ground|done|done|done|done|done|].
  right. unfold quiet. ground.
Defined.

(** One arriving value. *)
Lemma one_value (P : list dc_history -> dc_history -> Prop) (h : dc_history) :
  P [] h -> forall l1 h' l2, [h] = l1 ++ h' :: l2 -> P l1 h'.
Proof. intros HP [|x l1] h' l2 E; simplify_list_eq; [done|]. by destruct l1. Qed.

(** A request, a value, the same request later, a flush, the last two values,
    a reset and the request again. *)
Definition in_order_calls : list vc_call :=
  [get 30 0 (Timespec (B + 122) 0); add true (rec_at (B + 130) 7); get 36 0 (Timespec (B + 135) 0);
   VcCall VcFlush (B + 140) []; get 0 2 (Timespec (B + 141) 0); VcCall VcReset (B + 142) [];
   get 35 0 (Timespec (B + 136) 0)].

Lemma value_cache_in_order_witness :
  exists c', @vc_run sql (one_item minute) fresh_cache in_order_calls =
    Ret (fst (ref_run (one_item minute) in_order_calls), snd (ref_run (one_item minute) in_order_calls), c').
Proof.
  apply (value_cache_in_order table_order clock_desc no_housekeeping table_order_ok clock_desc_ok); [exact minute_ok|].
  cbn [in_order in_order_op in_order_calls get add c_op ref_step snd]. unfold request_ok, quiet.
  split_and!; try done.
  - intros _. split; [split_and!; bounds; by left|]. intros _. bounds.
  - apply one_value. unfold value_ok, fresh, small. split; [split_and!|]; bounds; done.
  - intros _. split; [split_and!; bounds; by left|]. intros _. bounds.
  - intros _. split; [|done]. split_and!; bounds. right. split; [bounds|by left].
  - intros _. split; [split_and!; bounds; by left|]. intros _. bounds.
Defined.

Lemma calls_ok_next `{HistoryBackend} (visible : list hrec -> Prop) (t t' : tables) (c c' : vc_cache) (call : vc_call) (a : vc_answer)
    (calls : list vc_call) :
  vc_step t c call = Ret (a, t', c') -> call_ok visible t c call -> calls_ok visible t' c' calls ->
  calls_ok visible t c (call :: calls).
Proof. intros E Hok Hrest. split; [done|]. intros a1 t1 c1 E1. rewrite E in E1. by injection E1 as <- <- <-. Qed.

(** The cache after a call. *)
Definition cache_after (t : tables) (c : vc_cache) (call : vc_call) : vc_cache :=
  match @vc_step sql t c call with Ret (_, _, c) => c | _ => fresh_cache end.

(** A value older than the cached ones, for an item read from the tables. *)
Definition late_calls : list vc_call :=
  [get 30 0 (Timespec (B + 122) 0); add true (rec_at (B + 85) 0); get 60 0 (Timespec (B + 135) 0)].

Lemma value_cache_transparent_witness :
  exists c', @vc_run sql (one_item minute) fresh_cache late_calls =
    Ret (fst (ref_run (one_item minute) late_calls), snd (ref_run (one_item minute) late_calls), c') /\
    cache_ok (snd (ref_run (one_item minute) late_calls)) c'.
Proof.
  apply (value_cache_transparent table_order clock_desc no_housekeeping table_order_ok clock_desc_ok);
    [exact minute_ok|apply fresh_cache_ok|].
  set (c1 := cache_after (one_item minute) fresh_cache (get 30 0 (Timespec (B + 122) 0))).
  set (t2 := write_history (one_item minute) [DcHistory 1 ITEM_VALUE_TYPE_UINT64 (rec_at (B + 85) 0) true]).
  apply (calls_ok_next _ _ (one_item minute) _ c1 _ (Values (Some (window minute 30 0 (Timespec (B + 122) 0)))));
    [vm_compute; reflexivity| |].
  { intros _. split; [unfold request_ok; split_and!; bounds; by left|]. intros _ it E.
    cbn [items fresh_cache] in E. by rewrite lookup_empty in E. }
  apply (calls_ok_next _ _ t2 _ (cache_after (one_item minute) c1 (add true (rec_at (B + 85) 0))) _ (Added true));
    [vm_compute; reflexivity| |].
  { cbn [call_ok arrivals_ok c_op add]. change (vc_enabled c1) with true. cbn [arrivals_ok]. split_and!.
    - unfold value_ok, fresh, small. split_and!; bounds; done.
    - intros it E _. vm_compute in E. injection E as <-. split; [by intros ?|]. left. done.
    - done. }
  split; [|done]. intros _. split; [unfold request_ok; split_and!; bounds; by left|]. intros _ it E. vm_compute in E.
  injection E as <-. vm_compute. intros E. discriminate E.
Defined.
