(* ===== verification/PbBuffer.v ===== *)
(** The proxy buffer (zbxproxybuffer): the rows of history, discovery and
    autoregistration kept in memory or in the database, and the operations made
    on them with the buffer locked.  The three kinds of rows have the same code
    in pb_history.c, pb_discovery.c and pb_autoreg.c; it is written here once,
    over the kind. *)

From Stdlib Require Import ZArith Lia.
From S2P Require Import Prelude Shmem.
From stdpp Require Import base list numbers.

Open Scope Z_scope.

(* ------------------------------------------------------------------ *)
(** ** Rows *)

(** Strings are lists of characters without the NUL. *)
Record zbx_pb_history := PbHistory {
  h_id : Z;
  h_itemid : Z;
  h_lastlogsize : Z;
  h_sec : Z;
  h_ns : Z;
  h_value : list Z;
  h_source : list Z;
  h_timestamp : Z;
  h_severity : Z;
  h_logeventid : Z;
  h_state : Z;
  h_mtime : Z;
  h_flags : Z;
  h_write_clock : Z
}.

Record zbx_pb_discovery := PbDiscovery {
  d_id : Z;
  d_druleid : Z;
  d_dcheckid : Z;
  d_handleid : Z;
  d_dns : list Z;
  d_ip : list Z;
  d_value : list Z;
  d_error : list Z;
  d_port : Z;
  d_clock : Z;
  d_status : Z
}.

Record zbx_pb_autoreg := PbAutoreg {
  a_id : Z;
  a_host : list Z;
  a_listen_ip : list Z;
  a_listen_dns : list Z;
  a_host_metadata : list Z;
  a_listen_port : Z;
  a_tls_accepted : Z;
  a_flags : Z;
  a_clock : Z
}.

Definition SIZEOF_HISTORY : Z := 80.
Definition SIZEOF_DISCOVERY : Z := 80.
Definition SIZEOF_AUTOREG : Z := 56.
Definition SIZEOF_LIST_ITEM : Z := 16.

Definition string_chunk (s : list Z) : Z := zbx_shmem_required_chunk_size (Z.of_nat (length s) + 1).

Definition pb_history_estimate_row_size (value source : list Z) : Z :=
  zbx_shmem_required_chunk_size SIZEOF_HISTORY + zbx_shmem_required_chunk_size SIZEOF_LIST_ITEM +
  string_chunk value + string_chunk source.

Definition pb_discovery_estimate_row_size (value ip dns error : list Z) : Z :=
  zbx_shmem_required_chunk_size SIZEOF_DISCOVERY + zbx_shmem_required_chunk_size SIZEOF_LIST_ITEM +
  string_chunk value + string_chunk ip + string_chunk dns + string_chunk error.

Definition pb_autoreg_estimate_row_size (host host_metadata ip dns : list Z) : Z :=
  zbx_shmem_required_chunk_size SIZEOF_AUTOREG + zbx_shmem_required_chunk_size SIZEOF_LIST_ITEM +
  string_chunk host + string_chunk host_metadata + string_chunk ip + string_chunk dns.

(** What the code that is common to the kinds uses of a row: its id, setting
    the id (and the handle, where there is one), the time that says how old it
    is, the clock that says which to drop first, its size. *)
Class PbRow (R : Type) := {
  row_id : R -> Z;
  set_row_id : Z -> Z -> R -> R;
  row_written : R -> Z;
  row_clock : R -> Z;
  row_size : R -> Z;
  row_id_set : forall id handle r, row_id (set_row_id id handle r) = id
}.

#[export] Instance history_row : PbRow zbx_pb_history.
Proof.
  refine {|
    row_id := h_id;
    set_row_id := fun id _ r =>
      PbHistory id (h_itemid r) (h_lastlogsize r) (h_sec r) (h_ns r) (h_value r) (h_source r) (h_timestamp r)
        (h_severity r) (h_logeventid r) (h_state r) (h_mtime r) (h_flags r) (h_write_clock r);
    row_written := h_write_clock;
    row_clock := h_sec;
    row_size := fun r => pb_history_estimate_row_size (h_value r) (h_source r) |}.
  done.
Defined.

#[export] Instance discovery_row : PbRow zbx_pb_discovery.
Proof.
  refine {|
    row_id := d_id;
    set_row_id := fun id handle r =>
      PbDiscovery id (d_druleid r) (d_dcheckid r) handle (d_dns r) (d_ip r) (d_value r) (d_error r) (d_port r)
        (d_clock r) (d_status r);
    row_written := d_clock;
    row_clock := d_clock;
    row_size := fun r => pb_discovery_estimate_row_size (d_value r) (d_ip r) (d_dns r) (d_error r) |}.
  done.
Defined.

#[export] Instance autoreg_row : PbRow zbx_pb_autoreg.
Proof.
  refine {|
    row_id := a_id;
    set_row_id := fun id _ r =>
      PbAutoreg id (a_host r) (a_listen_ip r) (a_listen_dns r) (a_host_metadata r) (a_listen_port r)
        (a_tls_accepted r) (a_flags r) (a_clock r);
    row_written := a_clock;
    row_clock := a_clock;
    row_size := fun r => pb_autoreg_estimate_row_size (a_host r) (a_host_metadata r) (a_listen_ip r) (a_listen_dns r) |}.
  done.
Defined.

(* ------------------------------------------------------------------ *)
(** ** State *)

Inductive kind := KHistory | KDiscovery | KAutoreg.

#[export] Instance kind_eq_dec : EqDecision kind.
Proof. solve_decision. Defined.

Definition row_of (k : kind) : Type :=
  match k with
  | KHistory => zbx_pb_history
  | KDiscovery => zbx_pb_discovery
  | KAutoreg => zbx_pb_autoreg
  end.

#[export] Instance row_of_row (k : kind) : PbRow (row_of k).
Proof. destruct k; [exact history_row|exact discovery_row|exact autoreg_row]. Defined.

Inductive zbx_pb_state_t := PB_DATABASE | PB_DATABASE_MEMORY | PB_MEMORY | PB_MEMORY_DATABASE.
Inductive zbx_pb_mode := ZBX_PB_MODE_DISK | ZBX_PB_MODE_MEMORY | ZBX_PB_MODE_HYBRID.

#[export] Instance pb_state_eq_dec : EqDecision zbx_pb_state_t.
Proof. solve_decision. Defined.
#[export] Instance pb_mode_eq_dec : EqDecision zbx_pb_mode.
Proof. solve_decision. Defined.

(** Where new data goes, and where the data to be sent is. *)
Definition get_pb_dst (s : zbx_pb_state_t) : zbx_pb_state_t :=
  match s with PB_DATABASE | PB_MEMORY_DATABASE => PB_DATABASE | PB_DATABASE_MEMORY | PB_MEMORY => PB_MEMORY end.
Definition get_pb_src (s : zbx_pb_state_t) : zbx_pb_state_t :=
  match s with PB_DATABASE | PB_DATABASE_MEMORY => PB_DATABASE | PB_MEMORY | PB_MEMORY_DATABASE => PB_MEMORY end.

(** The fields of zbx_pb_t that each kind has. *)
Record chan (R : Type) := Chan { rows : list R; lastid_sent : Z; lastid_db : Z }.
Arguments Chan {R} _ _ _.
Arguments rows {R} _.
Arguments lastid_sent {R} _.
Arguments lastid_db {R} _.

Record zbx_pb := Pb {
  history : chan zbx_pb_history;
  discovery : chan zbx_pb_discovery;
  autoreg : chan zbx_pb_autoreg;
  mode : zbx_pb_mode;
  state : zbx_pb_state_t;
  db_handles_num : Z;
  max_age : Z;
  offline_buffer : Z;
  changes_num : Z;
  history_lastid_mem : Z;
  handleid : Z;
  history_handleids : list Z
}.

Definition get_chan (k : kind) (pb : zbx_pb) : chan (row_of k) :=
  match k with KHistory => history pb | KDiscovery => discovery pb | KAutoreg => autoreg pb end.

Definition set_chan (k : kind) (pb : zbx_pb) : chan (row_of k) -> zbx_pb :=
  match k return chan (row_of k) -> zbx_pb with
  | KHistory => fun c =>
    Pb c (discovery pb) (autoreg pb) (mode pb) (state pb) (db_handles_num pb) (max_age pb) (offline_buffer pb)
      (changes_num pb) (history_lastid_mem pb) (handleid pb) (history_handleids pb)
  | KDiscovery => fun c =>
    Pb (history pb) c (autoreg pb) (mode pb) (state pb) (db_handles_num pb) (max_age pb) (offline_buffer pb)
      (changes_num pb) (history_lastid_mem pb) (handleid pb) (history_handleids pb)
  | KAutoreg => fun c =>
    Pb (history pb) (discovery pb) c (mode pb) (state pb) (db_handles_num pb) (max_age pb) (offline_buffer pb)
      (changes_num pb) (history_lastid_mem pb) (handleid pb) (history_handleids pb)
  end.

Definition mem_rows (k : kind) (pb : zbx_pb) : list (row_of k) := rows (get_chan k pb).
Definition set_rows (k : kind) (l : list (row_of k)) (pb : zbx_pb) : zbx_pb :=
  let c := get_chan k pb in set_chan k pb (Chan l (lastid_sent c) (lastid_db c)).
Definition set_sent (k : kind) (id : Z) (pb : zbx_pb) : zbx_pb :=
  let c := get_chan k pb in set_chan k pb (Chan (rows c) id (lastid_db c)).
Definition set_db (k : kind) (id : Z) (pb : zbx_pb) : zbx_pb :=
  let c := get_chan k pb in set_chan k pb (Chan (rows c) (lastid_sent c) id).

Definition set_state (s : zbx_pb_state_t) (n : Z) (pb : zbx_pb) : zbx_pb :=
  Pb (history pb) (discovery pb) (autoreg pb) (mode pb) s (db_handles_num pb) (max_age pb) (offline_buffer pb)
    n (history_lastid_mem pb) (handleid pb) (history_handleids pb).
Definition add_db_handles (n : Z) (pb : zbx_pb) : zbx_pb :=
  Pb (history pb) (discovery pb) (autoreg pb) (mode pb) (state pb) (db_handles_num pb + n) (max_age pb) (offline_buffer pb)
    (changes_num pb) (history_lastid_mem pb) (handleid pb) (history_handleids pb).
Definition set_lastid_mem (id : Z) (pb : zbx_pb) : zbx_pb :=
  Pb (history pb) (discovery pb) (autoreg pb) (mode pb) (state pb) (db_handles_num pb) (max_age pb) (offline_buffer pb)
    (changes_num pb) id (handleid pb) (history_handleids pb).
Definition set_handles (id : Z) (l : list Z) (pb : zbx_pb) : zbx_pb :=
  Pb (history pb) (discovery pb) (autoreg pb) (mode pb) (state pb) (db_handles_num pb) (max_age pb) (offline_buffer pb)
    (changes_num pb) (history_lastid_mem pb) id l.

(** The tables of the proxy, and the ids of the last uploaded rows it keeps in
    the table ids; 0 when there is none. *)
Record database := Db {
  proxy_history : list zbx_pb_history;
  proxy_dhistory : list zbx_pb_discovery;
  proxy_autoreg_host : list zbx_pb_autoreg;
  ids : kind -> Z
}.

Definition get_table (k : kind) (db : database) : list (row_of k) :=
  match k with KHistory => proxy_history db | KDiscovery => proxy_dhistory db | KAutoreg => proxy_autoreg_host db end.

Definition set_table (k : kind) (db : database) : list (row_of k) -> database :=
  match k return list (row_of k) -> database with
  | KHistory => fun l => Db l (proxy_dhistory db) (proxy_autoreg_host db) (ids db)
  | KDiscovery => fun l => Db (proxy_history db) l (proxy_autoreg_host db) (ids db)
  | KAutoreg => fun l => Db (proxy_history db) (proxy_dhistory db) l (ids db)
  end.

(** pb_set_lastid. *)
Definition pb_set_lastid (k : kind) (lastid : Z) (db : database) : database :=
  Db (proxy_history db) (proxy_dhistory db) (proxy_autoreg_host db)
    (fun k' => if decide (k' = k) then lastid else ids db k').

Definition pb_get_lastid (k : kind) (db : database) : Z := ids db k.

(* ------------------------------------------------------------------ *)
(** ** Operations on the lists of rows *)

(** pb_history_clear, pb_discovery_clear, pb_autoreg_clear. *)
Fixpoint clear_rows {R : Type} `{PbRow R} (lastid : Z) (l : list R) : list R :=
  match l with
  | [] => []
  | row :: l' => if lastid <? row_id row then l else clear_rows lastid l'
  end.

Definition pb_clear (k : kind) (lastid : Z) (pb : zbx_pb) : zbx_pb :=
  set_rows k (clear_rows lastid (mem_rows k pb)) pb.

Definition pb_history_clear : Z -> zbx_pb -> zbx_pb := pb_clear KHistory.
Definition pb_discovery_clear : Z -> zbx_pb -> zbx_pb := pb_clear KDiscovery.
Definition pb_autoreg_clear : Z -> zbx_pb -> zbx_pb := pb_clear KAutoreg.

(** pb_history_has_mem_rows and its like. *)
Definition pb_has_mem_rows (k : kind) (pb : zbx_pb) : bool :=
  match mem_rows k pb with [] => false | _ => true end.

(** pb_history_check_age and its like: rows beyond the offline buffer go; the
    oldest that is left must be younger than the maximum age.  [now] and
    [now'] are the two times the clock is read. *)
Fixpoint expire_rows {R : Type} `{PbRow R} (now offline : Z) (l : list R) : list R :=
  match l with
  | [] => []
  | row :: l' => if now - row_written row <=? offline then l else expire_rows now offline l'
  end.

Definition pb_check_age (k : kind) (now now' : Z) (pb : zbx_pb) : bool * zbx_pb :=
  let pb := set_rows k (expire_rows now (offline_buffer pb) (mem_rows k pb)) pb in
  if max_age pb =? 0 then (true, pb)
  else
    match mem_rows k pb with
    | [] => (true, pb)
    | row :: _ => (now' - row_written row <? max_age pb, pb)
    end.

Definition pb_history_check_age : Z -> Z -> zbx_pb -> bool * zbx_pb := pb_check_age KHistory.
Definition pb_discovery_check_age : Z -> Z -> zbx_pb -> bool * zbx_pb := pb_check_age KDiscovery.
Definition pb_autoreg_check_age : Z -> Z -> zbx_pb -> bool * zbx_pb := pb_check_age KAutoreg.

(** pb_free_space: what goes first is the row with the oldest clock; history
    wins over discovery on a tie, and both over autoregistration.  The rows of
    a discovery handle go together. *)
Fixpoint drop_handle (handle : Z) (l : list zbx_pb_discovery) (size_left : Z) : list zbx_pb_discovery * Z :=
  match l with
  | [] => ([], size_left)
  | row :: l' =>
    if d_handleid row =? handle then drop_handle handle l' (size_left - row_size row) else (l, size_left)
  end.

Definition INT_MAX : Z := 2 ^ 31 - 1.

Inductive victim :=
  | FreeHistory (row : zbx_pb_history) (rest : list zbx_pb_history)
  | FreeDiscovery (row : zbx_pb_discovery) (rest : list zbx_pb_discovery)
  | FreeAutoreg (row : zbx_pb_autoreg) (rest : list zbx_pb_autoreg)
  | FreeNothing.

Definition choose_victim (pb : zbx_pb) : victim :=
  let '(v, clock) :=
    match rows (history pb) with
    | row :: rest => (FreeHistory row rest, row_clock row)
    | [] => (FreeNothing, INT_MAX)
    end in
  let '(v, clock) :=
    match rows (discovery pb) with
    | row :: rest => if row_clock row <? clock then (FreeDiscovery row rest, row_clock row) else (v, clock)
    | [] => (v, clock)
    end in
  match rows (autoreg pb) with
  | row :: rest => if row_clock row <? clock then FreeAutoreg row rest else v
  | [] => v
  end.

Fixpoint free_space_loop (fuel : nat) (size_left : Z) (pb : zbx_pb) : res (bool * zbx_pb) :=
  match fuel with
  | O => NoFuel
  | S fuel =>
    if 0 <? size_left then
      match choose_victim pb with
      | FreeAutoreg row rest => free_space_loop fuel (size_left - row_size row) (set_rows KAutoreg rest pb)
      | FreeHistory row rest => free_space_loop fuel (size_left - row_size row) (set_rows KHistory rest pb)
      | FreeDiscovery row rest =>
        let '(rest, size_left) := drop_handle (d_handleid row) rest (size_left - row_size row) in
        free_space_loop fuel size_left (set_rows KDiscovery rest pb)
      | FreeNothing => Ret (false, pb)
      end
    else Ret (true, pb)
  end.

(** The number of rows in memory, which bounds the loops that free them. *)
Definition mem_rows_num (pb : zbx_pb) : nat :=
  (length (rows (history pb)) + length (rows (discovery pb)) + length (rows (autoreg pb)))%nat.

Definition pb_free_space (size : Z) (pb : zbx_pb) : res (bool * zbx_pb) :=
  free_space_loop (2 + mem_rows_num pb) size pb.

(* ------------------------------------------------------------------ *)
(** ** Adding rows *)

(** Whether the allocations for the rows to come succeed; those that are not
    planned do. *)
Definition next_alloc (plan : list bool) : bool * list bool :=
  match plan with [] => (true, []) | b :: plan => (b, plan) end.

Definition push_row (k : kind) (row : row_of k) (pb : zbx_pb) : zbx_pb :=
  let pb := set_rows k (mem_rows k pb ++ [row]) pb in
  match k with
  | KHistory => set_lastid_mem (row_id row) pb
  | _ => pb
  end.

(** pb_history_add_row_mem, pb_discovery_add_row_mem. *)
Definition pb_add_row_mem (k : kind) (row : row_of k) (pb : zbx_pb) (plan : list bool) : bool * zbx_pb * list bool :=
  let '(ok, plan) := next_alloc plan in
  if ok then (true, push_row k row pb, plan) else (false, pb, plan).

(** What becomes of a row: in memory; not added, for want of space; not
    added, being larger than all of the memory. *)
Inductive added := Stored | NoSpace | TooLarge.

(** The loop that adds one row, discarding old ones in memory mode; [size] is
    0 until a row did not fit, and then stays that row's. *)
Fixpoint store_loop (fuel : nat) (k : kind) (row : row_of k) (size : Z) (pb : zbx_pb) (plan : list bool)
    : res (added * Z * zbx_pb * list bool) :=
  match fuel with
  | O => NoFuel
  | S fuel =>
    match pb_add_row_mem k row pb plan with
    | (true, pb, plan) => Ret (Stored, size, pb, plan)
    | (false, pb, plan) =>
      if negb (bool_decide (mode pb = ZBX_PB_MODE_MEMORY)) then Ret (NoSpace, size, pb, plan)
      else
        let size := if 0 =? size then row_size row else size in
        r ← pb_free_space size pb;
        match r with
        | (true, pb) => store_loop fuel k row size pb plan
        | (false, pb) => Ret (TooLarge, size, pb, plan)
        end
    end
  end.

Definition store_row (k : kind) (row : row_of k) (size : Z) (pb : zbx_pb) (plan : list bool)
    : res (added * Z * zbx_pb * list bool) :=
  store_loop (2 + mem_rows_num pb) k row size pb plan.

(** pb_history_add_rows_mem, pb_discovery_add_rows_mem: the rows that were not
    reached, starting with the one that did not fit; none when all were. *)
Fixpoint add_rows_loop (k : kind) (l : list (row_of k)) (size : Z) (pb : zbx_pb) (plan : list bool)
    : res (list (row_of k) * zbx_pb * list bool) :=
  match l with
  | [] => Ret ([], pb, plan)
  | row :: l' =>
    r ← store_row k row size pb plan;
    match r with
    | (NoSpace, _, pb, plan) => Ret (l, pb, plan)
    | (_, size, pb, plan) => add_rows_loop k l' size pb plan
    end
  end.

Definition pb_add_rows_mem (k : kind) (pb : zbx_pb) (l : list (row_of k)) (plan : list bool)
    : res (list (row_of k) * zbx_pb * list bool) :=
  add_rows_loop k l 0 pb plan.

Definition pb_history_add_rows_mem := pb_add_rows_mem KHistory.
Definition pb_discovery_add_rows_mem := pb_add_rows_mem KDiscovery.

(** pb_history_set_row_ids, pb_discovery_set_row_ids: consecutive ids from
    [id] on. *)
Fixpoint pb_set_row_ids {R : Type} `{PbRow R} (id handle : Z) (l : list R) : list R :=
  match l with
  | [] => []
  | row :: l => set_row_id id handle row :: pb_set_row_ids (id + 1) handle l
  end.

(** pb_history_add_rows_db, pb_discovery_add_rows_db: the rows go to the table
    and the last of them gives the id; no rows leave it 0. *)
Definition pb_add_rows_db (k : kind) (l : list (row_of k)) (db : database) : database :=
  set_table k db (get_table k db ++ l).

Definition last_row_id {R : Type} `{PbRow R} (l : list R) : Z :=
  match list.last l with Some row => row_id row | None => 0 end.

Definition pb_history_add_rows_db := pb_add_rows_db KHistory.
Definition pb_discovery_add_rows_db := pb_add_rows_db KDiscovery.

(* ------------------------------------------------------------------ *)
(** ** Changes of state *)

(** pb_set_state. *)
Definition pb_set_state (s : zbx_pb_state_t) (pb : zbx_pb) : zbx_pb :=
  set_state s
    (match state pb with PB_DATABASE | PB_MEMORY => u64 (changes_num pb + 1) | _ => changes_num pb end) pb.

(** The largest id known to be in the database. *)
Definition raise_db (k : kind) (lastid : Z) (pb : zbx_pb) : zbx_pb :=
  if lastid_db (get_chan k pb) <? lastid then set_db k lastid pb else pb.

(** pb_history_flush, pb_discovery_flush, pb_autoreg_flush, inside a
    transaction. *)
Definition pb_flush_kind (k : kind) (pb : zbx_pb) (db : database) : zbx_pb * database :=
  (raise_db k (last_row_id (mem_rows k pb)) pb, pb_add_rows_db k (mem_rows k pb) db).

Definition pb_history_flush := pb_flush_kind KHistory.
Definition pb_discovery_flush := pb_flush_kind KDiscovery.
Definition pb_autoreg_flush := pb_flush_kind KAutoreg.

(** pb_flush_lastids. *)
Definition flush_lastid (k : kind) (pb : zbx_pb) (db : database) : database :=
  let id := lastid_sent (get_chan k pb) in if id =? 0 then db else pb_set_lastid k id db.

Definition pb_flush_lastids (pb : zbx_pb) (db : database) : database :=
  flush_lastid KAutoreg pb (flush_lastid KDiscovery pb (flush_lastid KHistory pb db)).

Definition UINT64_MAX : Z := 2 ^ 64 - 1.

(** What zbx_db_commit returns: the transaction is committed; it failed; or
    the database is down, and the transaction is to be made again. *)
Inductive commit_result := DB_OK | DB_FAIL | DB_DOWN.

#[export] Instance commit_result_eq_dec : EqDecision commit_result.
Proof. solve_decision. Defined.

(** The outcome of a transaction that is made again while the database is
    down, by what the commits return one after the other; none while it has
    not answered. *)
Fixpoint commit_outcome (commits : list commit_result) : option bool :=
  match commits with
  | [] => None
  | DB_OK :: _ => Some true
  | DB_FAIL :: _ => Some false
  | DB_DOWN :: commits => commit_outcome commits
  end.

(** The body of the transaction of pb_flush. *)
Definition flush_kinds (pb : zbx_pb) (db : database) : zbx_pb * database :=
  let '(pb, db) := pb_autoreg_flush pb db in
  let '(pb, db) := pb_discovery_flush pb db in
  let '(pb, db) := pb_history_flush pb db in
  (pb, pb_flush_lastids pb db).

(** The loop of pb_flush; it goes on as long as the database is down. *)
Fixpoint flush_loop (commits : list commit_result) (pb : zbx_pb) (db : database) : res (zbx_pb * database) :=
  match commits with
  | [] => NoFuel
  | commit :: commits =>
    let '(pb, db') := flush_kinds pb db in
    match commit with
    | DB_OK => Ret (pb, db')
    | DB_FAIL => Ret (pb, db)
    | DB_DOWN => flush_loop commits pb db
    end
  end.

(** pb_flush. *)
Definition pb_flush (commits : list commit_result) (pb : zbx_pb) (db : database) : res (zbx_pb * database) :=
  '(pb, db) ←
    if negb (bool_decide (mode pb = ZBX_PB_MODE_MEMORY)) &&
       (pb_has_mem_rows KHistory pb || pb_has_mem_rows KDiscovery pb || pb_has_mem_rows KAutoreg pb)
    then flush_loop commits pb db
    else Ret (pb, db);
  Ret (pb_autoreg_clear UINT64_MAX (pb_discovery_clear UINT64_MAX (pb_history_clear UINT64_MAX pb)), db).

(** pd_fallback_to_database. *)
Definition pd_fallback_to_database (commits : list commit_result) (pb : zbx_pb) (db : database) : res (zbx_pb * database) :=
  '(pb, db) ← pb_flush commits pb db; Ret (pb_set_state PB_DATABASE pb, db).

(** Nothing of a kind is left in the database to send. *)
Definition kind_uploaded (k : kind) (pb : zbx_pb) : bool :=
  lastid_db (get_chan k pb) <=? lastid_sent (get_chan k pb).

(** pb_update_state, after an upload; [more] is ZBX_PROXY_DATA_MORE and [ok]
    the outcome of the transaction that stores the last ids. *)
Definition pb_update_state (more ok : bool) (pb : zbx_pb) (db : database) : zbx_pb * database :=
  if negb (bool_decide (mode pb = ZBX_PB_MODE_HYBRID)) then (pb, db)
  else
    match state pb with
    | PB_MEMORY => (pb, db)
    | PB_MEMORY_DATABASE =>
      if negb (pb_has_mem_rows KHistory pb) && negb (pb_has_mem_rows KDiscovery pb) && negb (pb_has_mem_rows KAutoreg pb)
      then (pb_set_state PB_DATABASE pb, if ok then pb_flush_lastids pb db else db)
      else (pb, db)
    | PB_DATABASE => if more then (pb, db) else (pb_set_state PB_DATABASE_MEMORY pb, db)
    | PB_DATABASE_MEMORY =>
      if (0 =? db_handles_num pb) && kind_uploaded KHistory pb && kind_uploaded KDiscovery pb && kind_uploaded KAutoreg pb
      then (pb_set_state PB_MEMORY pb, db)
      else (pb, db)
    end.

(** zbx_pb_disable. *)
Definition zbx_pb_disable (pb : zbx_pb) : zbx_pb :=
  if bool_decide (mode pb = ZBX_PB_MODE_HYBRID) then
    let pb := set_state PB_DATABASE (changes_num pb) pb in
    Pb (history pb) (discovery pb) (autoreg pb) ZBX_PB_MODE_DISK (state pb) (db_handles_num pb) (max_age pb)
      (offline_buffer pb) (changes_num pb) (history_lastid_mem pb) (handleid pb) (history_handleids pb)
  else pb.

(** zbx_pb_history_get_unsent_num. *)
Definition zbx_pb_history_get_unsent_num (pb : zbx_pb) : Z :=
  let lastid_sent := lastid_sent (history pb) in
  let lastid := Z.max (lastid_db (history pb)) (history_lastid_mem pb) in
  if lastid_sent <? lastid then lastid - lastid_sent else 0.

(** zbx_pb_get_state_info: whether new data goes to memory, and the changes. *)
Definition zbx_pb_get_state_info (pb : zbx_pb) : Z * Z :=
  if bool_decide (mode pb = ZBX_PB_MODE_DISK) then (0, 0)
  else (if bool_decide (get_pb_dst (state pb) = PB_MEMORY) then 1 else 0, changes_num pb).

(* ------------------------------------------------------------------ *)
(** ** Handles *)

Definition pb_get_next_handleid (pb : zbx_pb) : Z * zbx_pb :=
  let id := u64 (handleid pb + 1) in (id, set_handles id (history_handleids pb) pb).

(** pb_register_handle. *)
Definition pb_register_handle (pb : zbx_pb) : Z * zbx_pb :=
  let '(id, pb) := pb_get_next_handleid pb in (id, set_handles id (history_handleids pb ++ [id]) pb).

(** zbx_vector_uint64_remove_noorder: the last element takes the place. *)
Fixpoint remove_noorder (id last : Z) (l : list Z) : list Z :=
  match l with
  | [] => []
  | x :: l' =>
    if x =? id then match l' with [] => [] | _ => last :: removelast l' end
    else x :: remove_noorder id last l'
  end.

(** pb_deregister_handle. *)
Definition pb_deregister_handle (id : Z) (pb : zbx_pb) : zbx_pb :=
  let l := history_handleids pb in set_handles (handleid pb) (remove_noorder id (List.last l 0) l) pb.

(** The two conditions of pb_wait_handles: the largest handle to wait for, and
    whether it or an older one is still open. *)
Definition newest_handle (handleids : list Z) : Z := foldr Z.max 0 handleids.
Definition wait_over (upto : Z) (handleids : list Z) : bool := forallb (fun h => upto <? h) handleids.
