(* ===== verification/PbExport.v ===== *)
(** Taking rows of the proxy buffer for an upload: the rows in memory, or
    those selected from the tables, written to a JSON packet until it is large
    enough (pb_history.c, pb_discovery.c, pb_autoreg.c, proxybuffer.c). *)

From Stdlib Require Import ZArith Lia.
From S2P Require Import Prelude JsonString JsonWriter JsonParse JsonSession PbBuffer.
From stdpp Require Import base list numbers strings sorting.

Open Scope Z_scope.

Definition ZBX_MAX_HRECORDS : Z := 1000.
Definition ZBX_MAX_HRECORDS_TOTAL : Z := 10000.
Definition ZBX_MAX_RECV_DATA_SIZE : Z := 2 ^ 30.
Definition ZBX_DATA_JSON_RESERVED : Z := 65535 * 4 + 1024 * 4.
Definition ZBX_DATA_JSON_RECORD_LIMIT : Z := ZBX_MAX_RECV_DATA_SIZE - ZBX_DATA_JSON_RESERVED.
Definition ZBX_DATA_JSON_BATCH_LIMIT : Z := (ZBX_MAX_RECV_DATA_SIZE - ZBX_DATA_JSON_RESERVED) / 2.

Definition ZBX_PROXY_HISTORY_FLAG_META : Z := 1.
Definition ZBX_PROXY_HISTORY_FLAG_NOVALUE : Z := 2.
Definition ZBX_PROXY_HISTORY_MASK_NOVALUE : Z := Z.lor ZBX_PROXY_HISTORY_FLAG_META ZBX_PROXY_HISTORY_FLAG_NOVALUE.

(* ------------------------------------------------------------------ *)
(** ** Rows as JSON *)

Definition tag (s : string) : option (list Z) := Some (bytes_of s).

(** The row only tells that the item was polled. *)
Definition novalue (row : zbx_pb_history) : bool :=
  Z.land (h_flags row) ZBX_PROXY_HISTORY_MASK_NOVALUE =? ZBX_PROXY_HISTORY_FLAG_NOVALUE.

Definition put_int (name : string) (v : Z) : list wop := [WInt64 (tag name) v].
Definition put_uint (name : string) (v : Z) : list wop := [WUint64 (tag name) v].
Definition put_string (name : string) (s : list Z) : list wop := [WString (tag name) (Some s) ZBX_JSON_TYPE_STRING 0].
Definition unless (b : bool) (ops : list wop) : list wop := if b then [] else ops.

(** The writer's calls for one row in pb_history_export: the fields of the
    object, and all of it. *)
Definition history_fields (row : zbx_pb_history) : list wop :=
  put_uint "id" (h_id row) ++ put_uint "itemid" (h_itemid row) ++
  put_int "clock" (h_sec row) ++ put_int "ns" (h_ns row) ++
  unless (novalue row)
    (unless (h_state row =? 0) (put_int "state" (h_state row)) ++
     unless (negb (Z.land (h_flags row) ZBX_PROXY_HISTORY_FLAG_NOVALUE =? 0))
       (unless (h_timestamp row =? 0) (put_int "timestamp" (h_timestamp row)) ++
        unless (bool_decide (h_source row = [])) (put_string "source" (h_source row)) ++
        unless (h_severity row =? 0) (put_int "severity" (h_severity row)) ++
        unless (h_logeventid row =? 0) (put_int "eventid" (h_logeventid row)) ++
        put_string "value" (h_value row)) ++
     unless (Z.land (h_flags row) ZBX_PROXY_HISTORY_FLAG_META =? 0)
       (put_uint "lastlogsize" (h_lastlogsize row) ++ put_int "mtime" (h_mtime row))).

Definition history_ops (row : zbx_pb_history) : list wop := [WOpen true None] ++ history_fields row ++ [WClose].

(** pb_add_json_field: values equal to the default of their column are left
    out. *)
Definition field_int (name : string) (default_value : option Z) (v : Z) : list wop :=
  unless (bool_decide (default_value = Some v)) (put_int name v).
Definition field_uint (name : string) (v : Z) : list wop := put_uint name v.
Definition field_char (name : string) (default_value : option (list Z)) (s : list Z) : list wop :=
  unless (bool_decide (default_value = Some s)) (put_string name s).

Definition discovery_ops (row : zbx_pb_discovery) : list wop :=
  [WOpen true None] ++
  field_int "clock" None (d_clock row) ++ field_uint "drule" (d_druleid row) ++ field_uint "dcheck" (d_dcheckid row) ++
  field_char "ip" None (d_ip row) ++ field_char "dns" (Some []) (d_dns row) ++ field_int "port" (Some 0) (d_port row) ++
  field_char "value" (Some []) (d_value row) ++ field_int "status" (Some 0) (d_status row) ++
  field_char "error" (Some []) (d_error row) ++
  [WClose].

Definition autoreg_ops (row : zbx_pb_autoreg) : list wop :=
  [WOpen true None] ++
  field_int "clock" None (a_clock row) ++ field_char "host" None (a_host row) ++
  field_char "ip" (Some []) (a_listen_ip row) ++ field_char "dns" (Some []) (a_listen_dns row) ++
  field_int "port" (Some 0) (a_listen_port row) ++ field_char "host_metadata" (Some []) (a_host_metadata row) ++
  field_int "flags" (Some 0) (a_flags row) ++ field_int "tls_accepted" (Some 0) (a_tls_accepted row) ++
  [WClose].

(** The same fields as the texts of a database row (pb_get_rows_db): name,
    text, how it is written, default. *)
Definition db_field (name : string) (text : list Z) (type : zbx_json_type_t) (default_value : option (list Z)) : list wop :=
  unless (bool_decide (default_value = Some text)) [WString (tag name) (Some text) type 0].

Definition db_int (name : string) (default_value : option (list Z)) (v : Z) : list wop :=
  db_field name (decimal_signed v) ZBX_JSON_TYPE_INT default_value.
Definition db_char (name : string) (default_value : option (list Z)) (s : list Z) : list wop :=
  db_field name s ZBX_JSON_TYPE_STRING default_value.

Definition discovery_db_ops (row : zbx_pb_discovery) : list wop :=
  db_int "clock" None (d_clock row) ++ db_int "drule" None (d_druleid row) ++ db_int "dcheck" None (d_dcheckid row) ++
  db_char "ip" None (d_ip row) ++ db_char "dns" (Some []) (d_dns row) ++
  db_int "port" (Some (bytes_of "0")) (d_port row) ++ db_char "value" (Some []) (d_value row) ++
  db_int "status" (Some (bytes_of "0")) (d_status row) ++ db_char "error" (Some []) (d_error row).

Definition autoreg_db_ops (row : zbx_pb_autoreg) : list wop :=
  db_int "clock" None (a_clock row) ++ db_char "host" None (a_host row) ++
  db_char "ip" (Some []) (a_listen_ip row) ++ db_char "dns" (Some []) (a_listen_dns row) ++
  db_int "port" (Some (bytes_of "0")) (a_listen_port row) ++ db_char "host_metadata" (Some []) (a_host_metadata row) ++
  db_int "flags" (Some (bytes_of "0")) (a_flags row) ++ db_int "tls_accepted" (Some (bytes_of "0")) (a_tls_accepted row).

(* ------------------------------------------------------------------ *)
(** ** History *)

(** What has been taken so far: the packet, the number of records in it, the
    id of the last row looked at, and the rows that are in the packet. *)
Record packet := Packet { p_json : zbx_json; p_records : Z; p_lastid : Z; p_sent : list zbx_pb_history }.

(** From the newest row on: of the rows of an item that have no value only the
    newest is kept. *)
Fixpoint filter_novalue (seen : list Z) (newest_first : list zbx_pb_history) : list zbx_pb_history :=
  match newest_first with
  | [] => []
  | row :: l =>
    if novalue row then
      if decide (h_itemid row ∈ seen) then filter_novalue seen l
      else row :: filter_novalue (h_itemid row :: seen) l
    else row :: filter_novalue seen l
  end.

(** The array is opened before the first record. *)
Definition open_array (name : string) (records_num : Z) (j : zbx_json) : res zbx_json :=
  if records_num =? 0 then zbx_json_addarray j (tag name) else Ret j.

(** The loop of pb_history_export; [active] tells which items are enabled on
    a monitored host. *)
Fixpoint export_loop (active : Z -> bool) (p : packet) (l : list zbx_pb_history) : res packet :=
  match l with
  | [] => Ret p
  | row :: l =>
    if negb (active (h_itemid row)) then export_loop active (Packet (p_json p) (p_records p) (h_id row) (p_sent p)) l
    else
      j ← open_array "history data" (p_records p) (p_json p);
      j ← do_wops j (history_ops row);
      let p := Packet j (p_records p + 1) (h_id row) (p_sent p ++ [row]) in
      if ZBX_DATA_JSON_RECORD_LIMIT <? buffer_offset j then Ret p else export_loop active p l
  end.

Definition pb_history_export (active : Z -> bool) (p : packet) (l : list zbx_pb_history) : res packet :=
  export_loop active p (reverse (filter_novalue [] (reverse l))).

(** The array is closed if it was opened. *)
Definition close_array (p : packet) : packet :=
  Packet (if p_records p =? 0 then p_json p else default (p_json p) (zbx_json_close (p_json p)))
    (p_records p) (p_lastid p) (p_sent p).

(** pb_history_get_mem; the flag is ZBX_PROXY_DATA_MORE. *)
Fixpoint get_mem_loop (fuel : nat) (active : Z -> bool) (p : packet) (l : list zbx_pb_history) : res (packet * bool) :=
  match fuel with
  | O => NoFuel
  | S fuel =>
    let batch := take (Z.to_nat ZBX_MAX_HRECORDS) l in
    p ← pb_history_export active p batch;
    if negb (Z.of_nat (length batch) =? ZBX_MAX_HRECORDS) then Ret (p, false)
    else if (ZBX_DATA_JSON_BATCH_LIMIT <=? buffer_offset (p_json p)) || (ZBX_MAX_HRECORDS_TOTAL <=? p_records p)
    then Ret (p, true)
    else get_mem_loop fuel active p (drop (Z.to_nat ZBX_MAX_HRECORDS) l)
  end.

Definition pb_history_get_mem (active : Z -> bool) (pb : zbx_pb) (j : zbx_json) : res (packet * bool) :=
  match rows (history pb) with
  | [] => Ret (Packet j 0 0 [], false)
  | l =>
    r ← get_mem_loop (S (length l)) active (Packet j 0 0 []) l;
    match r with (p, more) => Ret (close_array p, more) end
  end.

(** The rows of a select with an id above [id], by id. *)
Definition id_le {R : Type} `{PbRow R} (a b : R) : Prop := row_id a <= row_id b.
#[export] Instance id_le_dec {R : Type} `{PbRow R} (a b : R) : Decision (id_le a b).
Proof. apply Z_le_dec. Defined.

Definition select_rows {R : Type} `{PbRow R} (id limit : Z) (table : list R) : list R :=
  take (Z.to_nat limit) (merge_sort id_le (filter (fun r => id < row_id r) table)).

(** The rows of one select in pb_history_get_rows_db, up to a gap in the ids
    that has not been waited for; with the id behind the gap. *)
Fixpoint scan_rows (lastid gapid : Z) (got : list zbx_pb_history) (l : list zbx_pb_history)
    : list zbx_pb_history * Z * option Z :=
  match l with
  | [] => (got, lastid, None)
  | row :: l =>
    if (1 <? h_id row - lastid) && negb (h_id row =? gapid) then (got, lastid, Some (h_id row))
    else scan_rows (h_id row) gapid (got ++ [row]) l
  end.

(** The loop of pb_history_get_db after a batch has been read: to stop, with
    the flag, or to go on after an id. *)
Definition get_db_again (p : packet) : bool :=
  (buffer_offset (p_json p) <? ZBX_DATA_JSON_BATCH_LIMIT) && (p_records p <? ZBX_MAX_HRECORDS_TOTAL).

Definition after_batch (active : Z -> bool) (p : packet) (batch : list zbx_pb_history) : res (packet * (bool + Z)) :=
  let more := Z.of_nat (length batch) =? ZBX_MAX_HRECORDS in
  if bool_decide (batch = []) then Ret (close_array p, inl false)
  else
    p ← pb_history_export active p batch;
    if Z.of_nat (length batch) <? ZBX_MAX_HRECORDS then Ret (close_array p, inl more)
    else if get_db_again p then Ret (p, inr (p_lastid p)) else Ret (close_array p, inl more).

(* ------------------------------------------------------------------ *)
(** ** Discovery and autoregistration *)

(** pb_discovery_get_mem, pb_autoreg_get_mem: the packet, the number of
    records, the id of the last one, and ZBX_PROXY_DATA_MORE. *)
Fixpoint rows_mem_loop {R : Type} `{PbRow R} (ops : R -> list wop) (l : list R) (j : zbx_json) (records_num lastid : Z)
    : res (zbx_json * Z * Z * bool) :=
  match l with
  | [] => Ret (j, records_num, lastid, false)
  | row :: l =>
    if (ZBX_DATA_JSON_BATCH_LIMIT <=? buffer_offset j) || (ZBX_MAX_HRECORDS_TOTAL <=? records_num)
    then Ret (j, records_num, lastid, true)
    else j ← do_wops j (ops row); rows_mem_loop ops l j (records_num + 1) (row_id row)
  end.

Definition get_rows_mem {R : Type} `{PbRow R} (name : string) (ops : R -> list wop) (l : list R) (j : zbx_json) (lastid : Z)
    : res (zbx_json * Z * Z * bool) :=
  match l with
  | [] => Ret (j, 0, lastid, false)
  | _ =>
    j ← zbx_json_addarray j (tag name);
    r ← rows_mem_loop ops l j 0 lastid;
    match r with (j, n, lastid, more) => Ret (default j (zbx_json_close j), n, lastid, more) end
  end.

Definition pb_discovery_get_mem (pb : zbx_pb) (j : zbx_json) (lastid : Z) : res (zbx_json * Z * Z * bool) :=
  get_rows_mem "discovery data" discovery_ops (rows (discovery pb)) j lastid.
Definition pb_autoreg_get_mem (pb : zbx_pb) (j : zbx_json) (lastid : Z) : res (zbx_json * Z * Z * bool) :=
  get_rows_mem "auto registration" autoreg_ops (rows (autoreg pb)) j lastid.

(** The variables of pb_get_rows_db that outlive a row. *)
Record rows_db := RowsDb { r_json : zbx_json; r_lastid : Z; r_id : Z; r_records : Z; r_more : bool }.

(** The rows of one select in pb_get_rows_db; [true] when a gap is found and
    there is a retry left. *)
Fixpoint rows_db_loop {R : Type} `{PbRow R} (name : string) (ops : R -> list wop) (retry : bool) (s : rows_db) (l : list R)
    : res (rows_db * bool) :=
  match l with
  | [] => Ret (s, false)
  | row :: l =>
    let s := RowsDb (r_json s) (row_id row) (r_id s) (r_records s) (r_more s) in
    if (1 <? row_id row - r_id s) && retry then Ret (s, true)
    else
      j ← open_array name (r_records s) (r_json s);
      j ← do_wops j ([WOpen true None] ++ ops row ++ [WClose]);
      if ZBX_DATA_JSON_RECORD_LIMIT <? buffer_offset j
      then Ret (RowsDb j (row_id row) (r_id s) (r_records s + 1) true, false)
      else rows_db_loop name ops retry (RowsDb j (row_id row) (row_id row) (r_records s + 1) (r_more s)) l
  end.

(** pb_get_rows_db, with the table as it is at the first select and, a tenth
    of a second later, at the second. *)
Definition pb_get_rows_db {R : Type} `{PbRow R} (name : string) (ops : R -> list wop) (table table' : list R) (s : rows_db)
    : res rows_db :=
  let records_num_last := r_records s in
  let s := RowsDb (r_json s) (r_lastid s) (r_id s) (r_records s) false in
  r ← rows_db_loop name ops true s (select_rows (r_id s) ZBX_MAX_HRECORDS table);
  r ← (match r with
       | (s, true) => rows_db_loop name ops false s (select_rows (r_id s) ZBX_MAX_HRECORDS table')
       | (s, false) => Ret (s, false)
       end);
  match r with
  | (s, _) =>
    Ret (if r_records s - records_num_last =? ZBX_MAX_HRECORDS
         then RowsDb (r_json s) (r_lastid s) (r_id s) (r_records s) true else s)
  end.

(** pb_get_discovery_db, pb_autoreg_get_db: one pair of tables for each call
    of pb_get_rows_db; the flag is not set when there is none. *)
Fixpoint get_rows_db_loop {R : Type} `{PbRow R} (name : string) (ops : R -> list wop) (tables : list (list R * list R))
    (s : rows_db) (more : option bool) : res (rows_db * option bool) :=
  if buffer_offset (r_json s) <? ZBX_DATA_JSON_BATCH_LIMIT then
    match tables with
    | [] => NoFuel
    | (table, table') :: tables =>
      s ← pb_get_rows_db name ops table table' s;
      if negb (r_more s) || (ZBX_MAX_HRECORDS_TOTAL <=? r_records s) then Ret (s, Some (r_more s))
      else get_rows_db_loop name ops tables s (Some (r_more s))
    end
  else Ret (s, more).

Definition get_rows_db {R : Type} `{PbRow R} (name : string) (ops : R -> list wop) (tables : list (list R * list R))
    (j : zbx_json) (lastid id : Z) : res (zbx_json * Z * Z * option bool) :=
  r ← get_rows_db_loop name ops tables (RowsDb j lastid id 0 false) None;
  match r with
  | (s, more) =>
    Ret (if r_records s =? 0 then r_json s else default (r_json s) (zbx_json_close (r_json s)), r_records s, r_lastid s, more)
  end.

Definition pb_get_discovery_db (tables : list (list zbx_pb_discovery * list zbx_pb_discovery)) (db : database)
    (j : zbx_json) (lastid : Z) : res (zbx_json * Z * Z * option bool) :=
  get_rows_db "discovery data" discovery_db_ops tables j lastid (pb_get_lastid KDiscovery db).
Definition pb_autoreg_get_db (tables : list (list zbx_pb_autoreg * list zbx_pb_autoreg)) (db : database)
    (j : zbx_json) (lastid : Z) : res (zbx_json * Z * Z * option bool) :=
  get_rows_db "auto registration" autoreg_db_ops tables j lastid (pb_get_lastid KAutoreg db).
