(* ===== verification/PbSystem.v ===== *)
(** The processes around the proxy buffer: writers with their handles, the
    sender of history and the server it sends to, as a machine of steps.  A
    step is what a process does between taking the lock of the buffer and
    giving it back, a transaction on the database, or a message. *)

From Stdlib Require Import ZArith Lia.
From S2P Require Import Prelude JsonWriter PbBuffer PbExport.
From stdpp Require Import base list numbers gmap.

Open Scope Z_scope.

(* ------------------------------------------------------------------ *)
(** ** State *)

(** A handle of a writer: rows for memory, or for the database; rows that have
    ids and are in a transaction not yet committed; nothing left but telling
    the buffer the last id. *)
Inductive handle (R : Type) :=
  | HMem (l : list R)
  | HDb (l : list R)
  | HIns (l : list R)
  | HFin (lastid : Z).
Arguments HMem {R} _.
Arguments HDb {R} _.
Arguments HIns {R} _.
Arguments HFin {R} _.

Record handles := Handles {
  hs_history : gmap Z (handle zbx_pb_history);
  hs_discovery : gmap Z (handle zbx_pb_discovery);
  hs_autoreg : gmap Z (handle zbx_pb_autoreg)
}.

Definition get_hs (k : kind) (hs : handles) : gmap Z (handle (row_of k)) :=
  match k with KHistory => hs_history hs | KDiscovery => hs_discovery hs | KAutoreg => hs_autoreg hs end.

Definition set_hs (k : kind) (hs : handles) : gmap Z (handle (row_of k)) -> handles :=
  match k return gmap Z (handle (row_of k)) -> handles with
  | KHistory => fun m => Handles m (hs_discovery hs) (hs_autoreg hs)
  | KDiscovery => fun m => Handles (hs_history hs) m (hs_autoreg hs)
  | KAutoreg => fun m => Handles (hs_history hs) (hs_discovery hs) m
  end.

(** Why a row of history that was given an id need not reach the server. *)
Inductive reason :=
  | SentBefore     (* its id was stored as uploaded before the start *)
  | Disabled       (* its item was not enabled when the packet was made *)
  | NewerNovalue   (* it has no value, and a newer row of its item has none either *)
  | Expired        (* it was older than the offline buffer *)
  | NoRoom         (* an allocation failed in memory mode *)
  | TooOld         (* memory mode has a maximum age, and it was exceeded *)
  | NotCommitted.  (* it was in a transaction that failed *)

(** Where the sender is in an upload of history: the packet with what was left
    out of it, the rows read that are not yet in the packet, the id of the last
    of them, and the id behind the gap that was waited for. *)
Record reading := Reading {
  rd_packet : packet;
  rd_left : list (reason * zbx_pb_history);
  rd_got : list zbx_pb_history;
  rd_last : Z;
  rd_gapid : Z
}.

Inductive sender :=
  | Idle
  | Select (r : reading)
  | Gap (r : reading)
  | Waiting (r : reading) (upto : Z)
  | Ready (p : packet) (omitted : list (reason * zbx_pb_history)) (more : bool)
  | Acked (lastid : Z) (more : bool)
  | StoreId (lastid : Z) (more : bool)
  | Update (more : bool).

(** The session of the proxy on the server: the last id it has processed, the
    values that were handed on to preprocessing, and those that were not. *)
Record server := Server { last_id : Z; values : list zbx_pb_history; refused : list zbx_pb_history }.

(** What has become of the rows of history: all that have been given ids, and
    those that need not reach the server, with the reason. *)
Record ledger := Ledger { assigned : list zbx_pb_history; lost : list (reason * zbx_pb_history) }.

Record sys := Sys {
  s_pb : zbx_pb;
  s_db : database;
  s_ids : kind -> Z;
  s_hs : handles;
  s_sender : sender;
  s_server : server;
  s_ledger : ledger
}.

Definition with_pb (pb : zbx_pb) (s : sys) : sys := Sys pb (s_db s) (s_ids s) (s_hs s) (s_sender s) (s_server s) (s_ledger s).
Definition with_db (db : database) (s : sys) : sys := Sys (s_pb s) db (s_ids s) (s_hs s) (s_sender s) (s_server s) (s_ledger s).
Definition with_hs (hs : handles) (s : sys) : sys := Sys (s_pb s) (s_db s) (s_ids s) hs (s_sender s) (s_server s) (s_ledger s).
Definition with_sender (sn : sender) (s : sys) : sys := Sys (s_pb s) (s_db s) (s_ids s) (s_hs s) sn (s_server s) (s_ledger s).
Definition with_server (sv : server) (s : sys) : sys := Sys (s_pb s) (s_db s) (s_ids s) (s_hs s) (s_sender s) sv (s_ledger s).
Definition with_ledger (g : ledger) (s : sys) : sys := Sys (s_pb s) (s_db s) (s_ids s) (s_hs s) (s_sender s) (s_server s) g.

Definition put_handle (k : kind) (h : Z) (x : handle (row_of k)) (s : sys) : sys :=
  with_hs (set_hs k (s_hs s) (<[h := x]> (get_hs k (s_hs s)))) s.
Definition drop_handle_of (k : kind) (h : Z) (s : sys) : sys :=
  with_hs (set_hs k (s_hs s) (delete h (get_hs k (s_hs s)))) s.

(** zbx_dc_get_nextid: [num] ids from the cache of last ids. *)
Definition zbx_dc_get_nextid (k : kind) (num : Z) (s : sys) : Z * sys :=
  (s_ids s k + 1,
   Sys (s_pb s) (s_db s) (fun k' => if decide (k' = k) then s_ids s k + num else s_ids s k') (s_hs s) (s_sender s)
     (s_server s) (s_ledger s)).

(** The ledger only follows history. *)
Definition history_of (k : kind) : list (row_of k) -> list zbx_pb_history :=
  match k return list (row_of k) -> list zbx_pb_history with KHistory => fun l => l | _ => fun _ => [] end.

Definition note_assigned (k : kind) (l : list (row_of k)) (s : sys) : sys :=
  let g := s_ledger s in with_ledger (Ledger (assigned g ++ history_of k l) (lost g)) s.
Definition note_lost (why : reason) (l : list zbx_pb_history) (s : sys) : sys :=
  let g := s_ledger s in with_ledger (Ledger (assigned g) (lost g ++ (pair why <$> l))) s.

(** The rows of [before] that are not in [after] and have a reason to be gone. *)
Definition gone (cause : zbx_pb_history -> bool) (before after : list zbx_pb_history) : list zbx_pb_history :=
  filter (fun r => cause r = true /\ h_id r ∉ (h_id <$> after)) before.

Definition expired (now : Z) (pb : zbx_pb) (r : zbx_pb_history) : bool := offline_buffer pb <? now - h_write_clock r.

(** One of the allocations planned that were made has failed, in memory mode. *)
Definition no_room (pb : zbx_pb) (plan plan' : list bool) (_ : zbx_pb_history) : bool :=
  bool_decide (mode pb = ZBX_PB_MODE_MEMORY) && existsb negb (take (length plan - length plan') plan).

(* ------------------------------------------------------------------ *)
(** ** Writers *)

(** zbx_pb_history_open, zbx_pb_discovery_open. *)
Definition pb_open (k : kind) (s : sys) : sys :=
  let '(h, pb) := match k with
                  | KHistory => pb_register_handle (s_pb s)
                  | _ => pb_get_next_handleid (s_pb s)
                  end in
  match get_pb_dst (state pb) with
  | PB_DATABASE => put_handle k h (HDb []) (with_pb (add_db_handles 1 pb) s)
  | _ => put_handle k h (HMem []) (with_pb pb s)
  end.

Definition zbx_pb_history_open : sys -> sys := pb_open KHistory.
Definition zbx_pb_discovery_open : sys -> sys := pb_open KDiscovery.

(** pb_history_add_value, pb_discovery_write_row: the row has no id yet. *)
Definition pb_write (k : kind) (h : Z) (row : row_of k) (s : sys) : sys :=
  match get_hs k (s_hs s) !! h with
  | Some (HMem l) => put_handle k h (HMem (l ++ [row])) s
  | Some (HDb l) => put_handle k h (HDb (l ++ [row])) s
  | _ => s
  end.

Definition pb_history_add_value : Z -> zbx_pb_history -> sys -> sys := pb_write KHistory.
Definition pb_discovery_write_row : Z -> zbx_pb_discovery -> sys -> sys := pb_write KDiscovery.

(** The end of a handle, with the lock held. *)
Definition pb_release (k : kind) (h : Z) (s : sys) : sys :=
  let s := drop_handle_of k h s in
  match k with
  | KHistory => with_pb (pb_deregister_handle h (s_pb s)) s
  | _ => s
  end.

(** The age of the rows in memory is checked; those beyond the offline buffer
    are removed. *)
Definition age_out (k : kind) (now now' : Z) (s : sys) : bool * sys :=
  let pb := s_pb s in
  let '(young, pb') := pb_check_age k now now' pb in
  (young, note_lost Expired (gone (expired now pb) (rows (history pb)) (rows (history pb'))) (with_pb pb' s)).

(** pd_fallback_to_database, with what becomes of the rows of history. *)
Definition fall_back (too_old : bool) (commits : list commit_result) (s : sys) : res sys :=
  let pb := s_pb s in
  let flushed := rows (history pb) in
  '(pb', db) ← pd_fallback_to_database commits pb (s_db s);
  let s := with_db db (with_pb pb' s) in
  Ret (if bool_decide (mode pb = ZBX_PB_MODE_MEMORY) then note_lost TooOld (if too_old then flushed else []) s
       else if bool_decide (commit_outcome commits = Some true) then s
       else note_lost NotCommitted flushed s).

(** Trying memory first, for rows that have their ids: what is left to write
    to the database, none when all went to memory.  [commits] are the outcomes
    of the transaction if the buffer falls back to the database. *)
Definition close_to_mem (k : kind) (l : list (row_of k)) (now now' : Z) (plan : list bool) (commits : list commit_result)
    (s : sys) : res (option (list (row_of k)) * sys) :=
  let '(young, s) := if bool_decide (state (s_pb s) = PB_MEMORY) then age_out k now now' s else (true, s) in
  if negb young then
    s ← fall_back true commits s;
    Ret (Some l, s)
  else
    let pb := s_pb s in
    if bool_decide (get_pb_dst (state pb) = PB_MEMORY) then
      '(rest, pb', plan') ← pb_add_rows_mem k pb l plan;
      let s := note_lost NoRoom (gone (no_room pb plan plan') (rows (history pb) ++ history_of k (take (length l - length rest) l))
                                   (rows (history pb'))) (with_pb pb' s) in
      match rest with
      | [] => Ret (None, s)
      | _ =>
        if bool_decide (state pb' = PB_DATABASE_MEMORY) then
          s ← fall_back false commits s;
          Ret (Some rest, s)
        else Ret (Some rest, with_pb (pb_set_state PB_MEMORY_DATABASE pb') s)
      end
    else Ret (Some l, s).

(** zbx_pb_history_close and zbx_pb_discovery_close for a handle to memory,
    up to where the lock is given back. *)
Definition pb_close_mem (k : kind) (h now now' : Z) (plan : list bool) (commits : list commit_result) (s : sys) : res sys :=
  match get_hs k (s_hs s) !! h with
  | Some (HMem []) => Ret (pb_release k h s)
  | Some (HMem l) =>
    let '(id, s) := zbx_dc_get_nextid k (Z.of_nat (length l)) s in
    let l := pb_set_row_ids id h l in
    r ← close_to_mem k l now now' plan commits (note_assigned k l s);
    match r with
    | (None, s) => Ret (pb_release k h s)
    | (Some rest, s) => Ret (put_handle k h (HIns rest) (with_pb (add_db_handles 1 (s_pb s)) s))
    end
  | _ => Ret s
  end.

(** zbx_pb_autoreg_write_host, up to where the lock is given back; in memory
    a row gets its id after it has been added. *)
Definition zbx_pb_autoreg_write_host (h : Z) (row : zbx_pb_autoreg) (now now' : Z) (plan : list bool)
    (commits : list commit_result) (s : sys) : res sys :=
  match hs_autoreg (s_hs s) !! h with
  | Some _ => Ret s
  | None =>
    r ← close_to_mem KAutoreg [set_row_id (s_ids s KAutoreg + 1) 0 row] now now' plan commits s;
    match r with
    | (None, s') =>
      Ret (if bool_decide (last_row_id (rows (autoreg (s_pb s'))) = s_ids s KAutoreg + 1)
           then snd (zbx_dc_get_nextid KAutoreg 1 s') else s')
    | (Some _, s) => Ret (put_handle KAutoreg h (HDb [row]) (with_pb (add_db_handles 1 (s_pb s)) s))
    end
  end.

(** zbx_db_insert_execute with automatic ids, zbx_db_get_maxid: the rows get
    their ids inside the transaction. *)
Definition pb_alloc (k : kind) (h : Z) (s : sys) : sys :=
  match get_hs k (s_hs s) !! h with
  | Some (HDb l) =>
    let '(id, s) := zbx_dc_get_nextid k (Z.of_nat (length l)) s in
    let l := pb_set_row_ids id h l in
    put_handle k h (HIns l) (note_assigned k l s)
  | _ => s
  end.

(** The end of the transaction; it is made again while the database is down,
    and the rows keep their ids. *)
Definition pb_commit (k : kind) (h : Z) (commit : commit_result) (s : sys) : sys :=
  match get_hs k (s_hs s) !! h with
  | Some (HIns l) =>
    match commit with
    | DB_DOWN => s
    | DB_OK => put_handle k h (HFin (last_row_id l)) (with_db (pb_add_rows_db k l (s_db s)) s)
    | DB_FAIL => put_handle k h (HFin (last_row_id l)) (note_lost NotCommitted (history_of k l) s)
    end
  | _ => s
  end.

(** The lock is taken again. *)
Definition pb_finish (k : kind) (h : Z) (s : sys) : sys :=
  match get_hs k (s_hs s) !! h with
  | Some (HFin lastid) => pb_release k h (with_pb (add_db_handles (-1) (raise_db k lastid (s_pb s))) s)
  | _ => s
  end.

(* ------------------------------------------------------------------ *)
(** ** The sender *)

(** The rows of a batch, up to the last id of the packet, that are left out of
    it: those of items that are not enabled, and those without a value that have
    a newer one of the same item behind them. *)
Definition newer_novalue (batch : list zbx_pb_history) (r : zbx_pb_history) : bool :=
  novalue r && existsb (fun r' => novalue r' && (h_itemid r' =? h_itemid r) && (h_id r <? h_id r')) batch.

Definition rows_left_out (active : Z -> bool) (batch : list zbx_pb_history) (lastid : Z) : list (reason * zbx_pb_history) :=
  (pair Disabled <$> filter (fun r => h_id r <= lastid /\ active (h_itemid r) = false) batch) ++
  (pair NewerNovalue <$> filter (fun r => h_id r <= lastid /\ newer_novalue batch r = true) batch).

(** zbx_pb_history_get_rows: rows in memory are taken under the lock; those in
    the database are read after it was given back. *)
Definition zbx_pb_history_get_rows (active : Z -> bool) (j : zbx_json) (s : sys) : res sys :=
  match s_sender s with
  | Idle =>
    match get_pb_src (state (s_pb s)) with
    | PB_MEMORY =>
      r ← pb_history_get_mem active (s_pb s) j;
      match r with (p, more) => Ret (with_sender (Ready p (rows_left_out active (rows (history (s_pb s))) (p_lastid p)) more) s) end
    | _ =>
      let p := Packet j 0 0 [] in
      Ret (with_sender (if get_db_again p then Select (Reading p [] [] (pb_get_lastid KHistory (s_db s)) 0)
                        else Ready p [] true) s)
    end
  | _ => Ret s
  end.

(** One select of pb_history_get_rows_db and, unless there is a gap, what
    pb_history_get_db does with the batch. *)
Definition pb_history_get_rows_db (active : Z -> bool) (s : sys) : res sys :=
  match s_sender s with
  | Select r =>
    let l := select_rows (rd_last r) (ZBX_MAX_HRECORDS - Z.of_nat (length (rd_got r))) (proxy_history (s_db s)) in
    match scan_rows (rd_last r) (rd_gapid r) (rd_got r) l with
    | (got, lastid, Some gapid) =>
      Ret (with_sender (Gap (Reading (rd_packet r) (rd_left r) got lastid gapid)) s)
    | (got, _, None) =>
      b ← after_batch active (rd_packet r) got;
      match b with
      | (p, inl more) => Ret (with_sender (Ready p (rd_left r ++ rows_left_out active got (p_lastid p)) more) s)
      | (p, inr id) => Ret (with_sender (Select (Reading p (rd_left r ++ rows_left_out active got (p_lastid p)) [] id 0)) s)
      end
    end
  | _ => Ret s
  end.

(** pb_wait_handles: the first look at the open handles, and the last. *)
Definition pb_wait_begin (s : sys) : sys :=
  match s_sender s with
  | Gap r =>
    let upto := newest_handle (history_handleids (s_pb s)) in
    with_sender (if upto =? 0 then Select r else Waiting r upto) s
  | _ => s
  end.

Definition pb_wait_end (s : sys) : sys :=
  match s_sender s with
  | Waiting r upto => if wait_over upto (history_handleids (s_pb s)) then with_sender (Select r) s else s
  | _ => s
  end.

(** The fields of an item and its host that the server looks at. *)
Record history_recv_item := RecvItem {
  i_status : Z;
  i_type : Z;
  i_proxyid : Z;
  i_host_status : Z;
  i_maintenance_status : Z;
  i_maintenance_type : Z;
  i_maintenance_from : Z
}.

Definition ITEM_STATUS_ACTIVE : Z := 0.
Definition HOST_STATUS_MONITORED : Z := 0.
Definition HOST_MAINTENANCE_STATUS_ON : Z := 1.
Definition MAINTENANCE_TYPE_NODATA : Z := 1.
Definition ITEM_TYPE_INTERNAL : Z := 5.
Definition ITEM_TYPE_CALCULATED : Z := 15.
Definition ITEM_TYPE_NESTED_LLD : Z := 23.
Definition ITEM_STATE_NOTSUPPORTED : Z := 1.

(** proxy_item_validator. *)
Definition proxy_item_validator (item : history_recv_item) (proxyid : Z) : bool :=
  (i_proxyid item =? proxyid) && negb ((i_type item =? ITEM_TYPE_CALCULATED) || (i_type item =? ITEM_TYPE_NESTED_LLD)).

(** zbx_in_maintenance_without_data_collection. *)
Definition in_maintenance_without_data_collection (status type item_type : Z) : bool :=
  (status =? HOST_MAINTENANCE_STATUS_ON) && (type =? MAINTENANCE_TYPE_NODATA) && negb (item_type =? ITEM_TYPE_INTERNAL).

(** Of a row as it was written to the packet: whether its time is one that
    parse_history_data_row_value takes, whether it has a value, its state. *)
Definition row_parsed (r : zbx_pb_history) : bool :=
  (0 <=? h_sec r) && (h_sec r <? 2 ^ 31) && (0 <=? h_ns r) && (h_ns r <=? 999999999).
Definition row_has_value (r : zbx_pb_history) : bool := Z.land (h_flags r) ZBX_PROXY_HISTORY_FLAG_NOVALUE =? 0.
Definition row_state (r : zbx_pb_history) : Z := if novalue r then 0 else h_state r mod 256.

(** process_history_data_value: whether the value is handed on. *)
Definition process_history_data_value (item : history_recv_item) (r : zbx_pb_history) : bool :=
  (i_status item =? ITEM_STATUS_ACTIVE) && (i_host_status item =? HOST_STATUS_MONITORED) &&
  negb (in_maintenance_without_data_collection (i_maintenance_status item) (i_maintenance_type item) (i_type item) &&
        (i_maintenance_from item <=? h_sec r)) &&
  negb (negb (row_has_value r) && (row_state r =? ITEM_STATE_NOTSUPPORTED)).

(** process_history_data_by_itemids for the session of a proxy; [items] are the
    items looked up for the values, none where there is no such item.  Values
    with an id that is not above the last one processed are duplicates. *)
Definition accepts (items : zbx_pb_history -> option history_recv_item) (proxyid : Z) (r : zbx_pb_history) : bool :=
  match items r with
  | Some item => proxy_item_validator item proxyid && process_history_data_value item r
  | None => false
  end.

Definition process_history_data (items : zbx_pb_history -> option history_recv_item) (proxyid : Z) (sv : server)
    (l : list zbx_pb_history) : server :=
  let parsed := filter (fun r => row_parsed r = true) l in
  let new := filter (fun r => h_id r = 0 \/ last_id sv < h_id r) parsed in
  let last_valueid := last_row_id parsed in
  Server (if negb (last_valueid =? 0) && negb (last_valueid <? last_id sv) then last_valueid else last_id sv)
    (values sv ++ filter (fun r => accepts items proxyid r = true) new)
    (refused sv ++ filter (fun r => row_parsed r = false) l ++ filter (fun r => accepts items proxyid r = false) new).

(** An upload: whether the server gets it and whether the sender is told. *)
Definition upload (items : zbx_pb_history -> option history_recv_item) (proxyid : Z) (received acked : bool) (s : sys) : sys :=
  match s_sender s with
  | Ready p omitted more =>
    let s :=
      if received then
        let g := s_ledger s in
        with_ledger (Ledger (assigned g) (lost g ++ omitted))
          (with_server (process_history_data items proxyid (s_server s) (p_sent p)) s)
      else s in
    with_sender (if received && acked then if p_lastid p =? 0 then Update more else Acked (p_lastid p) more else Idle) s
  | _ => s
  end.

(** zbx_pb_set_history_lastid with the lock, and after it. *)
Definition zbx_pb_set_history_lastid (s : sys) : sys :=
  match s_sender s with
  | Acked lastid more =>
    let pb := set_sent KHistory lastid (s_pb s) in
    match get_pb_src (state pb) with
    | PB_MEMORY => with_sender (Update more) (with_pb (pb_history_clear lastid pb) s)
    | _ => with_sender (StoreId lastid more) (with_pb pb s)
    end
  | _ => s
  end.

Definition pb_history_set_lastid (ok : bool) (s : sys) : sys :=
  match s_sender s with
  | StoreId lastid more =>
    with_sender (Update more) (if ok then with_db (pb_set_lastid KHistory lastid (s_db s)) s else s)
  | _ => s
  end.

(** zbx_pb_update_state, if the sender calls it; [others] tells if the other
    kinds have more. *)
Definition zbx_pb_update_state (called others ok : bool) (s : sys) : sys :=
  match s_sender s with
  | Update more =>
    let '(pb, db) := if called then pb_update_state (more || others) ok (s_pb s) (s_db s) else (s_pb s, s_db s) in
    with_sender Idle (with_db db (with_pb pb s))
  | _ => s
  end.

(** zbx_pb_discovery_set_lastid, zbx_pb_autoreg_set_lastid with the lock, and
    the transaction after it; [lastid] is that of the rows sent. *)
Definition set_other_lastid (k : kind) (lastid : Z) (ok : bool) (s : sys) : sys :=
  let pb := set_sent k lastid (s_pb s) in
  match get_pb_src (state pb) with
  | PB_MEMORY => with_pb (pb_clear k lastid pb) s
  | _ => with_db (if ok then pb_set_lastid k lastid (s_db s) else s_db s) (with_pb pb s)
  end.

(* ------------------------------------------------------------------ *)
(** ** Steps *)

Inductive event :=
  | EOpen (k : kind)
  | EWrite (k : kind) (h : Z) (row : row_of k)
  | ECloseMem (k : kind) (h now now' : Z) (plan : list bool) (commits : list commit_result)
  | EWriteHost (h : Z) (row : zbx_pb_autoreg) (now now' : Z) (plan : list bool) (commits : list commit_result)
  | EAlloc (k : kind) (h : Z)
  | ECommit (k : kind) (h : Z) (commit : commit_result)
  | EFinish (k : kind) (h : Z)
  | EGetRows (active : Z -> bool) (j : zbx_json)
  | ESelect (active : Z -> bool)
  | EWaitBegin
  | EWaitEnd
  | EUpload (items : zbx_pb_history -> option history_recv_item) (proxyid : Z) (received acked : bool)
  | ESetLastid
  | EStoreId (ok : bool)
  | EUpdate (called others ok : bool)
  | EOtherLastid (k : kind) (lastid : Z) (ok : bool).

Definition exec (e : event) (s : sys) : res sys :=
  match e with
  | EOpen KAutoreg => Ret s
  | EOpen k => Ret (pb_open k s)
  | EWrite k h row => Ret (pb_write k h row s)
  | ECloseMem k h now now' plan commits => pb_close_mem k h now now' plan commits s
  | EWriteHost h row now now' plan commits => zbx_pb_autoreg_write_host h row now now' plan commits s
  | EAlloc k h => Ret (pb_alloc k h s)
  | ECommit k h commit => Ret (pb_commit k h commit s)
  | EFinish k h => Ret (pb_finish k h s)
  | EGetRows active j => zbx_pb_history_get_rows active j s
  | ESelect active => pb_history_get_rows_db active s
  | EWaitBegin => Ret (pb_wait_begin s)
  | EWaitEnd => Ret (pb_wait_end s)
  | EUpload items proxyid received acked => Ret (upload items proxyid received acked s)
  | ESetLastid => Ret (zbx_pb_set_history_lastid s)
  | EStoreId ok => Ret (pb_history_set_lastid ok s)
  | EUpdate called others ok => Ret (zbx_pb_update_state called others ok s)
  | EOtherLastid KHistory _ _ => Ret s
  | EOtherLastid k lastid ok => Ret (set_other_lastid k lastid ok s)
  end.

Fixpoint run_events (es : list event) (s : sys) : res sys :=
  match es with
  | [] => Ret s
  | e :: es => s ← exec e s; run_events es s
  end.

(** zbx_pb_create and zbx_pb_init over the tables found in the database. *)
Definition pb_check_unsent_rows (k : kind) (db : database) : bool * Z * Z * database :=
  let lastid := ids db k in
  let maxid := foldr Z.max 0 (row_id <$> get_table k db) in
  if lastid <? maxid then (true, lastid, maxid, db)
  else if maxid <? lastid then (false, maxid, maxid, pb_set_lastid k maxid db)
  else (false, lastid, maxid, db).

Definition zbx_pb_create (m : zbx_pb_mode) (age offline : Z) : zbx_pb :=
  Pb (Chan [] 0 0) (Chan [] 0 0) (Chan [] 0 0) m PB_DATABASE 0 age offline 0 0 0 [].

Definition pb_init_state (pb : zbx_pb) (db : database) : zbx_pb * database :=
  if bool_decide (mode pb = ZBX_PB_MODE_MEMORY) then (pb_set_state PB_MEMORY pb, db)
  else
    match pb_check_unsent_rows KHistory db with
    | (history_ret, lastid, maxid, db) =>
      let pb := set_sent KHistory lastid (set_db KHistory maxid pb) in
      match pb_check_unsent_rows KDiscovery db with
      | (discovery_ret, _, _, db) =>
        match pb_check_unsent_rows KAutoreg db with
        | (autoreg_ret, _, _, db) =>
          if bool_decide (mode pb = ZBX_PB_MODE_DISK) then (pb_set_state PB_DATABASE pb, db)
          else if history_ret || discovery_ret || autoreg_ret then (pb_set_state PB_DATABASE pb, db)
          else (pb_set_state PB_MEMORY pb, db)
        end
      end
    end.

(** A start: rows up to the last uploaded id were sent before. *)
Definition start (m : zbx_pb_mode) (age offline : Z) (db : database) : sys :=
  let '(pb, db) := pb_init_state (zbx_pb_create m age offline) db in
  Sys pb db (fun k => foldr Z.max 0 (row_id <$> get_table k db)) (Handles ∅ ∅ ∅) Idle (Server 0 [] [])
    (Ledger (proxy_history db) (pair SentBefore <$> filter (fun r => h_id r <= ids db KHistory) (proxy_history db))).
