(* ===== verification/PbInv.v ===== *)
(** The operations on the proxy buffer: what each changes, that the loops that
    free memory end, and what the sender's reading of a table gives. *)

From Stdlib Require Import ZArith Lia.
From S2P Require Import Prelude Shmem JsonWriter PbBuffer PbExport PbSystem.
From stdpp Require Import base list numbers sorting gmap.

Open Scope Z_scope.

(* ------------------------------------------------------------------ *)
(** ** Changes to the buffer *)

(** What all of the changes made while rows are added leave as it is. *)
Record same_globals (pb pb' : zbx_pb) : Prop := {
  same_mode : mode pb' = mode pb;
  same_state : state pb' = state pb;
  same_db_handles : db_handles_num pb' = db_handles_num pb;
  same_max_age : max_age pb' = max_age pb;
  same_handleid : handleid pb' = handleid pb;
  same_handleids : history_handleids pb' = history_handleids pb;
  same_sent : lastid_sent (history pb') = lastid_sent (history pb);
  same_lastid_db : lastid_db (history pb') = lastid_db (history pb)
}.

Lemma same_globals_refl (pb : zbx_pb) : same_globals pb pb.
Proof. done. Qed.

Lemma same_globals_trans (a b c : zbx_pb) : same_globals a b -> same_globals b c -> same_globals a c.
Proof. intros [] []. constructor; congruence. Qed.

Lemma set_rows_globals (k : kind) (l : list (row_of k)) (pb : zbx_pb) : same_globals pb (set_rows k l pb).
Proof. by destruct k. Qed.

Lemma set_rows_same (k : kind) (l : list (row_of k)) (pb : zbx_pb) : mem_rows k (set_rows k l pb) = l.
Proof. by destruct k. Qed.

Lemma set_rows_history (k : kind) (l : list (row_of k)) (pb : zbx_pb) : k <> KHistory ->
  history (set_rows k l pb) = history pb.
Proof. by destruct k. Qed.

Lemma push_row_globals (k : kind) (row : row_of k) (pb : zbx_pb) : same_globals pb (push_row k row pb).
Proof. by destruct k. Qed.

(** Rows of history that are left are a final part of the rows there were. *)
Definition suffix_rows (pb pb' : zbx_pb) : Prop := exists l, rows (history pb) = l ++ rows (history pb').

Lemma suffix_refl (pb : zbx_pb) : suffix_rows pb pb.
Proof. by exists []. Qed.

Lemma suffix_trans (a b c : zbx_pb) : suffix_rows a b -> suffix_rows b c -> suffix_rows a c.
Proof. intros [l E] [l' E']. exists (l ++ l'). by rewrite E, E', app_assoc. Qed.

Lemma expire_suffix {R : Type} `{PbRow R} (now offline : Z) (l : list R) :
  exists l', l = l' ++ expire_rows now offline l /\ forall r, r ∈ l' -> offline < now - row_written r.
Proof.
  induction l as [|r l (l' & IH & Hl')]; simpl; [by exists []; split; [|intros r ?%elem_of_nil]|].
  destruct (Z.leb_spec (now - row_written r) offline); [by exists []; split; [|intros x ?%elem_of_nil]|].
  exists (r :: l'). split; [by rewrite IH at 1|]. intros x [-> | Hx]%elem_of_cons; auto.
Qed.

(** Rows of history that are removed by the check are beyond the buffer. *)
Lemma check_age_ok (k : kind) (now now' : Z) (pb : zbx_pb) :
  same_globals pb (snd (pb_check_age k now now' pb)) /\
  exists d, rows (history pb) = d ++ rows (history (snd (pb_check_age k now now' pb))) /\
    forall r, r ∈ d -> expired now pb r = true.
Proof.
  set (pb' := set_rows k (expire_rows now (offline_buffer pb) (mem_rows k pb)) pb).
  assert (E : snd (pb_check_age k now now' pb) = pb').
  { unfold pb_check_age. fold pb'. by repeat case_match. }
  rewrite E. split; [apply set_rows_globals|]. unfold pb'.
  destruct k; [|by exists []; split; [|intros r ?%elem_of_nil]..].
  destruct (expire_suffix now (offline_buffer pb) (rows (history pb))) as (d & Ed & Hd). exists d. split; [exact Ed|].
  intros r Hr. apply Z.ltb_lt. by apply Hd.
Qed.

(** The first row of a list goes. *)
Lemma tail_suffix (k : kind) (row : row_of k) (rest : list (row_of k)) (pb : zbx_pb) :
  mem_rows k pb = row :: rest -> suffix_rows pb (set_rows k rest pb).
Proof. intros E. destruct k; [|by exists []..]. by exists [row]. Qed.

Lemma rows_num_set (k : kind) (l : list (row_of k)) (pb : zbx_pb) :
  (mem_rows_num (set_rows k l pb) + length (mem_rows k pb) = mem_rows_num pb + length l)%nat.
Proof. destruct k; unfold mem_rows_num, mem_rows; simpl; lia. Qed.

Lemma drop_handle_suffix (handle : Z) (l : list zbx_pb_discovery) (size : Z) :
  (length (fst (drop_handle handle l size)) <= length l)%nat.
Proof.
  revert size. induction l as [|r l IH]; intros size; simpl; [done|]. case_match; simpl; [|done].
  eapply Nat.le_trans; [apply IH|lia].
Qed.

(** What pb_free_space chooses is the first row of its list. *)
Lemma victim_first (pb : zbx_pb) :
  match choose_victim pb with
  | FreeHistory row rest => mem_rows KHistory pb = row :: rest
  | FreeDiscovery row rest => mem_rows KDiscovery pb = row :: rest
  | FreeAutoreg row rest => mem_rows KAutoreg pb = row :: rest
  | FreeNothing => True
  end.
Proof.
  unfold choose_victim, mem_rows. cbn [get_chan].
  destruct (rows (history pb)) eqn:?, (rows (discovery pb)) eqn:?, (rows (autoreg pb)) eqn:?; repeat case_match; simplify_eq; done.
Qed.

Lemma free_space_ok (fuel : nat) (size : Z) (pb : zbx_pb) :
  (mem_rows_num pb < fuel)%nat ->
  exists ok pb', free_space_loop fuel size pb = Ret (ok, pb') /\ same_globals pb pb' /\ suffix_rows pb pb' /\
    (ok = true -> 0 < size -> (mem_rows_num pb' < mem_rows_num pb)%nat) /\ (mem_rows_num pb' <= mem_rows_num pb)%nat.
Proof.
  revert size pb. induction fuel as [|fuel IH]; intros size pb Hf; [lia|]. cbn [free_space_loop].
  destruct (Z.ltb_spec 0 size) as [Hs | Hs].
  2: { exists true, pb. split_and!; [done|apply same_globals_refl|apply suffix_refl|lia|done]. }
  assert (Hrec : forall k row rest (rest' : list (row_of k)) size', mem_rows k pb = row :: rest ->
    (length rest' <= length rest)%nat -> suffix_rows pb (set_rows k rest' pb) ->
    exists ok pb', free_space_loop fuel size' (set_rows k rest' pb) = Ret (ok, pb') /\ same_globals pb pb' /\
      suffix_rows pb pb' /\ (ok = true -> 0 < size -> (mem_rows_num pb' < mem_rows_num pb)%nat) /\ (mem_rows_num pb' <= mem_rows_num pb)%nat).
  { intros k row rest rest' size' E Hl Hsuf. pose proof (rows_num_set k rest' pb) as Hn. rewrite E in Hn. simpl in Hn.
    destruct (IH size' (set_rows k rest' pb)) as (ok & pb' & E' & Hg & Hs' & _ & Hle); [lia|].
    exists ok, pb'. split_and!; [done|by eapply same_globals_trans; [apply set_rows_globals|]|by eapply suffix_trans|lia|lia]. }
  pose proof (victim_first pb) as Hv. destruct (choose_victim pb) as [row rest | row rest | row rest |].
  - apply (Hrec KHistory row rest); [done|done|by eapply tail_suffix].
  - pose proof (drop_handle_suffix (d_handleid row) rest (size - row_size row)) as Hd.
    destruct (drop_handle _ _ _) as [rest' size']. apply (Hrec KDiscovery row rest); [done|done|by exists []].
  - apply (Hrec KAutoreg row rest); [done|done|by exists []].
  - exists false, pb. split_and!; [done|apply same_globals_refl|apply suffix_refl|done|done].
Qed.

(** The part of a plan that was used. *)
Lemma next_alloc_cases (plan : list bool) :
  exists ok used plan', next_alloc plan = (ok, plan') /\ plan = used ++ plan' /\ (ok = false -> false ∈ used).
Proof. destruct plan as [|b plan]; simpl; [by exists true, [], []|]. exists b, [b], plan. split_and!; [done..|intros ->; left]. Qed.

Lemma string_chunk_size (s : list Z) : 0 <= string_chunk s.
Proof. unfold string_chunk, zbx_shmem_required_chunk_size. case_match; [done|]. unfold u64. apply Z.mod_pos_bound. lia. Qed.

(** The size of a row is positive, so making room removes a row. *)
Lemma row_size_pos (k : kind) (row : row_of k) : 0 < row_size row.
Proof.
  assert (E16 : 0 < zbx_shmem_required_chunk_size SIZEOF_LIST_ITEM) by (vm_compute; done).
  assert (E80 : 0 <= zbx_shmem_required_chunk_size 80) by (vm_compute; done).
  assert (E56 : 0 <= zbx_shmem_required_chunk_size 56) by (vm_compute; done).
  destruct k; simpl; unfold pb_history_estimate_row_size, pb_discovery_estimate_row_size, pb_autoreg_estimate_row_size,
    SIZEOF_HISTORY, SIZEOF_DISCOVERY, SIZEOF_AUTOREG;
    repeat match goal with |- context [string_chunk ?s] => pose proof (string_chunk_size s); generalize dependent (string_chunk s); intros end; lia.
Qed.

Lemma push_row_rows (k : kind) (row : row_of k) (pb : zbx_pb) :
  rows (history (push_row k row pb)) = rows (history pb) ++ history_of k [row].
Proof. destruct k; simpl; by rewrite ?app_nil_r. Qed.

(** What a discarding loop does to history: rows from the front go. *)
Lemma free_space_history (fuel : nat) (size : Z) (pb pb' : zbx_pb) :
  free_space_loop fuel size pb = Ret (false, pb') -> rows (history pb') = [].
Proof.
  revert size pb. induction fuel as [|fuel IH]; intros size pb; [done|]. cbn [free_space_loop].
  case_match; [|done]. pose proof (victim_first pb) as Hv. unfold choose_victim in *.
  destruct (rows (history pb)) eqn:E, (rows (discovery pb)), (rows (autoreg pb)); repeat case_match; simplify_eq; eauto.
  all: intros [= <-]; done.
Qed.

(** The rows of history after a row was stored: rows go only in memory mode
    and when an allocation has failed. *)
Definition stored_rows (k : kind) (row : row_of k) (a : added) (used : list bool) (pb pb' : zbx_pb) : Prop :=
  match a with
  | NoSpace => pb' = pb /\ mode pb <> ZBX_PB_MODE_MEMORY
  | _ => exists d, rows (history pb) ++ history_of k [row] = d ++ rows (history pb') /\
      (d <> [] -> mode pb = ZBX_PB_MODE_MEMORY /\ false ∈ used)
  end.

Lemma store_ok (fuel : nat) (k : kind) (row : row_of k) (size : Z) (pb : zbx_pb) (plan : list bool) :
  (mem_rows_num pb < fuel)%nat -> 0 <= size ->
  exists a size' pb' used plan', store_loop fuel k row size pb plan = Ret (a, size', pb', plan') /\ 0 <= size' /\
    plan = used ++ plan' /\ same_globals pb pb' /\ stored_rows k row a used pb pb'.
Proof.
  revert size pb plan. induction fuel as [|fuel IH]; intros size pb plan Hf Hz; [lia|]. cbn [store_loop]. unfold pb_add_row_mem.
  destruct (next_alloc_cases plan) as (ok & used & plan' & -> & -> & Hfail). destruct ok.
  { exists Stored, size, (push_row k row pb), used, plan'. split_and!; [done..|apply push_row_globals|].
    exists []. by rewrite push_row_rows. }
  specialize (Hfail eq_refl).
  destruct (bool_decide_reflect (mode pb = ZBX_PB_MODE_MEMORY)) as [Hm | Hm]; cbn [negb].
  2: { exists NoSpace, size, pb, used, plan'. split_and!; [done..|apply same_globals_refl|done]. }
  set (size1 := if 0 =? size then row_size row else size).
  assert (H1 : 0 < size1) by (unfold size1; destruct (Z.eqb_spec 0 size); [apply row_size_pos|lia]).
  destruct (free_space_ok (2 + mem_rows_num pb) size1 pb) as (ok & pb1 & E & Hg & [d Hd] & Hlt & _); [lia|].
  unfold pb_free_space. rewrite E. run. destruct ok.
  - destruct (IH size1 pb1 plan') as (a & size' & pb' & used2 & plan2 & E' & Hz' & -> & Hg' & Hs);
      [by pose proof (Hlt eq_refl H1); lia|lia|].
    exists a, size', pb', (used ++ used2), plan2. split_and!; [done|done|by rewrite app_assoc|by eapply same_globals_trans|].
    destruct a; simpl in *; [|by destruct Hs; pose proof (same_mode _ _ Hg); congruence|].
    all: destruct Hs as (d' & Hs & _); exists (d ++ d'); split; [by rewrite Hd, <- app_assoc, Hs, app_assoc|];
      intros _; split; [done|set_solver].
  - exists TooLarge, size1, pb1, used, plan'. split_and!; [done|lia|done..|]. simpl.
    apply free_space_history in E. rewrite E. exists (rows (history pb) ++ history_of k [row]). by rewrite app_nil_r.
Qed.

Lemma history_of_app (k : kind) (l l' : list (row_of k)) : history_of k (l ++ l') = history_of k l ++ history_of k l'.
Proof. by destruct k. Qed.

(** Adding rows ends, whatever fails on the way: the rows before the first
    that did not fit were stored at the end of the list, less what was
    discarded from its front; there always is room in memory mode. *)
Lemma add_rows_ok (k : kind) (l : list (row_of k)) (size : Z) (pb : zbx_pb) (plan : list bool) :
  0 <= size ->
  exists taken rest pb' used plan' d, add_rows_loop k l size pb plan = Ret (rest, pb', plan') /\ same_globals pb pb' /\
    l = taken ++ rest /\ plan = used ++ plan' /\ rows (history pb) ++ history_of k taken = d ++ rows (history pb') /\
    (d <> [] -> mode pb = ZBX_PB_MODE_MEMORY /\ false ∈ used) /\ (rest <> [] -> mode pb <> ZBX_PB_MODE_MEMORY).
Proof.
  assert (Hnil : forall pb, rows (history pb) ++ history_of k [] = [] ++ rows (history pb)).
  { intros pb0. destruct k; simpl; by rewrite app_nil_r. }
  revert size pb plan. induction l as [|row l IH]; intros size pb plan Hz; cbn [add_rows_loop].
  { exists [], [], pb, [], plan, []. split_and!; done. }
  destruct (store_ok (2 + mem_rows_num pb) k row size pb plan) as (a & size' & pb1 & used & plan1 & E & Hz' & -> & Hg & Hs); [lia|done|].
  unfold store_row. rewrite E. run. destruct a; simpl in Hs.
  2: { destruct Hs as [-> Hm]. exists [], (row :: l), pb, used, plan1, []. split_and!; done. }
  all: destruct Hs as (d & Hs & Hdm);
    destruct (IH size' pb1 plan1 Hz') as (taken & rest & pb' & used' & plan' & d' & E' & Hg' & -> & -> & Hd & Hdm' & Hm);
    exists (row :: taken), rest, pb', (used ++ used'), plan', (d ++ d'); rewrite (same_mode _ _ Hg) in Hdm', Hm;
    (split_and!; [done|by eapply same_globals_trans|done|by rewrite app_assoc| |rewrite elem_of_app|done]).
  all: try (change (row :: taken) with ([row] ++ taken); rewrite history_of_app, app_assoc, Hs, <- app_assoc, Hd, app_assoc; done).
  all: intros Hne; destruct d as [|x d]; [destruct (Hdm' Hne)|destruct Hdm; [done|]]; auto.
Qed.

(* ------------------------------------------------------------------ *)
(** ** Falling back to the database *)

Lemma raise_db_ok (k : kind) (id : Z) (pb : zbx_pb) :
  rows (history (raise_db k id pb)) = rows (history pb) /\ lastid_sent (history (raise_db k id pb)) = lastid_sent (history pb) /\
  mode (raise_db k id pb) = mode pb /\ state (raise_db k id pb) = state pb /\
  db_handles_num (raise_db k id pb) = db_handles_num pb /\ handleid (raise_db k id pb) = handleid pb /\
  history_handleids (raise_db k id pb) = history_handleids pb.
Proof. unfold raise_db. case_match; [|done]. by destruct k. Qed.

Lemma raise_db_history (id : Z) (pb : zbx_pb) :
  lastid_db (history (raise_db KHistory id pb)) = Z.max (lastid_db (history pb)) id.
Proof. unfold raise_db, set_db. cbn. destruct (Z.ltb_spec (lastid_db (history pb)) id); cbn; lia. Qed.

Lemma raise_db_other (k : kind) (id : Z) (pb : zbx_pb) : k <> KHistory ->
  history (raise_db k id pb) = history pb.
Proof. intros Hk. unfold raise_db. case_match; [|done]. by destruct k. Qed.

(** What a fall back does: nothing of history stays in memory; either it is
    all in the table, or the transaction failed and the database is as it
    was. *)
Record fallen (ok : bool) (pb : zbx_pb) (db : database) (pb' : zbx_pb) (db' : database) : Prop := {
  fl_state : state pb' = PB_DATABASE;
  fl_mode : mode pb' = mode pb;
  fl_num : db_handles_num pb' = db_handles_num pb;
  fl_handleid : handleid pb' = handleid pb;
  fl_handleids : history_handleids pb' = history_handleids pb;
  fl_sent : lastid_sent (history pb') = lastid_sent (history pb);
  fl_rows : rows (history pb') = clear_rows UINT64_MAX (rows (history pb));
  fl_raised : lastid_db (history pb) <= lastid_db (history pb');
  fl_db : if ok && negb (bool_decide (mode pb = ZBX_PB_MODE_MEMORY))
    then proxy_history db' = proxy_history db ++ rows (history pb) /\
      (ids db' KHistory = ids db KHistory \/ ids db' KHistory = lastid_sent (history pb)) /\
      (rows (history pb) <> [] -> last_row_id (rows (history pb)) <= lastid_db (history pb'))
    else db' = db
}.

Lemma cleared_all (pb : zbx_pb) (s : zbx_pb_state_t) :
  let pb' := pb_set_state s (pb_autoreg_clear UINT64_MAX (pb_discovery_clear UINT64_MAX (pb_history_clear UINT64_MAX pb))) in
  mode pb' = mode pb /\ db_handles_num pb' = db_handles_num pb /\ handleid pb' = handleid pb /\
  history_handleids pb' = history_handleids pb /\ lastid_sent (history pb') = lastid_sent (history pb) /\
  lastid_db (history pb') = lastid_db (history pb) /\ rows (history pb') = clear_rows UINT64_MAX (rows (history pb)).
Proof. done. Qed.

Lemma flush_lastids_history (pb : zbx_pb) (db : database) :
  proxy_history (pb_flush_lastids pb db) = proxy_history db /\
  (ids (pb_flush_lastids pb db) KHistory = ids db KHistory \/
   ids (pb_flush_lastids pb db) KHistory = lastid_sent (history pb)).
Proof.
  unfold pb_flush_lastids, flush_lastid. cbn.
  destruct (lastid_sent (autoreg pb) =? 0), (lastid_sent (discovery pb) =? 0), (lastid_sent (history pb) =? 0); simpl; auto.
Qed.

(** What a flush leaves of the buffer, whether it is committed or not. *)
Record flushing (pb pb' : zbx_pb) : Prop := {
  fg_rows : rows (history pb') = rows (history pb);
  fg_sent : lastid_sent (history pb') = lastid_sent (history pb);
  fg_mode : mode pb' = mode pb;
  fg_num : db_handles_num pb' = db_handles_num pb;
  fg_handleid : handleid pb' = handleid pb;
  fg_handleids : history_handleids pb' = history_handleids pb;
  fg_db : lastid_db (history pb') = Z.max (lastid_db (history pb)) (last_row_id (rows (history pb)))
}.

(** What its transaction does to the tables. *)
Definition flushed_to (pb : zbx_pb) (db db' : database) : Prop :=
  proxy_history db' = proxy_history db ++ rows (history pb) /\
  (ids db' KHistory = ids db KHistory \/ ids db' KHistory = lastid_sent (history pb)).

Lemma flush_kinds_ok (pb : zbx_pb) (db : database) :
  flushing pb (fst (flush_kinds pb db)) /\ flushed_to pb db (snd (flush_kinds pb db)).
Proof.
  unfold flush_kinds, pb_autoreg_flush, pb_discovery_flush, pb_history_flush, pb_flush_kind. cbn [fst snd].
  set (pb1 := raise_db KAutoreg _ pb). set (pb2 := raise_db KDiscovery _ pb1). set (pb3 := raise_db KHistory _ pb2).
  destruct (raise_db_ok KAutoreg (last_row_id (mem_rows KAutoreg pb)) pb) as (R1 & S1 & M1 & _ & N1 & H1 & L1).
  destruct (raise_db_ok KDiscovery (last_row_id (mem_rows KDiscovery pb1)) pb1) as (R2 & S2 & M2 & _ & N2 & H2 & L2).
  destruct (raise_db_ok KHistory (last_row_id (mem_rows KHistory pb2)) pb2) as (R3 & S3 & M3 & _ & N3 & H3 & L3).
  fold pb1 in R1, S1, M1, N1, H1, L1. fold pb2 in R2, S2, M2, N2, H2, L2. fold pb3 in R3, S3, M3, N3, H3, L3.
  split; [constructor; try congruence|].
  - unfold pb3. rewrite raise_db_history. unfold mem_rows. cbn [get_chan]. unfold pb2.
    rewrite raise_db_other by done. unfold pb1. by rewrite raise_db_other by done.
  - destruct (flush_lastids_history pb3 (pb_add_rows_db KHistory (mem_rows KHistory pb2)
      (pb_add_rows_db KDiscovery (mem_rows KDiscovery pb1) (pb_add_rows_db KAutoreg (mem_rows KAutoreg pb) db)))) as [E1 E2].
    split; [etransitivity; [exact E1|]; unfold mem_rows; cbn; by rewrite R2, R1|].
    destruct E2 as [E2 | E2]; [left; exact E2|right; etransitivity; [exact E2|congruence]].
Qed.

(** The transaction is made until the database answers. *)
Lemma flush_loop_ok (commits : list commit_result) (pb : zbx_pb) (db : database) :
  match commit_outcome commits with
  | Some ok => exists pb' db', flush_loop commits pb db = Ret (pb', db') /\ flushing pb pb' /\
      if ok then flushed_to pb db db' else db' = db
  | None => flush_loop commits pb db = NoFuel
  end.
Proof.
  revert pb. induction commits as [|commit commits IH]; intros pb; [done|]. cbn [commit_outcome flush_loop].
  destruct (flush_kinds_ok pb db) as [Hpb Hdb]. destruct (flush_kinds pb db) as [pb1 db1]. cbn [fst snd] in Hpb, Hdb.
  destruct commit; [by exists pb1, db1|by exists pb1, db|].
  specialize (IH pb1). destruct (commit_outcome commits) as [ok|]; [|done]. destruct IH as (pb' & db' & E & Hpb' & Hdb').
  destruct Hpb, Hpb'. exists pb', db'. split_and!; [done|constructor; try congruence; rewrite fg_db1, fg_db0, fg_rows0; lia|].
  unfold flushed_to in *. destruct ok; [|done]. by rewrite fg_rows0, fg_sent0 in Hdb'.
Qed.

(** A fall back comes to an end when nothing is to be flushed or when the
    database answers. *)
Lemma fallback_ok (commits : list commit_result) (pb : zbx_pb) (db : database) :
  (exists pb' db', pd_fallback_to_database commits pb db = Ret (pb', db') /\
    fallen (bool_decide (commit_outcome commits = Some true)) pb db pb' db') \/
  (pd_fallback_to_database commits pb db = NoFuel /\ commit_outcome commits = None /\ mode pb <> ZBX_PB_MODE_MEMORY).
Proof.
  unfold pd_fallback_to_database, pb_flush. set (ok := bool_decide (commit_outcome commits = Some true)).
  destruct (bool_decide_reflect (mode pb = ZBX_PB_MODE_MEMORY)) as [Em | Em]; cbn [negb andb].
  { left. run. eexists _, _. split; [done|]. constructor; try done. rewrite bool_decide_eq_true_2 by done. by rewrite andb_comm. }
  destruct (pb_has_mem_rows KHistory pb || pb_has_mem_rows KDiscovery pb || pb_has_mem_rows KAutoreg pb) eqn:Er.
  2: { left. run. eexists _, _. split; [done|]. constructor; try done. rewrite bool_decide_eq_false_2 by done.
    apply orb_false_iff in Er as [[Eh _]%orb_false_iff _]. unfold pb_has_mem_rows, mem_rows in Eh. cbn in Eh.
    destruct (rows (history pb)); [|done]. destruct ok; [|done]. rewrite app_nil_r. split_and!; [done|by left|done]. }
  pose proof (flush_loop_ok commits pb db) as H. destruct (commit_outcome commits) as [b|]; [left|right; by rewrite H].
  destruct H as (pb3 & db' & -> & [R S M N Hd L B] & Hdb). run. eexists _, _. split; [done|].
  destruct (cleared_all pb3 PB_DATABASE) as (Cm & Cn & Ch & Cl & Cs & Cb & Cr).
  constructor; [done|congruence..| | |].
  - rewrite Cr. congruence.
  - rewrite Cb, B. lia.
  - rewrite (bool_decide_eq_false_2 (mode pb = _)) by done. replace ok with b by (subst ok; by destruct b).
    destruct b; [|done]. cbn [andb negb]. destruct Hdb as [E1 E2]. split_and!; [done..|]. intros _. rewrite Cb, B. lia.
Qed.

(* ------------------------------------------------------------------ *)
(** ** The changes made while a writer puts rows into memory *)

(** The rows with ids that are still to be stored, and the state, before and
    after one change made with the buffer locked.  Rows are dropped for age
    only when they are beyond the offline buffer, and for want of room only
    when an allocation has failed in memory mode. *)
Inductive change (k : kind) : list (row_of k) -> sys -> list (row_of k) -> sys -> Prop :=
  | change_drop l s pb' d now :
    same_globals (s_pb s) pb' -> rows (history (s_pb s)) = d ++ rows (history pb') ->
    (forall r, r ∈ d -> expired now (s_pb s) r = true) ->
    change k l s l (note_lost Expired (gone (expired now (s_pb s)) (rows (history (s_pb s))) (rows (history pb'))) (with_pb pb' s))
  | change_store taken rest s pb' d cause :
    get_pb_dst (state (s_pb s)) = PB_MEMORY -> same_globals (s_pb s) pb' ->
    rows (history (s_pb s)) ++ history_of k taken = d ++ rows (history pb') -> (forall r, r ∈ d -> cause r = true) ->
    (forall r, cause r = true -> mode (s_pb s) = ZBX_PB_MODE_MEMORY) ->
    change k (taken ++ rest) s rest
      (note_lost NoRoom (gone cause (rows (history (s_pb s)) ++ history_of k taken) (rows (history pb'))) (with_pb pb' s))
  | change_flush l s too_old commits s' :
    fall_back too_old commits s = Ret s' -> (mode (s_pb s) = ZBX_PB_MODE_MEMORY -> too_old = true) ->
    change k l s l s'
  | change_full l s :
    state (s_pb s) = PB_MEMORY -> change k l s l (with_pb (pb_set_state PB_MEMORY_DATABASE (s_pb s)) s).

Inductive changes (k : kind) : list (row_of k) -> sys -> list (row_of k) -> sys -> Prop :=
  | changes_done l s : changes k l s l s
  | changes_step l s l1 s1 l2 s2 : change k l s l1 s1 -> changes k l1 s1 l2 s2 -> changes k l s l2 s2.

(** What is kept through all of the changes is kept. *)
Lemma changes_keep (k : kind) (P : list (row_of k) -> sys -> Prop) (l l' : list (row_of k)) (s s' : sys) :
  (forall l s l' s', change k l s l' s' -> P l s -> P l' s') -> changes k l s l' s' -> P l s -> P l' s'.
Proof. intros Hstep. induction 1; eauto. Qed.

Lemma changes_trans (k : kind) (l1 l2 l3 : list (row_of k)) (s1 s2 s3 : sys) :
  changes k l1 s1 l2 s2 -> changes k l2 s2 l3 s3 -> changes k l1 s1 l3 s3.
Proof. induction 1; [done|]. intros. econstructor; eauto. Qed.

(** Falling back, on the level of the system. *)
Record fell (too_old : bool) (commits : list commit_result) (s s' : sys) (pb' : zbx_pb) (db' : database) : Prop := {
  fe_fallen : fallen (bool_decide (commit_outcome commits = Some true)) (s_pb s) (s_db s) pb' db';
  fe_state : s' = (let s1 := with_db db' (with_pb pb' s) in
    if bool_decide (mode (s_pb s) = ZBX_PB_MODE_MEMORY)
    then note_lost TooOld (if too_old then rows (history (s_pb s)) else []) s1
    else if bool_decide (commit_outcome commits = Some true) then s1
    else note_lost NotCommitted (rows (history (s_pb s))) s1)
}.

Lemma fall_back_ok (too_old : bool) (commits : list commit_result) (s : sys) :
  (exists s' pb' db', fall_back too_old commits s = Ret s' /\ fell too_old commits s s' pb' db') \/
  (fall_back too_old commits s = NoFuel /\ commit_outcome commits = None /\ mode (s_pb s) <> ZBX_PB_MODE_MEMORY).
Proof.
  unfold fall_back. destruct (fallback_ok commits (s_pb s) (s_db s)) as [(pb' & db' & -> & H) | (-> & H)]; [left|by right].
  run. by eexists _, pb', db'.
Qed.

Lemma fell_state (too_old : bool) (commits : list commit_result) (s s' : sys) (pb' : zbx_pb) (db' : database) :
  fell too_old commits s s' pb' db' -> s_pb s' = pb' /\ s_hs s' = s_hs s /\ s_ids s' = s_ids s.
Proof. intros [_ ->]. cbn zeta. by repeat case_match. Qed.

(** What putting rows into memory comes to: what could not be stored is left,
    and then new data goes to the database; or it waits for the database. *)
Definition closed (k : kind) (l : list (row_of k)) (commits : list commit_result) (s : sys)
    (r : res (option (list (row_of k)) * sys)) : Prop :=
  (exists o s', r = Ret (o, s') /\ changes k l s (default [] o) s' /\
    (o <> None -> get_pb_dst (state (s_pb s')) = PB_DATABASE)) \/
  (r = NoFuel /\ commit_outcome commits = None /\ mode (s_pb s) <> ZBX_PB_MODE_MEMORY).

Lemma closed_fall_back (k : kind) (l rest : list (row_of k)) (too_old : bool) (commits : list commit_result) (s s1 : sys) :
  changes k l s rest s1 -> mode (s_pb s1) = mode (s_pb s) -> (mode (s_pb s1) = ZBX_PB_MODE_MEMORY -> too_old = true) ->
  closed k l commits s (s ← fall_back too_old commits s1; Ret (Some rest, s)).
Proof.
  intros Hch Em Hold. destruct (fall_back_ok too_old commits s1) as [(s' & pb' & db' & E & Hf) | (E & H1 & H2)]; rewrite E; run.
  - left. exists (Some rest), s'. split_and!; [done| |].
    + eapply changes_trans; [exact Hch|]. eapply changes_step; [by eapply change_flush|constructor].
    + intros _. destruct (fell_state _ _ _ _ _ _ Hf) as (-> & _). by rewrite (fl_state _ _ _ _ _ (fe_fallen _ _ _ _ _ _ Hf)).
  - right. split_and!; [done..|congruence].
Qed.

Lemma close_to_mem_ok (k : kind) (l : list (row_of k)) (now now' : Z) (plan : list bool) (commits : list commit_result) (s : sys) :
  closed k l commits s (close_to_mem k l now now' plan commits s).
Proof.
  unfold close_to_mem.
  assert (H : exists young s1, (if bool_decide (state (s_pb s) = PB_MEMORY) then age_out k now now' s else (true, s)) = (young, s1) /\
    changes k l s l s1 /\ same_globals (s_pb s) (s_pb s1)).
  { case_bool_decide; [|eexists _, _; split_and!; [done|constructor|apply same_globals_refl]].
    unfold age_out. destruct (check_age_ok k now now' (s_pb s)) as (Hg & d & Hd & Hexp).
    destruct (pb_check_age k now now' (s_pb s)) as [young pb']. cbn [snd] in Hg, Hd. eexists _, _. split_and!; [done| |done].
    eapply changes_step; [by eapply change_drop|constructor]. }
  destruct H as (young & s1 & -> & Hch & Hg). destruct young; cbn [negb]; [|by apply closed_fall_back; [|apply Hg|]].
  case_bool_decide as Ed.
  2: { left. exists (Some l), s1. split_and!; [done..|]. intros _. by destruct (state (s_pb s1)). }
  destruct (add_rows_ok k l 0 (s_pb s1) plan) as (taken & rest & pb' & used & plan' & d & E & Hg' & -> & -> & Hd & Hm & Hr); [done|].
  unfold pb_add_rows_mem. rewrite E. run. rewrite length_app, Nat.add_sub, take_app_length.
  set (s2 := note_lost NoRoom _ _).
  assert (Hch2 : changes k (taken ++ rest) s rest s2).
  { eapply changes_trans; [exact Hch|]. eapply changes_step; [|constructor]. apply (change_store k taken rest s1 pb' d); [done..| |].
    2: { intros r [Em _]%andb_true_iff. by apply bool_decide_eq_true_1 in Em. }
    intros r Hin. assert (d <> []) by (intros ->; by apply elem_of_nil in Hin). destruct Hm as [Hm Hf]; [done|].
    unfold no_room. rewrite bool_decide_eq_true_2 by done. rewrite length_app, Nat.add_sub, take_app_length. cbn [andb].
    apply existsb_exists. exists false. split; [by apply list_elem_of_In|done]. }
  destruct rest as [|r0 rest]; [left; by exists None, s2|].
  case_bool_decide as Est.
  - apply closed_fall_back; [done|cbn; by rewrite (same_mode _ _ Hg'), (same_mode _ _ Hg)|]. cbn.
    rewrite (same_mode _ _ Hg'). intros Em. by destruct (Hr ltac:(done)).
  - left. eexists (Some _), _. split_and!; [done| |done].
    eapply changes_trans; [exact Hch2|]. eapply changes_step; [|constructor].
    assert (Hst : state pb' = PB_MEMORY) by (rewrite (same_state _ _ Hg') in *; by destruct (state (s_pb s1))).
    by apply (change_full k _ s2).
Qed.
