(* ===== verification/PbHandles.v ===== *)
(** The open handles of the writers against what the proxy buffer records of
    them: the number of handles that write to the database and the ids of the
    handles of history. *)

From Stdlib Require Import ZArith Lia.
From S2P Require Import Prelude PbBuffer PbExport PbSystem PbInv.
From stdpp Require Import base list numbers gmap fin_maps fin_map_dom.

Open Scope Z_scope.

(* ------------------------------------------------------------------ *)
(** ** Removing an element of a vector *)

Lemma remove_noorder_perm (id : Z) (l : list Z) :
  NoDup l -> id ∈ l -> l ≡ₚ id :: remove_noorder id (List.last l 0) l.
Proof.
  induction l as [|x l IH]; [by intros _ ?%elem_of_nil|].
  intros [Hx Hl]%NoDup_cons [-> | Hid]%elem_of_cons; cbn [remove_noorder].
  - rewrite Z.eqb_refl. destruct l as [|y l]; [done|]. cbn [List.last].
    rewrite (app_removelast_last (l := y :: l) 0) at 1 by done. constructor. by rewrite Permutation_app_comm.
  - destruct (Z.eqb_spec x id) as [-> | Hne]; [done|]. destruct l as [|y l]; [by apply elem_of_nil in Hid|].
    change (List.last (x :: y :: l) 0) with (List.last (y :: l) 0). rewrite (IH Hl Hid) at 1. apply perm_swap.
Qed.

(* ------------------------------------------------------------------ *)
(** ** Counting *)

Definition to_db {R : Type} (x : handle R) : bool := match x with HMem _ => false | _ => true end.
Definition weight {R : Type} (o : option (handle R)) : Z := match o with Some x => if to_db x then 1 else 0 | None => 0 end.

(** The handles of a kind that write to the database. *)
Definition db_handles {R : Type} (m : gmap Z (handle R)) : Z :=
  Z.of_nat (size (filter (fun kv => to_db kv.2 = true) m)).

Lemma db_handles_empty {R : Type} : db_handles (∅ : gmap Z (handle R)) = 0.
Proof. unfold db_handles. by rewrite map_filter_empty, map_size_empty. Qed.

Lemma db_handles_delete {R : Type} (h : Z) (m : gmap Z (handle R)) : db_handles (delete h m) = db_handles m - weight (m !! h).
Proof.
  unfold db_handles. rewrite map_filter_delete, map_size_delete. rewrite map_lookup_filter.
  destruct (m !! h) as [x|] eqn:E; simpl; [|lia]. destruct (to_db x) eqn:Ex; simpl.
  - assert (Hin : filter (fun kv => to_db kv.2 = true) m !! h = Some x) by by apply map_lookup_filter_Some.
    assert (size (filter (fun kv => to_db kv.2 = true) m) <> 0%nat) by (intros H0%map_size_empty_inv; by rewrite H0, lookup_empty in Hin).
    lia.
  - lia.
Qed.

Lemma db_handles_insert {R : Type} (h : Z) (x : handle R) (m : gmap Z (handle R)) :
  db_handles (<[h := x]> m) = db_handles m - weight (m !! h) + weight (Some x).
Proof.
  rewrite <- (db_handles_delete h m). rewrite <- insert_delete_eq. set (m' := delete h m).
  assert (Hm : m' !! h = None) by apply lookup_delete_eq. clearbody m'. unfold db_handles. simpl. destruct (to_db x) eqn:Ex.
  - rewrite map_filter_insert_True by done. rewrite map_size_insert_None; [lia|]. apply map_lookup_filter_None. by left.
  - rewrite map_filter_insert_False by (simpl; congruence). rewrite (delete_id m' h Hm). lia.
Qed.

(* ------------------------------------------------------------------ *)
(** ** The record of the handles is right *)

Record counted (s : sys) : Prop := {
  ct_num : db_handles_num (s_pb s) =
    db_handles (hs_history (s_hs s)) + db_handles (hs_discovery (s_hs s)) + db_handles (hs_autoreg (s_hs s));
  ct_ids : history_handleids (s_pb s) ≡ₚ (map_to_list (hs_history (s_hs s))).*1;
  ct_history : map_Forall (fun h _ => 0 < h <= handleid (s_pb s)) (hs_history (s_hs s));
  ct_discovery : map_Forall (fun h _ => 0 < h <= handleid (s_pb s)) (hs_discovery (s_hs s));
  ct_pos : 0 <= handleid (s_pb s)
}.

Lemma keys_update {A : Type} (h : Z) (x y : A) (m : gmap Z A) :
  m !! h = Some y -> (map_to_list (<[h := x]> m)).*1 ≡ₚ (map_to_list m).*1.
Proof.
  intros E. rewrite <- (insert_delete_id m h y E) at 2. rewrite <- (insert_delete_eq m h x).
  rewrite !map_to_list_insert by apply lookup_delete_eq. done.
Qed.

Lemma keys_delete {A : Type} (h : Z) (y : A) (m : gmap Z A) :
  m !! h = Some y -> (map_to_list m).*1 ≡ₚ h :: (map_to_list (delete h m)).*1.
Proof. intros E. by rewrite <- (map_to_list_delete m h y E). Qed.

Lemma keys_insert {A : Type} (h : Z) (x : A) (m : gmap Z A) :
  m !! h = None -> (map_to_list (<[h := x]> m)).*1 ≡ₚ h :: (map_to_list m).*1.
Proof. intros E. by rewrite map_to_list_insert. Qed.

#[local] Arguments weight : simpl never.

(** Only these parts matter. *)
Lemma counted_same (s s' : sys) :
  s_hs s' = s_hs s -> db_handles_num (s_pb s') = db_handles_num (s_pb s) -> handleid (s_pb s') = handleid (s_pb s) ->
  history_handleids (s_pb s') = history_handleids (s_pb s) -> counted s -> counted s'.
Proof. intros Eh En Ei El []. constructor; rewrite ?Eh, ?En, ?Ei, ?El; done. Qed.

(** A handle takes another form, and the number follows. *)
Lemma counted_put (k : kind) (h n : Z) (x : handle (row_of k)) (s : sys) :
  (k = KAutoreg \/ is_Some (get_hs k (s_hs s) !! h)) -> n = weight (Some x) - weight (get_hs k (s_hs s) !! h) ->
  counted s -> counted (put_handle k h x (with_pb (add_db_handles n (s_pb s)) s)).
Proof.
  intros Hk Hn [Cn Ci Ch Cd Cp]. destruct k; cbn in *.
  - destruct Hk as [? | [y Ey]]; [done|]. constructor; cbn; [rewrite db_handles_insert; lia| | | done|done].
    + by rewrite (keys_update _ _ _ _ Ey).
    + apply map_Forall_insert_2; [by apply (Ch h y)|done].
  - destruct Hk as [? | [y Ey]]; [done|]. constructor; cbn; [rewrite db_handles_insert; lia|done|done| |done].
    apply map_Forall_insert_2; [by apply (Cd h y)|done].
  - constructor; cbn; [rewrite db_handles_insert; lia|done..].
Qed.

(** A handle is closed. *)
Lemma counted_release (k : kind) (h n : Z) (s : sys) :
  is_Some (get_hs k (s_hs s) !! h) -> n = - weight (get_hs k (s_hs s) !! h) ->
  counted s -> counted (pb_release k h (with_pb (add_db_handles n (s_pb s)) s)).
Proof.
  intros [y Ey] Hn [Cn Ci Ch Cd Cp]. destruct k; cbn in *.
  - constructor; cbn; [rewrite db_handles_delete; lia| |by apply map_Forall_delete|done|done].
    assert (Hnd : NoDup (history_handleids (s_pb s))) by (rewrite Ci; apply NoDup_fst_map_to_list).
    assert (Hin : h ∈ history_handleids (s_pb s)).
    { rewrite Ci. rewrite (keys_delete _ _ _ Ey). left. }
    apply (Permutation_cons_inv (a := h)). rewrite <- remove_noorder_perm by done.
    by rewrite Ci, (keys_delete _ _ _ Ey).
  - constructor; cbn; [rewrite db_handles_delete; lia|done|done|by apply map_Forall_delete|done].
  - constructor; cbn; [rewrite db_handles_delete; lia|done..].
Qed.

(** A handle is opened. *)
Lemma counted_open (k : kind) (s : sys) :
  k <> KAutoreg -> handleid (s_pb s) + 1 < 2 ^ 64 -> counted s -> counted (pb_open k s).
Proof.
  intros Hk Hw [Cn Ci Ch Cd Cp].
  assert (Eu : u64 (handleid (s_pb s) + 1) = handleid (s_pb s) + 1) by (apply u64_small; lia).
  assert (Fh : hs_history (s_hs s) !! (handleid (s_pb s) + 1) = None).
  { destruct (_ !! _) eqn:E; [|done]. apply Ch in E. simpl in E. lia. }
  assert (Fd : hs_discovery (s_hs s) !! (handleid (s_pb s) + 1) = None).
  { destruct (_ !! _) eqn:E in |- *; [|done]. apply Cd in E. simpl in E. lia. }
  unfold pb_open. destruct k; [| |done]; unfold pb_register_handle, pb_get_next_handleid; cbn; rewrite Eu;
    case_match; constructor; cbn; rewrite ?db_handles_insert, ?Fh, ?Fd; unfold weight; simpl; try lia;
    try done; try (rewrite keys_insert by done; rewrite Permutation_app_comm; by constructor);
    try (apply map_Forall_insert_2; [lia|]); (eapply map_Forall_impl; [done|]); simpl; lia.
Qed.

(** Putting rows into memory does not concern the handles. *)
Lemma change_counted (k : kind) (l l' : list (row_of k)) (s s' : sys) :
  change k l s l' s' -> s_hs s' = s_hs s /\ (counted s -> counted s').
Proof.
  destruct 1 as [l s pb' d now Hg _ _ | taken rest s pb' d cause _ Hg _ _ _ | l s too_old commits s' E _ | l s _].
  - split; [done|]. destruct Hg. intros Hc. by apply (counted_same s).
  - split; [done|]. destruct Hg. intros Hc. by apply (counted_same s).
  - destruct (fall_back_ok too_old commits s) as [(s1 & pb' & db' & E' & Hf) | (E' & _)]; [|congruence].
    rewrite E' in E. injection E as <-. destruct (fell_state _ _ _ _ _ _ Hf) as (Epb & Eh & _). split; [done|].
    intros Hc. destruct (fe_fallen _ _ _ _ _ _ Hf). apply (counted_same s); [done|by rewrite Epb..|done].
  - split; [done|]. intros Hc. by apply (counted_same s).
Qed.

Lemma changes_counted (k : kind) (l l' : list (row_of k)) (s s' : sys) :
  changes k l s l' s' -> counted s -> s_hs s' = s_hs s /\ counted s'.
Proof.
  intros Hc Hs. apply (changes_keep k (fun _ s' => s_hs s' = s_hs s /\ counted s') l l' s s'); [|done|done].
  intros l1 s1 l2 s2 [Eh Hk]%change_counted [E1 H1]. split; [congruence|auto].
Qed.

Lemma counted_move (k : kind) (h : Z) (x y : handle (row_of k)) (s s1 : sys) :
  get_hs k (s_hs s) !! h = Some y -> s_hs s1 = s_hs s -> s_pb s1 = s_pb s -> to_db x = to_db y ->
  counted s -> counted (put_handle k h x s1).
Proof.
  intros E Eh Ep Ew Hc. apply (counted_same (put_handle k h x (with_pb (add_db_handles 0 (s_pb s)) s))); cbn.
  - by rewrite Eh.
  - rewrite Ep. lia.
  - by rewrite Ep.
  - by rewrite Ep.
  - apply counted_put; [right; by rewrite E| |done]. rewrite E. unfold weight. rewrite Ew. lia.
Qed.

Lemma release_globals (k : kind) (h : Z) (s : sys) :
  s_hs (pb_release k h s) = set_hs k (s_hs s) (delete h (get_hs k (s_hs s))) /\
  db_handles_num (s_pb (pb_release k h s)) = db_handles_num (s_pb s) /\
  handleid (s_pb (pb_release k h s)) = handleid (s_pb s) /\
  history_handleids (s_pb (pb_release k h s)) =
    match k with
    | KHistory => remove_noorder h (List.last (history_handleids (s_pb s)) 0) (history_handleids (s_pb s))
    | _ => history_handleids (s_pb s)
    end.
Proof. by destruct k. Qed.

(** The end of a handle, whatever has been noted in the buffer before. *)
Lemma counted_close (k : kind) (h : Z) (y : handle (row_of k)) (s : sys) (pb : zbx_pb) :
  get_hs k (s_hs s) !! h = Some y -> db_handles_num pb = db_handles_num (s_pb s) - weight (Some y) ->
  handleid pb = handleid (s_pb s) -> history_handleids pb = history_handleids (s_pb s) ->
  counted s -> counted (pb_release k h (with_pb pb s)).
Proof.
  intros E En Ei El Hc.
  apply (counted_same (pb_release k h (with_pb (add_db_handles (- weight (Some y)) (s_pb s)) s)));
    rewrite ?(proj1 (release_globals k h _)), ?(proj1 (proj2 (release_globals k h _))),
      ?(proj1 (proj2 (proj2 (release_globals k h _)))), ?(proj2 (proj2 (proj2 (release_globals k h _)))); cbn.
  - done.
  - lia.
  - done.
  - by rewrite El.
  - apply counted_release; [by rewrite E|by rewrite E|done].
Qed.

Lemma raise_db_add (k : kind) (id n : Z) (pb : zbx_pb) :
  db_handles_num (add_db_handles n (raise_db k id pb)) = db_handles_num pb + n /\
  handleid (add_db_handles n (raise_db k id pb)) = handleid pb /\
  history_handleids (add_db_handles n (raise_db k id pb)) = history_handleids pb.
Proof. destruct (raise_db_ok k id pb) as (_ & _ & _ & _ & E1 & E2 & E3). cbn. by rewrite E1, E2, E3. Qed.

(** The writers keep the record right. *)
Lemma counted_close_mem (k : kind) (h now now' : Z) (plan : list bool) (commits : list commit_result) (s s' : sys) :
  counted s -> pb_close_mem k h now now' plan commits s = Ret s' -> counted s'.
Proof.
  intros Hc. unfold pb_close_mem. destruct (get_hs k (s_hs s) !! h) as [[[|r l] | l | l | l]|] eqn:E; try by intros [= <-].
  - intros [= <-]. apply (counted_close k h (HMem []) s (s_pb s)); [done|unfold weight; cbn; lia|done..].
  - unfold zbx_dc_get_nextid. set (l1 := pb_set_row_ids _ _ _). set (s1 := note_assigned _ _ _).
    assert (H1 : counted s1) by by apply (counted_same s).
    assert (E1 : get_hs k (s_hs s1) !! h = Some (HMem (r :: l))) by done.
    destruct (close_to_mem_ok k l1 now now' plan commits s1) as [(o & s2 & E2 & Hch & _) | (E2 & _)]; rewrite E2; run; [|done].
    apply changes_counted in Hch as [Eh H2]; [|done]. rewrite <- Eh in E1.
    destruct o as [rest|]; intros [= <-].
    + apply counted_put; [right; by rewrite E1|by rewrite E1|done].
    + apply (counted_close k h (HMem (r :: l)) s2 (s_pb s2)); [done|unfold weight; cbn; lia|done..].
Qed.

Lemma counted_write_host (h : Z) (row : zbx_pb_autoreg) (now now' : Z) (plan : list bool) (commits : list commit_result) (s s' : sys) :
  counted s -> zbx_pb_autoreg_write_host h row now now' plan commits s = Ret s' -> counted s'.
Proof.
  intros Hc. unfold zbx_pb_autoreg_write_host. destruct (hs_autoreg (s_hs s) !! h) eqn:E; [by intros [= <-]|].
  destruct (close_to_mem_ok KAutoreg [set_row_id (s_ids s KAutoreg + 1) 0 row] now now' plan commits s)
    as [(o & s2 & E2 & Hch & _) | (E2 & _)]; rewrite E2; run; [|done]. apply changes_counted in Hch as [Eh H2]; [|done]. destruct o as [rest|]; intros [= <-].
  - apply counted_put; [by left| |done]. cbn. by rewrite Eh, E.
  - case_match; [|done]. by apply (counted_same s2).
Qed.

Lemma pb_update_state_globals (more ok : bool) (pb : zbx_pb) (db : database) :
  let pb' := fst (pb_update_state more ok pb db) in
  db_handles_num pb' = db_handles_num pb /\ handleid pb' = handleid pb /\ history_handleids pb' = history_handleids pb /\
  history pb' = history pb /\ mode pb' = mode pb.
Proof. unfold pb_update_state. repeat case_match; done. Qed.

(** Reading rows changes nothing but the sender. *)
Lemma get_rows_sender (active : Z -> bool) (j : JsonWriter.zbx_json) (s s' : sys) :
  zbx_pb_history_get_rows active j s = Ret s' -> exists sn, s' = with_sender sn s.
Proof.
  unfold zbx_pb_history_get_rows. destruct (s_sender s) eqn:E; intros H.
  2-8: apply Ret_inj in H as ->; exists (s_sender s'); by destruct s'.
  destruct (get_pb_src _); apply Ret_inj in H || apply res_bind_Ret in H as ([p more] & _ & H%Ret_inj); subst; eauto.
Qed.

Lemma get_rows_db_sender (active : Z -> bool) (s s' : sys) :
  pb_history_get_rows_db active s = Ret s' -> exists sn, s' = with_sender sn s.
Proof.
  unfold pb_history_get_rows_db. destruct (s_sender s) eqn:E; intros H.
  1, 3-8: apply Ret_inj in H as ->; exists (s_sender s'); by destruct s'.
  destruct (scan_rows _ _ _ _) as [[got last] [g|]].
  - apply Ret_inj in H as <-. eauto.
  - apply res_bind_Ret in H as ([p [more | id]] & _ & H%Ret_inj); subst; eauto.
Qed.

Lemma counted_exec (e : event) (s s' : sys) :
  handleid (s_pb s) + 1 < 2 ^ 64 -> counted s -> exec e s = Ret s' -> counted s'.
Proof.
  intros Hw Hc. destruct e as [k | k h row | k h now now' plan commits | h row now now' plan commits | k h | k h commit | k h |
    active j | active | | | items proxyid received acked | | ok | called others ok | k lastid ok]; cbn [exec].
  - destruct k; intros [= <-]; [by apply counted_open..|done].
  - intros [= <-]. unfold pb_write. destruct (get_hs k (s_hs s) !! h) as [[l | l | l | l]|] eqn:E; try done;
      by eapply counted_move.
  - by apply counted_close_mem.
  - by apply counted_write_host.
  - intros [= <-]. unfold pb_alloc. destruct (get_hs k (s_hs s) !! h) as [[l | l | l | l]|] eqn:E; try done.
    by eapply counted_move.
  - intros [= <-]. unfold pb_commit. destruct (get_hs k (s_hs s) !! h) as [[l | l | l | l]|] eqn:E; try done.
    destruct commit; [by eapply counted_move..|done].
  - intros [= <-]. unfold pb_finish. destruct (get_hs k (s_hs s) !! h) as [[l | l | l | l]|] eqn:E; try done.
    destruct (raise_db_add k l (-1) (s_pb s)) as (E1 & E2 & E3).
    eapply counted_close; [done|rewrite E1; unfold weight; cbn; lia|done..].
  - intros [sn ->]%get_rows_sender. by apply (counted_same s).
  - intros [sn ->]%get_rows_db_sender. by apply (counted_same s).
  - intros [= <-]. unfold pb_wait_begin. repeat case_match; try done; by apply (counted_same s).
  - intros [= <-]. unfold pb_wait_end. repeat case_match; try done; by apply (counted_same s).
  - intros [= <-]. unfold upload. repeat case_match; try done; by apply (counted_same s).
  - intros [= <-]. unfold zbx_pb_set_history_lastid. repeat case_match; try done; by apply (counted_same s).
  - intros [= <-]. unfold pb_history_set_lastid. repeat case_match; try done; by apply (counted_same s).
  - intros [= <-]. unfold zbx_pb_update_state. case_match; try done. destruct called; [|by apply (counted_same s)].
    pose proof (pb_update_state_globals (more || others) ok (s_pb s) (s_db s)) as Hg.
    destruct (pb_update_state _ _ _ _) as [pb db]. by apply (counted_same s); try apply Hg.
  - destruct k; intros [= <-]; [done|..]; unfold set_other_lastid; case_match; by apply (counted_same s).
Qed.
