(* ===== verification/PbSafe.v ===== *)
(** No value of history is lost on the way to the server: the invariant of the
    buffer, the table, the writers, the sender and the server, and what each
    kind of change does to it. *)

From Stdlib Require Import ZArith Lia.
From S2P Require Import Prelude PbBuffer PbExport PbSystem PbInv.
From stdpp Require Import base list numbers sorting gmap.

Open Scope Z_scope.

(* ------------------------------------------------------------------ *)
(** ** What the invariant is about *)

(** The parts of the system that have to do with history: the rows in memory,
    the state of the buffer, the last ids known to be sent, to be in the
    database and to be stored as sent there, the last id given out, the table,
    the handles. *)
Record hist := Hist {
  v_rows : list zbx_pb_history;
  v_state : zbx_pb_state_t;
  v_sent : Z;
  v_db : Z;
  v_lastid : Z;
  v_last : Z;
  v_table : list zbx_pb_history;
  v_handles : gmap Z (handle zbx_pb_history);
  v_ids : list Z;
  v_sender : sender;
  v_server : server;
  v_ledger : ledger
}.

Definition view (s : sys) : hist :=
  Hist (rows (history (s_pb s))) (state (s_pb s)) (lastid_sent (history (s_pb s))) (lastid_db (history (s_pb s)))
    (ids (s_db s) KHistory) (s_ids s KHistory) (proxy_history (s_db s)) (hs_history (s_hs s)) (history_handleids (s_pb s))
    (s_sender s) (s_server s) (s_ledger s).

Definition id_lt (a b : zbx_pb_history) : Prop := h_id a < h_id b.

(** A row that needs no more attention: the server has handed it on or has
    refused it, or there was a reason that it is not sent. *)
Definition settled (sv : server) (g : ledger) (r : zbx_pb_history) : Prop :=
  r ∈ values sv \/ r ∈ refused sv \/ r ∈ (lost g).*2.

Lemma reason_rows (why : reason) (l : list zbx_pb_history) : (pair why <$> l).*2 = l.
Proof. rewrite <- list_fmap_compose. apply list_fmap_id. Qed.

(** Rows of a transaction that is not finished. *)
Definition in_trans (m : gmap Z (handle zbx_pb_history)) (r : zbx_pb_history) : Prop :=
  exists h l, m !! h = Some (HIns l) /\ r ∈ l.

(** All rows up to an id are settled, or among some rows. *)
Definition done_to (v : hist) (R : list zbx_pb_history) (id : Z) : Prop :=
  0 <= id <= v_last v /\
  forall r, r ∈ assigned (v_ledger v) -> h_id r <= id -> settled (v_server v) (v_ledger v) r \/ r ∈ R.

(** What a packet accounts for: the rows in it and those left out of it. *)
Definition taken (p : packet) (omitted : list (reason * zbx_pb_history)) : list zbx_pb_history := p_sent p ++ omitted.*2.

Record packet_ok (v : hist) (omitted : list (reason * zbx_pb_history)) (p : packet) : Prop := {
  po_done : done_to v (taken p omitted) (p_lastid p);
  po_sorted : StronglySorted id_lt (p_sent p);
  po_sent : forall r, r ∈ p_sent p -> r ∈ assigned (v_ledger v) /\ h_id r <= p_lastid p
}.

Record reading_ok (v : hist) (r : reading) : Prop := {
  ro_packet : packet_ok v (rd_left r) (rd_packet r);
  ro_done : done_to v (taken (rd_packet r) (rd_left r) ++ rd_got r) (rd_last r);
  ro_sorted : StronglySorted id_lt (rd_got r);
  ro_got : forall x, x ∈ rd_got r -> x ∈ assigned (v_ledger v) /\ p_lastid (rd_packet r) < h_id x <= rd_last r;
  ro_last : p_lastid (rd_packet r) <= rd_last r;
  ro_gap : 0 <= rd_gapid r <= v_last v;
  ro_src : get_pb_src (v_state v) = PB_DATABASE;
  ro_rows : forall m, m ∈ v_rows v -> rd_gapid r < h_id m
}.

Definition sender_ok_at (v : hist) (sn : sender) : Prop :=
  match sn with
  | Select r => reading_ok v r /\ (rd_gapid r <> 0 -> forall x, in_trans (v_handles v) x -> rd_gapid r < h_id x)
  | Gap r => reading_ok v r
  | Waiting r upto =>
    reading_ok v r /\ forall h l x, v_handles v !! h = Some (HIns l) -> x ∈ l -> rd_gapid r < h_id x \/ h <= upto
  | Ready p omitted _ => packet_ok v omitted p
  | Acked id _ | StoreId id _ => done_to v [] id
  | Idle | Update _ => True
  end.

Definition sender_ok (v : hist) : Prop := sender_ok_at v (v_sender v).

Definition gap (sn : sender) : Z :=
  match sn with Select r | Gap r | Waiting r _ => rd_gapid r | _ => 0 end.

(** The invariant; [X] are rows that have their ids and are not stored yet. *)
Record safe (X : list zbx_pb_history) (v : hist) : Prop := {
  sf_pos : 0 <= v_last v;
  sf_ids : forall r, r ∈ assigned (v_ledger v) -> 0 < h_id r <= v_last v;
  sf_inj : forall r r', r ∈ assigned (v_ledger v) -> r' ∈ assigned (v_ledger v) -> h_id r = h_id r' -> r = r';
  sf_in : forall r, r ∈ v_rows v \/ r ∈ v_table v \/ in_trans (v_handles v) r \/ r ∈ X -> r ∈ assigned (v_ledger v);
  sf_all : forall r, r ∈ assigned (v_ledger v) ->
    settled (v_server v) (v_ledger v) r \/ r ∈ v_rows v \/ r ∈ v_table v \/ in_trans (v_handles v) r \/ r ∈ X;
  sf_lastid : done_to v [] (v_lastid v);
  sf_sent : done_to v [] (v_sent v);
  sf_server : done_to v [] (last_id (v_server v));
  sf_sorted : StronglySorted id_lt (v_rows v ++ X);
  sf_new : forall x r, x ∈ X -> r ∈ v_table v \/ in_trans (v_handles v) r -> h_id r < h_id x;
  sf_gap : forall x, x ∈ X -> gap (v_sender v) < h_id x;
  sf_memory : v_state v = PB_MEMORY ->
    (forall r, r ∈ v_table v -> settled (v_server v) (v_ledger v) r) /\
    map_Forall (fun _ x => exists l, x = HMem l) (v_handles v);
  sf_src : get_pb_src (v_state v) = PB_MEMORY -> forall m, m ∈ v_rows v ->
    (forall r, r ∈ v_table v -> settled (v_server v) (v_ledger v) r \/ h_id m < h_id r) /\
    (forall r, in_trans (v_handles v) r -> h_id m < h_id r);
  sf_database : v_state v = PB_DATABASE -> v_rows v = [];
  sf_both : v_state v = PB_DATABASE_MEMORY -> forall m r, m ∈ v_rows v ->
    r ∈ v_table v \/ in_trans (v_handles v) r -> h_id r < h_id m;
  sf_db : forall r, r ∈ v_table v -> h_id r <= v_db v \/ exists h id, v_handles v !! h = Some (HFin id) /\ h_id r <= id;
  sf_keys : map_Forall (fun h _ => 0 < h /\ h ∈ v_ids v) (v_handles v);
  sf_trans : map_Forall (fun _ x => forall l, x = HIns l -> StronglySorted id_lt l) (v_handles v);
  sf_values : StronglySorted id_lt (values (v_server v));
  sf_last : forall r, r ∈ values (v_server v) -> r ∈ assigned (v_ledger v) /\ h_id r <= last_id (v_server v);
  sf_sender : sender_ok v;
  sf_nodup : NoDup (v_table v);
  sf_apart : forall r, r ∈ v_table v -> r ∉ v_rows v /\ ~ in_trans (v_handles v) r;
  sf_trans_apart : forall r, in_trans (v_handles v) r -> r ∉ v_rows v;
  sf_own : forall h h' l l' r, v_handles v !! h = Some (HIns l) -> v_handles v !! h' = Some (HIns l') ->
    r ∈ l -> r ∈ l' -> h = h'
}.

(* ------------------------------------------------------------------ *)
(** ** Sorted rows *)

Lemma sorted_app (a b : list zbx_pb_history) :
  StronglySorted id_lt (a ++ b) <->
  StronglySorted id_lt a /\ StronglySorted id_lt b /\ forall x y, x ∈ a -> y ∈ b -> h_id x < h_id y.
Proof. rewrite StronglySorted_app. unfold id_lt at 1. naive_solver. Qed.

Lemma sorted_sublist (a b : list zbx_pb_history) : a `sublist_of` b -> StronglySorted id_lt b -> StronglySorted id_lt a.
Proof.
  induction 1 as [|x a b Hab IH|x a b _ IH]; [done|..]; rewrite !StronglySorted_cons; [|tauto].
  intros [Hx Hb]. split; [|auto]. rewrite Forall_forall in *. intros y Hy. apply Hx. by eapply elem_of_sublist.
Qed.

Lemma sorted_last (l : list zbx_pb_history) (r : zbx_pb_history) :
  StronglySorted id_lt l -> r ∈ l -> h_id r <= last_row_id l.
Proof.
  intros Hs Hr. unfold last_row_id. destruct l as [|y l _] using rev_ind; [by apply elem_of_nil in Hr|].
  rewrite last_snoc. cbn. apply sorted_app in Hs as (_ & _ & Hs). apply elem_of_app in Hr as [Hr | ->%list_elem_of_singleton]; [|lia].
  specialize (Hs r y Hr). set_solver by lia.
Qed.

Lemma sorted_nodup (l : list zbx_pb_history) : StronglySorted id_lt l -> NoDup l.
Proof.
  induction l as [|x l IH]; [constructor|]. rewrite StronglySorted_cons, Forall_forall. intros [Hx Hl].
  constructor; [|auto]. intros Hin. specialize (Hx x Hin). unfold id_lt in Hx. lia.
Qed.

(** What is left out of a sorted list when only its end is kept. *)
Lemma gone_front (cause : zbx_pb_history -> bool) (d l : list zbx_pb_history) (r : zbx_pb_history) :
  StronglySorted id_lt (d ++ l) -> (forall r, r ∈ d -> cause r = true) -> r ∈ d -> r ∈ gone cause (d ++ l) l.
Proof.
  intros (_ & _ & Hs)%sorted_app Hc Hr. unfold gone. apply list_elem_of_filter. split; [split; [by apply Hc|]|set_solver].
  intros (y & Ey & Hy)%list_elem_of_fmap. specialize (Hs r y Hr Hy). lia.
Qed.

Lemma clear_rows_front (id : Z) (l : list zbx_pb_history) :
  exists d, l = d ++ clear_rows id l /\ forall r, r ∈ d -> h_id r <= id.
Proof.
  induction l as [|r l (d & E & Hd)]; [by exists []; split; [|intros ? ?%elem_of_nil]|]. cbn [clear_rows].
  destruct (Z.ltb_spec id (row_id r)) as [Hl | Hl]; [by exists []; split; [|intros ? ?%elem_of_nil]|].
  exists (r :: d). split; [by rewrite E at 1|]. intros x [-> | Hx]%elem_of_cons; [done|auto].
Qed.

Lemma clear_rows_all (id : Z) (l : list zbx_pb_history) :
  (forall r, r ∈ l -> h_id r <= id) -> clear_rows id l = [].
Proof.
  induction l as [|r l IH]; [done|]. intros Hl. cbn [clear_rows]. destruct (Z.ltb_spec id (row_id r)) as [H1 | H1].
  - specialize (Hl r ltac:(left)). cbn in H1. lia.
  - apply IH. intros x Hx. apply Hl. by right.
Qed.

(* ------------------------------------------------------------------ *)
(** ** What stays true as the system goes on *)

(** Rows may have been given ids above the last one, and more is settled. *)
Record later (v v' : hist) : Prop := {
  lt_last : v_last v <= v_last v';
  lt_assigned : forall r, r ∈ assigned (v_ledger v) -> r ∈ assigned (v_ledger v');
  lt_new : forall r, r ∈ assigned (v_ledger v') -> r ∈ assigned (v_ledger v) \/ v_last v < h_id r;
  lt_settled : forall r, settled (v_server v) (v_ledger v) r -> settled (v_server v') (v_ledger v') r
}.

Lemma later_done (v v' : hist) (R : list zbx_pb_history) (id : Z) : later v v' -> done_to v R id -> done_to v' R id.
Proof.
  intros [Hl _ Hn Hs] [Hi Hd]. split; [lia|]. intros r Hr Hle. destruct (Hn r Hr) as [Hr' | Hr']; [|lia].
  destruct (Hd r Hr' Hle); auto.
Qed.

Lemma later_packet (v v' : hist) (R : list (reason * zbx_pb_history)) (p : packet) : later v v' -> packet_ok v R p -> packet_ok v' R p.
Proof.
  intros Hv [Hd Hs Hp]. constructor; [by eapply later_done|done|]. intros r Hr. destruct (Hp r Hr). split; [|done]. by apply Hv.
Qed.

Lemma later_reading (v v' : hist) (r : reading) :
  later v v' -> get_pb_src (v_state v') = PB_DATABASE -> (forall m, m ∈ v_rows v' -> m ∈ v_rows v \/ rd_gapid r < h_id m) ->
  reading_ok v r -> reading_ok v' r.
Proof.
  intros Hv Hsrc Hm [Hp Hd Hs Hg Hl Hgap _ Hrows]. constructor; try done.
  - by eapply later_packet.
  - by eapply later_done.
  - intros x Hx. destruct (Hg x Hx). split; [|done]. by apply Hv.
  - destruct Hv. lia.
  - intros m [Hin | Hin]%Hm; auto.
Qed.

Lemma later_sender (v v' : hist) :
  later v v' -> v_sender v' = v_sender v ->
  (get_pb_src (v_state v) = PB_DATABASE -> get_pb_src (v_state v') = PB_DATABASE) ->
  (forall m, m ∈ v_rows v' -> m ∈ v_rows v \/ gap (v_sender v) < h_id m) ->
  (forall h l x, v_handles v' !! h = Some (HIns l) -> x ∈ l ->
    (exists l', v_handles v !! h = Some (HIns l') /\ x ∈ l') \/ gap (v_sender v) < h_id x) ->
  sender_ok v -> sender_ok v'.
Proof.
  unfold sender_ok, sender_ok_at. intros Hv -> Hsrc Hm Hh Hs. destruct (v_sender v) as [|r|r|r upto|p omitted more|id more|id more|more]; try done.
  - destruct Hs as [Hr Hg]. split; [eapply later_reading; eauto; by apply Hsrc, Hr|].
    intros Hne x (h & l & El & Hx). destruct (Hh h l x El Hx) as [(l' & El' & Hx') | Hgt]; [|done].
    apply Hg; [done|]. by exists h, l'.
  - eapply later_reading; eauto. by apply Hsrc, Hs.
  - destruct Hs as [Hr Hg]. split; [eapply later_reading; eauto; by apply Hsrc, Hr|].
    intros h l x El Hx. destruct (Hh h l x El Hx) as [(l' & El' & Hx') | Hgt]; [eauto|by left].
  - by eapply later_packet.
  - by eapply later_done.
  - by eapply later_done.
Qed.

(** Rows that were stored at the end of the list in memory, less some that
    are gone from its front. *)
Lemma safe_store (taken rest d M M' T : list zbx_pb_history) (st : zbx_pb_state_t) (S B D N : Z) H hids sn sv (g g' : ledger) :
  safe (taken ++ rest) (Hist M st S B D N T H hids sn sv g) ->
  taken = [] \/ get_pb_dst st = PB_MEMORY ->
  M ++ taken = d ++ M' -> assigned g' = assigned g ->
  (forall r, settled sv g r -> settled sv g' r) -> (forall r, r ∈ d -> settled sv g' r) ->
  safe rest (Hist M' st S B D N T H hids sn sv g').
Proof.
  intros F Hdst E Ea Hs Hd. destruct F as [Fpos Fids Finj Fin Fall FD FS FL Fsort Fnew Fgap Fmem Fsrc Fdb Fboth FB Fkeys Ftr Fval Flast Fsn Fnd Fap Fam Fown].
  cbn in *.
  set (v := Hist M st S B D N T H hids sn sv g) in *. set (v' := Hist M' st S B D N T H hids sn sv g').
  assert (Hv : later v v') by (constructor; cbn; rewrite ?Ea; auto; lia).
  assert (Hin : forall r, r ∈ M' -> r ∈ M \/ r ∈ taken) by (intros r Hr; apply elem_of_app; rewrite E; set_solver).
  assert (Hout : forall r, r ∈ M \/ r ∈ taken -> r ∈ d \/ r ∈ M') by (intros r Hr; apply elem_of_app; rewrite <- E; set_solver).
  assert (Hst : taken <> [] -> st = PB_DATABASE_MEMORY \/ st = PB_MEMORY).
  { intros Ht. destruct Hdst as [-> | Hdst]; [done|]. destruct st; auto; done. }
  assert (Ht : forall r, r ∈ taken -> taken <> []) by (by intros r Hr ->; apply elem_of_nil in Hr).
  constructor; cbn; rewrite ?Ea; try done; try (by apply (later_done v v')).
  - intros r Hr. apply Fin. set_solver.
  - intros r Hr. destruct (Fall r Hr) as [? | [? | [? | [? | ?%elem_of_app]]]]; [auto|..].
    + destruct (Hout r); auto.
    + auto.
    + auto.
    + destruct H0; [|auto]. destruct (Hout r); auto.
  - rewrite app_assoc, E, <- app_assoc in Fsort. by apply sorted_app in Fsort as (_ & ? & _).
  - set_solver.
  - set_solver.
  - intros Em. destruct (Fmem Em) as [F1 F2]. auto.
  - intros Esrc m Hm. destruct (Hin m Hm) as [Hm' | Hm'].
    + destruct (Fsrc Esrc m Hm') as [F1 F2]. split; [|done]. intros r Hr. destruct (F1 r Hr); auto.
    + destruct (Hst (Ht m Hm')) as [-> | ->]; [done|]. destruct (Fmem eq_refl) as [F1 F2]. split; [auto|].
      intros r (h & l & El & _). destruct (F2 h _ El); done.
  - intros Est. rewrite (Fdb Est) in E. destruct taken; [by destruct d|]. destruct (Hst ltac:(done)); congruence.
  - intros Est m r Hm Hr. destruct (Hin m Hm) as [Hm' | Hm']; [by apply Fboth|]. apply Fnew; set_solver.
  - eapply (later_sender v v'); cbn; eauto. intros m Hm. destruct (Hin m Hm); [auto|]. right. apply Fgap. set_solver.
  - intros r Hr. destruct (Fap r Hr) as [A1 A2]. split; [|done]. intros [Hm | Hm]%Hin; [done|].
    specialize (Fnew r r ltac:(set_solver) ltac:(auto)). lia.
  - intros r Hr [Hm | Hm]%Hin; [by apply (Fam r)|]. specialize (Fnew r r ltac:(set_solver) ltac:(auto)). lia.
Qed.

Lemma later_ledger (M M' T T' : list zbx_pb_history) st st' S S' B B' D D' N H H' hids hids' sn sn' sv (g g' : ledger) :
  assigned g' = assigned g -> (forall r, settled sv g r -> settled sv g' r) ->
  later (Hist M st S B D N T H hids sn sv g) (Hist M' st' S' B' D' N T' H' hids' sn' sv g').
Proof. intros Ea Hs. constructor; cbn; rewrite ?Ea; auto; lia. Qed.

(** All rows in memory go to the table, or all are settled. *)
Lemma safe_flush (X M T T' : list zbx_pb_history) (st : zbx_pb_state_t) (S B B' D D' N : Z) H hids sn sv (g g' : ledger) :
  safe X (Hist M st S B D N T H hids sn sv g) ->
  assigned g' = assigned g -> (forall r, settled sv g r -> settled sv g' r) ->
  D' = D \/ D' = S -> B <= B' ->
  T' = T ++ M /\ (M <> [] -> last_row_id M <= B') \/ T' = T /\ (forall r, r ∈ M -> settled sv g' r) ->
  safe X (Hist [] PB_DATABASE S B' D' N T' H hids sn sv g').
Proof.
  intros F Ea Hs HD HB HT. destruct F as [Fpos Fids Finj Fin Fall FD FS FL Fsort Fnew Fgap Fmem Fsrc Fdb Fboth FB Fkeys Ftr Fval Flast Fsn Fnd Fap Fam Fown].
  cbn in *.
  set (v := Hist M st S B D N T H hids sn sv g) in *. set (v' := Hist [] PB_DATABASE S B' D' N T' H hids sn sv g').
  assert (Hv : later v v') by by apply later_ledger.
  assert (HTin : forall r, r ∈ T' -> r ∈ T \/ r ∈ M) by (intros r; destruct HT as [[-> _] | [-> _]]; set_solver).
  apply sorted_app in Fsort as (FsM & FsX & FsMX).
  constructor; cbn; rewrite ?Ea; try done; try (by apply (later_done v v')).
  - intros r Hr. apply Fin. set_solver.
  - intros r Hr. destruct (Fall r Hr) as [? | [? | [? | [? | ?]]]]; [auto|..|auto|auto].
    + destruct HT as [[-> _] | [-> HM]]; [set_solver|auto].
    + destruct HT as [[-> _] | [-> _]]; set_solver.
  - destruct HD as [-> | ->]; by apply (later_done v v').
  - intros x r Hx [Hr | Hr]; [|auto]. destruct (HTin r Hr); auto.
  - intros r Hr. assert (Hr' : r ∈ T \/ r ∈ M /\ M <> [] /\ last_row_id M <= B').
    { destruct HT as [[-> HM] | [-> _]]; [|by left]. apply elem_of_app in Hr as [Hr | Hr]; [by left|right].
      assert (M <> []) by (intros ->; by apply elem_of_nil in Hr). auto. }
    destruct Hr' as [Hr' | (HrM & _ & Hlast)]; [|left; pose proof (sorted_last M r FsM HrM); lia].
    destruct (FB r Hr'); [left; lia|by right].
  - eapply (later_sender v v'); cbn; eauto. by intros m ?%elem_of_nil.
  - destruct HT as [[-> _] | [-> _]]; [|done]. apply NoDup_app. split_and!; [done| |by apply sorted_nodup].
    intros r Hr. by apply Fap.
  - intros r Hr. split; [apply not_elem_of_nil|]. destruct (HTin r Hr) as [Hr' | Hr']; [by apply Fap|].
    intros Hi. by apply (Fam r).
  - intros r _. apply not_elem_of_nil.
Qed.

(** The buffer is full: it stays what it is but new data goes to the
    database. *)
Lemma safe_full (X M T : list zbx_pb_history) (S B D N : Z) H hids sn sv (g : ledger) :
  safe X (Hist M PB_MEMORY S B D N T H hids sn sv g) -> safe X (Hist M PB_MEMORY_DATABASE S B D N T H hids sn sv g).
Proof.
  intros F. destruct F as [Fpos Fids Finj Fin Fall FD FS FL Fsort Fnew Fgap Fmem Fsrc Fdb Fboth FB Fkeys Ftr Fval Flast Fsn Fnd Fap Fam Fown].
  constructor; try done. eapply later_sender; [by apply later_ledger|..|exact Fsn]; cbn; eauto.
Qed.

(** Rows get their ids. *)
Lemma safe_assign (l M T : list zbx_pb_history) (st : zbx_pb_state_t) (S B D N N' : Z) H hids sn sv (g g' : ledger) :
  safe [] (Hist M st S B D N T H hids sn sv g) ->
  assigned g' = assigned g ++ l -> (forall r, settled sv g r -> settled sv g' r) ->
  StronglySorted id_lt l -> (forall r, r ∈ l -> N < h_id r <= N') -> N <= N' ->
  safe l (Hist M st S B D N' T H hids sn sv g').
Proof.
  intros F Ea Hs Hsort Hl HN. destruct F as [Fpos Fids Finj Fin Fall FD FS FL Fsort Fnew Fgap Fmem Fsrc Fdb Fboth FB Fkeys Ftr Fval Flast Fsn Fnd Fap Fam Fown].
  cbn in *.
  set (v := Hist M st S B D N T H hids sn sv g) in *. set (v' := Hist M st S B D N' T H hids sn sv g').
  assert (Hv : later v v').
  { constructor; cbn; rewrite ?Ea; auto; [set_solver|]. intros r [? | Hr]%elem_of_app; [auto|]. destruct (Hl r Hr). auto. }
  assert (Hold : forall r, r ∈ M \/ r ∈ T \/ in_trans H r -> h_id r <= N) by (intros r Hr; apply Fids, Fin; tauto).
  constructor; cbn; rewrite ?Ea; try done; try (by apply (later_done v v')).
  - lia.
  - intros r [Hr | Hr]%elem_of_app; [specialize (Fids r Hr)|specialize (Hl r Hr)]; lia.
  - intros r r' [Hr | Hr]%elem_of_app [Hr' | Hr']%elem_of_app E; [by apply Finj|..].
    + specialize (Fids r Hr). specialize (Hl r' Hr'). lia.
    + specialize (Fids r' Hr'). specialize (Hl r Hr). lia.
    + clear - Hsort Hr Hr' E. induction l as [|x l IH]; [by apply elem_of_nil in Hr|].
      apply StronglySorted_cons in Hsort as [Hall Hsort]. rewrite Forall_forall in Hall. unfold id_lt in Hall.
      apply elem_of_cons in Hr as [-> | Hr], Hr' as [-> | Hr']; auto.
      * specialize (Hall r' ltac:(done)). lia.
      * specialize (Hall r ltac:(done)). lia.
  - intros r Hr. apply elem_of_app. destruct Hr as [? | [? | [? | ?]]]; [left; apply Fin; tauto..|by right].
  - intros r [Hr | Hr]%elem_of_app; [|auto]. destruct (Fall r Hr) as [? | [? | [? | [? | ?%elem_of_nil]]]]; auto. done.
  - rewrite app_nil_r in Fsort. apply sorted_app. split_and!; [done..|]. intros x y Hx Hy. specialize (Hold x ltac:(auto)).
    specialize (Hl y Hy). lia.
  - intros x r Hx Hr. specialize (Hold r ltac:(tauto)). specialize (Hl x Hx). lia.
  - intros x Hx. specialize (Hl x Hx). assert (gap sn <= N); [|lia].
    unfold sender_ok, sender_ok_at in Fsn. cbn in Fsn. destruct sn; cbn in *; try lia; try (destruct Fsn as [[] _]; cbn in *; lia); destruct Fsn; cbn in *; lia.
  - intros Em. destruct (Fmem Em) as [F1 F2]. auto.
  - intros Esrc m Hm. destruct (Fsrc Esrc m Hm) as [F1 F2]. split; [|done]. intros r Hr. destruct (F1 r Hr); auto.
  - intros r Hr. destruct (Flast r Hr). set_solver.
  - eapply (later_sender v v'); cbn; eauto.
Qed.

(* ------------------------------------------------------------------ *)
(** ** Handles *)

Lemma in_trans_insert (m : gmap Z (handle zbx_pb_history)) (h : Z) (x : handle zbx_pb_history) (r : zbx_pb_history) :
  in_trans (<[h := x]> m) r -> (exists l, x = HIns l /\ r ∈ l) \/ in_trans m r.
Proof.
  intros (h' & l & El & Hr). apply lookup_insert_Some in El as [[-> ->] | [Hne El]]; [left; eauto|]. right. by exists h', l.
Qed.

Lemma in_trans_keep (m : gmap Z (handle zbx_pb_history)) (h : Z) (x : handle zbx_pb_history) (r : zbx_pb_history) :
  (forall l, m !! h <> Some (HIns l)) -> in_trans m r -> in_trans (<[h := x]> m) r.
Proof. intros Hm (h' & l & El & Hr). exists h', l. split; [|done]. rewrite lookup_insert_ne; [done|]. intros <-. by apply (Hm l). Qed.

(** The rows of the handle have no ids yet. *)
Definition waiting (x : handle zbx_pb_history) : Prop := match x with HMem _ | HDb _ => True | _ => False end.

(** Rows with ids come to be in a transaction. *)
Lemma safe_begin (X M T : list zbx_pb_history) (st : zbx_pb_state_t) (S B D N : Z) H hids sn sv (g : ledger) (h : Z)
    (y : handle zbx_pb_history) :
  safe X (Hist M st S B D N T H hids sn sv g) ->
  H !! h = Some y -> waiting y -> st <> PB_MEMORY -> (st = PB_DATABASE_MEMORY -> M = []) ->
  safe [] (Hist M st S B D N T (<[h := HIns X]> H) hids sn sv g).
Proof.
  intros F Hy Hyk Hst1 Hst2. destruct F as [Fpos Fids Finj Fin Fall FD FS FL Fsort Fnew Fgap Fmem Fsrc Fdb Fboth FB Fkeys Ftr Fval Flast Fsn Fnd Fap Fam Fown].
  cbn in *.
  set (v := Hist M st S B D N T H hids sn sv g) in *. set (v' := Hist M st S B D N T (<[h := HIns X]> H) hids sn sv g).
  assert (Hv : later v v') by by apply later_ledger.
  assert (Hno : forall l, H !! h <> Some (HIns l)) by (intros l; rewrite Hy; intros [= ->]; done).
  assert (Hin : forall r, in_trans (<[h := HIns X]> H) r -> r ∈ X \/ in_trans H r).
  { intros r [(l & [= <-] & Hr) | Hr]%in_trans_insert; auto. }
  apply sorted_app in Fsort as (FsM & FsX & FsMX).
  constructor; cbn; try done; try (by apply (later_done v v')).
  - intros r Hr. apply Fin. destruct Hr as [? | [? | [?%Hin | ?%elem_of_nil]]]; tauto.
  - intros r Hr. destruct (Fall r Hr) as [? | [? | [? | [? | ?]]]]; [auto|auto|auto|..]; right; right; right; left.
    + by apply in_trans_keep.
    + exists h, X. split; [apply lookup_insert_eq|done].
  - rewrite app_nil_r. done.
  - by intros x r ?%elem_of_nil.
  - by intros x ?%elem_of_nil.
  - intros Esrc m Hm. destruct (Fsrc Esrc m Hm) as [F1 F2]. split; [done|]. intros r [Hr | Hr]%Hin; auto.
  - intros Est m r Hm Hr. rewrite (Hst2 Est) in Hm. by apply elem_of_nil in Hm.
  - intros r Hr. destruct (FB r Hr) as [? | (h' & id & E & Hle)]; [by left|]. right. exists h', id. split; [|done].
    rewrite lookup_insert_ne; [done|]. intros <-. rewrite Hy in E. injection E as ->. done.
  - apply map_Forall_insert_2; [|done]. by apply (Fkeys h y).
  - apply map_Forall_insert_2; [|done]. by intros l [= <-].
  - eapply (later_sender v v'); cbn; eauto. intros h' l x E Hx. apply lookup_insert_Some in E as [[<- [= <-]] | [Hne E]]; [auto|].
    left. eauto.
  - intros r Hr. destruct (Fap r Hr) as [A1 A2]. split; [done|]. intros [Hx | Hx]%Hin; [|done].
    specialize (Fnew r r Hx ltac:(auto)). lia.
  - intros r [Hx | Hx]%Hin Hm; [|by apply (Fam r)]. specialize (FsMX r r Hm Hx). lia.
  - intros h1 h2 l1 l2 r E1 E2 Hr1 Hr2.
    apply lookup_insert_Some in E1 as [[<- [= <-]] | [Hne1 E1]], E2 as [[<- [= <-]] | [Hne2 E2]]; [done|..|by eapply Fown].
    + assert (Hi : in_trans H r) by (by exists h2, l2). specialize (Fnew r r Hr1 ltac:(auto)). lia.
    + assert (Hi : in_trans H r) by (by exists h1, l1). specialize (Fnew r r Hr2 ltac:(auto)). lia.
Qed.

(** The transaction is committed, or has failed. *)
Lemma safe_commit (M T T' l : list zbx_pb_history) (st : zbx_pb_state_t) (S B D N : Z) H hids sn sv (g g' : ledger) (h : Z) :
  safe [] (Hist M st S B D N T H hids sn sv g) -> H !! h = Some (HIns l) ->
  assigned g' = assigned g -> (forall r, settled sv g r -> settled sv g' r) ->
  T' = T ++ l \/ T' = T /\ (forall r, r ∈ l -> settled sv g' r) ->
  safe [] (Hist M st S B D N T' (<[h := HFin (last_row_id l)]> H) hids sn sv g').
Proof.
  intros F Hy Ea Hs HT. destruct F as [Fpos Fids Finj Fin Fall FD FS FL Fsort Fnew Fgap Fmem Fsrc Fdb Fboth FB Fkeys Ftr Fval Flast Fsn Fnd Fap Fam Fown].
  cbn in *.
  set (v := Hist M st S B D N T H hids sn sv g) in *.
  set (v' := Hist M st S B D N T' (<[h := HFin (last_row_id l)]> H) hids sn sv g').
  assert (Hv : later v v') by by apply later_ledger.
  assert (Hin : forall r, in_trans (<[h := HFin (last_row_id l)]> H) r -> in_trans H r).
  { intros r [(l' & [=] & Hr) | Hr]%in_trans_insert; auto. }
  assert (Hl : forall r, r ∈ l -> in_trans H r) by (intros r Hr; by exists h, l).
  assert (HTin : forall r, r ∈ T' -> r ∈ T \/ r ∈ l /\ T' = T ++ l) by (intros r; destruct HT as [-> | [-> _]]; set_solver).
  constructor; cbn; rewrite ?Ea; try done; try (by apply (later_done v v')).
  - intros r Hr. apply Fin. destruct Hr as [? | [[? | [? _]]%HTin | [?%Hin | ?]]]; auto.
  - intros r Hr. destruct (Fall r Hr) as [? | [? | [? | [(h' & l' & E & Hl') | ?]]]]; [auto|auto|..|auto].
    + right; right; left. destruct HT as [-> | [-> _]]; set_solver.
    + destruct (decide (h' = h)) as [-> | Hne].
      * rewrite Hy in E. injection E as <-. destruct HT as [-> | [-> HT]]; [set_solver|auto].
      * right; right; right; left. exists h', l'. by rewrite lookup_insert_ne.
  - by intros x r ?%elem_of_nil.
  - intros Em. destruct (Fmem Em) as [_ F2]. by destruct (F2 h _ Hy).
  - intros Esrc m Hm. destruct (Fsrc Esrc m Hm) as [F1 F2]. split; [|auto]. intros r [Hr | [Hr _]]%HTin; [|auto].
    destruct (F1 r Hr); auto.
  - intros Est m r Hm Hr. apply (Fboth Est); [done|]. destruct Hr as [[? | [? _]]%HTin | ?%Hin]; auto.
  - intros r Hr. destruct (HTin r Hr) as [Hr' | [Hr' _]].
    + destruct (FB r Hr') as [? | (h' & id & E & Hle)]; [by left|]. right. exists h', id. split; [|done].
      rewrite lookup_insert_ne; [done|]. intros <-. congruence.
    + right. exists h, (last_row_id l). split; [apply lookup_insert_eq|]. apply sorted_last; [by apply (Ftr h _ Hy)|done].
  - apply map_Forall_insert_2; [|done]. by apply (Fkeys h _ Hy).
  - apply map_Forall_insert_2; [|done]. done.
  - eapply (later_sender v v'); cbn; eauto. intros h' l' x E Hx. apply lookup_insert_Some in E as [[_ [=]] | [Hne E]]. left. eauto.
  - destruct HT as [-> | [-> _]]; [|done]. apply NoDup_app. split_and!; [done| |by apply sorted_nodup, (Ftr h _ Hy)].
    intros r Hr Hr'. by apply (Fap r), Hl.
  - intros r Hr. destruct (HTin r Hr) as [Hr' | [Hr' _]].
    + destruct (Fap r Hr') as [A1 A2]. split; [done|]. by intros Hx%Hin.
    + split; [by apply Fam, Hl|]. intros (h' & l' & E & Hx). apply lookup_insert_Some in E as [[_ [=]] | [Hne E]].
      apply Hne. by eapply Fown.
  - intros r Hr%Hin. by apply Fam.
  - intros h1 h2 l1 l2 r E1 E2. apply lookup_insert_Some in E1 as [[_ [=]] | [Hne1 E1]].
    apply lookup_insert_Some in E2 as [[_ [=]] | [Hne2 E2]]. by eapply Fown.
Qed.

(** A handle of which no row waits is opened, written to or closed. *)
Lemma safe_handles (M T : list zbx_pb_history) (st : zbx_pb_state_t) (S B B' D N : Z) H H' hids hids' sn sv (g : ledger) :
  safe [] (Hist M st S B D N T H hids sn sv g) ->
  (forall h l, H' !! h = Some (HIns l) <-> H !! h = Some (HIns l)) ->
  (forall h id, H !! h = Some (HFin id) -> H' !! h = Some (HFin id) \/ id <= B') -> B <= B' ->
  (st = PB_MEMORY -> map_Forall (fun _ x => exists l, x = HMem l) H') ->
  map_Forall (fun h _ => 0 < h /\ h ∈ hids') H' ->
  safe [] (Hist M st S B' D N T H' hids' sn sv g).
Proof.
  intros F Hins Hfin HB Hm Hk. destruct F as [Fpos Fids Finj Fin Fall FD FS FL Fsort Fnew Fgap Fmem Fsrc Fdb Fboth FB Fkeys Ftr Fval Flast Fsn Fnd Fap Fam Fown].
  cbn in *.
  assert (Hin : forall r, in_trans H' r <-> in_trans H r) by (intros r; unfold in_trans; by setoid_rewrite Hins).
  constructor; cbn; try done.
  - intros r Hr. apply Fin. rewrite <- (Hin r). done.
  - intros r Hr. rewrite (Hin r). auto.
  - by intros x r ?%elem_of_nil.
  - intros Em. split; [by apply Fmem|auto].
  - intros Esrc m Hm'. destruct (Fsrc Esrc m Hm') as [F1 F2]. split; [done|]. intros r. rewrite (Hin r). auto.
  - intros Est m r Hm'. rewrite (Hin r). auto.
  - intros r Hr. destruct (FB r Hr) as [? | (h & id & E & Hle)]; [left; lia|]. destruct (Hfin h id E); [right; eauto|left; lia].
  - intros h x E l ->. apply Hins in E. by apply (Ftr h _ E).
  - eapply later_sender; [by apply later_ledger|..|exact Fsn]; cbn; eauto. intros h l x E Hx. apply Hins in E. eauto.
  - intros r. rewrite (Hin r). auto.
  - intros r. rewrite (Hin r). auto.
  - intros h1 h2 l1 l2 r. rewrite !Hins. by apply Fown.
Qed.

(* ------------------------------------------------------------------ *)
(** ** The sender and the server *)

Lemma safe_sender (M T : list zbx_pb_history) (st : zbx_pb_state_t) (S B D N : Z) H hids sn sn' sv (g : ledger) :
  safe [] (Hist M st S B D N T H hids sn sv g) -> sender_ok (Hist M st S B D N T H hids sn' sv g) ->
  safe [] (Hist M st S B D N T H hids sn' sv g).
Proof. intros [] Hsn. constructor; try done. by intros x ?%elem_of_nil. Qed.

(** The id that is noted as sent covers only what is settled. *)
Lemma safe_ids (M T : list zbx_pb_history) (st : zbx_pb_state_t) (S S' B D D' N : Z) H hids sn sv (g : ledger) :
  safe [] (Hist M st S B D N T H hids sn sv g) ->
  done_to (Hist M st S B D N T H hids sn sv g) [] S' -> done_to (Hist M st S B D N T H hids sn sv g) [] D' ->
  safe [] (Hist M st S' B D' N T H hids sn sv g).
Proof.
  intros F HS HD. destruct F as [Fpos Fids Finj Fin Fall FD FS FL Fsort Fnew Fgap Fmem Fsrc Fdb Fboth FB Fkeys Ftr Fval Flast Fsn Fnd Fap Fam Fown].
  constructor; try done. eapply later_sender; [by apply later_ledger|..|exact Fsn]; cbn; eauto.
Qed.

(** The transitions after an upload. *)
Lemma safe_to_both (M T : list zbx_pb_history) (S B D N : Z) H hids sn sv (g : ledger) :
  safe [] (Hist M PB_DATABASE S B D N T H hids sn sv g) -> safe [] (Hist M PB_DATABASE_MEMORY S B D N T H hids sn sv g).
Proof.
  intros F. destruct F as [Fpos Fids Finj Fin Fall FD FS FL Fsort Fnew Fgap Fmem Fsrc Fdb Fboth FB Fkeys Ftr Fval Flast Fsn Fnd Fap Fam Fown].
  cbn in *. rewrite (Fdb eq_refl) in *. constructor; try done.
  eapply later_sender; [by apply later_ledger|..|exact Fsn]; cbn; eauto.
Qed.

Lemma safe_to_memory (M T : list zbx_pb_history) (S B D N : Z) H hids sv (g : ledger) more :
  safe [] (Hist M PB_DATABASE_MEMORY S B D N T H hids (Update more) sv g) ->
  B <= S -> map_Forall (fun _ x => exists l, x = HMem l) H ->
  safe [] (Hist M PB_MEMORY S B D N T H hids (Update more) sv g).
Proof.
  intros F HB Hm. destruct F as [Fpos Fids Finj Fin Fall FD FS FL Fsort Fnew Fgap Fmem Fsrc Fdb Fboth FB Fkeys Ftr Fval Flast Fsn Fnd Fap Fam Fown].
  cbn in *.
  assert (HT : forall r, r ∈ T -> settled sv g r).
  { intros r Hr. destruct (FB r Hr) as [Hle | (h & id & E & _)]; [|by destruct (Hm h _ E)].
    destruct FS as [_ FS]. destruct (FS r) as [? | ?%elem_of_nil]; [apply Fin; auto|cbn; lia|done|done]. }
  constructor; try done. cbn. intros _ m Hr. split; [auto|]. intros r (h & l & E & _). by destruct (Hm h _ E).
Qed.

Lemma safe_to_database (T : list zbx_pb_history) (S B D D' N : Z) H hids sn sv (g : ledger) :
  safe [] (Hist [] PB_MEMORY_DATABASE S B D N T H hids sn sv g) -> D' = D \/ D' = S ->
  safe [] (Hist [] PB_DATABASE S B D' N T H hids sn sv g).
Proof.
  intros F HD. eapply safe_flush; [exact F|done|done|done|done|]. right. split; [done|]. by intros r ?%elem_of_nil.
Qed.

(** What the server has kept of an upload. *)
Lemma values_step (items : zbx_pb_history -> option history_recv_item) (proxyid : Z) (sv : server) (l : list zbx_pb_history)
    (r : zbx_pb_history) :
  let sv' := process_history_data items proxyid sv l in
  (r ∈ values sv -> r ∈ values sv') /\ (r ∈ refused sv -> r ∈ refused sv') /\
  (r ∈ l -> last_id sv < h_id r -> r ∈ values sv' \/ r ∈ refused sv').
Proof.
  cbn zeta. unfold process_history_data. cbn [values refused]. rewrite !elem_of_app, !list_elem_of_filter.
  split_and!; [tauto..|]. intros Hr Hlt. destruct (row_parsed r), (accepts items proxyid r); tauto.
Qed.

Lemma last_id_step (items : zbx_pb_history -> option history_recv_item) (proxyid : Z) (sv : server) (l : list zbx_pb_history)
    (upto : Z) :
  StronglySorted id_lt l -> (forall r, r ∈ l -> 0 < h_id r <= upto) ->
  let sv' := process_history_data items proxyid sv l in
  last_id sv <= last_id sv' /\ (last_id sv' = last_id sv \/ last_id sv' <= upto) /\
  (forall r, r ∈ values sv' -> r ∈ values sv \/ r ∈ l /\ h_id r <= last_id sv').
Proof.
  intros Hs Hl sv'. unfold sv', process_history_data. cbn [last_id values]. set (k := filter (fun r => row_parsed r = true) l).
  assert (Hk : forall r, r ∈ k -> r ∈ l /\ h_id r <= last_row_id k).
  { intros r Hr. split; [by apply list_elem_of_filter in Hr as [_ ?]|]. apply sorted_last; [|done].
    apply (sorted_sublist k l); [apply sublist_filter|exact Hs]. }
  assert (Hlast : k = [] /\ last_row_id k = 0 \/ 0 < last_row_id k <= upto).
  { clearbody k. destruct k as [|y k' _] using rev_ind; [by left|]. right. unfold last_row_id. rewrite last_snoc.
    apply Hl, Hk. set_solver. }
  assert (Hnew : forall r, r ∈ values sv ++ filter (fun r => accepts items proxyid r = true)
    (filter (fun r => h_id r = 0 \/ last_id sv < h_id r) k) -> r ∈ values sv \/ r ∈ k /\ last_id sv < h_id r).
  { intros r [? | (_ & (Hid & Hr)%list_elem_of_filter)%list_elem_of_filter]%elem_of_app; [by left|right].
    split; [done|]. destruct (Hl r); [by apply Hk|lia]. }
  destruct (Z.eqb_spec (last_row_id k) 0) as [E0 | E0]; cbn [negb andb].
  { split_and!; [lia|by left|]. intros r [? | [Hr _]]%Hnew; [by left|]. destruct Hlast as [[-> _] | ?]; [|lia].
    by apply elem_of_nil in Hr. }
  destruct (Z.ltb_spec (last_row_id k) (last_id sv)) as [H1 | H1]; cbn [negb].
  - split_and!; [lia|by left|]. intros r [? | [Hr ?]]%Hnew; [by left|]. destruct (Hk r Hr). lia.
  - split_and!; [lia|right; destruct Hlast as [[_ ?] | ?]; lia|]. intros r [? | [Hr _]]%Hnew; [by left|right]. by apply Hk.
Qed.

Lemma safe_upload (items : zbx_pb_history -> option history_recv_item) (proxyid : Z) (M T : list zbx_pb_history)
    (omitted : list (reason * zbx_pb_history)) (st : zbx_pb_state_t) (S B D N : Z) H hids sv (g : ledger) p more :
  safe [] (Hist M st S B D N T H hids (Ready p omitted more) sv g) ->
  safe [] (Hist M st S B D N T H hids (Acked (p_lastid p) more) (process_history_data items proxyid sv (p_sent p))
    (Ledger (assigned g) (lost g ++ omitted))).
Proof.
  set (sv' := process_history_data items proxyid sv (p_sent p)). set (g' := Ledger (assigned g) (lost g ++ omitted)). intros F.
  destruct F as [Fpos Fids Finj Fin Fall FD FS FL Fsort Fnew Fgap Fmem Fsrc Fdb Fboth FB Fkeys Ftr Fval Flast Fsn Fnd Fap Fam Fown].
  cbn in *. destruct Fsn as [Pd Ps Pp].
  set (v := Hist M st S B D N T H hids (Ready p omitted more) sv g) in *.
  set (v' := Hist M st S B D N T H hids (Acked (p_lastid p) more) sv' g').
  assert (Hstep := fun r => values_step items proxyid sv (p_sent p) r). fold sv' in Hstep. cbn zeta in Hstep.
  assert (Hs : forall r, settled sv g r -> settled sv' g' r).
  { intros r. destruct (Hstep r) as (H1 & H2 & _). unfold settled. change (lost g') with (lost g ++ omitted).
    rewrite fmap_app, elem_of_app. tauto. }
  assert (Hv : later v v') by (constructor; cbn; auto; lia).
  assert (Htaken : forall r, r ∈ assigned g -> r ∈ taken p omitted -> settled sv' g' r).
  { intros r Ha [Hr | Hr]%elem_of_app.
    2: { right; right. change (lost g') with (lost g ++ omitted). rewrite fmap_app. apply elem_of_app. by right. }
    destruct (Z_lt_le_dec (last_id sv) (h_id r)) as [Hlt | Hle].
    - destruct (Hstep r) as (_ & _ & H4). destruct (H4 Hr Hlt); [by left|by right; left].
    - destruct FL as [_ FL]. destruct (FL r Ha Hle) as [? | ?%elem_of_nil]; [auto|done]. }
  assert (Hdone : done_to v' [] (p_lastid p)).
  { destruct Pd as [Hr Pd]. split; [done|]. intros r Ha Hle. left. destruct (Pd r Ha Hle); auto. }
  destruct (last_id_step items proxyid sv (p_sent p) (p_lastid p) Ps) as (HL1 & HL2 & HL3).
  { intros r Hr. destruct (Pp r Hr) as [Ha ?]. specialize (Fids r Ha). lia. }
  fold sv' in HL1, HL2, HL3.
  assert (Hval : forall r, r ∈ values sv' -> r ∈ assigned g /\ h_id r <= last_id sv').
  { intros r Hr. destruct (HL3 r Hr) as [Hin | [Hl Hle]]; [destruct (Flast r Hin); split; [done|lia]|].
    split; [by apply Pp|done]. }
  constructor; cbn; try done; try (by apply (later_done v v')).
  - intros r Hr. destruct (Fall r Hr); auto.
  - change (done_to v' [] (last_id sv')). destruct HL2 as [-> | Hle]; [by apply (later_done v v')|].
    destruct Hdone as [Hp Hd]. split; [|intros r Hr Hle'; apply Hd; [done|lia]]. destruct FL. cbn in *. lia.
  - intros Em. destruct (Fmem Em). auto.
  - intros Esrc m Hm. destruct (Fsrc Esrc m Hm) as [F1 F2]. split; [|done]. intros r Hr. destruct (F1 r Hr); auto.
  - apply sorted_app. split_and!; [done|eapply sorted_sublist; [|exact Ps]|].
    + repeat (etrans; [apply sublist_filter|]). done.
    + intros x y Hx Hy. destruct (Flast x Hx) as [_ Hle].
      apply list_elem_of_filter in Hy as (_ & (Hid & (_ & Hy)%list_elem_of_filter)%list_elem_of_filter).
      destruct (Pp y Hy) as [Ha _]. specialize (Fids y Ha). lia.
Qed.
