(* ===== verification/PbDelivery.v ===== *)
(** Every step of the writers, of the sender and of the server keeps the
    invariant of PbSafe; so values of history reach the server, each once and
    in order. *)

From Stdlib Require Import ZArith Lia.
From S2P Require Import Prelude JsonWriter JsonSession PbBuffer PbExport PbSystem PbInv PbHandles PbSafe.
From stdpp Require Import base list numbers sorting gmap.

Open Scope Z_scope.

(* ------------------------------------------------------------------ *)
(** ** Packets *)

Lemma sublist_reverse {A : Type} (l k : list A) : l `sublist_of` k -> reverse l `sublist_of` reverse k.
Proof.
  induction 1 as [|x l k _ IH|x l k _ IH]; [done|..]; rewrite ?reverse_cons.
  - by apply sublist_app.
  - by apply sublist_inserts_r.
Qed.

Lemma filter_novalue_sublist (seen : list Z) (l : list zbx_pb_history) : filter_novalue seen l `sublist_of` l.
Proof.
  revert seen. induction l as [|r l IH]; intros seen; simpl; [done|]. repeat case_match; by constructor.
Qed.

Lemma export_loop_ok (active : Z -> bool) (l : list zbx_pb_history) (p p' : packet) :
  export_loop active p l = Ret p' ->
  exists l1 l2, l = l1 ++ l2 /\ p_sent p' = p_sent p ++ filter (fun r => active (h_itemid r) = true) l1 /\
    p_lastid p' = match list.last l1 with Some r => h_id r | None => p_lastid p end.
Proof.
  revert p. induction l as [|row l IH]; intros p; cbn [export_loop].
  { intros [= <-]. exists [], []. split_and!; [done|by rewrite filter_nil, app_nil_r|done]. }
  assert (Hl : forall l1 : list zbx_pb_history,
    match list.last (row :: l1) with Some r => h_id r | None => p_lastid p end =
    match list.last l1 with Some r => h_id r | None => h_id row end).
  { intros [|x l1]; [done|]. rewrite last_cons_cons. destruct (list.last (x :: l1)) eqn:E; [done|]. by apply last_None in E. }
  destruct (active (h_itemid row)) eqn:Ea; cbn [negb].
  - intros (j & _ & (j' & _ & H)%res_bind_Ret)%res_bind_Ret. cbn zeta in H. cbn [p_records p_sent] in H.
    case_match.
    + apply Ret_inj in H as <-. exists [row], l. split_and!; [done| |done]. cbn [p_sent].
      by rewrite filter_cons_True, filter_nil by done.
    + destruct (IH _ H) as (l1 & l2 & -> & E1 & E2). exists (row :: l1), l2. rewrite Hl. split_and!; [done| |done].
      rewrite E1. cbn [p_sent]. rewrite filter_cons_True by done. by rewrite <- app_assoc.
  - intros H. destruct (IH _ H) as (l1 & l2 & -> & E1 & E2). exists (row :: l1), l2. rewrite Hl. split_and!; [done| |done].
    rewrite E1, filter_cons_False by congruence. done.
Qed.

(** What an export adds to a packet. *)
Record exported (l : list zbx_pb_history) (p p' : packet) (sent : list zbx_pb_history) : Prop := {
  ex_sent : p_sent p' = p_sent p ++ sent;
  ex_sublist : sent `sublist_of` l;
  ex_upto : forall r, r ∈ sent -> h_id r <= p_lastid p';
  ex_lastid : p_lastid p' = p_lastid p \/ exists r, r ∈ l /\ h_id r = p_lastid p'
}.

Lemma export_ok (active : Z -> bool) (l : list zbx_pb_history) (p p' : packet) :
  StronglySorted id_lt l -> pb_history_export active p l = Ret p' -> exists sent, exported l p p' sent.
Proof.
  intros Hs H. unfold pb_history_export in H. set (k := reverse (filter_novalue [] (reverse l))) in *.
  assert (Hk : k `sublist_of` l).
  { unfold k. rewrite <- (reverse_involutive l) at 2. apply sublist_reverse, filter_novalue_sublist. }
  pose proof (sorted_sublist _ _ Hk Hs) as Hks.
  destruct (export_loop_ok _ _ _ _ H) as (l1 & l2 & E & E1 & E2). rewrite E in Hk, Hks.
  exists (filter (fun r => active (h_itemid r) = true) l1). apply sorted_app in Hks as (Hs1 & _ & _).
  assert (Hl1 : l1 `sublist_of` l) by (etrans; [apply sublist_inserts_r; reflexivity|exact Hk]).
  constructor; [done|by etrans; [apply sublist_filter|]|..].
  - intros r (_ & Hr)%list_elem_of_filter. pose proof (sorted_last l1 r Hs1 Hr) as Hle. unfold last_row_id in Hle.
    destruct (list.last l1) eqn:El; [by rewrite E2|]. apply last_None in El as ->. by apply elem_of_nil in Hr.
  - destruct (list.last l1) as [r|] eqn:El; [|by left]. right. exists r. split; [|done].
    eapply elem_of_sublist; [|exact Hl1]. apply last_Some in El as [l' ->]. set_solver.
Qed.

(** A row may be left out if its item is disabled, or if it has no value and a
    later row of the item has none either. *)
Definition excused (active : Z -> bool) (l : list zbx_pb_history) (r : zbx_pb_history) : Prop :=
  active (h_itemid r) = false \/
  novalue r = true /\ exists r', r' ∈ l /\ novalue r' = true /\ h_itemid r' = h_itemid r /\ h_id r < h_id r'.

Lemma filter_novalue_keeps (seen : list Z) (l : list zbx_pb_history) (r : zbx_pb_history) :
  StronglySorted (fun a b => h_id b < h_id a) l -> r ∈ l ->
  r ∈ filter_novalue seen l \/ novalue r = true /\
    (h_itemid r ∈ seen \/ exists r', r' ∈ l /\ novalue r' = true /\ h_itemid r' = h_itemid r /\ h_id r < h_id r').
Proof.
  revert seen. induction l as [|x l IH]; intros seen; [by intros _ ?%elem_of_nil|].
  intros [Hx Hs]%StronglySorted_cons Hr. rewrite Forall_forall in Hx. cbn [filter_novalue].
  apply elem_of_cons in Hr as [-> | Hr].
  - destruct (novalue x) eqn:En; [|left; left]. case_decide; [by right; auto|left; left].
  - assert (Hlift : forall seen', (forall i, i ∈ seen' -> i ∈ seen \/ i = h_itemid x /\ novalue x = true) ->
      r ∈ filter_novalue seen' l \/ novalue r = true /\ (h_itemid r ∈ seen \/ exists r', r' ∈ x :: l /\ novalue r' = true /\
        h_itemid r' = h_itemid r /\ h_id r < h_id r')).
    { intros seen' Hseen. destruct (IH seen' Hs Hr) as [? | [Hn [[? | [Ei Ex]]%Hseen | (r' & Hr' & ?)]]]; [by left|right; split; [done|]..].
      - by left.
      - right. exists x. split_and!; [left|done|done|by apply Hx].
      - right. exists r'. split; [by right|done]. }
    destruct (novalue x) eqn:En; [case_decide|].
    + apply Hlift. auto.
    + destruct (Hlift (h_itemid x :: seen)) as [? | ?]; [|left; by right|by right]. intros i [-> | Hi]%elem_of_cons; auto.
    + destruct (Hlift seen) as [? | ?]; [auto|left; by right|by right].
Qed.

Lemma sorted_reverse (l : list zbx_pb_history) : StronglySorted id_lt l -> StronglySorted (fun a b => h_id b < h_id a) (reverse l).
Proof.
  induction l as [|x l IH]; [constructor|]. intros [Hx Hs]%StronglySorted_cons. rewrite reverse_cons. rewrite Forall_forall in Hx.
  apply StronglySorted_app_2; [|by apply IH|by repeat constructor].
  intros a b Ha Hb%list_elem_of_singleton. subst. apply Hx. by apply elem_of_reverse.
Qed.

(** The newest row stays. *)
Lemma filter_novalue_last (l : list zbx_pb_history) : list.last (reverse (filter_novalue [] (reverse l))) = list.last l.
Proof.
  destruct l as [|x l _] using rev_ind; [done|]. rewrite reverse_snoc, last_snoc. cbn [filter_novalue].
  destruct (novalue x); [rewrite decide_False by apply not_elem_of_nil|]; by rewrite reverse_cons, last_snoc.
Qed.

(** An export that did not stop at the size limit has looked at all rows. *)
Lemma export_loop_all (active : Z -> bool) (l : list zbx_pb_history) (p p' : packet) :
  export_loop active p l = Ret p' -> buffer_offset (p_json p') <= ZBX_DATA_JSON_RECORD_LIMIT ->
  p_lastid p' = match list.last l with Some r => h_id r | None => p_lastid p end.
Proof.
  revert p. induction l as [|row l IH]; intros p; cbn [export_loop]; [by intros [= <-]|].
  assert (Hl : match list.last (row :: l) with Some r => h_id r | None => p_lastid p end =
    match list.last l with Some r => h_id r | None => h_id row end).
  { destruct l as [|x l]; [done|]. rewrite last_cons_cons. destruct (list.last (x :: l)) eqn:E; [done|]. by apply last_None in E. }
  rewrite Hl. destruct (negb (active (h_itemid row))); [by apply IH|].
  intros (j & _ & (j' & _ & H)%res_bind_Ret)%res_bind_Ret. cbn zeta in H. destruct (Z.ltb_spec ZBX_DATA_JSON_RECORD_LIMIT (buffer_offset j')).
  - apply Ret_inj in H as <-. cbn [p_json]. lia.
  - by apply (IH _ H).
Qed.

Lemma export_complete (active : Z -> bool) (l : list zbx_pb_history) (p p' : packet) (r : zbx_pb_history) :
  StronglySorted id_lt l -> pb_history_export active p l = Ret p' ->
  r ∈ l -> p_lastid p < h_id r <= p_lastid p' -> r ∈ p_sent p' \/ excused active l r.
Proof.
  intros Hs H Hr Hid. unfold pb_history_export in H.
  destruct (filter_novalue_keeps [] (reverse l) r (sorted_reverse l Hs) (proj2 (elem_of_reverse _ _) Hr))
    as [Hk | [Hn [Hn'%elem_of_nil | (r' & Hr' & E1 & E2 & E3)]]]; [|done|].
  2: { right. right. split; [done|]. exists r'. split_and!; [by apply elem_of_reverse|done..]. }
  set (k := reverse (filter_novalue [] (reverse l))) in *.
  assert (Hks : StronglySorted id_lt k).
  { eapply sorted_sublist; [|exact Hs]. unfold k. rewrite <- (reverse_involutive l) at 2. apply sublist_reverse, filter_novalue_sublist. }
  apply elem_of_reverse in Hk. fold k in Hk.
  destruct (export_loop_ok _ _ _ _ H) as (l1 & l2 & E & Esent & Elast). rewrite E in Hk, Hks.
  apply sorted_app in Hks as (Hs1 & _ & Hs12).
  assert (Hr1 : r ∈ l1).
  { apply elem_of_app in Hk as [? | Hk]; [done|]. exfalso. destruct (list.last l1) as [y|] eqn:Ey; [|lia].
    apply last_Some in Ey as [l' ->]. specialize (Hs12 y r ltac:(set_solver) Hk). lia. }
  destruct (active (h_itemid r)) eqn:Ea; [|right; by left]. left. rewrite Esent. apply elem_of_app. right. by apply list_elem_of_filter.
Qed.

(** The rows with an excuse are those noted as left out. *)
Lemma excused_left_out (active : Z -> bool) (l : list zbx_pb_history) (r : zbx_pb_history) (upto : Z) :
  r ∈ l -> h_id r <= upto -> excused active l r -> r ∈ (rows_left_out active l upto).*2.
Proof.
  intros Hr Hle Hex. unfold rows_left_out. rewrite fmap_app, <- !list_fmap_compose. apply elem_of_app.
  destruct Hex as [Ha | (Hn & r' & Hr' & E1 & E2 & E3)]; [left|right]; apply list_elem_of_fmap; exists r; (split; [done|]);
    apply list_elem_of_filter; [done|]. split; [|done]. split; [done|]. unfold newer_novalue. rewrite Hn. cbn [andb].
  apply existsb_exists. exists r'. split; [by apply list_elem_of_In|]. rewrite E1, E2, Z.eqb_refl. cbn [andb]. by apply Z.ltb_lt.
Qed.

Lemma excused_mono (active : Z -> bool) (l l' : list zbx_pb_history) (r : zbx_pb_history) :
  (forall x, x ∈ l -> x ∈ l') -> excused active l r -> excused active l' r.
Proof. intros Hl [? | (? & r' & ? & ?)]; [by left|]. right. split; [done|]. exists r'. auto. Qed.

(** A batch that was read goes into the packet. *)
Lemma export_packet (v : hist) (active : Z -> bool) (r : reading) (p' : packet) :
  reading_ok v r -> pb_history_export active (rd_packet r) (rd_got r) = Ret p' ->
  packet_ok v (rd_left r ++ rows_left_out active (rd_got r) (p_lastid p')) p'.
Proof.
  intros [Hp Hd Hs Hg Hl _ _ _] H. pose proof (fun x => export_complete active _ _ _ x Hs H) as Hc.
  destruct (export_ok _ _ _ _ Hs H) as (sent & [E1 Hsub E2 E3]). destruct Hp as [Pd Ps Pp].
  assert (Hr : p_lastid (rd_packet r) <= p_lastid p' <= rd_last r).
  { destruct E3 as [-> | (x & Hx & <-)]; [lia|]. destruct (Hg x Hx). lia. }
  constructor.
  - destruct Hd as [Hb Hd], Pd as [Hb' _]. split; [lia|]. intros x Hx Hle. destruct (Hd x Hx ltac:(lia)) as [? | Hin]; [auto|].
    right. unfold taken in *. rewrite fmap_app, E1 in *. apply elem_of_app in Hin as [Hin | Hin]; [set_solver|].
    destruct (Hg x Hin) as [_ Hgx]. destruct (Hc x Hin ltac:(lia)) as [? | Hex]; [set_solver|].
    rewrite !elem_of_app. right; right. by apply excused_left_out.
  - rewrite E1. apply sorted_app. split_and!; [done|by eapply sorted_sublist|]. intros x y Hx Hy.
    destruct (Pp x Hx) as [_ Hxl]. destruct (Hg y) as [_ Hyl]; [by eapply elem_of_sublist|]. lia.
  - intros x. rewrite E1. intros [Hx | Hx]%elem_of_app.
    + destruct (Pp x Hx). split; [done|lia].
    + split; [apply Hg; by eapply elem_of_sublist|auto].
Qed.

(** Up to the last id of a packet, a row that is not in it has an excuse. *)
Definition left_out (active : Z -> bool) (all : list zbx_pb_history) (p : packet) : Prop :=
  forall r, r ∈ all -> h_id r <= p_lastid p -> r ∈ p_sent p \/ excused active all r.

(** The packet that is made from the rows in memory. *)
Record sent_of (active : Z -> bool) (all : list zbx_pb_history) (p : packet) : Prop := {
  so_sorted : StronglySorted id_lt (p_sent p);
  so_sent : forall r, r ∈ p_sent p -> r ∈ all /\ h_id r <= p_lastid p;
  so_lastid : p_lastid p = 0 \/ exists r, r ∈ all /\ h_id r = p_lastid p;
  so_left : left_out active all p
}.

(** The rows that are still to be exported. *)
Definition remaining (all l : list zbx_pb_history) (p : packet) : Prop :=
  forall r, r ∈ l <-> r ∈ all /\ p_lastid p < h_id r.

(** One batch goes into the packet. *)
Lemma export_batch (active : Z -> bool) (all l1 l2 : list zbx_pb_history) (p p1 : packet) :
  StronglySorted id_lt (l1 ++ l2) -> remaining all (l1 ++ l2) p -> sent_of active all p ->
  pb_history_export active p l1 = Ret p1 ->
  sent_of active all p1 /\
  (buffer_offset (p_json p1) <= ZBX_DATA_JSON_RECORD_LIMIT -> l1 <> [] -> remaining all l2 p1).
Proof.
  intros Hs Hl [S1 S2 S3 S4] E. apply sorted_app in Hs as (Hs1 & Hs2 & Hs12).
  pose proof (fun x => export_complete active _ _ _ x Hs1 E) as Hc.
  destruct (export_ok _ _ _ _ Hs1 E) as (sent & [E1 Hsub E2 E3]).
  assert (Hl1 : forall r, r ∈ l1 -> r ∈ all /\ p_lastid p < h_id r) by (intros r Hr; apply Hl; set_solver).
  assert (Hle : p_lastid p <= p_lastid p1).
  { destruct E3 as [-> | (x & Hx & <-)]; [lia|]. destruct (Hl1 x Hx). lia. }
  split; [constructor|].
  - rewrite E1. apply sorted_app. split_and!; [done|by eapply sorted_sublist|]. intros x y Hx Hy.
    destruct (S2 x Hx) as [_ Hxl]. destruct (Hl1 y) as [_ Hyl]; [by eapply elem_of_sublist|lia].
  - intros x. rewrite E1. intros [Hx | Hx]%elem_of_app.
    + destruct (S2 x Hx). split; [done|lia].
    + split; [|auto]. apply Hl1. by eapply elem_of_sublist.
  - destruct E3 as [-> | (x & Hx & Ex)]; [done|]. right. exists x. split; [by apply Hl1|done].
  - intros r Hr Hid. destruct (Z_le_gt_dec (h_id r) (p_lastid p)) as [Hle' | Hgt].
    { destruct (S4 r Hr Hle'); [left; rewrite E1; set_solver|by right]. }
    assert (Hr1 : r ∈ l1).
    { destruct (Hl r) as [_ Hrl]. specialize (Hrl ltac:(split; [done|lia])). apply elem_of_app in Hrl as [? | Hrd]; [done|].
      exfalso. destruct E3 as [Ep | (x & Hx & Ex)]; [lia|]. specialize (Hs12 x r Hx Hrd). lia. }
    destruct (Hc r Hr1 ltac:(lia)) as [? | Hex]; [by left|right]. eapply excused_mono; [|exact Hex]. intros x Hx. by apply Hl1.
  - intros Hrec Hne. pose proof (export_loop_all _ _ _ _ E Hrec) as El. rewrite filter_novalue_last in El.
    destruct l1 as [|x l1 _] using rev_ind; [done|]. rewrite last_snoc in El. intros r. split.
    + intros Hr. split; [apply Hl; set_solver|]. rewrite El. apply Hs12; [set_solver|done].
    + intros [Hr Hlt]. destruct (Hl1 x ltac:(set_solver)) as [_ Hx].
      destruct (Hl r) as [_ Hrl]. specialize (Hrl ltac:(split; [done|lia])). apply elem_of_app in Hrl as [Hr1 | ?]; [|done].
      exfalso. pose proof (sorted_last _ r Hs1 Hr1) as Hl'. unfold last_row_id in Hl'. rewrite last_snoc in Hl'. cbn in Hl'. lia.
Qed.

Lemma get_mem_loop_ok (fuel : nat) (active : Z -> bool) (all l : list zbx_pb_history) (p p' : packet) (more : bool) :
  StronglySorted id_lt l -> remaining all l p -> sent_of active all p ->
  get_mem_loop fuel active p l = Ret (p', more) -> sent_of active all p'.
Proof.
  revert l p. induction fuel as [|fuel IH]; intros l p Hs Hl Hp; [done|]. cbn [get_mem_loop].
  set (n := Z.to_nat ZBX_MAX_HRECORDS). intros (p1 & E & H)%res_bind_Ret.
  rewrite <- (take_drop n l) in Hs, Hl. destruct (export_batch active all _ _ p p1 Hs Hl Hp E) as [Hp1 Hl1].
  destruct (Z.eqb_spec (Z.of_nat (length (take n l))) ZBX_MAX_HRECORDS) as [El | El]; cbn [negb] in H;
    [|by apply Ret_inj in H as [= <- <-]].
  destruct (Z.leb_spec ZBX_DATA_JSON_BATCH_LIMIT (buffer_offset (p_json p1))) as [Hb | Hb]; cbn [orb] in H;
    [by apply Ret_inj in H as [= <- <-]|].
  case_match; [by apply Ret_inj in H as [= <- <-]|].
  assert (ZBX_DATA_JSON_BATCH_LIMIT <= ZBX_DATA_JSON_RECORD_LIMIT) by (vm_compute; discriminate).
  apply sorted_app in Hs as (_ & Hs2 & _). eapply IH; [exact Hs2| |exact Hp1|exact H].
  apply Hl1; [lia|]. intros En. by rewrite En in El.
Qed.

Lemma get_mem_ok (active : Z -> bool) (pb : zbx_pb) (j : zbx_json) (p : packet) (more : bool) :
  StronglySorted id_lt (rows (history pb)) -> (forall r, r ∈ rows (history pb) -> 0 < h_id r) ->
  pb_history_get_mem active pb j = Ret (p, more) -> sent_of active (rows (history pb)) p.
Proof.
  intros Hs Hpos. unfold pb_history_get_mem. set (M := rows (history pb)) in *.
  assert (H0 : sent_of active M (Packet j 0 0 [])).
  { constructor; cbn; [constructor|by intros r ?%elem_of_nil|by left|]. intros r Hr Hle. specialize (Hpos r Hr). cbn in Hle. lia. }
  assert (Hr : remaining M M (Packet j 0 0 [])) by (intros r; cbn; split; [auto|tauto]).
  destruct M as [|r M0] eqn:E; [by intros [= <- <-]|]. rewrite <- E in *.
  intros ([p1 m1] & H & [= <- <-])%res_bind_Ret. apply (get_mem_loop_ok _ _ M) in H; [|done..].
  destruct H. constructor; done.
Qed.

(* ------------------------------------------------------------------ *)
(** ** Reading the table *)

Lemma select_ok (v : hist) (id limit : Z) :
  safe [] v ->
  let l := select_rows id limit (v_table v) in
  StronglySorted id_lt l /\ (forall r, r ∈ l -> r ∈ v_table v /\ id < h_id r) /\
  (forall r x, r ∈ v_table v -> id < h_id r -> x ∈ l -> h_id r < h_id x -> r ∈ l).
Proof.
  intros F l. set (sorted := merge_sort id_le (filter (fun r => id < row_id r) (v_table v))).
  assert (Hperm : sorted ≡ₚ filter (fun r => id < row_id r) (v_table v)) by apply merge_sort_Permutation.
  assert (Hin : forall r, r ∈ sorted <-> id < h_id r /\ r ∈ v_table v) by (intros r; by rewrite Hperm, list_elem_of_filter).
  assert (Hs : StronglySorted id_lt sorted).
  { assert (Hle : StronglySorted id_le sorted).
    { apply StronglySorted_merge_sort; [intros x y z; unfold id_le; lia|intros x y; unfold id_le; lia]. }
    assert (Hnd : NoDup sorted) by (rewrite Hperm; apply NoDup_filter, F).
    assert (Ha : forall r, r ∈ sorted -> r ∈ assigned (v_ledger v)) by (intros r [_ Hr]%Hin; apply F; auto).
    clear - Hle Hnd Ha F. induction sorted as [|x l IH]; [constructor|].
    apply StronglySorted_cons in Hle as [Hx Hle]. apply NoDup_cons in Hnd as [Hxl Hnd].
    apply StronglySorted_cons. split; [|apply IH; [done|done|set_solver]]. rewrite Forall_forall in *. intros y Hy.
    specialize (Hx y Hy). unfold id_le, id_lt in *. cbn in Hx. destruct (Z.eq_dec (h_id x) (h_id y)) as [E | E]; [|lia].
    destruct Hxl. replace x with y; [done|]. symmetry. apply (sf_inj _ _ F); [apply Ha; set_solver..|done]. }
  unfold l, select_rows. fold sorted. rewrite <- (take_drop (Z.to_nat limit) sorted) in Hs, Hin.
  apply sorted_app in Hs as (Hs1 & _ & Hs12). split_and!; [done| |].
  - intros r Hr. destruct (Hin r) as [[? ?] _]; [set_solver|done].
  - intros r x Hr Hid Hx Hlt. destruct (Hin r) as [_ Hr']. specialize (Hr' ltac:(done)). apply elem_of_app in Hr' as [? | Hr']; [done|].
    specialize (Hs12 x r Hx Hr'). lia.
Qed.

(** Reading on, up to a gap that has not been waited for: nothing is passed
    over, since what could still come has a larger id. *)
Lemma scan_ok (v : hist) (R : list zbx_pb_history) (gapid last : Z) (got l got' : list zbx_pb_history) (last' : Z) (og : option Z) :
  safe [] v -> done_to v (R ++ got) last -> StronglySorted id_lt l ->
  (forall r, r ∈ l -> r ∈ v_table v /\ last < h_id r) ->
  (forall r x, r ∈ v_table v -> last < h_id r -> x ∈ l -> h_id r < h_id x -> r ∈ l) ->
  (forall m, m ∈ v_rows v -> gapid < h_id m) ->
  (gapid <> 0 -> forall x, in_trans (v_handles v) x -> gapid < h_id x) ->
  scan_rows last gapid got l = (got', last', og) ->
  done_to v (R ++ got') last' /\ last <= last' /\
  (exists l1, got' = got ++ l1 /\ l1 `sublist_of` l /\ forall r, r ∈ l1 -> h_id r <= last') /\
  (forall g, og = Some g -> exists x, x ∈ v_table v /\ g = h_id x).
Proof.
  intros F Hd Hs Hl Hc Hm Hg. revert last got Hd Hl Hc. induction l as [|row l IH]; intros last got Hd Hl Hc; cbn [scan_rows].
  { intros [= <- <- <-]. split_and!; [done|lia| |done]. exists []. rewrite app_nil_r. split_and!; [done|done|by intros r ?%elem_of_nil]. }
  destruct (Hl row ltac:(left)) as [Hrow Hlt]. apply StronglySorted_cons in Hs as [Hfirst Hs]. rewrite Forall_forall in Hfirst.
  unfold id_lt in Hfirst. destruct (_ && _) eqn:Egap.
  { intros [= <- <- <-]. split_and!; [done|lia| |]; [|intros g [= <-]; eauto].
    exists []. rewrite app_nil_r. split_and!; [done|apply sublist_nil_l|by intros r ?%elem_of_nil]. }
  assert (Hd' : done_to v (R ++ got ++ [row]) (h_id row)).
  { assert (Hra : row ∈ assigned (v_ledger v)) by (apply F; auto). pose proof (sf_ids _ _ F row Hra) as Hrid.
    destruct Hd as [Hb Hd]. split; [lia|]. intros r Hr Hle. destruct (Z_le_gt_dec (h_id r) last) as [Hle' | Hgt].
    { destruct (Hd r Hr Hle'); [auto|set_solver]. }
    destruct (Z.eq_dec (h_id r) (h_id row)) as [E | Hne].
    { right. apply (sf_inj _ _ F) in E as ->; [set_solver|done..]. }
    apply andb_false_iff in Egap as [Egap%Z.ltb_ge | Egap%negb_false_iff%Z.eqb_eq]; [lia|].
    destruct (sf_all _ _ F r Hr) as [? | [Hin | [Hin | [Hin | Hin%elem_of_nil]]]]; [auto|exfalso..|done].
    - specialize (Hm r Hin). lia.
    - specialize (Hc r row Hin ltac:(lia) ltac:(left) ltac:(lia)). apply elem_of_cons in Hc as [-> | Hc]; [lia|].
      specialize (Hfirst r Hc). lia.
    - specialize (Hg ltac:(lia) r Hin). lia. }
  intros H. destruct (IH Hs (h_id row) (got ++ [row]) Hd') as (D1 & L1 & (l1 & -> & Hsub & Hl1) & G1); [..|exact H|].
  - intros r Hr. split; [apply Hl; by right|by apply Hfirst].
  - intros r x Hr Hlt' Hx Hlx. specialize (Hc r x Hr ltac:(lia) ltac:(by right) Hlx). apply elem_of_cons in Hc as [-> | Hc]; [lia|done].
  - split_and!; [done|lia| |done]. exists (row :: l1). rewrite <- app_assoc. split_and!; [done|by constructor|].
    intros r [-> | Hr]%elem_of_cons; [done|auto].
Qed.

(* ------------------------------------------------------------------ *)
(** ** Writers *)

Lemma settled_lost (sv : server) (g : ledger) (why : reason) (l : list zbx_pb_history) :
  let g' := Ledger (assigned g) (lost g ++ (pair why <$> l)) in
  (forall r, settled sv g r -> settled sv g' r) /\ (forall r, r ∈ l -> settled sv g' r).
Proof.
  unfold settled. cbn. rewrite fmap_app, reason_rows. split; intros r; rewrite elem_of_app; tauto.
Qed.

(** Putting rows into memory, whatever becomes of them. *)
Lemma change_safe (k : kind) (l l' : list (row_of k)) (s s' : sys) :
  change k l s l' s' -> safe (history_of k l) (view s) /\ s_ids s KHistory <= UINT64_MAX ->
  safe (history_of k l') (view s') /\ s_ids s' = s_ids s.
Proof.
  intros Hc [F Hmax].
  assert (Hsort : StronglySorted id_lt (rows (history (s_pb s)) ++ history_of k l)) by apply F.
  destruct Hc as [l s pb' d now Hg Hd Hexp | taken rest s pb' d cause Hdst Hg Hd Hcause _ | l s too_old commits s' E Hold | l s Est].
  - split; [|done]. destruct (settled_lost (s_server s) (s_ledger s) Expired
      (gone (expired now (s_pb s)) (rows (history (s_pb s))) (rows (history pb')))) as [H1 H2].
    unfold view. cbn. rewrite (same_state _ _ Hg), (same_sent _ _ Hg), (same_lastid_db _ _ Hg), (same_handleids _ _ Hg).
    eapply (safe_store [] _ d (rows (history (s_pb s)))); [exact F|by left|by rewrite app_nil_r|done|done|].
    intros r Hr. apply H2. rewrite Hd. apply gone_front; [|done|done]. rewrite <- Hd. by apply sorted_app in Hsort as [? _].
  - split; [|done]. rewrite history_of_app in F, Hsort.
    destruct (settled_lost (s_server s) (s_ledger s) NoRoom
      (gone cause (rows (history (s_pb s)) ++ history_of k taken) (rows (history pb')))) as [H1 H2].
    unfold view. cbn. rewrite (same_state _ _ Hg), (same_sent _ _ Hg), (same_lastid_db _ _ Hg), (same_handleids _ _ Hg).
    eapply (safe_store _ _ d (rows (history (s_pb s)))); [exact F|by right|exact Hd|done|done|].
    intros r Hr. apply H2. rewrite Hd. apply gone_front; [|done|done]. rewrite <- Hd.
    rewrite app_assoc in Hsort. by apply sorted_app in Hsort as [? _].
  - destruct (fall_back_ok too_old commits s) as [(s1 & pb' & db' & E' & Hf) | (E' & _)]; [|congruence].
    rewrite E' in E. injection E as <-. destruct (fell_state _ _ _ _ _ _ Hf) as (_ & _ & ->). split; [|done].
    destruct Hf as [[Fst Fmode _ _ Fhid Fsent Frows Fraised Fdb] ->]. cbn zeta.
    rewrite (clear_rows_all UINT64_MAX) in Frows.
    2: { intros r Hr. assert (Ha : r ∈ assigned (s_ledger s)) by (apply (sf_in _ _ F); auto).
      apply (sf_ids _ _ F) in Ha. cbn in Ha. lia. }
    assert (Hlost : forall why, db' = s_db s -> safe (history_of k l)
      (view (note_lost why (rows (history (s_pb s))) (with_db db' (with_pb pb' s))))).
    { intros why ->. destruct (settled_lost (s_server s) (s_ledger s) why (rows (history (s_pb s)))) as [H1 H2].
      unfold view. cbn. rewrite Fst, Fhid, Fsent, Frows.
      eapply (safe_flush _ (rows (history (s_pb s)))); [exact F|done|done|by left|done|]. right. done. }
    destruct (bool_decide_reflect (mode (s_pb s) = ZBX_PB_MODE_MEMORY)) as [Em | Em].
    { rewrite andb_false_r in Fdb. rewrite (Hold Em). by apply Hlost. }
    case_bool_decide as Eok; cbn [andb negb] in Fdb; [|by apply Hlost].
    destruct Fdb as (ET & ED & EB). unfold view. cbn. rewrite Fst, Fhid, Fsent, Frows.
    eapply (safe_flush _ (rows (history (s_pb s)))); [exact F|done|done|done|done|]. left. done.
  - split; [|done]. unfold view in *. cbn in *. rewrite Est in F. by apply safe_full.
Qed.

Lemma change_ids (k : kind) (l l' : list (row_of k)) (s s' : sys) : change k l s l' s' -> s_ids s' = s_ids s.
Proof.
  destruct 1 as [| |l s too_old commits s' E _|]; try done.
  destruct (fall_back_ok too_old commits s) as [(s1 & pb' & db' & E' & Hf) | (E' & _)]; [|congruence].
  rewrite E' in E. injection E as <-. by destruct (fell_state _ _ _ _ _ _ Hf) as (_ & _ & ->).
Qed.

Lemma changes_safe (k : kind) (l l' : list (row_of k)) (s s' : sys) :
  changes k l s l' s' -> safe (history_of k l) (view s) -> s_ids s KHistory <= UINT64_MAX ->
  safe (history_of k l') (view s') /\ s_ids s' = s_ids s.
Proof.
  intros Hc F Hmax. apply (changes_keep k (fun l s1 => safe (history_of k l) (view s1) /\ s_ids s1 = s_ids s) l l' s s'); [|done|done].
  intros l1 s1 l2 s2 Hch [Hs Hi]. destruct (change_safe k l1 l2 s1 s2 Hch) as [Hs' Hi']; [by rewrite Hi|]. split; [done|congruence].
Qed.

(** The view of the system without the sender's part. *)
Lemma set_row_ids_ok (l : list zbx_pb_history) (id h : Z) :
  StronglySorted id_lt (pb_set_row_ids id h l) /\
  (forall r, r ∈ pb_set_row_ids id h l -> id <= h_id r < id + Z.of_nat (length l)) /\
  length (pb_set_row_ids id h l) = length l.
Proof.
  revert id. induction l as [|r l IH]; intros id; cbn [pb_set_row_ids length].
  { split_and!; [constructor|by intros r ?%elem_of_nil|done]. }
  destruct (IH (id + 1)) as (Hs & Hb & Hl). split_and!.
  - apply StronglySorted_cons. split; [|done]. apply Forall_forall. intros x Hx. specialize (Hb x Hx). unfold id_lt. cbn. lia.
  - intros x [-> | Hx]%elem_of_cons; [cbn; lia|]. specialize (Hb x Hx). lia.
  - by rewrite Hl.
Qed.

Lemma history_of_other (k : kind) (l : list (row_of k)) : k <> KHistory -> history_of k l = [].
Proof. by destruct k. Qed.

(** The lists of history handles that matter to the invariant. *)
Lemma handles_same (s s' : sys) :
  safe [] (view s) -> rows (history (s_pb s')) = rows (history (s_pb s)) -> state (s_pb s') = state (s_pb s) ->
  lastid_sent (history (s_pb s')) = lastid_sent (history (s_pb s)) ->
  lastid_db (history (s_pb s')) = lastid_db (history (s_pb s)) ->
  history_handleids (s_pb s') = history_handleids (s_pb s) ->
  ids (s_db s') KHistory = ids (s_db s) KHistory -> s_ids s' KHistory = s_ids s KHistory ->
  proxy_history (s_db s') = proxy_history (s_db s) -> hs_history (s_hs s') = hs_history (s_hs s) ->
  s_sender s' = s_sender s -> s_server s' = s_server s -> s_ledger s' = s_ledger s -> safe [] (view s').
Proof. intros F E1 E2 E3 E4 E5 E6 E7 E8 E9 E10 E11 E12. unfold view in *. by rewrite E1, E2, E3, E4, E5, E6, E7, E8, E9, E10, E11, E12. Qed.

Lemma safe_in_range (s : sys) : safe [] (view s) -> counted s ->
  hs_history (s_hs s) !! (handleid (s_pb s) + 1) = None.
Proof. intros _ Hc. destruct (_ !! _) eqn:E; [|done]. apply (ct_history _ Hc) in E. simpl in E. lia. Qed.

(** Opening a handle. *)
Lemma open_safe (k : kind) (s : sys) :
  handleid (s_pb s) + 1 < 2 ^ 64 -> counted s -> safe [] (view s) -> safe [] (view (pb_open k s)).
Proof.
  intros Hw Hc F. destruct (decide (k = KHistory)) as [-> | Hk].
  2: { destruct k; [done|..]; unfold pb_open; cbn; case_match; by apply (handles_same s). }
  pose proof (ct_pos _ Hc) as Hpos.
  assert (Eu : u64 (handleid (s_pb s) + 1) = handleid (s_pb s) + 1) by (apply u64_small; lia).
  pose proof (safe_in_range s F Hc) as Hfree.
  assert (H : forall x, waiting x -> (state (s_pb s) = PB_MEMORY -> exists l, x = HMem l) ->
    safe [] (Hist (rows (history (s_pb s))) (state (s_pb s)) (lastid_sent (history (s_pb s))) (lastid_db (history (s_pb s)))
      (ids (s_db s) KHistory) (s_ids s KHistory) (proxy_history (s_db s)) (<[handleid (s_pb s) + 1 := x]> (hs_history (s_hs s)))
      (history_handleids (s_pb s) ++ [handleid (s_pb s) + 1]) (s_sender s) (s_server s) (s_ledger s))).
  { intros x Hx Hm. eapply safe_handles; [exact F|..|done| |].
    - intros h l. rewrite lookup_insert_Some. split; [intros [[_ ->] | [_ ?]]; done|]. intros E. right. split; [|done].
      intros <-. by rewrite Hfree in E.
    - intros h id E. left. rewrite lookup_insert_ne; [done|]. intros <-. by rewrite Hfree in E.
    - intros Est. apply map_Forall_insert_2; [auto|]. by apply (sf_memory _ _ F Est).
    - apply map_Forall_insert_2; [split; [lia|set_solver]|]. eapply map_Forall_impl; [apply (sf_keys _ _ F)|].
      intros h y [? Hin]. cbn in Hin. set_solver. }
  unfold pb_open, pb_register_handle, pb_get_next_handleid. cbn. rewrite Eu.
  case_match eqn:Ed; apply H; cbn; try done; eauto.
  intros Est. rewrite Est in Ed. done.
Qed.

Lemma history_handle (s : sys) (h : Z) (y : handle zbx_pb_history) :
  safe [] (view s) -> hs_history (s_hs s) !! h = Some y -> 0 < h /\ h ∈ history_handleids (s_pb s).
Proof. intros F E. by apply (sf_keys _ _ F h y). Qed.

(** A handle that waits is written to or given up. *)
Lemma write_safe (k : kind) (h : Z) (row : row_of k) (s : sys) : safe [] (view s) -> safe [] (view (pb_write k h row s)).
Proof.
  intros F. destruct (decide (k = KHistory)) as [-> | Hk].
  2: { unfold pb_write. destruct k; [done|..]; repeat case_match; try done; by apply (handles_same s). }
  assert (H : forall x y, hs_history (s_hs s) !! h = Some y -> waiting x -> waiting y ->
    ((exists l, y = HMem l) -> exists l, x = HMem l) -> safe [] (view (put_handle KHistory h x s))).
  { intros x y E Hx Hy Hm. unfold view. cbn. eapply safe_handles; [exact F|..|done| |].
    - intros h' l. rewrite lookup_insert_Some. split; [intros [[_ ->] | [_ ?]]; done|]. intros E'. right. split; [|done].
      intros <-. rewrite E in E'. injection E' as ->. done.
    - intros h' id E'. left. rewrite lookup_insert_ne; [done|]. intros <-. rewrite E in E'. injection E' as ->. done.
    - intros Est. pose proof (proj2 (sf_memory _ _ F Est)) as Hall. apply map_Forall_insert_2; [|done].
      apply Hm. by apply (Hall h).
    - apply map_Forall_insert_2; [by apply (history_handle s h y)|]. apply (sf_keys _ _ F). }
  unfold pb_write. destruct (get_hs KHistory (s_hs s) !! h) as [[l | l | l | l]|] eqn:E; try done; cbn in E.
  - eapply H; [exact E|done..|]. eauto.
  - eapply H; [exact E|done..|]. by intros [? [=]].
Qed.

(** A handle is closed: no row waits in it. *)
Lemma release_safe (k : kind) (h : Z) (y : handle (row_of k)) (s : sys) (pb : zbx_pb) :
  get_hs k (s_hs s) !! h = Some y -> (forall l, y <> HIns l) ->
  (forall id, y = HFin id -> k = KHistory -> id <= lastid_db (history pb)) ->
  rows (history pb) = rows (history (s_pb s)) -> state pb = state (s_pb s) ->
  lastid_sent (history pb) = lastid_sent (history (s_pb s)) -> lastid_db (history (s_pb s)) <= lastid_db (history pb) ->
  history_handleids pb = history_handleids (s_pb s) ->
  counted s -> safe [] (view s) -> safe [] (view (pb_release k h (with_pb pb s))).
Proof.
  intros E Hins Hfin E1 E2 E3 HB E5 Hc F. destruct (decide (k = KHistory)) as [-> | Hk].
  - unfold view. cbn. rewrite E1, E2, E3, E5. eapply safe_handles; [exact F|..|done| |].
    + intros h' l. rewrite lookup_delete_Some. split; [tauto|]. intros E'. split; [|done]. intros <-.
      cbn in E. rewrite E in E'. injection E' as ->. by destruct (Hins l).
    + intros h' id E'. destruct (decide (h' = h)) as [-> | Hne]; [|left; by apply lookup_delete_Some].
      right. apply Hfin; [|done]. cbn in E. rewrite E in E'. by injection E'.
    + intros Est. apply map_Forall_delete. by apply (sf_memory _ _ F Est).
    + intros h' y' (Hne & E')%lookup_delete_Some. destruct (history_handle s h' y' F E') as [Hp Hin]. split; [done|].
      destruct (history_handle s h y F E) as [_ Hin0].
      assert (Hnd : NoDup (history_handleids (s_pb s))) by (rewrite (ct_ids _ Hc); apply NoDup_fst_map_to_list).
      rewrite (remove_noorder_perm h _ Hnd Hin0) in Hin. apply elem_of_cons in Hin as [? | Hin]; [congruence|done].
  - assert (F' : safe [] (view (with_pb pb s))).
    { unfold view. cbn. rewrite E1, E2, E3, E5. eapply safe_handles; [exact F|done|auto|done|..].
      - intros Est. by apply (sf_memory _ _ F Est).
      - apply (sf_keys _ _ F). }
    destruct k; [done|..]; by apply (handles_same (with_pb pb s)).
Qed.

Lemma with_pb_id (s : sys) : with_pb (s_pb s) s = s.
Proof. by destruct s. Qed.

(** Rows get their ids from the cache of last ids. *)
Lemma assign_safe (k : kind) (h : Z) (l : list (row_of k)) (s : sys) :
  safe [] (view s) ->
  let '(id, s1) := zbx_dc_get_nextid k (Z.of_nat (length l)) s in
  safe (history_of k (pb_set_row_ids id h l)) (view (note_assigned k (pb_set_row_ids id h l) s1)).
Proof.
  intros F. cbn [zbx_dc_get_nextid]. destruct (decide (k = KHistory)) as [-> | Hk].
  - destruct (set_row_ids_ok l (s_ids s KHistory + 1) h) as (Hs & Hb & Hl). unfold view. cbn. rewrite decide_True by done.
    eapply safe_assign; [exact F|done|done|exact Hs| |cbn; lia]. intros r Hr. specialize (Hb r Hr). cbn in *. lia.
  - rewrite history_of_other by done. unfold view. destruct k; [done|..]; cbn; rewrite decide_False by done;
      (eapply safe_assign; [exact F|done|done|constructor|by intros r ?%elem_of_nil|done]).
Qed.

Lemma assign_ids (k : kind) (n : Z) (s : sys) : 0 <= n ->
  s_ids s KHistory <= s_ids (snd (zbx_dc_get_nextid k n s)) KHistory.
Proof. intros Hn. cbn. case_decide; subst; lia. Qed.

Lemma close_mem_safe (k : kind) (h now now' : Z) (plan : list bool) (commits : list commit_result) (s s' : sys) :
  counted s -> safe [] (view s) -> pb_close_mem k h now now' plan commits s = Ret s' -> s_ids s' KHistory <= UINT64_MAX ->
  safe [] (view s').
Proof.
  intros Hc F. unfold pb_close_mem. destruct (get_hs k (s_hs s) !! h) as [[[|r l] | l | l | l]|] eqn:E; try by intros [= <-].
  - intros [= <-] _. rewrite <- (with_pb_id s). eapply release_safe; [exact E|done..].
  - pose proof (assign_safe k h (r :: l) s F) as F1. unfold zbx_dc_get_nextid in F1 |- *.
    set (l1 := pb_set_row_ids _ _ _) in *. set (s1 := note_assigned _ _ _) in *.
    destruct (close_to_mem_ok k l1 now now' plan commits s1) as [(o & s2 & E2 & Hch & Hdst) | (E2 & _)]; rewrite E2; run; [|done].
    assert (Hc1 : counted s1) by by apply (counted_same s).
    destruct (changes_counted _ _ _ _ _ Hch Hc1) as [Eh Hc2].
    assert (Emax : s_ids s1 KHistory <= UINT64_MAX -> safe (history_of k (default [] o)) (view s2) /\ s_ids s2 = s_ids s1).
    { intros Hmax. by apply (changes_safe _ _ _ _ _ Hch F1). }
    assert (Eids : s_ids s2 = s_ids s1).
    { apply (changes_keep k (fun _ s3 => s_ids s3 = s_ids s1) _ _ _ _) in Hch; [done| |done].
      intros l3 s3 l4 s4 H3 <-. by apply change_ids in H3. }
    destruct o as [rest|]; intros [= <-] Hmax.
    + destruct Emax as [Emax _]; [by rewrite <- Eids|]. destruct (decide (k = KHistory)) as [-> | Hk].
      * specialize (Hdst ltac:(done)). unfold view. cbn. eapply safe_begin; [exact Emax| | |..]; cbn.
        -- rewrite Eh. exact E.
        -- done.
        -- intros Est. by rewrite Est in Hdst.
        -- intros Est. by rewrite Est in Hdst.
      * rewrite history_of_other in Emax by done. destruct k; [done|..]; by apply (handles_same s2).
    + destruct Emax as [Emax _]; [rewrite <- Eids; by destruct k|]. assert (F2 : safe [] (view s2)) by by destruct k.
      rewrite <- (with_pb_id s2). eapply release_safe; [by rewrite Eh|done..].
Qed.

Lemma write_host_safe (h : Z) (row : zbx_pb_autoreg) (now now' : Z) (plan : list bool) (commits : list commit_result) (s s' : sys) :
  safe [] (view s) -> s_ids s KHistory <= UINT64_MAX ->
  zbx_pb_autoreg_write_host h row now now' plan commits s = Ret s' -> safe [] (view s').
Proof.
  intros F Hmax. unfold zbx_pb_autoreg_write_host. destruct (hs_autoreg (s_hs s) !! h) eqn:E; [by intros [= <-]|].
  destruct (close_to_mem_ok KAutoreg [set_row_id (s_ids s KAutoreg + 1) 0 row] now now' plan commits s)
    as [(o & s2 & E2 & Hch & _) | (E2 & _)]; rewrite E2; run; [|done]. destruct (changes_safe _ _ _ _ _ Hch F Hmax) as [F2 _]. cbn in F2.
  destruct o as [rest|]; intros [= <-].
  - by apply (handles_same s2).
  - case_match; [|done]. by apply (handles_same s2).
Qed.

Lemma alloc_safe (k : kind) (h : Z) (s : sys) :
  (k = KHistory -> state (s_pb s) = PB_DATABASE_MEMORY -> rows (history (s_pb s)) = []) ->
  safe [] (view s) -> safe [] (view (pb_alloc k h s)).
Proof.
  intros Hq F. unfold pb_alloc. destruct (get_hs k (s_hs s) !! h) as [[l | l | l | l]|] eqn:E; try done.
  pose proof (assign_safe k h l s F) as F1. unfold zbx_dc_get_nextid in *. destruct (decide (k = KHistory)) as [-> | Hk].
  - unfold view in *. cbn in *. eapply safe_begin; [exact F1|exact E|done| |auto].
    intros Est. by destruct (proj2 (sf_memory _ _ F Est) h _ E).
  - rewrite history_of_other in F1 by done. revert F1. set (s1 := note_assigned _ _ _). intros F1.
    destruct k; [done|..]; by apply (handles_same s1).
Qed.

Lemma commit_safe (k : kind) (h : Z) (commit : commit_result) (s : sys) :
  safe [] (view s) -> safe [] (view (pb_commit k h commit s)).
Proof.
  intros F. unfold pb_commit. destruct (get_hs k (s_hs s) !! h) as [[l | l | l | l]|] eqn:E; try done.
  destruct (decide (k = KHistory)) as [-> | Hk].
  - destruct (settled_lost (s_server s) (s_ledger s) NotCommitted l) as [H1 H2].
    destruct commit; [..|done]; unfold view; cbn; (eapply safe_commit; [exact F|exact E|done| |]); try done; [by left|right; done].
  - destruct commit; [..|done].
    + destruct k; [done|..]; by apply (handles_same s).
    + set (s1 := note_lost NotCommitted (history_of k l) s). assert (F1 : safe [] (view s1)).
      { unfold view. subst s1. cbn. rewrite history_of_other by done. rewrite fmap_nil, app_nil_r.
        unfold view in F. by destruct (s_ledger s). }
      destruct k; [done|..]; by apply (handles_same s1).
Qed.

Lemma finish_safe (k : kind) (h : Z) (s : sys) : counted s -> safe [] (view s) -> safe [] (view (pb_finish k h s)).
Proof.
  intros Hc F. unfold pb_finish. destruct (get_hs k (s_hs s) !! h) as [[l | l | l | l]|] eqn:E; try done.
  destruct (raise_db_ok k l (s_pb s)) as (E1 & E2 & _ & E3 & _ & _ & E4).
  eapply release_safe; [exact E|done| |done|done|done| |done|done|done].
  - intros id [= <-] ->. cbn. rewrite raise_db_history. lia.
  - cbn. destruct (decide (k = KHistory)) as [-> | Hk]; [rewrite raise_db_history; lia|by rewrite raise_db_other].
Qed.

(* ------------------------------------------------------------------ *)
(** ** The sender *)

Lemma sender_safe (s : sys) (sn : sender) :
  safe [] (view s) -> (sender_ok (view (with_sender sn s))) -> safe [] (view (with_sender sn s)).
Proof. intros F Hs. unfold view in *. cbn in *. by eapply safe_sender. Qed.

Lemma later_with_sender (s : sys) (sn : sender) : later (view s) (view (with_sender sn s)).
Proof. by apply later_ledger. Qed.

Lemma sender_is (s : sys) (sn : sender) : safe [] (view s) -> s_sender s = sn -> sender_ok_at (view s) sn.
Proof. intros F <-. apply F. Qed.

Lemma src_cases (st : zbx_pb_state_t) :
  get_pb_src st = PB_MEMORY /\ (st = PB_MEMORY \/ st = PB_MEMORY_DATABASE) \/
  get_pb_src st = PB_DATABASE /\ (st = PB_DATABASE \/ st = PB_DATABASE_MEMORY).
Proof. destruct st; auto. Qed.

Lemma get_rows_safe (active : Z -> bool) (j : zbx_json) (s s' : sys) :
  safe [] (view s) -> zbx_pb_history_get_rows active j s = Ret s' -> safe [] (view s').
Proof.
  intros F. unfold zbx_pb_history_get_rows. destruct (s_sender s) eqn:Esn; try by intros [= <-].
  assert (D0 : done_to (view s) [] 0).
  { split; [pose proof (sf_pos _ _ F); lia|]. intros r Hr Hle. apply (sf_ids _ _ F) in Hr. lia. }
  assert (P0 : packet_ok (view s) [] (Packet j 0 0 [])).
  { constructor; cbn; [done|constructor|by intros r ?%elem_of_nil]. }
  destruct (src_cases (state (s_pb s))) as [[Hsrc _] | [Hsrc _]]; rewrite Hsrc.
  - intros ([p more] & H & [= <-])%res_bind_Ret. apply sender_safe; [done|].
    pose proof (sf_sorted _ _ F) as Hs. rewrite app_nil_r in Hs.
    apply get_mem_ok in H as [S1 S2 S3 S4]; [|exact Hs|intros r Hr; apply (sf_ids _ _ F), (sf_in _ _ F); auto].
    constructor; cbn.
    + assert (Hb : 0 <= p_lastid p <= s_ids s KHistory).
      { destruct S3 as [-> | (x & Hx & <-)]; [pose proof (sf_pos _ _ F); cbn in *; lia|].
        assert (Ha : x ∈ assigned (s_ledger s)) by (apply (sf_in _ _ F); auto). apply (sf_ids _ _ F) in Ha. cbn in Ha. lia. }
      split; [done|]. cbn. intros r Hr Hle. pose proof (sf_ids _ _ F r Hr) as Hid.
      destruct S3 as [E0 | (x & Hx & Ex)]; [lia|].
      destruct (sf_src _ _ F Hsrc x Hx) as [F1 F2].
      destruct (sf_all _ _ F r Hr) as [? | [Hin | [Hin | [Hin | Hin%elem_of_nil]]]]; [by left| | | |done].
      * right. unfold taken. apply elem_of_app. destruct (S4 r Hin Hle) as [? | Hex]; [by left|right].
        by apply excused_left_out.
      * destruct (F1 r Hin); [by left|lia].
      * specialize (F2 r Hin). lia.
    + done.
    + intros r Hr. destruct (S2 r Hr) as [Hin Hle]. split; [|done]. apply (sf_in _ _ F). auto.
  - intros [= <-]. apply sender_safe; [done|].
    destruct (get_db_again _); cbn; [|by eapply later_packet; [apply later_with_sender|]]. split; [|done].
    constructor; cbn; try done.
    + by eapply later_packet; [apply later_with_sender|].
    + apply (sf_lastid _ _ F).
    + constructor.
    + by intros x ?%elem_of_nil.
    + apply (sf_lastid _ _ F).
    + pose proof (sf_pos _ _ F). cbn in *. lia.
    + intros m Hm. apply (sf_ids _ _ F), (sf_in _ _ F). auto.
Qed.

Lemma select_safe (active : Z -> bool) (s s' : sys) :
  safe [] (view s) -> pb_history_get_rows_db active s = Ret s' -> safe [] (view s').
Proof.
  intros F. unfold pb_history_get_rows_db. destruct (s_sender s) as [|r| | | | | |] eqn:Esn; try by intros [= <-].
  destruct (sender_is s _ F Esn) as [Hr Hg]. cbn in Hg.
  destruct (select_ok (view s) (rd_last r) (ZBX_MAX_HRECORDS - Z.of_nat (length (rd_got r))) F) as (Ls & Lin & Lc).
  cbn [view v_table] in Ls, Lin, Lc.
  destruct (scan_rows _ _ _ _) as [[got last] og] eqn:Escan.
  destruct (scan_ok (view s) _ _ _ _ _ _ _ _ F (ro_done _ _ Hr) Ls Lin Lc (ro_rows _ _ Hr) Hg Escan)
    as (Hd & Hle & (l1 & -> & Hsub & Hl1) & Hgap).
  destruct Hr as [Rp Rd Rs Rg Rl Rgap Rsrc Rrows]. cbn in Rsrc, Rrows.
  assert (Hgot : forall x, x ∈ rd_got r ++ l1 -> x ∈ assigned (s_ledger s) /\ p_lastid (rd_packet r) < h_id x <= last).
  { intros x [Hx | Hx]%elem_of_app; [destruct (Rg x Hx); split; [done|lia]|]. assert (Hxl := elem_of_sublist _ _ _ Hx Hsub).
    destruct (Lin x Hxl) as [Hxt Hlt]. split; [apply (sf_in _ _ F); auto|]. specialize (Hl1 x Hx). lia. }
  assert (Hsort : StronglySorted id_lt (rd_got r ++ l1)).
  { apply sorted_app. split_and!; [done|by eapply sorted_sublist|]. intros x y Hx Hy.
    destruct (Rg x Hx). assert (Hyl := elem_of_sublist _ _ _ Hy Hsub). destruct (Lin y Hyl). lia. }
  assert (Hread : forall gapid, 0 <= gapid <= s_ids s KHistory -> (forall m, m ∈ rows (history (s_pb s)) -> gapid < h_id m) ->
    forall sn, reading_ok (view (with_sender sn s)) (Reading (rd_packet r) (rd_left r) (rd_got r ++ l1) last gapid)).
  { intros gapid Hb Hm sn. constructor; cbn; try done; [|lia]. by eapply later_packet; [apply later_with_sender|]. }
  destruct og as [g|].
  - intros [= <-]. apply sender_safe; [done|]. destruct (Hgap g eq_refl) as (x & Hx & ->). cbn in Hx. apply Hread.
    + assert (Ha : x ∈ assigned (s_ledger s)) by (apply (sf_in _ _ F); auto). apply (sf_ids _ _ F) in Ha. cbn in Ha. lia.
    + intros m Hm. destruct (src_cases (state (s_pb s))) as [[? _] | [_ [Est | Est]]]; [congruence| |].
      * by rewrite (sf_database _ _ F Est : rows (history (s_pb s)) = []) in Hm; apply elem_of_nil in Hm.
      * apply (sf_both _ _ F Est m x Hm). auto.
  - unfold after_batch. intros ([p out] & E & H)%res_bind_Ret.
    case_bool_decide as Egot.
    { apply Ret_inj in E as [= <- <-]. apply Ret_inj in H as <-. apply sender_safe; [done|]. cbn.
      rewrite Egot. cbn [rows_left_out filter list_filter fmap list_fmap app]. rewrite app_nil_r.
      eapply later_packet; [apply later_with_sender|]. by destruct Rp; constructor. }
    apply res_bind_Ret in E as (p1 & E & H1).
    assert (Hp1 : packet_ok (view s) (rd_left r ++ rows_left_out active (rd_got r ++ l1) (p_lastid p1)) p1).
    { apply (export_packet (view s) active (Reading (rd_packet r) (rd_left r) (rd_got r ++ l1) last (rd_gapid r)) p1); [|done].
      constructor; cbn; try done. lia. }
    assert (Hclose : packet_ok (view s) (rd_left r ++ rows_left_out active (rd_got r ++ l1) (p_lastid p1)) (close_array p1)).
    { by destruct Hp1; constructor. }
    destruct (_ <? ZBX_MAX_HRECORDS); [|destruct (get_db_again p1)]; apply Ret_inj in H1 as [= <- <-]; apply Ret_inj in H as <-; (apply sender_safe; [done|]); cbn.
    1, 3: by eapply later_packet; [apply later_with_sender|].
    split; [|done]. pose proof (po_done _ _ _ Hp1) as Pd. constructor; cbn; try done.
    + by eapply later_packet; [apply later_with_sender|].
    + by rewrite app_nil_r.
    + constructor.
    + by intros x ?%elem_of_nil.
    + pose proof (sf_pos _ _ F). cbn in *. lia.
    + intros m Hm. apply (sf_ids _ _ F), (sf_in _ _ F). auto.
Qed.

Lemma wait_begin_safe (s : sys) : counted s -> safe [] (view s) -> safe [] (view (pb_wait_begin s)).
Proof.
  intros Hc F. unfold pb_wait_begin. destruct (s_sender s) as [| |r| | | | |] eqn:Esn; try done.
  pose proof (sender_is s _ F Esn) as Hr. cbn in Hr.
  assert (Hnew : forall h, h ∈ history_handleids (s_pb s) -> h <= newest_handle (history_handleids (s_pb s))).
  { unfold newest_handle. induction (history_handleids (s_pb s)) as [|y l IH]; intros h Hh; [by apply elem_of_nil in Hh|]. cbn.
    apply elem_of_cons in Hh as [-> | Hh]; [lia|]. specialize (IH h Hh). lia. }
  assert (Hread : forall sn, reading_ok (view (with_sender sn s)) r).
  { intros sn. eapply later_reading; [by apply later_ledger|..|exact Hr]; [apply Hr|by left]. }
  destruct (Z.eqb_spec (newest_handle (history_handleids (s_pb s))) 0) as [E0 | E0]; (apply sender_safe; [done|]); split; try done; cbn.
  - intros _ x (h & l & E & _). destruct (history_handle s h _ F E) as [Hp Hin]. specialize (Hnew h Hin). lia.
  - intros h l x E _. right. destruct (history_handle s h _ F E) as [_ Hin]. auto.
Qed.

Lemma wait_end_safe (s : sys) : safe [] (view s) -> safe [] (view (pb_wait_end s)).
Proof.
  intros F. unfold pb_wait_end. destruct (s_sender s) as [| | |r upto| | | |] eqn:Esn; try done.
  destruct (wait_over upto (history_handleids (s_pb s))) eqn:Ew; [|done].
  destruct (sender_is s _ F Esn) as [Hr Hg]. cbn in Hg. apply sender_safe; [done|]. split.
  - eapply later_reading; [by apply later_ledger|..|exact Hr]; [apply Hr|by left].
  - cbn. intros _ x (h & l & E & Hx). destruct (Hg h l x E Hx) as [? | Hle]; [done|].
    destruct (history_handle s h _ F E) as [_ Hin]. unfold wait_over in Ew. rewrite forallb_forall in Ew.
    specialize (Ew h ltac:(by apply list_elem_of_In)). apply Z.ltb_lt in Ew. lia.
Qed.

Lemma upload_safe (items : zbx_pb_history -> option history_recv_item) (proxyid : Z) (received acked : bool) (s : sys) :
  safe [] (view s) -> safe [] (view (upload items proxyid received acked s)).
Proof.
  intros F. unfold upload. destruct (s_sender s) as [| | | |p omitted more| | |] eqn:Esn; try done.
  destruct received; cbn [andb]; [|by apply sender_safe].
  assert (F1 : safe [] (view (with_sender (Acked (p_lastid p) more) (with_ledger
    (Ledger (assigned (s_ledger s)) (lost (s_ledger s) ++ omitted))
    (with_server (process_history_data items proxyid (s_server s) (p_sent p)) s))))).
  { unfold view in *. rewrite Esn in F. cbn -[process_history_data]. eapply safe_upload. exact F. }
  set (s1 := with_sender (Acked (p_lastid p) more) _) in F1.
  apply (sender_safe s1); [done|]. destruct acked; cbn; [|done]. case_match; [done|]. apply (sf_sender _ _ F1).
Qed.

Lemma clear_safe (lastid : Z) (s : sys) (sn : sender) :
  safe [] (view s) -> done_to (view s) [] lastid -> sender_ok (view (with_sender sn (with_pb (pb_history_clear lastid (s_pb s)) s))) ->
  safe [] (view (with_sender sn (with_pb (pb_history_clear lastid (s_pb s)) s))).
Proof.
  intros F [_ Hd] Hsn. destruct (clear_rows_front lastid (rows (history (s_pb s)))) as (d & E & Hle).
  eapply safe_sender; [|exact Hsn]. cbn. eapply (safe_store [] _ d); [exact F|by left|by rewrite app_nil_r|done|done|].
  intros r Hr. destruct (Hd r) as [? | ?%elem_of_nil]; [|by apply Hle|done|done].
  apply (sf_in _ _ F). left. cbn. rewrite E. set_solver.
Qed.

Lemma set_lastid_safe (s : sys) : safe [] (view s) -> safe [] (view (zbx_pb_set_history_lastid s)).
Proof.
  intros F. unfold zbx_pb_set_history_lastid. destruct (s_sender s) as [| | | | |lastid more| |] eqn:Esn; try done.
  pose proof (sender_is s _ F Esn) as Hd. cbn in Hd.
  assert (F1 : safe [] (view (with_pb (set_sent KHistory lastid (s_pb s)) s))).
  { unfold view. cbn. eapply safe_ids; [exact F|exact Hd|apply F]. }
  assert (F2 : safe [] (view (with_sender (StoreId lastid more) (with_pb (set_sent KHistory lastid (s_pb s)) s)))).
  { by apply sender_safe. }
  cbn [state set_sent set_chan get_chan]. destruct (get_pb_src (state (s_pb s))); try exact F2.
  by apply (clear_safe lastid (with_pb (set_sent KHistory lastid (s_pb s)) s)).
Qed.

Lemma store_id_safe (ok : bool) (s : sys) : safe [] (view s) -> safe [] (view (pb_history_set_lastid ok s)).
Proof.
  intros F. unfold pb_history_set_lastid. destruct (s_sender s) as [| | | | | |lastid more|] eqn:Esn; try done.
  pose proof (sender_is s _ F Esn) as Hd. cbn in Hd. destruct ok; [|by apply sender_safe].
  apply sender_safe; [|done]. unfold view. cbn. rewrite decide_True by done. eapply safe_ids; [exact F|apply F|exact Hd].
Qed.

Lemma no_mem_rows (pb : zbx_pb) : pb_has_mem_rows KHistory pb = false -> rows (history pb) = [].
Proof. unfold pb_has_mem_rows, mem_rows. cbn. by destruct (rows (history pb)). Qed.

(** What the change of state after an upload has to do with history. *)
Lemma update_state_safe (more ok : bool) (s : sys) (m : bool) :
  counted s -> safe [] (view s) -> s_sender s = Update m ->
  let '(pb, db) := pb_update_state more ok (s_pb s) (s_db s) in safe [] (view (with_db db (with_pb pb s))).
Proof.
  intros Hc F Esn. assert (Fid : safe [] (view (with_db (s_db s) (with_pb (s_pb s) s)))) by done.
  unfold pb_update_state. destruct (negb _); [done|]. destruct (state (s_pb s)) eqn:Est; [| |done|].
  - destruct more; [done|]. unfold view in *. cbn. rewrite Est in F. by apply safe_to_both.
  - destruct (_ && _) eqn:Eup; [|done]. apply andb_true_iff in Eup as [[[Eh%Z.eqb_eq Ek]%andb_true_iff _]%andb_true_iff _].
    apply Z.leb_le in Ek. cbn in Ek. unfold view in *. cbn. rewrite Est, Esn in *. apply safe_to_memory; [done|done|].
    pose proof (ct_num _ Hc) as Hn. unfold db_handles in Hn.
    assert (Hz : size (filter (fun kv => to_db kv.2 = true) (hs_history (s_hs s))) = 0%nat) by lia.
    apply map_size_empty_inv in Hz. intros h x E. destruct (to_db x) eqn:Ex; [|destruct x; [eauto|done..]].
    assert (Hin : filter (fun kv => to_db kv.2 = true) (hs_history (s_hs s)) !! h = Some x) by by apply map_lookup_filter_Some.
    by rewrite Hz, lookup_empty in Hin.
  - destruct (negb (pb_has_mem_rows KHistory (s_pb s)) && _ && _) eqn:Em; [|done].
    apply andb_true_iff in Em as [[Em%negb_true_iff _]%andb_true_iff _].
    apply no_mem_rows in Em. unfold view in *. cbn. rewrite Est, Em in *. destruct (flush_lastids_history (s_pb s) (s_db s)) as [ET ED].
    destruct ok; [rewrite ET|]; (eapply safe_to_database; [exact F|]); [done|by left].
Qed.

Lemma update_safe (called others ok : bool) (s : sys) :
  counted s -> safe [] (view s) -> safe [] (view (zbx_pb_update_state called others ok s)).
Proof.
  intros Hc F. unfold zbx_pb_update_state. destruct (s_sender s) as [| | | | | | |m] eqn:Esn; try done. destruct called.
  - pose proof (update_state_safe (m || others) ok s m Hc F Esn) as H. destruct (pb_update_state _ _ _ _) as [pb db].
    by apply (sender_safe (with_db db (with_pb pb s))).
  - by apply sender_safe.
Qed.

Lemma other_lastid_safe (k : kind) (lastid : Z) (ok : bool) (s : sys) :
  k <> KHistory -> safe [] (view s) -> safe [] (view (set_other_lastid k lastid ok s)).
Proof.
  intros Hk F. unfold set_other_lastid. case_match.
  1, 2, 4: destruct ok; destruct k; try done; (apply (handles_same s); try done; cbn; by rewrite decide_False).
  destruct k; [done|..]; by apply (handles_same s).
Qed.

(* ------------------------------------------------------------------ *)
(** ** Every step *)

(** What is asked of a run: handle ids and row ids do not run out, and no
    handle to the database takes ids for its rows while rows with ids wait in
    memory behind the table. *)
Definition orderly (e : event) (s s' : sys) : bool :=
  (handleid (s_pb s) + 1 <? 2 ^ 64) && (s_ids s KHistory <=? UINT64_MAX) && (s_ids s' KHistory <=? UINT64_MAX) &&
  match e with
  | EAlloc KHistory _ => negb (bool_decide (state (s_pb s) = PB_DATABASE_MEMORY) && pb_has_mem_rows KHistory (s_pb s))
  | _ => true
  end.

Lemma exec_safe (e : event) (s s' : sys) :
  orderly e s s' = true -> counted s -> safe [] (view s) -> exec e s = Ret s' -> safe [] (view s').
Proof.
  unfold orderly. intros [[[Hw%Z.ltb_lt Hmax%Z.leb_le]%andb_true_iff Hmax'%Z.leb_le]%andb_true_iff Ho]%andb_true_iff Hc F.
  destruct e as [k | k h row | k h now now' plan commits | h row now now' plan commits | k h | k h commit | k h |
    active j | active | | | items proxyid received acked | | ok | called others ok | k lastid ok]; cbn [exec].
  - destruct k; intros [= <-]; [by apply open_safe..|done].
  - intros [= <-]. by apply write_safe.
  - intros E. by eapply close_mem_safe.
  - intros E. by eapply write_host_safe.
  - intros [= <-]. apply alloc_safe; [|done]. intros -> Est. rewrite bool_decide_eq_true_2 in Ho by done.
    by apply negb_true_iff, no_mem_rows in Ho.
  - intros [= <-]. by apply commit_safe.
  - intros [= <-]. by apply finish_safe.
  - intros E. by eapply get_rows_safe.
  - intros E. by eapply select_safe.
  - intros [= <-]. by apply wait_begin_safe.
  - intros [= <-]. by apply wait_end_safe.
  - intros [= <-]. by apply upload_safe.
  - intros [= <-]. by apply set_lastid_safe.
  - intros [= <-]. by apply store_id_safe.
  - intros [= <-]. by apply update_safe.
  - destruct k; intros [= <-]; [done|by apply other_lastid_safe..].
Qed.
