(* ===== verification/PbRun.v ===== *)
(** Runs of the proxy buffer from a start: the record of the open handles is
    right, and no value of history is lost, sent twice or out of order. *)

From Stdlib Require Import ZArith Lia.
From S2P Require Import Prelude JsonWriter JsonSession PbBuffer PbExport PbSystem PbInv PbHandles PbSafe PbDelivery.
From stdpp Require Import base list numbers sorting gmap.

Open Scope Z_scope.

(* ------------------------------------------------------------------ *)
(** ** Starts *)

(** The tables a start finds: ids are positive and not shared; a buffer that
    lives in memory only starts on an empty table. *)
Definition stored_ok (m : zbx_pb_mode) (db : database) : Prop :=
  Forall (fun r => 0 < h_id r) (proxy_history db) /\ NoDup (h_id <$> proxy_history db) /\ 0 <= ids db KHistory /\
  (m = ZBX_PB_MODE_MEMORY -> proxy_history db = [] /\ ids db KHistory = 0).

Lemma max_id_spec (l : list zbx_pb_history) :
  0 <= foldr Z.max 0 (row_id <$> l) /\ (forall r, r ∈ l -> h_id r <= foldr Z.max 0 (row_id <$> l)).
Proof.
  induction l as [|x l [Hp IH]]; [split; [done|by intros r ?%elem_of_nil]|]. rewrite fmap_cons. cbn [foldr].
  change (row_id x) with (h_id x). split; [lia|]. intros r [-> | Hr]%elem_of_cons; [lia|]. specialize (IH r Hr). lia.
Qed.

Lemma unsent_ok (db db' : database) (ret : bool) (lastid maxid : Z) :
  let N := foldr Z.max 0 (row_id <$> proxy_history db) in
  pb_check_unsent_rows KHistory db = (ret, lastid, maxid, db') -> 0 <= ids db KHistory ->
  maxid = N /\ 0 <= lastid <= N /\ ids db' KHistory = lastid /\
  proxy_history db' = proxy_history db /\ (ret = false -> N <= lastid).
Proof.
  intros N. destruct (max_id_spec (proxy_history db)) as [HN _]. fold N in HN. unfold pb_check_unsent_rows.
  change (foldr Z.max 0 (row_id <$> get_table KHistory db)) with N. cbn zeta. intros E Hid. destruct (Z.ltb_spec (ids db KHistory) N) as [H1 | H1].
  { injection E as <- <- <- <-. split_and!; done || lia. }
  destruct (Z.ltb_spec N (ids db KHistory)) as [H2 | H2]; injection E as <- <- <- <-; cbn; rewrite ?decide_True by done;
    split_and!; done || lia.
Qed.

Lemma unsent_other (k : kind) (db db' : database) (ret : bool) (lastid maxid : Z) :
  pb_check_unsent_rows k db = (ret, lastid, maxid, db') -> k <> KHistory ->
  proxy_history db' = proxy_history db /\ ids db' KHistory = ids db KHistory.
Proof.
  unfold pb_check_unsent_rows. intros E Hk. repeat case_match; injection E as <- <- <- <-; try done. cbn.
  by rewrite decide_False.
Qed.

(** What a start leaves of history. *)
Lemma start_view (m : zbx_pb_mode) (age offline : Z) (db : database) :
  stored_ok m db ->
  exists st maxid lastid,
    let N := foldr Z.max 0 (row_id <$> proxy_history db) in
    view (start m age offline db) =
      Hist [] st lastid maxid lastid N (proxy_history db) ∅ [] Idle (Server 0 [] [])
        (Ledger (proxy_history db) (pair SentBefore <$> filter (fun r => h_id r <= lastid) (proxy_history db))) /\
    0 <= lastid <= N /\ (proxy_history db = [] \/ maxid = N) /\
    (st = PB_DATABASE \/ st = PB_MEMORY /\ (proxy_history db = [] \/ N <= lastid)).
Proof.
  intros (Hpos & _ & Hid & Hm). unfold start, pb_init_state, zbx_pb_create. cbn [mode].
  destruct (max_id_spec (proxy_history db)) as [HN _]. set (N := foldr Z.max 0 (row_id <$> proxy_history db)) in *.
  destruct (bool_decide_reflect (m = ZBX_PB_MODE_MEMORY)) as [Em | Em].
  { destruct (Hm Em) as [ET ED]. exists PB_MEMORY, 0, 0. cbn zeta. split_and!; auto; [|lia]. unfold view. cbn. by rewrite ED. }
  destruct (pb_check_unsent_rows KHistory db) as [[[hr lastid] maxid] db1] eqn:E1.
  destruct (unsent_ok _ _ _ _ _ E1 Hid) as (Emax & Hlast & ED1 & ET1 & Hfail). fold N in Emax, Hlast, Hfail.
  destruct (pb_check_unsent_rows KDiscovery db1) as [[[dr ld] md] db2] eqn:E2.
  destruct (unsent_other _ _ _ _ _ _ E2) as [ET2 ED2]; [done|].
  destruct (pb_check_unsent_rows KAutoreg db2) as [[[ar la] ma] db3] eqn:E3.
  destruct (unsent_other _ _ _ _ _ _ E3) as [ET3 ED3]; [done|].
  exists (if bool_decide (m = ZBX_PB_MODE_DISK) then PB_DATABASE else if hr || dr || ar then PB_DATABASE else PB_MEMORY),
    maxid, lastid.
  cbn zeta. split.
  - destruct (bool_decide_reflect (m = ZBX_PB_MODE_DISK)) as [Ed | Ed]; cbn [mode set_sent set_db set_chan get_chan];
      [rewrite bool_decide_eq_true_2 by done|rewrite bool_decide_eq_false_2 by done; destruct (hr || dr || ar)];
      unfold view; cbn; rewrite ED3, ED2, ED1, ET3, ET2, ET1; done.
  - split_and!; [lia|lia|by right|].
    case_bool_decide; [by left|]. destruct hr; [by left|]. specialize (Hfail eq_refl). destruct dr, ar; cbn; auto.
Qed.

(** A start is safe. *)
Lemma start_safe (m : zbx_pb_mode) (age offline : Z) (db : database) :
  stored_ok m db -> safe [] (view (start m age offline db)).
Proof.
  intros Hok. destruct (start_view m age offline db Hok) as (st & maxid & lastid & E & Hl & Hmax & Hst).
  destruct Hok as (Hpos & Hnd & _ & _). rewrite Forall_forall in Hpos.
  destruct (max_id_spec (proxy_history db)) as [HN Hmaxid]. set (N := foldr Z.max 0 (row_id <$> proxy_history db)) in *.
  rewrite E. clear E. set (T := proxy_history db) in *.
  assert (Hskip : forall r, r ∈ T -> h_id r <= lastid ->
    settled (Server 0 [] []) (Ledger T (pair SentBefore <$> filter (fun r => h_id r <= lastid) T)) r).
  { intros r Hr Hle. right; right. cbn. rewrite reason_rows. by apply list_elem_of_filter. }
  assert (Hdone : forall id v, 0 <= id <= N -> id <= lastid -> v_last v = N -> v_server v = Server 0 [] [] ->
    v_ledger v = Ledger T (pair SentBefore <$> filter (fun r => h_id r <= lastid) T) -> done_to v [] id).
  { intros id v Hb Hle EN Esv Eg. unfold done_to. rewrite EN, Esv, Eg. split; [done|]. intros r Hr Hlr. left. apply Hskip; [done|lia]. }
  constructor; cbn; try done; try (by apply Hdone).
  - intros r Hr. split; auto.
  - intros r r' Hr Hr' E. apply list_elem_of_lookup in Hr as [i Hi]. apply list_elem_of_lookup in Hr' as [i' Hi'].
    assert (i = i') as ->; [|congruence]. eapply (NoDup_lookup (h_id <$> T)); [done|rewrite list_lookup_fmap, Hi; done|].
    rewrite list_lookup_fmap, Hi'. cbn. congruence.
  - intros r [Hr | [Hr | [(h & l & [=] & _) | Hr]]]; [by apply elem_of_nil in Hr|done|by apply elem_of_nil in Hr].
  - intros r Hr. auto.
  - split; [cbn; lia|]. intros r Hr Hle. specialize (Hpos r Hr). cbn in Hpos. lia.
  - constructor.
  - by intros x r ?%elem_of_nil.
  - by intros x ?%elem_of_nil.
  - intros Est. split; [|apply map_Forall_empty]. intros r Hr. apply Hskip; [done|]. destruct Hst as [-> | [_ [E | HNle]]]; [done|..].
    + rewrite E in Hr. by apply elem_of_nil in Hr.
    + specialize (Hmaxid r Hr). lia.
  - by intros _ r ?%elem_of_nil.
  - by intros _ m0 r ?%elem_of_nil.
  - intros r Hr. left. destruct Hmax as [E | ->]; [rewrite E in Hr; by apply elem_of_nil in Hr|auto].
  - constructor.
  - by intros r ?%elem_of_nil.
  - by eapply NoDup_fmap_1.
  - intros r _. split; [apply not_elem_of_nil|]. by intros (h & l & [=] & _).
  - intros r _. apply not_elem_of_nil.
Qed.

Lemma start_counted (m : zbx_pb_mode) (age offline : Z) (db : database) : counted (start m age offline db).
Proof.
  assert (H : forall pb db', history_handleids pb = [] -> db_handles_num pb = 0 -> handleid pb = 0 ->
    forall i sv g, counted (Sys pb db' i (Handles ∅ ∅ ∅) Idle sv g)).
  { intros pb db' E1 E2 E3 i sv g. constructor; cbn; rewrite ?E1, ?E2, ?E3, ?db_handles_empty; try done; try lia. }
  unfold start, pb_init_state. destruct (bool_decide _); [by apply H|].
  destruct (pb_check_unsent_rows KHistory db) as [[[hr lastid] maxid] db1].
  destruct (pb_check_unsent_rows KDiscovery db1) as [[[dr ld] md] db2].
  destruct (pb_check_unsent_rows KAutoreg db2) as [[[ar la] ma] db3].
  destruct (bool_decide _); [by apply H|]. destruct (hr || dr || ar); by apply H.
Qed.

(* ------------------------------------------------------------------ *)
(** ** Runs *)

(** A condition on all of the steps of a run. *)
Fixpoint always (P : event -> sys -> sys -> bool) (es : list event) (s : sys) : bool :=
  match es with
  | [] => true
  | e :: es => match exec e s with Ret s' => P e s s' && always P es s' | _ => true end
  end.

Lemma always_ind (P : event -> sys -> sys -> bool) (Q : sys -> Prop) (es : list event) (s s' : sys) :
  (forall e s s', P e s s' = true -> Q s -> exec e s = Ret s' -> Q s') ->
  always P es s = true -> Q s -> run_events es s = Ret s' -> Q s'.
Proof.
  intros Hstep. revert s. induction es as [|e es IH]; intros s; cbn [always run_events]; [by intros _ Hq [= <-]|].
  intros Ha Hq (s1 & E & H)%res_bind_Ret. rewrite E in Ha. apply andb_true_iff in Ha as [Hp Ha].
  eapply (IH s1); [done|by eapply Hstep|done].
Qed.

(** Handle ids do not run out. *)
Definition handles_fit (e : event) (s s' : sys) : bool := handleid (s_pb s) + 1 <? 2 ^ 64.

(** C10: The proxy buffer knows its open handles: whatever writers and sender do, db_handles_num is the number of open
    handles of all kinds that write to the database (those whose rows are in a transaction included), and the list
    history_handleids, which the sender waits on when it finds a gap in the ids, holds exactly the open handles of
    history. *)
Theorem handles_recorded (m : zbx_pb_mode) (age offline : Z) (db : database) (es : list event) (s : sys) :
  always handles_fit es (start m age offline db) = true -> run_events es (start m age offline db) = Ret s ->
  db_handles_num (s_pb s) =
    db_handles (hs_history (s_hs s)) + db_handles (hs_discovery (s_hs s)) + db_handles (hs_autoreg (s_hs s)) /\
  history_handleids (s_pb s) ≡ₚ (map_to_list (hs_history (s_hs s))).*1 /\ NoDup (history_handleids (s_pb s)).
Proof.
  intros Ha Hr. assert (Hc : counted s).
  { eapply (always_ind handles_fit counted); [|done|apply start_counted|done].
    intros e s1 s2 Hf%Z.ltb_lt Hc E. by eapply counted_exec. }
  split_and!; [apply Hc..|]. rewrite (ct_ids _ Hc). apply NoDup_fst_map_to_list.
Qed.

(** The reasons there can be in a mode: rows are dropped for want of room, or
    all of them for their age, in memory mode only. *)
Definition permitted (m : zbx_pb_mode) (why : reason) : Prop :=
  match why with NoRoom | TooOld => m = ZBX_PB_MODE_MEMORY | _ => True end.

(** What the sender is to leave out. *)
Definition sender_left (sn : sender) : list (reason * zbx_pb_history) :=
  match sn with
  | Select r | Gap r | Waiting r _ => rd_left r
  | Ready _ omitted _ => omitted
  | _ => []
  end.

Record reasons_ok (m : zbx_pb_mode) (s : sys) : Prop := {
  rs_mode : mode (s_pb s) = m;
  rs_lost : Forall (fun e => permitted m e.1) (lost (s_ledger s));
  rs_left : Forall (fun e => permitted m e.1) (sender_left (s_sender s))
}.

Lemma reasons_same (m : zbx_pb_mode) (s s' : sys) :
  mode (s_pb s') = mode (s_pb s) -> lost (s_ledger s') = lost (s_ledger s) -> s_sender s' = s_sender s ->
  reasons_ok m s -> reasons_ok m s'.
Proof. intros E1 E2 E3 []. constructor; by rewrite ?E1, ?E2, ?E3. Qed.

Lemma reasons_note (m : zbx_pb_mode) (why : reason) (l : list zbx_pb_history) (s : sys) :
  (l <> [] -> permitted m why) -> reasons_ok m s -> reasons_ok m (note_lost why l s).
Proof.
  intros Hw []. constructor; [done| |done]. cbn. apply Forall_app. split; [done|]. apply Forall_fmap, Forall_forall.
  intros r Hr. cbn. apply Hw. intros ->. by apply elem_of_nil in Hr.
Qed.

Lemma reasons_left (m : zbx_pb_mode) (active : Z -> bool) (l : list zbx_pb_history) (upto : Z) :
  Forall (fun e => permitted m e.1) (rows_left_out active l upto).
Proof. unfold rows_left_out. apply Forall_app. split; apply Forall_fmap, Forall_true; done. Qed.

Lemma reasons_sender (m : zbx_pb_mode) (sn : sender) (s : sys) :
  Forall (fun e => permitted m e.1) (sender_left sn) -> reasons_ok m s -> reasons_ok m (with_sender sn s).
Proof. intros H []. by constructor. Qed.

Lemma change_reasons (m : zbx_pb_mode) (k : kind) (l l' : list (row_of k)) (s s' : sys) :
  change k l s l' s' -> reasons_ok m s -> reasons_ok m s'.
Proof.
  destruct 1 as [l s pb' d now Hg _ _ | taken rest s pb' d cause _ Hg _ _ Hm | l s too_old commits s' E Hold | l s _]; intros Hr.
  - apply reasons_note; [done|]. apply (reasons_same m s); [by destruct Hg|done..].
  - apply reasons_note; [|apply (reasons_same m s); [by destruct Hg|done..]]. intros Hne. cbn. rewrite <- (rs_mode m s Hr).
    destruct (gone cause _ _) as [|x gl] eqn:E; [done|]. apply (Hm x).
    assert (Hx : x ∈ gone cause (rows (history (s_pb s)) ++ history_of k taken) (rows (history pb'))) by (rewrite E; left).
    by apply list_elem_of_filter in Hx as [[? _] _].
  - destruct (fall_back_ok too_old commits s) as [(s1 & pb' & db' & E' & [Hf ->]) | (E' & _)]; [|congruence].
    rewrite E' in E. injection E as <-. cbn zeta.
    assert (H1 : reasons_ok m (with_db db' (with_pb pb' s))) by (apply (reasons_same m s); [by destruct Hf|done..]).
    destruct (bool_decide_reflect (mode (s_pb s) = ZBX_PB_MODE_MEMORY)) as [Em | _].
    + apply reasons_note; [|done]. intros _. cbn. by rewrite <- (rs_mode m s Hr).
    + case_bool_decide; [done|]. by apply reasons_note.
  - by apply (reasons_same m s).
Qed.

Lemma closed_reasons (m : zbx_pb_mode) (k : kind) (l : list (row_of k)) (now now' : Z) (plan : list bool)
    (commits : list commit_result) (s s' : sys) (o : option (list (row_of k))) :
  close_to_mem k l now now' plan commits s = Ret (o, s') -> reasons_ok m s -> reasons_ok m s'.
Proof.
  intros E Hr. destruct (close_to_mem_ok k l now now' plan commits s) as [(o' & s1 & E' & Hch & _) | (E' & _)]; [|congruence].
  rewrite E' in E. injection E as _ <-.
  apply (changes_keep k (fun _ s => reasons_ok m s) _ _ _ _) in Hch; [done| |done].
  intros l1 s2 l2 s3 Hc. by apply (change_reasons m k l1 l2).
Qed.

Lemma release_mode (k : kind) (h : Z) (s : sys) :
  mode (s_pb (pb_release k h s)) = mode (s_pb s) /\ s_ledger (pb_release k h s) = s_ledger s /\
  s_sender (pb_release k h s) = s_sender s.
Proof. by destruct k. Qed.

Lemma release_reasons (m : zbx_pb_mode) (k : kind) (h : Z) (s : sys) : reasons_ok m s -> reasons_ok m (pb_release k h s).
Proof. destruct (release_mode k h s) as (E1 & E2 & E3). apply reasons_same; congruence. Qed.

Lemma writer_reasons (m : zbx_pb_mode) (e : event) (s s' : sys) :
  match e with ECloseMem _ _ _ _ _ _ | EWriteHost _ _ _ _ _ _ => True | _ => False end ->
  exec e s = Ret s' -> reasons_ok m s -> reasons_ok m s'.
Proof.
  destruct e as [| |k h now now' plan commits|h row now now' plan commits| | | | | | | | | | | |]; try done; intros _ E Hr; cbn [exec] in E.
  - revert E. unfold pb_close_mem. destruct (get_hs k (s_hs s) !! h) as [[[|r l] | l | l | l]|]; try by intros [= <-].
    + intros [= <-]. by apply release_reasons.
    + unfold zbx_dc_get_nextid. intros ([o s1] & E & H)%res_bind_Ret. apply (closed_reasons m) in E; [|by apply (reasons_same m s)].
      destruct o; apply Ret_inj in H as <-; [by apply (reasons_same m s1)|by apply release_reasons].
  - revert E. unfold zbx_pb_autoreg_write_host. case_match; [by intros [= <-]|].
    intros ([o s1] & E & H1)%res_bind_Ret. apply (closed_reasons m) in E; [|done].
    destruct o; apply Ret_inj in H1 as <-; [by apply (reasons_same m s1)|]. case_match; [by apply (reasons_same m s1)|done].
Qed.

Lemma reader_reasons (m : zbx_pb_mode) (e : event) (s s' : sys) :
  match e with EGetRows _ _ | ESelect _ => True | _ => False end ->
  exec e s = Ret s' -> reasons_ok m s -> reasons_ok m s'.
Proof.
  destruct e as [| | | | | | |active j|active| | | | | | |]; try done; intros _ E Hr; cbn [exec] in E; revert E.
  - unfold zbx_pb_history_get_rows. destruct (s_sender s); try by intros [= <-].
    assert (H : forall p, reasons_ok m (with_sender (if get_db_again p
      then Select (Reading p [] [] (pb_get_lastid KHistory (s_db s)) 0) else Ready p [] true) s)).
    { intros p. apply reasons_sender; [|done]. destruct (get_db_again p); constructor. }
    destruct (get_pb_src _); try (intros [= <-]; apply H).
    all: intros ([p more] & _ & H1)%res_bind_Ret; apply Ret_inj in H1 as <-; apply reasons_sender; [|done]; apply reasons_left.
  - unfold pb_history_get_rows_db. pose proof (rs_left m s Hr) as Hleft. destruct (s_sender s) as [|r| | | | | |]; try by intros [= <-].
    cbn in Hleft. destruct (scan_rows _ _ _ _) as [[got last] [g|]]; [intros [= <-]; by apply reasons_sender|].
    intros ([p [more | id]] & _ & H)%res_bind_Ret; apply Ret_inj in H as <-; (apply reasons_sender; [|done]); cbn;
      apply Forall_app; (split; [done|apply reasons_left]).
Qed.

Lemma exec_reasons (m : zbx_pb_mode) (e : event) (s s' : sys) : exec e s = Ret s' -> reasons_ok m s -> reasons_ok m s'.
Proof.
  intros E Hr. destruct e as [k | k h row | | | k h | k h commit | k h |
    | | | | items proxyid received acked | | ok | called others ok | k lastid ok].
  3, 4: (eapply writer_reasons; [|exact E|exact Hr]; exact I). 6, 7: (eapply reader_reasons; [|exact E|exact Hr]; exact I).
  all: cbn [exec] in E.
  - destruct k; apply Ret_inj in E as <-; [..|done]; unfold pb_open; cbn; case_match; by apply (reasons_same m s).
  - apply Ret_inj in E as <-. unfold pb_write. destruct (get_hs k (s_hs s) !! h) as [[l | l | l | l]|]; try done; by apply (reasons_same m s).
  - apply Ret_inj in E as <-. unfold pb_alloc. destruct (get_hs k (s_hs s) !! h) as [[l | l | l | l]|]; try done. by apply (reasons_same m s).
  - apply Ret_inj in E as <-. unfold pb_commit. destruct (get_hs k (s_hs s) !! h) as [[l | l | l | l]|]; try done.
    destruct commit; [by apply (reasons_same m s)| |done].
    apply (reasons_same m (note_lost NotCommitted (history_of k l) s)); [done..|]. by apply reasons_note.
  - apply Ret_inj in E as <-. unfold pb_finish. repeat case_match; try done. apply release_reasons, (reasons_same m s); [|done..].
    cbn. apply raise_db_ok.
  - apply Ret_inj in E as <-. unfold pb_wait_begin. pose proof (rs_left m s Hr) as Hleft.
    destruct (s_sender s); try done. apply reasons_sender; [|done]. by case_match.
  - apply Ret_inj in E as <-. unfold pb_wait_end. pose proof (rs_left m s Hr) as Hleft.
    destruct (s_sender s); try done. case_match; [by apply reasons_sender|done].
  - apply Ret_inj in E as <-. unfold upload. pose proof (rs_left m s Hr) as Hleft. destruct (s_sender s) as [| | | |p omitted more| | |]; try done.
    apply reasons_sender; [by repeat case_match|]. destruct received; [|done]. destruct Hr.
    constructor; [done|cbn; by apply Forall_app|done].
  - apply Ret_inj in E as <-. unfold zbx_pb_set_history_lastid. destruct (s_sender s); try done.
    case_match; (apply reasons_sender; [constructor|]); by apply (reasons_same m s).
  - apply Ret_inj in E as <-. unfold pb_history_set_lastid. destruct (s_sender s); try done.
    apply reasons_sender; [constructor|]. destruct ok; [by apply (reasons_same m s)|done].
  - apply Ret_inj in E as <-. unfold zbx_pb_update_state. destruct (s_sender s) as [| | | | | | |mr]; try done.
    pose proof (pb_update_state_globals (mr || others) ok (s_pb s) (s_db s)) as (_ & _ & _ & _ & Em). destruct called.
    + destruct (pb_update_state _ _ _ _) as [pb db]. apply reasons_sender; [constructor|]. by apply (reasons_same m s).
    + apply reasons_sender; [constructor|]. by apply (reasons_same m s).
  - destruct k; apply Ret_inj in E as <-; [done|..]; unfold set_other_lastid; case_match; by apply (reasons_same m s).
Qed.

Lemma start_reasons (m : zbx_pb_mode) (age offline : Z) (db : database) : reasons_ok m (start m age offline db).
Proof.
  assert (H : forall pb db' i sv l, mode pb = m ->
    reasons_ok m (Sys pb db' i (Handles ∅ ∅ ∅) Idle sv (Ledger (proxy_history db') (pair SentBefore <$> l)))).
  { intros pb db' i sv l E. constructor; [done| |constructor]. apply Forall_fmap, Forall_true. done. }
  unfold start, pb_init_state. destruct (bool_decide _); [by apply H|].
  destruct (pb_check_unsent_rows KHistory db) as [[[hr lastid] maxid] db1].
  destruct (pb_check_unsent_rows KDiscovery db1) as [[[dr ld] md] db2].
  destruct (pb_check_unsent_rows KAutoreg db2) as [[[ar la] ma] db3].
  destruct (bool_decide _); [by apply H|]. destruct (hr || dr || ar); by apply H.
Qed.

Lemma run_reasons (m : zbx_pb_mode) (age offline : Z) (db : database) (es : list event) (s : sys) (why : reason) (r : zbx_pb_history) :
  run_events es (start m age offline db) = Ret s -> (why, r) ∈ lost (s_ledger s) -> permitted m why.
Proof.
  intros Hr Hin. assert (H : reasons_ok m s).
  { revert Hr. generalize (start_reasons m age offline db). generalize (start m age offline db). clear Hin.
    induction es as [|e es IH]; intros s0 H0; cbn [run_events]; [by intros [= <-]|].
    intros (s1 & E & Hr)%res_bind_Ret. eapply IH; [|exact Hr]. by eapply exec_reasons. }
  pose proof (rs_lost _ _ H) as Hl. rewrite Forall_forall in Hl. exact (Hl (why, r) Hin).
Qed.

Lemma run_safe (m : zbx_pb_mode) (age offline : Z) (db : database) (es : list event) (s : sys) :
  stored_ok m db -> always orderly es (start m age offline db) = true -> run_events es (start m age offline db) = Ret s ->
  counted s /\ safe [] (view s).
Proof.
  intros Hok Ha Hr. eapply (always_ind orderly (fun s => counted s /\ safe [] (view s))); [|done| |done].
  - intros e s1 s2 Ho [Hc F] E. split; [|by eapply exec_safe].
    unfold orderly in Ho. rewrite !andb_true_iff in Ho. destruct Ho as [[[Hw%Z.ltb_lt _] _] _]. by eapply counted_exec.
  - split; [apply start_counted|by apply start_safe].
Qed.

(** C7: No value of history disappears without a reason between a writer and the server.  A run is any sequence of steps
    of writers whose handles may be open at the same time, of the sender and of the server, with fall backs to the
    database, transactions that fail or are made again while the database is down, and uploads that are lost or answered
    in vain, in any mode, from a start.  Assumed are: the table at the start has distinct positive ids, the stored id is
    not negative, and in memory mode both are empty ([stored_ok]); handle ids and row ids do not run out; and no handle
    that was opened to the database takes the ids of its rows while the buffer is on its way to memory
    (PB_DATABASE_MEMORY) and rows with ids wait there ([orderly]).  The last is not ensured by the code, and without it
    a value is lost (race_loses_row).  Then every row that was given an id
    - was handed on by the server, or was refused by it: its time was not readable, there was no such item, the item was
      of another proxy or of a calculated or nested type, it or its host was disabled, the host was in maintenance
      without data, or it was not supported without a text; or
    - is not to be sent for one of the reasons of [reason]: its id was stored as sent before the start; its item was
      disabled, or a newer row of the item without a value followed it, when a packet that covers it was received; it
      was older than the offline buffer; in memory mode, an allocation failed and it was removed for room, or all rows
      were for the maximum age; or it was in a transaction that failed; or
    - is still there: in memory, in an open transaction, or in the table above the id stored as sent. *)
Theorem no_value_lost (m : zbx_pb_mode) (age offline : Z) (db : database) (es : list event) (s : sys) (r : zbx_pb_history) :
  stored_ok m db -> always orderly es (start m age offline db) = true -> run_events es (start m age offline db) = Ret s ->
  r ∈ assigned (s_ledger s) ->
  r ∈ values (s_server s) \/ r ∈ refused (s_server s) \/
  (exists why, (why, r) ∈ lost (s_ledger s) /\ permitted m why) \/
  r ∈ rows (history (s_pb s)) \/ in_trans (hs_history (s_hs s)) r \/
  (r ∈ proxy_history (s_db s) /\ ids (s_db s) KHistory < h_id r).
Proof.
  intros Hok Ha Hr Hin. destruct (run_safe _ _ _ _ _ _ Hok Ha Hr) as [_ F].
  assert (Hset : settled (s_server s) (s_ledger s) r ->
    r ∈ values (s_server s) \/ r ∈ refused (s_server s) \/ exists why, (why, r) ∈ lost (s_ledger s) /\ permitted m why).
  { intros [? | [? | ([why r'] & -> & Hl)%list_elem_of_fmap]]; [auto..|]. right; right. exists why. split; [done|].
    by eapply run_reasons. }
  destruct (sf_all _ _ F r Hin) as [H | [H | [H | [H | H%elem_of_nil]]]]; [tauto|tauto| |tauto|done].
  destruct (Z_lt_le_dec (ids (s_db s) KHistory) (h_id r)) as [Hlt | Hle]; [tauto|].
  destruct (sf_lastid _ _ F) as [_ Hd]. destruct (Hd r Hin Hle) as [H' | H'%elem_of_nil]; [tauto|done].
Qed.

(** C8: The server hands on each value once and in the order of the ids, whatever uploads are repeated, as long as it
    keeps the session.  Assumed are, as for the values that are not lost: a table at the start with distinct positive
    ids, ids that do not run out, and that no handle opened to the database takes ids while rows with ids wait in memory
    in PB_DATABASE_MEMORY ([orderly]; otherwise see race_loses_row).  Then the values that were handed on to
    preprocessing have strictly increasing ids, every one of them is a row that was given its id by the proxy, and a row
    that is not above the last id the server has processed needs no upload any more: it was handed on, was refused, or
    is noted with one of the reasons for which it is not to be sent. *)
Theorem values_once_in_order (m : zbx_pb_mode) (age offline : Z) (db : database) (es : list event) (s : sys) :
  stored_ok m db -> always orderly es (start m age offline db) = true -> run_events es (start m age offline db) = Ret s ->
  StronglySorted Z.lt (h_id <$> values (s_server s)) /\
  (forall r, r ∈ values (s_server s) -> r ∈ assigned (s_ledger s)) /\
  (forall r, r ∈ assigned (s_ledger s) -> h_id r <= last_id (s_server s) -> settled (s_server s) (s_ledger s) r).
Proof.
  intros Hok Ha Hr. destruct (run_safe _ _ _ _ _ _ Hok Ha Hr) as [_ F]. split_and!.
  - eapply StronglySorted_fmap; [|apply (sf_values _ _ F)]. done.
  - intros r Hin. by apply (sf_last _ _ F).
  - intros r Hin Hle. destruct (sf_server _ _ F) as [_ Hd]. by destruct (Hd r Hin Hle) as [? | ?%elem_of_nil].
Qed.

(** The state of the buffer says where values are to be looked for: in PB_DATABASE none are in memory; in PB_MEMORY
    none of the table remains to be sent and no handle writes to the database; in PB_DATABASE_MEMORY all that is in
    memory has larger ids than what is in the table or on the way there; in PB_MEMORY_DATABASE what has been written to
    the database since comes after all that is in memory. So sending from the one place and then from the other sends
    in order. *)
Theorem state_tells_where (m : zbx_pb_mode) (age offline : Z) (db : database) (es : list event) (s : sys) :
  stored_ok m db -> always orderly es (start m age offline db) = true -> run_events es (start m age offline db) = Ret s ->
  let M := rows (history (s_pb s)) in
  let unsettled := fun r => r ∈ proxy_history (s_db s) /\ ~ settled (s_server s) (s_ledger s) r \/
    in_trans (hs_history (s_hs s)) r in
  match state (s_pb s) with
  | PB_DATABASE => M = []
  | PB_DATABASE_MEMORY => forall a b, unsettled a -> b ∈ M -> h_id a < h_id b
  | PB_MEMORY => forall r, ~ unsettled r
  | PB_MEMORY_DATABASE => forall a b, a ∈ M -> unsettled b -> h_id a < h_id b
  end /\ StronglySorted id_lt M.
Proof.
  intros Hok Ha Hr M unsettled. destruct (run_safe _ _ _ _ _ _ Hok Ha Hr) as [_ F].
  split; [|pose proof (sf_sorted _ _ F) as Hs; by rewrite app_nil_r in Hs].
  pose proof (sf_database _ _ F) as F1. pose proof (sf_memory _ _ F) as F2. pose proof (sf_both _ _ F) as F3.
  pose proof (sf_src _ _ F) as F4. cbn in F1, F2, F3, F4. unfold unsettled. destruct (state (s_pb s)).
  - by apply F1.
  - intros a b Hin Hb. apply (F3 eq_refl b a Hb). tauto.
  - destruct (F2 eq_refl) as [Ht Hh]. intros r [[Hin Hn] | (h & l & E & _)]; [auto|]. by destruct (Hh h _ E).
  - intros a b Ha' Hb. destruct (F4 eq_refl a Ha') as [G1 G2]. destruct Hb as [[Hin Hn] | Hin]; [|auto]. destruct (G1 b Hin); tauto.
Qed.

(** C11: What a writer does with the buffer locked comes to an end however allocations fail, unless it waits for the
    database: closing a handle to memory, of history or discovery, and writing an autoregistration host return for
    every plan of allocations, after finitely many rows were stored, discarded or left for the database; the only thing
    that can keep the lock is the flush of a fall back, whose transaction is made again as long as every commit finds
    the database down, and there is none in memory mode. *)
Theorem writers_finish (k : kind) (h : Z) (row : zbx_pb_autoreg) (now now' : Z) (plan : list bool)
    (commits : list commit_result) (s : sys) :
  let waits {A : Type} (r : res A) :=
    r = NoFuel /\ Forall (fun c => c = DB_DOWN) commits /\ mode (s_pb s) <> ZBX_PB_MODE_MEMORY in
  ((exists s', pb_close_mem k h now now' plan commits s = Ret s') \/ waits (pb_close_mem k h now now' plan commits s)) /\
  ((exists s', zbx_pb_autoreg_write_host h row now now' plan commits s = Ret s') \/
    waits (zbx_pb_autoreg_write_host h row now now' plan commits s)).
Proof.
  assert (Hdown : commit_outcome commits = None -> Forall (fun c => c = DB_DOWN) commits).
  { induction commits as [|[] l IH]; [constructor|done..|]. intros E. constructor; auto. }
  cbn zeta. split.
  - unfold pb_close_mem. destruct (get_hs k (s_hs s) !! h) as [[[|r l] | l | l | l]|]; eauto. unfold zbx_dc_get_nextid.
    match goal with |- context [close_to_mem k ?l1 now now' plan commits ?s1] =>
      destruct (close_to_mem_ok k l1 now now' plan commits s1) as [(o & s2 & E & _ & _) | (E & H1 & H2)] end; rewrite E; run.
    + destruct o; eauto.
    + right. auto.
  - unfold zbx_pb_autoreg_write_host. case_match; eauto.
    destruct (close_to_mem_ok KAutoreg [set_row_id (s_ids s KAutoreg + 1) 0 row] now now' plan commits s)
      as [(o & s2 & E & _ & _) | (E & H1 & H2)]; rewrite E; run.
    + destruct o; eauto.
    + right. auto.
Qed.

(* ------------------------------------------------------------------ *)
(** ** Concrete runs *)

Definition a_value (item clock : Z) : zbx_pb_history := PbHistory 0 item 0 clock 0 [49] [] 0 0 0 0 0 0 clock.
Definition everything (itemid : Z) : bool := true.

(** The items from 10 on are known to the server and belong to this proxy. *)
Definition known (r : zbx_pb_history) : option history_recv_item :=
  if 10 <=? h_itemid r then Some (RecvItem 0 0 1 0 0 0 0) else None.

(** An upload of history; the steps that wait for handles do nothing when
    there is no gap. *)
Definition upload_once (j : zbx_json) (received acked : bool) : list event :=
  [EGetRows everything j; ESelect everything; EWaitBegin; EWaitEnd; ESelect everything; EUpload known 1 received acked;
   ESetLastid; EStoreId true; EUpdate true false true].

(** A table with one row that is not sent. *)
Definition one_row : database := Db [set_row_id 1 0 (a_value 10 100)] [] [] (fun _ => 0).

Definition from_start (events : zbx_json -> list event) : res sys :=
  j ← json_start true 128; run_events (events j) (start ZBX_PB_MODE_HYBRID 0 3600 one_row).
Definition all_orderly (events : zbx_json -> list event) : res bool :=
  j ← json_start true 128; Ret (always orderly (events j) (start ZBX_PB_MODE_HYBRID 0 3600 one_row)).

(** A writer to the database and one to memory while the buffer goes over to
    memory; one upload is received but its answer is lost, and comes again. *)
Definition busy_events (j : zbx_json) : list event :=
  [EOpen KHistory; EWrite KHistory 1 (a_value 11 101)] ++ upload_once j true true ++
  [EAlloc KHistory 1; ECommit KHistory 1 DB_OK; EFinish KHistory 1;
   EOpen KHistory; EWrite KHistory 2 (a_value 12 102); ECloseMem KHistory 2 103 103 [] []] ++
  upload_once j true false ++ upload_once j true true ++ upload_once j true true.

(** Two transactions that end in the other order: the sender waits. *)
Definition gap_events (j : zbx_json) : list event :=
  [EOpen KHistory; EWrite KHistory 1 (a_value 11 101); EOpen KHistory; EWrite KHistory 2 (a_value 12 102);
   EAlloc KHistory 1; EAlloc KHistory 2; ECommit KHistory 2 DB_OK; EFinish KHistory 2;
   EGetRows everything j; ESelect everything; EWaitBegin; EWaitEnd;
   ECommit KHistory 1 DB_OK; EWaitEnd; EFinish KHistory 1; EWaitEnd; ESelect everything;
   EUpload known 1 true true; ESetLastid; EStoreId true; EUpdate true false true].

Definition sent_ids (r : res sys) : list Z := match r with Ret s => h_id <$> values (s_server s) | _ => [] end.

Example busy_sends_all : sent_ids (from_start busy_events) = [1; 2; 3] /\ all_orderly busy_events = Ret true.
Proof. vm_compute. done. Qed.

Example gap_sends_all : sent_ids (from_start gap_events) = [1; 2; 3] /\ all_orderly gap_events = Ret true.
Proof. vm_compute. done. Qed.

(** A handle that was opened to the database before the buffer went over to
    memory takes its id after a row in memory has one: the row in memory comes
    second, and the server takes it for one it has. *)
Definition race_events (j : zbx_json) : list event :=
  [EOpen KHistory; EWrite KHistory 1 (a_value 11 101)] ++ upload_once j true true ++
  [EOpen KHistory; EWrite KHistory 2 (a_value 12 102); ECloseMem KHistory 2 103 103 [] [];
   EAlloc KHistory 1; ECommit KHistory 1 DB_OK; EFinish KHistory 1] ++
  upload_once j true true ++ upload_once j true true.

Example race_loses_row :
  match from_start race_events with
  | Ret s =>
    h_id <$> values (s_server s) = [1; 3] /\ h_id <$> assigned (s_ledger s) = [1; 2; 3] /\
    rows (history (s_pb s)) = [] /\ ids (s_db s) KHistory = 3 /\
    refused (s_server s) = [] /\ lost (s_ledger s) = []
  | _ => False
  end.
Proof. vm_compute. done. Qed.

(** Writing one value through a handle to memory. *)
Definition write_once (h item clock now : Z) (plan : list bool) (commits : list commit_result) : list event :=
  [EOpen KHistory; EWrite KHistory h (a_value item clock); ECloseMem KHistory h now now plan commits].

Definition no_rows : database := Db [] [] [] (fun _ => 0).
Definition lost_ids (s : sys) : list (reason * Z) := (fun e => (e.1, h_id e.2)) <$> lost (s_ledger s).

(** The maximum age is exceeded: the flush is made again while the database is
    down, waits for it, or fails and loses what was in memory. *)
Definition fall_back_with (commits : list commit_result) : res sys :=
  run_events (write_once 1 11 100 103 [] [] ++ write_once 2 12 200 203 [] commits) (start ZBX_PB_MODE_HYBRID 10 3600 no_rows).

Example flush_retried :
  match fall_back_with [DB_DOWN; DB_DOWN; DB_OK] with
  | Ret s => h_id <$> proxy_history (s_db s) = [1] /\ rows (history (s_pb s)) = [] /\ lost_ids s = []
  | _ => False
  end /\
  fall_back_with [DB_DOWN; DB_DOWN] = NoFuel /\
  match fall_back_with [DB_DOWN; DB_FAIL] with
  | Ret s => proxy_history (s_db s) = [] /\ rows (history (s_pb s)) = [] /\ lost_ids s = [(NotCommitted, 1)]
  | _ => False
  end.
Proof. vm_compute. done. Qed.

(** In memory mode: a row beyond the offline buffer, and one removed to make
    room for another. *)
Example memory_drops :
  match run_events (write_once 1 11 100 103 [] [] ++ write_once 2 12 200 203 [] [] ++ write_once 3 13 210 213 [false] [])
          (start ZBX_PB_MODE_MEMORY 0 60 no_rows) with
  | Ret s => h_id <$> rows (history (s_pb s)) = [3] /\ lost_ids s = [(Expired, 1); (NoRoom, 2)]
  | _ => False
  end.
Proof. vm_compute. done. Qed.

(** The server does not know the item of one of two values. *)
Example unknown_item_refused :
  match (j ← json_start true 128;
         run_events (write_once 1 9 100 103 [] [] ++ write_once 2 12 101 103 [] [] ++ upload_once j true true)
           (start ZBX_PB_MODE_MEMORY 0 60 no_rows)) with
  | Ret s => h_id <$> values (s_server s) = [2] /\ h_id <$> refused (s_server s) = [1] /\ rows (history (s_pb s)) = []
  | _ => False
  end.
Proof. vm_compute. done. Qed.

Definition got {A : Type} (d : A) (r : res A) : A := match r with Ret x => x | _ => d end.
Definition some_json : zbx_json := got (Build_zbx_json None true 0 0 0 ZBX_JSON_EMPTY 0) (json_start true 128).
Definition some_start : sys := start ZBX_PB_MODE_HYBRID 0 3600 one_row.
Definition busy_end : sys := got some_start (run_events (busy_events some_json) some_start).

Lemma got_ret {A : Type} (d : A) (r : res A) : match r with Ret _ => true | _ => false end = true -> r = Ret (got d r).
Proof. by destruct r. Qed.

Lemma one_row_ok : stored_ok ZBX_PB_MODE_HYBRID one_row.
Proof. split_and!; [by repeat constructor|apply (bool_decide_unpack _); vm_compute; exact I|done|done]. Qed.

Lemma handles_recorded_witness :
  history_handleids (s_pb busy_end) ≡ₚ (map_to_list (hs_history (s_hs busy_end))).*1.
Proof.
  apply (handles_recorded ZBX_PB_MODE_HYBRID 0 3600 one_row (busy_events some_json) busy_end).
  - vm_compute. reflexivity.
  - apply got_ret. vm_compute. reflexivity.
Defined.

Lemma no_value_lost_witness :
  let r := set_row_id 3 2 (a_value 12 102) in
  r ∈ values (s_server busy_end) \/ r ∈ refused (s_server busy_end) \/
  (exists why, (why, r) ∈ lost (s_ledger busy_end) /\ permitted ZBX_PB_MODE_HYBRID why) \/
  r ∈ rows (history (s_pb busy_end)) \/ in_trans (hs_history (s_hs busy_end)) r \/
  (r ∈ proxy_history (s_db busy_end) /\ ids (s_db busy_end) KHistory < h_id r).
Proof.
  apply (no_value_lost ZBX_PB_MODE_HYBRID 0 3600 one_row (busy_events some_json) busy_end).
  - apply one_row_ok.
  - vm_compute. reflexivity.
  - apply got_ret. vm_compute. reflexivity.
  - replace (assigned (s_ledger busy_end))
      with [set_row_id 1 0 (a_value 10 100); set_row_id 2 1 (a_value 11 101); set_row_id 3 2 (a_value 12 102)]
      by (vm_compute; reflexivity).
    right. right. left.
Defined.

Lemma values_once_in_order_witness : StronglySorted Z.lt (h_id <$> values (s_server busy_end)).
Proof.
  apply (values_once_in_order ZBX_PB_MODE_HYBRID 0 3600 one_row (busy_events some_json) busy_end).
  - apply one_row_ok.
  - vm_compute. reflexivity.
  - apply got_ret. vm_compute. reflexivity.
Defined.

Lemma state_tells_where_witness : StronglySorted id_lt (rows (history (s_pb busy_end))).
Proof.
  apply (state_tells_where ZBX_PB_MODE_HYBRID 0 3600 one_row (busy_events some_json) busy_end).
  - apply one_row_ok.
  - vm_compute. reflexivity.
  - apply got_ret. vm_compute. reflexivity.
Defined.
