(* ===== verification/PbPacket.v ===== *)
(** The packet of an upload: taking history from memory always comes to an
    end, what it writes is an array with one object per row that is sent, and
    the packet stays within the size the server accepts. *)

From Stdlib Require Import ZArith Lia.
From S2P Require Import Prelude JsonString JsonWriter JsonParse JsonGrammar JsonBuffer JsonSession PbBuffer PbExport PbSystem PbInv PbSafe PbDelivery.
From stdpp Require Import base list numbers strings sets sorting.
Import CharConst.

Open Scope Z_scope.

(* ------------------------------------------------------------------ *)
(** ** Decimal numbers are JSON numbers *)

Lemma decimal_loop_head (fuel : nat) (n : Z) :
  0 < n < 10 ^ Z.of_nat fuel -> exists c l, decimal_loop fuel n = c :: l /\ c <> (ch "0").
Proof.
  revert n. induction fuel as [|fuel IH]; intros n Hn; [simpl in Hn; lia|]. cbn [decimal_loop].
  destruct (Z.ltb_spec n 10); [exists ((ch "0") + n), []; split; [done|lia]|].
  rewrite Nat2Z.inj_succ, Z.pow_succ_r in Hn by lia. destruct (IH (n / 10)) as (c & l & -> & Hc); [zlia|]. by exists c, (l ++ [(ch "0") + n mod 10]).
Qed.

Lemma decimal_number (n : Z) : 0 <= n < 2 ^ 64 -> jnumber (decimal n).
Proof.
  intros Hn. rewrite <- (app_nil_r (decimal n)). change (jnumber ([] ++ decimal n ++ [] ++ [])).
  destruct (Z.eq_dec n 0) as [-> | Hne].
  { apply jnumber_intro; [by left|by repeat constructor|done|done|by left|by left]. }
  destruct (decimal_loop_head 20 n) as (c & l & E & Hc); [simpl; lia|].
  apply jnumber_intro; [by left|apply decimal_digits; lia| | |by left|by left]; unfold decimal; rewrite E; [done|]. simpl. by intros ->.
Qed.

Lemma decimal_signed_number (n : Z) : - 2 ^ 63 <= n < 2 ^ 63 -> jnumber (decimal_signed n).
Proof.
  intros Hn. unfold decimal_signed. destruct (Z.ltb_spec n 0); [|apply decimal_number; lia].
  pose proof (decimal_number (- n) ltac:(lia)) as H1. inversion H1 as [sign int frac ex Hs Hd Hi Hz Hf Hx E].
  destruct Hs as [-> | ->].
  - change (jnumber ([(ch "-")] ++ int ++ frac ++ ex)). apply jnumber_intro; auto.
  - exfalso. pose proof (decimal_digits (- n) ltac:(lia)) as Hdig. rewrite <- E in Hdig. by inversion Hdig.
Qed.

Section Packet.
  Context {double : Type} (num : list Z -> double).

(* ------------------------------------------------------------------ *)
(** ** A row as a JSON object *)

(** What a call of the writer adds to an object. *)
Definition op_item (op : wop) : option (item (double := double)) :=
  match op with
  | WString (Some n) (Some s) _ _ =>
    Some {| it_name := Some n; it_text := QUOTE :: json_escape_text s ++ [QUOTE]; it_value := JString s |}
  | WUint64 (Some n) v => Some {| it_name := Some n; it_text := decimal v; it_value := JNumber (num (decimal v)) |}
  | WInt64 (Some n) v => Some {| it_name := Some n; it_text := decimal_signed v; it_value := JNumber (num (decimal_signed v)) |}
  | _ => None
  end.

Definition object_frame (ops : list wop) : frame (double := double) :=
  {| fr_object := true; fr_name := None; fr_items := omap op_item ops |}.
Definition object_item (ops : list wop) : item (double := double) :=
  {| it_name := None; it_text := frame_text (object_frame ops); it_value := frame_tree (object_frame ops) |}.

(** A field with a name and a value that is a number or a string. *)
Definition field_ok (op : wop) : Prop :=
  match op with
  | WString (Some n) (Some s) ZBX_JSON_TYPE_STRING 0 => c_string n /\ c_string s
  | WUint64 (Some n) v => c_string n /\ 0 <= v < 2 ^ 64
  | WInt64 (Some n) v => c_string n /\ - 2 ^ 63 <= v < 2 ^ 63
  | _ => False
  end.

Lemma field_step (op : wop) (f : frame) (fs : list frame) :
  field_ok op -> fr_object f = true -> (length (f :: fs) <= 65)%nat ->
  exists i, op_item op = Some i /\ wstep num (f :: fs) op (add_item f i :: fs).
Proof.
  intros Hop Hf Hl.
  assert (Hlv : exists k, levels_left (length (f :: fs)) = S k) by (exists (65 - length (f :: fs))%nat; unfold levels_left; lia).
  destruct Hlv as [k Hk].
  assert (Hn : forall n, c_string n -> named f (Some n)) by (intros n Hn; unfold named; rewrite Hf; eauto).
  destruct op as [| [n|] [s|] [] [| |] | | [n|] v | [n|] v |]; try done; destruct Hop as [H1 H2]; eexists; (split; [reflexivity|]).
  - apply wstep_put; [simpl; by rewrite limited_text_nolimit|by left|by apply Hn| |].
    + rewrite Hk. cbn [jvalue]. rewrite <- (cstr_c_string s H2) at 2. apply jvalue_string. by apply json_escape_jchars.
    + constructor; [lia|]. apply Forall_app. split; [by apply escape_c_string|]. repeat constructor; lia.
  - apply wstep_put; [done|done|by apply Hn| |apply plain_c_string, decimal_plain; lia].
    rewrite Hk. apply jvalue_number, decimal_number. lia.
  - apply wstep_put; [done|done|by apply Hn| |apply plain_c_string, decimal_signed_plain].
    rewrite Hk. apply jvalue_number, decimal_signed_number. lia.
Qed.

Lemma fields_steps (ops : list wop) (f : frame) (fs : list frame) :
  Forall field_ok ops -> fr_object f = true -> (length (f :: fs) <= 65)%nat ->
  wsteps num (f :: fs) ops ({| fr_object := true; fr_name := fr_name f; fr_items := fr_items f ++ omap op_item ops |} :: fs).
Proof.
  intros Hops. revert f. induction Hops as [|op ops Hop _ IH]; intros f Hf Hl.
  { destruct f as [o n its]. simpl in *. subst o. rewrite app_nil_r. constructor. }
  destruct (field_step op f fs Hop Hf Hl) as (i & Ei & Hstep). eapply wsteps_cons; [exact Hstep|].
  cbn [omap list_omap]. rewrite Ei. specialize (IH (add_item f i)). cbn [add_item fr_name fr_items fr_object] in IH.
  rewrite <- app_assoc in IH. by apply IH.
Qed.

Lemma wsteps_app (fs fs1 fs2 : list frame) (ops ops' : list wop) :
  wsteps num fs ops fs1 -> wsteps num fs1 ops' fs2 -> wsteps num fs (ops ++ ops') fs2.
Proof. induction 1; simpl; [done|]. intros. econstructor; eauto. Qed.

(** An object in an array. *)
Lemma object_steps (ops : list wop) (f : frame) (fs : list frame) :
  Forall field_ok ops -> fr_object f = false -> (length (f :: fs) < 65)%nat ->
  wsteps num (f :: fs) ([WOpen true None] ++ ops ++ [WClose]) (add_item f (object_item ops) :: fs).
Proof.
  intros Hops Hf Hl. set (g := {| fr_object := true; fr_name := None; fr_items := [] |} : frame (double := double)).
  eapply wsteps_cons; [apply wstep_open; [unfold named; by rewrite Hf|lia]|].
  eapply wsteps_app; [apply (fields_steps ops g); [done|done|simpl in *; lia]|].
  eapply wsteps_cons; [|constructor]. apply (wstep_close num (object_frame ops) f fs).
Qed.

(* ------------------------------------------------------------------ *)
(** ** Rows of history *)

(** The fields of a row have the ranges of their C types. *)
Definition row_ok (row : zbx_pb_history) : Prop :=
  (0 <= h_id row < 2 ^ 64 /\ 0 <= h_itemid row < 2 ^ 64 /\ 0 <= h_lastlogsize row < 2 ^ 64) /\
  (- 2 ^ 31 <= h_sec row < 2 ^ 31 /\ - 2 ^ 31 <= h_ns row < 2 ^ 31 /\ - 2 ^ 31 <= h_timestamp row < 2 ^ 31 /\
   - 2 ^ 31 <= h_severity row < 2 ^ 31 /\ - 2 ^ 31 <= h_logeventid row < 2 ^ 31 /\ - 2 ^ 31 <= h_state row < 2 ^ 31 /\
   - 2 ^ 31 <= h_mtime row < 2 ^ 31) /\
  c_string (h_value row) /\ c_string (h_source row).

Lemma unless_ok (b : bool) (ops : list wop) : Forall field_ok ops -> Forall field_ok (unless b ops).
Proof. destruct b; [constructor|done]. Qed.

Lemma history_fields_ok (row : zbx_pb_history) : row_ok row -> Forall field_ok (history_fields row).
Proof.
  intros ((H1 & H2 & H3) & (H4 & H5 & H6 & H7 & H8 & H9 & H10) & H11 & H12).
  assert (Hu : forall s v, c_string (bytes_of s) -> 0 <= v < 2 ^ 64 -> Forall field_ok (put_uint s v))
    by (intros s v Hs Hv; constructor; [done|constructor]).
  assert (Hi : forall s v, c_string (bytes_of s) -> - 2 ^ 31 <= v < 2 ^ 31 -> Forall field_ok (put_int s v)).
  { intros s v Hs Hv. constructor; [|constructor]. split; [done|lia]. }
  assert (Hs : forall s v, c_string (bytes_of s) -> c_string v -> Forall field_ok (put_string s v))
    by (intros s v Hs Hv; constructor; [done|constructor]).
  unfold history_fields. repeat first [apply Forall_app; split | apply unless_ok | apply Hu | apply Hi | apply Hs];
    first [done | lia | repeat constructor; lia].
Qed.

(** The size of a row's text. *)
Definition row_size_json (row : zbx_pb_history) : Z :=
  Z.of_nat (length (frame_text (object_frame (history_fields row)))).

Definition array_frame (sent : list zbx_pb_history) : frame (double := double) :=
  {| fr_object := false; fr_name := Some (bytes_of "history data");
     fr_items := (fun row => object_item (history_fields row)) <$> sent |}.

(** The document with the array still open. *)
Definition packet_frames (f : frame) (fs : list frame) (sent : list zbx_pb_history) : list frame :=
  match sent with [] => f :: fs | _ => array_frame sent :: f :: fs end.

Record packet_at (f : frame) (fs : list frame) (p : packet) : Prop := {
  pa_records : p_records p = Z.of_nat (length (p_sent p));
  pa_writes : writes (p_json p) (packet_frames f fs (p_sent p))
}.

Lemma writes_size (j : zbx_json) (fs : list (frame (double := double))) :
  writes j fs -> frames_size fs = buffer_offset j + Z.of_nat (length fs) /\ buffer_offset j = Z.of_nat (length (frames_before fs)).
Proof.
  intros ((junk & _ & _ & Ho & _) & _ & _). split; [|done]. rewrite Ho. unfold frames_size, frames_after.
  rewrite length_app, length_fmap. lia.
Qed.

Lemma array_frame_snoc (sent : list zbx_pb_history) (row : zbx_pb_history) :
  array_frame (sent ++ [row]) = add_item (array_frame sent) (object_item (history_fields row)).
Proof. unfold array_frame, add_item. cbn. by rewrite fmap_app. Qed.

Lemma before_open (f : frame) (fs : list frame) :
  (length (frames_before (array_frame [] :: f :: fs)) <= length (frames_before (f :: fs)) + 17)%nat.
Proof.
  change (frames_before (array_frame [] :: f :: fs)) with
    (frames_before (f :: fs) ++ comma_text (fr_items f) ++ name_text (Some (bytes_of "history data")) ++ [LBRACKET]).
  assert (E : length (name_text (Some (bytes_of "history data"))) = 15%nat) by reflexivity.
  assert (C : (length (comma_text (fr_items f)) <= 1)%nat) by (destruct (fr_items f); simpl; lia).
  rewrite !length_app, E. simpl. lia.
Qed.

(** One row more, the array being opened for the first. *)
Lemma export_row (f : frame) (fs : list frame) (p : packet) (row : zbx_pb_history) :
  fr_object f = true -> (length fs <= 60)%nat -> packet_at f fs p -> row_ok row ->
  buffer_offset (p_json p) + row_size_json row <= 2 ^ 60 ->
  exists j, (j ← open_array "history data" (p_records p) (p_json p); do_wops j (history_ops row)) = Ret j /\
    packet_at f fs (Packet j (p_records p + 1) (h_id row) (p_sent p ++ [row])) /\
    buffer_offset j <= buffer_offset (p_json p) + row_size_json row + 18.
Proof.
  intros Hf Hl [Hr Hw] Hrow Hsz.
  assert (Hopen : exists j, open_array "history data" (p_records p) (p_json p) = Ret j /\
    writes j (array_frame (p_sent p) :: f :: fs) /\ buffer_offset j <= buffer_offset (p_json p) + 17).
  { unfold open_array. destruct (Z.eqb_spec (p_records p) 0) as [E | E].
    - assert (Hsent : p_sent p = []) by (destruct (p_sent p); [done|simpl in Hr; lia]). rewrite Hsent in *. cbn [packet_frames] in Hw.
      destruct (step_writes num (p_json p) (f :: fs) (array_frame [] :: f :: fs) (WOpen false (tag "history data")) Hw) as (j & Ej & Hwj).
      + apply wstep_open; [|simpl; lia]. unfold named. rewrite Hf. eexists. split; [done|]. repeat constructor; lia.
      + destruct (writes_size _ _ Hw) as [_ Hs]. pose proof (before_open f fs) as Hb. unfold frames_size, frames_after, JSON_MAX_SIZE.
        rewrite length_app, length_fmap. cbn [length] in *. assert (0 <= row_size_json row) by apply Nat2Z.is_nonneg. lia.
      + exists j. split; [exact Ej|]. split; [done|]. destruct (writes_size _ _ Hw) as [_ ->].
        destruct (writes_size _ _ Hwj) as [_ ->]. pose proof (before_open f fs). lia.
    - exists (p_json p). split; [done|]. split; [|lia]. destruct (p_sent p); [simpl in Hr; lia|done]. }
  destruct Hopen as (j & Ej & Hwj & Hoj). rewrite Ej. run.
  destruct (steps_writes num j _ _ (history_ops row) Hwj
    (object_steps (history_fields row) (array_frame (p_sent p)) (f :: fs) (history_fields_ok row Hrow) eq_refl ltac:(simpl; lia)))
    as (j' & E' & Hw').
  - unfold frames_size. rewrite before_add, after_add. destruct (writes_size _ _ Hwj) as [Hs1 Hs2]. unfold JSON_MAX_SIZE.
    unfold row_size_json in Hsz. revert Hs1. unfold frames_size. rewrite !length_app. cbn [length app it_name it_text object_item name_text].
    assert (C : forall its : list item, (length (comma_text (double := double) its) <= 1)%nat) by (intros []; simpl; lia).
    specialize (C (fr_items (array_frame (p_sent p)))). simpl length in *. lia.
  - exists j'. split; [done|]. rewrite <- array_frame_snoc in Hw'. split.
    + constructor; cbn [p_records p_sent p_json]; [rewrite length_app; simpl; lia|]. by destruct (p_sent p).
    + destruct (writes_size _ _ Hw') as [_ ->]. destruct (writes_size _ _ Hwj) as [_ Hs]. rewrite array_frame_snoc, before_add, !length_app.
      unfold row_size_json in *. cbn [it_name it_text object_item name_text length app].
      assert (C : forall its : list item, (length (comma_text (double := double) its) <= 1)%nat) by (intros []; simpl; lia).
      specialize (C (fr_items (array_frame (p_sent p)))). simpl length in *. lia.
Qed.

(** The row is no larger than what is kept free at the end of a packet. *)
Definition fits (row : zbx_pb_history) : Prop := row_ok row /\ row_size_json row + 19 <= ZBX_DATA_JSON_RESERVED.

Lemma export_loop_total (active : Z -> bool) (f : frame) (fs : list frame) (l : list zbx_pb_history) (p : packet) :
  fr_object f = true -> (length fs <= 60)%nat -> Forall fits l -> packet_at f fs p ->
  buffer_offset (p_json p) <= ZBX_DATA_JSON_RECORD_LIMIT ->
  exists p', export_loop active p l = Ret p' /\ packet_at f fs p' /\ buffer_offset (p_json p') < ZBX_MAX_RECV_DATA_SIZE.
Proof.
  intros Hf Hl Hfit. revert p. induction Hfit as [|row l [Hrow Hsz] _ IH]; intros p Hp Ho; cbn [export_loop].
  { exists p. split_and!; [done|done|]. unfold ZBX_DATA_JSON_RECORD_LIMIT, ZBX_MAX_RECV_DATA_SIZE, ZBX_DATA_JSON_RESERVED in *. lia. }
  destruct (negb (active (h_itemid row))); [by apply IH; [destruct Hp|]|].
  destruct (export_row f fs p row Hf Hl Hp Hrow) as (j & E & Hj & Hoj).
  { unfold ZBX_DATA_JSON_RECORD_LIMIT, ZBX_MAX_RECV_DATA_SIZE, ZBX_DATA_JSON_RESERVED in *. lia. }
  apply res_bind_Ret in E as (j0 & -> & E). run. rewrite E. run. cbn zeta. cbn [p_records p_sent].
  destruct (Z.ltb_spec ZBX_DATA_JSON_RECORD_LIMIT (buffer_offset j)); [|by apply IH].
  eexists. split_and!; [done|done|]. cbn [p_json].
  unfold ZBX_DATA_JSON_RECORD_LIMIT, ZBX_MAX_RECV_DATA_SIZE, ZBX_DATA_JSON_RESERVED in *. lia.
Qed.

Lemma export_total (active : Z -> bool) (f : frame) (fs : list frame) (l : list zbx_pb_history) (p : packet) :
  fr_object f = true -> (length fs <= 60)%nat -> Forall fits l -> packet_at f fs p ->
  buffer_offset (p_json p) <= ZBX_DATA_JSON_RECORD_LIMIT ->
  exists p', pb_history_export active p l = Ret p' /\ packet_at f fs p' /\ buffer_offset (p_json p') < ZBX_MAX_RECV_DATA_SIZE.
Proof.
  intros Hf Hl Hfit. apply export_loop_total; [done|done|]. rewrite Forall_forall in *. intros r Hr.
  apply Hfit. rewrite elem_of_reverse in Hr. rewrite <- elem_of_reverse.
  eapply elem_of_sublist; [exact Hr|apply filter_novalue_sublist].
Qed.

(** The loop over the batches ends. *)
Lemma get_mem_loop_total (fuel : nat) (active : Z -> bool) (f : frame) (fs : list frame) (l : list zbx_pb_history) (p : packet) :
  fr_object f = true -> (length fs <= 60)%nat -> Forall fits l -> packet_at f fs p ->
  buffer_offset (p_json p) <= ZBX_DATA_JSON_RECORD_LIMIT -> (length l < fuel)%nat ->
  exists p' more, get_mem_loop fuel active p l = Ret (p', more) /\ packet_at f fs p' /\
    buffer_offset (p_json p') < ZBX_MAX_RECV_DATA_SIZE /\
    (more = true -> ZBX_DATA_JSON_BATCH_LIMIT <= buffer_offset (p_json p') \/ ZBX_MAX_HRECORDS_TOTAL <= p_records p').
Proof.
  intros Hf Hl. revert l p. induction fuel as [|fuel IH]; intros l p Hfit Hp Ho Hfuel; [lia|]. cbn [get_mem_loop].
  set (n := Z.to_nat ZBX_MAX_HRECORDS). rewrite <- (take_drop n l) in Hfit. apply Forall_app in Hfit as [Hfit1 Hfit2].
  destruct (export_total active f fs (take n l) p Hf Hl Hfit1 Hp Ho) as (p1 & E & Hp1 & Ho1). rewrite E. run.
  destruct (Z.eqb_spec (Z.of_nat (length (take n l))) ZBX_MAX_HRECORDS) as [El | El]; cbn [negb]; [|exists p1, false; by split_and!].
  destruct (Z.leb_spec ZBX_DATA_JSON_BATCH_LIMIT (buffer_offset (p_json p1))) as [Hb | Hb]; cbn [orb]; [exists p1, true; split_and!; auto|].
  destruct (Z.leb_spec ZBX_MAX_HRECORDS_TOTAL (p_records p1)) as [Ht | Ht]; [exists p1, true; split_and!; auto|].
  assert (ZBX_DATA_JSON_BATCH_LIMIT <= ZBX_DATA_JSON_RECORD_LIMIT) by (vm_compute; discriminate).
  apply (IH (drop n l) p1); [done|done|lia|]. rewrite length_take in El. rewrite length_drop. unfold ZBX_MAX_HRECORDS in *. lia.
Qed.
End Packet.

(** The array of the rows that were sent, as a value of the document. *)
Definition history_item {double : Type} (num : list Z -> double) (sent : list zbx_pb_history) : item (double := double) :=
  {| it_name := Some (bytes_of "history data"); it_text := frame_text (array_frame num sent);
     it_value := frame_tree (array_frame num sent) |}.

(** C9: Taking the history that is in memory for an upload.  Suppose the writer has an object of the document open, at
    most 61 levels deep, and its text has not reached the limit for records; the rows in memory are in the order of
    their ids, which are positive; their numbers have the ranges of their C types and their strings no NUL; and the JSON
    text of each row, with escapes, fits the room that is reserved at the end of a packet (65535 * 4 + 4096 bytes, less
    19).  Larger rows, for instance binary values or texts that are mostly control characters, are outside the theorem.
    Then the export ends with a packet that adds to the open object the member "history data", an array with one object
    for each row that is sent, with the row's fields, or nothing when no row is sent; its size stays within what the
    server accepts, since the export stops when only the reserved room is left; the rows sent are rows in memory in the
    order of their ids; up to the id that is acknowledged later a row is left out only if its item is disabled or if it
    has no value and a newer row of the item has none either; and more is to come only if the packet is half full or has
    10000 records. *)
Theorem history_packet {double : Type} (num : list Z -> double) (active : Z -> bool) (pb : zbx_pb) (j : zbx_json)
    (f : frame (double := double)) (fs : list frame) :
  writes j (f :: fs) -> fr_object f = true -> (length fs <= 60)%nat -> buffer_offset j <= ZBX_DATA_JSON_RECORD_LIMIT ->
  Forall (fits num) (rows (history pb)) -> StronglySorted id_lt (rows (history pb)) ->
  Forall (fun r => 0 < h_id r) (rows (history pb)) ->
  exists p more, pb_history_get_mem active pb j = Ret (p, more) /\
    writes (p_json p) (match p_sent p with [] => f :: fs | sent => add_item f (history_item num sent) :: fs end) /\
    buffer_offset (p_json p) <= ZBX_MAX_RECV_DATA_SIZE /\
    StronglySorted id_lt (p_sent p) /\ (forall r, r ∈ p_sent p -> r ∈ rows (history pb) /\ h_id r <= p_lastid p) /\
    left_out active (rows (history pb)) p /\
    (more = true -> ZBX_DATA_JSON_BATCH_LIMIT <= buffer_offset (p_json p) \/ ZBX_MAX_HRECORDS_TOTAL <= p_records p).
Proof.
  intros Hw Hf Hl Ho Hfit Hs Hpos. rewrite Forall_forall in Hpos.
  assert (Hmax : ZBX_DATA_JSON_RECORD_LIMIT < ZBX_MAX_RECV_DATA_SIZE) by (vm_compute; reflexivity).
  assert (H0 : packet_at num f fs (Packet j 0 0 [])) by by constructor.
  unfold pb_history_get_mem. destruct (rows (history pb)) as [|r0 l] eqn:E.
  { exists (Packet j 0 0 []), false. split_and!; [done|done|cbn; lia|exact Hs|by intros r ?%elem_of_nil|by intros r ?%elem_of_nil|done]. }
  rewrite <- E in *.
  destruct (get_mem_loop_total num (S (length (rows (history pb)))) active f fs (rows (history pb))
    (Packet j 0 0 []) Hf Hl Hfit H0 Ho ltac:(lia)) as (p & more & Ep & [Pr Pw] & Po & Pm).
  assert (Hsent : sent_of active (rows (history pb)) p).
  { eapply (get_mem_loop_ok _ _ _ (rows (history pb)) (Packet j 0 0 [])); [exact Hs|intros r; cbn; split; [intros Hr; split; [done|by apply Hpos]|tauto]| |exact Ep].
    constructor; cbn; [constructor|by intros r ?%elem_of_nil|by left|]. intros r Hr Hle. specialize (Hpos r Hr). cbn in Hle. lia. }
  destruct Hsent as [S1 S2 _ Pl]. rewrite Ep. run. exists (close_array p), more. split; [done|]. unfold close_array.
  unfold left_out in Pl |- *. destruct (p_sent p) as [|r1 sent] eqn:Es.
  { cbn [length] in Pr. rewrite Pr. cbn. split_and!; [exact Pw|apply Z.lt_le_incl; exact Po|done|done|exact Pl|]; rewrite Pr in Pm; exact Pm. }
  destruct (Z.eqb_spec (p_records p) 0) as [Hz | _]; [simpl length in Pr; lia|]. cbn [packet_frames] in Pw.
  destruct (step_writes num (p_json p) _ _ WClose Pw (wstep_close num (array_frame num (r1 :: sent)) f fs)) as (j' & Ej & Hj').
  { destruct (writes_size _ _ Pw) as [Hsz1 Hsz2]. unfold frames_size. rewrite before_close, after_add, !length_app.
    unfold frames_size in Hsz1. rewrite length_app in Hsz1. unfold frames_after in *. rewrite length_fmap in *. cbn [length] in *.
    unfold JSON_MAX_SIZE, ZBX_MAX_RECV_DATA_SIZE in *. lia. }
  cbn [do_wop] in Ej. apply Ret_inj in Ej as <-. cbn [p_json p_sent p_lastid p_records].
  destruct (writes_size _ _ Hj') as [_ Ho']. rewrite before_close, length_app in Ho'. destruct (writes_size _ _ Pw) as [_ Ho2].
  assert (Hoff : buffer_offset (default (p_json p) (zbx_json_close (p_json p))) = buffer_offset (p_json p) + 1).
  { rewrite Ho', Ho2. cbn [length]. lia. }
  split_and!; [exact Hj'|lia|done|done|exact Pl|]. intros Hm. destruct (Pm Hm); [left; lia|by right].
Qed.

Definition packet_row (id : Z) : zbx_pb_history := PbHistory id 10 0 100 5 [49; 50] [] 0 0 0 0 0 0 100.
Definition packet_pb : zbx_pb :=
  Pb (Chan [packet_row 1; packet_row 2] 0 0) (Chan [] 0 0) (Chan [] 0 0) ZBX_PB_MODE_MEMORY PB_MEMORY 0 0 3600 0 2 0 [].

Lemma packet_row_fits (id : Z) : id = 1 \/ id = 2 -> fits (fun t => t) (packet_row id).
Proof.
  intros Hid. split; [split_and!; cbn; try lia; repeat constructor; lia|]. destruct Hid as [-> | ->]; vm_compute; discriminate.
Qed.

Lemma history_packet_witness :
  exists j p more, json_start true 128 = Ret j /\ pb_history_get_mem (fun _ => true) packet_pb j = Ret (p, more) /\
    left_out (fun _ => true) (rows (history packet_pb)) p.
Proof.
  destruct (start_writes (double := list Z) true 128 ltac:(lia)) as (j & Ej & Hw).
  assert (Hoff : buffer_offset j <= ZBX_DATA_JSON_RECORD_LIMIT).
  { destruct (writes_size _ _ Hw) as [_ ->]. vm_compute. discriminate. }
  assert (Hfit : Forall (fits (fun t => t)) (rows (history packet_pb))) by (repeat constructor; apply packet_row_fits; lia).
  assert (Hs : StronglySorted id_lt (rows (history packet_pb))) by (repeat constructor).
  assert (Hpos : Forall (fun r => 0 < h_id r) (rows (history packet_pb))) by (repeat constructor).
  destruct (history_packet (fun t => t) (fun _ => true) packet_pb j (top_frame true) [] Hw eq_refl ltac:(simpl; lia) Hoff Hfit Hs Hpos)
    as (p & more & E & _ & _ & _ & _ & Hl & _).
  exists j, p, more. split_and!; done.
Defined.
