(* ===== verification/ExprScan.v ===== *)
(** Loops over texts: a body that goes on or leaves with a result, a measure
    that bounds the rounds, and the two ways to reason about a run, stepping
    forward from a known state and inverting a run that has ended. *)

From Stdlib Require Import ZArith Lia.
From S2P Require Import Prelude.
From stdpp Require Import base list numbers relations.

Open Scope Z_scope.

(** [loop fuel body s] runs [body] until it leaves with a result. *)
Fixpoint loop {S R : Type} (fuel : nat) (body : S -> S + R) (s : S) : res R :=
  match fuel with
  | O => NoFuel
  | Datatypes.S fuel =>
    match body s with
    | inl s => loop fuel body s
    | inr r => Ret r
    end
  end.

Section Loop.
  Context {S R : Type} (body : S -> S + R).

  (** The loop started in [s] ends with [r]. *)
Inductive runs : S -> R -> Prop :=
  | runs_end s r : body s = inr r -> runs s r
  | runs_step s s' r : body s = inl s' -> runs s' r -> runs s r.

  (** Some rounds lead from one state to another. *)
Definition steps : S -> S -> Prop := rtc (fun s s' => body s = inl s').

Lemma runs_det (s : S) (r r' : R) : runs s r -> runs s r' -> r = r'.
Proof.
  induction 1 as [s r E | s s' r E _ IH]; intros H; inversion H as [s1 r1 E1 | s1 s2 r1 E1 H1]; subst; [congruence..|].
  apply IH. rewrite E in E1. by injection E1 as ->.
Qed.

Lemma runs_steps (s s' : S) (r : R) : steps s s' -> runs s' r -> runs s r.
Proof. induction 1; [done|]. intros H'. econstructor 2; eauto. Qed.

Lemma runs_after (s s' : S) (r : R) : steps s s' -> runs s r -> runs s' r.
Proof.
  induction 1 as [|s s1 s' E _ IH]; [done|]. intros H. apply IH. inversion H; congruence.
Qed.

Lemma runs_inv (s s' : S) (r : R) : body s = inl s' -> runs s r -> runs s' r.
Proof. intros E H. inversion H; congruence. Qed.

Lemma runs_last (s : S) (r r' : R) : body s = inr r -> runs s r' -> r' = r.
Proof. intros E H. inversion H; congruence. Qed.

Lemma steps_one (s s' : S) : body s = inl s' -> steps s s'.
Proof. intros E. by apply rtc_once. Qed.

Lemma loop_runs (fuel : nat) (s : S) (r : R) : loop fuel body s = Ret r -> runs s r.
Proof.
  revert s. induction fuel as [|fuel IH]; [done|]. cbn [loop]. intros s.
  destruct (body s) as [s'|r'] eqn:E; [|intros [= ->]%Ret_inj; by constructor]. intros H. econstructor 2; eauto.
Qed.

  (** A measure that every round lowers bounds the fuel. *)
  Context (m : S -> nat) (Hm : forall s s', body s = inl s' -> (m s' < m s)%nat).

Lemma loop_total (fuel : nat) (s : S) : (m s < fuel)%nat -> exists r, loop fuel body s = Ret r.
Proof.
  revert s. induction fuel as [|fuel IH]; [lia|]. intros s Hs. cbn [loop].
  destruct (body s) as [s'|r] eqn:E; [|eauto]. apply IH. apply Hm in E. lia.
Qed.

Lemma loop_spec (fuel : nat) (s : S) (r : R) : (m s < fuel)%nat -> loop fuel body s = Ret r <-> runs s r.
Proof.
  intros Hf. split; [apply loop_runs|]. intros H. destruct (loop_total fuel s Hf) as [r' E]. rewrite E.
  by rewrite (runs_det s r' r (loop_runs _ _ _ E) H).
Qed.
End Loop.

Arguments runs_inv {S R body} s s' r _ _.
Arguments runs_last {S R body} s r r' _ _.

(** The character 34. *)
Notation QUOTE := 34 (only parsing).

(** The first character, 0 at the NUL. *)
Definition hd0 (s : list Z) : Z := match s with [] => 0 | c :: _ => c end.

(** A character of a C string. *)
Definition is_text (s : list Z) : Prop := Forall (fun c => c <> 0) s.

Fixpoint skip_while (f : Z -> bool) (s : list Z) : list Z :=
  match s with
  | [] => []
  | c :: s' => if f c then skip_while f s' else s
  end.

Fixpoint take_while (f : Z -> bool) (s : list Z) : list Z :=
  match s with
  | [] => []
  | c :: s' => if f c then c :: take_while f s' else []
  end.

(** while (' ' == *p) p++ *)
Definition skip_spaces (s : list Z) : list Z := skip_while (fun c => c =? 32) s.

Definition spaces (n : nat) : list Z := replicate n 32.

Lemma take_skip (f : Z -> bool) (s : list Z) : take_while f s ++ skip_while f s = s.
Proof. induction s as [|c s IH]; [done|]. cbn. destruct (f c); [|done]. cbn. by rewrite IH. Qed.

Lemma take_while_all (f : Z -> bool) (s : list Z) : Forall (fun c => f c = true) (take_while f s).
Proof. induction s as [|c s IH]; [done|]. cbn. destruct (f c) eqn:E; by constructor. Qed.

Lemma skip_while_head (f : Z -> bool) (s : list Z) (c : Z) (s' : list Z) : skip_while f s = c :: s' -> f c = false.
Proof. induction s as [|x s IH]; [done|]. cbn. destruct (f x) eqn:E; [done|]. by intros [= <- <-]. Qed.

Lemma skip_while_length (f : Z -> bool) (s : list Z) : (length (skip_while f s) <= length s)%nat.
Proof. induction s as [|c s IH]; [done|]. cbn. destruct (f c); cbn; lia. Qed.

Lemma skip_while_app (f : Z -> bool) (l s : list Z) :
  Forall (fun c => f c = true) l -> skip_while f (l ++ s) = skip_while f s.
Proof. induction 1 as [|c l Hc _ IH]; [done|]. cbn. by rewrite Hc. Qed.

Lemma skip_while_stop (f : Z -> bool) (s : list Z) :
  match s with [] => True | c :: _ => f c = false end -> skip_while f s = s.
Proof. destruct s as [|c s]; [done|]. cbn. by intros ->. Qed.

Lemma take_while_app (f : Z -> bool) (l s : list Z) :
  Forall (fun c => f c = true) l -> match s with [] => True | c :: _ => f c = false end ->
  take_while f (l ++ s) = l /\ skip_while f (l ++ s) = s.
Proof.
  intros Hl Hs. induction Hl as [|c l Hc _ [IH1 IH2]]; cbn.
  - destruct s as [|c s]; [done|]. cbn. by rewrite Hs.
  - by rewrite Hc, IH1.
Qed.

Lemma skip_spaces_eq (s : list Z) : exists n, s = spaces n ++ skip_spaces s.
Proof.
  exists (length (take_while (fun c => c =? 32) s)). rewrite <- (take_skip (fun c => c =? 32) s) at 1. f_equal.
  unfold spaces. symmetry. apply replicate_as_Forall. split; [done|].
  eapply Forall_impl; [apply take_while_all|]. cbn. intros c H. by apply Z.eqb_eq in H.
Qed.

Lemma skip_spaces_app (n : nat) (s : list Z) : skip_spaces (spaces n ++ s) = skip_spaces s.
Proof. apply skip_while_app. apply Forall_replicate. done. Qed.

Lemma skip_spaces_stop (s : list Z) : hd0 s <> 32 -> skip_spaces s = s.
Proof. destruct s as [|c s]; [done|]. cbn. intros H. by destruct (Z.eqb_spec c 32). Qed.

Lemma skip_spaces_hd (s : list Z) : hd0 (skip_spaces s) <> 32.
Proof.
  destruct (skip_spaces s) as [|c l] eqn:E; [done|]. apply skip_while_head in E. by apply Z.eqb_neq in E.
Qed.
