(* ===== verification/ExprKey.v ===== *)
(** Item keys: parsing a key (zbxexpr/expr.c), counting, taking and quoting its
    parameters (zbxparam/param.c), splitting it (zbxsysinfo/sysinfo.c) and
    replacing its parameters in place (zbxexpr/key.c, zbxparam/param.c).  A
    pointer into a text is the rest of the text. *)

From Stdlib Require Import ZArith Lia.
From S2P Require Import Prelude ExprScan.
From stdpp Require Import base list numbers strings.

Open Scope Z_scope.
Import CharConst.

(** The states of the parsers: 0, 1 and 2 in the code. *)
Inductive pstate := Init | Quoted | Unquoted.

#[export] Instance pstate_eq_dec : EqDecision pstate.
Proof. solve_decision. Defined.

Definition zbx_is_key_char (c : Z) : bool := isalnum c || (c =? ch ".") || (c =? ch "_") || (c =? ch "-").

(* ------------------------------------------------------------------ *)
(** ** zbx_parse_key *)

(** One round of the loop, the step to the next character included.  The
    result is SUCCEED or FAIL and where the pointer is left. *)
Definition parse_key_body (x : pstate * bool * list Z) : (pstate * bool * list Z) + (bool * list Z) :=
  let '(state, array, s) := x in
  match s with
  | [] => inr (false, s)
  | c :: p =>
    match state with
    | Init =>
      if c =? ch "," then inl (Init, array, p)
      else if c =? QUOTE then inl (Quoted, array, p)
      else if c =? ch "[" then if array then inr (false, s) else inl (Init, true, p)
      else if (c =? ch "]") && array then
        let s := skip_spaces p in
        if hd0 s =? ch "]" then inr (true, tail s)
        else if negb (hd0 s =? ch ",") then inr (false, s)
        else inl (Init, false, tail s)
      else if c =? ch "]" then inr (true, p)
      else if negb (c =? ch " ") then inl (Unquoted, array, p) else inl (Init, array, p)
    | Quoted =>
      if c =? QUOTE then
        let q := skip_spaces p in
        if negb array && (hd0 q =? ch "]") then inr (true, tail q)
        else if negb (hd0 q =? ch ",") && negb (array && (hd0 q =? ch "]")) then inr (false, q)
        else inl (Init, array, q)
      else if (c =? ch "\") && (hd0 p =? QUOTE) then inl (Quoted, array, tail p)
      else inl (Quoted, array, p)
    | Unquoted =>
      if (c =? ch ",") || ((c =? ch "]") && array) then inl (Init, array, s)
      else if c =? ch "]" then inr (true, p) else inl (Unquoted, array, p)
    end
  end.

Definition zbx_parse_key (exp : list Z) : res (bool * list Z) :=
  let s := skip_while zbx_is_key_char exp in
  if bool_decide (exp = s) then Ret (false, exp)
  else
    match s with
    | c :: p => if c =? ch "[" then loop (2 * length p + 2) parse_key_body (Init, false, p) else Ret (true, s)
    | [] => Ret (true, s)
    end.

(* ------------------------------------------------------------------ *)
(** ** Parameter lists *)

(** zbx_num_param; 0 is a syntax error. *)
Definition num_param_body (x : pstate * bool * Z * list Z) : (pstate * bool * Z * list Z) + Z :=
  let '(state, array, ret, s) := x in
  match s with
  | [] => inr (if bool_decide (state = Quoted) then 0 else if array then 0 else ret)
  | c :: p =>
    match state with
    | Init =>
      if c =? ch "," then inl (Init, array, (if array then ret else ret + 1), p)
      else if c =? QUOTE then inl (Quoted, array, ret, p)
      else if c =? ch "[" then if array then inr 0 else inl (Init, true, ret, p)
      else if (c =? ch "]") && array then
        let q := skip_spaces p in
        if negb (hd0 q =? ch ",") && negb (hd0 q =? 0) then inr 0 else inl (Init, false, ret, q)
      else if c =? ch "]" then inr 0
      else if negb (c =? ch " ") then inl (Unquoted, array, ret, p) else inl (Init, array, ret, p)
    | Quoted =>
      if c =? QUOTE then
        let q := skip_spaces p in
        if negb (hd0 q =? ch ",") && negb (hd0 q =? 0) && (negb array || negb (hd0 q =? ch "]")) then inr 0
        else inl (Init, array, ret, q)
      else if (c =? ch "\") && (hd0 p =? QUOTE) then inl (Quoted, array, ret, tail p)
      else inl (Quoted, array, ret, p)
    | Unquoted =>
      if (c =? ch ",") || ((c =? ch "]") && array) then inl (Init, array, ret, s)
      else if c =? ch "]" then inr 0 else inl (Unquoted, array, ret, p)
    end
  end.

Definition zbx_num_param (p : list Z) : res Z := loop (2 * length p + 2) num_param_body (Init, false, 1, p).

Inductive zbx_request_parameter_type :=
  REQUEST_PARAMETER_TYPE_UNDEFINED | REQUEST_PARAMETER_TYPE_STRING | REQUEST_PARAMETER_TYPE_ARRAY.

#[export] Instance request_type_eq_dec : EqDecision zbx_request_parameter_type.
Proof. solve_decision. Defined.

Record getting := Getting {
  g_state : pstate;
  g_array : Z;
  g_idx : Z;
  g_p : list Z;
  g_buf : list Z;
  g_type : zbx_request_parameter_type
}.

(** ZBX_ASSIGN_PARAM where the condition holds; None for a full buffer. *)
Definition assign_param (max_len : Z) (b : bool) (c : Z) (buf : list Z) : option (list Z) :=
  if b then if Z.of_nat (length buf) =? max_len then None else Some (buf ++ [c]) else Some buf.

Definition set_type (b : bool) (t type : zbx_request_parameter_type) : zbx_request_parameter_type :=
  if b && bool_decide (type = REQUEST_PARAMETER_TYPE_UNDEFINED) then t else type.

(** What may follow a quoted parameter or an array. *)
Definition param_ended (array : Z) (q : list Z) : bool :=
  (hd0 q =? ch ",") || (hd0 q =? 0) || (negb (array =? 0) && (hd0 q =? ch "]")).

(** One round of zbx_get_param; it leaves with None for [return 1] in the
    loop. *)
Definition get_param_body (num max_len : Z) (x : getting) : getting + option getting :=
  let '(Getting state array idx s buf type) := x in
  let put b c buf (k : list Z -> getting) :=
    match assign_param max_len b c buf with Some buf => inl (k buf) | None => inr None end in
  let here := idx =? num in
  let inside := negb (array =? 0) in
  match s with
  | [] => inr (Some x)
  | c :: p =>
    if num <? idx then inr (Some x)
    else
      match state with
      | Init =>
        if c =? ch "," then
          if negb inside then inl (Getting Init array (idx + 1) p buf type)
          else put here c buf (fun buf => Getting Init array idx p buf type)
        else if c =? QUOTE then
          put (here && inside) c buf (fun buf =>
            Getting Quoted array idx p buf (set_type here REQUEST_PARAMETER_TYPE_STRING type))
        else if c =? ch "[" then
          put (here && inside) c buf (fun buf =>
            Getting Init (array + 1) idx p buf (set_type here REQUEST_PARAMETER_TYPE_ARRAY type))
        else if (c =? ch "]") && inside then
          let array := array - 1 in
          match assign_param max_len (negb (array =? 0) && here) c buf with
          | None => inr None
          | Some buf =>
            let q := skip_spaces p in
            if negb (param_ended array q) then inr None else inl (Getting Init array idx q buf type)
          end
        else if negb (c =? ch " ") then
          put here c buf (fun buf => Getting Unquoted array idx p buf (set_type here REQUEST_PARAMETER_TYPE_STRING type))
        else inl (Getting Init array idx p buf type)
      | Quoted =>
        if c =? QUOTE then
          match assign_param max_len (inside && here) c buf with
          | None => inr None
          | Some buf =>
            let q := skip_spaces p in
            if negb (param_ended array q) then inr None else inl (Getting Init array idx q buf type)
          end
        else if (c =? ch "\") && (hd0 p =? QUOTE) then
          match assign_param max_len (here && inside) c buf with
          | None => inr None
          | Some buf => put here QUOTE buf (fun buf => Getting Quoted array idx (tail p) buf type)
          end
        else put here c buf (fun buf => Getting Quoted array idx p buf type)
      | Unquoted =>
        if (c =? ch ",") || ((c =? ch "]") && inside) then inl (Getting Init array idx s buf type)
        else put here c buf (fun buf => Getting Unquoted array idx p buf type)
      end
  end.

(** The checks after the loop, in zbx_get_param and get_param_len. *)
Definition param_found (num : Z) (state : pstate) (array idx : Z) : bool :=
  negb (bool_decide (state = Quoted)) && (array =? 0) && (num <=? idx).

(** None when the parameter is missing or does not fit. *)
Definition zbx_get_param (p : list Z) (num max_len : Z) : res (option (list Z * zbx_request_parameter_type)) :=
  if max_len =? 0 then Ret None
  else
    r ← loop (2 * length p + 2) (get_param_body num (max_len - 1)) (Getting Init 0 1 p [] REQUEST_PARAMETER_TYPE_UNDEFINED);
    Ret (match r with
         | Some g => if param_found num (g_state g) (g_array g) (g_idx g) then Some (g_buf g, g_type g) else None
         | None => None
         end).

(** One round of get_param_len. *)
Record measuring := Measuring { l_state : pstate; l_array : Z; l_idx : Z; l_p : list Z; l_sz : Z }.

Definition param_len_body (num : Z) (x : measuring) : measuring + option measuring :=
  let '(Measuring state array idx s sz) := x in
  let add (b : bool) (sz : Z) := if b then sz + 1 else sz in
  let here := idx =? num in
  let inside := negb (array =? 0) in
  match s with
  | [] => inr (Some x)
  | c :: p =>
    if num <? idx then inr (Some x)
    else
      match state with
      | Init =>
        if c =? ch "," then
          if negb inside then inl (Measuring Init array (idx + 1) p sz) else inl (Measuring Init array idx p (add here sz))
        else if c =? QUOTE then inl (Measuring Quoted array idx p (add (inside && here) sz))
        else if c =? ch "[" then inl (Measuring Init (array + 1) idx p (add (inside && here) sz))
        else if (c =? ch "]") && inside then
          let array := array - 1 in
          let q := skip_spaces p in
          if negb (param_ended array q) then inr None
          else inl (Measuring Init array idx q (add (negb (array =? 0) && here) sz))
        else if negb (c =? ch " ") then inl (Measuring Unquoted array idx p (add here sz))
        else inl (Measuring Init array idx p sz)
      | Quoted =>
        if c =? QUOTE then
          let q := skip_spaces p in
          if negb (param_ended array q) then inr None else inl (Measuring Init array idx q (add (inside && here) sz))
        else if (c =? ch "\") && (hd0 p =? QUOTE) then
          inl (Measuring Quoted array idx (tail p) (add here (add (here && inside) sz)))
        else inl (Measuring Quoted array idx p (add here sz))
      | Unquoted =>
        if (c =? ch ",") || ((c =? ch "]") && inside) then inl (Measuring Init array idx s sz)
        else inl (Measuring Unquoted array idx p (add here sz))
      end
  end.

Definition get_param_len (p : list Z) (num : Z) : res (option Z) :=
  r ← loop (2 * length p + 2) (param_len_body num) (Measuring Init 0 1 p 0);
  Ret (match r with
       | Some x => if param_found num (l_state x) (l_array x) (l_idx x) then Some (l_sz x) else None
       | None => None
       end).

Definition zbx_get_param_dyn (p : list Z) (num : Z) : res (option (list Z * zbx_request_parameter_type)) :=
  sz ← get_param_len p num;
  match sz with
  | None => Ret None
  | Some sz => zbx_get_param p num (sz + 1)
  end.

(** The text between the first '[' and the last ']'. *)
Definition key_params (param : list Z) : option (list Z) :=
  match find_from (ch "[") param, find_from (ch "]") (reverse param) with
  | Some pl, Some k =>
    let pr := (length param - 1 - k)%nat in
    if (pr <? pl)%nat then None else Some (drop (pl + 1) (take pr param))
  | _, _ => None
  end.

Definition zbx_get_key_param (param : list Z) (num max_len : Z) : res (option (list Z)) :=
  match key_params param with
  | None => Ret None
  | Some p => r ← zbx_get_param p num max_len; Ret (option_map fst r)
  end.

Definition zbx_num_key_param (param : list Z) : res Z :=
  match key_params param with
  | None => Ret 0
  | Some p => zbx_num_param p
  end.

(** The loop of zbx_unquote_key_param. *)
Fixpoint unescape_quotes (param : list Z) : list Z :=
  match param with
  | [] => []
  | c :: p => if (c =? ch "\") && (hd0 p =? QUOTE) then unescape_quotes p else c :: unescape_quotes p
  end.

(** The last character is taken for the closing quote; there must be one. *)
Definition zbx_unquote_key_param (param : list Z) : res (list Z) :=
  match param with
  | c :: p =>
    if c =? QUOTE then match unescape_quotes p with [] => Undef | l => Ret (removelast l) end else Ret param
  | [] => Ret param
  end.

(** The loop that writes the characters of a parameter with a backslash before
    each that is to be escaped. *)
Fixpoint escape_quotes (param : list Z) : list Z :=
  match param with
  | [] => []
  | c :: p => if c =? QUOTE then ch "\" :: c :: escape_quotes p else c :: escape_quotes p
  end.

Definition ends_with_backslash (s : list Z) : bool := bool_decide (list.last s = Some (ch "\")).

(** A parameter that cannot stand without quotes. *)
Definition needs_quotes (param : list Z) : bool :=
  (hd0 param =? QUOTE) || (hd0 param =? ch " ") || (hd0 param =? ch "[") ||
  bool_decide (ch "," ∈ param) || bool_decide (ch "]" ∈ param).

(** None for FAIL. *)
Definition zbx_quote_key_param (param : list Z) (forced : Z) : option (list Z) :=
  let req := needs_quotes param in
  if negb req && (forced =? 0) then Some param
  else if ends_with_backslash param then if negb req && negb (forced =? 2) then Some param else None
  else Some ([QUOTE] ++ escape_quotes param ++ [QUOTE]).

(* ------------------------------------------------------------------ *)
(** ** zbx_parse_item_key *)

Inductive command := ZBX_COMMAND_ERROR | ZBX_COMMAND_WITHOUT_PARAMS (cmd : list Z) | ZBX_COMMAND_WITH_PARAMS (cmd param : list Z).

Definition parse_command_dyn (text : list Z) : command :=
  let cmd := take_while zbx_is_key_char text in
  match cmd, skip_while zbx_is_key_char text with
  | [], _ => ZBX_COMMAND_ERROR
  | _, [] => ZBX_COMMAND_WITHOUT_PARAMS cmd
  | _, c :: pl =>
    if negb (c =? ch "[") then ZBX_COMMAND_ERROR
    else if bool_decide (list.last pl = Some (ch "]")) then ZBX_COMMAND_WITH_PARAMS cmd (removelast pl) else ZBX_COMMAND_ERROR
  end.

Record agent_request := Request { r_key : list Z; r_params : list (option (list Z * zbx_request_parameter_type)) }.

(** The parameters from [i] on, [n] of them. *)
Fixpoint get_params (n : nat) (i : Z) (params : list Z) : res (list (option (list Z * zbx_request_parameter_type))) :=
  match n with
  | O => Ret []
  | S n => x ← zbx_get_param_dyn params i; l ← get_params n (i + 1) params; Ret (x :: l)
  end.

Definition zbx_parse_item_key (itemkey : list Z) : res (option agent_request) :=
  match parse_command_dyn itemkey with
  | ZBX_COMMAND_ERROR => Ret None
  | ZBX_COMMAND_WITHOUT_PARAMS key => Ret (Some (Request key []))
  | ZBX_COMMAND_WITH_PARAMS key params =>
    nparam ← zbx_num_param params;
    if nparam =? 0 then Ret None
    else l ← get_params (Z.to_nat nparam) 1 params; Ret (Some (Request key l))
  end.

(* ------------------------------------------------------------------ *)
(** ** Replacing parameters *)

(** What is asked for each parameter: its text, the level of brackets, its
    number, whether it is quoted; the answer is SUCCEED or FAIL and a new
    text. *)
Definition replace_key_param_f : Type := list Z -> Z -> Z -> bool -> bool * option (list Z).

(** replace_key_param, with the loop's [i] for [r]: the characters from [l] up
    to [i] are the parameter. *)
Definition replace_key_param (cb : replace_key_param_f) (data : list Z) (l i : nat) (level num : Z) (quoted : bool)
    : bool * list Z * nat :=
  match cb (drop l (take i data)) level num quoted with
  | (ret, None) => (ret, data, i)
  | (ret, Some param) => (ret, take l data ++ param ++ drop i data, (l + length param)%nat)
  end.

Inductive zbx_parser_state := ZBX_STATE_NEW | ZBX_STATE_END | ZBX_STATE_UNQUOTED | ZBX_STATE_QUOTED.

Record replacing := Replacing {
  k_data : list Z;
  k_i : nat;
  k_l : nat;
  k_level : Z;
  k_num : Z;
  k_state : zbx_parser_state;
  k_ret : bool
}.

(** One round of the loop, which leaves with the state it is in. *)
Definition parse_params_body (cb : replace_key_param_f) (x : replacing) : replacing + replacing :=
  let '(Replacing data i l level num state ret) := x in
  let c := chr data i in
  let next_num := if level =? 1 then num + 1 else num in
  if (c =? 0) || negb ret then inr x
  else
    match state with
    | ZBX_STATE_NEW =>
      if c =? ch " " then inl (Replacing data (i + 1) l level num state ret)
      else if c =? ch "," then
        let '(ret, data, i) := replace_key_param cb data i i level num false in
        inl (Replacing data (i + 1) l level next_num state ret)
      else if c =? ch "[" then
        if level =? 2 then inr x
        else inl (Replacing data (i + 1) l (level + 1) (if level + 1 =? 1 then num + 1 else num) state ret)
      else if c =? ch "]" then
        let '(ret, data, i) := replace_key_param cb data i i level num false in
        inl (Replacing data (i + 1) l (level - 1) num ZBX_STATE_END ret)
      else if c =? QUOTE then inl (Replacing data (i + 1) i level num ZBX_STATE_QUOTED ret)
      else inl (Replacing data (i + 1) i level num ZBX_STATE_UNQUOTED ret)
    | ZBX_STATE_END =>
      if c =? ch " " then inl (Replacing data (i + 1) l level num state ret)
      else if c =? ch "," then inl (Replacing data (i + 1) l level next_num ZBX_STATE_NEW ret)
      else if c =? ch "]" then
        if level =? 0 then inr x else inl (Replacing data (i + 1) l (level - 1) num state ret)
      else inr x
    | ZBX_STATE_UNQUOTED =>
      if (c =? ch "]") || (c =? ch ",") then
        let '(ret, data, i) := replace_key_param cb data l i level num false in
        inl (Replacing data i l level num ZBX_STATE_END ret)
      else inl (Replacing data (i + 1) l level num state ret)
    | ZBX_STATE_QUOTED =>
      if (c =? QUOTE) && negb (chr data (i - 1) =? ch "\") then
        let '(ret, data, i) := replace_key_param cb data l (i + 1) level num true in
        inl (Replacing data i l level num ZBX_STATE_END ret)
      else inl (Replacing data (i + 1) l level num state ret)
    end.

(** From the end of the name, at [i], on. *)
Definition parse_params (cb : replace_key_param_f) (data : list Z) (i : nat) : res replacing :=
  let '(ret, data, i) := replace_key_param cb data 0 i 0 0 false in
  loop (2 * length data + 2) (parse_params_body cb) (Replacing data i 0 0 0 ZBX_STATE_NEW ret).

(** zbx_replace_key_params_dyn for an item key: SUCCEED or FAIL, and the key. *)
Definition zbx_replace_key_params_dyn (cb : replace_key_param_f) (data : list Z) : res (bool * list Z) :=
  let i := length (take_while zbx_is_key_char data) in
  if (i =? 0)%nat || (negb (chr data i =? ch "[") && negb (chr data i =? 0)) then
    Ret (false, data)
  else
    x ← parse_params cb data i;
    Ret (if (k_i x =? 0)%nat || negb (chr (k_data x) (k_i x) =? 0) || negb (k_level x =? 0) then false else k_ret x, k_data x).

(** zbx_substitute_item_key_params: the name itself is not asked for. *)
Definition zbx_substitute_item_key_params (cb : replace_key_param_f) (data : list Z) : res (bool * list Z) :=
  zbx_replace_key_params_dyn (fun text level num quoted => if level =? 0 then (true, None) else cb text level num quoted) data.

(* ------------------------------------------------------------------ *)
(** ** Examples *)

Definition txt (s : string) : list Z := bytes_of s.

(** Text may follow the closing bracket of a key whose parameters are
    replaced, while zbx_parse_key ends there. *)
Example replace_accepts_more :
  zbx_replace_key_params_dyn (fun _ _ _ _ => (true, None)) (txt "key[a],b") = Ret (true, txt "key[a],b") /\
  zbx_parse_key (txt "key[a],b") = Ret (true, txt ",b") /\ zbx_parse_item_key (txt "key[a],b") = Ret None.
Proof. vm_compute. done. Qed.

(** A parameter that is a single quote. *)
Example unquote_lone_quote : zbx_unquote_key_param [QUOTE] = Undef.
Proof. reflexivity. Qed.

Example item_key_parts :
  zbx_parse_item_key (txt "k[a , [b,c],'']") =
    Ret (Some (Request (txt "k") [Some (txt "a ", REQUEST_PARAMETER_TYPE_STRING);
      Some (txt "b,c", REQUEST_PARAMETER_TYPE_ARRAY); Some (txt "''", REQUEST_PARAMETER_TYPE_STRING)])).
Proof. vm_compute. done. Qed.
