(* ===== verification/ExprKeyGrammar.v ===== *)
(** The grammar of item keys, and that zbx_parse_key and zbx_num_param accept
    exactly its texts.  Both are instances of one machine that differs in what
    ends a list of parameters: a closing bracket, or the end of the text. *)

From Stdlib Require Import ZArith Lia.
From S2P Require Import Prelude ExprScan ExprKey.
From stdpp Require Import base list numbers strings relations.

Open Scope Z_scope.
Import CharConst.

(* ------------------------------------------------------------------ *)
(** ** Grammar *)

(** A parameter that is not an array: spaces and a text without quotes, or
    spaces, a quoted text and spaces. *)
Inductive elem :=
  | EUnquoted (before : nat) (s : list Z)
  | EQuoted (before : nat) (s : list Z) (after : nat).

Inductive param :=
  | PElem (e : elem)
  | PArray (before : nat) (e : elem) (es : list elem) (after : nat).

Definition elem_text (e : elem) : list Z :=
  match e with
  | EUnquoted n s => spaces n ++ s
  | EQuoted n s m => spaces n ++ QUOTE :: escape_quotes s ++ QUOTE :: spaces m
  end.

(** [commas x xs]: the texts with commas between them. *)
Fixpoint commas (x : list Z) (xs : list (list Z)) : list Z :=
  match xs with
  | [] => x
  | y :: ys => x ++ ch "," :: commas y ys
  end.

Definition param_text (p : param) : list Z :=
  match p with
  | PElem e => elem_text e
  | PArray n e es m => spaces n ++ ch "[" :: commas (elem_text e) (elem_text <$> es) ++ ch "]" :: spaces m
  end.

Definition params_text (p : param) (ps : list param) : list Z := commas (param_text p) (param_text <$> ps).

(** Where a text without quotes may begin and what it may hold. *)
Definition unquoted_start (c : Z) : bool :=
  negb (c =? ch " ") && negb (c =? QUOTE) && negb (c =? ch ",") && negb (c =? ch "[") && negb (c =? ch "]").
Definition unquoted_char (c : Z) : bool := negb (c =? ch ",") && negb (c =? ch "]").

Definition elem_ok (e : elem) : Prop :=
  match e with
  | EUnquoted _ s => Forall (fun c => unquoted_char c = true) s /\ (s = [] \/ unquoted_start (hd0 s) = true)
  | EQuoted _ s _ => ends_with_backslash s = false
  end.

Definition param_ok (p : param) : Prop :=
  match p with
  | PElem e => elem_ok e
  | PArray _ e es _ => elem_ok e /\ Forall elem_ok es
  end.

(* ------------------------------------------------------------------ *)
(** ** One machine for both parsers *)

Definition scan : Type := pstate * bool * Z * list Z.

Section Machine.
  (** What ends the list of parameters; [n] counts them. *)
  Context (term : list Z -> bool) (term_cons : forall c p, term (c :: p) = true -> c = ch "]").

Definition scan_body (x : scan) : scan + option (Z * list Z) :=
  let '(state, array, n, s) := x in
  match state with
  | Init =>
    if term s && negb array then inr (Some (n, s))
    else
      match s with
      | [] => inr None
      | c :: p =>
        if c =? ch "," then inl (Init, array, (if array then n else n + 1), p)
        else if c =? QUOTE then inl (Quoted, array, n, p)
        else if c =? ch "[" then if array then inr None else inl (Init, true, n, p)
        else if c =? ch "]" then
          if array && (term (skip_spaces p) || (hd0 (skip_spaces p) =? ch ",")) then inl (Init, false, n, skip_spaces p)
          else inr None
        else if negb (c =? ch " ") then inl (Unquoted, array, n, p) else inl (Init, array, n, p)
      end
  | Quoted =>
    match s with
    | [] => inr None
    | c :: p =>
      if c =? QUOTE then
        let q := skip_spaces p in
        if (negb array && term q) || (hd0 q =? ch ",") || (array && (hd0 q =? ch "]")) then inl (Init, array, n, q)
        else inr None
      else if (c =? ch "\") && (hd0 p =? QUOTE) then inl (Quoted, array, n, tail p)
      else inl (Quoted, array, n, p)
    end
  | Unquoted =>
    if term s && negb array then inr (Some (n, s))
    else
      match s with
      | [] => inr None
      | c :: p =>
        if (c =? ch ",") || ((c =? ch "]") && array) then inl (Init, array, n, s)
        else if c =? ch "]" then inr None
        else inl (Unquoted, array, n, p)
      end
  end.

(** What may follow a parameter. *)
Definition stop (array : bool) (t : list Z) : Prop :=
  (array = false /\ term t = true) \/ hd0 t = ch "," \/ (array = true /\ hd0 t = ch "]").

Definition resting (state : pstate) : Prop := state = Init \/ state = Unquoted.

Lemma term_not (c : Z) (p : list Z) : c <> ch "]" -> term (c :: p) = false.
Proof. intros H. destruct (term (c :: p)) eqn:E; [|done]. by apply term_cons in E. Qed.

Lemma spaces_steps (k : nat) (array : bool) (n : Z) (s : list Z) :
  steps scan_body (Init, array, n, spaces k ++ s) (Init, array, n, s).
Proof.
  induction k as [|k IH]; [done|]. eapply rtc_l; [|exact IH]. change (spaces (S k) ++ s) with (32 :: spaces k ++ s).
  cbn [scan_body]. by rewrite (term_not 32) by done.
Qed.

Lemma unquoted_steps (w : list Z) (array : bool) (n : Z) (t : list Z) :
  Forall (fun c => unquoted_char c = true) w -> steps scan_body (Unquoted, array, n, w ++ t) (Unquoted, array, n, t).
Proof.
  induction 1 as [|c w Hc _ IH]; [done|]. eapply rtc_l; [|exact IH]. cbn [app scan_body].
  unfold unquoted_char in Hc. apply andb_true_iff in Hc as [H1%negb_true_iff H2%negb_true_iff].
  rewrite (term_not c) by (by apply Z.eqb_neq). by rewrite H1, H2.
Qed.

Lemma escape_hd (w : list Z) (t : list Z) : w <> [] -> hd0 (escape_quotes w ++ t) <> QUOTE.
Proof. destruct w as [|c w]; [done|]. intros _. cbn. by destruct (Z.eqb_spec c QUOTE). Qed.

Lemma quoted_steps (w : list Z) (array : bool) (n : Z) (t : list Z) :
  ends_with_backslash w = false ->
  steps scan_body (Quoted, array, n, escape_quotes w ++ QUOTE :: t) (Quoted, array, n, QUOTE :: t).
Proof.
  intros Hb. apply bool_decide_eq_false in Hb. induction w as [|c w IH]; [done|]. cbn [escape_quotes].
  assert (Hw : list.last w <> Some (ch "\")) by (destruct w; [done|exact Hb]). specialize (IH Hw).
  destruct (Z.eqb_spec c QUOTE) as [-> | Hc].
  - eapply rtc_l; [|exact IH]. reflexivity.
  - eapply rtc_l; [|exact IH]. cbn [app scan_body]. rewrite (proj2 (Z.eqb_neq _ _) Hc).
    destruct (Z.eqb_spec c (ch "\")) as [-> | Hc2]; [|done].
    destruct w as [|c' w]; [done|]. pose proof (escape_hd (c' :: w) (QUOTE :: t) ltac:(done)) as Hh.
    by rewrite (proj2 (Z.eqb_neq _ _) Hh).
Qed.

Lemma stop_hd (array : bool) (t : list Z) : stop array t -> hd0 t <> 32.
Proof.
  intros [[_ H] | [H | [_ H]]].
  - destruct t as [|c p]; [done|]. apply term_cons in H as ->. done.
  - by rewrite H.
  - by rewrite H.
Qed.

Lemma stop_test (array : bool) (t : list Z) :
  stop array t <-> (negb array && term t) || (hd0 t =? ch ",") || (array && (hd0 t =? ch "]")) = true.
Proof.
  unfold stop. rewrite !orb_true_iff, !andb_true_iff, !Z.eqb_eq, negb_true_iff. tauto.
Qed.

(** A parameter is passed over. *)
Lemma elem_steps (e : elem) (array : bool) (n : Z) (t : list Z) :
  elem_ok e -> stop array t ->
  exists state, resting state /\ steps scan_body (Init, array, n, elem_text e ++ t) (state, array, n, t).
Proof.
  intros He Ht. destruct e as [k w | k w m]; cbn [elem_text elem_ok] in *.
  - rewrite <- app_assoc. destruct He as [Hw [-> | Hs]].
    + exists Init. split; [by left|apply spaces_steps].
    + destruct w as [|c w]; [exists Init; split; [by left|apply spaces_steps]|].
      exists Unquoted. split; [by right|]. etrans; [apply spaces_steps|]. cbn [app hd0] in *.
      eapply rtc_l; [|apply unquoted_steps; by inversion Hw]. cbn [scan_body].
      unfold unquoted_start in Hs. rewrite !andb_true_iff, !negb_true_iff in Hs.
      destruct Hs as [[[[H1 H2] H3] H4] H5]. rewrite (term_not c) by (by apply Z.eqb_neq).
      by rewrite H1, H2, H3, H4, H5.
  - exists Init. split; [by left|]. rewrite <- app_assoc. etrans; [apply spaces_steps|]. cbn [app].
    eapply rtc_l with (Quoted, array, n, escape_quotes w ++ QUOTE :: spaces m ++ t).
    { cbn [scan_body]. rewrite (term_not QUOTE) by done. by rewrite <- app_assoc. }
    etrans; [by apply quoted_steps|]. apply steps_one. cbn [scan_body].
    rewrite skip_spaces_app, skip_spaces_stop by (by eapply stop_hd). apply stop_test in Ht. by rewrite Ht.
Qed.

Lemma comma_step (state : pstate) (array : bool) (n : Z) (t : list Z) :
  resting state ->
  steps scan_body (state, array, n, ch "," :: t) (Init, array, (if array then n else n + 1), t).
Proof.
  assert (H : scan_body (Init, array, n, ch "," :: t) = inl (Init, array, (if array then n else n + 1), t)).
  { cbn [scan_body]. by rewrite term_not by done. }
  intros [-> | ->]; [by apply steps_one|]. eapply rtc_l; [|by apply steps_one]. cbn [scan_body]. by rewrite term_not by done.
Qed.

Lemma elems_steps (e : elem) (es : list elem) (n : Z) (t : list Z) :
  elem_ok e -> Forall elem_ok es ->
  exists state, resting state /\
    steps scan_body (Init, true, n, commas (elem_text e) (elem_text <$> es) ++ ch "]" :: t) (state, true, n, ch "]" :: t).
Proof.
  intros He Hes. revert e He. induction Hes as [|e' es He' _ IH]; intros e He; cbn [fmap list_fmap commas].
  - apply elem_steps; [done|]. right. by right.
  - rewrite <- app_assoc. cbn [app].
    destruct (elem_steps e true n (ch "," :: commas (elem_text e') (elem_text <$> es) ++ ch "]" :: t) He) as (st & Hst & H1).
    { right. by left. }
    destruct (IH e' He') as (st' & Hst' & H2). exists st'. split; [done|].
    etrans; [exact H1|]. etrans; [by apply comma_step|]. exact H2.
Qed.

Lemma param_steps (p : param) (n : Z) (t : list Z) :
  param_ok p -> stop false t ->
  exists state, resting state /\ steps scan_body (Init, false, n, param_text p ++ t) (state, false, n, t).
Proof.
  destruct p as [e | k e es m]; intros Hp Ht; [by apply elem_steps|]. destruct Hp as [He Hes].
  exists Init. split; [by left|]. cbn [param_text]. rewrite <- app_assoc. etrans; [apply spaces_steps|]. cbn [app].
  rewrite <- app_assoc. cbn [app].
  destruct (elems_steps e es n (spaces m ++ t) He Hes) as (st & Hst & H).
  eapply rtc_l; [cbn [scan_body]; rewrite term_not by done; reflexivity|]. etrans; [exact H|].
  assert (Hend : scan_body (Init, true, n, ch "]" :: spaces m ++ t) = inl (Init, false, n, t)).
  { cbn [scan_body]. rewrite andb_false_r, skip_spaces_app, skip_spaces_stop by (by eapply stop_hd). apply stop_test in Ht.
    cbn in Ht. rewrite orb_false_r in Ht. cbn. by rewrite Ht. }
  destruct Hst as [-> | ->]; [by apply steps_one|]. eapply rtc_l; [|by apply steps_one].
  cbn [scan_body]. by rewrite andb_false_r.
Qed.

Lemma term_end (state : pstate) (n : Z) (t : list Z) :
  resting state -> term t = true -> runs scan_body (state, false, n, t) (Some (n, t)).
Proof. intros [-> | ->] Ht; constructor; cbn [scan_body]; by rewrite Ht. Qed.

(** The machine accepts a list of parameters. *)
Lemma params_runs (p : param) (ps : list param) (n : Z) (t : list Z) :
  param_ok p -> Forall param_ok ps -> term t = true ->
  runs scan_body (Init, false, n, params_text p ps ++ t) (Some (n + Z.of_nat (length ps), t)).
Proof.
  intros Hp Hps Ht. unfold params_text. revert p Hp n. induction Hps as [|p' ps Hp' _ IH]; intros p Hp n; cbn [fmap list_fmap commas].
  - destruct (param_steps p n t Hp) as (st & Hst & H); [by left|]. eapply runs_steps; [exact H|].
    rewrite Z.add_0_r. by apply term_end.
  - rewrite <- app_assoc. cbn [app].
    destruct (param_steps p n (ch "," :: commas (param_text p') (param_text <$> ps) ++ t) Hp) as (st & Hst & H).
    { right. by left. }
    eapply runs_steps; [etrans; [exact H|by apply comma_step]|]. cbv beta iota.
    replace (n + Z.of_nat (length (p' :: ps))) with (n + 1 + Z.of_nat (length ps)) by (cbn [length]; lia). by apply IH.
Qed.

(* ------------------------------------------------------------------ *)
(** What the machine accepts is a list of parameters. *)

Definition accepts (x : scan) (o : Z * list Z) : Prop := runs scan_body x (Some o).

Lemma accepts_fail (x : scan) (o : Z * list Z) : scan_body x = inr None -> ~ accepts x o.
Proof. intros E H. by apply (runs_last _ _ _ E) in H. Qed.

Lemma accepts_step (x y : scan) (o : Z * list Z) : scan_body x = inl y -> accepts x o -> accepts y o.
Proof. apply runs_inv. Qed.

Lemma accepts_steps (x y : scan) (o : Z * list Z) : steps scan_body x y -> accepts x o -> accepts y o.
Proof. apply runs_after. Qed.

Lemma quoted_inv (array : bool) (n : Z) (s : list Z) (o : Z * list Z) :
  accepts (Quoted, array, n, s) o ->
  exists w t m, ends_with_backslash w = false /\ s = escape_quotes w ++ QUOTE :: spaces m ++ t /\ stop array t /\
    accepts (Init, array, n, t) o.
Proof.
  remember (length s) as len eqn:Hlen. revert s Hlen. induction (lt_wf len) as [len _ IH]. intros s -> H.
  destruct s as [|c p]; [by apply accepts_fail in H|]. destruct (Z.eqb_spec c QUOTE) as [-> | Hc].
  - exists [], (skip_spaces p). destruct (skip_spaces_eq p) as [m Hm]. exists m.
    destruct ((negb array && term (skip_spaces p)) || (hd0 (skip_spaces p) =? ch ",") ||
              (array && (hd0 (skip_spaces p) =? ch "]"))) eqn:E.
    + split_and!; [done|by rewrite <- Hm|by apply stop_test|]. eapply accepts_step; [|exact H]. cbn [scan_body]. by rewrite E.
    + exfalso. eapply accepts_fail; [|exact H]. cbn [scan_body]. by rewrite E.
  - destruct ((c =? ch "\") && (hd0 p =? QUOTE)) eqn:E.
    + pose proof E as E'. apply andb_true_iff in E as [->%Z.eqb_eq Hq%Z.eqb_eq]. destruct p as [|c' p']; [done|]. cbn in Hq. subst c'.
      eapply (accepts_step _ (Quoted, array, n, p')) in H; [|reflexivity].
      destruct (IH (length p') ltac:(cbn; lia) p' eq_refl H) as (w & t & m & Hw & -> & Ht & Ha).
      exists (QUOTE :: w), t, m. split_and!; try done. unfold ends_with_backslash in *.
      apply bool_decide_eq_false in Hw. apply bool_decide_eq_false. by destruct w.
    + eapply (accepts_step _ (Quoted, array, n, p)) in H; [|cbn [scan_body]; by rewrite (proj2 (Z.eqb_neq _ _) Hc), E].
      destruct (IH (length p) ltac:(cbn; lia) p eq_refl H) as (w & t & m & Hw & -> & Ht & Ha).
      exists (c :: w), t, m. cbn [escape_quotes]. rewrite (proj2 (Z.eqb_neq _ _) Hc). split_and!; try done.
      unfold ends_with_backslash in *. apply bool_decide_eq_false in Hw. apply bool_decide_eq_false. destruct w; [|done].
      intros [= ->]. by rewrite Z.eqb_refl in E.
Qed.

Lemma unquoted_inv (array : bool) (n : Z) (s : list Z) (o : Z * list Z) :
  accepts (Unquoted, array, n, s) o ->
  exists w t, Forall (fun c => unquoted_char c = true) w /\ s = w ++ t /\ stop array t /\ accepts (Unquoted, array, n, t) o.
Proof.
  intros H. exists (take_while unquoted_char s), (skip_while unquoted_char s).
  assert (Ha : accepts (Unquoted, array, n, skip_while unquoted_char s) o).
  { eapply accepts_steps; [|exact H]. rewrite <- (take_skip unquoted_char s) at 1. apply unquoted_steps, take_while_all. }
  split_and!; [apply take_while_all|by rewrite take_skip| |done].
  destruct (skip_while unquoted_char s) as [|c t] eqn:E.
  - destruct (term [] && negb array) eqn:Et; [left; apply andb_true_iff in Et as [? ?%negb_true_iff]; done|].
    exfalso. eapply accepts_fail; [|exact Ha]. cbn [scan_body]. by rewrite Et.
  - apply skip_while_head in E. unfold unquoted_char in E. apply andb_false_iff in E.
    destruct (Z.eqb_spec c (ch ",")) as [-> | Hc]; [right; by left|]. destruct E as [|E%negb_false_iff%Z.eqb_eq]; [done|]. subst c.
    destruct array; [right; by right|]. left. split; [done|]. destruct (term (ch "]" :: t)) eqn:Et; [done|].
    exfalso. eapply accepts_fail; [|exact Ha]. cbn [scan_body]. by rewrite Et.
Qed.

Lemma elem_inv (array : bool) (n : Z) (s : list Z) (o : Z * list Z) :
  accepts (Init, array, n, s) o -> array = true \/ hd0 (skip_spaces s) <> ch "[" ->
  exists e t state, elem_ok e /\ s = elem_text e ++ t /\ stop array t /\ resting state /\ accepts (state, array, n, t) o.
Proof.
  intros H Hb. destruct (skip_spaces_eq s) as [k Hk]. set (t := skip_spaces s) in *. rewrite Hk in H.
  apply (accepts_steps _ (Init, array, n, t)) in H; [|apply spaces_steps].
  assert (Hhd : hd0 t <> 32) by apply skip_spaces_hd. clearbody t. subst s.
  assert (Hempty : stop array t ->
    exists e t' state, elem_ok e /\ spaces k ++ t = elem_text e ++ t' /\ stop array t' /\ resting state /\ accepts (state, array, n, t') o).
  { intros Hs. exists (EUnquoted k []), t, Init. cbn. rewrite app_nil_r. split_and!; try done; by (constructor || left). }
  destruct (term t && negb array) eqn:Et.
  { apply Hempty. left. by apply andb_true_iff in Et as [? ?%negb_true_iff]. }
  destruct t as [|c p]; [exfalso; eapply accepts_fail; [|exact H]; cbn [scan_body]; by rewrite Et|]. cbn [hd0] in *.
  destruct (Z.eqb_spec c (ch ",")) as [-> | H1]; [apply Hempty; right; by left|].
  destruct (Z.eqb_spec c QUOTE) as [-> | H2].
  { eapply (accepts_step _ (Quoted, array, n, p)) in H; [|cbn [scan_body]; by rewrite Et].
    apply quoted_inv in H as (w & t & m & Hw & -> & Ht & Ha). exists (EQuoted k w m), t, Init.
    cbn [elem_text elem_ok]. split_and!; try done; [|by left].
    repeat (rewrite <- app_assoc; cbn [app]). done. }
  destruct (Z.eqb_spec c (ch "[")) as [-> | H3].
  { destruct Hb as [-> | Hb]; [|done]. exfalso. eapply accepts_fail; [|exact H]. cbn [scan_body]. by rewrite Et. }
  destruct (Z.eqb_spec c (ch "]")) as [-> | H4].
  { destruct array; [apply Hempty; right; by right|]. exfalso. eapply accepts_fail; [|exact H]. cbn [scan_body]. by rewrite Et. }
  eapply (accepts_step _ (Unquoted, array, n, p)) in H.
  2: { cbn [scan_body]. rewrite Et. by rewrite !(proj2 (Z.eqb_neq _ _)). }
  apply unquoted_inv in H as (w & t & Hw & -> & Ht & Ha). exists (EUnquoted k (c :: w)), t, Unquoted.
  cbn [elem_text elem_ok]. split_and!; try done.
  - constructor; [|done]. unfold unquoted_char. by rewrite !(proj2 (Z.eqb_neq _ _)).
  - right. unfold unquoted_start. cbn [hd0]. by rewrite !(proj2 (Z.eqb_neq _ _)).
  - by rewrite <- app_assoc.
  - by right.
Qed.

Lemma comma_inv (state : pstate) (array : bool) (n : Z) (t : list Z) (o : Z * list Z) :
  resting state -> accepts (state, array, n, ch "," :: t) o -> accepts (Init, array, (if array then n else n + 1), t) o.
Proof. intros Hst. apply accepts_steps. by apply comma_step. Qed.

Lemma stop_array (array : bool) (t : list Z) :
  stop array t -> (array = false /\ term t = true) \/ (exists t', t = ch "," :: t') \/ (array = true /\ exists t', t = ch "]" :: t').
Proof.
  intros [H | [H | [-> H]]]; [by left|right; left|right; right; split; [done|]];
    (destruct t as [|c t']; [done|]; cbn in H; subst c; by exists t').
Qed.

Lemma elems_inv (n : Z) (s : list Z) (o : Z * list Z) :
  accepts (Init, true, n, s) o ->
  exists e es t m, elem_ok e /\ Forall elem_ok es /\ s = commas (elem_text e) (elem_text <$> es) ++ ch "]" :: spaces m ++ t /\
    stop false t /\ accepts (Init, false, n, t) o.
Proof.
  remember (length s) as len eqn:Hlen. revert s Hlen. induction (lt_wf len) as [len _ IH]. intros s -> H.
  destruct (elem_inv _ _ _ _ H ltac:(by left)) as (e & t & st & He & -> & Ht & Hst & Ha).
  apply stop_array in Ht as [[? _] | [[t' ->] | [_ [t' ->]]]]; [done| |].
  - apply (comma_inv _ _ _ _ _ Hst) in Ha. cbn in Ha.
    destruct (IH (length t')) with (s := t') as (e' & es & t & m & He' & Hes & -> & Ht & Ha'); [|done|done|].
    { rewrite length_app. cbn. lia. }
    exists e, (e' :: es), t, m. split_and!; try done; [by constructor|]. cbn [fmap list_fmap commas]. by rewrite <- !app_assoc.
  - assert (Ha' : accepts (Init, true, n, ch "]" :: t') o).
    { destruct Hst as [-> | ->]; [done|]. eapply accepts_step; [|exact Ha]. cbn [scan_body]. by rewrite andb_false_r. }
    destruct (skip_spaces_eq t') as [m Hm]. exists e, [], (skip_spaces t'), m. cbn [fmap list_fmap commas].
    destruct (term (skip_spaces t') || (hd0 (skip_spaces t') =? ch ",")) eqn:E.
    + split_and!; [done|by constructor|by rewrite <- Hm| |].
      * apply stop_test. cbn. by rewrite E.
      * eapply accepts_step; [|exact Ha']. cbn [scan_body]. rewrite andb_false_r. cbn. by rewrite E.
    + exfalso. eapply accepts_fail; [|exact Ha']. cbn [scan_body]. rewrite andb_false_r. cbn. by rewrite E.
Qed.

Lemma param_inv (n : Z) (s : list Z) (o : Z * list Z) :
  accepts (Init, false, n, s) o ->
  exists p t state, param_ok p /\ s = param_text p ++ t /\ stop false t /\ resting state /\ accepts (state, false, n, t) o.
Proof.
  intros H. destruct (decide (hd0 (skip_spaces s) = ch "[")) as [E | E].
  - destruct (skip_spaces_eq s) as [k Hk]. rewrite Hk in H.
    apply (accepts_steps _ (Init, false, n, skip_spaces s)) in H; [|apply spaces_steps].
    destruct (skip_spaces s) as [|c t]; [done|]. cbn in E. subst c s.
    eapply (accepts_step _ (Init, true, n, t)) in H; [|cbn [scan_body]; by rewrite term_not by done].
    apply elems_inv in H as (e & es & t' & m & He & Hes & -> & Ht & Ha). exists (PArray k e es m), t', Init.
    cbn [param_text]. split_and!; try done; [|by left]. by repeat (rewrite <- app_assoc; cbn [app]).
  - destruct (elem_inv _ _ _ _ H ltac:(by right)) as (e & t & st & He & -> & Ht & Hst & Ha). by exists (PElem e), t, st.
Qed.

Lemma params_inv (n : Z) (s : list Z) (o : Z * list Z) :
  accepts (Init, false, n, s) o ->
  exists p ps t, param_ok p /\ Forall param_ok ps /\ s = params_text p ps ++ t /\ term t = true /\
    o = (n + Z.of_nat (length ps), t).
Proof.
  remember (length s) as len eqn:Hlen. revert s n Hlen. induction (lt_wf len) as [len _ IH]. intros s n -> H.
  destruct (param_inv _ _ _ H) as (p & t & st & Hp & -> & Ht & Hst & Ha).
  apply stop_array in Ht as [[_ Ht] | [[t' ->] | [? _]]]; [| |done].
  - exists p, [], t. split_and!; [done|by constructor|done|done|]. pose proof (term_end st n t Hst Ht) as E.
    pose proof (runs_det _ _ _ _ E Ha) as [= <-]. f_equal. cbn. lia.
  - apply (comma_inv _ _ _ _ _ Hst) in Ha. cbn in Ha.
    destruct (IH (length t')) with (s := t') (n := n + 1) as (p' & ps & t & Hp' & Hps & -> & Ht & ->); [|done|done|].
    { rewrite length_app. cbn. lia. }
    exists p, (p' :: ps), t. split_and!; try done; [by constructor| |f_equal; cbn [length]; lia].
    unfold params_text. cbn [fmap list_fmap commas]. by rewrite <- !app_assoc.
Qed.

(** The machine accepts exactly the texts of the grammar. *)
Lemma scan_exact (n : Z) (s : list Z) (k : Z) (t : list Z) :
  runs scan_body (Init, false, n, s) (Some (k, t)) <->
  exists p ps, param_ok p /\ Forall param_ok ps /\ s = params_text p ps ++ t /\ term t = true /\ k = n + Z.of_nat (length ps).
Proof.
  split.
  - intros (p & ps & t' & Hp & Hps & -> & Ht & [= -> ->])%params_inv. by exists p, ps.
  - intros (p & ps & Hp & Hps & -> & Ht & ->). by apply params_runs.
Qed.
End Machine.
