(* ===== verification/ExprKeyParse.v ===== *)
(** zbx_parse_key and zbx_num_param accept exactly the grammar of keys, and
    what zbx_get_param takes from a list of parameters. *)

From Stdlib Require Import ZArith Lia ZifyBool.
From S2P Require Import Prelude ExprScan ExprKey ExprKeyGrammar.
From stdpp Require Import base list numbers strings relations.

Open Scope Z_scope.
Import CharConst.

(* ------------------------------------------------------------------ *)
(** ** zbx_parse_key and zbx_num_param *)

Definition term_key (s : list Z) : bool := hd0 s =? ch "]".
Definition term_num (s : list Z) : bool := match s with [] => true | _ => false end.

Lemma term_key_cons (c : Z) (p : list Z) : term_key (c :: p) = true -> c = ch "]".
Proof. apply Z.eqb_eq. Qed.
Lemma term_num_cons (c : Z) (p : list Z) : term_num (c :: p) = true -> c = ch "]".
Proof. done. Qed.

(** The rounds still to come of a parser: a character is looked at twice when
    a parameter without quotes ends. *)
Definition rounds (state : pstate) (s : list Z) : nat := (2 * length s + match state with Unquoted => 1 | _ => 0 end)%nat.

Lemma tail_length (s : list Z) : (length (tail s) <= length s)%nat.
Proof. destruct s; cbn; lia. Qed.

Lemma skip_spaces_length (s : list Z) : (length (skip_spaces s) <= length s)%nat.
Proof. apply skip_while_length. Qed.

(** Follows the tests of one round in both machines. *)
Ltac parser_cases :=
  repeat match goal with
  | |- context [if ?b then _ else _] => destruct b eqn:?
  | H : context [if ?b then _ else _] |- _ => destruct b eqn:?
  end.

Ltac parser_rounds :=
  repeat match goal with
  | H : inl _ = inl _ |- _ => injection H; clear H; intros; subst
  | H : inr _ = inl _ |- _ => discriminate H
  end;
  unfold rounds; cbn [length];
  repeat match goal with
  | |- context [skip_spaces ?p] => lazymatch goal with
      | _ : (length (skip_spaces p) <= length p)%nat |- _ => fail
      | _ => pose proof (skip_spaces_length p)
      end
  | |- context [tail ?p] => lazymatch goal with
      | _ : (length (tail p) <= length p)%nat |- _ => fail
      | _ => pose proof (tail_length p)
      end
  end; lia.

Lemma parse_key_rounds (x y : pstate * bool * list Z) :
  parse_key_body x = inl y -> (rounds y.1.1 y.2 < rounds x.1.1 x.2)%nat.
Proof.
  destruct x as [[st a] s], y as [[st' a'] s']. cbn [fst snd parse_key_body]. intros H.
  destruct s as [|c p]; [done|]. destruct st; parser_cases; parser_rounds.
Qed.

Lemma num_param_rounds (x y : scan) :
  num_param_body x = inl y -> (rounds y.1.1.1 y.2 < rounds x.1.1.1 x.2)%nat.
Proof.
  destruct x as [[[st a] n] s], y as [[[st' a'] n'] s']. cbn [fst snd num_param_body]. intros H.
  destruct s as [|c p]; [done|]. destruct st; parser_cases; parser_rounds.
Qed.

(** zbx_parse_key takes the steps of the machine that ends at a closing
    bracket. *)
Lemma hd0_cons (s : list Z) (c : Z) : c <> 0 -> (hd0 s =? c) = true -> s = c :: tail s.
Proof. intros Hc H%Z.eqb_eq. destruct s as [|x s]; [done|]. cbn in *. by subst. Qed.

#[local] Arguments scan_body : simpl never.

(** States what a machine does in a state as a hypothesis with its body. *)
Ltac unfold_step term :=
  match goal with
  | |- context [scan_body term ?x] =>
    let t := eval cbv beta iota zeta delta [scan_body] in (scan_body term x) in
    assert (scan_body term x = t) by reflexivity
  end.

(** Distinguishes the characters that are tested. *)
Ltac on_char c :=
  destruct (Z.eqb_spec c 44) as [-> | ?]; [|destruct (Z.eqb_spec c 34) as [-> | ?]; [|
  destruct (Z.eqb_spec c 91) as [-> | ?]; [|destruct (Z.eqb_spec c 93) as [-> | ?]; [|
  destruct (Z.eqb_spec c 32) as [-> | ?]; [|destruct (Z.eqb_spec c 92) as [-> | ?]]]]]].

Lemma term_key_at (s : list Z) : term_key s = (hd0 s =? 93).
Proof. reflexivity. Qed.
Lemma term_num_at (c : Z) (p : list Z) : term_num (c :: p) = false.
Proof. reflexivity. Qed.

Ltac known_chars :=
  repeat match goal with
  | H : ?x <> ?k |- _ => apply Z.eqb_neq in H
  end;
  repeat match goal with
  | H : (?x =? ?k) = _ |- context [?x =? ?k] => rewrite H
  | H : (?x =? ?k) = _, H' : context [?x =? ?k] |- _ => lazymatch H' with H => fail | _ => rewrite H in H' end
  end; cbn in *; rewrite ?term_key_at, ?term_num_at in *; cbn in *;
  repeat match goal with
  | H : (?x =? ?k) = _, H' : context [?x =? ?k] |- _ => lazymatch H' with H => fail | _ => rewrite H in H' end
  end; cbn in *.

Lemma parse_key_step (st : pstate) (a : bool) (n : Z) (s : list Z) :
  match parse_key_body (st, a, s) with
  | inl (st', a', s') => exists n', steps (scan_body term_key) (st, a, n, s) (st', a', n', s')
  | inr (true, r) => scan_body term_key (st, a, n, s) = inr (Some (n, ch "]" :: r)) \/
    scan_body term_key (st, a, n, s) = inl (Init, false, n, ch "]" :: r)
  | inr (false, _) => scan_body term_key (st, a, n, s) = inr None
  end.
Proof.
  destruct s as [|c p]; [by destruct st, a|]. destruct st; unfold_step term_key.
  - on_char c; destruct a; cbn in *; known_chars; eauto using steps_one.
    destruct (hd0 (skip_spaces p) =? 93) eqn:E1; cbn in *.
    { right. by rewrite <- (hd0_cons _ 93 ltac:(done) E1). }
    destruct (hd0 (skip_spaces p) =? 44) eqn:E2; cbn in *; [|done].
    exists (n + 1). apply (hd0_cons _ 44) in E2; [|done]. rewrite E2 in *. cbn in *.
    eapply rtc_l; [eassumption|]. apply (comma_step _ term_key_cons Init false n). by left.
  - on_char c; cbn in *; known_chars; eauto using steps_one.
    + destruct (hd0 (skip_spaces p) =? 93) eqn:E1, (hd0 (skip_spaces p) =? 44) eqn:E2, a; cbn in *; eauto using steps_one.
      1, 2: right; by rewrite <- (hd0_cons _ 93 ltac:(done) E1).
    + destruct (hd0 p =? 34); cbn in *; eauto using steps_one.
  - on_char c; destruct a; cbn in *; known_chars; eauto using steps_one.
Qed.

Lemma text_end (q : list Z) : is_text q -> (hd0 q =? 0) = term_num q.
Proof. destruct q as [|c q]; [done|]. intros H. inversion H. cbn. by apply Z.eqb_neq. Qed.

Lemma text_skip (p : list Z) : is_text p -> is_text (skip_spaces p).
Proof. destruct (skip_spaces_eq p) as [k E]. intros H. rewrite E in H. by apply Forall_app in H as [_ H]. Qed.

Lemma text_tail (p : list Z) : is_text p -> is_text (tail p).
Proof. destruct p; [done|]. by inversion 1. Qed.

(** zbx_num_param takes the steps of the machine that ends with the text, but
    for one step before it fails. *)
Lemma num_param_step (st : pstate) (a : bool) (n : Z) (s : list Z) :
  is_text s ->
  match num_param_body (st, a, n, s) with
  | inl y => (scan_body term_num (st, a, n, s) = inl y /\ is_text y.2) \/
    (y = (Init, true, n, []) /\ scan_body term_num (st, a, n, s) = inr None)
  | inr k => (k = n /\ scan_body term_num (st, a, n, s) = inr (Some (n, []))) \/
    (k = 0 /\ scan_body term_num (st, a, n, s) = inr None)
  end.
Proof.
  destruct s as [|c p]; [destruct st, a; cbn; auto|]. intros Ht. assert (Hp : is_text p) by by inversion Ht.
  pose proof (text_end _ (text_skip _ Hp)) as Hq. pose proof (text_skip _ Hp) as Hq'. pose proof (text_tail _ Hp) as Htl.
  destruct st; unfold_step term_num; cbn [num_param_body].
  - on_char c; destruct a; cbn in *; known_chars; eauto.
    rewrite ?Hq. destruct (hd0 (skip_spaces p) =? 44), (term_num (skip_spaces p)); cbn in *; eauto.
  - on_char c; cbn in *; known_chars; eauto.
    + rewrite ?Hq. destruct (hd0 (skip_spaces p) =? 44) eqn:E2, (hd0 (skip_spaces p) =? 93) eqn:E1,
        (term_num (skip_spaces p)) eqn:E3, a; cbn in *; eauto.
      all: destruct (skip_spaces p) as [|c' q']; [|done]; auto.
    + destruct (hd0 p =? 34); cbn in *; eauto.
  - on_char c; destruct a; cbn in *; known_chars; eauto.
Qed.

Lemma parse_key_runs (x : pstate * bool * list Z) (v : bool * list Z) :
  runs parse_key_body x v -> forall n, exists o, runs (scan_body term_key) (x.1.1, x.1.2, n, x.2) o /\
    if v.1 then exists k, o = Some (k, ch "]" :: v.2) else o = None.
Proof.
  induction 1 as [[[st a] s] [ok r] E | [[st a] s] [[st' a'] s'] v E _ IH]; intros n; cbn [fst snd] in *;
    pose proof (parse_key_step st a n s) as Hs; rewrite E in Hs.
  - destruct ok; [|exists None; split; [by constructor|done]].
    exists (Some (n, ch "]" :: r)). split; [|by exists n]. destruct Hs as [Hs | Hs]; [by constructor|].
    econstructor 2; [exact Hs|]. by constructor.
  - destruct Hs as [n' Hs]. destruct (IH n') as (o & Ho & Hv). exists o. split; [|done]. by eapply runs_steps.
Qed.

Lemma num_param_runs (x : scan) (k : Z) :
  runs num_param_body x k -> is_text x.2 -> 0 < x.1.2 ->
  exists o, runs (scan_body term_num) x o /\ if k =? 0 then o = None else o = Some (k, []).
Proof.
  induction 1 as [[[[st a] n] s] k E | [[[st a] n] s] y k E Hy IH]; intros Ht Hn; cbn [fst snd] in *;
    pose proof (num_param_step st a n s Ht) as Hs; rewrite E in Hs.
  - destruct Hs as [[-> Hs] | [-> Hs]]; eexists; (split; [by constructor|]); [|done].
    by rewrite (proj2 (Z.eqb_neq n 0)) by lia.
  - destruct Hs as [[Hs Ht'] | [-> Hs]].
    + destruct IH as (o & Ho & Hk); [done| |by exists o; split; [econstructor 2|]].
      destruct y as [[[st' a'] n'] s']. cbn. clear - Hs Hn. unfold scan_body in Hs.
      destruct st, s as [|c p]; parser_cases; try discriminate Hs; injection Hs; intros; subst; lia.
    + apply (runs_last _ 0) in Hy; [|done]. subst k. exists None. split; [by constructor|done].
Qed.

(** A key: a name, and parameters in brackets. *)
Definition key_name (name : list Z) : Prop := name <> [] /\ Forall (fun c => zbx_is_key_char c = true) name.

Definition with_params (name : list Z) (p : param) (ps : list param) : list Z :=
  name ++ ch "[" :: params_text p ps ++ [ch "]"].

Lemma key_name_split (name s : list Z) :
  key_name name -> zbx_is_key_char (hd0 s) = false ->
  take_while zbx_is_key_char (name ++ s) = name /\ skip_while zbx_is_key_char (name ++ s) = s.
Proof. intros [_ Hn] Hs. apply take_while_app; [done|]. by destruct s. Qed.

Lemma key_split (exp : list Z) :
  let name := take_while zbx_is_key_char exp in let s := skip_while zbx_is_key_char exp in
  exp = name ++ s /\ zbx_is_key_char (hd0 s) = false /\ (name = [] \/ key_name name).
Proof.
  cbn. split_and!; [by rewrite take_skip| |].
  - destruct (skip_while zbx_is_key_char exp) as [|c s] eqn:E; [done|]. by apply skip_while_head in E.
  - destruct (take_while zbx_is_key_char exp) eqn:E; [by left|]. right. rewrite <- E. split; [by rewrite E|]. apply take_while_all.
Qed.

(** The loop over the parameters, after the opening bracket. *)
Lemma parse_key_loop (t rest : list Z) :
  (exists v, loop (2 * length t + 2) parse_key_body (Init, false, t) = Ret v) /\
  (loop (2 * length t + 2) parse_key_body (Init, false, t) = Ret (true, rest) <->
   exists p ps, param_ok p /\ Forall param_ok ps /\ t = params_text p ps ++ ch "]" :: rest).
Proof.
  destruct (loop_total parse_key_body (fun x => rounds x.1.1 x.2) parse_key_rounds (2 * length t + 2) (Init, false, t))
    as [[ok r] E]; [cbn; lia|]. split; [by exists (ok, r)|]. rewrite E.
  apply loop_runs in E. destruct (parse_key_runs _ _ E 1) as (o & Ho & Hv). cbn [fst snd] in *. split.
  - intros [= -> ->]%Ret_inj. destruct Hv as [k ->]. apply (scan_exact _ term_key_cons) in Ho as (p & ps & Hp & Hps & -> & _).
    by exists p, ps.
  - intros (p & ps & Hp & Hps & ->).
    pose proof (params_runs _ term_key_cons p ps 1 (ch "]" :: rest) Hp Hps eq_refl) as Hr.
    pose proof (runs_det _ _ _ _ Ho Hr) as ->. destruct ok; [|done]. by destruct Hv as [k [= _ <-]].
Qed.

Lemma num_param_loop (s : list Z) :
  is_text s -> exists k, zbx_num_param s = Ret k /\
    ((k = 0 /\ ~ exists p ps, param_ok p /\ Forall param_ok ps /\ s = params_text p ps) \/
     (exists p ps, param_ok p /\ Forall param_ok ps /\ s = params_text p ps /\ k = 1 + Z.of_nat (length ps))).
Proof.
  intros Ht. unfold zbx_num_param.
  destruct (loop_total num_param_body (fun x => rounds x.1.1.1 x.2) num_param_rounds (2 * length s + 2) (Init, false, 1, s))
    as [k E]; [cbn; lia|]. exists k. split; [done|].
  apply loop_runs in E. destruct (num_param_runs _ _ E Ht ltac:(done)) as (o & Ho & Hv). destruct (Z.eqb_spec k 0) as [-> | Hk].
  - left. split; [done|]. intros (p & ps & Hp & Hps & ->). subst o.
    pose proof (params_runs _ term_num_cons p ps 1 [] Hp Hps eq_refl) as Hr. rewrite app_nil_r in Hr.
    by pose proof (runs_det _ _ _ _ Ho Hr).
  - right. subst o. apply (scan_exact _ term_num_cons) in Ho as (p & ps & Hp & Hps & -> & _ & ->). exists p, ps.
    by rewrite app_nil_r.
Qed.

Lemma num_param_count (p : param) (ps : list param) :
  param_ok p -> Forall param_ok ps -> is_text (params_text p ps) ->
  zbx_num_param (params_text p ps) = Ret (Z.of_nat (length (p :: ps))).
Proof.
  intros Hp Hps Ht. destruct (num_param_loop _ Ht) as (k & Ek & Hk). rewrite Ek. f_equal.
  unfold zbx_num_param in Ek. apply loop_runs in Ek. destruct (num_param_runs _ _ Ek Ht ltac:(done)) as (o & Ho & Hv).
  pose proof (params_runs _ term_num_cons p ps 1 [] Hp Hps eq_refl) as Hr. rewrite app_nil_r in Hr.
  rewrite (runs_det _ _ _ _ Ho Hr) in Hv. destruct (k =? 0); [done|]. injection Hv as <-. cbn [length]. lia.
Qed.

Lemma name_longer (name s : list Z) : key_name name -> name ++ s <> s.
Proof. intros [Hn _] E. apply Hn. apply (app_inv_tail s). by rewrite E. Qed.

Lemma parse_key_with (name : list Z) (p : param) (ps : list param) (rest : list Z) :
  key_name name -> param_ok p -> Forall param_ok ps -> zbx_parse_key (with_params name p ps ++ rest) = Ret (true, rest).
Proof.
  intros Hname Hp Hps. unfold zbx_parse_key, with_params. rewrite <- app_assoc. cbn [app].
  destruct (key_name_split name (ch "[" :: (params_text p ps ++ [ch "]"]) ++ rest) Hname eq_refl) as [_ ->].
  rewrite bool_decide_eq_false_2 by by apply name_longer. apply parse_key_loop. exists p, ps. split_and!; [done..|].
  by rewrite <- app_assoc.
Qed.

(** C13: zbx_parse_key accepts exactly the keys: it always ends, and it succeeds with the pointer at [rest] if and only if
    the text before [rest] is a name, not followed by more of it or by a bracket, or a name and in brackets a list of
    parameters with commas between them, each a text without quotes, a text in quotes, or an array of these in brackets;
    spaces may come before each and after quotes and brackets. *)
Theorem parse_key_exact (exp rest : list Z) :
  (exists ok r, zbx_parse_key exp = Ret (ok, r)) /\
  (zbx_parse_key exp = Ret (true, rest) <->
   exists name, key_name name /\
     ((exp = name ++ rest /\ zbx_is_key_char (hd0 rest) = false /\ hd0 rest <> ch "[") \/
      (exists p ps, param_ok p /\ Forall param_ok ps /\ exp = with_params name p ps ++ rest))).
Proof.
  split.
  - unfold zbx_parse_key. case_bool_decide; [eauto|]. destruct (skip_while zbx_is_key_char exp) as [|c p]; [eauto|].
    destruct (c =? ch "["); [|eauto]. destruct (parse_key_loop p []) as [[[ok r] E] _]. eauto.
  - split.
    + destruct (key_split exp) as (He & Hs & Hn). unfold zbx_parse_key. case_bool_decide as Heq; [intros [=]%Ret_inj|].
      destruct Hn as [Hn | Hn]; [by rewrite Hn in He|]. intros E. exists (take_while zbx_is_key_char exp). split; [done|].
      destruct (skip_while zbx_is_key_char exp) as [|c p].
      * left. apply Ret_inj in E as [= <-]. split_and!; done.
      * destruct (Z.eqb_spec c (ch "[")) as [-> | Hc].
        -- apply parse_key_loop in E as (p1 & ps & Hp & Hps & ->). right. exists p1, ps. split_and!; [done..|].
           rewrite He at 1. unfold with_params. by repeat (rewrite <- app_assoc; cbn [app]).
        -- apply Ret_inj in E as [= <-]. left. split_and!; done.
    + intros (name & Hname & [(-> & Hk & Hb) | (p & ps & Hp & Hps & ->)]); [|by apply parse_key_with].
      unfold zbx_parse_key. destruct (key_name_split name rest Hname Hk) as [_ ->].
      rewrite bool_decide_eq_false_2 by by apply name_longer.
      destruct rest as [|c p]; [done|]. cbn in Hb. by rewrite (proj2 (Z.eqb_neq _ _) Hb).
Qed.
