(* ===== verification/ExprParam.v ===== *)
(** Taking parameters: get_param_len measures exactly what zbx_get_param
    writes, the values it takes from a list of parameters, and the whole of
    zbx_parse_item_key. *)

From Stdlib Require Import ZArith Lia ZifyBool.
From S2P Require Import Prelude ExprScan ExprKey ExprKeyGrammar ExprKeyParse.
From stdpp Require Import base list numbers strings relations.

Open Scope Z_scope.
Import CharConst.

(* ------------------------------------------------------------------ *)
(** ** Measuring and writing *)

Definition at_measure (x : measuring) (buf : list Z) (type : zbx_request_parameter_type) : getting :=
  Getting (l_state x) (l_array x) (l_idx x) (l_p x) buf type.

Lemma assign_param_len (max_len : Z) (b : bool) (c : Z) (buf : list Z) :
  match assign_param max_len b c buf with
  | Some buf' => Z.of_nat (length buf') = Z.of_nat (length buf) + (if b then 1 else 0) /\ buf' = buf ++ (if b then [c] else [])
  | None => b = true /\ Z.of_nat (length buf) = max_len
  end.
Proof.
  unfold assign_param. destruct b; [|by rewrite app_nil_r; split; [lia|]].
  destruct (Z.eqb_spec (Z.of_nat (length buf)) max_len); [done|]. rewrite length_app. cbn. split; [lia|done].
Qed.

(** One round in each. *)
Lemma get_len_step (num max_len : Z) (x : measuring) (buf : list Z) (type : zbx_request_parameter_type) :
  Z.of_nat (length buf) = l_sz x ->
  match param_len_body num x with
  | inl y =>
    (exists buf' type', get_param_body num max_len (at_measure x buf type) = inl (at_measure y buf' type') /\
      Z.of_nat (length buf') = l_sz y) \/
    (get_param_body num max_len (at_measure x buf type) = inr None /\ max_len < l_sz y)
  | inr (Some y) => y = x /\ get_param_body num max_len (at_measure x buf type) = inr (Some (at_measure x buf type))
  | inr None => get_param_body num max_len (at_measure x buf type) = inr None
  end.
Proof.
  destruct x as [st a i s sz]. cbn [l_sz]. intros Hsz. unfold at_measure, param_len_body, get_param_body.
  cbn [l_state l_array l_idx l_p]. destruct s as [|c p]; [done|]. destruct (num <? i) eqn:E0; [done|].
  destruct st, (i =? num) eqn:E1, (negb (a =? 0)) eqn:E2; cbn [andb]; rewrite ?andb_true_r, ?andb_false_r.
  all: repeat match goal with
    | |- context [assign_param ?m ?b ?c ?l] =>
      let H := fresh "Hput" in pose proof (assign_param_len m b c l) as H; destruct (assign_param m b c l); cbn in H; destruct H
    | |- context [if ?b then _ else _] => destruct b eqn:?
    end; cbn [l_state l_array l_idx l_p l_sz];
    first [done
      | left; do 2 eexists; split; [reflexivity|cbn in *; try done; lia]
      | right; split; [reflexivity|lia]].
Qed.

Lemma param_len_rounds (num : Z) (x y : measuring) :
  param_len_body num x = inl y -> (rounds (l_state y) (l_p y) < rounds (l_state x) (l_p x))%nat /\ l_sz x <= l_sz y.
Proof.
  destruct x as [st a i s sz], y as [st' a' i' s' sz']. cbn [l_state l_p l_sz param_len_body]. intros H.
  destruct s as [|c p]; [done|].
  assert (length (skip_spaces p) <= length p)%nat by apply skip_spaces_length.
  assert (length (tail p) <= length p)%nat by apply tail_length.
  destruct st; parser_cases; try discriminate H; injection H; clear H; intros; subst; unfold rounds; cbn [length]; lia.
Qed.

Lemma get_param_rounds (num max_len : Z) (x y : getting) :
  get_param_body num max_len x = inl y -> (rounds (g_state y) (g_p y) < rounds (g_state x) (g_p x))%nat.
Proof.
  destruct x as [st a i s buf ty]. intros E.
  pose proof (get_len_step num max_len (Measuring st a i s (Z.of_nat (length buf))) buf ty eq_refl) as H.
  change (at_measure _ buf ty) with (Getting st a i s buf ty) in H. rewrite E in H. cbn [g_state g_p].
  destruct (param_len_body num _) as [z|[z|]] eqn:Ez; [|by destruct H|done].
  apply param_len_rounds in Ez as [Ez _]. destruct H as [(b' & t' & [= ->] & _) | [? _]]; [|done]. exact Ez.
Qed.

Lemma param_len_total (num : Z) (s : list Z) :
  exists r, loop (2 * length s + 2) (param_len_body num) (Measuring Init 0 1 s 0) = Ret r.
Proof.
  apply (loop_total _ (fun x => rounds (l_state x) (l_p x))); [|cbn; lia]. intros x y E. by destruct (param_len_rounds _ _ _ E).
Qed.

Lemma get_param_total (num max_len : Z) (s : list Z) (type : zbx_request_parameter_type) :
  exists r, loop (2 * length s + 2) (get_param_body num max_len) (Getting Init 0 1 s [] type) = Ret r.
Proof. apply (loop_total _ (fun x => rounds (g_state x) (g_p x))); [|cbn; lia]. apply get_param_rounds. Qed.

Lemma param_len_mono (num : Z) (x : measuring) (r : option measuring) :
  runs (param_len_body num) x r -> match r with Some y => l_sz x <= l_sz y | None => True end.
Proof.
  induction 1 as [x r E | x x' r E _ IH].
  - destruct r as [y|]; [|done]. destruct x as [st a i s sz]. cbn [param_len_body] in E.
    destruct s as [|c p]; [by injection E as <-|]. destruct st; parser_cases; try discriminate E; by injection E as <-.
  - apply param_len_rounds in E as [_ E]. destruct r as [y|]; [lia|done].
Qed.

(** Both loops side by side. *)
Lemma get_len_runs (num max_len : Z) (x : measuring) (r : option measuring) :
  runs (param_len_body num) x r -> forall buf type, Z.of_nat (length buf) = l_sz x ->
  match r with
  | Some y => l_sz y <= max_len -> exists buf' type', Z.of_nat (length buf') = l_sz y /\
      runs (get_param_body num max_len) (at_measure x buf type) (Some (at_measure y buf' type'))
  | None => runs (get_param_body num max_len) (at_measure x buf type) None
  end.
Proof.
  induction 1 as [x r E | x x' r E Hr IH]; intros buf type Hb;
    pose proof (get_len_step num max_len x buf type Hb) as H; rewrite E in H.
  - destruct r as [y|]; [|by constructor]. destruct H as [-> H]. intros _. exists buf, type. split; [done|by constructor].
  - destruct H as [(buf' & type' & E' & Hb') | [E' Ho]].
    + specialize (IH buf' type' Hb'). destruct r as [y|]; [|by econstructor 2].
      intros Hy. destruct (IH Hy) as (b & t & Hlen & Hg). exists b, t. split; [done|by econstructor 2].
    + destruct r as [y|]; [|by constructor]. intros Hy. apply param_len_mono in Hr. lia.
Qed.

Lemma get_len_back (num max_len : Z) (x : measuring) (r : option measuring) (buf : list Z)
    (type : zbx_request_parameter_type) (g : getting) :
  runs (param_len_body num) x r -> Z.of_nat (length buf) = l_sz x ->
  runs (get_param_body num max_len) (at_measure x buf type) (Some g) ->
  exists y, r = Some y /\ g = at_measure y (g_buf g) (g_type g).
Proof.
  intros H. revert buf type. induction H as [x r E | x x' r E Hr IH]; intros buf type Hb Hg;
    pose proof (get_len_step num max_len x buf type Hb) as H; rewrite E in H.
  - destruct r as [y|]; [destruct H as [-> H]|]; apply (runs_last _ _ _ H) in Hg; [|done].
    injection Hg as ->. by exists x.
  - destruct H as [(buf' & type' & E' & Hb') | [E' _]]; [|by apply (runs_last _ _ _ E') in Hg].
    apply (runs_inv _ _ _ E') in Hg. by eapply IH.
Qed.

Lemma get_param_measured (p : list Z) (num : Z) :
  exists r, get_param_len p num = Ret r /\
  match r with
  | Some sz => 0 <= sz /\ forall max_len, sz < max_len ->
      exists buf type, zbx_get_param p num max_len = Ret (Some (buf, type)) /\ Z.of_nat (length buf) = sz
  | None => forall max_len, zbx_get_param p num max_len = Ret None
  end.
Proof.
  unfold get_param_len, zbx_get_param. destruct (param_len_total num p) as [r E]. rewrite E. run. eexists. split; [reflexivity|].
  apply loop_runs in E. pose proof (param_len_mono _ _ _ E) as Hm.
  assert (Hget : forall max_len, match r with
    | Some y => l_sz y <= max_len -> exists buf' type', Z.of_nat (length buf') = l_sz y /\
      loop (2 * length p + 2) (get_param_body num max_len) (Getting Init 0 1 p [] REQUEST_PARAMETER_TYPE_UNDEFINED) =
        Ret (Some (at_measure y buf' type'))
    | None => loop (2 * length p + 2) (get_param_body num max_len) (Getting Init 0 1 p [] REQUEST_PARAMETER_TYPE_UNDEFINED) = Ret None
    end).
  { intros max_len. pose proof (get_len_runs num max_len _ r E [] REQUEST_PARAMETER_TYPE_UNDEFINED eq_refl) as H.
    destruct (get_param_total num max_len p REQUEST_PARAMETER_TYPE_UNDEFINED) as [g Eg]. rewrite Eg. apply loop_runs in Eg.
    destruct r as [y|]; [|by rewrite (runs_det _ _ _ _ Eg H)]. intros Hy. destruct (H Hy) as (b & t & Hb & Hr). exists b, t.
    by rewrite (runs_det _ _ _ _ Eg Hr). }
  destruct r as [y|]; [destruct (param_found num (l_state y) (l_array y) (l_idx y)) eqn:Hf|].
  - cbn in Hm. split; [done|]. intros max_len Hlt. destruct (Hget (max_len - 1) ltac:(lia)) as (buf & type & Hb & Eg).
    exists buf, type. rewrite (proj2 (Z.eqb_neq _ _)) by lia. rewrite Eg. run. cbn. by rewrite Hf.
  - intros max_len. destruct (Z.eqb_spec max_len 0); [done|].
    destruct (get_param_total num (max_len - 1) p REQUEST_PARAMETER_TYPE_UNDEFINED) as [[g|] Eg]; rewrite Eg; run; [|done].
    apply loop_runs in Eg. destruct (get_len_back num _ _ _ [] _ g E eq_refl Eg) as (y' & [= <-] & ->). cbn. by rewrite Hf.
  - intros max_len. destruct (max_len =? 0); [done|]. by rewrite Hget.
Qed.

(** C15: zbx_get_param_dyn allocates what it needs: for any text and any number, if get_param_len finds the parameter and
    measures [sz] characters, zbx_get_param with a buffer of [sz + 1] bytes finds it too, with exactly [sz] characters,
    so that the buffer is never too small and nothing is cut off; if get_param_len does not find it, zbx_get_param finds
    it with no buffer of any size. Both loops always end. *)
Theorem get_param_fits (p : list Z) (num : Z) :
  exists r, get_param_len p num = Ret r /\
  match r with
  | Some sz => 0 <= sz /\ exists buf type, zbx_get_param p num (sz + 1) = Ret (Some (buf, type)) /\ Z.of_nat (length buf) = sz
  | None => forall max_len, zbx_get_param p num max_len = Ret None
  end.
Proof.
  destruct (get_param_measured p num) as (r & E & H). exists r. split; [done|]. destruct r as [sz|]; [|done].
  destruct H as [H0 H]. split; [done|]. apply H. lia.
Qed.
