(* ===== verification/ExprParamValue.v ===== *)
(** The values of the parameters of a key: what zbx_get_param takes from a
    text of the grammar, zbx_parse_item_key, and keys made of quoted
    parameters. *)

From Stdlib Require Import ZArith Lia ZifyBool.
From S2P Require Import Prelude ExprScan ExprKey ExprKeyGrammar ExprKeyParse ExprParam.
From stdpp Require Import base list numbers strings relations.

Open Scope Z_scope.
Import CharConst.

(* ------------------------------------------------------------------ *)
(** ** Values *)

(** Alone a quoted text is its contents; inside an array it keeps its quotes. *)
Definition elem_value (e : elem) : list Z := match e with EUnquoted _ s => s | EQuoted _ s _ => s end.
Definition elem_raw (e : elem) : list Z :=
  match e with EUnquoted _ s => s | EQuoted _ s _ => QUOTE :: escape_quotes s ++ [QUOTE] end.

Definition param_value (p : param) : list Z :=
  match p with
  | PElem e => elem_value e
  | PArray _ e es _ => commas (elem_raw e) (elem_raw <$> es)
  end.

Definition param_type (p : param) : zbx_request_parameter_type :=
  match p with
  | PElem (EUnquoted _ []) => REQUEST_PARAMETER_TYPE_UNDEFINED
  | PElem _ => REQUEST_PARAMETER_TYPE_STRING
  | PArray _ _ _ _ => REQUEST_PARAMETER_TYPE_ARRAY
  end.

#[local] Arguments param_ended : simpl never.

Section Values.
  Context (num max_len : Z).

Definition out (i : Z) (l : list Z) : list Z := if i =? num then l else [].
Definition fits (l : list Z) : Prop := Z.of_nat (length l) <= max_len.
Notation "x ~> y" := (steps (get_param_body num max_len) x y) (at level 70).

Lemma fits_app (l l' : list Z) : fits (l ++ l') -> fits l.
Proof. unfold fits. rewrite length_app. lia. Qed.

Lemma out_app (i : Z) (l l' : list Z) : out i (l ++ l') = out i l ++ out i l'.
Proof. unfold out. by destruct (i =? num). Qed.

Lemma put_fits (b : bool) (c : Z) (buf : list Z) :
  fits (buf ++ (if b then [c] else [])) -> assign_param max_len b c buf = Some (buf ++ (if b then [c] else [])).
Proof.
  unfold fits, assign_param. rewrite length_app. destruct b; [|by rewrite app_nil_r]. cbn. intros H.
  by rewrite (proj2 (Z.eqb_neq _ _)) by lia.
Qed.

Lemma get_spaces (k : nat) (a i : Z) (s buf : list Z) (ty : zbx_request_parameter_type) :
  i <= num -> Getting Init a i (spaces k ++ s) buf ty ~> Getting Init a i s buf ty.
Proof.
  intros Hi. induction k as [|k IH]; [done|]. eapply rtc_l; [|exact IH].
  change (spaces (S k) ++ s) with (32 :: spaces k ++ s). cbn [get_param_body].
  rewrite (proj2 (Z.ltb_ge _ _)) by lia. reflexivity.
Qed.

Lemma get_unquoted (w t buf : list Z) (a i : Z) (ty : zbx_request_parameter_type) :
  i <= num -> Forall (fun c => unquoted_char c = true) w -> fits (buf ++ out i w) ->
  Getting Unquoted a i (w ++ t) buf ty ~> Getting Unquoted a i t (buf ++ out i w) ty.
Proof.
  intros Hi Hw. revert buf. induction Hw as [|c w Hc _ IH]; intros buf Hf.
  - unfold out. destruct (i =? num); by rewrite app_nil_r.
  - change (c :: w) with ([c] ++ w) in Hf |- * at 2. rewrite out_app, app_assoc in *.
    eapply rtc_l; [|by apply IH]. cbn [app get_param_body]. rewrite (proj2 (Z.ltb_ge _ _)) by lia.
    unfold unquoted_char in Hc. apply andb_true_iff in Hc as [H1%negb_true_iff H2%negb_true_iff]. rewrite H1, H2. cbn [orb andb].
    apply fits_app in Hf. by rewrite put_fits.
Qed.

Lemma get_quoted (w t buf : list Z) (a i : Z) (ty : zbx_request_parameter_type) :
  i <= num -> ends_with_backslash w = false -> fits (buf ++ out i (if a =? 0 then w else escape_quotes w)) ->
  Getting Quoted a i (escape_quotes w ++ QUOTE :: t) buf ty ~>
  Getting Quoted a i (QUOTE :: t) (buf ++ out i (if a =? 0 then w else escape_quotes w)) ty.
Proof.
  intros Hi Hb. apply bool_decide_eq_false in Hb. revert buf. induction w as [|c w IH]; intros buf Hf.
  - unfold out. cbn. destruct (a =? 0), (i =? num); by rewrite app_nil_r.
  - assert (Hw : list.last w <> Some (ch "\")) by (destruct w; [done|exact Hb]). specialize (IH Hw).
    assert (E : (if a =? 0 then c :: w else escape_quotes (c :: w)) =
      (if negb (a =? 0) && (c =? QUOTE) then [ch "\"] else []) ++ [c] ++ (if a =? 0 then w else escape_quotes w)).
    { cbn [escape_quotes]. by destruct (a =? 0), (c =? QUOTE). }
    rewrite E, !out_app, !app_assoc in *. eapply rtc_l; [|by apply IH]. apply fits_app in Hf.
    cbn [escape_quotes]. destruct (Z.eqb_spec c QUOTE) as [-> | Hc].
    + cbn [app get_param_body]. rewrite (proj2 (Z.ltb_ge _ _)) by lia.
      assert (Hesc : (if (i =? num) && negb (a =? 0) then [ch "\"] else []) = out i (if negb (a =? 0) && true then [ch "\"] else [])).
      { unfold out. by destruct (i =? num), (a =? 0). }
      cbn [Z.eqb Pos.eqb hd0 andb tail]. rewrite put_fits by (rewrite Hesc; by apply fits_app in Hf).
      rewrite Hesc. cbn beta iota. by rewrite put_fits.
    + rewrite andb_false_r in *. cbn [app get_param_body]. rewrite (proj2 (Z.ltb_ge _ _)) by lia.
      rewrite (proj2 (Z.eqb_neq _ _) Hc). replace (out i []) with (@nil Z) in * by (unfold out; by destruct (i =? num)).
      rewrite app_nil_r in *.
      assert (Hno : (c =? ch "\") && (hd0 (escape_quotes w ++ QUOTE :: t) =? QUOTE) = false).
      { destruct (Z.eqb_spec c (ch "\")) as [-> | Hc2]; [|done]. destruct w as [|c' w]; [done|].
        by apply Z.eqb_neq, escape_hd. }
      rewrite Hno. by rewrite put_fits.
Qed.

Definition ended (a : Z) (t : list Z) : Prop := param_ended a t = true.

Lemma ended_hd (a : Z) (t : list Z) : ended a t -> hd0 t <> 32.
Proof. unfold ended, param_ended. intros H E. rewrite E in H. cbn in H. by rewrite andb_false_r in H. Qed.

Definition elem_type (e : elem) : zbx_request_parameter_type := param_type (PElem e).

Lemma set_type_out (i : Z) (t ty : zbx_request_parameter_type) :
  set_type (i =? num) t ty = if i =? num then set_type true t ty else ty.
Proof. by destruct (i =? num). Qed.

Lemma get_elem (e : elem) (a i : Z) (t buf : list Z) (ty : zbx_request_parameter_type) :
  i <= num -> elem_ok e -> ended a t -> fits (buf ++ out i (if a =? 0 then elem_value e else elem_raw e)) ->
  exists st, resting st /\
    Getting Init a i (elem_text e ++ t) buf ty ~>
    Getting st a i t (buf ++ out i (if a =? 0 then elem_value e else elem_raw e)) (set_type (i =? num) (elem_type e) ty).
Proof.
  intros Hi He Ht Hf. destruct e as [k w | k w m]; cbn [elem_text elem_ok elem_value elem_raw] in *.
  - replace (if a =? 0 then w else w) with w in * by by destruct (a =? 0). destruct He as [Hw Hs]. rewrite <- app_assoc.
    destruct w as [|c w].
    + exists Init. split; [by left|]. replace (out i []) with (@nil Z) by (unfold out; by destruct (i =? num)). rewrite app_nil_r.
      replace (set_type _ _ _) with ty by (by destruct ty, (i =? num)). by apply get_spaces.
    + destruct Hs as [|Hs]; [done|]. exists Unquoted. split; [by right|]. etrans; [by apply get_spaces|].
      change (c :: w) with ([c] ++ w) in Hf |- * at 2. rewrite out_app, app_assoc in *. cbn [hd0] in Hs.
      unfold unquoted_start in Hs. rewrite !andb_true_iff, !negb_true_iff in Hs. destruct Hs as [[[[H1 H2] H3] H4] H5].
      eapply rtc_l; [|apply get_unquoted; [done|by inversion Hw|done]]. cbn [app get_param_body].
      rewrite (proj2 (Z.ltb_ge _ _)) by lia. rewrite H1, H2, H3, H4, H5. cbn [negb andb]. apply fits_app in Hf.
      rewrite put_fits by done. reflexivity.
  - exists Init. split; [by left|]. rewrite <- app_assoc. etrans; [by apply get_spaces|]. cbn [app]. rewrite <- app_assoc. cbn [app].
    assert (E : (if a =? 0 then w else QUOTE :: escape_quotes w ++ [QUOTE]) =
      (if a =? 0 then [] else [QUOTE]) ++ (if a =? 0 then w else escape_quotes w) ++ (if a =? 0 then [] else [QUOTE])).
    { destruct (a =? 0); [by rewrite app_nil_r|done]. }
    rewrite E, !out_app, !app_assoc in *.
    assert (Hq : (if (i =? num) && negb (a =? 0) then [QUOTE] else []) = out i (if a =? 0 then [] else [QUOTE])).
    { unfold out. by destruct (i =? num), (a =? 0). }
    eapply rtc_l.
    { cbn [get_param_body]. rewrite (proj2 (Z.ltb_ge _ _)) by lia. cbn [Z.eqb Pos.eqb].
      rewrite put_fits; [reflexivity|]. rewrite Hq. do 2 apply fits_app in Hf. done. }
    rewrite Hq. etrans; [apply get_quoted; [done|done|by apply fits_app in Hf]|].
    apply steps_one. cbn [get_param_body]. rewrite (proj2 (Z.ltb_ge _ _)) by lia. cbn [Z.eqb Pos.eqb].
    rewrite andb_comm, put_fits by (by rewrite Hq). rewrite Hq, skip_spaces_app, skip_spaces_stop by (by eapply ended_hd).
    unfold ended in Ht. rewrite Ht. reflexivity.
Qed.

Lemma get_comma (st : pstate) (a i : Z) (t buf : list Z) (ty : zbx_request_parameter_type) :
  i <= num -> resting st -> fits (buf ++ out i (if a =? 0 then [] else [ch ","])) ->
  Getting st a i (ch "," :: t) buf ty ~>
  Getting Init a (if a =? 0 then i + 1 else i) t (buf ++ out i (if a =? 0 then [] else [ch ","])) ty.
Proof.
  intros Hi Hst Hf.
  assert (H : Getting Init a i (ch "," :: t) buf ty ~>
    Getting Init a (if a =? 0 then i + 1 else i) t (buf ++ out i (if a =? 0 then [] else [ch ","])) ty).
  { apply steps_one. cbn [get_param_body]. rewrite (proj2 (Z.ltb_ge _ _)) by lia. cbn [Z.eqb Pos.eqb].
    destruct (a =? 0); cbn [negb].
    - replace (out i []) with (@nil Z) by (unfold out; by destruct (i =? num)). by rewrite app_nil_r.
    - unfold out in *. by rewrite put_fits. }
  destruct Hst as [-> | ->]; [done|]. eapply rtc_l; [|exact H]. cbn [get_param_body]. rewrite (proj2 (Z.ltb_ge _ _)) by lia. done.
Qed.

Lemma get_elems (e : elem) (es : list elem) (i : Z) (t buf : list Z) (ty : zbx_request_parameter_type) :
  i <= num -> elem_ok e -> Forall elem_ok es -> fits (buf ++ out i (commas (elem_raw e) (elem_raw <$> es))) ->
  (i = num -> ty <> REQUEST_PARAMETER_TYPE_UNDEFINED) ->
  exists st, resting st /\
    Getting Init 1 i (commas (elem_text e) (elem_text <$> es) ++ ch "]" :: t) buf ty ~>
    Getting st 1 i (ch "]" :: t) (buf ++ out i (commas (elem_raw e) (elem_raw <$> es))) ty.
Proof.
  intros Hi He Hes Hf Hty.
  assert (Hset : forall t, set_type (i =? num) t ty = ty).
  { intros t'. destruct (Z.eqb_spec i num) as [E|]; [|done]. specialize (Hty E). by destruct ty. }
  revert e He buf Hf. induction Hes as [|e' es He' _ IH]; intros e He buf Hf; cbn [fmap list_fmap commas] in *.
  - destruct (get_elem e 1 i (ch "]" :: t) buf ty Hi He eq_refl Hf) as (st & Hst & H). exists st. by rewrite Hset in H.
  - change (ch "," :: ?l) with ([ch ","] ++ l) in Hf |- * at 2. rewrite !out_app, !app_assoc in *. rewrite <- app_assoc.
    cbn [app].
    destruct (get_elem e 1 i (ch "," :: commas (elem_text e') (elem_text <$> es) ++ ch "]" :: t) buf ty Hi He eq_refl)
      as (st & Hst & H1). { do 2 apply fits_app in Hf. done. }
    rewrite Hset in H1. destruct (IH e' He' _ Hf) as (st' & Hst' & H2). exists st'. split; [done|].
    etrans; [exact H1|]. etrans; [apply get_comma; [done|done|by apply fits_app in Hf]|]. exact H2.
Qed.

Lemma get_one (p : param) (i : Z) (t buf : list Z) :
  i <= num -> param_ok p -> ended 0 t -> fits (buf ++ out i (param_value p)) ->
  exists st, resting st /\
    Getting Init 0 i (param_text p ++ t) buf REQUEST_PARAMETER_TYPE_UNDEFINED ~>
    Getting st 0 i t (buf ++ out i (param_value p)) (set_type (i =? num) (param_type p) REQUEST_PARAMETER_TYPE_UNDEFINED).
Proof.
  intros Hi Hp Ht Hf. destruct p as [e | k e es m]; [by apply (get_elem e 0)|]. destruct Hp as [He Hes].
  exists Init. split; [by left|]. cbn [param_text param_value param_type] in *. rewrite <- app_assoc. etrans; [by apply get_spaces|].
  cbn [app]. rewrite <- app_assoc. cbn [app].
  eapply rtc_l.
  { cbn [get_param_body]. rewrite (proj2 (Z.ltb_ge _ _)) by lia. cbn [Z.eqb Pos.eqb negb]. rewrite andb_false_r. reflexivity. }
  destruct (get_elems e es i (spaces m ++ t) buf (set_type (i =? num) REQUEST_PARAMETER_TYPE_ARRAY REQUEST_PARAMETER_TYPE_UNDEFINED)
    Hi He Hes Hf) as (st & Hst & H).
  { intros ->. by rewrite Z.eqb_refl. }
  etrans; [exact H|]. set (ty := set_type _ _ _) in *. clearbody ty. set (b := buf ++ _) in *. clearbody b.
  assert (Hend : get_param_body num max_len (Getting Init 1 i (ch "]" :: spaces m ++ t) b ty) = inl (Getting Init 0 i t b ty)).
  { cbn [get_param_body]. rewrite (proj2 (Z.ltb_ge _ _)) by lia. cbn [Z.eqb Pos.eqb negb Z.sub Z.add Z.opp Z.pos_sub andb assign_param].
    rewrite skip_spaces_app, skip_spaces_stop by (by eapply ended_hd). unfold ended in Ht.
    change (1 - 1) with 0. cbn. by rewrite Ht. }
  destruct Hst as [-> | ->]; [by apply steps_one|]. eapply rtc_l; [|by apply steps_one].
  cbn [get_param_body]. rewrite (proj2 (Z.ltb_ge _ _)) by lia. done.
Qed.

(** The end of the loop: the text is used up, or the parameter is passed. *)
Lemma get_end (st : pstate) (buf : list Z) (ty : zbx_request_parameter_type) (p : param) (ps : list param) :
  resting st -> fits buf ->
  exists g, runs (get_param_body num max_len)
      (Getting st 0 num (match ps with [] => [] | q :: qs => ch "," :: params_text q qs end) buf ty) (Some g) /\
    g_buf g = buf /\ g_type g = ty /\ param_found num (g_state g) (g_array g) (g_idx g) = true.
Proof.
  intros Hst Hf. destruct ps as [|q qs].
  - exists (Getting st 0 num [] buf ty). split; [by constructor|]. split_and!; [done..|]. cbn. unfold param_found.
    rewrite Z.leb_refl. by destruct Hst as [-> | ->].
  - exists (Getting Init 0 (num + 1) (params_text q qs) buf ty). split.
    + eapply runs_steps; [apply get_comma; [lia|done|]|].
      * replace (out num _) with (@nil Z) by (unfold out; by destruct (num =? num)). by rewrite app_nil_r.
      * cbn [Z.eqb]. replace (out num []) with (@nil Z) by (unfold out; by destruct (num =? num)). rewrite app_nil_r.
        constructor. cbn [get_param_body]. destruct (params_text q qs); [done|]. by rewrite (proj2 (Z.ltb_lt _ _)) by lia.
    + split_and!; [done..|]. unfold param_found. cbn. by rewrite (proj2 (Z.leb_le _ _)) by lia.
Qed.

(** What follows the first parameter. *)
Definition rest_text (ps : list param) : list Z := match ps with [] => [] | q :: qs => ch "," :: params_text q qs end.

Lemma params_text_cons (p : param) (ps : list param) : params_text p ps = param_text p ++ rest_text ps.
Proof. destruct ps; unfold params_text; cbn [fmap list_fmap commas rest_text]; by rewrite ?app_nil_r. Qed.

Lemma ended_rest (ps : list param) : ended 0 (rest_text ps).
Proof. by destruct ps. Qed.

Definition found (s : list Z) (i : Z) (q : param) : Prop :=
  exists g, runs (get_param_body num max_len) (Getting Init 0 i s [] REQUEST_PARAMETER_TYPE_UNDEFINED) (Some g) /\
    g_buf g = param_value q /\ g_type g = param_type q /\ param_found num (g_state g) (g_array g) (g_idx g) = true.

Lemma get_here (q : param) (ps : list param) : param_ok q -> fits (param_value q) -> found (params_text q ps) num q.
Proof.
  intros Hq Hf. rewrite params_text_cons.
  destruct (get_one q num (rest_text ps) [] (Z.le_refl _) Hq (ended_rest ps)) as (st & Hst & H).
  { unfold out. by rewrite Z.eqb_refl. }
  unfold out in H. rewrite Z.eqb_refl in H. cbn [app] in H.
  destruct (get_end st (param_value q) (set_type true (param_type q) REQUEST_PARAMETER_TYPE_UNDEFINED) q ps Hst Hf) as (g & Hg & E1 & E2 & E3).
  exists g. split_and!; [by eapply runs_steps|done|by rewrite E2|done].
Qed.

Lemma get_before (p p' : param) (ps : list param) (i : Z) (q : param) :
  i < num -> 0 <= max_len -> param_ok p -> found (params_text p' ps) (i + 1) q -> found (params_text p (p' :: ps)) i q.
Proof.
  intros Hi Hmax Hp (g & Hg & HH). exists g. split; [|exact HH]. rewrite params_text_cons. cbn [rest_text].
  assert (Hout : forall l, out i l = []) by (intros l; unfold out; by rewrite (proj2 (Z.eqb_neq _ _)) by lia).
  destruct (get_one p i (ch "," :: params_text p' ps) [] ltac:(lia) Hp eq_refl) as (st & Hst & H).
  { by rewrite Hout. }
  rewrite Hout, (proj2 (Z.eqb_neq _ _)) in H by lia. cbn [app set_type andb] in H.
  eapply runs_steps; [exact H|]. eapply runs_steps; [apply get_comma; [lia|done|by rewrite Hout]|]. by rewrite Hout.
Qed.

Lemma get_list (p : param) (ps : list param) (i : Z) (q : param) :
  i <= num -> param_ok p -> Forall param_ok ps -> (p :: ps) !! Z.to_nat (num - i) = Some q -> fits (param_value q) ->
  found (params_text p ps) i q.
Proof.
  intros Hi Hp Hps Hq Hf. revert p Hp i Hi Hq. induction Hps as [|p' ps Hp' Hps IH]; intros p Hp i Hi Hq.
  all: destruct (decide (i = num)) as [-> | Hne]; [rewrite Z.sub_diag in Hq; injection Hq as <-; by apply get_here|].
  all: destruct (Z.to_nat (num - i)) as [|m] eqn:E; [lia|]; cbn in Hq; try done.
  apply get_before; [lia|unfold fits in Hf; lia|done|]. apply IH; [done|lia|]. by replace (Z.to_nat (num - (i + 1))) with m by lia.
Qed.
End Values.

(* ------------------------------------------------------------------ *)
(** ** zbx_parse_item_key *)

(** Taking a parameter of a list by its number, the first being 1. *)
Lemma get_param_dyn_value (p : param) (ps : list param) (k : nat) (q : param) :
  param_ok p -> Forall param_ok ps -> (p :: ps) !! k = Some q ->
  zbx_get_param_dyn (params_text p ps) (Z.of_nat k + 1) = Ret (Some (param_value q, param_type q)).
Proof.
  intros Hp Hps Hk. unfold zbx_get_param_dyn. set (num := Z.of_nat k + 1).
  assert (Hval : forall max_len, Z.of_nat (length (param_value q)) < max_len ->
    zbx_get_param (params_text p ps) num max_len = Ret (Some (param_value q, param_type q))).
  { intros max_len Hm. unfold zbx_get_param. rewrite (proj2 (Z.eqb_neq _ _)) by lia.
    destruct (get_list num (max_len - 1) p ps 1 q) as (g & Hg & E1 & E2 & E3); [lia|done|done| |unfold fits; lia|].
    { by replace (Z.to_nat (num - 1)) with k by lia. }
    destruct (get_param_total num (max_len - 1) (params_text p ps) REQUEST_PARAMETER_TYPE_UNDEFINED) as [r E]. rewrite E.
    rewrite (runs_det _ _ _ _ (loop_runs _ _ _ _ E) Hg). run. by rewrite E3, E1, E2. }
  destruct (get_param_measured (params_text p ps) num) as (r & E & Hr). rewrite E. run. destruct r as [sz|].
  - destruct Hr as (H0 & Hr). apply Hval.
    destruct (Hr (Z.max sz (Z.of_nat (length (param_value q))) + 1) ltac:(lia)) as (buf & ty & Eg & Hb).
    rewrite Hval in Eg by lia. apply Ret_inj in Eg as [= <- <-]. lia.
  - specialize (Hr (Z.of_nat (length (param_value q)) + 1)). rewrite Hval in Hr by lia. by apply Ret_inj in Hr.
Qed.

(** What a request holds for the parameters. *)
Definition param_answer (p : param) : option (list Z * zbx_request_parameter_type) := Some (param_value p, param_type p).

Lemma get_params_values (p : param) (ps : list param) (k n : nat) :
  param_ok p -> Forall param_ok ps -> (k + n)%nat = length (p :: ps) ->
  get_params n (Z.of_nat k + 1) (params_text p ps) = Ret (param_answer <$> drop k (p :: ps)).
Proof.
  intros Hp Hps. revert k. induction n as [|n IH]; intros k Hk; cbn [get_params].
  - by rewrite drop_ge by lia.
  - destruct (lookup_lt_is_Some_2 (p :: ps) k ltac:(lia)) as [q Hq].
    rewrite (get_param_dyn_value p ps k q Hp Hps Hq). run.
    replace (Z.of_nat k + 1 + 1) with (Z.of_nat (S k) + 1) by lia. rewrite IH by lia. run.
    by rewrite (drop_S (p :: ps) q k Hq).
Qed.

Lemma parse_command_with (name : list Z) (p : param) (ps : list param) :
  key_name name -> parse_command_dyn (with_params name p ps) = ZBX_COMMAND_WITH_PARAMS name (params_text p ps).
Proof.
  intros Hn. unfold parse_command_dyn, with_params.
  destruct (key_name_split name (ch "[" :: params_text p ps ++ [ch "]"]) Hn eq_refl) as [-> ->].
  destruct Hn as [Hn _]. destruct name as [|c name]; [done|]. cbn [Z.eqb Pos.eqb negb].
  rewrite last_snoc, bool_decide_eq_true_2 by done. by rewrite removelast_last.
Qed.

Lemma item_key_with (name : list Z) (p : param) (ps : list param) :
  key_name name -> param_ok p -> Forall param_ok ps -> is_text (params_text p ps) ->
  zbx_num_param (params_text p ps) = Ret (Z.of_nat (length (p :: ps))) /\
  zbx_parse_item_key (with_params name p ps) = Ret (Some (Request name (param_answer <$> (p :: ps)))).
Proof.
  intros Hn Hp Hps Ht. pose proof (num_param_count p ps Hp Hps Ht) as Ek. split; [done|].
  unfold zbx_parse_item_key. rewrite parse_command_with by done. rewrite Ek. run.
  rewrite (proj2 (Z.eqb_neq _ _)) by (cbn [length]; lia). rewrite Nat2Z.id.
  pose proof (get_params_values p ps 0 (length (p :: ps)) Hp Hps eq_refl) as Eg. change (Z.of_nat 0 + 1) with 1 in Eg.
  rewrite Eg. by run.
Qed.

(** C14: An item key is split into its name and parameters exactly: for any text zbx_parse_item_key ends and either
    refuses the text, which then is neither a name nor a name with a list of parameters in brackets, or returns the name
    and, for each parameter in order, its value (a text without quotes as it stands with the spaces before it left out, a
    quoted text unescaped, an array as its elements with their quotes) and its type; no parameter is missing. *)
Theorem item_key_exact (itemkey : list Z) :
  is_text itemkey ->
  exists r, zbx_parse_item_key itemkey = Ret r /\
  match r with
  | None => forall name, key_name name -> itemkey <> name /\
      forall p ps, param_ok p -> Forall param_ok ps -> itemkey <> with_params name p ps
  | Some (Request name l) => key_name name /\
      ((itemkey = name /\ l = []) \/
       (exists p ps, param_ok p /\ Forall param_ok ps /\ itemkey = with_params name p ps /\ l = param_answer <$> (p :: ps)))
  end.
Proof.
  intros Ht. assert (Hplain : forall name, key_name name -> parse_command_dyn name = ZBX_COMMAND_WITHOUT_PARAMS name).
  { intros name Hn. unfold parse_command_dyn. destruct (key_name_split name [] Hn eq_refl) as [E1 E2].
    rewrite app_nil_r in *. rewrite E1, E2. by destruct Hn, name. }
  assert (Hwith : forall name p ps, key_name name -> itemkey = with_params name p ps ->
    parse_command_dyn itemkey = ZBX_COMMAND_WITH_PARAMS name (params_text p ps)).
  { intros name p ps Hn ->. by apply parse_command_with. }
  unfold zbx_parse_item_key. destruct (parse_command_dyn itemkey) as [|name|name params] eqn:E.
  - exists None. split; [done|]. intros name Hn. split; [|intros p ps Hp Hps].
    + intros ->. by rewrite Hplain in E.
    + intros Heq. pose proof (Hwith _ _ _ Hn Heq). congruence.
  - exists (Some (Request name [])). split; [done|].
    destruct (key_split itemkey) as (He & Hs & Hn). unfold parse_command_dyn in E.
    destruct (take_while zbx_is_key_char itemkey) as [|c nm] eqn:En; [done|].
    destruct (skip_while zbx_is_key_char itemkey) as [|c' s]; [|by repeat case_match]. injection E as <-.
    destruct Hn as [|Hn]; [done|]. split; [done|]. left. by rewrite app_nil_r in He.
  - assert (Hk : key_name name /\ itemkey = name ++ ch "[" :: params ++ [ch "]"]).
    { destruct (key_split itemkey) as (He & Hs & Hn). unfold parse_command_dyn in E.
      destruct (take_while zbx_is_key_char itemkey) as [|c nm] eqn:En; [done|].
      destruct (skip_while zbx_is_key_char itemkey) as [|c' s]; [done|]. destruct (Z.eqb_spec c' (ch "[")) as [-> | ]; [|done].
      cbn in E. case_bool_decide as Hl; [|done]. injection E as <- <-. destruct Hn as [|Hn]; [done|]. split; [done|].
      apply last_Some in Hl as [l' ->]. rewrite removelast_last. exact He. }
    destruct Hk as [Hn ->]. assert (Htp : is_text params).
    { apply Forall_app in Ht as [_ Ht]. inversion Ht as [|? ? _ H]. by apply Forall_app in H as [H _]. }
    destruct (num_param_loop params Htp) as (k & Ek & [[-> Hno] | (p & ps & Hp & Hps & -> & ->)]).
    + rewrite Ek. run. exists None. split; [done|]. intros name' Hn'. split; [|intros p ps Hp Hps].
      * intros Heq. rewrite Heq, Hplain in E by done. done.
      * intros Heq. pose proof (Hwith _ _ _ Hn' Heq). apply Hno. exists p, ps. split_and!; [done..|congruence].
    + destruct (item_key_with name p ps Hn Hp Hps Htp) as [_ Er]. unfold zbx_parse_item_key in Er.
      rewrite (parse_command_with name p ps Hn) in Er. rewrite Er. eexists. split; [reflexivity|].
      split; [done|]. right. by exists p, ps.
Qed.

Lemma item_key_exact_witness :
  let key := txt "k[a, " ++ QUOTE :: txt "b" ++ QUOTE :: txt "]" in
  is_text key /\ (exists r, zbx_parse_item_key key = Ret r /\
  match r with
  | None => forall name, key_name name -> key <> name /\
      forall p ps, param_ok p -> Forall param_ok ps -> key <> with_params name p ps
  | Some (Request name l) => key_name name /\
      ((key = name /\ l = []) \/
       (exists p ps, param_ok p /\ Forall param_ok ps /\ key = with_params name p ps /\ l = param_answer <$> (p :: ps)))
  end) /\
  zbx_parse_item_key key =
    Ret (Some (Request (txt "k") [Some (txt "a", REQUEST_PARAMETER_TYPE_STRING); Some (txt "b", REQUEST_PARAMETER_TYPE_STRING)])).
Proof.
  intros key. assert (Ht : is_text key) by by repeat constructor.
  split; [exact Ht|]. split; [exact (item_key_exact key Ht)|vm_compute; done].
Defined.

(* ------------------------------------------------------------------ *)
(** ** Keys made of quoted parameters *)

Lemma needs_quotes_ok (s : list Z) : needs_quotes s = false -> elem_ok (EUnquoted 0 s).
Proof.
  unfold needs_quotes. rewrite !orb_false_iff, !bool_decide_eq_false. intros [[[[H1 H2] H3] H4] H5]. split.
  - apply Forall_forall. intros c Hc. unfold unquoted_char.
    destruct (Z.eqb_spec c (ch ",")) as [-> |]; [done|]. destruct (Z.eqb_spec c (ch "]")) as [-> |]; [done|]. done.
  - destruct s as [|c s]; [by left|]. right. cbn [hd0] in *. unfold unquoted_start. rewrite H1, H2, H3.
    destruct (Z.eqb_spec c (ch ",")) as [-> |]; [by destruct H4; left|]. destruct (Z.eqb_spec c (ch "]")) as [-> |]; [by destruct H5; left|].
    done.
Qed.

(** A quoted parameter is a parameter of the grammar with the value that was
    quoted. *)
Lemma quote_cases (s q : list Z) (forced : Z) :
  zbx_quote_key_param s forced = Some q ->
  (q = s /\ needs_quotes s = false) \/ (q = QUOTE :: escape_quotes s ++ [QUOTE] /\ ends_with_backslash s = false).
Proof.
  unfold zbx_quote_key_param. destruct (needs_quotes s), (ends_with_backslash s), (forced =? 0), (forced =? 2); cbn;
    intros [= <-]; auto.
Qed.

Lemma quote_elem (s q : list Z) (forced : Z) :
  zbx_quote_key_param s forced = Some q -> exists e, elem_ok e /\ elem_text e = q /\ elem_value e = s.
Proof.
  intros [[-> H] | [-> H]]%quote_cases; [exists (EUnquoted 0 s); split; [by apply needs_quotes_ok|done]|by exists (EQuoted 0 s 0)].
Qed.

Lemma escape_text (s : list Z) : is_text s -> is_text (escape_quotes s).
Proof. induction 1 as [|c s Hc _ IH]; [constructor|]. cbn. destruct (c =? QUOTE); repeat constructor; done. Qed.

Lemma quote_text (s q : list Z) (forced : Z) : zbx_quote_key_param s forced = Some q -> is_text s -> is_text q.
Proof.
  intros [[-> _] | [-> _]]%quote_cases Hs; [done|]. constructor; [done|]. apply Forall_app. split; [by apply escape_text|].
  by repeat constructor.
Qed.

Lemma commas_text (x : list Z) (xs : list (list Z)) : is_text x -> Forall is_text xs -> is_text (commas x xs).
Proof.
  intros Hx Hxs. revert x Hx. induction Hxs as [|y ys Hy _ IH]; intros x Hx; [done|]. cbn. apply Forall_app. split; [done|].
  constructor; [done|]. by apply IH.
Qed.

Lemma key_params_with (name : list Z) (p : param) (ps : list param) :
  key_name name -> key_params (with_params name p ps) = Some (params_text p ps).
Proof.
  intros [_ Hn]. unfold key_params, with_params. set (t := params_text p ps).
  assert (Hl : find_from (ch "[") (name ++ ch "[" :: t ++ [ch "]"]) = Some (length name)).
  { induction Hn as [|c name Hc _ IH]; [done|]. cbn [app find_from length]. destruct (Z.eqb_spec c (ch "[")) as [-> |]; [done|].
    by rewrite IH. }
  rewrite Hl. rewrite app_comm_cons, app_assoc, reverse_app. change (reverse [ch "]"]) with [ch "]"]. cbn [app find_from Z.eqb Pos.eqb].
  rewrite !length_app. cbn [length]. rewrite <- app_assoc. cbn [app].
  replace (length name + S (length t) + 1 - 1 - 0)%nat with (length name + S (length t))%nat by lia.
  rewrite (proj2 (Nat.ltb_ge _ _)) by lia. f_equal.
  rewrite take_app_add. cbn [take]. rewrite firstn_app, Nat.sub_diag, firstn_all. cbn [take]. rewrite app_nil_r.
  rewrite Nat.add_1_r, drop_app_ge by lia. replace (S (length name) - length name)%nat with 1%nat by lia. done.
Qed.

Lemma unescape_escape (s : list Z) (t : list Z) :
  ends_with_backslash s = false -> unescape_quotes (escape_quotes s ++ QUOTE :: t) = s ++ unescape_quotes (QUOTE :: t).
Proof.
  intros Hb. apply bool_decide_eq_false in Hb. induction s as [|c s IH]; [done|].
  assert (Hs : list.last s <> Some (ch "\")) by (destruct s; [done|exact Hb]). specialize (IH Hs).
  cbn [escape_quotes]. destruct (Z.eqb_spec c QUOTE) as [-> | Hc].
  - cbn. cbn in IH. by rewrite IH.
  - cbn [app unescape_quotes]. rewrite IH. destruct (Z.eqb_spec c (ch "\")) as [-> |]; [|done].
    destruct s as [|c' s]; [done|]. by rewrite (proj2 (Z.eqb_neq _ _) (escape_hd (c' :: s) (QUOTE :: t) ltac:(done))).
Qed.

(** C16: Item keys are built and split without loss: if zbx_quote_key_param quotes each of the parameters (it refuses only
    one that needs quotes, or for which they are forced, and ends with a backslash), the key made of a name and the
    results with commas between them in brackets is accepted by zbx_parse_key to its end, zbx_parse_item_key splits it
    into the name and the original parameters, in order, and zbx_unquote_key_param takes the quotes off again. *)
Theorem quoted_key_roundtrip (name : list Z) (s : list Z) (ss : list (list Z)) (forced : Z) (q : list Z) (qs : list (list Z)) :
  key_name name -> is_text s -> Forall is_text ss ->
  zbx_quote_key_param s forced = Some q -> Forall2 (fun s q => zbx_quote_key_param s forced = Some q) ss qs ->
  let key := name ++ ch "[" :: commas q qs ++ [ch "]"] in
  zbx_parse_key key = Ret (true, []) /\
  (exists l, zbx_parse_item_key key = Ret (Some (Request name l)) /\ option_map fst <$> l = Some <$> (s :: ss)) /\
  zbx_num_key_param key = Ret (Z.of_nat (length (s :: ss))) /\
  zbx_unquote_key_param q = Ret s.
Proof.
  intros Hn Hs Hss Hq Hqs. destruct (quote_elem s q forced Hq) as (e & He & <- & Hv).
  assert (Hes : exists es, Forall elem_ok es /\ elem_text <$> es = qs /\ elem_value <$> es = ss /\ Forall is_text qs).
  { clear Hq. induction Hqs as [|s' q' ss qs Hq _ IH]; [by exists []|]. inversion Hss as [|? ? Hs' Hss']; subst.
    destruct (IH Hss') as (es & H1 & <- & <- & H4). pose proof (quote_text _ _ _ Hq Hs').
    destruct (quote_elem s' q' forced Hq) as (e' & He' & <- & <-). exists (e' :: es). split_and!; by (constructor || done). }
  destruct Hes as (es & Hes & <- & <- & Htq).
  assert (Hp : Forall param_ok (PElem <$> es)) by by apply Forall_fmap.
  assert (Hk : name ++ ch "[" :: commas (elem_text e) (elem_text <$> es) ++ [ch "]"] = with_params name (PElem e) (PElem <$> es)).
  { unfold with_params, params_text. by rewrite <- list_fmap_compose. }
  assert (Ht : is_text (params_text (PElem e) (PElem <$> es))).
  { unfold params_text. rewrite <- list_fmap_compose. apply commas_text; [by eapply quote_text|done]. }
  destruct (item_key_with name (PElem e) (PElem <$> es) Hn He Hp Ht) as [En Ei].
  cbn zeta. rewrite Hk. split_and!.
  - rewrite <- (app_nil_r (with_params _ _ _)). by apply parse_key_with.
  - eexists. split; [exact Ei|]. rewrite <- Hv. cbn. f_equal. rewrite <- !list_fmap_compose. done.
  - unfold zbx_num_key_param. rewrite key_params_with by done. rewrite En. by rewrite !length_cons, !length_fmap.
  - apply quote_cases in Hq as [[-> H] | [-> H]]; unfold zbx_unquote_key_param.
    + destruct s as [|c s]; [done|]. unfold needs_quotes in H. rewrite !orb_false_iff in H. destruct H as [[[[H _] _] _] _].
      cbn in H. by rewrite H.
    + cbn [Z.eqb Pos.eqb]. rewrite unescape_escape by done. change (unescape_quotes [QUOTE]) with [QUOTE].
      destruct (s ++ [QUOTE]) as [|c l] eqn:E; [by destruct s|]. rewrite <- E. by rewrite removelast_last.
Qed.

Lemma quoted_key_roundtrip_witness :
  let q := QUOTE :: txt "a,b" ++ [QUOTE] in
  zbx_quote_key_param (txt "a,b") 0 = Some q /\
  let key := txt "k" ++ ch "[" :: commas q [txt "c"] ++ [ch "]"] in
  zbx_parse_key key = Ret (true, []) /\
  (exists l, zbx_parse_item_key key = Ret (Some (Request (txt "k") l)) /\ option_map fst <$> l = Some <$> [txt "a,b"; txt "c"]) /\
  zbx_num_key_param key = Ret 2 /\ zbx_unquote_key_param q = Ret (txt "a,b").
Proof.
  intros q. assert (Hq : zbx_quote_key_param (txt "a,b") 0 = Some q) by (vm_compute; done).
  assert (Hqs : Forall2 (fun s q => zbx_quote_key_param s 0 = Some q) [txt "c"] [txt "c"]).
  { constructor; [vm_compute; done|constructor]. }
  assert (Hn : key_name (txt "k")) by (split; [done|by repeat constructor]).
  assert (Hs : is_text (txt "a,b")) by by repeat constructor.
  assert (Hss : Forall is_text [txt "c"]) by by repeat constructor.
  split; [exact Hq|]. exact (quoted_key_roundtrip (txt "k") (txt "a,b") [txt "c"] 0 q [txt "c"] Hn Hs Hss Hq Hqs).
Defined.
