(* ===== verification/ExprReplace.v ===== *)
(** Replacing the parameters of an item key in place: the loop always ends, and
    it replaces each parameter of a key by the answer given for it and leaves
    the rest of the text as it is. *)

From Stdlib Require Import ZArith Lia ZifyBool.
From S2P Require Import Prelude ExprScan ExprKey ExprKeyGrammar ExprKeyParse.
From stdpp Require Import base list numbers strings relations.

Open Scope Z_scope.
Import CharConst.

(* ------------------------------------------------------------------ *)
(** ** The loop ends *)

Definition replace_rounds (x : replacing) : nat :=
  (2 * (length (k_data x) - k_i x) + match k_state x with ZBX_STATE_UNQUOTED => 1 | _ => 0 end)%nat.

Lemma replace_length (cb : replace_key_param_f) (data : list Z) (l i : nat) (level num : Z) (quoted : bool) :
  let '(_, data', i') := replace_key_param cb data l i level num quoted in (length data' - i' <= length data - i)%nat.
Proof.
  unfold replace_key_param. destruct (cb _ _ _ _) as [ret [param|]]; [|done]. rewrite !length_app, length_take, length_drop. lia.
Qed.

Lemma chr_lt (data : list Z) (i : nat) : chr data i <> 0 -> (i < length data)%nat.
Proof. intros H. destruct (Nat.lt_ge_cases i (length data)) as [|Hge]; [done|]. exfalso. apply H. unfold chr. by apply nth_overflow. Qed.

Lemma parse_params_rounds (cb : replace_key_param_f) (x y : replacing) :
  parse_params_body cb x = inl y -> (replace_rounds y < replace_rounds x)%nat.
Proof.
  destruct x as [data i l level num st ret]. unfold parse_params_body, replace_rounds. cbn [k_data k_i k_state]. intros H.
  destruct (chr data i =? 0) eqn:E0; [done|]. apply Z.eqb_neq, chr_lt in E0. destruct ret; [|done]. cbn [negb orb] in H.
  destruct st; repeat match type of H with
    | (if ?b then _ else _) = _ => destruct b
    | context [replace_key_param cb ?d ?l ?i ?lv ?n ?q] =>
      pose proof (replace_length cb d l i lv n q); destruct (replace_key_param cb d l i lv n q) as [[? ?] ?]
    end; try discriminate H; injection H as <-; cbn [k_data k_i k_state]; lia.
Qed.

Lemma parse_params_total (cb : replace_key_param_f) (data : list Z) (i : nat) : exists x, parse_params cb data i = Ret x.
Proof.
  unfold parse_params. destruct (replace_key_param _ _ _ _ _ _ _) as [[ret data'] i'].
  apply (loop_total _ replace_rounds (parse_params_rounds cb)). unfold replace_rounds. cbn. lia.
Qed.

(* ------------------------------------------------------------------ *)
(** ** What it replaces *)

Section Replace.
  Context (cb : replace_key_param_f) (cb_ok : forall text level num quoted, (cb text level num quoted).1 = true).

Definition answer (text : list Z) (level num : Z) (quoted : bool) : list Z := default text (cb text level num quoted).2.

Definition elem_new (level num : Z) (e : elem) : list Z :=
  match e with
  | EUnquoted n s => spaces n ++ answer s level num false
  | EQuoted n s m => spaces n ++ answer (QUOTE :: escape_quotes s ++ [QUOTE]) level num true ++ spaces m
  end.

Definition param_new (num : Z) (p : param) : list Z :=
  match p with
  | PElem e => elem_new 1 num e
  | PArray n e es m => spaces n ++ ch "[" :: commas (elem_new 2 num e) (elem_new 2 num <$> es) ++ ch "]" :: spaces m
  end.

(** The parameters with their numbers, from [num] on. *)
Fixpoint params_new (num : Z) (p : param) (ps : list param) : list Z :=
  match ps with
  | [] => param_new num p
  | q :: qs => param_new num p ++ ch "," :: params_new (num + 1) q qs
  end.

(** The loop with [d] behind it and [r] to come. *)
Definition at_text (d r : list Z) (l : nat) (level num : Z) (st : zbx_parser_state) : replacing :=
  Replacing (d ++ r) (length d) l level num st true.
Notation "x ~> y" := (steps (parse_params_body cb) x y) (at level 70).

Lemma chr_at (d r : list Z) (c : Z) : chr (d ++ c :: r) (length d) = c.
Proof. unfold chr. by rewrite nth_middle. Qed.

Lemma next_char (d r : list Z) (c : Z) (l : nat) (level num : Z) (st : zbx_parser_state) :
  Replacing (d ++ c :: r) (length d + 1) l level num st true = at_text (d ++ [c]) r l level num st.
Proof. unfold at_text. rewrite <- app_assoc, length_app. done. Qed.

(** The parameter [w] before [r] is replaced. *)
Lemma replaced (d w r : list Z) (level num : Z) (quoted : bool) :
  replace_key_param cb (d ++ w ++ r) (length d) (length (d ++ w)) level num quoted =
  (true, d ++ answer w level num quoted ++ r, length (d ++ answer w level num quoted)).
Proof.
  unfold replace_key_param, answer. rewrite app_assoc, take_app_length, drop_app_length.
  pose proof (cb_ok w level num quoted) as Hok. destruct (cb w level num quoted) as [ret [param|]]; cbn in Hok; subst ret.
  - rewrite drop_app_length, <- app_assoc, take_app_length. by rewrite length_app.
  - cbn. by rewrite <- app_assoc.
Qed.

Lemma skip_new (n : nat) (d r : list Z) (l : nat) (level num : Z) (st : zbx_parser_state) :
  st = ZBX_STATE_NEW \/ st = ZBX_STATE_END ->
  at_text d (spaces n ++ r) l level num st ~> at_text (d ++ spaces n) r l level num st.
Proof.
  intros Hst. revert d. induction n as [|n IH]; intros d; [by rewrite app_nil_r|].
  change (spaces (S n)) with ([32] ++ spaces n). rewrite (app_assoc d). eapply rtc_l; [|apply IH].
  unfold at_text at 1, parse_params_body. cbn [app]. rewrite chr_at. cbn.
  destruct Hst as [-> | ->]; by rewrite next_char.
Qed.

Lemma unquoted_new (w d r : list Z) (l : nat) (level num : Z) :
  Forall (fun c => unquoted_char c = true) w -> is_text w ->
  at_text d (w ++ r) l level num ZBX_STATE_UNQUOTED ~> at_text (d ++ w) r l level num ZBX_STATE_UNQUOTED.
Proof.
  intros Hw. revert d. induction Hw as [|c w Hc _ IH]; intros d Ht; [by rewrite app_nil_r|]. inversion Ht as [|? ? H0 Ht']; subst.
  change (c :: w) with ([c] ++ w) at 2. rewrite (app_assoc d). eapply rtc_l; [|by apply IH].
  unfold at_text at 1, parse_params_body. cbn [app]. rewrite chr_at, (proj2 (Z.eqb_neq _ _) H0). cbn [orb negb].
  unfold unquoted_char in Hc. apply andb_true_iff in Hc as [H1%negb_true_iff H2%negb_true_iff]. rewrite H1, H2. cbn [orb].
  by rewrite next_char.
Qed.

Lemma escape_new (w d r : list Z) (l : nat) (level num : Z) :
  is_text w ->
  at_text d (escape_quotes w ++ r) l level num ZBX_STATE_QUOTED ~> at_text (d ++ escape_quotes w) r l level num ZBX_STATE_QUOTED.
Proof.
  intros Ht. revert d. induction Ht as [|c w Hc _ IH]; intros d; [by rewrite app_nil_r|]. cbn [escape_quotes].
  assert (Hplain : forall d' r' c', c' <> 0 -> c' <> QUOTE ->
    parse_params_body cb (at_text d' (c' :: r') l level num ZBX_STATE_QUOTED) = inl (at_text (d' ++ [c']) r' l level num ZBX_STATE_QUOTED)).
  { intros d' r' c' H0 H1. unfold at_text at 1, parse_params_body. rewrite chr_at, (proj2 (Z.eqb_neq _ _) H0), (proj2 (Z.eqb_neq _ _) H1).
    cbn [orb negb andb]. by rewrite next_char. }
  destruct (Z.eqb_spec c QUOTE) as [-> | Hq].
  - change (ch "\" :: QUOTE :: escape_quotes w) with ([ch "\"] ++ [QUOTE] ++ escape_quotes w) at 2. rewrite !app_assoc.
    eapply rtc_l; [by apply Hplain|]. eapply rtc_l; [|apply IH]. unfold at_text at 1, parse_params_body. rewrite chr_at.
    cbn [Z.eqb Pos.eqb orb negb andb].
    assert (Hprev : chr ((d ++ [ch "\"]) ++ QUOTE :: escape_quotes w ++ r) (length (d ++ [ch "\"]) - 1) = ch "\").
    { rewrite length_app. cbn [length]. rewrite Nat.add_sub, <- app_assoc. apply chr_at. }
    match goal with |- context [chr ?x ?y] => change (chr x y) with (chr ((d ++ [ch "\"]) ++ QUOTE :: escape_quotes w ++ r) (length (d ++ [ch "\"]) - 1)) end.
    rewrite Hprev. cbn [Z.eqb Pos.eqb negb]. by rewrite next_char.
  - change (c :: escape_quotes w) with ([c] ++ escape_quotes w) at 2. rewrite (app_assoc d).
    eapply rtc_l; [by apply Hplain|]. apply IH.
Qed.

Lemma escape_is_text (w : list Z) : is_text (escape_quotes w) -> is_text w.
Proof.
  induction w as [|c w IH]; [constructor|]. cbn. destruct (Z.eqb_spec c QUOTE) as [-> |]; intros H.
  - inversion H as [|? ? _ H']. inversion H'. constructor; [done|by apply IH].
  - inversion H. constructor; [done|by apply IH].
Qed.

Lemma escape_last (w : list Z) : w <> [] -> list.last (escape_quotes w) = list.last w.
Proof.
  induction w as [|c w IH]; [done|]. intros _. cbn [escape_quotes]. destruct w as [|c' w]; [by destruct (c =? QUOTE)|].
  specialize (IH ltac:(done)).
  assert (Hne : exists x l, escape_quotes (c' :: w) = x :: l) by (cbn; destruct (c' =? QUOTE); eauto).
  destruct Hne as (x & l & E). rewrite E in *. destruct (c =? QUOTE); exact IH.
Qed.

Lemma chr_last (d r : list Z) : d <> [] -> Some (chr (d ++ r) (length d - 1)) = list.last d.
Proof.
  intros Hd. destruct d as [|c d _] using rev_ind; [done|]. rewrite length_app, last_snoc. cbn [length].
  rewrite Nat.add_sub, <- app_assoc. f_equal. apply chr_at.
Qed.

(** A parameter up to what ends it. *)
Lemma elem_new_steps (e : elem) (d r : list Z) (l : nat) (level num c : Z) :
  elem_ok e -> is_text (elem_text e) -> c = ch "," \/ c = ch "]" ->
  (exists l', at_text d (elem_text e ++ c :: r) l level num ZBX_STATE_NEW ~>
    at_text (d ++ elem_new level num e) (c :: r) l' level num ZBX_STATE_END) \/
  (exists n, elem_new level num e = spaces n ++ answer [] level num false /\
    at_text d (elem_text e ++ c :: r) l level num ZBX_STATE_NEW ~> at_text (d ++ spaces n) (c :: r) l level num ZBX_STATE_NEW).
Proof.
  intros He Ht Hc. destruct e as [n w | n w m]; cbn [elem_text elem_new elem_ok] in *; apply Forall_app in Ht as [_ Ht].
  - destruct He as [Hw [-> | Hs]].
    { right. exists n. split; [done|]. rewrite app_nil_r. apply skip_new. by left. }
    destruct w as [|c0 w].
    { right. exists n. split; [done|]. rewrite app_nil_r. apply skip_new. by left. }
    left. exists (length (d ++ spaces n)). rewrite <- app_assoc. etrans; [apply skip_new; by left|]. cbn [hd0] in Hs.
    unfold unquoted_start in Hs. rewrite !andb_true_iff, !negb_true_iff in Hs. destruct Hs as [[[[H1 H2] H3] H4] H5].
    inversion Ht as [|? ? H0 Ht']; subst. inversion Hw as [|? ? _ Hw']; subst. cbn [app].
    eapply rtc_l with (at_text ((d ++ spaces n) ++ [c0]) (w ++ c :: r) (length (d ++ spaces n)) level num ZBX_STATE_UNQUOTED).
    { unfold at_text at 1, parse_params_body. rewrite chr_at, (proj2 (Z.eqb_neq _ _) H0), H1, H2, H3, H4, H5. cbn [orb negb].
      by rewrite next_char. }
    etrans; [by apply unquoted_new|]. apply steps_one. rewrite (app_assoc d). set (d' := d ++ spaces n).
    unfold at_text at 1, parse_params_body. rewrite chr_at.
    assert (Hcc : (c =? 0) = false /\ (c =? ch "]") || (c =? ch ",") = true) by by destruct Hc as [-> | ->].
    destruct Hcc as [-> ->]. cbn [orb negb]. rewrite <- (app_assoc d' [c0]). cbn [app].
    rewrite <- (app_assoc d' (c0 :: w)), replaced. unfold at_text. by rewrite <- app_assoc.
  - left. exists (length (d ++ spaces n)). rewrite <- app_assoc. etrans; [apply skip_new; by left|]. rewrite !app_assoc.
    set (d' := d ++ spaces n). cbn [app]. rewrite <- !app_assoc. cbn [app].
    inversion Ht as [|? ? _ Ht']; subst. apply Forall_app in Ht' as [Ht' _].
    apply escape_is_text in Ht'. rename Ht' into Hw.
    eapply rtc_l with (at_text (d' ++ [QUOTE]) (escape_quotes w ++ QUOTE :: spaces m ++ c :: r) (length d') level num ZBX_STATE_QUOTED).
    { unfold at_text at 1, parse_params_body. rewrite chr_at. cbn [Z.eqb Pos.eqb orb negb]. by rewrite next_char. }
    etrans; [by apply escape_new|].
    eapply rtc_l; [|rewrite app_assoc; apply skip_new; by right].
    unfold at_text at 1, parse_params_body. rewrite chr_at. cbn [Z.eqb Pos.eqb orb negb andb].
    assert (Hlast : chr (((d' ++ [QUOTE]) ++ escape_quotes w) ++ QUOTE :: spaces m ++ c :: r)
      (length ((d' ++ [QUOTE]) ++ escape_quotes w) - 1) =? ch "\" = false).
    { apply Z.eqb_neq. intros E. apply (f_equal Some) in E. rewrite chr_last in E by by destruct d'.
      apply bool_decide_eq_false in He. destruct w as [|c1 w]; [by rewrite app_nil_r, last_snoc in E|].
      rewrite last_app, escape_last in E by done. destruct (list.last (c1 :: w)) eqn:El; [done|]. by apply last_None in El. }
    rewrite Hlast. cbn [negb]. rewrite <- !(app_assoc d').
    replace (length (d' ++ [QUOTE] ++ escape_quotes w) + 1)%nat with (length (d' ++ QUOTE :: escape_quotes w ++ [QUOTE])).
    2: { rewrite !length_app. cbn [length]. rewrite length_app. cbn. lia. }
    replace (([QUOTE] ++ escape_quotes w) ++ QUOTE :: spaces m ++ c :: r)
      with ((QUOTE :: escape_quotes w ++ [QUOTE]) ++ spaces m ++ c :: r) by by (cbn; rewrite <- app_assoc).
    rewrite replaced. unfold at_text. by rewrite <- app_assoc.
Qed.

(** The same text behind, with its pieces put together in another order. *)
Lemma at_text_eq (d d' r : list Z) (l : nat) (level num : Z) (st : zbx_parser_state) (x : replacing) :
  d = d' -> x ~> at_text d r l level num st -> x ~> at_text d' r l level num st.
Proof. by intros ->. Qed.

Ltac reassoc H := eapply at_text_eq; [|exact H]; cbn [fmap list_fmap]; repeat (rewrite <- app_assoc || cbn [app commas]); reflexivity.

(** The next character read in the state between parameters. *)
Lemma end_comma (d r : list Z) (l : nat) (level num : Z) :
  at_text d (ch "," :: r) l level num ZBX_STATE_END ~>
  at_text (d ++ [ch ","]) r l level (if level =? 1 then num + 1 else num) ZBX_STATE_NEW.
Proof. apply steps_one. unfold at_text at 1, parse_params_body. rewrite chr_at. cbn. by rewrite next_char. Qed.

Lemma end_close (d r : list Z) (l : nat) (level num : Z) :
  0 < level -> at_text d (ch "]" :: r) l level num ZBX_STATE_END ~> at_text (d ++ [ch "]"]) r l (level - 1) num ZBX_STATE_END.
Proof.
  intros Hl. apply steps_one. unfold at_text at 1, parse_params_body. rewrite chr_at. cbn.
  rewrite (proj2 (Z.eqb_neq _ _)) by lia. by rewrite next_char.
Qed.

(** A parameter with no text is asked for where it ends. *)
Lemma new_empty (d r : list Z) (level num : Z) (quoted : bool) :
  replace_key_param cb (d ++ r) (length d) (length d) level num quoted =
  (true, (d ++ answer [] level num quoted) ++ r, length (d ++ answer [] level num quoted)).
Proof. pose proof (replaced d [] r level num quoted) as H. rewrite app_nil_r in H. cbn [app] in H. by rewrite H, <- app_assoc. Qed.

Lemma new_comma (d r : list Z) (l : nat) (level num : Z) :
  at_text d (ch "," :: r) l level num ZBX_STATE_NEW ~>
  at_text ((d ++ answer [] level num false) ++ [ch ","]) r l level (if level =? 1 then num + 1 else num) ZBX_STATE_NEW.
Proof.
  apply steps_one. unfold at_text at 1, parse_params_body. rewrite chr_at. cbn [Z.eqb Pos.eqb orb negb].
  rewrite new_empty. by rewrite next_char.
Qed.

Lemma new_close (d r : list Z) (l : nat) (level num : Z) :
  at_text d (ch "]" :: r) l level num ZBX_STATE_NEW ~>
  at_text ((d ++ answer [] level num false) ++ [ch "]"]) r l (level - 1) num ZBX_STATE_END.
Proof.
  apply steps_one. unfold at_text at 1, parse_params_body. rewrite chr_at. cbn [Z.eqb Pos.eqb orb negb].
  rewrite new_empty. by rewrite next_char.
Qed.

(** A parameter with the comma or the bracket after it. *)
Lemma elem_comma (e : elem) (d r : list Z) (l : nat) (level num : Z) :
  elem_ok e -> is_text (elem_text e) ->
  exists l', at_text d (elem_text e ++ ch "," :: r) l level num ZBX_STATE_NEW ~>
    at_text ((d ++ elem_new level num e) ++ [ch ","]) r l' level (if level =? 1 then num + 1 else num) ZBX_STATE_NEW.
Proof.
  intros He Ht. destruct (elem_new_steps e d r l level num (ch ",") He Ht) as [[l' H] | (n & -> & H)]; [by left|..].
  - exists l'. etrans; [exact H|]. apply end_comma.
  - exists l. etrans; [exact H|]. rewrite (app_assoc d). apply new_comma.
Qed.

Lemma elem_close (e : elem) (d r : list Z) (l : nat) (level num : Z) :
  0 < level -> elem_ok e -> is_text (elem_text e) ->
  exists l', at_text d (elem_text e ++ ch "]" :: r) l level num ZBX_STATE_NEW ~>
    at_text ((d ++ elem_new level num e) ++ [ch "]"]) r l' (level - 1) num ZBX_STATE_END.
Proof.
  intros Hl He Ht. destruct (elem_new_steps e d r l level num (ch "]") He Ht) as [[l' H] | (n & -> & H)]; [by right|..].
  - exists l'. etrans; [exact H|]. by apply end_close.
  - exists l. etrans; [exact H|]. rewrite (app_assoc d). apply new_close.
Qed.

Lemma commas_is_text (x : list Z) (xs : list (list Z)) : is_text (commas x xs) -> is_text x /\ Forall is_text xs.
Proof.
  revert x. induction xs as [|y ys IH]; intros x H; [done|]. cbn in H. apply Forall_app in H as [Hx H]. inversion H; subst.
  destruct (IH y) as [? ?]; [done|]. by repeat constructor.
Qed.

Lemma elems_close (e : elem) (es : list elem) (d r : list Z) (l : nat) (num : Z) :
  elem_ok e -> Forall elem_ok es -> is_text (elem_text e) -> Forall is_text (elem_text <$> es) ->
  exists l', at_text d (commas (elem_text e) (elem_text <$> es) ++ ch "]" :: r) l 2 num ZBX_STATE_NEW ~>
    at_text ((d ++ commas (elem_new 2 num e) (elem_new 2 num <$> es)) ++ [ch "]"]) r l' 1 num ZBX_STATE_END.
Proof.
  intros He Hes. revert e He d l. induction Hes as [|e' es He' _ IH]; intros e He d l Ht Hts; cbn [fmap list_fmap commas].
  - by apply elem_close.
  - inversion Hts as [|? ? Ht' Hts']; subst. rewrite <- app_assoc. cbn [app].
    destruct (elem_comma e d (commas (elem_text e') (elem_text <$> es) ++ ch "]" :: r) l 2 num He Ht) as [l1 H1].
    destruct (IH e' He' ((d ++ elem_new 2 num e) ++ [ch ","]) l1 Ht' Hts') as [l2 H2]. exists l2. etrans; [exact H1|].
    reassoc H2.
Qed.

(** An array up to what follows it. *)
Lemma array_steps (n m : nat) (e : elem) (es : list elem) (d r : list Z) (l : nat) (num c : Z) :
  param_ok (PArray n e es m) -> is_text (param_text (PArray n e es m)) ->
  exists l', at_text d (param_text (PArray n e es m) ++ c :: r) l 1 num ZBX_STATE_NEW ~>
    at_text (d ++ param_new num (PArray n e es m)) (c :: r) l' 1 num ZBX_STATE_END.
Proof.
  intros [He Hes] Ht. cbn [param_text param_new] in *. apply Forall_app in Ht as [_ Ht]. inversion Ht as [|? ? _ Ht']; subst.
  apply Forall_app in Ht' as [[Ht1 Ht2]%commas_is_text _].
  destruct (elems_close e es ((d ++ spaces n) ++ [ch "["]) (spaces m ++ c :: r) l num He Hes Ht1 Ht2) as [l' H]. exists l'.
  rewrite <- app_assoc. etrans; [apply skip_new; by left|]. cbn [app]. rewrite <- app_assoc. cbn [app].
  eapply rtc_l with (at_text ((d ++ spaces n) ++ [ch "["]) _ l 2 num ZBX_STATE_NEW).
  { unfold at_text at 1, parse_params_body. rewrite chr_at. cbn [Z.eqb Pos.eqb orb negb Z.add Pos.add Pos.succ]. by rewrite next_char. }
  etrans; [exact H|]. etrans; [apply skip_new; by right|]. by rewrite <- !app_assoc.
Qed.

Lemma param_comma (p : param) (d r : list Z) (l : nat) (num : Z) :
  param_ok p -> is_text (param_text p) ->
  exists l', at_text d (param_text p ++ ch "," :: r) l 1 num ZBX_STATE_NEW ~>
    at_text ((d ++ param_new num p) ++ [ch ","]) r l' 1 (num + 1) ZBX_STATE_NEW.
Proof.
  intros Hp Ht. destruct p as [e | n e es m]; [by apply elem_comma|].
  destruct (array_steps n m e es d r l num (ch ",") Hp Ht) as [l' H]. exists l'. etrans; [exact H|]. apply end_comma.
Qed.

Lemma param_close (p : param) (d r : list Z) (l : nat) (num : Z) :
  param_ok p -> is_text (param_text p) ->
  exists l', at_text d (param_text p ++ ch "]" :: r) l 1 num ZBX_STATE_NEW ~>
    at_text ((d ++ param_new num p) ++ [ch "]"]) r l' 0 num ZBX_STATE_END.
Proof.
  intros Hp Ht. destruct p as [e | n e es m]; [by apply (elem_close e d r l 1)|].
  destruct (array_steps n m e es d r l num (ch "]") Hp Ht) as [l' H]. exists l'. etrans; [exact H|]. by apply end_close.
Qed.

Lemma params_close (p : param) (ps : list param) (d : list Z) (l : nat) (num : Z) :
  param_ok p -> Forall param_ok ps -> is_text (params_text p ps) ->
  exists l' num', at_text d (params_text p ps ++ [ch "]"]) l 1 num ZBX_STATE_NEW ~>
    at_text (d ++ params_new num p ps ++ [ch "]"]) [] l' 0 num' ZBX_STATE_END.
Proof.
  unfold params_text. intros Hp Hps. revert p Hp d l num. induction Hps as [|q qs Hq _ IH]; intros p Hp d l num Ht;
    cbn [fmap list_fmap commas params_new] in *.
  - destruct (param_close p d [] l num Hp Ht) as [l' H]. exists l', num. reassoc H.
  - apply Forall_app in Ht as [Ht1 Ht2]. inversion Ht2 as [|? ? _ Ht3]; subst. rewrite <- app_assoc. cbn [app].
    destruct (param_comma p d (commas (param_text q) (param_text <$> qs) ++ [ch "]"]) l num Hp Ht1) as [l1 H1].
    destruct (IH q Hq ((d ++ param_new num p) ++ [ch ","]) l1 (num + 1) Ht3) as (l2 & num2 & H2). exists l2, num2.
    etrans; [exact H1|]. reassoc H2.
Qed.

(** The whole key. *)
Lemma replace_runs (name : list Z) (p : param) (ps : list param) :
  key_name name -> param_ok p -> Forall param_ok ps -> is_text (params_text p ps) ->
  exists l num, let data := answer name 0 0 false ++ ch "[" :: params_new 1 p ps ++ [ch "]"] in
  parse_params cb (with_params name p ps) (length name) = Ret (Replacing data (length data) l 0 num ZBX_STATE_END true).
Proof.
  intros Hn Hp Hps Ht. set (a := answer name 0 0 false).
  destruct (params_close p ps (a ++ [ch "["]) 0 1 Hp Hps Ht) as (l & num & H). exists l, num. cbn zeta.
  unfold parse_params, with_params. pose proof (replaced [] name (ch "[" :: params_text p ps ++ [ch "]"]) 0 0 false) as Hr.
  cbn [app length] in Hr. rewrite Hr. fold a.
  destruct (loop_total _ replace_rounds (parse_params_rounds cb)
    (2 * length (a ++ ch "[" :: params_text p ps ++ [ch "]"]) + 2)
    (Replacing (a ++ ch "[" :: params_text p ps ++ [ch "]"]) (length a) 0 0 0 ZBX_STATE_NEW true)) as [x E].
  { unfold replace_rounds. cbn [k_data k_i k_state]. lia. }
  rewrite E. f_equal. apply loop_runs in E. eapply runs_det; [exact E|].
  eapply runs_steps with (at_text ((a ++ [ch "["]) ++ params_new 1 p ps ++ [ch "]"]) [] l 0 num ZBX_STATE_END).
  - eapply rtc_l; [|exact H]. unfold parse_params_body. rewrite chr_at. cbn [Z.eqb Pos.eqb orb negb]. by rewrite next_char.
  - constructor. unfold at_text. rewrite app_nil_r, <- app_assoc. cbn [app parse_params_body].
    unfold chr at 1. by rewrite nth_overflow by lia.
Qed.
End Replace.

(** A callback that answers what another does where that one refuses nothing. *)
Definition agrees (cb cb' : replace_key_param_f) : Prop :=
  forall text level num quoted, (cb text level num quoted).1 = true -> cb' text level num quoted = cb text level num quoted.

Definition never_refuses (cb : replace_key_param_f) : replace_key_param_f := fun text level num quoted => (true, (cb text level num quoted).2).

Lemma never_refuses_agrees (cb : replace_key_param_f) : agrees cb (never_refuses cb).
Proof. intros text level num quoted. unfold never_refuses. destruct (cb text level num quoted) as [ret o]. cbn. by intros ->. Qed.

Section Accepted.
  Context (cb cb' : replace_key_param_f) (Hagree : agrees cb cb').

Lemma agrees_replace (data data' : list Z) (l i i' : nat) (level num : Z) (quoted : bool) :
  replace_key_param cb data l i level num quoted = (true, data', i') ->
  replace_key_param cb' data l i level num quoted = (true, data', i').
Proof.
  unfold replace_key_param. intros H. pose proof (Hagree (drop l (take i data)) level num quoted) as Ha.
  destruct (cb (drop l (take i data)) level num quoted) as [[] o]; [by rewrite Ha|by destruct o].
Qed.

(** As long as nothing is refused the two runs are the same. *)
Lemma accepted_body (x y : replacing) :
  parse_params_body cb x = inl y -> k_ret y = true -> parse_params_body cb' x = inl y.
Proof.
  destruct x as [data i l level num st ret]. unfold parse_params_body. destruct ((chr data i =? 0) || negb ret); [done|].
  destruct st; repeat match goal with
    | |- context [if ?b then _ else _] => destruct b; try done
    | |- context [replace_key_param cb ?d ?l ?i ?lv ?n ?q] =>
      let E := fresh in destruct (replace_key_param cb d l i lv n q) as [[? ?] ?] eqn:E;
      intros [= <-] Hret; cbn in Hret; subst; by rewrite (agrees_replace _ _ _ _ _ _ _ _ E)
    end.
Qed.

Lemma refused_stops (x r : replacing) : k_ret x = false -> runs (parse_params_body cb) x r -> r = x.
Proof.
  intros Hx H. assert (E : parse_params_body cb x = inr x).
  { destruct x as [? ? ? ? ? ? ret]. cbn in *. subst ret. by rewrite orb_true_r. }
  by apply (runs_last _ _ _ E) in H.
Qed.

Lemma accepted_runs (x r : replacing) :
  runs (parse_params_body cb) x r -> k_ret r = true -> runs (parse_params_body cb') x r.
Proof.
  induction 1 as [x r E | x y r E Hr IH]; intros Hret.
  - constructor. destruct x as [data i l level num st ret]. revert E. unfold parse_params_body.
    destruct ((chr data i =? 0) || negb ret); [done|].
    destruct st; repeat match goal with
      | |- context [if ?b then _ else _] => destruct b; try done
      | |- context [replace_key_param ?c ?d ?l ?i ?lv ?n ?q] => destruct (replace_key_param c d l i lv n q) as [[? ?] ?]; try done
      end.
  - specialize (IH Hret). destruct (k_ret y) eqn:Ey; [|by rewrite (refused_stops _ _ Ey Hr), Ey in Hret].
    econstructor 2; [by apply accepted_body|done].
Qed.

Lemma accepted_parse (data : list Z) (i : nat) (x : replacing) :
  parse_params cb data i = Ret x -> k_ret x = true -> parse_params cb' data i = Ret x.
Proof.
  unfold parse_params. destruct (replace_key_param cb data 0 i 0 0 false) as [[ret data'] i'] eqn:E.
  intros H%loop_runs Hret. destruct ret; [|by apply refused_stops in H as ->].
  rewrite (agrees_replace _ _ _ _ _ _ _ _ E). apply accepted_runs in H; [|done].
  destruct (loop_total _ replace_rounds (parse_params_rounds cb') (2 * length data' + 2)
    (Replacing data' i' 0 0 0 ZBX_STATE_NEW true)) as [y Ey]; [unfold replace_rounds; cbn [k_data k_i k_state]; lia|].
  rewrite Ey. f_equal. eapply runs_det; [by eapply loop_runs|done].
Qed.
End Accepted.

(** What a key becomes if nothing is refused. *)
Definition new_key (cb : replace_key_param_f) (name : list Z) (p : param) (ps : list param) : list Z :=
  answer cb name 0 0 false ++ ch "[" :: params_new cb 1 p ps ++ [ch "]"].

Lemma key_at (name s : list Z) :
  key_name name -> let data := name ++ ch "[" :: s in
  length (take_while zbx_is_key_char data) = length name /\
  (length name =? 0)%nat || (negb (chr data (length name) =? ch "[") && negb (chr data (length name) =? 0)) = false.
Proof.
  intros Hn data. unfold data. destruct (key_name_split name (ch "[" :: s) Hn eq_refl) as [-> _]. split; [done|].
  rewrite chr_at. destruct Hn as [Hn _]. by destruct name.
Qed.

Lemma replace_key_ends (cb : replace_key_param_f) (data : list Z) :
  exists ok out, zbx_replace_key_params_dyn cb data = Ret (ok, out).
Proof.
  unfold zbx_replace_key_params_dyn. destruct ((_ =? 0)%nat || _); [eauto|].
  destruct (parse_params_total cb data (length (take_while zbx_is_key_char data))) as [x ->]. run. eauto.
Qed.

(** A run that succeeds ends with what any callback that agrees and refuses
    nothing makes of the key. *)
Lemma replace_key_new (cb cb' : replace_key_param_f) (name : list Z) (p : param) (ps : list param) (out : list Z) :
  agrees cb cb' -> (forall text level num quoted, (cb' text level num quoted).1 = true) ->
  key_name name -> param_ok p -> Forall param_ok ps -> is_text (params_text p ps) ->
  zbx_replace_key_params_dyn cb (with_params name p ps) = Ret (true, out) -> out = new_key cb' name p ps.
Proof.
  intros Ha Hok Hn Hp Hps Ht. unfold zbx_replace_key_params_dyn. destruct (key_at name (params_text p ps ++ [ch "]"]) Hn) as [Hl Hc].
  fold (with_params name p ps) in Hl, Hc. rewrite Hl, Hc.
  destruct (parse_params_total cb (with_params name p ps) (length name)) as [x Ex]. rewrite Ex. run. intros H.
  apply Ret_inj in H as [= Hr <-].
  assert (Hret : k_ret x = true) by by destruct ((k_i x =? 0)%nat || _ || _).
  apply (accepted_parse cb cb' Ha) in Ex; [|done].
  destruct (replace_runs cb' Hok name p ps Hn Hp Hps Ht) as (l & num & E). rewrite E in Ex.
  by injection Ex as <-.
Qed.

Lemma replace_key_accepted (cb : replace_key_param_f) (name : list Z) (p : param) (ps : list param) :
  key_name name -> param_ok p -> Forall param_ok ps -> is_text (params_text p ps) ->
  (forall text level num quoted, (cb text level num quoted).1 = true) ->
  zbx_replace_key_params_dyn cb (with_params name p ps) = Ret (true, new_key cb name p ps).
Proof.
  intros Hn Hp Hps Ht Hcb. unfold zbx_replace_key_params_dyn. destruct (key_at name (params_text p ps ++ [ch "]"]) Hn) as [Hl Hc].
  fold (with_params name p ps) in Hl, Hc. rewrite Hl, Hc.
  destruct (replace_runs cb Hcb name p ps Hn Hp Hps Ht) as (l & num & E). rewrite E. run. cbn [k_i k_data k_level k_ret].
  fold (new_key cb name p ps). unfold chr. rewrite nth_overflow by lia. rewrite (proj2 (Nat.eqb_neq _ _)); [done|].
  unfold new_key. rewrite length_app. cbn. lia.
Qed.

(** The parameters of an item key are replaced in place and nothing else is touched: zbx_replace_key_params_dyn always
    ends, and if it succeeds on a key made of a name and a list of parameters, then in the result the name, each text
    without quotes, each text in quotes (with them) and each element of an array is the callback's answer for just that
    text, its level of brackets and the number of its parameter, or is as it was if the callback gives none, and the
    spaces, commas and brackets stand as they stood; it succeeds if the callback refuses nothing. *)
Theorem params_replaced (cb : replace_key_param_f) (name : list Z) (p : param) (ps : list param) :
  key_name name -> param_ok p -> Forall param_ok ps -> is_text (params_text p ps) ->
  (forall data, exists ok out, zbx_replace_key_params_dyn cb data = Ret (ok, out)) /\
  (forall out, zbx_replace_key_params_dyn cb (with_params name p ps) = Ret (true, out) -> out = new_key cb name p ps) /\
  ((forall text level num quoted, (cb text level num quoted).1 = true) ->
   zbx_replace_key_params_dyn cb (with_params name p ps) = Ret (true, new_key cb name p ps)).
Proof.
  intros Hn Hp Hps Ht. split_and!.
  - apply replace_key_ends.
  - intros out. by apply (replace_key_new cb (never_refuses cb)); [apply never_refuses_agrees|..].
  - by apply replace_key_accepted.
Qed.

Lemma params_replaced_witness :
  let cb := fun (text : list Z) (level num : Z) (quoted : bool) => (true, if quoted then None else Some (txt "<" ++ text ++ txt ">")) in
  let p := PElem (EUnquoted 1 (txt "a")) in
  let ps := [PArray 0 (EUnquoted 0 (txt "b")) [EQuoted 1 (txt "c") 2; EUnquoted 0 []] 0] in
  with_params (txt "k") p ps = txt "k[ a,[b, " ++ QUOTE :: txt "c" ++ QUOTE :: txt "  ,]]" /\
  zbx_replace_key_params_dyn cb (with_params (txt "k") p ps) = Ret (true, txt "<k>[ <a>,[<b>, " ++ QUOTE :: txt "c" ++ QUOTE :: txt "  ,<>]]").
Proof.
  intros cb p ps.
  assert (Hn : key_name (txt "k")) by (split; [done|by repeat constructor]).
  assert (Hp : param_ok p) by (cbn; split; [by repeat constructor|by right]).
  assert (Hps : Forall param_ok ps).
  { repeat constructor; try done; by right. }
  assert (Ht : is_text (params_text p ps)) by by repeat constructor.
  destruct (params_replaced cb (txt "k") p ps Hn Hp Hps Ht) as (_ & _ & H).
  specialize (H ltac:(done)). split; [vm_compute; done|]. rewrite H. vm_compute. done.
Defined.
