(* ===== verification/ExprSubst.v ===== *)
(** Macros in the parameters of an item key: the callbacks that substitute
    them (zbxcacheconfig/macro_ctx.c, zabbix_server/lld/lld_macro.c), and that
    a value put in for a macro stays inside the parameter it is put into. *)

From Stdlib Require Import ZArith Lia ZifyBool.
From S2P Require Import Prelude ExprScan ExprKey ExprKeyGrammar ExprKeyParse ExprParam ExprParamValue ExprReplace.
From stdpp Require Import base list numbers strings relations.

Open Scope Z_scope.
Import CharConst.

(** zbx_unquote_key_param where it is defined: a parameter that starts with a
    quote has both when the callbacks get it. *)
Definition unquoted (data : list Z) : list Z := match zbx_unquote_key_param data with Ret s => s | _ => data end.

(** The two callbacks, which differ in what expands the macros of a text. *)
Definition zbx_item_key_subst_cb (zbx_substitute_macros : list Z -> list Z) : replace_key_param_f :=
  fun data level _ quoted =>
    if negb (bool_decide (ch "{" ∈ data)) then (true, None)
    else
      let param := zbx_substitute_macros (if negb (level =? 0) then unquoted data else data) in
      if negb (level =? 0) then
        match zbx_quote_key_param param (if quoted then 1 else 0) with Some param => (true, Some param) | None => (false, None) end
      else (true, Some param).

Definition lld_substitute_key_cb (zbx_substitute_lld_macros : list Z -> list Z) : replace_key_param_f :=
  fun data level _ quoted =>
    if negb (bool_decide (ch "{" ∈ data)) then (true, None)
    else
      let param := zbx_substitute_lld_macros (if negb (level =? 0) then unquoted data else data) in
      if negb (level =? 0) then
        match zbx_quote_key_param param (if quoted then 1 else 0) with Some param => (true, Some param) | None => (false, None) end
      else (true, Some param).

(* ------------------------------------------------------------------ *)
(** ** A run that succeeds has refused nothing *)

Section Refused.
  Context (cb : replace_key_param_f).

(** [cb], with [t] where it refuses. *)
Definition or_text (t : list Z) : replace_key_param_f :=
  fun text level num quoted => if (cb text level num quoted).1 then cb text level num quoted else (true, Some t).

(** [l'] is as long as [l] at least, and longer unless [P]. *)
Definition longer (l l' : list Z) (P : Prop) : Prop := (length l <= length l')%nat /\ (length l = length l' -> P).

Lemma longer_app (l l' m m' : list Z) (P Q : Prop) : longer l l' P -> longer m m' Q -> longer (l ++ m) (l' ++ m') (P /\ Q).
Proof. unfold longer. rewrite !length_app. intros [H1 H2] [H3 H4]. split; [lia|]. intros H. split; [apply H2|apply H4]; lia. Qed.

Lemma longer_same (l : list Z) : longer l l True.
Proof. done. Qed.

Lemma longer_impl (l l' : list Z) (P Q : Prop) : longer l l' P -> (P -> Q) -> longer l l' Q.
Proof. intros [H1 H2] HPQ. split; [done|]. tauto. Qed.

Lemma longer_answer (text : list Z) (level num : Z) (quoted : bool) :
  longer (answer (or_text []) text level num quoted) (answer (or_text [0]) text level num quoted)
    ((cb text level num quoted).1 = true).
Proof. unfold longer, answer, or_text. destruct (cb text level num quoted) as [[] o]; [done|]. cbn. split; [lia|done]. Qed.

Definition elem_accepted (level num : Z) (e : elem) : Prop :=
  match e with
  | EUnquoted _ s => (cb s level num false).1 = true
  | EQuoted _ s _ => (cb (QUOTE :: escape_quotes s ++ [QUOTE]) level num true).1 = true
  end.

Definition param_accepted (num : Z) (p : param) : Prop :=
  match p with
  | PElem e => elem_accepted 1 num e
  | PArray _ e es _ => elem_accepted 2 num e /\ Forall (elem_accepted 2 num) es
  end.

Fixpoint params_accepted (num : Z) (p : param) (ps : list param) : Prop :=
  match ps with
  | [] => param_accepted num p
  | q :: qs => param_accepted num p /\ params_accepted (num + 1) q qs
  end.

Lemma longer_elem (level num : Z) (e : elem) :
  longer (elem_new (or_text []) level num e) (elem_new (or_text [0]) level num e) (elem_accepted level num e).
Proof.
  destruct e as [n s | n s m]; cbn [elem_new elem_accepted].
  - eapply longer_impl; [apply longer_app; [apply longer_same|apply longer_answer]|]. tauto.
  - eapply longer_impl; [apply longer_app; [apply longer_same|apply longer_app; [apply longer_answer|apply longer_same]]|]. tauto.
Qed.

Lemma longer_elems (level num : Z) (e : elem) (es : list elem) :
  longer (commas (elem_new (or_text []) level num e) (elem_new (or_text []) level num <$> es))
    (commas (elem_new (or_text [0]) level num e) (elem_new (or_text [0]) level num <$> es))
    (elem_accepted level num e /\ Forall (elem_accepted level num) es).
Proof.
  revert e. induction es as [|e' es IH]; intros e; cbn [fmap list_fmap commas].
  - eapply longer_impl; [apply longer_elem|done].
  - eapply longer_impl; [apply longer_app; [apply longer_elem|apply (longer_app [ch ","] [ch ","] _ _ True), IH; apply longer_same]|].
    intros (? & _ & ? & ?). split; [done|]. by constructor.
Qed.

Lemma longer_param (num : Z) (p : param) :
  longer (param_new (or_text []) num p) (param_new (or_text [0]) num p) (param_accepted num p).
Proof.
  destruct p as [e | n e es m]; [apply longer_elem|]. cbn [param_new param_accepted].
  eapply longer_impl; [apply longer_app; [apply longer_same|apply (longer_app [ch "["] [ch "["] _ _ True); [apply longer_same|]];
    apply longer_app; [apply longer_elems|apply longer_same]|]. tauto.
Qed.

Lemma longer_params (num : Z) (p : param) (ps : list param) :
  longer (params_new (or_text []) num p ps) (params_new (or_text [0]) num p ps) (params_accepted num p ps).
Proof.
  revert num p. induction ps as [|q qs IH]; intros num p; [apply longer_param|]. cbn [params_new params_accepted].
  eapply longer_impl; [apply longer_app; [apply longer_param|apply (longer_app [ch ","] [ch ","] _ _ True), IH; apply longer_same]|].
  tauto.
Qed.
End Refused.

Lemma or_text_agrees (cb : replace_key_param_f) (t : list Z) : agrees cb (or_text cb t).
Proof. intros text level num quoted H. unfold or_text. by rewrite H. Qed.

Lemma or_text_ok (cb : replace_key_param_f) (t text : list Z) (level num : Z) (quoted : bool) :
  (or_text cb t text level num quoted).1 = true.
Proof. unfold or_text. by destruct (cb text level num quoted).1 eqn:E. Qed.

(** What a key that is replaced successfully becomes. *)
Lemma replace_key_accepts (cb : replace_key_param_f) (name : list Z) (p : param) (ps : list param) (out : list Z) :
  key_name name -> param_ok p -> Forall param_ok ps -> is_text (params_text p ps) ->
  zbx_replace_key_params_dyn cb (with_params name p ps) = Ret (true, out) ->
  params_accepted cb 1 p ps /\ out = new_key cb name p ps.
Proof.
  intros Hn Hp Hps Ht Hout.
  pose proof (fun t => replace_key_new cb (or_text cb t) name p ps out (or_text_agrees cb t) (or_text_ok cb t) Hn Hp Hps Ht Hout) as H.
  split; [|by apply (replace_key_new cb (never_refuses cb)); [apply never_refuses_agrees|..]].
  pose proof (H []) as H0. rewrite (H [0]) in H0. unfold new_key in H0.
  eapply (longer_params cb 1 p ps). apply (f_equal length) in H0. revert H0. rewrite !length_app. cbn [length]. rewrite !length_app.
  pose proof (longer_answer cb name 0 0 false) as [Ha _]. pose proof (longer_params cb 1 p ps) as [Hb _]. lia.
Qed.

(* ------------------------------------------------------------------ *)
(** ** What is put in for the macros *)

Section Subst.
  Context (zbx_substitute_macros : list Z -> list Z).
  Context (subst_text : forall s, is_text s -> is_text (zbx_substitute_macros s)).
Notation cb := (zbx_item_key_subst_cb zbx_substitute_macros).

Definition has_macro (e : elem) : bool := bool_decide (ch "{" ∈ elem_raw e).

(** A parameter with its macros expanded.  A quoted one whose value ends with a
    backslash loses its quotes, and the spaces after them join the value. *)
Definition elem_subst (e : elem) : elem :=
  if has_macro e then
    let v := zbx_substitute_macros (elem_value e) in
    match e with
    | EUnquoted n _ => if needs_quotes v then EQuoted n v 0 else EUnquoted n v
    | EQuoted n _ m => if ends_with_backslash v then EUnquoted n (v ++ spaces m) else EQuoted n v m
    end
  else e.

Definition param_subst (p : param) : param :=
  match p with
  | PElem e => PElem (elem_subst e)
  | PArray n e es m => PArray n (elem_subst e) (elem_subst <$> es) m
  end.

Lemma unquote_raw (e : elem) : elem_ok e -> zbx_unquote_key_param (elem_raw e) = Ret (elem_value e).
Proof.
  destruct e as [n s | n s m]; cbn [elem_ok elem_raw elem_value].
  - intros [_ [-> | H]]; [done|]. destruct s as [|c s]; [done|]. unfold zbx_unquote_key_param. cbn [hd0] in H.
    unfold unquoted_start in H. rewrite !andb_true_iff, !negb_true_iff in H. destruct H as [[[[_ ->] _] _] _]. done.
  - intros H. unfold zbx_unquote_key_param. cbn [Z.eqb Pos.eqb]. rewrite unescape_escape by done.
    change (unescape_quotes [QUOTE]) with [QUOTE]. destruct (s ++ [QUOTE]) as [|c l] eqn:E; [by destruct s|].
    rewrite <- E. by rewrite removelast_last.
Qed.

Lemma unquoted_spaces (v : list Z) (m : nat) :
  v <> [] -> needs_quotes v = false -> elem_ok (EUnquoted 0 (v ++ spaces m)).
Proof.
  intros Hv H. destruct (needs_quotes_ok v H) as [H1 H2]. split.
  - apply Forall_app. split; [done|]. by apply Forall_replicate.
  - right. destruct v as [|c v]; [done|]. by destruct H2.
Qed.

(** The answer given for an element that is not refused, in its place. *)
Lemma elem_new_subst (level num : Z) (e : elem) :
  level <> 0 -> elem_ok e -> elem_accepted cb level num e ->
  elem_new cb level num e = elem_text (elem_subst e) /\ elem_ok (elem_subst e).
Proof.
  intros Hl%Z.eqb_neq He Ha. pose proof (unquote_raw e He) as Hu. unfold elem_subst, has_macro.
  destruct (bool_decide (ch "{" ∈ elem_raw e)) eqn:Hm;
    destruct e as [n s | n s m]; cbn [elem_raw elem_value elem_accepted elem_new elem_text] in *;
    unfold answer, zbx_item_key_subst_cb in *; rewrite Hl, Hm in *; cbn [negb default snd] in *;
    [ | |done|by rewrite <- app_comm_cons, <- app_assoc]; unfold unquoted in *; rewrite Hu in *;
    set (v := zbx_substitute_macros s) in *; unfold zbx_quote_key_param in *;
    destruct (needs_quotes v) eqn:Hn, (ends_with_backslash v) eqn:Hb; try discriminate Ha;
    cbn [negb andb Z.eqb Pos.eqb default snd];
    (split; [unfold id; cbn [elem_text]; rewrite <- ?app_assoc; reflexivity|]); first [done | exact (needs_quotes_ok v Hn) | idtac].
  apply unquoted_spaces; [|done]. intros Hv. by rewrite Hv in Hb.
Qed.

Lemma elem_value_text (e : elem) : is_text (elem_text e) -> is_text (elem_value e).
Proof.
  destruct e as [n s | n s m]; cbn [elem_text elem_value]; intros [_ H]%Forall_app; [done|].
  inversion H as [|? ? _ H']; subst. apply Forall_app in H' as [H' _]. by apply escape_is_text.
Qed.

Lemma spaces_text (n : nat) : is_text (spaces n).
Proof. by apply Forall_replicate. Qed.

Lemma elem_subst_text (e : elem) : is_text (elem_text e) -> is_text (elem_text (elem_subst e)).
Proof.
  intros Ht. pose proof (subst_text _ (elem_value_text e Ht)) as Hv. pose proof (escape_text _ Hv) as Hq. unfold elem_subst.
  destruct (has_macro e); [|done]. pose proof spaces_text as Hs.
  destruct e as [n s | n s m]; cbn [elem_value] in *; [destruct (needs_quotes _) | destruct (ends_with_backslash _)];
    cbn [elem_text]; repeat first [apply Forall_app; split | constructor]; done || apply Hs.
Qed.

Lemma elems_new_subst (num : Z) (e : elem) (es : list elem) :
  elem_ok e -> Forall elem_ok es -> elem_accepted cb 2 num e -> Forall (elem_accepted cb 2 num) es ->
  commas (elem_new cb 2 num e) (elem_new cb 2 num <$> es) = commas (elem_text (elem_subst e)) (elem_text <$> (elem_subst <$> es)) /\
  Forall elem_ok (elem_subst <$> es).
Proof.
  intros He Hes. revert e He. induction Hes as [|e' es He' _ IH]; intros e He Ha Has; cbn [fmap list_fmap commas].
  - destruct (elem_new_subst 2 num e) as [-> _]; done.
  - inversion Has as [|? ? Ha' Has']; subst. destruct (elem_new_subst 2 num e) as [-> _]; [done..|].
    destruct (IH e' He' Ha' Has') as [-> H]. split; [done|]. constructor; [|done]. by apply (elem_new_subst 2 num e').
Qed.

Lemma param_new_subst (num : Z) (p : param) :
  param_ok p -> param_accepted cb num p -> param_new cb num p = param_text (param_subst p) /\ param_ok (param_subst p).
Proof.
  destruct p as [e | n e es m]; cbn [param_ok param_accepted param_new param_text param_subst].
  - by apply elem_new_subst.
  - intros [He Hes] [Ha Has]. destruct (elems_new_subst num e es He Hes Ha Has) as [-> H]. split; [done|]. split; [|done].
    by apply (elem_new_subst 2 num e).
Qed.

Lemma params_new_subst (num : Z) (p : param) (ps : list param) :
  param_ok p -> Forall param_ok ps -> params_accepted cb num p ps ->
  params_new cb num p ps = params_text (param_subst p) (param_subst <$> ps) /\
  param_ok (param_subst p) /\ Forall param_ok (param_subst <$> ps).
Proof.
  unfold params_text. intros Hp Hps. revert p Hp num. induction Hps as [|q qs Hq _ IH]; intros p Hp num;
    cbn [params_accepted params_new fmap list_fmap commas].
  - intros Ha. by destruct (param_new_subst num p Hp Ha) as [-> H].
  - intros [Ha Has]. destruct (param_new_subst num p Hp Ha) as [-> H]. destruct (IH q Hq (num + 1) Has) as (-> & H1 & H2).
    split_and!; [done..|]. by constructor.
Qed.

Lemma texts_map {A} (f : A -> list Z) (g : A -> A) (l : list A) :
  (forall x, is_text (f x) -> is_text (f (g x))) -> Forall is_text (f <$> l) -> Forall is_text (f <$> (g <$> l)).
Proof. intros Hg. induction l as [|x l IH]; cbn; [done|]. intros H. inversion H; subst. constructor; [by apply Hg|by apply IH]. Qed.

Lemma param_subst_text (p : param) : is_text (param_text p) -> is_text (param_text (param_subst p)).
Proof.
  destruct p as [e | n e es m]; [apply elem_subst_text|]. cbn [param_text param_subst].
  intros [_ H]%Forall_app. inversion H as [|? ? _ H']; subst. apply Forall_app in H' as [[H1 H2]%commas_is_text _].
  apply Forall_app. split; [apply spaces_text|]. constructor; [done|]. apply Forall_app. split; [|constructor; [done|apply spaces_text]].
  apply commas_text; [by apply elem_subst_text|]. apply texts_map; [apply elem_subst_text|done].
Qed.

Lemma params_subst_text (p : param) (ps : list param) :
  is_text (params_text p ps) -> is_text (params_text (param_subst p) (param_subst <$> ps)).
Proof.
  unfold params_text. intros [H1 H2]%commas_is_text. apply commas_text; [by apply param_subst_text|].
  apply texts_map; [apply param_subst_text|done].
Qed.
(** The value a parameter ends up with. *)
Definition value_subst (e : elem) : list Z :=
  if has_macro e then
    let v := zbx_substitute_macros (elem_value e) in
    v ++ match e with EQuoted _ _ m => if ends_with_backslash v then spaces m else [] | EUnquoted _ _ => [] end
  else elem_value e.

Lemma elem_value_subst (e : elem) : elem_value (elem_subst e) = value_subst e.
Proof.
  unfold elem_subst, value_subst. destruct (has_macro e); [|done].
  destruct e as [n s | n s m]; cbn zeta; [destruct (needs_quotes _)|destruct (ends_with_backslash _)]; cbn [elem_value];
    by rewrite ?app_nil_r.
Qed.

(** The answer of zbx_parse_item_key for a parameter before and after. *)
Definition answer_subst (p : param) (a : option (list Z * zbx_request_parameter_type)) : Prop :=
  match p with
  | PElem e => option_map fst a = Some (value_subst e)
  | PArray _ e es _ =>
      a = Some (commas (elem_raw (elem_subst e)) (elem_raw <$> (elem_subst <$> es)), REQUEST_PARAMETER_TYPE_ARRAY)
  end.

Lemma answers_subst (l : list param) : Forall2 answer_subst l (param_answer <$> (param_subst <$> l)).
Proof.
  induction l as [|p l IH]; constructor; [|done]. destruct p as [e | n e es m]; [|done]. cbn. f_equal. apply elem_value_subst.
Qed.

Lemma subst_key (name : list Z) (p : param) (ps : list param) (out : list Z) :
  key_name name -> param_ok p -> Forall param_ok ps -> is_text (params_text p ps) ->
  zbx_substitute_item_key_params cb (with_params name p ps) = Ret (true, out) ->
  out = with_params name (param_subst p) (param_subst <$> ps) /\ param_ok (param_subst p) /\ Forall param_ok (param_subst <$> ps).
Proof.
  intros Hn Hp Hps Ht Hout. unfold zbx_substitute_item_key_params in Hout.
  apply replace_key_accepts in Hout as [Ha ->]; [|done..].
  destruct (params_new_subst 1 p ps Hp Hps) as (E & H); [exact Ha|]. split; [|done].
  unfold new_key, with_params. rewrite <- E. f_equal.
Qed.
End Subst.

(* ------------------------------------------------------------------ *)
(** ** Values stay in their parameters *)

(** The value of a quoted parameter ends with a backslash: the quotes are
    dropped and the space that followed them becomes part of the value. *)
Example backslash_takes_space :
  let key := txt "k[" ++ QUOTE :: txt "{$M}" ++ QUOTE :: txt " ]" in
  let substitute (s : list Z) := if bool_decide (s = txt "{$M}") then txt "a\" else s in
  zbx_substitute_item_key_params (zbx_item_key_subst_cb substitute) key = Ret (true, txt "k[a\ ]") /\
  zbx_parse_item_key key = Ret (Some (Request (txt "k") [Some (txt "{$M}", REQUEST_PARAMETER_TYPE_STRING)])) /\
  zbx_parse_item_key (txt "k[a\ ]") = Ret (Some (Request (txt "k") [Some (txt "a\ ", REQUEST_PARAMETER_TYPE_STRING)])).
Proof. vm_compute. done. Qed.

(** C12: The value of a macro cannot change the structure of an item key: whatever texts the macros stand for, commas,
    brackets and quotes included, if substituting them in a key made of a name and a list of parameters succeeds then the
    result is a key that zbx_parse_key accepts to its end, and zbx_parse_item_key splits it into the same name and as many
    parameters, of which each that is not an array has as its value the unquoted text of that parameter alone with its
    macros expanded (followed by the spaces after its quotes when a quoted text's value ends with a backslash), and each
    array has as many elements, with the values put in quotes where they need them. This holds for the callback of the
    configuration cache and for that of low-level discovery; unquoting is defined for each parameter. *)
Theorem substitution_safe (substitute : list Z -> list Z) (cb : replace_key_param_f)
    (name : list Z) (p : param) (ps : list param) (out : list Z) :
  (forall s, is_text s -> is_text (substitute s)) ->
  cb = zbx_item_key_subst_cb substitute \/ cb = lld_substitute_key_cb substitute ->
  key_name name -> param_ok p -> Forall param_ok ps -> is_text (params_text p ps) ->
  zbx_substitute_item_key_params cb (with_params name p ps) = Ret (true, out) ->
  zbx_parse_key out = Ret (true, []) /\
  (exists l, zbx_parse_item_key out = Ret (Some (Request name l)) /\ Forall2 (answer_subst substitute) (p :: ps) l) /\
  (forall e, elem_ok e -> zbx_unquote_key_param (elem_raw e) = Ret (elem_value e)).
Proof.
  intros Hs Hcb Hn Hp Hps Ht Hout. assert (Hc : cb = zbx_item_key_subst_cb substitute) by by destruct Hcb.
  rewrite Hc in Hout. apply subst_key in Hout as (-> & Hp' & Hps'); [|done..]. split_and!.
  - rewrite <- (app_nil_r (with_params _ _ _)). by apply parse_key_with.
  - destruct (item_key_with name (param_subst substitute p) (param_subst substitute <$> ps) Hn Hp' Hps') as [_ E].
    { by apply params_subst_text. }
    eexists. split; [exact E|]. exact (answers_subst substitute (p :: ps)).
  - apply unquote_raw.
Qed.

Lemma substitution_safe_witness :
  let substitute (s : list Z) := if bool_decide (s = txt "{#N}") then txt "a],b" else s in
  let p := PElem (EUnquoted 0 (txt "{#N}")) in
  let ps := [PArray 0 (EUnquoted 1 (txt "{#N}")) [EUnquoted 0 (txt "c")] 0] in
  zbx_substitute_item_key_params (lld_substitute_key_cb substitute) (with_params (txt "k") p ps) =
    Ret (true, txt "k[" ++ QUOTE :: txt "a],b" ++ QUOTE :: txt ",[ " ++ QUOTE :: txt "a],b" ++ QUOTE :: txt ",c]]") /\
  exists l, zbx_parse_item_key (txt "k[" ++ QUOTE :: txt "a],b" ++ QUOTE :: txt ",[ " ++ QUOTE :: txt "a],b" ++ QUOTE :: txt ",c]]")
    = Ret (Some (Request (txt "k") l)) /\ Forall2 (answer_subst substitute) (p :: ps) l.
Proof.
  intros substitute p ps.
  assert (E : zbx_substitute_item_key_params (lld_substitute_key_cb substitute) (with_params (txt "k") p ps) =
    Ret (true, txt "k[" ++ QUOTE :: txt "a],b" ++ QUOTE :: txt ",[ " ++ QUOTE :: txt "a],b" ++ QUOTE :: txt ",c]]"))
    by (vm_compute; done).
  split; [exact E|].
  assert (Hs : forall s, is_text s -> is_text (substitute s)).
  { intros s H. unfold substitute. case_bool_decide; [by repeat constructor|done]. }
  assert (Hn : key_name (txt "k")) by (split; [done|by repeat constructor]).
  assert (Hw : elem_ok (EUnquoted 0 (txt "{#N}"))) by (split; [by repeat constructor|by right]).
  assert (Hc : elem_ok (EUnquoted 0 (txt "c"))) by (split; [by repeat constructor|by right]).
  assert (Hp : param_ok p) by exact Hw.
  assert (Hps : Forall param_ok ps) by (constructor; [split; [exact Hw|by constructor]|done]).
  assert (Ht : is_text (params_text p ps)) by by repeat constructor.
  exact (proj1 (proj2 (substitution_safe substitute (lld_substitute_key_cb substitute) (txt "k") p ps _ Hs (or_intror eq_refl) Hn Hp Hps Ht E))).
Defined.
