(* ===== verification/IpRange.v ===== *)
(** IP and port ranges (zbxip/iprange.c, zbxip/ip.c): parsing a range, walking
    through its addresses, walking through the distinct addresses of several
    ranges, counting them, and the tests for addresses. *)

From Stdlib Require Import ZArith Lia.
From S2P Require Import Prelude.
From S2P Require Num.
From stdpp Require Import base list numbers strings.

Open Scope Z_scope.
Import CharConst.

Inductive ip_type := ZBX_IPRANGE_V4 | ZBX_IPRANGE_V6.

#[export] Instance ip_type_eq_dec : EqDecision ip_type.
Proof. solve_decision. Defined.

Record zbx_range := Range { from : Z; to : Z }.

(** [range] has 8 entries. *)
Record zbx_iprange := Iprange { range : list zbx_range; type : ip_type; mask : bool }.

Definition ZBX_IPRANGE_GROUPS (t : ip_type) : nat := match t with ZBX_IPRANGE_V4 => 4 | ZBX_IPRANGE_V6 => 8 end.

Definition group (r : list zbx_range) (i : nat) : zbx_range := nth i r (Range 0 0).

(* ------------------------------------------------------------------ *)
(** ** The addresses of a range *)

(** if (ZBX_IPRANGE_V4 == iprange->type && 0 != iprange->mask) *)
Definition masked (r : zbx_iprange) : bool := bool_decide (type r = ZBX_IPRANGE_V4) && mask r.

(** The numbers of [address] past the groups stay. *)
Definition zbx_iprange_first (r : zbx_iprange) (address : list Z) : list Z :=
  let groups := ZBX_IPRANGE_GROUPS (type r) in
  let address := (from <$> take groups (range r)) ++ drop groups address in
  if masked r then <[(groups - 1)%nat := chr address (groups - 1) + 1]> address else address.

(** Whether some group [i], ..., 0 is not at its end. *)
Fixpoint not_last (i : nat) (r : list zbx_range) (address : list Z) : bool :=
  match i with
  | O => false
  | S i => if negb (chr address i =? to (group r i)) then true else not_last i r address
  end.

Fixpoint next_loop (i : nat) (r : zbx_iprange) (address : list Z) : bool * list Z :=
  match i with
  | O => (false, address)
  | S i =>
    let g := group (range r) i in
    if chr address i <? to g then
      let address := <[i := chr address i + 1]> address in
      (if masked r then not_last (ZBX_IPRANGE_GROUPS (type r)) (range r) address else true, address)
    else next_loop i r (if from g <? to g then <[i := from g]> address else address)
  end.

Definition zbx_iprange_next (r : zbx_iprange) (address : list Z) : bool * list Z :=
  next_loop (ZBX_IPRANGE_GROUPS (type r)) r address.

Fixpoint validate_loop (n i : nat) (r : list zbx_range) (address : list Z) : bool :=
  match n with
  | O => true
  | S n =>
    if (chr address i <? from (group r i)) || (to (group r i) <? chr address i) then false else validate_loop n (i + 1) r address
  end.

Definition zbx_iprange_validate (r : zbx_iprange) (address : list Z) : bool :=
  validate_loop (ZBX_IPRANGE_GROUPS (type r)) 0 (range r) address.

(** None for ZBX_MAX_UINT64 returned from the loop. *)
Fixpoint volume_loop (r : list zbx_range) (volume : Z) : option Z :=
  match r with
  | [] => Some volume
  | g :: r =>
    let n := to g - from g + 1 in
    if ZBX_MAX_UINT64 / n <? volume then None else volume_loop r (volume * n)
  end.

Definition zbx_iprange_volume (r : zbx_iprange) : Z :=
  match volume_loop (take (ZBX_IPRANGE_GROUPS (type r)) (range r)) 1 with
  | None => ZBX_MAX_UINT64
  | Some volume => if masked r then u64 (volume - 2) else volume
  end.

(* ------------------------------------------------------------------ *)
(** ** The distinct addresses of several ranges *)

Definition iprange_at (ipranges : list zbx_iprange) (i : nat) : zbx_iprange := nth i ipranges (Iprange [] ZBX_IPRANGE_V4 false).

(** The address is in one of the ranges before [idx]. *)
Definition seen_before (ipranges : list zbx_iprange) (idx : nat) (address : list Z) : bool :=
  existsb (fun r => zbx_iprange_validate r address) (take idx ipranges).

(** One round of the loop; it leaves with whether there is an address. *)
Definition uniq_body (ipranges : list zbx_iprange) (x : nat * list Z) : res ((nat * list Z) + (bool * (nat * list Z))) :=
  let '(idx, address) := x in
  let '(ok, address) := zbx_iprange_next (iprange_at ipranges idx) address in
  if negb ok && (S idx =? length ipranges)%nat then Ret (inr (false, (S idx, address)))
  else
    let '(idx, address) := if ok then (idx, address) else (S idx, zbx_iprange_first (iprange_at ipranges (S idx)) address) in
    Ret (if seen_before ipranges idx address then inl (idx, address) else inr (true, (idx, address))).

(** The state is the index of the range and the address; a range has 2^128
    addresses at most. *)
Definition zbx_iprange_uniq_iter (ipranges : list zbx_iprange) (x : nat * list Z) : res (bool * (nat * list Z)) :=
  let '(idx, address) := x in
  match ipranges with
  | [] => Ret (false, x)
  | r :: _ =>
    if forallb (fun a => a =? 0) (take (ZBX_IPRANGE_GROUPS (type r)) address) then Ret (true, (0%nat, zbx_iprange_first r address))
    else if (idx =? length ipranges)%nat then Ret (false, x)
    else while (128 + length ipranges) (uniq_body ipranges) (idx, address)
  end.

(** The digits of a number that is not negative, as printf writes it. *)
Fixpoint print_loop (fuel : nat) (base n : Z) : list Z :=
  match fuel with
  | O => []
  | S fuel =>
    let d := n mod base in
    let c := if d <? 10 then 48 + d else 87 + d in
    if n <? base then [c] else print_loop fuel base (n / base) ++ [c]
  end.

Definition print_number (base n : Z) : list Z := print_loop 32 base n.

(** [join c l]: the texts of [l] with [c] between them. *)
Fixpoint join_with (c : Z) (l : list (list Z)) : list Z :=
  match l with
  | [] => []
  | [x] => x
  | x :: l => x ++ c :: join_with c l
  end.

(** The buffer is large enough. *)
Definition zbx_iprange_ip2str (t : ip_type) (ipaddress : list Z) : list Z :=
  match t with
  | ZBX_IPRANGE_V6 => join_with (ch ":") (print_number 16 <$> take 8 ipaddress)
  | ZBX_IPRANGE_V4 => join_with (ch ".") (print_number 10 <$> take 4 ipaddress)
  end.

(** The static variables and the text; an empty text starts anew. *)
Definition zbx_iprange_uniq_next (ipranges : list zbx_iprange) (x : nat * list Z) (ip : list Z)
    : res (bool * (nat * list Z) * list Z) :=
  match ip with
  | [] =>
    match ipranges with
    | [] => Undef
    | r :: _ =>
      let address := zbx_iprange_first r x.2 in
      Ret (true, (0%nat, address), zbx_iprange_ip2str (type r) address)
    end
  | _ =>
    r ← zbx_iprange_uniq_iter ipranges x;
    let '(ok, (idx, address)) := (r : bool * (nat * list Z)) in
    Ret (ok, (idx, address), if ok : bool then zbx_iprange_ip2str (type (iprange_at ipranges idx)) address else ip)
  end.

Definition ZBX_PORTRANGE_INIT_PORT : Z := -1.

Definition port_range (ranges : list zbx_range) (i : nat) : zbx_range := nth i ranges (Range 0 0).

Definition port_seen (ranges : list zbx_range) (idx : nat) (port : Z) : bool :=
  existsb (fun r => (from r <=? port) && (port <=? to r)) (take idx ranges).

Definition port_body (ranges : list zbx_range) (x : nat * Z) : res ((nat * Z) + (bool * (nat * Z))) :=
  let '(idx, port) := x in
  let port := port + 1 in
  if to (port_range ranges idx) <? port then
    if (S idx =? length ranges)%nat then Ret (inr (false, (S idx, port)))
    else
      let port := from (port_range ranges (S idx)) in
      Ret (if port_seen ranges (S idx) port then inl (S idx, port) else inr (true, (S idx, port)))
  else Ret (if port_seen ranges idx port then inl (idx, port) else inr (true, (idx, port))).

(** Ports are 16 bits wide. *)
Definition zbx_portrange_uniq_iter (ranges : list zbx_range) (x : nat * Z) : res (bool * (nat * Z)) :=
  let '(idx, port) := x in
  match ranges with
  | [] => Ret (false, x)
  | r :: _ =>
    if port =? ZBX_PORTRANGE_INIT_PORT then Ret (true, (0%nat, from r))
    else if (idx =? length ranges)%nat then Ret (false, x)
    else while (16 + length ranges) (port_body ranges) (idx, port)
  end.

Definition zbx_portrange_uniq_next (ranges : list zbx_range) (x : nat * Z) (port : Z) : res (bool * (nat * Z) * Z) :=
  let '(idx, current_port) := x in
  match ranges with
  | [] => Ret (false, x, port)
  | r :: _ =>
    if port =? ZBX_PORTRANGE_INIT_PORT then Ret (true, (0%nat, from r), from r)
    else if (length ranges =? idx)%nat then Ret (false, x, port)
    else
      q ← zbx_portrange_uniq_iter ranges (idx, current_port);
      let '(ok, (idx, current_port)) := (q : bool * (nat * Z)) in
      Ret (ok, (idx, current_port), if ok : bool then current_port else port)
  end.

(* ------------------------------------------------------------------ *)
(** ** Parsing *)

Definition iprange_is_whitespace_character (c : Z) : bool := (c =? 32) || (c =? 13) || (c =? 10) || (c =? 9).

Fixpoint skip_whitespace (s : list Z) : list Z :=
  match s with
  | [] => []
  | c :: s' => if iprange_is_whitespace_character c then skip_whitespace s' else s
  end.

Definition iprange_address_length (address : list Z) : nat := length (skip_whitespace (reverse address)).

Fixpoint mask_loop (i : nat) (group_bits bits : Z) (r : list zbx_range) : list zbx_range :=
  match i with
  | O => r
  | S i =>
    if 0 <? bits then
      let mask_bits := if group_bits <? bits then group_bits else bits in
      let mask_empty := u32 (Z.shiftl 0xffffffff mask_bits) in
      let mask_fill := Z.shiftr 0xffffffff (32 - mask_bits) in
      mask_loop i group_bits (bits - group_bits)
        (<[i := Range (Z.land (from (group r i)) mask_empty) (Z.lor (to (group r i)) mask_fill)]> r)
    else r
  end.

Definition group_bits (t : ip_type) : Z := match t with ZBX_IPRANGE_V4 => 8 | ZBX_IPRANGE_V6 => 16 end.

Definition iprange_apply_mask (t : ip_type) (r : list zbx_range) (bits : Z) : list zbx_range :=
  let groups := ZBX_IPRANGE_GROUPS t in
  mask_loop groups (group_bits t) (Z.of_nat groups * group_bits t - bits) r.

(** The end of the address, without its mask, and the bits of the mask, -1 if
    there is none; None for FAIL. *)
Definition parse_mask (address : list Z) (max : Z) : option (nat * Z) :=
  let len := iprange_address_length address in
  match strchr address 0 (ch "/") with
  | Some e => bits ← Num.zbx_is_uint_n_range (Some (drop (e + 1) address)) (len - (e + 1)) true 4 0 max; Some (e, bits)
  | None => Some (len, -1)
  end.

(** range[i] = r *)
Definition set_group (r : list zbx_range) (i : nat) (g : zbx_range) : res (list zbx_range) :=
  if (i <? length r)%nat then Ret (<[i := g]> r) else Undef.

(** The numbers of a group, from [address] to [ptr]; None for FAIL. *)
Definition parse_group (number : list Z -> nat -> option Z) (s : list Z) (bits : Z) (address ptr : nat) : option zbx_range :=
  let dash := strchr s address (ch "-") in
  if bool_decide (is_Some dash) && negb (bits =? -1) then None
  else
    let dash := match dash with Some d => if (ptr <? d)%nat then None else Some d | None => None end in
    let len := (default ptr dash - address)%nat in
    from ← number (drop address s) len;
    match dash with
    | Some d =>
      let d := (d + 1)%nat in
      to ← number (drop d s) (ptr - d)%nat;
      if to <? from then None else Some (Range from to)
    | None => Some (Range from from)
    end.

Definition number_v4 (s : list Z) (n : nat) : option Z := Num.zbx_is_uint_n_range (Some s) n true 4 0 255.
Definition number_v6 (s : list Z) (n : nat) : option Z := Num.zbx_is_hex_n_range s n true 4 0 65535.

(** The loop of iprangev4_parse, [n] groups from the end; None for FAIL. *)
Fixpoint v4_loop (n : nat) (s : list Z) (e : nat) (bits : Z) (address ptr index : nat) (r : list zbx_range)
    : res (option (nat * list zbx_range)) :=
  match n with
  | O => Ret (Some (index, r))
  | S n =>
    if negb (ptr <? e)%nat then Ret (Some (index, r))
    else
      let ptr := default e (strchr s address (ch ".")) in
      match parse_group number_v4 s bits address ptr with
      | None => Ret None
      | Some g => r ← set_group r index g; v4_loop n s e bits (ptr + 1) ptr (index + 1) r
      end
  end.

(** [r] is what the structure holds before; None for FAIL. *)
Definition iprangev4_parse (r : list zbx_range) (address : list Z) : res (option zbx_iprange) :=
  match parse_mask address 30 with
  | None => Ret None
  | Some (e, bits) =>
    x ← v4_loop 4 address e bits 0 0 0 r;
    Ret (match x with
         | Some (index, r) =>
           if (index =? 4)%nat then
             Some (Iprange (if negb (bits =? -1) then iprange_apply_mask ZBX_IPRANGE_V4 r bits else r) ZBX_IPRANGE_V4
               (bool_decide (is_Some (strchr address 0 (ch "/")))))
           else None
         | None => None
         end)
  end.

(** Reading the character at [i], which may be past the NUL. *)
Definition read (s : list Z) (i : nat) : res Z := if (i <=? length s)%nat then Ret (chr s i) else Undef.

(** The groups read so far, with the index of the group of :: (-1 for none). *)
Definition v6_state : Type := nat * Z * list zbx_range.

(** check_fill; the loop goes on (false) or ends. *)
Definition check_fill (s : list Z) (e ptr : nat) (x : v6_state) : res (option (bool * nat * v6_state)) :=
  let '(index, fill, r) := x in
  c ← read s ptr;
  if c =? 0 then Ret (Some (false, ptr, x))
  else
    c ← read s (ptr + 1);
    if c =? ch ":" then
      if negb (fill =? -1) then Ret None
      else r ← set_group r index (Range 0 0); Ret (Some ((ptr + 1 =? e - 1)%nat, (ptr + 1)%nat, ((index + 1)%nat, Z.of_nat index, r)))
    else Ret (Some (false, ptr, x)).

Fixpoint v6_loop (n : nat) (s : list Z) (e : nat) (bits : Z) (address ptr : nat) (x : v6_state) : res (option v6_state) :=
  match n with
  | O => NoFuel
  | S n =>
    let '(index, fill, r) := x in
    if negb ((ptr <? e)%nat && (index <? 8)%nat) then Ret (Some x)
    else
      let ptr := default e (strchr s address (ch ":")) in
      y ← (if (ptr =? address)%nat then
             c ← read s (ptr + 1);
             if negb (c =? ch ":") then Ret None else Ret (Some x)
           else
             match parse_group number_v6 s bits address ptr with
             | None => Ret None
             | Some g => r ← set_group r index g; Ret (Some ((index + 1)%nat, fill, r))
             end);
      match y with
      | None => Ret None
      | Some x =>
        z ← check_fill s e ptr x;
        match z with
        | None => Ret None
        | Some (true, _, x) => Ret (Some x)
        | Some (false, ptr, x) => v6_loop n s e bits (ptr + 1) ptr x
        end
      end
  end.

(** while (--index > fill) iprange->range[target--] = iprange->range[index] *)
Fixpoint shift_loop (index fill target : nat) (r : list zbx_range) : nat * list zbx_range :=
  match index with
  | O => (target, r)
  | S index => if (fill <? index)%nat then shift_loop index fill (target - 1) (<[target := group r index]> r) else (target, r)
  end.

(** The groups from [target] down to the one after [fill] are cleared. *)
Fixpoint zero_loop (n fill target : nat) (r : list zbx_range) : list zbx_range :=
  match n with
  | O => r
  | S n => if (fill <? target)%nat then zero_loop n fill (target - 1) (<[target := Range 0 0]> r) else r
  end.

Definition iprangev6_parse (r : list zbx_range) (address : list Z) : res (option zbx_iprange) :=
  match parse_mask address 128 with
  | None => Ret None
  | Some (e, bits) =>
    x ← v6_loop 9 address e bits 0 0 (0%nat, -1, r);
    Ret (match x with
         | Some (index, fill, r) =>
           if (8 <? index)%nat then None
           else if (index <? 8)%nat && (fill =? -1) then None
           else
             let r := if (index <? 8)%nat then
                        let '(target, r) := shift_loop index (Z.to_nat fill) 7 r in zero_loop 8 (Z.to_nat fill) target r
                      else r in
             Some (Iprange (if negb (bits =? -1) then iprange_apply_mask ZBX_IPRANGE_V6 r bits else r) ZBX_IPRANGE_V6
               (bool_decide (is_Some (strchr address 0 (ch "/")))))
         | None => None
         end)
  end.

Definition zbx_iprange_parse (r : list zbx_range) (address : list Z) : res (option zbx_iprange) :=
  let address := skip_whitespace address in
  if bool_decide (is_Some (strchr address 0 (ch "."))) then iprangev4_parse r address else iprangev6_parse r address.

(* ------------------------------------------------------------------ *)
(** ** Other tests *)

(** The element of a list of ranges up to its comma, and what follows it. *)
Fixpoint list_element (l : list Z) : list Z * option (list Z) :=
  match l with
  | [] => ([], None)
  | c :: l => if c =? ch "," then ([], Some l) else let '(x, rest) := list_element l in (c :: x, rest)
  end.

Fixpoint in_list_loop (n : nat) (r : list zbx_range) (l ipaddress : list Z) : res bool :=
  match n with
  | O => NoFuel
  | S n =>
    let '(element, rest) := list_element l in
    x ← zbx_iprange_parse r element;
    match x with
    | Some iprange =>
      if zbx_iprange_validate iprange ipaddress then Ret true
      else match rest with Some l => in_list_loop n (range iprange) l ipaddress | None => Ret false end
    | None => match rest with Some l => in_list_loop n r l ipaddress | None => Ret false end
    end
  end.

(** [r] and [ipaddress] are what the variables hold at the start. *)
Definition zbx_ip_in_list (r : list zbx_range) (ipaddress l ip : list Z) : res bool :=
  x ← zbx_iprange_parse r ip;
  match x with
  | None => Ret false
  | Some iprange =>
    match l with
    | [] => Ret false
    | _ => in_list_loop (length l + 1) (range iprange) l (zbx_iprange_first iprange ipaddress)
    end
  end.

(** The loop of zbx_is_ip4, which leaves with digits, dots and octet; the
    octet is an int. *)
Fixpoint is_ip4_loop (p : list Z) (digits dots octet : Z) : res (Z * Z * Z) :=
  match p with
  | [] => Ret (digits, dots, octet)
  | c :: p =>
    if isdigit c then octet ← c_int (octet * 10); octet ← c_int (octet + (c - 48)); is_ip4_loop p (digits + 1) dots octet
    else if c =? ch "." then
      if (digits =? 0) || (3 <? digits) || (255 <? octet) then Ret (digits, dots, octet) else is_ip4_loop p 0 (dots + 1) 0
    else Ret (0, dots, octet)
  end.

Definition zbx_is_ip4 (ip : list Z) : res bool :=
  r ← is_ip4_loop ip 0 0 0;
  let '(digits, dots, octet) := (r : Z * Z * Z) in
  Ret ((dots =? 3) && (1 <=? digits) && (digits <=? 3) && (octet <=? 255)).

(* ------------------------------------------------------------------ *)
(** ** Examples *)

Definition no_range : list zbx_range := replicate 8 (Range 0 0).
Definition no_address : list Z := replicate 8 0.

(** What follows the last group is not looked at: "1.2.3.4.x" is a range, and
    an address of nine groups, which the test after the loop is for, as well. *)
Example trailing_groups_ignored :
  (exists r, zbx_iprange_parse no_range (bytes_of "1.2.3.4.x") = Ret (Some r)) /\
  (exists r, zbx_iprange_parse no_range (bytes_of "1:2:3:4:5:6:7:8:9") = Ret (Some r)).
Proof. split; eexists; vm_compute; reflexivity. Qed.

(** :: after the eighth group is written past the end of the groups. *)
Example fill_out_of_bounds : zbx_iprange_parse no_range (bytes_of "1:2:3:4:5:6:7:8::") = Undef.
Proof. vm_compute. reflexivity. Qed.

(** With one : at the end, the character after the NUL is read. *)
Example read_past_end : zbx_iprange_parse no_range (bytes_of "1:") = Undef.
Proof. vm_compute. reflexivity. Qed.

(** With an IPv4 range first, an IPv6 address that starts with four groups of
    zero is taken for the address before the first one, and the walk starts
    again. *)
Example uniq_restarts :
  let one := fun g => Iprange ((fun x => Range x x) <$> g) in
  let ranges := [one [192; 168; 0; 1; 0; 0; 0; 0] ZBX_IPRANGE_V4 false; one [0; 0; 0; 0; 0; 0; 0; 5] ZBX_IPRANGE_V6 false] in
  zbx_iprange_uniq_next ranges (0%nat, no_address) [] =
    Ret (true, (0%nat, [192; 168; 0; 1; 0; 0; 0; 0]), bytes_of "192.168.0.1") /\
  zbx_iprange_uniq_next ranges (0%nat, [192; 168; 0; 1; 0; 0; 0; 0]) (bytes_of "192.168.0.1") =
    Ret (true, (1%nat, [0; 0; 0; 0; 0; 0; 0; 5]), bytes_of "0:0:0:0:0:0:0:5") /\
  zbx_iprange_uniq_next ranges (1%nat, [0; 0; 0; 0; 0; 0; 0; 5]) (bytes_of "0:0:0:0:0:0:0:5") =
    Ret (true, (0%nat, [192; 168; 0; 1; 0; 0; 0; 5]), bytes_of "192.168.0.1").
Proof. vm_compute. done. Qed.

(** The kind of the address is not compared with that of the range. *)
Example kinds_not_compared : zbx_ip_in_list no_range no_address (bytes_of "10.0.0.1") (bytes_of "a:0:0:1::5") = Ret true.
Proof. vm_compute. reflexivity. Qed.

Example in_list :
  zbx_ip_in_list no_range no_address (bytes_of "192.168.0.1-64,10.10.0.0/24,12fc::21") (bytes_of "10.10.0.77") = Ret true /\
  zbx_ip_in_list no_range no_address (bytes_of "192.168.0.1-64,10.10.0.0/24,12fc::21") (bytes_of "12fc:0::21") = Ret true /\
  zbx_ip_in_list no_range no_address (bytes_of "192.168.0.1-64,10.10.0.0/24,12fc::21") (bytes_of "192.168.0.65") = Ret false.
Proof. vm_compute. done. Qed.

(** The octet overflows before its digits are counted. *)
Example octet_overflows : zbx_is_ip4 (bytes_of "99999999999") = Undef /\ zbx_is_ip4 (bytes_of "192.168.0.1") = Ret true.
Proof. vm_compute. done. Qed.
