(* ===== verification/IpPath.v ===== *)
(** Walks: a partial function applied from a start until it has no next, as a
    list; walks in a row, walks that leave elements out, and the numbers of a
    product of intervals in lexicographic order. *)

From Stdlib Require Import ZArith Lia.
From S2P Require Import Prelude.
From stdpp Require Import base numbers list.

Open Scope Z_scope.

(* ------------------------------------------------------------------ *)
(** ** Walks *)

(** [path f a l b]: [l] are [a], what follows it by [f], and so on to [b]. *)
Inductive path {A : Type} (f : A -> option A) : A -> list A -> A -> Prop :=
| path_one a : path f a [a] a
| path_step a b l c : f a = Some b -> path f b l c -> path f a (a :: l) c.

(** The walk is over at [b]. *)
Definition walk {A : Type} (f : A -> option A) (a : A) (l : list A) : Prop := exists b, path f a l b /\ f b = None.

Lemma path_app {A : Type} (f : A -> option A) (a b c d : A) (l l' : list A) :
  path f a l b -> f b = Some c -> path f c l' d -> path f a (l ++ l') d.
Proof. induction 1 as [a|a b' l e E _ IH]; intros Eb H'; cbn; econstructor; eauto. Qed.

Lemma path_head {A : Type} (f : A -> option A) (a b : A) (l : list A) : path f a l b -> exists l', l = a :: l'.
Proof. destruct 1; eauto. Qed.

Lemma path_last {A : Type} (f : A -> option A) (a b : A) (l : list A) : path f a l b -> b ∈ l.
Proof. induction 1; [by left|by right]. Qed.

Lemma path_from {A : Type} (f : A -> option A) (a b x : A) (l : list A) :
  path f a l b -> x ∈ l -> exists l', path f x l' b /\ (length l' <= length l)%nat.
Proof.
  induction 1 as [a|a c l b E H IH].
  - intros ->%list_elem_of_singleton. exists [a]. split; [constructor|done].
  - intros [-> | Hx]%elem_of_cons; [exists (a :: l); split; [by econstructor|done]|]. destruct (IH Hx) as (l' & Hp & Hl).
    exists l'. split; [done|]. cbn. lia.
Qed.

Lemma path_map {A B : Type} (f : A -> option A) (g : B -> option B) (h : A -> B) (a b : A) (l : list A) :
  (forall x y, x ∈ l -> y ∈ l -> f x = Some y -> g (h x) = Some (h y)) -> path f a l b -> path g (h a) (h <$> l) (h b).
Proof.
  intros Hg H. induction H as [a|a b l c E H IH]; cbn; [constructor|].
  econstructor; [|apply IH; intros x y Hx Hy; apply Hg; by right].
  apply Hg; [by left| |done]. right. apply path_head in H as [l' ->]. by left.
Qed.

Lemma path_tail {A : Type} (f : A -> option A) (a x y c : A) (l : list A) :
  path f a (x :: y :: l) c -> a = x /\ f x = Some y /\ path f y (y :: l) c.
Proof.
  intros H. inversion H as [|? b ? ? E H']; subst. split; [done|]. pose proof H' as Hh. apply path_head in Hh as [l' [= <- <-]]. done.
Qed.

Lemma path_init {A : Type} (f : A -> option A) (a z c : A) (l : list A) :
  path f a (l ++ [z]) c -> z = c /\ (l <> [] -> exists b, path f a l b /\ f b = Some c).
Proof.
  revert a. induction l as [|x l IH]; intros a H; cbn in H.
  - split; [|done]. inversion H as [|? b ? ? _ H']; subst; [done|]. inversion H'.
  - destruct l as [|y l].
    + apply path_tail in H as (-> & E & H). destruct (IH z H) as [-> _]. split; [done|]. intros _. exists x.
      split; [constructor|done].
    + apply path_tail in H as (-> & E & H). destruct (IH y H) as [-> Hb]. split; [done|]. intros _.
      destruct (Hb ltac:(done)) as (b & Hp & Eb). exists b. split; [|done]. by econstructor.
Qed.

(* ------------------------------------------------------------------ *)
(** ** Walks that leave elements out *)

Section Kept.
  Context {A : Type} (f : A -> option A) (keep : A -> bool).
  (** A loop that goes on to the next element that is kept; [k] rounds of two
      to its power. *)
  Context (k : nat) (body : A -> res (A + (bool * A))).
  Context (body_none : forall a, f a = None -> exists z, body a = Ret (inr (false, z))).
  Context (body_some : forall a b, f a = Some b -> body a = Ret (if keep b then inr (true, b) else inl b)).

Definition next_kept (a : A) : option A := match while k body a with Ret (true, b) => Some b | _ => None end.

Lemma kept_run (a b : A) (l : list A) :
  path f a l b -> f b = None -> Z.of_nat (length l) < 2 ^ Z.of_nat k ->
  exists v, while k body a = Ret v /\
    match filter (fun x => keep x = true) (tail l) with y :: _ => v = (true, y) | [] => v.1 = false end.
Proof.
  intros H Hb Hk. eapply (while_rank body (fun n s => exists l', path f s l' b /\ n = Z.of_nat (length l') /\
    filter (fun x => keep x = true) (tail l') = filter (fun x => keep x = true) (tail l))); [|by exists l|done].
  intros n s (l' & Hl & -> & Hf). inversion Hl as [s0 | s0 s' l0 c E H']; subst.
  - right. destruct (body_none b Hb) as [z Ez]. exists (false, z). split; [done|]. cbn in Hf. by rewrite <- Hf.
  - cbn [tail] in Hf. destruct (path_head _ _ _ _ H') as [l1 ->]. rewrite filter_cons in Hf. pose proof (body_some s s' E) as Eb.
    destruct (keep s') eqn:Ek.
    + right. exists (true, s'). split; [done|]. rewrite decide_True in Hf by done. by rewrite <- Hf.
    + left. exists s', (Z.of_nat (length (s' :: l1))). split; [done|]. rewrite decide_False in Hf by done.
      split; [by exists (s' :: l1)|]. cbn [length]. lia.
Qed.

Lemma kept_next (a b : A) (l : list A) :
  path f a l b -> f b = None -> Z.of_nat (length l) < 2 ^ Z.of_nat k ->
  next_kept a = head (filter (fun x => keep x = true) (tail l)).
Proof.
  intros H Hb Hk. destruct (kept_run a b l H Hb Hk) as ([[] y] & E & Hv); unfold next_kept; rewrite E;
    destruct (filter _ (tail l)); cbn in *; congruence.
Qed.

Lemma kept_walk (a b : A) (l : list A) :
  path f a l b -> f b = None -> Z.of_nat (length l) < 2 ^ Z.of_nat k ->
  walk next_kept a (a :: filter (fun x => keep x = true) (tail l)).
Proof.
  intros H Hb. induction H as [a | a a' l c E H IH]; intros Hk.
  - exists a. split; [constructor|]. rewrite (kept_next a a [a]); [done|constructor|done|done].
  - cbn [length] in Hk. destruct (IH Hb ltac:(lia)) as (z & Hp & Hz).
    pose proof (kept_next a c (a :: l) (path_step f _ _ _ _ E H) Hb Hk) as Ha. pose proof (kept_next a' c l H Hb ltac:(lia)) as Ha'.
    cbn [tail] in *. destruct (path_head _ _ _ _ H) as [l1 ->]. cbn [tail] in *. rewrite filter_cons in *.
    destruct (keep a') eqn:Ek; [rewrite decide_True in * by done|rewrite decide_False in * by done].
    + exists z. split; [|done]. by econstructor.
    + destruct (filter (fun x => keep x = true) l1) as [|y l2]; cbn in Ha, Ha'.
      * exists a. split; [constructor|done].
      * apply path_tail in Hp as (_ & _ & Hp). exists z. split; [|done]. by econstructor.
Qed.
End Kept.

(** A walk by functions that agree on its elements. *)
Lemma walk_ext {A : Type} (f g : A -> option A) (a : A) (l : list A) :
  (forall x, x ∈ l -> f x = g x) -> walk f a l -> walk g a l.
Proof.
  intros Hfg (b & Hp & Hb). exists b. split; [|rewrite <- Hfg; [done|by eapply path_last]].
  pose proof (path_map f g id a b l) as H. rewrite list_fmap_id in H. apply H; [|done]. intros x y Hx _ E. unfold id. by rewrite <- Hfg.
Qed.

(** The first element with a property. *)
Lemma first_such {A : Type} (P : A -> Prop) `{forall x, Decision (P x)} (l : list A) :
  Exists P l -> exists pre x post, l = pre ++ x :: post /\ P x /\ Forall (fun y => ~ P y) pre.
Proof.
  induction l as [|y l IH]; [by inversion 1|]. destruct (decide (P y)) as [Hy|Hy]; [by exists [], y, l|].
  intros [HE | HE]%Exists_cons; [done|]. destruct (IH HE) as (pre & x & post & -> & Hx & Hp). exists (y :: pre), x, post.
  split_and!; [done..|]. by constructor.
Qed.
