(* ===== verification/IpIter.v ===== *)
(** The addresses of a range: zbx_iprange_first and zbx_iprange_next walk
    through them in order, zbx_iprange_validate accepts and zbx_iprange_volume
    counts them. *)

From Stdlib Require Import ZArith Lia ZifyBool.
From S2P Require Import Prelude IpRange IpPath.
From stdpp Require Import base numbers list.

Open Scope Z_scope.

(* ------------------------------------------------------------------ *)
(** ** Products of intervals *)

Definition in_group (g : zbx_range) (x : Z) : Prop := from g <= x <= to g.
Definition in_groups (rs : list zbx_range) (a : list Z) : Prop := Forall2 in_group rs a.

#[export] Instance in_group_dec (g : zbx_range) (x : Z) : Decision (in_group g x).
Proof. unfold in_group. apply _. Defined.

#[export] Instance in_groups_dec (rs : list zbx_range) (a : list Z) : Decision (in_groups rs a).
Proof. unfold in_groups. apply _. Defined.

(** The next number, with the last group the fastest. *)
Fixpoint succ (rs : list zbx_range) (a : list Z) : option (list Z) :=
  match rs, a with
  | g :: rs, x :: a =>
    match succ rs a with
    | Some a => Some (x :: a)
    | None => if x <? to g then Some (x + 1 :: (from <$> rs)) else None
    end
  | _, _ => None
  end.

Fixpoint box (rs : list zbx_range) : list (list Z) :=
  match rs with
  | [] => [[]]
  | g :: rs => seqZ (from g) (to g - from g + 1) ≫= (fun x => cons x <$> box rs)
  end.

Definition ordered (g : zbx_range) : Prop := from g <= to g.

Lemma in_groups_length (rs : list zbx_range) (a : list Z) : in_groups rs a -> length rs = length a.
Proof. induction 1; cbn; [done|by f_equal]. Qed.

Lemma froms_in (rs : list zbx_range) : Forall ordered rs -> in_groups rs (from <$> rs).
Proof. induction 1 as [|g rs Hg _ IH]; [constructor|]. constructor; [unfold in_group, ordered in *; lia|done]. Qed.

Lemma tos_in (rs : list zbx_range) : Forall ordered rs -> in_groups rs (to <$> rs).
Proof. induction 1 as [|g rs Hg _ IH]; [constructor|]. constructor; [unfold in_group, ordered in *; lia|done]. Qed.

Lemma succ_in (rs : list zbx_range) (a a' : list Z) :
  Forall ordered rs -> in_groups rs a -> succ rs a = Some a' -> in_groups rs a'.
Proof.
  intros Ho Ha. revert Ho a'. induction Ha as [|g x rs a Hx Ha IH]; intros Ho a' E; [done|]. inversion Ho as [|? ? Hg Ho']; subst.
  cbn [succ] in E. destruct (succ rs a) as [b|].
  - injection E as <-. constructor; [done|by apply IH].
  - destruct (Z.ltb_spec x (to g)); [|done]. injection E as <-. constructor; [unfold in_group in *; lia|by apply froms_in].
Qed.

Lemma box_path (rs : list zbx_range) :
  Forall ordered rs -> path (succ rs) (from <$> rs) (box rs) (to <$> rs) /\ succ rs (to <$> rs) = None.
Proof.
  induction 1 as [|g rs Hg _ [IH IHn]]; [split; [constructor|done]|]. cbn [fmap list_fmap box succ].
  assert (Hblock : forall x, path (succ (g :: rs)) (x :: (from <$> rs)) (cons x <$> box rs) (x :: (to <$> rs))).
  { intros x. apply (path_map (succ rs) (succ (g :: rs)) (cons x)); [|done]. intros a b _ _ E. cbn. by rewrite E. }
  split.
  - enough (H : forall n x, 0 <= n -> x + n = to g ->
      path (succ (g :: rs)) (x :: (from <$> rs)) (seqZ x (n + 1) ≫= (fun x => cons x <$> box rs)) (to g :: (to <$> rs))).
    { apply H; unfold ordered in Hg; lia. }
    intros n x Hn. revert x. pattern n. apply natlike_ind; [| |done].
    + intros x Hx. rewrite seqZ_cons, seqZ_nil by lia. cbn [mbind list_bind]. rewrite app_nil_r. replace (to g) with x by lia. apply Hblock.
    + intros m Hm IHm x Hx. rewrite seqZ_cons by lia. cbn [mbind list_bind]. replace (Z.pred (Z.succ m + 1)) with (m + 1) by lia.
      eapply path_app; [apply Hblock| |apply IHm; lia]. cbn [succ]. change (list_fmap zbx_range Z to rs) with (to <$> rs).
      rewrite IHn. rewrite (proj2 (Z.ltb_lt _ _)) by lia. by rewrite Z.add_1_r.
  - change (list_fmap zbx_range Z to rs) with (to <$> rs). rewrite IHn. by rewrite Z.ltb_irrefl.
Qed.

Lemma elem_of_box (rs : list zbx_range) (a : list Z) : a ∈ box rs <-> in_groups rs a.
Proof.
  revert a. induction rs as [|g rs IH]; intros a; cbn [box].
  - rewrite list_elem_of_singleton. split; [intros ->; constructor|by inversion 1].
  - rewrite list_elem_of_bind. split.
    + intros (x & (b & -> & Hb%IH)%list_elem_of_fmap & Hx%elem_of_seqZ). constructor; [unfold in_group; lia|done].
    + inversion 1 as [|? x ? b Hx Hb]; subst. exists x. split; [apply list_elem_of_fmap; exists b; split; [done|by apply IH]|].
      unfold in_group in Hx. apply elem_of_seqZ. lia.
Qed.

Lemma NoDup_blocks (bs : list (list Z)) (l : list Z) :
  NoDup bs -> NoDup l -> NoDup (l ≫= (fun x => cons x <$> bs)).
Proof.
  intros Hb. induction 1 as [|x l Hx _ IH]; [constructor|]. cbn [mbind list_bind]. apply NoDup_app. split_and!.
  - apply NoDup_fmap_2; [|done]. by intros a b [= ->].
  - intros a (b & -> & _)%list_elem_of_fmap (y & (b' & [= -> ->] & _)%list_elem_of_fmap & Hy)%list_elem_of_bind. done.
  - done.
Qed.

Lemma NoDup_box (rs : list zbx_range) : NoDup (box rs).
Proof. induction rs as [|g rs IH]; cbn; [apply NoDup_singleton|]. apply NoDup_blocks; [done|apply NoDup_seqZ]. Qed.

(** The number of addresses. *)
Fixpoint size (rs : list zbx_range) : Z :=
  match rs with
  | [] => 1
  | g :: rs => (to g - from g + 1) * size rs
  end.

Lemma length_box (rs : list zbx_range) : Forall ordered rs -> Z.of_nat (length (box rs)) = size rs.
Proof.
  induction 1 as [|g rs Hg _ IH]; [done|]. cbn [box size]. unfold ordered in Hg.
  enough (H : forall l, Z.of_nat (length (l ≫= (fun x => cons x <$> box rs))) = Z.of_nat (length l) * size rs).
  { rewrite H, length_seqZ. lia. }
  intros l. induction l as [|x l IHl]; [done|]. cbn [mbind list_bind length]. rewrite length_app, length_fmap.
  change (list_bind _ _ _ l) with (l ≫= (fun x => cons x <$> box rs)). lia.
Qed.

Lemma size_pos (rs : list zbx_range) : Forall ordered rs -> 1 <= size rs.
Proof. induction 1 as [|g rs Hg _ IH]; cbn [size]; [lia|]. unfold ordered in Hg. nia. Qed.

Lemma succ_snoc (rs : list zbx_range) (g : zbx_range) (a : list Z) (x : Z) :
  length rs = length a ->
  succ (rs ++ [g]) (a ++ [x]) = if x <? to g then Some (a ++ [x + 1]) else (fun a' => a' ++ [from g]) <$> succ rs a.
Proof.
  revert a. induction rs as [|h rs IH]; intros [|y a] Hl; try done; cbn [app succ].
  injection Hl as Hl. rewrite IH by done. destruct (x <? to g); [done|].
  destruct (succ rs a) as [a'|]; cbn; [done|]. destruct (y <? to h); [|done]. by rewrite fmap_app.
Qed.

(* ------------------------------------------------------------------ *)
(** ** zbx_iprange_next *)

Definition groups (r : zbx_iprange) : list zbx_range := take (ZBX_IPRANGE_GROUPS (type r)) (range r).

(** A range with a mask leaves addresses between its first and its last. *)
Definition range_ok (r : zbx_iprange) : Prop :=
  length (range r) = 8%nat /\
  Forall (fun g => 0 <= from g <= to g /\ to g < 2 ^ group_bits (type r)) (groups r) /\
  (masked r = true -> from (group (range r) 3) + 2 <= to (group (range r) 3)).

Lemma chr_middle (a b : list Z) (x : Z) : chr (a ++ x :: b) (length a) = x.
Proof. unfold chr. by rewrite nth_middle. Qed.

Lemma group_middle (a b : list zbx_range) (g : zbx_range) : group (a ++ g :: b) (length a) = g.
Proof. unfold group. by rewrite nth_middle. Qed.

Lemma not_last_spec (rs tl : list zbx_range) (a t : list Z) :
  length rs = length a -> not_last (length rs) (rs ++ tl) (a ++ t) = negb (bool_decide (a = to <$> rs)).
Proof.
  revert tl a t. induction rs as [|g rs IH] using rev_ind; intros tl a t Hl.
  - destruct a; [|done]. done.
  - destruct a as [|x a _] using rev_ind; [rewrite length_app in Hl; cbn in Hl; lia|].
    rewrite !length_app in Hl. cbn in Hl. assert (Hl' : length rs = length a) by lia.
    rewrite length_app, Nat.add_1_r. cbn [not_last]. rewrite <- !app_assoc. cbn [app].
    rewrite group_middle. rewrite Hl' at 1. rewrite chr_middle. rewrite IH by done. rewrite fmap_app.
    destruct (Z.eqb_spec x (to g)) as [-> | Hx]; cbn [negb].
    + f_equal. apply bool_decide_ext. split; [by intros ->|]. intros E. by apply app_inj_tail in E as [-> _].
    + symmetry. apply negb_true_iff, bool_decide_eq_false. intros E. cbn in E. by apply app_inj_tail in E as [_ [= ->]].
Qed.

(** The numbers before [a], which are reached last, and those already at their
    start again. *)
Lemma next_loop_spec (r : zbx_iprange) (rs tl : list zbx_range) (a t : list Z) :
  range r = rs ++ tl -> in_groups rs a ->
  next_loop (length rs) r (a ++ t) =
  match succ rs a with
  | Some a' => (if masked r then not_last (ZBX_IPRANGE_GROUPS (type r)) (range r) (a' ++ t) else true, a' ++ t)
  | None => (false, (from <$> rs) ++ t)
  end.
Proof.
  revert tl a t. induction rs as [|g rs IH] using rev_ind; intros tl a t Hr Ha.
  - inversion Ha; subst. done.
  - apply Forall2_app_inv_l in Ha as (a1 & a2 & Ha & Hx & ->). inversion Hx as [|? x ? ? Hg Hn]; subst. inversion Hn; subst.
    pose proof (in_groups_length _ _ Ha) as Hl. rewrite length_app, Nat.add_1_r. cbn [next_loop].
    assert (Eg : group (range r) (length rs) = g) by (rewrite Hr, <- app_assoc; apply group_middle).
    assert (Ex : chr ((a1 ++ [x]) ++ t) (length rs) = x) by (rewrite <- app_assoc, Hl; apply chr_middle).
    rewrite Eg, Ex, succ_snoc by done. unfold in_group in Hg. destruct (Z.ltb_spec x (to g)).
    + assert (E : <[length rs:=x + 1]> ((a1 ++ [x]) ++ t) = (a1 ++ [x + 1]) ++ t).
      { rewrite <- !app_assoc, Hl. apply list_insert_split. }
      by rewrite E.
    + assert (E : (if from g <? to g then <[length rs:=from g]> ((a1 ++ [x]) ++ t) else (a1 ++ [x]) ++ t) = a1 ++ from g :: t).
      { rewrite <- !app_assoc. destruct (Z.ltb_spec (from g) (to g)); [rewrite Hl; apply list_insert_split|].
        cbn [app]. do 2 f_equal. lia. }
      rewrite E, (IH (g :: tl)); [|by rewrite Hr, <- app_assoc|done].
      destruct (succ rs a1) as [a'|]; cbn; [by rewrite <- app_assoc|]. rewrite fmap_app, <- app_assoc. done.
Qed.

Lemma range_ordered (r : zbx_iprange) : range_ok r -> Forall ordered (groups r).
Proof. intros (_ & H & _). eapply Forall_impl; [exact H|]. intros g [Hg _]. unfold ordered. lia. Qed.

Lemma range_split (r : zbx_iprange) : range_ok r ->
  range r = groups r ++ drop (ZBX_IPRANGE_GROUPS (type r)) (range r) /\ length (groups r) = ZBX_IPRANGE_GROUPS (type r).
Proof.
  intros (Hl & _). unfold groups. split; [by rewrite take_drop|]. rewrite length_take, Hl. by destruct (type r).
Qed.

Lemma next_spec (r : zbx_iprange) (a t : list Z) :
  range_ok r -> in_groups (groups r) a ->
  zbx_iprange_next r (a ++ t) =
  match succ (groups r) a with
  | Some a' => (negb (masked r && bool_decide (a' = to <$> groups r)), a' ++ t)
  | None => (false, (from <$> groups r) ++ t)
  end.
Proof.
  intros Hr Ha. destruct (range_split r Hr) as [Es El]. unfold zbx_iprange_next. rewrite <- El at 1.
  rewrite (next_loop_spec r (groups r) _ a t Es Ha). destruct (succ (groups r) a) as [a'|] eqn:E; [|done].
  f_equal. destruct (masked r); [|done]. rewrite <- El, Es at 1. rewrite not_last_spec; [done|].
  apply in_groups_length. apply (succ_in _ a); [by apply range_ordered|done..].
Qed.

(* ------------------------------------------------------------------ *)
(** ** The addresses of a range *)

(** Without the network address and the broadcast address for a mask. *)
Definition addresses (r : zbx_iprange) : list (list Z) :=
  if masked r then removelast (tail (box (groups r))) else box (groups r).

Definition next (r : zbx_iprange) (address : list Z) : option (list Z) :=
  let '(ok, address) := zbx_iprange_next r address in if ok then Some address else None.

Definition wide (r : zbx_iprange) (a : list Z) : Prop := length a = ZBX_IPRANGE_GROUPS (type r).

(** The first of a block with a mask, the ends of a block. *)
Lemma masked_box (r : zbx_iprange) :
  range_ok r -> masked r = true ->
  let fr := from <$> groups r in
  exists rs g l, groups r = rs ++ [g] /\ length rs = 3%nat /\ from g + 2 <= to g /\
    box (groups r) = fr :: ((from <$> rs) ++ [from g + 1]) :: l ++ [to <$> groups r] /\
    succ (groups r) fr = Some ((from <$> rs) ++ [from g + 1]).
Proof.
  intros Hr Hm fr. destruct (range_split r Hr) as [Es El]. pose proof (range_ordered r Hr) as Ho. destruct Hr as (_ & _ & Hg).
  assert (Ht : type r = ZBX_IPRANGE_V4).
  { unfold masked in Hm. apply andb_true_iff in Hm as [Hm _]. by apply bool_decide_eq_true in Hm. }
  rewrite Ht in El. cbn in El. destruct (groups r) as [|g rs _] using rev_ind; [done|].
  rewrite length_app in El. cbn in El. assert (Hl : length rs = 3%nat) by lia. exists rs, g. specialize (Hg Hm).
  assert (E3 : group (range r) 3 = g) by (rewrite Es, <- Hl, <- app_assoc; apply group_middle). rewrite E3 in Hg.
  destruct (box_path _ Ho) as [Hp Hn].
  assert (Esucc : succ (rs ++ [g]) fr = Some ((from <$> rs) ++ [from g + 1])).
  { unfold fr. rewrite fmap_app. change (from <$> [g]) with [from g]. rewrite succ_snoc by by rewrite length_fmap.
    by rewrite (proj2 (Z.ltb_lt _ _)) by lia. }
  pose proof Hp as Hh. apply path_head in Hh as [l1 El1]. rewrite El1 in Hp. fold fr in El1, Hp. destruct l1 as [|b l1].
  { inversion Hp as [a Ha|? ? ? ? ? Hb]; subst; [|inversion Hb]. congruence. }
  pose proof Hp as Hp2. apply path_tail in Hp2 as (_ & Eb & Hp2). rewrite Esucc in Eb. injection Eb as <-.
  destruct l1 as [|z l1 _] using rev_ind.
  { exfalso. inversion Hp2 as [? Hb|? ? ? ? ? Hb]; subst; [|inversion Hb].
    match goal with H : _ = to <$> _ |- _ => rewrite fmap_app in H; cbn in H; apply app_inj_tail in H as [_ ?] end. lia. }
  rewrite app_comm_cons in Hp2. apply path_init in Hp2 as [-> _]. exists l1. split_and!; try done.
Qed.

Lemma elem_of_addresses (r : zbx_iprange) (a : list Z) :
  range_ok r ->
  a ∈ addresses r <-> in_groups (groups r) a /\ (masked r = true -> a <> (from <$> groups r) /\ a <> (to <$> groups r)).
Proof.
  intros Hr. unfold addresses. rewrite <- elem_of_box. pose proof (NoDup_box (groups r)) as Hd.
  destruct (masked r) eqn:Hm; [|by split; [intros H; split|intros [H _]]].
  destruct (masked_box r Hr Hm) as (rs & g & l & _ & _ & _ & E & _). rewrite E in Hd |- *. cbn [tail].
  change (((from <$> rs) ++ [from g + 1]) :: l ++ [to <$> groups r]) with (((((from <$> rs) ++ [from g + 1]) :: l) ++ [to <$> groups r])) in *.
  rewrite removelast_last. set (l' := ((from <$> rs) ++ [from g + 1]) :: l) in *.
  apply NoDup_cons in Hd as [H1 Hd]. apply NoDup_app in Hd as (_ & H2 & _).
  rewrite elem_of_cons, elem_of_app, list_elem_of_singleton. split.
  - intros Ha. split; [by right; left|]. intros _. split; intros ->.
    + apply H1. apply elem_of_app. by left.
    + apply (H2 _ Ha). by left.
  - intros [[-> | [Ha | ->]] Hn]; [|done|]; by destruct (Hn eq_refl).
Qed.

Lemma drop_wide (a t : list Z) (n : nat) : length a = n -> drop n (a ++ t) = t.
Proof. intros <-. by rewrite drop_app_length. Qed.

Lemma first_spec (r : zbx_iprange) (a t : list Z) :
  range_ok r -> wide r a ->
  exists b l, addresses r = b :: l /\ zbx_iprange_first r (a ++ t) = b ++ t.
Proof.
  intros Hr Ha. unfold zbx_iprange_first, addresses. rewrite (drop_wide a t _ Ha). fold (groups r).
  destruct (masked r) eqn:Hm.
  - destruct (masked_box r Hr Hm) as (rs & g & l & Eg & Hl & _ & E & _). rewrite E. cbn [tail].
    exists ((from <$> rs) ++ [from g + 1]).
    destruct l as [|z l]; (eexists; split; [reflexivity|]); rewrite Eg.
    all: unfold masked in Hm; apply andb_true_iff in Hm as [Hm _]; apply bool_decide_eq_true in Hm; rewrite Hm.
    all: change (ZBX_IPRANGE_GROUPS ZBX_IPRANGE_V4 - 1)%nat with 3%nat; rewrite fmap_app, <- !app_assoc; change (from <$> [g]) with [from g].
    all: rewrite <- (length_fmap from rs) in Hl; rewrite <- Hl; cbn [app]; rewrite chr_middle; apply list_insert_split.
  - destruct (box_path _ (range_ordered r Hr)) as [Hp _]. apply path_head in Hp as [l E]. by exists (from <$> groups r), l.
Qed.

Lemma addresses_ne (r : zbx_iprange) : range_ok r -> addresses r <> [].
Proof.
  intros Hr. destruct (first_spec r (replicate (ZBX_IPRANGE_GROUPS (type r)) 0) [] Hr) as (b & l & -> & _); [|done].
  apply length_replicate.
Qed.

Lemma addresses_wide (r : zbx_iprange) (a : list Z) : range_ok r -> a ∈ addresses r -> wide r a.
Proof.
  intros Hr Ha. apply (elem_of_addresses r a Hr) in Ha as [Ha _]. apply in_groups_length in Ha. unfold wide. rewrite <- Ha.
  by apply range_split.
Qed.

(** What [zbx_iprange_next] does where it starts from an address of the box. *)
Lemma next_in_box (r : zbx_iprange) (a b t : list Z) :
  range_ok r -> in_groups (groups r) a -> succ (groups r) a = Some b -> (masked r = true -> b <> (to <$> groups r)) ->
  next r (a ++ t) = Some (b ++ t).
Proof.
  intros Hr Ha E Hb. unfold next. rewrite next_spec, E by done. destruct (masked r); [|done].
  by rewrite bool_decide_eq_false_2 by by apply Hb.
Qed.

Lemma next_stops (r : zbx_iprange) (a t : list Z) :
  range_ok r -> in_groups (groups r) a ->
  succ (groups r) a = None \/ (masked r = true /\ succ (groups r) a = Some (to <$> groups r)) ->
  exists b, wide r b /\ zbx_iprange_next r (a ++ t) = (false, b ++ t).
Proof.
  intros Hr Ha HE. pose proof (range_split r Hr) as [_ El]. rewrite next_spec by done. destruct HE as [-> | [-> ->]].
  - exists (from <$> groups r). split; [|done]. unfold wide. by rewrite length_fmap.
  - exists (to <$> groups r). rewrite bool_decide_eq_true_2 by done. split; [|done]. unfold wide. by rewrite length_fmap.
Qed.

(** The walk from the first address, with what stays behind the groups. *)
Lemma addresses_path (r : zbx_iprange) (a t : list Z) :
  range_ok r -> wide r a ->
  exists b, wide r b /\ path (next r) (zbx_iprange_first r (a ++ t)) ((fun x => x ++ t) <$> addresses r) (b ++ t) /\
    exists c, wide r c /\ zbx_iprange_next r (b ++ t) = (false, c ++ t).
Proof.
  intros Hr Ha. destruct (first_spec r a t Hr Ha) as (x & l & El & ->). pose proof (range_ordered r Hr) as Ho.
  destruct (box_path _ Ho) as [Hp Hn]. pose proof (fun a H => proj1 (elem_of_addresses r a Hr) H) as Hin.
  assert (Hmap : forall c, path (succ (groups r)) x (addresses r) c ->
    path (next r) (x ++ t) ((fun x => x ++ t) <$> addresses r) (c ++ t)).
  { intros c. apply (path_map _ _ (fun x => x ++ t)). intros y z Hy Hz E. destruct (Hin y Hy) as [Hiy _], (Hin z Hz) as [_ Hz'].
    apply next_in_box; [done..|]. intros Hm. by destruct (Hz' Hm). }
  assert (Hc : exists c, path (succ (groups r)) x (addresses r) c /\
    (succ (groups r) c = None \/ (masked r = true /\ succ (groups r) c = Some (to <$> groups r)))).
  { unfold addresses in *. destruct (masked r) eqn:Hm.
    - destruct (masked_box r Hr Hm) as (rs & g & l' & _ & _ & _ & E & _). rewrite E in *. cbn [tail] in *.
      rewrite app_comm_cons in *. rewrite removelast_last in *. cbn [app] in Hp. apply path_tail in Hp as (_ & _ & Hp).
      injection El as <- <-. rewrite app_comm_cons in Hp. apply path_init in Hp as [_ Hp].
      destruct (Hp ltac:(done)) as (c & Hpc & Ec). exists c. split; [done|]. right. done.
    - rewrite El in Hp. pose proof Hp as Hh. apply path_head in Hh as [l1 [= -> ->]]. rewrite El. eauto. }
  destruct Hc as (c & Hpc & Hstop). exists c. pose proof (path_last _ _ _ _ Hpc) as Hcin. split; [by apply addresses_wide|].
  split; [by apply Hmap|]. apply next_stops; [done|by destruct (Hin c Hcin)|done].
Qed.

Lemma within_loop_spec (rs tl pre : list zbx_range) (a t prea : list Z) :
  length pre = length prea -> length rs = length a ->
  validate_loop (length rs) (length pre) (pre ++ rs ++ tl) (prea ++ a ++ t) = bool_decide (in_groups rs a).
Proof.
  revert pre a prea. induction rs as [|g rs IH]; intros pre [|x a] prea Hp Hl; try done. cbn [length validate_loop app].
  rewrite group_middle. rewrite Hp at 1 2. rewrite chr_middle.
  pose proof (IH (pre ++ [g]) a (prea ++ [x])) as IH'. rewrite !length_app in IH'. cbn [length] in IH'.
  rewrite <- !app_assoc in IH'. cbn [app] in IH'. injection Hl as Hl.
  assert (Hx : (x <? from g) || (to g <? x) = negb (bool_decide (in_group g x))).
  { unfold in_group. destruct (Z.ltb_spec x (from g)), (Z.ltb_spec (to g) x); cbn;
      symmetry; first [apply negb_true_iff, bool_decide_eq_false|apply negb_false_iff, bool_decide_eq_true]; lia. }
  rewrite Hx. case_bool_decide as Hg; cbn [negb].
  - rewrite IH' by (done || lia). apply bool_decide_ext. split; [by constructor|by inversion 1].
  - symmetry. apply bool_decide_eq_false. by inversion 1.
Qed.

Lemma within_spec (r : zbx_iprange) (a t : list Z) :
  range_ok r -> wide r a -> zbx_iprange_validate r (a ++ t) = bool_decide (in_groups (groups r) a).
Proof.
  intros Hr Ha. destruct (range_split r Hr) as [Es El]. unfold zbx_iprange_validate. rewrite <- El at 1. rewrite Es.
  apply (within_loop_spec (groups r) _ [] a t []); [done|]. by rewrite El.
Qed.

(** The loop of zbx_iprange_volume multiplies until the product is too large. *)
Lemma volume_loop_spec (rs : list zbx_range) (v : Z) :
  Forall ordered rs -> 1 <= v <= ZBX_MAX_UINT64 ->
  volume_loop rs v = if v * size rs <=? ZBX_MAX_UINT64 then Some (v * size rs) else None.
Proof.
  intros H. revert v. induction H as [|g rs Hg Hrs IH]; intros v Hv; cbn [volume_loop size].
  - rewrite Z.mul_1_r. by rewrite (proj2 (Z.leb_le _ _)) by lia.
  - pose proof (size_pos rs Hrs) as Hs. unfold ordered in Hg. set (n := to g - from g + 1). assert (Hn : 1 <= n) by lia.
    pose proof (Z.mul_div_le ZBX_MAX_UINT64 n ltac:(lia)) as Hd. pose proof (Z.mul_succ_div_gt ZBX_MAX_UINT64 n ltac:(lia)) as Hd'.
    destruct (Z.ltb_spec (ZBX_MAX_UINT64 / n) v) as [Hlt|Hge].
    + assert (ZBX_MAX_UINT64 < v * n) by nia. rewrite (proj2 (Z.leb_gt _ _)); [done|]. nia.
    + assert (v * n <= ZBX_MAX_UINT64) by nia. rewrite IH by nia. by rewrite Z.mul_assoc.
Qed.

Lemma length_addresses (r : zbx_iprange) :
  range_ok r -> Z.of_nat (length (addresses r)) = size (groups r) - (if masked r then 2 else 0).
Proof.
  intros Hr. pose proof (length_box _ (range_ordered r Hr)) as Hl. unfold addresses. destruct (masked r) eqn:Hm; [|lia].
  destruct (masked_box r Hr Hm) as (rs & g & l & _ & _ & _ & E & _). rewrite E in *. cbn [tail].
  rewrite app_comm_cons, removelast_last. cbn [length] in *. rewrite length_app in Hl. cbn [length] in Hl. lia.
Qed.

Lemma size_bound (rs : list zbx_range) (w : Z) :
  0 <= w -> Forall (fun g => 0 <= from g <= to g /\ to g < 2 ^ w) rs -> size rs <= 2 ^ (w * Z.of_nat (length rs)).
Proof.
  intros Hw. induction 1 as [|g rs Hg Hrs IH]; [by rewrite Z.mul_0_r|]. cbn [size length].
  assert (1 <= size rs).
  { apply size_pos. eapply Forall_impl; [exact Hrs|]. intros h [Hh _]. unfold ordered. lia. }
  replace (w * Z.of_nat (S (length rs))) with (w + w * Z.of_nat (length rs)) by lia. rewrite Z.pow_add_r by lia.
  pose proof (Z.pow_pos_nonneg 2 w ltac:(lia) Hw). nia.
Qed.

Lemma volume_spec (r : zbx_iprange) :
  range_ok r -> zbx_iprange_volume r = Z.min ZBX_MAX_UINT64 (Z.of_nat (length (addresses r))).
Proof.
  intros Hr. pose proof (range_ordered r Hr) as Ho. pose proof (size_pos _ Ho) as Hs. rewrite length_addresses by done.
  unfold zbx_iprange_volume. fold (groups r). rewrite volume_loop_spec by (done || unfold ZBX_MAX_UINT64; lia). rewrite Z.mul_1_l.
  destruct (masked r) eqn:Hm.
  - assert (Ht : type r = ZBX_IPRANGE_V4).
    { unfold masked in Hm. apply andb_true_iff in Hm as [Hm _]. by apply bool_decide_eq_true in Hm. }
    pose proof (range_split r Hr) as [_ El]. pose proof Hr as (_ & Hb & _). rewrite Ht in El, Hb.
    apply size_bound in Hb; [|done]. rewrite El in Hb. change (2 ^ (group_bits ZBX_IPRANGE_V4 * Z.of_nat _)) with (2 ^ 32) in Hb.
    rewrite (proj2 (Z.leb_le _ _)) by (unfold ZBX_MAX_UINT64; lia).
    assert (2 <= size (groups r)).
    { pose proof (length_box _ Ho) as Hl. destruct (masked_box r) as (? & ? & l & _ & _ & _ & E & _); [done..|].
      rewrite E in Hl. cbn [length] in Hl. rewrite length_app in Hl. cbn in Hl. lia. }
    rewrite u64_small by lia. unfold ZBX_MAX_UINT64. lia.
  - destruct (Z.leb_spec (size (groups r)) ZBX_MAX_UINT64); lia.
Qed.

Lemma removelast_sublist {A : Type} (l : list A) : removelast l `sublist_of` l.
Proof.
  destruct l as [|x l _] using rev_ind; [done|]. rewrite removelast_last. by apply sublist_inserts_r.
Qed.

Lemma NoDup_addresses (r : zbx_iprange) : NoDup (addresses r).
Proof.
  unfold addresses. pose proof (NoDup_box (groups r)) as H. destruct (masked r); [|done].
  apply (sublist_NoDup _ (box (groups r))); [done|]. etrans; [apply removelast_sublist|]. destruct (box (groups r)); [done|]. by apply sublist_cons.
Qed.

(** C28: A range of addresses is walked through exactly: started with what zbx_iprange_first gives and taken on with
    zbx_iprange_next until that fails, the walk visits every address of the range once and no other, where the network
    and the broadcast address do not belong to an IPv4 range written with a mask; zbx_iprange_validate accepts exactly
    the addresses between the ends of the groups; and zbx_iprange_volume is their number, or the largest 64-bit number if
    there are more. *)
Theorem iprange_walk_exact (r : zbx_iprange) (address : list Z) :
  range_ok r -> length address = 8%nat ->
  let tl := drop (ZBX_IPRANGE_GROUPS (type r)) address in
  walk (next r) (zbx_iprange_first r address) ((fun a => a ++ tl) <$> addresses r) /\
  NoDup (addresses r) /\
  (forall a, wide r a ->
     (a ∈ addresses r <-> zbx_iprange_validate r (a ++ tl) = true /\
       (masked r = true -> a <> (from <$> groups r) /\ a <> (to <$> groups r)))) /\
  zbx_iprange_volume r = Z.min ZBX_MAX_UINT64 (Z.of_nat (length (addresses r))).
Proof.
  intros Hr Hl tl. assert (Hw : wide r (take (ZBX_IPRANGE_GROUPS (type r)) address)).
  { unfold wide. rewrite length_take, Hl. by destruct (type r). }
  split_and!.
  - destruct (addresses_path r _ tl Hr Hw) as (b & _ & Hp & c & _ & Hc). unfold tl in Hp at 1. rewrite take_drop in Hp.
    exists (b ++ tl). split; [exact Hp|]. unfold next. by rewrite Hc.
  - apply NoDup_addresses.
  - intros a Ha. rewrite elem_of_addresses, within_spec by done. by rewrite bool_decide_eq_true.
  - by apply volume_spec.
Qed.

Lemma iprange_walk_exact_witness :
  let r := Iprange (replicate 3 (Range 10 10) ++ [Range 4 7] ++ replicate 4 (Range 0 0)) ZBX_IPRANGE_V4 true in
  let address := replicate 8 0 in
  addresses r = [[10; 10; 10; 5]; [10; 10; 10; 6]] /\
  walk (next r) (zbx_iprange_first r address) ((fun a => a ++ replicate 4 0) <$> addresses r) /\ zbx_iprange_volume r = 2.
Proof.
  intros r address.
  assert (Hr : range_ok r).
  { split; [done|]. split; [|done]. cbn. repeat constructor; cbn; lia. }
  destruct (iprange_walk_exact r address Hr eq_refl) as (H & _ & _ & Hv).
  split; [vm_compute; done|]. split; [exact H|]. rewrite Hv. vm_compute. done.
Defined.
