(* ===== verification/IpUniq.v ===== *)
(** The distinct addresses of several ranges and the distinct ports of several
    port ranges: the iterators visit each once. *)

From Stdlib Require Import ZArith Lia ZifyBool.
From S2P Require Import Prelude IpRange IpPath IpIter.
From stdpp Require Import base sets numbers list.

Open Scope Z_scope.

(** The addresses of [rs] that are in none of the ranges before them. *)
Fixpoint distinct (seen rs : list zbx_iprange) : list (list Z) :=
  match rs with
  | [] => []
  | r :: rs => filter (fun a => Forall (fun s => ~ in_groups (groups s) a) seen) (addresses r) ++ distinct (seen ++ [r]) rs
  end.

Lemma elem_of_distinct (seen rs : list zbx_iprange) (a : list Z) :
  a ∈ distinct seen rs <->
  exists pre r post, rs = pre ++ r :: post /\ a ∈ addresses r /\ Forall (fun s => ~ in_groups (groups s) a) (seen ++ pre).
Proof.
  revert seen. induction rs as [|r rs IH]; intros seen; cbn [distinct].
  - split; [by intros ?%elem_of_nil|]. by intros ([] & ? & ? & ? & _).
  - rewrite elem_of_app, list_elem_of_filter, IH. split.
    + intros [[H1 H2] | (pre & r' & post & -> & H1 & H2)].
      * exists [], r, rs. by rewrite app_nil_r.
      * exists (r :: pre), r', post. by rewrite <- app_assoc in H2.
    + intros ([|r1 pre] & r' & post & E & H1 & H2); injection E as -> ->.
      * left. by rewrite app_nil_r in H2.
      * right. exists pre, r', post. by rewrite <- app_assoc.
Qed.

Lemma NoDup_distinct (seen rs : list zbx_iprange) : Forall range_ok rs -> NoDup (distinct seen rs).
Proof.
  intros H. revert seen. induction H as [|r rs Hr _ IH]; intros seen; [constructor|]. cbn [distinct].
  apply NoDup_app. split_and!; [apply NoDup_filter, NoDup_addresses| |apply IH].
  intros a [_ Ha]%list_elem_of_filter (pre & r' & post & _ & _ & H2)%elem_of_distinct.
  apply Forall_app in H2 as [H2 _]. apply Forall_app in H2 as [_ H2]. inversion H2 as [|? ? Hn _]; subst.
  apply Hn. by apply (elem_of_addresses r a Hr) in Ha as [Ha _].
Qed.

(* ------------------------------------------------------------------ *)
(** ** zbx_iprange_uniq_iter *)

Section Uniq.
  Context (ipranges : list zbx_iprange) (ty : ip_type) (tl : list Z).
  Context (ok : Forall (fun r => type r = ty /\ range_ok r) ipranges).

(** One address on, whether it was seen or not. *)
Definition step (x : nat * list Z) : option (nat * list Z) :=
  let '(ok, address) := zbx_iprange_next (iprange_at ipranges x.1) x.2 in
  if ok then Some (x.1, address)
  else if (S x.1 =? length ipranges)%nat then None
  else Some (S x.1, zbx_iprange_first (iprange_at ipranges (S x.1)) address).

Definition unseen (x : nat * list Z) : bool := negb (seen_before ipranges x.1 x.2).

Fixpoint flat (i : nat) (rs : list zbx_iprange) : list (nat * list Z) :=
  match rs with
  | [] => []
  | r :: rs => ((fun a => (i, a ++ tl)) <$> addresses r) ++ flat (S i) rs
  end.

Lemma iprange_at_middle (pre rs : list zbx_iprange) (r : zbx_iprange) : iprange_at (pre ++ r :: rs) (length pre) = r.
Proof. unfold iprange_at. by rewrite nth_middle. Qed.

Lemma ok_at (pre rs : list zbx_iprange) (r : zbx_iprange) : ipranges = pre ++ r :: rs -> type r = ty /\ range_ok r.
Proof. intros E. rewrite E in ok. apply Forall_app in ok as [_ H]. by inversion H. Qed.

Lemma flat_path (pre rs : list zbx_iprange) (r : zbx_iprange) (a : list Z) :
  ipranges = pre ++ r :: rs -> length a = ZBX_IPRANGE_GROUPS ty ->
  exists b, path step (length pre, zbx_iprange_first r (a ++ tl)) (flat (length pre) (r :: rs)) b /\ step b = None.
Proof.
  revert pre r a. induction rs as [|r2 rs IH]; intros pre r a E Ha; destruct (ok_at _ _ _ E) as [Ht Hr];
    (assert (Hw : wide r a) by by unfold wide; rewrite Ht);
    destruct (addresses_path r a tl Hr Hw) as (b & Hb & Hp & c & Hc & En);
    (assert (Hat : iprange_at ipranges (length pre) = r) by by rewrite E, iprange_at_middle);
    (assert (Hmap : path step (length pre, zbx_iprange_first r (a ++ tl)) ((fun a => (length pre, a ++ tl)) <$> addresses r)
      (length pre, b ++ tl))); [|..].
  1, 3: apply (path_map _ step (fun x => (length pre, x))) in Hp; [by rewrite <- list_fmap_compose in Hp|];
    intros x y _ _; unfold next, step; cbn [fst snd]; rewrite Hat; destruct (zbx_iprange_next r x) as [[] z]; by intros [= ->].
  - exists (length pre, b ++ tl). cbn [flat]. rewrite app_nil_r. split; [done|]. unfold step. cbn [fst snd].
    rewrite Hat, En, E, length_app. cbn [length]. by rewrite (proj2 (Nat.eqb_eq _ _)) by lia.
  - pose proof (IH (pre ++ [r]) r2 c) as IH'. rewrite <- app_assoc, length_app in IH'. cbn [length app] in IH'. rewrite Nat.add_1_r in IH'.
    unfold wide in Hc. rewrite Ht in Hc. destruct (IH' E Hc) as (d & Hd & Hn). exists d. split; [|done].
    cbn [flat]. eapply path_app; [exact Hmap| |exact Hd]. unfold step. cbn [fst snd]. rewrite Hat, En, E, length_app. cbn [length].
    rewrite (proj2 (Nat.eqb_neq _ _)) by lia. do 3 f_equal. change (r :: r2 :: rs) with ([r] ++ r2 :: rs). rewrite app_assoc.
    replace (S (length pre)) with (length (pre ++ [r])) by (rewrite length_app; cbn; lia). apply iprange_at_middle.
Qed.

(** The addresses that are kept. *)
Lemma seen_spec (pre rs : list zbx_iprange) (a : list Z) :
  ipranges = pre ++ rs -> length a = ZBX_IPRANGE_GROUPS ty ->
  unseen (length pre, a ++ tl) = bool_decide (Forall (fun s => ~ in_groups (groups s) a) pre).
Proof.
  intros E Ha. unfold unseen, seen_before. cbn [fst snd]. rewrite E, take_app_length.
  rewrite E in ok. apply Forall_app in ok as [Hpre _]. clear E. induction Hpre as [|r pre [Ht Hr] _ IH]; [done|]. cbn [existsb].
  rewrite within_spec by (done || by unfold wide; rewrite Ht). rewrite negb_orb. cbn in IH. rewrite IH.
  destruct (decide (in_groups (groups r) a)) as [Hin|Hin].
  - rewrite bool_decide_eq_true_2 by done. symmetry. cbn. apply bool_decide_eq_false. by inversion 1.
  - rewrite bool_decide_eq_false_2 by done. cbn. apply bool_decide_ext. split; [by constructor|by inversion 1].
Qed.

Lemma kept_distinct (pre rs : list zbx_iprange) :
  ipranges = pre ++ rs ->
  (filter (fun x => unseen x = true) (flat (length pre) rs)).*2 = (fun a => a ++ tl) <$> distinct pre rs.
Proof.
  revert pre. induction rs as [|r rs IH]; intros pre E; [done|]. cbn [flat distinct].
  rewrite filter_app, !fmap_app. pose proof (IH (pre ++ [r])) as IH'. rewrite length_app, <- app_assoc in IH'. cbn [length app] in IH'.
  rewrite Nat.add_1_r in IH'. rewrite (IH' E). f_equal. destruct (ok_at _ _ _ E) as [Ht Hr].
  assert (Hin : Forall (wide r) (addresses r)) by by apply Forall_forall; intros a; apply addresses_wide.
  induction Hin as [|a l Ha _ IHl]; [done|]. rewrite fmap_cons, !filter_cons. unfold wide in Ha. rewrite Ht in Ha.
  rewrite (seen_spec pre (r :: rs) a E Ha).
  destruct (decide (Forall (fun s => ~ in_groups (groups s) a) pre)) as [Hf|Hf].
  - rewrite bool_decide_eq_true_2 by done. rewrite decide_True by done. cbn. by f_equal.
  - rewrite bool_decide_eq_false_2 by done. rewrite decide_False by done. done.
Qed.

Lemma length_flat (i : nat) (rs : list zbx_iprange) :
  Forall (fun r => type r = ty /\ range_ok r) rs -> Z.of_nat (length (flat i rs)) <= Z.of_nat (length rs) * 2 ^ 128.
Proof.
  intros H. revert i. induction H as [|r rs [Ht Hr] _ IH]; intros i; cbn [flat length]; [lia|].
  rewrite length_app, length_fmap. specialize (IH (S i)).
  assert (Z.of_nat (length (addresses r)) <= 2 ^ 128); [|lia].
  rewrite length_addresses by done. pose proof (range_split r Hr) as [_ El]. destruct Hr as (_ & Hb & _).
  apply size_bound in Hb; [|by destruct (type r)]. rewrite El in Hb. destruct (type r), (masked r); cbn in Hb; lia.
Qed.
End Uniq.

(** The address zbx_iprange_uniq_iter goes on to. *)
Definition uniq_next (ipranges : list zbx_iprange) (x : nat * list Z) : option (nat * list Z) :=
  match zbx_iprange_uniq_iter ipranges x with Ret (true, y) => Some y | _ => None end.

Lemma uniq_body_none (ipranges : list zbx_iprange) (x : nat * list Z) :
  step ipranges x = None -> exists z, uniq_body ipranges x = Ret (inr (false, z)).
Proof.
  destruct x as [i a]. unfold step, uniq_body. cbn [fst snd].
  destruct (zbx_iprange_next (iprange_at ipranges i) a) as [[] b]; cbn [negb andb]; [done|].
  destruct (S i =? length ipranges)%nat; [|done]. eauto.
Qed.

Lemma uniq_body_some (ipranges : list zbx_iprange) (x y : nat * list Z) :
  step ipranges x = Some y -> uniq_body ipranges x = Ret (if unseen ipranges y then inr (true, y) else inl y).
Proof.
  destruct x as [i a]. unfold step, uniq_body, unseen. cbn [fst snd].
  destruct (zbx_iprange_next (iprange_at ipranges i) a) as [[] b]; cbn [negb andb].
  - intros [= <-]. cbn [fst snd]. by destruct (seen_before ipranges i b).
  - destruct (S i =? length ipranges)%nat; [done|]. intros [= <-]. cbn [fst snd].
    by destruct (seen_before ipranges (S i) (zbx_iprange_first (iprange_at ipranges (S i)) b)).
Qed.

(** No address is all zeros. *)
Definition no_zero (ipranges : list zbx_iprange) : Prop :=
  Forall (fun r => Forall (fun a => ~ Forall (fun x => x = 0) a) (addresses r)) ipranges.

Lemma flat_elem (tl : list Z) (i : nat) (rs : list zbx_iprange) (x : nat * list Z) :
  x ∈ flat tl i rs -> (x.1 < i + length rs)%nat /\ exists r a, r ∈ rs /\ a ∈ addresses r /\ x.2 = a ++ tl.
Proof.
  revert i. induction rs as [|r rs IH]; intros i; cbn [flat length]; [by intros ?%elem_of_nil|].
  intros [(a & -> & Ha)%list_elem_of_fmap | (Hi & r' & a & Hr & Ha & E)%IH]%elem_of_app; cbn.
  - split; [lia|]. exists r, a. split_and!; [by left|done..].
  - split; [lia|]. exists r', a. split_and!; [by right|done..].
Qed.

Lemma forallb_zero (a : list Z) : forallb (fun x => x =? 0) a = true <-> Forall (fun x => x = 0) a.
Proof. induction a as [|x a IH]; [done|]. cbn. rewrite andb_true_iff, IH, Z.eqb_eq, Forall_cons. done. Qed.

(** On an address of the ranges the call is the loop. *)
Lemma uniq_iter_loop (ipranges : list zbx_iprange) (ty : ip_type) (tl : list Z) (x : nat * list Z) :
  Forall (fun r => type r = ty /\ range_ok r) ipranges -> no_zero ipranges -> x ∈ flat tl 0 ipranges ->
  zbx_iprange_uniq_iter ipranges x = while (128 + length ipranges) (uniq_body ipranges) x.
Proof.
  intros Hok Hz Hx. apply flat_elem in Hx as (Hi & r & a & Hr & Ha & E). destruct x as [i addr]. cbn in Hi, E. subst addr.
  unfold zbx_iprange_uniq_iter. destruct ipranges as [|r0 rs]; [by apply elem_of_nil in Hr|].
  rewrite Forall_forall in Hok. destruct (Hok r Hr) as [Ht Hrok], (Hok r0 ltac:(by left)) as [Ht0 _].
  pose proof (addresses_wide r a Hrok Ha) as Hw. unfold wide in Hw. rewrite Ht0, <- Ht, <- Hw, take_app_length.
  destruct (forallb _ a) eqn:Hf.
  - apply forallb_zero in Hf. unfold no_zero in Hz. rewrite Forall_forall in Hz. specialize (Hz r Hr). rewrite Forall_forall in Hz.
    by destruct (Hz a Ha).
  - by rewrite (proj2 (Nat.eqb_neq _ _)) by lia.
Qed.

(** The walk over the distinct addresses, from a start that is not kept. *)
Lemma uniq_walk (ipranges : list zbx_iprange) (ty : ip_type) (tl a : list Z) (r : zbx_iprange) (rs : list zbx_iprange) :
  ipranges = r :: rs -> Forall (fun r => type r = ty /\ range_ok r) ipranges -> no_zero ipranges -> length a = ZBX_IPRANGE_GROUPS ty ->
  let l := filter (fun x => unseen ipranges x = true) (flat tl 0 ipranges) in
  walk (uniq_next ipranges) (0%nat, zbx_iprange_first r (a ++ tl)) l /\
  Forall (fun x => exists v, zbx_iprange_uniq_iter ipranges x = Ret v) l.
Proof.
  intros E Hok Hz Ha l. destruct (flat_path ipranges ty tl Hok [] rs r a E Ha) as (b & Hp & Hb). cbn [length] in Hp.
  rewrite <- E in Hp. pose proof (length_flat ty tl 0 ipranges Hok) as Hlen.
  assert (Hk : Z.of_nat (length (flat tl 0 ipranges)) < 2 ^ Z.of_nat (128 + length ipranges)).
  { rewrite Nat2Z.inj_add, Z.pow_add_r by lia. change (Z.of_nat 128) with 128.
    pose proof (Z.pow_gt_lin_r 2 (Z.of_nat (length ipranges)) ltac:(lia) ltac:(lia)) as Hg.
    apply (Z.mul_lt_mono_pos_l (2 ^ 128)) in Hg; lia. }
  pose proof (uniq_body_none ipranges) as Hn. pose proof (uniq_body_some ipranges) as Hs.
  assert (Hsub : forall x, x ∈ l -> x ∈ flat tl 0 ipranges) by by intros x [_ ?]%list_elem_of_filter.
  split.
  - pose proof (kept_walk (step ipranges) (unseen ipranges) _ _ Hn Hs _ _ _ Hp Hb Hk) as Hw.
    pose proof Hp as Hh. apply path_head in Hh as [l' El].
    assert (Hl : l = (0%nat, zbx_iprange_first r (a ++ tl)) :: filter (fun x => unseen ipranges x = true) l').
    { unfold l. rewrite El, filter_cons, decide_True; done. }
    rewrite El in Hw. cbn [tail] in Hw. rewrite Hl in *. apply (walk_ext _ _ _ _) with (2 := Hw). intros x Hx. unfold next_kept, uniq_next.
    by rewrite (uniq_iter_loop _ ty tl x Hok Hz (Hsub x Hx)).
  - apply Forall_forall. intros x Hx. rewrite (uniq_iter_loop _ ty tl x Hok Hz (Hsub x Hx)).
    destruct (path_from _ _ _ x _ Hp (Hsub x Hx)) as (l' & Hp' & Hl').
    destruct (kept_run (step ipranges) (unseen ipranges) (128 + length ipranges) _ Hn Hs _ _ _ Hp' Hb ltac:(lia)) as (v & Hv & _). by exists v.
Qed.

(** C27: The iterator over several ranges of one kind visits every address of theirs exactly once: started with an address
    of zeros and called until it fails, it goes through the first range and then through each later one, leaving out what
    an earlier range contains; so no address is visited twice, and an address is visited if and only if some range has it
    and no range before that one contains it, which for ranges without masks is every address that some range accepts.
    Each call ends. The address of zeros itself must not belong to the ranges: process_rule of the discoverer refuses one that starts with it. *)
Theorem iprange_uniq_exact (ipranges : list zbx_iprange) (ty : ip_type) (idx : nat) (zeros tl : list Z) :
  Forall (fun r => type r = ty /\ range_ok r) ipranges -> no_zero ipranges -> ipranges <> [] ->
  length zeros = ZBX_IPRANGE_GROUPS ty -> Forall (fun x => x = 0) zeros ->
  (exists x l, zbx_iprange_uniq_iter ipranges (idx, zeros ++ tl) = Ret (true, x) /\ walk (uniq_next ipranges) x l /\
     l.*2 = (fun a => a ++ tl) <$> distinct [] ipranges /\
     Forall (fun x => exists v, zbx_iprange_uniq_iter ipranges x = Ret v) l) /\
  NoDup (distinct [] ipranges) /\
  (forall a, a ∈ distinct [] ipranges <->
     exists pre r post, ipranges = pre ++ r :: post /\ a ∈ addresses r /\ Forall (fun s => ~ in_groups (groups s) a) pre) /\
  (Forall (fun r => masked r = false) ipranges ->
   forall a, length a = ZBX_IPRANGE_GROUPS ty ->
     a ∈ distinct [] ipranges <-> Exists (fun r => zbx_iprange_validate r (a ++ tl) = true) ipranges).
Proof.
  intros Hok Hz Hne Hl H0. destruct ipranges as [|r rs] eqn:E; [done|]. rewrite <- E in *. split_and!.
  - exists (0%nat, zbx_iprange_first r (zeros ++ tl)). eexists. split; [|split; [by eapply uniq_walk|]].
    + unfold zbx_iprange_uniq_iter. rewrite E. assert (Ht : type r = ty) by (rewrite E in Hok; by inversion Hok as [|? ? []]).
      rewrite Ht, <- Hl, take_app_length. by rewrite (proj2 (forallb_zero zeros) H0).
    + split; [by apply (kept_distinct ipranges ty tl Hok [] ipranges)|by eapply uniq_walk].
  - apply NoDup_distinct. eapply Forall_impl; [exact Hok|]. by intros ? [].
  - intros a. by rewrite elem_of_distinct.
  - intros Hm a Ha. rewrite elem_of_distinct, Exists_exists. rewrite Forall_forall in Hok, Hm.
    assert (Hv : forall s, s ∈ ipranges -> zbx_iprange_validate s (a ++ tl) = true <-> in_groups (groups s) a).
    { intros s Hin. destruct (Hok s Hin) as [Ht Hs]. rewrite within_spec by (done || by unfold wide; rewrite Ht).
      apply bool_decide_eq_true. }
    assert (Hadd : forall s, s ∈ ipranges -> a ∈ addresses s <-> in_groups (groups s) a).
    { intros s Hin. destruct (Hok s Hin) as [_ Hs]. rewrite elem_of_addresses by done. rewrite (Hm s Hin). naive_solver. }
    split.
    + intros (pre & s & post & Es & Has & _). assert (Hin : s ∈ ipranges) by (rewrite Es; set_solver).
      exists s. split; [done|]. by apply Hv, Hadd.
    + intros (s & Hin & Hs%Hv); [|done].
      destruct (first_such (fun r => in_groups (groups r) a) ipranges) as (pre & r' & post & Er & Hr' & Hpre).
      { apply Exists_exists. by exists s. }
      exists pre, r', post. split_and!; [done| |done]. apply Hadd; [|done]. rewrite Er. set_solver.
Qed.

Lemma iprange_uniq_exact_witness :
  let range_from_to (a b : Z) := Iprange (replicate 3 (Range 10 10) ++ [Range a b] ++ replicate 4 (Range 0 0)) ZBX_IPRANGE_V4 false in
  let ipranges := [range_from_to 1 2; range_from_to 2 3] in
  distinct [] ipranges = [[10; 10; 10; 1]; [10; 10; 10; 2]; [10; 10; 10; 3]] /\
  exists x l, zbx_iprange_uniq_iter ipranges (0%nat, replicate 4 0 ++ replicate 4 0) = Ret (true, x) /\
    walk (uniq_next ipranges) x l /\ l.*2 = (fun a => a ++ replicate 4 0) <$> distinct [] ipranges.
Proof.
  intros range_from_to ipranges.
  assert (Hok : Forall (fun r => type r = ZBX_IPRANGE_V4 /\ range_ok r) ipranges).
  { repeat constructor; cbn; try lia; done. }
  assert (Hz : no_zero ipranges).
  { unfold no_zero. vm_compute addresses. repeat constructor; intros H; inversion H as [|? ? H0]; discriminate H0. }
  assert (H0 : Forall (fun x => x = 0) (replicate 4 0)) by by repeat constructor.
  destruct (iprange_uniq_exact ipranges ZBX_IPRANGE_V4 0 (replicate 4 0) (replicate 4 0) Hok Hz ltac:(done) eq_refl H0)
    as ((x & l & E & Hw & Hl & _) & _).
  split; [vm_compute; done|]. exists x, l. split; [exact E|]. split; [exact Hw|exact Hl].
Defined.
