(* ===== verification/IpParse.v ===== *)
(** Network masks (iprange_apply_mask turns an address into the block of the
    addresses with the same leading bits), and what the parser of ranges
    accepts: it can be walked through. *)

From Stdlib Require Import ZArith Lia ZifyBool.
From S2P Require Import Prelude IpRange IpPath IpIter.
From S2P Require Num.
From stdpp Require Import base numbers strings list.

Open Scope Z_scope.
Import CharConst.

(* ------------------------------------------------------------------ *)
(** ** The masks *)

Lemma high_bits (x i n : Z) : 0 <= x < 2 ^ n -> 0 <= n <= i -> Z.testbit x i = false.
Proof. intros Hx Hi. rewrite <- (Z.mod_small x (2 ^ n)) by lia. apply Z.mod_pow2_bits_high. lia. Qed.

Lemma mask_empty_spec (x m : Z) :
  0 <= x < 2 ^ 32 -> 0 <= m <= 32 -> Z.land x (u32 (Z.shiftl 0xffffffff m)) = x / 2 ^ m * 2 ^ m.
Proof.
  intros Hx Hm. rewrite <- Z.shiftr_div_pow2, <- Z.shiftl_mul_pow2 by lia.
  change 0xffffffff with (Z.ones 32). unfold u32. rewrite <- Z.land_ones by lia. apply Z.bits_inj'. intros i Hi.
  rewrite !Z.land_spec, !Z.shiftl_spec, !Z.testbit_ones by lia.
  destruct (Z.le_gt_cases m i); [|rewrite !(Z.testbit_neg_r _ (i - m)) by lia; lia].
  rewrite Z.shiftr_spec by lia. replace (i - m + m) with i by lia.
  destruct (Z.le_gt_cases 32 i); [rewrite (high_bits x i 32) by lia; done|].
  rewrite (proj2 (Z.leb_le 0 (i - m))), (proj2 (Z.ltb_lt (i - m) 32)), (proj2 (Z.leb_le 0 i)), (proj2 (Z.ltb_lt i 32)) by lia.
  by rewrite !andb_true_r.
Qed.

Lemma mask_fill_spec (x m : Z) :
  0 <= x -> 0 <= m <= 32 -> Z.lor x (Z.shiftr 0xffffffff (32 - m)) = x / 2 ^ m * 2 ^ m + (2 ^ m - 1).
Proof.
  intros Hx Hm. assert (E : Z.shiftr 0xffffffff (32 - m) = 2 ^ m - 1).
  { change 0xffffffff with (Z.ones 32). rewrite Z.ones_equiv, Z.shiftr_div_pow2 by lia.
    replace 32 with (m + (32 - m)) at 1 by lia. rewrite Z.pow_add_r by lia.
    pose proof (Z.pow_pos_nonneg 2 m ltac:(lia) ltac:(lia)). pose proof (Z.pow_pos_nonneg 2 (32 - m) ltac:(lia) ltac:(lia)).
    symmetry. apply (Z.div_unique _ _ _ (2 ^ (32 - m) - 1)); [lia|]. unfold Z.pred. nia. }
  rewrite E. pose proof (Z.pow_pos_nonneg 2 m ltac:(lia) ltac:(lia)) as Hp.
  rewrite <- (lor_disjoint_add_r (2 ^ m - 1) (x / 2 ^ m) m) by lia.
  replace (2 ^ m - 1) with (Z.ones m) by (rewrite Z.ones_equiv; lia).
  rewrite <- Z.shiftr_div_pow2, <- Z.shiftl_mul_pow2 by lia. apply Z.bits_inj'. intros i Hi.
  rewrite !Z.lor_spec, !Z.shiftl_spec, !Z.testbit_ones by lia.
  destruct (Z.le_gt_cases m i).
  - rewrite Z.shiftr_spec by lia. by replace (i - m + m) with i by lia.
  - rewrite (proj2 (Z.leb_le 0 i)), (proj2 (Z.ltb_lt i m)) by lia. by rewrite !orb_true_r.
Qed.

(** A group with [m] of its bits freed. *)
Definition freed (m : Z) (g : zbx_range) : zbx_range :=
  Range (from g / 2 ^ m * 2 ^ m) (to g / 2 ^ m * 2 ^ m + (2 ^ m - 1)).

Lemma freed_ok (m w : Z) (g : zbx_range) :
  0 <= m <= w -> 0 <= from g <= to g /\ to g < 2 ^ w ->
  0 <= from (freed m g) <= from g /\ to g <= to (freed m g) /\ to (freed m g) < 2 ^ w /\
  from (freed m g) + (2 ^ m - 1) <= to (freed m g).
Proof.
  intros Hm Hg. cbn. assert (Hp : 0 < 2 ^ m) by (apply Z.pow_pos_nonneg; lia).
  replace w with (m + (w - m)) in * by lia. rewrite Z.pow_add_r in * by lia.
  pose proof (Z.div_mod (from g) (2 ^ m) ltac:(lia)). pose proof (Z.mod_pos_bound (from g) (2 ^ m) Hp).
  pose proof (Z.div_mod (to g) (2 ^ m) ltac:(lia)). pose proof (Z.mod_pos_bound (to g) (2 ^ m) Hp).
  pose proof (Z.div_le_mono (from g) (to g) (2 ^ m) Hp ltac:(lia)).
  pose proof (Z.div_pos (from g) (2 ^ m) ltac:(lia) Hp).
  assert (to g / 2 ^ m < 2 ^ (w - m)) by (apply Z.div_lt_upper_bound; lia). nia.
Qed.

(** [mask_loop] from the last group on, [bits] of them to be freed. *)
Fixpoint mask_block (w bits : Z) (rs : list zbx_range) : list zbx_range :=
  match rs with
  | [] => []
  | g :: rs =>
    let b := bits - w * Z.of_nat (length rs) in
    (if 0 <? b then freed (Z.min w b) g else g) :: mask_block w bits rs
  end.

Lemma block_snoc (w bits : Z) (rs : list zbx_range) (g : zbx_range) :
  mask_block w bits (rs ++ [g]) = mask_block w (bits - w) rs ++ [if 0 <? bits then freed (Z.min w bits) g else g].
Proof.
  induction rs as [|h rs IH]; cbn [app mask_block length]; [by rewrite Z.mul_0_r, Z.sub_0_r|].
  rewrite IH, length_app. cbn [length]. replace (bits - w * Z.of_nat (length rs + 1)) with (bits - w - w * Z.of_nat (length rs)) by lia.
  done.
Qed.

Lemma block_none (w bits : Z) (rs : list zbx_range) : 0 <= w -> bits <= 0 -> mask_block w bits rs = rs.
Proof. intros Hw Hb. induction rs as [|g rs IH]; cbn [mask_block]; [done|]. rewrite IH. by rewrite (proj2 (Z.ltb_ge _ _)) by nia. Qed.

Lemma mask_loop_block (w bits : Z) (rs tl : list zbx_range) :
  0 < w <= 32 -> Forall (fun g => 0 <= from g <= to g /\ to g < 2 ^ w) rs ->
  mask_loop (length rs) w bits (rs ++ tl) = mask_block w bits rs ++ tl.
Proof.
  intros Hw H. assert (Hp : 2 ^ w <= 2 ^ 32) by (apply Z.pow_le_mono_r; lia).
  revert bits tl. induction rs as [|g rs IH] using rev_ind; intros bits tl; [done|].
  apply Forall_app in H as [Hrs Hg]. inversion Hg as [|? ? Hg' _]; subst.
  rewrite length_app, Nat.add_1_r. cbn [mask_loop]. rewrite block_snoc, <- !app_assoc. cbn [app]. rewrite group_middle.
  destruct (Z.ltb_spec 0 bits).
  - assert (Em : (if w <? bits then w else bits) = Z.min w bits) by (destruct (Z.ltb_spec w bits); lia). rewrite Em.
    rewrite mask_empty_spec, mask_fill_spec by lia. rewrite list_insert_split. by apply (IH Hrs).
  - by rewrite block_none by lia.
Qed.

Lemma length_block (w bits : Z) (rs : list zbx_range) : length (mask_block w bits rs) = length rs.
Proof. induction rs as [|g rs IH]; cbn; [done|by rewrite IH]. Qed.

Lemma block_ok (w bits : Z) (rs : list zbx_range) :
  0 < w -> Forall (fun g => 0 <= from g <= to g /\ to g < 2 ^ w) rs ->
  Forall (fun g => 0 <= from g <= to g /\ to g < 2 ^ w) (mask_block w bits rs).
Proof.
  intros Hw. induction 1 as [|g rs Hg _ IH]; cbn [mask_block]; constructor; [|done].
  destruct (Z.ltb_spec 0 (bits - w * Z.of_nat (length rs))); [|done].
  pose proof (freed_ok (Z.min w (bits - w * Z.of_nat (length rs))) w g ltac:(lia) Hg) as Hf. lia.
Qed.

(* ------------------------------------------------------------------ *)
(** ** Blocks of addresses *)

(** The number an address is, with groups of [w] bits. *)
Definition number (w : Z) (a : list Z) : Z := Num.digits_value (2 ^ w) a.

Lemma number_snoc (w x : Z) (a : list Z) : number w (a ++ [x]) = number w a * 2 ^ w + x.
Proof. unfold number. by rewrite Num.digits_value_app. Qed.

Lemma number_pos (w : Z) (a : list Z) : 0 <= w -> Forall (fun x => 0 <= x < 2 ^ w) a -> 0 <= number w a.
Proof.
  intros Hw H. induction a as [|x a IH] using rev_ind; [done|]. apply Forall_app in H as [Ha Hx]. inversion Hx; subst.
  rewrite number_snoc. specialize (IH Ha). nia.
Qed.

Lemma number_inj (w : Z) (a b : list Z) :
  Forall (fun x => 0 <= x < 2 ^ w) a -> Forall (fun x => 0 <= x < 2 ^ w) b -> length a = length b ->
  number w a = number w b -> a = b.
Proof.
  revert b. induction a as [|x a IH] using rev_ind; intros b Ha Hb Hl E.
  - by destruct b.
  - destruct b as [|y b _] using rev_ind; [rewrite length_app in Hl; cbn in Hl; lia|].
    apply Forall_app in Ha as [Ha Hx]. apply Forall_app in Hb as [Hb Hy]. inversion Hx as [|? ? Hx' _]; subst.
    inversion Hy as [|? ? Hy' _]; subst. rewrite !number_snoc in E. rewrite !length_app in Hl. cbn in Hl.
    assert (number w a = number w b /\ x = y) as [En ->].
    { apply (Z.div_mod_unique (2 ^ w)); lia. }
    by rewrite (IH b Ha Hb ltac:(lia) En).
Qed.

Definition single (a : list Z) : list zbx_range := (fun x => Range x x) <$> a.

Lemma in_single (a x : list Z) : in_groups (single a) x <-> x = a.
Proof.
  revert x. induction a as [|y a IH]; intros x; cbn.
  - split; [by inversion 1|intros ->; constructor].
  - split.
    + inversion 1 as [|? z ? b Hz Hb]; subst. apply IH in Hb as ->. unfold in_group in Hz. cbn in Hz. f_equal. lia.
    + intros ->. constructor; [unfold in_group; cbn; lia|by apply IH].
Qed.

Lemma in_groups_snoc (rs : list zbx_range) (g : zbx_range) (a : list Z) (x : Z) :
  in_groups (rs ++ [g]) (a ++ [x]) <-> in_groups rs a /\ in_group g x.
Proof.
  split.
  - intros (a1 & a2 & H1 & H2 & E)%Forall2_app_inv_l. inversion H2 as [|? y ? ? Hy Hn]; subst. inversion Hn; subst.
    by apply app_inj_tail in E as [-> ->].
  - intros [H1 H2]. apply Forall2_app; [done|]. by constructor.
Qed.

Lemma in_freed (m y z : Z) : 0 <= m -> in_group (freed m (Range y y)) z <-> z / 2 ^ m = y / 2 ^ m.
Proof.
  intros Hm. unfold in_group. cbn. assert (Hp : 0 < 2 ^ m) by (apply Z.pow_pos_nonneg; lia).
  pose proof (Z.div_mod z (2 ^ m) ltac:(lia)). pose proof (Z.mod_pos_bound z (2 ^ m) Hp). split; [|intros <-; lia].
  intros Hz. symmetry. apply (Z.div_unique_pos _ _ _ (z - y / 2 ^ m * 2 ^ m)); lia.
Qed.

Definition in_width (w : Z) (a : list Z) : Prop := Forall (fun x => 0 <= x < 2 ^ w) a.

(** The block of an address: the addresses with the same leading bits. *)
Lemma in_block (w bits : Z) (a x : list Z) :
  0 < w -> 0 <= bits -> in_width w a -> in_width w x -> length x = length a ->
  in_groups (mask_block w bits (single a)) x <-> number w x / 2 ^ bits = number w a / 2 ^ bits.
Proof.
  intros Hw. revert bits x. induction a as [|y a IH] using rev_ind; intros bits x Hbits Ha Hx Hl.
  { destruct x; [|done]. cbn. split; [done|constructor]. }
  destruct (Z.eq_dec bits 0) as [-> | Hb].
  { rewrite block_none by lia. rewrite in_single, Z.pow_0_r, !Z.div_1_r. split; [by intros ->|by apply number_inj]. }
  destruct x as [|z x _] using rev_ind; [rewrite length_app in Hl; cbn in Hl; lia|].
  rewrite !length_app in Hl. cbn in Hl. apply Forall_app in Ha as [Ha Hy]. apply Forall_app in Hx as [Hx Hz].
  inversion Hy as [|? ? Hy' _]; subst. inversion Hz as [|? ? Hz' _]; subst. unfold single. rewrite fmap_app.
  change ((fun x => Range x x) <$> [y]) with [Range y y]. fold (single a). rewrite block_snoc, !number_snoc, in_groups_snoc.
  rewrite (proj2 (Z.ltb_lt 0 bits)) by lia. rewrite in_freed by lia. destruct (Z.le_gt_cases bits w).
  - rewrite block_none, in_single, Z.min_r by lia.
    assert (E : forall u v, (u * 2 ^ w + v) / 2 ^ bits = u * 2 ^ (w - bits) + v / 2 ^ bits).
    { intros u v. replace w with (w - bits + bits) at 1 by lia. rewrite Z.pow_add_r, Z.mul_assoc by lia.
      rewrite Z.add_comm, Z.div_add by (apply Z.pow_nonzero; lia). lia. }
    rewrite !E. split; [by intros [-> ->]|]. intros Heq.
    assert (Hd : forall v, 0 <= v < 2 ^ w -> 0 <= v / 2 ^ bits < 2 ^ (w - bits)).
    { intros v Hv. split; [apply Z.div_pos; [lia|apply Z.pow_pos_nonneg; lia]|]. apply Z.div_lt_upper_bound; [apply Z.pow_pos_nonneg; lia|].
      rewrite <- Z.pow_add_r by lia. replace (bits + (w - bits)) with w by lia. lia. }
    pose proof (Hd z Hz') as H1. pose proof (Hd y Hy') as H2.
    destruct (Z.div_mod_unique (2 ^ (w - bits)) (number w x) (number w a) (z / 2 ^ bits) (y / 2 ^ bits)) as [En ->]; [lia..|].
    split; [|done]. apply (number_inj w); [done..|lia|done].
  - rewrite Z.min_l, !(Z.div_small _ (2 ^ w)) by lia.
    assert (E : forall u v, 0 <= v < 2 ^ w -> (u * 2 ^ w + v) / 2 ^ bits = u / 2 ^ (bits - w)).
    { intros u v Hv. replace bits with (w + (bits - w)) at 1 by lia. rewrite Z.pow_add_r by lia.
      rewrite <- Z.div_div by (try apply Z.pow_nonzero; try apply Z.pow_pos_nonneg; lia).
      by rewrite Z.div_add_l, (Z.div_small v), Z.add_0_r by (try apply Z.pow_nonzero; lia). }
    rewrite !E by done. rewrite (IH (bits - w) x) by (done || lia). tauto.
Qed.

(* ------------------------------------------------------------------ *)
(** ** What is accepted *)

Lemma number_range_bounds (s : list Z) (n : nat) (min max v : Z) :
  0 <= min -> max < 2 ^ 32 -> Num.zbx_is_uint_n_range (Some s) n true 4 min max = Some v -> min <= v <= max.
Proof.
  unfold Num.zbx_is_uint_n_range. intros Hmin Hmax. destruct ((_ || _) || _); [done|]. destruct (Num.uint_loop s n 0) as [w|]; [|done].
  destruct (Z.ltb_spec w min), (Z.ltb_spec max w); cbn; try done. intros [= <-]. unfold Num.store_bytes.
  change (2 ^ (8 * 4)) with (2 ^ 32). rewrite Z.mod_small by lia. lia.
Qed.

Lemma hex_range_bounds (s : list Z) (n : nat) (min max v : Z) :
  0 <= min -> max < 2 ^ 32 -> Num.zbx_is_hex_n_range s n true 4 min max = Some v -> min <= v <= max.
Proof.
  unfold Num.zbx_is_hex_n_range. intros Hmin Hmax. destruct ((_ || _) || _); [done|]. destruct (Num.hex_loop s n 0 0) as [w|]; [|done].
  destruct (Z.ltb_spec w min), (Z.ltb_spec max w); cbn; try done. intros [= <-]. unfold Num.store_bytes.
  change (2 ^ (8 * 4)) with (2 ^ 32). rewrite Z.mod_small by lia. lia.
Qed.

(** A group within its bits. *)
Definition group_ok (w : Z) (g : zbx_range) : Prop := 0 <= from g <= to g /\ to g < 2 ^ w.

Lemma parse_group_ok (number : list Z -> nat -> option Z) (w : Z) (s : list Z) (bits : Z) (address ptr : nat) (g : zbx_range) :
  (forall s n v, number s n = Some v -> 0 <= v < 2 ^ w) -> parse_group number s bits address ptr = Some g -> group_ok w g.
Proof.
  intros Hn. unfold parse_group. destruct (bool_decide _ && _); [done|].
  set (dash := match strchr s address (ch "-") with Some d => _ | None => None end).
  destruct (number (drop address s) (default ptr dash - address)%nat) as [v|] eqn:Ev; [|done]. cbn. apply Hn in Ev.
  destruct dash as [d|]; [|intros [= <-]; unfold group_ok; cbn; lia].
  destruct (number (drop (d + 1) s) (ptr - (d + 1))%nat) as [v'|] eqn:Ev'; [|done]. cbn. apply Hn in Ev'.
  destruct (Z.ltb_spec v' v); [done|]. intros [= <-]. unfold group_ok. cbn. lia.
Qed.

Lemma number_v4_ok (s : list Z) (n : nat) (v : Z) : number_v4 s n = Some v -> 0 <= v < 2 ^ 8.
Proof. unfold number_v4. intros H. apply number_range_bounds in H; lia. Qed.

Lemma number_v6_ok (s : list Z) (n : nat) (v : Z) : number_v6 s n = Some v -> 0 <= v < 2 ^ 16.
Proof. unfold number_v6. intros H. apply hex_range_bounds in H; lia. Qed.

(** The first [index] groups are in order. *)
Definition first_ok (w : Z) (index : nat) (r : list zbx_range) : Prop := length r = 8%nat /\ Forall (group_ok w) (take index r).

Lemma first_ok_set (w : Z) (index : nat) (r : list zbx_range) (g : zbx_range) :
  (index < 8)%nat -> first_ok w index r -> group_ok w g -> first_ok w (index + 1) (<[index := g]> r).
Proof.
  intros Hi [Hl Hf] Hg. split; [by rewrite length_insert|]. rewrite Nat.add_1_r.
  rewrite (take_S_r _ _ g) by (apply list_lookup_insert_eq; lia). rewrite take_insert_ge by lia. apply Forall_app. split; [done|]. by apply Forall_singleton.
Qed.

Lemma v4_loop_ok (n : nat) (s : list Z) (e : nat) (bits : Z) (address ptr index : nat) (r : list zbx_range) :
  (index + n = 4)%nat -> first_ok 8 index r ->
  exists x, v4_loop n s e bits address ptr index r = Ret x /\
    match x with Some (index', r') => (index' <= 4)%nat /\ first_ok 8 index' r' | None => True end.
Proof.
  revert address ptr index r. induction n as [|n IH]; intros address ptr index r Hi Hr; cbn [v4_loop].
  - exists (Some (index, r)). split; [done|]. split; [lia|done].
  - destruct (ptr <? e)%nat; cbn [negb]; [|exists (Some (index, r)); split; [done|]; split; [lia|done]].
    destruct (parse_group number_v4 s bits address _) as [g|] eqn:Eg; [|by exists None].
    apply (parse_group_ok _ 8) in Eg; [|apply number_v4_ok]. destruct Hr as [Hl Hf]. unfold set_group.
    rewrite (proj2 (Nat.ltb_lt index (length r))) by lia. run. apply IH; [lia|]. apply first_ok_set; [lia|done|done].
Qed.

Lemma apply_mask_ok (t : ip_type) (r : list zbx_range) (bits : Z) :
  first_ok (group_bits t) (ZBX_IPRANGE_GROUPS t) r ->
  iprange_apply_mask t r bits =
    mask_block (group_bits t) (Z.of_nat (ZBX_IPRANGE_GROUPS t) * group_bits t - bits) (take (ZBX_IPRANGE_GROUPS t) r) ++
    drop (ZBX_IPRANGE_GROUPS t) r.
Proof.
  intros [Hl Hf]. unfold iprange_apply_mask. rewrite <- (take_drop (ZBX_IPRANGE_GROUPS t) r) at 1.
  assert (E : length (take (ZBX_IPRANGE_GROUPS t) r) = ZBX_IPRANGE_GROUPS t) by (rewrite length_take, Hl; by destruct t).
  rewrite <- E at 1. apply mask_loop_block; [by destruct t|exact Hf].
Qed.

(** A structure that is filled in, with or without a mask. *)
Lemma parsed_ok (t : ip_type) (r : list zbx_range) (bits : Z) (m : bool) :
  first_ok (group_bits t) (ZBX_IPRANGE_GROUPS t) r ->
  (m = true -> bits <> -1) -> (bits <> -1 -> 0 <= bits <= match t with ZBX_IPRANGE_V4 => 30 | ZBX_IPRANGE_V6 => 128 end) ->
  range_ok (Iprange (if negb (bits =? -1) then iprange_apply_mask t r bits else r) t m).
Proof.
  intros Hr Hm Hb. pose proof Hr as [Hl Hf]. destruct (Z.eqb_spec bits (-1)) as [-> | Hn]; cbn [negb].
  - split_and!; [done|exact Hf|]. unfold masked. cbn. destruct m; [by destruct Hm|]. by rewrite andb_false_r.
  - specialize (Hb Hn). rewrite apply_mask_ok by done. set (G := ZBX_IPRANGE_GROUPS t) in *. set (w := group_bits t) in *.
    assert (Hw : 0 < w) by by destruct t.
    assert (HG : length (mask_block w (Z.of_nat G * w - bits) (take G r)) = G).
    { rewrite length_block, length_take, Hl. unfold G. by destruct t. }
    split_and!.
    + cbn [range]. rewrite length_app, HG, length_drop, Hl. unfold G. destruct t; cbn; lia.
    + unfold groups. cbn [range type]. fold G. rewrite <- HG at 1. rewrite take_app_length. by apply block_ok.
    + unfold masked. cbn [type range mask]. intros Hv. apply andb_true_iff in Hv as [Hv _]. apply bool_decide_eq_true in Hv. subst t.
      unfold G, w in *. cbn in Hb, Hl, Hf |- *. destruct r as [|g0 [|g1 [|g2 [|g3 r]]]]; try done. cbn [take] in *.
      pose proof Hf as Hf'. do 3 apply Forall_inv_tail in Hf'. apply Forall_inv in Hf'.
      cbn [mask_block app group nth length]. change (8 * Z.of_nat 0) with 0. rewrite Z.sub_0_r. change (Z.of_nat 4 * 8) with 32.
      destruct (Z.ltb_spec 0 (32 - bits)); [|lia]. set (k := Z.min 8 (32 - bits)).
      pose proof (freed_ok k 8 g3 ltac:(lia) Hf') as (_ & _ & _ & Hk). assert (2 ^ 2 <= 2 ^ k) by (apply Z.pow_le_mono_r; lia).
      unfold group. cbn [nth]. lia.
Qed.

Lemma parse_mask_ok (address : list Z) (max : Z) (e : nat) (bits : Z) :
  0 <= max < 2 ^ 32 -> parse_mask address max = Some (e, bits) ->
  (bool_decide (is_Some (strchr address 0 (ch "/"))) = true -> bits <> -1) /\ (bits <> -1 -> 0 <= bits <= max).
Proof.
  intros Hm. unfold parse_mask. destruct (strchr address 0 (ch "/")) as [k|].
  - destruct (Num.zbx_is_uint_n_range _ _ _ _ _ _) as [v|] eqn:E; [|done]. cbn. intros [= <- <-].
    apply number_range_bounds in E; [|lia..]. split; lia.
  - intros [= <- <-]. split; [|done]. rewrite bool_decide_eq_false_2; [done|]. by intros [].
Qed.

Lemma v4_parse_ok (r : list zbx_range) (address : list Z) :
  length r = 8%nat ->
  exists x, iprangev4_parse r address = Ret x /\ match x with Some ip => type ip = ZBX_IPRANGE_V4 /\ range_ok ip | None => True end.
Proof.
  intros Hl. unfold iprangev4_parse. destruct (parse_mask address 30) as [[e bits]|] eqn:Em; [|by exists None].
  apply parse_mask_ok in Em as [Hm Hb]; [|done].
  destruct (v4_loop_ok 4 address e bits 0 0 0 r) as (x & Ex & Hx); [done|by split|]. rewrite Ex. run. eexists. split; [reflexivity|].
  destruct x as [[index r']|]; [|done]. destruct (Nat.eqb_spec index 4) as [-> |]; [|done]. destruct Hx as [_ Hr].
  split; [done|]. by apply (parsed_ok ZBX_IPRANGE_V4).
Qed.

(** In the loop for IPv6 a step past the end of the array is the only thing
    that can go wrong, and reading past the end of the text. *)
Definition v6_ok (x : v6_state) : Prop :=
  let '(index, fill, r) := x in
  (index <= 8)%nat /\ first_ok 16 index r /\ (fill = -1 \/ exists k, fill = Z.of_nat k /\ (k < index)%nat).

Definition v6_outcome {A} (P : A -> Prop) (x : res (option A)) : Prop :=
  match x with Ret (Some a) => P a | Ret None | Undef => True | _ => False end.

Lemma set_group_v6 (index : nat) (r : list zbx_range) (g : zbx_range) :
  first_ok 16 index r -> group_ok 16 g ->
  set_group r index g = Undef \/
  exists r', set_group r index g = Ret r' /\ (index < 8)%nat /\ first_ok 16 (index + 1) r'.
Proof.
  intros Hr Hg. unfold set_group. pose proof Hr as [Hl _]. rewrite Hl. destruct (Nat.ltb_spec index 8); [|by left].
  right. eexists. split; [reflexivity|]. split; [done|]. by apply first_ok_set.
Qed.

Lemma check_fill_ok (s : list Z) (e ptr : nat) (x : v6_state) :
  v6_ok x -> v6_outcome (fun y => v6_ok y.2 /\ (x.1.1 <= y.2.1.1)%nat) (check_fill s e ptr x) /\
  ((ptr < length s)%nat -> chr s (ptr + 1) = ch ":" -> chr s ptr <> 0 ->
    v6_outcome (fun y => (x.1.1 < y.2.1.1)%nat) (check_fill s e ptr x)).
Proof.
  destruct x as [[index fill] r]. intros (Hi & Hr & Hf). unfold check_fill, read.
  destruct (Nat.leb_spec ptr (length s)); [run|by split; [|intros]]. destruct (Z.eqb_spec (chr s ptr) 0); [by split; [cbn; split_and!|]|].
  destruct (Nat.leb_spec (ptr + 1) (length s)); [run|by split].
  destruct (Z.eqb_spec (chr s (ptr + 1)) (ch ":")); [|by split; [cbn; split_and!|intros]].
  destruct (negb (fill =? -1)); [by split|].
  destruct (set_group_v6 index r (Range 0 0) Hr) as [-> | (r' & -> & Hlt & Hr')]; [by split|by split|]. run.
  split; [|intros; cbn; lia]. cbn. split; [|lia]. split; [lia|]. split; [done|]. right. exists index. lia.
Qed.

Lemma chr_nonzero (s : list Z) (i : nat) : Forall (fun c => c <> 0) s -> (i < length s)%nat -> chr s i <> 0.
Proof.
  intros Hs Hi. unfold chr. destruct (lookup_lt_is_Some_2 s i Hi) as [c Hc]. rewrite (nth_lookup_Some _ _ _ _ Hc).
  rewrite Forall_forall in Hs. apply Hs. by eapply list_elem_of_lookup_2.
Qed.

Lemma v6_loop_ok (n : nat) (s : list Z) (e : nat) (bits : Z) (address ptr : nat) (x : v6_state) :
  Forall (fun c => c <> 0) s -> (9 <= x.1.1 + n)%nat -> v6_ok x -> v6_outcome v6_ok (v6_loop n s e bits address ptr x).
Proof.
  intros Hs. revert address ptr x. induction n as [|n IH]; intros address ptr [[index fill] r] Hn Hx.
  { exfalso. destruct Hx as [? _]. cbn in Hn. lia. }
  cbn [v6_loop]. destruct ((ptr <? e)%nat && (index <? 8)%nat) eqn:Ec; cbn [negb]; [|done]. apply andb_true_iff in Ec as [_ Hi%Nat.ltb_lt].
  cbn [fst snd] in Hn. set (p := default e (strchr s address (ch ":"))).
  assert (Hnext : forall x', v6_ok x' -> (index <= x'.1.1)%nat ->
    ((index < x'.1.1)%nat \/ v6_outcome (fun y => (x'.1.1 < y.2.1.1)%nat) (check_fill s e p x')) ->
    v6_outcome v6_ok (z ← check_fill s e p x';
      match z with
      | Some (true, _, x) => Ret (Some x)
      | Some (false, ptr, x) => v6_loop n s e bits (ptr + 1) ptr x
      | None => Ret None
      end)).
  { intros x' Hx' Hle Hlt. destruct (check_fill_ok s e p x' Hx') as [Hc _].
    destruct (check_fill s e p x') as [[[[[] p'] x'']|]| | |]; try done; run; cbn in Hc, Hlt; [by destruct Hc|].
    destruct Hc as [Hc1 Hc2]. apply IH; [|done]. destruct Hlt; lia. }
  destruct (Nat.eqb_spec p address) as [Hp | Hp].
  - unfold read at 1. destruct (Nat.leb_spec (p + 1) (length s)); [run|done].
    destruct (Z.eqb_spec (chr s (p + 1)) (ch ":")) as [Hc|]; [|done]. cbn [negb]. run. apply Hnext; [done|done|]. right.
    apply (check_fill_ok s e p (index, fill, r) Hx); [lia|done|]. apply chr_nonzero; [done|lia].
  - destruct (parse_group number_v6 s bits address p) as [g|] eqn:Eg; [|done].
    apply (parse_group_ok _ 16) in Eg; [|apply number_v6_ok]. destruct Hx as (Hi' & Hr & Hf).
    destruct (set_group_v6 index r g Hr Eg) as [-> | (r' & -> & _ & Hr')]; [done|]. run. apply Hnext; cbn; [|lia|left; lia].
    split; [lia|]. split; [done|]. destruct Hf as [|(k & ? & ?)]; [by left|right]. exists k. lia.
Qed.

Lemma group_lookup (r : list zbx_range) (i : nat) : (i < length r)%nat -> r !! i = Some (group r i).
Proof. intros Hi. destruct (lookup_lt_is_Some_2 r i Hi) as [g Hg]. rewrite Hg. f_equal. symmetry. by apply nth_lookup_Some. Qed.

(** All eight groups are in order when those up to [index] and those past
    [target] are, and the ones between are cleared. *)
Definition filled (lo hi : nat) (r : list zbx_range) : Prop :=
  length r = 8%nat /\ forall i, (i < lo)%nat \/ (hi < i < 8)%nat -> group_ok 16 (group r i).

Lemma group_insert (r : list zbx_range) (i j : nat) (g : zbx_range) :
  (i < length r)%nat -> group (<[i := g]> r) j = if decide (i = j) then g else group r j.
Proof.
  intros Hi. unfold group. destruct (decide (i = j)) as [<-|Hne].
  - apply nth_lookup_Some. by apply list_lookup_insert_eq.
  - rewrite !nth_lookup. by rewrite list_lookup_insert_ne.
Qed.

Lemma shift_loop_ok (index fill target : nat) (r : list zbx_range) :
  (fill < index)%nat -> (index <= target + 1)%nat -> (target < 8)%nat -> filled index target r ->
  let '(target', r') := shift_loop index fill target r in
  (fill <= target')%nat /\ (target' < 8)%nat /\ filled (fill + 1) target' r'.
Proof.
  revert target r. induction index as [|index IH]; intros target r Hf Hi Ht [Hl Hg]; [lia|]. cbn [shift_loop].
  destruct (Nat.ltb_spec fill index) as [Hlt|Hge].
  - pose proof (IH (target - 1)%nat (<[target := group r index]> r) Hlt ltac:(lia) ltac:(lia)) as IH'. 
    assert (Hfl : filled index (target - 1) (<[target:=group r index]> r)).
    { split; [by rewrite length_insert|]. intros i Hi'. rewrite group_insert by lia. destruct (decide (target = i)) as [<-|Hne]; apply Hg; lia. }
    exact (IH' Hfl).
  - split; [lia|]. split; [lia|]. split; [done|]. intros i Hi'. apply Hg. lia.
Qed.

Lemma zero_loop_ok (n fill target : nat) (r : list zbx_range) :
  (target < 8)%nat -> (target <= fill + n)%nat -> filled (fill + 1) target r -> Forall (group_ok 16) (zero_loop n fill target r) /\ length (zero_loop n fill target r) = 8%nat.
Proof.
  assert (Hdone : forall r, filled (fill + 1) fill r -> Forall (group_ok 16) r /\ length r = 8%nat).
  { intros r' [Hl Hg]. split; [|done]. apply Forall_lookup. intros i g Hig. pose proof (lookup_lt_Some _ _ _ Hig) as Hi.
    rewrite group_lookup in Hig by lia. injection Hig as <-. apply Hg. lia. }
  revert target r. induction n as [|n IH]; intros target r Ht Hn [Hl Hg]; cbn [zero_loop].
  - apply Hdone. split; [done|]. intros i Hi. apply Hg. lia.
  - destruct (Nat.ltb_spec fill target) as [Hlt|Hge].
    + apply IH; [lia|lia|]. split; [by rewrite length_insert|]. intros i Hi. rewrite group_insert by lia.
      destruct (decide (target = i)) as [<-|Hne]; [unfold group_ok; cbn; lia|]. apply Hg. lia.
    + apply Hdone. split; [done|]. intros i Hi. apply Hg. lia.
Qed.

Lemma v6_parse_ok (r : list zbx_range) (address : list Z) :
  length r = 8%nat -> Forall (fun c => c <> 0) address ->
  v6_outcome (fun ip => type ip = ZBX_IPRANGE_V6 /\ range_ok ip) (iprangev6_parse r address).
Proof.
  intros Hl Hs. unfold iprangev6_parse. destruct (parse_mask address 128) as [[e bits]|] eqn:Em; [|done].
  apply parse_mask_ok in Em as [Hm Hb]; [|done].
  assert (Hx : v6_ok (0%nat, -1, r)) by (split; [lia|]; split; [by split|by left]).
  pose proof (v6_loop_ok 9 address e bits 0 0 (0%nat, -1, r) Hs ltac:(cbn; lia) Hx) as Ho.
  destruct (v6_loop 9 address e bits 0 0 (0%nat, -1, r)) as [[[[index fill] r']|]| | |]; try done. run. unfold v6_outcome, v6_ok in *.
  destruct Ho as (Hi & Hr & Hf). destruct (Nat.ltb_spec 8 index); [done|].
  destruct (Nat.ltb_spec index 8) as [Hlt|Hge]; cbn [andb].
  - destruct (Z.eqb_spec fill (-1)); [done|]. destruct Hf as [|(k & -> & Hk)]; [done|]. split; [done|]. rewrite Nat2Z.id.
    destruct Hr as [Hl' Hg].
    assert (Hfl : filled index 7 r').
    { split; [done|]. intros i Hi'. destruct Hi'; [|lia]. rewrite Forall_lookup in Hg. apply (Hg i).
      rewrite lookup_take_lt by lia. apply group_lookup. lia. }
    pose proof (shift_loop_ok index k 7 r' Hk ltac:(lia) ltac:(lia) Hfl) as Hsh.
    destruct (shift_loop index k 7 r') as [target r'']. destruct Hsh as (H1 & H2 & H3).
    destruct (zero_loop_ok 8 k target r'' H2 ltac:(lia) H3) as [Hz Hlz].
    apply (parsed_ok ZBX_IPRANGE_V6); [|done|done]. split; [done|]. unfold ZBX_IPRANGE_GROUPS. rewrite take_ge by lia. exact Hz.
  - split; [done|]. apply (parsed_ok ZBX_IPRANGE_V6); [|done|done]. by replace index with 8%nat in Hr by lia.
Qed.

Lemma skip_whitespace_text (s : list Z) : Forall (fun c => c <> 0) s -> Forall (fun c => c <> 0) (skip_whitespace s).
Proof. induction 1 as [|c s Hc Hs IH]; cbn; [constructor|]. destruct (iprange_is_whitespace_character c); [done|by constructor]. Qed.

(** C30: Whatever text is parsed as a range, the parser ends, and a range it accepts can be walked through: its numbers are
    in order and within the bits of a group, and a range with a mask has addresses between its first and its last. The
    text with a dot, which is parsed as IPv4, is never read or the array written out of bounds; for IPv6 that is not so
    (see the examples). *)
Theorem iprange_parse_sound (r : list zbx_range) (address : list Z) :
  length r = 8%nat -> Forall (fun c => c <> 0) address ->
  match zbx_iprange_parse r address with
  | Ret (Some ip) => range_ok ip
  | Ret None => True
  | Undef => ch "." ∉ address
  | Exit | NoFuel => False
  end.
Proof.
  intros Hl Hs. unfold zbx_iprange_parse. set (s := skip_whitespace address). case_bool_decide as Hd.
  - destruct (v4_parse_ok r s Hl) as (x & -> & Hx). destruct x; [by destruct Hx|done].
  - pose proof (v6_parse_ok r s Hl (skip_whitespace_text address Hs)) as Ho.
    destruct (iprangev6_parse r s) as [[ip|]| | |]; cbn in Ho; try done; [by destruct Ho|].
    intros Hin. apply Hd. clear - Hin. unfold s, strchr. rewrite drop_0.
    assert (H : ch "." ∈ skip_whitespace address).
    { induction address as [|c l IH]; [done|]. cbn. destruct (iprange_is_whitespace_character c) eqn:Ec; [|done].
      apply IH. apply elem_of_cons in Hin as [<- | ?]; [done|done]. }
    induction (skip_whitespace address) as [|c l IH]; [by apply elem_of_nil in H|]. cbn [find_from].
    destruct (Z.eqb_spec c (ch ".")); [by eexists|]. apply elem_of_cons in H as [<- | H]; [done|].
    specialize (IH H). destruct (find_from (ch ".") l); [eexists; reflexivity|]. by destruct IH.
Qed.

Lemma iprange_parse_sound_witness :
  let r := replicate 8 (Range 0 0) in
  length r = 8%nat /\ exists ip, zbx_iprange_parse r (bytes_of "10.0.0.1/24") = Ret (Some ip) /\ range_ok ip.
Proof.
  intros r. split; [done|].
  pose proof (iprange_parse_sound r (bytes_of "10.0.0.1/24") eq_refl ltac:(by repeat constructor)) as H.
  destruct (zbx_iprange_parse r (bytes_of "10.0.0.1/24")) as [[ip|]| | |] eqn:E.
  - exists ip. split; [done|exact H].
  - vm_compute in E. discriminate E.
  - destruct H.
  - vm_compute in E. discriminate E.
  - destruct H.
Defined.
