(* ===== verification/IpText.v ===== *)
(** The text of an address: zbx_iprange_ip2str writes it, the parser reads it
    back, and with a mask after it the parser gives the block of the address. *)

From Stdlib Require Import ZArith Lia ZifyBool.
From S2P Require Import Prelude IpRange IpPath IpIter IpParse.
From S2P Require Num.
From stdpp Require Import base numbers strings list.

Open Scope Z_scope.
Import CharConst.

(* ------------------------------------------------------------------ *)
(** ** Digits *)

Definition digit_char (d : Z) : Z := if d <? 10 then 48 + d else 87 + d.

Lemma print_loop_digits (fuel : nat) (base n : Z) :
  2 <= base -> 0 <= n < 2 ^ Z.of_nat (S fuel) ->
  exists ds, print_loop (S fuel) base n = digit_char <$> ds /\ ds <> [] /\ Forall (fun d => 0 <= d < base) ds /\
    Num.digits_value base ds = n.
Proof.
  intros Hb. revert n. induction fuel as [|fuel IH]; intros n Hn; cbn [print_loop]; destruct (Z.ltb_spec n base) as [Hlt|Hge].
  1, 3: exists [n]; rewrite Z.mod_small by lia; split_and!; [done|done|by apply Forall_singleton; lia|done].
  - change (2 ^ Z.of_nat 1) with 2 in Hn. lia.
  - rewrite Nat2Z.inj_succ, Z.pow_succ_r in Hn by lia.
    assert (Hq : 0 <= n / base < 2 ^ Z.of_nat (S fuel)).
    { split; [apply Z.div_pos; lia|]. apply Z.div_lt_upper_bound; [lia|]. nia. }
    destruct (IH (n / base) Hq) as (ds & E & Hne & Hf & Hv). exists (ds ++ [n mod base]). split_and!.
    + rewrite fmap_app. cbn [print_loop] in E. by rewrite E.
    + by destruct ds.
    + apply Forall_app. split; [done|]. apply Forall_singleton. by apply Z.mod_pos_bound; lia.
    + rewrite Num.digits_value_app, Hv. cbn. pose proof (Z.div_mod n base ltac:(lia)). lia.
Qed.

Lemma print_digits (base n : Z) :
  2 <= base -> 0 <= n < 2 ^ 32 ->
  exists ds, print_number base n = digit_char <$> ds /\ ds <> [] /\ Forall (fun d => 0 <= d < base) ds /\
    Num.digits_value base ds = n.
Proof. apply (print_loop_digits 31). Qed.

(** A character of a printed number. *)
Definition digit_ok (c : Z) : Prop := 48 <= c <= 57 \/ 97 <= c <= 102.

Lemma digit_char_ok (d : Z) : 0 <= d < 16 -> digit_ok (digit_char d).
Proof. unfold digit_ok, digit_char. destruct (Z.ltb_spec d 10); lia. Qed.

Lemma print_ok (base n : Z) :
  2 <= base <= 16 -> 0 <= n < 2 ^ 32 -> print_number base n <> [] /\ Forall digit_ok (print_number base n).
Proof.
  intros Hb Hn. destruct (print_digits base n ltac:(lia) Hn) as (ds & -> & Hne & Hf & _). split; [by destruct ds|].
  apply Forall_fmap. eapply Forall_impl; [exact Hf|]. intros d Hd. apply digit_char_ok. cbn in Hd. lia.
Qed.

Lemma uint_print (v min max : Z) (post : list Z) :
  0 <= v < 2 ^ 32 -> min <= v <= max -> max < 2 ^ 32 -> Forall (fun c => c <> 0) post ->
  Num.zbx_is_uint_n_range (Some (print_number 10 v ++ post)) (length (print_number 10 v)) true 4 min max = Some v.
Proof.
  intros Hv Hr Hm Hp. destruct (print_digits 10 v ltac:(lia) Hv) as (ds & E & Hne & Hf & Hd).
  destruct (print_ok 10 v ltac:(lia) Hv) as [_ Hok].
  apply Num.uint_range_spec; [|lia|unfold ZBX_MAX_UINT64; lia|].
  { apply Forall_app. split; [|done]. eapply Forall_impl; [exact Hok|]. unfold digit_ok. intros c Hc. lia. }
  cbn zeta. rewrite take_app_length, E.
  assert (Ec : Num.dec_digits (digit_char <$> ds) = ds).
  { clear - Hf. unfold Num.dec_digits. induction Hf as [|d ds Hd _ IH]; [done|]. cbn. f_equal; [|exact IH].
    unfold digit_char. rewrite (proj2 (Z.ltb_lt d 10)) by lia. lia. }
  rewrite Ec, Hd. split_and!; [by destruct ds| |lia|lia|].
  - apply Forall_fmap. eapply Forall_impl; [exact Hf|]. intros d Hd'. cbn in *. unfold digit_char.
    rewrite (proj2 (Z.ltb_lt d 10)) by lia. apply Num.isdigit_range. lia.
  - unfold Num.store_bytes. change (2 ^ (8 * 4)) with (2 ^ 32). by rewrite Z.mod_small.
Qed.

Lemma hex_print (v max : Z) (post : list Z) :
  0 <= v <= max -> max < 2 ^ 32 ->
  Num.zbx_is_hex_n_range (print_number 16 v ++ post) (length (print_number 16 v)) true 4 0 max = Some v.
Proof.
  intros Hr Hm. destruct (print_digits 16 v ltac:(lia) ltac:(lia)) as (ds & E & Hne & Hf & Hd). rewrite E.
  set (l := digit_char <$> ds) in *.
  assert (Hc0 : Num.hd0 (l ++ post) =? 0 = false /\ (length l =? 0)%nat = false).
  { unfold l. destruct ds as [|d0 ds]; [done|]. split; [|done]. cbn. apply Z.eqb_neq. inversion Hf as [|? ? H0 _]; subst.
    pose proof (digit_char_ok d0 H0) as H. unfold digit_ok in H. lia. }
  assert (El : Num.hex_loop (l ++ post) (length l) 0 0 = Some v).
  { apply Num.hex_loop_spec; [lia|unfold ZBX_MAX_UINT64; lia|done|]. rewrite take_app_length.
    assert (Eh : forall d, 0 <= d < 16 -> Num.hex_digit (digit_char d) = Some d).
    { intros d Hd'. unfold digit_char, Num.hex_digit. destruct (Z.ltb_spec d 10).
      - rewrite (proj2 (Z.leb_le 48 (48 + d))), (proj2 (Z.leb_le (48 + d) 57)) by lia. cbn [andb]. f_equal. lia.
      - rewrite (proj2 (Z.leb_gt (87 + d) 57)) by lia. rewrite andb_false_r.
        rewrite (proj2 (Z.leb_le 97 (87 + d))), (proj2 (Z.leb_le (87 + d) 102)) by lia. cbn [andb]. f_equal. lia. }
    split_and!; [| |unfold ZBX_MAX_UINT64; lia].
    - apply Forall_fmap. eapply Forall_impl; [exact Hf|]. intros d Hd'. cbn in *. rewrite Eh by done. by eexists.
    - unfold Num.digits_value in Hd. rewrite <- Hd. f_equal. clear - Hf Eh. unfold l, Num.hex_digits.
      induction Hf as [|d ds' Hd _ IH]; [done|]. cbn. rewrite Eh by done. cbn. f_equal. exact IH. }
  unfold Num.zbx_is_hex_n_range. destruct Hc0 as [-> ->]. rewrite El. cbn [orb andb Z.ltb Z.eqb Z.compare Pos.compare Pos.compare_cont].
  rewrite (proj2 (Z.ltb_ge v 0)), (proj2 (Z.ltb_ge max v)) by lia. cbn [orb]. unfold Num.store_bytes.
  change (2 ^ (8 * 4)) with (2 ^ 32). by rewrite Z.mod_small by lia.
Qed.

(* ------------------------------------------------------------------ *)
(** ** Texts *)

Lemma find_none (c : Z) (s : list Z) : c <> 0 -> Forall (fun x => x <> c) s -> find_from c s = None.
Proof.
  intros Hc. induction 1 as [|x s Hx _ IH]; cbn; [by destruct (Z.eqb_spec c 0)|]. rewrite (proj2 (Z.eqb_neq _ _) Hx). by rewrite IH.
Qed.

Lemma find_app (c : Z) (d rest : list Z) : Forall (fun x => x <> c) d -> find_from c (d ++ c :: rest) = Some (length d).
Proof.
  induction 1 as [|x d Hx _ IH]; cbn; [by rewrite Z.eqb_refl|]. rewrite (proj2 (Z.eqb_neq _ _) Hx). by rewrite IH.
Qed.

(** The characters of addresses and masks. *)
Definition plain (c : Z) : Prop := 46 <= c.

Lemma plain_no (s : list Z) (c : Z) : c < 46 -> Forall plain s -> Forall (fun x => x <> c) s.
Proof. intros Hc H. eapply Forall_impl; [exact H|]. unfold plain. intros x Hx. cbn in *. lia. Qed.

Lemma digits_no (s : list Z) (c : Z) : ~ digit_ok c -> Forall digit_ok s -> Forall (fun x => x <> c) s.
Proof. intros Hc H. eapply Forall_impl; [exact H|]. intros x Hx ->. done. Qed.

Lemma no_dash (s : list Z) (i : nat) : Forall plain s -> strchr s i (ch "-") = None.
Proof. intros H. unfold strchr. rewrite find_none; [done|done|]. apply plain_no; [done|]. by apply Forall_drop. Qed.

(** A printed number up to [ptr] is read back. *)
Lemma parse_group_print (number : list Z -> nat -> option Z) (s pre d rest : list Z) (bits v : Z) (ptr : nat) :
  s = pre ++ d ++ rest -> Forall plain s -> ptr = (length pre + length d)%nat -> number (d ++ rest) (length d) = Some v ->
  parse_group number s bits (length pre) ptr = Some (Range v v).
Proof.
  intros Es Hs -> En. unfold parse_group. rewrite no_dash by done. cbn [default]. rewrite bool_decide_eq_false_2 by by intros [].
  cbn [andb]. replace (length pre + length d - length pre)%nat with (length d) by lia.
  rewrite Es, drop_app_length, En. done.
Qed.

(** The text from a group on, and what ends it. *)
Definition groups_text (base c : Z) (l : list Z) : list Z := join_with c (print_number base <$> l).

Lemma groups_text_cons (base c v v' : Z) (l : list Z) :
  groups_text base c (v :: v' :: l) = print_number base v ++ c :: groups_text base c (v' :: l).
Proof. done. Qed.

Section Loop.
  Context (base c w : Z) (hbase : 2 <= base <= 16) (hw : 0 <= w <= 32) (hc : ~ digit_ok c) (hc0 : c <> 0).
  Context (s post : list Z) (hs : Forall plain s) (hpost : Forall (fun x => x <> c) post).
Notation e := (length s - length post)%nat.

(** Where the group of [v] ends. *)
Lemma group_end (pre : list Z) (v : Z) (l : list Z) :
  s = pre ++ groups_text base c (v :: l) ++ post -> 0 <= v < 2 ^ w ->
  default e (strchr s (length pre) c) = (length pre + length (print_number base v))%nat /\
  match l with
  | [] => e = (length pre + length (print_number base v))%nat
  | _ => (length pre + length (print_number base v) < e)%nat
  end.
Proof.
  intros E Hv. assert (H32 : 0 <= v < 2 ^ 32) by (pose proof (Z.pow_le_mono_r 2 w 32 ltac:(lia) ltac:(lia)); lia).
  destruct (print_ok base v hbase H32) as [_ Hd]. pose proof (digits_no _ c hc Hd) as Hn.
  assert (El : length s = (length pre + (length (groups_text base c (v :: l)) + length post))%nat) by by rewrite E, !length_app.
  assert (Ed : drop (length pre) s = groups_text base c (v :: l) ++ post) by by rewrite E, drop_app_length.
  unfold strchr. rewrite Ed. destruct l as [|v' l].
  - change (groups_text base c [v]) with (print_number base v) in *.
    rewrite find_none; [|done|by apply Forall_app]. cbn [default fmap option_fmap option_map]. split; lia.
  - rewrite groups_text_cons in *. rewrite <- app_assoc. rewrite <- app_comm_cons, find_app by done.
    cbn [default fmap option_fmap option_map]. split; [done|]. rewrite length_app in El. cbn [length] in El. lia.
Qed.

Lemma group_split (pre : list Z) (v : Z) (l : list Z) :
  s = pre ++ groups_text base c (v :: l) ++ post ->
  exists rest, s = pre ++ print_number base v ++ rest /\
    match l with
    | [] => rest = post
    | _ => rest = c :: groups_text base c l ++ post /\ s = (pre ++ print_number base v ++ [c]) ++ groups_text base c l ++ post
    end.
Proof.
  intros E. destruct l as [|v' l]; [by exists post|]. exists (c :: groups_text base c (v' :: l) ++ post).
  rewrite groups_text_cons in E. rewrite E. split; [by rewrite <- !app_assoc|]. split; [done|]. by rewrite <- !app_assoc.
Qed.
End Loop.

Lemma v4_loop_text (s post : list Z) (bits : Z) (v : Z) (l pre : list Z) (p index : nat) (r1 r2 : list zbx_range) :
  Forall plain s -> Forall (fun x => x <> ch ".") post ->
  s = pre ++ groups_text 10 (ch ".") (v :: l) ++ post -> in_width 8 (v :: l) -> (p < length s - length post)%nat ->
  length r1 = index -> (length (v :: l) <= length r2)%nat ->
  v4_loop (length (v :: l)) s (length s - length post) bits (length pre) p index (r1 ++ r2) =
  Ret (Some ((index + length (v :: l))%nat, r1 ++ single (v :: l) ++ drop (length (v :: l)) r2)).
Proof.
  intros Hs Hpost. revert v pre p index r1 r2. induction l as [|v' l IH]; intros v pre p index r1 r2 E Hw Hp Hi Hr;
    inversion Hw as [|? ? Hv Hw']; subst index.
  all: destruct (group_end 10 (ch ".") 8 ltac:(lia) ltac:(lia) ltac:(unfold digit_ok; cbn; lia) ltac:(done) s post Hpost pre v _ E Hv) as [Ep Ee].
  all: destruct (group_split 10 (ch ".") s post pre v _ E) as (rest & Es & Erest).
  all: destruct r2 as [|g r2]; [cbn in Hr; lia|].
  all: assert (Hrest : Forall (fun c => c <> 0) rest) by
    (apply plain_no; [done|]; rewrite Es in Hs; apply Forall_app in Hs as [_ Hs]; by apply Forall_app in Hs as [_ Hs]).
  all: assert (Eg : parse_group number_v4 s bits (length pre) (length pre + length (print_number 10 v)) = Some (Range v v)) by
    (apply (parse_group_print _ _ pre (print_number 10 v) rest); [done|done|done|apply uint_print; [lia..|done]]).
  all: match goal with |- v4_loop (length (?v :: ?l)) _ _ _ _ _ _ _ = _ => change (length (v :: l)) with (S (length l));
      remember (length l) as k eqn:Ek end; cbn [v4_loop]; rewrite (proj2 (Nat.ltb_lt _ _) Hp); cbn [negb]; rewrite Ep, Eg; unfold set_group;
    rewrite (proj2 (Nat.ltb_lt (length r1) (length (r1 ++ g :: r2)))) by (rewrite length_app; cbn; lia); run; rewrite list_insert_split.
  - by rewrite Ek.
  - destruct Erest as [-> Es']. pose proof (IH v' (pre ++ print_number 10 v ++ [ch "."]) (length pre + length (print_number 10 v))%nat
      (length r1 + 1)%nat (r1 ++ [Range v v]) r2 Es' Hw' Ee) as IH'.
    rewrite !length_app in IH'. cbn [length] in IH'.
    replace (length pre + (length (print_number 10 v) + 1))%nat with (length pre + length (print_number 10 v) + 1)%nat in IH' by lia.
    rewrite <- !app_assoc in IH'. cbn [app] in IH'. cbn [length] in Ek. rewrite Ek, IH'; [|lia|cbn in Hr |- *; lia].
    do 3 f_equal. lia.
Qed.

Lemma chr_after (s pre d rest : list Z) (k : nat) :
  s = pre ++ d ++ rest -> chr s (length pre + length d + k) = chr rest k.
Proof.
  intros ->. unfold chr. rewrite app_assoc, app_nth2 by (rewrite length_app; lia). f_equal. rewrite length_app. lia.
Qed.

(** No :: follows the group that ends before [rest]. *)
Lemma check_fill_none (s pre d rest : list Z) (e : nat) (x : v6_state) :
  s = pre ++ d ++ rest -> chr rest 1 <> ch ":" ->
  check_fill s e (length pre + length d) x = Ret (Some (false, (length pre + length d)%nat, x)).
Proof.
  intros E H1. destruct x as [[index fill] r]. unfold check_fill, read.
  assert (Hl : length s = (length pre + length d + length rest)%nat) by (rewrite E, !length_app; lia).
  rewrite (proj2 (Nat.leb_le (length pre + length d) (length s))) by lia. run. pose proof (chr_after s pre d rest 0 E) as E0. rewrite Nat.add_0_r in E0.
  rewrite E0, (chr_after s pre d rest 1 E). destruct rest as [|c rest]; [done|].
  change (chr (c :: rest) 0) with c. destruct (c =? 0); [done|]. rewrite (proj2 (Nat.leb_le (length pre + length d + 1) (length s))) by (rewrite Hl; cbn; lia). run.
  by rewrite (proj2 (Z.eqb_neq _ _) H1).
Qed.

Lemma chr_not (s : list Z) (c : Z) (i : nat) : c <> 0 -> Forall (fun x => x <> c) s -> chr s i <> c.
Proof.
  intros Hc Hs. unfold chr. rewrite nth_lookup. destruct (s !! i) as [x|] eqn:E; cbn; [|done].
  rewrite Forall_lookup in Hs. by eapply Hs.
Qed.

Lemma v6_loop_text (s post : list Z) (bits : Z) (v : Z) (l pre : list Z) (p index n : nat) (r1 r2 : list zbx_range) :
  Forall plain s -> Forall (fun x => x <> ch ":") post ->
  s = pre ++ groups_text 16 (ch ":") (v :: l) ++ post -> in_width 16 (v :: l) -> (p < length s - length post)%nat ->
  length r1 = index -> (length (v :: l) <= length r2)%nat -> (index + length (v :: l) <= 8)%nat -> (length (v :: l) < n)%nat ->
  v6_loop n s (length s - length post) bits (length pre) p (index, -1, r1 ++ r2) =
  Ret (Some ((index + length (v :: l))%nat, -1, r1 ++ single (v :: l) ++ drop (length (v :: l)) r2)).
Proof.
  intros Hs Hpost. revert v pre p index n r1 r2. induction l as [|v' l IH]; intros v pre p index n r1 r2 E Hw Hp Hi Hr H8 Hn;
    inversion Hw as [|? ? Hv Hw']; subst index.
  all: destruct (group_end 16 (ch ":") 16 ltac:(lia) ltac:(lia) ltac:(unfold digit_ok; cbn; lia) ltac:(done) s post Hpost pre v _ E Hv) as [Ep Ee].
  all: destruct (group_split 16 (ch ":") s post pre v _ E) as (rest & Es & Erest).
  all: destruct r2 as [|g r2]; [cbn in Hr; lia|]; destruct n as [|n]; [lia|].
  all: assert (Eg : parse_group number_v6 s bits (length pre) (length pre + length (print_number 16 v)) = Some (Range v v)) by
    (apply (parse_group_print _ _ pre (print_number 16 v) rest); [done|done|done|apply hex_print; lia]).
  all: destruct (print_ok 16 v ltac:(lia) ltac:(lia)) as [Hne _].
  all: assert (Hlen : (0 < length (print_number 16 v))%nat) by (destruct (print_number 16 v); [done|cbn; lia]).
  all: assert (Hrest : chr rest 1 <> ch ":").
  1: subst rest; by apply chr_not.
  2: { destruct Erest as [-> _]. unfold chr. cbn [nth]. inversion Hw' as [|? ? Hv' _]; subst.
       destruct (print_ok 16 v' ltac:(lia) ltac:(lia)) as [Hne' Hd']. unfold groups_text. cbn [fmap list_fmap join_with].
       destruct (print_number 16 v') as [|c d]; [done|]. inversion Hd' as [|? ? Hc _]; subst.
       assert (c <> ch ":") by (unfold digit_ok in Hc; cbn; lia).
       destruct l; cbn; done. }
  all: cbn [v6_loop]; rewrite (proj2 (Nat.ltb_lt _ _) Hp); rewrite (proj2 (Nat.ltb_lt (length r1) 8)) by (cbn [length] in H8; lia);
    cbn [andb negb]; rewrite Ep; rewrite (proj2 (Nat.eqb_neq _ _)) by lia; rewrite Eg; unfold set_group;
    rewrite (proj2 (Nat.ltb_lt (length r1) (length (r1 ++ g :: r2)))) by (rewrite length_app; cbn; lia); run; rewrite list_insert_split;
    rewrite (check_fill_none s pre (print_number 16 v) rest) by done; run.
  - destruct n as [|n]; [cbn in Hn; lia|]. cbn [v6_loop]. rewrite Ee, Nat.ltb_irrefl. done.
  - destruct Erest as [-> Es']. pose proof (IH v' (pre ++ print_number 16 v ++ [ch ":"]) (length pre + length (print_number 16 v))%nat
      (length r1 + 1)%nat n (r1 ++ [Range v v]) r2 Es' Hw' Ee) as IH'.
    rewrite !length_app in IH'. cbn [length] in IH'.
    replace (length pre + (length (print_number 16 v) + 1))%nat with (length pre + length (print_number 16 v) + 1)%nat in IH' by lia.
    rewrite <- !app_assoc in IH'. cbn [app] in IH'. cbn [length] in Hr, H8, Hn. rewrite IH'; [|lia|lia|lia|lia].
    do 4 f_equal. cbn [length]. lia.
Qed.

(* ------------------------------------------------------------------ *)
(** ** Reading an address back *)

Definition base (t : ip_type) : Z := match t with ZBX_IPRANGE_V4 => 10 | ZBX_IPRANGE_V6 => 16 end.
Definition separator (t : ip_type) : Z := match t with ZBX_IPRANGE_V4 => ch "." | ZBX_IPRANGE_V6 => ch ":" end.
Definition max_bits (t : ip_type) : Z := match t with ZBX_IPRANGE_V4 => 30 | ZBX_IPRANGE_V6 => 128 end.

(** A mask as it is written after an address; -1 for none. *)
Definition mask_text (bits : Z) : list Z := if bits =? -1 then [] else ch "/" :: print_number 10 bits.

Lemma ip2str_text (t : ip_type) (a : list Z) :
  length a = ZBX_IPRANGE_GROUPS t -> zbx_iprange_ip2str t a = groups_text (base t) (separator t) a.
Proof. intros Hl. unfold zbx_iprange_ip2str. destruct t; by rewrite take_ge by (rewrite Hl; cbn; lia). Qed.

(** The characters of an address are its digits and separators. *)
Lemma groups_text_chars (P : Z -> Prop) (b c w : Z) (a : list Z) :
  2 <= b <= 16 -> 0 <= w <= 32 -> in_width w a -> (forall x, digit_ok x -> P x) -> P c -> Forall P (groups_text b c a).
Proof.
  intros Hb Hw Ha Hd Hc.
  assert (Hp : forall v, 0 <= v < 2 ^ w -> Forall P (print_number b v)).
  { intros v Hv. pose proof (Z.pow_le_mono_r 2 w 32 ltac:(lia) ltac:(lia)). destruct (print_ok b v Hb ltac:(lia)) as [_ Hf].
    eapply Forall_impl; [exact Hf|]. exact Hd. }
  induction Ha as [|v a Hv Ha IH]; [constructor|]. destruct a as [|v' a]; [by apply Hp|]. rewrite groups_text_cons.
  apply Forall_app. split; [by apply Hp|]. by constructor.
Qed.

Lemma mask_text_chars (P : Z -> Prop) (bits : Z) :
  -1 <= bits < 2 ^ 32 -> (forall x, digit_ok x -> P x) -> P (ch "/") -> Forall P (mask_text bits).
Proof.
  intros Hb Hd Hs. unfold mask_text. destruct (Z.eqb_spec bits (-1)); [constructor|]. constructor; [done|].
  destruct (print_ok 10 bits ltac:(lia) ltac:(lia)) as [_ Hf]. eapply Forall_impl; [exact Hf|exact Hd].
Qed.

Lemma skip_whitespace_plain (s : list Z) : Forall plain s -> skip_whitespace s = s.
Proof.
  destruct 1 as [|c s Hc _]; [done|]. cbn. unfold plain in Hc. unfold iprange_is_whitespace_character.
  by rewrite !(proj2 (Z.eqb_neq _ _)) by lia.
Qed.

Lemma digit_plain (x : Z) : digit_ok x -> plain x.
Proof. unfold digit_ok, plain. lia. Qed.

Lemma parse_mask_text (s T : list Z) (bits max : Z) :
  s = T ++ mask_text bits -> Forall plain s -> Forall (fun x => x <> ch "/") T -> -1 <= bits <= max -> max < 2 ^ 32 ->
  parse_mask s max = Some ((length s - length (mask_text bits))%nat, bits) /\
  bool_decide (is_Some (strchr s 0 (ch "/"))) = negb (bits =? -1).
Proof.
  intros E Hs HT Hb Hm. assert (Hlen : iprange_address_length s = length s).
  { unfold iprange_address_length. rewrite skip_whitespace_plain by by apply Forall_reverse. apply length_reverse. }
  unfold parse_mask. rewrite Hlen. unfold mask_text in *. destruct (Z.eqb_spec bits (-1)) as [-> | Hn]; cbn [negb].
  - rewrite app_nil_r in E. subst T. unfold strchr. rewrite drop_0, find_none by done. cbn. rewrite Nat.sub_0_r. done.
  - assert (Ef : strchr s 0 (ch "/") = Some (length T)) by (unfold strchr; rewrite drop_0, E, find_app; done).
    rewrite Ef. split; [|done].
    assert (Ed : drop (length T + 1) s = print_number 10 bits).
    { rewrite E, drop_app_add. done. }
    assert (El : length s = (length T + 1 + length (print_number 10 bits))%nat) by (rewrite E, length_app; cbn; lia).
    rewrite Ed. replace (length s - (length T + 1))%nat with (length (print_number 10 bits)) by lia.
    pose proof (uint_print bits 0 max [] ltac:(lia) ltac:(lia) Hm ltac:(constructor)) as Eu. rewrite app_nil_r in Eu. rewrite Eu.
    cbn [mbind option_bind]. do 2 f_equal. cbn [length]. lia.
Qed.

Lemma parse_text (t : ip_type) (a : list Z) (r : list zbx_range) (bits : Z) :
  length a = ZBX_IPRANGE_GROUPS t -> in_width (group_bits t) a -> length r = 8%nat -> -1 <= bits <= max_bits t ->
  let rs := single a ++ drop (ZBX_IPRANGE_GROUPS t) r in
  zbx_iprange_parse r (zbx_iprange_ip2str t a ++ mask_text bits) =
  Ret (Some (Iprange (if negb (bits =? -1) then iprange_apply_mask t rs bits else rs) t (negb (bits =? -1)))).
Proof.
  intros Hl Ha Hr Hb rs. rewrite ip2str_text by done. set (T := groups_text (base t) (separator t) a). set (s := T ++ mask_text bits).
  assert (Hb32 : -1 <= bits < 2 ^ 32) by (destruct t; cbn in Hb; lia).
  assert (HT : forall P : Z -> Prop, (forall x, digit_ok x -> P x) -> P (separator t) -> Forall P T).
  { intros P HP Hsep. apply (groups_text_chars P _ _ (group_bits t)); [by destruct t|by destruct t|done..]. }
  assert (Hs : Forall plain s).
  { apply Forall_app. split; [apply HT|apply mask_text_chars]; try done; try exact digit_plain; unfold plain; destruct t; cbn; lia. }
  assert (Hslash : Forall (fun x => x <> ch "/") T).
  { apply HT; [|by destruct t]. intros x Hx ->. unfold digit_ok in Hx. cbn in Hx. lia. }
  assert (Hsep : Forall (fun x => x <> separator t) (mask_text bits)).
  { apply mask_text_chars; [done| |by destruct t]. intros x Hx ->. unfold digit_ok in Hx. destruct t; cbn in Hx; lia. }
  destruct (parse_mask_text s T bits (max_bits t) eq_refl Hs Hslash Hb ltac:(by destruct t)) as [Em Ei].
  assert (Hp : (0 < length s - length (mask_text bits))%nat).
  { unfold s. rewrite length_app. destruct a as [|v a]; [by destruct t|]. inversion Ha as [|? ? Hv _]; subst.
    destruct (print_ok (base t) v) as [Hne _]; [by destruct t|destruct t; cbn in Hv; lia|]. unfold T, groups_text. cbn [fmap list_fmap join_with].
    destruct (print_number (base t) v) as [|c d]; [done|]. destruct ((print_number (base t) <$> a)); cbn; lia. }
  unfold zbx_iprange_parse. rewrite skip_whitespace_plain by done. destruct a as [|v a]; [by destruct t|]. destruct t; cbn [max_bits] in *.
  - assert (Hdot : is_Some (strchr s 0 (ch "."))).
    { unfold strchr. rewrite drop_0. unfold s, T. destruct a as [|v' a]; [done|]. rewrite groups_text_cons, <- app_assoc, <- app_comm_cons.
      inversion Ha as [|? ? Hv _]; subst. destruct (print_ok 10 v ltac:(lia) ltac:(cbn in Hv; lia)) as [_ Hd]. rewrite find_app; [by eexists|].
      apply digits_no; [unfold digit_ok; cbn; lia|done]. }
    rewrite bool_decide_eq_true_2 by done. unfold iprangev4_parse. rewrite Em, Ei.
    pose proof (v4_loop_text s (mask_text bits) bits v a [] 0 0 [] r Hs Hsep eq_refl Ha Hp eq_refl ltac:(rewrite Hl, Hr; cbn; lia)) as E.
    rewrite Hl in E. cbn [length app Nat.add] in E. change (ZBX_IPRANGE_GROUPS ZBX_IPRANGE_V4) with 4%nat in *. rewrite E. by run.
  - assert (Hdot : strchr s 0 (ch ".") = None).
    { unfold strchr. rewrite drop_0, find_none; [done|done|]. apply Forall_app. split; [apply HT|apply mask_text_chars]; try done;
        intros x Hx ->; unfold digit_ok in Hx; cbn in Hx; lia. }
    rewrite Hdot. rewrite bool_decide_eq_false_2 by by intros []. unfold iprangev6_parse. rewrite Em, Ei.
    pose proof (v6_loop_text s (mask_text bits) bits v a [] 0 0 9 [] r Hs Hsep eq_refl Ha Hp eq_refl ltac:(rewrite Hl, Hr; cbn; lia)
      ltac:(rewrite Hl; cbn; lia) ltac:(rewrite Hl; cbn; lia)) as E.
    rewrite Hl in E. cbn [length app Nat.add] in E. change (ZBX_IPRANGE_GROUPS ZBX_IPRANGE_V6) with 8%nat in *. rewrite E. by run.
Qed.

Lemma single_box (a : list Z) : box (single a) = [a].
Proof.
  induction a as [|x a IH]; [done|]. unfold single in *. rewrite fmap_cons. cbn [box from to]. rewrite IH. replace (x - x + 1) with 1 by lia. rewrite seqZ_cons, seqZ_nil by lia. done.
Qed.

Lemma first_ok_single (t : ip_type) (a : list Z) (r : list zbx_range) :
  length a = ZBX_IPRANGE_GROUPS t -> in_width (group_bits t) a -> length r = 8%nat ->
  first_ok (group_bits t) (ZBX_IPRANGE_GROUPS t) (single a ++ drop (ZBX_IPRANGE_GROUPS t) r).
Proof.
  intros Hl Ha Hr. assert (Hs : length (single a) = ZBX_IPRANGE_GROUPS t) by by unfold single; rewrite length_fmap. split.
  - rewrite length_app, length_drop, Hs, Hr. by destruct t.
  - rewrite <- Hs, take_app_length. unfold single. apply Forall_fmap. eapply Forall_impl; [exact Ha|].
    intros x Hx. cbn in Hx |- *. unfold group_ok. cbn. lia.
Qed.

(** C29: Addresses survive being written and read: the text zbx_iprange_ip2str gives for an IPv4 or IPv6 address is parsed
    as the range of just this address; and with a slash and a number of bits after it, it is parsed as the block of the
    address, so that zbx_iprange_validate accepts exactly the addresses with the same leading bits. *)
Theorem iprange_text_exact (t : ip_type) (a : list Z) (r : list zbx_range) :
  length a = ZBX_IPRANGE_GROUPS t -> in_width (group_bits t) a -> length r = 8%nat ->
  (exists ip, zbx_iprange_parse r (zbx_iprange_ip2str t a) = Ret (Some ip) /\ type ip = t /\ addresses ip = [a]) /\
  (forall bits, 0 <= bits <= max_bits t ->
   exists ip, zbx_iprange_parse r (zbx_iprange_ip2str t a ++ ch "/" :: print_number 10 bits) = Ret (Some ip) /\
     type ip = t /\ IpRange.mask ip = true /\
     let rest := Z.of_nat (ZBX_IPRANGE_GROUPS t) * group_bits t - bits in
     forall x tl, length x = ZBX_IPRANGE_GROUPS t -> in_width (group_bits t) x ->
       zbx_iprange_validate ip (x ++ tl) = true <->
       number (group_bits t) x / 2 ^ rest = number (group_bits t) a / 2 ^ rest).
Proof.
  intros Hl Ha Hr. pose proof (first_ok_single t a r Hl Ha Hr) as Hf.
  assert (Hs : length (single a) = ZBX_IPRANGE_GROUPS t) by by unfold single; rewrite length_fmap. split.
  - pose proof (parse_text t a r (-1) Hl Ha Hr ltac:(by destruct t)) as E. unfold mask_text in E. rewrite app_nil_r in E.
    eexists. split; [exact E|]. split; [done|]. cbn [negb Z.eqb Pos.eqb]. unfold addresses, masked, groups. cbn [type IpRange.mask range].
    rewrite andb_false_r, <- Hs, take_app_length. apply single_box.
  - intros bits Hb. pose proof (parse_text t a r bits Hl Ha Hr ltac:(lia)) as E. unfold mask_text in E.
    rewrite (proj2 (Z.eqb_neq bits (-1))) in E by lia. cbn [negb] in E. eexists. split; [exact E|]. do 2 (split; [done|]).
    cbn zeta. intros x tl Hx Hw.
    pose proof (parsed_ok t _ bits true Hf ltac:(lia) ltac:(intros _; destruct t; exact Hb)) as Hok.
    rewrite (proj2 (Z.eqb_neq bits (-1))) in Hok by lia. cbn [negb] in Hok.
    rewrite (within_spec _ x tl Hok Hx), bool_decide_eq_true. unfold groups. cbn [type range].
    rewrite apply_mask_ok by done.
    assert (Et : take (ZBX_IPRANGE_GROUPS t) (single a ++ drop (ZBX_IPRANGE_GROUPS t) r) = single a) by by rewrite <- Hs, take_app_length.
    rewrite Et.
    assert (Hg : length (mask_block (group_bits t) (Z.of_nat (ZBX_IPRANGE_GROUPS t) * group_bits t - bits) (single a)) = ZBX_IPRANGE_GROUPS t)
      by by rewrite length_block.
    rewrite <- Hg at 1. rewrite take_app_length. apply in_block; [by destruct t|destruct t; cbn in Hb |- *; lia|done|done|by rewrite Hx].
Qed.

Lemma iprange_text_exact_witness :
  let r := replicate 8 (Range 0 0) in
  zbx_iprange_ip2str ZBX_IPRANGE_V4 [10; 0; 3; 7] = bytes_of "10.0.3.7" /\
  (exists ip, zbx_iprange_parse r (bytes_of "10.0.3.7") = Ret (Some ip) /\ addresses ip = [[10; 0; 3; 7]]) /\
  exists ip, zbx_iprange_parse r (bytes_of "10.0.3.7/22") = Ret (Some ip) /\
    forall x tl, length x = 4%nat -> in_width 8 x ->
      zbx_iprange_validate ip (x ++ tl) = true <-> number 8 x / 2 ^ 10 = number 8 [10; 0; 3; 7] / 2 ^ 10.
Proof.
  intros r.
  assert (Ha : in_width 8 [10; 0; 3; 7]) by by repeat constructor.
  destruct (iprange_text_exact ZBX_IPRANGE_V4 [10; 0; 3; 7] r eq_refl Ha eq_refl) as [(ip & E & _ & Had) H].
  destruct (H 22 ltac:(cbn; lia)) as (ip' & E' & _ & _ & Hv).
  split; [vm_compute; done|]. split.
  - exists ip. split; [exact E|exact Had].
  - exists ip'. split; [exact E'|exact Hv].
Defined.
