(* ===== verification/IpPorts.v ===== *)
(** The distinct ports of several port ranges. *)

From Stdlib Require Import ZArith Lia ZifyBool.
From S2P Require Import Prelude IpRange IpPath.
From stdpp Require Import base sets numbers list.

Open Scope Z_scope.

Definition ports (g : zbx_range) : list Z := seqZ (from g) (to g - from g + 1).
Definition has_port (g : zbx_range) (p : Z) : Prop := from g <= p <= to g.

#[export] Instance has_port_dec (g : zbx_range) (p : Z) : Decision (has_port g p).
Proof. unfold has_port. apply _. Defined.

Lemma elem_of_ports (g : zbx_range) (p : Z) : p ∈ ports g <-> has_port g p.
Proof. unfold ports, has_port. rewrite elem_of_seqZ. lia. Qed.

Section Ports.
  Context (ranges : list zbx_range).
  Context (ok : Forall (fun g => 0 <= from g <= to g /\ to g < 2 ^ 16) ranges).

Definition port_step (x : nat * Z) : option (nat * Z) :=
  if to (port_range ranges x.1) <? x.2 + 1 then
    if (S x.1 =? length ranges)%nat then None else Some (S x.1, from (port_range ranges (S x.1)))
  else Some (x.1, x.2 + 1).

Definition port_unseen (x : nat * Z) : bool := negb (port_seen ranges x.1 x.2).

(** A step of the walk is a round of the loop. *)
Lemma port_body_end (x : nat * Z) : port_step x = None -> exists z, port_body ranges x = Ret (inr (false, z)).
Proof.
  destruct x as [i p]. unfold port_step, port_body. cbn [fst snd]. destruct (_ <? _); [|done]. destruct (_ =? _)%nat; [|done]. eauto.
Qed.

Lemma port_body_step (x y : nat * Z) :
  port_step x = Some y -> port_body ranges x = Ret (if port_unseen y then inr (true, y) else inl y).
Proof.
  destruct x as [i p]. unfold port_step, port_body, port_unseen. cbn [fst snd].
  destruct (to (port_range ranges i) <? p + 1); [destruct (S i =? length ranges)%nat; [done|]|]; intros [= <-]; cbn [fst snd].
  - by destruct (port_seen ranges (S i) (from (port_range ranges (S i)))).
  - by destruct (port_seen ranges i (p + 1)).
Qed.

Fixpoint flat_ports (i : nat) (rs : list zbx_range) : list (nat * Z) :=
  match rs with
  | [] => []
  | g :: rs => ((fun p => (i, p)) <$> ports g) ++ flat_ports (S i) rs
  end.

Lemma port_range_middle (pre rs : list zbx_range) (g : zbx_range) :
  ranges = pre ++ g :: rs -> port_range ranges (length pre) = g.
Proof. intros ->. unfold port_range. by rewrite nth_middle. Qed.

Lemma one_range_path (pre rs : list zbx_range) (g : zbx_range) :
  ranges = pre ++ g :: rs ->
  path port_step (length pre, from g) ((fun p => (length pre, p)) <$> ports g) (length pre, to g).
Proof.
  intros E. pose proof (port_range_middle _ _ _ E) as Hg. rewrite E in ok. apply Forall_app in ok as [_ H]. apply Forall_inv in H.
  unfold ports. enough (Hn : forall n p, 0 <= n -> p + n = to g ->
    path port_step (length pre, p) ((fun p => (length pre, p)) <$> seqZ p (n + 1)) (length pre, to g)) by (apply Hn; lia).
  intros n p Hn. revert p. pattern n. apply natlike_ind; [| |done].
  - intros p Hp. rewrite seqZ_cons, seqZ_nil by lia. cbn. replace (to g) with p by lia. constructor.
  - intros m Hm IH p Hp. rewrite seqZ_cons by lia. rewrite fmap_cons. replace (Z.pred (Z.succ m + 1)) with (m + 1) by lia.
    econstructor; [|apply IH; lia]. unfold port_step. cbn [fst snd]. rewrite Hg, (proj2 (Z.ltb_ge _ _)) by lia. by rewrite Z.add_1_r.
Qed.

Lemma flat_ports_path (pre rs : list zbx_range) (g : zbx_range) :
  ranges = pre ++ g :: rs ->
  exists b, path port_step (length pre, from g) (flat_ports (length pre) (g :: rs)) b /\ port_step b = None.
Proof.
  revert pre g. induction rs as [|g' rs IH]; intros pre g E; pose proof (one_range_path _ _ _ E) as Hp;
    pose proof (port_range_middle _ _ _ E) as Hg.
  - exists (length pre, to g). cbn [flat_ports]. rewrite app_nil_r. split; [done|]. unfold port_step. cbn [fst snd].
    rewrite Hg, (proj2 (Z.ltb_lt _ _)) by lia. rewrite E, length_app. cbn [length]. by rewrite (proj2 (Nat.eqb_eq _ _)) by lia.
  - assert (E' : ranges = (pre ++ [g]) ++ g' :: rs) by by rewrite <- app_assoc.
    destruct (IH _ _ E') as (b & Hb & Hn). pose proof (port_range_middle _ _ _ E') as Hg'.
    rewrite length_app in *. cbn [length] in *. rewrite Nat.add_1_r in *. exists b. split; [|done].
    cbn [flat_ports]. eapply path_app; [exact Hp| |exact Hb]. unfold port_step. cbn [fst snd].
    rewrite Hg, Hg', (proj2 (Z.ltb_lt _ _)) by lia. rewrite E, length_app. cbn [length]. by rewrite (proj2 (Nat.eqb_neq _ _)) by lia.
Qed.

Lemma length_flat_ports (i : nat) (rs : list zbx_range) :
  Forall (fun g => 0 <= from g <= to g /\ to g < 2 ^ 16) rs -> Z.of_nat (length (flat_ports i rs)) <= Z.of_nat (length rs) * 2 ^ 16.
Proof.
  intros H. revert i. induction H as [|g rs Hg _ IH]; intros i; cbn [flat_ports length]; [lia|].
  rewrite length_app, length_fmap. unfold ports. rewrite length_seqZ. specialize (IH (S i)). lia.
Qed.

(** The ports of [rs] that no range before has. *)
Fixpoint distinct_ports (seen rs : list zbx_range) : list Z :=
  match rs with
  | [] => []
  | g :: rs => filter (fun p => Forall (fun s => ~ has_port s p) seen) (ports g) ++ distinct_ports (seen ++ [g]) rs
  end.

Lemma port_unseen_spec (pre rs : list zbx_range) (p : Z) :
  ranges = pre ++ rs -> port_unseen (length pre, p) = bool_decide (Forall (fun s => ~ has_port s p) pre).
Proof.
  intros E. unfold port_unseen, port_seen. cbn [fst snd]. rewrite E, take_app_length. clear E.
  induction pre as [|g pre IH]; [done|]. cbn [existsb]. rewrite negb_orb, IH. destruct (decide (has_port g p)) as [Hin|Hin].
  - unfold has_port in Hin. rewrite (proj2 (Z.leb_le (from g) p)), (proj2 (Z.leb_le p (to g))) by lia. symmetry. cbn.
    apply bool_decide_eq_false. inversion 1 as [|? ? Hn _]. by apply Hn.
  - assert (Hf : (from g <=? p) && (p <=? to g) = false) by (unfold has_port in Hin; lia). rewrite Hf. cbn.
    apply bool_decide_ext. split; [by constructor|by inversion 1].
Qed.

Lemma kept_ports (pre rs : list zbx_range) :
  ranges = pre ++ rs -> (filter (fun x => port_unseen x = true) (flat_ports (length pre) rs)).*2 = distinct_ports pre rs.
Proof.
  revert pre. induction rs as [|g rs IH]; intros pre E; [done|]. cbn [flat_ports distinct_ports].
  rewrite filter_app, fmap_app. pose proof (IH (pre ++ [g])) as IH'. rewrite length_app, <- app_assoc in IH'. cbn [length app] in IH'.
  rewrite Nat.add_1_r in IH'. rewrite (IH' E). f_equal. induction (ports g) as [|p l IHl]; [done|].
  rewrite fmap_cons, !filter_cons, (port_unseen_spec pre (g :: rs) p E).
  destruct (decide (Forall (fun s => ~ has_port s p) pre)) as [Hf|Hf].
  - rewrite bool_decide_eq_true_2 by done. rewrite decide_True by done. cbn. by f_equal.
  - rewrite bool_decide_eq_false_2 by done. rewrite decide_False by done. done.
Qed.
End Ports.

Lemma elem_of_distinct_ports (seen rs : list zbx_range) (p : Z) :
  p ∈ distinct_ports seen rs <-> Forall (fun s => ~ has_port s p) seen /\ Exists (fun g => has_port g p) rs.
Proof.
  revert seen. induction rs as [|g rs IH]; intros seen; cbn [distinct_ports].
  - rewrite elem_of_nil. split; [done|]. by intros [_ ?%Exists_nil].
  - rewrite elem_of_app, list_elem_of_filter, elem_of_ports, IH, Forall_app, Forall_singleton, Exists_cons.
    destruct (decide (has_port g p)); naive_solver.
Qed.

Lemma NoDup_distinct_ports (seen rs : list zbx_range) : NoDup (distinct_ports seen rs).
Proof.
  revert seen. induction rs as [|g rs IH]; intros seen; [constructor|]. cbn [distinct_ports].
  apply NoDup_app. split_and!; [apply NoDup_filter, NoDup_seqZ| |apply IH].
  intros p [_ Hp%elem_of_ports]%list_elem_of_filter [H _]%elem_of_distinct_ports.
  apply Forall_app in H as [_ H%Forall_inv]. by destruct (H Hp).
Qed.

Definition port_next (ranges : list zbx_range) (x : nat * Z) : option (nat * Z) :=
  match zbx_portrange_uniq_iter ranges x with Ret (true, y) => Some y | _ => None end.

Lemma flat_ports_elem (i : nat) (rs : list zbx_range) (x : nat * Z) :
  x ∈ flat_ports i rs -> (x.1 < i + length rs)%nat /\ Exists (fun g => has_port g x.2) rs.
Proof.
  revert i. induction rs as [|g rs IH]; intros i; cbn [flat_ports length]; [by intros ?%elem_of_nil|].
  intros [(p & -> & Hp)%list_elem_of_fmap | (Hi & H)%IH]%elem_of_app; cbn.
  - split; [lia|]. left. by apply elem_of_ports.
  - split; [lia|]. by right.
Qed.

Lemma flat_ports_iter (ranges : list zbx_range) (x : nat * Z) :
  Forall (fun g => 0 <= from g <= to g /\ to g < 2 ^ 16) ranges -> x ∈ flat_ports 0 ranges ->
  zbx_portrange_uniq_iter ranges x = while (16 + length ranges) (port_body ranges) x.
Proof.
  intros Hok Hx. destruct x as [i p]. apply flat_ports_elem in Hx as [Hi Hx]. cbn [fst snd] in *. unfold zbx_portrange_uniq_iter.
  destruct ranges as [|g rs] eqn:E; [cbn in Hi; lia|]. rewrite <- E in *.
  assert (Hp0 : 0 <= p).
  { apply Exists_exists in Hx as (s & Hin & Hx). rewrite Forall_forall in Hok. specialize (Hok s Hin). unfold has_port in Hx. lia. }
  rewrite (proj2 (Z.eqb_neq _ _)) by (unfold ZBX_PORTRANGE_INIT_PORT; lia). by rewrite (proj2 (Nat.eqb_neq _ _)) by lia.
Qed.

(** The iterator over several port ranges visits every port that is in one of
    them exactly once, and no other; each call ends. *)
Theorem portrange_uniq_exact (ranges : list zbx_range) (idx : nat) :
  Forall (fun g => 0 <= from g <= to g /\ to g < 2 ^ 16) ranges -> ranges <> [] ->
  exists x l, zbx_portrange_uniq_iter ranges (idx, ZBX_PORTRANGE_INIT_PORT) = Ret (true, x) /\ walk (port_next ranges) x l /\
    NoDup l.*2 /\ (forall p, p ∈ l.*2 <-> Exists (fun g => has_port g p) ranges) /\
    Forall (fun x => exists v, zbx_portrange_uniq_iter ranges x = Ret v) l.
Proof.
  intros Hok Hne. destruct ranges as [|g rs] eqn:E; [done|]. rewrite <- E in *.
  destruct (flat_ports_path ranges Hok [] rs g E) as (b & Hp & Hb). cbn [length] in Hp. rewrite <- E in Hp.
  pose proof (length_flat_ports 0 ranges Hok) as Hlen.
  assert (Hk : Z.of_nat (length (flat_ports 0 ranges)) < 2 ^ Z.of_nat (16 + length ranges)).
  { rewrite Nat2Z.inj_add, Z.pow_add_r by lia. change (Z.of_nat 16) with 16.
    pose proof (Z.pow_gt_lin_r 2 (Z.of_nat (length ranges)) ltac:(lia) ltac:(lia)) as Hg.
    apply (Z.mul_lt_mono_pos_l (2 ^ 16)) in Hg; lia. }
  set (l := filter (fun x => port_unseen ranges x = true) (flat_ports 0 ranges)).
  assert (Hsub : forall x, x ∈ l -> x ∈ flat_ports 0 ranges) by by intros x [_ ?]%list_elem_of_filter.
  assert (Hiter : forall x, x ∈ l -> zbx_portrange_uniq_iter ranges x = while (16 + length ranges) (port_body ranges) x).
  { intros x Hx. by apply flat_ports_iter, Hsub. }
  pose proof (kept_ports ranges [] ranges eq_refl : l.*2 = distinct_ports [] ranges) as Hkept.
  exists (0%nat, from g), l. split_and!.
  - rewrite E. done.
  - pose proof (kept_walk (port_step ranges) (port_unseen ranges) _ _ (port_body_end ranges) (port_body_step ranges) _ _ _ Hp Hb Hk) as Hw.
    pose proof Hp as Hh. apply path_head in Hh as [l' El].
    assert (Hl : l = (0%nat, from g) :: filter (fun x => port_unseen ranges x = true) l').
    { unfold l. rewrite El, filter_cons, decide_True; done. }
    rewrite El in Hw. cbn [tail] in Hw. rewrite Hl in *. apply (walk_ext _ _ _ _) with (2 := Hw). intros x Hx. unfold next_kept, port_next.
    by rewrite (Hiter x Hx).
  - rewrite Hkept. apply NoDup_distinct_ports.
  - intros p. rewrite Hkept, elem_of_distinct_ports. split; [by intros [_ ?]|]. split; [constructor|done].
  - apply Forall_forall. intros x Hx. rewrite (Hiter x Hx). destruct (path_from _ _ _ x _ Hp (Hsub x Hx)) as (l' & Hp' & Hl').
    destruct (kept_run (port_step ranges) (port_unseen ranges) (16 + length ranges) _ (port_body_end ranges) (port_body_step ranges) _ _ _ Hp' Hb ltac:(lia)) as (v & Hv & _). by exists v.
Qed.
